(* ===== verification/_CoqProject ===== *)
-Q . S2P
Prelude.v
PyStd.v
Protocol.v
Outbox.v
OutboxSpec.v
OutboxSpool.v
OutboxLives.v
OutboxProps.v
CommandQueue.v
Db.v
Fleet.v
Commands.v
Sandbox.v
Usage.v
Blobs.v
Artifacts.v
Accounting.v
Ingest.v
IngestSpec.v
IngestProps.v
IngestTurns.v
TurnState.v
Hub.v
HubProps.v
HubSystem.v
HubCapacity.v
HubLeases.v
SecretMask.v
Inject.v
Netguard.v
Sni.v
Dns.v
Egress.v
Deltas.v
Writer.v
Pool.v
PoolProps.v
Serve.v
ServeProps.v
Delivery.v
DeliveryProps.v
Client.v
ClientProps.v
EventStream.v
EventStreamProps.v
Files.v
FilesProps.v
FilesMessages.v
FilesLists.v
Fs.v
Workspace.v
WorkspaceProps.v
Setup.v
SetupProps.v
Skills.v
SkillsProps.v
Uploads.v
UploadsProps.v
Sink.v
TurnEnd.v
Runtime.v
TurnProtocol.v
RuntimeProps.v
Settle.v
