(* ===== verification/Prelude.v ===== *)
(** * ApiPi: a verification library for the agent gateway

    ApiPi (src/src/apipi/) runs agent sessions.  An API replica takes requests over
    HTTP, keeps its state in a SQL database, and hands each session to a worker under
    a lease; a worker runs the agent of a session in a sandbox and reports what happens
    as durable envelopes over a websocket; the sandbox reaches the network through an
    egress gateway of the worker.  This library models the parts whose state decides
    whether that is correct, and proves what they promise one another.

    ** The parts, and the files that model them

    The worker's side of a session's events:
    - [Outbox] is worker/outbox.py: the buffers, the numbering, the limits, the spool and its
      compaction.  [OutboxSpec] is the invariant of its state, [OutboxSpool] ties the spool
      to it, [OutboxLives] follows a worker through its restarts, and [OutboxProps] has the
      theorems.
    - [Protocol] has what frames and envelopes look like (protocol/).
    - [Client] is worker/client.py with commands.py and inventory.py: the commands, teardowns,
      stops and releases of a worker as tasks that outlive its connections, with its leases
      and the dedupe; its theorems are in [ClientProps].

    The turns on a worker, which make these events:
    - [Sink] is worker/sink.py and artifact_upload.py: every report of a turn as an envelope of
      the outbox, in a monad over the state of the turn that writes down what others see.
      [TurnEnd] is worker/turn_end.py, the endings of a turn; [Runtime] is worker/runtime.py
      from the moment the context of a turn is prepared, with the dispatch of a turn command
      (commands.py).
    - [TurnProtocol] gives the order docs/worker-protocol.md requires as a language of envelopes,
      with a calculus of what the code says in it; [RuntimeProps] has the theorems, and [Settle]
      follows the end of a turn from the worker into the database.

    The API's side of the same events:
    - [Ingest] is services/ingest.py: a batch of envelopes, each in a savepoint.  [IngestSpec]
      is the contract of its handlers, [IngestProps] and [IngestTurns] have the theorems.
    - [Db] has the tables and the repository functions (store/models.py, store/repo.py);
      [Sandbox] the sandbox columns of a session (services/sandbox_status.py), [Usage] and
      [Accounting] the token counts, turn logs and rollups (common/usage.py,
      services/turn_log.py), [Blobs] and [Artifacts] the object store and the uploads of
      workers (store/blobs.py, services/worker_artifacts.py), [TurnState] how the API ends a
      turn itself (services/turn_state.py).
    - [EventStream] is the way of the stored events to the clients: the fan-out of a replica
      (common/event_bus.py) and the generator of a stream (services/sessions.py), with its
      theorems in [EventStreamProps].
    - [Files] is services/files.py with the files of a message (services/sessions.py): names,
      visibility, bindings, lists and the sweep.  [FilesProps] has the paths and bindings,
      [FilesMessages] a message whose turn was not sent, [FilesLists] pages and the sweep.
    - [Uploads] is services/uploads.py: the completes of clients' uploads as tasks cut at their
      awaits, over the rows, the locks and the object store they share ([UploadsProps]).

    The workspace of a session:
    - [Fs] is a host's file system with directories and links, what `pathlib` and `os` do
      with it.  [Workspace] has the paths and the files of environments and messages
      (env/setup.py) and the tars of guests (worker/pi/artifacts.py), with their theorems in
      [WorkspaceProps].
    - [Setup] is the rest of env/setup.py: packages, commands, variables and network of an
      environment, the shell texts made of them, preparing a workspace, and what a boot reads
      back from it (worker/pi/microvm.py); [SetupProps] has the theorems.
    - [Skills] is common/skills.py and services/skill_store.py: checking, storing and
      unpacking packages ([SkillsProps]).

    The leases between the two:
    - [Fleet] chooses a worker (workerhub/fleet.py, common/placement.py); [Commands] makes and
      checks a command (workerhub/commands.py); [CommandQueue] holds what is not acked
      (workerhub/command_queue.py).
    - [Hub] is workerhub/hub.py with deltas.py and inventory.py: connections, leases, commands
      and live deltas.  [HubProps] has its invariant, [HubSystem] the interleaving of its
      operations as a step relation, [HubCapacity] and [HubLeases] the theorems.
    - [Serve] is workerhub/serve.py: the lanes between a worker's socket and the hub, with
      their theorems in [ServeProps].
    - [Delivery] composes the outbox of a worker, its connections one after another with the
      servers at their other ends, and the database ([DeliveryProps]).

    The way out of a sandbox (worker/egress/):
    - [Netguard] has network addresses and the guard (common/netguard.py, resolve.py), [Sni]
      the TLS hello (sni.py), [Dns] the DNS filter (dns.py), [Inject] and [SecretMask] the
      credentials put into requests and masked in responses (inject.py), and [Egress] the
      policy and the gateway (policy.py, gateway.py).

    The tasks that share an object of one process, cut at their awaits:
    - [Deltas] is worker/deltas.py, the relay of live text from a worker; [Writer] is
      workerhub/writer.py, the queue in front of a worker's socket; [Pool] is
      worker/pi/pool.py, the processes of a worker, with its theorems in [PoolProps].

    [Prelude] (this file) has results, insertion-ordered dicts and the lemmas on lists the
    files share; [PyStd] the parts of Python's library: text, UUIDs, JSON.

    An envelope's way through the parts: [Outbox.append] numbers it, [Ingest.flush_batch]
    applies it once and moves the session's cursor, the hub acks it, [Outbox.acked] drops it.
    A session's: [Fleet.choose] and [Hub.acquire] lease it, [Hub.send_command] sends its turn
    to the holder of the lease, and an inventory, an expiry or a reconnect ([HubLeases])
    decides what becomes of the lease.

    ** What the theorems show

    - Delivery, from end to end: through lost acks, commits that look failed and reconnects, an
      envelope takes effect at most once, in order, and what is not recorded is still pending
      at the worker; a server is a queue that loses and reorders nothing.
    - Outbox: the counters, numbering and buffers agree in every reachable state, sequence
      numbers have no gap (from the ack on within a life; after a restart possibly from
      above it), in one life the limits, or what it began with, are exceeded by no more than
      the emergency budget, an ack drops what it covers, a reconnect replays everything
      unacked in order, and a restart recovers it from the spool, also when a compaction runs
      in between.
    - Client: a command runs after the teardowns its connection scheduled before it, and once
      over all connections; two runs in which a command is lost after its ack failed, and in
      which a teardown of an earlier connection drops what a new turn has buffered.
    - Turns, when the outbox takes every report: what a turn reports is in the language of the
      protocol, whatever the harness yields and whenever it is cancelled, but for a turn whose
      files cannot be published after it was reported completed, and for one that an error of
      the harness's own or a lack of capacity leaves open; its command leaves the session
      settled; a turn that fails or is cancelled ends at the API when its reports
      are applied; an overflow of the outbox is reported from the emergency budget, while it
      lasts, where the code catches it, and lemmas show where it does not.
    - Ingest: a batch acks each session up to the first envelope whose run failed for a
      temporary reason, and reports every other failure as a rejection; every envelope is
      accounted for; one already in the ledger changes nothing; a worker changes only the
      sessions it has a lease of; the event numbers have no gap; the cache of turn lookups is
      transparent; a session has at most one running turn, when each envelope is for the turn
      its payload names.
    - Streams: a client sees the stored events in order and none twice, without gaps when one
      replica stores all of them and publishes them in order, and not otherwise; a poll
      catches up.
    - Files: every name gets a free path in its directory; exactly what attaching changes; a
      message whose turn was not sent leaves only bindings of files it named by id, or, when
      one of its images could not be stored, the images before it; pages
      hold every file once; the sweep takes exactly what is old and unused.
    - Workspace: where the files of environments, messages, guests and skills can land, whatever
      links are there (for skills: without links), and what they leave alone; a boot reads back
      the network an environment asked for as long as the workspace's own directory is left
      alone, the policy made of it confines the guest, and a shell reads back the variables;
      one lemma shows a tar that writes outside.
    - Uploads: what a completed upload stores does not change unless a call that a cancelled
      complete of it left in its thread lands late (a lemma shows that one can lose it); all
      completes of it answer the same, and every complete ends.
    - Hub: a command only goes to the worker that holds the lease, a delta is only taken from
      it, however the operations interleave; exactly what an inventory, an expiry and a
      reconnect do; a grant that nothing interrupts respects the capacity, and two that
      interleave need not.
    - Connection: a release is handled after everything its session reported before it was
      applied, or on a connection that closes because a batch was given up (a lemma shows
      that this happens); and which frames end the connection.
    - Egress: what a connection can reach, what the DNS filter tells the resolvers, that
      masking in pieces is masking whole, and that hellos, questions and placeholder
      addresses are read back as what they stand for.
    - Shared objects: the relay loses and reorders no text on its own, though the tail of a
      flush can stay behind; frames reach a socket in order and every future is settled once;
      the pool keeps within its sessions, tenants and memory, and a spawn that is cancelled is
      never forgotten.
    - Artifacts, usage, commands, placement and turns: the functional theorems of [Artifacts],
      [Blobs], [Accounting], [CommandQueue], [Fleet] and [TurnState].

    ** How the code is represented

    - A function that can raise returns [res]; a coroutine that awaits a transaction or a
      socket is cut there, and its parts are composed or interleaved.
    - A `str` is the list of the bytes of its UTF-8 encoding (WTF-8 for lone surrogates), an
      `int` a [Z] or [N], a time an integer in a unit fine enough for the constants it meets;
      a `dict` whose order matters is an [odict], another a [gmap].
    - Objects that are shared and mutated carry the number of the object, and identity is
      compared where the code compares it: envelopes and buffers of the outbox, commands
      of the queue, connections of the hub, and the ORM's rows within a transaction.
    - Readings of the clock, fresh ids, random bytes and the outcome of input and output are
      arguments: every theorem holds for all of them.
    - A table is a list of rows (the sessions a finite map); a transaction or savepoint that
      rolls back keeps the old value.
    - Code that is not in the repository is an argument: pydantic's validation, SHA-256, the
      S3 client and its presigned URLs, base64, zip archives, JSON texts of files, zlib, the categories of Unicode, h11, the resolver, the registries behind
      `ipaddress`'s `is_private`, and the classification of model host messages.
    - Loops that are not structural run on fuel: the length of the bytes for the records of a
      hello, the labels of a DNS name and the packets of a stream, the number of taken paths for
      a free one and of files for a sweep, with lemmas that the fuel is enough
      ([Sni.records_fuel], [Dns.read_labels_fuel], [FilesProps.free_from_spec],
      [FilesLists.sweep_ok], [SkillsProps.free_dest_found]).  A path is followed through as many links as
      the system has; more within one another are a loop.
    - Logs, metrics, spans and exports are left out: nothing reads them back.

    ** Not modelled

    The hub's forwarder between replicas (the replica modelled has none), the handshake and
    the heartbeats; the services behind the HTTP API (sessions, agents,
    templates, vaults) and the routes, the authentication and the MCP client; the
    preparation of a turn (its context, files, skills and prompt are inputs of [Runtime]), the
    harness and the sandboxes (processes, cgroups, images, network devices); the proxy loop
    of intercept.py, the splice and the certificates; configuration, the command line,
    metrics and migrations.  The first groups have state worth modelling and are next:
    the services of sessions and the heartbeat.
    The others are input and output, or glue around a framework. *)

From Stdlib Require Export ZArith Lia.
From stdpp Require Export base list gmap sets strings numbers option.


Create HintDb apipi.
Create Rewrite HintDb apipi_rw.

(** Identifiers (`uuid.UUID`) are 128-bit integers; only equality of ids matters
    to the protocol, printing and parsing are in [PyStd]. *)
Abbreviation uuid := N (only parsing).

(** ** Results: a Python call returns a value or raises. *)
Inductive res (E A : Type) : Type :=
| Ok (a : A)
| Err (e : E).
Arguments Ok {E A} a.
Arguments Err {E A} e.

(** Exceptions propagate: [x ← c; k] runs [k] only when [c] returns. *)
#[export] Instance res_ret {E} : MRet (res E) := λ A a, Ok a.
#[export] Instance res_bind {E} : MBind (res E) := λ A B f r,
  match r with Ok a => f a | Err e => Err e end.
#[export] Instance res_fmap {E} : FMap (res E) := λ A B f r,
  match r with Ok a => Ok (f a) | Err e => Err e end.

Definition res_is_ok {E A} (r : res E A) : bool :=
  match r with Ok _ => true | Err _ => false end.

(** ** Python dictionaries

    A `dict` (and an `OrderedDict`) keeps its keys in insertion order; assigning
    to a present key keeps its place, deleting and assigning again moves it to
    the end.  [odict] is that structure: a list of pairs behind a constructor, so
    that the map notations do not collide with the ones of lists. *)
Record odict (K V : Type) : Type := ODict { oitems : list (K * V) }.
Arguments ODict {K V} oitems.
Arguments oitems {K V} _.

Section odict.
Context {K V : Type} `{EqDecision K}.
Implicit Types (d : odict K V) (k : K) (v : V) (l : list (K * V)).

Fixpoint lget l k : option V :=
  match l with
  | [] => None
  | (k', v) :: l' => if decide (k' = k) then Some v else lget l' k
  end.

Fixpoint lset l k v : list (K * V) :=
  match l with
  | [] => [(k, v)]
  | (k', v') :: l' =>
      if decide (k' = k) then (k, v) :: l' else (k', v') :: lset l' k v
  end.

Fixpoint ldel l k : list (K * V) :=
  match l with
  | [] => []
  | (k', v') :: l' => if decide (k' = k) then ldel l' k else (k', v') :: ldel l' k
  end.

#[global] Instance odict_lookup : Lookup K V (odict K V) := λ k d, lget (oitems d) k.
#[global] Instance odict_insert : Insert K V (odict K V) :=
  λ k v d, ODict (lset (oitems d) k v).
#[global] Instance odict_delete : Delete K (odict K V) :=
  λ k d, ODict (ldel (oitems d) k).
#[global] Instance odict_empty : Empty (odict K V) := ODict [].

Definition okeys d : list K := (oitems d).*1.
Definition ovals d : list V := (oitems d).*2.
Definition olen d : nat := length (oitems d).
Definition odict_ok d : Prop := NoDup (okeys d).

Lemma olookup_empty k : (∅ : odict K V) !! k = None.
Proof. done. Qed.

Lemma lget_lset l k k' v :
  lget (lset l k v) k' = if decide (k = k') then Some v else lget l k'.
Proof.
  induction l as [|[k0 v0] l IH]; simpl; [done|].
  destruct (decide (k0 = k)) as [->|]; simpl; [by destruct (decide (k = k'))|].
  destruct (decide (k0 = k')) as [->|]; [|done].
  by destruct (decide (k = k')).
Qed.

Lemma lget_ldel l k k' :
  lget (ldel l k) k' = if decide (k = k') then None else lget l k'.
Proof.
  induction l as [|[k0 v0] l IH]; simpl; [by destruct (decide _)|].
  destruct (decide (k0 = k)) as [->|]; simpl; rewrite IH.
  - by destruct (decide (k = k')).
  - destruct (decide (k0 = k')) as [->|]; [|done].
    by destruct (decide (k = k')).
Qed.

Lemma olookup_insert d k k' v :
  <[k:=v]> d !! k' = if decide (k = k') then Some v else d !! k'.
Proof. apply lget_lset. Qed.
Lemma olookup_insert_eq d k v : <[k:=v]> d !! k = Some v.
Proof. rewrite olookup_insert. by destruct (decide _). Qed.
Lemma olookup_insert_ne d k k' v : k ≠ k' → <[k:=v]> d !! k' = d !! k'.
Proof. intros ?. rewrite olookup_insert. by destruct (decide _). Qed.
Lemma olookup_delete d k k' :
  delete k d !! k' = if decide (k = k') then None else d !! k'.
Proof. apply lget_ldel. Qed.
Lemma olookup_delete_eq d k : delete k d !! k = None.
Proof. rewrite olookup_delete. by destruct (decide _). Qed.
Lemma olookup_delete_ne d k k' : k ≠ k' → delete k d !! k' = d !! k'.
Proof. intros ?. rewrite olookup_delete. by destruct (decide _). Qed.

Lemma lset_keys l k v k' : k' ∈ (lset l k v).*1 ↔ k' = k ∨ k' ∈ l.*1.
Proof.
  induction l as [|[k0 v0] l IH]; simpl.
  - rewrite elem_of_cons. naive_solver.
  - destruct (decide (k0 = k)) as [->|]; simpl; rewrite !elem_of_cons; [|rewrite IH]; tauto.
Qed.
Lemma ldel_keys l k k' : k' ∈ (ldel l k).*1 ↔ k' ≠ k ∧ k' ∈ l.*1.
Proof.
  induction l as [|[k0 v0] l IH]; simpl.
  - split; [by intros ?%elem_of_nil|by intros [_ ?]].
  - destruct (decide (k0 = k)) as [->|]; simpl; rewrite ?elem_of_cons, IH;
      destruct (decide (k' = k)); naive_solver.
Qed.
Lemma elem_of_okeys d k : k ∈ okeys d ↔ is_Some (d !! k).
Proof.
  unfold okeys, lookup, odict_lookup. destruct d as [l]; simpl.
  induction l as [|[k0 v0] l IH]; simpl.
  - split; [by intros ?%elem_of_nil|]. by intros [? ?].
  - rewrite elem_of_cons, IH. destruct (decide (k0 = k)) as [->|]; [|naive_solver].
    split; [eauto|by left].
Qed.

Lemma odict_ok_empty : odict_ok ∅.
Proof. constructor. Qed.
Lemma odict_ok_insert d k v : odict_ok d → odict_ok (<[k:=v]> d).
Proof.
  unfold odict_ok, okeys, insert, odict_insert. destruct d as [l]; simpl.
  induction l as [|[k0 v0] l IH]; simpl; intros Hd.
  - constructor; [by intros ?%elem_of_nil|constructor].
  - apply list.NoDup_cons in Hd as [Hk Hd].
    destruct (decide (k0 = k)) as [->|]; simpl.
    + by constructor.
    + constructor; [|by apply IH]. rewrite lset_keys. naive_solver.
Qed.
Lemma odict_ok_delete d k : odict_ok d → odict_ok (delete k d).
Proof.
  unfold odict_ok, okeys, delete, odict_delete. destruct d as [l]; simpl.
  induction l as [|[k0 v0] l IH]; simpl; intros Hd; [constructor|].
  apply list.NoDup_cons in Hd as [Hk Hd].
  destruct (decide (k0 = k)); [by apply IH|].
  simpl. constructor; [|by apply IH]. rewrite ldel_keys. naive_solver.
Qed.

Lemma elem_of_oitems d k v : odict_ok d → (k, v) ∈ oitems d ↔ d !! k = Some v.
Proof.
  unfold odict_ok, okeys, lookup, odict_lookup. destruct d as [l]; simpl.
  induction l as [|[k0 v0] l IH]; simpl; intros Hd.
  { split; [by intros ?%elem_of_nil|done]. }
  apply list.NoDup_cons in Hd as [Hk Hd]. rewrite elem_of_cons, IH by done.
  destruct (decide (k0 = k)) as [->|]; [|naive_solver].
  split; [intros [?|Hl]; [naive_solver|]|naive_solver].
  exfalso. apply Hk. change k with (k, v).1. apply list_elem_of_fmap.
  exists (k, v). split; [done|]. by apply IH.
Qed.

(** Sums over the values, for the counters a component keeps next to a dict. *)
Definition osum (f : V → Z) d : Z := foldr Z.add 0%Z (f <$> ovals d).

Lemma osum_empty f : osum f ∅ = 0%Z.
Proof. done. Qed.
Lemma osum_insert f d k v :
  osum f (<[k:=v]> d) = (osum f d + f v - from_option f 0 (d !! k))%Z.
Proof.
  unfold osum, ovals, insert, odict_insert, lookup, odict_lookup.
  destruct d as [l]; simpl.
  induction l as [|[k0 v0] l IH]; csimpl; [lia|].
  destruct (decide (k0 = k)) as [->|]; csimpl; lia.
Qed.
Lemma osum_delete f d k :
  odict_ok d → osum f (delete k d) = (osum f d - from_option f 0 (d !! k))%Z.
Proof.
  unfold odict_ok, okeys, osum, ovals, delete, odict_delete, lookup, odict_lookup.
  destruct d as [l]; simpl.
  induction l as [|[k0 v0] l IH]; csimpl; intros Hd; [lia|].
  apply list.NoDup_cons in Hd as [Hk Hd]. specialize (IH Hd).
  destruct (decide (k0 = k)) as [->|]; csimpl; [|lia].
  assert (lget l k = None) as Hn.
  { destruct (lget l k) eqn:E; [|done]. exfalso. apply Hk.
    change l.*1 with (okeys (ODict l)). apply elem_of_okeys. by eexists. }
  rewrite Hn in IH. simpl in IH. lia.
Qed.
Lemma osum_nonneg f d : (∀ v, 0 ≤ f v)%Z → (0 ≤ osum f d)%Z.
Proof.
  intros Hf. unfold osum. induction (ovals d) as [|v l IH]; csimpl; [done|].
  specialize (Hf v). lia.
Qed.
End odict.

#[export] Hint Resolve odict_ok_empty odict_ok_insert odict_ok_delete : apipi.
#[export] Hint Rewrite @olookup_insert_eq @olookup_delete_eq @olookup_empty : apipi_rw.

(** ** Lists *)
Section lists.
Context {A : Type}.
Implicit Types (l : list A) (P : A → bool).

(** `while q and P(q[0]): q.popleft()` *)
Fixpoint drop_while P l : list A :=
  match l with
  | [] => []
  | x :: l' => if P x then drop_while P l' else l
  end.
Fixpoint take_while P l : list A :=
  match l with
  | [] => []
  | x :: l' => if P x then x :: take_while P l' else []
  end.

Lemma take_drop_while P l : take_while P l ++ drop_while P l = l.
Proof. induction l as [|x l IH]; simpl; [done|]. destruct (P x); simpl; congruence. Qed.

Lemma drop_while_suffix P l : drop_while P l `suffix_of` l.
Proof. exists (take_while P l). by rewrite take_drop_while. Qed.

Lemma take_while_all P l : Forall (λ x, P x = true) (take_while P l).
Proof.
  induction l as [|x l IH]; simpl; [constructor|].
  destruct (P x) eqn:E; constructor; done.
Qed.

Lemma drop_while_app_all P l1 l2 :
  Forall (λ x, P x = true) l1 → drop_while P (l1 ++ l2) = drop_while P l2.
Proof. induction 1 as [|x l Hx Hl IH]; simpl; [done|]. by rewrite Hx. Qed.

Lemma drop_while_none P l : Forall (λ x, P x = false) l → drop_while P l = l.
Proof. destruct 1 as [|x l Hx Hl]; simpl; [done|]. by rewrite Hx. Qed.
End lists.

Lemma filter_all {A} (P : A → Prop) `{∀ x, Decision (P x)} (l : list A) :
  Forall P l → filter P l = l.
Proof.
  induction 1 as [|x l Hx Hl IH]; [done|].
  rewrite filter_cons, decide_True by done. by f_equal.
Qed.

Lemma filter_none {A} (P : A → Prop) `{∀ x, Decision (P x)} (l : list A) :
  Forall (λ x, ¬ P x) l → filter P l = [].
Proof.
  induction 1 as [|x l Hx Hl IH]; [done|].
  by rewrite filter_cons, decide_False by done.
Qed.

Lemma last_app_default {A} (d : A) l x : default d (list.last (l ++ [x])) = x.
Proof. by rewrite last_snoc. Qed.

(** A list of integers that strictly increases, starting above [lo]. *)
Fixpoint increasing (lo : Z) (l : list Z) : Prop :=
  match l with
  | [] => True
  | x :: l' => (lo < x)%Z ∧ increasing x l'
  end.

Lemma increasing_weaken lo lo' l : (lo' ≤ lo)%Z → increasing lo l → increasing lo' l.
Proof. destruct l; simpl; [done|]. intros ? [? ?]. split; [lia|done]. Qed.

Lemma increasing_lower lo l x : increasing lo l → x ∈ l → (lo < x)%Z.
Proof.
  revert lo. induction l as [|y l IH]; intros lo; simpl; [by intros ? ?%elem_of_nil|].
  intros [Hy Hl] [->|Hx]%elem_of_cons; [lia|]. specialize (IH _ Hl Hx). lia.
Qed.

Lemma default_last_cons {A} (lo x : A) l :
  default lo (list.last (x :: l)) = default x (list.last l).
Proof. rewrite last_cons. by destruct (list.last l). Qed.

Lemma increasing_app lo l1 l2 :
  increasing lo (l1 ++ l2) ↔
  increasing lo l1 ∧ increasing (default lo (list.last l1)) l2.
Proof.
  revert lo. induction l1 as [|x l1 IH]; intros lo; [simpl; tauto|].
  rewrite default_last_cons. simpl. rewrite IH. tauto.
Qed.

Lemma increasing_snoc lo l x :
  increasing lo (l ++ [x]) ↔ increasing lo l ∧ (default lo (list.last l) < x)%Z.
Proof. rewrite increasing_app. simpl. tauto. Qed.

Lemma increasing_last_ge lo l : increasing lo l → (lo ≤ default lo (list.last l))%Z.
Proof.
  revert lo. induction l as [|x l IH]; intros lo; [simpl; lia|].
  rewrite default_last_cons. intros [Hx Hl]. specialize (IH _ Hl). lia.
Qed.

Lemma increasing_upper lo l x :
  increasing lo l → x ∈ l → (x ≤ default lo (list.last l))%Z.
Proof.
  revert lo. induction l as [|y l IH]; intros lo; [by intros ? ?%elem_of_nil|].
  rewrite default_last_cons. intros [Hy Hl] [->|Hx]%elem_of_cons; [|by apply IH].
  by apply increasing_last_ge.
Qed.

Lemma increasing_NoDup lo l : increasing lo l → NoDup l.
Proof.
  revert lo. induction l as [|x l IH]; intros lo; simpl; [constructor|].
  intros [Hx Hl]. constructor; [|by eapply IH].
  intros Hin. pose proof (increasing_lower _ _ _ Hl Hin). lia.
Qed.

Lemma increasing_suffix lo l l' : increasing lo l → l' `suffix_of` l → increasing lo l'.
Proof.
  intros Hl [k ->]. apply increasing_app in Hl as [Hk Hl].
  eapply increasing_weaken; [|done]. by apply increasing_last_ge.
Qed.

(** ** Tactics *)

(** Case on the innermost [match] or [if] of the goal or of a hypothesis. *)
Ltac case_inner :=
  match goal with
  | |- context [match ?x with _ => _ end] =>
      lazymatch x with context [match _ with _ => _ end] => fail | _ => destruct x eqn:? end
  | _ : context [match ?x with _ => _ end] |- _ =>
      lazymatch x with context [match _ with _ => _ end] => fail | _ => destruct x eqn:? end
  end.

Ltac case_all := repeat (case_inner; simplify_eq/=).

(** Turn boolean tests on integers and connectives into propositions. *)
Ltac bool_props :=
  repeat match goal with
  | H : (_ && _)%bool = true |- _ => apply andb_true_iff in H; destruct H
  | H : (_ || _)%bool = false |- _ => apply orb_false_iff in H; destruct H
  | H : (_ && _)%bool = false |- _ => apply andb_false_iff in H
  | H : (_ || _)%bool = true |- _ => apply orb_true_iff in H
  | H : negb _ = true |- _ => apply negb_true_iff in H
  | H : negb _ = false |- _ => apply negb_false_iff in H
  | H : (_ <? _)%Z = true |- _ => apply Z.ltb_lt in H
  | H : (_ <? _)%Z = false |- _ => apply Z.ltb_ge in H
  | H : (_ <=? _)%Z = true |- _ => apply Z.leb_le in H
  | H : (_ <=? _)%Z = false |- _ => apply Z.leb_gt in H
  | H : (_ =? _)%Z = true |- _ => apply Z.eqb_eq in H
  | H : (_ =? _)%Z = false |- _ => apply Z.eqb_neq in H
  | H : bool_decide _ = true |- _ => apply bool_decide_eq_true in H
  | H : bool_decide _ = false |- _ => apply bool_decide_eq_false in H
  end.
