(* ===== verification/PyStd.v ===== *)
(** * The parts of Python's standard library the gateway relies on

    `str` methods on ASCII text, `uuid.UUID` parsing and printing, the JSON value
    type and `json.dumps` with `separators=(",", ":")`.  A Python `str` is
    represented by the bytes of its UTF-8 encoding (WTF-8, so that a lone
    surrogate has a representation too); [String.length] is therefore the size on
    the wire, and [ulen] is `len()` in characters. *)

From Stdlib Require Export Ascii.
From stdpp Require Import pretty.
From S2P Require Import Prelude.

Open Scope Z_scope.

(** ** Characters and strings *)

Definition code (c : ascii) : N := N_of_ascii c.
Definition char (n : N) : ascii := ascii_of_N n.

Definition is_digit (c : ascii) : bool := (48 <=? code c)%N && (code c <=? 57)%N.
Definition is_upper (c : ascii) : bool := (65 <=? code c)%N && (code c <=? 90)%N.
Definition is_lower (c : ascii) : bool := (97 <=? code c)%N && (code c <=? 122)%N.

(** ASCII white space of `str.strip()`: tab to carriage return, the four
    separators 0x1c to 0x1f, and space. *)
Definition is_space (c : ascii) : bool :=
  ((9 <=? code c)%N && (code c <=? 13)%N) || ((28 <=? code c)%N && (code c <=? 32)%N).

Definition lower_char (c : ascii) : ascii := if is_upper c then char (code c + 32) else c.

Definition chars (s : string) : list ascii := String.list_ascii_of_string s.
Definition of_chars (l : list ascii) : string := String.string_of_list_ascii l.

Lemma of_chars_chars s : of_chars (chars s) = s.
Proof. apply String.string_of_list_ascii_of_string. Qed.
Lemma chars_of_chars l : chars (of_chars l) = l.
Proof. apply String.list_ascii_of_string_of_list_ascii. Qed.

Definition lower (s : string) : string := of_chars (lower_char <$> chars s).
Definition lstrip_by (P : ascii → bool) (l : list ascii) : list ascii := drop_while P l.
Definition rstrip_by (P : ascii → bool) (l : list ascii) : list ascii :=
  rev (drop_while P (rev l)).
Definition strip (s : string) : string :=
  of_chars (rstrip_by is_space (lstrip_by is_space (chars s))).

(** `s.split(sep)` for a one-character separator. *)
Fixpoint split_on (sep : ascii) (l : list ascii) : list (list ascii) :=
  match l with
  | [] => [[]]
  | c :: l' =>
      if decide (c = sep) then [] :: split_on sep l'
      else match split_on sep l' with
           | [] => [[c]]
           | w :: ws => (c :: w) :: ws
           end
  end.

(** `sep.join(parts)` *)
Fixpoint join {A} (sep : list A) (parts : list (list A)) : list A :=
  match parts with
  | [] => []
  | [p] => p
  | p :: ps => p ++ sep ++ join sep ps
  end.

Definition sjoin (sep : string) (parts : list string) : string :=
  of_chars (join (chars sep) (chars <$> parts)).

(** `len(s)`: characters, that is bytes that do not continue one. *)
Definition is_cont (c : ascii) : bool := (128 <=? code c)%N && (code c <=? 191)%N.
Definition ulen (s : string) : nat := length (filter (λ c, is_cont c = false) (chars s)).

(** ** Integers in text *)

Definition str_of_Z (z : Z) : string := pretty z.

Definition digit_val (c : ascii) : option N :=
  if is_digit c then Some (code c - 48)%N else None.
Definition hex_val (c : ascii) : option N :=
  if is_digit c then Some (code c - 48)%N
  else if (97 <=? code c)%N && (code c <=? 102)%N then Some (code c - 87)%N
  else if (65 <=? code c)%N && (code c <=? 70)%N then Some (code c - 55)%N
  else None.

Definition digits_val (val : ascii → option N) (base : N) (l : list ascii) : option N :=
  foldl (λ acc c, a ← acc; v ← val c; Some (a * base + v)%N) (Some 0%N) l.

Definition hex_char (n : N) : ascii := if (n <? 10)%N then char (48 + n) else char (87 + n).

Fixpoint hex_digits (width : nat) (n : N) : list ascii :=
  match width with
  | O => []
  | S w => hex_digits w (n / 16)%N ++ [hex_char (n mod 16)%N]
  end.

Lemma digits_val_app val base l c :
  digits_val val base (l ++ [c]) =
  a ← digits_val val base l; v ← val c; Some (a * base + v)%N.
Proof. unfold digits_val. by rewrite foldl_app. Qed.

Lemma hex_val_char n : (n < 16)%N → hex_val (hex_char n) = Some n.
Proof.
  intros Hn.
  assert (forallb (λ k, bool_decide (hex_val (hex_char k) = Some k))
            (map N.of_nat (seq 0 16)) = true) as Hall by reflexivity.
  rewrite forallb_forall in Hall. specialize (Hall n).
  apply bool_decide_eq_true in Hall; [done|].
  apply in_map_iff. exists (N.to_nat n). rewrite in_seq. lia.
Qed.

Lemma hex_digits_val w n :
  digits_val hex_val 16 (hex_digits w n) = Some (n mod 16 ^ N.of_nat w)%N.
Proof.
  revert n. induction w as [|w IH]; intros n; [simpl; by rewrite N.mod_1_r|].
  cbn [hex_digits]. rewrite digits_val_app, IH. simpl.
  rewrite hex_val_char by (apply N.mod_lt; lia). simpl. f_equal.
  rewrite Nat2N.inj_succ, N.pow_succ_r', N.Div0.mod_mul_r. lia.
Qed.

(** ** `uuid.UUID` *)

(** `str(u)`: 32 lowercase hex digits in groups of 8, 4, 4, 4 and 12. *)
Definition uuid_hex (u : uuid) : list ascii := hex_digits 32 u.
Definition str_of_uuid (u : uuid) : string :=
  let h := uuid_hex u in
  of_chars (take 8 h ++ ["-"%char] ++ take 4 (drop 8 h) ++ ["-"%char]
            ++ take 4 (drop 12 h) ++ ["-"%char] ++ take 4 (drop 16 h) ++ ["-"%char]
            ++ drop 20 h).

(** `s.replace(pat, "")` *)
Fixpoint remove_all (fuel : nat) (pat l : list ascii) : list ascii :=
  match fuel with
  | O => l
  | S f =>
      if decide (take (length pat) l = pat) then remove_all f pat (drop (length pat) l)
      else match l with [] => [] | c :: l' => c :: remove_all f pat l' end
  end.
Definition replace_empty (pat : string) (l : list ascii) : list ascii :=
  remove_all (S (length l)) (chars pat) l.

(** `int(text, 16)`: optional white space, sign and `0x`, then hex digits with
    single underscores between them. *)
Fixpoint drop_underscores (l : list ascii) : option (list ascii) :=
  match l with
  | [] => None
  | [c] => if decide (c = "_"%char) then None else Some [c]
  | c :: ((c' :: _) as l') =>
      if decide (c = "_"%char) then
        if decide (c' = "_"%char) then None else drop_underscores l'
      else r ← drop_underscores l'; Some (c :: r)
  end.
Definition int16 (l : list ascii) : option Z :=
  let l := rstrip_by is_space (lstrip_by is_space l) in
  let '(neg, l) := match l with
                   | c :: r => if decide (c = "-"%char) then (true, r)
                               else if decide (c = "+"%char) then (false, r) else (false, l)
                   | [] => (false, []) end in
  let '(prefixed, l) :=
    match l with
    | z :: x :: r =>
        if decide (z = "0"%char ∧ (x = "x"%char ∨ x = "X"%char)) then (true, r) else (false, l)
    | _ => (false, l) end in
  let l := match l with
           | c :: r => if decide (c = "_"%char ∧ prefixed = true) then r
                       else l
           | [] => [] end in
  if decide (head l = Some "_"%char) then None else
  ds ← drop_underscores l; n ← digits_val hex_val 16 ds;
  Some (if neg : bool then - Z.of_N n else Z.of_N n).

(** `uuid.UUID(text)`; [None] is the `ValueError`. *)
Definition is_brace (c : ascii) : bool := bool_decide (c = "{"%char ∨ c = "}"%char).
Definition uuid_of_string (s : string) : option uuid :=
  let l := replace_empty "uuid:" (replace_empty "urn:" (chars s)) in
  let l := replace_empty "-" (rstrip_by is_brace (lstrip_by is_brace l)) in
  if decide (length l = 32%nat) then
    z ← int16 l; if (0 <=? z) && (z <? 2 ^ 128) then Some (Z.to_N z) else None
  else None.

(** ** JSON values *)

(** What `json.loads` returns.  A float is kept as the text `repr` prints for it:
    the gateway never does arithmetic on the floats of a message. *)
Inductive json : Type :=
| JNull
| JBool (b : bool)
| JInt (z : Z)
| JFloat (repr : string)
| JStr (s : string)
| JArr (l : list json)
| JObj (l : list (string * json)).

(** `d.get(key)` on a dict; [None] when absent. *)
Fixpoint jget (key : string) (l : list (string * json)) : option json :=
  match l with
  | [] => None
  | (k, v) :: l' => if decide (k = key) then Some v else jget key l'
  end.

(** `x.get(key)` when `x` is a dict, [None] for any other value. *)
Definition jfield (key : string) (j : json) : option json :=
  match j with JObj l => jget key l | _ => None end.

(** `bool(x)` *)
Definition truthy (j : json) : bool :=
  match j with
  | JNull => false
  | JBool b => b
  | JInt z => negb (z =? 0)
  | JFloat r => negb (bool_decide (r = "0.0" ∨ r = "-0.0")%string)
  | JStr s => negb (bool_decide (s = "")%string)
  | JArr l => negb (bool_decide (length l = 0%nat))
  | JObj l => negb (bool_decide (length l = 0%nat))
  end.
Definition otruthy (o : option json) : bool := from_option truthy false o.

Definition jstr (o : option json) : option string :=
  match o with Some (JStr s) => Some s | _ => None end.
Definition jint (o : option json) : option Z :=
  match o with
  | Some (JInt z) => Some z
  | Some (JBool b) => Some (if b then 1 else 0) (* `isinstance(True, int)` *)
  | _ => None end.
Definition jobj (o : option json) : option (list (string * json)) :=
  match o with Some (JObj l) => Some l | _ => None end.

(** `json.dumps` string escapes. *)
Definition esc_u (n : N) : list ascii := chars "\u" ++ hex_digits 4 n.
Definition esc_common (n : N) : option (list ascii) :=
  if (n =? 34)%N then Some (chars "\" ++ [char 34])
  else if (n =? 92)%N then Some (chars "\\")
  else if (n =? 10)%N then Some (chars "\n")
  else if (n =? 13)%N then Some (chars "\r")
  else if (n =? 9)%N then Some (chars "\t")
  else if (n =? 12)%N then Some (chars "\f")
  else if (n =? 8)%N then Some (chars "\b")
  else if (n <? 32)%N then Some (esc_u n)
  else None.

(** The code points of a string; a stray byte stands for itself. *)
Fixpoint code_points (fuel : nat) (l : list ascii) : list N :=
  match fuel, l with
  | S f, c :: l' =>
      let n := code c in
      let cont i := (code (default c (nth_error l' i)) - 128)%N in
      if (n <? 128)%N then n :: code_points f l'
      else if (n <? 224)%N then ((n - 192) * 64 + cont 0%nat)%N :: code_points f (drop 1 l')
      else if (n <? 240)%N then
        ((n - 224) * 4096 + cont 0%nat * 64 + cont 1%nat)%N :: code_points f (drop 2 l')
      else ((n - 240) * 262144 + cont 0%nat * 4096 + cont 1%nat * 64 + cont 2%nat)%N
             :: code_points f (drop 3 l')
  | _, _ => []
  end.

Definition esc_ascii (n : N) : list ascii :=
  match esc_common n with
  | Some e => e
  | None =>
      if (n <? 127)%N then [char n]
      else if (n <? 65536)%N then esc_u n
      else let v := (n - 65536)%N in esc_u (55296 + v / 1024)%N ++ esc_u (56320 + v mod 1024)%N
  end.
Definition esc_plain (c : ascii) : list ascii := default [c] (esc_common (code c)).

(** One JSON string; [ensure_ascii] as the parameter of `json.dumps`. *)
Definition quote (ensure_ascii : bool) (s : string) : list ascii :=
  let l := chars s in
  let body := if ensure_ascii then concat (esc_ascii <$> code_points (length l) l)
              else concat (esc_plain <$> l) in
  char 34 :: body ++ [char 34].

Fixpoint dump_chars (ensure_ascii : bool) (j : json) : list ascii :=
  match j with
  | JNull => chars "null"
  | JBool true => chars "true"
  | JBool false => chars "false"
  | JInt z => chars (str_of_Z z)
  | JFloat r => chars r
  | JStr s => quote ensure_ascii s
  | JArr l => chars "[" ++ join (chars ",") (map (dump_chars ensure_ascii) l) ++ chars "]"
  | JObj l =>
      chars "{"
      ++ join (chars ",")
           (map (λ p, quote ensure_ascii p.1 ++ chars ":" ++ dump_chars ensure_ascii p.2) l)
      ++ chars "}"
  end.

(** `json.dumps(j, separators=(",", ":"), ensure_ascii=...)` *)
Definition dumps (ensure_ascii : bool) (j : json) : string := of_chars (dump_chars ensure_ascii j).

(** A lone surrogate (0xED followed by 0xA0 or more), which UTF-8 cannot encode. *)
Fixpoint has_surrogate (l : list ascii) : bool :=
  match l with
  | c :: ((c' :: _) as l') => ((code c =? 237)%N && (160 <=? code c')%N) || has_surrogate l'
  | _ => false
  end.

(** ** `int(x)` of a float

    The float is the double nearest to the decimal its `repr` shows.  Below 2^53
    truncating the decimal is exact; above, the double is an integer, the decimal
    rounded half to even to 53 bits.  [None]: `nan` and the infinities raise. *)
Definition pow10 (n : Z) : Z := 10 ^ n.

(** The digits of a decimal as (mantissa, power of ten), the sign apart. *)
Definition float_digits (l : list ascii) : option (Z * Z) :=
  let '(mant, ex) :=
    match split_on "e"%char l with
    | [m] => (m, Some 0)
    | [m; e] =>
        (m, match e with
            | "-"%char :: d => Z.opp ∘ Z.of_N <$> digits_val digit_val 10 d
            | "+"%char :: d => Z.of_N <$> digits_val digit_val 10 d
            | d => Z.of_N <$> digits_val digit_val 10 d
            end)
    | _ => ([], None)
    end in
  let '(int, frac) :=
    match split_on "."%char mant with
    | [i] => (i, [])
    | [i; f] => (i, f)
    | _ => ([], ["x"%char])
    end in
  e ← ex; n ← digits_val digit_val 10 (int ++ frac);
  Some (Z.of_N n, e - Z.of_nat (length frac)).

(** Round half to even to 53 significant bits. *)
Definition round53 (n : Z) : Z :=
  let bits := Z.log2 n + 1 in
  if bits <=? 53 then n
  else
    let q := 2 ^ (bits - 53) in
    let lo := n / q in
    let r := n mod q in
    let up := (q <? 2 * r) || ((2 * r =? q) && Z.odd lo) in
    (if up then lo + 1 else lo) * q.

Definition int_of_float (repr : string) : option Z :=
  let '(neg, l) := match chars repr with
                   | "-"%char :: l => (true, l)
                   | l => (false, l) end in
  '(m, e) ← float_digits l;
  let v := round53 (if 0 <=? e then m * pow10 e else m / pow10 (- e)) in
  Some (if neg : bool then - v else v).

(** `x < 0` for a float, from its `repr`. *)
Definition float_negative (repr : string) : bool :=
  match chars repr with
  | "-"%char :: l =>
      negb (bool_decide (l = chars "0.0")) && negb (bool_decide (l = chars "nan"))
  | _ => false
  end.

Example int_of_float_small : int_of_float "12.75" = Some 12.
Proof. reflexivity. Qed.
Example int_of_float_big : int_of_float "1e+23" = Some 99999999999999991611392.
Proof. reflexivity. Qed.
Example int_of_float_nan : int_of_float "nan" = None.
Proof. reflexivity. Qed.

(** ** `str(x)` and `repr(x)` *)
Definition quote_char : ascii := char 39.
Definition repr_char (q : ascii) (c : ascii) : list ascii :=
  if decide (c = q) then ["\"%char; c]
  else if decide (c = "\"%char) then ["\"%char; "\"%char]
  else if (code c =? 10)%N then chars "\n"
  else if (code c =? 13)%N then chars "\r"
  else if (code c =? 9)%N then chars "\t"
  else if (code c <? 32)%N || (code c =? 127)%N then chars "\x" ++ hex_digits 2 (code c)
  else [c].
(** `repr` of a string; a character above ASCII stands for itself. *)
Definition py_repr_str (s : string) : list ascii :=
  let l := chars s in
  let q := if bool_decide (quote_char ∈ l) && negb (bool_decide (char 34 ∈ l))
           then char 34 else quote_char in
  [q] ++ concat (repr_char q <$> l) ++ [q].
Fixpoint py_repr (j : json) : list ascii :=
  match j with
  | JNull => chars "None"
  | JBool true => chars "True"
  | JBool false => chars "False"
  | JInt z => chars (str_of_Z z)
  | JFloat r => chars r
  | JStr s => py_repr_str s
  | JArr l => chars "[" ++ join (chars ", ") (map py_repr l) ++ chars "]"
  | JObj l =>
      chars "{" ++ join (chars ", ") (map (λ p, py_repr_str p.1 ++ chars ": " ++ py_repr p.2) l)
      ++ chars "}"
  end.
Definition py_str (j : json) : string :=
  match j with JStr s => s | _ => of_chars (py_repr j) end.

(** `str(d.get(key) or default)` *)
Definition str_or (l : list (string * json)) (key d : string) : string :=
  match jget key l with Some v => if truthy v then py_str v else d | None => d end.

(** ** Splitting and joining *)
Definition startswith (p l : list ascii) : bool := bool_decide (take (length p) l = p).

Lemma startswith_app p l : startswith p l = true ↔ ∃ k, l = p ++ k.
Proof.
  unfold startswith. rewrite bool_decide_eq_true. split.
  - intros H. exists (drop (length p) l). rewrite <- H at 1. symmetry. apply take_drop.
  - intros [k ->]. apply take_app_length.
Qed.

Lemma split_on_none sep l : sep ∉ l → split_on sep l = [l].
Proof.
  induction l as [|c l IH]; simpl; [done|]. rewrite not_elem_of_cons. intros [Hc Hl].
  rewrite decide_False by done. by rewrite IH.
Qed.

Lemma split_on_app sep l r : sep ∉ l → split_on sep (l ++ sep :: r) = l :: split_on sep r.
Proof.
  induction l as [|c l IH]; simpl; intros Hl; [by rewrite decide_True|].
  rewrite not_elem_of_cons in Hl. destruct Hl as [Hc Hl].
  rewrite decide_False by done. by rewrite IH.
Qed.

Lemma split_on_join sep parts :
  parts ≠ [] → Forall (λ p, sep ∉ p) parts → split_on sep (join [sep] parts) = parts.
Proof.
  intros Hne Hall. induction Hall as [|p ps Hp Hps IH]; [done|].
  destruct ps as [|q ps]; [by apply split_on_none|].
  change (join [sep] (p :: q :: ps)) with (p ++ sep :: join [sep] (q :: ps)).
  rewrite split_on_app by done. by rewrite IH.
Qed.

Lemma join_inj (sep : ascii) (ps qs : list (list ascii)) :
  ps ≠ [] → qs ≠ [] → Forall (λ p, sep ∉ p) ps → Forall (λ p, sep ∉ p) qs →
  join [sep] ps = join [sep] qs → ps = qs.
Proof.
  intros Hp Hq Hps Hqs H. rewrite <- (split_on_join sep ps), <- (split_on_join sep qs) by done.
  by rewrite H.
Qed.

Lemma split_on_parts sep l : Forall (λ p, sep ∉ p) (split_on sep l).
Proof.
  induction l as [|c l IH]; simpl; [by constructor; [apply not_elem_of_nil|]|].
  case_decide; [by constructor; [apply not_elem_of_nil|]|].
  destruct (split_on sep l) as [|w ws]; [constructor; [|constructor]|].
  - rewrite list_elem_of_singleton. done.
  - inversion IH; subst. constructor; [|done]. rewrite not_elem_of_cons. done.
Qed.

Lemma split_on_ne sep l : split_on sep l ≠ [].
Proof. destruct l as [|c l]; simpl; [done|]. case_decide; [done|]. by destruct (split_on sep l). Qed.

Lemma join_split_on sep l : join [sep] (split_on sep l) = l.
Proof.
  induction l as [|c l IH]; simpl; [done|]. pose proof (split_on_ne sep l) as Hne.
  case_decide as Hc.
  - subst. destruct (split_on sep l) as [|w ws]; [done|]. simpl in *. by rewrite IH.
  - destruct (split_on sep l) as [|w ws]; [done|]. destruct ws; simpl in *; by rewrite IH.
Qed.

(** ** The text of an id *)
Definition is_hex_lower (c : ascii) : bool :=
  is_digit c || ((97 <=? code c)%N && (code c <=? 102)%N).
Lemma hex_char_is_hex n : (n < 16)%N → is_hex_lower (hex_char n) = true.
Proof.
  intros Hn.
  assert (forallb (λ k, is_hex_lower (hex_char k)) (map N.of_nat (seq 0 16)) = true) as Hall
    by reflexivity.
  rewrite forallb_forall in Hall. apply Hall, in_map_iff. exists (N.to_nat n).
  rewrite in_seq. lia.
Qed.
Lemma hex_digits_all w n : Forall (λ c, is_hex_lower c = true) (hex_digits w n).
Proof.
  revert n. induction w as [|w IH]; intros n; simpl; [constructor|].
  apply Forall_app. split; [apply IH|]. constructor; [|constructor].
  apply hex_char_is_hex. by apply N.mod_lt.
Qed.
Lemma hex_digits_length w n : length (hex_digits w n) = w.
Proof. revert n. induction w as [|w IH]; intros n; simpl; [done|]. rewrite length_app, IH. simpl. lia. Qed.

Lemma uuid_hex_inj u v : (u < 2 ^ 128)%N → (v < 2 ^ 128)%N → uuid_hex u = uuid_hex v → u = v.
Proof.
  intros Hu Hv H. unfold uuid_hex in H. apply (f_equal (digits_val hex_val 16)) in H.
  rewrite !hex_digits_val in H. injection H as H.
  change (16 ^ N.of_nat 32)%N with (2 ^ 128)%N in H. rewrite !N.mod_small in H by done. done.
Qed.

Lemma uuid_chars u :
  chars (str_of_uuid u) =
  let h := uuid_hex u in
  take 8 h ++ ["-"%char] ++ take 4 (drop 8 h) ++ ["-"%char]
  ++ take 4 (drop 12 h) ++ ["-"%char] ++ take 4 (drop 16 h) ++ ["-"%char] ++ drop 20 h.
Proof. apply chars_of_chars. Qed.

Definition is_id_char (c : ascii) : bool := is_hex_lower c || bool_decide (c = "-"%char).
Lemma uuid_chars_all u : Forall (λ c, is_id_char c = true) (chars (str_of_uuid u)).
Proof.
  rewrite uuid_chars. cbv zeta. pose proof (hex_digits_all 32 u) as Hh. fold (uuid_hex u) in Hh.
  assert (Forall (λ c, is_id_char c = true) (uuid_hex u)) as H.
  { eapply list.Forall_impl; [exact Hh|]. intros c Hc. unfold is_id_char. by rewrite Hc. }
  repeat (apply Forall_app; split); auto using Forall_take, Forall_drop;
    by constructor; [|constructor].
Qed.
Lemma uuid_no_slash u : "/"%char ∉ chars (str_of_uuid u).
Proof.
  intros H. pose proof (uuid_chars_all u) as Hall.
  apply (proj1 (list.Forall_forall _ _) Hall) in H. done.
Qed.
Lemma dashed_parts (l : list ascii) :
  l = take 8 l ++ take 4 (drop 8 l) ++ take 4 (drop 12 l) ++ take 4 (drop 16 l) ++ drop 20 l.
Proof.
  rewrite <- (take_drop 8 l) at 1. f_equal.
  rewrite <- (take_drop 4 (drop 8 l)) at 1. f_equal. rewrite drop_drop.
  rewrite <- (take_drop 4 (drop (8 + 4) l)) at 1. f_equal. rewrite drop_drop.
  rewrite <- (take_drop 4 (drop (8 + 4 + 4) l)) at 1. f_equal. by rewrite drop_drop.
Qed.
Lemma dashed_inj (a b : list ascii) (d : ascii) :
  length a = 32%nat → length b = 32%nat →
  take 8 a ++ [d] ++ take 4 (drop 8 a) ++ [d] ++ take 4 (drop 12 a) ++ [d]
    ++ take 4 (drop 16 a) ++ [d] ++ drop 20 a
  = take 8 b ++ [d] ++ take 4 (drop 8 b) ++ [d] ++ take 4 (drop 12 b) ++ [d]
    ++ take 4 (drop 16 b) ++ [d] ++ drop 20 b → a = b.
Proof.
  intros La Lb H.
  apply app_inj_1 in H as [H1 H]; [|rewrite !length_take; lia].
  apply app_inj_1 in H as [_ H]; [|done].
  apply app_inj_1 in H as [H2 H]; [|rewrite !length_take, !length_drop; lia].
  apply app_inj_1 in H as [_ H]; [|done].
  apply app_inj_1 in H as [H3 H]; [|rewrite !length_take, !length_drop; lia].
  apply app_inj_1 in H as [_ H]; [|done].
  apply app_inj_1 in H as [H4 H]; [|rewrite !length_take, !length_drop; lia].
  apply app_inj_1 in H as [_ H5]; [|done].
  rewrite (dashed_parts a), (dashed_parts b). congruence.
Qed.
Lemma str_of_uuid_inj u v :
  (u < 2 ^ 128)%N → (v < 2 ^ 128)%N → str_of_uuid u = str_of_uuid v → u = v.
Proof.
  intros Hu Hv H. apply uuid_hex_inj; [done..|].
  apply (f_equal chars) in H. rewrite !uuid_chars in H.
  eapply dashed_inj; [apply hex_digits_length..|exact H].
Qed.

(** ** `uuid.UUID(str(u))` is [u] *)

Lemma remove_all_absent fuel p pat l : p ∉ l → remove_all fuel (p :: pat) l = l.
Proof.
  revert l. induction fuel as [|fuel IH]; intros l Hp; [done|].
  cbn [remove_all length]. destruct l as [|c l]; [done|]. cbn [take].
  rewrite decide_False by (intros [= -> _]; apply Hp; by left).
  f_equal. apply IH. intros H. apply Hp. by right.
Qed.
Lemma remove_all_char fuel p l : (length l < fuel)%nat → remove_all fuel [p] l = filter (λ c, c ≠ p) l.
Proof.
  revert l. induction fuel as [|fuel IH]; intros l Hl; [lia|]. cbn [remove_all length].
  destruct l as [|c l]; [done|]. cbn [take drop length] in *. rewrite take_0, drop_0, filter_cons.
  destruct (decide ([c] = [p])) as [[= ->]|Hne].
  - rewrite (decide_False (P:=p ≠ p)) by (intros H; by apply H). apply IH. lia.
  - rewrite decide_True by congruence. f_equal. apply IH. lia.
Qed.
Lemma id_char_not c d : is_id_char d = false → is_id_char c = true → c ≠ d.
Proof. congruence. Qed.
Lemma not_id_char l d : Forall (λ c, is_id_char c = true) l → is_id_char d = false → d ∉ l.
Proof. intros Hl Hd Hin. rewrite list.Forall_forall in Hl. specialize (Hl d Hin). congruence. Qed.
Lemma strip_absent (P : ascii → bool) l :
  Forall (λ c, P c = false) l → rstrip_by P (lstrip_by P l) = l.
Proof.
  intros Hl. unfold lstrip_by, rstrip_by. rewrite (drop_while_none P l) by done.
  rewrite drop_while_none; [apply rev_involutive|].
  apply list.Forall_forall. intros c Hc. rewrite list.Forall_forall in Hl. apply Hl.
  apply list_elem_of_In, in_rev. by apply list_elem_of_In.
Qed.
Lemma filter_dash l :
  Forall (λ c, is_hex_lower c = true) l → filter (λ c, c ≠ "-"%char) l = l.
Proof.
  intros Hl. apply filter_all. eapply list.Forall_impl; [exact Hl|]. intros c Hc ->. done.
Qed.
Lemma drop_underscores_none l :
  l ≠ [] → "_"%char ∉ l → drop_underscores l = Some l.
Proof.
  induction l as [|c l IH]; intros Hne Hl; [done|]. cbn [drop_underscores].
  assert (c ≠ "_"%char) by (intros ->; apply Hl; by left).
  destruct l as [|c' l]; rewrite decide_False by done; [done|].
  rewrite IH; [done|done|]. intros H'. apply Hl. by right.
Qed.
Lemma int16_hex l n :
  (2 ≤ length l)%nat → Forall (λ c, is_hex_lower c = true) l → digits_val hex_val 16 l = Some n →
  int16 l = Some (Z.of_N n).
Proof.
  intros Hlen Hl Hn. unfold int16.
  assert (∀ d, is_hex_lower d = false → d ∉ l) as Hno.
  { intros d Hd Hin. rewrite list.Forall_forall in Hl. specialize (Hl d Hin). congruence. }
  rewrite strip_absent; [|eapply list.Forall_impl; [exact Hl|]; intros c Hc].
  2: { revert Hc. clear. destruct c as [[] [] [] [] [] [] [] []]; vm_compute; congruence. }
  destruct l as [|c [|c' l]]; [cbn in Hlen; lia..|].
  rewrite (decide_False (P:=c = "-"%char)), (decide_False (P:=c = "+"%char))
    by (intros ->; eapply Hno; [|by left]; done).
  rewrite (decide_False (P:=c = "0"%char ∧ (c' = "x"%char ∨ c' = "X"%char))).
  2: { intros [_ [->| ->]]; (eapply Hno; [|right; by left]); done. }
  cbv beta iota zeta. rewrite (decide_False (P:=c = "_"%char ∧ false = true)) by (intros [_ ?]; done).
  rewrite (decide_False (P:=head (c :: c' :: l) = Some "_"%char))
    by (intros [= ->]; eapply Hno; [|by left]; done).
  rewrite drop_underscores_none; [|done|by apply Hno]. cbn [mbind option_bind].
  by rewrite Hn.
Qed.

Lemma uuid_of_string_str u : (u < 2 ^ 128)%N → uuid_of_string (str_of_uuid u) = Some u.
Proof.
  intros Hu. unfold uuid_of_string, replace_empty. pose proof (uuid_chars_all u) as Hid.
  change (chars "urn:") with (["u"; "r"; "n"; ":"]%char).
  change (chars "uuid:") with (["u"; "u"; "i"; "d"; ":"]%char). change (chars "-") with ["-"%char].
  assert ("u"%char ∉ chars (str_of_uuid u)) as Hu' by by apply (not_id_char _ _ Hid).
  rewrite (remove_all_absent _ _ _ _ Hu'), (remove_all_absent _ _ _ _ Hu').
  rewrite strip_absent; [|eapply list.Forall_impl; [exact Hid|]; intros c Hc].
  2: { apply bool_decide_eq_false. intros [->| ->]; done. }
  rewrite remove_all_char by lia. rewrite uuid_chars. cbv zeta.
  pose proof (hex_digits_all 32 u) as Hh. fold (uuid_hex u) in Hh.
  assert (filter (λ c, c ≠ "-"%char) (take 8 (uuid_hex u) ++ ["-"%char] ++ take 4 (drop 8 (uuid_hex u))
     ++ ["-"%char] ++ take 4 (drop 12 (uuid_hex u)) ++ ["-"%char] ++ take 4 (drop 16 (uuid_hex u))
     ++ ["-"%char] ++ drop 20 (uuid_hex u)) = uuid_hex u) as ->.
  { rewrite !list.filter_app, !(filter_dash (take _ _)), (filter_dash (drop _ _)) by auto using Forall_take, Forall_drop.
    change (filter (λ c, c ≠ "-"%char) ["-"%char]) with (@nil ascii). cbn [app].
    symmetry. apply dashed_parts. }
  unfold uuid_hex in *. rewrite decide_True by apply hex_digits_length.
  rewrite (int16_hex _ u); [|rewrite hex_digits_length; lia|done|].
  - cbn [mbind option_bind].
    assert ((0 <=? Z.of_N u) && (Z.of_N u <? 2 ^ 128) = true) as ->.
    { apply andb_true_iff. split; [apply Z.leb_le; lia|apply Z.ltb_lt; lia]. }
    by rewrite N2Z.id.
  - rewrite hex_digits_val. rewrite N.mod_small; [done|]. exact Hu.
Qed.
