(* ===== verification/Protocol.v ===== *)
(** * The worker protocol (src/src/apipi/protocol/)

    The constants and type sets of `constants.py`, the text and size of a frame,
    the envelope of `envelope.py`, the handshake and control-message validators of
    `handshake.py` and `control.py`, and the dispatch of `messages.py`.

    The field-by-field validation of a model is pydantic's: it is the parameter
    [model_validate] of the definitions that call it. *)

From S2P Require Import Prelude PyStd.

Open Scope Z_scope.

(** ** Constants (protocol/constants.py) *)

Definition PROTOCOL_VERSION : Z := 2.

Definition DURABLE_MESSAGE_TYPES : list string :=
  ["item.added"; "item.done"; "turn.status"; "usage"; "event"; "session.status";
   "artifact.presign"; "session.stopped"; "workspace.reaped"; "lifecycle.start";
   "lifecycle.stop"; "artifact.completed"; "error"; "sandbox.status"]%string.
Definition EPHEMERAL_MESSAGE_TYPES : list string := ["delta.text"; "delta.reasoning"]%string.
Definition WORKER_MESSAGE_TYPES : list string :=
  DURABLE_MESSAGE_TYPES ++ EPHEMERAL_MESSAGE_TYPES.

Definition WORKER_IN : list string :=
  ["register"; "heartbeat"; "lease.ack"; "lease.release"; "store.proof"; "inventory";
   "sandbox.seen"; "search.request"]%string.
Definition WORKER_OUT : list string :=
  ["hello"; "command"; "ack"; "artifact.presign.reply"; "search.reply";
   "inventory.reply"; "lease.revoke"]%string.

Definition COMMAND_OPS : list string :=
  ["turn.start"; "turn.cancel"; "turn.continue"; "session.stop"; "sandbox.boot"]%string.
Definition COMMAND_CONTEXT_OPS : list string :=
  ["turn.start"; "turn.continue"; "sandbox.boot"]%string.
Definition CURSOR_OPS : list string := ["turn.start"; "turn.continue"; "sandbox.boot"]%string.

Definition MAX_MESSAGE_BYTES : Z := 1048576.
Definition MAX_COMMAND_BYTES : Z := 262144.
Definition DELTA_RATE_LIMIT : Z := 100.
Definition DELTA_MAX_TEXT : Z := 32768.

Definition FEATURE_SEARCH : string := "search".
Definition FEATURE_PRESIGN : string := "presign".
Definition FEATURE_LEASE_CURSOR : string := "lease_cursor".
Definition FEATURE_SESSION_STOPPED : string := "session_stopped".
Definition FEATURE_IMAGE_REFS : string := "image_refs".
Definition FEATURE_FILE_REFS : string := "file_refs".
Definition FEATURE_SESSION_FILES : string := "session_files".
Definition FEATURE_ENV_CREDENTIALS : string := "env_credentials".

Definition BASELINE_FEATURES : list string :=
  [FEATURE_SEARCH; FEATURE_PRESIGN; FEATURE_LEASE_CURSOR].
Definition SUPPORTED_FEATURES : list string :=
  BASELINE_FEATURES ++ [FEATURE_SESSION_STOPPED; FEATURE_IMAGE_REFS; FEATURE_FILE_REFS;
                        FEATURE_SESSION_FILES; FEATURE_ENV_CREDENTIALS].

Definition TYPE_FEATURES : odict string string :=
  ODict [("search.request", FEATURE_SEARCH); ("search.reply", FEATURE_SEARCH);
         ("artifact.presign", FEATURE_PRESIGN); ("artifact.presign.reply", FEATURE_PRESIGN);
         ("artifact.completed", FEATURE_PRESIGN)]%string.
Definition OP_FEATURES : odict string string := ∅.

Definition KNOWN_WIRE_TYPES : list string := WORKER_IN ++ WORKER_OUT ++ WORKER_MESSAGE_TYPES.

Definition keep_strings (l : list json) : list string :=
  omap (λ j, match j with JStr s => Some s | _ => None end) l.

Definition peer_features (advertised : option (list json)) : list string :=
  match advertised with None => BASELINE_FEATURES | Some l => keep_strings l end.

(** ** Frames *)

Definition dumps_wire (message : json) : string :=
  let text := dumps false message in
  if has_surrogate (chars text) then dumps true message else text.

Definition wire_bytes (text : string) : Z := Z.of_nat (String.length text).
Definition wire_size (message : json) : Z := wire_bytes (dumps_wire message).

Definition wire_type (message : json) : string :=
  match jstr (jfield "type" message) with
  | Some kind => if decide (kind ∈ KNOWN_WIRE_TYPES) then kind else "unknown"
  | None => "unknown"
  end.

Lemma wire_size_nonneg m : 0 ≤ wire_size m.
Proof. unfold wire_size, wire_bytes. lia. Qed.
#[export] Hint Resolve wire_size_nonneg : apipi.

(** ** Envelopes (protocol/envelope.py) *)

Record envelope : Type := Envelope {
  env_session : uuid;
  env_turn : option uuid;
  env_seq : Z;
  env_type : string;
  env_payload : list (string * json)
}.

Inductive message_kind : Set := durable | ephemeral.

Definition message_class (type : string) : option message_kind :=
  if decide (type ∈ DURABLE_MESSAGE_TYPES) then Some durable
  else if decide (type ∈ EPHEMERAL_MESSAGE_TYPES) then Some ephemeral
  else None.

(** `WorkerEnvelope.build(...).to_wire()`: the fields in declaration order. *)
Definition to_wire (e : envelope) : json :=
  JObj [("v", JInt 2);
        ("session_id", JStr (str_of_uuid (env_session e)));
        ("turn_id", match env_turn e with Some t => JStr (str_of_uuid t) | None => JNull end);
        ("seq", JInt (env_seq e));
        ("type", JStr (env_type e));
        ("payload", JObj (env_payload e))]%string.

Definition PAYLOAD_MODELS : list string := WORKER_MESSAGE_TYPES.

(** Python exceptions of a parse. *)
Inductive parse_error : Set :=
| UnknownMessageType (type : string)
| ValidationError
| UnsupportedProtocol.

Section parse.
(** pydantic: `Model.model_validate(data)`.  [validate_envelope] reads a frame
    into a [WorkerEnvelope]; [validate_payload type] checks a payload against
    the model of its type. *)
Context (validate_envelope : json → option envelope).
Context (validate_payload : string → list (string * json) → bool).

Definition parsed_payload (e : envelope) : res parse_error () :=
  if decide (env_type e ∈ PAYLOAD_MODELS) then
    if validate_payload (env_type e) (env_payload e) then Ok () else Err ValidationError
  else Err (UnknownMessageType (env_type e)).

Definition parse_envelope (data : json) : res parse_error envelope :=
  match validate_envelope data with
  | None => Err ValidationError
  | Some e =>
      match message_class (env_type e) with
      | None => Err (UnknownMessageType (env_type e))
      | Some _ => _ ← parsed_payload e; Ok e
      end
  end.
End parse.

(** ** Handshake (protocol/handshake.py, protocol/control.py) *)

Definition keep_features (value : option json) : option (list string) :=
  match value with Some (JArr l) => Some (keep_strings l) | _ => None end.

Definition strip_run_mode (value : string) : res parse_error string :=
  let stripped := strip value in
  if decide (stripped = "")%string then Err ValidationError else Ok stripped.

Fixpoint clean_accepts (value : list string) (cleaned : list string) : res parse_error (list string) :=
  match value with
  | [] => Ok cleaned
  | item :: rest =>
      let text := lower (strip item) in
      if decide (text ∉ ["none"; "microvm"]%string) then Err ValidationError
      else clean_accepts rest (if decide (text ∈ cleaned) then cleaned else cleaned ++ [text])
  end.
Definition check_accepts (value : option (list string)) : res parse_error (option (list string)) :=
  match value with
  | None => Ok None
  | Some l =>
      cleaned ← clean_accepts l [];
      if decide (cleaned = []) then Err ValidationError else Ok (Some cleaned)
  end.

(** Raw image entries: only objects with a non-empty string `id` stay. *)
Definition keep_valid_images (value : json) : json :=
  match value with
  | JArr l =>
      JArr (filter (λ item, otruthy (JStr <$> jstr (jfield "id" item)) = true) l)
  | _ => value
  end.

Section register.
Context {R : Type} (validate_register : json → option R).
Definition parse_register (data : json) : res parse_error R :=
  match jfield "protocol" data with
  | Some (JInt p) =>
      if p =? PROTOCOL_VERSION
      then from_option Ok (Err ValidationError) (validate_register data)
      else Err UnsupportedProtocol
  | Some (JFloat r) => (* `2.0 == 2` *)
      if decide (r = "2.0")%string
      then from_option Ok (Err ValidationError) (validate_register data)
      else Err UnsupportedProtocol
  | _ => Err UnsupportedProtocol
  end.
End register.

(** ** Dispatch (protocol/messages.py) *)

Definition WORKER_MESSAGE_MODELS : list string := WORKER_IN.
Definition API_MESSAGE_MODELS : list string :=
  ["hello"; "error"; "command"; "ack"; "artifact.presign.reply"; "search.reply";
   "inventory.reply"; "lease.revoke"]%string.

Section messages.
Context {M : Type} (model_validate : string → json → option M).

(** `str(data.get("type"))`: the tables have no key that is the text of another
    kind of value, so only a string can match. *)
Definition parse_message (models : list string) (data : json) : res parse_error (option M) :=
  match jstr (jfield "type" data) with
  | Some t =>
      if decide (t ∈ models)
      then from_option (λ m, Ok (Some m)) (Err ValidationError) (model_validate t data)
      else Ok None
  | None => Ok None
  end.
Definition parse_worker_message := parse_message WORKER_MESSAGE_MODELS.
Definition parse_api_message := parse_message API_MESSAGE_MODELS.
End messages.

(** ** Lemmas *)

Lemma message_class_durable t : message_class t = Some durable ↔ t ∈ DURABLE_MESSAGE_TYPES.
Proof. unfold message_class. repeat case_decide; naive_solver. Qed.

Lemma durable_not_ephemeral t : t ∈ DURABLE_MESSAGE_TYPES → t ∉ EPHEMERAL_MESSAGE_TYPES.
Proof.
  assert (Forall (λ t, t ∉ EPHEMERAL_MESSAGE_TYPES) DURABLE_MESSAGE_TYPES) as Hall.
  { apply (bool_decide_unpack _). vm_compute. exact I. }
  intros Ht. by apply (proj1 (list.Forall_forall _ _) Hall).
Qed.
