(* ===== verification/Outbox.v ===== *)
(** * The worker outbox (src/src/apipi/worker/outbox.py)

    Durable envelopes wait here, per session and in sequence order, until the API
    acks them.  An envelope in memory is a Python object shared by two deques, so
    it carries its identity ([oid]); a buffer carries its own ([bid]), which the
    compaction compares.  The spool directory is [files]: per session, the lines of
    `<session>.jsonl`.  Clock readings and the outcome of file operations are
    arguments.  Log lines and metrics are left out. *)

From S2P Require Import Prelude PyStd Protocol.

Open Scope Z_scope.

Definition EMERGENCY_BUDGET : Z := 10.
Definition SPOOL_COMPACT_MIN_LINES : Z := 512.
Definition FLOOR_LIMIT : Z := 4096.

(** An envelope object: its identity and its wire content. *)
Record stored : Type := Stored { oid : N; body : envelope }.
Definition seq_of (x : stored) : Z := env_seq (body x).

Record session_buffer : Type := SessionBuffer {
  bid : N;
  issued : Z;
  acked_to : Z;
  envelopes : list stored;
  added : list Z;
  bytes : Z;
  emergency_used : Z;
  sent : Z;
  unsent : list stored;
  spooled : Z;
  dead : Z
}.

(** A line of a spool file, as `json.loads` and `int(envelope["seq"])` see it. *)
Inductive spool_line : Type :=
| LBlank
| LBad
| LEnv (e : envelope).

Record config : Type := Config {
  max_messages : Z;
  max_bytes : Z;
  session_messages : Z;
  session_bytes : Z;
  compact_min : Z;
  spool_on : bool
}.

Record outbox : Type := Outbox {
  peer_feats : list string;
  sessions : odict uuid session_buffer;
  floors : odict uuid Z;
  unsynced : gset uuid;
  messages : Z;
  total_bytes : Z;
  dirty : bool;
  spool_skipped : Z;
  files : gmap uuid (list spool_line);
  next_id : N
}.

Definition envelope_size (e : envelope) : Z := wire_size (to_wire e).
Definition ssize (x : stored) : Z := envelope_size (body x).
#[global] Arguments envelope_size : simpl never.

(** `Outbox.__init__`: the bounds, with `session_share` the fraction [num/den];
    [None] is the `ValueError`. *)
Definition init_config (max_messages max_bytes num den compact_min : Z) (spool : bool)
    : option config :=
  if (max_messages <? 1) || (max_bytes <? 1024) || negb ((0 <? num) && (num <=? den)) then None
  else Some (Config max_messages max_bytes
               (Z.max 1 (max_messages * num / den)) (Z.max 1 (max_bytes * num / den))
               compact_min spool).
Definition init_outbox (disk : gmap uuid (list spool_line)) : outbox :=
  Outbox BASELINE_FEATURES ∅ ∅ ∅ 0 0 false 0 disk 0%N.

(** Field updates. *)
Definition set_sessions (o : outbox) s :=
  Outbox (peer_feats o) s (floors o) (unsynced o) (messages o) (total_bytes o) (dirty o)
    (spool_skipped o) (files o) (next_id o).
Definition set_counts (o : outbox) m b :=
  Outbox (peer_feats o) (sessions o) (floors o) (unsynced o) m b (dirty o)
    (spool_skipped o) (files o) (next_id o).
Definition set_spool (o : outbox) f u :=
  Outbox (peer_feats o) (sessions o) (floors o) u (messages o) (total_bytes o) (dirty o)
    (spool_skipped o) f (next_id o).
Definition set_floors (o : outbox) f :=
  Outbox (peer_feats o) (sessions o) f (unsynced o) (messages o) (total_bytes o) (dirty o)
    (spool_skipped o) (files o) (next_id o).
Definition set_dirty (o : outbox) d :=
  Outbox (peer_feats o) (sessions o) (floors o) (unsynced o) (messages o) (total_bytes o) d
    (spool_skipped o) (files o) (next_id o).
Definition set_skipped (o : outbox) k :=
  Outbox (peer_feats o) (sessions o) (floors o) (unsynced o) (messages o) (total_bytes o)
    (dirty o) k (files o) (next_id o).
Definition fresh_id (o : outbox) : N * outbox :=
  (next_id o, Outbox (peer_feats o) (sessions o) (floors o) (unsynced o) (messages o)
    (total_bytes o) (dirty o) (spool_skipped o) (files o) (N.succ (next_id o))).
Definition put_buffer (o : outbox) (sid : uuid) (b : session_buffer) : outbox :=
  set_sessions o (<[sid:=b]> (sessions o)).

Definition set_marks (b : session_buffer) issued acked sent :=
  SessionBuffer (bid b) issued acked (envelopes b) (added b) (bytes b) (emergency_used b)
    sent (unsent b) (spooled b) (dead b).
Definition set_unsent (b : session_buffer) sent unsent :=
  SessionBuffer (bid b) (issued b) (acked_to b) (envelopes b) (added b) (bytes b)
    (emergency_used b) sent unsent (spooled b) (dead b).
Definition set_lines (b : session_buffer) spooled dead :=
  SessionBuffer (bid b) (issued b) (acked_to b) (envelopes b) (added b) (bytes b)
    (emergency_used b) (sent b) (unsent b) spooled dead.

(** `_buffer`: the buffer of the session, created at its remembered floor. *)
Definition buffer (o : outbox) (sid : uuid) : outbox * session_buffer :=
  match sessions o !! sid with
  | Some b => (o, b)
  | None =>
      let '(i, o) := fresh_id o in
      let floor := default 0 (floors o !! sid) in
      let b := SessionBuffer i floor floor [] [] 0 0 floor [] 0 0 in
      (put_buffer (set_floors o (delete sid (floors o))) sid b, b)
  end.

(** The first loop of `_trim`, popping envelopes at or below [last_seq]; it
    returns what is left, the popped bytes and how many were popped. *)
Fixpoint trim_loop (last_seq : Z) (envs : list stored) (times : list Z)
    : list stored * list Z * Z * Z :=
  match envs with
  | x :: envs' =>
      if seq_of x <=? last_seq then
        let '(e, t, sz, n) := trim_loop last_seq envs' (tail times) in
        (e, t, sz + ssize x, n + 1)
      else (envs, times, 0, 0)
  | [] => ([], times, 0, 0)
  end.

(** `_trim` *)
Definition trim (o : outbox) (b : session_buffer) (last_seq : Z) : outbox * session_buffer :=
  let '(envs, times, sz, n) := trim_loop last_seq (envelopes b) (added b) in
  (set_counts o (messages o - n) (total_bytes o - sz),
   SessionBuffer (bid b) (issued b) (acked_to b) envs times (bytes b - sz)
     (emergency_used b) (sent b) (drop_while (λ x, seq_of x <=? last_seq) (unsent b))
     (spooled b) (dead b + n)).

(** `_remove_spool` ([io]: whether `unlink` succeeds) *)
Definition remove_spool (cfg : config) (o : outbox) (sid : uuid) (io : bool) : outbox :=
  if spool_on cfg
  then set_spool o (if io then delete sid (files o) else files o) (unsynced o ∖ {[sid]})
  else o.

(** `_after_trim` *)
Definition after_trim (cfg : config) (o : outbox) (sid : uuid) (b : session_buffer) (io : bool)
    : outbox * session_buffer :=
  if bool_decide (envelopes b = []) && negb (spooled b =? 0)
  then (remove_spool cfg o sid io, set_lines b 0 0)
  else (o, b).

Definition set_base (cfg : config) (o : outbox) (sid : uuid) (last_seq : Z) (io : bool) : outbox :=
  let '(o, b) := buffer o sid in
  let '(o, b) := trim o b last_seq in
  let acked := Z.max (acked_to b) last_seq in
  let b := set_marks b (Z.max (issued b) last_seq) acked (Z.max (sent b) acked) in
  let '(o, b) := after_trim cfg o sid b io in
  put_buffer o sid b.

Definition high_water (o : outbox) (sid : uuid) : Z :=
  match sessions o !! sid with
  | None => default 0 (floors o !! sid)
  | Some b => issued b
  end.

Definition acked_seq (o : outbox) (sid : uuid) : Z :=
  match sessions o !! sid with
  | None => default 0 (floors o !! sid)
  | Some b => acked_to b
  end.

(** `_spool_append` ([io]: whether the file can be written) *)
Definition spool_append (cfg : config) (o : outbox) (sid : uuid) (b : session_buffer)
    (e : envelope) (io : bool) : outbox * session_buffer :=
  if spool_on cfg && io then
    (set_spool o (<[sid := default [] (files o !! sid) ++ [LEnv e]]> (files o))
       ({[sid]} ∪ unsynced o),
     set_lines b (spooled b + 1) (dead b))
  else (o, b).

(** What `append` raises. *)
Inductive append_error : Type :=
| FeatureUnsupported (feature : string)
| EnvelopeTooLarge (sid : uuid) (size : Z)
| OutboxFull (sid : uuid).

Definition over_worker (cfg : config) (o : outbox) (size : Z) : bool :=
  (max_messages cfg <? messages o + 1) || (max_bytes cfg <? total_bytes o + size).
Definition over_session (cfg : config) (b : session_buffer) (size : Z) : bool :=
  (session_messages cfg <? Z.of_nat (length (envelopes b)) + 1)
  || (session_bytes cfg <? bytes b + size).

(** The feature an envelope type needs and the API did not advertise. *)
Definition missing_feature (o : outbox) (type : string) : option string :=
  match TYPE_FEATURES !! type with
  | Some f => if decide (f ∈ peer_feats o) then None else Some f
  | None => None
  end.

Definition append (cfg : config) (o : outbox) (now : Z) (io : bool) (sid : uuid)
    (type : string) (payload : list (string * json)) (turn_id : option uuid)
    (emergency : bool) : outbox * res append_error stored :=
  match missing_feature o type with
  | Some f => (o, Err (FeatureUnsupported f))
  | None =>
      let '(o, b) := buffer o sid in
      let seq := issued b + 1 in
      let e := Envelope sid turn_id seq type payload in
      let size := envelope_size e in
      if MAX_MESSAGE_BYTES <? size then (o, Err (EnvelopeTooLarge sid size))
      else
        let over := over_worker cfg o size || over_session cfg b size in
        if over && negb (emergency && (emergency_used b <? EMERGENCY_BUDGET))
        then (o, Err (OutboxFull sid))
        else
          let '(i, o) := fresh_id o in
          let x := Stored i e in
          let b := SessionBuffer (bid b) seq (acked_to b) (envelopes b ++ [x])
                     (added b ++ [now]) (bytes b + size)
                     (if over then emergency_used b + 1 else emergency_used b)
                     (sent b) (unsent b ++ [x]) (spooled b) (dead b) in
          let o := set_counts o (messages o + 1) (total_bytes o + size) in
          let '(o, b) := spool_append cfg o sid b e io in
          (set_dirty (put_buffer o sid b) true, Ok x)
  end.

(** `acked`: drop everything at or below the cumulative ack. *)
Definition acked (cfg : config) (o : outbox) (sid : uuid) (last_seq : Z) (io : bool) : outbox :=
  match sessions o !! sid with
  | None => o
  | Some b =>
      let '(o, b) := trim o b last_seq in
      let acked := Z.max (acked_to b) last_seq in
      let b := set_marks b (issued b) acked (Z.max (sent b) acked) in
      let '(o, b) := after_trim cfg o sid b io in
      put_buffer o sid b
  end.

(** `begin_connection`: everything unacked is unsent again; returns how many
    envelopes had been sent before. *)
Definition restart (b : session_buffer) : session_buffer :=
  set_unsent b (acked_to b) (envelopes b).
Definition begin_connection (o : outbox) : outbox * Z :=
  (set_dirty (set_sessions o (ODict ((λ p, (p.1, restart p.2)) <$> oitems (sessions o)))) true,
   osum (λ b, Z.of_nat (length (take_while (λ x, seq_of x <=? sent b) (envelopes b))))
     (sessions o)).

Definition unsent_sessions (o : outbox) : list uuid :=
  (filter (λ p, unsent p.2 ≠ []) (oitems (sessions o))).*1.

Definition next_unsent (o : outbox) (sid : uuid) : option stored :=
  b ← sessions o !! sid; head (unsent b).

(** `mark_sent`; `is` compares object identities. *)
Definition mark_sent (o : outbox) (sid : uuid) (x : stored) : outbox :=
  match sessions o !! sid with
  | None => o
  | Some b =>
      let rest := match unsent b with
                  | y :: ys => if decide (oid y = oid x) then ys else unsent b
                  | [] => [] end in
      put_buffer o sid (set_unsent b (Z.max (sent b) (seq_of x)) rest)
  end.

Definition pending (o : outbox) (sid : uuid) (after_seq : Z) : list stored :=
  match sessions o !! sid with
  | None => []
  | Some b => filter (λ x, after_seq < seq_of x) (envelopes b)
  end.

Definition pending_sessions (o : outbox) : list uuid :=
  (filter (λ p, envelopes p.2 ≠ []) (oitems (sessions o))).*1.

(** `while len(self._floors) > FLOOR_LIMIT: self._floors.popitem(last=False)` *)
Definition evict_floors (l : list (uuid * Z)) : list (uuid * Z) :=
  drop (length l - Z.to_nat FLOOR_LIMIT) l.

Definition release (cfg : config) (o : outbox) (sid : uuid) (io : bool) : outbox :=
  match sessions o !! sid with
  | None => o
  | Some b =>
      if decide (envelopes b ≠ []) then o
      else
        let o := set_sessions o (delete sid (sessions o)) in
        let moved := <[sid := issued b]> (delete sid (floors o)) in
        let o := set_floors o (ODict (evict_floors (oitems moved))) in
        if spooled b =? 0 then o else remove_spool cfg o sid io
  end.

Definition drop_session (cfg : config) (o : outbox) (sid : uuid) (io : bool) : outbox :=
  let o := set_floors o (delete sid (floors o)) in
  let o := match sessions o !! sid with
           | None => o
           | Some b =>
               set_counts (set_sessions o (delete sid (sessions o)))
                 (messages o - Z.of_nat (length (envelopes b))) (total_bytes o - bytes b)
           end in
  remove_spool cfg o sid io.

Definition mark_dirty (o : outbox) : outbox := set_dirty o true.

(** One line of `load_spool`. *)
Definition load_line (now : Z) (st : outbox * session_buffer) (line : spool_line)
    : outbox * session_buffer :=
  let '(o, b) := st in
  match line with
  | LBlank => (o, b)
  | LBad => (set_skipped o (spool_skipped o + 1), b)
  | LEnv e =>
      let b := set_lines b (spooled b + 1) (dead b) in
      if env_seq e <=? issued b then (o, set_lines b (spooled b) (dead b + 1))
      else
        let '(i, o) := fresh_id o in
        let x := Stored i e in
        (set_counts o (messages o + 1) (total_bytes o + envelope_size e),
         SessionBuffer (bid b) (env_seq e) (acked_to b) (envelopes b ++ [x]) (added b ++ [now])
           (bytes b + envelope_size e) (emergency_used b) (sent b) (unsent b ++ [x])
           (spooled b) (dead b))
  end.

(** One file of `load_spool`: its lines replay into the session's buffer. *)
Definition load_file (now : Z) (o : outbox) (sid : uuid) (lines : list spool_line) : outbox :=
  let '(o, b) := buffer o sid in
  let '(o, b) := foldl (load_line now) (o, b) lines in
  put_buffer o sid (set_unsent b (issued b) (unsent b)).

(** `load_spool` over the directory listing, in order; [None] is an unreadable
    file.  Returns the high-water marks. *)
Fixpoint load_spool (now : Z) (listing : list (uuid * option (list spool_line)))
    (o : outbox) (waters : odict uuid Z) : outbox * odict uuid Z :=
  match listing with
  | [] => (o, waters)
  | (_, None) :: rest => load_spool now rest o waters
  | (sid, Some lines) :: rest =>
      let o := load_file now o sid lines in
      load_spool now rest o (<[sid := high_water o sid]> waters)
  end.

(** `_compact` up to its first `await`: the snapshot that a thread writes. *)
Definition compact_begin (cfg : config) (b : session_buffer) : option (list stored) :=
  if spool_on cfg && negb (bool_decide (envelopes b = [])) then Some (envelopes b) else None.

(** `_compact` after the snapshot was written, when other calls may have run. *)
Definition compact_finish (o : outbox) (sid : uuid) (buf : N) (snapshot : list stored)
    (io : bool) : outbox :=
  match sessions o !! sid with
  | Some b =>
      if bool_decide (bid b = buf) && negb (bool_decide (envelopes b = [])) && io then
        let last := from_option seq_of 0 (list.last snapshot) in
        let newer := filter (λ x, last < seq_of x) (envelopes b) in
        let first := from_option seq_of 0 (head (envelopes b)) in
        let o := set_spool o (<[sid := (LEnv ∘ body) <$> snapshot ++ newer]> (files o))
                   (if decide (newer = []) then unsynced o else {[sid]} ∪ unsynced o) in
        put_buffer o sid
          (set_lines b (Z.of_nat (length snapshot + length newer))
             (Z.of_nat (length (filter (λ x, seq_of x < first) snapshot))))
      else o
  | None => o
  end.

(** The buffers `maintain_spool` compacts. *)
Definition needs_compact (cfg : config) (b : session_buffer) : bool :=
  (compact_min cfg <=? dead b) && (Z.of_nat (length (envelopes b)) <=? dead b).

(** The sessions that `maintain_spool` compacts, after it synced the touched files. *)
Definition sync_spool (o : outbox) : outbox := set_spool o (files o) ∅.
Definition maintain_sessions (cfg : config) (o : outbox) : list uuid :=
  if spool_on cfg
  then (filter (λ p, needs_compact cfg p.2 = true) (oitems (sessions o))).*1 else [].

(** `oldest_seconds` *)
Definition oldest_seconds (now : Z) (o : outbox) : Z :=
  match omap (λ b, head (added b)) (ovals (sessions o)) with
  | [] => 0
  | t :: ts => now - foldr Z.min t ts
  end.
