(* ===== verification/OutboxSpec.v ===== *)
(** * What the outbox guarantees

    The representation invariant of [Outbox], its preservation by every operation,
    and the functional behaviour of `append`, `acked`, the replay of a new
    connection, and the spool. *)

From S2P Require Import Prelude PyStd Protocol Outbox.

Open Scope Z_scope.

(** ** The invariant *)

Definition sizes (l : list stored) : Z := foldr Z.add 0 (ssize <$> l).
Definition seqs (l : list stored) : list Z := seq_of <$> l.
Definition count (b : session_buffer) : Z := Z.of_nat (length (envelopes b)).

Record buffer_ok (sid : uuid) (b : session_buffer) : Prop := {
  bo_session : Forall (λ x, env_session (body x) = sid) (envelopes b);
  bo_incr : increasing (acked_to b) (seqs (envelopes b));
  bo_upper : Forall (λ x, seq_of x ≤ issued b) (envelopes b);
  bo_last : default (acked_to b) (list.last (seqs (envelopes b))) = issued b;
  bo_acked : 0 ≤ acked_to b ≤ issued b;
  bo_bytes : bytes b = sizes (envelopes b);
  bo_added : length (added b) = length (envelopes b);
  bo_unsent : unsent b `suffix_of` envelopes b;
  bo_emergency : 0 ≤ emergency_used b ≤ EMERGENCY_BUDGET
}.

Record parts_ok (ss : odict uuid session_buffer) (fl : odict uuid Z) (m tb : Z) : Prop := {
  po_sessions : odict_ok ss;
  po_floors : odict_ok fl;
  po_buffers : ∀ sid b, ss !! sid = Some b → buffer_ok sid b;
  po_messages : m = osum count ss;
  po_bytes : tb = osum bytes ss;
  po_floor_val : ∀ sid f, fl !! sid = Some f → 0 ≤ f;
  po_disjoint : ∀ sid, is_Some (ss !! sid) → fl !! sid = None;
  po_limit : Z.of_nat (olen fl) ≤ FLOOR_LIMIT
}.

Definition outbox_ok (o : outbox) : Prop :=
  parts_ok (sessions o) (floors o) (messages o) (total_bytes o).

(** ** Lists of envelopes *)

Lemma sizes_app l1 l2 : sizes (l1 ++ l2) = sizes l1 + sizes l2.
Proof. unfold sizes. induction l1 as [|x l1 IH]; csimpl; [done|]. lia. Qed.
Lemma sizes_one x : sizes [x] = ssize x.
Proof. unfold sizes. csimpl. lia. Qed.
Lemma seqs_app l1 l2 : seqs (l1 ++ l2) = seqs l1 ++ seqs l2.
Proof. apply fmap_app. Qed.

(** Envelopes at or below a cursor. *)
Definition below (last_seq : Z) (x : stored) : bool := seq_of x <=? last_seq.

Lemma trim_loop_spec last_seq envs times :
  trim_loop last_seq envs times =
  (drop_while (below last_seq) envs,
   drop (length (take_while (below last_seq) envs)) times,
   sizes (take_while (below last_seq) envs),
   Z.of_nat (length (take_while (below last_seq) envs))).
Proof.
  revert times. induction envs as [|x envs IH]; intros times; csimpl; [by rewrite drop_0|].
  unfold below at 1 3 5 7. destruct (seq_of x <=? last_seq); [|by rewrite drop_0].
  rewrite IH. csimpl.
  replace (drop (length (take_while (below last_seq) envs)) (tail times))
    with (drop (S (length (take_while (below last_seq) envs))) times)
    by (destruct times; csimpl; by rewrite ?drop_nil).
  repeat f_equal; [unfold sizes; csimpl|]; lia.
Qed.

Lemma drop_below_filter lo last_seq l :
  increasing lo (seqs l) →
  drop_while (below last_seq) l = filter (λ x, last_seq < seq_of x) l.
Proof.
  revert lo. induction l as [|x l IH]; intros lo; csimpl; [done|].
  intros [Hlo Hl]. rewrite filter_cons. unfold below at 1.
  destruct (Z.leb_spec (seq_of x) last_seq); case_decide; try lia.
  - by eapply IH.
  - f_equal. symmetry. apply filter_all, list.Forall_forall. intros y Hy.
    enough (seq_of x < seq_of y) by lia.
    eapply increasing_lower; [done|]. by apply list_elem_of_fmap_2.
Qed.

Lemma increasing_drop_below lo last_seq l :
  increasing lo (seqs l) →
  increasing (Z.max lo last_seq) (seqs (drop_while (below last_seq) l)).
Proof.
  revert lo. induction l as [|x l IH]; intros lo; csimpl; [done|].
  intros [Hlo Hl]. unfold below at 1. destruct (Z.leb_spec (seq_of x) last_seq).
  - specialize (IH _ Hl). eapply increasing_weaken; [|done]. lia.
  - csimpl. split; [lia|done].
Qed.

(** Trimming keeps the last issued number: what is left ends there, or the cursor
    is past everything. *)
Lemma last_drop_below acked last_seq issued l :
  increasing acked (seqs l) → acked ≤ issued → default acked (list.last (seqs l)) = issued →
  default (Z.max acked last_seq) (list.last (seqs (drop_while (below last_seq) l)))
    = Z.max issued last_seq.
Proof.
  revert acked. induction l as [|x l IH]; intros acked; csimpl; [intros; lia|].
  rewrite default_last_cons. intros [Hx Hl] Hle Hlast. unfold below at 1.
  destruct (Z.leb_spec (seq_of x) last_seq).
  - replace (Z.max acked last_seq) with (Z.max (seq_of x) last_seq) by lia. apply IH; [done| |done].
    subst issued. by apply increasing_last_ge.
  - csimpl. rewrite default_last_cons, Hlast. apply increasing_last_ge in Hl. lia.
Qed.

(** ** Preservation on the parts *)

Lemma parts_put ss fl m tb sid b b' :
  parts_ok ss fl m tb → ss !! sid = Some b → buffer_ok sid b' →
  parts_ok (<[sid:=b']> ss) fl (m + (count b' - count b)) (tb + (bytes b' - bytes b)).
Proof.
  intros [] Hb Hb'. split; auto with apipi.
  - intros s b0. rewrite olookup_insert. case_decide; naive_solver.
  - rewrite osum_insert, Hb. simpl. lia.
  - rewrite osum_insert, Hb. simpl. lia.
  - intros s. rewrite olookup_insert. case_decide; naive_solver.
Qed.

Lemma parts_floor_del ss fl m tb sid :
  parts_ok ss fl m tb → parts_ok ss (delete sid fl) m tb.
Proof.
  intros []. split; auto with apipi.
  - intros s f. rewrite olookup_delete. case_decide; naive_solver.
  - intros s Hs. rewrite olookup_delete. case_decide; naive_solver.
  - etrans; [|exact po_limit0]. apply Nat2Z.inj_le. unfold olen. simpl.
    clear. induction (oitems fl) as [|[k v] l IH]; simpl; [lia|].
    destruct (decide _); simpl; lia.
Qed.

Lemma parts_new ss fl m tb sid b :
  parts_ok ss fl m tb → ss !! sid = None → fl !! sid = None → buffer_ok sid b →
  parts_ok (<[sid:=b]> ss) fl (m + count b) (tb + bytes b).
Proof.
  intros [] Hb Hf Hb'. split; auto with apipi.
  - intros s b0. rewrite olookup_insert. case_decide; naive_solver.
  - rewrite osum_insert, Hb. simpl. lia.
  - rewrite osum_insert, Hb. simpl. lia.
  - intros s. rewrite olookup_insert. case_decide; naive_solver.
Qed.

Lemma parts_del ss fl m tb sid b :
  parts_ok ss fl m tb → ss !! sid = Some b →
  parts_ok (delete sid ss) fl (m - count b) (tb - bytes b).
Proof.
  intros [] Hb. split; auto with apipi.
  - intros s b0. rewrite olookup_delete. case_decide; naive_solver.
  - rewrite osum_delete, Hb by done. simpl. lia.
  - rewrite osum_delete, Hb by done. simpl. lia.
  - intros s. rewrite olookup_delete. case_decide; naive_solver.
Qed.

(** ** `_buffer`, `_trim`, and the spool helpers *)

Lemma buffer_spec o sid o' b :
  buffer o sid = (o', b) → outbox_ok o →
  outbox_ok o' ∧ sessions o' !! sid = Some b ∧ buffer_ok sid b
  ∧ issued b = high_water o sid ∧ high_water o' sid = high_water o sid
  ∧ (∀ s, s ≠ sid → sessions o' !! s = sessions o !! s)
  ∧ envelopes b = from_option envelopes [] (sessions o !! sid)
  ∧ messages o' = messages o ∧ total_bytes o' = total_bytes o
  ∧ peer_feats o' = peer_feats o ∧ files o' = files o.
Proof.
  unfold buffer, high_water. intros Hbuf Hok.
  destruct (sessions o !! sid) as [b0|] eqn:Hs.
  - simplify_eq. rewrite Hs. pose proof (po_buffers _ _ _ _ Hok _ _ Hs). naive_solver.
  - simplify_eq/=. rewrite olookup_insert_eq. simpl.
    assert (buffer_ok sid (SessionBuffer (next_id o) (default 0 (floors o !! sid))
      (default 0 (floors o !! sid)) [] [] 0 0 (default 0 (floors o !! sid)) [] 0 0)) as Hb.
    { split; simpl; unfold EMERGENCY_BUDGET; try lia; try done; try (by constructor).
      destruct (floors o !! sid) eqn:Hf; simpl; [|lia].
      apply (po_floor_val _ _ _ _ Hok) in Hf. lia. }
    split; [|naive_solver eauto using olookup_insert_ne].
    eapply parts_floor_del in Hok. eapply parts_new in Hok; [|done| |done].
    + unfold outbox_ok. simpl. revert Hok. unfold count. simpl. by rewrite !Z.add_0_r.
    + by rewrite olookup_delete_eq.
Qed.

Lemma trim_spec o b last_seq o' b' sid high snt :
  trim o b last_seq = (o', b') → buffer_ok sid b → high = Z.max (issued b) last_seq →
  buffer_ok sid (set_marks b' high (Z.max (acked_to b) last_seq) snt)
  ∧ envelopes b' = filter (λ x, last_seq < seq_of x) (envelopes b)
  ∧ sessions o' = sessions o ∧ floors o' = floors o
  ∧ messages o' = messages o + (count b' - count b)
  ∧ total_bytes o' = total_bytes o + (bytes b' - bytes b)
  ∧ acked_to b' = acked_to b ∧ sent b' = sent b ∧ issued b' = issued b
  ∧ bid b' = bid b ∧ spooled b' = spooled b ∧ files o' = files o
  ∧ dead b' + count b' = dead b + count b.
Proof.
  unfold trim. rewrite trim_loop_spec. intros Ht [] ->. simplify_eq/=.
  pose proof (take_drop_while (below last_seq) (envelopes b)) as Hsplit.
  assert (sizes (envelopes b) = sizes (take_while (below last_seq) (envelopes b))
            + sizes (drop_while (below last_seq) (envelopes b))) as Hsz.
  { by rewrite <- sizes_app, Hsplit. }
  assert (length (envelopes b) = (length (take_while (below last_seq) (envelopes b))
            + length (drop_while (below last_seq) (envelopes b)))%nat) as Hlen.
  { by rewrite <- length_app, Hsplit. }
  assert (drop_while (below last_seq) (unsent b) `suffix_of`
            drop_while (below last_seq) (envelopes b)) as Hsuf.
  { destruct bo_unsent0 as [k Hk].
    assert (∃ lo, increasing lo (seqs (unsent b))) as [lo Hlo].
    { rewrite Hk, seqs_app in bo_incr0. apply increasing_app in bo_incr0 as [_ ?]. eauto. }
    rewrite (drop_below_filter _ _ _ Hlo), (drop_below_filter _ _ _ bo_incr0), Hk, list.filter_app.
    by eexists. }
  rewrite <- (drop_below_filter _ _ _ bo_incr0).
  unfold count. simpl. split; [|repeat split; try done; lia].
  split; simpl; try done.
  - rewrite <- Hsplit in bo_session0. by apply Forall_app in bo_session0 as [_ ?].
  - by apply increasing_drop_below.
  - rewrite <- Hsplit in bo_upper0. apply Forall_app in bo_upper0 as [_ Hup].
    eapply list.Forall_impl; [done|]. simpl. lia.
  - apply last_drop_below; [done|lia|done].
  - lia.
  - lia.
  - rewrite length_drop. lia.
Qed.

Lemma remove_spool_parts cfg o sid io :
  let o' := remove_spool cfg o sid io in
  sessions o' = sessions o ∧ floors o' = floors o ∧ messages o' = messages o
  ∧ total_bytes o' = total_bytes o ∧ peer_feats o' = peer_feats o.
Proof. cbv zeta. unfold remove_spool. case_match; repeat split. Qed.

Lemma remove_spool_ok cfg o sid io : outbox_ok o → outbox_ok (remove_spool cfg o sid io).
Proof.
  destruct (remove_spool_parts cfg o sid io) as (H1 & H2 & H3 & H4 & _).
  unfold outbox_ok. by rewrite H1, H2, H3, H4.
Qed.

Lemma after_trim_spec cfg o sid b io o' b' :
  after_trim cfg o sid b io = (o', b') →
  sessions o' = sessions o ∧ floors o' = floors o ∧ messages o' = messages o
  ∧ total_bytes o' = total_bytes o ∧ (∃ sp d, b' = set_lines b sp d)
  ∧ peer_feats o' = peer_feats o.
Proof.
  unfold after_trim. intros Ha. case_match; simplify_eq.
  - destruct (remove_spool_parts cfg o sid io) as (-> & -> & -> & -> & ->). naive_solver.
  - repeat split. exists (spooled b'), (dead b'). by destruct b'.
Qed.

Lemma buffer_ok_set_lines sid b sp d : buffer_ok sid b → buffer_ok sid (set_lines b sp d).
Proof. by intros []. Qed.
#[export] Hint Resolve buffer_ok_set_lines : apipi.

(** ** The abstract view of one session *)

Record view : Type := View {
  v_high : Z;            (* highest sequence number issued *)
  v_acked : Z;           (* highest cumulative ack *)
  v_pending : list stored;   (* not acked, in order *)
  v_unsent : list stored     (* not sent on this connection, a suffix of them *)
}.

Definition view_of (o : outbox) (sid : uuid) : view :=
  View (high_water o sid) (acked_seq o sid)
    (from_option envelopes [] (sessions o !! sid)) (from_option unsent [] (sessions o !! sid)).

Record view_ok (sid : uuid) (v : view) : Prop := {
  vo_acked : 0 ≤ v_acked v ≤ v_high v;
  vo_incr : increasing (v_acked v) (seqs (v_pending v));
  vo_upper : Forall (λ x, seq_of x ≤ v_high v) (v_pending v);
  vo_last : default (v_acked v) (list.last (seqs (v_pending v))) = v_high v;
  vo_session : Forall (λ x, env_session (body x) = sid) (v_pending v);
  vo_unsent : v_unsent v `suffix_of` v_pending v
}.

Lemma view_of_ok o sid : outbox_ok o → view_ok sid (view_of o sid).
Proof.
  intros Hok. unfold view_of, high_water, acked_seq.
  destruct (sessions o !! sid) as [b|] eqn:Hs; simpl.
  - destruct (po_buffers _ _ _ _ Hok _ _ Hs). by split.
  - destruct (floors o !! sid) as [f|] eqn:Hf; split; simpl; try done; try constructor; try lia.
    apply (po_floor_val _ _ _ _ Hok) in Hf. lia.
Qed.

Lemma pending_view o sid : outbox_ok o → pending o sid 0 = v_pending (view_of o sid).
Proof.
  intros Hok. unfold pending, view_of. simpl.
  destruct (sessions o !! sid) as [b|] eqn:Hs; simpl; [|done].
  destruct (po_buffers _ _ _ _ Hok _ _ Hs). apply filter_all, list.Forall_forall.
  intros x Hx. enough (acked_to b < seq_of x) by lia.
  eapply increasing_lower; [done|]. by apply list_elem_of_fmap_2.
Qed.

Lemma view_of_put o sid b s :
  view_of (put_buffer o sid b) s =
  if decide (sid = s) then View (issued b) (acked_to b) (envelopes b) (unsent b)
  else view_of o s.
Proof.
  unfold view_of, high_water, acked_seq. simpl. rewrite olookup_insert. by case_decide.
Qed.

(** Two outboxes agree on everything a session's view shows. *)
Lemma view_of_ext o o' sid :
  sessions o' !! sid = sessions o !! sid → floors o' !! sid = floors o !! sid →
  view_of o' sid = view_of o sid.
Proof. unfold view_of, high_water, acked_seq. by intros -> ->. Qed.

(** ** `set_base` and `acked` *)

(** What trimming at a cumulative cursor leaves. *)
Definition view_trim (v : view) (high last_seq : Z) : view :=
  View high (Z.max (v_acked v) last_seq)
    (filter (λ x, last_seq < seq_of x) (v_pending v))
    (filter (λ x, last_seq < seq_of x) (v_unsent v)).

Lemma buffer_view o sid o' b :
  buffer o sid = (o', b) → outbox_ok o →
  (∀ s, view_of o' s = view_of o s)
  ∧ view_of o sid = View (issued b) (acked_to b) (envelopes b) (unsent b).
Proof.
  unfold buffer. intros Hb Hok. unfold view_of, high_water, acked_seq.
  destruct (sessions o !! sid) as [b0|] eqn:Hs; simplify_eq/=; [done|].
  split; [|done]. intros s. rewrite olookup_insert, olookup_delete.
  case_decide; [|done]. subst. by rewrite Hs.
Qed.

Lemma trim_unsent o b last_seq o' b' sid :
  trim o b last_seq = (o', b') → buffer_ok sid b →
  unsent b' = filter (λ x, last_seq < seq_of x) (unsent b).
Proof.
  unfold trim. destruct (trim_loop _ _ _) as [[[? ?] ?] ?]. intros Ht []. simplify_eq/=.
  destruct bo_unsent0 as [k Hk]. rewrite Hk, seqs_app in bo_incr0.
  apply increasing_app in bo_incr0 as [_ Hlo]. by apply (drop_below_filter _ _ _ Hlo).
Qed.

(** The part `set_base` and `acked` share. *)
Lemma trim_put cfg o sid b last_seq high io o1 b1 o2 b2 :
  outbox_ok o → sessions o !! sid = Some b →
  high = Z.max (issued b) last_seq →
  trim o b last_seq = (o1, b1) →
  after_trim cfg o1 sid
    (set_marks b1 high (Z.max (acked_to b1) last_seq)
       (Z.max (sent b1) (Z.max (acked_to b1) last_seq))) io = (o2, b2) →
  outbox_ok (put_buffer o2 sid b2)
  ∧ ∀ s, view_of (put_buffer o2 sid b2) s =
         if decide (sid = s) then view_trim (view_of o sid) high last_seq else view_of o s.
Proof.
  intros Hok Hs Hi Ht Ha. pose proof (po_buffers _ _ _ _ Hok _ _ Hs) as Hb.
  pose proof (trim_unsent _ _ _ _ _ _ Ht Hb) as Hun.
  eapply (trim_spec _ _ _ _ _ _ high (sent b1 `max` (acked_to b `max` last_seq)))
    in Ht as (Hb1 & He & Hs1 & Hf1 & Hm1 & Ht1 & Hac & _ & Hi1 & _); [|done..].
  rewrite Hac in Ha.
  apply after_trim_spec in Ha as (Hs2 & Hf2 & Hm2 & Ht2 & (sp & d & ->) & _). split.
  - unfold outbox_ok. simpl. rewrite Hs2, Hs1, Hf2, Hf1, Hm2, Ht2, Hm1, Ht1.
    exact (parts_put _ _ _ _ _ _ _ Hok Hs (buffer_ok_set_lines _ _ sp d Hb1)).
  - intros s. rewrite view_of_put. case_decide as Hsid.
    + subst s. unfold view_trim, view_of, acked_seq. rewrite Hs. simpl. by rewrite He, Hun.
    + apply view_of_ext; congruence.
Qed.

Lemma set_base_view cfg o sid last_seq io :
  outbox_ok o →
  outbox_ok (set_base cfg o sid last_seq io)
  ∧ ∀ s, view_of (set_base cfg o sid last_seq io) s =
         if decide (sid = s)
         then view_trim (view_of o sid) (Z.max (high_water o sid) last_seq) last_seq
         else view_of o s.
Proof.
  intros Hok. unfold set_base. destruct (buffer o sid) as [o0 b] eqn:Hbuf.
  pose proof (buffer_view _ _ _ _ Hbuf Hok) as [Hv _].
  apply buffer_spec in Hbuf as (Hok0 & Hs0 & Hb & Hi & _); [|done].
  destruct (trim o0 b last_seq) as [o1 b1] eqn:Ht.
  assert (issued b1 = issued b) as Hi1.
  { eapply (trim_spec _ _ _ _ _ _ (Z.max (issued b) last_seq) 0) in Ht; [|done|lia..].
    naive_solver. }
  rewrite Hi1.
  destruct (after_trim _ _ _ _ _) as [o2 b2] eqn:Ha.
  destruct (trim_put cfg o0 sid b last_seq (Z.max (issued b) last_seq) io o1 b1 o2 b2)
    as [Hok2 Hv2]; [done|done|lia|done|done|].
  split; [done|]. intros s. rewrite Hv2, Hi, !Hv. done.
Qed.

Lemma acked_view cfg o sid last_seq io :
  outbox_ok o → last_seq ≤ high_water o sid →
  outbox_ok (acked cfg o sid last_seq io)
  ∧ ∀ s, view_of (acked cfg o sid last_seq io) s =
         if decide (sid = s ∧ is_Some (sessions o !! sid))
         then view_trim (view_of o sid) (high_water o sid) last_seq
         else view_of o s.
Proof.
  unfold acked, high_water. intros Hok.
  destruct (sessions o !! sid) as [b|] eqn:Hs; intros Hle.
  - destruct (trim o b last_seq) as [o1 b1] eqn:Ht.
    assert (issued b1 = issued b) as Hi1.
    { eapply (trim_spec _ _ _ _ _ _ (issued b) 0) in Ht; [|by eapply po_buffers|lia..].
      naive_solver. }
    rewrite Hi1. destruct (after_trim _ _ _ _ _) as [o2 b2] eqn:Ha.
    destruct (trim_put cfg o sid b last_seq (issued b) io o1 b1 o2 b2)
      as [Hok2 Hv2]; [done|done|lia|done|done|].
    split; [done|]. intros s. rewrite Hv2.
    destruct (decide (sid = s)), (decide (sid = s ∧ _)) as [[]|Hn]; try done.
    destruct Hn. eauto.
  - split; [done|]. intros s. case_decide as Hd; [|done]. by destruct Hd as [_ [? ?]].
Qed.


(** ** `append` *)

Lemma spool_append_spec cfg o sid b e io o' b' :
  spool_append cfg o sid b e io = (o', b') →
  sessions o' = sessions o ∧ floors o' = floors o ∧ messages o' = messages o
  ∧ total_bytes o' = total_bytes o ∧ (∃ sp d, b' = set_lines b sp d).
Proof.
  unfold spool_append. intros Hs. case_match; simplify_eq/=; [naive_solver|].
  repeat split. exists (spooled b'), (dead b'). by destruct b'.
Qed.

(** A buffer with one more envelope. *)
Definition push (b : session_buffer) (x : stored) (now em : Z) : session_buffer :=
  SessionBuffer (bid b) (issued b + 1) (acked_to b) (envelopes b ++ [x]) (added b ++ [now])
    (bytes b + ssize x) em (sent b) (unsent b ++ [x]) (spooled b) (dead b).

Lemma push_ok sid b x now em :
  buffer_ok sid b → env_session (body x) = sid → seq_of x = issued b + 1 →
  0 ≤ em ≤ EMERGENCY_BUDGET → buffer_ok sid (push b x now em).
Proof.
  intros Hb Hx Hq Hem. destruct Hb.
  split; simpl; try done.
  - apply Forall_app. split; [done|]. by constructor.
  - rewrite seqs_app. csimpl. apply increasing_snoc. split; [done|]. rewrite Hq. lia.
  - apply Forall_app. split.
    + eapply list.Forall_impl; [done|]. simpl. lia.
    + constructor; [lia|constructor].
  - rewrite seqs_app. csimpl. by rewrite last_snoc.
  - lia.
  - rewrite sizes_app, sizes_one. lia.
  - rewrite !length_app. simpl. lia.
  - destruct bo_unsent0 as [k ->]. exists k. by rewrite app_assoc.
Qed.

(** The view after a successful `append`. *)
Definition view_push (v : view) (x : stored) : view :=
  View (v_high v + 1) (v_acked v) (v_pending v ++ [x]) (v_unsent v ++ [x]).

Lemma append_inv cfg o now io sid type payload turn em o' r :
  outbox_ok o →
  append cfg o now io sid type payload turn em = (o', r) →
  let e := Envelope sid turn (high_water o sid + 1) type payload in
  match r with
  | Err err =>
      outbox_ok o' ∧ (∀ s, view_of o' s = view_of o s)
      ∧ messages o' = messages o ∧ total_bytes o' = total_bytes o
  | Ok x =>
      outbox_ok o' ∧ body x = e ∧ missing_feature o type = None
      ∧ envelope_size e ≤ MAX_MESSAGE_BYTES
      ∧ messages o' = messages o + 1 ∧ total_bytes o' = total_bytes o + envelope_size e
      ∧ ∀ s, view_of o' s =
             if decide (sid = s) then view_push (view_of o sid) x else view_of o s
  end.
Proof.
  intros Hok. unfold append. destruct (missing_feature o type); [intros ?; by simplify_eq|].
  destruct (buffer o sid) as [o0 b] eqn:Hbuf.
  pose proof (buffer_view _ _ _ _ Hbuf Hok) as [Hv Hvb].
  apply buffer_spec in Hbuf as (Hok0 & Hs0 & Hb & Hi & _ & _ & _ & Hm0 & Ht0 & _); [|done].
  rewrite <- Hi. set (e := Envelope _ _ _ _ _).
  destruct (Z.ltb_spec MAX_MESSAGE_BYTES (envelope_size e)); [intros ?; by simplify_eq|].
  destruct (_ && negb _) eqn:Hover; [intros ?; by simplify_eq|].
  destruct (fresh_id o0) as [i o1] eqn:Hfr. unfold fresh_id in Hfr. simplify_eq.
  destruct (spool_append _ _ _ _ _ _) as [o2 b2] eqn:Hsp. intros ?. simplify_eq.
  apply spool_append_spec in Hsp as (Hs2 & Hf2 & Hm2 & Ht2 & sp & d & ->). simpl in *.
  set (x := Stored _ e).
  set (em' := if _ || _ then _ else _).
  assert (buffer_ok sid (push b x now em')) as Hpush.
  { apply push_ok; try done. pose proof (bo_emergency _ _ Hb). unfold em'.
    destruct (_ || _); [|lia]. simpl in Hover. apply negb_false_iff in Hover. bool_props. lia. }
  split; [|repeat split; try done; try lia].
  - unfold outbox_ok. simpl. rewrite Hs2, Hf2, Hm2, Ht2.
    pose proof (parts_put _ _ _ _ _ _ _ Hok0 Hs0 (buffer_ok_set_lines _ _ sp d Hpush)) as Hp.
    revert Hp. unfold count. simpl. rewrite length_app. simpl.
    replace (Z.of_nat (length (envelopes b) + 1) - Z.of_nat (length (envelopes b))) with 1 by lia.
    by replace (bytes b + ssize x - bytes b) with (envelope_size e) by (unfold ssize; simpl; lia).
  - intros s. rewrite <- !Hv. unfold set_dirty. 
    rewrite (view_of_ext (put_buffer o2 sid _)) by done. rewrite view_of_put. case_decide.
    + rewrite Hv, Hvb. done.
    + apply view_of_ext; simpl; congruence.
Qed.

(** ** The sender: `begin_connection`, `next_unsent`, `mark_sent` *)

Lemma lget_map {V} (f : V → V) (l : list (uuid * V)) k :
  lget ((λ p, (p.1, f p.2)) <$> l) k = f <$> lget l k.
Proof.
  induction l as [|[k0 v0] l IH]; csimpl; [done|]. by destruct (decide _).
Qed.
Lemma osum_map {V} (g : V → V) (f : V → Z) (l : list (uuid * V)) :
  (∀ v, f (g v) = f v) →
  osum f (ODict ((λ p, (p.1, g p.2)) <$> l)) = osum f (ODict l).
Proof.
  intros Hg. unfold osum, ovals. simpl. induction l as [|[k v] l IH]; csimpl; [done|].
  by rewrite Hg, IH.
Qed.

Lemma begin_connection_view o :
  outbox_ok o →
  outbox_ok (begin_connection o).1
  ∧ ∀ s, view_of (begin_connection o).1 s =
         View (v_high (view_of o s)) (v_acked (view_of o s))
           (v_pending (view_of o s)) (v_pending (view_of o s)).
Proof.
  intros Hok. unfold begin_connection, set_dirty, set_sessions. simpl. split.
  - destruct Hok. unfold outbox_ok. simpl. split; simpl; try done.
    + unfold odict_ok, okeys in *. simpl. by rewrite <- list_fmap_compose.
    + intros s b. unfold lookup, odict_lookup. simpl. rewrite lget_map.
      intros (b0 & Hb0 & ->)%fmap_Some. specialize (po_buffers0 _ _ Hb0).
      destruct po_buffers0. split; simpl; done.
    + by rewrite osum_map.
    + by rewrite osum_map.
    + intros s. unfold lookup, odict_lookup. simpl. rewrite lget_map.
      intros [? (b0 & Hb0 & ->)%fmap_Some]. apply po_disjoint0. eauto.
  - intros s. unfold view_of, high_water, acked_seq. simpl.
    unfold lookup, odict_lookup. simpl. rewrite lget_map.
    by destruct (lget (oitems (sessions o)) s).
Qed.

Lemma next_unsent_view o sid : next_unsent o sid = head (v_unsent (view_of o sid)).
Proof. unfold next_unsent, view_of. simpl. by destruct (sessions o !! sid). Qed.

(** `mark_sent` after `next_unsent` pops exactly that envelope. *)
Lemma mark_sent_view o sid x :
  outbox_ok o → next_unsent o sid = Some x →
  outbox_ok (mark_sent o sid x)
  ∧ ∀ s, view_of (mark_sent o sid x) s =
         if decide (sid = s)
         then View (v_high (view_of o s)) (v_acked (view_of o s)) (v_pending (view_of o s))
                (tail (v_unsent (view_of o s)))
         else view_of o s.
Proof.
  unfold next_unsent, mark_sent. intros Hok.
  destruct (sessions o !! sid) as [b|] eqn:Hs; simpl; [|done].
  intros Hx. destruct (unsent b) as [|y ys] eqn:Hu; simplify_eq/=.
  rewrite decide_True by done. split.
  - pose proof (po_buffers _ _ _ _ Hok _ _ Hs) as Hb.
    assert (buffer_ok sid (set_unsent b (Z.max (sent b) (seq_of x)) ys)) as Hb'.
    { destruct Hb. split; simpl; try done. destruct bo_unsent0 as [k Hk].
      rewrite Hu in Hk. exists (k ++ [x]). by rewrite <- app_assoc. }
    pose proof (parts_put _ _ _ _ _ _ _ Hok Hs Hb') as Hp. revert Hp.
    unfold outbox_ok, count. simpl. by rewrite !Z.sub_diag, !Z.add_0_r.
  - intros s. rewrite view_of_put. case_decide as Hsid; [|done]. subst s.
    unfold view_of, high_water, acked_seq. rewrite Hs. simpl. by rewrite Hu.
Qed.

(** Any envelope object may come back from a socket write; only the buffer of its
    session can change. *)
Lemma mark_sent_ok o sid x : outbox_ok o → outbox_ok (mark_sent o sid x).
Proof.
  unfold mark_sent. intros Hok. destruct (sessions o !! sid) as [b|] eqn:Hs; [|done].
  set (rest := match unsent b with [] => _ | _ => _ end).
  pose proof (po_buffers _ _ _ _ Hok _ _ Hs) as Hb.
  assert (rest `suffix_of` unsent b) as Hr.
  { unfold rest. destruct (unsent b) as [|y ys]; [done|]. case_decide; [|done].
    by exists [y]. }
  assert (buffer_ok sid (set_unsent b (Z.max (sent b) (seq_of x)) rest)) as Hb'.
  { destruct Hb. split; simpl; try done. by etrans. }
  pose proof (parts_put _ _ _ _ _ _ _ Hok Hs Hb') as Hp. revert Hp.
  unfold outbox_ok, count. simpl. by rewrite !Z.sub_diag, !Z.add_0_r.
Qed.

(** The inner loop of `_pump_outbox` for one session, run until it is empty. *)
Fixpoint pump (fuel : nat) (o : outbox) (sid : uuid) : outbox * list stored :=
  match fuel with
  | O => (o, [])
  | S f =>
      match next_unsent o sid with
      | None => (o, [])
      | Some x => let '(o, xs) := pump f (mark_sent o sid x) sid in (o, x :: xs)
      end
  end.

Lemma pump_view fuel o sid :
  outbox_ok o → (length (v_unsent (view_of o sid)) ≤ fuel)%nat →
  outbox_ok (pump fuel o sid).1
  ∧ (pump fuel o sid).2 = v_unsent (view_of o sid)
  ∧ ∀ s, view_of (pump fuel o sid).1 s =
         if decide (sid = s)
         then View (v_high (view_of o s)) (v_acked (view_of o s)) (v_pending (view_of o s)) []
         else view_of o s.
Proof.
  revert o. induction fuel as [|f IH]; intros o Hok Hlen; cbn [pump].
  - destruct (v_unsent (view_of o sid)) eqn:Hu; [|simpl in Hlen; lia].
    split; [done|]. split; [done|]. intros s. cbn [fst]. case_decide; [|done]. subst.
    rewrite <- Hu. by destruct (view_of o s).
  - rewrite next_unsent_view. destruct (v_unsent (view_of o sid)) as [|x xs] eqn:Hu; cbn [head].
    + split; [done|]. split; [done|]. intros s. cbn [fst]. case_decide; [|done]. subst.
      rewrite <- Hu. by destruct (view_of o s).
    + destruct (mark_sent_view o sid x) as [Hok' Hv]; [done|by rewrite next_unsent_view, Hu|].
      destruct (IH (mark_sent o sid x)) as (Ho & Hxs & Hs); [done| |].
      { rewrite Hv, decide_True, Hu by done. simpl in *. lia. }
      destruct (pump f _ sid) as [o' ys]. cbn [fst snd] in *. split; [done|]. split.
      * rewrite Hxs, Hv, decide_True, Hu by done. done.
      * intros s. rewrite Hs, !Hv. by case_decide.
Qed.

(** ** `release` and `drop_session` *)

Lemma evict_floors_suffix l : evict_floors l `suffix_of` l.
Proof.
  unfold evict_floors. eexists. symmetry. apply take_drop.
Qed.

Lemma odict_ok_suffix (l l' : list (uuid * Z)) :
  l' `suffix_of` l → odict_ok (ODict l) → odict_ok (ODict l').
Proof.
  intros [k ->]. unfold odict_ok, okeys. simpl. rewrite fmap_app. by intros (_ & _ & ?)%list.NoDup_app.
Qed.

Lemma lget_suffix (l l' : list (uuid * Z)) k v :
  odict_ok (ODict l) → l' `suffix_of` l → lget l' k = Some v → lget l k = Some v.
Proof.
  intros Hok Hsuf Hl. apply (elem_of_oitems (ODict l)); [done|]. simpl.
  pose proof (odict_ok_suffix _ _ Hsuf Hok) as Hok'.
  apply (elem_of_oitems (ODict l') k v Hok') in Hl. simpl in Hl.
  destruct Hsuf as [k0 ->]. apply elem_of_app. by right.
Qed.

Lemma release_ok cfg o sid io : outbox_ok o → outbox_ok (release cfg o sid io).
Proof.
  intros Hok. unfold release. destruct (sessions o !! sid) as [b|] eqn:Hs; [|done].
  case_decide as He; [done|].
  assert (envelopes b = []) as Hnil by (destruct (envelopes b); [done|by destruct He]).
  pose proof (po_buffers _ _ _ _ Hok _ _ Hs) as Hb.
  pose proof (parts_del _ _ _ _ _ _ Hok Hs) as Hp.
  apply parts_floor_del with (sid := sid) in Hp.
  set (moved := <[sid:=issued b]> (delete sid (floors o))).
  assert (outbox_ok (set_floors (set_sessions o (delete sid (sessions o)))
            (ODict (evict_floors (oitems moved))))) as Hok'.
  { unfold outbox_ok, count in *. simpl. rewrite Hnil in Hp. simpl in Hp.
    rewrite (bo_bytes _ _ Hb), Hnil in Hp. unfold sizes in Hp. simpl in Hp.
    rewrite !Z.sub_0_r in Hp. destruct Hp.
    pose proof (evict_floors_suffix (oitems moved)) as Hsuf.
    assert (odict_ok moved) as Hmok by (unfold moved; auto with apipi).
    split; simpl; try done.
    - by eapply odict_ok_suffix.
    - intros s f Hf. eapply (lget_suffix (oitems moved)) in Hf; [|done..].
      change (moved !! s = Some f) in Hf. unfold moved in Hf.
      rewrite olookup_insert in Hf. case_decide; [|by eapply po_floor_val0].
      simplify_eq. destruct Hb. lia.
    - intros s Hin.
      destruct (ODict (evict_floors (oitems moved)) !! s) as [f|] eqn:Hf; [|done].
      eapply (lget_suffix (oitems moved)) in Hf; [|done..].
      change (moved !! s = Some f) in Hf. unfold moved in Hf.
      rewrite olookup_insert in Hf. case_decide as Hd.
      + subst. rewrite olookup_delete_eq in Hin. by destruct Hin.
      + by rewrite po_disjoint0 in Hf.
    - unfold evict_floors, olen. simpl. rewrite length_drop. unfold FLOOR_LIMIT. lia. }
  case_match; [done|]. by apply remove_spool_ok.
Qed.

Lemma drop_session_ok cfg o sid io : outbox_ok o → outbox_ok (drop_session cfg o sid io).
Proof.
  intros Hok. unfold drop_session.
  set (o1 := match _ with Some _ => _ | None => _ end).
  assert (outbox_ok o1) as Hok1.
  { unfold o1. simpl. destruct (sessions o !! sid) as [b|] eqn:Hs;
      [|by apply (parts_floor_del _ _ _ _ sid)].
    apply (parts_floor_del _ _ _ _ sid). by apply (parts_del _ _ _ _ _ _ Hok). }
  by apply remove_spool_ok.
Qed.

(** ** `load_spool` and the compaction *)

(** A spool line written for the session of its file. *)
Definition line_of (sid : uuid) (line : spool_line) : Prop :=
  match line with LEnv e => env_session e = sid | _ => True end.

Lemma load_lines_spec now sid lines o b o' b' :
  foldl (load_line now) (o, b) lines = (o', b') →
  Forall (line_of sid) lines → buffer_ok sid b →
  buffer_ok sid b' ∧ sessions o' = sessions o ∧ floors o' = floors o
  ∧ messages o' = messages o + (count b' - count b)
  ∧ total_bytes o' = total_bytes o + (bytes b' - bytes b)
  ∧ files o' = files o ∧ issued b ≤ issued b' ∧ acked_to b' = acked_to b.
Proof.
  intros Hf Hl. revert o b Hf. induction Hl as [|line lines Hline Hl IH]; intros o b Hf Hb.
  - simplify_eq/=. repeat split; try apply Hb; lia.
  - cbn [foldl] in Hf. destruct (load_line now (o, b) line) as [o1 b1] eqn:H1.
    assert (buffer_ok sid b1 ∧ sessions o1 = sessions o ∧ floors o1 = floors o
      ∧ messages o1 = messages o + (count b1 - count b)
      ∧ total_bytes o1 = total_bytes o + (bytes b1 - bytes b)
      ∧ files o1 = files o ∧ issued b ≤ issued b1 ∧ acked_to b1 = acked_to b)
      as (Hb1 & Hs & Hfl & Hm & Ht & Hfi & Hi & Ha).
    { unfold load_line in H1. destruct line as [| |e]; simplify_eq;
        [repeat split; try apply Hb; simpl; lia..|].
      destruct (Z.leb_spec (env_seq e) (issued (set_lines b (spooled b + 1) (dead b))));
        simpl in *; simplify_eq; simpl.
      - repeat split; try apply Hb; unfold count; simpl; lia.
      - split; [|unfold count; simpl; rewrite length_app; simpl; repeat split; lia].
        destruct Hb. split; simpl; try done.
        + apply Forall_app. split; [done|]. by constructor.
        + rewrite seqs_app. csimpl. apply increasing_snoc. split; [done|].
          unfold seq_of. simpl. lia.
        + apply Forall_app. split.
          * eapply list.Forall_impl; [done|]. simpl. lia.
          * constructor; [done|constructor].
        + rewrite seqs_app. csimpl. by rewrite last_snoc.
        + lia.
        + rewrite sizes_app, sizes_one. unfold ssize. simpl. lia.
        + rewrite !length_app. simpl. lia.
        + destruct bo_unsent0 as [k ->]. eexists k. by rewrite app_assoc. }
    destruct (IH _ _ Hf Hb1) as (? & -> & -> & -> & -> & -> & ? & ->).
    split_and!; try done; try lia; congruence.
Qed.

Lemma load_file_ok now o sid lines :
  outbox_ok o → Forall (line_of sid) lines → outbox_ok (load_file now o sid lines).
Proof.
  intros Hok Hl. unfold load_file. destruct (buffer o sid) as [o1 b1] eqn:Hbuf.
  apply buffer_spec in Hbuf as (Hok1 & Hs1 & Hb1 & _); [|done].
  destruct (foldl _ _ _) as [o2 b2] eqn:Hf.
  apply (load_lines_spec _ sid) in Hf as (Hb2 & Hs & Hfl & Hm & Ht & _); [|done..].
  assert (buffer_ok sid (set_unsent b2 (issued b2) (unsent b2))) as Hb2' by (by destruct Hb2).
  unfold outbox_ok. simpl. rewrite Hs, Hfl, Hm, Ht.
  exact (parts_put _ _ _ _ _ _ _ Hok1 Hs1 Hb2').
Qed.

Definition listing_ok (listing : list (uuid * option (list spool_line))) : Prop :=
  Forall (λ p, from_option (Forall (line_of p.1)) True p.2) listing.

Lemma load_spool_ok now listing o waters :
  outbox_ok o → listing_ok listing → outbox_ok (load_spool now listing o waters).1.
Proof.
  intros Hok Hl. revert o waters Hok.
  induction Hl as [|[sid [lines|]] listing Hp Hl IH]; intros o waters Hok; simpl in *; auto.
  by apply IH, load_file_ok.
Qed.

Lemma compact_finish_ok o sid i snap io : outbox_ok o → outbox_ok (compact_finish o sid i snap io).
Proof.
  unfold compact_finish. intros Hok. destruct (sessions o !! sid) as [b|] eqn:Hs; [|done].
  case_match; [|done].
  pose proof (po_buffers _ _ _ _ Hok _ _ Hs) as Hb.
  set (b' := set_lines b _ _).
  pose proof (parts_put _ _ _ _ _ _ b' Hok Hs (buffer_ok_set_lines _ _ _ _ Hb)) as Hp.
  revert Hp. unfold outbox_ok, count. simpl. by rewrite !Z.sub_diag, !Z.add_0_r.
Qed.

(** ** The outbox as a state machine *)

(** Everything but the load of the spool, which only happens at start. *)
Inductive live_step (cfg : config) : outbox → outbox → Prop :=
| step_append o now io sid type payload turn em o' r :
    append cfg o now io sid type payload turn em = (o', r) → live_step cfg o o'
| step_acked o sid last_seq io :
    last_seq ≤ high_water o sid → live_step cfg o (acked cfg o sid last_seq io)
| step_set_base o sid last_seq io : live_step cfg o (set_base cfg o sid last_seq io)
| step_connect o : live_step cfg o (begin_connection o).1
| step_sent o sid x : live_step cfg o (mark_sent o sid x)
| step_release o sid io : live_step cfg o (release cfg o sid io)
| step_drop o sid io : live_step cfg o (drop_session cfg o sid io)
| step_dirty o d : live_step cfg o (set_dirty o d)
| step_sync o : live_step cfg o (sync_spool o)
| step_compact o sid i snap io : live_step cfg o (compact_finish o sid i snap io).

Inductive outbox_step (cfg : config) : outbox → outbox → Prop :=
| step_live o o' : live_step cfg o o' → outbox_step cfg o o'
| step_load o now listing :
    listing_ok listing → outbox_step cfg o (load_spool now listing o ∅).1.

Lemma init_outbox_ok disk : outbox_ok (init_outbox disk).
Proof. split; simpl; auto with apipi; unfold FLOOR_LIMIT, olen; simpl; done. Qed.

Lemma live_step_ok cfg o o' : live_step cfg o o' → outbox_ok o → outbox_ok o'.
Proof.
  destruct 1; intros Hok; auto using release_ok, drop_session_ok, mark_sent_ok, compact_finish_ok.
  - eapply append_inv in H; [|done]. destruct r; naive_solver.
  - by apply acked_view.
  - by apply set_base_view.
  - by apply begin_connection_view.
Qed.

Lemma outbox_step_ok cfg o o' : outbox_step cfg o o' → outbox_ok o → outbox_ok o'.
Proof. destruct 1; intros Hok; [by eapply live_step_ok|by apply load_spool_ok]. Qed.
#[export] Hint Resolve init_outbox_ok live_step_ok outbox_step_ok : apipi.
