(* ===== verification/OutboxSpool.v ===== *)
(** * The outbox spool: nothing unacked is lost by a restart

    With the spool on and no failing file operation, the file of a session holds
    its acked lines followed by exactly its unacked envelopes ([spool_ok]).  The
    invariant survives `append`, `acked`, `set_base`, `release`, and a compaction
    that runs while the others go on; `load_spool` after a restart gives the
    unacked envelopes back. *)

From S2P Require Import Prelude PyStd Protocol Outbox OutboxSpec.

Open Scope Z_scope.

(** ** The invariant *)

Definition lines_of (o : outbox) (sid : uuid) : list spool_line := default [] (files o !! sid).

(** What a session's file must hold: [dl] are the lines already acked. *)
Record file_ok (sid : uuid) (lines : list spool_line) (dl : list envelope) (b : session_buffer) : Prop := {
  fo_lines : lines = LEnv <$> dl ++ (body <$> envelopes b);
  fo_session : Forall (λ e, env_session e = sid) dl;
  fo_dead : Forall (λ e, env_seq e ≤ acked_to b) dl;
  fo_incr : increasing 0 (env_seq <$> dl ++ (body <$> envelopes b));
  fo_count : dead b = Z.of_nat (length dl) ∧ spooled b = dead b + count b
}.

Definition spool_ok (o : outbox) : Prop :=
  ∀ sid, match sessions o !! sid with
         | Some b => ∃ dl, file_ok sid (lines_of o sid) dl b
         | None => lines_of o sid = []
         end.

Lemma fmap_seqs l : env_seq <$> (body <$> l) = seqs l.
Proof. unfold seqs. by rewrite <- list_fmap_compose. Qed.

Lemma lines_of_insert o sid l u s :
  lines_of (set_spool o (<[sid:=l]> (files o)) u) s = if decide (sid = s) then l else lines_of o s.
Proof. unfold lines_of. simpl. rewrite lookup_insert. by case_decide. Qed.
Lemma lines_of_delete o sid u s :
  lines_of (set_spool o (delete sid (files o)) u) s = if decide (sid = s) then [] else lines_of o s.
Proof. unfold lines_of. simpl. rewrite lookup_delete. by case_decide. Qed.

Lemma remove_spool_lines cfg o sid s :
  spool_on cfg = true →
  lines_of (remove_spool cfg o sid true) s = if decide (sid = s) then [] else lines_of o s.
Proof. intros Hon. unfold remove_spool. rewrite Hon. apply lines_of_delete. Qed.

(** ** Trimming *)

Lemma file_ok_trim sid lines dl b b1 o o1 last_seq high snt :
  buffer_ok sid b → high = Z.max (issued b) last_seq →
  trim o b last_seq = (o1, b1) → file_ok sid lines dl b →
  ∃ dl', file_ok sid lines dl' (set_marks b1 high (Z.max (acked_to b) last_seq) snt).
Proof.
  intros Hb Hhi Ht [-> Hses Hdead Hinc [Hd Hsp]].
  pose proof Ht as Ht'.
  apply (trim_spec _ _ _ _ _ sid high snt) in Ht'
    as (_ & He & _ & _ & _ & _ & _ & _ & _ & _ & Hspd & _ & Hdc); [|done..].
  set (gone := take_while (below last_seq) (envelopes b)).
  assert (envelopes b = gone ++ envelopes b1) as Hsplit.
  { rewrite He, <- (drop_below_filter _ _ _ (bo_incr _ _ Hb)). symmetry. apply take_drop_while. }
  exists (dl ++ (body <$> gone)). unfold set_marks, count in *. split; simpl.
  - rewrite Hsplit at 1. by rewrite !fmap_app, app_assoc.
  - apply Forall_app. split; [done|]. apply Forall_fmap.
    pose proof (bo_session _ _ Hb) as Hall. rewrite Hsplit in Hall.
    by apply Forall_app in Hall as [? _].
  - apply Forall_app. split.
    + eapply list.Forall_impl; [done|]. simpl. lia.
    + apply Forall_fmap. eapply list.Forall_impl; [apply take_while_all|].
      intros x Hx. unfold below in Hx. apply Z.leb_le in Hx. simpl. unfold seq_of in Hx. lia.
  - by rewrite <- app_assoc, <- fmap_app, <- Hsplit.
  - rewrite Hspd, Hsp. apply (f_equal length) in Hsplit. rewrite length_app in Hsplit.
    rewrite length_app, length_fmap. unfold count in *. cbn [envelopes]. lia.
Qed.

(** A file of a buffer without envelopes may go. *)
Lemma file_ok_removed sid b :
  envelopes b = [] → file_ok sid [] [] (set_lines b 0 0).
Proof. intros He. split; unfold count; cbn [envelopes set_lines dead spooled]; rewrite ?He; try done. Qed.

(** The shared end of `set_base` and `acked`. *)
Lemma trim_put_spool cfg o sid b last_seq high o1 b1 o2 b2 :
  spool_on cfg = true → outbox_ok o → spool_ok o → sessions o !! sid = Some b →
  high = Z.max (issued b) last_seq →
  trim o b last_seq = (o1, b1) →
  after_trim cfg o1 sid
    (set_marks b1 high (Z.max (acked_to b1) last_seq)
       (Z.max (sent b1) (Z.max (acked_to b1) last_seq))) true = (o2, b2) →
  spool_ok (put_buffer o2 sid b2).
Proof.
  intros Hon Hok Hsp Hs Hi Ht Ha s.
  pose proof (po_buffers _ _ _ _ Hok _ _ Hs) as Hb.
  pose proof (Hsp sid) as Hfile. rewrite Hs in Hfile. destruct Hfile as [dl Hfile].
  set (snt := Z.max (sent b1) (Z.max (acked_to b1) last_seq)) in *.
  pose proof Ht as Htr. apply (trim_spec _ _ _ _ _ sid high snt) in Htr
    as (_ & _ & Hs1 & _ & _ & _ & Hac & _ & _ & _ & _ & Hf1 & _); [|done..].
  rewrite Hac in Ha. eapply file_ok_trim in Hfile as [dl' Hfile]; [|done..].
  assert (∀ s', s' ≠ sid → lines_of o2 s' = lines_of o s') as Hother.
  { intros s' Hne. unfold after_trim in Ha. case_match; simplify_eq.
    - rewrite remove_spool_lines, decide_False by done. unfold lines_of. by rewrite Hf1.
    - unfold lines_of. by rewrite Hf1. }
  assert (sessions o2 = sessions o) as Hs2.
  { apply after_trim_spec in Ha as (-> & _). done. }
  simpl. rewrite Hs2, olookup_insert. case_decide as Hsid.
  - subst s. change (lines_of (put_buffer o2 sid b2) sid) with (lines_of o2 sid).
    unfold after_trim in Ha. destruct (bool_decide _) eqn:Hnil; simpl in Ha.
    + apply bool_decide_eq_true in Hnil. destruct (negb _) eqn:Hz; simplify_eq.
      * exists []. rewrite remove_spool_lines, decide_True by done. by apply file_ok_removed.
      * exists dl'. unfold lines_of. rewrite Hf1. done.
    + simplify_eq. exists dl'. unfold lines_of. by rewrite Hf1.
  - specialize (Hsp s).
    change (lines_of (put_buffer o2 sid b2) s) with (lines_of o2 s).
    by rewrite Hother.
Qed.

(** Every sequence number of a session's file has been issued. *)
Lemma file_ok_issued sid lines dl b :
  buffer_ok sid b → file_ok sid lines dl b →
  Forall (λ e, env_seq e ≤ issued b) (dl ++ (body <$> envelopes b)).
Proof.
  intros [] []. apply Forall_app. split.
  - eapply list.Forall_impl; [done|]. simpl. lia.
  - by apply Forall_fmap.
Qed.

Lemma increasing_push lo l x m :
  increasing lo l → lo < x → Forall (λ y, y ≤ m) l → m < x → increasing lo (l ++ [x]).
Proof.
  intros Hl Hlo Hm Hx. apply increasing_snoc. split; [done|].
  destruct (list.last l) as [y|] eqn:Hy; simpl; [|done].
  apply last_Some_elem_of in Hy. apply (proj1 (list.Forall_forall _ _) Hm) in Hy. lia.
Qed.

(** ** `_buffer` and `append` *)

Lemma buffer_spool o sid o' b :
  buffer o sid = (o', b) → outbox_ok o → spool_ok o → spool_ok o'.
Proof.
  unfold buffer. intros Hb Hok Hsp. destruct (sessions o !! sid) as [b0|] eqn:Hs; simplify_eq/=;
    [done|].
  intros s. simpl. rewrite olookup_insert. case_decide as Hd.
  - subst. specialize (Hsp s). rewrite Hs in Hsp. exists []. unfold lines_of in *. simpl.
    rewrite Hsp. split; simpl; done.
  - apply Hsp.
Qed.

(** The two ways `append` leaves the outbox. *)
Lemma append_shape cfg o now io sid type payload turn em o' r :
  append cfg o now io sid type payload turn em = (o', r) →
  let '(o0, b) := buffer o sid in
  match r with
  | Err _ => o' = o ∨ o' = o0
  | Ok x =>
      ∃ used o1 o2 b2,
        body x = Envelope sid turn (issued b + 1) type payload
        ∧ sessions o1 = sessions o0 ∧ files o1 = files o0 ∧ next_id o1 = N.succ (next_id o0)
        ∧ spool_append cfg o1 sid (push b x now used) (body x) io = (o2, b2)
        ∧ o' = set_dirty (put_buffer o2 sid b2) true
  end.
Proof.
  unfold append. destruct (missing_feature o type); [intros ?; simplify_eq; destruct (buffer _ _); eauto|].
  destruct (buffer o sid) as [o0 b]. destruct (_ <? _); [intros ?; simplify_eq; eauto|].
  destruct (_ && negb _); [intros ?; simplify_eq; eauto|].
  unfold fresh_id. destruct (spool_append _ _ _ _ _ _) as [o2 b2] eqn:Hsp.
  intros ?. simplify_eq. eexists _, _, o2, b2.
  split; [done|]. split; [|split; [|split; [|split; [exact Hsp|done]]]]; done.
Qed.

Lemma append_spool cfg o now sid type payload turn em o' r :
  spool_on cfg = true → outbox_ok o → spool_ok o →
  append cfg o now true sid type payload turn em = (o', r) → spool_ok o'.
Proof.
  intros Hon Hok Hsp Ha. apply append_shape in Ha. destruct (buffer o sid) as [o0 b] eqn:Hbuf.
  pose proof (buffer_spool _ _ _ _ Hbuf Hok Hsp) as Hsp0.
  apply buffer_spec in Hbuf as (Hok0 & Hs0 & Hb & _); [|done].
  destruct r as [x|]; [|naive_solver].
  destruct Ha as (used & o1 & o2 & b2 & Hx & Hs1 & Hf1 & _ & Hap & ->).
  unfold spool_append in Hap. rewrite Hon in Hap. simpl in Hap. simplify_eq.
  intros s. unfold lines_of. simpl. rewrite Hs1, Hf1, olookup_insert, lookup_insert.
  case_decide as Hd; [subst s|apply Hsp0].
  pose proof (Hsp0 sid) as Hfile. rewrite Hs0 in Hfile. destruct Hfile as [dl Hfile].
  pose proof (file_ok_issued _ _ _ _ Hb Hfile) as Hiss.
  destruct Hfile as [Hl Hses Hdead Hinc [Hd Hspd]]. exists dl.
  unfold lines_of in Hl. split; cbn [envelopes push set_lines acked_to dead spooled].
  - rewrite Hl. rewrite !fmap_app. csimpl. by rewrite app_assoc.
  - done.
  - done.
  - rewrite (fmap_app body), app_assoc, fmap_app. eapply (increasing_push _ _ _ (issued b)); try done.
    + rewrite Hx. simpl. pose proof (bo_acked _ _ Hb). lia.
    + by apply Forall_fmap.
    + rewrite Hx. simpl. lia.
  - split; [done|]. unfold count in *. simpl. rewrite length_app. simpl. lia.
Qed.

(** ** `acked`, `set_base`, `release` *)

Lemma acked_spool cfg o sid last_seq :
  spool_on cfg = true → outbox_ok o → spool_ok o → last_seq ≤ high_water o sid →
  spool_ok (acked cfg o sid last_seq true).
Proof.
  unfold acked, high_water. intros Hon Hok Hsp. destruct (sessions o !! sid) as [b|] eqn:Hs; [|done].
  intros Hle. destruct (trim o b last_seq) as [o1 b1] eqn:Ht.
  assert (issued b1 = issued b) as ->.
  { eapply (trim_spec _ _ _ _ _ _ (issued b) 0) in Ht; [|by eapply po_buffers|lia..]. naive_solver. }
  destruct (after_trim _ _ _ _ _) as [o2 b2] eqn:Ha.
  eapply (trim_put_spool cfg o sid b last_seq (issued b)); try done; lia.
Qed.

Lemma set_base_spool cfg o sid last_seq :
  spool_on cfg = true → outbox_ok o → spool_ok o → spool_ok (set_base cfg o sid last_seq true).
Proof.
  unfold set_base. intros Hon Hok Hsp. destruct (buffer o sid) as [o0 b] eqn:Hbuf.
  pose proof (buffer_spool _ _ _ _ Hbuf Hok Hsp) as Hsp0.
  apply buffer_spec in Hbuf as (Hok0 & Hs0 & Hb & _); [|done].
  destruct (trim o0 b last_seq) as [o1 b1] eqn:Ht.
  assert (issued b1 = issued b) as ->.
  { eapply (trim_spec _ _ _ _ _ _ (Z.max (issued b) last_seq) 0) in Ht; [|done|lia..]. naive_solver. }
  destruct (after_trim _ _ _ _ _) as [o2 b2] eqn:Ha.
  eapply (trim_put_spool cfg o0 sid b last_seq (Z.max (issued b) last_seq)); try done; lia.
Qed.

(** Removing a session's buffer together with its file. *)
Lemma spool_ok_removed o o' sid :
  spool_ok o → sessions o' = delete sid (sessions o) →
  (∀ s, lines_of o' s = if decide (sid = s) then [] else lines_of o s) → spool_ok o'.
Proof.
  intros Hsp Hs Hl s. rewrite Hs, olookup_delete, Hl. case_decide; [done|]. apply Hsp.
Qed.

Lemma release_spool cfg o sid :
  spool_on cfg = true → spool_ok o → spool_ok (release cfg o sid true).
Proof.
  unfold release. intros Hon Hsp. destruct (sessions o !! sid) as [b|] eqn:Hs; [|done].
  case_decide as He; [done|].
  assert (envelopes b = []) as Hnil by (destruct (envelopes b); [done|by destruct He]).
  pose proof (Hsp sid) as Hfile. rewrite Hs in Hfile. destruct Hfile as [dl [Hl _ _ _ [Hd Hspd]]].
  apply (spool_ok_removed o _ sid); [done|destruct (spooled b =? 0); [done|]; unfold remove_spool; by rewrite Hon|].
  intros s. destruct (Z.eqb_spec (spooled b) 0) as [Hz|].
  - unfold lines_of in *. simpl. case_decide; [|done]. subst s. rewrite Hl, Hnil.
    destruct dl; [done|]. unfold count in Hspd. rewrite Hnil in Hspd. simpl in *. lia.
  - by rewrite remove_spool_lines.
Qed.

Lemma drop_session_spool cfg o sid :
  spool_on cfg = true → spool_ok o → spool_ok (drop_session cfg o sid true).
Proof.
  unfold drop_session. intros Hon Hsp. simpl. destruct (sessions o !! sid) as [b|] eqn:Hs.
  - apply (spool_ok_removed o _ sid); [done|by unfold remove_spool; rewrite Hon|].
    intros s. by rewrite remove_spool_lines.
  - intros s. rewrite remove_spool_lines by done.
    pose proof (remove_spool_parts cfg (set_floors o (delete sid (floors o))) sid true) as [-> _].
    simpl. case_decide; [|apply Hsp]. subst. by rewrite Hs.
Qed.

(** ** A compaction that runs next to the other operations *)

(** What the other calls can do to a buffer object: drop what an ack covers and
    add one envelope at the end. *)
Definition evolves (b b' : session_buffer) : Prop :=
  bid b' = bid b
  ∧ ∃ last_seq xs,
      envelopes b' = filter (λ x, last_seq < seq_of x) (envelopes b) ++ xs
      ∧ acked_to b' = Z.max (acked_to b) last_seq
      ∧ (xs = [] ∨ ∃ x, xs = [x] ∧ seq_of x = issued b + 1).

(** The buffers of [o'] come from those of [o], or are new objects. *)
Definition grows (o o' : outbox) : Prop :=
  (next_id o ≤ next_id o')%N
  ∧ ∀ s b', sessions o' !! s = Some b' →
      (∃ b, sessions o !! s = Some b ∧ evolves b b') ∨ (next_id o ≤ bid b' < next_id o')%N.

Lemma filter_above_acked sid b :
  buffer_ok sid b → filter (λ x, acked_to b < seq_of x) (envelopes b) = envelopes b.
Proof.
  intros []. apply filter_all, list.Forall_forall. intros x Hx.
  eapply increasing_lower; [done|]. by apply list_elem_of_fmap_2.
Qed.

Lemma evolves_same sid b b' :
  buffer_ok sid b → bid b' = bid b → envelopes b' = envelopes b → acked_to b' = acked_to b →
  evolves b b'.
Proof.
  intros Hb Hi He Ha. split; [done|]. exists (acked_to b), [].
  rewrite (filter_above_acked _ _ Hb), app_nil_r, Ha. split_and!; auto. lia.
Qed.

Lemma grows_ext o o' :
  outbox_ok o → next_id o' = next_id o → (∀ s b', sessions o' !! s = Some b' →
    ∃ b, sessions o !! s = Some b ∧ bid b' = bid b ∧ envelopes b' = envelopes b
         ∧ acked_to b' = acked_to b) → grows o o'.
Proof.
  intros Hok Hn Hs. split; [lia|]. intros s b' Hb'. left.
  destruct (Hs _ _ Hb') as (b & Hb & ? & ? & ?). exists b. split; [done|].
  eapply evolves_same; try done. by eapply po_buffers.
Qed.

(** An operation on the buffer that `_buffer` returns. *)
Lemma grows_put o sid o0 b o' b' :
  outbox_ok o → buffer o sid = (o0, b) → evolves b b' → (next_id o0 ≤ next_id o')%N →
  (∀ s, sessions o' !! s = if decide (sid = s) then Some b' else sessions o0 !! s) →
  grows o o'.
Proof.
  intros Hok Hbuf [Hi Hev] Hn Hs'.
  unfold buffer in Hbuf. destruct (sessions o !! sid) as [b0|] eqn:Hs; simplify_eq/=.
  - split; [done|]. intros s b1. rewrite Hs'. case_decide; intros Hb1; simplify_eq.
    + left. by exists b.
    + left. exists b1. split; [done|]. eapply evolves_same; try done. by eapply po_buffers.
  - split; [lia|]. intros s b1. rewrite Hs', olookup_insert. case_decide; intros Hb1; simplify_eq.
    + right. lia.
    + left. exists b1. split; [done|]. eapply evolves_same; try done. by eapply po_buffers.
Qed.

Lemma remove_spool_next cfg o sid io : next_id (remove_spool cfg o sid io) = next_id o.
Proof. unfold remove_spool. by case_match. Qed.

Lemma append_grows cfg o now io sid type payload turn em o' r :
  outbox_ok o → append cfg o now io sid type payload turn em = (o', r) → grows o o'.
Proof.
  intros Hok Ha. apply append_shape in Ha. destruct (buffer o sid) as [o0 b] eqn:Hbuf.
  pose proof Hbuf as Hb. apply buffer_spec in Hb as (Hok0 & Hs0 & Hb & _); [|done].
  assert (grows o o0) as Hg0.
  { eapply (grows_put o sid o0 b o0 b); try done; [by eapply evolves_same|].
    intros s. case_decide; [by subst|done]. }
  destruct r as [x|].
  - destruct Ha as (used & o1 & o2 & b2 & Hx & Hs1 & _ & Hn & Hap & ->).
    assert (sessions o2 = sessions o1) as Hs2 by (by apply spool_append_spec in Hap as [? _]).
    assert (next_id o2 = next_id o1) as Hn2.
    { unfold spool_append in Hap. case_match; by simplify_eq. }
    apply spool_append_spec in Hap as (_ & _ & _ & _ & sp & d & ->).
    eapply (grows_put o sid o0 b); [done|done| |simpl; lia|].
    2: { intros s. simpl. rewrite Hs2, Hs1. apply olookup_insert. }
    split; [done|]. exists (acked_to b), [x]. rewrite (filter_above_acked _ _ Hb).
    split; [done|]. split; [simpl; lia|]. right. exists x. unfold seq_of. by rewrite Hx.
  - destruct Ha as [->| ->]; [|done]. apply grows_ext; [done|done|]. eauto.
Qed.

Lemma trim_put_grows cfg o sid o0 b last_seq high snt io o1 b1 o2 b2 :
  outbox_ok o → buffer o sid = (o0, b) → high = Z.max (issued b) last_seq →
  trim o0 b last_seq = (o1, b1) →
  after_trim cfg o1 sid (set_marks b1 high (Z.max (acked_to b1) last_seq) snt) io = (o2, b2) →
  grows o (put_buffer o2 sid b2).
Proof.
  intros Hok Hbuf Hi Ht Ha. pose proof Hbuf as Hb.
  apply buffer_spec in Hb as (Hok0 & Hs0 & Hb & _); [|done].
  assert (next_id o1 = next_id o0) as Hn1.
  { revert Ht. unfold trim. destruct (trim_loop _ _ _) as [[[? ?] ?] ?]. intros ?. by simplify_eq. }
  assert (next_id o2 = next_id o1) as Hn2.
  { revert Ha. unfold after_trim. case_match; intros ?; simplify_eq; [apply remove_spool_next|done]. }
  apply (trim_spec _ _ _ _ _ sid high snt) in Ht
    as (_ & He & Hs1 & _ & _ & _ & Hac & _ & _ & Hbid & _); [|done..].
  apply after_trim_spec in Ha as (Hs2 & _ & _ & _ & (sp & d & ->) & _).
  eapply (grows_put o sid o0 b); [done|done| |simpl; lia|].
  2: { intros s. simpl. rewrite Hs2, Hs1. apply olookup_insert. }
  split; [done|]. exists last_seq, []. simpl. rewrite He, app_nil_r, Hac. auto.
Qed.

Lemma acked_grows cfg o sid last_seq io :
  outbox_ok o → last_seq ≤ high_water o sid → grows o (acked cfg o sid last_seq io).
Proof.
  unfold acked, high_water. intros Hok. destruct (sessions o !! sid) as [b|] eqn:Hs; intros Hle.
  - destruct (trim o b last_seq) as [o1 b1] eqn:Ht.
    assert (issued b1 = issued b) as ->.
    { eapply (trim_spec _ _ _ _ _ _ (issued b) 0) in Ht; [|by eapply po_buffers|lia..]. naive_solver. }
    destruct (after_trim _ _ _ _ _) as [o2 b2] eqn:Ha.
    eapply (trim_put_grows cfg o sid o b last_seq (issued b)); try done; [|lia].
    unfold buffer. by rewrite Hs.
  - apply grows_ext; eauto.
Qed.

Lemma set_base_grows cfg o sid last_seq io : outbox_ok o → grows o (set_base cfg o sid last_seq io).
Proof.
  unfold set_base. intros Hok. destruct (buffer o sid) as [o0 b] eqn:Hbuf.
  pose proof Hbuf as Hb. apply buffer_spec in Hb as (Hok0 & Hs0 & Hb & _); [|done].
  destruct (trim o0 b last_seq) as [o1 b1] eqn:Ht.
  assert (issued b1 = issued b) as ->.
  { eapply (trim_spec _ _ _ _ _ _ (Z.max (issued b) last_seq) 0) in Ht; [|done|lia..]. naive_solver. }
  destruct (after_trim _ _ _ _ _) as [o2 b2] eqn:Ha.
  eapply (trim_put_grows cfg o sid o0 b last_seq (Z.max (issued b) last_seq)); try done; lia.
Qed.

(** A snapshot against the buffer it was taken from: its first part is acked, the
    rest is still the front of the buffer. *)
Definition snap_rel (sid : uuid) (snap : list stored) (b : session_buffer) : Prop :=
  ∃ gone kept newer,
    snap = gone ++ kept ∧ envelopes b = kept ++ newer
    ∧ Forall (λ x, seq_of x ≤ acked_to b) gone
    ∧ Forall (λ x, env_session (body x) = sid) gone
    ∧ increasing 0 (seqs (gone ++ kept ++ newer)).

(** The snapshot of the buffer object [buf], while the compaction's thread runs. *)
Definition snap_ok (sid : uuid) (buf : N) (snap : list stored) (o : outbox) : Prop :=
  (buf < next_id o)%N
  ∧ ∀ b, sessions o !! sid = Some b → bid b = buf → snap_rel sid snap b.

Lemma snap_rel_start sid b : buffer_ok sid b → snap_rel sid (envelopes b) b.
Proof.
  intros []. exists [], (envelopes b), []. rewrite app_nil_r. split_and!; try done.
  simpl. eapply increasing_weaken; [|done]. lia.
Qed.

Lemma increasing_app_suffix lo l1 l2 l2' :
  increasing lo (l1 ++ l2) → l2' `suffix_of` l2 → increasing lo (l1 ++ l2').
Proof.
  rewrite !increasing_app. intros [H1 H2] Hs. split; [done|]. by eapply increasing_suffix.
Qed.

Lemma seqs_suffix l l' : l `suffix_of` l' → seqs l `suffix_of` seqs l'.
Proof. intros [k ->]. exists (seqs k). apply seqs_app. Qed.

Lemma snap_rel_evolves sid snap b b' :
  buffer_ok sid b → evolves b b' → snap_rel sid snap b → snap_rel sid snap b'.
Proof.
  intros Hb (_ & l & xs & He & Ha & Hxs) (gone & kept & newer & -> & Hsplit & Hgone & Hses & Hinc).
  assert (∀ k, k `suffix_of` newer ∨ k = kept →
    filter (λ x, l < seq_of x) k = drop_while (below l) k) as Hfilter.
  { intros k Hk. assert (∃ lo, increasing lo (seqs k)) as [lo Hlo].
    { rewrite app_assoc, !seqs_app in Hinc. apply increasing_app in Hinc as [H1 H2].
      destruct Hk as [Hk| ->].
      - eexists. eapply increasing_suffix; [done|]. by apply seqs_suffix.
      - apply increasing_app in H1 as [_ ?]. eauto. }
    symmetry. by eapply drop_below_filter. }
  rewrite Hsplit, list.filter_app, (Hfilter kept), (Hfilter newer) in He by eauto.
  exists (gone ++ take_while (below l) kept), (drop_while (below l) kept),
    (drop_while (below l) newer ++ xs).
  rewrite <- app_assoc in He.
  split_and!; [by rewrite <- app_assoc, take_drop_while|done|..]; rewrite ?Ha.
  - apply Forall_app. split; (eapply list.Forall_impl; [exact Hgone || apply take_while_all|]).
    + simpl. lia.
    + intros x Hx. unfold below in Hx. apply Z.leb_le in Hx. lia.
  - apply Forall_app. split; [done|]. pose proof (bo_session _ _ Hb) as Hall.
    rewrite Hsplit, <- (take_drop_while (below l) kept), <- app_assoc in Hall.
    by apply Forall_app in Hall as [? _].
  - assert ((gone ++ take_while (below l) kept) ++ drop_while (below l) kept
              ++ drop_while (below l) newer ++ xs
            = (gone ++ kept ++ drop_while (below l) newer) ++ xs) as ->.
    { rewrite <- (take_drop_while (below l) kept) at 3. by rewrite <- !app_assoc. }
    rewrite seqs_app.
    assert (increasing 0 (seqs (gone ++ kept ++ drop_while (below l) newer))) as Hinc'.
    { rewrite app_assoc, seqs_app in *. eapply increasing_app_suffix; [done|].
      apply seqs_suffix, drop_while_suffix. }
    destruct Hxs as [->|(x & -> & Hx)]; [by rewrite app_nil_r|].
    pose proof (bo_upper _ _ Hb) as Hup. rewrite Hsplit, Forall_app in Hup.
    destruct Hup as [Hup1 Hup2]. pose proof (bo_acked _ _ Hb) as Hacked.
    eapply (increasing_push _ _ _ (issued b)); [done|rewrite Hx; lia| |rewrite Hx; lia].
    unfold seqs. apply Forall_fmap, Forall_app. split.
    { eapply list.Forall_impl; [exact Hgone|]. simpl. lia. }
    apply Forall_app. split; [done|].
    destruct (drop_while_suffix (below l) newer) as [k Hk]. rewrite Hk in Hup2.
    by apply Forall_app in Hup2 as [_ ?].
Qed.

Lemma snap_ok_grows sid buf snap o o' :
  outbox_ok o → grows o o' → snap_ok sid buf snap o → snap_ok sid buf snap o'.
Proof.
  intros Hok [Hn Hg] [Hlt Hsnap]. split; [lia|]. intros b' Hb' Hbuf.
  destruct (Hg _ _ Hb') as [(b & Hb & Hev)|Hnew]; [|lia].
  eapply snap_rel_evolves; [by eapply po_buffers|done|]. apply Hsnap; [done|].
  destruct Hev as [<- _]. done.
Qed.

Lemma filter_below_head l1 l2 lo first :
  increasing lo (seqs (l1 ++ l2)) → first = from_option seq_of 0 (head l2) → l2 ≠ [] →
  filter (λ x, seq_of x < first) l1 = l1.
Proof.
  intros Hinc -> Hne. destruct l2 as [|y l2]; [done|]. simpl. apply filter_all, list.Forall_forall.
  intros x [k1 [k2 ->]]%list_elem_of_split.
  rewrite <- app_assoc, !seqs_app in Hinc. apply increasing_app in Hinc as [_ Hinc].
  csimpl in Hinc. destruct Hinc as [_ Hinc]. eapply increasing_lower; [done|].
  rewrite elem_of_app. right. csimpl. by left.
Qed.

(** The file after a compaction holds the acked front of the snapshot and every
    pending envelope. *)
Lemma compact_finish_spool o sid buf snap io :
  outbox_ok o → spool_ok o → snap_ok sid buf snap o → spool_ok (compact_finish o sid buf snap io).
Proof.
  unfold compact_finish. intros Hok Hsp [_ Hsnap].
  destruct (sessions o !! sid) as [b|] eqn:Hs; [|done].
  case_match eqn:Hc; [|done]. bool_props. subst.
  destruct (Hsnap _ eq_refl eq_refl) as (gone & kept & newer & -> & He & Hgone & Hses & Hinc).
  pose proof (bo_acked _ _ (po_buffers _ _ _ _ Hok _ _ Hs)) as Hacked.
  set (last := from_option seq_of 0 (list.last (gone ++ kept))).
  assert (filter (λ x, last < seq_of x) (envelopes b) = newer) as Hnewer.
  { assert (last = default 0 (list.last (seqs (gone ++ kept)))) as ->.
    { unfold last, seqs. rewrite fmap_last. by destruct (list.last (gone ++ kept)). }
    rewrite app_assoc, seqs_app in Hinc. pose proof Hinc as Hinc'.
    apply increasing_app in Hinc' as [Hlow Hhigh].
    rewrite He, list.filter_app, filter_none, filter_all; [done|..].
    - apply list.Forall_forall. intros x Hx. eapply increasing_lower; [done|].
      by apply list_elem_of_fmap_2.
    - apply list.Forall_forall. intros x Hx. apply Z.le_ngt. eapply increasing_upper; [done|].
      rewrite seqs_app. apply elem_of_app. right. by apply list_elem_of_fmap_2. }
  rewrite !Hnewer. set (first := from_option seq_of 0 (head (envelopes b))).
  assert (filter (λ x, seq_of x < first) (gone ++ kept) = gone) as Hdead.
  { rewrite list.filter_app, (filter_below_head gone (kept ++ newer) 0), filter_none, app_nil_r.
    - done.
    - apply list.Forall_forall. intros x Hx. apply Z.le_ngt. unfold first. rewrite He.
      rewrite seqs_app in Hinc. apply increasing_app in Hinc as [_ Hinc].
      destruct kept as [|y kept]; [by apply elem_of_nil in Hx|]. csimpl. csimpl in Hinc.
      apply elem_of_cons in Hx as [->|Hx]; [lia|]. apply Z.lt_le_incl.
      eapply increasing_lower; [apply Hinc|]. rewrite seqs_app. apply elem_of_app. left.
      by apply list_elem_of_fmap_2.
    - done.
    - unfold first. by rewrite He.
    - rewrite <- He. done. }
  rewrite Hdead. intros s. unfold lines_of. simpl. rewrite olookup_insert, lookup_insert.
  case_decide as Hd; [subst s|apply Hsp].
  assert ((gone ++ kept) ++ newer = gone ++ envelopes b) as Hall by by rewrite He, <- app_assoc.
  exists (body <$> gone). split; cbn [envelopes set_lines acked_to dead spooled].
  - rewrite Hall. cbn [default from_option id]. by rewrite <- fmap_app, list_fmap_compose.
  - by apply Forall_fmap.
  - by apply Forall_fmap.
  - by rewrite <- fmap_app, fmap_seqs, He.
  - unfold count. cbn [envelopes set_lines]. rewrite He, length_fmap, !length_app. lia.
Qed.

(** ** Every operation between a snapshot and its end *)

(** The operations of a worker whose spool is on and whose file operations
    succeed, other than the load at start. *)
Inductive spool_step (cfg : config) : outbox → outbox → Prop :=
| sp_append o now sid type payload turn em o' r :
    append cfg o now true sid type payload turn em = (o', r) → spool_step cfg o o'
| sp_acked o sid last_seq :
    last_seq ≤ high_water o sid → spool_step cfg o (acked cfg o sid last_seq true)
| sp_set_base o sid last_seq : spool_step cfg o (set_base cfg o sid last_seq true)
| sp_connect o : spool_step cfg o (begin_connection o).1
| sp_sent o sid x : spool_step cfg o (mark_sent o sid x)
| sp_release o sid : spool_step cfg o (release cfg o sid true)
| sp_drop o sid : spool_step cfg o (drop_session cfg o sid true)
| sp_dirty o d : spool_step cfg o (set_dirty o d)
| sp_sync o : spool_step cfg o (sync_spool o).

Lemma spool_step_ok cfg o o' : spool_step cfg o o' → outbox_ok o → outbox_ok o'.
Proof. destruct 1; intros Hok; (eapply (live_step_ok cfg); [|exact Hok]); by econstructor. Qed.

(** Operations that leave a file and the lists of its buffer alone. *)
Lemma spool_ok_ext o o' :
  spool_ok o → files o' = files o →
  (∀ s, match sessions o' !! s with
        | Some b' => ∃ b, sessions o !! s = Some b ∧ envelopes b' = envelopes b
                          ∧ acked_to b' = acked_to b ∧ dead b' = dead b ∧ spooled b' = spooled b
        | None => sessions o !! s = None
        end) → spool_ok o'.
Proof.
  intros Hsp Hf Hs s. specialize (Hs s). specialize (Hsp s). unfold lines_of in *. rewrite Hf.
  destruct (sessions o' !! s) as [b'|]; [|by rewrite Hs in Hsp].
  destruct Hs as (b & Hb & He & Ha & Hd & Hspd). rewrite Hb in Hsp. destruct Hsp as [dl []].
  exists dl. unfold count in *. split; unfold count; by rewrite ?He, ?Ha, ?Hd, ?Hspd.
Qed.

Lemma mark_sent_sessions o sid x s :
  match sessions (mark_sent o sid x) !! s with
  | Some b' => ∃ b, sessions o !! s = Some b ∧ envelopes b' = envelopes b
                    ∧ acked_to b' = acked_to b ∧ dead b' = dead b ∧ spooled b' = spooled b
                    ∧ bid b' = bid b
  | None => sessions o !! s = None
  end.
Proof.
  unfold mark_sent. destruct (sessions o !! sid) as [b|] eqn:Hs.
  - simpl. rewrite olookup_insert. case_decide; [subst; by exists b|].
    destruct (sessions o !! s); naive_solver.
  - destruct (sessions o !! s); naive_solver.
Qed.

Lemma begin_connection_sessions o s :
  sessions (begin_connection o).1 !! s = restart <$> sessions o !! s.
Proof. unfold lookup, odict_lookup, begin_connection. simpl. apply lget_map. Qed.

Lemma spool_step_spool cfg o o' :
  spool_on cfg = true → spool_step cfg o o' → outbox_ok o → spool_ok o → spool_ok o'.
Proof.
  intros Hon Hstep Hok Hsp. destruct Hstep.
  - by eapply append_spool.
  - by apply acked_spool.
  - by apply set_base_spool.
  - apply (spool_ok_ext o); [done|done|]. intros s. rewrite begin_connection_sessions.
    destruct (sessions o !! s) as [b|]; simpl; [by exists b|done].
  - apply (spool_ok_ext o); [done|by unfold mark_sent; case_match|]. intros s.
    pose proof (mark_sent_sessions o sid x s). case_match; naive_solver.
  - by apply release_spool.
  - by apply drop_session_spool.
  - apply (spool_ok_ext o); [done|done|]. intros s. simpl. case_match; naive_solver.
  - apply (spool_ok_ext o); [done|done|]. intros s. simpl. case_match; naive_solver.
Qed.

(** Removing a session and keeping the others as they are. *)
Lemma grows_delete o o' sid :
  outbox_ok o → next_id o' = next_id o →
  sessions o' = sessions o ∨ sessions o' = delete sid (sessions o) → grows o o'.
Proof.
  intros Hok Hn Hs. apply grows_ext; [done|done|]. intros s b' Hb'.
  destruct Hs as [Hs|Hs]; rewrite Hs in Hb'; [eauto|].
  rewrite olookup_delete in Hb'. case_decide; naive_solver.
Qed.

Lemma spool_step_grows cfg o o' : spool_step cfg o o' → outbox_ok o → grows o o'.
Proof.
  intros Hstep Hok. destruct Hstep.
  - by eapply append_grows.
  - by apply acked_grows.
  - by apply set_base_grows.
  - apply grows_ext; [done|done|]. intros s b'. rewrite begin_connection_sessions.
    intros (b & Hb & ->)%fmap_Some. by exists b.
  - apply grows_ext; [done|by unfold mark_sent; case_match|]. intros s b' Hb'.
    pose proof (mark_sent_sessions o sid x s) as H. rewrite Hb' in H. naive_solver.
  - apply (grows_delete _ _ sid); [done|..]; unfold release;
      (destruct (sessions o !! sid); [|by auto]); (case_decide; [by auto|]); case_match;
      rewrite ?remove_spool_next; try done; [by right|].
    right. by rewrite (proj1 (remove_spool_parts _ _ _ _)).
  - apply (grows_delete _ _ sid); [done|..]; unfold drop_session; rewrite ?remove_spool_next.
    + simpl. by case_match.
    + rewrite (proj1 (remove_spool_parts _ _ _ _)). simpl. case_match; auto.
  - apply grows_ext; eauto.
  - apply grows_ext; eauto.
Qed.

(** Ids are handed out in increasing order. *)
Lemma compact_finish_next o sid i snap io : next_id (compact_finish o sid i snap io) = next_id o.
Proof. unfold compact_finish. repeat case_match; done. Qed.
Lemma live_step_next cfg o o' : live_step cfg o o' → outbox_ok o → (next_id o ≤ next_id o')%N.
Proof.
  intros Hstep Hok. destruct Hstep.
  - by eapply append_grows.
  - by apply acked_grows.
  - by apply set_base_grows.
  - done.
  - unfold mark_sent. by case_match.
  - unfold release. repeat case_match; rewrite ?remove_spool_next; done.
  - unfold drop_session. rewrite remove_spool_next. simpl. by case_match.
  - done.
  - done.
  - by rewrite compact_finish_next.
Qed.
Lemma append_id cfg o now io sid type payload turn em o' x :
  append cfg o now io sid type payload turn em = (o', Ok x) → (next_id o ≤ oid x < next_id o')%N.
Proof.
  unfold append. destruct (missing_feature o type); [done|]. destruct (buffer o sid) as [o0 b] eqn:Hb.
  assert (next_id o ≤ next_id o0)%N as Hn.
  { unfold buffer in Hb. destruct (sessions o !! sid); simplify_eq/=; lia. }
  destruct (_ <? _); [done|]. destruct (_ && negb _); [done|]. unfold fresh_id.
  destruct (spool_append _ _ _ _ _ _) as [o2 b2] eqn:Hsp. intros ?. simplify_eq/=.
  assert (next_id o2 = N.succ (next_id o0)) as ->; [|lia].
  unfold spool_append in Hsp. repeat case_match; by simplify_eq/=.
Qed.

Lemma spool_steps_ok cfg o o' :
  spool_on cfg = true → rtc (spool_step cfg) o o' → outbox_ok o → spool_ok o →
  outbox_ok o' ∧ spool_ok o'.
Proof.
  intros Hon. induction 1 as [o|o o1 o2 Hstep _ IH]; intros Hok Hsp; [done|].
  apply IH; [by eapply spool_step_ok|by eapply spool_step_spool].
Qed.

(** Buffer identities are handed out once. *)
Definition ids_ok (o : outbox) : Prop :=
  ∀ sid b, sessions o !! sid = Some b → (bid b < next_id o)%N.

Lemma grows_ids o o' : grows o o' → ids_ok o → ids_ok o'.
Proof.
  intros [Hn Hg] Hids sid b' Hb'. destruct (Hg _ _ Hb') as [(b & Hb & -> & _)|?]; [|lia].
  specialize (Hids _ _ Hb). lia.
Qed.

Lemma spool_steps_ids cfg o o' :
  rtc (spool_step cfg) o o' → outbox_ok o → ids_ok o → ids_ok o'.
Proof.
  induction 1 as [o|o o1 o2 Hstep _ IH]; intros Hok Hids; [done|].
  apply IH; [by eapply spool_step_ok|]. by eapply grows_ids; [eapply spool_step_grows|].
Qed.

Lemma spool_steps_inv cfg sid buf snap o o' :
  spool_on cfg = true → rtc (spool_step cfg) o o' →
  outbox_ok o → spool_ok o → snap_ok sid buf snap o →
  outbox_ok o' ∧ spool_ok o' ∧ snap_ok sid buf snap o'.
Proof.
  intros Hon. induction 1 as [o|o o1 o2 Hstep _ IH]; intros Hok Hsp Hsn; [done|].
  apply IH; [by eapply spool_step_ok|by eapply spool_step_spool|].
  eapply snap_ok_grows; [done|by eapply spool_step_grows|done].
Qed.

(** ** The load after a restart *)

Lemma load_lines_fresh now es o b o' b' :
  increasing (issued b) (env_seq <$> es) →
  foldl (load_line now) (o, b) (LEnv <$> es) = (o', b') →
  (body <$> envelopes b') = (body <$> envelopes b) ++ es
  ∧ issued b' = default (issued b) (list.last (env_seq <$> es))
  ∧ acked_to b' = acked_to b ∧ sessions o' = sessions o ∧ floors o' = floors o
  ∧ dead b' = dead b ∧ spooled b' - spooled b = count b' - count b ∧ files o' = files o.
Proof.
  revert o b. induction es as [|e es IH]; intros o b; csimpl.
  { intros _ ?. simplify_eq/=. rewrite app_nil_r. split_and!; auto; lia. }
  intros [He Hes] Hf. rewrite default_last_cons.
  destruct (Z.leb_spec (env_seq e) (issued b)); [lia|].
  unfold fresh_id in Hf. simpl in Hf. apply IH in Hf as (-> & -> & -> & -> & -> & -> & Hsp & ->); [|done].
  unfold count in *. cbn [spooled dead envelopes set_lines] in *. rewrite length_app in Hsp. cbn in Hsp.
  simpl. rewrite fmap_app, <- app_assoc. split_and!; auto; lia.
Qed.

Lemma load_file_fresh now o sid es :
  sessions o !! sid = None → floors o !! sid = None → increasing 0 (env_seq <$> es) →
  let o' := load_file now o sid (LEnv <$> es) in
  (∃ b, sessions o' !! sid = Some b ∧ (body <$> envelopes b) = es
        ∧ issued b = default 0 (list.last (env_seq <$> es)) ∧ acked_to b = 0
        ∧ dead b = 0 ∧ spooled b = count b)
  ∧ (∀ s, s ≠ sid → sessions o' !! s = sessions o !! s)
  ∧ (∀ s, floors o' !! s = floors o !! s) ∧ files o' = files o.
Proof.
  cbv zeta. unfold load_file, buffer, fresh_id. intros Hs Hf Hinc. rewrite Hs. simpl.
  rewrite Hf. simpl. destruct (foldl _ _ _) as [o2 b2] eqn:Hfold.
  apply load_lines_fresh in Hfold as (He & Hi & Ha & Hs2 & Hf2 & Hd & Hsp & Hfl); [|done]. simpl in *.
  split_and!.
  - rewrite olookup_insert_eq. eexists. split; [done|]. unfold count in *. cbn in *. split_and!; try done. lia.
  - intros s Hne. by rewrite olookup_insert_ne, Hs2, olookup_insert_ne.
  - intros s. rewrite Hf2, olookup_delete. case_decide; by subst.
  - done.
Qed.

(** What a load of well-formed files gives each session. *)
Definition loaded (o : outbox) (sid : uuid) (es : list envelope) : Prop :=
  (body <$> v_pending (view_of o sid)) = es
  ∧ v_high (view_of o sid) = default 0 (list.last (env_seq <$> es))
  ∧ v_acked (view_of o sid) = 0.

(** A directory whose files hold these envelopes, or these lines. *)
Definition listed_envs (p : uuid * list envelope) : uuid * option (list spool_line) :=
  (p.1, Some (LEnv <$> p.2)).
Definition listed (p : uuid * list spool_line) : uuid * option (list spool_line) :=
  (p.1, Some p.2).

Lemma load_spool_fresh now (listing : list (uuid * list envelope)) o waters :
  NoDup listing.*1 →
  (∀ sid es, (sid, es) ∈ listing → increasing 0 (env_seq <$> es)) →
  (∀ sid, sid ∈ listing.*1 → sessions o !! sid = None) → (∀ s, floors o !! s = None) →
  let o' := (load_spool now (listed_envs <$> listing) o waters).1 in
  (∀ sid es, (sid, es) ∈ listing → loaded o' sid es)
  ∧ (∀ s, s ∉ listing.*1 → sessions o' !! s = sessions o !! s)
  ∧ (∀ s, floors o' !! s = None) ∧ files o' = files o
  ∧ (∀ s b, sessions o' !! s = Some b → sessions o !! s = Some b ∨ (dead b = 0 ∧ spooled b = count b)).
Proof.
  cbv zeta. revert o waters.
  induction listing as [|[sid es] listing IH]; intros o waters Hnd Hinc Hnone Hfl.
  { cbn. split_and!; [|done|done|done|by left]. by intros ? ? ?%elem_of_nil. }
  csimpl in *. apply list.NoDup_cons in Hnd as [Hnin Hnd].
  destruct (load_file_fresh now o sid es) as ((b & Hb) & Hother & Hfl' & Hfiles);
    [apply Hnone; by left|apply Hfl|apply (Hinc sid); by left|].
  destruct (IH (load_file now o sid (LEnv <$> es))
              (<[sid:=high_water (load_file now o sid (LEnv <$> es)) sid]> waters))
    as (Hl & Ho & Hf & Hfl2 & Hnew); [done| | | |].
  - intros s e Hin. apply (Hinc s). by right.
  - intros s Hin. rewrite Hother by (intros ->; done). apply Hnone. by right.
  - intros s. by rewrite Hfl'.
  - split_and!; [| |done|by rewrite Hfl2|].
    + intros s e [Heq|Hin]%elem_of_cons; [|by apply Hl]. simplify_eq.
      unfold loaded, view_of, high_water, acked_seq. rewrite Ho by done.
      by destruct Hb as (-> & ? & ? & ? & _).
    + intros s Hs. rewrite not_elem_of_cons in Hs. destruct Hs as [Hne Hs].
      rewrite Ho by done. by apply Hother.
    + intros s b' Hb'. destruct (Hnew s b' Hb') as [Hs|?]; [|by right]. destruct (decide (s = sid)) as [->|Hne].
      * right. destruct Hb as (Hb & _ & _ & _ & ? & ?). rewrite Hb in Hs. by injection Hs as <-.
      * left. by rewrite <- Hother.
Qed.

Lemma seqs_filter_body c (l : list stored) :
  (body <$> filter (λ x, c < seq_of x) l) = filter (λ e, c < env_seq e) (body <$> l).
Proof.
  induction l as [|x l IH]; [done|]. csimpl. rewrite !filter_cons.
  destruct (decide (c < seq_of x)), (decide (c < env_seq (body x)));
    csimpl; rewrite ?IH; done || (unfold seq_of in *; lia).
Qed.

(** A spooled session as the restarted worker sees it once a lease told it the
    API's cursor [c]. *)
Lemma set_base_loaded cfg o sid es c io :
  outbox_ok o → loaded o sid es →
  (body <$> pending (set_base cfg o sid c io) sid 0) = filter (λ e, c < env_seq e) es
  ∧ high_water (set_base cfg o sid c io) sid = Z.max (default 0 (list.last (env_seq <$> es))) c
  ∧ acked_seq (set_base cfg o sid c io) sid = Z.max 0 c.
Proof.
  intros Hok (Hp & Hi & Ha).
  destruct (set_base_view cfg o sid c io Hok) as [Hok' Hv].
  rewrite (pending_view _ _ Hok'). specialize (Hv sid). rewrite decide_True in Hv by done.
  pose proof (f_equal v_pending Hv) as H1. pose proof (f_equal v_high Hv) as H2.
  pose proof (f_equal v_acked Hv) as H3. simpl in H1, H2, H3, Hi, Ha.
  rewrite H2, H3, Hi, Ha. cbn [v_pending view_of]. rewrite H1.
  by rewrite seqs_filter_body, <- Hp.
Qed.

(** The files of an outbox, listed in any order after its process died. *)
Definition disk_listing (o : outbox) (listing : list (uuid * list spool_line)) : Prop :=
  NoDup listing.*1 ∧ ∀ sid lines, (sid, lines) ∈ listing ↔ files o !! sid = Some lines.

(** The envelopes in a session's file. *)
Definition env_of (line : spool_line) : option envelope :=
  match line with LEnv e => Some e | _ => None end.
Definition file_envelopes (o : outbox) (sid : uuid) : list envelope := omap env_of (lines_of o sid).

Lemma omap_env_of (es : list envelope) : omap env_of (LEnv <$> es) = es.
Proof. induction es as [|e es IH]; [done|]. csimpl. by rewrite IH. Qed.

Lemma spool_ok_file o sid :
  spool_ok o →
  lines_of o sid = LEnv <$> file_envelopes o sid
  ∧ increasing 0 (env_seq <$> file_envelopes o sid)
  ∧ ∃ dl, file_envelopes o sid = dl ++ (body <$> v_pending (view_of o sid))
          ∧ Forall (λ e, env_seq e ≤ acked_seq o sid) dl
          ∧ Forall (λ e, env_session e = sid) dl.
Proof.
  intros Hsp. specialize (Hsp sid). unfold file_envelopes, view_of, acked_seq. simpl.
  destruct (sessions o !! sid) as [b|]; simpl.
  - destruct Hsp as [dl [-> ? ? ? _]]. rewrite omap_env_of. eauto 6.
  - rewrite Hsp. split_and!; [done|done|]. by exists [].
Qed.

Lemma restart_loaded now o listing sid :
  spool_ok o → disk_listing o listing →
  let o1 := (load_spool now (listed <$> listing) (init_outbox (files o)) ∅).1 in
  loaded o1 sid (file_envelopes o sid) ∧ files o1 = files o
  ∧ ∀ b, sessions o1 !! sid = Some b → dead b = 0 ∧ spooled b = count b.
Proof.
  intros Hsp [Hnd Hl]. cbv zeta.
  set (listing' := (λ p : uuid * list spool_line, (p.1, omap env_of p.2)) <$> listing).
  assert (listing'.*1 = listing.*1) as Hfst by (unfold listing'; by rewrite <- list_fmap_compose).
  assert (listed <$> listing = listed_envs <$> listing') as ->.
  { unfold listing', listed, listed_envs. rewrite <- list_fmap_compose. apply list_fmap_ext. intros i [s lines] Hi. simpl.
    apply list_elem_of_lookup_2, Hl in Hi. destruct (spool_ok_file o s Hsp) as [Hls _].
    unfold file_envelopes, lines_of in Hls. rewrite Hi in Hls. simpl in Hls. by rewrite <- Hls. }
  assert (∀ s es, (s, es) ∈ listing' → es = file_envelopes o s) as Hes.
  { intros s es ([s' lines] & Heq & Hin)%list_elem_of_fmap. simplify_eq/=.
    apply Hl in Hin. unfold file_envelopes, lines_of. by rewrite Hin. }
  destruct (load_spool_fresh now listing' (init_outbox (files o)) ∅) as (Hload & Hother & Hfl & Hfiles & Hnew).
  - by rewrite Hfst.
  - intros s es Hin. rewrite (Hes _ _ Hin). by apply spool_ok_file.
  - done.
  - done.
  - split; [|split; [done|by intros b [?|?]%Hnew]]. destruct (decide (sid ∈ listing'.*1)) as [Hin|Hnin].
    + apply list_elem_of_fmap in Hin as ([s es] & -> & Hin). simpl.
      rewrite <- (Hes _ _ Hin). by apply Hload.
    + specialize (Hother _ Hnin). unfold loaded, view_of, high_water, acked_seq.
      rewrite Hother. simpl. rewrite Hfl. simpl.
      assert (files o !! sid = None) as Hnone.
      { destruct (files o !! sid) as [lines|] eqn:Hf; [|done]. exfalso. apply Hnin.
        rewrite Hfst. apply Hl in Hf. change sid with (sid, lines).1. by apply list_elem_of_fmap_2. }
      unfold file_envelopes, lines_of. rewrite Hnone. done.
Qed.
