(* ===== verification/OutboxLives.v ===== *)
(** * The outbox over the lives of a worker

    A worker process that dies is started again over the same spool directory: the
    new outbox is what `load_spool` makes of the files.  [lives] is an outbox after
    any number of such restarts, each life made of the operations of a working
    spool.  The numbers in a file have no gap, so neither have the pending ones. *)

From S2P Require Import Prelude PyStd Protocol Outbox OutboxSpec OutboxSpool.

Open Scope Z_scope.

(** ** Numbers without a gap *)

Fixpoint contig (lo : Z) (l : list Z) : Prop :=
  match l with
  | [] => True
  | x :: l' => x = lo + 1 ∧ contig x l'
  end.

Lemma contig_snoc lo l x : contig lo (l ++ [x]) ↔ contig lo l ∧ x = default lo (list.last l) + 1.
Proof.
  revert lo. induction l as [|y l IH]; intros lo; [simpl; tauto|].
  rewrite default_last_cons. simpl. rewrite IH. tauto.
Qed.

Lemma contig_seqZ lo l : contig lo l → l = seqZ (lo + 1) (default lo (list.last l) - lo).
Proof.
  revert lo. induction l as [|x l IH]; intros lo; [simpl; intros; by rewrite Z.sub_diag|].
  rewrite default_last_cons. intros [-> Hl]. pose proof (IH _ Hl) as IHl.
  assert (lo + 1 ≤ default (lo + 1) (list.last l)) as Hge.
  { clear IH IHl. revert lo Hl. induction l as [|y l IH]; intros lo; [simpl; lia|].
    rewrite default_last_cons. intros [-> Hl]. apply IH in Hl. lia. }
  rewrite seqZ_cons by lia. f_equal. rewrite IHl at 1. f_equal; lia.
Qed.

Lemma contig_trim acked last_seq l :
  contig acked (seqs l) →
  contig (Z.max acked last_seq) (seqs (drop_while (below last_seq) l)).
Proof.
  revert acked. induction l as [|x l IH]; intros acked; csimpl; [done|].
  intros [Hx Hl]. unfold below at 1. destruct (Z.leb_spec (seq_of x) last_seq).
  - replace (Z.max acked last_seq) with (Z.max (seq_of x) last_seq) by lia. by apply IH.
  - csimpl. split; [lia|done].
Qed.


Lemma contig_app lo l1 l2 : contig lo (l1 ++ l2) ↔ contig lo l1 ∧ contig (default lo (list.last l1)) l2.
Proof.
  revert lo. induction l1 as [|x l1 IH]; intros lo; [simpl; tauto|].
  rewrite default_last_cons. simpl. rewrite IH. tauto.
Qed.

(** ** What one operation does to a session's file *)

(** A session without pending envelopes has no file. *)
Definition tidy (o : outbox) (s : uuid) : Prop :=
  v_pending (view_of o s) = [] → lines_of o s = [].

(** The file stays or goes, or gets the next envelope of the session. *)
Definition kept_or_gone (o o' : outbox) (s : uuid) : Prop :=
  lines_of o' s = lines_of o s ∨ lines_of o' s = [].
Definition line_step (o o' : outbox) (s : uuid) : Prop :=
  kept_or_gone o o' s
  ∨ ∃ e, lines_of o' s = lines_of o s ++ [LEnv e] ∧ env_seq e = high_water o s + 1.

Lemma file_ok_empty sid lines dl b :
  file_ok sid lines dl b → envelopes b = [] → spooled b = 0 → lines = [].
Proof.
  intros [-> _ _ _ [Hd Hs]] He Hz. unfold count in Hs. rewrite He in *. simpl in Hs.
  destruct dl; [done|]. simpl in Hd. lia.
Qed.

(** `_buffer` keeps every file, and makes no session untidy. *)
Lemma buffer_tidy o sid o' b :
  buffer o sid = (o', b) → outbox_ok o → (∀ s, tidy o s) →
  (∀ s, lines_of o' s = lines_of o s) ∧ ∀ s, tidy o' s.
Proof.
  intros Hb Hok Ht. pose proof (buffer_view _ _ _ _ Hb Hok) as [Hv _].
  apply buffer_spec in Hb as (_ & _ & _ & _ & _ & _ & _ & _ & _ & _ & Hf); [|done].
  assert (∀ s, lines_of o' s = lines_of o s) as Hl by (intros s; unfold lines_of; by rewrite Hf).
  split; [done|]. intros s. unfold tidy. rewrite Hl, Hv. apply Ht.
Qed.

(** The end `set_base` and `acked` share. *)
Lemma trim_put_lines cfg o sid b last_seq high o1 b1 o2 b2 :
  spool_on cfg = true → outbox_ok o → spool_ok o → sessions o !! sid = Some b →
  high = Z.max (issued b) last_seq → (∀ s, tidy o s) →
  trim o b last_seq = (o1, b1) →
  after_trim cfg o1 sid
    (set_marks b1 high (Z.max (acked_to b1) last_seq)
       (Z.max (sent b1) (Z.max (acked_to b1) last_seq))) true = (o2, b2) →
  ∀ s, kept_or_gone o (put_buffer o2 sid b2) s ∧ tidy (put_buffer o2 sid b2) s.
Proof.
  intros Hon Hok Hsp Hs Hi Htidy Ht Ha s.
  pose proof (trim_put_spool _ _ _ _ _ _ _ _ _ _ Hon Hok Hsp Hs Hi Ht Ha sid) as Hfile.
  destruct (trim_put _ _ _ _ _ _ _ _ _ _ _ Hok Hs Hi Ht Ha) as [_ Hv].
  pose proof (po_buffers _ _ _ _ Hok _ _ Hs) as Hb.
  apply (trim_spec _ _ _ _ _ sid high 0) in Ht
    as (_ & _ & _ & _ & _ & _ & _ & _ & _ & _ & _ & Hf1 & _); [|done..].
  assert (lines_of (put_buffer o2 sid b2) s = lines_of o s
          ∨ sid = s ∧ lines_of (put_buffer o2 sid b2) s = []) as Hl.
  { unfold after_trim in Ha. destruct (bool_decide _ && _) in Ha; simplify_eq.
    - unfold remove_spool. rewrite Hon. unfold lines_of. simpl. rewrite Hf1, lookup_delete.
      case_decide; [by right|by left].
    - left. unfold lines_of. simpl. by rewrite Hf1. }
  split; [unfold kept_or_gone; naive_solver|]. unfold tidy. destruct (decide (sid = s)) as [<-|Hne].
  - simpl in *. rewrite olookup_insert_eq in *. simpl. destruct Hfile as [dl Hfile]. intros He.
    apply (file_ok_empty _ _ _ _ Hfile He).
    unfold after_trim in Ha. destruct (bool_decide _ && _) eqn:Hc in Ha; simplify_eq; [done|].
    cbn [envelopes set_marks] in Hc, He. rewrite bool_decide_eq_true_2 in Hc by done. simpl in Hc.
    apply negb_false_iff, Z.eqb_eq in Hc. exact Hc.
  - rewrite Hv, decide_False by done. intros He. destruct Hl as [->|[? _]]; [|done]. by apply Htidy.
Qed.

Lemma append_lines cfg o now sid type payload turn em o' r :
  spool_on cfg = true → outbox_ok o → (∀ s, tidy o s) →
  append cfg o now true sid type payload turn em = (o', r) →
  ∀ s, line_step o o' s ∧ tidy o' s.
Proof.
  intros Hon Hok Ht Ha. pose proof (append_inv _ _ _ _ _ _ _ _ _ _ _ Hok Ha) as Hi. cbv zeta in Hi.
  apply append_shape in Ha. destruct (buffer o sid) as [o0 b] eqn:Hbuf.
  destruct (buffer_tidy _ _ _ _ Hbuf Hok Ht) as [Hl0 Ht0]. intros s.
  destruct r as [x|e].
  - destruct Hi as (_ & Hx & _ & _ & _ & _ & Hv).
    destruct Ha as (used & o1 & o2 & b2 & Hbx & Hs1 & Hf1 & _ & Hap & ->).
    unfold spool_append in Hap. rewrite Hon in Hap. simpl in Hap. injection Hap as <- <-.
    unfold tidy, line_step, kept_or_gone. rewrite Hv. unfold lines_of in *. simpl. rewrite lookup_insert.
    case_decide as Hd; [subst s|rewrite Hf1, Hl0; split; [left; by left|exact (Ht s)]].
    split; [|simpl; intros He; by apply app_eq_nil in He as [_ ?]].
    right. exists (body x). simpl. rewrite Hf1, Hl0. split; [done|]. by rewrite Hx.
  - unfold line_step, kept_or_gone. destruct Ha as [->| ->]; [|rewrite Hl0]; auto.
Qed.

(** A step that keeps the pending envelopes and the files. *)
Lemma keep_lines o o' s :
  files o' = files o → v_pending (view_of o' s) = v_pending (view_of o s) → tidy o s →
  line_step o o' s ∧ tidy o' s.
Proof. unfold line_step, kept_or_gone, tidy, lines_of. intros -> ->. auto. Qed.

(** A step that removes a session together with its file. *)
Lemma remove_lines o o' sid s :
  spool_ok o' → sessions o' = sessions o ∨ sessions o' = delete sid (sessions o) →
  kept_or_gone o o' s → tidy o s → line_step o o' s ∧ tidy o' s.
Proof.
  intros Hsp Hs Hl Ht. split; [by left|].
  unfold tidy. intros He. specialize (Hsp s). destruct (sessions o' !! s) as [b|] eqn:Hb; [|done].
  destruct Hl as [->| ->]; [|done]. apply Ht. revert He. simpl. rewrite Hb.
  destruct Hs as [Hs|Hs]; rewrite Hs in Hb; [by rewrite Hb|].
  rewrite olookup_delete in Hb. case_decide; [done|]. by rewrite Hb.
Qed.

Lemma release_sessions cfg o sid io :
  sessions (release cfg o sid io) = sessions o
  ∨ sessions (release cfg o sid io) = delete sid (sessions o).
Proof.
  unfold release. destruct (sessions o !! sid); [|by auto]. case_decide; [by auto|].
  case_match; [by auto|]. rewrite (proj1 (remove_spool_parts _ _ _ _)). auto.
Qed.
Lemma drop_sessions cfg o sid io :
  sessions (drop_session cfg o sid io) = sessions o
  ∨ sessions (drop_session cfg o sid io) = delete sid (sessions o).
Proof.
  unfold drop_session. rewrite (proj1 (remove_spool_parts _ _ _ _)). simpl. case_match; auto.
Qed.

Lemma spool_step_lines cfg o o' s :
  spool_on cfg = true → spool_step cfg o o' → outbox_ok o → spool_ok o → (∀ s', tidy o s') →
  line_step o o' s ∧ tidy o' s.
Proof.
  intros Hon Hstep Hok Hsp Ht. pose proof (spool_step_spool _ _ _ Hon Hstep Hok Hsp) as Hsp'.
  destruct Hstep.
  - by eapply append_lines.
  - unfold acked, high_water in *. destruct (sessions o !! sid) as [b|] eqn:Hs; [|by apply keep_lines].
    destruct (trim o b last_seq) as [o1 b1] eqn:Htr.
    assert (issued b1 = issued b) as Hi1.
    { eapply (trim_spec _ _ _ _ _ _ (issued b) 0) in Htr; [|by eapply po_buffers|lia..]. naive_solver. }
    destruct (after_trim _ _ _ _ _) as [o2 b2] eqn:Ha. rewrite Hi1 in Ha.
    destruct (trim_put_lines cfg o sid b last_seq (issued b) o1 b1 o2 b2) with (s := s)
      as [Hx Hy]; try done; [lia|]. split; [left; exact Hx|exact Hy].
  - unfold set_base in *. destruct (buffer o sid) as [o0 b] eqn:Hbuf.
    pose proof (buffer_spool _ _ _ _ Hbuf Hok Hsp) as Hsp0.
    destruct (buffer_tidy _ _ _ _ Hbuf Hok Ht) as [Hl0 Ht0].
    apply buffer_spec in Hbuf as (Hok0 & Hs0 & Hb & Hi & Hhw & _); [|done].
    destruct (trim o0 b last_seq) as [o1 b1] eqn:Htr.
    assert (issued b1 = issued b) as Hi1.
    { eapply (trim_spec _ _ _ _ _ _ (Z.max (issued b) last_seq) 0) in Htr; [|done|lia..]. naive_solver. }
    destruct (after_trim _ _ _ _ _) as [o2 b2] eqn:Ha. rewrite Hi1 in Ha.
    destruct (trim_put_lines cfg o0 sid b last_seq (Z.max (issued b) last_seq) o1 b1 o2 b2) with (s := s)
      as [Hls Hy]; try done. split; [|exact Hy]. left. revert Hls.
    unfold kept_or_gone. by rewrite Hl0.
  - apply keep_lines; [done| |done]. by rewrite (proj2 (begin_connection_view o Hok)).
  - apply keep_lines; [by unfold mark_sent; case_match| |done]. pose proof (mark_sent_sessions o sid x s) as H.
    simpl. destruct (sessions (mark_sent o sid x) !! s); [|by rewrite H].
    destruct H as (b & -> & He & _). exact He.
  - apply (remove_lines _ _ sid); [done|apply release_sessions| |done].
    unfold release. unfold kept_or_gone. destruct (sessions o !! sid); [|by left]. case_decide; [by left|].
    case_match; [by left|]. rewrite remove_spool_lines by done. case_decide; [by right|by left].
  - apply (remove_lines _ _ sid); [done|apply drop_sessions| |done].
    unfold drop_session, kept_or_gone. rewrite remove_spool_lines by done.
    case_decide; [by right|left]. unfold lines_of. simpl. by case_match.
  - by apply keep_lines.
  - by apply keep_lines.
Qed.

(** ** The lives *)

Inductive lives (cfg : config) : outbox → Prop :=
| life_new : lives cfg (init_outbox ∅)
| life_step o o' : lives cfg o → spool_step cfg o o' → lives cfg o'
| life_restart o now listing :
    lives cfg o → disk_listing o listing →
    lives cfg (load_spool now (listed <$> listing) (init_outbox (files o)) ∅).1.

Record life_ok (o : outbox) : Prop := {
  lf_outbox : outbox_ok o;
  lf_spool : spool_ok o;
  lf_contig : ∀ s, ∃ lo, contig lo (env_seq <$> file_envelopes o s);
  lf_tidy : ∀ s, tidy o s
}.

Lemma disk_listing_ok o listing sid lines :
  outbox_ok o → spool_ok o → disk_listing o listing → (sid, lines) ∈ listing →
  Forall (line_of sid) lines.
Proof.
  intros Hok Hsp [_ Hl] Hin%Hl. destruct (spool_ok_file o sid Hsp) as (Hf & _ & dl & He & _ & Hdl).
  unfold lines_of in Hf. rewrite Hin in Hf. simpl in Hf. rewrite Hf, He. apply Forall_fmap.
  apply Forall_app. split; [done|]. apply Forall_fmap.
  exact (vo_session _ _ (view_of_ok o sid Hok)).
Qed.

Lemma disk_listing_listing o listing :
  outbox_ok o → spool_ok o → disk_listing o listing → listing_ok (listed <$> listing).
Proof.
  intros Hok Hsp Hl. apply Forall_fmap, list.Forall_forall.
  intros [s lines] Hin. by eapply disk_listing_ok.
Qed.

Lemma restart_ok now o listing :
  outbox_ok o → spool_ok o → disk_listing o listing →
  outbox_ok (load_spool now (listed <$> listing) (init_outbox (files o)) ∅).1.
Proof.
  intros Hok Hsp Hl. apply load_spool_ok; [apply init_outbox_ok|]. by eapply disk_listing_listing.
Qed.

(** The number a session's file ends with is the highest issued. *)
Lemma file_last o s :
  outbox_ok o → spool_ok o → v_pending (view_of o s) ≠ [] →
  ∀ lo, default lo (list.last (env_seq <$> file_envelopes o s)) = high_water o s.
Proof.
  intros Hok Hsp Hne lo. destruct (spool_ok_file o s Hsp) as (_ & _ & dl & -> & _).
  pose proof (vo_last _ _ (view_of_ok o s Hok)) as Hlast. revert Hlast Hne.
  simpl. destruct (from_option envelopes [] (sessions o !! s)) as [|x l] using rev_ind; [done|].
  intros Hlast _. rewrite seqs_app in Hlast. csimpl in Hlast. rewrite last_snoc in Hlast.
  rewrite !fmap_app. csimpl. rewrite app_assoc, last_snoc. exact Hlast.
Qed.

Lemma life_ok_step cfg o o' :
  spool_on cfg = true → spool_step cfg o o' → life_ok o → life_ok o'.
Proof.
  intros Hon Hstep [Hok Hsp Hc Ht].
  assert (∀ s, line_step o o' s ∧ tidy o' s) as Hls by (intros s; by eapply spool_step_lines).
  split; [by eapply spool_step_ok|by eapply spool_step_spool| |apply Hls].
  intros s. destruct (Hls s) as [[[Hl|Hl]|(e & Hl & He)] _]; unfold file_envelopes in *; rewrite Hl.
  - apply Hc.
  - by exists 0.
  - rewrite omap_app, fmap_app. csimpl. destruct (v_pending (view_of o s)) as [|x l] eqn:Hp.
    + rewrite (Ht s Hp). csimpl. exists (high_water o s). by rewrite He.
    + destruct (Hc s) as [lo Hlo]. exists lo. rewrite contig_snoc. split; [done|].
      rewrite He. f_equal. symmetry. apply file_last; [done..|by rewrite Hp].
Qed.

Lemma life_ok_restart now o listing :
  life_ok o → disk_listing o listing →
  life_ok (load_spool now (listed <$> listing) (init_outbox (files o)) ∅).1.
Proof.
  intros [Hok Hsp Hc Ht] Hd. set (o1 := (load_spool _ _ _ _).1).
  assert (∀ s, loaded o1 s (file_envelopes o s) ∧ files o1 = files o
    ∧ ∀ b, sessions o1 !! s = Some b → dead b = 0 ∧ spooled b = count b) as Hl
    by (intros s; exact (restart_loaded now o listing s Hsp Hd)).
  assert (∀ s, lines_of o1 s = lines_of o s) as Hlines
    by (intros s; unfold lines_of; by rewrite (proj1 (proj2 (Hl s)))).
  assert (∀ s, v_pending (view_of o1 s) = [] → lines_of o1 s = []) as Htidy.
  { intros s Hp. destruct (Hl s) as ((Hb & _) & _). rewrite Hp in Hb.
    destruct (spool_ok_file o s Hsp) as (He & _). by rewrite Hlines, He, <- Hb. }
  split; [by apply restart_ok| | |exact Htidy].
  - intros s. destruct (Hl s) as ((Hb & _) & _ & Hd1). specialize (Htidy s). revert Hb Htidy. simpl.
    destruct (sessions o1 !! s) as [b|] eqn:Hs; simpl; [|auto]. intros Hb _.
    destruct (Hd1 _ eq_refl) as [Hd0 Hs0]. destruct (spool_ok_file o s Hsp) as (He & Hinc & _).
    exists []. split; simpl; rewrite ?Hb.
    + by rewrite Hlines.
    + constructor.
    + constructor.
    + exact Hinc.
    + split; lia.
  - intros s. unfold file_envelopes. rewrite Hlines. apply Hc.
Qed.

Lemma lives_ok cfg o : spool_on cfg = true → lives cfg o → life_ok o.
Proof.
  intros Hon. induction 1.
  - split; [apply init_outbox_ok|done|by exists 0|done].
  - by eapply life_ok_step.
  - by apply life_ok_restart.
Qed.

(** The pending numbers of any life have no gap and end with the highest issued. *)
Lemma lives_contig cfg o sid :
  spool_on cfg = true → lives cfg o →
  ∃ lo, acked_seq o sid ≤ lo
        ∧ seqs (v_pending (view_of o sid)) = seqZ (lo + 1) (high_water o sid - lo).
Proof.
  intros Hon [Hok Hsp Hc Ht]%lives_ok; [|done].
  pose proof (view_of_ok o sid Hok) as Hv. pose proof (vo_acked _ _ Hv) as Hacked.
  destruct (v_pending (view_of o sid)) as [|x l] eqn:Hp.
  { exists (high_water o sid). simpl in Hacked. rewrite Z.sub_diag. split; [lia|done]. }
  assert (v_pending (view_of o sid) ≠ []) as Hne by (by rewrite Hp).
  destruct (Hc sid) as [lo Hlo]. pose proof (file_last o sid Hok Hsp Hne lo) as Hlast.
  destruct (spool_ok_file o sid Hsp) as (_ & _ & dl & Hf & _).
  rewrite Hf, fmap_app, fmap_seqs, Hp in *. apply contig_app in Hlo as [_ Hlo].
  set (lo' := default lo (list.last (env_seq <$> dl))) in *. exists lo'.
  pose proof (vo_incr _ _ Hv) as Hinc. rewrite Hp in Hinc. split.
  - csimpl in Hlo. csimpl in Hinc. destruct Hlo as [Hx _], Hinc as [Hx2 _]. simpl in Hx2. lia.
  - rewrite (contig_seqZ _ _ Hlo) at 1. f_equal. rewrite last_app in Hlast. f_equal.
    csimpl. csimpl in Hlast. rewrite default_last_cons.
    destruct (list.last (seq_of x :: seqs l)) as [z|] eqn:Hz; [|by apply last_None in Hz].
    rewrite last_cons in Hz. by destruct (list.last (seqs l)); simplify_eq/=.
Qed.
