(* ===== verification/OutboxProps.v ===== *)
(** * The outbox: what its callers rely on

    The theorems about [Outbox], stated on what `client.py` and `commands.py` see:
    the pending envelopes of a session, its high-water mark and its cursor. *)

From S2P Require Import Prelude PyStd Protocol Outbox OutboxSpec OutboxSpool OutboxLives.

Open Scope Z_scope.

(** ** How far the bounds can be exceeded *)

Section slack.
(** A resource that an outbox counts: per buffer [v], in total [tot], with the
    limit [cap]; an emergency envelope costs at most [u]. *)
Context (u : Z) (v : session_buffer → Z).
Context (u_nonneg : 0 ≤ u).

Definition slack (b : session_buffer) : Z := Z.min (emergency_used b * u) (v b).
Definition bound (cap tot : Z) (ss : odict uuid session_buffer) : Prop :=
  tot ≤ cap + osum slack ss.

Lemma bound_put cap tot ss sid b b' :
  bound cap tot ss → ss !! sid = Some b →
  emergency_used b' = emergency_used b → v b' ≤ v b →
  bound cap (tot + (v b' - v b)) (<[sid:=b']> ss).
Proof.
  unfold bound. intros H Hs He Hv. rewrite osum_insert, Hs. simpl. unfold slack in *.
  rewrite He. lia.
Qed.

Lemma bound_delete cap tot ss sid b :
  odict_ok ss → bound cap tot ss → ss !! sid = Some b →
  bound cap (tot - v b) (delete sid ss).
Proof.
  unfold bound. intros Hok H Hs. rewrite osum_delete, Hs by done. simpl. unfold slack in *. lia.
Qed.

Lemma bound_new cap tot ss sid b :
  bound cap tot ss → ss !! sid = None → emergency_used b = 0 → v b = 0 →
  bound cap tot (<[sid:=b]> ss).
Proof.
  unfold bound. intros H Hs He Hv. rewrite osum_insert, Hs. simpl. unfold slack at 2.
  rewrite He, Hv. lia.
Qed.

(** One more envelope of cost [c]: within the limit, or on the emergency budget. *)
Lemma bound_push cap tot ss sid b b' c (over : bool) :
  bound cap tot ss → ss !! sid = Some b → 0 ≤ osum slack (<[sid:=b']> ss) →
  0 ≤ c ≤ u → v b' = v b + c → 0 ≤ v b →
  emergency_used b' = (if over then emergency_used b + 1 else emergency_used b) →
  (over = false → tot + c ≤ cap) →
  bound cap (tot + c) (<[sid:=b']> ss).
Proof.
  unfold bound. intros H Hs Hpos Hc Hv Hv0 He Hcap. destruct over.
  - rewrite osum_insert, Hs. simpl. unfold slack in *. rewrite He, Hv. nia.
  - specialize (Hcap eq_refl). lia.
Qed.
End slack.

(** The bound as a number, when every budget is spent. *)
Lemma osum_le {V} (f : V → Z) (d : odict uuid V) m :
  (∀ k v, d !! k = Some v → f v ≤ m) → odict_ok d → osum f d ≤ m * Z.of_nat (olen d).
Proof.
  intros Hf Hok. assert (Forall (λ p, f p.2 ≤ m) (oitems d)) as Hall.
  { apply list.Forall_forall. intros [k v] Hin. apply (Hf k). by apply elem_of_oitems. }
  clear Hf Hok. unfold osum, ovals, olen. induction Hall as [|[k v] l Hv _ IH]; csimpl; [lia|].
  simpl in *. lia.
Qed.

Lemma osum_pos {V} (f : V → Z) (d : odict uuid V) :
  (∀ k v, d !! k = Some v → 0 ≤ f v) → odict_ok d → 0 ≤ osum f d.
Proof.
  intros Hf Hok. assert (Forall (λ p, 0 ≤ f p.2) (oitems d)) as Hall.
  { apply list.Forall_forall. intros [k v] Hin. apply (Hf k). by apply elem_of_oitems. }
  clear Hf Hok. unfold osum, ovals. induction Hall as [|[k v] l Hv _ IH]; csimpl; [lia|].
  simpl in *. lia.
Qed.

(** The limits in force: those of the configuration, or what the outbox already
    held when its life began. *)
Record limits : Type := Limits {
  lm_messages : Z;
  lm_bytes : Z;
  lm_session : uuid → Z;
  lm_session_bytes : uuid → Z
}.

Record bounded (L : limits) (m tb : Z) (ss : odict uuid session_buffer) : Prop := {
  bd_messages : bound 1 count (lm_messages L) m ss;
  bd_bytes : bound MAX_MESSAGE_BYTES bytes (lm_bytes L) tb ss;
  bd_session : ∀ sid b, ss !! sid = Some b →
    count b ≤ lm_session L sid + emergency_used b
    ∧ bytes b ≤ lm_session_bytes L sid + emergency_used b * MAX_MESSAGE_BYTES
}.

(** The fields `__init__` computes are positive. *)
Definition config_ok (cfg : config) : Prop :=
  1 ≤ max_messages cfg ∧ 1024 ≤ max_bytes cfg
  ∧ 1 ≤ session_messages cfg ∧ 1 ≤ session_bytes cfg.

Definition limits_of (cfg : config) (start : outbox) : limits :=
  Limits (Z.max (max_messages cfg) (messages start)) (Z.max (max_bytes cfg) (total_bytes start))
    (λ sid, Z.max (session_messages cfg) (Z.of_nat (length (pending start sid 0))))
    (λ sid, Z.max (session_bytes cfg) (sizes (pending start sid 0))).

Record limits_ok (cfg : config) (L : limits) : Prop := {
  lo_config : config_ok cfg;
  lo_messages : max_messages cfg ≤ lm_messages L;
  lo_bytes : max_bytes cfg ≤ lm_bytes L;
  lo_session : ∀ sid, session_messages cfg ≤ lm_session L sid;
  lo_session_bytes : ∀ sid, session_bytes cfg ≤ lm_session_bytes L sid
}.

Lemma limits_of_ok cfg start : config_ok cfg → limits_ok cfg (limits_of cfg start).
Proof. intros Hc. split; [done|simpl; intros; lia..]. Qed.

Lemma sizes_nonneg l : 0 ≤ sizes l.
Proof.
  unfold sizes. induction l as [|x l IH]; csimpl; [lia|].
  assert (0 ≤ ssize x) by apply wire_size_nonneg. lia.
Qed.

Lemma bounded_put L m tb ss sid b b' :
  bounded L m tb ss → ss !! sid = Some b → emergency_used b' = emergency_used b →
  count b' ≤ count b → bytes b' ≤ bytes b →
  bounded L (m + (count b' - count b)) (tb + (bytes b' - bytes b)) (<[sid:=b']> ss).
Proof.
  intros [] Hs He Hc Hb. split; [by apply bound_put..|].
  intros s b0. rewrite olookup_insert. case_decide; intros Hb0; simplify_eq; [|eauto].
  specialize (bd_session0 _ _ Hs). rewrite He. lia.
Qed.

Lemma buffer_bounded cfg L o sid o' b :
  limits_ok cfg L → buffer o sid = (o', b) → bounded L (messages o) (total_bytes o) (sessions o) →
  bounded L (messages o') (total_bytes o') (sessions o').
Proof.
  unfold buffer. intros Hc Hb []. destruct (sessions o !! sid) eqn:Hs; simplify_eq/=; [done|].
  split; [by apply bound_new..|]. intros s b0. rewrite olookup_insert.
  case_decide; intros Hb0; simplify_eq/=; [|eauto].
  destruct Hc as [(? & ? & ? & ?) _ _ H1 H2]. specialize (H1 s). specialize (H2 s).
  unfold count. simpl. lia.
Qed.

Lemma trim_loop_le last_seq envs times :
  let '(e, _, sz, n) := trim_loop last_seq envs times in
  0 ≤ sz ∧ 0 ≤ n ∧ Z.of_nat (length e) ≤ Z.of_nat (length envs).
Proof.
  rewrite trim_loop_spec. pose proof (take_drop_while (below last_seq) envs) as H.
  apply (f_equal length) in H. rewrite length_app in H.
  pose proof (sizes_nonneg (take_while (below last_seq) envs)). lia.
Qed.

(** `set_base` and `acked` only shrink the buffer. *)
Lemma trim_put_bounded cfg L o sid b last_seq high ack snt io o1 b1 o2 b2 :
  bounded L (messages o) (total_bytes o) (sessions o) → sessions o !! sid = Some b →
  buffer_ok sid b → trim o b last_seq = (o1, b1) →
  after_trim cfg o1 sid (set_marks b1 high ack snt) io = (o2, b2) →
  bounded L (messages (put_buffer o2 sid b2)) (total_bytes (put_buffer o2 sid b2))
    (sessions (put_buffer o2 sid b2)).
Proof.
  intros Hbd Hs Hb Ht Ha. pose proof Ht as Htr.
  eapply (trim_spec _ _ _ _ _ sid _ 0) in Htr as (_ & _ & Hs1 & _ & Hm & Htb & _); [|done..].
  apply after_trim_spec in Ha as (Hs2 & _ & Hm2 & Ht2 & (sp & d & ->) & _).
  assert (emergency_used b1 = emergency_used b ∧ count b1 ≤ count b ∧ bytes b1 ≤ bytes b)
    as (He & Hc & Hby).
  { revert Ht. unfold trim. pose proof (trim_loop_le last_seq (envelopes b) (added b)) as Hle.
    destruct (trim_loop _ _ _) as [[[e t] sz] n]. intros ?. simplify_eq/=. unfold count. simpl. lia. }
  simpl. rewrite Hs2, Hs1, Hm2, Ht2, Hm, Htb.
  exact (bounded_put _ _ _ _ _ _ (set_lines (set_marks b1 high ack snt) sp d) Hbd Hs He Hc Hby).
Qed.

Lemma append_bounded cfg L o now io sid type payload turn em o' r :
  limits_ok cfg L → outbox_ok o → append cfg o now io sid type payload turn em = (o', r) →
  bounded L (messages o) (total_bytes o) (sessions o) →
  bounded L (messages o') (total_bytes o') (sessions o').
Proof.
  unfold append. intros Hcfg Hok Ha Hbd. destruct (missing_feature o type); [by simplify_eq|].
  destruct (buffer o sid) as [o0 b] eqn:Hbuf.
  pose proof (buffer_bounded _ _ _ _ _ _ Hcfg Hbuf Hbd) as Hbd0.
  apply buffer_spec in Hbuf as (Hok0 & Hs0 & Hb & _); [|done].
  set (e := Envelope _ _ _ _ _) in *.
  destruct (Z.ltb_spec MAX_MESSAGE_BYTES (envelope_size e)); [by simplify_eq|].
  set (over := over_worker _ _ _ || over_session _ _ _) in *.
  destruct (over && _) eqn:Hover; [by simplify_eq|].
  unfold fresh_id in Ha. destruct (spool_append _ _ _ _ _ _) as [o2 b2] eqn:Hsp. simplify_eq.
  apply spool_append_spec in Hsp as (Hs2 & _ & Hm2 & Ht2 & sp & d & ->). simpl in *.
  rewrite Hs2, Hm2, Ht2.
  set (b' := set_lines _ sp d).
  pose proof (wire_size_nonneg (to_wire e)) as Hpos.
  pose proof (bo_emergency _ _ Hb) as Hem.
  assert (count b' = count b + 1) as Hcount by (unfold count; simpl; rewrite length_app; simpl; lia).
  assert (∀ s b0, <[sid:=b']> (sessions o0) !! s = Some b0 →
            0 ≤ emergency_used b0 ∧ 0 ≤ bytes b0) as Hnn.
  { intros s b0. rewrite olookup_insert. case_decide; intros Hs; simplify_eq/=.
    - rewrite (bo_bytes _ _ Hb). pose proof (sizes_nonneg (envelopes b)).
      unfold envelope_size in *. destruct over; lia.
    - apply (po_buffers _ _ _ _ Hok0) in Hs. rewrite (bo_bytes _ _ Hs).
      pose proof (sizes_nonneg (envelopes b0)). pose proof (bo_emergency _ _ Hs). lia. }
  destruct Hbd0 as [Hbm Hbb Hbs].
  assert (odict_ok (<[sid:=b']> (sessions o0))) as Hdict.
  { apply odict_ok_insert. apply (po_sessions _ _ _ _ Hok0). }
  assert (over = false → messages o0 + 1 ≤ lm_messages L
            ∧ total_bytes o0 + envelope_size e ≤ lm_bytes L
            ∧ count b + 1 ≤ lm_session L sid ∧ bytes b + envelope_size e ≤ lm_session_bytes L sid)
    as Hroom.
  { intros Ho. unfold over, over_worker, over_session in Ho. bool_props.
    destruct Hcfg as [_ ? ? Hl1 Hl2]. specialize (Hl1 sid). specialize (Hl2 sid). unfold count. lia. }
  split.
  - apply (bound_push 1 count _ _ _ _ b b' 1 over Hbm Hs0).
    + apply osum_pos; [|done]. intros s b0 Hs. destruct (Hnn _ _ Hs). unfold slack, count. lia.
    + lia.
    + done.
    + unfold count. lia.
    + done.
    + intros Ho. by apply Hroom.
  - apply (bound_push MAX_MESSAGE_BYTES bytes _ _ _ _ b b' (envelope_size e) over Hbb Hs0).
    + apply osum_pos; [|done]. intros s b0 Hs. destruct (Hnn _ _ Hs).
      unfold slack, MAX_MESSAGE_BYTES. lia.
    + unfold envelope_size in *. lia.
    + done.
    + rewrite (bo_bytes _ _ Hb). apply sizes_nonneg.
    + done.
    + intros Ho. by apply Hroom.
  - intros s b0. rewrite olookup_insert. case_decide; intros Hs; simplify_eq; [|eauto].
    specialize (Hbs _ _ Hs0). rewrite Hcount. simpl. destruct over.
    + unfold MAX_MESSAGE_BYTES in *. lia.
    + destruct (Hroom eq_refl) as (_ & _ & ? & ?). unfold MAX_MESSAGE_BYTES in *. lia.
Qed.

(** ** The numbering has no gap *)

Definition gapless (v : view) : Prop := contig (v_acked v) (seqs (v_pending v)).

Lemma gapless_trim sid v high last_seq :
  view_ok sid v → gapless v → gapless (view_trim v high last_seq).
Proof.
  unfold gapless. intros Hv Hg. simpl. rewrite <- (drop_below_filter _ _ _ (vo_incr _ _ Hv)).
  by apply contig_trim.
Qed.

Lemma gapless_push sid v x :
  view_ok sid v → seq_of x = v_high v + 1 → gapless v → gapless (view_push v x).
Proof.
  unfold gapless. intros Hv Hx Hg. simpl. rewrite seqs_app. csimpl. apply contig_snoc.
  split; [done|]. by rewrite (vo_last _ _ Hv).
Qed.

(** A step that changes no buffer's pending list, other than by removing empty
    or dropped buffers. *)
Lemma gapless_keep o o' :
  (∀ s b', sessions o' !! s = Some b' → ∃ b, sessions o !! s = Some b
      ∧ envelopes b' = envelopes b ∧ acked_to b' = acked_to b) →
  (∀ s, gapless (view_of o s)) → ∀ s, gapless (view_of o' s).
Proof.
  intros Hs Hg s. specialize (Hg s). unfold gapless, view_of, acked_seq in *.
  specialize (Hs s). simpl in *. destruct (sessions o' !! s) as [b'|]; [|done].
  destruct (Hs _ eq_refl) as (b & Hb & He & Ha). rewrite Hb in Hg. simpl in *. by rewrite He, Ha.
Qed.

Lemma remove_sessions o o' sid :
  sessions o' = sessions o ∨ sessions o' = delete sid (sessions o) →
  ∀ s b', sessions o' !! s = Some b' → sessions o !! s = Some b'.
Proof.
  intros [-> | ->] s b'; [done|]. rewrite olookup_delete. by case_decide.
Qed.

Lemma compact_sessions o sid i snap io s b' :
  sessions (compact_finish o sid i snap io) !! s = Some b' →
  ∃ b sp d, sessions o !! s = Some b ∧ b' = set_lines b sp d.
Proof.
  assert (∀ b, b = set_lines b (spooled b) (dead b)) as Hself by by intros [].
  unfold compact_finish. destruct (sessions o !! sid) as [b|] eqn:Hs; [|by eauto].
  case_match; [|by eauto]. simpl. rewrite olookup_insert.
  destruct (decide (sid = s)); [|by eauto]. intros Hb. injection Hb as <-. subst. exists b. eexists _, _. by split.
Qed.

Lemma live_step_gapless cfg o o' :
  live_step cfg o o' → outbox_ok o →
  (∀ s, gapless (view_of o s)) → ∀ s, gapless (view_of o' s).
Proof.
  intros Hstep Hok Hg. destruct Hstep.
  - pose proof (append_inv _ _ _ _ _ _ _ _ _ _ _ Hok H) as Hi. simpl in Hi. intros s.
    destruct r as [x|]; [|by destruct Hi as (_ & -> & _)].
    destruct Hi as (_ & Hx & _ & _ & _ & _ & ->). case_decide; [|done].
    eapply gapless_push; [by apply view_of_ok| |done]. unfold seq_of. by rewrite Hx.
  - intros s. rewrite (proj2 (acked_view cfg o sid last_seq io Hok H)). case_decide; [|done].
    eapply gapless_trim; [by apply view_of_ok|done].
  - intros s. rewrite (proj2 (set_base_view cfg o sid last_seq io Hok)). case_decide; [|done].
    eapply gapless_trim; [by apply view_of_ok|done].
  - intros s. rewrite (proj2 (begin_connection_view o Hok)). exact (Hg s).
  - apply (gapless_keep o); [|done]. intros s b' Hb'.
    pose proof (mark_sent_sessions o sid x s) as H. rewrite Hb' in H. naive_solver.
  - apply (gapless_keep o); [|done]. intros s b' Hb'.
    apply (remove_sessions o _ sid) in Hb'; [by eauto|]. apply release_sessions.
  - apply (gapless_keep o); [|done]. intros s b' Hb'.
    apply (remove_sessions o _ sid) in Hb'; [by eauto|]. apply drop_sessions.
  - done.
  - done.
  - apply (gapless_keep o); [|done]. intros s b' Hb'.
    apply compact_sessions in Hb' as (b & sp & e & Hb & ->). by exists b.
Qed.

Lemma bounded_start cfg start :
  outbox_ok start →
  bounded (limits_of cfg start) (messages start) (total_bytes start) (sessions start).
Proof.
  intros Hok. assert (∀ u v, 0 ≤ u → (∀ b, 0 ≤ v b ∨ ¬ ∃ sid, sessions start !! sid = Some b) →
    0 ≤ osum (slack u v) (sessions start)) as Hpos.
  { intros u v Hu Hv. apply osum_pos; [|apply (po_sessions _ _ _ _ Hok)]. intros sid b Hb.
    destruct (Hv b) as [?|Hn]; [|destruct Hn; eauto].
    pose proof (bo_emergency _ _ (po_buffers _ _ _ _ Hok _ _ Hb)). unfold slack. nia. }
  split; unfold bound; simpl.
  - enough (0 ≤ osum (slack 1 count) (sessions start)) by lia. apply Hpos; [lia|].
    left. unfold count. lia.
  - enough (0 ≤ osum (slack MAX_MESSAGE_BYTES bytes) (sessions start)) by lia. apply Hpos; [done|].
    intros b. destruct (decide (0 ≤ bytes b)) as [?|Hn]; [by left|right]. intros [sid Hb].
    pose proof (po_buffers _ _ _ _ Hok _ _ Hb) as Hbok. apply Hn. rewrite (bo_bytes _ _ Hbok).
    apply sizes_nonneg.
  - intros sid b Hb. rewrite pending_view by done. simpl. rewrite Hb. simpl.
    pose proof (po_buffers _ _ _ _ Hok _ _ Hb) as Hbok. pose proof (bo_emergency _ _ Hbok).
    rewrite (bo_bytes _ _ Hbok). unfold count, MAX_MESSAGE_BYTES. lia.
Qed.

Lemma bounded_same L o sid b' m tb :
  bounded L m tb (sessions o) →
  (∃ b, sessions o !! sid = Some b ∧ emergency_used b' = emergency_used b
        ∧ envelopes b' = envelopes b ∧ bytes b' = bytes b) →
  bounded L m tb (<[sid:=b']> (sessions o)).
Proof.
  intros Hbd (b & Hs & He & Hl & Hb).
  pose proof (bounded_put _ _ _ _ _ _ b' Hbd Hs He) as H. unfold count in H.
  rewrite Hl, Hb, !Z.sub_diag, !Z.add_0_r in H. apply H; lia.
Qed.

Lemma bounded_delete L m tb ss sid b :
  odict_ok ss → bounded L m tb ss → ss !! sid = Some b →
  bounded L (m - count b) (tb - bytes b) (delete sid ss).
Proof.
  intros Hok [] Hs. split; [by apply bound_delete..|].
  intros s b0. rewrite olookup_delete. case_decide; [done|eauto].
Qed.

Lemma begin_connection_bounded L o :
  bounded L (messages o) (total_bytes o) (sessions o) →
  bounded L (messages o) (total_bytes o) (sessions (begin_connection o).1).
Proof.
  intros []. split.
  - unfold bound, begin_connection in *. simpl. rewrite osum_map; [|done]. done.
  - unfold bound, begin_connection in *. simpl. rewrite osum_map; [|done]. done.
  - intros s b. rewrite begin_connection_sessions. intros (b0 & Hb0 & ->)%fmap_Some.
    by apply (bd_session0 s b0).
Qed.

Lemma remove_spool_bounded cfg L o sid io :
  bounded L (messages o) (total_bytes o) (sessions o) →
  let o' := remove_spool cfg o sid io in bounded L (messages o') (total_bytes o') (sessions o').
Proof. simpl. by destruct (remove_spool_parts cfg o sid io) as (-> & _ & -> & -> & _). Qed.

Lemma live_step_bounded cfg L o o' :
  limits_ok cfg L → live_step cfg o o' → outbox_ok o →
  bounded L (messages o) (total_bytes o) (sessions o) →
  bounded L (messages o') (total_bytes o') (sessions o').
Proof.
  intros Hcfg Hstep Hok Hbd. destruct Hstep.
  - by eapply append_bounded.
  - unfold acked. destruct (sessions o !! sid) as [b|] eqn:Hs; [|done].
    destruct (trim o b last_seq) as [o1 b1] eqn:Ht.
    destruct (after_trim _ _ _ _ _) as [o2 b2] eqn:Ha.
    by eapply trim_put_bounded; [|done|by eapply po_buffers|..].
  - unfold set_base. destruct (buffer o sid) as [o0 b] eqn:Hbuf.
    pose proof (buffer_bounded _ _ _ _ _ _ Hcfg Hbuf Hbd) as Hbd0.
    apply buffer_spec in Hbuf as (Hok0 & Hs0 & Hb & _); [|done].
    destruct (trim o0 b last_seq) as [o1 b1] eqn:Ht.
    destruct (after_trim _ _ _ _ _) as [o2 b2] eqn:Ha.
    by eapply trim_put_bounded.
  - exact (begin_connection_bounded L o Hbd).
  - unfold mark_sent. destruct (sessions o !! sid) as [b|] eqn:Hs; [|done].
    apply bounded_same; [done|]. by exists b.
  - unfold release. destruct (sessions o !! sid) as [b|] eqn:Hs; [|done]. case_decide as He; [done|].
    assert (envelopes b = []) as Hnil by (destruct (envelopes b); [done|by destruct He]).
    pose proof (bounded_delete _ _ _ _ _ _ (po_sessions _ _ _ _ Hok) Hbd Hs) as H.
    rewrite (bo_bytes _ _ (po_buffers _ _ _ _ Hok _ _ Hs)) in H. unfold count, sizes in H.
    rewrite Hnil in H. simpl in H. rewrite !Z.sub_0_r in H.
    case_match; [done|]. by apply remove_spool_bounded.
  - unfold drop_session. apply remove_spool_bounded. simpl.
    destruct (sessions o !! sid) as [b|] eqn:Hs; [|done].
    apply (bounded_delete _ _ _ _ _ _ (po_sessions _ _ _ _ Hok) Hbd Hs).
  - done.
  - done.
  - unfold compact_finish. destruct (sessions o !! sid) as [b|] eqn:Hs; [|done].
    case_match; [|done]. apply bounded_same; [done|]. by exists b.
Qed.

(** One life of the worker, from the outbox it starts with. *)
Lemma live_reach_bounded cfg L start o :
  limits_ok cfg L → rtc (live_step cfg) start o → outbox_ok start →
  bounded L (messages start) (total_bytes start) (sessions start) →
  outbox_ok o ∧ bounded L (messages o) (total_bytes o) (sessions o).
Proof.
  intros Hc. induction 1 as [|o1 o2 o3 Hstep _ IH]; intros Hok Hb; [done|].
  apply IH; [by eapply live_step_ok|by eapply live_step_bounded].
Qed.

(** A life that starts without pending envelopes. *)
Lemma live_reach cfg disk o :
  rtc (live_step cfg) (init_outbox disk) o → outbox_ok o ∧ ∀ s, gapless (view_of o s).
Proof.
  assert (∀ o1, rtc (live_step cfg) o1 o → outbox_ok o1 → (∀ s, gapless (view_of o1 s)) →
    outbox_ok o ∧ ∀ s, gapless (view_of o s)) as H.
  { induction 1 as [|o1 o2 o3 Hstep _ IH]; [done|]. intros Hok Hg.
    apply IH; [by eapply live_step_ok|by eapply live_step_gapless]. }
  intros Hr. apply (H _ Hr); [apply init_outbox_ok|done].
Qed.

(** ** A small run, for the witnesses *)

Definition demo_cfg : config := Config 4 65536 3 65536 1 true.
Definition demo_append (o : outbox) (sid : uuid) : outbox * res append_error stored :=
  append demo_cfg o 0 true sid "event" [] None false.
Definition demo0 : outbox := init_outbox ∅.
Definition demo1 : outbox := (demo_append demo0 7).1.
Definition demo2 : outbox := (demo_append demo1 7).1.
Definition demo3 : outbox := acked demo_cfg demo2 7 1 true.

Lemma demo_append_step o sid : spool_step demo_cfg o (demo_append o sid).1.
Proof. eapply sp_append. apply surjective_pairing. Qed.
Lemma demo_append_eq o sid :
  append demo_cfg o 0 true sid "event" [] None false
  = ((demo_append o sid).1, (demo_append o sid).2).
Proof. apply surjective_pairing. Qed.
Lemma demo_append_result :
  (demo_append demo3 7).2 = Ok (Stored 3 (Envelope 7 None 3 "event" [])).
Proof. vm_compute. reflexivity. Qed.
Lemma demo_high : 1 ≤ high_water demo2 7.
Proof. apply Z.leb_le. vm_compute. reflexivity. Qed.
Lemma demo_reach : rtc (spool_step demo_cfg) demo0 demo3.
Proof.
  apply (rtc_l _ _ demo1); [exact (demo_append_step demo0 7)|].
  apply (rtc_l _ _ demo2); [exact (demo_append_step demo1 7)|].
  apply rtc_once. exact (sp_acked demo_cfg demo2 7 1 demo_high).
Qed.
Lemma spool_live cfg o o' : spool_step cfg o o' → live_step cfg o o'.
Proof. destruct 1; by econstructor. Qed.
Lemma demo_live : rtc (live_step demo_cfg) demo0 demo3.
Proof. eapply rtc_subrel; [apply spool_live|exact demo_reach]. Qed.
Lemma demo_ok : outbox_ok demo3.
Proof. exact (proj1 (live_reach _ _ _ demo_live)). Qed.

(** Every outbox that a run with a working spool reaches. *)
Lemma spool_reach cfg o :
  spool_on cfg = true → rtc (spool_step cfg) (init_outbox ∅) o → outbox_ok o ∧ spool_ok o.
Proof.
  intros Hon Hr. apply (spool_steps_ok cfg (init_outbox ∅)); [done|done|apply init_outbox_ok|done].
Qed.

(** ** The theorems *)

(** C5: in every reachable outbox the counters equal the sums over the buffers, each
    buffer holds strictly increasing envelopes of its own session between the ack and
    the high-water mark, and the unsent ones are the end of it. *)
Theorem outbox_invariant cfg disk o :
  rtc (outbox_step cfg) (init_outbox disk) o → outbox_ok o.
Proof.
  intros Hr. eapply (rtc_ind_l (λ o1, outbox_ok o1 → outbox_ok o) (R:=outbox_step cfg));
    [done| |exact Hr|apply init_outbox_ok].
  intros o1 o2 Hstep _ IH Hok. apply IH. by eapply outbox_step_ok.
Qed.
Lemma outbox_invariant_witness : outbox_ok demo3.
Proof.
  apply (outbox_invariant demo_cfg ∅).
  eapply rtc_subrel; [apply step_live|exact demo_live].
Defined.

(** C6: within one life of a worker that starts without pending envelopes, those of
    a session are numbered without gap or repetition from the one after its ack to
    the highest ever issued.  Over any number of restarts with a working spool (and
    no compaction) they still have no gap or repetition and end with the highest
    number the life knows, but may begin above what this life saw acked. *)
Theorem outbox_gapless cfg disk o sid :
  (rtc (live_step cfg) (init_outbox disk) o →
   seqs (pending o sid 0) = seqZ (acked_seq o sid + 1) (high_water o sid - acked_seq o sid))
  ∧ (spool_on cfg = true → lives cfg o →
     ∃ lo, acked_seq o sid ≤ lo ∧ seqs (pending o sid 0) = seqZ (lo + 1) (high_water o sid - lo)).
Proof.
  split.
  - intros (Hok & Hg)%live_reach. specialize (Hg sid).
    pose proof (vo_last _ _ (view_of_ok o sid Hok)) as Hlast.
    rewrite pending_view by done. unfold gapless in Hg.
    rewrite (contig_seqZ _ _ Hg), Hlast. done.
  - intros Hon Hl. rewrite pending_view by (by apply (lives_ok cfg)). by eapply lives_contig.
Qed.

(** [demo3] dies and is started again: the file still holds the acked line. *)
Definition demo_listing : list (uuid * list spool_line) := map_to_list (files demo3).
Definition demo_restarted : outbox :=
  (load_spool 0 (listed <$> demo_listing) (init_outbox (files demo3)) ∅).1.
Lemma demo_disk : disk_listing demo3 demo_listing.
Proof. split; [apply NoDup_fst_map_to_list|]. intros sid lines. apply elem_of_map_to_list. Qed.
Lemma demo_listed : listing_ok (listed <$> demo_listing).
Proof.
  destruct (spool_reach demo_cfg demo3 eq_refl demo_reach) as [Hok Hsp].
  exact (disk_listing_listing demo3 demo_listing Hok Hsp demo_disk).
Qed.
Lemma demo_lives : lives demo_cfg demo_restarted.
Proof.
  refine (life_restart demo_cfg demo3 0 demo_listing _ demo_disk).
  assert (∀ o1 o2, rtc (spool_step demo_cfg) o1 o2 → lives demo_cfg o1 → lives demo_cfg o2) as H.
  { induction 1; [done|]. intros Hl. apply IHrtc. by eapply life_step. }
  exact (H demo0 demo3 demo_reach (life_new demo_cfg)).
Qed.
Lemma outbox_gapless_witness :
  (seqs (pending demo3 7 0) = seqZ (acked_seq demo3 7 + 1) (high_water demo3 7 - acked_seq demo3 7)
   ∧ seqs (pending demo3 7 0) = [2])
  ∧ (∃ lo, acked_seq demo_restarted 7 ≤ lo
       ∧ seqs (pending demo_restarted 7 0) = seqZ (lo + 1) (high_water demo_restarted 7 - lo))
  ∧ seqs (pending demo_restarted 7 0) = [1; 2].
Proof.
  split; [split; [exact (proj1 (outbox_gapless demo_cfg ∅ demo3 7) demo_live)|by vm_compute]|].
  split; [exact (proj2 (outbox_gapless demo_cfg ∅ demo_restarted 7) eq_refl demo_lives)|by vm_compute].
Defined.

(** C32: during one life of the worker, from whatever it loaded from its spool, the
    messages and bytes it holds, in total and for each session, stay within the
    larger of the configured bound and what the life began with, exceeded only by
    the emergency budget of each live session (which every life gets anew). *)
Theorem outbox_bounds cfg disk now listing o :
  let start := (load_spool now listing (init_outbox disk) ∅).1 in
  config_ok cfg → listing_ok listing → rtc (live_step cfg) start o →
  let budget := EMERGENCY_BUDGET * Z.of_nat (olen (sessions o)) in
  messages o ≤ Z.max (max_messages cfg) (messages start) + budget
  ∧ total_bytes o ≤ Z.max (max_bytes cfg) (total_bytes start) + budget * MAX_MESSAGE_BYTES
  ∧ ∀ sid, Z.of_nat (length (pending o sid 0))
             ≤ Z.max (session_messages cfg) (Z.of_nat (length (pending start sid 0)))
               + EMERGENCY_BUDGET
           ∧ sizes (pending o sid 0)
               ≤ Z.max (session_bytes cfg) (sizes (pending start sid 0))
                 + EMERGENCY_BUDGET * MAX_MESSAGE_BYTES.
Proof.
  intros start Hc Hl Hr.
  assert (outbox_ok start) as Hstart by (apply load_spool_ok; [apply init_outbox_ok|done]).
  destruct (live_reach_bounded cfg _ start o (limits_of_ok cfg start Hc) Hr Hstart
    (bounded_start cfg start Hstart)) as [Hok [Hm Ht Hs]]. cbv zeta. simpl in Hm, Ht, Hs.
  assert (∀ u v, 0 ≤ u →
    osum (slack u v) (sessions o) ≤ EMERGENCY_BUDGET * u * Z.of_nat (olen (sessions o))) as Hslack.
  { intros u v Hu. apply osum_le; [|apply (po_sessions _ _ _ _ Hok)]. intros sid b Hb0.
    pose proof (bo_emergency _ _ (po_buffers _ _ _ _ Hok _ _ Hb0)). unfold slack. nia. }
  unfold bound in *.
  pose proof (Hslack 1 count ltac:(lia)). pose proof (Hslack MAX_MESSAGE_BYTES bytes ltac:(done)).
  split; [lia|]. split; [lia|]. intros sid. rewrite (pending_view o sid Hok). simpl.
  destruct (sessions o !! sid) as [b|] eqn:Hb0; simpl.
  - destruct (Hs _ _ Hb0) as [Hs1 Hs2]. pose proof (po_buffers _ _ _ _ Hok _ _ Hb0) as Hbok.
    pose proof (bo_emergency _ _ Hbok). rewrite <- (bo_bytes _ _ Hbok).
    unfold count, MAX_MESSAGE_BYTES in *. lia.
  - destruct Hc as (? & ? & ? & ?). unfold sizes at 1, EMERGENCY_BUDGET, MAX_MESSAGE_BYTES. simpl. lia.
Qed.
Lemma outbox_bounds_witness :
  messages demo_restarted
    ≤ Z.max (max_messages demo_cfg) (messages demo_restarted)
      + EMERGENCY_BUDGET * Z.of_nat (olen (sessions demo_restarted))
  ∧ messages demo3 ≤ Z.max (max_messages demo_cfg) 0
      + EMERGENCY_BUDGET * Z.of_nat (olen (sessions demo3)).
Proof.
  assert (config_ok demo_cfg) as Hc by (unfold config_ok; simpl; lia).
  split.
  - exact (proj1 (outbox_bounds demo_cfg (files demo3) 0 (listed <$> demo_listing) demo_restarted Hc
      demo_listed (rtc_refl _ _))).
  - exact (proj1 (outbox_bounds demo_cfg ∅ 0 [] demo3 Hc (List.Forall_nil _) demo_live)).
Defined.

(** `append` either numbers the envelope with the next number of its session and
    puts it behind the pending ones, or raises without changing what is pending, and
    it raises exactly when the feature, the size or the room is missing. *)
Theorem append_outcome cfg o now io sid type payload turn em o' r :
  outbox_ok o →
  append cfg o now io sid type payload turn em = (o', r) →
  let e := Envelope sid turn (high_water o sid + 1) type payload in
  let over := over_worker cfg o (envelope_size e)
              || over_session cfg (buffer o sid).2 (envelope_size e) in
  let emergency := em && (emergency_used (buffer o sid).2 <? EMERGENCY_BUDGET) in
  match r with
  | Ok x =>
      body x = e ∧ missing_feature o type = None ∧ envelope_size e ≤ MAX_MESSAGE_BYTES
      ∧ (over = false ∨ emergency = true)
      ∧ ∀ s, pending o' s 0 = pending o s 0 ++ (if decide (sid = s) then [x] else [])
  | Err err =>
      (∀ s, pending o' s 0 = pending o s 0 ∧ high_water o' s = high_water o s)
      ∧ messages o' = messages o ∧ total_bytes o' = total_bytes o
      ∧ match err with
        | FeatureUnsupported f => missing_feature o type = Some f
        | EnvelopeTooLarge s size =>
            missing_feature o type = None ∧ s = sid
            ∧ size = envelope_size e ∧ MAX_MESSAGE_BYTES < size
        | OutboxFull s =>
            missing_feature o type = None ∧ s = sid ∧ envelope_size e ≤ MAX_MESSAGE_BYTES
            ∧ over = true ∧ emergency = false
        end
  end.
Proof.
  intros Hok Ha. pose proof (append_inv _ _ _ _ _ _ _ _ _ _ _ Hok Ha) as Hi.
  cbv zeta in *. unfold append in Ha.
  destruct (buffer o sid) as [o0 b] eqn:Hbuf. cbn [fst snd].
  pose proof Hbuf as Hb0. apply buffer_spec in Hb0
    as (_ & _ & _ & Hiss & _ & _ & _ & Hm0 & Ht0 & _); [|done].
  rewrite Hiss in Ha. set (e := Envelope _ _ _ _ _) in *.
  set (over := over_worker cfg o _ || _) in *.
  assert (over_worker cfg o0 (envelope_size e) || over_session cfg b (envelope_size e) = over)
    as Hover by (unfold over, over_worker; by rewrite Hm0, Ht0).
  rewrite Hover in Ha.
  destruct r as [x|err].
  - destruct Hi as (Hok' & Hx & Hmf & Hsz & _ & _ & Hv). split_and!; try done.
    + rewrite Hmf in Ha. destruct (_ <? _); [done|].
      destruct over; [|by left]. right. destruct (em && _) eqn:Hem; [done|]. by rewrite ?Hem in Ha.
    + intros s. rewrite !pending_view by done. rewrite Hv.
      case_decide; [by subst|by rewrite app_nil_r].
  - destruct Hi as (Hok' & Hv & Hm & Ht). split.
    { intros s. rewrite !pending_view, Hv by done.
      split; [done|]. exact (f_equal v_high (Hv s)). }
    split; [done|]. split; [done|].
    destruct (missing_feature o type); [by simplify_eq|].
    destruct (Z.ltb_spec MAX_MESSAGE_BYTES (envelope_size e)); [by simplify_eq|].
    destruct (over && _) eqn:Hfull.
    + apply andb_true_iff in Hfull as [? ?%negb_true_iff]. by simplify_eq.
    + unfold fresh_id in Ha. destruct (spool_append _ _ _ _ _ _). by simplify_eq.
Qed.
Lemma append_outcome_witness :
  pending (demo_append demo3 7).1 7 0
  = pending demo3 7 0 ++ [Stored 3 (Envelope 7 None 3 "event" [])].
Proof.
  pose proof (append_outcome demo_cfg demo3 0 true 7 "event" [] None false _ _ demo_ok
    (demo_append_eq demo3 7)) as H.
  rewrite demo_append_result in H. destruct H as (_ & _ & _ & _ & H). exact (H 7%N).
Defined.

(** A cumulative ack (for a live session, up to its high-water mark) drops exactly
    the envelopes it covers, keeps the numbering, and leaves every other session
    alone; a second, older ack changes nothing more. *)
Theorem acked_effect cfg o sid c1 c2 io :
  outbox_ok o → is_Some (sessions o !! sid) → c1 ≤ high_water o sid → c2 ≤ c1 →
  let o1 := acked cfg o sid c1 io in
  pending o1 sid 0 = filter (λ x, c1 < seq_of x) (pending o sid 0)
  ∧ high_water o1 sid = high_water o sid ∧ acked_seq o1 sid = Z.max (acked_seq o sid) c1
  ∧ (∀ s, s ≠ sid → view_of o1 s = view_of o s)
  ∧ ∀ s, view_of (acked cfg o1 sid c2 io) s = view_of o1 s.
Proof.
  intros Hok Hs H1 H2. cbv zeta.
  destruct (acked_view cfg o sid c1 io Hok H1) as [Hok1 Hv1].
  assert (view_of (acked cfg o sid c1 io) sid = view_trim (view_of o sid) (high_water o sid) c1)
    as Hsid by (by rewrite Hv1, decide_True by done).
  pose proof (f_equal v_high Hsid) as Hh. simpl in Hh.
  split_and!.
  - by rewrite !pending_view, Hsid by done.
  - done.
  - exact (f_equal v_acked Hsid).
  - intros s Hne. rewrite Hv1. case_decide; [naive_solver|done].
  - intros s.
    destruct (acked_view cfg (acked cfg o sid c1 io) sid c2 io Hok1 ltac:(lia)) as [_ ->].
    case_decide as Hd; [|done]. destruct Hd as [<- _]. rewrite Hsid. unfold view_trim. simpl.
    rewrite Hh. f_equal; [lia|..]; apply filter_all, list.Forall_forall;
      intros x [Hx _]%list_elem_of_filter; lia.
Qed.
Lemma demo_live_session : is_Some (sessions demo3 !! 7%N).
Proof.
  assert (bool_decide (is_Some (sessions demo3 !! 7%N)) = true) as H by (vm_compute; reflexivity).
  by apply bool_decide_eq_true in H.
Qed.
Lemma demo_high3 : 2 ≤ high_water demo3 7.
Proof. apply Z.leb_le. vm_compute. reflexivity. Qed.
Lemma acked_effect_witness : high_water (acked demo_cfg demo3 7 2 true) 7 = high_water demo3 7.
Proof.
  assert (1 ≤ 2) as H by lia.
  exact (proj1 (proj2 (acked_effect demo_cfg demo3 7 2 1 true
    demo_ok demo_live_session demo_high3 H))).
Defined.

(** After a reconnect the sender finds exactly the unacked envelopes of a session,
    oldest first, sends each once, and then has nothing left to send for it. *)
Theorem replay_complete o sid :
  outbox_ok o →
  let o1 := (begin_connection o).1 in
  let n := length (pending o sid 0) in
  (pump n o1 sid).2 = pending o sid 0
  ∧ next_unsent (pump n o1 sid).1 sid = None
  ∧ pending (pump n o1 sid).1 sid 0 = pending o sid 0
  ∧ ∀ s, s ≠ sid → view_of (pump n o1 sid).1 s = view_of o1 s.
Proof.
  intros Hok. cbv zeta. rewrite (pending_view o sid Hok).
  destruct (begin_connection_view o Hok) as [Hok1 Hv1].
  assert (v_unsent (view_of (begin_connection o).1 sid) = v_pending (view_of o sid)) as Hun
    by by rewrite Hv1.
  destruct (pump_view (length (v_pending (view_of o sid))) _ sid Hok1) as (Hok2 & Hx & Hv2);
    [by rewrite Hun|].
  split_and!.
  - by rewrite Hx.
  - by rewrite next_unsent_view, Hv2, decide_True.
  - rewrite pending_view, Hv2, decide_True, Hv1 by done. done.
  - intros s Hne. by rewrite Hv2, decide_False.
Qed.
Lemma replay_complete_witness :
  (pump (length (pending demo3 7 0)) (begin_connection demo3).1 7).2 = pending demo3 7 0.
Proof. exact (proj1 (replay_complete demo3 7 demo_ok)). Defined.

(** *** The remembered floors *)

Lemma lset_fresh {V} (l : list (uuid * V)) k v : k ∉ l.*1 → lset l k v = l ++ [(k, v)].
Proof.
  induction l as [|[k0 v0] l IH]; simpl; [done|]. intros Hk.
  rewrite not_elem_of_cons in Hk. destruct Hk as [Hne Hk].
  rewrite decide_False by done. by rewrite IH.
Qed.

Lemma lget_snoc {V} (l : list (uuid * V)) k v : k ∉ l.*1 → lget (l ++ [(k, v)]) k = Some v.
Proof.
  induction l as [|[k0 v0] l IH]; simpl; [by rewrite decide_True|]. intros Hk.
  rewrite not_elem_of_cons in Hk. destruct Hk as [Hne Hk]. rewrite decide_False by done. auto.
Qed.

Definition moved_floors (fl : odict uuid Z) (sid : uuid) (z : Z) : odict uuid Z :=
  <[sid:=z]> (delete sid fl).

Lemma moved_floors_items fl sid z :
  oitems (moved_floors fl sid z) = ldel (oitems fl) sid ++ [(sid, z)].
Proof. apply lset_fresh. rewrite ldel_keys. naive_solver. Qed.

Lemma evict_floors_last fl sid z :
  ODict (evict_floors (oitems (moved_floors fl sid z))) !! sid = Some z.
Proof.
  unfold lookup, odict_lookup. cbn [oitems]. rewrite moved_floors_items. unfold evict_floors.
  rewrite length_app. cbn [length]. set (l := ldel (oitems fl) sid).
  rewrite drop_app_le by (unfold FLOOR_LIMIT; lia). apply lget_snoc.
  intros Hin. assert (sid ∈ l.*1) as Hl.
  { rewrite <- (take_drop (length l + 1 - Z.to_nat FLOOR_LIMIT) l), fmap_app.
    apply elem_of_app. by right. }
  apply ldel_keys in Hl. naive_solver.
Qed.

Lemma ldel_length {V} (l : list (uuid * V)) k : (length (ldel l k) ≤ length l)%nat.
Proof. induction l as [|[k0 v0] l IH]; simpl; [lia|]. case_decide; simpl; lia. Qed.

Lemma evict_floors_small fl sid z :
  Z.of_nat (olen fl) < FLOOR_LIMIT →
  ODict (evict_floors (oitems (moved_floors fl sid z))) = moved_floors fl sid z.
Proof.
  intros Hl. unfold evict_floors. rewrite moved_floors_items, length_app. cbn [length].
  pose proof (ldel_length (oitems fl) sid). unfold olen in Hl.
  replace (_ - _)%nat with 0%nat by lia. rewrite drop_0, <- moved_floors_items.
  by destruct (moved_floors fl sid z).
Qed.

Lemma floor_reads o sid z :
  sessions o !! sid = None → floors o !! sid = Some z →
  high_water o sid = z ∧ issued (buffer o sid).2 = z.
Proof. unfold high_water, buffer. intros Hs Hf. rewrite Hs, Hf. simpl. by rewrite Hf. Qed.

(** releasing a drained session forgets its buffer but not its numbering: the next
    envelope continues after the last issued one, and the floors of the other
    sessions survive while fewer than [FLOOR_LIMIT] are remembered. *)
Theorem release_remembers cfg o sid io :
  outbox_ok o → is_Some (sessions o !! sid) → pending o sid 0 = [] →
  let o1 := release cfg o sid io in
  sessions o1 !! sid = None
  ∧ high_water o1 sid = high_water o sid
  ∧ (buffer o1 sid).2.(issued) = high_water o sid
  ∧ (Z.of_nat (olen (floors o)) < FLOOR_LIMIT →
     ∀ s, s ≠ sid → high_water o1 s = high_water o s).
Proof.
  intros Hok [b Hs] Hp. cbv zeta. rewrite pending_view in Hp by done. simpl in Hp.
  rewrite Hs in Hp. simpl in Hp.
  pose proof (release_ok cfg o sid io Hok) as Hok1. revert Hok1. unfold release. rewrite Hs.
  rewrite decide_False by (by rewrite Hp; intros H). cbv zeta.
  fold (moved_floors (floors o) sid (issued b)). set (o1 := set_floors _ _). intros Hok1.
  assert (∀ o2, sessions o2 = sessions o1 → floors o2 = floors o1 →
    sessions o2 !! sid = None ∧ floors o2 !! sid = Some (issued b)
    ∧ (Z.of_nat (olen (floors o)) < FLOOR_LIMIT →
       ∀ s, s ≠ sid → high_water o2 s = high_water o s)) as Hmain.
  { intros o2 Hs2 Hf2.
    change (sessions o1) with (delete sid (sessions o)) in Hs2.
    change (floors o1)
      with (ODict (evict_floors (oitems (moved_floors (floors o) sid (issued b))))) in Hf2.
    rewrite Hs2, Hf2. split; [apply olookup_delete_eq|].
    split; [apply evict_floors_last|]. intros Hlim s Hne.
    unfold high_water. rewrite Hs2, Hf2, olookup_delete_ne by done.
    destruct (sessions o !! s); [done|].
    rewrite evict_floors_small by done. unfold moved_floors.
    by rewrite olookup_insert_ne, olookup_delete_ne. }
  assert (high_water o sid = issued b) as -> by (unfold high_water; by rewrite Hs).
  destruct (spooled b =? 0); [|destruct (remove_spool_parts cfg o1 sid io) as (Hrs & Hrf & _)].
  - destruct (Hmain o1) as (H1 & H2 & H3); [done|done|].
    by destruct (floor_reads _ _ _ H1 H2) as [-> ->].
  - destruct (Hmain (remove_spool cfg o1 sid io)) as (H1 & H2 & H3); [done|done|].
    by destruct (floor_reads _ _ _ H1 H2) as [-> ->].
Qed.
Definition demo4 : outbox := acked demo_cfg demo3 7 2 true.
Lemma demo4_ok : outbox_ok demo4.
Proof. exact (proj1 (acked_view demo_cfg demo3 7 2 true demo_ok demo_high3)). Qed.
Lemma demo4_live_session : is_Some (sessions demo4 !! 7%N).
Proof.
  assert (bool_decide (is_Some (sessions demo4 !! 7%N)) = true) as H by (vm_compute; reflexivity).
  by apply bool_decide_eq_true in H.
Qed.
Lemma demo4_drained : pending demo4 7 0 = [].
Proof. vm_compute. reflexivity. Qed.
Lemma release_remembers_witness :
  (buffer (release demo_cfg demo4 7 true) 7).2.(issued) = high_water demo4 7.
Proof.
  exact (proj1 (proj2 (proj2 (release_remembers demo_cfg demo4 7 true
    demo4_ok demo4_live_session demo4_drained)))).
Defined.

(** C14: with a working spool, a worker that dies and restarts finds in its files
    exactly the envelopes it had not seen acked: once a lease tells it the API's
    cursor, the same envelopes above it are pending again, with the same numbers. *)
Theorem restart_recovers cfg o listing now sid c io :
  spool_on cfg = true → rtc (spool_step cfg) (init_outbox ∅) o → disk_listing o listing →
  acked_seq o sid ≤ c ≤ high_water o sid →
  let o1 := (load_spool now (listed <$> listing) (init_outbox (files o)) ∅).1 in
  let o2 := set_base cfg o1 sid c io in
  (body <$> pending o2 sid 0) = filter (λ e, c < env_seq e) (body <$> pending o sid 0)
  ∧ acked_seq o2 sid = c ∧ high_water o2 sid = high_water o sid.
Proof.
  intros Hon Hr Hl Hc. destruct (spool_reach cfg o Hon Hr) as [Hok Hsp]. cbv zeta.
  destruct (restart_loaded now o listing sid Hsp Hl) as [Hld _].
  destruct (spool_ok_file o sid Hsp) as (_ & Hinc & dl & Hfile & Hdl & _).
  pose proof (restart_ok now o listing Hok Hsp Hl) as Hok1.
  destruct (set_base_loaded cfg _ sid _ c io Hok1 Hld) as (-> & -> & ->).
  pose proof (view_of_ok o sid Hok) as Hv. pose proof (vo_acked _ _ Hv) as Ha. simpl in Ha.
  rewrite pending_view by done. split_and!.
  - rewrite Hfile, list.filter_app, filter_none; [done|].
    eapply list.Forall_impl; [done|]. simpl. lia.
  - lia.
  - pose proof (vo_last _ _ Hv) as Hlast. simpl in Hlast.
    rewrite Hfile. simpl. rewrite fmap_app, fmap_seqs.
    pose proof (increasing_last_ge _ _ (vo_incr _ _ Hv)) as Hge.
    destruct (list.last (seqs _)) as [z|] eqn:Hz; simpl in *.
    + rewrite last_app, Hz. simpl. lia.
    + apply last_None in Hz. simpl in Hz. rewrite Hz, app_nil_r.
      destruct (list.last (env_seq <$> dl)) as [z|] eqn:Hd; simpl; [|lia].
      apply last_Some_elem_of, list_elem_of_fmap in Hd as (e & -> & Hin).
      apply (proj1 (list.Forall_forall _ _) Hdl) in Hin. lia.
Qed.
Definition demo_files : list (uuid * list spool_line) :=
  [(7%N, [LEnv (Envelope 7 None 1 "event" []); LEnv (Envelope 7 None 2 "event" [])])].
Lemma demo_files_eq : files demo3 = list_to_map demo_files.
Proof. vm_compute. reflexivity. Qed.
Lemma demo_disk_listing : disk_listing demo3 demo_files.
Proof.
  split; [apply NoDup_singleton|]. intros sid lines. rewrite demo_files_eq. split.
  - intros H. by apply elem_of_list_to_map_1 in H; [|apply NoDup_singleton].
  - apply elem_of_list_to_map_2.
Qed.
Lemma demo_cursor : acked_seq demo3 7 ≤ 1 ≤ high_water demo3 7.
Proof.
  assert ((acked_seq demo3 7 <=? 1) && (1 <=? high_water demo3 7) = true) as H
    by (vm_compute; reflexivity).
  bool_props. lia.
Qed.
Lemma restart_recovers_witness :
  acked_seq (set_base demo_cfg
    (load_spool 9 (listed <$> demo_files) (init_outbox (files demo3)) ∅).1 7 1 true) 7 = 1.
Proof.
  exact (proj1 (proj2 (restart_recovers demo_cfg demo3 demo_files 9 7 1 true
    eq_refl demo_reach demo_disk_listing demo_cursor))).
Defined.

(** a compaction loses nothing, whatever appends, acks, leases and sends run while
    its thread writes the snapshot: afterwards the file still holds acked lines
    followed by exactly the pending envelopes, also of the sessions it was not about. *)
Theorem compaction_safe cfg o sid b snap o' io :
  spool_on cfg = true → rtc (spool_step cfg) (init_outbox ∅) o →
  sessions o !! sid = Some b → compact_begin cfg b = Some snap →
  rtc (spool_step cfg) o o' →
  let o2 := compact_finish o' sid (bid b) snap io in
  ∀ s, ∃ dl, lines_of o2 s = LEnv <$> dl ++ (body <$> pending o2 s 0)
             ∧ Forall (λ e, env_seq e ≤ acked_seq o2 s) dl
             ∧ pending o2 s 0 = pending o' s 0.
Proof.
  intros Hon Hr Hs Hsnap Hrun. destruct (spool_reach cfg o Hon Hr) as [Hok Hsp].
  assert (bid b < next_id o)%N as Hid.
  { eapply (spool_steps_ids cfg (init_outbox ∅)); [done|apply init_outbox_ok|done|done]. }
  assert (snap_ok sid (bid b) snap o) as Hsn.
  { split; [done|]. intros b0 Hb0 _. simplify_eq. unfold compact_begin in Hsnap.
    case_match; [|done]. simplify_eq. apply snap_rel_start. by eapply po_buffers. }
  destruct (spool_steps_inv cfg _ _ _ _ _ Hon Hrun Hok Hsp Hsn) as (Hok' & Hsp' & Hsn').
  pose proof (compact_finish_spool _ _ _ _ io Hok' Hsp' Hsn') as Hsp2.
  pose proof (compact_finish_ok o' sid (bid b) snap io Hok') as Hok2. cbv zeta. intros s.
  destruct (spool_ok_file _ s Hsp2) as (Hl & _ & dl & He & Hdl & _). exists dl.
  rewrite (pending_view _ _ Hok2), (pending_view _ _ Hok'). split_and!; [by rewrite Hl, He|done|].
  unfold view_of, compact_finish. simpl. destruct (sessions o' !! sid) as [b'|] eqn:Hb'; [|done].
  case_match; [|done]. simpl. rewrite olookup_insert. destruct (decide (sid = s)) as [->|]; [|done]. by rewrite Hb'.
Qed.
Definition demo_buffer : session_buffer := default (SessionBuffer 0 0 0 [] [] 0 0 0 [] 0 0) (sessions demo2 !! 7%N).
Lemma demo_buffer_eq : sessions demo2 !! 7%N = Some demo_buffer.
Proof. vm_compute. reflexivity. Qed.
Lemma demo_compact_begin : compact_begin demo_cfg demo_buffer = Some (envelopes demo_buffer).
Proof. vm_compute. reflexivity. Qed.
Lemma demo_reach2 : rtc (spool_step demo_cfg) demo0 demo2.
Proof.
  apply (rtc_l _ _ demo1); [exact (demo_append_step demo0 7)|].
  apply rtc_once. exact (demo_append_step demo1 7).
Qed.
Lemma demo_acked_run : rtc (spool_step demo_cfg) demo2 demo3.
Proof. apply rtc_once. exact (sp_acked demo_cfg demo2 7 1 demo_high). Qed.
Lemma compaction_safe_witness :
  ∃ dl, lines_of (compact_finish demo3 7 (bid demo_buffer) (envelopes demo_buffer) true) 7
        = LEnv <$> dl ++ (body <$>
            pending (compact_finish demo3 7 (bid demo_buffer) (envelopes demo_buffer) true) 7 0).
Proof.
  destruct (compaction_safe demo_cfg demo2 7 demo_buffer _ demo3 true eq_refl demo_reach2
    demo_buffer_eq demo_compact_begin demo_acked_run 7%N) as (dl & H & _).
  exact (ex_intro _ dl H).
Defined.
