(* ===== verification/CommandQueue.v ===== *)
(** * Unacked commands (src/src/apipi/workerhub/command_queue.py)

    The frames sent to workers and not acked yet, kept per lease in send order.
    An entry is an object that several holders share, so it carries the number of
    the object ([p_ref]); `entry in queue` and `queue.remove(entry)` compare by
    identity first and by fields after that, as a dataclass does.  Two frames are
    compared by their text. *)

From S2P Require Import Prelude PyStd Protocol.

Open Scope Z_scope.

Definition MAX_PENDING_PER_LEASE : nat := 16.

Record pending_command : Type := Pending {
  p_ref : N;
  p_wire : list (string * json);
  p_lease : uuid;
  p_session : uuid;
  p_worker : option uuid;
  p_created : Z;
  p_sent : option Z;
  p_sends : Z
}.

(** `str(wire.get(key))` *)
Definition str_get (wire : list (string * json)) (key : string) : string :=
  py_str (default JNull (jget key wire)).
Definition command_id (e : pending_command) : string := str_get (p_wire e) "id".
Definition op (e : pending_command) : string := str_get (p_wire e) "op".

Record command_queue : Type := CQ {
  by_lease : odict uuid (list pending_command);
  cq_turns : odict uuid Z;
  next_ref : N
}.
Definition empty_queue : command_queue := CQ ∅ ∅ 0.

Inductive push_error : Set := CommandQueueFull (lease : uuid) | BadWire.

(** `uuid.UUID(str(wire[key]))` *)
Definition wire_uuid (wire : list (string * json)) (key : string) : option uuid :=
  j ← jget key wire; uuid_of_string (py_str j).

Definition queue_of (q : command_queue) (lease : uuid) : list pending_command :=
  default [] (by_lease q !! lease).

Definition put_queue (q : command_queue) (lease : uuid) (l : list pending_command) : command_queue :=
  CQ (<[lease := l]> (by_lease q)) (cq_turns q) (next_ref q).

Definition push (q : command_queue) (now : Z) (wire : list (string * json)) (worker : option uuid)
    : command_queue * res push_error pending_command :=
  match wire_uuid wire "lease_id" with
  | None => (q, Err BadWire)
  | Some lease =>
      let queue := queue_of q lease in
      (* `setdefault` stores the empty list before the checks *)
      let q := put_queue q lease queue in
      if decide (MAX_PENDING_PER_LEASE ≤ length queue)%nat then (q, Err (CommandQueueFull lease))
      else
        match wire_uuid wire "session_id" with
        | None => (q, Err BadWire)
        | Some session =>
            let e := Pending (next_ref q) wire lease session worker now None 0 in
            let turns := if decide (op e ∈ CURSOR_OPS)
                         then <[lease := default 0 (cq_turns q !! lease) + 1]> (cq_turns q)
                         else cq_turns q in
            (CQ (<[lease := queue ++ [e]]> (by_lease q)) turns (next_ref q + 1)%N, Ok e)
        end
  end.

Definition turns (q : command_queue) (lease : uuid) : Z := default 0 (cq_turns q !! lease).

Definition has_id (id : string) (e : pending_command) : bool := bool_decide (command_id e = id).
Definition get (q : command_queue) (lease : uuid) (id : string) : option pending_command :=
  head (filter (λ e, has_id id e = true) (queue_of q lease)).

(** `entry == item` of the dataclass, after the identity test of `in`. *)
Definition same_entry (a b : pending_command) : bool :=
  bool_decide (p_ref a = p_ref b)
  || (bool_decide (dumps false (JObj (p_wire a)) = dumps false (JObj (p_wire b)))
      && bool_decide (p_lease a = p_lease b) && bool_decide (p_session a = p_session b)
      && bool_decide (p_worker a = p_worker b) && bool_decide (p_created a = p_created b)
      && bool_decide (p_sent a = p_sent b) && bool_decide (p_sends a = p_sends b)).
(** `list.remove`: the first equal element. *)
Fixpoint remove_first (e : pending_command) (l : list pending_command) : list pending_command :=
  match l with
  | [] => []
  | x :: l => if same_entry e x then l else x :: remove_first e l
  end.

Definition discard (q : command_queue) (e : pending_command) : command_queue :=
  match by_lease q !! p_lease e with
  | None => q
  | Some queue =>
      match remove_first e queue with
      | [] => CQ (delete (p_lease e) (by_lease q)) (cq_turns q) (next_ref q)
      | l => put_queue q (p_lease e) l
      end
  end.

Definition ack (q : command_queue) (lease : uuid) (id : string)
    : command_queue * option pending_command :=
  match get q lease id with
  | None => (q, None)
  | Some e => (discard q e, Some e)
  end.

Definition has_lease (q : command_queue) (lease : uuid) : bool :=
  bool_decide (queue_of q lease ≠ []).

Definition forget_turns (q : command_queue) (lease : uuid) : command_queue :=
  if has_lease q lease then q else CQ (by_lease q) (delete lease (cq_turns q)) (next_ref q).

Definition drop_lease (q : command_queue) (lease : uuid) : command_queue * list pending_command :=
  (CQ (delete lease (by_lease q)) (delete lease (cq_turns q)) (next_ref q), queue_of q lease).

Definition for_lease (q : command_queue) (lease : uuid) : list pending_command := queue_of q lease.
Definition leases (q : command_queue) : list uuid := okeys (by_lease q).

(** `__iter__` *)
Definition all_entries (q : command_queue) : list pending_command := mjoin (ovals (by_lease q)).
(** `__len__` *)
Definition pending_count (q : command_queue) : nat := length (all_entries q).
Definition for_worker (q : command_queue) (worker : uuid) : list pending_command :=
  filter (λ e, p_worker e = Some worker) (all_entries q).

(** An attribute of the entry object [ref] assigned: the object in the queue changes. *)
Definition set_sent (now : Z) (e : pending_command) : pending_command :=
  Pending (p_ref e) (p_wire e) (p_lease e) (p_session e) (p_worker e) (p_created e)
    (Some now) (p_sends e + 1).
Definition set_wire (wire : list (string * json)) (e : pending_command) : pending_command :=
  Pending (p_ref e) wire (p_lease e) (p_session e) (p_worker e) (p_created e) (p_sent e) (p_sends e).
Definition at_ref (ref : N) (f : pending_command → pending_command) (e : pending_command)
    : pending_command := if decide (p_ref e = ref) then f e else e.
Definition update_entry (q : command_queue) (ref : N) (f : pending_command → pending_command)
    : command_queue :=
  CQ (ODict (prod_map id (fmap (M:=list) (at_ref ref f)) <$> oitems (by_lease q)))
    (cq_turns q) (next_ref q).
Definition mark_sent (q : command_queue) (now : Z) (ref : N) : command_queue :=
  update_entry q ref (set_sent now).

Definition is_due (now interval : Z) (e : pending_command) : bool :=
  match p_sent e with Some t => interval <=? now - t | None => false end.
Definition due (q : command_queue) (now interval : Z) : list pending_command :=
  filter (λ e, is_due now interval e = true) (all_entries q).
Definition is_old (now ttl : Z) (e : pending_command) : bool := ttl <=? now - p_created e.
Definition expired (q : command_queue) (now ttl : Z) : list pending_command :=
  filter (λ e, is_old now ttl e = true) (all_entries q).

(** ** The contract: one list of pending commands, in send order

    What a caller may rely on: the queue behaves like a single list to which
    `push` appends and from which acks and discards remove one element and the end
    of a lease removes its elements; a lease sees its part of the list. *)

Inductive cq_op : Type :=
| DoPush (now : Z) (wire : list (string * json)) (worker : option uuid)
| DoAck (lease : uuid) (id : string)
| DoDiscard (e : pending_command)
| DoDrop (lease : uuid)
| DoForget (lease : uuid)
| DoSent (now : Z) (ref : N)
| DoWire (ref : N) (wire : list (string * json)).

Definition run_op (q : command_queue) (o : cq_op) : command_queue :=
  match o with
  | DoPush now wire worker => (push q now wire worker).1
  | DoAck lease id => (ack q lease id).1
  | DoDiscard e => discard q e
  | DoDrop lease => (drop_lease q lease).1
  | DoForget lease => forget_turns q lease
  | DoSent now ref => mark_sent q now ref
  | DoWire ref wire => update_entry q ref (set_wire wire)
  end.

Fixpoint remove_when (P : pending_command → bool) (l : list pending_command) : list pending_command :=
  match l with
  | [] => []
  | x :: l => if P x then l else x :: remove_when P l
  end.

Definition of_lease (lease : uuid) (l : list pending_command) : list pending_command :=
  filter (λ e, p_lease e = lease) l.

(** The list and the number of the next entry. *)
Definition spec_op (s : list pending_command * N) (o : cq_op) : list pending_command * N :=
  let '(l, n) := s in
  match o with
  | DoPush now wire worker =>
      match wire_uuid wire "lease_id", wire_uuid wire "session_id" with
      | Some lease, Some session =>
          if decide (length (of_lease lease l) < MAX_PENDING_PER_LEASE)%nat
          then (l ++ [Pending n wire lease session worker now None 0], (n + 1)%N)
          else (l, n)
      | _, _ => (l, n)
      end
  | DoAck lease id =>
      match head (filter (λ e, p_lease e = lease ∧ has_id id e = true) l) with
      | Some e => (remove_when (λ x, bool_decide (p_lease x = lease) && same_entry e x) l, n)
      | None => (l, n)
      end
  | DoDiscard e => (remove_when (λ x, bool_decide (p_lease x = p_lease e) && same_entry e x) l, n)
  | DoDrop lease => (filter (λ e, p_lease e ≠ lease) l, n)
  | DoForget _ => (l, n)
  | DoSent now ref => (at_ref ref (set_sent now) <$> l, n)
  | DoWire ref wire => (at_ref ref (set_wire wire) <$> l, n)
  end.

(** ** Lemmas *)

Definition leased_under (q : command_queue) (s : list pending_command * N) : Prop :=
  odict_ok (by_lease q) ∧ next_ref q = s.2 ∧ ∀ lease, queue_of q lease = of_lease lease s.1.

Lemma elem_of_of_lease e lease l : e ∈ of_lease lease l ↔ p_lease e = lease ∧ e ∈ l.
Proof. unfold of_lease. by rewrite list_elem_of_filter. Qed.

Lemma queue_of_put q lease l lease' :
  queue_of (put_queue q lease l) lease' = if decide (lease = lease') then l else queue_of q lease'.
Proof. unfold queue_of, put_queue. cbn [by_lease]. rewrite olookup_insert. by case_decide. Qed.

Lemma of_lease_remove lease e l :
  of_lease lease (remove_when (λ x, bool_decide (p_lease x = lease) && same_entry e x) l)
  = remove_first e (of_lease lease l).
Proof.
  induction l as [|x l IH]; [done|]. cbn [remove_when]. unfold of_lease in *.
  rewrite (filter_cons _ x l). destruct (decide (p_lease x = lease)) as [Hx|Hx].
  - rewrite bool_decide_true by done. cbn [andb remove_first].
    destruct (same_entry e x); [done|]. by rewrite filter_cons, decide_True, IH.
  - rewrite bool_decide_false by done. cbn [andb]. by rewrite filter_cons, decide_False, IH.
Qed.
Lemma of_lease_remove_ne lease lease' (P : pending_command → bool) l :
  lease ≠ lease' →
  of_lease lease' (remove_when (λ x, bool_decide (p_lease x = lease) && P x) l) = of_lease lease' l.
Proof.
  intros Hne. induction l as [|x l IH]; [done|]. cbn [remove_when]. unfold of_lease in *.
  destruct (decide (p_lease x = lease)) as [Hx|Hx].
  - rewrite bool_decide_true by done. cbn [andb].
    destruct (P x); rewrite !filter_cons, ?IH, !(decide_False (P:=p_lease x = lease')) by congruence; done.
  - rewrite bool_decide_false by done. cbn [andb]. by rewrite !filter_cons, IH.
Qed.
Lemma remove_when_none (P : pending_command → bool) l :
  Forall (λ x, P x = false) l → remove_when P l = l.
Proof. induction 1 as [|x l Hx _ IH]; [done|]. cbn. by rewrite Hx, IH. Qed.
Lemma of_lease_nil lease l :
  of_lease lease l = [] → ∀ P, Forall (λ x, bool_decide (p_lease x = lease) && P x = false) l.
Proof.
  intros Hl P. apply list.Forall_forall. intros x Hx. apply andb_false_iff. left.
  apply bool_decide_eq_false. intros Hlease. eapply (not_elem_of_nil x). rewrite <- Hl.
  by apply elem_of_of_lease.
Qed.
Lemma of_lease_fmap lease f l :
  (∀ e, p_lease (f e) = p_lease e) → of_lease lease (f <$> l) = f <$> of_lease lease l.
Proof.
  intros Hf. unfold of_lease. induction l as [|x l IH]; [done|]. csimpl.
  rewrite !filter_cons, IH, Hf. by case_decide.
Qed.
Lemma lget_fmap {V W} (g : V → W) (l : list (uuid * V)) k :
  lget (prod_map id g <$> l) k = g <$> lget l k.
Proof. induction l as [|[k' v] l IH]; [done|]. csimpl. unfold id at 1. by case_decide. Qed.
Lemma fmap_keys {V W} (g : V → W) (l : list (uuid * V)) :
  (prod_map id g <$> l).*1 = l.*1.
Proof. induction l as [|[k v] l IH]; [done|]. csimpl. by rewrite IH. Qed.
Lemma filter_head {A} (P Q : A → Prop) `{∀ x, Decision (P x), ∀ x, Decision (Q x)} (l : list A) :
  head (filter (λ x, P x ∧ Q x) l) = head (filter Q (filter P l)).
Proof.
  induction l as [|x l IH]; [done|]. rewrite !filter_cons.
  destruct (decide (P x)); [|by rewrite decide_False by tauto].
  rewrite (filter_cons Q x). destruct (decide (Q x)); [by rewrite decide_True|].
  by rewrite decide_False by tauto.
Qed.

Lemma discard_ok q s e : leased_under q s →
  leased_under (discard q e)
    (remove_when (λ x, bool_decide (p_lease x = p_lease e) && same_entry e x) s.1, s.2).
Proof.
  intros (Hok & Hn & Hq). unfold discard. pose proof (Hq (p_lease e)) as He.
  unfold queue_of in He at 1. destruct (by_lease q !! p_lease e) as [queue|] eqn:E; cbn [default] in He.
  - assert (∀ l, remove_first e queue = l → queue_of (put_queue q (p_lease e) l) (p_lease e)
      = of_lease (p_lease e) (remove_when (λ x, bool_decide (p_lease x = p_lease e) && same_entry e x) s.1)) as Hput.
    { intros l Hl. rewrite queue_of_put, decide_True, of_lease_remove by done. subst.
      unfold id in *. by rewrite He. }
    assert (∀ lease l, p_lease e ≠ lease → queue_of (put_queue q (p_lease e) l) lease
      = of_lease lease (remove_when (λ x, bool_decide (p_lease x = p_lease e) && same_entry e x) s.1)) as Hne.
    { intros lease l Hl. by rewrite queue_of_put, decide_False, of_lease_remove_ne, Hq by done. }
    destruct (remove_first e queue) as [|x l] eqn:Er.
    + split_and!; [by apply odict_ok_delete|done|]. intros lease. cbn [fst].
      destruct (decide (p_lease e = lease)) as [<-|Hl].
      * rewrite <- (Hput []) by done. rewrite queue_of_put, decide_True by done.
        unfold queue_of at 1. cbn [by_lease]. by rewrite olookup_delete_eq.
      * rewrite <- (Hne lease []) by done. rewrite queue_of_put, decide_False by done.
        unfold queue_of at 1. cbn [by_lease]. by rewrite olookup_delete_ne.
    + split_and!; [by apply odict_ok_insert|done|]. intros lease.
      destruct (decide (p_lease e = lease)) as [<-|Hl]; [by apply Hput|by apply Hne].
  - cbn in He. rewrite remove_when_none by (apply of_lease_nil; done).
    split_and!; [done|done|]. cbn [fst]. apply Hq.
Qed.

Lemma update_entry_ok q s ref f : (∀ e, p_lease (f e) = p_lease e) →
  leased_under q s → leased_under (update_entry q ref f) (at_ref ref f <$> s.1, s.2).
Proof.
  intros Hf (Hok & Hn & Hq). split_and!; [|done|].
  - unfold odict_ok, okeys, update_entry in *. cbn [by_lease oitems]. by rewrite fmap_keys.
  - intros lease. cbn [fst]. rewrite of_lease_fmap.
    + rewrite <- Hq. unfold queue_of, update_entry, lookup, odict_lookup. cbn [by_lease oitems].
      rewrite lget_fmap. by destruct (lget _ _).
    + intros e. unfold at_ref. by case_decide.
Qed.

Lemma run_op_ok q s o : leased_under q s → leased_under (run_op q o) (spec_op s o).
Proof.
  intros Hqs. pose proof Hqs as (Hok & Hn & Hq). destruct s as [l n]. cbn [fst snd] in *. subst n.
  destruct o as [now wire worker|lease id|e|lease|lease|now ref|ref wire]; cbn [run_op spec_op].
  - unfold push. destruct (wire_uuid wire "lease_id") as [lease|]; [|done].
    rewrite <- (Hq lease). set (q0 := put_queue q lease (queue_of q lease)).
    assert (leased_under q0 (l, next_ref q)) as H0.
    { split_and!; [by apply odict_ok_insert|done|]. intros lease'. unfold q0.
      rewrite queue_of_put. destruct (decide (lease = lease')) as [->|]; apply Hq. }
    destruct (decide (_ ≤ _)%nat) as [Hle|Hle]; cbn [fst].
    { destruct (wire_uuid wire "session_id"); [|done]. rewrite decide_False by lia. done. }
    destruct (wire_uuid wire "session_id") as [session|]; [|done]. cbn [fst].
    destruct (decide (_ < _)%nat); [|lia]. split_and!; [apply odict_ok_insert, H0|done|].
    intros lease'. unfold queue_of at 1. cbn [by_lease]. rewrite olookup_insert.
    unfold of_lease. cbn [fst]. rewrite list.filter_app, filter_cons. cbn [p_lease].
    destruct (decide (lease = lease')) as [<-|Hne]; cbn [default].
    + rewrite Hq. done.
    + change (default [] (by_lease q0 !! lease')) with (queue_of q0 lease').
      rewrite (proj2 (proj2 H0)). cbn [fst]. unfold of_lease. by rewrite app_nil_r.
  - unfold ack, get. rewrite Hq. unfold of_lease. rewrite filter_head.
    destruct (head _) as [e|] eqn:E; [|done]. cbn [fst].
    apply head_Some_elem_of, list_elem_of_filter in E as [_ E].
    apply elem_of_of_lease in E as [<- E]. by apply (discard_ok q (l, next_ref q)).
  - by apply (discard_ok q (l, next_ref q)).
  - split_and!; [by apply odict_ok_delete|done|]. intros lease'. cbn [fst].
    unfold queue_of, drop_lease. cbn [fst by_lease]. rewrite olookup_delete. unfold of_lease.
    rewrite list_filter_filter. destruct (decide (lease = lease')) as [<-|Hne].
    + cbn. symmetry. apply filter_none, Forall_true. tauto.
    + change (default [] (by_lease q !! lease')) with (queue_of q lease'). rewrite Hq.
      unfold of_lease. apply list_filter_iff. intros x. naive_solver congruence.
  - unfold forget_turns. by destruct (has_lease q lease).
  - by apply (update_entry_ok q (l, next_ref q)).
  - by apply (update_entry_ok q (l, next_ref q)).
Qed.

Lemma run_ops_ok ops q s :
  leased_under q s → leased_under (foldl run_op q ops) (foldl spec_op s ops).
Proof.
  revert q s. induction ops as [|o ops IH]; intros q s H; [done|]. cbn. by apply IH, run_op_ok.
Qed.

(** for any history of the queue (pushes, acks, discards, ends of leases, sends,
    rewritten frames), what is pending on a lease is exactly that lease's part of
    one list to which the accepted pushes append and from which the acks, discards
    and ends of leases remove: nothing is lost, nothing is kept twice, no lease
    sees another's commands, and the order is the order of the pushes. *)
Theorem commands_fifo (ops : list cq_op) (lease : uuid) :
  for_lease (foldl run_op empty_queue ops) lease
  = of_lease lease (foldl spec_op ([], 0%N) ops).1.
Proof. apply (run_ops_ok ops empty_queue ([], 0%N)). split_and!; [apply odict_ok_empty|done|done]. Qed.

(** *** Bounds of the contract's list *)

Definition spec_bounded (s : list pending_command * N) : Prop :=
  NoDup (p_ref <$> s.1)
  ∧ Forall (λ e, (p_ref e < s.2)%N ∧ 0 ≤ p_sends e ∧ (p_sends e = 0 ↔ p_sent e = None)) s.1
  ∧ ∀ lease, (length (of_lease lease s.1) ≤ MAX_PENDING_PER_LEASE)%nat.

Lemma remove_when_sublist P l : remove_when P l `sublist_of` l.
Proof.
  induction l as [|x l IH]; [done|]. cbn. destruct (P x); [by apply sublist_cons|by apply sublist_skip].
Qed.
Lemma filter_sublist (P : pending_command → Prop) `{∀ x, Decision (P x)} l l' :
  l' `sublist_of` l → filter P l' `sublist_of` filter P l.
Proof.
  induction 1 as [|x l1 l2 _ IH|x l1 l2 _ IH]; [done| |]; rewrite !filter_cons; case_decide.
  - by apply sublist_skip.
  - done.
  - by apply sublist_cons.
  - done.
Qed.
Lemma spec_bounded_sublist l l' n : l' `sublist_of` l → spec_bounded (l, n) → spec_bounded (l', n).
Proof.
  intros Hs (Hnd & Hall & Hlen). split_and!; cbn [fst snd] in *.
  - eapply sublist_NoDup; [exact Hnd|]. by apply fmap_sublist.
  - apply list.Forall_forall. intros e He. rewrite list.Forall_forall in Hall.
    apply Hall. by eapply sublist_subseteq.
  - intros lease. etrans; [|apply (Hlen lease)]. by apply sublist_length, filter_sublist.
Qed.
Lemma spec_bounded_fmap l n ref f :
  (∀ e, p_ref (f e) = p_ref e ∧ p_lease (f e) = p_lease e) →
  (∀ e, 0 ≤ p_sends e ∧ (p_sends e = 0 ↔ p_sent e = None) →
        0 ≤ p_sends (f e) ∧ (p_sends (f e) = 0 ↔ p_sent (f e) = None)) →
  spec_bounded (l, n) → spec_bounded (at_ref ref f <$> l, n).
Proof.
  intros Hf Hs (Hnd & Hall & Hlen). cbn [fst snd] in *.
  assert (∀ e, p_ref (at_ref ref f e) = p_ref e ∧ p_lease (at_ref ref f e) = p_lease e) as Hat.
  { intros e. unfold at_ref. case_decide; [apply Hf|done]. }
  split_and!; cbn [fst snd].
  - rewrite <- list_fmap_compose. erewrite list_fmap_ext; [exact Hnd|].
    intros i e _. apply Hat.
  - apply list.Forall_fmap. eapply list.Forall_impl; [exact Hall|]. intros e (He1 & He2). cbn.
    rewrite (proj1 (Hat e)). split; [done|]. unfold at_ref. case_decide; [by apply Hs|done].
  - intros lease. rewrite of_lease_fmap by (intros; apply Hat). by rewrite length_fmap.
Qed.

Lemma spec_op_bounded s o : spec_bounded s → spec_bounded (spec_op s o).
Proof.
  intros H. destruct s as [l n].
  destruct o as [now wire worker|lease id|e|lease|lease|now ref|ref wire]; cbn [spec_op].
  - destruct (wire_uuid wire "lease_id") as [lease|]; [|done].
    destruct (wire_uuid wire "session_id") as [session|]; [|done].
    destruct (decide (_ < _)%nat) as [Hl|]; [|done].
    destruct H as (Hnd & Hall & Hlen). cbn [fst snd] in *.
    assert (Forall (λ e, (p_ref e < n)%N) l) as Href by (eapply list.Forall_impl; [exact Hall|]; naive_solver).
    split_and!; cbn [fst snd].
    + rewrite fmap_app. apply list.NoDup_app. split; [done|]. split; [|apply NoDup_singleton].
      intros x (e & -> & He)%list_elem_of_fmap Hx. apply list_elem_of_singleton in Hx. cbn in Hx.
      rewrite list.Forall_forall in Href. specialize (Href e He). lia.
    + apply Forall_app. split; [|constructor; [cbn; split_and!; [lia|lia|done]|constructor]].
      eapply list.Forall_impl; [exact Hall|]. intros e (? & ?). split; [lia|done].
    + intros lease'. unfold of_lease in *. rewrite list.filter_app, filter_cons. cbn [p_lease].
      rewrite length_app. destruct (decide (lease = lease')) as [<-|].
      * cbn. lia.
      * cbn. specialize (Hlen lease'). lia.
  - destruct (head _); [|done]. eapply spec_bounded_sublist; [apply remove_when_sublist|done].
  - eapply spec_bounded_sublist; [apply remove_when_sublist|done].
  - eapply spec_bounded_sublist; [apply sublist_filter|done].
  - done.
  - apply spec_bounded_fmap; [done| |done]. intros e (? & ?). cbn. split; [lia|]. split; [lia|done].
  - by apply spec_bounded_fmap.
Qed.

(** for any history of the queue, a lease never has more than
    [MAX_PENDING_PER_LEASE] commands pending, each of them filed under its own
    lease, no object is queued twice, and a command has a send time exactly when
    it was sent at least once. *)
Theorem commands_bounded (ops : list cq_op) (lease : uuid) :
  let l := for_lease (foldl run_op empty_queue ops) lease in
  (length l ≤ MAX_PENDING_PER_LEASE)%nat ∧ NoDup (p_ref <$> l)
  ∧ Forall (λ e, p_lease e = lease ∧ (p_sends e = 0 ↔ p_sent e = None)) l.
Proof.
  assert (spec_bounded (foldl spec_op ([], 0%N) ops)) as (Hnd & Hall & Hlen).
  { assert (spec_bounded ([], 0%N)) as H0 by (split_and!; [constructor|constructor|cbn; lia]).
    revert H0. generalize ([] : list pending_command, 0%N) as s.
    induction ops as [|o ops IH]; intros s Hs; [done|]. cbn. by apply IH, spec_op_bounded. }
  cbn zeta. unfold for_lease. rewrite (proj2 (proj2 (run_ops_ok ops empty_queue ([], 0%N)
    (conj odict_ok_empty (conj eq_refl (λ _, eq_refl)))))).
  split_and!; [done| |].
  - eapply sublist_NoDup; [exact Hnd|]. apply fmap_sublist, sublist_filter.
  - apply list.Forall_forall. intros e [He Hin]%elem_of_of_lease. split; [done|].
    rewrite list.Forall_forall in Hall. apply (Hall e Hin).
Qed.

(** *** What the hub asks of the queue *)

Lemma elem_of_entries q e : odict_ok (by_lease q) →
  e ∈ all_entries q ↔ ∃ lease, e ∈ queue_of q lease.
Proof.
  intros Hok. unfold all_entries. rewrite list_elem_of_join. split.
  - intros (l & He & (p & -> & Hp)%list_elem_of_fmap). exists p.1.
    destruct p as [lease l]. apply elem_of_oitems in Hp; [|done]. unfold queue_of.
    cbn [fst snd] in *. by rewrite Hp.
  - intros [lease He]. unfold queue_of in He. destruct (by_lease q !! lease) as [l|] eqn:E.
    + exists l. split; [done|]. apply list_elem_of_fmap. exists (lease, l). split; [done|].
      by apply elem_of_oitems.
    + cbn in He. by apply elem_of_nil in He.
Qed.
Lemma has_lease_true q lease : has_lease q lease = true ↔ queue_of q lease ≠ [].
Proof. unfold has_lease. by rewrite bool_decide_eq_true. Qed.
