(* ===== verification/Db.v ===== *)
(** * The database (src/src/apipi/store/models.py, store/repo.py)

    The rows and repository functions that the API's ingest, leases, sandbox status
    and artifact uploads work on.  A table is a list of rows (the sessions, looked
    up by primary key everywhere, a finite map); a transaction is a value of type
    [db], and a savepoint that rolls back keeps the old value.  Clock readings and
    the ids `uuid4()` hands out are arguments.  Columns nothing here reads are left
    out. *)

From stdpp Require Import sorting.
From S2P Require Import Prelude PyStd.

Open Scope Z_scope.

(** ** Rows (store/models.py) *)

Record lease_cols : Type := LeaseCols {
  worker_id : option uuid;
  lease_id : option uuid;
  lease_until : option Z;
  worker_seq : Z
}.

Record sandbox_cols : Type := SandboxCols {
  sandbox_state : option string;
  sandbox_reason : option string;
  sandbox_since : option Z;
  sandbox_seen_at : option Z;
  sandbox_worker_id : option uuid;
  sandbox_image : option string;
  sandbox_image_version : option string;
  sandbox_size : option string;
  sandbox_cold_boots : Z;
  sandbox_last_boot_ms : option Z
}.

Record session_row : Type := SessionRow {
  s_id : uuid;
  s_tenant : uuid;
  s_agent : option uuid;
  s_key : string;
  s_user : option string;
  s_org : option string;
  s_status : string;
  s_environment : json;
  s_metadata : json;
  s_actions : json;
  s_lease : lease_cols;
  s_sandbox : sandbox_cols;
  s_pi_session : option uuid;
  s_pi_bytes : Z;
  s_updated : Z
}.

Record turn_row : Type := TurnRow {
  t_id : uuid; t_tenant : uuid; t_session : uuid; t_status : string;
  t_usage : option (list (string * Z)); t_created : Z; t_updated : Z
}.
Record item_row : Type := ItemRow {
  i_id : uuid; i_tenant : uuid; i_session : uuid; i_turn : option uuid;
  i_type : string; i_data : list (string * json); i_created : Z
}.
Record event_row : Type := EventRow {
  e_id : uuid; e_tenant : uuid; e_session : uuid; e_seq : Z; e_type : string;
  e_data : list (string * json); e_created : Z
}.
Record artifact_row : Type := ArtifactRow {
  a_id : uuid; a_tenant : uuid; a_session : uuid; a_turn : option uuid; a_path : string;
  a_type : string; a_key : string; a_size : Z; a_created : Z
}.
Record upload_row : Type := UploadRow {
  u_id : uuid; u_tenant : uuid; u_session : uuid; u_request : option uuid;
  u_artifact : uuid; u_kind : string; u_filename : string; u_type : string;
  u_declared : Z; u_sha256 : option string; u_complete : bool; u_expires : Z
}.
Record environment_row : Type := EnvironmentRow {
  er_id : uuid; er_tenant : uuid; er_session : uuid; er_status : string
}.
Record session_file_row : Type := SessionFileRow {
  sf_tenant : uuid; sf_session : uuid; sf_file : string; sf_item : option uuid;
  sf_path : option (list N) (* by its code points *); sf_created : Z
}.

Record turn_log_row : Type := TurnLogRow {
  l_tenant : uuid; l_session : uuid; l_turn : uuid; l_agent : option uuid;
  l_model : option string; l_status : string; l_latency_ms : Z;
  l_usage : list (string * Z); l_error_code : option string; l_request : option string;
  l_tool_names : list string; l_tool_counts : list (string * json);
  l_mcp_names : list string; l_mcp_counts : list (string * json);
  l_search_calls : Z; l_search_units : Z; l_search_counts : odict string (Z * Z);
  l_key : string; l_environment_type : string; l_run_mode : string;
  l_artifact_bytes : Z; l_created : Z
}.
(** The counters of a rollup, in the order of [ROLLUP_FIELDS] of Accounting. *)
Record rollup_row : Type := RollupRow {
  ru_tenant : uuid; ru_day : Z; ru_counts : list Z
}.
Record search_row : Type := SearchRow {
  sc_tenant : uuid; sc_session : uuid; sc_turn : uuid; sc_provider : string;
  sc_key_source : string; sc_calls : Z; sc_units : Z
}.
Record acct_tables : Type := Acct {
  turn_logs : list turn_log_row;
  rollups : list rollup_row;
  search_counts : list search_row
}.

Record db : Type := Db {
  sessions : gmap uuid session_row;
  turns : list turn_row;
  items : list item_row;
  events : list event_row;
  artifacts : list artifact_row;
  uploads : list upload_row;
  environments : list environment_row;
  session_files : list session_file_row;
  ledger : gset (uuid * Z);
  acct : acct_tables
}.

(** The values `sessions_status_check` admits. *)
Definition SESSION_STATUSES : list string :=
  ["idle"; "in_progress"; "requires_action"; "failed"]%string.
(** The types `items_type_check` admits. *)
Definition ITEM_TYPES : list string :=
  ["message"; "function_call"; "mcp_call"; "mcp_list_tools"; "command_execution";
   "web_search_call"]%string.

(** ** Exceptions *)

Inductive exn : Type :=
| RejectExn (reason : string)
| DuplicateExn
| NotFoundExn
| ValueExn          (* ValueError, KeyError and TypeError of a malformed payload *)
| IntegrityExn      (* a constraint of the schema *)
| DiskLimitExn (code message : string)
| ObjectStoreExn (code message : string) (cause : option exn)
| DbApiExn (invalidated : bool) (sqlstate : option string) (operational : bool)
| TimeoutExn
| ConnectionExn
| OtherExn (code : option string).

(** ** Field updates *)

Definition set_lease (r : session_row) (l : lease_cols) : session_row :=
  SessionRow (s_id r) (s_tenant r) (s_agent r) (s_key r) (s_user r) (s_org r) (s_status r) (s_environment r)
    (s_metadata r) (s_actions r) l (s_sandbox r) (s_pi_session r) (s_pi_bytes r) (s_updated r).
Definition set_sandbox (r : session_row) (b : sandbox_cols) : session_row :=
  SessionRow (s_id r) (s_tenant r) (s_agent r) (s_key r) (s_user r) (s_org r) (s_status r) (s_environment r)
    (s_metadata r) (s_actions r) (s_lease r) b (s_pi_session r) (s_pi_bytes r) (s_updated r).
Definition set_pi (r : session_row) (id : option uuid) (n : Z) : session_row :=
  SessionRow (s_id r) (s_tenant r) (s_agent r) (s_key r) (s_user r) (s_org r) (s_status r) (s_environment r)
    (s_metadata r) (s_actions r) (s_lease r) (s_sandbox r) id n (s_updated r).
Definition set_session (r : session_row) status environment metadata actions updated :=
  SessionRow (s_id r) (s_tenant r) (s_agent r) (s_key r) (s_user r) (s_org r) status environment
    metadata actions (s_lease r) (s_sandbox r) (s_pi_session r) (s_pi_bytes r) updated.
Definition set_updated (r : session_row) (now : Z) : session_row :=
  set_session r (s_status r) (s_environment r) (s_metadata r) (s_actions r) now.

Definition with_sessions (d : db) s :=
  Db s (turns d) (items d) (events d) (artifacts d) (uploads d) (environments d)
    (session_files d) (ledger d) (acct d).
Definition with_turns (d : db) t :=
  Db (sessions d) t (items d) (events d) (artifacts d) (uploads d) (environments d)
    (session_files d) (ledger d) (acct d).
Definition with_items (d : db) i :=
  Db (sessions d) (turns d) i (events d) (artifacts d) (uploads d) (environments d)
    (session_files d) (ledger d) (acct d).
Definition with_events (d : db) e :=
  Db (sessions d) (turns d) (items d) e (artifacts d) (uploads d) (environments d)
    (session_files d) (ledger d) (acct d).
Definition with_artifacts (d : db) a :=
  Db (sessions d) (turns d) (items d) (events d) a (uploads d) (environments d)
    (session_files d) (ledger d) (acct d).
Definition with_uploads (d : db) u :=
  Db (sessions d) (turns d) (items d) (events d) (artifacts d) u (environments d)
    (session_files d) (ledger d) (acct d).
Definition with_environments (d : db) e :=
  Db (sessions d) (turns d) (items d) (events d) (artifacts d) (uploads d) e
    (session_files d) (ledger d) (acct d).
Definition with_files (d : db) f :=
  Db (sessions d) (turns d) (items d) (events d) (artifacts d) (uploads d) (environments d)
    f (ledger d) (acct d).
Definition with_ledger (d : db) l :=
  Db (sessions d) (turns d) (items d) (events d) (artifacts d) (uploads d) (environments d)
    (session_files d) l (acct d).
Definition with_acct (d : db) a :=
  Db (sessions d) (turns d) (items d) (events d) (artifacts d) (uploads d) (environments d)
    (session_files d) (ledger d) a.
Definition put_row (d : db) (r : session_row) : db := with_sessions d (<[s_id r := r]> (sessions d)).

(** `select(...).where(...)` on a primary key: the row, if any. *)
Definition find_row {R} (P : R → bool) (l : list R) : option R := head (filter (λ r, P r = true) l).
(** `update(...).where(...).values(...)` *)
Definition update_where {R} (P : R → bool) (f : R → R) (l : list R) : list R :=
  (λ r, if P r then f r else r) <$> l.

(** ** Sessions (store/repo.py) *)

Definition get_session (d : db) (tenant sid : uuid) (user : option string) : option session_row :=
  r ← sessions d !! sid;
  if bool_decide (s_tenant r = tenant)
     && match user with None => true | Some u => bool_decide (s_user r = Some u) end
  then Some r else None.
Definition get_session_by_id (d : db) (sid : uuid) : option session_row := sessions d !! sid.
Definition get_sessions_by_ids (d : db) (ids : gset uuid) : gmap uuid session_row :=
  filter (λ p, p.1 ∈ ids) (sessions d).

(** The `changes` of `update_session`: the keys that are present. *)
Record session_changes : Type := Changes {
  c_status : option string;
  c_metadata : option json;
  c_environment : option json;
  c_actions : option json
}.
Definition update_session (d : db) (now : Z) (tenant sid : uuid) (user : option string)
    (c : session_changes) : res exn (db * option session_row) :=
  match get_session d tenant sid user with
  | None => Ok (d, None)
  | Some r =>
      let r := set_session r (default (s_status r) (c_status c))
                 (default (s_environment r) (c_environment c))
                 (default (s_metadata r) (c_metadata c))
                 (default (s_actions r) (c_actions c)) now in
      if decide (s_status r ∈ SESSION_STATUSES) then Ok (put_row d r, Some r)
      else Err IntegrityExn
  end.

(** ** Turns, items and events *)

(** `_stamp_after_newest` over the creation stamps of the session's rows. *)
Definition stamp_after_newest (now : Z) (stamps : list Z) : Z :=
  match stamps with
  | [] => now
  | t :: ts =>
      let newest := foldr Z.max t ts in
      if now <=? newest then newest + 1 else now
  end.

Definition of_session (tenant sid t s : uuid) : bool := bool_decide (t = tenant ∧ s = sid).
Definition session_turns (d : db) (tenant sid : uuid) : list turn_row :=
  filter (λ t, of_session tenant sid (t_tenant t) (t_session t) = true) (turns d).

Definition create_turn (d : db) (now : Z) (tenant sid : uuid) (status : string) (tid : uuid)
    : res exn (db * turn_row) :=
  let created := stamp_after_newest now (t_created <$> session_turns d tenant sid) in
  let t := TurnRow tid tenant sid status None created created in
  if decide (tid ∈ t_id <$> turns d) then Err IntegrityExn
  else Ok (with_turns d (turns d ++ [t]), t).

Definition get_turn (d : db) (tenant tid : uuid) : option turn_row :=
  find_row (λ t, bool_decide (t_tenant t = tenant ∧ t_id t = tid)) (turns d).
Definition get_session_turn (d : db) (tenant sid tid : uuid) : option turn_row :=
  t ← get_turn d tenant tid; if decide (t_session t = sid) then Some t else None.

(** `order_by(created_at.desc(), id.desc()).limit(1)` *)
Definition newer (a b : turn_row) : bool :=
  (t_created b <? t_created a) || ((t_created a =? t_created b) && (t_id b <? t_id a)%N).
Definition newest_turn (l : list turn_row) : option turn_row :=
  foldr (λ t acc, match acc with
                  | None => Some t
                  | Some u => if newer u t then Some u else Some t
                  end) None l.
Definition is_running (t : turn_row) : bool := bool_decide (t_status t = "in_progress"%string).
Definition get_running_turn (d : db) (tenant sid : uuid) : option turn_row :=
  newest_turn (filter (λ t, is_running t = true) (session_turns d tenant sid)).
Definition get_latest_turn (d : db) (tenant sid : uuid) : option turn_row :=
  newest_turn (session_turns d tenant sid).

(** Assignments to the attributes of a turn row. *)
Definition set_turn_status (d : db) (tid : uuid) (status : string) (now : Z) : db :=
  with_turns d (update_where (λ t, bool_decide (t_id t = tid))
    (λ t, TurnRow (t_id t) (t_tenant t) (t_session t) status (t_usage t) (t_created t) now)
    (turns d)).
Definition set_turn_usage (d : db) (tid : uuid) (usage : list (string * Z)) (now : Z) : db :=
  with_turns d (update_where (λ t, bool_decide (t_id t = tid))
    (λ t, TurnRow (t_id t) (t_tenant t) (t_session t) (t_status t) (Some usage) (t_created t) now)
    (turns d)).

Definition get_item (d : db) (tenant iid : uuid) : option item_row :=
  find_row (λ i, bool_decide (i_tenant i = tenant ∧ i_id i = iid)) (items d).
Definition create_item (d : db) (now : Z) (tenant sid : uuid) (type : string)
    (data : list (string * json)) (turn : option uuid) (iid : uuid) : res exn (db * item_row) :=
  let created := stamp_after_newest now
    (i_created <$> filter (λ i, of_session tenant sid (i_tenant i) (i_session i) = true) (items d)) in
  let i := ItemRow iid tenant sid turn type data created in
  if decide (iid ∈ i_id <$> items d ∨ type ∉ ITEM_TYPES) then Err IntegrityExn
  else if match turn with Some t => bool_decide (get_turn d tenant t = None) | None => false end
  then Err IntegrityExn (* the foreign key to the turns *)
  else Ok (with_items d (items d ++ [i]), i).
Definition set_item_data (d : db) (iid : uuid) (data : list (string * json)) : db :=
  with_items d (update_where (λ i, bool_decide (i_id i = iid))
    (λ i, ItemRow (i_id i) (i_tenant i) (i_session i) (i_turn i) (i_type i) data (i_created i))
    (items d)).

Definition session_events (d : db) (tenant sid : uuid) : list event_row :=
  filter (λ e, of_session tenant sid (e_tenant e) (e_session e) = true) (events d).
Definition append_event (d : db) (now : Z) (eid tenant sid : uuid) (type : string)
    (data : list (string * json)) : res exn (db * event_row) :=
  match get_session d tenant sid None with
  | None => Err NotFoundExn
  | Some _ =>
      let max_seq := foldr Z.max 0 (e_seq <$> session_events d tenant sid) in
      let e := EventRow eid tenant sid (max_seq + 1) type data now in
      if decide (eid ∈ e_id <$> events d) then Err IntegrityExn
      else Ok (with_events d (events d ++ [e]), e)
  end.

(** `link_session_file_item` *)
Definition link_session_file_item (d : db) (tenant sid : uuid) (file_ids : list string)
    (item : uuid) : db :=
  if decide (file_ids = []) then d
  else with_files d (update_where
    (λ f, of_session tenant sid (sf_tenant f) (sf_session f)
          && bool_decide (sf_file f ∈ file_ids) && bool_decide (sf_item f = None))
    (λ f, SessionFileRow (sf_tenant f) (sf_session f) (sf_file f) (Some item) (sf_path f) (sf_created f)) (session_files d)).

(** ** Environments, artifacts and uploads *)

Definition get_session_environment (d : db) (tenant sid : uuid) : option environment_row :=
  find_row (λ e, of_session tenant sid (er_tenant e) (er_session e)) (environments d).
Definition update_environment (d : db) (tenant eid : uuid) (status : string) : db :=
  with_environments d (update_where
    (λ e, bool_decide (er_tenant e = tenant ∧ er_id e = eid))
    (λ e, EnvironmentRow (er_id e) (er_tenant e) (er_session e) status) (environments d)).

(** `list_artifacts`, oldest first; [None] for an unknown session. *)
Fixpoint insert_artifact (a : artifact_row) (l : list artifact_row) : list artifact_row :=
  match l with
  | [] => [a]
  | b :: l' =>
      if (a_created a <? a_created b) || ((a_created a =? a_created b) && (a_id a <? a_id b)%N)
      then a :: l else b :: insert_artifact a l'
  end.
Definition list_artifacts (d : db) (tenant sid : uuid) : option (list artifact_row) :=
  match get_session d tenant sid None with
  | None => None
  | Some _ =>
      Some (foldr insert_artifact []
              (filter (λ a, of_session tenant sid (a_tenant a) (a_session a) = true) (artifacts d)))
  end.
Definition create_artifact (d : db) (now : Z) (tenant sid : uuid) (path type : string)
    (turn : option uuid) (key : string) (size : Z) (aid : uuid) : res exn (db * artifact_row) :=
  let created := stamp_after_newest now
    (a_created <$> filter (λ a, of_session tenant sid (a_tenant a) (a_session a) = true)
                     (artifacts d)) in
  let a := ArtifactRow aid tenant sid turn path type key size created in
  if decide (aid ∈ a_id <$> artifacts d) then Err IntegrityExn
  else Ok (with_artifacts d (artifacts d ++ [a]), a).

Definition create_artifact_upload (d : db) (u : upload_row) : res exn db :=
  if decide (u_id u ∈ u_id <$> uploads d) then Err IntegrityExn
  else Ok (with_uploads d (uploads d ++ [u])).
Definition get_artifact_upload_by_request (d : db) (tenant sid request : uuid) : option upload_row :=
  find_row (λ u, of_session tenant sid (u_tenant u) (u_session u)
                 && bool_decide (u_request u = Some request)) (uploads d).
Definition get_artifact_upload (d : db) (tenant uid : uuid) : option upload_row :=
  find_row (λ u, bool_decide (u_tenant u = tenant ∧ u_id u = uid)) (uploads d).
Definition set_upload (d : db) (uid : uuid) (f : upload_row → upload_row) : db :=
  with_uploads d (update_where (λ u, bool_decide (u_id u = uid)) f (uploads d)).

(** ** Leases *)

Definition lease_free (r : session_row) (now : Z) : bool :=
  bool_decide (lease_id (s_lease r) = None)
  || match lease_until (s_lease r) with Some u => u <? now | None => false end.
Definition set_session_lease (d : db) (now : Z) (tenant sid worker lease : uuid) (until : Z)
    : db * option session_row :=
  match get_session d tenant sid None with
  | Some r =>
      if lease_free r now then
        let r := set_updated (set_lease r
          (LeaseCols (Some worker) (Some lease) (Some until) (worker_seq (s_lease r)))) now in
        (put_row d r, Some r)
      else (d, None)
  | None => (d, None)
  end.
Definition clear_session_lease (d : db) (now : Z) (tenant sid : uuid) : db * option session_row :=
  match get_session d tenant sid None with
  | None => (d, None)
  | Some r =>
      let r := set_updated (set_lease r
        (LeaseCols None None None (worker_seq (s_lease r)))) now in
      (put_row d r, Some r)
  end.
Definition get_session_by_lease (d : db) (lease : uuid) : option session_row :=
  head (filter (λ r, lease_id (s_lease r) = Some lease) (snd <$> map_to_list (sessions d))).
(** `order_by(tenant_id, id)` *)
Definition row_le (a b : session_row) : Prop :=
  (s_tenant a < s_tenant b)%N ∨ (s_tenant a = s_tenant b ∧ (s_id a ≤ s_id b)%N).
#[global] Instance row_le_dec a b : Decision (row_le a b).
Proof. unfold row_le. apply _. Defined.
Definition is_expired (now : Z) (r : session_row) : bool :=
  bool_decide (lease_id (s_lease r) ≠ None)
  && match lease_until (s_lease r) with Some u => u <=? now | None => false end.
Definition list_expired_leases (d : db) (now : Z) : list session_row :=
  merge_sort row_le (filter (λ r, is_expired now r = true) (snd <$> map_to_list (sessions d))).
Definition list_worker_leases (d : db) (worker : uuid) : list session_row :=
  filter (λ r, worker_id (s_lease r) = Some worker) (snd <$> map_to_list (sessions d)).

Definition extend_lease (until now : Z) (r : session_row) : session_row :=
  set_updated (set_lease r (LeaseCols (worker_id (s_lease r)) (lease_id (s_lease r)) (Some until)
    (worker_seq (s_lease r)))) now.
(** [generation]: the one the caller holds, with the one stored for the worker. *)
Definition extend_worker_leases (d : db) (now : Z) (worker : uuid) (until : Z)
    (generation : option (Z * option Z)) : db :=
  let current := match generation with Some (g, stored) => bool_decide (stored = Some g) | None => true end in
  with_sessions d ((λ r, if bool_decide (worker_id (s_lease r) = Some worker)
                            && bool_decide (lease_id (s_lease r) ≠ None) && current
                         then extend_lease until now r else r) <$> sessions d).
Definition renew_session_leases (d : db) (now : Z) (worker : uuid) (lease_ids : list uuid) (until : Z)
    : db * Z :=
  let P r := bool_decide (worker_id (s_lease r) = Some worker)
             && match lease_id (s_lease r) with Some l => bool_decide (l ∈ lease_ids) | None => false end in
  (with_sessions d ((λ r, if P r then extend_lease until now r else r) <$> sessions d),
   Z.of_nat (length (filter (λ r, P r = true) (snd <$> map_to_list (sessions d))))).

(** ** Lemmas on tables *)

Lemma find_row_Some {R} (P : R → bool) l r : find_row P l = Some r → P r = true ∧ r ∈ l.
Proof.
  unfold find_row. intros H. assert (r ∈ filter (λ r, P r = true) l) as Hin.
  { destruct (filter _ l); [done|]. simplify_eq/=. by left. }
  by apply list_elem_of_filter in Hin.
Qed.
Lemma find_row_snoc {R} (P : R → bool) l r :
  find_row P l = None → P r = true → find_row P (l ++ [r]) = Some r.
Proof.
  unfold find_row. rewrite list.filter_app. destruct (filter _ l); [|done]. intros _ HP.
  rewrite filter_cons, decide_True by done. done.
Qed.
Lemma find_row_update {R} (P Q : R → bool) (r' : R) l r :
  find_row P l = Some r → Q r = true → P r' = true →
  find_row P (update_where Q (λ _, r') l) = Some r'.
Proof.
  unfold find_row, update_where. intros H HQ HP. induction l as [|x l IH]; [done|].
  csimpl. rewrite !filter_cons in *. destruct (Q x) eqn:Eq.
  - rewrite HP. done.
  - destruct (decide (P x = true)); [simplify_eq/=; congruence|]. by apply IH.
Qed.
Lemma find_row_update_self {R} (P Q : R → bool) (f : R → R) l r :
  find_row P l = Some r → Q r = true → (∀ x, P (f x) = P x) →
  find_row P (update_where Q f l) = Some (f r).
Proof.
  unfold find_row, update_where. intros H HQ HP. induction l as [|x l IH]; [done|].
  csimpl. rewrite !filter_cons in *. destruct (Q x) eqn:Eq.
  - destruct (decide (P x = true)) as [Hx|Hx].
    + simplify_eq/=. by rewrite decide_True by by rewrite HP.
    + rewrite decide_False by by rewrite HP. by apply IH.
  - destruct (decide (P x = true)); [simplify_eq/=; congruence|]. by apply IH.
Qed.

Lemma update_where_proj {R V} (Q : R → bool) (f : R → R) (g : R → V) l :
  (∀ x, Q x = true → g (f x) = g x) → (g <$> update_where Q f l) = (g <$> l).
Proof.
  intros Hg. unfold update_where. rewrite <- list_fmap_compose. apply list_fmap_ext.
  intros i x _. simpl. destruct (Q x) eqn:E; auto.
Qed.

Lemma find_row_None {R} (P : R → bool) l : find_row P l = None ↔ Forall (λ r, P r = false) l.
Proof.
  unfold find_row. split.
  - intros H. apply list.Forall_forall. intros r Hr. destruct (P r) eqn:E; [|done].
    assert (r ∈ filter (λ r, P r = true) l) as Hin by by apply list_elem_of_filter.
    destruct (filter _ l); [by apply elem_of_nil in Hin|done].
  - intros H. rewrite filter_none; [done|]. eapply list.Forall_impl; [done|]. simpl. congruence.
Qed.
Lemma find_row_app {R} (P : R → bool) l r :
  find_row P (l ++ [r]) = match find_row P l with
                          | Some x => Some x
                          | None => if P r then Some r else None end.
Proof.
  unfold find_row. rewrite list.filter_app. destruct (filter _ l); [|done]. cbn [app].
  rewrite filter_cons. by destruct (P r).
Qed.
Lemma find_row_mapped {R} (P Q : R → bool) (f : R → R) l :
  (∀ x, Q x = true → P (f x) = P x) →
  find_row P (update_where Q f l) = (λ x, if Q x then f x else x) <$> find_row P l.
Proof.
  intros Hf. unfold find_row, update_where. induction l as [|x l IH]; [done|]. csimpl.
  rewrite !filter_cons. destruct (Q x) eqn:E.
  - destruct (decide (P x = true)) as [Hx|Hx].
    + rewrite decide_True by by rewrite Hf. cbn. by rewrite E.
    + rewrite decide_False by by rewrite Hf. done.
  - destruct (decide (P x = true)); [cbn; by rewrite E|done].
Qed.

Lemma get_session_ids d tenant sid user r :
  get_session d tenant sid user = Some r → s_tenant r = tenant ∧ sessions d !! sid = Some r.
Proof.
  unfold get_session. destruct (sessions d !! sid) as [r0|]; simpl; [|done].
  destruct (bool_decide (s_tenant r0 = tenant)) eqn:E; simpl; [|done].
  case_match; [|done]. intros ?. simplify_eq. by apply bool_decide_eq_true in E.
Qed.

(** Rows are stored under their primary key. *)
Definition keyed (d : db) : Prop := ∀ sid r, sessions d !! sid = Some r → s_id r = sid.
