(* ===== verification/Fleet.v ===== *)
(** * Placement (src/src/apipi/workerhub/fleet.py, common/placement.py, common/sandbox.py)

    The worker connections of a replica, the workers of the other replicas as their
    rows tell, and the choice of the worker a session goes to.  Connections are
    objects shared by the hub and the tasks that serve them, so a candidate names
    its connection by the number of the object. *)

From S2P Require Import Prelude PyStd Protocol Db.

Open Scope Z_scope.

(** An `ApiError` with this code: a library-independent exception that carries one. *)
Definition api_error (code : string) : exn := OtherExn (Some code).

(** ** Sizes and images (common/sandbox.py, common/placement.py) *)

Record fleet_settings : Type := FleetSettings {
  microvm_mem_mib : Z; sandbox_m_mem_mib : Z; sandbox_l_mem_mib : Z;
  worker_lease_ttl : Z (* microseconds *)
}.

Definition SANDBOX_SIZES : list string := ["S"; "M"; "L"]%string.

Definition parse_sandbox_size (value : json) : res exn (option string) :=
  match value with
  | JNull => Ok None
  | JStr s => if decide (s ∈ SANDBOX_SIZES) then Ok (Some s) else Err (api_error "invalid_request")
  | _ => Err (api_error "invalid_request")
  end.

(** The fields of `environment`; a falsy one counts as missing. *)
Definition env_fields (environment : json) : list (string * json) :=
  match environment with JObj l => l | _ => [] end.
Definition sandbox_size_of (environment : json) : res exn string :=
  match jget "sandbox_size" (env_fields environment) with
  | None | Some JNull => Ok "S"%string
  | Some raw => parsed ← parse_sandbox_size raw; Ok (default "S"%string parsed)
  end.

Definition image_for_size (size : string) : string :=
  if decide (size = "L")%string then "browser" else "default".

(** `IMAGE_ID.fullmatch`: `^[a-z0-9][a-z0-9-]{0,31}$` *)
Definition is_image_char (c : ascii) : bool :=
  is_lower c || is_digit c || bool_decide (c = "-"%char).
Definition is_image_id (s : string) : bool :=
  match chars s with
  | c :: rest => (is_lower c || is_digit c) && forallb is_image_char rest && bool_decide (length rest ≤ 31)%nat
  | [] => false
  end.
Definition parse_sandbox_image (value : json) : res exn (option string) :=
  match value with
  | JNull => Ok None
  | JStr s => if is_image_id s then Ok (Some s) else Err (api_error "invalid_request")
  | _ => Err (api_error "invalid_request")
  end.
Definition sandbox_image_of (environment : json) : res exn (option string) :=
  match jget "sandbox_image" (env_fields environment) with
  | Some (JStr s) => parse_sandbox_image (JStr s)
  | _ => Ok None
  end.

Definition sandbox_mem_mib (cfg : fleet_settings) (size : string) : Z :=
  if decide (size = "M")%string then sandbox_m_mem_mib cfg
  else if decide (size = "L")%string then sandbox_l_mem_mib cfg
  else microvm_mem_mib cfg.
Definition mem_mib_for_size (cfg : fleet_settings) (size : option string) : Z :=
  sandbox_mem_mib cfg (default "S"%string size).

(** `(environment or {}).get("type") or "openai_hosted"` *)
Definition placement_for (environment : json) : string :=
  match jget "type" (env_fields environment) with
  | Some (JStr "none") => "none"
  | _ => "microvm"
  end.
Definition worker_accepts (accepts : option (list string)) (required : string) : bool :=
  match accepts with Some l => bool_decide (required ∈ l) | None => false end.

(** `commands.session_image` *)
Definition session_image (environment : json) : res exn string :=
  stored ← sandbox_image_of environment;
  match stored with
  | Some i => Ok i
  | None => size ← sandbox_size_of environment; Ok (image_for_size size)
  end.

(** ** Connections (workerhub/connection.py) *)

Record connection : Type := Conn {
  c_worker : uuid;
  c_generation : Z;
  c_capacity : Z;
  c_memory_mb : Z;
  c_run_mode : string;
  c_arch : string;
  c_leases : gset uuid;
  c_lease_mem : gmap uuid Z;
  c_draining : bool;
  c_images : gset string;
  c_accepts : gset string;
  c_features : gset string;
  c_last_renewed : Z;
  c_reason : option string
}.

(** The first reason wins. *)
Definition request_close (c : connection) (reason : string) : connection :=
  Conn (c_worker c) (c_generation c) (c_capacity c) (c_memory_mb c) (c_run_mode c) (c_arch c)
    (c_leases c) (c_lease_mem c) (c_draining c) (c_images c) (c_accepts c) (c_features c)
    (c_last_renewed c) (Some (default reason (c_reason c))).
Definition set_leases (c : connection) (leases : gset uuid) (mem : gmap uuid Z) : connection :=
  Conn (c_worker c) (c_generation c) (c_capacity c) (c_memory_mb c) (c_run_mode c) (c_arch c)
    leases mem (c_draining c) (c_images c) (c_accepts c) (c_features c)
    (c_last_renewed c) (c_reason c).
Definition set_renewed (c : connection) (now : Z) : connection :=
  Conn (c_worker c) (c_generation c) (c_capacity c) (c_memory_mb c) (c_run_mode c) (c_arch c)
    (c_leases c) (c_lease_mem c) (c_draining c) (c_images c) (c_accepts c) (c_features c)
    now (c_reason c).

(** `claimed_leases`: entries that do not validate are skipped (None). *)
Definition claimed_leases (running : list (option (uuid * uuid))) : gmap uuid uuid :=
  foldl (λ m e, match e with Some (sid, lease) => <[sid := lease]> m | None => m end) ∅ running.

(** ** Candidates (workerhub/fleet.py) *)

Record candidate : Type := Candidate {
  ca_worker : uuid;
  ca_accepts : gset string;
  ca_images : gset string;
  ca_arch : string;
  ca_draining : bool;
  ca_capacity : Z;
  ca_memory_mb : Z;
  ca_leases : Z;
  ca_used_mem : Z;
  ca_instance : option string;
  ca_conn : option N
}.

Definition lease_used_mem (c : connection) (session_mem : Z) : Z :=
  set_fold (λ l acc, default session_mem (c_lease_mem c !! l) + acc) 0 (c_leases c).
Definition local_candidate (session_mem : Z) (p : N * connection) : candidate :=
  let '(ref, c) := p in
  Candidate (c_worker c) (c_accepts c) (c_images c) (c_arch c) (c_draining c) (c_capacity c)
    (c_memory_mb c) (Z.of_nat (size (c_leases c))) (lease_used_mem c session_mem) None (Some ref).
Definition local_candidates (conns : list (N * connection)) (session_mem : Z) : list candidate :=
  local_candidate session_mem <$> conns.

(** The row of a worker (store/models.py). *)
Record worker_row : Type := WorkerRow {
  w_id : uuid; w_capacity : Z; w_memory_mb : Z; w_generation : Z; w_last_seen : Z;
  w_instance : option string; w_accepts : list string; w_images : list string;
  w_arch : option string; w_draining : bool
}.

Definition is_fresh (now : Z) (last_seen : option Z) (cfg : fleet_settings) : bool :=
  match last_seen with Some t => now - t <=? worker_lease_ttl cfg | None => false end.

Definition env_mem (cfg : fleet_settings) (environment : json) : res exn Z :=
  size ← sandbox_size_of environment; Ok (mem_mib_for_size cfg (Some size)).
Fixpoint sum_mem (cfg : fleet_settings) (environments : list json) : res exn Z :=
  match environments with
  | [] => Ok 0
  | e :: l => m ← env_mem cfg e; rest ← sum_mem cfg l; Ok (m + rest)
  end.
Definition row_candidate (cfg : fleet_settings) (row : worker_row) (environments : list json)
    : res exn candidate :=
  used ← sum_mem cfg environments;
  Ok (Candidate (w_id row)
        (list_to_set (match w_accepts row with [] => ["none"%string] | l => l end))
        (list_to_set (w_images row)) (default ""%string (w_arch row)) (w_draining row)
        (w_capacity row) (w_memory_mb row) (Z.of_nat (length environments)) used
        (w_instance row) None).

Definition list_live_workers (workers : list worker_row) (seen_after : Z) (exclude : string)
    : list worker_row :=
  filter (λ w, w_instance w ≠ None ∧ seen_after ≤ w_last_seen w ∧ w_instance w ≠ Some exclude) workers.
Definition list_leased_environments (d : db) (worker_ids : list uuid) : list (uuid * json) :=
  omap (λ r : session_row, match worker_id (s_lease r) with
     | Some w => if decide (w ∈ worker_ids ∧ lease_id (s_lease r) ≠ None)
                 then Some (w, JObj (env_fields (s_environment r))) else None
     | None => None end) (snd <$> map_to_list (sessions d)).
Definition environments_of (leased : list (uuid * json)) (w : uuid) : list json :=
  snd <$> filter (λ p, p.1 = w) leased.
Fixpoint row_candidates (cfg : fleet_settings) (leased : list (uuid * json)) (rows : list worker_row)
    : res exn (list candidate) :=
  match rows with
  | [] => Ok []
  | r :: l =>
      c ← row_candidate cfg r (environments_of leased (w_id r));
      rest ← row_candidates cfg leased l;
      Ok (c :: rest)
  end.
Definition remote_candidates (cfg : fleet_settings) (now : Z) (instance : string)
    (workers : list worker_row) (d : db) : res exn (list candidate) :=
  let rows := list_live_workers workers (now - worker_lease_ttl cfg) instance in
  row_candidates cfg (list_leased_environments d (w_id <$> rows)) rows.

(** ** The choice *)

Definition feasible (kind : string) (session_mem : Z) (image : option string) (c : candidate) : bool :=
  bool_decide (kind ∈ ca_accepts c)
  && match image with
     | Some i => bool_decide (kind ≠ "microvm"%string) || bool_decide (i ∈ ca_images c)
     | None => true
     end
  && negb (ca_draining c)
  && negb (ca_capacity c <? ca_leases c + 1)
  && negb (ca_memory_mb c <? ca_used_mem c + session_mem).

Definition load_key (c : candidate) : Z * Z := (- (ca_memory_mb c - ca_used_mem c), ca_leases c).
(** The order of Python tuples. *)
Definition key_lt (a b : Z * Z) : bool := (a.1 <? b.1) || ((a.1 =? b.1) && (a.2 <? b.2)).

(** `list.sort(key=...)`: stable. *)
Fixpoint insert_by (x : candidate) (l : list candidate) : list candidate :=
  match l with
  | [] => [x]
  | y :: l' => if key_lt (load_key y) (load_key x) then y :: insert_by x l' else x :: l
  end.
Definition sort_by_load (l : list candidate) : list candidate := foldr insert_by [] l.

Definition choose (candidates : list candidate) (kind : string) (session_mem : Z)
    (image : option string) : option candidate :=
  head (sort_by_load (filter (λ c, feasible kind session_mem image c = true) candidates)).

Definition has_image (candidates : list candidate) (kind : string) (image : option string) : bool :=
  match image with
  | Some i =>
      bool_decide (kind ≠ "microvm"%string)
      || existsb (λ c, bool_decide (kind ∈ ca_accepts c) && bool_decide (i ∈ ca_images c)) candidates
  | None => true
  end.
Definition image_arches (candidates : list candidate) (image : string) : gset string :=
  list_to_set (ca_arch <$> filter (λ c, "microvm"%string ∈ ca_accepts c
     ∧ ca_arch c ≠ ""%string ∧ image ∉ ca_images c) candidates).

(** ** What the choice promises *)

Lemma key_lt_spec a b : key_lt a b = true ↔ a.1 < b.1 ∨ (a.1 = b.1 ∧ a.2 < b.2).
Proof. unfold key_lt. rewrite orb_true_iff, andb_true_iff, !Z.ltb_lt, Z.eqb_eq. done. Qed.
Lemma key_lt_false a b : key_lt a b = false ↔ b.1 < a.1 ∨ (b.1 = a.1 ∧ b.2 ≤ a.2).
Proof.
  destruct (key_lt a b) eqn:E; [apply key_lt_spec in E; split; [done|lia]|].
  split; [|done]. intros _. destruct (decide (b.1 < a.1 ∨ (b.1 = a.1 ∧ b.2 ≤ a.2))) as [|Hn]; [done|].
  assert (key_lt a b = true) by (apply key_lt_spec; lia). congruence.
Qed.

(** The first candidate of least load: the ones before it have more. *)
Definition least_loaded (c : candidate) (l : list candidate) : Prop :=
  ∃ l1 l2, l = l1 ++ c :: l2
  ∧ Forall (λ x, key_lt (load_key c) (load_key x) = true) l1
  ∧ Forall (λ x, key_lt (load_key x) (load_key c) = false) l2.

Lemma head_insert_by x l :
  head (insert_by x l) = match head l with
    | Some y => Some (if key_lt (load_key y) (load_key x) then y else x) | None => Some x end.
Proof. destruct l as [|y l]; cbn; [done|]. by destruct (key_lt _ _). Qed.
Lemma sort_head_least l :
  match head (sort_by_load l) with Some c => least_loaded c l | None => l = [] end.
Proof.
  induction l as [|x l IH]; [done|]. unfold sort_by_load in *. cbn [foldr].
  rewrite head_insert_by. destruct (head _) as [y|].
  - destruct IH as (l1 & l2 & -> & H1 & H2). destruct (key_lt (load_key y) (load_key x)) eqn:E.
    + exists (x :: l1), l2. split_and!; [done|by constructor|done].
    + exists [], (l1 ++ y :: l2). split_and!; [done|constructor|]. apply Forall_app. split.
      * eapply list.Forall_impl; [exact H1|]. intros z. cbn.
        rewrite key_lt_spec, !key_lt_false in *. lia.
      * constructor; [done|]. eapply list.Forall_impl; [exact H2|]. intros z. cbn.
        rewrite !key_lt_false in *. lia.
  - rewrite IH. by exists [], [].
Qed.

Lemma choose_feasible l kind mem image c :
  choose l kind mem image = Some c → c ∈ l ∧ feasible kind mem image c = true.
Proof.
  unfold choose. pose proof (sort_head_least (filter (λ c, feasible kind mem image c = true) l)) as H.
  intros Hc. rewrite Hc in H. destruct H as (l1 & l2 & Hl & _).
  assert (c ∈ filter (λ c, feasible kind mem image c = true) l) as Hin.
  { rewrite Hl. apply elem_of_app. right. by left. }
  by apply list_elem_of_filter in Hin as [Hf Hin].
Qed.
Lemma feasible_room kind mem image c :
  feasible kind mem image c = true → ca_leases c + 1 ≤ ca_capacity c ∧ ca_used_mem c + mem ≤ ca_memory_mb c.
Proof.
  unfold feasible. rewrite !andb_true_iff, !negb_true_iff. intros [[[[_ _] _] Hcap] Hmem].
  apply Z.ltb_ge in Hcap. apply Z.ltb_ge in Hmem. lia.
Qed.

(** the worker chosen for a session accepts its placement, has its image, is
    not draining and has a free slot and enough memory; among the workers that do
    it has the most free memory, then the fewest leases, then the first place;
    and no worker is chosen exactly when none does. *)
Theorem choose_best (l : list candidate) (kind : string) (mem : Z) (image : option string) :
  match choose l kind mem image with
  | Some c =>
      c ∈ l ∧ feasible kind mem image c = true
      ∧ ca_leases c + 1 ≤ ca_capacity c ∧ ca_used_mem c + mem ≤ ca_memory_mb c
      ∧ least_loaded c (filter (λ x, feasible kind mem image x = true) l)
  | None => Forall (λ c, feasible kind mem image c = false) l
  end.
Proof.
  destruct (choose l kind mem image) as [c|] eqn:Hc.
  - destruct (choose_feasible _ _ _ _ _ Hc) as [Hin Hf]. destruct (feasible_room _ _ _ _ Hf) as [? ?].
    split_and!; [done..|]. unfold choose in Hc.
    pose proof (sort_head_least (filter (λ c, feasible kind mem image c = true) l)) as Hs. by rewrite Hc in Hs.
  - unfold choose in Hc.
    pose proof (sort_head_least (filter (λ c, feasible kind mem image c = true) l)) as H. rewrite Hc in H.
    apply list.Forall_forall. intros c Hin. destruct (feasible kind mem image c) eqn:E; [|done].
    exfalso. eapply (not_elem_of_nil c). rewrite <- H. by apply list_elem_of_filter.
Qed.
