(* ===== verification/Commands.v ===== *)
(** * Commands to a worker (workerhub/commands.py, protocol/commands.py)

    The frame of a command, the features a worker needs to receive it, and the
    checks made before it is sent.  A payload model is the list of the fields that
    are set; pydantic's validation of a payload and of a turn context are the
    arguments [validate_payload] and [valid_context], and [dump] puts the fields of
    a payload in the order its model declares them. *)

From S2P Require Import Prelude PyStd Protocol Db Fleet.

Open Scope Z_scope.

Abbreviation fields := (list (string * json)) (only parsing).

(** A caller's payload: a model, or its fields as a dict (or nothing). *)
Inductive payload_arg : Type := Model (f : fields) | Raw (f : option fields).

Definition set_opt (key : string) (v : option json) (f : fields) : fields :=
  match v with Some j => lset f key j | None => f end.

Section commands.
Context (validate_payload : string → fields → option fields).
Context (dump : fields → fields).
Context (valid_context : json → bool).

(** `COMMAND_PAYLOAD_MODELS[op].model_validate(payload or {})` and the placement
    fields on top. *)
Definition command_payload (op : string) (payload : payload_arg) (run_mode image : option string)
    (cursor : option Z) : res exn fields :=
  model ← match payload with
          | Model f => Ok f
          | Raw f => from_option Ok (Err ValueExn) (validate_payload op (default [] f)) end;
  let model := set_opt "run_mode" (JStr <$> run_mode) model in
  let model := set_opt "sandbox_image" (JStr <$> image) model in
  Ok (set_opt "last_seq" (c ← cursor; if decide (op ∈ CURSOR_OPS) then Some (JInt c) else None) model).

(** `WorkerCommand.build(...).to_wire()` *)
Definition command_wire (command_id sid lease : uuid) (op : string) (payload : fields) : fields :=
  [("type", JStr "command"); ("id", JStr (str_of_uuid command_id));
   ("session_id", JStr (str_of_uuid sid)); ("lease_id", JStr (str_of_uuid lease));
   ("op", JStr op); ("payload", JObj (dump payload))]%string.

Definition wire_op (wire : fields) : string := py_str (default JNull (jget "op" wire)).
Definition sub_fields (key : string) (f : fields) : fields :=
  match jget key f with Some (JObj l) => l | _ => [] end.
Definition has_env_credentials (wire : fields) : bool :=
  bool_decide (wire_op wire ∈ COMMAND_CONTEXT_OPS)
  && otruthy (jget "env_credentials" (sub_fields "context" (sub_fields "payload" wire))).

(** The parts that are objects. *)
Definition part_items (body : fields) : list fields :=
  match jget "parts" body with
  | Some (JArr l) => omap (λ j, match j with JObj f => Some f | _ => None end) l
  | _ => []
  end.
Definition has_kind (kind : string) (items : list fields) : bool :=
  existsb (λ f, bool_decide (jstr (jget "type" f) = Some kind)) items.
Definition needs_workspace (items : list fields) : bool :=
  existsb (λ f, bool_decide (jstr (jget "model_input" f) = Some "workspace"%string)) items.

Definition command_features (wire : fields) : list string :=
  let op := wire_op wire in
  let body := sub_fields "payload" wire in
  let items := part_items body in
  let start := bool_decide (op = "turn.start"%string) in
  let session_files := otruthy (jget "session_files" (sub_fields "context" body)) in
  (match OP_FEATURES !! op with Some f => [f] | None => [] end)
  ++ (if start && has_kind "image" items then [FEATURE_IMAGE_REFS] else [])
  ++ (if start && has_kind "file" items then [FEATURE_FILE_REFS] else [])
  ++ (if (start && needs_workspace items) || session_files then [FEATURE_SESSION_FILES] else [])
  ++ (if has_env_credentials wire then [FEATURE_ENV_CREDENTIALS] else []).

Definition require_credential_isolation (wire : fields) (run_mode : string) : res exn () :=
  if decide (run_mode = "microvm"%string) then Ok ()
  else if has_env_credentials wire then Err (api_error "credential_not_allowed") else Ok ().

(** `parse_turn_context`: an object that is a valid context. *)
Definition parse_turn_context (raw : json) : res exn () :=
  match raw with
  | JObj _ => if valid_context raw then Ok () else Err (api_error "invalid_request")
  | _ => Err (api_error "invalid_request")
  end.
Definition check_command_size (message : json) : res exn Z :=
  let size := wire_size message in
  if MAX_COMMAND_BYTES <? size then Err (api_error "payload_too_large") else Ok size.
Definition check_command_context (wire : fields) : res exn () :=
  _ ← match jget "context" (sub_fields "payload" wire) with
      | None | Some JNull => Ok ()
      | Some raw => parse_turn_context raw
      end;
  _ ← check_command_size (JObj wire); Ok ().

(** *** What the frame of a command says *)

Lemma command_wire_lease cid sid lease op payload :
  jget "lease_id" (command_wire cid sid lease op payload) = Some (JStr (str_of_uuid lease)).
Proof. done. Qed.
Lemma command_wire_session cid sid lease op payload :
  jget "session_id" (command_wire cid sid lease op payload) = Some (JStr (str_of_uuid sid)).
Proof. done. Qed.
End commands.
