(* ===== verification/Sandbox.v ===== *)
(** * Sandbox status (src/src/apipi/services/sandbox_status.py)

    The state of a hosted session's sandbox: the transitions `apply_transition`
    applies to the session row (from the local runtime and from the `sandbox.status`
    envelopes), the public state a reader sees with the staleness rule, and the
    event bodies.  Times are in microseconds. *)

From S2P Require Import Prelude PyStd Db.

Open Scope Z_scope.

Definition SEEN_INTERVAL : Z := 5 * 1000000.
Definition STALE_AFTER : Z := SEEN_INTERVAL * 3.
Definition EAGER_KEY : string := "apipi.sandbox_eager_boot".
Definition HOSTED : list string := ["openai_hosted"%string].

Definition table := odict string string.
Definition OPENAI_STATUS : table :=
  ODict [("none", "disconnected"); ("starting", "provisioning"); ("ready", "connected");
         ("stopped", "disconnected"); ("failed", "failed")]%string.
Definition ROW_STATUS : table :=
  ODict [("starting", "pending"); ("ready", "connected"); ("stopped", "disconnected");
         ("failed", "failed")]%string.
Definition STORED_STATUS : table :=
  ODict [("pending", "provisioning"); ("connected", "connected");
         ("disconnected", "disconnected"); ("failed", "failed")]%string.
Definition CONTAINER : table := ODict [("S", "small"); ("M", "medium"); ("L", "large")]%string.

Definition is_hosted (environment : json) : bool :=
  match jstr (jfield "type" environment) with
  | Some t => bool_decide (t ∈ HOSTED)
  | None => false
  end.

Definition as_bool (value : option json) : bool :=
  match value with
  | Some (JBool b) => b
  | Some (JStr s) => bool_decide (lower (strip s) ∈ ["1"; "true"; "on"; "yes"]%string)
  | _ => false
  end.

(** [eager] is `settings.sandbox_eager_boot`. *)
Definition eager_boot_enabled (eager : bool) (session_metadata agent_metadata : option json) : bool :=
  match m ← session_metadata; jfield EAGER_KEY m with
  | Some v => as_bool (Some v)
  | None =>
      match m ← agent_metadata; jfield EAGER_KEY m with
      | Some v => as_bool (Some v)
      | None => eager
      end
  end.

(** `x or default` on a column that may be NULL or empty. *)
Definition sor (x : option string) (d : string) : string :=
  match x with Some s => if decide (s = "")%string then d else s | None => d end.

Definition effective_state (now : Z) (r : session_row) : string * option string :=
  let b := s_sandbox r in
  let state := sor (sandbox_state b) "none" in
  let reason := sandbox_reason b in
  if decide (state ∉ ["starting"; "ready"]%string) then (state, reason)
  else
    match (match sandbox_seen_at b with Some t => Some t | None => sandbox_since b end) with
    | None => (state, reason)
    | Some seen =>
        if STALE_AFTER <=? now - seen then ("stopped"%string, Some "worker_lost"%string)
        else (state, reason)
    end.

Definition jopt_str (o : option string) : json := match o with Some s => JStr s | None => JNull end.
Definition jopt_int (o : option Z) : json := match o with Some z => JInt z | None => JNull end.
Definition dict_or_empty (j : json) : list (string * json) :=
  match j with JObj l => l | _ => [] end.
(** A column that holds a non-empty string, else the environment's value. *)
Definition column_or_env (col : option string) (env : list (string * json)) (key : string) : json :=
  match col with
  | Some s => if decide (s = "")%string then jopt_str (jstr (jget key env)) else JStr s
  | None => jopt_str (jstr (jget key env))
  end.

Section public.
(** `datetime.isoformat` *)
Context (isoformat : Z → string).

Definition sandbox_public (now : Z) (r : session_row) : option json :=
  let environment := dict_or_empty (s_environment r) in
  if negb (is_hosted (JObj environment)) then None
  else
    let '(state, reason) := effective_state now r in
    let b := s_sandbox r in
    Some (JObj [
      ("state", JStr state);
      ("reason", jopt_str reason);
      ("since", match sandbox_since b with Some t => JStr (isoformat t) | None => JNull end);
      ("image", column_or_env (sandbox_image b) environment "sandbox_image");
      ("image_version", jopt_str (sandbox_image_version b));
      ("size", column_or_env (sandbox_size b) environment "sandbox_size");
      ("cold_boots", JInt (sandbox_cold_boots b));
      ("last_boot_ms", jopt_int (sandbox_last_boot_ms b))]%string).

Definition environment_status (now : Z) (r : session_row) : option string :=
  if negb (is_hosted (JObj (dict_or_empty (s_environment r)))) then None
  else Some (default "disconnected"%string (OPENAI_STATUS !! (effective_state now r).1)).

Definition stored_status (status : option string) : string :=
  match status with
  | None => "disconnected"
  | Some s => default "disconnected"%string (STORED_STATUS !! s)
  end.

Definition environment_public (now : Z) (r : session_row) (stored : option string) : json :=
  let environment := dict_or_empty (s_environment r) in
  let '(status, sandbox) :=
    if is_hosted (JObj environment)
    then (default "disconnected"%string (environment_status now r),
          default JNull (sandbox_public now r))
    else (stored_status stored, JNull) in
  JObj [("id", jopt_str (jstr (jget "id" environment)));
        ("type", default JNull (jget "type" environment));
        ("status", JStr status);
        ("sandbox", sandbox)]%string.

(** `d[key] = value` on the pairs of a dict. *)
Definition jset (l : list (string * json)) (key : string) (v : json) : list (string * json) :=
  lset l key v.

Definition overlay_environment (now : Z) (r : session_row) : list (string * json) :=
  let environment := ldel (dict_or_empty (s_environment r)) "directory"%string in
  let environment :=
    match jstr (jget "sandbox_size" environment) with
    | Some size =>
        match CONTAINER !! size with
        | Some c => jset environment "container_size" (JStr c)
        | None => environment
        end
    | None => environment
    end in
  if is_hosted (JObj environment) then
    jset (jset environment "status"
            (match environment_status now r with Some s => JStr s | None => JNull end))
      "sandbox" (default JNull (sandbox_public now r))
  else jset environment "sandbox" JNull.
End public.

(** ** Transitions *)

Definition env_id_of (environment : list (string * json)) : option string :=
  match jstr (jget "id" environment) with
  | Some s => if decide (s = "")%string then None else Some s
  | None => None
  end.
Definition sandbox_data (environment : list (string * json)) (sandbox : list (string * json))
    : list (string * json) :=
  ("sandbox"%string, JObj sandbox)
  :: match env_id_of environment with
     | Some i => [("environment_id"%string, JStr i)]
     | None => []
     end.

Definition sync_environment_row (d : db) (tenant sid : uuid) (state : string) : db :=
  match ROW_STATUS !! state with
  | None => d
  | Some status =>
      match get_session_environment d tenant sid with
      | None => d
      | Some env => update_environment d tenant (er_id env) status
      end
  end.

(** `fields.get(key) or default` *)
Definition jor (fields : list (string * json)) (key : string) (d : json) : json :=
  match jget key fields with Some v => if truthy v then v else d | None => d end.
Definition jstr_or (fields : list (string * json)) (key : string) (old : option string)
    : option string :=
  match jstr (jget key fields) with Some s => Some s | None => old end.
Definition jint_or (fields : list (string * json)) (key : string) (old : option Z) : option Z :=
  match jint (jget key fields) with Some z => Some z | None => old end.

(** The columns every phase stamps first, an unknown one included. *)
Definition stamp_seen (now : Z) (fields : list (string * json)) (b : sandbox_cols) : sandbox_cols :=
  let worker :=
    match jstr (jget "worker_id" fields) with
    | Some s => match uuid_of_string s with Some u => Some u | None => sandbox_worker_id b end
    | None => sandbox_worker_id b
    end in
  SandboxCols (sandbox_state b) (sandbox_reason b) (Some now) (Some now) worker
    (sandbox_image b) (sandbox_image_version b) (sandbox_size b) (sandbox_cold_boots b)
    (sandbox_last_boot_ms b).

Definition transition_starting (fields environment : list (string * json)) (b : sandbox_cols)
    : sandbox_cols * list (string * json) :=
  let b := SandboxCols (Some "starting"%string) None (sandbox_since b) (sandbox_seen_at b)
    (sandbox_worker_id b) (jstr_or fields "image" (sandbox_image b)) (sandbox_image_version b)
    (jstr_or fields "size" (sandbox_size b)) (sandbox_cold_boots b) (sandbox_last_boot_ms b) in
  (b, sandbox_data environment
        [("state", JStr "starting"); ("cold", JBool true);
         ("cause", jor fields "cause" (JStr "spawn")); ("image", jopt_str (sandbox_image b));
         ("size", jopt_str (sandbox_size b))]%string).

Definition transition_ready (fields environment : list (string * json)) (b : sandbox_cols)
    : sandbox_cols * list (string * json) :=
  let b := SandboxCols (Some "ready"%string) None (sandbox_since b) (sandbox_seen_at b)
    (sandbox_worker_id b) (jstr_or fields "image" (sandbox_image b))
    (jstr_or fields "image_version" (sandbox_image_version b))
    (jstr_or fields "size" (sandbox_size b)) (sandbox_cold_boots b + 1)
    (jint_or fields "boot_ms" (sandbox_last_boot_ms b)) in
  (b, sandbox_data environment
        [("state", JStr "ready"); ("image", jopt_str (sandbox_image b));
         ("image_version", jopt_str (sandbox_image_version b));
         ("size", jopt_str (sandbox_size b)); ("run_mode", default JNull (jget "run_mode" fields));
         ("boot_ms", match jget "boot_ms" fields with
                     | Some (JInt z) => JInt z | Some (JBool c) => JBool c | _ => JInt 0 end);
         ("lock_wait_ms", jor fields "lock_wait_ms" (JInt 0));
         ("setup_ms", jor fields "setup_ms" (JInt 0))]%string).

Definition transition_stopped (fields environment : list (string * json)) (b : sandbox_cols)
    : sandbox_cols * list (string * json) :=
  let reason := default "stop"%string (jstr (jget "reason" fields)) in
  let b := SandboxCols (Some "stopped"%string) (Some reason) (sandbox_since b) (sandbox_seen_at b)
    (sandbox_worker_id b) (sandbox_image b) (sandbox_image_version b) (sandbox_size b)
    (sandbox_cold_boots b) (sandbox_last_boot_ms b) in
  (b, sandbox_data environment
        [("state", JStr "stopped"); ("reason", JStr reason);
         ("live_ms", jor fields "live_ms" (JInt 0))]%string).

(** `apply_transition`: the new database, and the event type and body, or [None]
    for an unknown phase (which still stamped the row). *)
Definition apply_transition (d : db) (now : Z) (r : session_row) (phase : string)
    (fields : list (string * json)) : db * option (string * list (string * json)) :=
  let environment := dict_or_empty (s_environment r) in
  let b := stamp_seen now fields (s_sandbox r) in
  let finish (event : string) (res : sandbox_cols * list (string * json)) :=
    let d := put_row d (set_sandbox r res.1) in
    (sync_environment_row d (s_tenant r) (s_id r) (default ""%string (sandbox_state res.1)),
     Some (event, res.2)) in
  if decide (phase = "starting")%string then
    finish "agent.session.environment.pending"%string (transition_starting fields environment b)
  else if decide (phase = "ready")%string then
    finish "agent.session.environment.connected"%string (transition_ready fields environment b)
  else if decide (phase = "stopped")%string then
    finish "agent.session.environment.disconnected"%string (transition_stopped fields environment b)
  else (put_row d (set_sandbox r b), None).

Definition note_failed (d : db) (now : Z) (tenant sid : uuid) (message : string)
    (code : option string) : db * list (string * json) :=
  let data := ("error"%string, JStr message)
    :: match code with
       | Some c => if decide (c = "")%string then [] else [("code"%string, JStr c)]
       | None => [] end in
  match get_session d tenant sid None with
  | None => (d, data)
  | Some r =>
      if negb (is_hosted (s_environment r)) then (d, data)
      else
        let environment := dict_or_empty (s_environment r) in
        let b := s_sandbox r in
        let b := SandboxCols (Some "failed"%string) code (Some now) (Some now) (sandbox_worker_id b)
          (sandbox_image b) (sandbox_image_version b) (sandbox_size b) (sandbox_cold_boots b)
          (sandbox_last_boot_ms b) in
        let sandbox := ("state"%string, JStr "failed")
          :: match code with
             | Some c => if decide (c = "")%string then [] else [("code"%string, JStr c)]
             | None => [] end in
        (sync_environment_row (put_row d (set_sandbox r b)) tenant sid "failed",
         data ++ sandbox_data environment sandbox)
  end.

(** `expire_if_stale`: the row and database, and the event it persists. *)
Definition expire_if_stale (d : db) (now : Z) (tenant : uuid) (r : session_row)
    : db * session_row * option (string * list (string * json)) :=
  if negb (is_hosted (s_environment r)) then (d, r, None)
  else
    let '(state, reason) := effective_state now r in
    if decide (Some state = sandbox_state (s_sandbox r) ∨ reason ≠ Some "worker_lost"%string)
    then (d, r, None)
    else
      let environment := dict_or_empty (s_environment r) in
      let b := s_sandbox r in
      let b := SandboxCols (Some "stopped"%string) (Some "worker_lost"%string) (Some now)
        (sandbox_seen_at b) (sandbox_worker_id b) (sandbox_image b) (sandbox_image_version b)
        (sandbox_size b) (sandbox_cold_boots b) (sandbox_last_boot_ms b) in
      let r := set_sandbox r b in
      (sync_environment_row (put_row d r) tenant (s_id r) "stopped", r,
       Some ("agent.session.environment.disconnected"%string,
             sandbox_data environment
               [("state", JStr "stopped"); ("reason", JStr "worker_lost"); ("live_ms", JInt 0)]%string)).

(** `touch_seen`: the worker reports the sandboxes it runs. *)
Definition touch_seen (d : db) (now : Z) (ids : list uuid) : db :=
  with_sessions d ((λ r,
    let b := s_sandbox r in
    if bool_decide (s_id r ∈ ids)
       && match sandbox_state b with
          | Some st => bool_decide (st ∈ ["starting"; "ready"]%string)
          | None => false end
    then set_sandbox r (SandboxCols (sandbox_state b) (sandbox_reason b) (sandbox_since b) (Some now)
           (sandbox_worker_id b) (sandbox_image b) (sandbox_image_version b) (sandbox_size b)
           (sandbox_cold_boots b) (sandbox_last_boot_ms b))
    else r) <$> sessions d).
