(* ===== verification/Usage.v ===== *)
(** * Token usage (src/src/apipi/common/usage.py)

    The counts of a turn: reading them from a loose dict, adding them up, and the
    tally of tool names. *)

From S2P Require Import Prelude PyStd Db.

Open Scope Z_scope.

Definition USAGE_FIELDS : list string :=
  ["prompt_tokens"; "completion_tokens"; "cache_read_tokens"; "cache_write_tokens";
   "total_tokens"]%string.
Definition PI_KEYS : list (string * list string) :=
  [("prompt_tokens", ["prompt_tokens"; "input"]);
   ("completion_tokens", ["completion_tokens"; "output"]);
   ("cache_read_tokens", ["cache_read_tokens"; "cacheRead"]);
   ("cache_write_tokens", ["cache_write_tokens"; "cacheWrite"]);
   ("total_tokens", ["total_tokens"; "totalTokens"])]%string.

Abbreviation usage := (list (string * Z)) (only parsing).

Definition empty_usage : usage := (λ f, (f, 0)) <$> USAGE_FIELDS.

(** `int` of a `nan` or infinite float raises. *)
Definition token_count (value : json) : res exn Z :=
  match value with
  | JInt z => Ok (if z <? 0 then 0 else z)
  | JFloat r =>
      if float_negative r then Ok 0
      else match int_of_float r with Some z => Ok z | None => Err ValueExn end
  | _ => Ok 0
  end.

(** The first key that is present decides. *)
Fixpoint first_key (keys : list string) (raw : list (string * json)) : option json :=
  match keys with
  | [] => None
  | k :: ks => match jget k raw with Some v => Some v | None => first_key ks raw end
  end.

Fixpoint usage_fields (l : list (string * list string)) (raw : list (string * json))
    : res exn usage :=
  match l with
  | [] => Ok []
  | (field, keys) :: l' =>
      n ← match first_key keys raw with Some v => token_count v | None => Ok 0 end;
      rest ← usage_fields l' raw;
      Ok ((field, n) :: rest)
  end.
Definition usage_from (raw : option json) : res exn usage :=
  match raw with
  | Some (JObj l) => usage_fields PI_KEYS l
  | _ => Ok empty_usage
  end.

Definition uget (u : usage) (f : string) : Z := default 0 (lget u f).
Definition add_usage (left right : usage) : usage :=
  (λ f, (f, uget left f + uget right f)) <$> USAGE_FIELDS.

Definition is_assistant (m : json) : option json :=
  match m with
  | JObj l =>
      if decide (jstr (jget "role" l) = Some "assistant"%string)
      then match jget "usage" l with Some (JObj u) => Some (JObj u) | _ => None end
      else None
  | _ => None
  end.
Fixpoint usage_loop (messages : list json) (total : usage) (found : bool) : res exn (option usage) :=
  match messages with
  | [] => Ok (if found then Some total else None)
  | m :: ms =>
      match is_assistant m with
      | None => usage_loop ms total found
      | Some raw => u ← usage_from (Some raw); usage_loop ms (add_usage total u) true
      end
  end.
Definition usage_from_messages (messages : json) : res exn (option usage) :=
  match messages with
  | JArr l => usage_loop l empty_usage false
  | _ => Ok None
  end.

Definition mcp_name (data : list (string * json)) : option string :=
  match jstr (jget "server_label" data) with
  | Some s => if decide (s = "")%string
              then n ← jstr (jget "name" data); if decide (n = "")%string then None else Some n
              else Some s
  | None => n ← jstr (jget "name" data); if decide (n = "")%string then None else Some n
  end.

Definition tally_loop (names : list string) (counts : odict string Z) : odict string Z :=
  foldl (λ c n, <[n := default 0 (c !! n) + 1]> c) counts names.
Definition tally (names : list string) : list string * odict string Z :=
  let counts := tally_loop names ∅ in (okeys counts, counts).
