(* ===== verification/Blobs.v ===== *)
(** * Object ids and the object store (src/src/apipi/store/blobs.py, common/objects.py,
      common/dirs.py)

    How the objects of a session are named, the keys a backend stores them under, an
    interface of object stores with its laws, the in-memory store as an instance,
    and the adapter that serves a session's artifacts from any such store. *)

From S2P Require Import Prelude PyStd Db.

Open Scope Z_scope.

(** ** Object ids *)

Inductive namespace : Set := NS_ARTIFACTS | NS_FILES | NS_SKILLS | NS_TEMPLATES | NS_UPLOADS.
#[global] Instance namespace_eq_dec : EqDecision namespace.
Proof. solve_decision. Defined.
Definition ns_text (n : namespace) : list ascii :=
  chars match n with
        | NS_ARTIFACTS => "artifacts" | NS_FILES => "files" | NS_SKILLS => "skills"
        | NS_TEMPLATES => "templates" | NS_UPLOADS => "uploads"
        end.

Definition slash : ascii := "/"%char.
Definition is_slash (c : ascii) : bool := bool_decide (c = slash).

(** `text.strip().strip("/")` *)
Definition strip_slashes (l : list ascii) : list ascii :=
  rstrip_by is_slash (lstrip_by is_slash (rstrip_by is_space (lstrip_by is_space l))).

Definition bad_part (p : list ascii) : bool :=
  bool_decide (p = [] ∨ p = chars "." ∨ p = chars "..").
Definition check_object_id (object_id : list ascii) : res exn (list ascii) :=
  let text := strip_slashes object_id in
  if decide (text = []) then Err ValueExn
  else if existsb bad_part (split_on slash text) then Err ValueExn
  else Ok text.

(** `".." in raw` *)
Fixpoint contains (pat l : list ascii) : bool :=
  startswith pat l || match l with [] => false | _ :: l' => contains pat l' end.

Definition blob_user (key_id : string) : list ascii :=
  let raw := chars (strip key_id) in
  if bool_decide (raw = []) || bool_decide (slash ∈ raw) || contains (chars "..") raw
  then chars "_" else raw.

Definition uuid_text (u : uuid) : list ascii := chars (str_of_uuid u).
#[global] Arguments uuid_text : simpl never.
Definition blob_key (tenant : uuid) (key_id : string) (sid aid : uuid) : list ascii :=
  join [slash] [uuid_text tenant; blob_user key_id; uuid_text sid; uuid_text aid].
Definition blob_prefix (tenant : uuid) (key_id : string) (sid : uuid) : list ascii :=
  join [slash] [uuid_text tenant; blob_user key_id; uuid_text sid; []].

Definition file_object_id (tenant : uuid) (file_id : list ascii) : res exn (list ascii) :=
  body ← check_object_id file_id; Ok (uuid_text tenant ++ [slash] ++ body).
Definition upload_object_id (tenant upload : uuid) : list ascii :=
  uuid_text tenant ++ [slash] ++ uuid_text upload.

(** ** Keys of a backend *)

(** `prefix.rpartition("/")`: what is before and after the last slash. *)
Definition rpartition (l : list ascii) : list ascii * list ascii :=
  let parts := split_on slash l in
  match rev parts with
  | [] => ([], [])
  | last :: before => (join [slash] (rev before), last)
  end.

Definition s3_namespace_prefix (s3_prefix : list ascii) (n : namespace) : list ascii :=
  let prefix := strip_slashes s3_prefix in
  if decide (n = NS_ARTIFACTS) then prefix
  else
    let '(parent, last) := rpartition prefix in
    if decide (last = ns_text NS_ARTIFACTS) then
      if decide (parent = []) then ns_text n else parent ++ [slash] ++ ns_text n
    else if decide (prefix = []) then ns_text n
    else prefix ++ [slash] ++ ns_text n.

Definition s3_object_key (s3_prefix : list ascii) (n : namespace) (object_id : list ascii)
    : res exn (list ascii) :=
  body ← check_object_id object_id;
  let prefix := s3_namespace_prefix s3_prefix n in
  Ok (if decide (prefix = []) then body else prefix ++ [slash] ++ body).

Definition s3_prefix_key (s3_prefix : list ascii) (n : namespace) (prefix : list ascii)
    : res exn (list ascii) :=
  let head := s3_namespace_prefix s3_prefix n in
  let body := strip_slashes prefix in
  body ← (if decide (body = []) then Ok [] else b ← check_object_id body; Ok (b ++ [slash]));
  Ok (if decide (head = []) then body else head ++ [slash] ++ body).

(** `local_object_path(root, namespace, object_id)`, and it relative to the root. *)
Definition local_relative_path (n : namespace) (object_id : list ascii) : res exn (list ascii) :=
  body ← check_object_id object_id;
  Ok (if decide (n = NS_ARTIFACTS) then chars ".artifacts/" ++ body
      else chars ".store/" ++ ns_text n ++ [slash] ++ body).

(** ** The interface *)

Abbreviation bytes := (list ascii) (only parsing).

(** `class ObjectStore(Protocol)`, over the state [S] of the store. *)
Class ObjectStore (S : Type) : Type := {
  os_put : S → namespace → list ascii → bytes → res exn S;
  os_get : S → namespace → list ascii → res exn (option bytes);
  os_delete : S → namespace → list ascii → res exn S;
  os_delete_prefix : S → namespace → list ascii → res exn S;
  os_used_bytes : S → namespace → list ascii → res exn Z
}.

(** What its users may assume of the objects under well-formed ids. *)
Class ObjectStoreLaws (S : Type) `{ObjectStore S} : Prop := {
  os_get_put s n n' id id' data s' :
    os_put s n id data = Ok s' → check_object_id id = Ok id → check_object_id id' = Ok id' →
    os_get s' n' id' = if decide (n = n' ∧ id = id') then Ok (Some data) else os_get s n' id';
  os_put_ok s n id data : check_object_id id = Ok id → ∃ s', os_put s n id data = Ok s';
  os_get_delete s n n' id id' s' :
    os_delete s n id = Ok s' → check_object_id id = Ok id → check_object_id id' = Ok id' →
    os_get s' n' id' = if decide (n = n' ∧ id = id') then Ok None else os_get s n' id';
  os_delete_ok s n id : check_object_id id = Ok id → ∃ s', os_delete s n id = Ok s';
  os_get_delete_prefix s n n' pre id' s' :
    os_delete_prefix s n (pre ++ [slash]) = Ok s' →
    check_object_id pre = Ok pre → check_object_id id' = Ok id' →
    os_get s' n' id' =
    if bool_decide (n = n') && startswith (pre ++ [slash]) id' then Ok None else os_get s n' id'
}.

(** ** The in-memory store (`class MemoryStore`) *)

Abbreviation memory_store := (gmap (list ascii) (list ascii)) (only parsing).

Definition mem_path (n : namespace) (body : list ascii) : list ascii :=
  ns_text n ++ [slash] ++ body.
Definition mem_key (n : namespace) (object_id : list ascii) : res exn (list ascii) :=
  body ← check_object_id object_id; Ok (mem_path n body).
Definition mem_prefix (n : namespace) (prefix : list ascii) : res exn (list ascii) :=
  let body := strip_slashes prefix in
  if decide (body = []) then Ok (mem_path n [])
  else b ← check_object_id body; Ok (mem_path n (b ++ [slash])).

Definition mem_put (s : memory_store) (n : namespace) (id data : list ascii) : res exn memory_store :=
  k ← mem_key n id; Ok (<[k := data]> s).
Definition mem_get (s : memory_store) (n : namespace) (id : list ascii) : res exn (option bytes) :=
  k ← mem_key n id; Ok (s !! k).
Definition mem_get_limited (s : memory_store) (n : namespace) (id : list ascii) (limit : nat) : res exn (option bytes) :=
  k ← mem_key n id; Ok (take limit <$> s !! k).
Definition mem_delete (s : memory_store) (n : namespace) (id : list ascii) : res exn memory_store :=
  k ← mem_key n id; Ok (delete k s).
Definition mem_delete_prefix (s : memory_store) (n : namespace) (prefix : list ascii) : res exn memory_store :=
  head ← mem_prefix n prefix; Ok (filter (λ p, startswith head p.1 = false) s).
Definition mem_used_bytes (s : memory_store) (n : namespace) (prefix : list ascii) : res exn Z :=
  head ← mem_prefix n prefix;
  Ok (map_fold (λ k data acc, if startswith head k then Z.of_nat (length data) + acc else acc) 0 s).

#[global] Instance memory_object_store : ObjectStore memory_store := {
  os_put := mem_put; os_get := mem_get; os_delete := mem_delete;
  os_delete_prefix := mem_delete_prefix; os_used_bytes := mem_used_bytes
}.

(** ** A session's artifacts (`class ArtifactAdapter`) *)

Section adapter.
Context {S : Type} `{ObjectStore S}.

Definition blobs_put (s : S) tenant key_id sid aid (data : bytes) : res exn S :=
  os_put s NS_ARTIFACTS (blob_key tenant key_id sid aid) data.
Definition blobs_get (s : S) tenant key_id sid aid : res exn (option bytes) :=
  os_get s NS_ARTIFACTS (blob_key tenant key_id sid aid).
Definition blobs_delete (s : S) tenant key_id sid aid : res exn S :=
  os_delete s NS_ARTIFACTS (blob_key tenant key_id sid aid).
Definition blobs_delete_session (s : S) tenant key_id sid : res exn S :=
  os_delete_prefix s NS_ARTIFACTS (blob_prefix tenant key_id sid).
Definition blobs_used_bytes (s : S) tenant key_id sid : res exn Z :=
  os_used_bytes s NS_ARTIFACTS (blob_prefix tenant key_id sid).
End adapter.

(** ** The in-memory store has the laws *)

Lemma ns_text_inj n n' : ns_text n = ns_text n' → n = n'.
Proof. by destruct n, n'. Qed.
Lemma ns_no_slash n : slash ∉ ns_text n.
Proof. destruct n; apply (bool_decide_unpack _); vm_compute; exact I. Qed.

Lemma app_sep_inj (sep : ascii) (a a' b b' : list ascii) :
  sep ∉ a → sep ∉ a' → a ++ [sep] ++ b = a' ++ [sep] ++ b' → a = a' ∧ b = b'.
Proof.
  revert a'. induction a as [|c a IH]; intros a' Ha Ha' H.
  - destruct a' as [|c' a']; simplify_eq/=; [done|]. rewrite not_elem_of_cons in Ha'. naive_solver.
  - rewrite not_elem_of_cons in Ha. destruct a' as [|c' a']; simplify_eq/=; [naive_solver|].
    rewrite not_elem_of_cons in Ha'. destruct (IH a') as [-> ->]; naive_solver.
Qed.

Lemma mem_path_inj n n' id id' : mem_path n id = mem_path n' id' → n = n' ∧ id = id'.
Proof.
  intros H. apply (app_sep_inj slash) in H as [H ->]; [|apply ns_no_slash..].
  split; [by apply ns_text_inj|done].
Qed.
Lemma mem_put_ok (s : memory_store) n id data :
  check_object_id id = Ok id → mem_put s n id data = Ok (<[mem_path n id := data]> s).
Proof. unfold mem_put, mem_key. by intros ->. Qed.
Lemma mem_get_ok (s : memory_store) n id : check_object_id id = Ok id → mem_get s n id = Ok (s !! mem_path n id).
Proof. unfold mem_get, mem_key. by intros ->. Qed.

Lemma check_object_id_canonical id :
  check_object_id id = Ok id →
  strip_slashes id = id ∧ id ≠ [] ∧ existsb bad_part (split_on slash id) = false.
Proof.
  unfold check_object_id. case_decide; [done|]. destruct (existsb _ _) eqn:He; [done|].
  intros [= Hs]. by rewrite Hs in *.
Qed.

Lemma lstrip_length P l : (length (lstrip_by P l) ≤ length l)%nat.
Proof. unfold lstrip_by. induction l as [|c l IH]; simpl; [lia|]. destruct (P c); simpl; lia. Qed.
Lemma rstrip_length P l : (length (rstrip_by P l) ≤ length l)%nat.
Proof.
  unfold rstrip_by. rewrite length_rev. etrans; [apply (lstrip_length P)|]. by rewrite length_rev.
Qed.
Lemma lstrip_full P l : length (lstrip_by P l) = length l → lstrip_by P l = l.
Proof.
  unfold lstrip_by. destruct l as [|c l]; simpl; [done|]. destruct (P c); [|done].
  intros H. pose proof (lstrip_length P l). unfold lstrip_by in *. lia.
Qed.
Lemma rstrip_full P l : length (rstrip_by P l) = length l → rstrip_by P l = l.
Proof.
  unfold rstrip_by. rewrite length_rev. change (drop_while P (rev l)) with (lstrip_by P (rev l)).
  intros H. rewrite (lstrip_full P (rev l)); [apply rev_involutive|]. by rewrite H, length_rev.
Qed.
Lemma strip_slashes_canonical l :
  strip_slashes l = l →
  lstrip_by is_space l = l ∧ rstrip_by is_space l = l
  ∧ lstrip_by is_slash l = l ∧ rstrip_by is_slash l = l.
Proof.
  unfold strip_slashes. intros H. pose proof (f_equal length H) as Hlen.
  pose proof (lstrip_length is_space l) as H1.
  pose proof (rstrip_length is_space (lstrip_by is_space l)) as H2.
  pose proof (lstrip_length is_slash (rstrip_by is_space (lstrip_by is_space l))) as H3.
  pose proof (rstrip_length is_slash (lstrip_by is_slash (rstrip_by is_space (lstrip_by is_space l))))
    as H4.
  assert (lstrip_by is_space l = l) as E1 by (apply lstrip_full; lia). rewrite E1 in *.
  assert (rstrip_by is_space l = l) as E2 by (apply rstrip_full; lia). rewrite E2 in *.
  assert (lstrip_by is_slash l = l) as E3 by (apply lstrip_full; lia). rewrite E3 in *.
  done.
Qed.

Lemma lstrip_snoc P l c : l ≠ [] → lstrip_by P l = l → lstrip_by P (l ++ [c]) = l ++ [c].
Proof.
  unfold lstrip_by. destruct l as [|d l]; simpl; [done|]. intros _. destruct (P d) eqn:E; [|done].
  intros H. pose proof (lstrip_length P l). unfold lstrip_by in *. rewrite H in *. simpl in *. lia.
Qed.
Lemma rstrip_snoc P l c : rstrip_by P (l ++ [c]) = if P c then rstrip_by P l else l ++ [c].
Proof.
  unfold rstrip_by. rewrite rev_app_distr. simpl. destruct (P c); [done|]. simpl.
  by rewrite rev_involutive.
Qed.
Lemma strip_slashes_snoc l :
  l ≠ [] → strip_slashes l = l → strip_slashes (l ++ [slash]) = l.
Proof.
  intros Hne H. destruct (strip_slashes_canonical _ H) as (H1 & H2 & H3 & H4).
  unfold strip_slashes. rewrite (lstrip_snoc is_space), (rstrip_snoc is_space) by done.
  change (is_space slash) with false. cbv iota.
  rewrite (lstrip_snoc is_slash), (rstrip_snoc is_slash) by done. done.
Qed.

Lemma startswith_mem_path n n' p id :
  startswith (mem_path n p) (mem_path n' id) = bool_decide (n = n') && startswith p id.
Proof.
  apply eq_true_iff_eq. rewrite andb_true_iff, bool_decide_eq_true, !startswith_app. split.
  - intros [k Hk]. unfold mem_path at 2 in Hk. rewrite <- !app_assoc in Hk.
    apply mem_path_inj in Hk as [-> ->]. eauto.
  - intros [-> [k ->]]. exists k. unfold mem_path. by rewrite <- !app_assoc.
Qed.

Lemma mem_delete_prefix_ok (s : memory_store) n pre :
  check_object_id pre = Ok pre →
  mem_delete_prefix s n (pre ++ [slash])
  = Ok (filter (λ p, startswith (mem_path n (pre ++ [slash])) p.1 = false) s).
Proof.
  intros Hpre. pose proof (check_object_id_canonical _ Hpre) as (Hs & Hne & _).
  unfold mem_delete_prefix, mem_prefix. by rewrite strip_slashes_snoc, decide_False, Hpre by done.
Qed.

#[global] Instance memory_object_store_laws : ObjectStoreLaws memory_store.
Proof.
  split; cbn [os_put os_get os_delete os_delete_prefix memory_object_store].
  - intros s n n' id id' data s' Hput Hid Hid'. rewrite mem_put_ok in Hput by done.
    injection Hput as <-. rewrite !mem_get_ok by done.
    destruct (decide (n = n' ∧ id = id')) as [[-> ->]|Hne]; [by rewrite lookup_insert_eq|].
    rewrite lookup_insert_ne; [done|]. intros [? ?]%mem_path_inj. naive_solver.
  - intros s n id data Hid. rewrite mem_put_ok by done. eauto.
  - intros s n n' id id' s' Hdel Hid Hid'. unfold mem_delete, mem_key in Hdel. rewrite Hid in Hdel.
    injection Hdel as <-. rewrite !mem_get_ok by done.
    destruct (decide (n = n' ∧ id = id')) as [[-> ->]|Hne]; [by rewrite lookup_delete_eq|].
    rewrite lookup_delete_ne; [done|]. intros [? ?]%mem_path_inj. naive_solver.
  - intros s n id Hid. unfold mem_delete, mem_key. rewrite Hid. cbn. eauto.
  - intros s n n' pre id' s' Hdel Hpre Hid'. rewrite mem_delete_prefix_ok in Hdel by done.
    injection Hdel as <-. rewrite !mem_get_ok, map_lookup_filter by done.
    pose proof (startswith_mem_path n n' (pre ++ [slash]) id') as Hst.
    destruct (s !! mem_path n' id') as [data|]; cbn [mbind option_bind].
    + destruct (startswith (mem_path n (pre ++ [slash])) (mem_path n' id')) eqn:E; rewrite <- Hst;
        [rewrite option_guard_False|rewrite option_guard_True]; cbn; congruence.
    + by destruct (bool_decide (n = n') && _).
Qed.

(** ** Keys of sessions *)

Definition edge_ok (c : ascii) : bool := negb (is_space c) && negb (is_slash c).

Lemma strip_slashes_id l :
  from_option edge_ok true (head l) = true → from_option edge_ok true (list.last l) = true →
  strip_slashes l = l.
Proof.
  intros Hh Hl.
  assert (∀ P, (∀ c, edge_ok c = true → P c = false) → lstrip_by P l = l) as HL.
  { intros P HP. destruct l as [|c l]; [done|]. unfold lstrip_by. simpl in *. by rewrite HP. }
  assert (∀ P, (∀ c, edge_ok c = true → P c = false) → rstrip_by P l = l) as HR.
  { intros P HP. destruct l as [|c l _] using rev_ind; [done|]. rewrite rstrip_snoc.
    rewrite last_snoc in Hl. simpl in Hl. by rewrite HP. }
  assert (∀ c, edge_ok c = true → is_space c = false ∧ is_slash c = false) as He.
  { intros c. unfold edge_ok. by destruct (is_space c), (is_slash c). }
  unfold strip_slashes. rewrite (HL is_space), (HR is_space), (HL is_slash), (HR is_slash);
    naive_solver.
Qed.

(** The text of an id: no slash, no space, at least one character. *)
Lemma id_char_edge c : is_id_char c = true → edge_ok c = true ∧ c ≠ "."%char.
Proof.
  intros H. assert (c ∈ filter (λ c, is_id_char c = true) (char <$> (N.of_nat <$> seq 0 256))) as Hin.
  { apply list_elem_of_filter. split; [done|]. apply list_elem_of_fmap. exists (code c).
    split; [unfold char, code; by rewrite ascii_N_embedding|].
    apply list_elem_of_fmap. exists (N.to_nat (code c)). split; [lia|].
    apply elem_of_seq. pose proof (N_ascii_bounded c). unfold code. lia. }
  assert (Forall (λ c, edge_ok c = true ∧ c ≠ "."%char)
    (filter (λ c, is_id_char c = true) (char <$> (N.of_nat <$> seq 0 256)))) as Hall
    by (apply (bool_decide_unpack _); vm_compute; exact I).
  by apply (proj1 (list.Forall_forall _ _) Hall).
Qed.

Lemma uuid_text_ne u : ∃ c l, uuid_text u = c :: l.
Proof.
  unfold uuid_text. rewrite uuid_chars. cbv zeta. pose proof (hex_digits_length 32 u) as H.
  fold (uuid_hex u) in H. destruct (uuid_hex u) as [|c l]; [done|]. simpl. eauto.
Qed.
Lemma uuid_text_head u : from_option edge_ok true (head (uuid_text u)) = true.
Proof.
  destruct (uuid_text_ne u) as (c & l & Hu). pose proof (uuid_chars_all u) as Hall.
  fold (uuid_text u) in Hall. rewrite Hu in *. inversion Hall; subst. simpl.
  by apply id_char_edge.
Qed.
Lemma uuid_text_last u : from_option edge_ok true (list.last (uuid_text u)) = true.
Proof.
  destruct (list.last (uuid_text u)) as [c|] eqn:Hl; [|done]. simpl.
  apply last_Some_elem_of in Hl. apply id_char_edge.
  pose proof (uuid_chars_all u) as Hall. fold (uuid_text u) in Hall.
  by apply (proj1 (list.Forall_forall _ _) Hall).
Qed.
Lemma uuid_text_part u : (slash ∉ uuid_text u) ∧ bad_part (uuid_text u) = false.
Proof.
  split; [apply uuid_no_slash|]. unfold bad_part. apply bool_decide_eq_false.
  destruct (uuid_text_ne u) as (c & l & Hu). pose proof (uuid_chars_all u) as Hall.
  fold (uuid_text u) in Hall. rewrite Hu in *. inversion Hall as [|? ? Hc]; subst.
  apply id_char_edge in Hc as [_ Hc]. intros [Hd|[Hd|Hd]]; simplify_eq/=; done.
Qed.
Lemma uuid_text_inj u v :
  (u < 2 ^ 128)%N → (v < 2 ^ 128)%N → uuid_text u = uuid_text v → u = v.
Proof.
  intros Hu Hv H. apply str_of_uuid_inj; [done..|].
  rewrite <- (of_chars_chars (str_of_uuid u)), <- (of_chars_chars (str_of_uuid v)).
  unfold uuid_text in H. by rewrite H.
Qed.

Lemma blob_user_no_slash key : slash ∉ blob_user key.
Proof.
  unfold blob_user. set (raw := chars (strip key)).
  destruct (_ || _ || _) eqn:E; [apply (bool_decide_unpack _); vm_compute; exact I|].
  apply orb_false_iff in E as [E _]. apply orb_false_iff in E as [_ E].
  by apply bool_decide_eq_false in E.
Qed.
(** A key id whose objects have a well-formed id: not a single dot. *)
Definition key_ok (key : string) : Prop := blob_user key ≠ chars ".".
Lemma blob_user_part key : key_ok key → bad_part (blob_user key) = false.
Proof.
  unfold key_ok, blob_user, bad_part. set (raw := chars (strip key)).
  destruct (_ || _ || _) eqn:E; intros Hk; [done|].
  apply orb_false_iff in E as [E E3]. apply orb_false_iff in E as [E1 _].
  apply bool_decide_eq_false in E1. apply bool_decide_eq_false. intros [Hd|[Hd|Hd]]; [done..|].
  by rewrite Hd in E3.
Qed.

Lemma last_join (parts : list (list ascii)) p c :
  list.last p = Some c → list.last (join [slash] (parts ++ [p])) = Some c.
Proof.
  intros Hp. induction parts as [|q parts IH]; [done|].
  destruct (parts ++ [p]) as [|r rs] eqn:E; [by destruct parts|].
  change (join [slash] ((q :: parts) ++ [p])) with (join [slash] (q :: (parts ++ [p]))).
  rewrite E. change (join [slash] (q :: r :: rs)) with (q ++ [slash] ++ join [slash] (r :: rs)).
  rewrite !last_app, IH. done.
Qed.

Lemma check_parts parts t p d :
  parts = uuid_text t :: drop 1 parts →
  list.last parts = Some p → list.last p = Some d → edge_ok d = true →
  Forall (λ p, (slash ∉ p) ∧ bad_part p = false) parts →
  check_object_id (join [slash] parts) = Ok (join [slash] parts).
Proof.
  intros Hfirst Hlast Hd Hedge Hall. unfold check_object_id.
  destruct (uuid_text_ne t) as (c & l & Ht).
  assert (strip_slashes (join [slash] parts) = join [slash] parts) as ->.
  { apply strip_slashes_id.
    - pose proof (uuid_text_head t) as H. rewrite Hfirst.
      destruct (drop 1 parts); rewrite Ht in *; done.
    - apply last_Some in Hlast as [ps ->]. by rewrite (last_join _ _ d). }
  rewrite decide_False.
  2: { rewrite Hfirst, Ht. by destruct (drop 1 parts). }
  rewrite split_on_join.
  - destruct (existsb bad_part parts) eqn:E; [|done]. apply existsb_exists in E as (q & Hin & Hp).
    apply list_elem_of_In in Hin. apply (proj1 (list.Forall_forall _ _) Hall) in Hin as [_ ?].
    congruence.
  - rewrite Hfirst. done.
  - eapply list.Forall_impl; [exact Hall|]. by intros q [? _].
Qed.

Lemma check_session_id parts t s :
  parts = uuid_text t :: drop 1 parts →
  list.last parts = Some (uuid_text s) →
  Forall (λ p, (slash ∉ p) ∧ bad_part p = false) parts →
  check_object_id (join [slash] parts) = Ok (join [slash] parts).
Proof.
  intros Hfirst Hlast Hall. destruct (uuid_text_ne s) as (c & l & Hs). pose proof (uuid_text_last s) as H.
  destruct (list.last (uuid_text s)) as [d|] eqn:Hd; [|by apply last_None in Hd; rewrite Hs in Hd].
  by apply (check_parts parts t (uuid_text s) d).
Qed.

Lemma check_blob_key t key s a :
  key_ok key → check_object_id (blob_key t key s a) = Ok (blob_key t key s a).
Proof.
  intros Hk. apply (check_session_id _ t a); [done|done|].
  repeat constructor; auto using blob_user_no_slash, blob_user_part;
    apply uuid_text_part.
Qed.

Definition session_dir t key s : list ascii := join [slash] [uuid_text t; blob_user key; uuid_text s].
Lemma check_session_dir t key s :
  key_ok key → check_object_id (session_dir t key s) = Ok (session_dir t key s).
Proof.
  intros Hk. apply (check_session_id _ t s); [done|done|].
  repeat constructor; auto using blob_user_no_slash, blob_user_part;
    apply uuid_text_part.
Qed.
Lemma blob_prefix_dir t key s : blob_prefix t key s = session_dir t key s ++ [slash].
Proof. unfold blob_prefix, session_dir. simpl. by rewrite <- !app_assoc. Qed.
Lemma blob_key_dir t key s a : blob_key t key s a = session_dir t key s ++ [slash] ++ uuid_text a.
Proof. unfold blob_key, session_dir. simpl. by rewrite <- !app_assoc. Qed.

Definition id_ok (u : uuid) : Prop := (u < 2 ^ 128)%N.

Lemma session_dir_inj t key s t' key' s' a a' :
  id_ok t → id_ok s → id_ok t' → id_ok s' →
  session_dir t key s ++ [slash] ++ a = session_dir t' key' s' ++ [slash] ++ a' →
  t = t' ∧ blob_user key = blob_user key' ∧ s = s' ∧ a = a'.
Proof.
  intros Ht Hs Ht' Hs' H. unfold session_dir in H.
  change (join [slash] [uuid_text t; blob_user key; uuid_text s])
    with (uuid_text t ++ [slash] ++ blob_user key ++ [slash] ++ uuid_text s) in H.
  change (join [slash] [uuid_text t'; blob_user key'; uuid_text s'])
    with (uuid_text t' ++ [slash] ++ blob_user key' ++ [slash] ++ uuid_text s') in H.
  rewrite <- !app_assoc in H.
  apply (app_sep_inj slash) in H as [H1 H]; [|apply uuid_no_slash..].
  apply (app_sep_inj slash) in H as [H2 H]; [|apply blob_user_no_slash..].
  apply (app_sep_inj slash) in H as [H3 H]; [|apply uuid_no_slash..].
  split_and!; [by apply uuid_text_inj|done|by apply uuid_text_inj|done].
Qed.

Lemma startswith_session t key s t' key' s' a :
  id_ok t → id_ok s → id_ok t' → id_ok s' →
  startswith (session_dir t key s ++ [slash]) (blob_key t' key' s' a) = true
  ↔ t = t' ∧ blob_user key = blob_user key' ∧ s = s'.
Proof.
  intros Ht Hs Ht' Hs'. rewrite startswith_app, blob_key_dir. split.
  - intros [k Hk]. rewrite <- app_assoc in Hk. symmetry in Hk.
    apply session_dir_inj in Hk; naive_solver.
  - intros (-> & Hk & ->). exists (uuid_text a). unfold session_dir. rewrite Hk.
    by rewrite <- app_assoc.
Qed.

(** ** Sessions do not share objects *)

Section isolation.
Context {S : Type} `{ObjectStoreLaws S}.

Lemma blobs_get_put (s s' : S) t key sid aid t' key' sid' aid' data :
  key_ok key → key_ok key' → blobs_put s t key sid aid data = Ok s' →
  blobs_get s' t' key' sid' aid'
  = if decide (blob_key t key sid aid = blob_key t' key' sid' aid') then Ok (Some data)
    else blobs_get s t' key' sid' aid'.
Proof.
  intros Hk Hk' Hput. unfold blobs_put, blobs_get in *.
  rewrite (os_get_put _ _ _ _ _ _ _ Hput) by auto using check_blob_key.
  destruct (decide (NS_ARTIFACTS = NS_ARTIFACTS ∧ _)) as [[_ ->]|Hn].
  - by rewrite decide_True.
  - rewrite decide_False; [done|]. intros Heq. by apply Hn.
Qed.

(** deleting the objects of a session removes each of them and no object of
    another tenant, key or session, in any store with the laws of [ObjectStore]. *)
Theorem delete_session_isolated (s s' : S) t key sid t' key' sid' aid' :
  id_ok t → id_ok sid → id_ok t' → id_ok sid' → key_ok key → key_ok key' →
  blobs_delete_session s t key sid = Ok s' →
  blobs_get s' t' key' sid' aid'
  = if decide (t = t' ∧ blob_user key = blob_user key' ∧ sid = sid') then Ok None
    else blobs_get s t' key' sid' aid'.
Proof.
  intros Ht Hs Ht' Hs' Hk Hk' Hdel. unfold blobs_delete_session, blobs_get in *.
  rewrite blob_prefix_dir in Hdel.
  rewrite (os_get_delete_prefix _ _ _ _ _ _ Hdel) by auto using check_blob_key, check_session_dir.
  rewrite bool_decide_true by done. cbn [andb].
  destruct (startswith _ _) eqn:E.
  - apply startswith_session in E; [|done..]. by rewrite decide_True.
  - rewrite decide_False; [done|]. intros Heq.
    apply (startswith_session t key sid t' key' sid' aid') in Heq; [congruence|done..].
Qed.
End isolation.

Definition demo_store : memory_store :=
  {[ mem_path NS_ARTIFACTS (blob_key 1 "key" 2 3) := chars "body" ]}.
Lemma delete_session_isolated_witness :
  blobs_get (match blobs_delete_session demo_store 1 "key" 2 with Ok s => s | Err _ => demo_store end)
    1 "key" 2 3 = Ok None.
Proof.
  assert (blobs_delete_session demo_store 1 "key" 2 = Ok (∅ : memory_store)) as Hd
    by (vm_compute; reflexivity).
  rewrite Hd.
  assert (id_ok 1) as H1 by (unfold id_ok; lia). assert (id_ok 2) as H2 by (unfold id_ok; lia).
  assert (key_ok "key") as Hk by (apply (bool_decide_unpack _); vm_compute; exact I).
  rewrite (delete_session_isolated demo_store ∅ 1 "key" 2 1 "key" 2 3 H1 H2 H1 H2 Hk Hk Hd).
  reflexivity.
Defined.
