(* ===== verification/Artifacts.v ===== *)
(** * Artifact uploads of workers (src/src/apipi/services/worker_artifacts.py)

    The two halves of an upload on the API's side: reserving a slot
    (`artifact.presign`) and recording the verified object (`artifact.completed`).
    The object store is any instance of [Blobs.ObjectStore]; SHA-256 and the S3
    client's presigned URLs and HEAD requests are parameters. *)

From S2P Require Import Prelude PyStd Db Blobs.

Open Scope Z_scope.

Definition ARTIFACT_KINDS : list string := ["artifact"; "pi_session"]%string.

Record settings : Type := Settings {
  max_workspace_bytes : Z;
  max_artifact_bytes : Z;
  store_is_s3 : bool;
  presign_ttl : Z
}.

Definition store_err (message : string) : exn := ObjectStoreExn "artifact_store" message None.
Definition fail {A} (message : string) : res exn A := Err (store_err message).

(** ** Checks *)

Definition check_artifact_kind (kind : string) : res exn string :=
  if decide (kind = "input_image")%string then fail "artifact kind is not supported"
  else if decide (kind ∈ ARTIFACT_KINDS) then Ok kind
  else fail "unknown artifact kind".

Definition is_sha256 (text : list ascii) : bool :=
  bool_decide (length text = 64%nat) && forallb is_hex_lower text.
Definition check_sha256 (value : option string) : res exn (option string) :=
  match value with
  | None => Ok None
  | Some v =>
      let text := lower (strip v) in
      if is_sha256 (chars text) then Ok (Some text) else fail "invalid sha256"
  end.

Definition check_completed_path (path : list ascii) : res exn (list ascii) :=
  let text := rstrip_by is_space (lstrip_by is_space path) in
  if decide (text = []) then fail "artifact path is required"
  else if decide (head text = Some slash) then fail "artifact path escapes the session prefix"
  else
    let text := rstrip_by is_slash (lstrip_by is_slash text) in
    if decide (text = []) then fail "artifact path is required"
    else if existsb bad_part (split_on slash text)
    then fail "artifact path escapes the session prefix"
    else Ok text.

Definition check_declared (cfg : settings) (declared : Z) : res exn () :=
  if declared <? 1 then Err (DiskLimitExn "artifact_store" "Artifact is empty")
  else if max_workspace_bytes cfg <? declared
  then Err (DiskLimitExn "workspace_too_large" "Workspace too large")
  else if max_artifact_bytes cfg <? declared
  then Err (DiskLimitExn "artifact_too_large" "Artifact store too large")
  else Ok ().
Definition check_quota (cfg : settings) (r : session_row) (declared : Z) (used : option Z) : res exn () :=
  _ ← check_declared cfg declared;
  if max_artifact_bytes cfg <? default 0 used - s_pi_bytes r + declared
  then Err (DiskLimitExn "artifact_too_large" "Artifact store too large")
  else Ok ().

(** `(x or "").strip() or default` *)
Definition stripped_or (x : option string) (d : string) : string :=
  let t := strip (default "" x)%string in if decide (t = "")%string then d else t.
Definition presign_name (kind : string) (filename : option string) : string :=
  stripped_or filename
    (if decide (kind = "pi_session")%string then "pi-session.jsonl" else "artifact").
Definition artifact_name (upload : upload_row) (name : option string) : string :=
  let t := strip (match name with
                  | Some n => if decide (n = "")%string then u_filename upload else n
                  | None => u_filename upload end) in
  if decide (t = "")%string then u_filename upload else t.

(** ** Slots *)

Record issued : Type := Issued {
  is_unchanged : bool;
  is_upload : option uuid;
  is_artifact : option uuid;
  is_object : option (list ascii);
  is_path : option (list ascii);
  is_url : option string;
  is_headers : list (string * json);
  is_expires : option Z
}.

Section artifacts.
Context {S : Type} `{ObjectStore S}.
(** `hashlib.sha256(data).hexdigest()` *)
Context (sha256_hex : list ascii → string).
(** `S3Store.presign("PUT", ...)`: the URL and the headers of the request. *)
Context (presign_url : list ascii → Z → string → string * list (string * json)).
(** `S3Store.head`: the size of the object. *)
Context (head_object : S → list ascii → res exn (option Z)).
Context (cfg : settings).

Definition digest_blob (s : S) tenant key sid aid : res exn (option string) :=
  data ← blobs_get s tenant key sid aid; Ok (sha256_hex <$> (data : option (list ascii))).

(** `latest_artifact_matches`: the newest artifact at the path decides. *)
Definition key_or (own key : string) : string := if decide (own = "")%string then key else own.
Fixpoint newest_matches (s : S) (newest_first : list artifact_row) tenant key sid
    (path digest : string) : res exn bool :=
  match newest_first with
  | [] => Ok false
  | a :: rest =>
      if decide (a_path a = path) then
        actual ← digest_blob s tenant (key_or (a_key a) key) sid (a_id a);
        Ok (bool_decide (actual = Some (lower digest)))
      else newest_matches s rest tenant key sid path digest
  end.
Definition latest_artifact_matches (s : S) (existing : list artifact_row) tenant key sid path digest :=
  newest_matches s (rev existing) tenant key sid path digest.

Definition precheck_presign (s : S) (d : db) (r : session_row) (kind : string)
    (filename sha256 : option string) : res exn (Z * option bool) :=
  kind ← check_artifact_kind kind;
  digest ← check_sha256 sha256;
  used ← blobs_used_bytes s (s_tenant r) (s_key r) (s_id r);
  match digest with
  | Some dg =>
      if decide (kind = "artifact")%string then
        let existing := default [] (list_artifacts d (s_tenant r) (s_id r)) in
        u ← latest_artifact_matches s existing (s_tenant r) (s_key r) (s_id r)
              (presign_name kind filename) dg;
        Ok (used, Some u)
      else Ok (used, None)
  | None => Ok (used, None)
  end.

(** The slot `issue_artifact_presign` answers from: the one of an earlier call with
    the same request id, with its expiry renewed when it has passed, or a new one. *)
Definition take_slot (d : db) (now : Z) (r : session_row) (kind name : string)
    (content_type digest : option string) (size used : Z) (existing : option upload_row)
    (request : option uuid) (new_upload new_artifact : uuid) : res exn (db * upload_row) :=
  match existing with
  | Some u =>
      if u_expires u <=? now then
        let u := UploadRow (u_id u) (u_tenant u) (u_session u) (u_request u) (u_artifact u)
          (u_kind u) (u_filename u) (u_type u) (u_declared u) (u_sha256 u) (u_complete u)
          (now + presign_ttl cfg) in
        Ok (set_upload d (u_id u) (λ _, u), u)
      else Ok (d, u)
  | None =>
      _ ← check_quota cfg r size (Some used);
      let aid := match s_pi_session r with
                 | Some p => if decide (kind = "pi_session")%string then p else new_artifact
                 | None => new_artifact end in
      let u := UploadRow new_upload (s_tenant r) (s_id r) request aid kind name
        (stripped_or content_type "application/octet-stream") size digest false
        (now + presign_ttl cfg) in
      d ← create_artifact_upload d u; Ok (d, u)
  end.

(** Where the worker puts the bytes. *)
Definition slot_reply (tenant sid : uuid) (key_id : string) (u : upload_row) : res exn issued :=
  let object_id := blob_key tenant key_id sid (u_artifact u) in
  if store_is_s3 cfg then
    let '(url, headers) := presign_url object_id (presign_ttl cfg) (u_type u) in
    Ok (Issued false (Some (u_id u)) (Some (u_artifact u)) (Some object_id) None (Some url) headers
          (Some (u_expires u)))
  else
    path ← local_relative_path NS_ARTIFACTS object_id;
    Ok (Issued false (Some (u_id u)) (Some (u_artifact u)) (Some object_id) (Some path) None []
          (Some (u_expires u))).

Definition unchanged_reply : issued := Issued true None None None None None [] None.

Definition issue_artifact_presign (s : S) (d : db) (now : Z) (tenant sid : uuid) (kind : string)
    (filename content_type : option string) (size : Z) (sha256 : option string) (key_id : string)
    (used : Z) (unchanged : option bool) (request : option uuid) (new_upload new_artifact : uuid)
    : res exn (db * issued) :=
  kind ← check_artifact_kind kind;
  digest ← check_sha256 sha256;
  match get_session d tenant sid None with
  | None => fail "unknown session"
  | Some r =>
      let name := presign_name kind filename in
      let existing := q ← request; get_artifact_upload_by_request d tenant sid q in
      unchanged ← match existing, unchanged, digest with
                  | Some _, _, _ => Ok false
                  | None, Some b, _ => Ok b
                  | None, None, Some dg =>
                      if decide (kind = "artifact")%string
                      then latest_artifact_matches s (default [] (list_artifacts d tenant sid))
                             tenant (s_key r) sid name dg
                      else Ok false
                  | None, None, None => Ok false
                  end;
      if unchanged : bool then Ok (d, unchanged_reply)
      else
        '(d, u) ← take_slot d now r kind name content_type digest size used existing request
                    new_upload new_artifact;
        reply ← slot_reply tenant sid key_id u;
        Ok (d, reply)
  end.

(** ** Completion *)

Definition upload_target (u : upload_row) (tenant sid : uuid) (key_id : string)
    : res exn (list ascii) :=
  _ ← check_artifact_kind (u_kind u);
  let object_id := blob_key tenant key_id sid (u_artifact u) in
  if startswith (blob_prefix tenant key_id sid) object_id then Ok object_id
  else fail "artifact is outside the session prefix".

(** A filesystem upload: the reported path must be the reserved one. *)
Definition check_local_object (s : S) (object_id : list ascii) (path : option (list ascii))
    : res exn (Z * string) :=
  match path with
  | None => fail "filesystem upload needs a session-relative path"
  | Some p =>
      relative ← check_completed_path p;
      expected ← local_relative_path NS_ARTIFACTS object_id;
      if decide (relative = expected) then
        data ← os_get s NS_ARTIFACTS object_id;
        match data with
        | None => fail "uploaded file is missing"
        | Some b => Ok (Z.of_nat (length b), sha256_hex b)
        end
      else fail "artifact path is outside the session prefix"
  end.

Definition check_remote_object (s : S) (u : upload_row) (object_id : list ascii) (size : option Z)
    (expected : option string) : res exn Z :=
  meta ← head_object s object_id;
  match meta with
  | None => fail "Object is missing; PUT the presigned URL first"
  | Some actual =>
      if bool_decide (size ≠ None) && negb (bool_decide (size = Some actual))
      then fail "upload size mismatch"
      else if negb (actual =? u_declared u) && bool_decide (size = None)
      then fail "upload size mismatch"
      else match expected with
           | None => Ok actual
           | Some dg =>
               data ← os_get s NS_ARTIFACTS object_id;
               match data with
               | None => fail "Object is missing; PUT the presigned URL first"
               | Some b =>
                   if decide (sha256_hex b = lower dg) then Ok (Z.of_nat (length b))
                   else fail "upload checksum mismatch"
               end
           end
  end.

Definition verify_upload_object (s : S) (tenant sid : uuid) (u : upload_row) (size : option Z)
    (sha256 : option string) (path : option (list ascii)) (key_id : string) : res exn Z :=
  digest ← check_sha256 sha256;
  object_id ← upload_target u tenant sid key_id;
  let expected := match digest with Some dg => Some dg | None => u_sha256 u end in
  if store_is_s3 cfg then
    match path with
    | Some _ => fail "filesystem path is not valid with the S3 store"
    | None => check_remote_object s u object_id size expected
    end
  else
    '(actual, dig) ← check_local_object s object_id path;
    if bool_decide (size ≠ None) && negb (bool_decide (size = Some actual))
    then fail "upload size mismatch"
    else match expected with
         | Some dg => if decide (dig = lower dg) then Ok actual else fail "upload checksum mismatch"
         | None => Ok actual
         end.

Definition mark_complete (d : db) (uid : uuid) : db :=
  set_upload d uid (λ u, UploadRow (u_id u) (u_tenant u) (u_session u) (u_request u) (u_artifact u)
    (u_kind u) (u_filename u) (u_type u) (u_declared u) (u_sha256 u) true (u_expires u)).

Definition complete_artifact_upload (s : S) (d : db) (now : Z) (tenant sid upload_id : uuid)
    (size : option Z) (sha256 : option string) (path : option (list ascii)) (name : option string)
    (turn : option uuid) (key_id : string) (verified : option Z) : res exn db :=
  match get_artifact_upload d tenant upload_id with
  | None => fail "unknown upload for this session"
  | Some u =>
      if negb (bool_decide (u_session u = sid)) then fail "unknown upload for this session"
      else if u_complete u then Ok d
      else if u_expires u <? now then fail "upload URL expired"
      else
        _ ← upload_target u tenant sid key_id;
        actual ← match verified with
                 | None => verify_upload_object s tenant sid u size sha256 path key_id
                 | Some v => _ ← check_sha256 sha256; Ok v
                 end;
        d ← (if decide (u_kind u = "pi_session")%string then
               match get_session d tenant sid None with
               | None => fail "unknown session"
               | Some r => Ok (put_row d (set_pi r (Some (u_artifact u)) actual))
               end
             else
               '(d, _) ← create_artifact d now tenant sid (artifact_name u name) (u_type u) turn
                           key_id actual (u_artifact u);
               Ok d);
        Ok (mark_complete d (u_id u))
  end.
End artifacts.

(** ** Lemmas *)

(** The same slot, up to the renewal of its expiry. *)
Definition same_slot (u v : upload_row) : Prop :=
  u_id u = u_id v ∧ u_artifact u = u_artifact v ∧ u_type u = u_type v
  ∧ u_filename u = u_filename v ∧ u_kind u = u_kind v ∧ u_declared u = u_declared v
  ∧ u_tenant u = u_tenant v ∧ u_session u = u_session v ∧ u_request u = u_request v.

Lemma create_artifact_upload_ok d u d' :
  create_artifact_upload d u = Ok d' → d' = with_uploads d (uploads d ++ [u]).
Proof. unfold create_artifact_upload. case_decide; [done|]. congruence. Qed.

Lemma take_slot_existing cfg d now r kind name ctype digest size used v q nu na :
  get_artifact_upload_by_request d (s_tenant r) (s_id r) q = Some v →
  ∃ d' u, take_slot cfg d now r kind name ctype digest size used (Some v) (Some q) nu na = Ok (d', u)
    ∧ get_artifact_upload_by_request d' (s_tenant r) (s_id r) q = Some u ∧ same_slot u v
    ∧ sessions d' = sessions d ∧ artifacts d' = artifacts d
    ∧ (u_id <$> uploads d') = (u_id <$> uploads d).
Proof.
  intros Hv. unfold take_slot. destruct (u_expires v <=? now).
  - eexists _, _. split; [done|]. unfold get_artifact_upload_by_request, set_upload in *. cbn.
    split; [|split; [by repeat split|split; [done|split; [done|]]]].
    + apply (find_row_update _ _ _ _ v); [done|by apply bool_decide_eq_true|].
      apply find_row_Some in Hv as [Hv _]. exact Hv.
    + apply update_where_proj. intros x Hx. apply bool_decide_eq_true in Hx. by rewrite Hx.
  - eexists _, _. split; [done|]. by repeat split.
Qed.

Lemma take_slot_new cfg d now r kind name ctype digest size used q nu na d' u :
  get_artifact_upload_by_request d (s_tenant r) (s_id r) q = None →
  take_slot cfg d now r kind name ctype digest size used None (Some q) nu na = Ok (d', u) →
  get_artifact_upload_by_request d' (s_tenant r) (s_id r) q = Some u
  ∧ sessions d' = sessions d ∧ artifacts d' = artifacts d
  ∧ check_quota cfg r size (Some used) = Ok () ∧ u_declared u = size.
Proof.
  intros Hn. unfold take_slot.
  destruct (check_quota cfg r size (Some used)) as [[]|] eqn:Hq; cbn [mbind res_bind]; [|done].
  set (u0 := UploadRow _ _ _ _ _ _ _ _ _ _ _ _).
  destruct (create_artifact_upload d u0) as [d0|] eqn:Hc; cbn [mbind res_bind]; [|done].
  apply create_artifact_upload_ok in Hc as ->. intros [= <- <-]. split_and!; try done.
  unfold get_artifact_upload_by_request in *. cbn. apply find_row_snoc; [done|].
  unfold of_session. cbn. by rewrite !bool_decide_true.
Qed.

Section replay.
Context {S : Type} `{ObjectStore S}.
Context (sha256_hex : list ascii → string).
Context (presign_url : list ascii → Z → string → string * list (string * json)).
Context (cfg : settings).

Local Abbreviation issue := (issue_artifact_presign sha256_hex presign_url cfg).

Lemma slot_reply_same tenant sid key u v :
  same_slot u v →
  match slot_reply presign_url cfg tenant sid key u, slot_reply presign_url cfg tenant sid key v with
  | Ok a, Ok b => is_unchanged a = false ∧ is_unchanged b = false
      ∧ is_upload a = is_upload b ∧ is_artifact a = is_artifact b ∧ is_object a = is_object b
      ∧ is_path a = is_path b ∧ is_url a = is_url b ∧ is_headers a = is_headers b
  | Err a, Err b => a = b
  | _, _ => False
  end.
Proof.
  intros (Hid & Ha & Ht & _). unfold slot_reply. rewrite Hid, Ha, Ht.
  destruct (store_is_s3 cfg); [by destruct (presign_url _ _ _)|].
  by destruct (local_relative_path _ _).
Qed.

(** A second presign of a request whose slot [u] the first one was answered from. *)
Lemma replay_tail (s' : S) d1 now' r u tenant sid kind filename' ctype' size' sha' key used'
    unchanged' q nu' na' a k :
  check_artifact_kind kind = Ok k → res_is_ok (check_sha256 sha') = true →
  get_session d1 tenant sid None = Some r → s_tenant r = tenant → s_id r = sid →
  get_artifact_upload_by_request d1 tenant sid q = Some u →
  slot_reply presign_url cfg tenant sid key u = Ok a →
  ∃ d2 b,
    issue s' d1 now' tenant sid kind filename' ctype' size' sha' key used' unchanged' (Some q)
      nu' na' = Ok (d2, b)
    ∧ is_upload b = is_upload a ∧ is_artifact b = is_artifact a ∧ is_object b = is_object a
    ∧ is_path b = is_path a ∧ is_url b = is_url a ∧ is_headers b = is_headers a
    ∧ (u_id <$> uploads d2) = (u_id <$> uploads d1).
Proof.
  intros Hk Hsha Hr Ht Hid Hfind Hrep. unfold issue_artifact_presign.
  rewrite Hk. cbn [mbind res_bind]. destruct (check_sha256 sha') as [dg|]; [|done].
  cbn [mbind res_bind]. rewrite Hr. cbn [mbind option_bind]. rewrite Hfind. cbn [mbind res_bind].
  destruct (take_slot_existing cfg d1 now' r k (presign_name k filename') ctype' dg size' used' u q
    nu' na') as (d2 & u2 & Hts & _ & Hsame & _ & _ & Hids); [by rewrite Ht, Hid|].
  rewrite Hts. cbn [mbind res_bind]. pose proof (slot_reply_same tenant sid key _ _ Hsame) as Hrr.
  rewrite Hrep in Hrr. destruct (slot_reply _ _ _ _ _ u2) as [b|]; [|done].
  exists d2, b. naive_solver.
Qed.

(** a replayed `artifact.presign` (same request id) is answered from the slot of
    the first one: same upload, artifact, object and path, whatever the quota, the
    clock and the store say by then, and no further slot is reserved. *)
Theorem presign_replay (s s' : S) d now now' tenant sid kind filename filename' ctype ctype' size
    size' sha sha' key used used' unchanged unchanged' q nu na nu' na' d1 a :
  issue s d now tenant sid kind filename ctype size sha key used unchanged (Some q) nu na
    = Ok (d1, a) →
  is_unchanged a = false → keyed d → res_is_ok (check_sha256 sha') = true →
  ∃ d2 b,
    issue s' d1 now' tenant sid kind filename' ctype' size' sha' key used' unchanged' (Some q)
      nu' na' = Ok (d2, b)
    ∧ is_upload b = is_upload a ∧ is_artifact b = is_artifact a ∧ is_object b = is_object a
    ∧ is_path b = is_path a ∧ is_url b = is_url a ∧ is_headers b = is_headers a
    ∧ (u_id <$> uploads d2) = (u_id <$> uploads d1).
Proof.
  intros H1 Hun Hkey Hsha. unfold issue_artifact_presign in H1.
  destruct (check_artifact_kind kind) as [k|] eqn:Hk; cbn [mbind res_bind] in H1; [|done].
  destruct (check_sha256 sha) as [dg|]; cbn [mbind res_bind] in H1; [|done].
  destruct (get_session d tenant sid None) as [r|] eqn:Hr; [|done].
  apply get_session_ids in Hr as Hr'. destruct Hr' as [Ht Hrow]. pose proof (Hkey _ _ Hrow) as Hid.
  cbn [mbind option_bind] in H1.
  destruct (get_artifact_upload_by_request d tenant sid q) as [v|] eqn:Hv; cbn [mbind res_bind] in H1.
  - destruct (take_slot_existing cfg d now r k (presign_name k filename) ctype dg size used v q nu na)
      as (d' & u & Hts & Hfind & _ & Hses & _); [by rewrite Ht, Hid|].
    rewrite Ht, Hid in Hfind. rewrite Hts in H1. cbn [mbind res_bind] in H1.
    destruct (slot_reply _ _ _ _ _ u) as [rep|] eqn:Hrep; cbn [mbind res_bind] in H1; [|done].
    injection H1 as <- <-. eapply (replay_tail s' d' _ r u); try done.
    unfold get_session in *. by rewrite Hses.
  - destruct (match unchanged with Some _ => _ | None => _ end) as [[|]|];
      cbn [mbind res_bind] in H1; [injection H1 as <- <-; done| |done].
    destruct (take_slot _ _ _ _ _ _ _ _ _ _ _ _ _ _) as [[d' u]|] eqn:Hts;
      cbn [mbind res_bind] in H1; [|done].
    apply take_slot_new in Hts as (Hfind & Hses & _); [|by rewrite Ht, Hid].
    rewrite Ht, Hid in Hfind.
    destruct (slot_reply _ _ _ _ _ u) as [rep|] eqn:Hrep; cbn [mbind res_bind] in H1; [|done].
    injection H1 as <- <-. eapply (replay_tail s' d' _ r u); try done.
    unfold get_session in *. by rewrite Hses.
Qed.
End replay.

Section complete.
Context {S : Type} `{ObjectStore S}.
Context (sha256_hex : list ascii → string).
Context (head_object : S → list ascii → res exn (option Z)).
Context (cfg : settings).

Local Abbreviation complete := (complete_artifact_upload sha256_hex head_object cfg).
Local Abbreviation verify := (verify_upload_object sha256_hex head_object cfg).

(** The rows of a recorded upload. *)
Definition recorded (d d' : db) (u : upload_row) (tenant sid : uuid) (key : string)
    (name : option string) (turn : option uuid) (actual : Z) : Prop :=
  if decide (u_kind u = "pi_session"%string) then
    ∃ r, get_session d tenant sid None = Some r
         ∧ sessions d' = sessions (put_row d (set_pi r (Some (u_artifact u)) actual))
         ∧ artifacts d' = artifacts d
  else
    sessions d' = sessions d
    ∧ ∃ a, artifacts d' = artifacts d ++ [a] ∧ a_id a = u_artifact u ∧ a_session a = sid
           ∧ a_tenant a = tenant ∧ a_size a = actual ∧ a_path a = artifact_name u name
           ∧ a_key a = key ∧ a_turn a = turn.

Lemma mark_complete_find d tenant uid u :
  get_artifact_upload d tenant uid = Some u →
  ∃ v, get_artifact_upload (mark_complete d (u_id u)) tenant uid = Some v
       ∧ u_complete v = true ∧ u_session v = u_session u.
Proof.
  intros Hu. eexists. split.
  - unfold get_artifact_upload, mark_complete, set_upload. cbn.
    apply (find_row_update_self _ _ _ _ u); [exact Hu|by apply bool_decide_eq_true|done].
  - done.
Qed.

(** Completing an upload needs the session's own unexpired slot and a verified
    object, records the object under the reserved artifact id (or as the session's
    Pi transcript), and a second completion of the slot changes nothing. *)
Theorem complete_once (s : S) d now tenant sid uid size sha path name turn key verified d' :
  complete s d now tenant sid uid size sha path name turn key verified = Ok d' →
  (∃ u, get_artifact_upload d tenant uid = Some u ∧ u_session u = sid
     ∧ ((u_complete u = true ∧ d' = d)
        ∨ (u_complete u = false ∧ now ≤ u_expires u
           ∧ ∃ actual, recorded d d' u tenant sid key name turn actual
             ∧ match verified with
               | Some v => actual = v
               | None => verify s tenant sid u size sha path key = Ok actual
               end)))
  ∧ ∀ s2 now2 size2 sha2 path2 name2 turn2 key2 verified2,
      complete s2 d' now2 tenant sid uid size2 sha2 path2 name2 turn2 key2 verified2 = Ok d'.
Proof.
  unfold complete_artifact_upload at 1.
  destruct (get_artifact_upload d tenant uid) as [u|] eqn:Hu; [|done].
  destruct (bool_decide (u_session u = sid)) eqn:Hsid; cbn [negb]; [|done].
  pose proof (proj1 (bool_decide_eq_true _) Hsid) as Hses.
  destruct (u_complete u) eqn:Hc.
  { intros [= <-]. split; [exists u; by auto|]. intros. unfold complete_artifact_upload.
    by rewrite Hu, Hsid, Hc. }
  destruct (Z.ltb_spec (u_expires u) now); [done|].
  destruct (upload_target _ _ _ _); cbn [mbind res_bind]; [|done].
  destruct (match verified with Some _ => _ | None => _ end) as [actual|] eqn:Hver;
    cbn [mbind res_bind]; [|done].
  destruct (if decide (u_kind u = "pi_session"%string) then _ else _) as [d1|] eqn:Hd1;
    cbn [mbind res_bind]; [|done].
  intros [= <-].
  assert (uploads d1 = uploads d ∧ recorded d (mark_complete d1 (u_id u)) u tenant sid key name turn actual)
    as [Hup Hrec].
  { unfold recorded. case_decide.
    - destruct (get_session d tenant sid None) as [r|]; [|done]. injection Hd1 as <-.
      split; [done|]. by exists r.
    - unfold create_artifact in Hd1. case_decide; [done|]. cbn in Hd1. injection Hd1 as <-.
      split; [done|]. cbn. split; [done|]. by eexists. }
  split.
  - exists u. split; [done|]. split; [done|]. right. split; [done|]. split; [done|].
    exists actual. split; [done|]. destruct verified; [|done].
    destruct (check_sha256 sha); cbn in Hver; by simplify_eq.
  - intros. unfold complete_artifact_upload.
    destruct (mark_complete_find d1 tenant uid u) as (v & Hv & Hvc & Hvs).
    { unfold get_artifact_upload in *. by rewrite Hup. }
    by rewrite Hv, Hvs, Hsid, Hvc.
Qed.

(** with a shared file system store, a verified upload is the object under the
    session's own key, of the declared size and digest when those are given; no path
    the worker reports can make the API read another object. *)
Theorem verify_local_object (s : S) tenant sid u size sha path key actual :
  store_is_s3 cfg = false →
  verify s tenant sid u size sha path key = Ok actual →
  ∃ data, blobs_get s tenant key sid (u_artifact u) = Ok (Some data)
    ∧ actual = Z.of_nat (length data) ∧ (∀ n, size = Some n → n = actual)
    ∧ (∀ h, check_sha256 sha = Ok (Some h) → sha256_hex data = lower h)
    ∧ (∀ h, check_sha256 sha = Ok None → u_sha256 u = Some h → sha256_hex data = lower h)
    ∧ ∃ p rel, path = Some p ∧ check_completed_path p = Ok rel
               ∧ local_relative_path NS_ARTIFACTS (blob_key tenant key sid (u_artifact u)) = Ok rel.
Proof.
  intros Hlocal. unfold verify_upload_object, upload_target. rewrite Hlocal.
  destruct (check_sha256 sha) as [dg|]; cbn [mbind res_bind]; [|done].
  destruct (check_artifact_kind (u_kind u)); cbn [mbind res_bind]; [|done].
  destruct (startswith _ _); cbn [mbind res_bind]; [|done].
  unfold check_local_object, blobs_get.
  destruct path as [p|]; [|done].
  destruct (check_completed_path p) as [rel|] eqn:Hp; cbn [mbind res_bind]; [|done].
  destruct (local_relative_path _ _) as [want|] eqn:Hw; cbn [mbind res_bind]; [|done].
  case_decide as Hrel; [subst want|done].
  destruct (os_get s NS_ARTIFACTS _) as [[data|]|]; cbn [mbind res_bind]; [|done..].
  destruct (_ && negb _) eqn:Hsize; [done|]. intros Hres. exists data.
  assert (actual = Z.of_nat (length data)) as Hact.
  { case_match; [case_decide; [|done]|]; congruence. }
  split_and!; try done; [| | |by eauto].
  - intros n ->. cbn in Hsize. apply negb_false_iff, bool_decide_eq_true in Hsize. congruence.
  - intros h [= ->]. by case_decide.
  - intros h [= ->] Hu. rewrite Hu in Hres. by case_decide.
Qed.
End complete.

(** ** A concrete upload, for the witnesses *)
Definition demo_settings : settings := Settings 1000 5000 false 900.
Definition demo_row : session_row :=
  SessionRow 2 1 None "key" None None "idle" (JObj []) (JObj []) (JArr [])
    (LeaseCols (Some 9%N) (Some 8%N) (Some 50) 0)
    (SandboxCols None None None None None None None None 0 None) None 0 0.
Definition demo_db : db := Db {[ 2%N := demo_row ]} [] [] [] [] [] [] [] ∅ (Acct [] [] []).
Definition demo_sha (data : list ascii) : string := of_chars (hex_digits 64 (N.of_nat (length data))).
Definition demo_url (_ : list ascii) (_ : Z) (_ : string) : string * list (string * json) := ("", []).
Definition demo_head (_ : memory_store) (_ : list ascii) : res exn (option Z) := Ok None.

Definition demo_presign : res exn (db * issued) :=
  issue_artifact_presign demo_sha demo_url demo_settings demo_store demo_db 10 1 2 "artifact"
    (Some "a.txt"%string) None 4 None "key" 0 None (Some 77%N) 30 3.
Definition demo_presigned : db * issued :=
  match demo_presign with Ok p => p | Err _ => (demo_db, unchanged_reply) end.
Lemma demo_presign_ok : demo_presign = Ok (demo_presigned.1, demo_presigned.2).
Proof. vm_compute. reflexivity. Qed.
Lemma demo_keyed : keyed demo_db.
Proof. intros sid r. cbn. rewrite lookup_singleton_Some. by intros [<- <-]. Qed.

Lemma presign_replay_witness :
  ∃ d2 b, issue_artifact_presign demo_sha demo_url demo_settings (∅ : memory_store)
            demo_presigned.1 99999 1 2 "artifact" None None 700 None "key" 5000 None (Some 77%N) 31 4
          = Ok (d2, b) ∧ is_artifact b = Some 3%N.
Proof.
  assert (is_unchanged demo_presigned.2 = false) as Hun by (vm_compute; reflexivity).
  destruct (presign_replay demo_sha demo_url demo_settings demo_store ∅ demo_db 10 99999 1 2
    "artifact" (Some "a.txt"%string) None None None 4 700 None None "key" 0 5000 None None 77 30 3 31 4
    _ _ demo_presign_ok Hun demo_keyed eq_refl) as (d2 & b & Hi & _ & Ha & _).
  exists d2, b. split; [exact Hi|]. rewrite Ha. vm_compute. reflexivity.
Defined.

Definition demo_path : list ascii := chars ".artifacts/" ++ blob_key 1 "key" 2 3.
Definition demo_complete : res exn db :=
  complete_artifact_upload demo_sha demo_head demo_settings demo_store demo_presigned.1 20 1 2 30
    (Some 4) None (Some demo_path) None None "key" None.
Definition demo_completed : db := match demo_complete with Ok d => d | Err _ => demo_db end.
Lemma demo_complete_ok : demo_complete = Ok demo_completed.
Proof. vm_compute. reflexivity. Qed.
Lemma complete_once_witness :
  ∃ u, get_artifact_upload demo_presigned.1 1 30 = Some u ∧ u_session u = 2%N.
Proof.
  destruct (complete_once demo_sha demo_head demo_settings demo_store demo_presigned.1 20 1 2 30
    (Some 4) None (Some demo_path) None None "key" None _ demo_complete_ok)
    as [(u & Hu & Hs & _) _].
  exists u. split; [exact Hu|exact Hs].
Defined.

Definition demo_upload : upload_row :=
  UploadRow 30 1 2 (Some 77%N) 3 "artifact" "a.txt" "application/octet-stream" 4 None false 910.
Lemma verify_local_object_witness :
  ∃ data, blobs_get demo_store 1 "key" 2 3 = Ok (Some data) ∧ 4 = Z.of_nat (length data).
Proof.
  assert (verify_upload_object demo_sha demo_head demo_settings demo_store 1 2 demo_upload (Some 4)
    None (Some demo_path) "key" = Ok 4) as Hv by (vm_compute; reflexivity).
  destruct (verify_local_object demo_sha demo_head demo_settings demo_store 1 2 demo_upload (Some 4)
    None (Some demo_path) "key" 4 eq_refl Hv) as (data & Hd & Hl & _).
  exists data. split; [exact Hd|exact Hl].
Defined.
