(* ===== verification/Accounting.v ===== *)
(** * Usage accounting (src/src/apipi/services/turn_log.py, usage_service.py,
      store/repo.py)

    A finished turn writes one log row and adds its counts to the rollup of its
    tenant and day; searches are counted per turn and, once the turn has a log row,
    added to that row and to the rollup of the day it was logged.  Readers take the
    rollup when there is one and sum the log rows otherwise. *)

From S2P Require Import Prelude PyStd Db Usage.

Open Scope Z_scope.

(** A day number of a stamp in microseconds. *)
Definition day_of (t : Z) : Z := t / 86400000000.

(** ** Rollups (store/repo.py) *)

(** prompt, completion, cache read, cache write, total, turns, artifact bytes,
    search calls, search units. *)
Definition counts : Type := list Z.
Definition add_counts (a b : counts) : counts := zip_with Z.add a b.
Definition zero_counts : counts := replicate 9 0.

Definition is_rollup (tenant : uuid) (day : Z) (r : rollup_row) : bool :=
  bool_decide (ru_tenant r = tenant ∧ ru_day r = day).
Definition find_rollup (a : acct_tables) (tenant : uuid) (day : Z) : option rollup_row :=
  find_row (is_rollup tenant day) (rollups a).
Definition add_usage_rollup (a : acct_tables) (tenant : uuid) (day : Z) (c : counts) : acct_tables :=
  match find_rollup a tenant day with
  | None => Acct (turn_logs a) (rollups a ++ [RollupRow tenant day c]) (search_counts a)
  | Some _ =>
      Acct (turn_logs a)
        (update_where (is_rollup tenant day)
           (λ r, RollupRow (ru_tenant r) (ru_day r) (add_counts (ru_counts r) c)) (rollups a))
        (search_counts a)
  end.

(** ** Turn logs *)

Definition LOG_STATUSES : list string := ["completed"; "failed"; "cancelled"]%string.
Definition is_log (tenant turn : uuid) (l : turn_log_row) : bool :=
  bool_decide (l_tenant l = tenant ∧ l_turn l = turn).
Definition get_turn_log (a : acct_tables) (tenant turn : uuid) : option turn_log_row :=
  find_row (is_log tenant turn) (turn_logs a).
(** The constraints of the table: the status, and one row per turn. *)
Definition append_turn_log (a : acct_tables) (l : turn_log_row) : res exn acct_tables :=
  if decide (l_status l ∉ LOG_STATUSES) then Err IntegrityExn
  else match get_turn_log a (l_tenant l) (l_turn l) with
       | Some _ => Err IntegrityExn
       | None => Ok (Acct (turn_logs a ++ [l]) (rollups a) (search_counts a))
       end.

Definition log_counts (l : turn_log_row) : counts :=
  [uget (l_usage l) "prompt_tokens"; uget (l_usage l) "completion_tokens";
   uget (l_usage l) "cache_read_tokens"; uget (l_usage l) "cache_write_tokens";
   uget (l_usage l) "total_tokens"; 1; l_artifact_bytes l; l_search_calls l; l_search_units l].

Definition sum_counts (l : list turn_log_row) : counts := foldr (add_counts ∘ log_counts) zero_counts l.

(** `usage_totals` and `usage_day`: the counts without the artifact bytes. *)
Definition usage_totals (a : acct_tables) (tenant : uuid) (sid turn : option uuid)
    (since until : option Z) : counts :=
  sum_counts (filter (λ l,
    bool_decide (l_tenant l = tenant)
    && match sid with Some s => bool_decide (l_session l = s) | None => true end
    && match turn with Some t => bool_decide (l_turn l = t) | None => true end
    && match since with Some t => t <=? l_created l | None => true end
    && match until with Some t => l_created l <? t | None => true end = true) (turn_logs a)).
Definition usage_keys : list string :=
  ["prompt_tokens"; "completion_tokens"; "cache_read_tokens"; "cache_write_tokens";
   "total_tokens"; "turns"; "search_calls"; "search_units"]%string.
Definition usage_dict (c : counts) : list (string * Z) :=
  zip usage_keys (take 6 c ++ drop 7 c).
Definition usage_day (a : acct_tables) (tenant : uuid) (day : Z) : list (string * Z) :=
  match find_rollup a tenant day with
  | Some r => usage_dict (ru_counts r)
  | None => usage_dict (usage_totals a tenant None None (Some (day * 86400000000))
                          (Some ((day + 1) * 86400000000)))
  end.

Definition purge_turn_logs (a : acct_tables) (older_than : Z) : acct_tables :=
  Acct (filter (λ l, older_than ≤ l_created l) (turn_logs a)) (rollups a) (search_counts a).

(** ** Search counts *)

Definition turn_search (a : acct_tables) (tenant turn : uuid) : list search_row :=
  filter (λ s, bool_decide (sc_tenant s = tenant ∧ sc_turn s = turn) = true) (search_counts a).
Definition search_key (provider source : string) : string := sjoin "/" [provider; source].
Definition search_usage_for_turn (a : acct_tables) (tenant turn : uuid)
    : Z * Z * odict string (Z * Z) :=
  let rows := turn_search a tenant turn in
  (foldr Z.add 0 (sc_calls <$> rows), foldr Z.add 0 (sc_units <$> rows),
   foldl (λ d r, <[search_key (sc_provider r) (sc_key_source r) := (sc_calls r, sc_units r)]> d)
     ∅ rows).

Definition is_search (tenant turn : uuid) (provider source : string) (s : search_row) : bool :=
  bool_decide (sc_tenant s = tenant ∧ sc_turn s = turn ∧ sc_provider s = provider
               ∧ sc_key_source s = source).
Definition bump_search (a : acct_tables) (tenant sid turn : uuid) (provider source : string)
    (calls units : Z) : acct_tables :=
  let P := is_search tenant turn provider source in
  match find_row P (search_counts a) with
  | None =>
      Acct (turn_logs a) (rollups a)
        (search_counts a ++ [SearchRow tenant sid turn provider source calls units])
  | Some _ =>
      Acct (turn_logs a) (rollups a)
        (update_where P (λ s, SearchRow (sc_tenant s) (sc_session s) (sc_turn s) (sc_provider s)
           (sc_key_source s) (sc_calls s + calls) (sc_units s + units)) (search_counts a))
  end.
Definition add_log_search (calls units : Z) (key : string) (l : turn_log_row) : turn_log_row :=
  let '(c, u) := default (0, 0) (l_search_counts l !! key) in
  TurnLogRow (l_tenant l) (l_session l) (l_turn l) (l_agent l) (l_model l) (l_status l)
    (l_latency_ms l) (l_usage l) (l_error_code l) (l_request l) (l_tool_names l)
    (l_tool_counts l) (l_mcp_names l) (l_mcp_counts l) (l_search_calls l + calls)
    (l_search_units l + units) (<[key := (c + calls, u + units)]> (l_search_counts l))
    (l_key l) (l_environment_type l) (l_run_mode l) (l_artifact_bytes l) (l_created l).

(** `record_search_usage`; [turn_exists] is `lock_turn`. *)
Definition record_search_usage (a : acct_tables) (turn_exists : bool) (tenant sid turn : uuid)
    (provider source : string) (calls units : Z) : res exn acct_tables :=
  if (calls <? 0) || (units <? 0) then Err ValueExn
  else if negb turn_exists then Err NotFoundExn
  else
    let a := bump_search a tenant sid turn provider source calls units in
    match get_turn_log a tenant turn with
    | None => Ok a
    | Some l =>
        let a := Acct (update_where (is_log tenant turn)
                         (add_log_search calls units (search_key provider source)) (turn_logs a))
                   (rollups a) (search_counts a) in
        Ok (add_usage_rollup a tenant (day_of (l_created l)) [0; 0; 0; 0; 0; 0; 0; calls; units])
    end.

(** ** Writing the log of a turn (services/turn_log.py) *)

(** `settings.usage_store` *)
Inductive usage_store : Set := StoreTurns | StoreRollups | StoreNone.

Record turn_summary : Type := TurnSummary {
  ts_status : string; ts_usage : list (string * Z); ts_error_code : option string;
  ts_request : option string; ts_artifact_bytes : Z; ts_tool_names : list string;
  ts_tool_counts : list (string * json); ts_mcp_names : list string;
  ts_mcp_counts : list (string * json); ts_run_mode : string
}.

Definition latency_ms (now started : Z) : Z := Z.max ((now - started) ÷ 1000) 0.

(** `definition_for_session(...)["model"]` of the session's agent. *)
Section write.
Context (session_model : db → session_row → option string).

Definition write_turn_log (d : db) (now : Z) (store : usage_store) (tenant sid turn : uuid)
    (s : turn_summary) : res exn db :=
  match get_session_turn d tenant sid turn with
  | None => Ok d
  | Some t =>
      let '(calls, units, search) := search_usage_for_turn (acct d) tenant turn in
      let row := get_session d tenant sid None in
      let agent := r ← row; s_agent r in
      let model := r ← row; match s_agent r with Some _ => session_model d r | None => None end in
      let l := TurnLogRow tenant sid turn agent model (ts_status s) (latency_ms now (t_created t))
        (ts_usage s) (ts_error_code s) (ts_request s) (ts_tool_names s) (ts_tool_counts s)
        (ts_mcp_names s) (ts_mcp_counts s) calls units search
        (from_option s_key "" row) (default "" (r ← row; jstr (jfield "type" (s_environment r))))
        (ts_run_mode s) (ts_artifact_bytes s) now in
      a ← match store with
          | StoreTurns => append_turn_log (acct d) l
          | _ => Ok (acct d) end;
      let a := match store with
               | StoreNone => a
               | _ => add_usage_rollup a tenant (day_of now) (log_counts l) end in
      Ok (with_acct d a)
  end.
End write.

(** ** The rollup of a day is the sum of its logs *)

Definition day_logs (a : acct_tables) (tenant : uuid) (day : Z) : list turn_log_row :=
  filter (λ l, l_tenant l = tenant ∧ day_of (l_created l) = day) (turn_logs a).

Record acct_ok (a : acct_tables) : Prop := {
  ac_rollups : NoDup ((λ r, (ru_tenant r, ru_day r)) <$> rollups a);
  ac_logs : NoDup ((λ l, (l_tenant l, l_turn l)) <$> turn_logs a);
  ac_searches : NoDup ((λ s, (sc_tenant s, sc_turn s, sc_provider s, sc_key_source s))
                  <$> search_counts a);
  ac_sum : ∀ tenant day,
    from_option ru_counts zero_counts (find_rollup a tenant day) = sum_counts (day_logs a tenant day);
  ac_log_search : ∀ l, l ∈ turn_logs a →
    l_search_calls l = foldr Z.add 0 (sc_calls <$> turn_search a (l_tenant l) (l_turn l))
    ∧ l_search_units l = foldr Z.add 0 (sc_units <$> turn_search a (l_tenant l) (l_turn l))
}.

(** *** Sums *)

Lemma add_counts_assoc a b c : add_counts a (add_counts b c) = add_counts (add_counts a b) c.
Proof.
  revert b c. induction a as [|x a IH]; intros [|y b] [|z c]; try done. cbn.
  f_equal; [lia|apply IH].
Qed.
Lemma add_counts_comm a b : add_counts a b = add_counts b a.
Proof. revert b. induction a as [|x a IH]; intros [|y b]; try done. cbn. f_equal; [lia|apply IH]. Qed.
Lemma add_counts_zero c : length c = 9%nat → add_counts zero_counts c = c.
Proof. intros H. do 10 (destruct c as [|? c]; try done). Qed.
Lemma log_counts_length l : length (log_counts l) = 9%nat.
Proof. done. Qed.
Lemma sum_counts_length l : length (sum_counts l) = 9%nat.
Proof.
  induction l as [|x l IH]; [done|].
  change (sum_counts (x :: l)) with (zip_with Z.add (log_counts x) (sum_counts l)).
  by rewrite length_zip_with, IH.
Qed.
Lemma sum_counts_cons x l : sum_counts (x :: l) = add_counts (log_counts x) (sum_counts l).
Proof. done. Qed.
Lemma sum_counts_snoc l x : sum_counts (l ++ [x]) = add_counts (sum_counts l) (log_counts x).
Proof.
  induction l as [|y l IH]; [by rewrite add_counts_comm|].
  cbn [app]. rewrite !sum_counts_cons, IH. apply add_counts_assoc.
Qed.

(** One row updated, the others kept. *)
Lemma sum_counts_update (P : turn_log_row → bool) f delta l :
  (∀ x, P x = true → log_counts (f x) = add_counts (log_counts x) delta) →
  sum_counts (update_where P f l)
  = foldr (λ x acc, if P x then add_counts acc delta else acc) (sum_counts l) l.
Proof.
  intros Hf.
  assert (∀ c s l', foldr (λ x acc, if P x then add_counts acc delta else acc) (add_counts c s) l'
            = add_counts c (foldr (λ x acc, if P x then add_counts acc delta else acc) s l')) as Hout.
  { intros c s l'. induction l' as [|y l' IHl]; [done|]. cbn [foldr]. rewrite IHl.
    destruct (P y); [|done]. by rewrite add_counts_assoc. }
  induction l as [|x l IH]; [done|].
  change (update_where P f (x :: l)) with ((if P x then f x else x) :: update_where P f l).
  rewrite !sum_counts_cons. cbn [foldr]. rewrite Hout, IH.
  destruct (P x) eqn:E; [|done]. rewrite (Hf _ E), <- !add_counts_assoc. f_equal.
  apply add_counts_comm.
Qed.

Lemma foldr_if_none {A} (P : A → bool) (g : counts → counts) s l :
  Forall (λ x, P x = false) l → foldr (λ x acc, if P x then g acc else acc) s l = s.
Proof. induction 1 as [|x l Hx _ IH]; [done|]. cbn [foldr]. by rewrite Hx. Qed.

Lemma foldr_if_one {A} (P : A → bool) (g : counts → counts) s l x :
  x ∈ l → P x = true → NoDup l → (∀ y, y ∈ l → P y = true → y = x) →
  foldr (λ x acc, if P x then g acc else acc) s l = g s.
Proof.
  intros Hin HP. induction l as [|y l IH]; [by apply elem_of_nil in Hin|]. intros Hnd Hone.
  apply list.NoDup_cons in Hnd as [Hy Hnd]. cbn [foldr].
  destruct (P y) eqn:E.
  - assert (y = x) as -> by (apply Hone; [by left|done]).
    rewrite foldr_if_none; [done|]. apply list.Forall_forall. intros z Hz.
    destruct (P z) eqn:Ez; [|done]. exfalso. apply Hy. rewrite <- (Hone z); [done|by right|done].
  - apply elem_of_cons in Hin as [->|Hin]; [congruence|].
    apply IH; [done|done|]. intros z Hz. apply Hone. by right.
Qed.

(** *** Preservation *)

Lemma find_rollup_add a tenant day c t y :
  length c = 9%nat →
  from_option ru_counts zero_counts (find_rollup (add_usage_rollup a tenant day c) t y)
  = if decide (tenant = t ∧ day = y)
    then add_counts (from_option ru_counts zero_counts (find_rollup a tenant day)) c
    else from_option ru_counts zero_counts (find_rollup a t y).
Proof.
  intros Hc. unfold add_usage_rollup. destruct (find_rollup a tenant day) as [r|] eqn:Hr.
  - unfold find_rollup in *. cbn [rollups]. rewrite find_row_mapped by done.
    destruct (decide (tenant = t ∧ day = y)) as [[-> ->]|Hne].
    + rewrite Hr. cbn. apply find_row_Some in Hr as [Hr _]. by rewrite Hr.
    + destruct (find_row (is_rollup t y) (rollups a)) as [r'|] eqn:Hr'; [|done]. cbn.
      apply find_row_Some in Hr' as [Hr' _]. unfold is_rollup in *.
      apply bool_decide_eq_true in Hr' as [<- <-].
      rewrite bool_decide_false; [done|]. naive_solver.
  - unfold find_rollup in *. cbn [rollups]. rewrite find_row_app.
    destruct (decide (tenant = t ∧ day = y)) as [[-> ->]|Hne].
    + rewrite Hr. unfold is_rollup. cbn [ru_tenant ru_day]. rewrite bool_decide_true by done.
      cbn [from_option ru_counts]. by rewrite add_counts_zero.
    + destruct (find_row (is_rollup t y) (rollups a)); [done|]. unfold is_rollup. cbn.
      by rewrite bool_decide_false.
Qed.

Lemma add_usage_rollup_nodup a tenant day c :
  NoDup ((λ r, (ru_tenant r, ru_day r)) <$> rollups a) →
  NoDup ((λ r, (ru_tenant r, ru_day r)) <$> rollups (add_usage_rollup a tenant day c)).
Proof.
  intros Hnd. unfold add_usage_rollup. destruct (find_rollup a tenant day) eqn:Hr; cbn [rollups].
  - unfold update_where. rewrite <- list_fmap_compose.
    erewrite list_fmap_ext; [exact Hnd|]. intros i x _. simpl. by case_match.
  - rewrite fmap_app. apply list.NoDup_app. split; [done|]. split; [|apply NoDup_singleton].
    intros x (r & -> & Hin)%list_elem_of_fmap Hx. apply list_elem_of_singleton in Hx.
    apply find_row_None in Hr. apply (proj1 (list.Forall_forall _ _) Hr) in Hin.
    unfold is_rollup in Hin. apply bool_decide_eq_false in Hin. cbn in Hx. naive_solver.
Qed.

Lemma add_usage_rollup_rest a tenant day c :
  turn_logs (add_usage_rollup a tenant day c) = turn_logs a
  ∧ search_counts (add_usage_rollup a tenant day c) = search_counts a.
Proof. unfold add_usage_rollup. by destruct (find_rollup a tenant day). Qed.

Lemma day_logs_snoc a l r s tenant day :
  day_logs (Acct (turn_logs a ++ [l]) r s) tenant day
  = day_logs a tenant day ++ (if decide (l_tenant l = tenant ∧ day_of (l_created l) = day) then [l] else []).
Proof.
  unfold day_logs. cbn [turn_logs]. rewrite list.filter_app, filter_cons.
  by case_decide.
Qed.

Lemma foldr_fmap_add (l : list Z) c : foldr Z.add c l = foldr Z.add 0 l + c.
Proof. induction l as [|x l IH]; cbn; [lia|]. rewrite IH. lia. Qed.

Lemma turn_search_bump a tenant sid turn provider source calls units t u :
  NoDup ((λ s, (sc_tenant s, sc_turn s, sc_provider s, sc_key_source s)) <$> search_counts a) →
  foldr Z.add 0 (sc_calls <$> turn_search (bump_search a tenant sid turn provider source calls units) t u)
  = foldr Z.add 0 (sc_calls <$> turn_search a t u) + (if decide (tenant = t ∧ turn = u) then calls else 0)
  ∧ foldr Z.add 0 (sc_units <$> turn_search (bump_search a tenant sid turn provider source calls units) t u)
  = foldr Z.add 0 (sc_units <$> turn_search a t u) + (if decide (tenant = t ∧ turn = u) then units else 0).
Proof.
  intros Hnd. unfold bump_search. destruct (find_row _ _) as [s|] eqn:Hs; unfold turn_search; cbn [search_counts].
  - assert (∀ l, NoDup ((λ s, (sc_tenant s, sc_turn s, sc_provider s, sc_key_source s)) <$> l) →
      let Q := is_search tenant turn provider source in
      let hit := if existsb Q l then 1 else 0 in
      let P s := bool_decide (sc_tenant s = t ∧ sc_turn s = u) = true in
      let l' := update_where Q (λ s, SearchRow (sc_tenant s) (sc_session s) (sc_turn s)
        (sc_provider s) (sc_key_source s) (sc_calls s + calls) (sc_units s + units)) l in
      foldr Z.add 0 (sc_calls <$> filter P l')
      = foldr Z.add 0 (sc_calls <$> filter P l) + (if decide (tenant = t ∧ turn = u) then hit * calls else 0)
      ∧ foldr Z.add 0 (sc_units <$> filter P l')
      = foldr Z.add 0 (sc_units <$> filter P l) + (if decide (tenant = t ∧ turn = u) then hit * units else 0))
      as Hgen.
    { clear. intros l. cbv zeta. induction l as [|x l IH]; intros Hnd.
      { cbn. case_decide; lia. }
      csimpl in Hnd. apply list.NoDup_cons in Hnd as [Hx Hnd]. specialize (IH Hnd).
      csimpl. destruct (is_search tenant turn provider source x) eqn:Hq; cbn [orb].
      - assert (existsb (is_search tenant turn provider source) l = false) as Hno.
        { destruct (existsb _ l) eqn:E; [|done]. exfalso. apply existsb_exists in E as (y & Hy & Hqy).
          apply Hx. unfold is_search in *. apply bool_decide_eq_true in Hq, Hqy.
          apply list_elem_of_fmap. exists y. split; [|by apply list_elem_of_In].
          destruct Hq as (-> & -> & -> & ->), Hqy as (-> & -> & -> & ->). done. }
        rewrite Hno in IH. unfold is_search in Hq. apply bool_decide_eq_true in Hq as (<- & <- & _ & _).
        rewrite !filter_cons. cbn [sc_tenant sc_turn].
        destruct (decide (sc_tenant x = t ∧ sc_turn x = u)) as [Hd|Hd].
        + rewrite bool_decide_true by done. rewrite !decide_True by done. csimpl.
          destruct IH as [IH1 IH2]. split; [etrans; [apply f_equal, IH1|]|etrans; [apply f_equal, IH2|]]; lia.
        + rewrite bool_decide_false by done. rewrite !decide_False by done.
          destruct IH as [IH1 IH2]. split; [etrans; [apply IH1|]|etrans; [apply IH2|]]; lia.
      - rewrite !filter_cons.
        destruct (decide (bool_decide (sc_tenant x = t ∧ sc_turn x = u) = true)); csimpl; [|done].
        destruct IH as [IH1 IH2].
        split; [etrans; [apply f_equal, IH1|]|etrans; [apply f_equal, IH2|]]; lia. }
    destruct (Hgen _ Hnd) as [H1 H2]. cbv zeta in H1, H2. rewrite H1, H2.
    apply find_row_Some in Hs as [Hq Hin].
    replace (existsb (is_search tenant turn provider source) (search_counts a)) with true.
    { case_decide; lia. }
    symmetry. apply existsb_exists. exists s. split; [by apply list_elem_of_In|done].
  - rewrite list.filter_app, filter_cons. cbn [sc_tenant sc_turn].
    destruct (decide (tenant = t ∧ turn = u)).
    + rewrite bool_decide_true by done. rewrite decide_True by done. rewrite !fmap_app, !foldr_app.
      csimpl. split; rewrite foldr_fmap_add; lia.
    + rewrite bool_decide_false by done. rewrite decide_False by done. rewrite app_nil_r. lia.
Qed.

(** The counts [record_search_usage] adds to a rollup. *)
Definition search_delta (calls units : Z) : counts := [0; 0; 0; 0; 0; 0; 0; calls; units].

Lemma add_log_search_counts calls units key l :
  log_counts (add_log_search calls units key l) = add_counts (log_counts l) (search_delta calls units).
Proof.
  unfold add_log_search. destruct (default (0, 0) _) as [c u].
  unfold log_counts, add_counts, search_delta. cbn [zip_with l_usage l_artifact_bytes
    l_search_calls l_search_units]. by rewrite !Z.add_0_r.
Qed.
Lemma add_log_search_key calls units key l :
  let l' := add_log_search calls units key l in
  l_tenant l' = l_tenant l ∧ l_turn l' = l_turn l ∧ l_created l' = l_created l
  ∧ l_search_calls l' = l_search_calls l + calls ∧ l_search_units l' = l_search_units l + units.
Proof. unfold add_log_search. by destruct (default (0, 0) _) as [c u]. Qed.

Lemma bump_search_rest a tenant sid turn provider source calls units :
  let a' := bump_search a tenant sid turn provider source calls units in
  turn_logs a' = turn_logs a ∧ rollups a' = rollups a.
Proof. unfold bump_search. by destruct (find_row _ _). Qed.

Lemma bump_search_nodup a tenant sid turn provider source calls units :
  let key s := (sc_tenant s, sc_turn s, sc_provider s, sc_key_source s) in
  NoDup (key <$> search_counts a) →
  NoDup (key <$> search_counts (bump_search a tenant sid turn provider source calls units)).
Proof.
  intros key Hnd. unfold bump_search. destruct (find_row _ _) as [s|] eqn:Hs; cbn [search_counts].
  - by rewrite update_where_proj.
  - rewrite fmap_app. apply list.NoDup_app. split; [done|]. split; [|apply NoDup_singleton].
    intros x (r & -> & Hin)%list_elem_of_fmap Hx. apply list_elem_of_singleton in Hx.
    apply find_row_None in Hs. apply (proj1 (list.Forall_forall _ _) Hs) in Hin.
    unfold is_search in Hin. apply bool_decide_eq_false in Hin. unfold key in Hx. cbn in Hx.
    naive_solver.
Qed.

(** With unique logs, updating the one of a turn adds to the day it was logged. *)
Lemma day_logs_update a r s tenant turn l calls units key t y :
  NoDup ((λ l, (l_tenant l, l_turn l)) <$> turn_logs a) →
  get_turn_log a tenant turn = Some l →
  sum_counts (day_logs (Acct (update_where (is_log tenant turn) (add_log_search calls units key)
                                (turn_logs a)) r s) t y)
  = if decide (tenant = t ∧ day_of (l_created l) = y)
    then add_counts (sum_counts (day_logs a t y)) (search_delta calls units)
    else sum_counts (day_logs a t y).
Proof.
  intros Hnd Hl. apply find_row_Some in Hl as [Hl Hin]. unfold day_logs. cbn [turn_logs].
  set (P := λ l0, l_tenant l0 = t ∧ day_of (l_created l0) = y).
  assert (∀ ls, filter P (update_where (is_log tenant turn) (add_log_search calls units key) ls)
    = update_where (is_log tenant turn) (add_log_search calls units key) (filter P ls)) as ->.
  { induction ls as [|x ls IH]; [done|]. csimpl. rewrite !filter_cons.
    destruct (add_log_search_key calls units key x) as (H1 & _ & H3 & _).
    destruct (decide (P x)) as [Hx|Hx].
    - rewrite decide_True; [csimpl; by f_equal|]. unfold P in *. case_match; [|done].
      by rewrite H1, H3.
    - rewrite decide_False; [done|]. unfold P in *. case_match; [|done]. by rewrite H1, H3. }
  rewrite (sum_counts_update _ _ (search_delta calls units)); [|by intros; apply add_log_search_counts].
  assert (∀ z, z ∈ turn_logs a → is_log tenant turn z = true → z = l) as Hone.
  { intros z Hz Hlz. unfold is_log in *. apply bool_decide_eq_true in Hl as [? ?], Hlz as [? ?].
    apply list_elem_of_lookup in Hz as [i Hi]. apply list_elem_of_lookup in Hin as [j Hj].
    assert (i = j) as ->; [|congruence]. eapply (NoDup_lookup _ _ _ (tenant, turn) Hnd);
      rewrite list_lookup_fmap, ?Hi, ?Hj; cbn; congruence. }
  apply NoDup_fmap_1 in Hnd. unfold is_log in Hl. apply bool_decide_eq_true in Hl as [Ht Hu].
  destruct (decide (tenant = t ∧ day_of (l_created l) = y)) as [[-> <-]|Hne].
  - eapply (foldr_if_one _ (λ acc, add_counts acc _)).
    + apply list_elem_of_filter. split; [|exact Hin]. unfold P. by rewrite Ht.
    + unfold is_log. by apply bool_decide_eq_true.
    + by apply list.NoDup_filter.
    + intros z [_ Hz]%list_elem_of_filter Hlz. by apply Hone.
  - apply (foldr_if_none _ (λ acc, add_counts acc _)). apply list.Forall_forall.
    intros z [Hz Hzin]%list_elem_of_filter. destruct (is_log tenant turn z) eqn:E; [|done].
    exfalso. apply Hone in E; [|done]. subst z. apply Hne. unfold P in Hz. by rewrite Ht in Hz.
Qed.

Lemma log_counts_append a l a' :
  append_turn_log a l = Ok a' →
  get_turn_log a (l_tenant l) (l_turn l) = None
  ∧ a' = Acct (turn_logs a ++ [l]) (rollups a) (search_counts a).
Proof.
  unfold append_turn_log. case_decide; [done|]. destruct (get_turn_log _ _ _); [done|].
  intros ?. by simplify_eq.
Qed.

(** A log row written with the turn's search counts and its rollup. *)
Lemma append_log_ok a l a' :
  acct_ok a → append_turn_log a l = Ok a' →
  l_search_calls l = foldr Z.add 0 (sc_calls <$> turn_search a (l_tenant l) (l_turn l)) →
  l_search_units l = foldr Z.add 0 (sc_units <$> turn_search a (l_tenant l) (l_turn l)) →
  acct_ok (add_usage_rollup a' (l_tenant l) (day_of (l_created l)) (log_counts l)).
Proof.
  intros Ha Happ Hcalls Hunits. apply log_counts_append in Happ as [Hnew ->].
  destruct (add_usage_rollup_rest (Acct (turn_logs a ++ [l]) (rollups a) (search_counts a))
    (l_tenant l) (day_of (l_created l)) (log_counts l)) as [Hl Hs].
  split.
  - apply add_usage_rollup_nodup. cbn [rollups]. apply (ac_rollups _ Ha).
  - rewrite Hl. cbn [turn_logs]. rewrite fmap_app. apply list.NoDup_app.
    split; [apply (ac_logs _ Ha)|]. split; [|apply NoDup_singleton].
    intros x (r & -> & Hin)%list_elem_of_fmap Hx. apply list_elem_of_singleton in Hx.
    apply find_row_None in Hnew. apply (proj1 (list.Forall_forall _ _) Hnew) in Hin.
    unfold is_log in Hin. apply bool_decide_eq_false in Hin. cbn in Hx. naive_solver.
  - rewrite Hs. apply (ac_searches _ Ha).
  - intros tenant day. rewrite find_rollup_add by done. unfold find_rollup at 2. cbn [rollups].
    change (find_row (is_rollup tenant day) (rollups a)) with (find_rollup a tenant day).
    unfold find_rollup at 1. cbn [rollups].
    change (find_row (is_rollup (l_tenant l) (day_of (l_created l))) (rollups a))
      with (find_rollup a (l_tenant l) (day_of (l_created l))).
    rewrite !(ac_sum _ Ha).
    assert (day_logs (add_usage_rollup (Acct (turn_logs a ++ [l]) (rollups a) (search_counts a))
      (l_tenant l) (day_of (l_created l)) (log_counts l)) tenant day
      = day_logs a tenant day ++ (if decide (l_tenant l = tenant ∧ day_of (l_created l) = day)
                                  then [l] else [])) as ->.
    { rewrite <- (day_logs_snoc a l (rollups a) (search_counts a)). unfold day_logs. by rewrite Hl. }
    destruct (decide (l_tenant l = tenant ∧ day_of (l_created l) = day)) as [[-> ->]|_].
    + by rewrite sum_counts_snoc.
    + by rewrite app_nil_r.
  - intros l0 Hl0. rewrite Hl in Hl0. unfold turn_search. rewrite Hs. cbn [turn_logs search_counts] in *.
    apply elem_of_app in Hl0 as [Hl0| ->%list_elem_of_singleton]; [by apply (ac_log_search _ Ha)|done].
Qed.

Lemma record_search_ok a ex tenant sid turn provider source calls units a' :
  acct_ok a → record_search_usage a ex tenant sid turn provider source calls units = Ok a' →
  acct_ok a'.
Proof.
  intros Ha. unfold record_search_usage. destruct ((calls <? 0) || (units <? 0)); [done|].
  destruct (negb ex); [done|]. set (b := bump_search a tenant sid turn provider source calls units).
  destruct (bump_search_rest a tenant sid turn provider source calls units) as [Hbl Hbr].
  fold b in Hbl, Hbr.
  assert (∀ t y, find_rollup b t y = find_rollup a t y) as Hfr by (intros; unfold find_rollup; by rewrite Hbr).
  assert (∀ t y, day_logs b t y = day_logs a t y) as Hdl by (intros; unfold day_logs; by rewrite Hbl).
  pose proof (bump_search_nodup a tenant sid turn provider source calls units (ac_searches _ Ha)) as Hbn.
  fold b in Hbn. cbv zeta in Hbn.
  assert (∀ t u, _) as Hts by exact (λ t u, turn_search_bump a tenant sid turn provider source calls
    units t u (ac_searches _ Ha)). fold b in Hts.
  destruct (get_turn_log b tenant turn) as [l|] eqn:Hl.
  - intros [= <-].
    set (c := Acct (update_where (is_log tenant turn)
      (add_log_search calls units (search_key provider source)) (turn_logs b)) (rollups b)
      (search_counts b)).
    destruct (add_usage_rollup_rest c tenant (day_of (l_created l)) (search_delta calls units))
      as [Hcl Hcs]. change [0; 0; 0; 0; 0; 0; 0; calls; units] with (search_delta calls units).
    split.
    + apply add_usage_rollup_nodup. cbn [c rollups]. rewrite Hbr. by apply ac_rollups.
    + rewrite Hcl. cbn [c turn_logs]. rewrite update_where_proj; [rewrite Hbl; by apply ac_logs|].
      intros x _. destruct (add_log_search_key calls units (search_key provider source) x) as (-> & -> & _).
      done.
    + by rewrite Hcs.
    + intros t y. rewrite find_rollup_add by done.
      replace (day_logs (add_usage_rollup c tenant (day_of (l_created l)) (search_delta calls units)) t y)
        with (day_logs c t y) by (unfold day_logs; by rewrite Hcl).
      unfold c at 3. rewrite (day_logs_update b _ _ _ _ l); [|rewrite Hbl; by apply ac_logs|done].
      rewrite Hdl. change (find_rollup c) with (find_rollup b). rewrite !Hfr, !(ac_sum _ Ha).
      destruct (decide (tenant = t ∧ day_of (l_created l) = y)) as [[-> ->]|_]; done.
    + intros l0 Hl0. rewrite Hcl in Hl0. cbn [c turn_logs] in Hl0. unfold turn_search. rewrite Hcs.
      change (search_counts c) with (search_counts b).
      apply list_elem_of_fmap in Hl0 as (x & -> & Hx). rewrite Hbl in Hx.
      destruct (ac_log_search _ Ha _ Hx) as [H1 H2]. destruct (Hts (l_tenant x) (l_turn x)) as [H3 H4].
      destruct (is_log tenant turn x) eqn:E; unfold is_log in E.
      * apply bool_decide_eq_true in E as [E1 E2].
        destruct (add_log_search_key calls units (search_key provider source) x)
          as (-> & -> & _ & -> & ->).
        rewrite decide_True in H3, H4 by done. unfold turn_search in *. split; congruence.
      * apply bool_decide_eq_false in E.
        rewrite decide_False in H3, H4 by naive_solver. unfold turn_search in *. split; lia.
  - intros [= <-]. split.
    + rewrite Hbr. by apply ac_rollups.
    + rewrite Hbl. by apply ac_logs.
    + done.
    + intros t y. rewrite Hfr, Hdl. by apply ac_sum.
    + intros l0 Hl0. rewrite Hbl in Hl0. destruct (ac_log_search _ Ha _ Hl0) as [H1 H2].
      destruct (Hts (l_tenant l0) (l_turn l0)) as [H3 H4].
      apply find_row_None in Hl. rewrite Hbl in Hl. apply (proj1 (list.Forall_forall _ _) Hl) in Hl0.
      unfold is_log in Hl0. apply bool_decide_eq_false in Hl0.
      rewrite decide_False in H3, H4 by naive_solver. lia.
Qed.

(** *** Runs *)

Section runs.
Context (session_model : db → session_row → option string).

(** The commits that write the accounting tables with `usage_store = turns`, and the
    ones that leave them alone. *)
Inductive acct_step : db → db → Prop :=
| log_written d now tenant sid turn s d' :
    write_turn_log session_model d now StoreTurns tenant sid turn s = Ok d' → acct_step d d'
| search_recorded d ex tenant sid turn provider source calls units a :
    record_search_usage (acct d) ex tenant sid turn provider source calls units = Ok a →
    acct_step d (with_acct d a)
| other_commit d d' : acct d' = acct d → acct_step d d'.

Lemma acct_ok_empty : acct_ok (Acct [] [] []).
Proof.
  split; [by apply NoDup_nil_2..| |by intros ? ?%elem_of_nil]. done.
Qed.

Lemma acct_step_ok d d' : acct_step d d' → acct_ok (acct d) → acct_ok (acct d').
Proof.
  destruct 1 as [d now tenant sid turn s d' Hw|d ex tenant sid turn provider source calls units a Hr
                |d d' ->]; intros Ha; [| |done].
  - unfold write_turn_log in Hw. destruct (get_session_turn d tenant sid turn) as [t|]; [|by simplify_eq].
    cbn [search_usage_for_turn] in Hw.
    set (l := TurnLogRow _ _ _ _ _ _ _ _ _ _ _ _ _ _ _ _ _ _ _ _ _ _) in Hw.
    destruct (append_turn_log (acct d) l) as [a|e] eqn:Happ; [|done].
    simplify_eq/=. change (acct_ok (add_usage_rollup a (l_tenant l) (day_of (l_created l)) (log_counts l))).
    by apply (append_log_ok (acct d)).
  - by apply record_search_ok in Hr.
Qed.

Lemma acct_run_ok d d' : rtc acct_step d d' → acct_ok (acct d) → acct_ok (acct d').
Proof. induction 1; [done|]. intros Ha. by eapply IHrtc, acct_step_ok. Qed.

Lemma usage_totals_day a tenant day :
  usage_totals a tenant None None (Some (day * 86400000000)) (Some ((day + 1) * 86400000000))
  = sum_counts (day_logs a tenant day).
Proof.
  unfold usage_totals, day_logs, day_of. f_equal. apply list_filter_iff. intros l.
  rewrite !andb_true_iff, bool_decide_eq_true, Z.leb_le, Z.ltb_lt. split.
  - intros ((((? & _) & _) & ?) & ?). split; [done|].
    symmetry. apply (Z.div_unique_pos _ _ _ (l_created l - day * 86400000000)); lia.
  - intros [? <-]. pose proof (Z.div_mod (l_created l) 86400000000).
    pose proof (Z.mod_pos_bound (l_created l) 86400000000). split_and!; try done; lia.
Qed.

(** whatever turns were logged and searches recorded, in whatever order, the usage
    of a day (read from the rollup when there is one) is the sum over the logs of that
    day; every log carries the calls and units of its turn's search counts, also those
    recorded after it was written; and a turn has one log. *)
Theorem usage_day_exact d d' tenant day :
  acct d = Acct [] [] [] → rtc acct_step d d' →
  usage_day (acct d') tenant day
  = usage_dict (usage_totals (acct d') tenant None None (Some (day * 86400000000))
                  (Some ((day + 1) * 86400000000)))
  ∧ (∀ l, l ∈ turn_logs (acct d') →
      let '(calls, units, _) := search_usage_for_turn (acct d') (l_tenant l) (l_turn l) in
      l_search_calls l = calls ∧ l_search_units l = units)
  ∧ NoDup ((λ l, (l_tenant l, l_turn l)) <$> turn_logs (acct d')).
Proof.
  intros He Hrun. pose proof (acct_run_ok _ _ Hrun) as Ha. rewrite He in Ha.
  specialize (Ha acct_ok_empty). split_and!.
  - unfold usage_day. pose proof (ac_sum _ Ha tenant day) as Hs.
    rewrite usage_totals_day. destruct (find_rollup _ _ _); [|done]. cbn in Hs. by rewrite Hs.
  - intros l Hl. apply (ac_log_search _ Ha l Hl).
  - apply (ac_logs _ Ha).
Qed.
End runs.

(** *** A run: a search, the log of its turn, a late search *)

Definition demo_turn : turn_row := TurnRow 7 1 5 "completed" None 86400000000 86400000000.
Definition demo_db : db := Db ∅ [demo_turn] [] [] [] [] [] [] ∅ (Acct [] [] []).
Definition demo_summary : turn_summary :=
  TurnSummary "completed" [("prompt_tokens", 10); ("total_tokens", 12)]%string None None 64 [] [] [] [] "fleet".
Definition demo_searched : db :=
  with_acct demo_db (bump_search (acct demo_db) 1 5 7 "exa" "own" 2 3).
Definition demo_logged : db :=
  match write_turn_log (λ _ _, None) demo_searched 86400500000 StoreTurns 1 5 7 demo_summary with
  | Ok d => d | Err _ => demo_searched end.
Definition demo_late : db :=
  match record_search_usage (acct demo_logged) true 1 5 7 "exa" "own" 1 1 with
  | Ok a => with_acct demo_logged a | Err _ => demo_logged end.

Lemma demo_run : rtc (acct_step (λ _ _, None)) demo_db demo_late.
Proof.
  eapply rtc_l; [by apply (search_recorded _ demo_db true 1 5 7 "exa" "own" 2 3)|].
  eapply rtc_l; [by apply (log_written _ _ 86400500000 1 5 7 demo_summary demo_logged)|].
  eapply rtc_l; [by apply (search_recorded _ demo_logged true 1 5 7 "exa" "own" 1 1)|].
  apply rtc_refl.
Qed.

Lemma usage_day_exact_witness :
  usage_day (acct demo_late) 1 1
  = usage_dict [10; 0; 0; 0; 12; 1; 64; 3; 4]
  ∧ usage_day (acct demo_late) 1 1
    = usage_dict (usage_totals (acct demo_late) 1 None None (Some (1 * 86400000000))
                    (Some ((1 + 1) * 86400000000))).
Proof.
  split; [vm_compute; reflexivity|].
  exact (proj1 (usage_day_exact (λ _ _, None) demo_db demo_late 1%N 1 eq_refl demo_run)).
Defined.
