(* ===== verification/Ingest.v ===== *)
(** * Ingest of worker envelopes (src/src/apipi/services/ingest.py)

    A batch of durable envelopes is applied in one transaction.  Each envelope runs in
    a savepoint of its own: the ledger claim, the checks and the handler of its type.
    A rejected envelope leaves no trace in the database and is acked past; one that
    fails for a temporary reason stalls its session, and it and the later envelopes of
    the session are handed back to be tried again.

    The object store is an instance of [Blobs.ObjectStore].  The failures of the
    database and the store that the code cannot foresee are the [io] argument of an
    envelope, with the clock reading and the ids its handler draws; the readings of the
    clock within one envelope are taken to be equal. *)

From S2P Require Import Prelude PyStd Protocol Db Sandbox Usage Blobs Artifacts Accounting.

Open Scope Z_scope.

(** ** Reasons, types and records *)

Definition NOT_LEASED : string := "not_leased".
Definition TURN_MISMATCH : string := "turn_mismatch".
Definition UNKNOWN_TURN : string := "unknown_turn".
Definition UNKNOWN_EVENT : string := "unknown_event".
Definition LIVE_EVENT : string := "live_event".
Definition NOT_IMPLEMENTED : string := "not_implemented".
Definition OVERSIZE : string := "oversize".
Definition INVALID_ENVELOPE : string := "invalid_envelope".
Definition UNKNOWN_TYPE : string := "unknown_type".

Definition LEASE_FREE_TYPES : list string := ["workspace.reaped"%string].
Definition DEFERRED_TYPES : list string := [].

(** protocol/events.py *)
Definition PUBLIC_EVENT_TYPES : list string :=
  (String.append "agent.session.") <$>
  ["created"; "in_progress"; "idle"; "requires_action"; "failed"; "error"; "turn.created";
   "turn.in_progress"; "turn.completed"; "turn.failed"; "turn.cancelled";
   "turn.output_text.delta"; "turn.output_text.done"; "turn.item.added"; "turn.item.done";
   "turn.item.nested"; "turn.thinking.started"; "turn.thinking.completed";
   "turn.compaction.started"; "turn.compaction.completed"; "turn.retrying";
   "turn.retry.completed"; "environment.pending"; "environment.connected";
   "environment.disconnected"; "environment.failed"]%string.
Definition LIVE_EVENT_TYPES : list string := ["agent.session.turn.output_text.delta"%string].

Record queued : Type := Queued { q_env : envelope; q_raw : Z }.

Abbreviation fields := (list (string * json)) (only parsing).

Inductive intent : Type :=
| StartIntent (f : fields) (cause : string)
| StopIntent (f : fields) (reason : string) (live_ms : Z).

Record precheck : Type := Precheck {
  p_used : option Z; p_unchanged : option bool; p_verified : option Z; p_error : option exn
}.

Record presign_reply : Type := PresignReply {
  pr_session : uuid; pr_request : uuid; pr_result : res (string * string) issued
}.

Abbreviation wake := (uuid * event_row)%type (only parsing).

Record outcome : Type := Outcome {
  acks : odict uuid Z;
  wakes : list wake;
  rejected : list (uuid * Z * string);
  presign_replies : list presign_reply;
  wipes : list (uuid * string * uuid);
  lifecycle : list intent;
  retry : list queued;
  stopped : list uuid
}.
Definition empty_outcome : outcome := Outcome ∅ [] [] [] [] [] [] [].

(** What a savepoint adds to the outcome while it runs. *)
Record effects : Type := Effects {
  fx_wakes : list wake; fx_replies : list presign_reply; fx_intents : list intent;
  fx_wipes : list (uuid * string * uuid); fx_stopped : list uuid
}.
Definition no_fx : effects := Effects [] [] [] [] [].
Definition fx_wake (w : wake) : effects := Effects [w] [] [] [] [].
Definition fx_app (a b : effects) : effects :=
  Effects (fx_wakes a ++ fx_wakes b) (fx_replies a ++ fx_replies b) (fx_intents a ++ fx_intents b)
    (fx_wipes a ++ fx_wipes b) (fx_stopped a ++ fx_stopped b).

(** The clock, the ids drawn and the failures met by one envelope: [io_early] before
    anything is done, [io_store] inside the calls that reserve or complete an upload,
    [io_late] when the savepoint is released. *)
Inductive fault : Type :=
| DbFault (invalidated : bool) (sqlstate : option string) (operational : bool)
| StoreFault (code message : string) (cause : option exn)
| TimeoutFault
| ConnectionFault
| OtherFault (code : option string).
Definition fault_exn (f : fault) : exn :=
  match f with
  | DbFault invalidated state operational => DbApiExn invalidated state operational
  | StoreFault code message cause => ObjectStoreExn code message cause
  | TimeoutFault => TimeoutExn
  | ConnectionFault => ConnectionExn
  | OtherFault code => OtherExn code
  end.
Record io : Type := Io {
  io_now : Z; io_event : uuid; io_upload : uuid; io_artifact : uuid;
  io_early : option fault; io_store : option fault; io_late : option fault
}.
Definition raise_if (e : option exn) : res exn () :=
  match e with Some e => Err e | None => Ok () end.
Definition may_fail (f : option fault) : res exn () := raise_if (fault_exn <$> f).

(** ** Temporary and permanent failures (services/transient.py) *)

Definition SQLSTATES : list string :=
  ["40001"; "40P01"; "55P03"; "57014"; "57P01"; "57P03"; "53300"; "08000"; "08001";
   "08003"; "08006"]%string.
Definition STORE_CODES : list string :=
  ["SlowDown"; "RequestTimeout"; "RequestTimeoutException"; "InternalError";
   "ServiceUnavailable"; "Throttling"; "ThrottlingException"; "TooManyRequestsException";
   "EndpointConnectionError"; "ConnectTimeoutError"; "ReadTimeoutError";
   "ConnectionClosedError"; "ConnectionError"; "ProxyConnectionError";
   "ResponseStreamingError"; "500"; "502"; "503"; "504"]%string.

Fixpoint is_transient (e : exn) : bool :=
  match e with
  | ObjectStoreExn code _ cause =>
      if decide (code ∈ STORE_CODES) then true
      else match cause with Some c => is_transient c | None => false end
  | DbApiExn invalidated state operational =>
      invalidated
      || match state with Some s => bool_decide (s ∈ SQLSTATES) | None => false end
      || operational
  | TimeoutExn | ConnectionExn => true
  | _ => false
  end.

(** ** The batch under collection (`class IngestBatcher`) *)

Record batcher : Type := Batcher {
  max_messages : nat; max_bytes : Z; queue : list queued; b_bytes : Z; first_at : option Z
}.
Definition batcher_add (now : Z) (b : batcher) (q : queued) : batcher :=
  Batcher (max_messages b) (max_bytes b) (queue b ++ [q]) (b_bytes b + q_raw q)
    (Some (default now (first_at b))).
Definition full (b : batcher) : bool :=
  (max_messages b <=? length (queue b))%nat || (max_bytes b <=? b_bytes b).
Definition window_expired (now window : Z) (b : batcher) : bool :=
  match first_at b with Some t => window <=? now - t | None => false end.
Definition poll_timeout (now window : Z) (b : batcher) : option Z :=
  match queue b, first_at b with
  | _ :: _, Some t => Some (Z.max (window - (now - t)) 0)
  | _, _ => None
  end.
Definition should_flush (now window : Z) (b : batcher) : bool :=
  negb (bool_decide (length (queue b) = 0%nat)) && (full b || window_expired now window b).
Definition take (b : batcher) : list queued * batcher :=
  (queue b, Batcher (max_messages b) (max_bytes b) [] 0 None).

(** ** The turn an envelope speaks of *)

(** A non-empty string under the key: the id it reads as ([None]: not an id). *)
Definition turn_id_in (l : fields) : option (option uuid) :=
  match jstr (jget "turn_id" l) with
  | Some s => if decide (s = ""%string) then None else Some (uuid_of_string s)
  | None => None
  end.
Definition envelope_turn_id (e : envelope) : option uuid :=
  match env_turn e with
  | Some t => Some t
  | None =>
      match turn_id_in (env_payload e) with
      | Some r => r
      | None =>
          if decide (env_type e = "event"%string) then
            match jget "data" (env_payload e) with
            | Some (JObj data) => default None (turn_id_in data)
            | _ => None
            end
          else None
      end
  end.

(** ** `class _TurnCache`: ids of the running and of the latest turn *)

Record turn_cache : Type := TurnCache {
  tc_running : gmap uuid (option uuid); tc_latest : gmap uuid (option uuid)
}.
Definition empty_cache : turn_cache := TurnCache ∅ ∅.
Definition running_id (c : turn_cache) (d : db) (tenant sid : uuid) : turn_cache * option uuid :=
  match tc_running c !! sid with
  | Some t => (c, t)
  | None =>
      let t := t_id <$> get_running_turn d tenant sid in
      (TurnCache (<[sid := t]> (tc_running c)) (tc_latest c), t)
  end.
Definition latest_id (c : turn_cache) (d : db) (tenant sid : uuid) : turn_cache * option uuid :=
  match tc_latest c !! sid with
  | Some t => (c, t)
  | None =>
      let t := t_id <$> get_latest_turn d tenant sid in
      (TurnCache (tc_running c) (<[sid := t]> (tc_latest c)), t)
  end.
Definition invalidate (c : turn_cache) (sid : uuid) : turn_cache :=
  TurnCache (delete sid (tc_running c)) (delete sid (tc_latest c)).

(** ** `_validate` *)

(** `value in {...}`: a list or a dict is not hashable. *)
Definition in_set (v : option json) (l : list string) : res exn bool :=
  match v with
  | Some (JStr s) => Ok (bool_decide (s ∈ l))
  | Some (JArr _) | Some (JObj _) => Err ValueExn
  | _ => Ok false
  end.
Definition uuid_text_in (payload : fields) (key : string) : option uuid :=
  s ← jstr (jget key payload); if decide (s = ""%string) then None else uuid_of_string s.
Definition is_leased_to (worker : uuid) (r : session_row) : bool :=
  bool_decide (worker_id (s_lease r) = Some worker) && bool_decide (lease_id (s_lease r) ≠ None).

(** The checks of an `event` envelope. *)
Definition event_reason (payload : fields) : option string :=
  match jstr (jget "type" payload) with
  | None => Some UNKNOWN_EVENT
  | Some inner =>
      if decide (inner ∉ PUBLIC_EVENT_TYPES) then Some UNKNOWN_EVENT
      else if decide (inner ∈ LIVE_EVENT_TYPES) then Some LIVE_EVENT
      else None
  end.
Definition presign_reason (payload : fields) : option string :=
  match uuid_text_in payload "request_id" with
  | None => Some INVALID_ENVELOPE
  | Some _ =>
      match jint (jget "size" payload) with
      | Some n => if n <? 1 then Some INVALID_ENVELOPE else None
      | None => Some INVALID_ENVELOPE
      end
  end.
Definition session_status_reason (payload : fields) : option string :=
  let status := default JNull (jget "status" payload) in
  let actions := default (JArr []) (jget "required_actions" payload) in
  if match status with JNull => negb (truthy actions) | _ => false end
  then Some INVALID_ENVELOPE else None.

(** The checks that bind an envelope to a turn of its session. *)
Definition turn_reason (c : turn_cache) (d : db) (r : session_row) (e : envelope)
    : turn_cache * option string :=
  let turn := envelope_turn_id e in
  let type := env_type e in
  let started := bool_decide (type = "turn.status"%string)
                 && bool_decide (jstr (jget "status" (env_payload e)) = Some "started"%string) in
  if bool_decide (type ∈ ["item.added"; "item.done"; "usage"]%string) && bool_decide (turn = None)
  then (c, Some INVALID_ENVELOPE)
  else if started then
    match turn with
    | None => (c, Some INVALID_ENVELOPE)
    | Some t =>
        let '(c, running) := running_id c d (s_tenant r) (s_id r) in
        (c, if bool_decide (running ≠ None) && negb (bool_decide (running = Some t))
            then Some TURN_MISMATCH else None)
    end
  else if decide (type = "item.added"%string) then
    let '(c, running) := running_id c d (s_tenant r) (s_id r) in
    (c, if bool_decide (running = None) || negb (bool_decide (running = turn))
        then Some TURN_MISMATCH else None)
  else
    let '(c, mismatch) :=
      match turn with
      | None => (c, false)
      | Some t =>
          let '(c, latest) := latest_id c d (s_tenant r) (s_id r) in
          (c, negb (bool_decide (latest = Some t)))
      end in
    (c, if mismatch : bool then Some TURN_MISMATCH
        else if decide (type = "session.status"%string) then session_status_reason (env_payload e)
        else None).

Definition validate (c : turn_cache) (d : db) (worker : uuid) (row : option session_row)
    (e : envelope) (raw : Z) : turn_cache * res exn (option string) :=
  let type := env_type e in
  let payload := env_payload e in
  if MAX_MESSAGE_BYTES <? raw then (c, Ok (Some OVERSIZE))
  else match row with
  | None => (c, Ok (Some NOT_LEASED))
  | Some r =>
      if negb (is_leased_to worker r) then (c, Ok (Some NOT_LEASED))
      else if decide (type ∈ DEFERRED_TYPES) then (c, Ok (Some NOT_IMPLEMENTED))
      else if decide (type = "sandbox.status"%string) then
        match in_set (jget "status" payload) ["starting"; "ready"; "stopped"]%string with
        | Err ex => (c, Err ex)
        | Ok false => (c, Ok (Some INVALID_ENVELOPE))
        | Ok true => let '(c, reason) := turn_reason c d r e in (c, Ok reason)
        end
      else if decide (type = "artifact.presign"%string) then (c, Ok (presign_reason payload))
      else if decide (type = "artifact.completed"%string) then
        (c, Ok (if decide (uuid_text_in payload "upload_id" = None)
                then Some INVALID_ENVELOPE else None))
      else if decide (type ∈ ["session.stopped"; "workspace.reaped"; "lifecycle.start";
                              "lifecycle.stop"]%string) then (c, Ok None)
      else
        match (if decide (type = "event"%string) then event_reason payload else None) with
        | Some reason => (c, Ok (Some reason))
        | None => let '(c, reason) := turn_reason c d r e in (c, Ok reason)
        end
  end.

(** ** `_claim` *)

(** The unique key of the ledger. *)
Definition claim (d : db) (sid : uuid) (seq : Z) : res exn db :=
  if decide ((sid, seq) ∈ ledger d) then Err DuplicateExn
  else Ok (with_ledger d ({[ (sid, seq) ]} ∪ ledger d)).

(** ** The handlers of `_apply`

    Each gets the tenant and the id of the leased session row. *)

Definition user_file_ids (data : fields) : list string :=
  match jget "content" data with
  | Some (JArr content) =>
      if decide (jstr (jget "role" data) = Some "user"%string) then
        omap (λ part,
          match part with
          | JObj p =>
              if decide (jstr (jget "type" p) = Some "input_image"%string
                         ∨ jstr (jget "type" p) = Some "input_file"%string)
              then jstr (jget "file_id" p) else None
          | _ => None
          end) content
      else []
  | _ => []
  end.

(** `uuid.UUID(str(payload[key]))` *)
Definition required_uuid (payload : fields) (key : string) : res exn uuid :=
  match jget key payload with
  | None => Err ValueExn
  | Some v => match uuid_of_string (py_str v) with Some u => Ok u | None => Err ValueExn end
  end.
Definition reject {A} (reason : string) : res exn A := Err (RejectExn reason).

Definition apply_sandbox_status (d : db) (x : io) (r : session_row) (payload : fields)
    : res exn (db * option wake) :=
  if negb (is_hosted (s_environment r)) then Ok (d, None)
  else
    match apply_transition d (io_now x) r (str_or payload "status" "") payload with
    | (_, None) => reject INVALID_ENVELOPE
    | (d, Some (type, data)) =>
        '(d, e) ← append_event d (io_now x) (io_event x) (s_tenant r) (s_id r) type data;
        Ok (d, Some (s_id r, e))
    end.

Definition apply_turn_status (d : db) (now : Z) (tenant sid : uuid) (payload : fields) : res exn db :=
  match jget "status" payload with
  | None => Err ValueExn
  | Some status =>
      tid ← required_uuid payload "turn_id";
      if decide (jstr (Some status) = Some "started"%string) then
        if match get_turn d tenant tid with
           | Some t => bool_decide (t_session t = sid)
           | None => false end
        then Ok d
        else '(d, _) ← create_turn d now tenant sid "in_progress" tid; Ok d
      else
        match get_session_turn d tenant sid tid, status with
        | None, _ => reject UNKNOWN_TURN
        | Some _, JStr s => Ok (set_turn_status d tid s now)
        | Some _, _ => Err ValueExn
        end
  end.

Definition apply_item_added (d : db) (now : Z) (tenant sid : uuid) (payload : fields) : res exn db :=
  iid ← required_uuid payload "item_id";
  turn ← match jget "turn_id" payload with
         | Some (JStr s) => match uuid_of_string s with Some t => Ok (Some t) | None => Err ValueExn end
         | _ => Ok None end;
  match get_item d tenant iid with
  | Some _ => Ok d
  | None =>
      let data := default [] (jobj (jget "data" payload)) in
      '(d, _) ← create_item d now tenant sid (str_or payload "item_type" "message") data turn iid;
      Ok (link_session_file_item d tenant sid (user_file_ids data) iid)
  end.

(** `{**left, **right}` *)
Definition dict_merge (left right : fields) : fields := foldl (λ acc p, lset acc p.1 p.2) left right.
Definition apply_item_done (d : db) (tenant sid : uuid) (payload : fields) : res exn db :=
  iid ← required_uuid payload "item_id";
  match get_item d tenant iid with
  | None => reject UNKNOWN_TURN
  | Some item =>
      if negb (bool_decide (i_session item = sid)) then reject UNKNOWN_TURN
      else
        _ ← match turn_id_in payload with
            | None => Ok ()
            | Some None => reject TURN_MISMATCH
            | Some (Some t) =>
                if bool_decide (i_turn item ≠ None) && negb (bool_decide (i_turn item = Some t))
                then reject TURN_MISMATCH else Ok ()
            end;
        match jget "data" payload with
        | Some (JObj (p :: l)) => Ok (set_item_data d iid (dict_merge (i_data item) (p :: l)))
        | _ => Ok d
        end
  end.

Definition strings (v : option json) : list string :=
  match v with Some (JArr l) => keep_strings l | _ => [] end.
Section usage.
Context (session_model : db → session_row → option string).

(** [run_mode] is the one the worker registered with. *)
Definition apply_usage (store : usage_store) (d : db) (now : Z) (tenant sid : uuid)
    (run_mode : option string) (payload : fields) : res exn db :=
  tid ← required_uuid payload "turn_id";
  match get_session_turn d tenant sid tid with
  | None => reject UNKNOWN_TURN
  | Some _ =>
      let count key := (key, default (JInt 0) (jget key payload)) in
      stored ← usage_from (Some (JObj
        [count "prompt_tokens"; count "completion_tokens"; count "cache_read_tokens";
         count "cache_write_tokens";
         ("total_tokens", default JNull (jget "total_tokens" payload))]%string));
      write_turn_log session_model (set_turn_usage d tid stored now) now store tenant sid tid
        (TurnSummary (str_or payload "status" "completed") stored
           (jstr (jget "error_code" payload)) (jstr (jget "request_id" payload))
           (default 0 (jint (jget "artifact_bytes" payload)))
           (strings (jget "tool_names" payload)) (default [] (jobj (jget "tool_counts" payload)))
           (strings (jget "mcp_names" payload)) (default [] (jobj (jget "mcp_counts" payload)))
           (default "" run_mode))
  end.
End usage.

Definition apply_event (d : db) (x : io) (tenant sid : uuid) (payload : fields)
    : res exn (db * wake) :=
  match jget "type" payload with
  | Some (JStr inner) =>
      '(d, e) ← append_event d (io_now x) (io_event x) tenant sid inner
                  (default [] (jobj (jget "data" payload)));
      Ok (d, (sid, e))
  | _ => Err ValueExn
  end.
Definition apply_error (d : db) (x : io) (tenant sid : uuid) (payload : fields)
    : res exn (db * wake) :=
  '(d, e) ← append_event d (io_now x) (io_event x) tenant sid "agent.session.error"
              [("message", JStr (str_or payload "message" ""));
               ("code", JStr (str_or payload "code" "internal"))]%string;
  Ok (d, (sid, e)).

Definition present (v : option json) : option json :=
  match v with Some JNull => None | _ => v end.
Definition apply_session_status (d : db) (now : Z) (tenant sid : uuid) (payload : fields) : res exn db :=
  status ← match present (jget "status" payload) with
           | None => Ok None
           | Some (JStr s) => Ok (Some s)
           | Some _ => Err ValueExn end;
  '(d, _) ← update_session d now tenant sid None
              (Changes status None None (present (jget "required_actions" payload)));
  Ok d.

(** services/lifecycle_export.py: [heartbeat_fields], and `_text`. *)
Definition text_or_null (o : option string) : json :=
  match o with Some s => if decide (s = ""%string) then JNull else JStr s | None => JNull end.
Definition uuid_or_null (o : option uuid) : json := jopt_str (str_of_uuid <$> o).
Definition column_or (col : option string) (env : fields) (key : string) : json :=
  match col with
  | Some s => if decide (s = ""%string) then default JNull (jget key env) else JStr s
  | None => default JNull (jget key env)
  end.
Definition heartbeat_fields (r : session_row) : fields :=
  let env := dict_or_empty (s_environment r) in
  let b := s_sandbox r in
  [("tenant_id", JStr (str_of_uuid (s_tenant r)));
   ("org_id", text_or_null (s_org r));
   ("session_id", JStr (str_of_uuid (s_id r)));
   ("agent_id", uuid_or_null (s_agent r));
   ("user_id", text_or_null (s_user r));
   ("key_id", text_or_null (Some (s_key r)));
   ("environment_type", default JNull (jget "type" env));
   ("sandbox_size", column_or (sandbox_size b) env "sandbox_size");
   ("sandbox_image", column_or (sandbox_image b) env "sandbox_image");
   ("image_version", jopt_str (sandbox_image_version b));
   ("image_digest", JNull); ("run_mode", JNull); ("started_at", JNull); ("start_seq", JNull)]%string.
Definition LIFECYCLE_START_KEYS : list string :=
  ["environment_type"; "sandbox_size"; "sandbox_image"; "image_version"; "image_digest";
   "run_mode"; "started_at"]%string.
Definition LIFECYCLE_STOP_KEYS : list string := ["started_at"; "start_seq"]%string.
Definition lifecycle_fields (r : session_row) (payload : fields) (keys : list string) : fields :=
  foldl (λ f key, match present (jget key payload) with
                  | Some v => lset f key v
                  | None => f end) (heartbeat_fields r) keys.
Definition lifecycle_intent (r : session_row) (type : string) (payload : fields) : intent :=
  if decide (type = "lifecycle.start"%string)
  then StartIntent (lifecycle_fields r payload LIFECYCLE_START_KEYS) (str_or payload "cause" "spawn")
  else StopIntent (lifecycle_fields r payload LIFECYCLE_STOP_KEYS) (str_or payload "reason" "stop")
         (default 0 (jint (jget "live_ms" payload))).

(** ** Uploads, `_apply` and `flush_batch` *)

Section ingest.
Context {S : Type} `{ObjectStore S}.
Context (sha256_hex : list ascii → string).
Context (presign_url : list ascii → Z → string → string * list (string * json)).
Context (head_object : S → list ascii → res exn (option Z)).
Context (cfg : settings) (store : usage_store).
Context (session_model : db → session_row → option string).
(** `str(exc)`, and the `code` attribute of the exceptions of the database library. *)
Context (exn_str : exn → string) (library_code : exn → option string).

Definition artifact_error (e : exn) : string * string :=
  match e with
  | RejectExn reason => (reason, exn_str e)
  | DiskLimitExn code _ | ObjectStoreExn code _ _ =>
      (if decide (code = ""%string) then "artifact_store"%string else code, exn_str e)
  | OtherExn code => (sor code "ingest_error", exn_str e)
  | _ => (sor (library_code e) "ingest_error", exn_str e)
  end.

Definition apply_presign (s : S) (d : db) (x : io) (r : session_row) (p : option precheck)
    (payload : fields) : effects * res exn db :=
  match required_uuid payload "request_id", jint (jget "size" payload) with
  | Err e, _ => (no_fx, Err e)
  | Ok _, None => (no_fx, reject INVALID_ENVELOPE)
  | Ok request, Some size =>
      let result :=
        _ ← raise_if (q ← p; p_error q);
        _ ← may_fail (io_store x);
        used ← match (q ← p; p_used q) with
               | Some u => Ok u
               | None => blobs_used_bytes s (s_tenant r) (s_key r) (s_id r) end;
        issue_artifact_presign sha256_hex presign_url cfg s d (io_now x) (s_tenant r) (s_id r)
          (str_or payload "kind" "artifact") (jstr (jget "filename" payload))
          (jstr (jget "content_type" payload)) size (jstr (jget "sha256" payload)) (s_key r) used
          (q ← p; p_unchanged q) (Some request) (io_upload x) (io_artifact x) in
      let reply v := Effects [] [PresignReply (s_id r) request v] [] [] [] in
      match result with
      | Ok (d, i) => (reply (Ok i), Ok d)
      | Err e =>
          if is_transient e then (no_fx, Err e)
          else (reply (Err (artifact_error e)), reject (artifact_error e).1)
      end
  end.

Definition apply_completed (s : S) (d : db) (x : io) (r : session_row) (p : option precheck)
    (payload : fields) : res exn db :=
  turn ← match turn_id_in payload with
         | None => Ok None
         | Some None => reject INVALID_ENVELOPE
         | Some (Some t) => Ok (Some t)
         end;
  match uuid_text_in payload "upload_id" with
  | None => reject INVALID_ENVELOPE
  | Some upload =>
      let result :=
        _ ← raise_if (q ← p; p_error q);
        _ ← may_fail (io_store x);
        complete_artifact_upload sha256_hex head_object cfg s d (io_now x) (s_tenant r) (s_id r)
          upload (jint (jget "size" payload)) (jstr (jget "sha256" payload))
          (chars <$> jstr (jget "path" payload)) (jstr (jget "name" payload)) turn (s_key r)
          (q ← p; p_verified q) in
      match result with
      | Ok d => Ok d
      | Err e => if is_transient e then Err e else reject (artifact_error e).1
      end
  end.

(** `_apply`: the effects that stay even when it raises, and the database. *)
Definition plain (c : turn_cache) (r : res exn db) : turn_cache * effects * res exn db := (c, no_fx, r).
Definition waking (c : turn_cache) (r : res exn (db * wake)) : turn_cache * effects * res exn db :=
  match r with Ok (d, w) => (c, fx_wake w, Ok d) | Err e => (c, no_fx, Err e) end.

Definition apply (s : S) (c : turn_cache) (d : db) (x : io) (r : session_row) (run_mode : option string)
    (p : option precheck) (e : envelope) : turn_cache * effects * res exn db :=
  let tenant := s_tenant r in
  let sid := s_id r in
  let payload := env_payload e in
  let isa t := bool_decide (env_type e = t%string) in
  if isa "sandbox.status" then
    match apply_sandbox_status d x r payload with
    | Ok (d, Some w) => (c, fx_wake w, Ok d)
    | Ok (d, None) => plain c (Ok d)
    | Err ex => plain c (Err ex)
    end
  else if isa "session.stopped" || isa "workspace.reaped" then plain c (Ok d)
  else if isa "lifecycle.start" || isa "lifecycle.stop" then
    (c, Effects [] [] [lifecycle_intent r (env_type e) payload] [] [], Ok d)
  else if isa "turn.status" then
    match apply_turn_status d (io_now x) tenant sid payload with
    | Ok d => plain (invalidate c sid) (Ok d)
    | Err ex => plain c (Err ex)
    end
  else if isa "item.added" then plain c (apply_item_added d (io_now x) tenant sid payload)
  else if isa "item.done" then plain c (apply_item_done d tenant sid payload)
  else if isa "usage" then
    plain c (apply_usage session_model store d (io_now x) tenant sid run_mode payload)
  else if isa "event" then waking c (apply_event d x tenant sid payload)
  else if isa "session.status" then plain c (apply_session_status d (io_now x) tenant sid payload)
  else if isa "artifact.presign" then
    let '(fx, res) := apply_presign s d x r p payload in (c, fx, res)
  else if isa "artifact.completed" then plain c (apply_completed s d x r p payload)
  else if isa "error" then waking c (apply_error d x tenant sid payload)
  else plain c (reject NOT_IMPLEMENTED).

(** The body of a savepoint: what it leaves in the cache and the outcome, and the
    database when it is released. *)
Definition release (x : io) (out : turn_cache * effects * res exn db) : turn_cache * effects * res exn db :=
  let '(c, fx, res) := out in (c, fx, d ← res; _ ← may_fail (io_late x); Ok d).

Definition savepoint (s : S) (c : turn_cache) (d : db) (x : io) (worker : uuid) (r : session_row)
    (run_mode : option string) (p : option precheck) (q : queued)
    : turn_cache * effects * res exn db :=
  let e := q_env q in
  match (_ ← may_fail (io_early x); claim d (env_session e) (env_seq e)) with
  | Err ex => (c, no_fx, Err ex)
  | Ok d =>
      match validate c d worker (Some r) e (q_raw q) with
      | (c, Err ex) => (c, no_fx, Err ex)
      | (c, Ok (Some reason)) => (c, no_fx, reject reason)
      | (c, Ok None) =>
          let '(c, fx, res) := apply s c d x r run_mode p e in
          let fx := if res_is_ok res && bool_decide (env_type e = "session.stopped"%string)
                    then fx_app fx (Effects [] [] [] [(s_tenant r, s_key r, s_id r)] [env_session e])
                    else fx in
          release x (c, fx, res)
      end
  end.

(** An envelope that is already in the ledger: a stop is announced again, and a
    presign request is answered again. *)
Definition duplicate (s : S) (c : turn_cache) (d : db) (x : io) (r : session_row)
    (run_mode : option string) (p : option precheck) (e : envelope)
    : turn_cache * effects * res exn db :=
  if decide (env_type e = "session.stopped"%string)
  then (c, Effects [] [] [] [] [env_session e], Ok d)
  else if decide (env_type e = "artifact.presign"%string)
  then release x (apply s c d x r run_mode p e)
  else (c, no_fx, Ok d).

Definition ingest_leased (s : S) (c : turn_cache) (d : db) (x : io) (worker : uuid)
    (run_mode : option string) (p : option precheck) (row : option session_row) (q : queued)
    : turn_cache * effects * res exn db :=
  match row with
  | None => (c, no_fx, reject NOT_LEASED)
  | Some r =>
      if negb (is_leased_to worker r) then (c, no_fx, reject NOT_LEASED)
      else if MAX_MESSAGE_BYTES <? q_raw q then (c, no_fx, reject OVERSIZE)
      else if decide (env_type (q_env q) ∈ DEFERRED_TYPES) then (c, no_fx, reject NOT_IMPLEMENTED)
      else
        match savepoint s c d x worker r run_mode p q with
        | (c, _, Err DuplicateExn) => duplicate s c d x r run_mode p (q_env q)
        | out => out
        end
  end.

(** *** The loop *)

Record flushing : Type := Flushing {
  f_db : db; f_cache : turn_cache; f_stalled : gset uuid; f_out : outcome
}.
Definition ack (o : outcome) (sid : uuid) (seq : Z) : outcome :=
  Outcome (<[sid := Z.max (default 0 (acks o !! sid)) seq]> (acks o)) (wakes o) (rejected o)
    (presign_replies o) (wipes o) (lifecycle o) (retry o) (stopped o).
(** A failed envelope takes its wakes back, and only them. *)
Definition merge (keep_wakes : bool) (o : outcome) (fx : effects) : outcome :=
  Outcome (acks o) (wakes o ++ (if keep_wakes then fx_wakes fx else [])) (rejected o)
    (presign_replies o ++ fx_replies fx) (wipes o ++ fx_wipes fx) (lifecycle o ++ fx_intents fx)
    (retry o) (stopped o ++ fx_stopped fx).
Definition add_rejected (o : outcome) (sid : uuid) (seq : Z) (reason : string) : outcome :=
  Outcome (acks o) (wakes o) (rejected o ++ [(sid, seq, reason)]) (presign_replies o) (wipes o)
    (lifecycle o) (retry o) (stopped o).
Definition add_retry (o : outcome) (q : queued) : outcome :=
  Outcome (acks o) (wakes o) (rejected o) (presign_replies o) (wipes o) (lifecycle o)
    (retry o ++ [q]) (stopped o).

(** A key that occurs twice keeps the later precheck. *)
Abbreviation prechecks := (gmap (uuid * Z) precheck) (only parsing).

Definition ingest_one (s : S) (worker : uuid) (run_mode : option string) (ps : prechecks)
    (f : flushing) (q : queued) (x : io) : flushing :=
  let e := q_env q in
  let sid := env_session e in
  if decide (sid ∈ f_stalled f) then
    Flushing (f_db f) (f_cache f) (f_stalled f) (add_retry (f_out f) q)
  else
    let row := get_session_by_id (f_db f) sid in
    if bool_decide (row ≠ None) && bool_decide (env_type e ∈ LEASE_FREE_TYPES) then
      Flushing (f_db f) (f_cache f) (f_stalled f) (ack (f_out f) sid (env_seq e))
    else
      match ingest_leased s (f_cache f) (f_db f) x worker run_mode (ps !! (sid, env_seq e)) row q with
      | (c, fx, Ok d) =>
          Flushing d c (f_stalled f) (ack (merge true (f_out f) fx) sid (env_seq e))
      | (c, fx, Err (RejectExn reason)) =>
          Flushing (f_db f) c (f_stalled f)
            (ack (add_rejected (merge false (f_out f) fx) sid (env_seq e) reason) sid (env_seq e))
      | (c, fx, Err ex) =>
          if is_transient ex then
            Flushing (f_db f) c ({[sid]} ∪ f_stalled f) (add_retry (merge false (f_out f) fx) q)
          else
            Flushing (f_db f) c (f_stalled f)
              (ack (add_rejected (merge false (f_out f) fx) sid (env_seq e) "ingest_error") sid
                 (env_seq e))
      end.

Definition ingest_all (s : S) (worker : uuid) (run_mode : option string) (ps : prechecks)
    (f : flushing) (l : list (queued * io)) : flushing :=
  foldl (λ f p, ingest_one s worker run_mode ps f p.1 p.2) f l.

(** The cursor of each acked session that is leased to the worker. *)
Definition set_cursor (r : session_row) (seq : Z) : session_row :=
  set_lease r (LeaseCols (worker_id (s_lease r)) (lease_id (s_lease r)) (lease_until (s_lease r)) seq).
Definition advance_one (worker : uuid) (d : db) (p : uuid * Z) : db :=
  match get_session_by_id d p.1 with
  | Some r =>
      if is_leased_to worker r && (worker_seq (s_lease r) <? p.2)
      then with_sessions d (<[p.1 := set_cursor r p.2]> (sessions d)) else d
  | None => d
  end.
Definition advance_cursors (worker : uuid) (d : db) (a : odict uuid Z) : db :=
  foldl (advance_one worker) d (oitems a).

(** [commit] is the failure of the final flush and commit, if any: then nothing of the
    batch is stored and nothing is acked. *)
Definition flush_with (s : S) (d : db) (worker : uuid) (run_mode : option string) (ps : prechecks)
    (l : list (queued * io)) (commit : option exn) : res exn (db * outcome) :=
  let f := ingest_all s worker run_mode ps (Flushing d empty_cache ∅ empty_outcome) l in
  match commit with
  | Some e => Err e
  | None => Ok (advance_cursors worker (f_db f) (acks (f_out f)), f_out f)
  end.

(** *** `precheck_batch`: the reads of the object store, before the transaction

    [d] is the database as the read-only transaction sees it. *)

Definition wanted (l : list queued) : list queued :=
  filter (λ q, env_type (q_env q) ∈ ["artifact.presign"; "artifact.completed"]%string) l.
Definition upload_in (e : envelope) : option uuid :=
  uuid_of_string (py_str (default JNull (jget "upload_id" (env_payload e)))).
Definition seen_uploads (d : db) (l : list queued) : gmap uuid (option upload_row) :=
  foldl (λ m q,
    let e := q_env q in
    match get_session_by_id d (env_session e), upload_in e with
    | Some r, Some uid =>
        if decide (env_type e = "artifact.completed"%string)
        then <[uid := get_artifact_upload d (s_tenant r) uid]> m else m
    | _, _ => m
    end) ∅ l.

(** The prechecks so far, and the names completed in the batch. *)
Definition prechecking : Type := (gmap (uuid * Z) precheck * gset (uuid * string))%type.

Definition failed_precheck (e : exn) : precheck := Precheck None None None (Some e).

Definition precheck_presign_one (s : S) (d : db) (r : session_row) (e : envelope) (a : prechecking)
    : prechecking :=
  let '(results, completed) := a in
  let payload := env_payload e in
  let key := (env_session e, env_seq e) in
  match jint (jget "size" payload) with
  | None => a
  | Some n =>
      if n <? 1 then a
      else
        let kind := str_or payload "kind" "artifact" in
        let filename := jstr (jget "filename" payload) in
        match precheck_presign sha256_hex s d r kind filename (jstr (jget "sha256" payload)) with
        | Err ex => (<[key := failed_precheck ex]> results, completed)
        | Ok (used, unchanged) =>
            let unchanged := if decide ((env_session e, presign_name kind filename) ∈ completed)
                             then Some false else unchanged in
            (<[key := Precheck (Some used) unchanged None None]> results, completed)
        end
  end.

Definition precheck_completed_one (s : S) (r : session_row) (ups : gmap uuid (option upload_row))
    (e : envelope) (a : prechecking) : prechecking :=
  let '(results, completed) := a in
  let payload := env_payload e in
  let key := (env_session e, env_seq e) in
  match (uid ← upload_in e; u ← ups !! uid; u) with
  | None => a
  | Some u =>
      if negb (bool_decide (u_session u = env_session e)) || u_complete u then a
      else
        match verify_upload_object sha256_hex head_object cfg s (s_tenant r) (env_session e) u
                (jint (jget "size" payload)) (jstr (jget "sha256" payload))
                (chars <$> jstr (jget "path" payload)) (s_key r) with
        | Err ex => (<[key := failed_precheck ex]> results, completed)
        | Ok n => (<[key := Precheck None None (Some n) None]> results,
                   {[ (env_session e, artifact_name u (jstr (jget "name" payload))) ]} ∪ completed)
        end
  end.

Definition precheck_one (s : S) (d : db) (worker : uuid) (ups : gmap uuid (option upload_row))
    (a : prechecking) (q : queued) : prechecking :=
  let e := q_env q in
  match get_session_by_id d (env_session e) with
  | None => a
  | Some r =>
      if negb (is_leased_to worker r) || (MAX_MESSAGE_BYTES <? q_raw q) then a
      else if decide (env_type e = "artifact.presign"%string) then precheck_presign_one s d r e a
      else precheck_completed_one s r ups e a
  end.

Definition precheck_batch (s : S) (d : db) (worker : uuid) (l : list queued)
    : gmap (uuid * Z) precheck :=
  let l := wanted l in
  (foldl (precheck_one s d worker (seen_uploads d l)) (∅, ∅) l).1.

(** `flush_batch`: [d0] is the database the prechecks read, [d] the one the transaction
    starts from. *)
Definition flush_batch (s : S) (d0 d : db) (worker : uuid) (run_mode : option string)
    (l : list (queued * io)) (commit : option exn) : res exn (db * outcome) :=
  if decide (l = []) then Ok (d, empty_outcome)
  else flush_with s d worker run_mode (precheck_batch s d0 worker l.*1) l commit.

(** `last_seq_for` *)
Definition last_seq_for (d : db) (worker sid : uuid) : option Z :=
  r ← get_session_by_id d sid;
  if is_leased_to worker r then Some (worker_seq (s_lease r)) else None.
End ingest.

(** ** `classify_incoming` *)

Inductive incoming : Type := InOther | InEphemeral (e : envelope) (size : Z) | InEnvelope (e : envelope) (size : Z).
Section classify.
Context (validate_envelope : json → option envelope).
Context (validate_payload : string → list (string * json) → bool).

(** `data.get("v") != 2`; `2.0 == 2`. *)
Definition is_v2 (data : json) : bool :=
  match jfield "v" data with
  | Some (JInt v) => v =? 2
  | Some (JFloat r) => bool_decide (r = "2.0"%string)
  | _ => false
  end.
Definition classify_incoming (data : json) (raw_size : option Z) : res exn incoming :=
  if negb (is_v2 data) then Ok InOther
  else
    let size := default (wire_size data) raw_size in
    match parse_envelope validate_envelope validate_payload data with
    | Err (UnknownMessageType _) => reject UNKNOWN_TYPE
    | Err _ => reject INVALID_ENVELOPE
    | Ok e => if decide (env_type e ∈ EPHEMERAL_MESSAGE_TYPES) then Ok (InEphemeral e size)
              else Ok (InEnvelope e size)
    end.
End classify.
