(* ===== verification/IngestSpec.v ===== *)
(** * What an envelope may change (for src/src/apipi/services/ingest.py)

    [session_step] is the contract of the handlers of [Ingest.apply]: they keep the
    constraints of the schema and the numbering of the events, write rows of the
    envelope's session only, and leave its lease and its cursor alone. *)

From S2P Require Import Prelude PyStd Protocol Db Sandbox Usage Blobs Artifacts Accounting Ingest.

Open Scope Z_scope.

(** ** The constraints of the schema, and event numbers without gaps *)

Record db_ok (d : db) : Prop := {
  ok_keyed : keyed d;
  ok_turns : NoDup (t_id <$> turns d);
  ok_items : NoDup (i_id <$> items d);
  ok_events : NoDup (e_id <$> events d);
  ok_artifacts : NoDup (a_id <$> artifacts d);
  ok_uploads : NoDup (u_id <$> uploads d);
  ok_environments : NoDup (er_id <$> environments d);
  ok_numbers : ∀ tenant sid,
    e_seq <$> session_events d tenant sid = seqZ 1 (Z.of_nat (length (session_events d tenant sid)))
}.

(** ** The rows of other sessions *)

Definition foreign {R} (tenant sid : uuid) (owner : R → uuid * uuid) (l : list R) : list R :=
  filter (λ x, owner x ≠ (tenant, sid)) l.

Lemma foreign_snoc {R} tenant sid (owner : R → uuid * uuid) l x :
  owner x = (tenant, sid) → foreign tenant sid owner (l ++ [x]) = foreign tenant sid owner l.
Proof.
  intros Hx. unfold foreign. rewrite list.filter_app, filter_cons, decide_False by naive_solver.
  by rewrite filter_nil, app_nil_r.
Qed.

Lemma foreign_update {R} tenant sid (owner : R → uuid * uuid) P f (l : list R) :
  (∀ x, x ∈ l → P x = true → owner x = (tenant, sid) ∧ owner (f x) = (tenant, sid)) →
  foreign tenant sid owner (update_where P f l) = foreign tenant sid owner l.
Proof.
  unfold foreign, update_where. induction l as [|x l IH]; intros H; [done|].
  csimpl. rewrite !filter_cons, IH by (intros y ? ?; apply H; [by right|done]).
  destruct (P x) eqn:E; [|done].
  destruct (H x) as [H1 H2]; [by left|done|]. by rewrite !decide_False by naive_solver.
Qed.

(** A row found by its unique id is the only one with that id. *)
Lemma unique_row {R} (id : R → uuid) (l : list R) x y :
  NoDup (id <$> l) → x ∈ l → y ∈ l → id x = id y → x = y.
Proof.
  intros Hnd [i Hi]%list_elem_of_lookup [j Hj]%list_elem_of_lookup Hid.
  assert (i = j) as ->; [|congruence].
  eapply (NoDup_lookup _ _ _ (id x) Hnd); rewrite list_lookup_fmap, ?Hi, ?Hj; cbn; congruence.
Qed.

Lemma foreign_update_id {R} tenant sid (owner : R → uuid * uuid) (id : R → uuid) f (l : list R) x :
  NoDup (id <$> l) → x ∈ l → owner x = (tenant, sid) → owner (f x) = (tenant, sid) →
  foreign tenant sid owner (update_where (λ y, bool_decide (id y = id x)) f l)
  = foreign tenant sid owner l.
Proof.
  intros Hnd Hx H1 H2. apply foreign_update. intros y Hy Hid%bool_decide_eq_true.
  by rewrite (unique_row id l y x).
Qed.

Definition t_owner t := (t_tenant t, t_session t).
Definition i_owner i := (i_tenant i, i_session i).
Definition e_owner e := (e_tenant e, e_session e).
Definition a_owner a := (a_tenant a, a_session a).
Definition u_owner u := (u_tenant u, u_session u).
Definition er_owner e := (er_tenant e, er_session e).
Definition sf_owner f := (sf_tenant f, sf_session f).

(** ** The contract *)

(** [new] are the events it stores. *)
Record session_step_with (new : list event_row) (tenant sid : uuid) (d d' : db) : Prop := {
  ss_ok : db_ok d → db_ok d';
  ss_row : ∀ r, sessions d !! sid = Some r →
    ∃ r', sessions d' = <[sid := r']> (sessions d)
      ∧ s_id r' = s_id r ∧ s_tenant r' = s_tenant r ∧ s_lease r' = s_lease r;
  ss_turns : foreign tenant sid t_owner (turns d') = foreign tenant sid t_owner (turns d);
  ss_items : foreign tenant sid i_owner (items d') = foreign tenant sid i_owner (items d);
  ss_events : foreign tenant sid e_owner (events d') = foreign tenant sid e_owner (events d);
  ss_artifacts : foreign tenant sid a_owner (artifacts d') = foreign tenant sid a_owner (artifacts d);
  ss_uploads : foreign tenant sid u_owner (uploads d') = foreign tenant sid u_owner (uploads d);
  ss_environments :
    foreign tenant sid er_owner (environments d') = foreign tenant sid er_owner (environments d);
  ss_files : foreign tenant sid sf_owner (session_files d') = foreign tenant sid sf_owner (session_files d);
  ss_ledger : ledger d' = ledger d;
  ss_log : events d' = events d ++ new
}.
Abbreviation session_step := (session_step_with []).

Lemma session_step_refl tenant sid d : session_step tenant sid d d.
Proof.
  split; try done; [|by rewrite app_nil_r].
  intros r Hr. exists r. split_and!; try done. by rewrite insert_id.
Qed.
Lemma session_step_trans n1 n2 tenant sid d1 d2 d3 :
  session_step_with n1 tenant sid d1 d2 → session_step_with n2 tenant sid d2 d3 →
  session_step_with (n1 ++ n2) tenant sid d1 d3.
Proof.
  intros H1 H2. split; try (etrans; [apply H2|apply H1]); try (intros; by apply H2, H1).
  - intros r Hr. destruct (ss_row _ _ _ _ _ H1 r Hr) as (r1 & E1 & I1 & T1 & L1).
    destruct (ss_row _ _ _ _ _ H2 r1) as (r2 & E2 & I2 & T2 & L2); [by rewrite E1, lookup_insert_eq|].
    exists r2. rewrite E2, E1, insert_insert_eq. split_and!; [done|congruence..].
  - by rewrite (ss_log _ _ _ _ _ H2), (ss_log _ _ _ _ _ H1), app_assoc.
Qed.
(** Composition with a step that stores no event. *)
Lemma session_step_then tenant sid d1 d2 d3 :
  session_step tenant sid d1 d2 → session_step tenant sid d2 d3 → session_step tenant sid d1 d3.
Proof. apply (session_step_trans [] []). Qed.

(** The fields of a step that leaves a table alone. *)
Ltac split_step := split; try done; try by rewrite app_nil_r.
Ltac same_row := let r := fresh in let H := fresh in intros r H; exists r; rewrite insert_id by done; done.
Ltac table_ok := let H := fresh in intros H; destruct H; split; try done.

(** A wake names the session and an event of it. *)
Definition wake_of (tenant sid : uuid) (w : wake) : Prop := w.1 = sid ∧ e_owner w.2 = (tenant, sid).

(** ** The repository functions keep the contract *)

Section writes.
Context (tenant sid : uuid).
Implicit Types d : db.

Lemma step_row d r r' :
  sessions d !! sid = Some r → s_id r = sid →
  s_id r' = s_id r → s_tenant r' = s_tenant r → s_lease r' = s_lease r →
  session_step tenant sid d (put_row d r').
Proof.
  intros Hr Hid Hid' Ht Hl. split_step.
  - table_ok. intros s x Hx. cbn in Hx. rewrite Hid', Hid in Hx.
    apply lookup_insert_Some in Hx as [[<- <-]|[_ Hx]]; [by rewrite Hid'|by apply ok_keyed0].
  - intros r0 Hr0. exists r'. cbn. rewrite Hid', Hid. split_and!; [done|congruence..].
Qed.

Lemma step_acct d a : session_step tenant sid d (with_acct d a).
Proof. split_step; [by table_ok|same_row]. Qed.

Lemma step_create_turn d now status tid d' t :
  create_turn d now tenant sid status tid = Ok (d', t) → session_step tenant sid d d'.
Proof.
  unfold create_turn. case_decide as Hin; [done|]. intros [= <- <-]. split_step; [|same_row|].
  - table_ok. cbn. rewrite fmap_app. apply list.NoDup_app. split; [done|]. split; [|apply NoDup_singleton].
    intros x Hx ->%list_elem_of_singleton. done.
  - by apply foreign_snoc.
Qed.

Lemma step_set_turn d tid t f :
  get_session_turn d tenant sid tid = Some t → db_ok d →
  (∀ x, t_id (f x) = t_id x ∧ t_owner (f x) = t_owner x) →
  session_step tenant sid d
    (with_turns d (update_where (λ t, bool_decide (t_id t = tid)) f (turns d))).
Proof.
  intros Ht Hok Hf. unfold get_session_turn in Ht.
  destruct (get_turn d tenant tid) as [t0|] eqn:Hg; cbn in Ht; [|done]. case_decide as Hs; [|done].
  simplify_eq. apply find_row_Some in Hg as [[Htn Hid]%bool_decide_eq_true Hin]. subst tid.
  split_step; [|same_row|].
  - table_ok. cbn. rewrite update_where_proj; [done|]. intros x _. apply Hf.
  - apply foreign_update_id; [apply (ok_turns _ Hok)|done|by unfold t_owner; rewrite Htn|].
    rewrite (proj2 (Hf t)). unfold t_owner. by rewrite Htn.
Qed.

Lemma step_create_item d now type data turn iid d' i :
  create_item d now tenant sid type data turn iid = Ok (d', i) → session_step tenant sid d d'.
Proof.
  unfold create_item. case_decide as Hin; [done|]. case_match; [done|]. intros [= <- <-].
  split_step; [|same_row|].
  - table_ok. cbn. rewrite fmap_app. apply list.NoDup_app. split; [done|]. split; [|apply NoDup_singleton].
    intros x Hx ->%list_elem_of_singleton. cbn in Hx. tauto.
  - by apply foreign_snoc.
Qed.

Lemma step_set_item d i data :
  i ∈ items d → i_owner i = (tenant, sid) → db_ok d →
  session_step tenant sid d (set_item_data d (i_id i) data).
Proof.
  intros Hin Ho Hok. split_step; [|same_row|].
  - table_ok. cbn. by rewrite update_where_proj.
  - apply foreign_update_id; [apply (ok_items _ Hok)|done|done|done].
Qed.

Lemma step_link_files d ids item :
  session_step tenant sid d (link_session_file_item d tenant sid ids item).
Proof.
  unfold link_session_file_item. case_decide; [apply session_step_refl|].
  split_step; [by table_ok|same_row|].
  apply foreign_update. intros x _ Hx. bool_props.
  match goal with H : of_session _ _ _ _ = true |- _ => apply bool_decide_eq_true in H as [<- <-] end.
  done.
Qed.

Lemma step_update_environment d env status :
  env ∈ environments d → er_owner env = (tenant, sid) → db_ok d →
  session_step tenant sid d (update_environment d tenant (er_id env) status).
Proof.
  intros Hin Ho Hok. split_step; [|same_row|].
  - table_ok. cbn. by rewrite update_where_proj.
  - apply foreign_update. intros x Hx [Ht Hid]%bool_decide_eq_true.
    by rewrite (unique_row er_id (environments d) x env (ok_environments _ Hok) Hx Hin Hid).
Qed.

Lemma step_create_artifact d now path type turn key size aid d' a :
  create_artifact d now tenant sid path type turn key size aid = Ok (d', a) →
  session_step tenant sid d d'.
Proof.
  unfold create_artifact. case_decide as Hin; [done|]. intros [= <- <-].
  split_step; [|same_row|].
  - table_ok. cbn. rewrite fmap_app. apply list.NoDup_app. split; [done|]. split; [|apply NoDup_singleton].
    intros x Hx ->%list_elem_of_singleton. done.
  - by apply foreign_snoc.
Qed.

Lemma step_create_upload d u d' :
  create_artifact_upload d u = Ok d' → u_owner u = (tenant, sid) → session_step tenant sid d d'.
Proof.
  unfold create_artifact_upload. case_decide as Hin; [done|]. intros [= <-] Ho.
  split_step; [|same_row|].
  - table_ok. cbn. rewrite fmap_app. apply list.NoDup_app. split; [done|]. split; [|apply NoDup_singleton].
    intros x Hx ->%list_elem_of_singleton. done.
  - by apply foreign_snoc.
Qed.

Lemma step_set_upload d u f :
  u ∈ uploads d → u_owner u = (tenant, sid) → u_id (f u) = u_id u → u_owner (f u) = u_owner u →
  db_ok d → session_step tenant sid d (set_upload d (u_id u) f).
Proof.
  intros Hin Ho Hid Hof Hok. split_step; [|same_row|].
  - intros _. destruct Hok. split; try done. cbn.
    assert ((u_id <$> update_where (λ u0, bool_decide (u_id u0 = u_id u)) f (uploads d))
            = (u_id <$> uploads d)) as ->; [|done].
    unfold update_where. rewrite <- list_fmap_compose. apply list_fmap_ext. intros i x Hx. cbn.
    case_bool_decide as Hx'; [|done].
    rewrite (unique_row u_id (uploads d) x u); [done|done| |done|done].
    by eapply list_elem_of_lookup_2.
  - apply foreign_update_id; [apply (ok_uploads _ Hok)|done|done|congruence].
Qed.

(** The numbers of a session's events: the next one is one more than their count. *)
Lemma max_seqZ (l : list Z) n : l = seqZ 1 (Z.of_nat n) → foldr Z.max 0 l = Z.of_nat n.
Proof.
  intros ->. induction n as [|n IH]; [done|].
  rewrite Nat2Z.inj_succ, <- Z.add_1_r, seqZ_app, foldr_app by lia. cbn [seqZ foldr].
  replace (seqZ (1 + Z.of_nat n) 1) with [1 + Z.of_nat n] by done. cbn [foldr].
  assert (∀ l m, 0 ≤ m → Forall (λ x, x ≤ m) l → foldr Z.max m l = m) as Hmax.
  { intros l m Hm. induction 1 as [|x l Hx Hl IHl]; [done|]. cbn. lia. }
  rewrite Z.max_l by lia. rewrite Hmax; [lia|lia|].
  apply list.Forall_forall. intros x Hx%elem_of_seqZ. lia.
Qed.

Lemma session_events_snoc d e t s :
  session_events (with_events d (events d ++ [e])) t s
  = session_events d t s ++ (if decide (e_tenant e = t ∧ e_session e = s) then [e] else []).
Proof.
  unfold session_events. cbn [events with_events]. rewrite list.filter_app, filter_cons, filter_nil.
  f_equal. destruct (decide (e_tenant e = t ∧ e_session e = s)) as [[-> ->]|Hne].
  - rewrite decide_True; [done|]. by apply bool_decide_eq_true.
  - rewrite decide_False; [done|]. by intros ?%bool_decide_eq_true.
Qed.

Lemma step_append_event d now eid type data d' e :
  append_event d now eid tenant sid type data = Ok (d', e) →
  session_step_with [e] tenant sid d d' ∧ e_owner e = (tenant, sid).
Proof.
  unfold append_event. destruct (get_session d tenant sid None) as [r|] eqn:Hs; [|done].
  case_decide as Hin; [done|]. intros [= <- <-]. split; [|done].
  split; try done; [|same_row|].
  - table_ok.
    + cbn. rewrite fmap_app. apply list.NoDup_app. split; [done|]. split; [|apply NoDup_singleton].
      intros x Hx ->%list_elem_of_singleton. done.
    + intros t s. rewrite (session_events_snoc d (EventRow _ _ _ _ _ _ _)). cbn [e_tenant e_session].
      destruct (decide (tenant = t ∧ sid = s)) as [[<- <-]|Hne].
      * rewrite fmap_app, length_app. cbn [length].
        rewrite Nat2Z.inj_add, seqZ_app by lia. rewrite <- ok_numbers0. f_equal.
        rewrite (max_seqZ _ (length (session_events d tenant sid))) by done.
        unfold seqZ. csimpl. f_equal. lia.
      * rewrite app_nil_r. apply ok_numbers0.
  - by apply foreign_snoc.
Qed.
End writes.

(** ** The handlers keep the contract *)

Section handlers.
Context (d : db) (r : session_row) (sid : uuid).
Context (Hr : sessions d !! sid = Some r) (Hid : s_id r = sid) (Hok : db_ok d).
#[local] Abbreviation tenant := (s_tenant r).

Lemma step_sync_environment d' state :
  db_ok d' → session_step tenant sid d' (sync_environment_row d' tenant sid state).
Proof.
  intros Hok'. unfold sync_environment_row. destruct (ROW_STATUS !! state); [|apply session_step_refl].
  destruct (get_session_environment d' tenant sid) as [env|] eqn:He; [|apply session_step_refl].
  apply find_row_Some in He as [[Ht Hs]%bool_decide_eq_true Hin].
  apply step_update_environment; [done| |done]. unfold er_owner. by rewrite Ht, Hs.
Qed.

Lemma step_transition now phase payload :
  session_step tenant sid d (apply_transition d now r phase payload).1.
Proof.
  unfold apply_transition.
  assert (∀ b, session_step tenant sid d (put_row d (set_sandbox r b))) as Hput.
  { intros b. by apply (step_row _ _ _ r). }
  assert (∀ b state, session_step tenant sid d
            (sync_environment_row (put_row d (set_sandbox r b)) tenant (s_id r) state)) as Hsync.
  { intros b state. eapply session_step_then; [apply Hput|]. rewrite Hid.
    apply step_sync_environment. by apply (ss_ok _ _ _ _ _ (Hput b)). }
  repeat case_decide; apply Hsync || apply Hput.
Qed.

Lemma step_sandbox_status x payload d' w :
  apply_sandbox_status d x r payload = Ok (d', w) →
  session_step_with (option_list (snd <$> w)) tenant sid d d'
  ∧ Forall (wake_of tenant sid) (option_list w).
Proof.
  unfold apply_sandbox_status. destruct (negb (is_hosted _)).
  { intros [= <- <-]. split; [apply session_step_refl|constructor]. }
  pose proof (step_transition (io_now x) (str_or payload "status" "") payload) as Ht.
  destruct (apply_transition d (io_now x) r _ payload) as [d1 [[type data]|]]; [|done].
  destruct (append_event d1 _ _ _ _ _ _) as [[d2 e]|] eqn:He; cbn [mbind res_bind]; [|done].
  intros [= <- <-]. rewrite Hid in He. apply step_append_event in He as (Hs & Ho).
  split; [by apply (session_step_trans [] [e] _ _ _ d1)|]. rewrite Hid. by constructor.
Qed.

Lemma step_turn_status now payload d' :
  apply_turn_status d now tenant sid payload = Ok d' → session_step tenant sid d d'.
Proof.
  unfold apply_turn_status. destruct (jget "status" payload) as [status|]; [|done].
  destruct (required_uuid payload "turn_id") as [tid|]; cbn [mbind res_bind]; [|done].
  case_decide.
  - destruct (match get_turn d tenant tid with Some _ => _ | None => _ end).
    { intros [= <-]. apply session_step_refl. }
    destruct (create_turn _ _ _ _ _ _) as [[d1 t]|] eqn:Hc; cbn [mbind res_bind]; [|done].
    intros [= <-]. by eapply step_create_turn.
  - destruct (get_session_turn d tenant sid tid) as [t|] eqn:Ht; [|done].
    destruct status; try done. intros [= <-]. by apply (step_set_turn _ _ d tid t).
Qed.

Lemma step_item_added now payload d' :
  apply_item_added d now tenant sid payload = Ok d' → session_step tenant sid d d'.
Proof.
  unfold apply_item_added. destruct (required_uuid payload "item_id") as [iid|]; cbn [mbind res_bind]; [|done].
  destruct (match jget "turn_id" payload with Some _ => _ | None => _ end) as [turn|]; cbn [mbind res_bind]; [|done].
  destruct (get_item d tenant iid). { intros [= <-]. apply session_step_refl. }
  destruct (create_item _ _ _ _ _ _ _ _) as [[d1 i]|] eqn:Hc; cbn [mbind res_bind]; [|done].
  intros [= <-]. eapply session_step_then; [by eapply step_create_item|apply step_link_files].
Qed.

Lemma step_item_done payload d' :
  apply_item_done d tenant sid payload = Ok d' → session_step tenant sid d d'.
Proof.
  unfold apply_item_done. destruct (required_uuid payload "item_id") as [iid|]; cbn [mbind res_bind]; [|done].
  destruct (get_item d tenant iid) as [item|] eqn:Hi; [|done].
  destruct (bool_decide (i_session item = sid)) eqn:Hs; cbn [negb]; [|done].
  destruct (match turn_id_in payload with Some _ => _ | None => _ end); cbn [mbind res_bind]; [|done].
  apply bool_decide_eq_true in Hs. apply find_row_Some in Hi as [[Ht <-]%bool_decide_eq_true Hin].
  destruct (jget "data" payload) as [[| | | | | |[|p l]]|];
    intros [= <-]; try apply session_step_refl.
  apply step_set_item; [done|unfold i_owner; by rewrite Ht, Hs|done].
Qed.

Lemma step_write_turn_log d1 session_model now store turn s d2 :
  write_turn_log session_model d1 now store tenant sid turn s = Ok d2 → session_step tenant sid d1 d2.
Proof.
  unfold write_turn_log. destruct (get_session_turn d1 tenant sid turn) as [t|];
    [|intros [= <-]; apply session_step_refl].
  destruct (search_usage_for_turn _ _ _) as [[calls units] search]. cbv zeta.
  destruct store; [destruct (append_turn_log _ _); cbn [mbind res_bind]; [|done]| |];
    intros [= <-]; apply step_acct.
Qed.

Lemma step_usage session_model store now run_mode payload d' :
  apply_usage session_model store d now tenant sid run_mode payload = Ok d' →
  session_step tenant sid d d'.
Proof.
  unfold apply_usage. destruct (required_uuid payload "turn_id") as [tid|]; cbn [mbind res_bind]; [|done].
  destruct (get_session_turn d tenant sid tid) as [t|] eqn:Ht; [|done]. cbv zeta.
  destruct (usage_from _) as [stored|]; cbn [mbind res_bind]; [|done].
  intros Hw. eapply session_step_then; [|by eapply step_write_turn_log].
  by apply (step_set_turn _ _ d tid t).
Qed.

Lemma step_event x payload d' w :
  apply_event d x tenant sid payload = Ok (d', w) →
  session_step_with [w.2] tenant sid d d' ∧ wake_of tenant sid w.
Proof.
  unfold apply_event. destruct (jget "type" payload) as [[| | | |inner| |]|]; try done.
  destruct (append_event _ _ _ _ _ _ _) as [[d1 e]|] eqn:He; cbn [mbind res_bind]; [|done].
  intros [= <- <-]. by apply step_append_event in He as (Hs & Ho).
Qed.
Lemma step_error x payload d' w :
  apply_error d x tenant sid payload = Ok (d', w) →
  session_step_with [w.2] tenant sid d d' ∧ wake_of tenant sid w.
Proof.
  unfold apply_error.
  destruct (append_event _ _ _ _ _ _ _) as [[d1 e]|] eqn:He; cbn [mbind res_bind]; [|done].
  intros [= <- <-]. by apply step_append_event in He as (Hs & Ho).
Qed.

Lemma step_session_status now payload d' :
  apply_session_status d now tenant sid payload = Ok d' → session_step tenant sid d d'.
Proof.
  unfold apply_session_status.
  destruct (match present (jget "status" payload) with Some _ => _ | None => _ end) as [status|];
    cbn [mbind res_bind]; [|done].
  unfold update_session. destruct (get_session d tenant sid None) as [r0|] eqn:Hg; cbn [mbind res_bind].
  - apply get_session_ids in Hg as [Ht Hg]. assert (r0 = r) as -> by congruence.
    case_decide; cbn [mbind res_bind]; [|done]. intros [= <-]. by apply (step_row _ _ _ r).
  - intros [= <-]. apply session_step_refl.
Qed.

Context {S : Type} `{ObjectStore S} (st : S).
Context (sha256_hex : list ascii → string).
Context (presign_url : list ascii → Z → string → string * list (string * json)).
Context (head_object : S → list ascii → res exn (option Z)).
Context (cfg : settings).

Lemma step_take_slot now kind name ctype digest size used existing request nu na d' u :
  (∀ v, existing = Some v → ∃ q, get_artifact_upload_by_request d tenant sid q = Some v) →
  take_slot cfg d now r kind name ctype digest size used existing request nu na = Ok (d', u) →
  session_step tenant sid d d'.
Proof.
  intros Hex. unfold take_slot. destruct existing as [v|].
  - destruct (Hex v eq_refl) as [q Hq]. apply find_row_Some in Hq as [Hq Hin]. bool_props.
    match goal with H : of_session _ _ _ _ = true |- _ => apply bool_decide_eq_true in H as [Ht Hs] end.
    destruct (u_expires v <=? now); intros [= <- <-]; [|apply session_step_refl].
    apply (step_set_upload _ _ d v); try done. unfold u_owner. by rewrite Ht, Hs.
  - destruct (check_quota _ _ _ _); cbn [mbind res_bind]; [|done]. cbv zeta.
    set (v := UploadRow _ _ _ _ _ _ _ _ _ _ _ _).
    destruct (create_artifact_upload d v) as [d1|] eqn:Hc; cbn [mbind res_bind]; [|done].
    intros [= <- <-]. eapply step_create_upload; [done|]. unfold u_owner. cbn. by rewrite Hid.
Qed.

Lemma step_issue_presign now kind filename ctype size sha key used unchanged request nu na d' i :
  issue_artifact_presign sha256_hex presign_url cfg st d now tenant sid kind filename ctype size sha
    key used unchanged request nu na = Ok (d', i) → session_step tenant sid d d'.
Proof.
  unfold issue_artifact_presign.
  destruct (check_artifact_kind kind) as [k|]; cbn [mbind res_bind]; [|done].
  destruct (check_sha256 sha) as [digest|]; cbn [mbind res_bind]; [|done].
  destruct (get_session d tenant sid None) as [r0|] eqn:Hg; [|done].
  apply get_session_ids in Hg as [_ Hg]. assert (r0 = r) as -> by congruence. cbv zeta.
  set (existing := request ≫= λ q, get_artifact_upload_by_request d tenant sid q).
  match goal with |- context [mbind ?k ?m] =>
    destruct m as [unch|]; cbn [mbind res_bind]; [|done] end.
  destruct unch; [intros [= <- <-]; apply session_step_refl|].
  destruct (take_slot _ _ _ _ _ _ _ _ _ _ _ _ _ _) as [[d1 u]|] eqn:Ht; cbn [mbind res_bind]; [|done].
  destruct (slot_reply _ _ _ _ _ _); cbn [mbind res_bind]; [|done].
  intros [= <- <-]. eapply step_take_slot; [|done]. intros v Hv. unfold existing in Hv.
  destruct request as [q|]; [|done]. by exists q.
Qed.

Lemma step_complete now upload size sha path name turn key verified d' :
  complete_artifact_upload sha256_hex head_object cfg st d now tenant sid upload size sha path name
    turn key verified = Ok d' → session_step tenant sid d d'.
Proof.
  unfold complete_artifact_upload.
  destruct (get_artifact_upload d tenant upload) as [u|] eqn:Hu; [|done].
  apply find_row_Some in Hu as [[Ht <-]%bool_decide_eq_true Hin].
  destruct (bool_decide (u_session u = sid)) eqn:Hs; cbn [negb]; [|done].
  apply bool_decide_eq_true in Hs.
  destruct (u_complete u). { intros [= <-]. apply session_step_refl. }
  destruct (u_expires u <? now); [done|].
  destruct (upload_target u tenant sid key); cbn [mbind res_bind]; [|done].
  match goal with |- context [mbind ?k ?m] =>
    destruct m as [actual|]; cbn [mbind res_bind]; [|done] end.
  assert (∀ d1, session_step tenant sid d d1 → uploads d1 = uploads d →
                session_step tenant sid d (mark_complete d1 (u_id u))) as Hmark.
  { intros d1 H1 Hup. eapply session_step_then; [done|].
    apply (step_set_upload _ _ d1 u); try done.
    - by rewrite Hup.
    - unfold u_owner. by rewrite Ht, Hs.
    - by apply H1. }
  case_decide.
  - destruct (get_session d tenant sid None) as [r0|] eqn:Hg; cbn [mbind res_bind]; [|done].
    apply get_session_ids in Hg as [_ Hg]. assert (r0 = r) as -> by congruence.
    intros [= <-]. apply Hmark; [|done]. by apply (step_row _ _ _ r).
  - destruct (create_artifact _ _ _ _ _ _ _ _ _ _) as [[d1 art]|] eqn:Hc; cbn [mbind res_bind]; [|done].
    intros [= <-]. apply Hmark; [by eapply step_create_artifact|].
    unfold create_artifact in Hc. case_decide; [done|]. by simplify_eq.
Qed.
End handlers.

(** ** What the fate of an envelope can be *)

Definition claimed (d : db) (sid : uuid) (seq : Z) : db :=
  with_ledger d ({[ (sid, seq) ]} ∪ ledger d).

Inductive fate : Type :=
| Skipped | Receipt | Applied | Duplicate | Rejected (reason : string) | Stalled.

(** Nothing goes out: no wake, no lifecycle export, no wipe. *)
Definition quiet (fx : effects) : Prop := fx_wakes fx = [] ∧ fx_intents fx = [] ∧ fx_wipes fx = [].

(** Nothing of the session's state changes but its upload slots. *)
Definition only_uploads (d d' : db) : Prop := d' = with_uploads d (uploads d').

Section handled.
Context (worker : uuid).

Inductive handled (f : flushing) (q : queued) : fate → flushing → Prop :=
| handled_skipped :
    env_session (q_env q) ∈ f_stalled f →
    handled f q Skipped (Flushing (f_db f) (f_cache f) (f_stalled f) (add_retry (f_out f) q))
| handled_receipt r :
    env_session (q_env q) ∉ f_stalled f →
    sessions (f_db f) !! env_session (q_env q) = Some r →
    env_type (q_env q) ∈ LEASE_FREE_TYPES →
    handled f q Receipt (Flushing (f_db f) (f_cache f) (f_stalled f)
      (ack (f_out f) (env_session (q_env q)) (env_seq (q_env q))))
| handled_applied r c fx d' :
    env_session (q_env q) ∉ f_stalled f →
    sessions (f_db f) !! env_session (q_env q) = Some r → is_leased_to worker r = true →
    (env_session (q_env q), env_seq (q_env q)) ∉ ledger (f_db f) →
    session_step_with (fx_wakes fx).*2 (s_tenant r) (env_session (q_env q))
      (claimed (f_db f) (env_session (q_env q)) (env_seq (q_env q))) d' →
    Forall (wake_of (s_tenant r) (env_session (q_env q))) (fx_wakes fx) →
    handled f q Applied (Flushing d' c (f_stalled f)
      (ack (merge true (f_out f) fx) (env_session (q_env q)) (env_seq (q_env q))))
| handled_duplicate r c fx d' :
    env_session (q_env q) ∉ f_stalled f →
    sessions (f_db f) !! env_session (q_env q) = Some r → is_leased_to worker r = true →
    (env_session (q_env q), env_seq (q_env q)) ∈ ledger (f_db f) →
    session_step (s_tenant r) (env_session (q_env q)) (f_db f) d' → only_uploads (f_db f) d' →
    quiet fx →
    handled f q Duplicate (Flushing d' c (f_stalled f)
      (ack (merge true (f_out f) fx) (env_session (q_env q)) (env_seq (q_env q))))
| handled_rejected c fx reason :
    env_session (q_env q) ∉ f_stalled f →
    ((env_session (q_env q), env_seq (q_env q)) ∈ ledger (f_db f) → quiet fx) →
    handled f q (Rejected reason) (Flushing (f_db f) c (f_stalled f)
      (ack (add_rejected (merge false (f_out f) fx) (env_session (q_env q)) (env_seq (q_env q)) reason)
         (env_session (q_env q)) (env_seq (q_env q))))
| handled_stalled c fx r :
    env_session (q_env q) ∉ f_stalled f →
    sessions (f_db f) !! env_session (q_env q) = Some r → is_leased_to worker r = true →
    ((env_session (q_env q), env_seq (q_env q)) ∈ ledger (f_db f) → quiet fx) →
    handled f q Stalled (Flushing (f_db f) c ({[env_session (q_env q)]} ∪ f_stalled f)
      (add_retry (merge false (f_out f) fx) q)).

Inductive handled_all : flushing → list queued → list fate → flushing → Prop :=
| handled_nil f : handled_all f [] [] f
| handled_cons f q t f1 l ts f2 :
    handled f q t f1 → handled_all f1 l ts f2 → handled_all f (q :: l) (t :: ts) f2.
End handled.

Lemma claimed_ok d sid seq : db_ok d → db_ok (claimed d sid seq).
Proof. by intros []. Qed.

Lemma handled_ok worker f q t f' : handled worker f q t f' → db_ok (f_db f) → db_ok (f_db f').
Proof.
  destruct 1 as [| |r c fx d' _ _ _ _ Hs _|r c fx d' _ _ _ _ Hs _ _| |]; intros Hok; try done.
  - by apply (ss_ok _ _ _ _ _ Hs), claimed_ok.
  - by apply (ss_ok _ _ _ _ _ Hs).
Qed.

(** ** Only a claim reports a duplicate *)

Definition no_dup {A} (r : res exn A) : Prop := match r with Err DuplicateExn => False | _ => True end.
Lemma no_dup_bind {A B} (m : res exn A) (k : A → res exn B) :
  no_dup m → (∀ a, no_dup (k a)) → no_dup (m ≫= k).
Proof. destruct m; cbn; auto. Qed.
Lemma required_uuid_dup payload key : no_dup (required_uuid payload key).
Proof. unfold required_uuid. by repeat case_match. Qed.
Lemma append_event_dup d now eid tenant sid type data : no_dup (append_event d now eid tenant sid type data).
Proof. unfold append_event. by repeat case_match. Qed.
Lemma usage_from_dup raw : no_dup (usage_from raw).
Proof.
  unfold usage_from. repeat case_match; try done. generalize PI_KEYS. clear.
  induction l0 as [|[f keys] l0 IH]; [done|]. cbn [usage_fields]. apply no_dup_bind.
  - repeat case_match; try done. unfold token_count. by repeat case_match.
  - intros n. by apply no_dup_bind.
Qed.
Lemma write_turn_log_dup session_model d now store tenant sid turn s :
  no_dup (write_turn_log session_model d now store tenant sid turn s).
Proof.
  unfold write_turn_log. destruct (get_session_turn _ _ _ _); [|done].
  destruct (search_usage_for_turn _ _ _) as [[]]. cbv zeta. apply no_dup_bind; [|done].
  destruct store; try done. unfold append_turn_log. by repeat case_match.
Qed.
Lemma validate_no_dup c d worker row e raw : no_dup (validate c d worker row e raw).2.
Proof.
  unfold validate. cbv zeta. unfold in_set.
  destruct (jget "status" (env_payload e)) as [[]|];
  repeat match goal with
  | |- no_dup (snd (if ?b then _ else _)) => destruct b
  | |- no_dup (snd (match ?b with _ => _ end)) => destruct b
  end; done.
Qed.

(** ** The code refines it *)

Section refine.
Context {S : Type} `{ObjectStore S} (st : S).
Context (sha256_hex : list ascii → string).
Context (presign_url : list ascii → Z → string → string * list (string * json)).
Context (head_object : S → list ascii → res exn (option Z)).
Context (cfg : settings) (store : usage_store).
Context (session_model : db → session_row → option string).
Context (exn_str : exn → string) (library_code : exn → option string).
Context (worker : uuid) (run_mode : option string).

#[local] Abbreviation apply := (apply sha256_hex presign_url head_object cfg store session_model
  exn_str library_code st).
#[local] Abbreviation savepoint := (savepoint sha256_hex presign_url head_object cfg store session_model
  exn_str library_code st).
#[local] Abbreviation ingest_leased := (ingest_leased sha256_hex presign_url head_object cfg store
  session_model exn_str library_code st).
#[local] Abbreviation ingest_one := (ingest_one sha256_hex presign_url head_object cfg store
  session_model exn_str library_code st).
#[local] Abbreviation ingest_all := (ingest_all sha256_hex presign_url head_object cfg store
  session_model exn_str library_code st).

Lemma with_uploads_id d : with_uploads d (uploads d) = d.
Proof. by destruct d. Qed.

Lemma take_slot_only d now r kind name ctype digest size used existing request nu na d' u :
  take_slot cfg d now r kind name ctype digest size used existing request nu na = Ok (d', u) →
  only_uploads d d'.
Proof.
  unfold take_slot, only_uploads. destruct existing as [v|].
  - destruct (u_expires v <=? now); intros [= <- <-]; [done|by rewrite with_uploads_id].
  - destruct (check_quota _ _ _ _); cbn [mbind res_bind]; [|done]. cbv zeta.
    destruct (create_artifact_upload _ _) as [d1|] eqn:Hc; cbn [mbind res_bind]; [|done].
    intros [= <- <-]. by apply create_artifact_upload_ok in Hc as ->.
Qed.

Lemma issue_presign_only d now tenant sid kind filename ctype size sha key used unchanged request nu na d' i :
  issue_artifact_presign sha256_hex presign_url cfg st d now tenant sid kind filename ctype size sha
    key used unchanged request nu na = Ok (d', i) → only_uploads d d'.
Proof.
  unfold issue_artifact_presign.
  destruct (check_artifact_kind kind) as [k|]; cbn [mbind res_bind]; [|done].
  destruct (check_sha256 sha) as [digest|]; cbn [mbind res_bind]; [|done].
  destruct (get_session d tenant sid None) as [r|]; [|done]. cbv zeta.
  match goal with |- context [mbind ?k ?m] =>
    destruct m as [unch|]; cbn [mbind res_bind]; [|done] end.
  destruct unch; [intros [= <- <-]; unfold only_uploads; by rewrite with_uploads_id|].
  destruct (take_slot _ _ _ _ _ _ _ _ _ _ _ _ _ _) as [[d1 u]|] eqn:Ht; cbn [mbind res_bind]; [|done].
  destruct (slot_reply _ _ _ _ _ _); cbn [mbind res_bind]; [|done].
  intros [= <- <-]. by eapply take_slot_only.
Qed.

Lemma apply_presign_step d x r sid p payload fx d' :
  sessions d !! sid = Some r → s_id r = sid → db_ok d →
  apply_presign sha256_hex presign_url cfg exn_str library_code st d x r p payload = (fx, Ok d') →
  session_step (s_tenant r) sid d d' ∧ fx_wakes fx = [] ∧ only_uploads d d'.
Proof.
  intros Hr Hid Hok. unfold apply_presign.
  destruct (required_uuid payload "request_id") as [request|]; [|done].
  destruct (jint (jget "size" payload)) as [size|]; [|done]. cbv zeta.
  match goal with |- context [match ?m with Ok _ => _ | Err _ => _ end = _] =>
    destruct m as [[d1 i]|e] eqn:Hm end; [|by destruct (is_transient e)].
  intros [= <- <-]. revert Hm.
  destruct (raise_if (p ≫= p_error)); cbn [mbind res_bind]; [|done].
  destruct (may_fail (io_store x)); cbn [mbind res_bind]; [|done].
  match goal with |- context [mbind ?k ?m] =>
    destruct m as [used|]; cbn [mbind res_bind]; [|done] end.
  rewrite Hid. intros Hi. split_and!; [by eapply step_issue_presign|done|].
  by eapply issue_presign_only.
Qed.

(** Whatever the type, a handler that succeeds keeps the contract. *)
Lemma apply_step c d x r sid p e c' fx d' :
  sessions d !! sid = Some r → s_id r = sid → db_ok d →
  apply c d x r run_mode p e = (c', fx, Ok d') →
  session_step_with (fx_wakes fx).*2 (s_tenant r) sid d d'
  ∧ Forall (wake_of (s_tenant r) sid) (fx_wakes fx).
Proof.
  intros Hr Hid Hok. unfold Ingest.apply. cbv zeta. rewrite Hid. unfold plain, waking.
  destruct (bool_decide (env_type e = "sandbox.status"%string)).
  { destruct (apply_sandbox_status d x r (env_payload e)) as [[d1 w]|] eqn:Ha; [|done].
    eapply step_sandbox_status in Ha as [H1 H2]; try done.
    destruct w as [[s0 ev]|]; intros [= <- <- <-]; by split. }
  destruct (_ || _). { intros [= <- <- <-]. split; [apply session_step_refl|constructor]. }
  destruct (_ || _). { intros [= <- <- <-]. split; [apply session_step_refl|constructor]. }
  destruct (bool_decide (env_type e = "turn.status"%string)).
  { destruct (apply_turn_status _ _ _ _ _) eqn:Ha; [|done]. intros [= <- <- <-].
    split; [by eapply step_turn_status|constructor]. }
  destruct (bool_decide (env_type e = "item.added"%string)).
  { intros [= <- <- Ha]. split; [by eapply step_item_added|constructor]. }
  destruct (bool_decide (env_type e = "item.done"%string)).
  { intros [= <- <- Ha]. split; [by eapply step_item_done|constructor]. }
  destruct (bool_decide (env_type e = "usage"%string)).
  { intros [= <- <- Ha]. split; [by eapply step_usage|constructor]. }
  destruct (bool_decide (env_type e = "event"%string)).
  { destruct (apply_event _ _ _ _ _) as [[d1 w]|] eqn:Ha; [|done]. intros [= <- <- <-].
    apply step_event in Ha as (H1 & H2). split; [done|]. by constructor. }
  destruct (bool_decide (env_type e = "session.status"%string)).
  { intros [= <- <- Ha]. split; [by eapply step_session_status|constructor]. }
  destruct (bool_decide (env_type e = "artifact.presign"%string)).
  { destruct (apply_presign _ _ _ _ _ _ _ _ _ _ _) as [fx0 res] eqn:Ha. intros [= <- -> ->].
    apply (apply_presign_step _ _ _ sid) in Ha as (H1 & H2 & _); [|done..]. by rewrite H2. }
  destruct (bool_decide (env_type e = "artifact.completed"%string)).
  { intros [= <- <- Ha]. split; [|constructor]. revert Ha. unfold apply_completed.
    match goal with |- context [mbind ?k ?m] =>
      destruct m as [turn|]; cbn [mbind res_bind]; [|done] end.
    destruct (uuid_text_in _ _); [|done]. cbv zeta.
    match goal with |- context [match ?m with Ok _ => _ | Err _ => _ end = _] =>
      destruct m as [d1|ex] eqn:Hm end; [|by destruct (is_transient ex)].
    intros [= <-]. revert Hm. destruct (raise_if (p ≫= p_error)); cbn [mbind res_bind]; [|done].
    destruct (may_fail (io_store x)); cbn [mbind res_bind]; [|done]. rewrite Hid. intros Hi.
    by eapply step_complete. }
  destruct (bool_decide (env_type e = "error"%string)).
  { destruct (apply_error _ _ _ _ _) as [[d1 w]|] eqn:Ha; [|done]. intros [= <- <- <-].
    apply step_error in Ha as (H1 & H2). split; [done|]. by constructor. }
  done.
Qed.

Lemma savepoint_release x c fx res c' fx' d' :
  release x (c, fx, res) = (c', fx', Ok d') → c = c' ∧ fx = fx' ∧ res = Ok d'.
Proof.
  unfold release. destruct res as [d|]; cbn [mbind res_bind]; [|done].
  destruct (may_fail (io_late x)); cbn [mbind res_bind]; [|done]. intros. by simplify_eq.
Qed.

Lemma savepoint_step c d x r sid p q c' fx d' :
  sessions d !! sid = Some r → s_id r = sid → db_ok d → env_session (q_env q) = sid →
  (savepoint c d x worker r run_mode p q) = (c', fx, Ok d') →
  (sid, env_seq (q_env q)) ∉ ledger d
  ∧ session_step_with (fx_wakes fx).*2 (s_tenant r) sid (claimed d sid (env_seq (q_env q))) d'
  ∧ Forall (wake_of (s_tenant r) sid) (fx_wakes fx).
Proof.
  intros Hr Hid Hok Hs. unfold Ingest.savepoint. cbv zeta. rewrite Hs.
  destruct (may_fail (io_early x)); cbn [mbind res_bind]; [|done].
  unfold claim. case_decide as Hin; [done|]. cbn [mbind res_bind].
  change (with_ledger d ({[(sid, env_seq (q_env q))]} ∪ ledger d)) with (claimed d sid (env_seq (q_env q))).
  destruct (validate _ _ _ _ _ _) as [c1 [[reason|]|ex]]; try done.
  destruct (apply _ _ _ _ _ _ _) as [[c2 fx2] res] eqn:Ha. intros Hrel.
  apply savepoint_release in Hrel as (<- & <- & ->). split; [done|].
  eapply (apply_step _ _ _ _ sid) in Ha as [H1 H2]; [|done|done|by apply claimed_ok].
  cbn [res_is_ok andb].
  destruct (bool_decide (env_type (q_env q) = "session.stopped"%string)); [|done].
  cbn [fx_app fx_wakes]. by rewrite app_nil_r.
Qed.

(** Only the claim reports a duplicate. *)
Lemma may_fail_dup f : no_dup (may_fail f).
Proof. by destruct f as [[]|]. Qed.

Lemma apply_presign_dup d x r p payload :
  no_dup (apply_presign sha256_hex presign_url cfg exn_str library_code st d x r p payload).2.
Proof.
  unfold apply_presign. pose proof (required_uuid_dup payload "request_id") as Hn.
  destruct (required_uuid payload "request_id"); [|exact Hn]. destruct (jint _); [|done]. cbv zeta.
  match goal with |- no_dup (match ?m with Ok _ => _ | Err _ => _ end).2 =>
    destruct m as [[]|ex] end; [done|].
  destruct (is_transient ex) eqn:Ht; [by destruct ex|done].
Qed.

Lemma apply_no_dup c d x r p e : no_dup (apply c d x r run_mode p e).2.
Proof.
  unfold Ingest.apply, plain, waking. cbv zeta.
  repeat match goal with
  | |- no_dup (if ?b then _ else _).2 => destruct b
  end; try done.
  - assert (no_dup (apply_sandbox_status d x r (env_payload e))) as Hn.
    { unfold apply_sandbox_status. destruct (negb _); [done|].
      destruct (apply_transition _ _ _ _ _) as [d1 [[t l]|]]; [|done].
      apply no_dup_bind; [apply append_event_dup|by intros []]. }
    destruct (apply_sandbox_status d x r (env_payload e)) as [[d1 [w|]]|ex]; [done|done|exact Hn].
  - assert (no_dup (apply_turn_status d (io_now x) (s_tenant r) (s_id r) (env_payload e))) as Hn.
    { unfold apply_turn_status. destruct (jget _ _); [|done]. apply no_dup_bind; [apply required_uuid_dup|].
      intros tid. case_decide; [|by repeat case_match]. case_match; [done|].
      apply no_dup_bind; [|by intros []]. unfold create_turn. by case_decide. }
    by destruct (apply_turn_status _ _ _ _ _).
  - unfold apply_item_added. apply no_dup_bind; [apply required_uuid_dup|]. intros iid.
    apply no_dup_bind; [by repeat case_match|]. intros t. destruct (get_item _ _ _); [done|].
    apply no_dup_bind; [|by intros []]. unfold create_item. case_decide; [done|]. by case_match.
  - unfold apply_item_done. apply no_dup_bind; [apply required_uuid_dup|]. intros iid.
    destruct (get_item _ _ _); [|done]. destruct (negb _); [done|].
    apply no_dup_bind; [by repeat case_match|]. intros _. by repeat case_match.
  - unfold apply_usage. apply no_dup_bind; [apply required_uuid_dup|]. intros tid.
    destruct (get_session_turn _ _ _ _); [|done]. cbv zeta.
    apply no_dup_bind; [apply usage_from_dup|]. intros stored. apply write_turn_log_dup.
  - assert (no_dup (apply_event d x (s_tenant r) (s_id r) (env_payload e))) as Hn.
    { unfold apply_event. repeat case_match; try done.
      apply no_dup_bind; [apply append_event_dup|by intros []]. }
    by destruct (apply_event _ _ _ _ _) as [[]|].
  - unfold apply_session_status. apply no_dup_bind; [by repeat case_match|]. intros st0.
    apply no_dup_bind; [|by intros []]. unfold update_session. by repeat case_match.
  - pose proof (apply_presign_dup d x r p (env_payload e)) as Hn.
    by destruct (apply_presign _ _ _ _ _ _ _ _ _ _ _).
  - unfold apply_completed. apply no_dup_bind; [by repeat case_match|]. intros t.
    destruct (uuid_text_in _ _); [|done]. cbv zeta.
    match goal with |- no_dup (match ?m with Ok _ => _ | Err _ => _ end) =>
      destruct m as [|ex] end; [done|].
    destruct (is_transient ex) eqn:Ht; [by destruct ex|done].
  - assert (no_dup (apply_error d x (s_tenant r) (s_id r) (env_payload e))) as Hn.
    { apply no_dup_bind; [apply append_event_dup|by intros []]. }
    by destruct (apply_error _ _ _ _ _) as [[]|].
Qed.

Lemma savepoint_not_duplicate c d x r p q c' fx :
  (env_session (q_env q), env_seq (q_env q)) ∉ ledger d →
  (savepoint c d x worker r run_mode p q) ≠ (c', fx, Err DuplicateExn).
Proof.
  intros Hn. unfold Ingest.savepoint. cbv zeta.
  pose proof (may_fail_dup (io_early x)) as He.
  destruct (may_fail (io_early x)) as [|ex]; cbn [mbind res_bind]; [|intros [= _ _ ->]; by destruct He].
  unfold claim. rewrite decide_False by done.
  pose proof (validate_no_dup c (claimed d (env_session (q_env q)) (env_seq (q_env q))) worker (Some r)
    (q_env q) (q_raw q)) as Hv.
  destruct (validate _ _ _ _ _ _) as [c1 [[reason|]|ex]]; [done| |intros [= _ _ ->]; by destruct Hv].
  match goal with |- context [apply ?a ?b ?c ?d ?e ?f ?g] =>
    pose proof (apply_no_dup a b c d f g) as Ha; destruct (apply a b c d e f g) as [[c2 fx2] res] end.
  cbn in Ha. unfold release. pose proof (may_fail_dup (io_late x)) as Hl.
  destruct res as [d2|ex]; cbn [mbind res_bind]; [|intros [= _ _ ->]; by destruct Ha].
  destruct (may_fail (io_late x)); cbn [mbind res_bind]; [done|]. intros [= _ _ ->]. by destruct Hl.
Qed.

(** A duplicate changes upload slots at most, and wakes nobody. *)
Lemma duplicate_step c d x r sid p e c' fx d' :
  sessions d !! sid = Some r → s_id r = sid → db_ok d →
  Ingest.duplicate sha256_hex presign_url head_object cfg store session_model exn_str library_code st
    c d x r run_mode p e = (c', fx, Ok d') →
  session_step (s_tenant r) sid d d' ∧ only_uploads d d' ∧ fx_wakes fx = [].
Proof.
  intros Hr Hid Hok. unfold Ingest.duplicate.
  assert (only_uploads d d) as Hself by (unfold only_uploads; by rewrite with_uploads_id).
  case_decide as Hst. { intros [= <- <- <-]. split_and!; [apply session_step_refl|done|done]. }
  case_decide as Hpr; [|intros [= <- <- <-]; split_and!; [apply session_step_refl|done|done]].
  destruct (apply c d x r run_mode p e) as [[c2 fx2] res] eqn:Ha. intros Hrel.
  apply savepoint_release in Hrel as (<- & <- & ->). revert Ha. unfold Ingest.apply. cbv zeta.
  rewrite Hpr. cbn [bool_decide decide].
  repeat (rewrite bool_decide_false by done; cbn [orb]). rewrite bool_decide_true by done.
  destruct (apply_presign _ _ _ _ _ _ _ _ _ _ _) as [fx0 res] eqn:Ha. intros [= <- -> ->].
  apply (apply_presign_step _ _ _ sid) in Ha as (H1 & H2 & H3); done.
Qed.

(** Exceptions of a handler that are not a rejection come from a leased session. *)
Lemma ingest_leased_step c d x sid p q c' fx d' :
  db_ok d → env_session (q_env q) = sid →
  ingest_leased c d x worker run_mode p (sessions d !! sid) q = (c', fx, Ok d') →
  ∃ r, sessions d !! sid = Some r ∧ is_leased_to worker r = true ∧
    (((sid, env_seq (q_env q)) ∉ ledger d
      ∧ session_step_with (fx_wakes fx).*2 (s_tenant r) sid (claimed d sid (env_seq (q_env q))) d'
      ∧ Forall (wake_of (s_tenant r) sid) (fx_wakes fx))
     ∨ ((sid, env_seq (q_env q)) ∈ ledger d ∧ session_step (s_tenant r) sid d d'
        ∧ only_uploads d d' ∧ fx_wakes fx = [])).
Proof.
  intros Hok Hs. unfold Ingest.ingest_leased. destruct (sessions d !! sid) as [r|] eqn:Hr; [|done].
  pose proof (ok_keyed _ Hok sid r Hr) as Hid.
  destruct (is_leased_to worker r) eqn:Hl; cbn [negb]; [|done].
  destruct (MAX_MESSAGE_BYTES <? q_raw q); [done|]. case_decide; [done|].
  destruct (savepoint c d x worker r run_mode p q) as [[c1 fx1] [d1|ex]] eqn:Hsp.
  - intros [= <- <- <-]. exists r. split_and!; [done|done|]. left.
    by apply (savepoint_step _ _ _ _ sid) in Hsp.
  - destruct ex; try done. intros Hd. exists r. split_and!; [done|done|]. right.
    assert ((sid, env_seq (q_env q)) ∈ ledger d) as Hin.
    { destruct (decide ((sid, env_seq (q_env q)) ∈ ledger d)); [done|]. exfalso. revert Hsp.
      apply savepoint_not_duplicate. by rewrite Hs. }
    split; [done|]. by apply (duplicate_step _ _ _ _ sid) in Hd.
Qed.

(** An envelope that is in the ledger sends nothing out, whatever becomes of it. *)
Lemma apply_presign_quiet d x r p payload :
  quiet (apply_presign sha256_hex presign_url cfg exn_str library_code st d x r p payload).1.
Proof. unfold apply_presign. by repeat case_match. Qed.
Lemma duplicate_quiet c d x r p e :
  quiet (Ingest.duplicate sha256_hex presign_url head_object cfg store session_model exn_str library_code
           st c d x r run_mode p e).1.2.
Proof.
  unfold Ingest.duplicate. case_decide as Hst; [done|]. case_decide as Hpr; [|done].
  unfold Ingest.apply. cbv zeta. rewrite Hpr.
  repeat (rewrite bool_decide_false by done; cbn [orb]). rewrite bool_decide_true by done.
  pose proof (apply_presign_quiet d x r p (env_payload e)) as Hq.
  by destruct (apply_presign _ _ _ _ _ _ _ _ _ _ _) as [fx0 [d1|ex]].
Qed.
Lemma ingest_leased_quiet c d x p row q :
  (env_session (q_env q), env_seq (q_env q)) ∈ ledger d →
  quiet (ingest_leased c d x worker run_mode p row q).1.2.
Proof.
  intros Hin. unfold Ingest.ingest_leased. destruct row as [r|]; [|done].
  destruct (negb _); [done|]. destruct (MAX_MESSAGE_BYTES <? q_raw q); [done|]. case_decide; [done|].
  unfold Ingest.savepoint. cbv zeta.
  destruct (may_fail (io_early x)) as [|ex] eqn:He; cbn [mbind res_bind].
  - unfold claim. rewrite decide_True by done. apply duplicate_quiet.
  - destruct ex; try done. apply duplicate_quiet.
Qed.

Lemma ingest_one_refines ps f q x :
  db_ok (f_db f) → ∃ t, handled worker f q t (ingest_one worker run_mode ps f q x).
Proof.
  intros Hok. unfold Ingest.ingest_one. cbv zeta. case_decide as Hst.
  { exists Skipped. by constructor. }
  unfold get_session_by_id.
  destruct (bool_decide _ && bool_decide (env_type (q_env q) ∈ LEASE_FREE_TYPES)) eqn:Hfree.
  { bool_props. destruct (sessions (f_db f) !! env_session (q_env q)) as [r|] eqn:Hr; [|done].
    exists Receipt. by eapply handled_receipt. }
  pose proof (ingest_leased_quiet (f_cache f) (f_db f) x (ps !! (env_session (q_env q), env_seq (q_env q)))
    (sessions (f_db f) !! env_session (q_env q)) q) as Hquiet.
  destruct (ingest_leased _ _ _ _ _ _ _ _) as [[c fx] [d'|ex]] eqn:Hl; cbn [fst snd] in Hquiet.
  - eapply ingest_leased_step in Hl as (r & Hr & Hlease & [(Hn & Hs & Hw)|(Hin & Hs & Ho & Hw)]); try done.
    + exists Applied. by eapply handled_applied.
    + exists Duplicate. eapply handled_duplicate; try done. by apply Hquiet.
  - assert (∀ ex, is_transient ex = true → (∀ reason, ex ≠ RejectExn reason) →
      ingest_leased (f_cache f) (f_db f) x worker run_mode (ps !! (env_session (q_env q), env_seq (q_env q)))
        (sessions (f_db f) !! env_session (q_env q)) q = (c, fx, Err ex) →
      ∃ r, sessions (f_db f) !! env_session (q_env q) = Some r ∧ is_leased_to worker r = true) as Hrow.
    { intros ex0 _ Hne. unfold Ingest.ingest_leased.
      destruct (sessions (f_db f) !! env_session (q_env q)) as [r|]; [|intros [= _ _ <-]; by edestruct Hne].
      destruct (is_leased_to worker r) eqn:Hlease; [by exists r|]. intros [= _ _ <-]. by edestruct Hne. }
    destruct (is_transient ex) eqn:Htr.
    + destruct ex; try done; edestruct Hrow as (r & Hr & Hlease); try done;
        exists Stalled; by eapply handled_stalled.
    + destruct ex; try done; eexists; by apply handled_rejected.
Qed.

Lemma ingest_all_refines ps f l :
  db_ok (f_db f) →
  ∃ ts, handled_all worker f l.*1 ts (ingest_all worker run_mode ps f l) ∧ db_ok (f_db (ingest_all worker run_mode ps f l)).
Proof.
  revert f. induction l as [|[q x] l IH]; intros f Hok.
  { exists []. split; [constructor|done]. }
  destruct (ingest_one_refines ps f q x Hok) as [t Ht].
  destruct (IH (ingest_one worker run_mode ps f q x)) as (ts & Hts & Hok').
  { by eapply handled_ok. }
  exists (t :: ts). split; [|done]. econstructor; [exact Ht|exact Hts].
Qed.
End refine.
