(* ===== verification/IngestProps.v ===== *)
(** * Correctness of ingest

    Theorems about [Ingest.flush_batch], from the contract of [IngestSpec]: what a
    batch acks and hands back, that an envelope is applied at most once, that a worker
    changes its own sessions only, and that the wakes of a batch are its new events. *)

From S2P Require Import Prelude PyStd Protocol Db Sandbox Usage Blobs Artifacts Accounting Ingest IngestSpec.

Open Scope Z_scope.

Definition sess (q : queued) : uuid := env_session (q_env q).
Definition key (q : queued) : uuid * Z := (env_session (q_env q), env_seq (q_env q)).
Definition of_sess (sid : uuid) (l : list queued) : list queued := filter (λ q, sess q = sid) l.
Definition seqs (l : list queued) : list Z := (λ q, env_seq (q_env q)) <$> l.

Lemma of_sess_app sid l1 l2 : of_sess sid (l1 ++ l2) = of_sess sid l1 ++ of_sess sid l2.
Proof. apply list.filter_app. Qed.
Lemma of_sess_cons sid q l :
  of_sess sid (q :: l) = if decide (sess q = sid) then q :: of_sess sid l else of_sess sid l.
Proof. unfold of_sess. by rewrite filter_cons. Qed.

(** The highest number of a list, from an earlier ack. *)
Definition bump (o : option Z) (l : list queued) : option Z :=
  match l with [] => o | _ => Some (foldl Z.max (default 0 o) (seqs l)) end.
Lemma bump_cons o q l : bump o (q :: l) = bump (Some (Z.max (default 0 o) (env_seq (q_env q)))) l.
Proof. by destruct l. Qed.

(** ** Acks and retries *)

Section acks.
Context (worker : uuid).

Lemma ack_lookup o sid seq sid' :
  acks (ack o sid seq) !! sid'
  = if decide (sid = sid') then Some (Z.max (default 0 (acks o !! sid)) seq) else acks o !! sid'.
Proof. unfold ack. cbn [acks]. apply olookup_insert. Qed.

(** How one envelope moves the ack, the retries and the stalls of a session. *)
Lemma handled_effect f q t f' sid :
  handled worker f q t f' →
  if decide (sess q = sid) then
    match t with
    | Skipped => sid ∈ f_stalled f ∧ f_stalled f' = f_stalled f
                 ∧ acks (f_out f') = acks (f_out f) ∧ retry (f_out f') = (retry (f_out f) ++ [q])
    | Stalled => sid ∉ f_stalled f ∧ sid ∈ f_stalled f'
                 ∧ acks (f_out f') = acks (f_out f) ∧ retry (f_out f') = (retry (f_out f) ++ [q])
    | _ => sid ∉ f_stalled f ∧ f_stalled f' = f_stalled f ∧ retry (f_out f') = retry (f_out f)
           ∧ acks (f_out f') !! sid = Some (Z.max (default 0 (acks (f_out f) !! sid)) (env_seq (q_env q)))
    end
  else (sid ∈ f_stalled f' ↔ sid ∈ f_stalled f) ∧ acks (f_out f') !! sid = acks (f_out f) !! sid
       ∧ of_sess sid (retry (f_out f')) = of_sess sid (retry (f_out f)).
Proof.
  intros Hh. unfold sess. destruct (decide (env_session (q_env q) = sid)) as [<-|Hne].
  - destruct Hh; cbn [f_stalled f_out acks retry add_retry ack add_rejected merge];
      split_and!; rewrite ?olookup_insert_eq; try done. apply elem_of_union. left.
    by apply elem_of_singleton.
  - assert (∀ l, of_sess sid (l ++ [q]) = of_sess sid l) as Hq.
    { intros l. rewrite of_sess_app, of_sess_cons, decide_False by done. apply app_nil_r. }
    destruct Hh; cbn [f_stalled f_out acks retry add_retry ack add_rejected merge];
      rewrite ?olookup_insert_ne by done; rewrite ?Hq; split_and!; try done.
    rewrite elem_of_union, elem_of_singleton. naive_solver.
Qed.

Lemma handled_all_stalled f l ts f' sid :
  handled_all worker f l ts f' → sid ∈ f_stalled f →
  sid ∈ f_stalled f' ∧ acks (f_out f') !! sid = acks (f_out f) !! sid
  ∧ of_sess sid (retry (f_out f')) = of_sess sid (retry (f_out f)) ++ of_sess sid l.
Proof.
  induction 1 as [f|f q t f1 l ts f2 Hq _ IH]; intros Hst.
  { split_and!; [done|done|]. by rewrite app_nil_r. }
  apply (handled_effect _ _ _ _ sid) in Hq. rewrite of_sess_cons. destruct (decide (sess q = sid)) as [Hs|Hs].
  - destruct t; try (by destruct Hq). destruct Hq as (_ & E1 & E2 & E3).
    rewrite <- E1 in Hst. destruct (IH Hst) as (H1 & H2 & H3).
    split_and!; [done|by rewrite H2, E2|]. rewrite H3, E3, of_sess_app, of_sess_cons, decide_True by done.
    by rewrite <- app_assoc.
  - destruct Hq as (E1 & E2 & E3). apply E1 in Hst. destruct (IH Hst) as (H1 & H2 & H3).
    split_and!; [done|by rewrite H2, E2|by rewrite H3, E3].
Qed.

(** The envelopes of a session are acked up to the first one that stalls; that one and
    those after it are handed back, in order. *)
Lemma handled_all_prefix f l ts f' sid :
  handled_all worker f l ts f' → sid ∉ f_stalled f →
  ∃ acked rest, of_sess sid l = acked ++ rest
    ∧ of_sess sid (retry (f_out f')) = of_sess sid (retry (f_out f)) ++ rest
    ∧ acks (f_out f') !! sid = bump (acks (f_out f) !! sid) acked
    ∧ (sid ∈ f_stalled f' ↔ rest ≠ []).
Proof.
  induction 1 as [f|f q t f1 l ts f2 Hq Hall IH]; intros Hst.
  { exists [], []. rewrite !app_nil_r. split_and!; [done..|]. split; [done|by intros []]. }
  pose proof (handled_effect _ _ _ _ sid Hq) as He. rewrite of_sess_cons.
  destruct (decide (sess q = sid)) as [Hs|Hs].
  - destruct t; [by destruct He| | | | |].
    5:{ destruct He as (_ & E1 & E2 & E3).
        destruct (handled_all_stalled _ _ _ _ sid Hall E1) as (H1 & H2 & H3).
        exists [], (q :: of_sess sid l). split_and!; [done| |by rewrite H2, E2|by split].
        rewrite H3, E3, of_sess_app, of_sess_cons, decide_True by done. by rewrite <- app_assoc. }
    all: destruct He as (_ & E1 & E2 & E3); rewrite <- E1 in Hst;
      destruct (IH Hst) as (acked & rest & H1 & H2 & H3 & H4);
      exists (q :: acked), rest; split_and!;
      [by rewrite H1|by rewrite H2, E2|by rewrite H3, E3, bump_cons|done].
  - destruct He as (E1 & E2 & E3). rewrite <- E1 in Hst.
    destruct (IH Hst) as (acked & rest & H1 & H2 & H3 & H4). exists acked, rest.
    split_and!; [done|by rewrite H2, E3|by rewrite H3, E2|done].
Qed.

Lemma handled_all_acks_ok f l ts f' :
  handled_all worker f l ts f' → odict_ok (acks (f_out f)) → odict_ok (acks (f_out f')).
Proof.
  induction 1 as [|f q t f1 l ts f2 Hq _ IH]; intros Hok; [done|]. apply IH.
  destruct Hq; cbn; auto using odict_ok_insert.
Qed.
End acks.

(** ** Cursors *)

Section cursors.
Context (worker : uuid).

Definition advanced (o : option Z) (r : session_row) : session_row :=
  match o with
  | Some n => if is_leased_to worker r && (worker_seq (s_lease r) <? n) then set_cursor r n else r
  | None => r
  end.

Lemma advance_one_rest d p :
  advance_one worker d p = with_sessions d (sessions (advance_one worker d p)).
Proof. unfold advance_one. destruct (get_session_by_id d p.1); [case_match|]; by destruct d. Qed.
Lemma advance_one_lookup d p sid :
  sessions (advance_one worker d p) !! sid
  = if decide (p.1 = sid) then advanced (Some p.2) <$> sessions d !! sid else sessions d !! sid.
Proof.
  unfold advance_one, get_session_by_id, advanced. destruct (sessions d !! p.1) as [r|] eqn:Hr.
  - case_decide as Hp; [subst sid; rewrite Hr|]; cbn; case_match; cbn; rewrite ?Hr; try done.
    + by rewrite lookup_insert_eq.
    + by rewrite lookup_insert_ne.
  - case_decide as Hp; [subst sid; by rewrite Hr|done].
Qed.

Lemma advance_cursors_rest a d :
  advance_cursors worker d a = with_sessions d (sessions (advance_cursors worker d a)).
Proof.
  unfold advance_cursors. destruct a as [l]. cbn. revert d. induction l as [|p l IH]; intros d; cbn.
  - by destruct d.
  - etrans; [apply IH|]. generalize (sessions (foldl (advance_one worker) (advance_one worker d p) l)).
    intros m. by rewrite (advance_one_rest d p).
Qed.
Lemma advance_cursors_lookup a d sid :
  odict_ok a →
  sessions (advance_cursors worker d a) !! sid = advanced (a !! sid) <$> sessions d !! sid.
Proof.
  change (a !! sid) with (lget (oitems a) sid).
  unfold advance_cursors, odict_ok, okeys. destruct a as [l]. cbn [oitems].
  revert d. induction l as [|[k v] l IH]; intros d Hnd; cbn [foldl lget].
  - by destruct (sessions d !! sid).
  - apply list.NoDup_cons in Hnd as [Hk Hnd]. rewrite IH by done. rewrite advance_one_lookup. cbn [fst snd].
    destruct (decide (k = sid)) as [->|Hne]; [|done].
    assert (lget l sid = None) as ->.
    { destruct (lget l sid) eqn:E; [|done]. exfalso. apply Hk.
      apply (proj2 (elem_of_okeys (ODict l) sid)). by eexists. }
    cbn. by destruct (sessions d !! sid).
Qed.
End cursors.

(** ** Rows, leases and the ledger along a batch *)

Section batch.
Context (worker : uuid).

(** The row of a session keeps its identity and its lease; of a session that is not
    leased to the worker nothing changes. *)
Definition row_kept (d d' : db) (sid : uuid) : Prop :=
  match sessions d !! sid with
  | None => sessions d' !! sid = None
  | Some r => ∃ r', sessions d' !! sid = Some r' ∧ s_id r' = s_id r ∧ s_tenant r' = s_tenant r
                    ∧ s_lease r' = s_lease r ∧ (is_leased_to worker r = false → r' = r)
  end.
Lemma row_kept_refl d sid : row_kept d d sid.
Proof. unfold row_kept. destruct (sessions d !! sid) as [r|]; [|done]. by exists r. Qed.
Lemma row_kept_trans d1 d2 d3 sid : row_kept d1 d2 sid → row_kept d2 d3 sid → row_kept d1 d3 sid.
Proof.
  unfold row_kept. destruct (sessions d1 !! sid) as [r1|]; intros H1; [|by rewrite H1].
  destruct H1 as (r2 & -> & I2 & T2 & L2 & K2). intros (r3 & -> & I3 & T3 & L3 & K3). exists r3.
  split_and!; [done|congruence..|]. intros Hl. rewrite <- K2 by done. apply K3.
  unfold is_leased_to in *. by rewrite L2.
Qed.
Lemma step_row_kept new tenant sid d d' r sid' :
  session_step_with new tenant sid d d' → sessions d !! sid = Some r → is_leased_to worker r = true →
  row_kept d d' sid'.
Proof.
  intros Hs Hr Hl. destruct (ss_row _ _ _ _ _ Hs r Hr) as (r' & E & I & T & L).
  unfold row_kept. destruct (decide (sid = sid')) as [<-|Hne].
  - rewrite Hr, E, lookup_insert_eq. exists r'. split_and!; try done. congruence.
  - rewrite E, lookup_insert_ne by done. by apply row_kept_refl.
Qed.

Lemma handled_row f q t f' sid : handled worker f q t f' → row_kept (f_db f) (f_db f') sid.
Proof.
  destruct 1 as [| |r c fx d' _ Hr Hl _ Hs _|r c fx d' _ Hr Hl _ Hs _ _| |]; try apply row_kept_refl.
  - change (f_db f) with (f_db f) at 1. unfold row_kept.
    change (sessions (f_db f)) with (sessions (claimed (f_db f) (env_session (q_env q)) (env_seq (q_env q)))).
    by apply (step_row_kept _ _ _ _ _ _ sid Hs Hr).
  - by apply (step_row_kept _ _ _ _ _ _ sid Hs Hr).
Qed.
Lemma handled_all_row f l ts f' sid : handled_all worker f l ts f' → row_kept (f_db f) (f_db f') sid.
Proof.
  induction 1 as [|f q t f1 l ts f2 Hq _ IH]; [apply row_kept_refl|].
  eapply row_kept_trans; [by eapply handled_row|done].
Qed.

(** *** Rows of one owner *)

Definition own {R} (o : uuid * uuid) (owner : R → uuid * uuid) (l : list R) : list R :=
  filter (λ x, owner x = o) l.
Lemma own_foreign {R} tenant sid o (owner : R → uuid * uuid) l :
  o ≠ (tenant, sid) → own o owner l = own o owner (foreign tenant sid owner l).
Proof.
  intros Ho. unfold own, foreign. induction l as [|x l IH]; [done|]. rewrite !filter_cons.
  destruct (decide (owner x = o)) as [Hx|Hx].
  - rewrite decide_True by congruence. by rewrite filter_cons, decide_True, IH.
  - case_decide; [by rewrite filter_cons, decide_False|done].
Qed.

(** The rows of a session, in every table. *)
Definition own_rows (o : uuid * uuid) (d : db) :=
  (own o t_owner (turns d), own o i_owner (items d), own o e_owner (events d),
   own o a_owner (artifacts d), own o u_owner (uploads d), own o er_owner (environments d),
   own o sf_owner (session_files d)).
Lemma step_own new tenant sid d d' o :
  session_step_with new tenant sid d d' → o ≠ (tenant, sid) → own_rows o d' = own_rows o d.
Proof.
  intros [] Ho. unfold own_rows. rewrite !(own_foreign tenant sid o _ (turns _)),
    !(own_foreign tenant sid o _ (items _)), !(own_foreign tenant sid o _ (events _)),
    !(own_foreign tenant sid o _ (artifacts _)), !(own_foreign tenant sid o _ (uploads _)),
    !(own_foreign tenant sid o _ (environments _)), !(own_foreign tenant sid o _ (session_files _)) by done.
  congruence.
Qed.
Lemma handled_own f q t f' o :
  handled worker f q t f' →
  (∀ r, sessions (f_db f) !! o.2 = Some r → is_leased_to worker r = false ∨ s_tenant r ≠ o.1) →
  own_rows o (f_db f') = own_rows o (f_db f).
Proof.
  intros Hh Ho. destruct Hh as [| |r c fx d' _ Hr Hl _ Hs _|r c fx d' _ Hr Hl _ Hs _ _| |]; try done.
  - change (own_rows o (f_db f)) with (own_rows o (claimed (f_db f) (env_session (q_env q)) (env_seq (q_env q)))).
    eapply step_own; [exact Hs|]. intros ->. cbn in Ho. destruct (Ho _ Hr); congruence.
  - eapply step_own; [exact Hs|]. intros ->. cbn in Ho. destruct (Ho _ Hr); congruence.
Qed.
Lemma handled_all_own f l ts f' o :
  handled_all worker f l ts f' →
  (∀ r, sessions (f_db f) !! o.2 = Some r → is_leased_to worker r = false ∨ s_tenant r ≠ o.1) →
  own_rows o (f_db f') = own_rows o (f_db f).
Proof.
  induction 1 as [|f q t f1 l ts f2 Hq _ IH]; intros Ho; [done|]. rewrite IH; [by eapply handled_own|].
  intros r Hr. pose proof (handled_row _ _ _ _ o.2 Hq) as Hk. unfold row_kept in Hk.
  destruct (sessions (f_db f) !! o.2) as [r0|]; [|congruence].
  destruct Hk as (r' & E & I & T & L & K). assert (r' = r) as -> by congruence.
  destruct (Ho _ eq_refl) as [Hl|Ht]; [left|right; congruence]. unfold is_leased_to in *. by rewrite L.
Qed.

(** *** The ledger *)

Lemma handled_ledger f q t f' :
  handled worker f q t f' →
  match t with
  | Applied => key q ∉ ledger (f_db f) ∧ ledger (f_db f') = {[key q]} ∪ ledger (f_db f)
  | Duplicate => key q ∈ ledger (f_db f) ∧ ledger (f_db f') = ledger (f_db f)
  | _ => ledger (f_db f') = ledger (f_db f)
  end.
Proof.
  destruct 1 as [| |r c fx d' _ Hr Hl Hn Hs _|r c fx d' _ Hr Hl Hin Hs _ _| |]; try done.
  - split; [done|]. apply (ss_ledger _ _ _ _ _ Hs).
  - split; [done|]. apply (ss_ledger _ _ _ _ _ Hs).
Qed.

Lemma handled_all_ledger f l ts f' :
  handled_all worker f l ts f' →
  ledger (f_db f) ⊆ ledger (f_db f') ∧ ledger (f_db f') ⊆ ledger (f_db f) ∪ list_to_set (key <$> l).
Proof.
  induction 1 as [|f q t f1 l ts f2 Hq _ [IH1 IH2]]; [set_solver|]. apply handled_ledger in Hq.
  csimpl. destruct t; [rewrite Hq in IH1, IH2|rewrite Hq in IH1, IH2|destruct Hq as [_ Hq]; rewrite Hq in IH1, IH2
    |destruct Hq as [_ Hq]; rewrite Hq in IH1, IH2|rewrite Hq in IH1, IH2|rewrite Hq in IH1, IH2]; set_solver.
Qed.

(** A session claims numbers only up to its first temporary failure. *)
Lemma handled_claims f q t f' sid n :
  handled worker f q t f' → (sid, n) ∈ ledger (f_db f') →
  (sid, n) ∈ ledger (f_db f) ∨ t = Applied ∧ sess q = sid ∧ env_seq (q_env q) = n.
Proof.
  intros Hq%handled_ledger. destruct t; try (rewrite Hq; by left).
  - destruct Hq as [_ ->]. intros [E%elem_of_singleton|?]%elem_of_union; [|by left]. right. unfold key in E. by injection E as -> ->.
  - destruct Hq as [_ ->]. by left.
Qed.
Lemma handled_all_stalled_claims f l ts f' sid n :
  handled_all worker f l ts f' → sid ∈ f_stalled f → (sid, n) ∈ ledger (f_db f') → (sid, n) ∈ ledger (f_db f).
Proof.
  induction 1 as [|f q t f1 l ts f2 Hq _ IH]; [done|]. intros Hst Hn.
  pose proof (handled_effect _ _ _ _ _ sid Hq) as He. destruct (decide (sess q = sid)) as [Hs|Hs].
  - destruct t; try (by destruct He). destruct He as (_ & E & _). rewrite E in IH. specialize (IH Hst Hn).
    by destruct (handled_claims _ _ _ _ sid n Hq IH) as [?|[? _]].
  - destruct He as (E & _). apply E in Hst. specialize (IH Hst Hn).
    by destruct (handled_claims _ _ _ _ sid n Hq IH) as [?|(_ & ? & _)].
Qed.
Lemma handled_all_claims f l ts f' sid :
  handled_all worker f l ts f' → sid ∉ f_stalled f →
  ∃ acked rest, of_sess sid l = acked ++ rest
    ∧ of_sess sid (retry (f_out f')) = of_sess sid (retry (f_out f)) ++ rest
    ∧ ∀ n, (sid, n) ∈ ledger (f_db f') → (sid, n) ∈ ledger (f_db f) ∨ n ∈ seqs acked.
Proof.
  induction 1 as [f|f q t f1 l ts f2 Hq Hall IH]; intros Hst.
  { exists [], []. rewrite !app_nil_r. split_and!; [done..|by left]. }
  pose proof (handled_effect _ _ _ _ _ sid Hq) as He. pose proof (λ n, handled_claims f q t f1 sid n) as Hc.
  rewrite of_sess_cons. destruct (decide (sess q = sid)) as [Hs|Hs].
  - destruct t; [by destruct He| | | | |].
    5:{ destruct He as (_ & E1 & _ & E3). destruct (handled_all_stalled _ _ _ _ _ sid Hall E1) as (_ & _ & H3).
        exists [], (q :: of_sess sid l). split_and!; [done| |].
        - rewrite H3, E3, of_sess_app, of_sess_cons, decide_True by done. by rewrite <- app_assoc.
        - intros n Hn. left. apply (handled_all_stalled_claims _ _ _ _ sid n Hall E1) in Hn.
          by destruct (Hc n Hq Hn) as [?|[? _]]. }
    all: destruct He as (_ & E1 & E2 & _); rewrite <- E1 in Hst; destruct (IH Hst) as (acked & rest & H1 & H2 & H3);
      exists (q :: acked), rest; split_and!; [by rewrite H1|by rewrite H2, E2|]; intros n Hn;
      (destruct (H3 n Hn) as [Hn'|?]; [|right; by right]);
      (destruct (Hc n Hq Hn') as [?|(_ & _ & <-)]; [by left|right; by left]).
  - destruct He as (E1 & E2 & E3). rewrite <- E1 in Hst. destruct (IH Hst) as (acked & rest & H1 & H2 & H3).
    exists acked, rest. split_and!; [done|by rewrite H2, E3|]. intros n Hn. destruct (H3 n Hn) as [Hn'|?]; [|by right].
    by destruct (Hc n Hq Hn') as [?|(_ & ? & _)]; [left|].
Qed.

(** The lists of the outcome only grow. *)
Lemma handled_all_grows f l ts f' :
  handled_all worker f l ts f' →
  retry (f_out f) `prefix_of` retry (f_out f') ∧ rejected (f_out f) `prefix_of` rejected (f_out f').
Proof.
  induction 1 as [|f q t f1 l ts f2 Hq _ [IH1 IH2]]; [done|].
  assert (retry (f_out f) `prefix_of` retry (f_out f1) ∧ rejected (f_out f) `prefix_of` rejected (f_out f1))
    as [H1 H2]; [|split; by etrans].
  destruct Hq; cbn [f_out retry rejected add_retry ack merge add_rejected];
    (split; [done || by apply prefix_app_r|done || by apply prefix_app_r]).
Qed.

(** Every envelope is in the ledger, handed back, rejected, or a receipt. *)
Definition accounted (d : db) (out : outcome) (q : queued) : Prop :=
  key q ∈ ledger d ∨ q ∈ retry out ∨ (∃ reason, (key q, reason) ∈ rejected out)
  ∨ env_type (q_env q) ∈ LEASE_FREE_TYPES.
Lemma handled_all_accounted f l ts f' q :
  handled_all worker f l ts f' → q ∈ l → accounted (f_db f') (f_out f') q.
Proof.
  induction 1 as [|f q0 t f1 l ts f2 Hq Hall IH]; [by intros ?%elem_of_nil|].
  intros [->|Hin]%elem_of_cons; [|by apply IH].
  destruct (handled_all_grows _ _ _ _ Hall) as [[k1 G1] [k2 G2]].
  destruct (handled_all_ledger _ _ _ _ Hall) as [G3 _].
  pose proof (handled_ledger _ _ _ _ Hq) as Hl. unfold accounted.
  destruct Hq; cbn [f_out retry rejected add_retry ack merge add_rejected f_db] in *.
  - right; left. rewrite G1. set_solver.
  - by right; right; right.
  - left. destruct Hl as [_ Hl]. set_solver.
  - left. destruct Hl as [Hl ?]. set_solver.
  - right; right; left. exists reason. rewrite G2. unfold key. set_solver.
  - right; left. rewrite G1. set_solver.
Qed.

(** *** A replay *)

(** Equal but for the upload slots. *)
Lemma only_uploads_refl d : only_uploads d d.
Proof. unfold only_uploads. by rewrite with_uploads_id. Qed.
Lemma only_uploads_trans d1 d2 d3 : only_uploads d1 d2 → only_uploads d2 d3 → only_uploads d1 d3.
Proof. unfold only_uploads. intros -> ->. done. Qed.

Definition sent (o : outcome) := (wakes o, lifecycle o, wipes o).
Lemma merge_quiet b o fx : quiet fx → sent (merge b o fx) = sent o.
Proof. intros (H1 & H2 & H3). unfold sent, merge. cbn. rewrite H1, H2, H3. destruct b; by rewrite !app_nil_r. Qed.

Lemma handled_replay f q t f' :
  handled worker f q t f' → key q ∈ ledger (f_db f) →
  only_uploads (f_db f) (f_db f') ∧ sent (f_out f') = sent (f_out f).
Proof.
  intros Hq Hin. destruct Hq as [| |r c fx d' _ Hr Hl Hn Hs _|r c fx d' _ Hr Hl _ Hs Ho Hqt
    |c fx reason _ Hqt|c fx r _ _ _ Hqt]; try (split; [apply only_uploads_refl|done]).
  - done.
  - split; [done|]. by apply (merge_quiet true).
  - split; [apply only_uploads_refl|]. apply (merge_quiet false), Hqt, Hin.
  - split; [apply only_uploads_refl|]. apply (merge_quiet false), Hqt, Hin.
Qed.
Lemma handled_all_replay f l ts f' :
  handled_all worker f l ts f' → Forall (λ q, key q ∈ ledger (f_db f)) l →
  only_uploads (f_db f) (f_db f') ∧ sent (f_out f') = sent (f_out f).
Proof.
  induction 1 as [|f q t f1 l ts f2 Hq _ IH]; intros Hin; [split; [apply only_uploads_refl|done]|].
  apply list.Forall_cons in Hin as [Hk Hin]. destruct (handled_replay _ _ _ _ Hq Hk) as [H1 H2].
  assert (ledger (f_db f1) = ledger (f_db f)) as Hl by by rewrite H1.
  destruct IH as [H3 H4]; [by rewrite Hl|]. split; [by eapply only_uploads_trans|congruence].
Qed.

(** *** Events and wakes *)

Lemma handled_events f q t f' :
  handled worker f q t f' →
  ∃ ws, wakes (f_out f') = wakes (f_out f) ++ ws ∧ events (f_db f') = events (f_db f) ++ ws.*2
    ∧ Forall (λ w, w.1 = e_session w.2) ws.
Proof.
  destruct 1 as [| |r c fx d' _ Hr Hl Hn Hs Hw|r c fx d' _ Hr Hl Hin Hs _ Hq|c fx reason _ _|c fx r _ _ _ _];
    cbn [wakes f_out add_retry ack merge add_rejected f_db].
  3:{ exists (fx_wakes fx). split_and!; [done|apply (ss_log _ _ _ _ _ Hs)|].
      eapply list.Forall_impl; [exact Hw|]. intros w [H1 H2]. unfold e_owner in H2. congruence. }
  3:{ exists []. destruct Hq as (-> & _). split_and!; [done| |constructor].
      rewrite (ss_log _ _ _ _ _ Hs). done. }
  all: exists []; rewrite !app_nil_r; split_and!; [done|done|constructor].
Qed.
Lemma handled_all_events f l ts f' :
  handled_all worker f l ts f' →
  ∃ ws, wakes (f_out f') = wakes (f_out f) ++ ws ∧ events (f_db f') = events (f_db f) ++ ws.*2
    ∧ Forall (λ w, w.1 = e_session w.2) ws.
Proof.
  induction 1 as [f|f q t f1 l ts f2 Hq _ IH].
  { exists []. rewrite !app_nil_r. split_and!; [done|done|constructor]. }
  destruct (handled_events _ _ _ _ Hq) as (w1 & A1 & B1 & C1).
  destruct IH as (w2 & A2 & B2 & C2). exists (w1 ++ w2).
  rewrite A2, A1, B2, B1, fmap_app, !app_assoc. split_and!; [done|done|by apply Forall_app].
Qed.
End batch.

(** ** Theorems *)

Section flush.
Context {S : Type} `{ObjectStore S} (st : S).
Context (sha256_hex : list ascii → string).
Context (presign_url : list ascii → Z → string → string * list (string * json)).
Context (head_object : S → list ascii → res exn (option Z)).
Context (cfg : settings) (store : usage_store).
Context (session_model : db → session_row → option string).
Context (exn_str : exn → string) (library_code : exn → option string).
Context (worker : uuid) (run_mode : option string).

#[local] Abbreviation flush_batch := (flush_batch sha256_hex presign_url head_object cfg store
  session_model exn_str library_code st).

(** What a batch that commits has done. *)
Lemma flush_shape d0 d l commit d' out :
  db_ok d → flush_batch d0 d worker run_mode l commit = Ok (d', out) →
  ∃ f ts, handled_all worker (Flushing d empty_cache ∅ empty_outcome) l.*1 ts f
    ∧ out = f_out f ∧ d' = advance_cursors worker (f_db f) (acks out) ∧ db_ok (f_db f)
    ∧ odict_ok (acks out).
Proof.
  intros Hok. unfold Ingest.flush_batch, flush_with. case_decide as Hl.
  { intros [= <- <-]. exists (Flushing d empty_cache ∅ empty_outcome), []. rewrite Hl.
    split_and!; try done; [constructor|apply odict_ok_empty]. }
  destruct commit; [done|]. intros [= <- <-].
  match goal with |- context [f_out (ingest_all _ _ _ _ _ _ _ _ _ _ _ ?ps ?f ?l)] =>
    destruct (ingest_all_refines st sha256_hex presign_url head_object cfg store session_model exn_str
      library_code worker run_mode ps f l) as (ts & Hts & Hok'); [done|] end.
  eexists _, ts. split_and!; [exact Hts|done|done|done|].
  by apply (handled_all_acks_ok _ _ _ _ _ Hts), odict_ok_empty.
Qed.

Lemma advance_ok a d : odict_ok a → db_ok d → db_ok (advance_cursors worker d a).
Proof.
  intros Ha Hok. rewrite advance_cursors_rest. destruct Hok. split; try done.
  intros sid r Hr. cbn in Hr. rewrite advance_cursors_lookup in Hr by done.
  apply fmap_Some in Hr as (r0 & Hr0 & ->). apply ok_keyed in Hr0. unfold advanced.
  destruct (a !! sid); [case_match|]; done.
Qed.

Lemma flush_db_ok d0 d l commit d' out :
  db_ok d → flush_batch d0 d worker run_mode l commit = Ok (d', out) → db_ok d'.
Proof.
  intros Hok Hf. destruct (flush_shape _ _ _ _ _ _ Hok Hf) as (f & ts & _ & -> & -> & Hok' & Ha).
  by apply advance_ok.
Qed.

(** The cursor of a leased session becomes the higher of itself and its ack. *)
Lemma handled_all_cursor d l ts f sid seq :
  handled_all worker (Flushing d empty_cache ∅ empty_outcome) l ts f → odict_ok (acks (f_out f)) →
  last_seq_for d worker sid = Some seq →
  last_seq_for (advance_cursors worker (f_db f) (acks (f_out f))) worker sid
  = Some (Z.max seq (default seq (acks (f_out f) !! sid))).
Proof.
  intros Hall Ha. unfold last_seq_for, get_session_by_id. rewrite advance_cursors_lookup by done.
  pose proof (handled_all_row _ _ _ _ _ sid Hall) as Hk. unfold row_kept in Hk. cbn [f_db] in Hk.
  destruct (sessions d !! sid) as [r|]; [|done]. destruct Hk as (r' & -> & _ & _ & L & _).
  cbn [mbind option_bind fmap option_fmap option_map]. destruct (is_leased_to worker r) eqn:Hl; [|done].
  intros [= <-]. assert (is_leased_to worker r' = true) as Hl'.
  { unfold is_leased_to in *. by rewrite L. }
  unfold advanced. rewrite Hl', <- L. cbn [andb]. destruct (acks (f_out f) !! sid) as [n|]; cbn [default].
  - destruct (worker_seq (s_lease r') <? n) eqn:Hn.
    + change (is_leased_to worker (set_cursor r' n)) with (is_leased_to worker r'). rewrite Hl'.
      apply Z.ltb_lt in Hn. f_equal. change (worker_seq (s_lease (set_cursor r' n))) with n. unfold id. lia.
    + rewrite Hl'. apply Z.ltb_ge in Hn. f_equal. unfold id. lia.
  - rewrite Hl'. f_equal. lia.
Qed.

#[local] Abbreviation ingest_leased := (ingest_leased sha256_hex presign_url head_object cfg store
  session_model exn_str library_code st).
#[local] Abbreviation ingest_one := (ingest_one sha256_hex presign_url head_object cfg store
  session_model exn_str library_code st).
#[local] Abbreviation ingest_all := (ingest_all sha256_hex presign_url head_object cfg store
  session_model exn_str library_code st).

(** What becomes of one envelope whose session has not stalled: the exception that
    its own run raises in the state [f], if any.  A receipt of a known session that
    needs no lease is not run. *)
Definition raised (ps : gmap (uuid * Z) precheck) (f : flushing) (q : queued) (x : io) : option exn :=
  if bool_decide (get_session_by_id (f_db f) (sess q) ≠ None)
     && bool_decide (env_type (q_env q) ∈ LEASE_FREE_TYPES) then None
  else
    match ingest_leased (f_cache f) (f_db f) x worker run_mode (ps !! key q)
            (get_session_by_id (f_db f) (sess q)) q with
    | (_, _, Err e) => Some e
    | _ => None
    end.

(** The reason a rejected envelope is reported with. *)
Definition reason_of (e : exn) : string :=
  match e with RejectExn reason => reason | _ => "ingest_error" end.

(** An envelope is done with: in the ledger or a receipt, or reported as rejected. *)
Definition dealt (d : db) (out : outcome) (q : queued) (o : option exn) : Prop :=
  match o with
  | None => key q ∈ ledger d ∨ env_type (q_env q) ∈ LEASE_FREE_TYPES
  | Some e => is_transient e = false ∧ (key q, reason_of e) ∈ rejected out
  end.

Lemma ingest_one_raised ps f q x :
  db_ok (f_db f) → sess q ∉ f_stalled f →
  let f' := ingest_one worker run_mode ps f q x in
  (sess q ∈ f_stalled f' ∧ ∃ e, raised ps f q x = Some e ∧ is_transient e = true)
  ∨ (sess q ∉ f_stalled f' ∧ dealt (f_db f') (f_out f') q (raised ps f q x)).
Proof.
  intros Hok Hst. cbv zeta. unfold Ingest.ingest_one, raised, sess, key in *. cbv zeta.
  rewrite decide_False by done.
  destruct (bool_decide _ && bool_decide (env_type (q_env q) ∈ LEASE_FREE_TYPES)) eqn:Hfree.
  { right. split; [done|]. right. by bool_props. }
  destruct (ingest_leased _ _ _ _ _ _ _ _) as [[c fx] [d'|ex]] eqn:Hl.
  - right. split; [done|]. left. cbn [f_db].
    eapply ingest_leased_step in Hl as (r & Hr & Hlease & [(Hn & Hs & Hw)|(Hin & Hs & Ho & Hw)]); try done.
    + rewrite (ss_ledger _ _ _ _ _ Hs). cbn. set_solver.
    + by rewrite (ss_ledger _ _ _ _ _ Hs).
  - destruct (is_transient ex) eqn:Htr; destruct ex; try done;
      first [left; cbn [f_stalled]; split; [set_solver|by eexists]
            |right; cbn [f_stalled f_out rejected ack add_rejected merge reason_of]; split; [done|];
             split; [done|set_solver]].
Qed.

(** A batch cut at one of its envelopes. *)
Lemma ingest_all_raised ps f0 pre q x post sid :
  db_ok (f_db f0) → sid ∉ f_stalled f0 → of_sess sid (retry (f_out f0)) = [] → sess q = sid →
  let l := pre ++ (q, x) :: post in
  let f := ingest_all worker run_mode ps f0 pre in
  let f' := ingest_all worker run_mode ps f0 l in
  ∀ acked, of_sess sid l.*1 = acked ++ of_sess sid (retry (f_out f')) →
  (length (of_sess sid pre.*1) < length acked → dealt (f_db f') (f_out f') q (raised ps f q x))%nat
  ∧ (length (of_sess sid pre.*1) = length acked →
     ∃ e, raised ps f q x = Some e ∧ is_transient e = true).
Proof.
  intros Hok Hst0 Hr0 Hq l f f' acked Hacked.
  destruct (ingest_all_refines st sha256_hex presign_url head_object cfg store session_model exn_str
    library_code worker run_mode ps f0 pre Hok) as (ts1 & H1 & Hok1). fold f in H1, Hok1.
  set (f1 := ingest_one worker run_mode ps f q x).
  destruct (ingest_one_refines st sha256_hex presign_url head_object cfg store session_model exn_str
    library_code worker run_mode ps f q x Hok1) as [t H2]. fold f1 in H2.
  destruct (ingest_all_refines st sha256_hex presign_url head_object cfg store session_model exn_str
    library_code worker run_mode ps f1 post) as (ts3 & H3 & _); [by eapply handled_ok|].
  assert (ingest_all worker run_mode ps f1 post = f') as Hf'.
  { unfold f', f1, f, l, Ingest.ingest_all. by rewrite foldl_app. }
  rewrite Hf' in H3.
  destruct (handled_all_prefix _ _ _ _ _ sid H1 Hst0) as (a1 & r1 & E1 & R1 & _ & S1).
  rewrite Hr0 in R1. cbn [app] in R1.
  unfold l in Hacked. rewrite fmap_app, fmap_cons, of_sess_app, of_sess_cons, decide_True, E1 in Hacked by done.
  cbn [fst] in Hacked. rewrite E1.
  apply (f_equal length) in Hacked. rewrite !length_app in Hacked. cbn [length] in Hacked.
  destruct (decide (sid ∈ f_stalled f)) as [Hst|Hst].
  { assert (r1 ≠ []) as Hne by by apply S1.
    pose proof (handled_all_stalled worker f (q :: post.*1) (t :: ts3) f' sid) as Hs.
    destruct Hs as (_ & _ & R); [by econstructor|done|].
    rewrite of_sess_cons, decide_True in R by done. rewrite R, R1, length_app in Hacked. cbn [length] in Hacked.
    rewrite length_app. destruct r1; [done|]. cbn [length] in *. lia. }
  assert (r1 = []) as -> by (destruct (decide (r1 = [])) as [|Hn]; [done|by apply S1 in Hn]).
  rewrite app_nil_r. pose proof (handled_effect _ _ _ _ _ sid H2) as He. rewrite decide_True in He by done.
  destruct (ingest_one_raised ps f q x Hok1) as [[Hs Hex]|[Hs Hd]]; [by rewrite Hq|..]; rewrite Hq in Hs; fold f1 in Hs.
  - split; [|by intros _]. intros Hlt. exfalso.
    destruct (handled_all_stalled _ _ _ _ _ sid H3 Hs) as (_ & _ & R).
    assert (retry (f_out f1) = retry (f_out f) ++ [q]) as Hrt
      by (destruct t, He as (? & He & ? & ?); try done; by rewrite He in Hs).
    rewrite R, Hrt, of_sess_app, R1, of_sess_cons, decide_True in Hacked by done.
    cbn [app length] in Hacked. rewrite length_app in Hacked. cbn in *. lia.
  - destruct (handled_all_prefix _ _ _ _ _ sid H3 Hs) as (a2 & r2 & E2 & R2 & _ & _).
    assert (retry (f_out f1) = retry (f_out f)) as Hrt by (by destruct t, He as (? & He & ? & ?)).
    rewrite R2, Hrt, R1, E2, !length_app in Hacked. cbn [app length] in Hacked.
    split; [intros _|intros Heq; exfalso; cbn in *; lia].
    destruct (handled_all_grows _ _ _ _ _ H3) as [_ [k G]].
    destruct (handled_all_ledger _ _ _ _ _ H3) as [GL _].
    revert Hd. fold f1. unfold dealt. destruct (raised ps f q x).
    + intros [? Hin]. split; [done|]. rewrite G. set_solver.
    + intros [Hin|?]; [left; set_solver|by right].
Qed.

(** C7: of each session's envelopes in a batch, those before the first temporary
    failure are acked, and that one and all later ones are handed back in order.  What
    stops a session is a temporary failure of that very envelope, raised by its run in
    the state the earlier ones left; an envelope acked before it is in the ledger or a
    receipt, or its failure is not temporary and is reported as a rejection with its
    reason.  The ack is the highest acked number, and the cursor of a leased session
    becomes the higher of itself and the ack. *)
Theorem flush_prefix d0 d l commit d' out sid :
  db_ok d → flush_batch d0 d worker run_mode l commit = Ok (d', out) →
  (∃ acked,
     of_sess sid l.*1 = acked ++ of_sess sid (retry out) ∧ acks out !! sid = bump None acked
     ∧ ∀ pre q x post, l = pre ++ (q, x) :: post → sess q = sid →
         let ps := precheck_batch sha256_hex head_object cfg st d0 worker l.*1 in
         let f := ingest_all worker run_mode ps (Flushing d empty_cache ∅ empty_outcome) pre in
         let n := length (of_sess sid pre.*1) in
         (n < length acked → dealt d' out q (raised ps f q x))%nat
         ∧ (n = length acked → ∃ e, raised ps f q x = Some e ∧ is_transient e = true))
  ∧ (∀ seq, last_seq_for d worker sid = Some seq →
       last_seq_for d' worker sid = Some (Z.max seq (default seq (acks out !! sid)))).
Proof.
  intros Hok Hf. destruct (flush_shape _ _ _ _ _ _ Hok Hf) as (f & ts & Hall & Hout & Hd' & _ & Ha).
  split.
  - destruct (handled_all_prefix _ _ _ _ _ sid Hall) as (acked & rest & H1 & H2 & H3 & _); [set_solver|].
    subst out. exists acked. rewrite H2. split_and!; [done|done|].
    intros pre q x post -> Hq ps f0 n. subst f0 n. revert Hf.
    unfold Ingest.flush_batch, flush_with. rewrite decide_False by (by destruct pre).
    destruct commit; [done|]. fold ps. intros [= Hd Ho].
    destruct (ingest_all_raised ps (Flushing d empty_cache ∅ empty_outcome) pre q x post sid Hok)
      with (acked := acked) as [G1 G2]; [set_solver|done|done|by rewrite Ho, H2|].
    split; [|done]. intros Hn%G1. rewrite Ho in Hn. rewrite <- Hd.
    unfold dealt in *. by rewrite advance_cursors_rest.
  - subst. intros seq Hseq. by eapply handled_all_cursor.
Qed.

(** a batch leaves every session that is not leased to the worker as it was: its
    row, and its rows in every table. *)
Theorem flush_isolated d0 d l commit d' out sid :
  db_ok d → flush_batch d0 d worker run_mode l commit = Ok (d', out) →
  (∀ r, sessions d !! sid = Some r → is_leased_to worker r = false) →
  sessions d' !! sid = sessions d !! sid ∧ ∀ tenant, own_rows (tenant, sid) d' = own_rows (tenant, sid) d.
Proof.
  intros Hok Hf Hl. destruct (flush_shape _ _ _ _ _ _ Hok Hf) as (f & ts & Hall & -> & -> & _ & Ha).
  split.
  - rewrite advance_cursors_lookup by done.
    pose proof (handled_all_row _ _ _ _ _ sid Hall) as Hk. unfold row_kept in Hk. cbn [f_db] in Hk.
    destruct (sessions d !! sid) as [r|]; [|by rewrite Hk]. destruct Hk as (r' & -> & _ & _ & _ & K).
    rewrite K by (by apply Hl). cbn. unfold advanced. rewrite (Hl r) by done. cbn.
    by destruct (acks (f_out f) !! sid).
  - intros tenant. rewrite advance_cursors_rest.
    change (own_rows (tenant, sid) (with_sessions (f_db f) ?s)) with (own_rows (tenant, sid) (f_db f)).
    etrans; [|by eapply (handled_all_own _ _ _ _ _ (tenant, sid) Hall); intros r Hr; left; apply Hl].
    done.
Qed.

(** C33: a batch keeps the constraints of the schema and the numbering of each
    session's events from 1 without gaps; the wakes it publishes are exactly the events
    it stored, in the order it stored them. *)
Theorem flush_events d0 d l commit d' out :
  db_ok d → flush_batch d0 d worker run_mode l commit = Ok (d', out) →
  db_ok d' ∧ events d' = events d ++ (wakes out).*2 ∧ Forall (λ w, w.1 = e_session w.2) (wakes out).
Proof.
  intros Hok Hf. split; [by eapply flush_db_ok|].
  destruct (flush_shape _ _ _ _ _ _ Hok Hf) as (f & ts & Hall & -> & -> & Hok' & Ha). rewrite advance_cursors_rest. cbn [events with_sessions].
  destruct (handled_all_events _ _ _ _ _ Hall) as (ws & -> & -> & Hw). by split.
Qed.

(** C10: a batch only adds its own numbers to the ledger, and when it is done every
    envelope of it is in the ledger (applied now or before), handed back to be tried
    again, reported as rejected, or a receipt with nothing to store. *)
Theorem flush_accounted d0 d l commit d' out :
  db_ok d → flush_batch d0 d worker run_mode l commit = Ok (d', out) →
  ledger d ⊆ ledger d' ∧ ledger d' ⊆ ledger d ∪ list_to_set (key <$> l.*1)
  ∧ ∀ q, q ∈ l.*1 → accounted d' out q.
Proof.
  intros Hok Hf. destruct (flush_shape _ _ _ _ _ _ Hok Hf) as (f & ts & Hall & -> & -> & _ & _).
  rewrite advance_cursors_rest. cbn [ledger with_sessions].
  destruct (handled_all_ledger _ _ _ _ _ Hall) as [H1 H2]. split_and!; [done|done|].
  intros q Hq. apply (handled_all_accounted _ _ _ _ _ q Hall Hq).
Qed.

(** envelopes that are in the ledger already are not applied again: a batch of them
    changes nothing but upload slots and the cursors, wakes nobody, exports no lifecycle
    event and wipes no session. *)
Theorem flush_replay d0 d l commit d' out :
  db_ok d → flush_batch d0 d worker run_mode l commit = Ok (d', out) →
  Forall (λ q, key q ∈ ledger d) l.*1 →
  d' = with_sessions (with_uploads d (uploads d')) (sessions d')
  ∧ (∀ sid r, sessions d !! sid = Some r →
       ∃ seq, sessions d' !! sid = Some (set_cursor r seq) ∧ worker_seq (s_lease r) ≤ seq)
  ∧ wakes out = [] ∧ lifecycle out = [] ∧ wipes out = [].
Proof.
  intros Hok Hf Hin. destruct (flush_shape _ _ _ _ _ _ Hok Hf) as (f & ts & Hall & -> & -> & _ & Ha).
  destruct (handled_all_replay _ _ _ _ _ Hall Hin) as [Ho Hs]. cbn [f_db f_out] in Ho, Hs.
  unfold sent in Hs. cbn in Hs. injection Hs as Hw Hlc Hwp.
  split; [|split; [|by rewrite Hw, Hlc, Hwp]].
  - pose proof (advance_cursors_rest worker (acks (f_out f)) (f_db f)) as Hadv.
    assert (uploads (advance_cursors worker (f_db f) (acks (f_out f))) = uploads (f_db f)) as ->
      by by rewrite Hadv.
    unfold only_uploads in Ho. by rewrite <- Ho.
  - intros sid r Hr. rewrite advance_cursors_lookup by done.
    unfold only_uploads in Ho. rewrite Ho. cbn [sessions with_uploads].
    rewrite Hr. cbn [fmap option_fmap option_map]. unfold advanced.
    assert (r = set_cursor r (worker_seq (s_lease r))) as Hself by by destruct r as [? ? ? ? ? ? ? ? ? ? []].
    destruct (acks (f_out f) !! sid) as [n|]; [case_match eqn:Hb|].
    + exists n. split; [done|]. bool_props. lia.
    + exists (worker_seq (s_lease r)). split; [by rewrite <- Hself|done].
    + exists (worker_seq (s_lease r)). split; [by rewrite <- Hself|done].
Qed.
End flush.

(** ** A batch: a turn starts, an event is stored, a temporary failure stalls the rest *)

Definition ing_lease : lease_cols := LeaseCols (Some 9%N) (Some 4%N) (Some 1000) 0.
Definition ing_sandbox : sandbox_cols := SandboxCols None None None None None None None None 0 None.
Definition ing_row : session_row :=
  SessionRow 2 1 None "key" None None "idle" (JObj []) (JObj []) (JArr []) ing_lease ing_sandbox None 0 0.
Definition ing_other : session_row :=
  SessionRow 3 1 None "key" None None "idle" (JObj []) (JObj []) (JArr []) (LeaseCols None None None 0)
    ing_sandbox None 0 0.
Definition ing_db : db :=
  Db {[ 2%N := ing_row; 3%N := ing_other ]} [] [] [] [] [] [] [] ∅ (Acct [] [] []).
Definition ing_turn (n : uuid) : json := JStr (str_of_uuid n).
Definition ing_env (sid : uuid) (seq : Z) (type : string) (payload : list (string * json)) : queued :=
  Queued (Envelope sid None seq type payload) 100.
Definition ing_io (now : Z) (late : option fault) : io := Io now (Z.to_N now) 0 0 None None late.
Definition ing_start : queued * io :=
  (ing_env 2 1 "turn.status" [("turn_id", ing_turn 7); ("status", JStr "started")]%string, ing_io 11 None).
Definition ing_event (seq : Z) (late : option fault) : queued * io :=
  (ing_env 2 seq "event" [("type", JStr "agent.session.turn.created");
                          ("data", JObj [("turn_id", ing_turn 7)])]%string, ing_io (10 + seq) late).
Definition ing_batch : list (queued * io) :=
  [ing_start; ing_event 2 None; ing_event 3 (Some TimeoutFault); ing_event 4 None].
Definition ing_flush (d : db) (l : list (queued * io)) : res exn (db * outcome) :=
  flush_batch demo_sha demo_url demo_head demo_settings StoreTurns (λ _ _, None) (λ _, ""%string)
    (λ _, None) (∅ : gmap (list ascii) (list ascii)) d d 9 None l None.
Definition ing_done : db * outcome :=
  match ing_flush ing_db ing_batch with Ok r => r | Err _ => (ing_db, empty_outcome) end.

Lemma ing_db_ok : db_ok ing_db.
Proof.
  split; try (by apply NoDup_nil_2); [|done]. intros sid r. unfold ing_db. cbn [sessions].
  intros [[<- <-]|[_ [<- <-]%lookup_singleton_Some]]%lookup_insert_Some; done.
Qed.
Lemma ing_flush_ok : ing_flush ing_db ing_batch = Ok (ing_done.1, ing_done.2).
Proof. vm_compute. reflexivity. Qed.

Lemma flush_prefix_witness :
  acks ing_done.2 !! 2%N = Some 2 ∧ seqs (retry ing_done.2) = [3; 4]
  ∧ (∃ acked, of_sess 2 ing_batch.*1 = acked ++ of_sess 2 (retry ing_done.2) ∧ Some 2 = bump None acked)
  ∧ last_seq_for ing_done.1 9 2 = Some 2.
Proof.
  pose proof (flush_prefix (∅ : gmap (list ascii) (list ascii)) demo_sha demo_url demo_head demo_settings
    StoreTurns (λ _ _, None) (λ _, ""%string) (λ _, None) 9 None ing_db ing_db ing_batch None
    ing_done.1 ing_done.2 2 ing_db_ok ing_flush_ok) as [H1 H2].
  assert (acks ing_done.2 !! 2%N = Some 2) as Ha by (vm_compute; reflexivity).
  split; [exact Ha|]. split; [vm_compute; reflexivity|]. split; [|exact (H2 0 eq_refl)].
  destruct H1 as (acked & E1 & E2 & _). exists acked. split; [exact E1|]. rewrite <- Ha. exact E2.
Defined.

Lemma ing_other_free r : sessions ing_db !! 3%N = Some r → is_leased_to 9 r = false.
Proof. vm_compute. intros [= <-]. reflexivity. Qed.

Lemma flush_isolated_witness : sessions ing_done.1 !! 3%N = Some ing_other.
Proof.
  exact (proj1 (flush_isolated (∅ : gmap (list ascii) (list ascii)) demo_sha demo_url demo_head demo_settings
    StoreTurns (λ _ _, None) (λ _, ""%string) (λ _, None) 9 None ing_db ing_db ing_batch None
    ing_done.1 ing_done.2 3 ing_db_ok ing_flush_ok ing_other_free)).
Defined.

Lemma flush_events_witness :
  (e_seq <$> events ing_done.1) = [1] ∧ events ing_done.1 = events ing_db ++ (wakes ing_done.2).*2.
Proof.
  split; [vm_compute; reflexivity|].
  exact (proj1 (proj2 (flush_events (∅ : gmap (list ascii) (list ascii)) demo_sha demo_url demo_head
    demo_settings StoreTurns (λ _ _, None) (λ _, ""%string) (λ _, None) 9 None ing_db ing_db ing_batch None
    ing_done.1 ing_done.2 ing_db_ok ing_flush_ok))).
Defined.

Lemma flush_accounted_witness :
  (2%N, 2) ∈ ledger ing_done.1 ∧ accounted ing_done.1 ing_done.2 (ing_event 3 None).1.
Proof.
  split; [apply (bool_decide_unpack _); vm_compute; exact I|].
  refine (proj2 (proj2 (flush_accounted (∅ : gmap (list ascii) (list ascii)) demo_sha demo_url demo_head
    demo_settings StoreTurns (λ _ _, None) (λ _, ""%string) (λ _, None) 9 None ing_db ing_db ing_batch None
    ing_done.1 ing_done.2 ing_db_ok ing_flush_ok)) _ _).
  right; right; left.
Defined.

(** The acked envelopes again, after the worker lost the ack. *)
Definition ing_replay : list (queued * io) := [ing_start; ing_event 2 None].
Definition ing_again : db * outcome :=
  match ing_flush ing_done.1 ing_replay with Ok r => r | Err _ => (ing_db, empty_outcome) end.
Lemma ing_again_ok : ing_flush ing_done.1 ing_replay = Ok (ing_again.1, ing_again.2).
Proof. vm_compute. reflexivity. Qed.
Lemma ing_done_ok : db_ok ing_done.1.
Proof.
  exact (flush_db_ok (∅ : gmap (list ascii) (list ascii)) demo_sha demo_url demo_head
    demo_settings StoreTurns (λ _ _, None) (λ _, ""%string) (λ _, None) 9 None ing_db ing_db ing_batch None
    ing_done.1 ing_done.2 ing_db_ok ing_flush_ok).
Qed.
Lemma ing_replay_claimed : Forall (λ q, key q ∈ ledger ing_done.1) ing_replay.*1.
Proof. apply (bool_decide_unpack _). vm_compute. exact I. Qed.

Lemma flush_replay_witness : acks ing_again.2 !! 2%N = Some 2 ∧ wakes ing_again.2 = [].
Proof.
  split; [vm_compute; reflexivity|].
  exact (proj1 (proj2 (proj2 (flush_replay (∅ : gmap (list ascii) (list ascii)) demo_sha demo_url demo_head
    demo_settings StoreTurns (λ _ _, None) (λ _, ""%string) (λ _, None) 9 None ing_done.1 ing_done.1
    ing_replay None ing_again.1 ing_again.2 ing_done_ok ing_again_ok ing_replay_claimed)))).
Defined.
