(* ===== verification/IngestTurns.v ===== *)
(** * Turns under ingest

    The per-batch cache of turn lookups ([Ingest.turn_cache]) never gives a stale
    answer, and the checks of [Ingest.validate] keep a session at one running turn. *)

From S2P Require Import Prelude PyStd Protocol Db Sandbox Usage Blobs Artifacts Accounting Ingest IngestSpec IngestProps.

Open Scope Z_scope.

(** ** What the lookups depend on *)

Definition turn_key (t : turn_row) := (t_id t, t_tenant t, t_session t, t_status t, t_created t).
Definition same_key (t u : turn_row) : Prop := turn_key t = turn_key u.
Definition run_id (d : db) (tenant sid : uuid) : option uuid := t_id <$> get_running_turn d tenant sid.
Definition last_id (d : db) (tenant sid : uuid) : option uuid := t_id <$> get_latest_turn d tenant sid.

Lemma same_key_inv t u :
  same_key t u →
  t_id t = t_id u ∧ t_tenant t = t_tenant u ∧ t_session t = t_session u ∧ t_status t = t_status u
  ∧ t_created t = t_created u.
Proof. unfold same_key, turn_key. by intros [= -> -> -> -> ->]. Qed.

Lemma newest_same l l' : Forall2 same_key l l' → option_Forall2 same_key (newest_turn l) (newest_turn l').
Proof.
  induction 1 as [|t u l l' Ht _ IH]; [constructor|]. cbn [newest_turn foldr].
  fold (newest_turn l) (newest_turn l'). destruct IH as [t' u' Hs|]; [|by constructor].
  unfold same_key, turn_key in Ht, Hs. simplify_eq. assert (newer t' t = newer u' u) as ->.
  { unfold newer. congruence. }
  destruct (newer u' u); constructor; unfold same_key, turn_key; congruence.
Qed.
Lemma filter_same (P : turn_row → Prop) `{∀ t, Decision (P t)} l l' :
  (∀ t u, same_key t u → P t ↔ P u) → Forall2 same_key l l' → Forall2 same_key (filter P l) (filter P l').
Proof.
  intros HP. induction 1 as [|t u l l' Ht _ IH]; [constructor|]. rewrite !filter_cons.
  pose proof (HP t u Ht). do 2 case_decide; try tauto. by constructor.
Qed.
Lemma session_turns_same d d' tenant sid :
  Forall2 same_key (turns d) (turns d') →
  Forall2 same_key (session_turns d tenant sid) (session_turns d' tenant sid).
Proof.
  apply filter_same. by intros t u (_ & -> & -> & _)%same_key_inv.
Qed.
Lemma ids_same d d' tenant sid :
  Forall2 same_key (session_turns d tenant sid) (session_turns d' tenant sid) →
  run_id d tenant sid = run_id d' tenant sid ∧ last_id d tenant sid = last_id d' tenant sid.
Proof.
  intros Hs. unfold run_id, last_id, get_running_turn, get_latest_turn. split.
  - apply (filter_same (λ t, is_running t = true)) in Hs; [|intros t u (_ & _ & _ & Ht & _)%same_key_inv; unfold is_running;
      by rewrite Ht].
    apply newest_same in Hs. destruct Hs as [t u (Ht & _)%same_key_inv|]; [|done]. cbn. by rewrite Ht.
  - apply newest_same in Hs. destruct Hs as [t u (Ht & _)%same_key_inv|]; [|done]. cbn. by rewrite Ht.
Qed.
Lemma same_refl l : Forall2 same_key l l.
Proof. by induction l; constructor. Qed.
Lemma same_update P f l : (∀ t, turn_key (f t) = turn_key t) → Forall2 same_key l (update_where P f l).
Proof.
  intros Hf. unfold update_where. induction l as [|t l IH]; [constructor|]. csimpl. constructor; [|done].
  unfold same_key. by case_match.
Qed.

(** The turns of a session are its rows in the table. *)
Lemma session_turns_own d tenant sid : session_turns d tenant sid = own (tenant, sid) t_owner (turns d).
Proof.
  unfold session_turns, own. apply list_filter_iff. intros t. unfold of_session, t_owner.
  rewrite bool_decide_eq_true. naive_solver.
Qed.
Lemma step_session_turns new tenant sid d d' tenant' sid' :
  session_step_with new tenant sid d d' → (tenant', sid') ≠ (tenant, sid) →
  session_turns d' tenant' sid' = session_turns d tenant' sid'.
Proof.
  intros Hs Hne. rewrite !session_turns_own, !(own_foreign tenant sid _ _ (turns _)) by done.
  by rewrite (ss_turns _ _ _ _ _ Hs).
Qed.

(** ** Only `turn.status` changes what the lookups see *)

Section keys.
Context {S : Type} `{ObjectStore S} (st : S).
Context (sha256_hex : list ascii → string).
Context (presign_url : list ascii → Z → string → string * list (string * json)).
Context (head_object : S → list ascii → res exn (option Z)).
Context (cfg : settings) (store : usage_store).
Context (session_model : db → session_row → option string).
Context (exn_str : exn → string) (library_code : exn → option string).

Lemma append_event_turns d now eid tenant sid type data d' e :
  append_event d now eid tenant sid type data = Ok (d', e) → turns d' = turns d.
Proof. unfold append_event. repeat case_match; intros; by simplify_eq. Qed.
Lemma apply_transition_turns d now r phase f : turns (apply_transition d now r phase f).1 = turns d.
Proof.
  unfold apply_transition, sync_environment_row. by repeat case_match.
Qed.
Lemma item_added_turns d now tenant sid payload d' :
  apply_item_added d now tenant sid payload = Ok d' → turns d' = turns d.
Proof.
  unfold apply_item_added. destruct (required_uuid payload "item_id") as [iid|]; cbn [mbind res_bind]; [|done].
  match goal with |- context [mbind ?k ?m] => destruct m as [turn|]; cbn [mbind res_bind]; [|done] end.
  destruct (get_item d tenant iid). { by intros [= <-]. }
  destruct (create_item _ _ _ _ _ _ _ _) as [[d1 i]|] eqn:Hc; cbn [mbind res_bind]; [|done].
  intros [= <-]. unfold link_session_file_item. unfold create_item in Hc. repeat case_match; by simplify_eq.
Qed.
Lemma item_done_turns d tenant sid payload d' :
  apply_item_done d tenant sid payload = Ok d' → turns d' = turns d.
Proof.
  unfold apply_item_done. destruct (required_uuid payload "item_id") as [iid|]; cbn [mbind res_bind]; [|done].
  destruct (get_item d tenant iid); [|done]. destruct (negb _); [done|].
  match goal with |- context [mbind ?k ?m] => destruct m; cbn [mbind res_bind]; [|done] end.
  repeat case_match; intros; by simplify_eq.
Qed.
Lemma usage_turns d now tenant sid run_mode payload d' :
  apply_usage session_model store d now tenant sid run_mode payload = Ok d' →
  Forall2 same_key (turns d) (turns d').
Proof.
  unfold apply_usage. destruct (required_uuid payload "turn_id") as [tid|]; cbn [mbind res_bind]; [|done].
  destruct (get_session_turn d tenant sid tid) as [t|]; [|done]. cbv zeta.
  destruct (usage_from _) as [stored|]; cbn [mbind res_bind]; [|done].
  unfold write_turn_log. match goal with |- context [get_session_turn ?x _ _ _] => set (d1 := x) end.
  assert (Forall2 same_key (turns d) (turns d1)) as Hd1 by by apply same_update.
  destruct (get_session_turn d1 tenant sid tid); [|by intros [= <-]].
  destruct (search_usage_for_turn _ _ _) as [[]]. cbv zeta.
  match goal with |- context [mbind ?k ?m] => destruct m; cbn [mbind res_bind]; [|done] end.
  by intros [= <-].
Qed.
Lemma session_status_turns d now tenant sid payload d' :
  apply_session_status d now tenant sid payload = Ok d' → turns d' = turns d.
Proof.
  unfold apply_session_status.
  match goal with |- context [mbind ?k ?m] => destruct m; cbn [mbind res_bind]; [|done] end.
  unfold update_session. repeat case_match; cbn [mbind res_bind]; intros; by simplify_eq.
Qed.
Lemma completed_turns d x r p payload d' :
  apply_completed sha256_hex head_object cfg exn_str library_code st d x r p payload = Ok d' →
  turns d' = turns d.
Proof.
  unfold apply_completed. match goal with |- context [mbind ?k ?m] => destruct m; cbn [mbind res_bind]; [|done] end.
  destruct (uuid_text_in _ _) as [uid|]; [|done]. cbv zeta.
  match goal with |- context [match ?m with Ok _ => _ | Err _ => _ end = _] =>
    destruct m as [d1|ex] eqn:Hm end; [|by destruct (is_transient ex)].
  intros [= <-]. revert Hm. destruct (raise_if _); cbn [mbind res_bind]; [|done].
  destruct (may_fail _); cbn [mbind res_bind]; [|done]. unfold complete_artifact_upload.
  destruct (get_artifact_upload _ _ _) as [u|]; [|done]. destruct (negb _); [done|].
  destruct (u_complete u); [by intros [= <-]|]. destruct (u_expires u <? _); [done|].
  destruct (upload_target _ _ _ _); cbn [mbind res_bind]; [|done].
  match goal with |- context [mbind ?k ?m] => destruct m; cbn [mbind res_bind]; [|done] end.
  case_decide.
  - destruct (get_session _ _ _ _); cbn [mbind res_bind]; [|done]. by intros [= <-].
  - unfold create_artifact. case_decide; cbn [mbind res_bind]; [done|]. by intros [= <-].
Qed.
Lemma presign_turns d x r p payload fx d' :
  apply_presign sha256_hex presign_url cfg exn_str library_code st d x r p payload = (fx, Ok d') →
  turns d' = turns d.
Proof.
  unfold apply_presign. destruct (required_uuid payload "request_id"); [|done].
  destruct (jint _); [|done]. cbv zeta.
  match goal with |- context [match ?m with Ok _ => _ | Err _ => _ end = _] =>
    destruct m as [[d1 i]|ex] eqn:Hm end; [|by destruct (is_transient ex)].
  intros [= <- <-]. revert Hm. destruct (raise_if _); cbn [mbind res_bind]; [|done].
  destruct (may_fail _); cbn [mbind res_bind]; [|done].
  match goal with |- context [mbind ?k ?m] => destruct m; cbn [mbind res_bind]; [|done] end.
  intros Hi. apply issue_presign_only in Hi. unfold only_uploads in Hi. by rewrite Hi.
Qed.

Lemma apply_keys c d x r run_mode p e c' fx res :
  apply sha256_hex presign_url head_object cfg store session_model exn_str library_code st c d x r
    run_mode p e = (c', fx, res) →
  match res with
  | Err _ => c' = c
  | Ok d' => (env_type e = "turn.status"%string ∧ c' = invalidate c (s_id r)
              ∧ apply_turn_status d (io_now x) (s_tenant r) (s_id r) (env_payload e) = Ok d')
             ∨ (c' = c ∧ Forall2 same_key (turns d) (turns d'))
  end.
Proof.
  assert (∀ d', turns d' = turns d → Forall2 same_key (turns d) (turns d')) as Heq.
  { intros d' ->. apply same_refl. }
  unfold Ingest.apply, plain, waking. cbv zeta.
  destruct (bool_decide (env_type e = "sandbox.status"%string)).
  { unfold apply_sandbox_status. destruct (negb _); [intros [= <- <- <-]; right; split; auto|].
    pose proof (apply_transition_turns d (io_now x) r (str_or (env_payload e) "status" "") (env_payload e)) as Ht.
    destruct (apply_transition _ _ _ _ _) as [d1 [[ty data]|]]; [|by intros [= <- <- <-]].
    destruct (append_event _ _ _ _ _ _ _) as [[d2 ev]|] eqn:He; cbn [mbind res_bind];
      intros [= <- <- <-]; [|done].
    right. split; [done|]. apply Heq. by rewrite (append_event_turns _ _ _ _ _ _ _ _ _ He). }
  destruct (_ || _). { intros [= <- <- <-]. right. auto. }
  destruct (_ || _). { intros [= <- <- <-]. right. auto. }
  destruct (bool_decide (env_type e = "turn.status"%string)) eqn:Hty.
  { apply bool_decide_eq_true in Hty. destruct (apply_turn_status _ _ _ _ _) eqn:Ha;
      intros [= <- <- <-]; [by left|done]. }
  destruct (bool_decide (env_type e = "item.added"%string)).
  { intros [= <- _ <-]. destruct (apply_item_added _ _ _ _ _) eqn:Ha; [|done].
    right. split; [done|]. by eapply Heq, item_added_turns. }
  destruct (bool_decide (env_type e = "item.done"%string)).
  { intros [= <- _ <-]. destruct (apply_item_done _ _ _ _) eqn:Ha; [|done].
    right. split; [done|]. by eapply Heq, item_done_turns. }
  destruct (bool_decide (env_type e = "usage"%string)).
  { intros [= <- _ <-]. destruct (apply_usage _ _ _ _ _ _ _ _) eqn:Ha; [|done].
    right. split; [done|]. by eapply usage_turns. }
  destruct (bool_decide (env_type e = "event"%string)).
  { unfold apply_event. repeat case_match; cbn [mbind res_bind]; intros; simplify_eq; try done.
    all: destruct (append_event _ _ _ _ _ _ _) as [[d2 ev]|] eqn:He; cbn [mbind res_bind] in *; simplify_eq; try done.
    right. split; [done|]. by eapply Heq, append_event_turns. }
  destruct (bool_decide (env_type e = "session.status"%string)).
  { intros [= <- _ <-]. destruct (apply_session_status _ _ _ _ _) eqn:Ha; [|done].
    right. split; [done|]. by eapply Heq, session_status_turns. }
  destruct (bool_decide (env_type e = "artifact.presign"%string)).
  { destruct (apply_presign _ _ _ _ _ _ _ _ _ _ _) as [fx0 [d1|]] eqn:Ha; intros [= <- _ <-]; [|done].
    right. split; [done|]. by eapply Heq, presign_turns. }
  destruct (bool_decide (env_type e = "artifact.completed"%string)).
  { intros [= <- _ <-]. destruct (apply_completed _ _ _ _ _ _ _ _ _ _ _) eqn:Ha; [|done].
    right. split; [done|]. by eapply Heq, completed_turns. }
  destruct (bool_decide (env_type e = "error"%string)).
  { unfold apply_error.
    destruct (append_event _ _ _ _ _ _ _) as [[d2 ev]|] eqn:He; cbn [mbind res_bind];
      intros [= <- _ <-]; [|done].
    right. split; [done|]. by eapply Heq, append_event_turns. }
  by intros [= <- _ <-].
Qed.
End keys.

(** ** The cache is never stale *)

Record cache_ok (c : turn_cache) (d : db) : Prop := {
  co_running : ∀ sid v r, sessions d !! sid = Some r → tc_running c !! sid = Some v →
    v = run_id d (s_tenant r) sid;
  co_latest : ∀ sid v r, sessions d !! sid = Some r → tc_latest c !! sid = Some v →
    v = last_id d (s_tenant r) sid
}.

Lemma cache_ok_empty d : cache_ok empty_cache d.
Proof. by split. Qed.

(** Databases that answer the lookups alike, for the sessions there are. *)
Lemma cache_ok_same c d d' :
  (∀ sid r, sessions d' !! sid = Some r → ∃ r0, sessions d !! sid = Some r0 ∧ s_tenant r0 = s_tenant r
     ∧ run_id d (s_tenant r) sid = run_id d' (s_tenant r) sid
     ∧ last_id d (s_tenant r) sid = last_id d' (s_tenant r) sid) →
  cache_ok c d → cache_ok c d'.
Proof.
  intros Hsame [H1 H2]. split; intros sid v r Hr Hv; destruct (Hsame _ _ Hr) as (r0 & Hr0 & Ht & E1 & E2).
  - rewrite <- E1, <- Ht. by apply (H1 sid v r0).
  - rewrite <- E2, <- Ht. by apply (H2 sid v r0).
Qed.

Section validate.
Context (d : db) (r : session_row).
Context (Hr : sessions d !! s_id r = Some r).

Lemma running_id_ok c :
  cache_ok c d → (running_id c d (s_tenant r) (s_id r)).2 = run_id d (s_tenant r) (s_id r)
                 ∧ cache_ok (running_id c d (s_tenant r) (s_id r)).1 d.
Proof.
  intros Hc. unfold running_id. destruct (tc_running c !! s_id r) as [v|] eqn:Hv.
  - split; [|done]. by apply (co_running _ _ Hc _ _ r).
  - split; [done|]. destruct Hc as [H1 H2]. split; [|done]. intros sid v r0 Hr0. cbn [fst tc_running].
    intros [[<- <-]|[_ Hv']]%lookup_insert_Some; [|by apply (H1 sid v r0)].
    unfold run_id. congruence.
Qed.
Lemma latest_id_ok c :
  cache_ok c d → (latest_id c d (s_tenant r) (s_id r)).2 = last_id d (s_tenant r) (s_id r)
                 ∧ cache_ok (latest_id c d (s_tenant r) (s_id r)).1 d.
Proof.
  intros Hc. unfold latest_id. destruct (tc_latest c !! s_id r) as [v|] eqn:Hv.
  - split; [|done]. by apply (co_latest _ _ Hc _ _ r).
  - split; [done|]. destruct Hc as [H1 H2]. split; [done|]. intros sid v r0 Hr0. cbn [fst tc_latest].
    intros [[<- <-]|[_ Hv']]%lookup_insert_Some; [|by apply (H2 sid v r0)].
    unfold last_id. congruence.
Qed.

Lemma turn_reason_ok c c2 e :
  cache_ok c d → cache_ok c2 d →
  (turn_reason c d r e).2 = (turn_reason c2 d r e).2 ∧ cache_ok (turn_reason c d r e).1 d.
Proof.
  intros Hc Hc2. unfold turn_reason. cbv zeta.
  destruct (running_id_ok c Hc) as [R1 R2], (running_id_ok c2 Hc2) as [R3 _].
  destruct (latest_id_ok c Hc) as [L1 L2], (latest_id_ok c2 Hc2) as [L3 _].
  destruct (running_id c d (s_tenant r) (s_id r)) as [cr vr], (running_id c2 d (s_tenant r) (s_id r)) as [cr2 vr2].
  destruct (latest_id c d (s_tenant r) (s_id r)) as [cl vl], (latest_id c2 d (s_tenant r) (s_id r)) as [cl2 vl2].
  cbn in R1, R2, R3, L1, L2, L3. subst vr vr2 vl vl2.
  destruct (_ && _); [done|]. destruct (_ && _); [by destruct (envelope_turn_id e)|].
  case_decide; [done|]. by destruct (envelope_turn_id e).
Qed.

Lemma validate_ok c c2 worker e raw :
  cache_ok c d → cache_ok c2 d →
  (validate c d worker (Some r) e raw).2 = (validate c2 d worker (Some r) e raw).2
  ∧ cache_ok (validate c d worker (Some r) e raw).1 d.
Proof.
  intros Hc Hc2. unfold validate. cbv zeta.
  destruct (turn_reason_ok c c2 e Hc Hc2) as [T1 T2].
  destruct (turn_reason c d r e) as [ct vt], (turn_reason c2 d r e) as [ct2 vt2]. cbn in T1, T2. subst vt2.
  destruct (MAX_MESSAGE_BYTES <? raw); [done|]. destruct (negb _); [done|]. case_decide; [done|].
  destruct (decide (env_type e = "sandbox.status"%string)); [by destruct (in_set _ _) as [[]|]|].
  destruct (decide (env_type e = "artifact.presign"%string)); [done|].
  destruct (decide (env_type e = "artifact.completed"%string)); [done|].
  destruct (decide (env_type e ∈ _)); [done|].
  by match goal with |- context [match ?m with Some _ => _ | None => _ end] => destruct m end.
Qed.
End validate.

(** ** One envelope, with and without the cache *)

Lemma step_tenant new tenant sid d d' r sid' r' :
  session_step_with new tenant sid d d' → sessions d !! sid = Some r → sessions d' !! sid' = Some r' →
  ∃ r0, sessions d !! sid' = Some r0 ∧ s_tenant r0 = s_tenant r'.
Proof.
  intros Hs Hr Hr'. destruct (ss_row _ _ _ _ _ Hs r Hr) as (r1 & E & _ & T & _). rewrite E in Hr'.
  apply lookup_insert_Some in Hr' as [[<- <-]|[_ Hr']]; eauto.
Qed.

Lemma cache_ok_keys c new tenant sid d d' r :
  session_step_with new tenant sid d d' → sessions d !! sid = Some r →
  Forall2 same_key (turns d) (turns d') → cache_ok c d → cache_ok c d'.
Proof.
  intros Hs Hr Hk. apply cache_ok_same. intros sid' r' Hr'.
  destruct (step_tenant _ _ _ _ _ _ _ _ Hs Hr Hr') as (r0 & Hr0 & Ht). exists r0.
  destruct (ids_same d d' (s_tenant r') sid') as [E1 E2]; [by apply session_turns_same|]. done.
Qed.
Lemma cache_ok_invalidate c new tenant sid d d' r :
  session_step_with new tenant sid d d' → sessions d !! sid = Some r →
  cache_ok c d → cache_ok (invalidate c sid) d'.
Proof.
  intros Hs Hr [H1 H2].
  assert (∀ sid' r', sessions d' !! sid' = Some r' → sid' ≠ sid →
    ∃ r0, sessions d !! sid' = Some r0 ∧ s_tenant r0 = s_tenant r'
      ∧ run_id d' (s_tenant r') sid' = run_id d (s_tenant r') sid'
      ∧ last_id d' (s_tenant r') sid' = last_id d (s_tenant r') sid') as Hother.
  { intros sid' r' Hr' Hne. destruct (step_tenant _ _ _ _ _ _ _ _ Hs Hr Hr') as (r0 & Hr0 & Ht).
    exists r0. unfold run_id, last_id, get_running_turn, get_latest_turn.
    rewrite (step_session_turns _ _ _ _ _ (s_tenant r') sid' Hs) by congruence. done. }
  split; cbn [invalidate tc_running tc_latest]; intros sid' v r' Hr' [Hne Hv]%lookup_delete_Some;
    destruct (Hother _ _ Hr') as (r0 & Hr0 & Ht & E1 & E2); try congruence.
  - rewrite E1, <- Ht. by apply (H1 sid' v r0).
  - rewrite E2, <- Ht. by apply (H2 sid' v r0).
Qed.
Lemma cache_ok_claimed c d sid seq : cache_ok c (claimed d sid seq) ↔ cache_ok c d.
Proof. split; by intros [? ?]. Qed.

Section one.
Context {S : Type} `{ObjectStore S} (st : S).
Context (sha256_hex : list ascii → string).
Context (presign_url : list ascii → Z → string → string * list (string * json)).
Context (head_object : S → list ascii → res exn (option Z)).
Context (cfg : settings) (store : usage_store).
Context (session_model : db → session_row → option string).
Context (exn_str : exn → string) (library_code : exn → option string).
Context (worker : uuid) (run_mode : option string).

#[local] Abbreviation apply := (apply sha256_hex presign_url head_object cfg store session_model
  exn_str library_code st).
#[local] Abbreviation savepoint := (savepoint sha256_hex presign_url head_object cfg store session_model
  exn_str library_code st).
#[local] Abbreviation ingest_leased := (ingest_leased sha256_hex presign_url head_object cfg store
  session_model exn_str library_code st).
#[local] Abbreviation ingest_one := (ingest_one sha256_hex presign_url head_object cfg store
  session_model exn_str library_code st worker run_mode).
#[local] Abbreviation ingest_all := (ingest_all sha256_hex presign_url head_object cfg store
  session_model exn_str library_code st worker run_mode).

Lemma apply_cache c c2 d x r p e :
  (apply c d x r run_mode p e).1.2 = (apply c2 d x r run_mode p e).1.2
  ∧ (apply c d x r run_mode p e).2 = (apply c2 d x r run_mode p e).2.
Proof.
  unfold Ingest.apply, plain, waking. cbv zeta.
  repeat match goal with |- context [if ?b then _ else _] =>
    lazymatch b with bool_decide _ => destruct b | _ || _ => destruct b end end;
  repeat match goal with |- context [match ?m with Ok _ => _ | Err _ => _ end] => destruct m as [[]|] || destruct m end;
  repeat match goal with |- context [match ?m with Some _ => _ | None => _ end] => destruct m end; try done.
  by destruct (apply_presign _ _ _ _ _ _ _ _ _ _ _).
Qed.

(** The effects and the result are those without a cache, and the cache that is left
    is right for the database that is left. *)
Definition agrees (d : db) (a b : turn_cache * effects * res exn db) : Prop :=
  a.1.2 = b.1.2 ∧ a.2 = b.2 ∧ cache_ok a.1.1 (match a.2 with Ok d' => d' | Err _ => d end).

Lemma savepoint_agrees c c2 d x sid r p q :
  sessions d !! sid = Some r → s_id r = sid → db_ok d → env_session (q_env q) = sid →
  cache_ok c d → cache_ok c2 d →
  agrees d (savepoint c d x worker r run_mode p q) (savepoint c2 d x worker r run_mode p q).
Proof.
  intros Hr Hid Hok Hs Hc Hc2. pose proof (savepoint_step st sha256_hex presign_url head_object cfg store
    session_model exn_str library_code worker run_mode c d x r sid p q) as Hstep. revert Hstep.
  unfold Ingest.savepoint. cbv zeta.
  destruct (may_fail (io_early x)); cbn [mbind res_bind]; [|by intros _].
  unfold claim. case_decide; [by intros _|].
  fold (claimed d (env_session (q_env q)) (env_seq (q_env q))).
  rewrite Hs. set (d1 := claimed d sid (env_seq (q_env q))).
  assert (cache_ok c d1 ∧ cache_ok c2 d1) as [Hc1 Hc21] by (split; by apply cache_ok_claimed).
  assert (sessions d1 !! s_id r = Some r) as Hr1 by by rewrite Hid.
  destruct (validate_ok d1 r Hr1 c c2 worker (q_env q) (q_raw q) Hc1 Hc21) as [V1 V2].
  destruct (validate_ok d1 r Hr1 c2 c worker (q_env q) (q_raw q) Hc21 Hc1) as [_ V3].
  destruct (validate c d1 worker (Some r) (q_env q) (q_raw q)) as [cv [[reason|]|ex]],
    (validate c2 d1 worker (Some r) (q_env q) (q_raw q)) as [cv2 res2]; cbn in V1, V2, V3; subst res2.
  - intros _. split_and!; [done|done|by apply cache_ok_claimed in V2].
  - destruct (apply_cache cv cv2 d1 x r p (q_env q)) as [A1 A2].
    pose proof (apply_keys st sha256_hex presign_url head_object cfg store session_model exn_str
      library_code cv d1 x r run_mode p (q_env q)) as Hk.
    destruct (apply cv d1 x r run_mode p (q_env q)) as [[ca fxa] resa],
      (apply cv2 d1 x r run_mode p (q_env q)) as [[ca2 fxa2] resa2]. cbn in A1, A2. subst fxa2 resa2.
    specialize (Hk _ _ _ eq_refl). intros Hstep.
    match goal with |- context [release x (ca, ?fx, resa)] => set (fx' := fx) in * end.
    unfold agrees, release in *. cbn [fst snd].
    destruct resa as [d2|ex]; cbn [mbind res_bind] in *.
    + destruct (may_fail (io_late x)) as [|ex] eqn:Hlate; cbn [mbind res_bind] in *.
      * split_and!; [done|done|].
        destruct (Hstep ca fx' d2 Hr Hid Hok eq_refl eq_refl) as (_ & Hss & _).
        destruct Hk as [(_ & -> & _)|[-> Hk]].
        -- rewrite Hid. eapply cache_ok_invalidate; [exact Hss|exact Hr|exact V2].
        -- eapply cache_ok_keys; [exact Hss|exact Hr|exact Hk|exact V2].
      * split_and!; [done|done|]. apply cache_ok_claimed in V2.
        destruct Hk as [(_ & -> & _)|[-> Hk]]; [|done].
        destruct V2 as [W1 W2]. split; cbn [invalidate tc_running tc_latest];
          intros s v r0 Hr0 [_ Hv]%lookup_delete_Some; eauto.
    + subst ca. split_and!; [done|done|]. by apply cache_ok_claimed in V2.
  - intros _. split_and!; [done|done|by apply cache_ok_claimed in V2].
Qed.

Lemma duplicate_agrees c c2 d x sid r p e :
  sessions d !! sid = Some r → s_id r = sid → db_ok d → cache_ok c d →
  agrees d
    (Ingest.duplicate sha256_hex presign_url head_object cfg store session_model exn_str library_code
       st c d x r run_mode p e)
    (Ingest.duplicate sha256_hex presign_url head_object cfg store session_model exn_str library_code
       st c2 d x r run_mode p e).
Proof.
  intros Hr Hid Hok Hc. unfold Ingest.duplicate. case_decide; [done|]. case_decide as Hty; [|done].
  destruct (apply_cache c c2 d x r p e) as [A1 A2].
  pose proof (apply_keys st sha256_hex presign_url head_object cfg store session_model exn_str
    library_code c d x r run_mode p e) as Hk.
  pose proof (apply_step st sha256_hex presign_url head_object cfg store session_model exn_str
    library_code run_mode c d x r sid p e) as Hstep.
  destruct (apply c d x r run_mode p e) as [[ca fxa] resa],
    (apply c2 d x r run_mode p e) as [[ca2 fxa2] resa2]. cbn in A1, A2. subst fxa2 resa2.
  specialize (Hk _ _ _ eq_refl). unfold agrees, release.
  destruct resa as [d2|ex]; cbn [mbind res_bind fst snd] in *; [|by subst ca].
  destruct Hk as [(Hts & _)|[-> Hk]]; [congruence|].
  destruct (may_fail (io_late x)); cbn [mbind res_bind]; split_and!; try done.
  destruct (Hstep c fxa d2 Hr Hid Hok eq_refl) as [Hss _]. by eapply cache_ok_keys.
Qed.

Lemma ingest_leased_agrees c c2 d x sid p q :
  db_ok d → env_session (q_env q) = sid → cache_ok c d → cache_ok c2 d →
  agrees d (ingest_leased c d x worker run_mode p (sessions d !! sid) q)
    (ingest_leased c2 d x worker run_mode p (sessions d !! sid) q).
Proof.
  intros Hok Hs Hc Hc2. unfold Ingest.ingest_leased. destruct (sessions d !! sid) as [r|] eqn:Hr; [|done].
  pose proof (ok_keyed _ Hok sid r Hr) as Hid.
  destruct (negb _); [done|]. destruct (MAX_MESSAGE_BYTES <? q_raw q); [done|]. case_decide; [done|].
  destruct (savepoint_agrees c c2 d x sid r p q Hr Hid Hok Hs Hc Hc2) as (A1 & A2 & A3).
  destruct (savepoint c d x worker r run_mode p q) as [[cs fxs] ress] eqn:E1,
    (savepoint c2 d x worker r run_mode p q) as [[cs2 fxs2] ress2] eqn:E2. cbn in A1, A2, A3. subst fxs2 ress2.
  destruct ress as [d2|ex]; [done|]. destruct ex; try done.
  apply (duplicate_agrees cs cs2 d x sid r p (q_env q)); done.
Qed.

(** A state with the cache thrown away. *)
Definition uncached (f : flushing) : flushing := Flushing (f_db f) empty_cache (f_stalled f) (f_out f).

Lemma ingest_one_cache ps f q x :
  db_ok (f_db f) → cache_ok (f_cache f) (f_db f) →
  uncached (ingest_one ps f q x) = uncached (ingest_one ps (uncached f) q x)
  ∧ cache_ok (f_cache (ingest_one ps f q x)) (f_db (ingest_one ps f q x)).
Proof.
  intros Hok Hc. unfold Ingest.ingest_one. cbv zeta. cbn [f_stalled f_db f_cache f_out uncached].
  case_decide; [done|]. unfold get_session_by_id. destruct (_ && _); [done|].
  destruct (ingest_leased_agrees (f_cache f) empty_cache (f_db f) x (env_session (q_env q))
    (ps !! (env_session (q_env q), env_seq (q_env q))) q Hok eq_refl Hc (cache_ok_empty _)) as (A1 & A2 & A3).
  destruct (ingest_leased (f_cache f) _ _ _ _ _ _ _) as [[c1 fx1] res1],
    (ingest_leased empty_cache _ _ _ _ _ _ _) as [[c2 fx2] res2]. cbn in A1, A2, A3. subst fx2 res2.
  destruct res1 as [d1|ex]; [done|]. destruct ex; try done; by case_match.
Qed.

(** C15: applying a batch with the cache of turn lookups gives the same database and the
    same outcome as reading the turns afresh for every envelope. *)
Theorem cache_transparent ps d l :
  db_ok d →
  uncached (ingest_all ps (Flushing d empty_cache ∅ empty_outcome) l)
  = uncached (foldl (λ f p, ingest_one ps (uncached f) p.1 p.2) (Flushing d empty_cache ∅ empty_outcome) l).
Proof.
  intros Hok. unfold Ingest.ingest_all.
  assert (∀ f g, db_ok (f_db f) → cache_ok (f_cache f) (f_db f) → uncached f = uncached g →
    uncached (foldl (λ f p, ingest_one ps f p.1 p.2) f l)
    = uncached (foldl (λ f p, ingest_one ps (uncached f) p.1 p.2) g l)) as Hgen.
  { induction l as [|[q x] l IH]; intros f g Hf Hc Hfg; [done|]. cbn [foldl fst snd].
    destruct (ingest_one_cache ps f q x Hf Hc) as [H1 H2].
    apply IH; [|done|by rewrite H1, Hfg].
    destruct (ingest_one_refines st sha256_hex presign_url head_object cfg store session_model exn_str
      library_code worker run_mode ps f q x Hf) as [t Ht]. by eapply handled_ok. }
  apply Hgen; [done|apply cache_ok_empty|done].
Qed.
End one.

(** ** At most one turn of a session is running *)

Definition running_turns (d : db) (tenant sid : uuid) : list turn_row :=
  filter (λ t, is_running t = true) (session_turns d tenant sid).
Definition one_running (d : db) : Prop := ∀ tenant sid, (length (running_turns d tenant sid) ≤ 1)%nat.

(** A `turn.status` envelope speaks of the turn in its payload and sets one of the
    statuses `TurnStatusPayload` admits. *)
Definition status_ok (e : envelope) : Prop :=
  env_type e = "turn.status"%string →
  (∀ t, required_uuid (env_payload e) "turn_id" = Ok t → envelope_turn_id e = Some t)
  ∧ jstr (jget "status" (env_payload e)) ≠ Some "in_progress"%string.

Lemma one_running_same d d' : Forall2 same_key (turns d) (turns d') → one_running d → one_running d'.
Proof.
  intros Hk H1 tenant sid. unfold running_turns. specialize (H1 tenant sid). unfold running_turns in H1.
  apply (session_turns_same _ _ tenant sid) in Hk.
  apply (filter_same (λ t, is_running t = true)) in Hk; [by rewrite <- (Forall2_length Hk)|].
  intros t u (_ & _ & _ & Ht & _)%same_key_inv. unfold is_running. by rewrite Ht.
Qed.

Lemma newest_none l : newest_turn l = None → l = [].
Proof. destruct l as [|t l]; [done|]. cbn. by repeat case_match. Qed.
Lemma newest_in l t : newest_turn l = Some t → t ∈ l.
Proof.
  revert t. induction l as [|u l IH]; intros t; [done|]. cbn. fold (newest_turn l).
  destruct (newest_turn l) as [v|]; [case_match|]; intros [= <-]; [right; auto|by left|by left].
Qed.

Lemma create_turn_running d now tenant sid tid d' t :
  create_turn d now tenant sid "in_progress" tid = Ok (d', t) → running_turns d tenant sid = [] →
  one_running d → one_running d'.
Proof.
  intros Hc Hn H1 tenant' sid'. destruct (decide ((tenant', sid') = (tenant, sid))) as [[= -> ->]|Hne].
  - unfold create_turn in Hc. case_decide; [done|]. injection Hc as <- <-.
    unfold running_turns, session_turns in *. cbn [turns with_turns].
    rewrite !list.filter_app, Hn. cbn [app]. etrans; [apply length_filter|].
    etrans; [apply length_filter|]. done.
  - unfold running_turns. rewrite (step_session_turns _ _ _ _ _ tenant' sid' (step_create_turn _ _ _ _ _ _ _ _ Hc)) by done.
    apply H1.
Qed.

Lemma set_status_running d tid status now :
  status ≠ "in_progress"%string → one_running d → one_running (set_turn_status d tid status now).
Proof.
  intros Hst H1 tenant sid. etrans; [|apply (H1 tenant sid)]. unfold running_turns, session_turns, set_turn_status.
  cbn [turns with_turns]. unfold update_where. induction (turns d) as [|t l IH]; [done|]. csimpl.
  rewrite !filter_cons. case_bool_decide as Hid.
  - cbn [t_tenant t_session]. case_decide; [|by etrans]. rewrite !filter_cons.
    rewrite decide_False; [case_decide; cbn [length]; lia|].
    unfold is_running. cbn. by intros ?%bool_decide_eq_true.
  - case_decide; [|done]. rewrite !filter_cons. case_decide; cbn [length]; lia.
Qed.

Lemma turn_status_running d r now e worker raw c d' :
  sessions d !! s_id r = Some r → db_ok d → cache_ok c d → status_ok e →
  env_type e = "turn.status"%string → (validate c d worker (Some r) e raw).2 = Ok None →
  apply_turn_status d now (s_tenant r) (s_id r) (env_payload e) = Ok d' →
  one_running d → one_running d'.
Proof.
  intros Hr Hok Hc Hst Hty Hv Ha H1. destruct (Hst Hty) as [Hturn Hne].
  assert ((turn_reason c d r e).2 = None) as Htr.
  { unfold validate in Hv. cbv zeta in Hv. rewrite Hty in Hv.
    destruct (turn_reason c d r e) as [ct vt]. repeat case_match; simplify_eq/=; done. }
  unfold apply_turn_status in Ha. destruct (jget "status" (env_payload e)) as [status|] eqn:Hs; [|done].
  destruct (required_uuid (env_payload e) "turn_id") as [tid|] eqn:Htid; cbn [mbind res_bind] in Ha; [|done].
  specialize (Hturn tid eq_refl).
  destruct (decide (jstr (Some status) = Some "started"%string)) as [Hstart|Hstart].
  - destruct (match get_turn d (s_tenant r) tid with Some _ => _ | None => _ end) eqn:Hg; [by simplify_eq|].
    destruct (create_turn _ _ _ _ _ _) as [[d1 t]|] eqn:Hcr; cbn [mbind res_bind] in Ha; [|done]. simplify_eq.
    eapply create_turn_running; [exact Hcr| |done].
    unfold turn_reason in Htr. cbv zeta in Htr. rewrite Hty, Hs, Hturn, Hstart in Htr.
    rewrite (bool_decide_false (_ ∈ _)) in Htr by (by vm_compute; intros ?; set_solver).
    cbn [andb bool_decide decide_rel decide] in Htr. rewrite !bool_decide_true in Htr by done. cbn [andb] in Htr.
    destruct (running_id_ok d r Hr c Hc) as [R1 _]. destruct (running_id c d _ _) as [cr vr]. cbn in R1, Htr. subst vr.
    unfold run_id in Htr. destruct (get_running_turn d (s_tenant r) (s_id r)) as [u|] eqn:Hrun;
      [|by apply newest_none]. exfalso. cbn in Htr. apply newest_in in Hrun.
    destruct (decide (t_id u = tid)) as [Hu|Hu].
    2:{ rewrite bool_decide_false in Htr by (intros ?; simplify_eq). done. }
    apply list_elem_of_filter in Hrun as [_ Hin]. apply list_elem_of_filter in Hin as [Ho Hin].
    apply bool_decide_eq_true in Ho as [Ho1 Ho2].
    destruct (get_turn d (s_tenant r) tid) as [t0|] eqn:Hg0.
    + apply find_row_Some in Hg0 as [[_ Hid0]%bool_decide_eq_true Hin0].
      rewrite (unique_row t_id (turns d) t0 u (ok_turns _ Hok) Hin0 Hin) in Hg by congruence.
      by apply bool_decide_eq_false in Hg.
    + apply find_row_None in Hg0. apply (proj1 (list.Forall_forall _ _) Hg0) in Hin.
      apply bool_decide_eq_false in Hin. by apply Hin.
  - destruct (get_session_turn _ _ _ _) as [t|]; [|done]. destruct status as [| | | |s| |]; try done.
    simplify_eq. apply set_status_running; [|done]. cbn in Hne. congruence.
Qed.

Section running.
Context {S : Type} `{ObjectStore S} (st : S).
Context (sha256_hex : list ascii → string).
Context (presign_url : list ascii → Z → string → string * list (string * json)).
Context (head_object : S → list ascii → res exn (option Z)).
Context (cfg : settings) (store : usage_store).
Context (session_model : db → session_row → option string).
Context (exn_str : exn → string) (library_code : exn → option string).
Context (worker : uuid) (run_mode : option string).

#[local] Abbreviation savepoint := (savepoint sha256_hex presign_url head_object cfg store session_model
  exn_str library_code st).
#[local] Abbreviation ingest_leased := (ingest_leased sha256_hex presign_url head_object cfg store
  session_model exn_str library_code st).
#[local] Abbreviation ingest_one := (ingest_one sha256_hex presign_url head_object cfg store
  session_model exn_str library_code st worker run_mode).
#[local] Abbreviation ingest_all := (ingest_all sha256_hex presign_url head_object cfg store
  session_model exn_str library_code st worker run_mode).
#[local] Abbreviation flush_batch := (flush_batch sha256_hex presign_url head_object cfg store
  session_model exn_str library_code st).

Lemma savepoint_running c d x sid r p q c' fx d' :
  sessions d !! sid = Some r → s_id r = sid → db_ok d → cache_ok c d → status_ok (q_env q) →
  savepoint c d x worker r run_mode p q = (c', fx, Ok d') → one_running d → one_running d'.
Proof.
  intros Hr Hid Hok Hc Hst. unfold Ingest.savepoint. cbv zeta.
  destruct (may_fail (io_early x)); cbn [mbind res_bind]; [|done].
  unfold claim. case_decide; [done|]. fold (claimed d (env_session (q_env q)) (env_seq (q_env q))).
  set (d1 := claimed d _ _). intros Hsp H1.
  destruct (validate c d1 worker (Some r) (q_env q) (q_raw q)) as [cv [[reason|]|ex]] eqn:Hv; try done.
  match type of Hsp with context [apply ?a ?b ?c ?d ?e ?f ?g ?h ?i ?j ?k ?l ?m ?n ?o ?p] =>
    pose proof (apply_keys i a b c d e f g h j k l m n o p) as Hk;
    destruct (apply a b c d e f g h i j k l m n o p) as [[ca fxa] resa] end.
  apply savepoint_release in Hsp as (_ & _ & ->). specialize (Hk _ _ _ eq_refl). cbn in Hk.
  destruct Hk as [(Hty & _ & Ha)|[_ Hk]].
  - apply (turn_status_running d1 r (io_now x) (q_env q) worker (q_raw q) c); try done.
    + by rewrite Hid.
    + by apply claimed_ok.
    + by apply cache_ok_claimed.
    + by rewrite Hv.
  - by apply (one_running_same d1).
Qed.

Lemma ingest_one_running ps f q x :
  db_ok (f_db f) → cache_ok (f_cache f) (f_db f) → status_ok (q_env q) →
  one_running (f_db f) → one_running (f_db (ingest_one ps f q x)).
Proof.
  intros Hok Hc Hst H1. unfold Ingest.ingest_one. cbv zeta. case_decide; [done|].
  unfold get_session_by_id. destruct (_ && _); [done|].
  destruct (ingest_leased _ _ _ _ _ _ _ _) as [[c fx] [d'|ex]] eqn:Hl.
  2:{ destruct ex; try done; by case_match. }
  unfold Ingest.ingest_leased in Hl. cbn [f_db].
  destruct (sessions (f_db f) !! env_session (q_env q)) as [r|] eqn:Hr; [|done].
  pose proof (ok_keyed _ Hok _ r Hr) as Hid.
  destruct (negb _); [done|]. destruct (MAX_MESSAGE_BYTES <? q_raw q); [done|]. case_decide; [done|].
  destruct (savepoint (f_cache f) _ _ _ _ _ _ _) as [[c1 fx1] [d1|ex]] eqn:Hsp.
  - simplify_eq. by eapply savepoint_running.
  - destruct ex; try done. apply (duplicate_step st) with (sid := env_session (q_env q)) in Hl as (_ & Ho & _);
      [|done..]. apply (one_running_same (f_db f)); [|done]. unfold only_uploads in Ho. rewrite Ho. apply same_refl.
Qed.

(** C34: when each `turn.status` envelope speaks of the turn it names and sets a status of
    the protocol, a batch leaves every session with at most one running turn. *)
Theorem flush_one_running d0 d l commit d' out :
  db_ok d → Forall (λ p, status_ok (q_env p.1)) l →
  flush_batch d0 d worker run_mode l commit = Ok (d', out) → one_running d → one_running d'.
Proof.
  intros Hok Hst. unfold Ingest.flush_batch, flush_with. case_decide as Hne; [by intros [= <- <-]|].
  destruct commit; [done|]. intros [= <- _] H1. clear Hne.
  rewrite advance_cursors_rest. unfold Ingest.ingest_all.
  match goal with |- context [foldl _ ?f l] => assert (db_ok (f_db f) ∧ cache_ok (f_cache f) (f_db f) ∧ one_running (f_db f)) as (Hf & Hc & Hone);
    [split_and!; [done|apply cache_ok_empty|done]|generalize dependent f] end.
  clear Hok H1. intros f Hf Hc Hone.
  assert (one_running (f_db (foldl (λ f p, ingest_one (precheck_batch sha256_hex head_object cfg st d0 worker l.*1) f p.1 p.2) f l))) as Hgoal; [|exact Hgoal].
  generalize (precheck_batch sha256_hex head_object cfg st d0 worker l.*1). intros ps.
  revert f Hf Hc Hone. induction Hst as [|[q x] l Hq Hl IH]; intros f Hf Hc Hone; [done|]. cbn [foldl fst snd].
  apply IH.
  - destruct (ingest_one_refines st sha256_hex presign_url head_object cfg store session_model exn_str
      library_code worker run_mode ps f q x Hf) as [t Ht]. by eapply handled_ok.
  - by apply (ingest_one_cache st).
  - by apply ingest_one_running.
Qed.
End running.

(** ** The batch of [IngestProps], and one whose payload names another turn *)

Lemma cache_transparent_witness :
  uncached (ingest_all demo_sha demo_url demo_head demo_settings StoreTurns (λ _ _, None) (λ _, ""%string)
              (λ _, None) (∅ : gmap (list ascii) (list ascii)) 9 None ∅
              (Flushing ing_db empty_cache ∅ empty_outcome) ing_batch)
  = uncached (foldl (λ f p, ingest_one demo_sha demo_url demo_head demo_settings StoreTurns (λ _ _, None)
                (λ _, ""%string) (λ _, None) (∅ : gmap (list ascii) (list ascii)) 9 None ∅ (uncached f) p.1 p.2)
              (Flushing ing_db empty_cache ∅ empty_outcome) ing_batch).
Proof.
  exact (cache_transparent (∅ : gmap (list ascii) (list ascii)) demo_sha demo_url demo_head demo_settings
    StoreTurns (λ _ _, None) (λ _, ""%string) (λ _, None) 9 None ∅ ing_db ing_batch ing_db_ok).
Defined.

Lemma ing_batch_status : Forall (λ p, status_ok (q_env p.1)) ing_batch.
Proof.
  repeat (apply list.Forall_cons; split); [|by intros ?..|by apply list.Forall_nil].
  intros _. split; [|done]. intros t Ht.
  assert (t = 7%N) as -> by (vm_compute in Ht; congruence). vm_compute. reflexivity.
Qed.
Lemma ing_db_one : one_running ing_db.
Proof. intros tenant sid. cbn. lia. Qed.

Lemma flush_one_running_witness : length (running_turns ing_done.1 1 2) = 1%nat ∧ one_running ing_done.1.
Proof.
  split; [vm_compute; reflexivity|].
  exact (flush_one_running (∅ : gmap (list ascii) (list ascii)) demo_sha demo_url demo_head demo_settings
    StoreTurns (λ _ _, None) (λ _, ""%string) (λ _, None) 9 None ing_db ing_db ing_batch None
    ing_done.1 ing_done.2 ing_db_ok ing_batch_status ing_flush_ok ing_db_one).
Defined.

Definition ing_second : queued * io :=
  (Queued (Envelope 2 (Some 7%N) 2 "turn.status"
     [("turn_id", ing_turn 8); ("status", JStr "started")]%string) 100, ing_io 12 None).
(** the checks read the turn of the envelope and the handler the one of the payload;
    an envelope in which they differ is accepted, and starts a second turn of a session
    while one is running. *)
Theorem turn_binding_gap :
  match ing_flush ing_db [ing_start; ing_second] with
  | Ok (d', out) => length (running_turns d' 1 2) = 2%nat ∧ rejected out = []
  | Err _ => False
  end.
Proof. vm_compute. done. Qed.
