(* ===== verification/TurnState.v ===== *)
(** * Ending turns from the API (services/turn_state.py, session_events.py, common/failures.py)

    What the API does to a session whose worker is gone: the public events it
    stores, the failure it reports, and the turn and session rows it settles.  The
    classification of a model host's message (`classify_host_message`) is an
    argument of the functions that use it; one clock reading and one fresh id per
    stored event are passed to each function. *)

From stdpp Require Import sorting.
From S2P Require Import Prelude PyStd Protocol Db Sandbox Usage Accounting Ingest IngestSpec IngestTurns.

Open Scope Z_scope.

(** ** Failures (common/failures.py) *)

Record failure : Type := Failure {
  f_message : string; f_code : string; f_source : string; f_retryable : bool;
  f_upstream_status : option Z; f_legacy : option string; f_attempts : option Z
}.

Definition KNOWN : odict string (string * bool) :=
  ODict ((λ p, (p.1.1, (p.1.2, p.2))) <$>
  [("upstream_rate_limited", "upstream", true); ("upstream_5xx", "upstream", true);
   ("upstream_timeout", "upstream", true); ("upstream_connection", "upstream", true);
   ("upstream_unauthorized", "upstream", false); ("context_length_exceeded", "upstream", false);
   ("upstream_content_filter", "upstream", false); ("upstream_4xx", "upstream", false);
   ("upstream_error", "upstream", false); ("cancelled", "user", false);
   ("client_disconnected", "user", false); ("invalid_request", "user", false);
   ("model_required", "user", false); ("model_not_found", "user", false);
   ("model_host_unreachable", "user", false); ("model_host_unauthorized", "user", false);
   ("payload_too_large", "user", false); ("not_found", "user", false);
   ("unknown_field", "user", false); ("validation_error", "user", false);
   ("workspace_too_large", "user", false); ("artifact_too_large", "user", false);
   ("gone", "user", false); ("unauthorized", "user", false); ("tool_not_allowed", "user", false);
   ("builtin_tools", "user", false); ("credential_not_allowed", "user", false);
   ("credential_host_not_allowed", "user", false); ("secret_name_collision", "user", false);
   ("forward_models", "user", false); ("presign_unsupported", "user", false);
   ("capacity", "user", false); ("capacity_tenant", "user", false);
   ("turn_timeout", "internal", true); ("pi_exited", "internal", true);
   ("pi_memory", "internal", false); ("spawn_failed", "internal", true);
   ("sandbox_boot_failed", "internal", true); ("attachment_push_failed", "internal", true);
   ("artifact_store", "internal", true); ("worker_lease_expired", "internal", true);
   ("worker_command_timeout", "internal", true); ("worker_outbox_full", "internal", true);
   ("worker_message_too_large", "internal", false); ("turn_interrupted", "internal", true);
   ("internal", "internal", false); ("placement", "internal", false);
   ("image_unavailable", "internal", true)]%string).
Definition LEGACY : list string := ["pi_exited"; "pi_memory"]%string.

Definition legacy (code source : string) : option string :=
  if decide (source = "upstream"%string ∨ code ∈ LEGACY) then Some "model_host_error"%string else None.

Definition public_code (f : failure) (mode : string) : string :=
  if decide (mode = "specific"%string) then f_code f
  else match f_legacy f with
       | Some l => if decide (l = ""%string) then f_code f else l
       | None => f_code f
       end.

Definition optional (key : string) (v : option json) : list (string * json) :=
  match v with Some j => [(key, j)] | None => [] end.
Definition nonempty (s : option string) : option json :=
  match s with Some x => if decide (x = ""%string) then None else Some (JStr x) | None => None end.

Definition turn_failed_data (turn : string) (f : failure) : list (string * json) :=
  [("turn_id", JStr turn); ("message", JStr (f_message f)); ("code", JStr (f_code f));
   ("failure_source", JStr (f_source f)); ("upstream_status", jopt_int (f_upstream_status f));
   ("retryable", JBool (f_retryable f))]%string
  ++ optional "legacy_code" (nonempty (f_legacy f))
  ++ optional "upstream_attempts" (JInt <$> f_attempts f).
Definition session_error_data (f : failure) (mode : string) : list (string * json) :=
  [("message", JStr (f_message f)); ("code", JStr (public_code f mode));
   ("detail_code", JStr (f_code f)); ("failure_source", JStr (f_source f));
   ("upstream_status", jopt_int (f_upstream_status f)); ("retryable", JBool (f_retryable f))]%string
  ++ optional "legacy_code" (nonempty (f_legacy f))
  ++ optional "upstream_attempts" (JInt <$> f_attempts f).

(** [errors]: `settings.error_codes`, when there are settings. *)
Definition error_mode (errors : option string) : string :=
  match errors with
  | Some m => if decide (m = "specific"%string) then "specific" else "legacy"
  | None => "legacy"
  end.

(** ** Stored events (services/session_events.py) *)

Inductive publication : Type :=
| PubStored (e : event_row)                                         (* after the commit *)
| PubLive (sid : uuid) (type : string) (data : list (string * json)). (* at once *)

Definition persist_event (d : db) (now : Z) (eid tenant sid : uuid) (type : string)
    (data : list (string * json)) : res exn (db * list publication) :=
  if decide (type ∉ PUBLIC_EVENT_TYPES) then Ok (d, [])
  else if decide (type ∈ LIVE_EVENT_TYPES) then Ok (d, [PubLive sid type data])
  else '(d, e) ← append_event d now eid tenant sid type data; Ok (d, [PubStored e]).

(** ** The tools of a turn, from its stored rows (services/turn_log.py) *)

Definition item_le (a b : item_row) : Prop :=
  i_created a < i_created b ∨ (i_created a = i_created b ∧ (i_id a ≤ i_id b)%N).
#[global] Instance item_le_dec a b : Decision (item_le a b).
Proof. unfold item_le. apply _. Defined.
Definition list_items (d : db) (tenant sid : uuid) : option (list item_row) :=
  _ ← get_session d tenant sid None;
  Some (merge_sort item_le (filter (λ i, of_session tenant sid (i_tenant i) (i_session i) = true) (items d))).

Definition turn_le (a b : turn_row) : Prop :=
  t_created a < t_created b ∨ (t_created a = t_created b ∧ (t_id a ≤ t_id b)%N).
#[global] Instance turn_le_dec a b : Decision (turn_le a b).
Proof. unfold turn_le. apply _. Defined.
Definition list_turns (d : db) (tenant sid : uuid) : option (list turn_row) :=
  _ ← get_session d tenant sid None; Some (merge_sort turn_le (session_turns d tenant sid)).

Definition event_le (a b : event_row) : Prop := e_seq a ≤ e_seq b.
#[global] Instance event_le_dec a b : Decision (event_le a b).
Proof. unfold event_le. apply _. Defined.
Definition list_events (d : db) (tenant sid : uuid) : list event_row :=
  merge_sort event_le (session_events d tenant sid).

Definition text_of (v : option json) : option string :=
  match v with Some (JStr s) => if decide (s = ""%string) then None else Some s | _ => None end.
Definition json_counts (c : odict string Z) : list (string * json) :=
  (λ p, (p.1, JInt p.2)) <$> oitems c.
Definition tool_mcp_for_turn (d : db) (tenant sid tid : uuid)
    : list string * list (string * json) * list string * list (string * json) :=
  let tool_names := omap (λ i, if decide (i_turn i = Some tid ∧ i_type i = "function_call"%string)
                               then text_of (jget "name" (i_data i)) else None)
                      (default [] (list_items d tenant sid)) in
  let mcp_names := omap (λ e,
      if decide (e_type e ∈ ["agent.session.turn.item.added"; "agent.session.turn.item.nested"]%string
                 ∧ jstr (jget "turn_id" (e_data e)) = Some (str_of_uuid tid)
                 ∧ jstr (jget "item_type" (e_data e)) = Some "mcp_call"%string)
      then mcp_name (e_data e) else None) (list_events d tenant sid) in
  let '(tools, tool_counts) := tally tool_names in
  let '(mcps, mcp_counts) := tally mcp_names in
  (tools, json_counts tool_counts, mcps, json_counts mcp_counts).

(** ** Ending turns (services/turn_state.py) *)

Definition lease_live (now : Z) (until : option Z) : bool :=
  match until with Some u => now <? u | None => false end.

Definition IDLE : session_changes := Changes (Some "idle"%string) None None (Some (JArr [])).
Definition FAILED : session_changes := Changes (Some "failed"%string) None None (Some (JArr [])).

Section turn_state.
Context (classify_host_message : string → failure).
Context (session_model : db → session_row → option string).

Definition failure_for (code message : string) : failure :=
  if decide (code = "model_host_error"%string) then classify_host_message message
  else
    let '(source, retryable) := default ("internal"%string, false) (KNOWN !! code) in
    Failure message code source retryable None (legacy code source) None.
Definition session_failed_data (message : string) (code : option string) : list (string * json) :=
  match nonempty code, code with
  | Some _, Some c => session_error_data (failure_for c message) "legacy"
  | _, _ => [("message", JStr message)]%string
  end.

Definition session_idle (d : db) (now : Z) (eid tenant sid : uuid) : res exn (db * list publication) :=
  '(d, _) ← update_session d now tenant sid None IDLE;
  persist_event d now eid tenant sid "agent.session.idle" [].

(** The log is written with no settings: the default store. *)
Definition fail_turn_in_db (d : db) (now : Z) (e1 e2 e3 : uuid) (tenant sid tid : uuid)
    (message code : string) : res exn (db * list publication) :=
  let resolved := failure_for code message in
  let d := match get_session_turn d tenant sid tid with
           | Some _ => set_turn_status d tid "failed" now | None => d end in
  let '(tools, tool_counts, mcps, mcp_counts) := tool_mcp_for_turn d tenant sid tid in
  stored ← usage_from None;
  d ← write_turn_log session_model d now StoreTurns tenant sid tid
        (TurnSummary "failed" stored (Some (f_code resolved)) None 0 tools tool_counts mcps mcp_counts "");
  '(d, p1) ← persist_event d now e1 tenant sid "agent.session.turn.failed"
               (turn_failed_data (str_of_uuid tid) resolved);
  '(d, p2) ← persist_event d now e2 tenant sid "agent.session.error"
               (session_error_data resolved (error_mode None));
  '(d, p3) ← session_idle d now e3 tenant sid;
  Ok (d, p1 ++ p2 ++ p3).

Definition stale_status (r : session_row) : bool :=
  bool_decide (s_status r ∈ ["in_progress"; "requires_action"]%string).

Definition fail_stale_in_progress (d : db) (now : Z) (e1 e2 e3 : uuid) (tenant sid : uuid)
    (message : string) : res exn (db * list publication) :=
  match get_session d tenant sid None with
  | None => Ok (d, [])
  | Some r =>
      if negb (stale_status r) || lease_live now (lease_until (s_lease r)) then Ok (d, [])
      else
        match head (filter (λ t, is_running t = true)
                      (reverse (default [] (list_turns d tenant sid)))) with
        | Some t => fail_turn_in_db d now e1 e2 e3 tenant sid (t_id t) message "turn_interrupted"
        | None => session_idle d now e3 tenant sid
        end
  end.

Definition fail_session (d : db) (now : Z) (e1 e2 : uuid) (tenant sid : uuid) (message : string)
    (code : option string) : res exn (db * list publication) :=
  '(d, _) ← update_session d now tenant sid None FAILED;
  '(d, p1) ← persist_event d now e1 tenant sid "agent.session.error" (session_failed_data message code);
  '(d, p2) ← persist_event d now e2 tenant sid "agent.session.failed" [];
  Ok (d, p1 ++ p2).

Definition fail_environment (d : db) (now : Z) (e1 e2 e3 : uuid) (tenant sid : uuid)
    (message : string) (code : option string) : res exn (db * list publication) :=
  let '(d, data) := note_failed d now tenant sid message code in
  '(d, p1) ← persist_event d now e1 tenant sid "agent.session.environment.failed" data;
  '(d, p2) ← fail_session d now e2 e3 tenant sid message code;
  Ok (d, p1 ++ p2).
End turn_state.

(** ** Lemmas *)

(** Ids for the events a function stores. *)
Definition fresh_events (d : db) (l : list uuid) : Prop :=
  NoDup l ∧ ∀ e, e ∈ l → e ∉ e_id <$> events d.

Lemma fresh_events_cons d e l : fresh_events d (e :: l) → e ∉ e_id <$> events d ∧ fresh_events d l.
Proof.
  intros [Hnd Hf]. apply list.NoDup_cons in Hnd as [He Hnd]. split; [apply Hf; by left|].
  split; [done|]. intros x Hx. apply Hf. by right.
Qed.
(** The ids stay fresh when only [e] was stored. *)
Lemma fresh_events_step d d' e l :
  fresh_events d (e_id e :: l) → events d' = events d ++ [e] → fresh_events d' l.
Proof.
  intros [Hnd Hf] He. apply list.NoDup_cons in Hnd as [Hn Hnd]. split; [done|].
  intros x Hx. rewrite He, fmap_app. intros [Hin|Hin]%elem_of_app.
  - eapply Hf; [by right|done].
  - apply list_elem_of_singleton in Hin as ->. done.
Qed.

Lemma find_row_exists {R} (P : R → bool) l x : x ∈ l → P x = true → ∃ y, find_row P l = Some y.
Proof.
  intros Hin HP. destruct (find_row P l) eqn:E; [eauto|]. apply find_row_None in E.
  rewrite list.Forall_forall in E. specialize (E x Hin). congruence.
Qed.

Section steps.
Context (tenant sid : uuid).
Implicit Types (d : db) (r : session_row).

(** A stored event of the session. *)
Lemma persist_event_stored d now eid type data r :
  get_session d tenant sid None = Some r →
  type ∈ PUBLIC_EVENT_TYPES → type ∉ LIVE_EVENT_TYPES → eid ∉ e_id <$> events d →
  ∃ d' e, persist_event d now eid tenant sid type data = Ok (d', [PubStored e])
    ∧ session_step_with [e] tenant sid d d' ∧ e_id e = eid ∧ e_type e = type
    ∧ d' = with_events d (events d ++ [e]).
Proof.
  intros Hs Hp Hl He. unfold persist_event. rewrite decide_False, decide_False by tauto.
  destruct (append_event d now eid tenant sid type data) as [[d' e]|x] eqn:Ha.
  - exists d', e. split; [done|]. pose proof (step_append_event _ _ _ _ _ _ _ _ _ Ha) as [Hst _].
    unfold append_event in Ha. rewrite Hs in Ha. case_decide; [done|]. simplify_eq. done.
  - unfold append_event in Ha. rewrite Hs, decide_False in Ha by done. done.
Qed.

Definition settled_row (d' : db) : Prop :=
  ∃ r', get_session d' tenant sid None = Some r'
    ∧ s_status r' = "idle"%string ∧ s_actions r' = JArr [].

Lemma session_idle_step d now eid r :
  db_ok d → get_session d tenant sid None = Some r → eid ∉ e_id <$> events d →
  ∃ d' e, session_idle d now eid tenant sid = Ok (d', [PubStored e])
    ∧ session_step_with [e] tenant sid d d' ∧ e_id e = eid
    ∧ e_type e = "agent.session.idle"%string ∧ settled_row d' ∧ turns d' = turns d
    ∧ acct d' = acct d.
Proof.
  intros Hok Hs He. unfold session_idle, update_session. rewrite Hs. cbn [mbind res_bind].
  set (r' := set_session r _ _ _ _ now). rewrite decide_True by (cbn; set_solver).
  cbn [mbind res_bind]. apply get_session_ids in Hs as [Ht Hs].
  assert (s_id r = sid) as Hid by by apply (ok_keyed _ Hok).
  assert (get_session (put_row d r') tenant sid None = Some r') as Hs'.
  { unfold get_session. cbn. rewrite Hid, lookup_insert_eq. cbn. by rewrite Ht, bool_decide_true. }
  destruct (persist_event_stored (put_row d r') now eid "agent.session.idle" [] r' Hs') as
    (d' & e & -> & Hst & Hi & Hty & ->); [set_solver|set_solver|done|].
  eexists _, e. split; [done|]. split_and!; try done.
  - apply (session_step_trans [] [e] _ _ _ (put_row d r') _); [by apply (step_row _ _ _ r)|exact Hst].
  - exists r'. split; [|done]. exact Hs'.
Qed.
End steps.

Lemma running_after_end d tenant sid t how now :
  running_turns d tenant sid = [t] → db_ok d → how ≠ "in_progress"%string →
  running_turns (set_turn_status d (t_id t) how now) tenant sid = [].
Proof.
  intros Hrun Hok Hhow. unfold running_turns in *.
  assert (t ∈ filter (λ t, is_running t = true) (session_turns d tenant sid)) as Hin by (rewrite Hrun; by left).
  apply list_elem_of_filter in Hin as [_ Hin].
  assert (∀ x, x ∈ session_turns d tenant sid → is_running x = true → x = t) as Hone.
  { intros x Hx Hr. apply list_elem_of_singleton. rewrite <- Hrun. by apply list_elem_of_filter. }
  apply filter_none, list.Forall_forall. intros x Hx Hr. unfold session_turns, set_turn_status in *.
  cbn [turns with_turns] in Hx. apply list_elem_of_filter in Hx as [Ho (y & -> & Hy)%list_elem_of_fmap].
  case_bool_decide as Hid; [by apply bool_decide_eq_true in Hr|].
  apply Hid. f_equal. apply Hone; [|done]. by apply list_elem_of_filter.
Qed.

(** The turn the loop finds is the running one. *)
Lemma stale_loop d tenant sid r :
  get_session d tenant sid None = Some r → one_running d →
  head (filter (λ t, is_running t = true) (reverse (default [] (list_turns d tenant sid))))
  = head (running_turns d tenant sid).
Proof.
  intros Hs H1. unfold list_turns. rewrite Hs. set (l := session_turns d tenant sid).
  change (default [] (mbind (M:=option) _ _)) with (merge_sort turn_le l).
  assert (filter (λ t, is_running t = true) (reverse (merge_sort turn_le l)) ≡ₚ running_turns d tenant sid) as Hp.
  { unfold running_turns. fold l. rewrite reverse_Permutation. apply filter_Permutation, merge_sort_Permutation. }
  specialize (H1 tenant sid). destruct (running_turns d tenant sid) as [|t [|u rest]]; [|  |cbn in H1; lia].
  - apply Permutation_nil_r in Hp. by rewrite Hp.
  - apply Permutation_singleton_r in Hp. by rewrite Hp.
Qed.

(** ** A session whose worker is gone is settled *)

Section ends.
Context (classify_host_message : string → failure).
Context (session_model : db → session_row → option string).
Context (tenant sid : uuid) (now : Z).

Lemma log_counts_failed l a a' :
  append_turn_log a l = Ok a' → get_turn_log a' (l_tenant l) (l_turn l) = Some l.
Proof.
  unfold append_turn_log. case_decide; [done|]. destruct (get_turn_log a _ _) eqn:E; [done|].
  intros [= <-]. unfold get_turn_log in *. cbn [turn_logs]. rewrite find_row_app, E.
  unfold is_log. by rewrite bool_decide_true.
Qed.

(** The log of a turn is written once. *)
Lemma write_log_outcome d t s :
  get_session_turn d tenant sid (t_id t) = Some t → ts_status s ∈ LOG_STATUSES →
  match get_turn_log (acct d) tenant (t_id t) with
  | Some _ => write_turn_log session_model d now StoreTurns tenant sid (t_id t) s = Err IntegrityExn
  | None => ∃ a l, write_turn_log session_model d now StoreTurns tenant sid (t_id t) s = Ok (with_acct d a)
      ∧ get_turn_log a tenant (t_id t) = Some l ∧ l_status l = ts_status s
      ∧ l_error_code l = ts_error_code s
  end.
Proof.
  intros Ht Hs. unfold write_turn_log. rewrite Ht.
  destruct (search_usage_for_turn _ _ _) as [[calls units] search]. cbv zeta.
  set (l := TurnLogRow _ _ _ _ _ _ _ _ _ _ _ _ _ _ _ _ _ _ _ _ _ _).
  destruct (get_turn_log (acct d) tenant (t_id t)) eqn:E.
  - unfold append_turn_log. rewrite decide_False by (intros Hn; by apply Hn).
    cbn [l_tenant l_turn l]. by rewrite E.
  - destruct (append_turn_log (acct d) l) as [a|] eqn:Ha.
    + cbn [mbind res_bind]. eexists _, l. split; [done|]. split; [|done].
      apply log_counts_failed in Ha. cbn [l_tenant l_turn l] in Ha.
      unfold get_turn_log in *. by rewrite (proj1 (add_usage_rollup_rest _ _ _ _)).
    + unfold append_turn_log in Ha. rewrite decide_False in Ha by (intros Hn; by apply Hn).
      cbn [l_tenant l_turn l] in Ha. by rewrite E in Ha.
Qed.

Lemma session_turn_found d t :
  db_ok d → t ∈ session_turns d tenant sid → get_session_turn d tenant sid (t_id t) = Some t.
Proof.
  intros Hok Hin. unfold session_turns, of_session in Hin.
  apply list_elem_of_filter in Hin as [[Htn Hs]%bool_decide_eq_true Hin].
  unfold get_session_turn, get_turn.
  destruct (find_row_exists (λ x, bool_decide (t_tenant x = tenant ∧ t_id x = t_id t)) (turns d) t)
    as [y Hy]; [done|by apply bool_decide_eq_true|].
  rewrite Hy. cbn [mbind option_bind]. apply find_row_Some in Hy as [[_ Hid]%bool_decide_eq_true Hy].
  rewrite (unique_row t_id (turns d) y t) by (done || apply (ok_turns _ Hok)). by rewrite decide_True.
Qed.

Lemma turn_found_after d t how :
  db_ok d → t ∈ session_turns d tenant sid →
  ∃ u, get_session_turn (set_turn_status d (t_id t) how now) tenant sid (t_id t) = Some u
    ∧ t_id u = t_id t ∧ t_status u = how.
Proof.
  intros Hok Hin. pose proof (session_turn_found d t Hok Hin) as Hf.
  assert (db_ok (set_turn_status d (t_id t) how now)) as Hok'.
  { eapply ss_ok; [|done]. by eapply step_set_turn. }
  set (u := TurnRow (t_id t) (t_tenant t) (t_session t) how (t_usage t) (t_created t) now).
  exists u. split; [|split; done]. change (t_id t) with (t_id u). apply (session_turn_found _ u Hok').
  unfold session_turns, of_session, set_turn_status in *. cbn [turns with_turns].
  apply list_elem_of_filter in Hin as [Ho Hin]. apply list_elem_of_filter. split; [done|].
  apply list_elem_of_fmap. exists t. split; [|done]. by rewrite bool_decide_true.
Qed.

Definition turn_ended (d d' : db) (es : list event_row) : Prop :=
  session_step_with es tenant sid d d' ∧ running_turns d' tenant sid = [] ∧ settled_row tenant sid d'.

Lemma running_turns_same d d' : turns d' = turns d → running_turns d' tenant sid = running_turns d tenant sid.
Proof. unfold running_turns, session_turns. by intros ->. Qed.

Lemma fail_turn_ends d r t e1 e2 e3 message code :
  db_ok d → get_session d tenant sid None = Some r → running_turns d tenant sid = [t] →
  fresh_events d [e1; e2; e3] →
  let out := fail_turn_in_db classify_host_message session_model d now e1 e2 e3 tenant sid (t_id t) message code in
  match get_turn_log (acct d) tenant (t_id t) with
  | Some _ => out = Err IntegrityExn
  | None => ∃ d' es l, out = Ok (d', PubStored <$> es)
      ∧ e_type <$> es = ["agent.session.turn.failed"; "agent.session.error"; "agent.session.idle"]%string
      ∧ turn_ended d d' es
      ∧ get_turn_log (acct d') tenant (t_id t) = Some l ∧ l_status l = "failed"%string
      ∧ l_error_code l = Some (f_code (failure_for classify_host_message code message))
  end.
Proof.
  intros Hok Hs Hrun Hfresh.
  assert (t ∈ session_turns d tenant sid) as Hin.
  { assert (t ∈ running_turns d tenant sid) as H by (rewrite Hrun; by left).
    unfold running_turns in H. by apply list_elem_of_filter in H as [_ H]. }
  pose proof (session_turn_found d t Hok Hin) as Hf. cbv zeta. unfold fail_turn_in_db. rewrite Hf.
  set (d1 := set_turn_status d (t_id t) "failed" now).
  destruct (tool_mcp_for_turn d1 tenant sid (t_id t)) as [[[tools tc] mcps] mc].
  change (usage_from None) with (Ok (E:=exn) empty_usage). cbn [mbind res_bind].
  destruct (turn_found_after d t "failed" Hok Hin) as (u & Hu & Hid & _).
  set (s := TurnSummary _ _ _ _ _ _ _ _ _ _).
  pose proof (write_log_outcome d1 u s) as Hlog. rewrite Hid in Hlog. specialize (Hlog Hu ltac:(set_solver)).
  change (acct d1) with (acct d) in Hlog. destruct (get_turn_log (acct d) tenant (t_id t)) as [l0|].
  { by rewrite Hlog. }
  destruct Hlog as (a & l & Hw & Hl & Hst & Hcode). rewrite Hw. cbn [mbind res_bind].
  assert (session_step tenant sid d d1) as H1 by by eapply step_set_turn.
  assert (session_step tenant sid d1 (with_acct d1 a)) as H2 by apply step_acct.
  apply fresh_events_cons in Hfresh as Hf1. destruct Hf1 as [Hf1 _].
  destruct (persist_event_stored tenant sid (with_acct d1 a) now e1 "agent.session.turn.failed"
    (turn_failed_data (str_of_uuid (t_id t)) (failure_for classify_host_message code message)) r)
    as (d3 & x1 & -> & H3 & I1 & T1 & E3); [done|set_solver|set_solver|done|]. cbn [mbind res_bind].
  assert (fresh_events d3 [e2; e3]) as Hfr3 by (apply (fresh_events_step d d3 x1); [by rewrite I1|by rewrite E3]).
  apply fresh_events_cons in Hfr3 as Hf3. destruct Hf3 as [Hf3 _].
  destruct (persist_event_stored tenant sid d3 now e2 "agent.session.error"
    (session_error_data (failure_for classify_host_message code message) (error_mode None)) r)
    as (d4 & x2 & -> & H4 & I2 & T2 & E4); [by rewrite E3|set_solver|set_solver|done|]. cbn [mbind res_bind].
  assert (fresh_events d4 [e3]) as Hfr4 by (apply (fresh_events_step d3 d4 x2); [by rewrite I2|by rewrite E4]).
  apply fresh_events_cons in Hfr4 as [Hf4 _].
  assert (db_ok d4) as Hok4 by (apply H4, H3, H2, H1, Hok).
  destruct (session_idle_step tenant sid d4 now e3 r Hok4) as (d5 & x3 & -> & H5 & I5 & T5 & Hset & Ht5 & Ha5);
    [by rewrite E4, E3|done|]. cbn [mbind res_bind].
  exists d5, [x1; x2; x3], l. split_and!; try done.
  - csimpl. by rewrite T1, T2, T5.
  - split_and!; [|  |done].
    + apply (session_step_trans [] [x1; x2; x3] _ _ d d1 d5 H1),
        (session_step_trans [] [x1; x2; x3] _ _ d1 (with_acct d1 a) d5 H2),
        (session_step_trans [x1] [x2; x3] _ _ _ d3 d5 H3), (session_step_trans [x2] [x3] _ _ _ d4 d5 H4 H5).
    + rewrite (running_turns_same d1); [by apply running_after_end|]. by rewrite Ht5, E4, E3.
  - by rewrite Ha5, E4, E3.
Qed.

(** C35: when the API ends what a lost worker left behind (an expired lease, an
    orphan, an unacknowledged command), a session that waits on a worker and has no
    live lease is settled: its running turn fails with `turn_interrupted`, the
    failure is logged once, the public events `turn.failed`, `error` and `idle` are
    stored in that order, the session is idle with no required action and no turn
    runs; nothing of any other session changes.  A session that waits on nobody or
    whose lease is live is left as it is, and a turn whose log is already written
    is refused by the database. *)
Theorem stale_turn_ended d e1 e2 e3 message :
  db_ok d → one_running d → fresh_events d [e1; e2; e3] →
  let out := fail_stale_in_progress classify_host_message session_model d now e1 e2 e3 tenant sid message in
  match get_session d tenant sid None with
  | None => out = Ok (d, [])
  | Some r =>
      if negb (stale_status r) || lease_live now (lease_until (s_lease r)) then out = Ok (d, [])
      else match running_turns d tenant sid with
      | t :: _ =>
          match get_turn_log (acct d) tenant (t_id t) with
          | Some _ => out = Err IntegrityExn
          | None => ∃ d' es l, out = Ok (d', PubStored <$> es)
              ∧ e_type <$> es = ["agent.session.turn.failed"; "agent.session.error"; "agent.session.idle"]%string
              ∧ turn_ended d d' es
              ∧ get_turn_log (acct d') tenant (t_id t) = Some l ∧ l_status l = "failed"%string
              ∧ l_error_code l = Some "turn_interrupted"%string
          end
      | [] => ∃ d' e, out = Ok (d', [PubStored e]) ∧ e_type e = "agent.session.idle"%string
              ∧ turn_ended d d' [e]
      end
  end.
Proof.
  intros Hok Hone Hfresh. cbv zeta. unfold fail_stale_in_progress.
  destruct (get_session d tenant sid None) as [r|] eqn:Hs; [|done].
  destruct (negb (stale_status r) || _); [done|]. rewrite (stale_loop d tenant sid r Hs Hone).
  pose proof (Hone tenant sid) as H1. destruct (running_turns d tenant sid) as [|t [|u l]] eqn:Hrun; [| |cbn in H1; lia].
  - cbn [head]. apply fresh_events_cons in Hfresh as [_ Hfresh].
    apply fresh_events_cons in Hfresh as [_ Hfresh]. apply fresh_events_cons in Hfresh as [He3 _].
    destruct (session_idle_step tenant sid d now e3 r Hok Hs He3) as (d' & e & Ho & Hst & _ & Hty & Hset & Ht & _).
    exists d', e. split_and!; [done|done|]. split_and!; [done| |done]. by rewrite (running_turns_same d).
  - cbn [head]. by apply (fail_turn_ends d r t e1 e2 e3 message "turn_interrupted").
Qed.
End ends.

(** ** A witness *)

Definition stale_row : session_row :=
  SessionRow 2 1 None "k" None None "in_progress" (JObj []) (JObj []) (JArr [])
    (LeaseCols (Some 9%N) (Some 4%N) (Some 5) 3)
    (SandboxCols None None None None None None None None 0 None) None 0 1.
Definition stale_turn : turn_row := TurnRow 7 1 2 "in_progress" None 3 3.
Definition stale_db : db :=
  Db {[ 2%N := stale_row ]} [stale_turn] [] [] [] [] [] [] ∅ (Acct [] [] []).
Definition no_classify (text : string) : failure := Failure text "upstream_error" "upstream" false None None None.

Lemma stale_db_ok : db_ok stale_db.
Proof.
  split; try (by apply NoDup_nil_2); [|apply NoDup_singleton|done].
  intros sid r. unfold stale_db. cbn [sessions]. by intros [<- <-]%lookup_singleton_Some.
Qed.
Lemma stale_db_one : one_running stale_db.
Proof.
  intros tenant sid. unfold running_turns, session_turns. cbn [turns stale_db].
  etrans; [apply length_filter|]. etrans; [apply length_filter|]. done.
Qed.
Lemma stale_fresh : fresh_events stale_db [11; 12; 13]%N.
Proof. split; [|by intros e _ ?%elem_of_nil]. repeat constructor; set_solver. Qed.

Lemma stale_turn_ended_witness :
  lease_live 10 (lease_until (s_lease stale_row)) = false
  ∧ ∃ d' es l, fail_stale_in_progress no_classify (λ _ _, None) stale_db 10 11 12 13 1 2 "Turn interrupted"
      = Ok (d', PubStored <$> es)
    ∧ e_type <$> es = ["agent.session.turn.failed"; "agent.session.error"; "agent.session.idle"]%string
    ∧ turn_ended 1 2 stale_db d' es
    ∧ get_turn_log (acct d') 1 7 = Some l ∧ l_status l = "failed"%string
    ∧ l_error_code l = Some "turn_interrupted"%string.
Proof.
  split; [reflexivity|].
  exact (stale_turn_ended no_classify (λ _ _, None) 1 2 10 stale_db 11 12 13 "Turn interrupted"
    stale_db_ok stale_db_one stale_fresh).
Defined.
