(* ===== verification/Hub.v ===== *)
(** * The worker hub (src/src/apipi/workerhub/hub.py, deltas.py, inventory.py)

    One API replica's view of its workers: the open connections, the leases each
    holds, the commands not acked yet, the live deltas, and the operations that
    grant, use and end leases.  An operation is cut where the code awaits a
    database transaction or a socket, so that other tasks can run in between: the
    parts are functions on the hub and the database, and [HubSystem] interleaves
    them.  The replica has no forwarder (`forwarder is None`): a worker whose
    socket is elsewhere is not reached.  Metrics, logs and spans are left out;
    clock readings and fresh ids are arguments. *)

From S2P Require Import Prelude PyStd Protocol CommandQueue Db Fleet Commands Sandbox Usage Accounting TurnState.

Open Scope Z_scope.

(** ** State *)

Record delta_lease : Type := DeltaLease {
  dl_worker : uuid; dl_lease : uuid; dl_tenant : uuid; dl_done : gset string; dl_refreshed : Z
}.
Record pending_release : Type := PendingRelease {
  rl_session : uuid; rl_lease : uuid; rl_deadline : Z; rl_holders : Z
}.
Record hub : Type := Hub {
  h_objs : gmap N connection;          (* the connection objects *)
  h_conns : odict uuid N;              (* `_conns`: the current one of each worker *)
  h_queue : command_queue;
  h_releases : odict uuid pending_release;
  h_hits : gmap uuid (list Z);         (* `_delta_hits` *)
  h_deltas : odict uuid delta_lease;   (* `_delta_leases` *)
  h_inventory : odict uuid (odict uuid uuid)
}.
Definition empty_hub : hub := Hub ∅ ∅ empty_queue ∅ ∅ ∅ ∅.

Definition with_objs (h : hub) o :=
  Hub o (h_conns h) (h_queue h) (h_releases h) (h_hits h) (h_deltas h) (h_inventory h).
Definition with_conns (h : hub) c :=
  Hub (h_objs h) c (h_queue h) (h_releases h) (h_hits h) (h_deltas h) (h_inventory h).
Definition with_queue (h : hub) q :=
  Hub (h_objs h) (h_conns h) q (h_releases h) (h_hits h) (h_deltas h) (h_inventory h).
Definition with_releases (h : hub) r :=
  Hub (h_objs h) (h_conns h) (h_queue h) r (h_hits h) (h_deltas h) (h_inventory h).
Definition with_deltas (h : hub) hits deltas :=
  Hub (h_objs h) (h_conns h) (h_queue h) (h_releases h) hits deltas (h_inventory h).
Definition with_inventory (h : hub) i :=
  Hub (h_objs h) (h_conns h) (h_queue h) (h_releases h) (h_hits h) (h_deltas h) i.

(** An assignment to an attribute of a connection object. *)
Definition update_conn (h : hub) (ref : N) (f : connection → connection) : hub :=
  with_objs h (alter f ref (h_objs h)).
Definition add_lease (lease : uuid) (mem : Z) (c : connection) : connection :=
  set_leases c ({[lease]} ∪ c_leases c) (<[lease := mem]> (c_lease_mem c)).
Definition end_lease (lease : uuid) (c : connection) : connection :=
  set_leases c (c_leases c ∖ {[lease]}) (delete lease (c_lease_mem c)).

(** `self._conns.get(worker_id)` *)
Definition current (h : hub) (worker : uuid) : option (N * connection) :=
  ref ← h_conns h !! worker; c ← h_objs h !! ref; Some (ref, c).
Definition current_conns (h : hub) : list (N * connection) :=
  omap (λ p : uuid * N, c ← h_objs h !! p.2; Some (p.2, c)) (oitems (h_conns h)).

(** A frame handed to the writer of a connection. *)
Abbreviation frame := (N * list (string * json))%type (only parsing).

(** ** Live deltas (workerhub/deltas.py, common/ratelimit.py) *)

Definition DELTA_DONE_TYPE : string := "agent.session.turn.output_text.done".
Definition DELTA_TERMINAL_TYPES : list string :=
  ["agent.session.turn.completed"; "agent.session.turn.failed"; "agent.session.turn.cancelled"]%string.
Definition DELTA_DONE_CAP : nat := 256.
Definition SECOND : Z := 1000000.
Definition DELTA_LEASE_REFRESH : Z := 30 * SECOND.

Definition relay_rate_allowed (hits : list Z) (now limit : Z) : list Z * bool :=
  let hits := drop_while (λ t, t <=? now - SECOND) hits ++ [now] in
  (hits, Z.of_nat (length hits) <=? limit).

(** The turn whose final text or end a stored event marks. *)
Definition done_turn_of (e : event_row) : option string :=
  if decide (e_type e = DELTA_DONE_TYPE ∨ e_type e ∈ DELTA_TERMINAL_TYPES)
  then text_of (jget "turn_id" (e_data e)) else None.

Definition note_delta_lease (h : hub) (now : Z) (sid worker lease tenant : uuid) : hub :=
  let done := match h_deltas h !! sid with Some k => dl_done k | None => ∅ end in
  with_deltas h (h_hits h) (<[sid := DeltaLease worker lease tenant done now]> (h_deltas h)).
Definition forget_delta (h : hub) (sid : uuid) : hub :=
  with_deltas h (delete sid (h_hits h)) (delete sid (h_deltas h)).
Definition worker_deltas (h : hub) (worker : uuid) : list uuid :=
  (filter (λ p : uuid * delta_lease, dl_worker p.2 = worker) (oitems (h_deltas h))).*1.
Definition forget_worker_deltas (h : hub) (worker : uuid) : hub :=
  let h := foldl forget_delta h (worker_deltas h worker) in
  with_inventory h (delete worker (h_inventory h)).

Definition note_done (known : delta_lease) (e : event_row) : delta_lease :=
  match done_turn_of e with
  | None => known
  | Some turn =>
      let done := if decide (DELTA_DONE_CAP ≤ size (dl_done known))%nat then ∅ else dl_done known in
      DeltaLease (dl_worker known) (dl_lease known) (dl_tenant known) ({[turn]} ∪ done) (dl_refreshed known)
  end.
Definition note_stored_events (h : hub) (sid : uuid) (bodies : list event_row) : hub :=
  match h_deltas h !! sid with
  | None => h
  | Some known => with_deltas h (h_hits h) (<[sid := foldl note_done known bodies]> (h_deltas h))
  end.

(** The text and turn of a `delta.text` payload; [None]: it does not validate. *)
Record delta_payload : Type := DeltaPayload { dp_text : string; dp_turn : option uuid }.
Inductive delta_outcome : Set :=
| DeltaDropped (reason : string)
| DeltaPublished.

Section deltas.
Context (parse_delta : list (string * json) → option delta_payload).

(** [_refresh_delta_lease]; [row] is the session row the database has now. *)
Definition refresh_delta_lease (h : hub) (now : Z) (c : connection) (sid : uuid) (row : option session_row)
    : hub * option delta_lease :=
  match row with
  | Some r =>
      match lease_id (s_lease r) with
      | Some lease =>
          if decide (worker_id (s_lease r) = Some (c_worker c) ∧ lease ∈ c_leases c) then
            let h := note_delta_lease h now sid (c_worker c) lease (s_tenant r) in
            (h, h_deltas h !! sid)
          else (h, None)
      | None => (h, None)
      end
  | None => (h, None)
  end.

Definition delta_current (now : Z) (c : connection) (k : delta_lease) : bool :=
  bool_decide (dl_worker k = c_worker c) && bool_decide (dl_lease k ∈ c_leases c)
  && negb (DELTA_LEASE_REFRESH <? now - dl_refreshed k).

(** [row] is read only when memory cannot answer. *)
Definition handle_delta (h : hub) (now : Z) (c : connection) (e : envelope) (row : option session_row)
    : hub * delta_outcome * option (uuid * list (string * json)) :=
  let sid := env_session e in
  if decide (env_type e ≠ "delta.text"%string) then (h, DeltaDropped "not_text", None)
  else match parse_delta (env_payload e) with
  | None => (h, DeltaDropped "invalid", None)
  | Some p =>
      if decide (dp_text p = ""%string) then (h, DeltaDropped "empty", None)
      else if DELTA_MAX_TEXT <? Z.of_nat (ulen (dp_text p)) then (h, DeltaDropped "oversize", None)
      else
        let '(hits, allowed) :=
          relay_rate_allowed (default [] (h_hits h !! sid)) now DELTA_RATE_LIMIT in
        let h := with_deltas h (<[sid := hits]> (h_hits h)) (h_deltas h) in
        if negb allowed then (h, DeltaDropped "rate_limited", None)
        else
          let '(h, known) :=
            match h_deltas h !! sid with
            | Some k => if delta_current now c k then (h, Some k) else refresh_delta_lease h now c sid row
            | None => refresh_delta_lease h now c sid row
            end in
          match known with
          | None => (forget_delta h sid, DeltaDropped "rejected", None)
          | Some k =>
              if match dp_turn p with Some t => bool_decide (str_of_uuid t ∈ dl_done k) | None => false end
              then (h, DeltaDropped "dropped_done", None)
              else (h, DeltaPublished,
                    Some (sid, [("delta", JStr (dp_text p));
                                ("turn_id", JStr (from_option str_of_uuid "None" (dp_turn p)))]%string))
          end
  end.
End deltas.

(** ** Connections and releases *)

(** [attach]: the frame is never sent to a replaced connection again. *)
Definition attach (h : hub) (ref : N) (c : connection) : hub :=
  let previous := h_conns h !! c_worker c in
  let h := with_conns (with_objs h (<[ref := c]> (h_objs h))) (<[c_worker c := ref]> (h_conns h)) in
  match previous with
  | Some old => if decide (old = ref) then h else update_conn h old (λ c, request_close c "takeover")
  | None => h
  end.

Definition detach (h : hub) (worker : uuid) (ref : option N) : hub * bool :=
  match h_conns h !! worker with
  | None => (h, false)
  | Some cur =>
      if match ref with Some r => bool_decide (r ≠ cur) | None => false end then (h, false)
      else
        let leases := from_option (λ c, elements (c_leases c)) [] (h_objs h !! cur) in
        let h := with_conns h (delete worker (h_conns h)) in
        let h := with_queue h (foldl forget_turns (h_queue h) leases) in
        (forget_worker_deltas h worker, true)
  end.

Definition note_inventory (h : hub) (worker : uuid) (sessions : odict uuid uuid) : hub :=
  with_inventory h (<[worker := sessions]> (h_inventory h)).

(** Every session some connected worker reports, each once, in order. *)
Definition add_new (l : list uuid) (x : uuid) : list uuid := if decide (x ∈ l) then l else l ++ [x].
Definition known_live_sessions (h : hub) : list uuid :=
  foldl (λ seen s, foldl add_new seen (okeys s)) [] (ovals (h_inventory h)).

Definition owned_sessions (d : db) (c : connection) (ids : list uuid) : list uuid :=
  if decide (ids = []) then []
  else s_id <$> filter (λ r : session_row,
         s_id r ∈ ids ∧ worker_id (s_lease r) = Some (c_worker c)
         ∧ match lease_id (s_lease r) with Some l => bool_decide (l ∈ c_leases c) | None => false end = true)
       (snd <$> map_to_list (sessions d)).

Definition RELEASE_WAIT : Z := 5 * SECOND.
Definition begin_release (h : hub) (now : Z) (sid lease : uuid) : hub :=
  let r := match h_releases h !! lease with
           | Some r => PendingRelease (rl_session r) (rl_lease r) (rl_deadline r) (rl_holders r + 1)
           | None => PendingRelease sid lease (now + RELEASE_WAIT) 1 end in
  with_releases h (<[lease := r]> (h_releases h)).
(** The release of [lease] that is noted; its waiters wake when the last holder ends it. *)
Definition end_release (h : hub) (lease : uuid) : hub :=
  match h_releases h !! lease with
  | None => h
  | Some r =>
      if 0 <? rl_holders r - 1
      then with_releases h (<[lease := PendingRelease (rl_session r) (rl_lease r) (rl_deadline r)
                                (rl_holders r - 1)]> (h_releases h))
      else with_releases h (delete lease (h_releases h))
  end.
(** The release `settle_release` waits for. *)
Definition release_in_flight (h : hub) (sid : uuid) (lease : option uuid) : option pending_release :=
  snd <$> find_row (λ p : uuid * pending_release, bool_decide (rl_session p.2 = sid)
             && match lease with Some l => bool_decide (rl_lease p.2 = l) | None => true end)
            (oitems (h_releases h)).

(** ** The commands a worker has not acked *)

Definition find_entry (q : command_queue) (lease : uuid) (ref : N) : option pending_command :=
  find_row (λ e, bool_decide (p_ref e = ref)) (queue_of q lease).

(** A queued command whose send succeeded, or raised. *)
Definition note_sent (h : hub) (now : Z) (entry : N) : hub :=
  with_queue h (mark_sent (h_queue h) now entry).
Definition note_send_failed (h : hub) (lease : uuid) (entry : N) : hub :=
  match find_entry (h_queue h) lease entry with
  | Some e => with_queue h (discard (h_queue h) e)
  | None => h
  end.
Definition drop_lease_commands (h : hub) (lease : uuid) : hub :=
  with_queue h (drop_lease (h_queue h) lease).1.

Definition enqueue (h : hub) (now : Z) (wire : list (string * json)) (c : connection)
    : hub * res exn pending_command :=
  match require_credential_isolation wire (c_run_mode c) with
  | Err e => (h, Err e)
  | Ok _ =>
      if decide (Forall (λ f, f ∈ c_features c) (command_features wire)) then
        let '(q, out) := push (h_queue h) now wire (Some (c_worker c)) in
        (with_queue h q, match out with
                         | Ok e => Ok e
                         | Err (CommandQueueFull _) => Err (api_error "capacity")
                         | Err BadWire => Err ValueExn
                         end)
      else (h, Err (api_error "unsupported_op"))
  end.

Definition hub_ack (h : hub) (lease : uuid) (id : string) : hub * bool :=
  let '(q, e) := CommandQueue.ack (h_queue h) lease id in
  (with_queue h q, bool_decide (is_Some e)).

(** ** Granting a lease (`_acquire`) *)

Section commands.
Context (cfg : fleet_settings).
Context (validate_payload : string → list (string * json) → option (list (string * json))).
Context (dump : list (string * json) → list (string * json)).
Context (valid_context : json → bool).

Definition able (h : hub) (needed : list string) (c : candidate) : bool :=
  match ca_conn c with
  | None => true
  | Some ref =>
      match h_objs h !! ref with
      | Some conn =>
          bool_decide (Forall (λ f, f ∈ c_features conn) needed)
          && (bool_decide (FEATURE_ENV_CREDENTIALS ∉ needed) || bool_decide (c_run_mode conn = "microvm"%string))
      | None => false
      end
  end.

(** A command that waits for its grant to commit. *)
Record grant : Type := Grant {
  g_ref : N; g_entry : N; g_tenant : uuid; g_sid : uuid; g_lease : uuid; g_command : uuid;
  g_worker : uuid; g_op : string; g_body : list (string * json); g_mem : Z; g_until : Z
}.

(** The worker for the row and the command it will get; [None] when no worker has room. *)
Definition plan (h : hub) (row : session_row) (op : string) (payload : payload_arg)
    (lease command : uuid) (pin : option uuid)
    : res exn (option (N * connection * list (string * json) * list (string * json) * Z)) :=
  let required := placement_for (s_environment row) in
  size ← sandbox_size_of (s_environment row);
  image ← (if decide (required = "microvm"%string)
           then i ← session_image (s_environment row); Ok (Some i) else Ok None);
  let mem := mem_mib_for_size cfg (Some size) in
  let conns := filter (λ p : N * connection,
                 match pin with Some w => bool_decide (c_worker p.2 = w) | None => true end = true) (current_conns h) in
  let candidates := local_candidates conns mem in
  let kind_live := existsb (λ c, bool_decide (required ∈ ca_accepts c)) candidates in
  if bool_decide (is_Some image) && kind_live && negb (has_image candidates required image)
  then Err (api_error "image_unavailable")
  else
    bare ← command_payload validate_payload op payload None None None;
    let needed := command_features [("op", JStr op); ("payload", JObj (dump bare))]%string in
    let ready := filter (λ c, able h needed c = true) candidates in
    let chosen := match choose ready required mem image with
                  | Some c => Some c
                  | None => choose candidates required mem image end in
    match chosen with
    | None => Ok None
    | Some c =>
        match ref ← ca_conn c; conn ← h_objs h !! ref; Some (ref, conn) with
        | None => Ok None (* without a forwarder every candidate has a connection *)
        | Some (ref, conn) =>
            body ← command_payload validate_payload op payload (Some required) image None;
            let wire := command_wire dump command (s_id row) lease op body in
            _ ← check_command_context valid_context wire;
            Ok (Some (ref, conn, wire, body, mem))
        end
    end.

(** From the session row that was read to the queued command: no other task runs. *)
Definition place (h : hub) (now : Z) (row : session_row) (op : string) (payload : payload_arg)
    (lease command : uuid) (pin : option uuid) : hub * res exn (option grant) :=
  match plan h row op payload lease command pin with
  | Err e => (h, Err e)
  | Ok None => (h, Ok None)
  | Ok (Some (ref, conn, wire, body, mem)) =>
      match enqueue h now wire conn with
      | (h, Err e) => (h, Err e)
      | (h, Ok e) =>
          (h, Ok (Some (Grant ref (p_ref e) (s_tenant row) (s_id row) lease command
                          (c_worker conn) op body mem (now + worker_lease_ttl cfg))))
      end
  end.

(** The transaction of the grant: the row, when the lease was free. *)
Definition commit_grant (d : db) (now : Z) (g : grant) : db * option session_row :=
  set_session_lease d now (g_tenant g) (g_sid g) (g_worker g) (g_lease g) (g_until g).

(** After the commit, up to the send: the frame that goes out. *)
Definition finish_grant (h : hub) (now : Z) (g : grant) (row : session_row)
    : hub * res exn (list (string * json)) :=
  let h0 := h in
  match
    if decide (g_op g ∈ CURSOR_OPS) then
      body ← command_payload validate_payload (g_op g) (Model (g_body g)) None None
               (Some (worker_seq (s_lease row)));
      let wire := command_wire dump (g_command g) (g_sid g) (g_lease g) (g_op g) body in
      Ok (with_queue h (update_entry (h_queue h) (g_entry g) (set_wire wire)), wire)
    else Ok (h, command_wire dump (g_command g) (g_sid g) (g_lease g) (g_op g) (g_body g))
  with
  | Err e => (h0, Err e)
  | Ok (h, wire) =>
      let h := update_conn h (g_ref g) (add_lease (g_lease g) (g_mem g)) in
      (note_delta_lease h now (g_sid g) (g_worker g) (g_lease g) (g_tenant g), Ok wire)
  end.
Definition refuse_grant (h : hub) (g : grant) : hub := drop_lease_commands h (g_lease g).

(** [_acquire], when no other task runs in between. *)
Definition acquire (h : hub) (d : db) (now : Z) (row : session_row) (op : string) (payload : payload_arg)
    (lease command : uuid) (pin : option uuid)
    : hub * db * res exn (option (N * list (string * json))) :=
  match place h now row op payload lease command pin with
  | (h, Err e) => (h, d, Err e)
  | (h, Ok None) => (h, d, Ok None)
  | (h, Ok (Some g)) =>
      match commit_grant d now g with
      | (d, None) => (refuse_grant h g, d, Ok None)
      | (d, Some row) =>
          match finish_grant h now g row with
          | (h, Err e) => (h, d, Err e)
          | (h, Ok wire) => (h, d, Ok (Some (g_ref g, wire)))
          end
      end
  end.

(** ** Using a lease (`_command`) *)

Definition leased (d : db) (tenant sid : uuid) : option (session_row * uuid * uuid) :=
  r ← get_session d tenant sid None; l ← lease_id (s_lease r); w ← worker_id (s_lease r);
  Some (r, w, l).

(** From the leased row that was read to the frame that goes out: the connection,
    the queued entry and the frame.  Without a forwarder a worker that is not here
    is not reached. *)
Definition send_command (h : hub) (now : Z) (read : session_row * uuid * uuid) (op : string)
    (payload : payload_arg) (command : uuid)
    : hub * res exn (option (N * pending_command * list (string * json))) :=
  let '(row, worker, lease) := read in
  match current h worker with
  | Some (ref, conn) =>
      if decide (lease ∉ c_leases conn) then (h, Ok None)
      else
        let required := placement_for (s_environment row) in
        let h := note_delta_lease h now (s_id row) worker lease (s_tenant row) in
        match
          image ← (if decide (required = "microvm"%string) then
                     i ← session_image (s_environment row);
                     if decide (i ∈ c_images conn) then Ok (Some i)
                     else Err (api_error "image_unavailable")
                   else Ok None);
          body ← command_payload validate_payload op payload (Some required) image
                   (Some (worker_seq (s_lease row)));
          let wire := command_wire dump command (s_id row) lease op body in
          _ ← check_command_context valid_context wire;
          Ok wire
        with
        | Err e => (h, Err e)
        | Ok wire =>
            match enqueue h now wire conn with
            | (h, Err e) => (h, Err e)
            | (h, Ok e) => (h, Ok (Some (ref, e, wire)))
            end
        end
  | None => (h, Ok None)
  end.
End commands.

(** ** The end of a lease *)

Inductive revoke : Type := Revoke (ref : N) (sid lease : uuid).

(** The worker that holds [lease] forgets it: `conn.leases.discard`, `lease_mem.pop`. *)
Definition end_worker_lease (h : hub) (worker : option uuid) (lease : uuid) : hub :=
  match w ← worker; current h w with
  | Some (ref, _) => update_conn h ref (end_lease lease)
  | None => h
  end.

(** [release]: the row is read and cleared in one transaction. *)
Definition release_lease (h : hub) (d : db) (now : Z) (tenant sid lease : uuid) : hub * db :=
  let h := drop_lease_commands h lease in
  match get_session d tenant sid None with
  | None => (forget_delta h sid, d)
  | Some r =>
      if decide (lease_id (s_lease r) ≠ Some lease) then (h, d)
      else
        let '(d, _) := clear_session_lease d now tenant sid in
        (end_worker_lease (forget_delta h sid) (worker_id (s_lease r)) lease, d)
  end.

Definition end_lease_local (h : hub) (sid worker lease : uuid) : hub :=
  end_worker_lease (forget_delta (drop_lease_commands h lease) sid) (Some worker) lease.

Section ends.
Context (classify_host_message : string → failure).
Context (session_model : db → session_row → option string).

Definition error_event (code message : string) : list (string * json) :=
  session_error_data (failure_for classify_host_message code message) "legacy".

(** *** Expiry *)

Record cleared : Type := Cleared {
  cl_session : uuid; cl_tenant : uuid; cl_worker : option uuid; cl_lease : option uuid
}.
Definition cleared_of (r : session_row) : cleared :=
  Cleared (s_id r) (s_tenant r) (worker_id (s_lease r)) (lease_id (s_lease r)).

Definition expire_row (now : Z) (eid : uuid → uuid) (acc : res exn (db * list publication)) (r : session_row)
    : res exn (db * list publication) :=
  '(d, ps) ← acc;
  let '(d, _) := clear_session_lease d now (s_tenant r) (s_id r) in
  '(d, p) ← persist_event d now (eid (s_id r)) (s_tenant r) (s_id r) "agent.session.error"
              (error_event "worker_lease_expired" "Worker lease expired");
  Ok (d, ps ++ p).
(** One transaction: the rows cleared, the events stored. *)
Definition expire_rows (d : db) (now : Z) (eid : uuid → uuid)
    : res exn (db * list publication * list cleared) :=
  let rows := list_expired_leases d now in
  '(d, ps) ← foldl (expire_row now eid) (Ok (d, [])) rows;
  Ok (d, ps, cleared_of <$> rows).

(** What the replica forgets, and whom it tells. *)
Definition expire_one (acc : hub * list revoke) (c : cleared) : hub * list revoke :=
  let '(h, out) := acc in
  let h := forget_delta h (cl_session c) in
  match cl_lease c with
  | None => (h, out)
  | Some lease =>
      let h := drop_lease_commands h lease in
      match w ← cl_worker c; current h w with
      | Some (ref, _) => (update_conn h ref (end_lease lease), out ++ [Revoke ref (cl_session c) lease])
      | None => (h, out)
      end
  end.
Definition expire_memory (h : hub) (l : list cleared) : hub * list revoke := foldl expire_one (h, []) l.

(** `_end_expired_turn`: a failure rolls its own transaction back and is logged. *)
Definition end_expired_turn (now : Z) (e1 e2 e3 : uuid → uuid) (acc : db * list publication) (c : cleared)
    : db * list publication :=
  let '(d, ps) := acc in
  match fail_stale_in_progress classify_host_message session_model d now
          (e1 (cl_session c)) (e2 (cl_session c)) (e3 (cl_session c)) (cl_tenant c) (cl_session c)
          "Turn interrupted" with
  | Ok (d', p) => (d', ps ++ p)
  | Err _ => (d, ps)
  end.
Definition end_expired_turns (d : db) (now : Z) (e1 e2 e3 : uuid → uuid) (l : list cleared)
    : db * list publication := foldl (end_expired_turn now e1 e2 e3) (d, []) l.

(** [expire], when no other task runs in between. *)
Definition expire (h : hub) (d : db) (now : Z) (e0 e1 e2 e3 : uuid → uuid)
    : hub * res exn (db * list publication * list revoke * list uuid) :=
  match expire_rows d now e0 with
  | Err e => (h, Err e)
  | Ok (d, ps, l) =>
      let '(h, out) := expire_memory h l in
      let '(d, ps') := end_expired_turns d now e1 e2 e3 l in
      (h, Ok (d, ps ++ ps', out, cl_session <$> l))
  end.

(** *** A command nobody acked *)

Definition expire_command (h : hub) (d : db) (now : Z) (e0 e1 e2 e3 : uuid) (e : pending_command)
    : hub * res exn (db * list publication * list revoke) :=
  let h := drop_lease_commands h (p_lease e) in
  match get_session_by_lease d (p_lease e) with
  | None => (h, Ok (d, [], []))
  | Some r =>
      let tenant := s_tenant r in
      match
        let '(d, _) := clear_session_lease d now tenant (s_id r) in
        '(d, p1) ← persist_event d now e0 tenant (s_id r) "agent.session.error"
                     (error_event "worker_command_timeout" "The worker did not acknowledge a command");
        '(d, p2) ← fail_stale_in_progress classify_host_message session_model d now e1 e2 e3 tenant
                     (s_id r) "Turn interrupted";
        Ok (d, p1 ++ p2)
      with
      | Err x => (h, Err x)
      | Ok (d, ps) =>
          let h := forget_delta h (p_session e) in
          match w ← p_worker e; current h w with
          | Some (ref, _) =>
              (update_conn h ref (end_lease (p_lease e)), Ok (d, ps, [Revoke ref (p_session e) (p_lease e)]))
          | None => (h, Ok (d, ps, []))
          end
      end
  end.
End ends.

(** The leases whose commands `retransmit_due` ages out, each once, and the frames
    it sends again: those of the other leases that are due, while the worker that
    holds them is connected. *)
Definition aged_leases (q : command_queue) (now ttl : Z) : list pending_command :=
  foldl (λ acc e, if decide (p_lease e ∈ p_lease <$> acc) then acc else acc ++ [e])
    [] (CommandQueue.expired q now ttl).
Definition COMMAND_RETRANSMIT : Z := 5 * SECOND.
Definition due_frames (h : hub) (now : Z) (failed : list uuid) : list (N * pending_command) :=
  omap (λ e, if decide (p_lease e ∈ failed) then None
             else w ← p_worker e; '(ref, c) ← current h w;
                  if decide (p_lease e ∈ c_leases c) then Some (ref, e) else None)
    (CommandQueue.due (h_queue h) now COMMAND_RETRANSMIT).
(** What a reconnect sends again, for the leases in the order of the set. *)
Definition resend_frames (h : hub) (c : connection) : list pending_command :=
  mjoin (for_lease (h_queue h) <$> elements (c_leases c)).

(** ** A reconnect (`restore_leases`) *)

Section restore.
Context (cfg : fleet_settings).

(** A row the worker gets back: it still holds the lease, and claims it, claims
    nothing at all, or was sent a command on it that it has not acked. *)
Definition reattached (q : command_queue) (claimed : gmap uuid uuid) (r : session_row) : option uuid :=
  lease ← lease_id (s_lease r);
  if decide (claimed ≠ ∅ ∧ claimed !! s_id r ≠ Some lease) then
    if has_lease q lease then Some lease else None
  else Some lease.

(** The cursors the worker continues from, and the leases to renew. *)
Definition restore_row (now : Z) (ref : N) (worker : uuid) (claimed : gmap uuid uuid)
    (acc : hub * res exn (odict uuid Z * list uuid)) (r : session_row)
    : hub * res exn (odict uuid Z * list uuid) :=
  match acc with
  | (h, Err e) => (h, Err e)
  | (h, Ok (cursors, renewed)) =>
      match reattached (h_queue h) claimed r with
      | None => (h, Ok (cursors, renewed))
      | Some lease =>
          match sandbox_size_of (s_environment r) with
          | Err e => (update_conn h ref (λ c, set_leases c ({[lease]} ∪ c_leases c) (c_lease_mem c)), Err e)
          | Ok size =>
              let h := update_conn h ref (add_lease lease (mem_mib_for_size cfg (Some size))) in
              let h := note_delta_lease h now (s_id r) worker lease (s_tenant r) in
              (h, Ok (<[s_id r := worker_seq (s_lease r)]> cursors, renewed ++ [lease]))
          end
      end
  end.
Definition restore_memory (h : hub) (now : Z) (ref : N) (worker : uuid) (claimed : gmap uuid uuid)
    (rows : list session_row) : hub * res exn (odict uuid Z * list uuid) :=
  foldl (restore_row now ref worker claimed) (h, Ok (∅, [])) rows.

Definition restore_leases (h : hub) (d : db) (now : Z) (ref : N) (worker : uuid)
    (claimed : gmap uuid uuid) : hub * res exn (db * odict uuid Z) :=
  match restore_memory h now ref worker claimed (list_worker_leases d worker) with
  | (h, Err e) => (h, Err e)
  | (h, Ok (cursors, [])) => (h, Ok (d, cursors))
  | (h, Ok (cursors, renewed)) =>
      let '(d, _) := renew_session_leases d now worker renewed (now + worker_lease_ttl cfg) in
      (update_conn h ref (λ c, set_renewed c now), Ok (d, cursors))
  end.

Definition MAX_HEARTBEAT : Z := 10 * SECOND.
Definition MIN_HEARTBEAT : Z := 50000.
(** In whole microseconds. *)
Definition heartbeat_interval : Z :=
  Z.min MAX_HEARTBEAT (Z.max (worker_lease_ttl cfg / 3) MIN_HEARTBEAT).

(** [stored]: the generation of the worker's row. *)
Definition renew_on_activity (h : hub) (d : db) (now : Z) (ref : N) (stored : option Z) : hub * db :=
  match h_objs h !! ref with
  | Some c =>
      if now - c_last_renewed c <? heartbeat_interval then (h, d)
      else (update_conn h ref (λ c, set_renewed c now),
            extend_worker_leases d now (c_worker c) (now + worker_lease_ttl cfg)
              (Some (c_generation c, stored)))
  | None => (h, d)
  end.
End restore.

(** ** Inventory (workerhub/inventory.py) *)

Record revoke_entry : Type := RevokeEntry { rv_session : uuid; rv_lease : option uuid }.

Section inventory.
Context (classify_host_message : string → failure).
Context (session_model : db → session_row → option string).

(** The hub, the transaction so far, the `lease.revoke` entries and the rows that
    get a TTL answer.  What the hub forgets it forgets at once, also when the
    transaction fails later. *)
Record reconciling : Type := Reconciling {
  rc_hub : hub; rc_db : res exn (db * list publication);
  rc_revoke : list revoke_entry; rc_ttl : odict uuid session_row
}.

Definition orphan_row (now : Z) (e0 e1 e2 e3 : uuid → uuid) (ref : option N)
    (s : reconciling) (r : session_row) : reconciling :=
  match
    '(d, ps) ← rc_db s;
    '(d, p1) ← persist_event d now (e0 (s_id r)) (s_tenant r) (s_id r) "agent.session.error"
                 (error_event classify_host_message "worker_orphaned" "Worker lease orphaned");
    let '(d, _) := clear_session_lease d now (s_tenant r) (s_id r) in
    '(d, p2) ← fail_stale_in_progress classify_host_message session_model d now
                 (e1 (s_id r)) (e2 (s_id r)) (e3 (s_id r)) (s_tenant r) (s_id r) "Turn interrupted";
    Ok (d, ps ++ p1 ++ p2)
  with
  | Err x => Reconciling (rc_hub s) (Err x) (rc_revoke s) (rc_ttl s)
  | Ok out =>
      let h := forget_delta (rc_hub s) (s_id r) in
      (* `row` is the object that `clear_session_lease` changed *)
      let left := match sessions out.1 !! s_id r with
                  | Some row => lease_id (s_lease row) | None => lease_id (s_lease r) end in
      let h := match left with
               | Some lease => with_queue h (forget_turns (h_queue h) lease) | None => h end in
      let h := match ref, left with
               | Some ref, Some lease => update_conn h ref (end_lease lease) | _, _ => h end in
      Reconciling h (Ok out) (rc_revoke s) (rc_ttl s)
  end.

Definition reconcile_row (now : Z) (e0 e1 e2 e3 : uuid → uuid) (ref : option N)
    (reported : odict uuid uuid) (orphan_missing : bool) (s : reconciling) (r : session_row) : reconciling :=
  match lease_id (s_lease r), rc_db s with
  | Some lease, Ok _ =>
      match reported !! s_id r with
      | Some l =>
          if decide (l = lease)
          then Reconciling (rc_hub s) (rc_db s) (rc_revoke s) (<[s_id r := r]> (rc_ttl s))
          else Reconciling (rc_hub s) (rc_db s) (rc_revoke s ++ [RevokeEntry (s_id r) (Some l)]) (rc_ttl s)
      | None =>
          if negb orphan_missing || has_lease (h_queue (rc_hub s)) lease then s
          else orphan_row now e0 e1 e2 e3 ref s r
      end
  | _, _ => s
  end.

(** Reported sessions without a lease here. *)
Definition unleased_revokes (leased : list session_row) (reported : odict uuid uuid) : list revoke_entry :=
  omap (λ p : uuid * uuid, if decide (p.1 ∈ s_id <$> leased) then None
                           else Some (RevokeEntry p.1 (Some p.2))) (oitems reported).

(** On-disk workspaces without a lease: the live rows get a TTL, the others a wipe. *)
Definition workspace (d : db) (leased : list session_row) (found : gmap uuid session_row) (reported : odict uuid uuid)
    (acc : list revoke_entry * odict uuid session_row) (sid : uuid)
    : list revoke_entry * odict uuid session_row :=
  let '(revokes, ttl) := acc in
  if decide (is_Some (reported !! sid) ∨ is_Some (ttl !! sid)) then acc
  else
    (* a leased row is the object the transaction changed *)
    match (if decide (sid ∈ s_id <$> leased) then sessions d !! sid else found !! sid) with
    | Some r => (revokes, <[sid := r]> ttl)
    | None => (revokes ++ [RevokeEntry sid None], ttl)
    end.

Definition reconcile_inventory (h : hub) (d : db) (now : Z) (e0 e1 e2 e3 : uuid → uuid) (worker : uuid)
    (reported : odict uuid uuid) (unleased : list uuid) (conn : option N) (orphan_missing : bool)
    : hub * res exn (db * list publication * list revoke_entry * odict uuid session_row) :=
  let ref := match conn with Some r => Some r | None => h_conns h !! worker end in
  let h := note_inventory h worker reported in
  let leased := filter (λ r, lease_id (s_lease r) ≠ None) (list_worker_leases d worker) in
  let s := foldl (reconcile_row now e0 e1 e2 e3 ref reported orphan_missing)
             (Reconciling h (Ok (d, [])) [] ∅) leased in
  match rc_db s with
  | Err x => (rc_hub s, Err x)
  | Ok (d, ps) =>
      let revokes := rc_revoke s ++ unleased_revokes leased reported in
      let ids := foldl add_new [] unleased in
      let pending := filter (λ sid, reported !! sid = None ∧ rc_ttl s !! sid = None
                               ∧ sid ∉ s_id <$> leased) ids in
      let found := get_sessions_by_ids d (list_to_set pending) in
      let '(revokes, ttl) := foldl (workspace d leased found reported) (revokes, rc_ttl s) ids in
      (rc_hub s, Ok (d, ps, revokes, ttl))
  end.
End inventory.
