(* ===== verification/HubProps.v ===== *)
(** * What each hub operation keeps

    The invariant that ties the leases a connection holds, the queued commands and
    the delta leases to the grants the database made, and the lemmas that every
    part of every operation of [Hub] keeps it, and what the transactions do to the
    lease columns. *)

From S2P Require Import Prelude PyStd Protocol CommandQueue Db Fleet Commands Sandbox Usage Accounting IngestSpec TurnState Hub.

Open Scope Z_scope.

(** ** What the queue operations do to the entries *)

Definition queue_all (P : pending_command → Prop) (q : command_queue) : Prop :=
  ∀ lease e, e ∈ queue_of q lease → p_lease e = lease ∧ P e.

Lemma remove_first_subset e x l : x ∈ remove_first e l → x ∈ l.
Proof.
  induction l as [|y l IH]; [done|]. cbn. destruct (same_entry e y); [by right|].
  intros [->|Hx]%elem_of_cons; [by left|right; auto].
Qed.

(** [q'] has only entries of [q]. *)
Definition queue_sub (q q' : command_queue) : Prop :=
  next_ref q' = next_ref q ∧ (odict_ok (by_lease q) → odict_ok (by_lease q'))
  ∧ ∀ lease e, e ∈ queue_of q' lease → e ∈ queue_of q lease.
#[global] Instance queue_sub_preorder : PreOrder queue_sub.
Proof.
  split; [by intros q|]. intros q1 q2 q3 (N12 & O12 & H12) (N23 & O23 & H23).
  split_and!; [congruence|auto|auto].
Qed.
Lemma put_sub q lease l :
  (∀ x, x ∈ l → x ∈ queue_of q lease) → queue_sub q (put_queue q lease l).
Proof.
  intros Hl. split_and!; [done|apply odict_ok_insert|]. intros lease' x. rewrite queue_of_put.
  destruct (decide (lease = lease')) as [<-|]; [apply Hl|done].
Qed.
Lemma discard_sub q e : queue_sub q (discard q e).
Proof.
  unfold discard. destruct (by_lease q !! p_lease e) as [l|] eqn:E; [|done].
  assert (∀ l', (∀ x, x ∈ l' → x ∈ l) → queue_sub q (put_queue q (p_lease e) l')) as Hput.
  { intros l' Hl'. apply put_sub. intros x Hx%Hl'. unfold queue_of. by rewrite E. }
  pose proof (λ x, remove_first_subset e x l) as Hsub.
  destruct (remove_first e l) as [|y l']; [|by apply Hput].
  split_and!; [done|apply odict_ok_delete|]. intros lease x. unfold queue_of at 1. cbn [by_lease]. rewrite olookup_delete.
  case_decide; [by intros ?%elem_of_nil|done].
Qed.
Lemma drop_sub q lease : queue_sub q (drop_lease q lease).1.
Proof.
  split_and!; [done|apply odict_ok_delete|]. intros lease' x. unfold queue_of at 1, drop_lease. cbn [fst by_lease].
  rewrite olookup_delete. case_decide; [by intros ?%elem_of_nil|done].
Qed.
Lemma forget_sub q lease : queue_sub q (forget_turns q lease).
Proof. unfold forget_turns. by destruct (has_lease q lease). Qed.
Lemma forget_fold_sub q l : queue_sub q (foldl forget_turns q l).
Proof. revert q. induction l as [|x l IH]; intros q; [done|]. etrans; [apply forget_sub|apply IH]. Qed.
Lemma ack_sub q lease id : queue_sub q (CommandQueue.ack q lease id).1.
Proof. unfold CommandQueue.ack. destruct (get q lease id); [apply discard_sub|done]. Qed.

(** Entries keep their object, lease and session; new ones get new objects. *)
Definition same_object (a b : pending_command) : Prop :=
  p_ref a = p_ref b ∧ p_lease a = p_lease b ∧ p_session a = p_session b.
Definition queue_le (q q' : command_queue) : Prop :=
  (next_ref q ≤ next_ref q')%N ∧ (odict_ok (by_lease q) → odict_ok (by_lease q')) ∧
  ∀ lease e', e' ∈ queue_of q' lease →
    (∃ e, e ∈ queue_of q lease ∧ same_object e e') ∨ (next_ref q ≤ p_ref e' < next_ref q')%N.
#[global] Instance queue_le_preorder : PreOrder queue_le.
Proof.
  split; [intros q; split_and!; [done|done|]; left; by exists e'|].
  intros q1 q2 q3 (L12 & O12 & H12) (L23 & O23 & H23). split_and!; [lia|auto|]. intros lease e3 He3.
  destruct (H23 lease e3 He3) as [(e2 & He2 & E2)|?]; [|right; lia].
  destruct (H12 lease e2 He2) as [(e1 & He1 & E1)|?].
  - left. exists e1. split; [done|]. unfold same_object in *. intuition congruence.
  - right. destruct E2 as [<- _]. lia.
Qed.
Lemma queue_sub_le q q' : queue_sub q q' → queue_le q q'.
Proof. intros (Hn & Ho & H). split_and!; [by rewrite Hn|done|]. intros lease e He. left. exists e. by split; [apply H|]. Qed.

Lemma queue_of_update q ref f lease :
  queue_of (update_entry q ref f) lease = at_ref ref f <$> queue_of q lease.
Proof.
  unfold queue_of, update_entry, lookup, odict_lookup. cbn [by_lease oitems].
  rewrite lget_fmap. by destruct (lget _ _).
Qed.
Lemma update_le q ref f : (∀ e, same_object e (f e)) → queue_le q (update_entry q ref f).
Proof.
  intros Hf. split_and!; [done| |].
  { unfold odict_ok, okeys, update_entry. cbn [by_lease oitems]. by rewrite fmap_keys. }
  intros lease e'. rewrite queue_of_update. intros (e & -> & He)%list_elem_of_fmap. left. exists e. split; [done|]. unfold at_ref. by case_decide.
Qed.
Lemma push_le q now wire worker : queue_le q (push q now wire worker).1.
Proof.
  unfold push. destruct (wire_uuid wire "lease_id") as [lease|]; [|done].
  assert (queue_sub q (put_queue q lease (queue_of q lease))) as H0.
  { by apply put_sub. }
  destruct (decide _); [by apply queue_sub_le|].
  destruct (wire_uuid wire "session_id") as [sid|]; [|by apply queue_sub_le].
  split_and!; [cbn; lia|intros Ho; by apply odict_ok_insert, odict_ok_insert|]. intros lease' e. unfold queue_of at 1. cbn [fst by_lease]. rewrite olookup_insert.
  destruct (decide (lease = lease')) as [<-|Hne]; cbn [default].
  - intros [Hin|Hin%list_elem_of_singleton]%elem_of_app; [left; by exists e|right; subst e; cbn; lia].
  - change (default [] _) with (queue_of (put_queue q lease (queue_of q lease)) lease').
    intros Hin%(proj2 (proj2 H0)). left. by exists e.
Qed.

(** The entry a push adds is a new object, and the only one it adds. *)
Lemma push_new q now wire worker q' e :
  push q now wire worker = (q', Ok e) →
  p_ref e = next_ref q ∧ next_ref q' = (next_ref q + 1)%N
  ∧ ∀ lease x, x ∈ queue_of q' lease → x = e ∨ x ∈ queue_of q lease.
Proof.
  unfold push. destruct (wire_uuid wire "lease_id") as [lease|]; [|done].
  destruct (decide _); [done|]. destruct (wire_uuid wire "session_id") as [sid|]; [|done].
  intros [= <- <-]. split_and!; [done|done|]. intros lease' x. unfold queue_of at 1. cbn [by_lease].
  rewrite olookup_insert. destruct (decide (lease = lease')) as [<-|Hne]; cbn [default].
  - intros [Hin|Hin%list_elem_of_singleton]%elem_of_app; [by right|by left].
  - change (default [] _) with (queue_of (put_queue q lease (queue_of q lease)) lease').
    rewrite queue_of_put, decide_False by done. by right.
Qed.

Section queue.
Context (P : pending_command → Prop).
Implicit Types q : command_queue.

Lemma queue_all_weaken (R : pending_command → Prop) q :
  (∀ e, P e → R e) → queue_all P q → queue_all R q.
Proof. intros H HP lease e He. destruct (HP lease e He). split; auto. Qed.
Lemma queue_all_sub q q' : queue_sub q q' → queue_all P q → queue_all P q'.
Proof. intros (_ & _ & H) HP lease e He. by apply HP, H. Qed.
Lemma update_all q ref f :
  (∀ e, p_ref e = ref → P e → p_lease (f e) = p_lease e ∧ P (f e)) →
  queue_all P q → queue_all P (update_entry q ref f).
Proof.
  intros Hf HP lease e. rewrite queue_of_update. intros (x & -> & Hx)%list_elem_of_fmap.
  destruct (HP lease x Hx) as [Hl Hx']. unfold at_ref. case_decide; [|done].
  destruct (Hf x) as [-> ?]; done.
Qed.

Lemma push_all q now wire worker :
  queue_all P q →
  match push q now wire worker with
  | (q', Ok e) => P e → queue_all P q'
  | (q', Err _) => queue_all P q'
  end.
Proof.
  intros HP. unfold push. destruct (wire_uuid wire "lease_id") as [lease|]; [|done].
  assert (queue_all P (put_queue q lease (queue_of q lease))) as H0.
  { apply (queue_all_sub q); [|exact HP]. by apply put_sub. }
  destruct (decide _); [done|]. destruct (wire_uuid wire "session_id") as [sid|]; [|done].
  intros He lease' e. unfold queue_of at 1. cbn [by_lease]. rewrite olookup_insert.
  destruct (decide (lease = lease')) as [<-|Hne]; cbn [default].
  - intros [Hin|Hin%list_elem_of_singleton]%elem_of_app; [by apply HP|by subst e].
  - change (default [] _) with (queue_of (put_queue q lease (queue_of q lease)) lease'). apply H0.
Qed.
End queue.

(** ** What the transactions do to the leases *)

(** No row gains or changes a lease; rows may lose theirs. *)
Definition lease_le (d d' : db) : Prop :=
  keyed d → keyed d' ∧
  ∀ sid r', sessions d' !! sid = Some r' → lease_id (s_lease r') = None
    ∨ ∃ r, sessions d !! sid = Some r
       ∧ lease_id (s_lease r') = lease_id (s_lease r) ∧ worker_id (s_lease r') = worker_id (s_lease r).

(** The row of [sid] says that [worker] has it under [lease]. *)
Definition leased_row (d : db) (lease worker sid : uuid) : Prop :=
  ∃ r, sessions d !! sid = Some r ∧ lease_id (s_lease r) = Some lease ∧ worker_id (s_lease r) = Some worker.

#[global] Instance lease_le_preorder : PreOrder lease_le.
Proof.
  split.
  - intros d Hk. split; [done|]. right. eauto.
  - intros d1 d2 d3 H12 H23 Hk. destruct (H12 Hk) as [Hk2 H1]. destruct (H23 Hk2) as [Hk3 H2].
    split; [done|]. intros sid r3 H3. destruct (H2 sid r3 H3) as [?|(r2 & Hr2 & -> & ->)]; [by left|].
    by apply H1.
Qed.

Lemma lease_le_same d d' : sessions d' = sessions d → lease_le d d'.
Proof. intros Hs Hk. unfold keyed. rewrite Hs. split; [done|]. right. eauto. Qed.

Lemma lease_le_put d r r' :
  sessions d !! s_id r = Some r → s_id r' = s_id r →
  (lease_id (s_lease r') = None ∨ s_lease r' = s_lease r) → lease_le d (put_row d r').
Proof.
  intros Hr Hid Hl Hk. split.
  - intros sid x. cbn. intros [[<- <-]|[_ Hx]]%lookup_insert_Some; [done|by apply Hk].
  - intros sid x. cbn. intros [[<- <-]|[_ Hx]]%lookup_insert_Some; [|right; eauto].
    destruct Hl as [?|Hl]; [by left|]. right. exists r. by rewrite Hid, Hl.
Qed.

(** A transaction that leaves every lease as it was, and the row that holds it. *)
Definition lease_cell (r : session_row) : uuid * lease_cols := (s_tenant r, s_lease r).
Definition cell (d : db) (sid : uuid) : option (uuid * lease_cols) := lease_cell <$> sessions d !! sid.
Definition lease_same (d d' : db) : Prop := keyed d → keyed d' ∧ ∀ sid, cell d' sid = cell d sid.

#[global] Instance lease_same_preorder : PreOrder lease_same.
Proof.
  split; [by intros d Hk|]. intros d1 d2 d3 H12 H23 Hk. destruct (H12 Hk) as [Hk2 H1].
  destruct (H23 Hk2) as [Hk3 H2]. split; [done|]. intros sid. by rewrite H2.
Qed.
Lemma lease_same_sessions d d' : sessions d' = sessions d → lease_same d d'.
Proof. intros Hs Hk. unfold keyed, cell. by rewrite Hs. Qed.
Lemma lease_same_le d d' : lease_same d d' → lease_le d d'.
Proof.
  intros H Hk. destruct (H Hk) as [Hk' Hc]. split; [done|]. intros sid r' Hr'. right.
  pose proof (Hc sid) as Hs. unfold cell in Hs. rewrite Hr' in Hs. destruct (sessions d !! sid) as [r|]; [|done].
  injection Hs as _ Hl. exists r. by rewrite Hl.
Qed.

Lemma lease_same_update d now tenant sid user c d' o :
  update_session d now tenant sid user c = Ok (d', o) → lease_same d d'.
Proof.
  intros Hu Hk. unfold update_session in Hu. destruct (get_session d tenant sid user) as [r|] eqn:Hg.
  - apply get_session_ids in Hg as [_ Hr]. case_decide; [|done]. injection Hu as <- _.
    pose proof (Hk _ _ Hr) as Hid. split.
    + intros s x. cbn. intros [[<- <-]|[_ Hx]]%lookup_insert_Some; [done|by apply Hk].
    + intros s. unfold cell, put_row. cbn [sessions with_sessions set_session s_id]. rewrite Hid.
      destruct (decide (sid = s)) as [<-|]; [|by rewrite lookup_insert_ne]. by rewrite lookup_insert_eq, Hr.
  - by injection Hu as <- _.
Qed.
Lemma lease_same_persist d now eid tenant sid type data d' p :
  persist_event d now eid tenant sid type data = Ok (d', p) → lease_same d d'.
Proof.
  unfold persist_event, append_event. repeat case_decide; try (by intros [= <- _]).
  all: destruct (get_session d tenant sid None); cbn [mbind res_bind]; [|done];
    try case_decide; cbn [mbind res_bind]; try done; intros [= <- _]; by apply lease_same_sessions.
Qed.
Lemma lease_le_persist d now eid tenant sid type data d' p :
  persist_event d now eid tenant sid type data = Ok (d', p) → lease_le d d'.
Proof. intros H. by eapply lease_same_le, lease_same_persist. Qed.
Lemma lease_le_clear d now tenant sid : keyed d → lease_le d (clear_session_lease d now tenant sid).1.
Proof.
  intros Hk. unfold clear_session_lease. destruct (get_session d tenant sid None) as [r|] eqn:Hg; [|done].
  apply get_session_ids in Hg as [_ Hr]. apply (lease_le_put d r); [by rewrite (Hk _ _ Hr)|done|by left].
Qed.

Section stale.
Context (classify_host_message : string → failure).
Context (session_model : db → session_row → option string).

Lemma lease_same_log d now store tenant sid turn s d' :
  write_turn_log session_model d now store tenant sid turn s = Ok d' → lease_same d d'.
Proof.
  unfold write_turn_log. destruct (get_session_turn d tenant sid turn) as [t|]; [|by intros [= <-]].
  destruct (search_usage_for_turn _ _ _) as [[calls units] search]. cbv zeta.
  destruct store; [destruct (append_turn_log _ _); cbn [mbind res_bind]; [|done]| |];
    intros [= <-]; by apply lease_same_sessions.
Qed.
Lemma lease_same_idle d now eid tenant sid d' ps :
  session_idle d now eid tenant sid = Ok (d', ps) → lease_same d d'.
Proof.
  unfold session_idle. destruct (update_session _ _ _ _ _ _) as [[d1 o]|] eqn:Hu;
    cbn [mbind res_bind]; [|done].
  intros Hp. etrans; [by eapply lease_same_update|by eapply lease_same_persist].
Qed.
Lemma lease_same_fail_turn d now e1 e2 e3 tenant sid tid message code d' ps :
  fail_turn_in_db classify_host_message session_model d now e1 e2 e3 tenant sid tid message code
  = Ok (d', ps) → lease_same d d'.
Proof.
  unfold fail_turn_in_db.
  set (d1 := match get_session_turn d tenant sid tid with Some _ => _ | None => d end).
  assert (lease_same d d1) as H1.
  { unfold d1. destruct (get_session_turn d tenant sid tid); [by apply lease_same_sessions|done]. }
  destruct (tool_mcp_for_turn d1 tenant sid tid) as [[[? ?] ?] ?].
  destruct (usage_from None); cbn [mbind res_bind]; [|done].
  destruct (write_turn_log _ _ _ _ _ _ _ _) as [d2|] eqn:H2; cbn [mbind res_bind]; [|done].
  destruct (persist_event d2 _ _ _ _ _ _) as [[d3 p1]|] eqn:H3; cbn [mbind res_bind]; [|done].
  destruct (persist_event d3 _ _ _ _ _ _) as [[d4 p2]|] eqn:H4; cbn [mbind res_bind]; [|done].
  destruct (session_idle d4 _ _ _ _) as [[d5 p3]|] eqn:H5; cbn [mbind res_bind]; [|done].
  intros [= <- _]. apply lease_same_log in H2. apply lease_same_persist in H3, H4.
  apply lease_same_idle in H5. by rewrite H1, H2, H3, H4.
Qed.
Lemma lease_same_fail_stale d now e1 e2 e3 tenant sid message d' ps :
  fail_stale_in_progress classify_host_message session_model d now e1 e2 e3 tenant sid message
  = Ok (d', ps) → lease_same d d'.
Proof.
  unfold fail_stale_in_progress.
  destruct (get_session d tenant sid None) as [r|]; [|by intros [= <- _]].
  destruct (negb (stale_status r) || _); [by intros [= <- _]|].
  destruct (head _); [apply lease_same_fail_turn|apply lease_same_idle].
Qed.
Lemma lease_le_fail_stale d now e1 e2 e3 tenant sid message d' ps :
  fail_stale_in_progress classify_host_message session_model d now e1 e2 e3 tenant sid message
  = Ok (d', ps) → lease_le d d'.
Proof. intros H. by eapply lease_same_le, lease_same_fail_stale. Qed.
Lemma lease_le_expire_row now eid d ps r d' ps' :
  keyed d → expire_row classify_host_message now eid (Ok (d, ps)) r = Ok (d', ps') → lease_le d d'.
Proof.
  intros Hk. unfold expire_row. cbn [mbind res_bind].
  pose proof (lease_le_clear d now (s_tenant r) (s_id r) Hk) as H1.
  destruct (clear_session_lease d now (s_tenant r) (s_id r)) as [d1 o]. cbn [fst] in H1.
  destruct (persist_event d1 _ _ _ _ _ _) as [[d2 p]|] eqn:H2; cbn [mbind res_bind]; [|done].
  intros [= <- _]. apply lease_le_persist in H2. by etrans.
Qed.
Lemma expire_rows_err now eid rows e : foldl (expire_row classify_host_message now eid) (Err e) rows = Err e.
Proof. by induction rows. Qed.
Lemma lease_le_expire d now eid d' ps l :
  keyed d → expire_rows classify_host_message d now eid = Ok (d', ps, l) →
  lease_le d d' ∧ l = cleared_of <$> list_expired_leases d now.
Proof.
  intros Hk. unfold expire_rows. set (rows := list_expired_leases d now).
  assert (∀ d0 ps0 d1 ps1, keyed d0 → foldl (expire_row classify_host_message now eid) (Ok (d0, ps0)) rows = Ok (d1, ps1) →
    lease_le d0 d1) as H.
  { induction rows as [|r rows IH]; intros d0 ps0 d1 ps1 Hk0; [by intros [= <- _]|]. cbn [foldl].
    destruct (expire_row classify_host_message now eid (Ok (d0, ps0)) r) as [[d2 ps2]|] eqn:H2;
      [|by rewrite expire_rows_err].
    apply lease_le_expire_row in H2; [|done]. intros H3. etrans; [exact H2|].
    eapply IH; [by apply H2|exact H3]. }
  destruct (foldl _ _ rows) as [[d1 ps1]|] eqn:E; cbn [mbind res_bind]; [|done].
  intros [= <- _ <-]. split; [|done]. by eapply H.
Qed.
End stale.

Lemma lease_le_map d (P : session_row → bool) until now :
  lease_le d (with_sessions d ((λ r, if P r then extend_lease until now r else r) <$> sessions d)).
Proof.
  intros Hk. split.
  - intros sid x. cbn. rewrite lookup_fmap. intros (r & Hr & ->)%fmap_Some.
    rewrite <- (Hk _ _ Hr). by destruct (P r).
  - intros sid x. cbn. rewrite lookup_fmap. intros (r & Hr & ->)%fmap_Some. right. exists r.
    split; [done|]. by destruct (P r).
Qed.

(** ** The invariant of a replica's memory

    [placed] maps a lease id to the worker and session it was made up for, and
    [granted] the ones the database granted. *)

Abbreviation leases_of := (gmap uuid (uuid * uuid)) (only parsing).

Definition names (wire : list (string * json)) (lease sid : uuid) : Prop :=
  jget "lease_id" wire = Some (JStr (str_of_uuid lease))
  ∧ jget "session_id" wire = Some (JStr (str_of_uuid sid)).
Definition conn_ok (granted : leases_of) (c : connection) : Prop :=
  ∀ l, l ∈ c_leases c → ∃ s, granted !! l = Some (c_worker c, s).
Definition entry_ok (placed : leases_of) (e : pending_command) : Prop :=
  ∃ w, p_worker e = Some w ∧ placed !! p_lease e = Some (w, p_session e)
       ∧ names (p_wire e) (p_lease e) (p_session e).
Definition row_ok (granted : leases_of) (r : session_row) : Prop :=
  ∀ l, lease_id (s_lease r) = Some l →
    ∃ w, worker_id (s_lease r) = Some w ∧ granted !! l = Some (w, s_id r).

Record hub_ok (placed granted : leases_of) (h : hub) : Prop := {
  hk_objs : ∀ ref c, h_objs h !! ref = Some c → conn_ok granted c;
  hk_conns : ∀ w ref, h_conns h !! w = Some ref → ∃ c, h_objs h !! ref = Some c ∧ c_worker c = w;
  hk_queue : queue_all (entry_ok placed) (h_queue h);
  hk_deltas : ∀ sid k, h_deltas h !! sid = Some k → granted !! dl_lease k = Some (dl_worker k, sid)
}.
(** Connection objects stay, and keep their worker. *)
Definition objs_le (h h' : hub) : Prop :=
  ∀ ref c, h_objs h !! ref = Some c → ∃ c', h_objs h' !! ref = Some c' ∧ c_worker c' = c_worker c.

Record keeps (placed granted : leases_of) (h h' : hub) : Prop := Keeps {
  kp_ok : hub_ok placed granted h → hub_ok placed granted h';
  kp_objs : objs_le h h';
  kp_queue : queue_le (h_queue h) (h_queue h')
}.
#[global] Instance objs_le_preorder : PreOrder objs_le.
Proof.
  split; [intros h ref c Hc; eauto|]. intros h1 h2 h3 H12 H23 ref c Hc.
  destruct (H12 ref c Hc) as (c2 & Hc2 & E2). destruct (H23 ref c2 Hc2) as (c3 & Hc3 & E3).
  exists c3. split; [done|congruence].
Qed.
#[global] Instance keeps_preorder placed granted : PreOrder (keeps placed granted).
Proof.
  split; [intros h; by split|]. intros h1 h2 h3 [H12 O12 Q12] [H23 O23 Q23].
  split; [auto|by etrans|by etrans].
Qed.

Section keeps.
Context (placed granted : leases_of).
Implicit Types h : hub.
#[local] Abbreviation kept := (keeps placed granted).

Ltac keep := intros; split; [let H := fresh in intros H; destruct H; split; try done|intros ref0 c0 Hc0; by exists c0|try done].

Lemma keep_queue h q : (queue_all (entry_ok placed) (h_queue h) → queue_all (entry_ok placed) q) →
  queue_le (h_queue h) q → kept h (with_queue h q).
Proof. keep. auto. Qed.
Lemma keep_queue_sub h q : queue_sub (h_queue h) q → kept h (with_queue h q).
Proof. intros H. apply keep_queue; [by apply queue_all_sub|by apply queue_sub_le]. Qed.
Lemma keep_releases h r : kept h (with_releases h r).
Proof. keep. Qed.
Lemma keep_inventory h i : kept h (with_inventory h i).
Proof. keep. Qed.
Lemma keep_hits h hits : kept h (with_deltas h hits (h_deltas h)).
Proof. keep. Qed.
Lemma keep_deltas h hits deltas :
  (∀ sid k, deltas !! sid = Some k → ∃ k', h_deltas h !! sid = Some k'
     ∧ dl_lease k' = dl_lease k ∧ dl_worker k' = dl_worker k) →
  kept h (with_deltas h hits deltas).
Proof.
  intros Hd. keep. intros sid k Hk. cbn in Hk. destruct (Hd sid k Hk) as (k' & Hk' & <- & <-). auto.
Qed.
Lemma keep_forget_delta h sid : kept h (forget_delta h sid).
Proof. apply keep_deltas. intros s k. rewrite olookup_delete. case_decide; [done|eauto]. Qed.
Lemma keep_drop h lease : kept h (drop_lease_commands h lease).
Proof. apply keep_queue_sub, drop_sub. Qed.
Lemma keep_note_delta h now sid worker lease tenant :
  granted !! lease = Some (worker, sid) → kept h (note_delta_lease h now sid worker lease tenant).
Proof.
  intros Hg. keep. intros s k. cbn. rewrite olookup_insert. case_decide; [|auto].
  intros [= <-]. subst. done.
Qed.
Lemma keep_forget_fold h l : kept h (foldl forget_delta h l).
Proof.
  revert h. induction l as [|x l IH]; intros h; [done|]. cbn. etrans; [apply keep_forget_delta|apply IH].
Qed.
Lemma keep_forget_worker h worker : kept h (forget_worker_deltas h worker).
Proof. unfold forget_worker_deltas. etrans; [apply keep_forget_fold|apply keep_inventory]. Qed.

(** Assigning to a connection: the worker stays, and leases are granted ones. *)
Lemma keep_update_conn h ref f :
  (∀ c, h_objs h !! ref = Some c → c_worker (f c) = c_worker c ∧ (conn_ok granted c → conn_ok granted (f c))) →
  kept h (update_conn h ref f).
Proof.
  intros Hf. split.
  - intros []. split; try done.
    + intros ref' c. cbn. intros [(-> & c0 & Hc0 & ->)|[_ Hc]]%lookup_alter_Some; [|by eapply hk_objs0].
      apply Hf; [done|]. by eapply hk_objs0.
    + intros w r Hw. destruct (hk_conns0 w r Hw) as (c & Hc & Hcw). cbn.
      destruct (decide (ref = r)) as [->|Hne].
      * exists (f c). rewrite lookup_alter_eq, Hc. split; [done|]. destruct (Hf c Hc) as [-> _]. done.
      * exists c. by rewrite lookup_alter_ne.
  - intros r c Hc. cbn. destruct (decide (ref = r)) as [->|Hne].
    + exists (f c). rewrite lookup_alter_eq, Hc. split; [done|]. by apply Hf.
    + exists c. by rewrite lookup_alter_ne.
  - done.
Qed.
Lemma keep_end_lease h ref lease : kept h (update_conn h ref (end_lease lease)).
Proof.
  apply keep_update_conn. intros c _. split; [done|]. intros Hc l. cbn.
  intros [Hl _]%elem_of_difference. by apply Hc.
Qed.
Lemma keep_end_worker h worker lease : kept h (end_worker_lease h worker lease).
Proof.
  unfold end_worker_lease. destruct (w ← worker; current h w) as [[ref c]|]; [|done]. apply keep_end_lease.
Qed.
Lemma keep_add_lease h ref lease mem w s c0 :
  granted !! lease = Some (w, s) → h_objs h !! ref = Some c0 → c_worker c0 = w →
  kept h (update_conn h ref (add_lease lease mem)).
Proof.
  intros Hg H0 Hw. apply keep_update_conn. intros c Hc. split; [done|]. intros Hok l. cbn.
  assert (c = c0) as -> by congruence.
  intros [->%elem_of_singleton|Hl]%elem_of_union; [|by apply Hok]. subst w. eauto.
Qed.

Lemma current_ok h w ref c :
  hub_ok placed granted h → current h w = Some (ref, c) →
  h_objs h !! ref = Some c ∧ c_worker c = w ∧ conn_ok granted c.
Proof.
  intros Hok. unfold current. destruct (h_conns h !! w) as [r|] eqn:Hw; cbn; [|done].
  destruct (hk_conns _ _ _ Hok w r Hw) as (c0 & Hc0 & Hcw). rewrite Hc0. cbn. intros [= <- <-].
  split_and!; [done|done|]. by eapply hk_objs.
Qed.

(** *** The operations that end leases *)

Lemma keep_attach h ref c :
  h_objs h !! ref = Some c → kept h (attach h ref c).
Proof.
  intros Hc. unfold attach.
  set (h1 := with_conns (with_objs h (<[ref:=c]> (h_objs h))) (<[c_worker c:=ref]> (h_conns h))).
  assert (kept h h1) as H1.
  { split.
    - intros []. split; try done.
      + intros r x. cbn. rewrite insert_id by done. apply hk_objs0.
      + intros w r. cbn. rewrite olookup_insert, insert_id by done. case_decide; [|apply hk_conns0].
        intros [= <-]. subst. eauto.
    - intros r x Hx. cbn. rewrite insert_id by done. eauto.
    - done. }
  destruct (h_conns h !! c_worker c) as [old|]; [|done]. case_decide; [done|].
  etrans; [exact H1|]. apply keep_update_conn. intros x _. split; [done|]. done.
Qed.
Lemma keep_detach h worker ref : kept h (detach h worker ref).1.
Proof.
  unfold detach. destruct (h_conns h !! worker) as [cur|]; [|done].
  destruct (match ref with Some _ => _ | None => false end); [done|]. cbn [fst].
  etrans; [|apply keep_forget_worker].
  transitivity (with_conns h (delete worker (h_conns h))).
  - split; [|intros r x Hx; by exists x|done]. intros []. split; try done.
    intros w r. cbn. rewrite olookup_delete. case_decide; [done|apply hk_conns0].
  - apply keep_queue_sub, forget_fold_sub.
Qed.
Lemma keep_release h d now tenant sid lease : kept h (release_lease h d now tenant sid lease).1.
Proof.
  unfold release_lease. pose proof (keep_drop h lease) as H1.
  destruct (get_session d tenant sid None) as [r|]; cbn [fst].
  - case_decide; [done|]. destruct (clear_session_lease d now tenant sid). cbn [fst].
    etrans; [exact H1|]. etrans; [apply keep_forget_delta|]. apply keep_end_worker.
  - etrans; [exact H1|apply keep_forget_delta].
Qed.
Lemma keep_end_local h sid worker lease : kept h (end_lease_local h sid worker lease).
Proof.
  unfold end_lease_local. etrans; [apply keep_drop|]. etrans; [apply keep_forget_delta|]. apply keep_end_worker.
Qed.
Lemma keep_expire_memory h l : kept h (expire_memory h l).1.
Proof.
  unfold expire_memory. generalize (@nil revoke). revert h.
  induction l as [|c l IH]; intros h out; [done|]. cbn [foldl].
  assert (kept h (expire_one (h, out) c).1) as H1.
  { unfold expire_one. pose proof (keep_forget_delta h (cl_session c)) as H0.
    destruct (cl_lease c) as [lease|]; [|done].
    destruct (w ← cl_worker c; current _ w) as [[ref x]|]; cbn [fst]; (etrans; [exact H0|]).
    - etrans; [apply keep_drop|apply keep_end_lease].
    - apply keep_drop. }
  destruct (expire_one (h, out) c) as [h1 out1]. etrans; [exact H1|apply IH].
Qed.
Lemma keep_note_sent h now entry : kept h (note_sent h now entry).
Proof. apply keep_queue; [by apply update_all|by apply update_le]. Qed.
Lemma keep_send_failed h lease entry : kept h (note_send_failed h lease entry).
Proof.
  unfold note_send_failed. destruct (find_entry _ _ _); [|done]. by apply keep_queue_sub, discard_sub.
Qed.
Lemma keep_ack h lease id : kept h (hub_ack h lease id).1.
Proof.
  unfold hub_ack. pose proof (ack_sub (h_queue h) lease id) as H.
  destruct (CommandQueue.ack _ _ _) as [q e]. by apply keep_queue_sub.
Qed.
Lemma keep_stored h sid bodies : kept h (note_stored_events h sid bodies).
Proof.
  unfold note_stored_events. destruct (h_deltas h !! sid) as [k|] eqn:Hk; [|done].
  apply keep_deltas. intros s x. rewrite olookup_insert. case_decide as Hs; [|eauto].
  intros [= <-]. subst. exists k. split; [done|]. clear Hk. revert k.
  induction bodies as [|b bodies IH]; intros k; [done|]. cbn. destruct (IH (note_done k b)) as [<- <-].
  unfold note_done. by destruct (done_turn_of b).
Qed.
End keeps.

(** *** Frames and new commands *)

Lemma push_command_wire q now dump command sid lease op payload worker :
  (lease < 2 ^ 128)%N → (sid < 2 ^ 128)%N →
  match (push q now (command_wire dump command sid lease op payload) worker).2 with
  | Ok e => p_lease e = lease ∧ p_session e = sid ∧ p_worker e = worker
            ∧ p_wire e = command_wire dump command sid lease op payload
  | Err _ => True
  end.
Proof.
  intros Hl Hs. unfold push, wire_uuid. rewrite command_wire_lease, command_wire_session.
  cbn [mbind option_bind py_str]. rewrite !uuid_of_string_str by done.
  destruct (decide _); [done|]. cbn. done.
Qed.

Section sends.
Context (cfg : fleet_settings).
Context (validate_payload : string → list (string * json) → option (list (string * json))).
Context (dump : list (string * json) → list (string * json)).
Context (valid_context : json → bool).
Implicit Types (placed granted : leases_of).

Definition bounded (placed : leases_of) : Prop :=
  ∀ l w s, placed !! l = Some (w, s) → (l < 2 ^ 128)%N ∧ (s < 2 ^ 128)%N.

Lemma command_wire_names command sid lease op payload :
  names (command_wire dump command sid lease op payload) lease sid.
Proof. done. Qed.

(** A queued command is one of the lease it names. *)
Lemma enqueue_keeps placed granted h now c command sid lease op payload :
  (lease < 2 ^ 128)%N → (sid < 2 ^ 128)%N → placed !! lease = Some (c_worker c, sid) →
  let out := enqueue h now (command_wire dump command sid lease op payload) c in
  keeps placed granted h out.1 ∧
  match out.2 with
  | Ok e => p_lease e = lease ∧ p_session e = sid ∧ p_wire e = command_wire dump command sid lease op payload
  | Err _ => True
  end.
Proof.
  intros Hl Hs Hp. cbn zeta. unfold enqueue. destruct (require_credential_isolation _ _); [|done].
  destruct (decide _); [|done].
  pose proof (push_command_wire (h_queue h) now dump command sid lease op payload (Some (c_worker c)) Hl Hs) as Hw.
  pose proof (push_all (entry_ok placed) (h_queue h) now (command_wire dump command sid lease op payload)
    (Some (c_worker c))) as Hq.
  pose proof (push_le (h_queue h) now (command_wire dump command sid lease op payload) (Some (c_worker c))) as Hle.
  destruct (push _ _ _ _) as [q [e|[]]]; cbn [fst snd] in *; [|by split; [apply keep_queue|]..].
  destruct Hw as (H1 & H2 & H3 & H4). split; [|done]. apply keep_queue; [|done]. intros Ha.
  apply Hq; [done|]. exists (c_worker c). rewrite H1, H2, H4. split_and!; [done..|apply command_wire_names].
Qed.

Definition place_h := place cfg validate_payload dump valid_context.

(** A new lease id: nothing speaks of it yet. *)
Lemma placed_weaken placed granted h lease x :
  placed !! lease = None → hub_ok placed granted h → hub_ok (<[lease := x]> placed) granted h.
Proof.
  intros Hn []. split; try done. eapply queue_all_weaken; [|done].
  intros e (w & Hw & Hp & Hx). exists w. split_and!; [done| |done].
  rewrite lookup_insert_ne; [done|]. congruence.
Qed.

(** The worker of a plan is a connection with room for the session. *)
Lemma plan_inv h row op payload lease command pin ref conn wire body mem :
  plan cfg validate_payload dump valid_context h row op payload lease command pin
    = Ok (Some (ref, conn, wire, body, mem)) →
  h_objs h !! ref = Some conn ∧ wire = command_wire dump command (s_id row) lease op body
  ∧ feasible (placement_for (s_environment row)) mem
      (if decide (placement_for (s_environment row) = "microvm"%string)
       then match session_image (s_environment row) with Ok i => Some i | Err _ => None end else None)
      (local_candidate mem (ref, conn)) = true.
Proof.
  intros E. unfold plan in E.
  destruct (sandbox_size_of _) as [size|]; cbn [mbind res_bind] in E; [|done].
  set (kind := placement_for _) in *.
  set (img := if decide (kind = _) then match session_image _ with Ok i => Some i | Err _ => None end else None).
  match type of E with mbind _ ?m = _ => assert (m = Ok img ∨ ∃ x, m = Err x) as [Him|[x Him]] end.
  { subst img. case_decide; [|by left]. destruct (session_image _); [by left|right; by eexists]. }
  all: rewrite Him in E; cbn [mbind res_bind] in E; try done.
  match type of E with (if ?b then _ else _) = _ => destruct b; [done|] end.
  destruct (command_payload _ _ _ None None None) as [bare|]; cbn [mbind res_bind] in E; [|done].
  set (mm := mem_mib_for_size cfg _) in *. set (conns := filter _ (current_conns h)) in *.
  match type of E with match ?m with Some _ => _ | None => _ end = _ =>
    assert (∀ c, m = Some c → c ∈ local_candidates conns mm ∧ feasible kind mm img c = true) as Hm end.
  { intros c. destruct (choose (filter _ _) kind mm img) as [c'|] eqn:Hc.
    - intros [= ->]. apply choose_feasible in Hc as [Hc ?]. split; [|done].
      by apply list_elem_of_filter in Hc as [_ Hc].
    - intros Hc'. by apply choose_feasible in Hc'. }
  match type of E with match ?m with Some _ => _ | None => _ end = _ => destruct m as [c|]; [|done] end.
  destruct (Hm c eq_refl) as [Hin Hf]. apply list_elem_of_fmap in Hin as ([r x] & -> & Hin).
  cbn [ca_conn local_candidate mbind option_bind] in E.
  destruct (h_objs h !! r) as [y|] eqn:Hr; cbn [mbind option_bind] in E; [|done].
  destruct (command_payload _ _ _ _ _ None) as [bd|]; cbn [mbind res_bind] in E; [|done].
  destruct (check_command_context _ _); cbn [mbind res_bind] in E; [|done].
  injection E as <- <- <- <- <-. split_and!; [done|done|].
  assert (x = y) as ->; [|done].
  apply list_elem_of_filter in Hin as [_ Hin]. apply list_elem_of_omap in Hin as (p & _ & Hp).
  destruct (h_objs h !! p.2) eqn:Hz; cbn in Hp; [|done]. injection Hp as <- <-. congruence.
Qed.

Lemma place_inv h now row op payload lease command pin h' out :
  place_h h now row op payload lease command pin = (h', out) →
  match out with
  | Ok (Some g) => ∃ conn wire body e, h_objs h !! g_ref g = Some conn
      ∧ wire = command_wire dump command (s_id row) lease op body
      ∧ enqueue h now wire conn = (h', Ok e)
      ∧ g_lease g = lease ∧ g_sid g = s_id row ∧ g_worker g = c_worker conn ∧ g_tenant g = s_tenant row
      ∧ g_command g = command ∧ g_entry g = p_ref e
  | _ => h' = h ∨ ∃ conn wire body e ref, h_objs h !! ref = Some conn
      ∧ wire = command_wire dump command (s_id row) lease op body ∧ enqueue h now wire conn = (h', Err e)
  end.
Proof.
  unfold place_h, place. destruct (plan _ _ _ _ h _ _ _ _ _ _) as [[[[[[ref conn] wire] body] mem]|]|x] eqn:E.
  2, 3: intros [= <- <-]; by left.
  apply plan_inv in E as (Href & -> & _).
  destruct (enqueue h now _ conn) as [h1 [e|x]] eqn:Hq; intros [= <- <-].
  - exists conn, (command_wire dump command (s_id row) lease op body), body, e. by split_and!.
  - right. by exists conn, (command_wire dump command (s_id row) lease op body), body, x, ref.
Qed.

Lemma keep_set_wire placed granted h entry wire lease sid :
  names wire lease sid → (∀ l e, e ∈ queue_of (h_queue h) l → p_ref e = entry → p_lease e = lease ∧ p_session e = sid) →
  keeps placed granted h (with_queue h (update_entry (h_queue h) entry (set_wire wire))).
Proof.
  intros Hn He. apply keep_queue; [|by apply update_le]. intros Hq l x. rewrite queue_of_update.
  intros (e & -> & Hx)%list_elem_of_fmap. destruct (Hq l e Hx) as [Hl (w & Hw & Hp & _)].
  unfold at_ref. case_decide as Hr; [|by apply Hq].
  destruct (He l e Hx Hr) as [H1 H2]. split; [done|]. exists w. split_and!; [done..|]. cbn. by rewrite H1, H2.
Qed.

Lemma finish_keeps placed granted h now g row c :
  granted !! g_lease g = Some (g_worker g, g_sid g) →
  h_objs h !! g_ref g = Some c → c_worker c = g_worker g →
  (∀ l e, e ∈ queue_of (h_queue h) l → p_ref e = g_entry g → p_lease e = g_lease g ∧ p_session e = g_sid g) →
  let out := finish_grant validate_payload dump h now g row in
  keeps placed granted h out.1 ∧
  match out.2 with Ok wire => names wire (g_lease g) (g_sid g) | Err _ => True end.
Proof.
  intros Hg Hc Hw He. cbn zeta. unfold finish_grant.
  match goal with |- context [match ?m with Ok _ => _ | Err _ => _ end] => destruct m as [[h1 wire]|x] eqn:E end;
    [|done].
  assert (names wire (g_lease g) (g_sid g) ∧ keeps placed granted h h1) as [Hn Hk].
  { revert E. case_decide.
    - destruct (command_payload _ _ _ _ _ _) as [body|]; cbn [mbind res_bind]; [|done].
      intros [= <- <-]. split; [apply command_wire_names|].
      apply (keep_set_wire _ _ _ _ _ (g_lease g) (g_sid g)); [apply command_wire_names|exact He].
    - intros [= <- <-]. split; [apply command_wire_names|done]. }
  cbn [fst snd]. split; [|done]. etrans; [exact Hk|].
  destruct (kp_objs _ _ _ _ Hk _ _ Hc) as (c1 & Hc1 & Hw1).
  etrans; [eapply keep_add_lease; [exact Hg|exact Hc1|congruence]|]. by apply keep_note_delta.
Qed.

Lemma send_command_keeps placed granted h now row worker lease op payload command :
  bounded placed → granted ⊆ placed → hub_ok placed granted h → granted !! lease = Some (worker, s_id row) →
  let out := send_command validate_payload dump valid_context h now (row, worker, lease) op payload command in
  keeps placed granted h out.1 ∧
  match out.2 with
  | Ok (Some (ref, e, wire)) => names wire lease (s_id row)
      ∧ ∃ c, h_objs h !! ref = Some c ∧ c_worker c = worker
  | _ => True
  end.
Proof.
  intros Hb Hsub Hok Hg. cbn zeta. unfold send_command.
  destruct (current h worker) as [[ref conn]|] eqn:Hcur; [|done].
  destruct (current_ok placed granted _ _ _ _ Hok Hcur) as (Hr & Hw & _).
  case_decide; [done|].
  pose proof (keep_note_delta placed granted h now (s_id row) worker lease (s_tenant row) Hg) as Hk.
  set (h1 := note_delta_lease _ _ _ _ _ _) in *.
  match goal with |- context [match ?m with Ok _ => _ | Err _ => _ end] =>
    lazymatch m with mbind _ _ => destruct m as [wire|x] eqn:E end end; [|done].
  assert (∃ body, wire = command_wire dump command (s_id row) lease op body) as (body & ->).
  { repeat match type of E with
      | mbind _ ?m = _ => destruct m eqn:?; cbn [mbind res_bind] in E; [|done]
      end. injection E as <-. eauto. }
  assert (placed !! lease = Some (c_worker conn, s_id row)) as Hp.
  { rewrite Hw. by eapply lookup_weaken. }
  destruct (Hb _ _ _ Hp) as [Hl Hs].
  destruct (enqueue_keeps placed granted h1 now conn command (s_id row) lease op body Hl Hs Hp) as [Hk2 _].
  destruct (enqueue h1 now _ conn) as [h2 [e|x]]; cbn [fst snd] in *; (split; [by etrans|]); [|done].
  split; [apply command_wire_names|eauto].
Qed.
End sends.

(** *** Reconnects, inventories, deltas *)

Section rest.
Context (cfg : fleet_settings).
Context (classify_host_message : string → failure).
Context (session_model : db → session_row → option string).
Implicit Types (placed granted : leases_of).

Lemma reattached_lease q claimed r lease :
  reattached q claimed r = Some lease → lease_id (s_lease r) = Some lease.
Proof.
  unfold reattached. destruct (lease_id (s_lease r)) as [l|]; cbn; [|done].
  case_decide; [destruct (has_lease q l)|]; congruence.
Qed.

Lemma restore_keeps placed granted h now ref worker claimed rows c :
  h_objs h !! ref = Some c → c_worker c = worker →
  Forall (λ r, row_ok granted r ∧ worker_id (s_lease r) = Some worker) rows →
  keeps placed granted h (restore_memory cfg h now ref worker claimed rows).1.
Proof.
  intros Hc Hw Hrows. unfold restore_memory.
  generalize (Ok (E:=exn) (∅ : odict uuid Z, @nil uuid)) as acc. revert h c Hc Hw.
  induction Hrows as [|r rows [Hr Hrw] _ IH]; intros h c Hc Hw acc; [done|]. cbn [foldl].
  assert (keeps placed granted h (restore_row cfg now ref worker claimed (h, acc) r).1) as H1.
  { unfold restore_row. destruct acc as [[cursors renewed]|]; [|done].
    destruct (reattached (h_queue h) claimed r) as [lease|] eqn:Hl; [|done].
    apply reattached_lease in Hl. destruct (Hr lease Hl) as (w & Hw' & Hg).
    assert (w = worker) as -> by congruence.
    destruct (sandbox_size_of (s_environment r)); cbn [fst].
    - etrans; [eapply (keep_add_lease placed granted h ref lease); eauto|]. by apply keep_note_delta.
    - apply keep_update_conn. intros x Hx. split; [done|]. intros Hok l. cbn.
      assert (x = c) as -> by congruence.
      intros [->%elem_of_singleton|Hin]%elem_of_union; [|by apply Hok]. rewrite Hw. eauto. }
  destruct (restore_row cfg now ref worker claimed (h, acc) r) as [h1 acc1]. cbn [fst] in H1.
  etrans; [exact H1|]. destruct (kp_objs _ _ _ _ H1 _ _ Hc) as (c1 & Hc1 & Hw1).
  eapply IH; [exact Hc1|congruence].
Qed.

Lemma orphan_keeps placed granted now e0 e1 e2 e3 ref s r :
  keeps placed granted (rc_hub s)
    (rc_hub (orphan_row classify_host_message session_model now e0 e1 e2 e3 ref s r)).
Proof.
  unfold orphan_row.
  match goal with |- context [match ?m with Ok _ => _ | Err _ => _ end] =>
    lazymatch m with mbind _ _ => destruct m as [out|] end end; [|done].
  cbn [rc_hub]. destruct (match sessions out.1 !! s_id r with Some _ => _ | None => _ end) as [lease|].
  2: { destruct ref; apply keep_forget_delta. }
  assert (keeps placed granted (rc_hub s)
    (with_queue (forget_delta (rc_hub s) (s_id r)) (forget_turns (h_queue (forget_delta (rc_hub s) (s_id r))) lease))) as H.
  { etrans; [apply keep_forget_delta|]. apply keep_queue_sub, forget_sub. }
  destruct ref; [|done]. etrans; [exact H|apply keep_end_lease].
Qed.
Lemma reconcile_keeps placed granted h d now e0 e1 e2 e3 worker reported unleased conn orphan_missing :
  keeps placed granted h
    (reconcile_inventory classify_host_message session_model h d now e0 e1 e2 e3 worker reported
       unleased conn orphan_missing).1.
Proof.
  unfold reconcile_inventory. cbv zeta.
  set (ref := match conn with Some r => Some r | None => _ end).
  set (rows := filter _ (list_worker_leases d worker)).
  set (s0 := Reconciling _ _ _ _).
  assert (∀ s, keeps placed granted (rc_hub s) (rc_hub (foldl (reconcile_row classify_host_message session_model
    now e0 e1 e2 e3 ref reported orphan_missing) s rows))) as Hfold.
  { induction rows as [|r rows IH]; intros s; [done|]. cbn [foldl]. etrans; [|apply IH].
    unfold reconcile_row. destruct (lease_id (s_lease r)); [|done]. destruct (rc_db s) eqn:?; [|done].
    destruct (reported !! s_id r); [by case_decide|].
    destruct (negb orphan_missing || _); [done|]. apply orphan_keeps. }
  specialize (Hfold s0). cbn [rc_hub s0] in Hfold.
  destruct (rc_db _) as [[d1 ps]|].
  - destruct (foldl (workspace _ _ _ _) _ _). cbn [fst]. etrans; [|exact Hfold]. apply keep_inventory.
  - cbn [fst]. etrans; [|exact Hfold]. apply keep_inventory.
Qed.

(** What a failed or successful transaction leaves. *)
Lemma reconcile_leases h d now e0 e1 e2 e3 worker reported unleased conn orphan_missing d' ps rv ttl :
  keyed d →
  (reconcile_inventory classify_host_message session_model h d now e0 e1 e2 e3 worker reported
     unleased conn orphan_missing).2 = Ok (d', ps, rv, ttl) → lease_le d d'.
Proof.
  intros Hk. unfold reconcile_inventory. cbv zeta.
  set (ref := match conn with Some r => Some r | None => _ end).
  set (rows := filter _ (list_worker_leases d worker)).
  set (s0 := Reconciling _ _ _ _).
  assert (∀ s, match rc_db s with Ok (d0, _) => lease_le d d0 | Err _ => True end →
    match rc_db (foldl (reconcile_row classify_host_message session_model
      now e0 e1 e2 e3 ref reported orphan_missing) s rows) with
    | Ok (d0, _) => lease_le d d0 | Err _ => True end) as Hfold.
  { induction rows as [|r rows IH]; intros s Hs; [done|]. cbn [foldl]. apply IH.
    unfold reconcile_row. destruct (lease_id (s_lease r)) as [lease|]; [|done].
    destruct (rc_db s) as [[d0 ps0]|] eqn:E; [|by rewrite E].
    destruct (reported !! s_id r); [by case_decide; cbn; rewrite ?E|].
    destruct (negb orphan_missing || _); [by rewrite E|].
    unfold orphan_row. rewrite E. cbn [mbind res_bind].
    destruct (persist_event d0 _ _ _ _ _ _) as [[d1 p1]|] eqn:H1; cbn [mbind res_bind]; [|done].
    apply lease_le_persist in H1.
    assert (lease_le d d1) as Hd1 by by etrans.
    pose proof (lease_le_clear d1 now (s_tenant r) (s_id r) (proj1 (Hd1 Hk))) as H2.
    destruct (clear_session_lease d1 now (s_tenant r) (s_id r)) as [d2 o]. cbn [fst] in H2.
    assert (lease_le d d2) as Hd2 by by etrans.
    destruct (fail_stale_in_progress _ _ d2 _ _ _ _ _ _ _) as [[d3 p2]|] eqn:H3; cbn [mbind res_bind]; [|done].
    apply lease_le_fail_stale in H3. cbn. by etrans. }
  specialize (Hfold s0 (ltac:(cbn; done))).
  destruct (rc_db _) as [[d1 ps1]|]; [|done].
  destruct (foldl (workspace _ _ _ _) _ _). cbn [snd]. intros [= <- _ _ _]. done.
Qed.

Lemma expire_command_keeps placed granted h d now e0 e1 e2 e3 e :
  keeps placed granted h
    (expire_command classify_host_message session_model h d now e0 e1 e2 e3 e).1.
Proof.
  unfold expire_command. pose proof (keep_drop placed granted h (p_lease e)) as H1.
  destruct (get_session_by_lease d (p_lease e)) as [r|]; [|done]. cbv zeta.
  match goal with |- context [match ?m with Ok _ => _ | Err _ => _ end] =>
    lazymatch m with (let (_, _) := _ in _) => destruct m as [[d1 ps]|] end end; [|done].
  assert (keeps placed granted h (forget_delta (drop_lease_commands h (p_lease e)) (p_session e))) as H2
    by (etrans; [exact H1|apply keep_forget_delta]).
  destruct (w ← p_worker e; current _ w) as [[ref c]|]; cbn [fst]; [|done].
  etrans; [exact H2|apply keep_end_lease].
Qed.
Lemma expire_command_leases h d now e0 e1 e2 e3 e d' ps out :
  keyed d →
  (expire_command classify_host_message session_model h d now e0 e1 e2 e3 e).2 = Ok (d', ps, out) →
  lease_le d d'.
Proof.
  intros Hk. unfold expire_command. destruct (get_session_by_lease d (p_lease e)) as [r|];
    [|by intros [= <- _ _]]. cbv zeta.
  pose proof (lease_le_clear d now (s_tenant r) (s_id r) Hk) as H1.
  destruct (clear_session_lease d now (s_tenant r) (s_id r)) as [d1 o]. cbn [fst] in H1.
  destruct (persist_event d1 _ _ _ _ _ _) as [[d2 p1]|] eqn:H2; cbn [mbind res_bind]; [|done].
  apply lease_le_persist in H2. assert (lease_le d d2) as Hd2 by by etrans.
  destruct (fail_stale_in_progress _ _ d2 _ _ _ _ _ _ _) as [[d3 p2]|] eqn:H3; cbn [mbind res_bind]; [|done].
  apply lease_le_fail_stale in H3.
  destruct (w ← p_worker e; current _ w) as [[ref c]|]; intros [= <- _ _]; by etrans.
Qed.

Context (parse_delta : list (string * json) → option delta_payload).

(** A delta is published only for a session whose lease the connection's worker holds. *)
Lemma delta_keeps placed granted h now c e row :
  hub_ok placed granted h → conn_ok granted c →
  (∀ r l, row = Some r → lease_id (s_lease r) = Some l → s_id r = env_session e ∧ row_ok granted r) →
  let out := handle_delta parse_delta h now c e row in
  keeps placed granted h out.1.1 ∧
  match out.2 with
  | Some (sid, _) => sid = env_session e ∧ ∃ l, l ∈ c_leases c ∧ granted !! l = Some (c_worker c, sid)
  | None => True
  end.
Proof.
  intros Hok Hc Hrow. cbn zeta. unfold handle_delta. case_decide; [done|].
  destruct (parse_delta (env_payload e)) as [p|]; [|done]. case_decide; [done|].
  destruct (DELTA_MAX_TEXT <? _); [done|]. destruct (relay_rate_allowed _ _ _) as [hits allowed].
  set (sid := env_session e) in *.
  set (h1 := with_deltas h _ (h_deltas h)).
  assert (keeps placed granted h h1) as H1 by apply keep_hits.
  destruct (negb allowed); [done|].
  assert (∀ hr kr, refresh_delta_lease h1 now c sid row = (hr, kr) →
    keeps placed granted h1 hr ∧ ∀ k, kr = Some k → ∃ l, l ∈ c_leases c ∧ granted !! l = Some (c_worker c, sid)) as Hrefresh.
  { intros hr kr. unfold refresh_delta_lease. destruct row as [r|]; [|by intros [= <- <-]].
    destruct (lease_id (s_lease r)) as [lease|] eqn:Hl; [|by intros [= <- <-]].
    case_decide as Hd; [|by intros [= <- <-]]. destruct Hd as [Hw Hin].
    destruct (Hrow r lease eq_refl Hl) as [Hs Hr]. destruct (Hr lease Hl) as (w & Hw' & Hg).
    assert (w = c_worker c) as -> by congruence. rewrite Hs in Hg.
    intros [= <- <-]. split; [by apply keep_note_delta|]. eauto. }
  assert (∃ hk kk, (match h_deltas h1 !! sid with
            | Some k => if delta_current now c k then (h1, Some k) else refresh_delta_lease h1 now c sid row
            | None => refresh_delta_lease h1 now c sid row end) = (hk, kk)
    ∧ keeps placed granted h hk
    ∧ ∀ k, kk = Some k → ∃ l, l ∈ c_leases c ∧ granted !! l = Some (c_worker c, sid)) as (hk & kk & -> & Hk & Hl).
  { destruct (refresh_delta_lease h1 now c sid row) as [hr kr] eqn:Er.
    destruct (Hrefresh _ _ eq_refl) as [Hr1 Hr2].
    destruct (h_deltas h1 !! sid) as [k|] eqn:Ek; [destruct (delta_current now c k) eqn:Ec|].
    - exists h1, (Some k). split_and!; [done|done|]. intros k' [= <-].
      unfold delta_current in Ec. rewrite !andb_true_iff, !bool_decide_eq_true in Ec.
      destruct Ec as [[Hw Hin] _]. exists (dl_lease k). split; [done|]. rewrite <- Hw.
      by apply (hk_deltas _ _ _ (kp_ok _ _ _ _ H1 Hok)).
    - exists hr, kr. split_and!; [done|by etrans|done].
    - exists hr, kr. split_and!; [done|by etrans|done]. }
  destruct kk as [k|]; cbn [fst snd].
  - destruct (match dp_turn p with Some _ => _ | None => false end); cbn [fst snd]; [done|].
    split; [done|]. split; [done|]. by eapply Hl.
  - split; [|done]. etrans; [exact Hk|apply keep_forget_delta].
Qed.
End rest.
