(* ===== verification/HubSystem.v ===== *)
(** * The hub's operations interleaved

    The parts of the hub's operations ([Hub]) are the steps of a system of one
    replica and its database; the tasks between two of their parts are in the
    state.  The invariant of [HubProps] holds in every state the system reaches,
    and with it: a command frame or a live delta only ever passes between a session
    and the worker its lease was granted to. *)

From S2P Require Import Prelude PyStd Protocol CommandQueue Db Fleet Commands Sandbox Usage Accounting IngestSpec TurnState Hub HubProps.

Open Scope Z_scope.

(** ** The system: one replica, its database, and the tasks in between *)

(** What leaves the replica: a command frame on a connection, or a live delta that
    came in on one. *)
Inductive output : Type :=
| OutFrame (ref : N) (wire : list (string * json))
| OutDelta (ref : N) (sid : uuid).

Record world : Type := World {
  w_hub : hub;
  w_db : db;
  w_placed : gmap uuid (uuid * uuid);        (* lease ids made up: worker and session *)
  w_granted : gmap uuid (uuid * uuid);       (* the ones the database granted *)
  w_grants : list grant;                     (* queued, their transaction not committed *)
  w_commits : list (grant * session_row);    (* committed, not in memory yet *)
  w_reads : list (session_row * uuid * uuid); (* leases that commands have read *)
  w_rows : list session_row;                 (* session rows that tasks have read *)
  w_entries : list pending_command;          (* entries of snapshots of the queue *)
  w_held : list (N * uuid)                   (* leases a connection held when it was asked *)
}.

Definition set_hub (w : world) h := World h (w_db w) (w_placed w) (w_granted w) (w_grants w) (w_commits w)
  (w_reads w) (w_rows w) (w_entries w) (w_held w).
Definition set_db (w : world) d := World (w_hub w) d (w_placed w) (w_granted w) (w_grants w) (w_commits w)
  (w_reads w) (w_rows w) (w_entries w) (w_held w).
Definition set_tasks (w : world) grants commits := World (w_hub w) (w_db w) (w_placed w) (w_granted w) grants commits
  (w_reads w) (w_rows w) (w_entries w) (w_held w).
Definition set_reads (w : world) reads rows entries held := World (w_hub w) (w_db w) (w_placed w) (w_granted w)
  (w_grants w) (w_commits w) reads rows entries held.
Definition set_placed (w : world) placed := World (w_hub w) (w_db w) placed (w_granted w) (w_grants w)
  (w_commits w) (w_reads w) (w_rows w) (w_entries w) (w_held w).
Definition set_granted (w : world) granted := World (w_hub w) (w_db w) (w_placed w) granted (w_grants w)
  (w_commits w) (w_reads w) (w_rows w) (w_entries w) (w_held w).

Section system.
Context (cfg : fleet_settings).
Context (validate_payload : string → list (string * json) → option (list (string * json))).
Context (dump : list (string * json) → list (string * json)).
Context (valid_context : json → bool).
Context (parse_delta : list (string * json) → option delta_payload).
Context (classify_host_message : string → failure).
Context (session_model : db → session_row → option string).

(** A transaction that failed leaves the database as it was. *)
Definition after {A} (d : db) (out : res exn (db * A)) : db :=
  match out with Ok (d', _) => d' | Err _ => d end.

Inductive step : world → world → list output → Prop :=
(* connections *)
| StepOpen w ref c :
    h_objs (w_hub w) !! ref = None → c_leases c = ∅ →
    step w (set_hub w (with_objs (w_hub w) (<[ref := c]> (h_objs (w_hub w))))) []
| StepAttach w ref c :
    h_objs (w_hub w) !! ref = Some c → step w (set_hub w (attach (w_hub w) ref c)) []
| StepDetach w worker ref : step w (set_hub w (detach (w_hub w) worker ref).1) []
| StepConn w ref f : (* a heartbeat, a renewal, a close *)
    (∀ c, c_worker (f c) = c_worker c ∧ c_leases (f c) = c_leases c) →
    step w (set_hub w (update_conn (w_hub w) ref f)) []
(* granting *)
| StepPlace w now row op payload lease command pin h' g :
    w_placed w !! lease = None → (lease < 2 ^ 128)%N → (s_id row < 2 ^ 128)%N →
    place cfg validate_payload dump valid_context (w_hub w) now row op payload lease command pin
      = (h', Ok (Some g)) →
    step w (set_tasks (set_placed (set_hub w h') (<[lease := (g_worker g, g_sid g)]> (w_placed w)))
              (w_grants w ++ [g]) (w_commits w)) []
| StepPlaceNot w now row op payload lease command pin h' out :
    w_placed w !! lease = None → (lease < 2 ^ 128)%N → (s_id row < 2 ^ 128)%N →
    place cfg validate_payload dump valid_context (w_hub w) now row op payload lease command pin
      = (h', out) → match out with Ok (Some _) => False | _ => True end →
    step w (set_hub w h') []
| StepCommit w now g l1 l2 d' row :
    w_grants w = l1 ++ g :: l2 → commit_grant (w_db w) now g = (d', Some row) →
    step w (set_tasks (set_granted (set_db w d') (<[g_lease g := (g_worker g, g_sid g)]> (w_granted w)))
              (l1 ++ l2) (w_commits w ++ [(g, row)])) []
| StepRefuse w now g l1 l2 d' :
    w_grants w = l1 ++ g :: l2 → commit_grant (w_db w) now g = (d', None) →
    step w (set_tasks (set_hub w (refuse_grant (w_hub w) g)) (l1 ++ l2) (w_commits w)) []
| StepCommitFails w g l1 l2 :
    w_grants w = l1 ++ g :: l2 → step w (set_tasks w (l1 ++ l2) (w_commits w)) []
| StepFinish w now g row l1 l2 h' out :
    w_commits w = l1 ++ (g, row) :: l2 →
    finish_grant validate_payload dump (w_hub w) now g row = (h', out) →
    step w (set_tasks (set_hub w h') (w_grants w) (l1 ++ l2))
      match out with Ok wire => [OutFrame (g_ref g) wire] | Err _ => [] end
(* using a lease *)
| StepRead w tenant sid x :
    leased (w_db w) tenant sid = Some x →
    step w (set_reads w (x :: w_reads w) (w_rows w) (w_entries w) (w_held w)) []
| StepCommand w now x op payload command h' out :
    x ∈ w_reads w →
    send_command validate_payload dump valid_context (w_hub w) now x op payload command = (h', out) →
    step w (set_hub w h') match out with Ok (Some (ref, _, wire)) => [OutFrame ref wire] | _ => [] end
| StepSent w now entry : step w (set_hub w (note_sent (w_hub w) now entry)) []
| StepSendFailed w lease entry : step w (set_hub w (note_send_failed (w_hub w) lease entry)) []
| StepAck w lease id : step w (set_hub w (hub_ack (w_hub w) lease id).1) []
(* sending again: a snapshot of the leases and the entries, then one frame each *)
| StepSnapshot w ref c :
    h_objs (w_hub w) !! ref = Some c →
    step w (set_reads w (w_reads w) (w_rows w) (all_entries (h_queue (w_hub w)) ++ w_entries w)
              (((λ l, (ref, l)) <$> elements (c_leases c)) ++ w_held w)) []
| StepResend w ref e :
    e ∈ w_entries w → (ref, p_lease e) ∈ w_held w → step w w [OutFrame ref (p_wire e)]
(* ending a lease *)
| StepBeginRelease w now sid lease : step w (set_hub w (begin_release (w_hub w) now sid lease)) []
| StepEndRelease w lease : step w (set_hub w (end_release (w_hub w) lease)) []
| StepRelease w now tenant sid lease :
    let out := release_lease (w_hub w) (w_db w) now tenant sid lease in
    step w (set_db (set_hub w out.1) out.2) []
| StepEndLocal w sid worker lease : step w (set_hub w (end_lease_local (w_hub w) sid worker lease)) []
| StepExpireRows w now eid d' ps l :
    expire_rows classify_host_message (w_db w) now eid = Ok (d', ps, l) → step w (set_db w d') []
| StepExpireMemory w l : step w (set_hub w (expire_memory (w_hub w) l).1) []
| StepExpireCommand w now e0 e1 e2 e3 e :
    let out := expire_command classify_host_message session_model (w_hub w) (w_db w) now e0 e1 e2 e3 e in
    step w (set_db (set_hub w out.1) match out.2 with Ok (d', _, _) => d' | Err _ => w_db w end) []
(* reconnects and inventories *)
| StepReadRows w :
    step w (set_reads w (w_reads w) ((snd <$> map_to_list (sessions (w_db w))) ++ w_rows w) (w_entries w)
              (w_held w)) []
| StepRestore w now ref c claimed rows :
    h_objs (w_hub w) !! ref = Some c →
    (∀ r, r ∈ rows → r ∈ w_rows w ∧ worker_id (s_lease r) = Some (c_worker c)) →
    step w (set_hub w (restore_memory cfg (w_hub w) now ref (c_worker c) claimed rows).1) []
| StepReconcile w now e0 e1 e2 e3 worker reported unleased conn orphan_missing :
    let out := reconcile_inventory classify_host_message session_model (w_hub w) (w_db w) now e0 e1 e2 e3
                 worker reported unleased conn orphan_missing in
    step w (set_db (set_hub w out.1) match out.2 with Ok (d', _, _, _) => d' | Err _ => w_db w end) []
(* deltas *)
| StepDelta w now ref c e row :
    h_objs (w_hub w) !! ref = Some c →
    match row with Some r => r ∈ w_rows w ∧ s_id r = env_session e | None => True end →
    let out := handle_delta parse_delta (w_hub w) now c e row in
    step w (set_hub w out.1.1) match out.2 with Some (sid, _) => [OutDelta ref sid] | None => [] end
| StepStored w sid bodies : step w (set_hub w (note_stored_events (w_hub w) sid bodies)) []
(* every other transaction: ingest, renewals, ended turns, new sessions *)
| StepDb w d' : lease_le (w_db w) d' → step w (set_db w d') [].

(** The steps of a run, newest first: the state each left and what it sent out. *)
Inductive reach (w0 : world) : world → list (world * list output) → Prop :=
| ReachStart : reach w0 w0 []
| ReachStep w w' outs tr : reach w0 w tr → step w w' outs → reach w0 w' ((w, outs) :: tr).
End system.

(** ** The invariant of the system *)

Abbreviation leases_of := (gmap uuid (uuid * uuid)) (only parsing).

Record grant_ok (placed : leases_of) (h : hub) (g : grant) : Prop := {
  go_placed : placed !! g_lease g = Some (g_worker g, g_sid g);
  go_conn : ∃ c, h_objs h !! g_ref g = Some c ∧ c_worker c = g_worker g;
  go_fresh : (g_entry g < next_ref (h_queue h))%N;
  go_entry : ∀ l e, e ∈ queue_of (h_queue h) l → p_ref e = g_entry g →
    p_lease e = g_lease g ∧ p_session e = g_sid g
}.
Definition refs_ok (q : command_queue) : Prop :=
  odict_ok (by_lease q) ∧ ∀ l e, e ∈ queue_of q l → (p_ref e < next_ref q)%N.
Definition held_ok (granted : leases_of) (h : hub) (p : N * uuid) : Prop :=
  ∃ c s, h_objs h !! p.1 = Some c ∧ granted !! p.2 = Some (c_worker c, s).
Definition read_ok (granted : leases_of) (x : session_row * uuid * uuid) : Prop :=
  granted !! x.2 = Some (x.1.2, s_id x.1.1).

Record winv (w : world) : Prop := {
  wi_keyed : keyed (w_db w);
  wi_db : ∀ sid r, sessions (w_db w) !! sid = Some r → row_ok (w_granted w) r;
  wi_bounded : bounded (w_placed w);
  wi_sub : w_granted w ⊆ w_placed w;
  wi_hub : hub_ok (w_placed w) (w_granted w) (w_hub w);
  wi_refs : refs_ok (h_queue (w_hub w));
  wi_grants : Forall (grant_ok (w_placed w) (w_hub w)) (w_grants w);
  wi_commits : Forall (λ p, grant_ok (w_placed w) (w_hub w) p.1
     ∧ w_granted w !! g_lease p.1 = Some (g_worker p.1, g_sid p.1)) (w_commits w);
  wi_reads : Forall (read_ok (w_granted w)) (w_reads w);
  wi_rows : Forall (row_ok (w_granted w)) (w_rows w);
  wi_entries : Forall (entry_ok (w_placed w)) (w_entries w);
  wi_held : Forall (held_ok (w_granted w) (w_hub w)) (w_held w)
}.

(** What an output says about the state it leaves. *)
Definition output_ok (w : world) (o : output) : Prop :=
  match o with
  | OutFrame ref wire => ∃ c l s, h_objs (w_hub w) !! ref = Some c
      ∧ w_granted w !! l = Some (c_worker c, s) ∧ names wire l s
  | OutDelta ref sid => ∃ c l, h_objs (w_hub w) !! ref = Some c
      ∧ l ∈ c_leases c ∧ w_granted w !! l = Some (c_worker c, sid)
  end.

Lemma refs_ok_le q q' : queue_le q q' → refs_ok q → refs_ok q'.
Proof.
  intros (Hn & Ho & H) [Hk Hr]. split; [auto|]. intros l e He. destruct (H l e He) as [(x & Hx & Hxe & _)|?]; [|lia].
  specialize (Hr l x Hx). lia.
Qed.
Lemma grant_ok_keeps placed granted h h' g : keeps placed granted h h' → grant_ok placed h g → grant_ok placed h' g.
Proof.
  intros [_ Ho (Hn & _ & Hq)] []. split; [done| |lia|].
  - destruct go_conn0 as (c & Hc & Hw). destruct (Ho _ _ Hc) as (c' & Hc' & Hw'). exists c'.
    split; [done|congruence].
  - intros l e He Hr. destruct (Hq l e He) as [(x & Hx & H1 & H2 & H3)|?]; [|lia].
    destruct (go_entry0 l x Hx) as [? ?]; [congruence|]. split; congruence.
Qed.
Lemma held_ok_keeps placed granted h h' p : keeps placed granted h h' → held_ok granted h p → held_ok granted h' p.
Proof.
  intros [_ Ho _] (c & s & Hc & Hg). destruct (Ho _ _ Hc) as (c' & Hc' & Hw'). exists c', s.
  split; [done|]. by rewrite Hw'.
Qed.

(** A step of the replica's memory. *)
Lemma winv_hub w h' : winv w → keeps (w_placed w) (w_granted w) (w_hub w) h' → winv (set_hub w h').
Proof.
  intros [] Hk. split; try done.
  - by apply (kp_ok _ _ _ _ Hk).
  - by eapply refs_ok_le; [apply (kp_queue _ _ _ _ Hk)|].
  - eapply list.Forall_impl; [exact wi_grants0|]. intros g Hg. by eapply grant_ok_keeps.
  - eapply list.Forall_impl; [exact wi_commits0|]. intros g [Hg ?]. split; [|done]. by eapply grant_ok_keeps.
  - eapply list.Forall_impl; [exact wi_held0|]. intros p Hp. by eapply held_ok_keeps.
Qed.
(** A transaction that grants nothing. *)
Lemma winv_db w d' : winv w → lease_le (w_db w) d' → winv (set_db w d').
Proof.
  intros [] Hd. destruct (Hd wi_keyed0) as [Hk Hr]. split; try done.
  intros sid r' Hr' l Hl. destruct (Hr sid r' Hr') as [?|(r & Hr0 & E1 & E2)]; [congruence|].
  destruct (wi_db0 sid r Hr0 l) as (wk & Hwk & Hg); [congruence|]. exists wk. split; [congruence|].
  by rewrite (Hk _ _ Hr'), <- (wi_keyed0 _ _ Hr0).
Qed.
Lemma winv_tasks w grants commits :
  winv w → (∀ g, g ∈ grants → g ∈ w_grants w) → (∀ g, g ∈ commits → g ∈ w_commits w) →
  winv (set_tasks w grants commits).
Proof.
  intros [] H1 H2. split; try done; apply list.Forall_forall.
  - intros g Hg. rewrite list.Forall_forall in wi_grants0. auto.
  - intros g Hg. rewrite list.Forall_forall in wi_commits0. auto.
Qed.

Lemma row_ok_granted granted l x r : 
  (∀ y, granted !! l = Some y → y = x) → row_ok granted r → row_ok (<[l := x]> granted) r.
Proof.
  intros Hx Hr l' Hl'. destruct (Hr l' Hl') as (wk & Hw & Hg). exists wk. split; [done|].
  destruct (decide (l = l')) as [->|]; [|by rewrite lookup_insert_ne].
  rewrite lookup_insert_eq. f_equal. symmetry. by apply Hx.
Qed.

Lemma granted_same w g : winv w → w_placed w !! g_lease g = Some (g_worker g, g_sid g) →
  ∀ y, w_granted w !! g_lease g = Some y → y = (g_worker g, g_sid g).
Proof. intros Hi Hp y Hy. pose proof (lookup_weaken _ _ _ _ Hy (wi_sub _ Hi)). congruence. Qed.

Lemma granted_mono (granted : leases_of) l x l' y :
  (∀ z, granted !! l = Some z → z = x) → granted !! l' = Some y → <[l := x]> granted !! l' = Some y.
Proof.
  intros Hz Hy. destruct (decide (l = l')) as [->|]; [|by rewrite lookup_insert_ne].
  rewrite lookup_insert_eq. f_equal. symmetry. by apply Hz.
Qed.

(** The database grants a lease: the row says so from now on. *)
Lemma commit_grant_row d now g d' row :
  keyed d → commit_grant d now g = (d', Some row) →
  keyed d' ∧ s_id row = g_sid g
  ∧ lease_id (s_lease row) = Some (g_lease g) ∧ worker_id (s_lease row) = Some (g_worker g)
  ∧ sessions d' = <[g_sid g := row]> (sessions d).
Proof.
  intros Hk. unfold commit_grant, set_session_lease.
  destruct (get_session d (g_tenant g) (g_sid g) None) as [r|] eqn:Hg; [|done].
  destruct (lease_free r now); [|done]. intros [= <- <-].
  apply get_session_ids in Hg as [_ Hr]. pose proof (Hk _ _ Hr) as Hid. split_and!; try done.
  - intros sid x. cbn. intros [[<- <-]|[_ Hx]]%lookup_insert_Some; [done|by apply Hk].
  - cbn. by rewrite Hid.
Qed.

Lemma hub_ok_granted placed granted h l x :
  (∀ y, granted !! l = Some y → y = x) → hub_ok placed granted h → hub_ok placed (<[l := x]> granted) h.
Proof.
  intros Hx [Hobjs Hconns Hqueue Hdeltas]. split; [|done|done|].
  - intros ref c Hc k Hk. destruct (Hobjs ref c Hc k Hk) as [s Hs]. exists s. by apply granted_mono.
  - intros sid k Hk. apply granted_mono; auto.
Qed.

Lemma winv_commit w now g l1 l2 d' row :
  winv w → w_grants w = l1 ++ g :: l2 → commit_grant (w_db w) now g = (d', Some row) →
  winv (set_tasks (set_granted (set_db w d') (<[g_lease g := (g_worker g, g_sid g)]> (w_granted w)))
          (l1 ++ l2) (w_commits w ++ [(g, row)])).
Proof.
  intros Hi Hg Hc. pose proof Hi as [].
  assert (grant_ok (w_placed w) (w_hub w) g) as Hgo.
  { rewrite list.Forall_forall in wi_grants0. apply wi_grants0. rewrite Hg. apply elem_of_app. right. by left. }
  pose proof (granted_same w g Hi (go_placed _ _ _ Hgo)) as Hsame.
  destruct (commit_grant_row _ _ _ _ _ wi_keyed0 Hc) as (Hk & Hid & Hl & Hw & Hs).
  split; cbn; try done.
  - intros sid r. rewrite Hs. intros [[<- <-]|[_ Hr]]%lookup_insert_Some.
    + intros l Hl'. exists (g_worker g). split; [done|].
      assert (l = g_lease g) as -> by congruence. by rewrite lookup_insert_eq, Hid.
    + apply row_ok_granted; [done|]. by eapply wi_db0.
  - apply map_subseteq_spec. intros l x [[<- <-]|[_ Hx]]%lookup_insert_Some; [apply Hgo|].
    by eapply lookup_weaken.
  - by apply hub_ok_granted.
  - rewrite Hg in wi_grants0. apply Forall_app in wi_grants0 as [H1 H2]. apply Forall_app. split; [done|].
    by apply Forall_cons_1 in H2 as [_ H2].
  - apply Forall_app. split.
    + eapply list.Forall_impl; [exact wi_commits0|]. intros p [Hp1 Hp2]. split; [done|]. by apply granted_mono.
    + constructor; [|constructor]. split; [done|]. apply lookup_insert_eq.
  - eapply list.Forall_impl; [exact wi_reads0|]. intros x Hx. by apply granted_mono.
  - eapply list.Forall_impl; [exact wi_rows0|]. intros x Hx. by apply row_ok_granted.
  - eapply list.Forall_impl; [exact wi_held0|]. intros p (c & s & Hp1 & Hp2). exists c, s.
    split; [done|]. by apply granted_mono.
Qed.

(** A new lease id. *)
Lemma winv_placed w lease x :
  winv w → w_placed w !! lease = None → (lease < 2 ^ 128)%N → (x.2 < 2 ^ 128)%N →
  winv (set_placed w (<[lease := x]> (w_placed w))).
Proof.
  intros [] Hn Hl Hx.
  assert (∀ g h, grant_ok (w_placed w) h g → grant_ok (<[lease := x]> (w_placed w)) h g) as Hgo.
  { intros g h []. split; try done. rewrite lookup_insert_ne; [done|]. congruence. }
  assert (∀ e, entry_ok (w_placed w) e → entry_ok (<[lease := x]> (w_placed w)) e) as He.
  { intros e (wk & H1 & H2 & H3). exists wk. split_and!; [done| |done].
    rewrite lookup_insert_ne; [done|]. congruence. }
  split; cbn; try done.
  - intros l wk s [[<- ->]|[_ H]]%lookup_insert_Some; [done|by eapply wi_bounded0].
  - etrans; [exact wi_sub0|]. by apply insert_subseteq.
  - by apply placed_weaken.
  - eapply list.Forall_impl; [exact wi_grants0|]. intros g. apply Hgo.
  - eapply list.Forall_impl; [exact wi_commits0|]. intros p [Hp ?]. split; [|done]. by apply Hgo.
  - eapply list.Forall_impl; [exact wi_entries0|exact He].
Qed.

Lemma enqueue_push h now wire c h' e :
  enqueue h now wire c = (h', Ok e) →
  ∃ q', push (h_queue h) now wire (Some (c_worker c)) = (q', Ok e) ∧ h' = with_queue h q'.
Proof.
  unfold enqueue. destruct (require_credential_isolation _ _); [|done]. destruct (decide _); [|done].
  destruct (push _ _ _ _) as [q [x|[]]]; intros [= <- <-]. eauto.
Qed.

Section preserve.
Context (cfg : fleet_settings).
Context (validate_payload : string → list (string * json) → option (list (string * json))).
Context (dump : list (string * json) → list (string * json)).
Context (valid_context : json → bool).
Context (parse_delta : list (string * json) → option delta_payload).
Context (classify_host_message : string → failure).
Context (session_model : db → session_row → option string).
#[local] Abbreviation step := (step cfg validate_payload dump valid_context parse_delta
  classify_host_message session_model).
#[local] Abbreviation place := (place cfg validate_payload dump valid_context).

Lemma winv_place w now row op payload lease command pin h' g :
  winv w → w_placed w !! lease = None → (lease < 2 ^ 128)%N → (s_id row < 2 ^ 128)%N →
  place (w_hub w) now row op payload lease command pin = (h', Ok (Some g)) →
  winv (set_tasks (set_placed (set_hub w h') (<[lease := (g_worker g, g_sid g)]> (w_placed w)))
          (w_grants w ++ [g]) (w_commits w)).
Proof.
  intros Hi Hn Hl Hs Hp.
  destruct (place_inv _ _ _ _ _ _ _ _ _ _ _ _ _ _ Hp)
    as (conn & wire & body & e & Hc & -> & Hq & E1 & E2 & E3 & _ & _ & E4).
  pose proof (winv_placed w lease (g_worker g, g_sid g) Hi Hn Hl) as H1. cbn [snd] in H1.
  rewrite E2 in *. specialize (H1 Hs). rewrite E3 in *.
  set (placed := <[lease := (c_worker conn, s_id row)]> (w_placed w)) in *.
  destruct (enqueue_keeps dump placed (w_granted w) (w_hub w) now conn command (s_id row) lease op body)
    as [Hk He]; [done|done|apply lookup_insert_eq|].
  rewrite Hq in Hk, He. cbn [fst snd] in Hk, He. destruct He as (F1 & F2 & _).
  destruct (enqueue_push _ _ _ _ _ _ Hq) as (q' & Hpush & Hh').
  destruct (push_new _ _ _ _ _ _ Hpush) as (N1 & N2 & N3).
  pose proof (winv_hub _ h' H1 Hk) as H2.
  assert (grant_ok placed h' g) as Hg.
  { split.
    - rewrite E1, E2, E3. apply lookup_insert_eq.
    - destruct (kp_objs _ _ _ _ Hk _ _ Hc) as (c' & Hc' & Hw). exists c'. split; [done|congruence].
    - rewrite E4, N1, Hh'. cbn. lia.
    - intros l x Hx Hr. rewrite Hh' in Hx. cbn in Hx. rewrite E1, E2, <- F1, <- F2.
      destruct (N3 l x Hx) as [->|Hold]; [done|].
      pose proof (proj2 (wi_refs _ Hi) l x Hold). lia. }
  destruct H2. split; try done. cbn. apply Forall_app. split; [done|]. by constructor.
Qed.
Lemma winv_place_not w now row op payload lease command pin h' out :
  winv w → w_placed w !! lease = None → (lease < 2 ^ 128)%N → (s_id row < 2 ^ 128)%N →
  place (w_hub w) now row op payload lease command pin = (h', out) →
  match out with Ok (Some _) => False | _ => True end → winv (set_hub w h').
Proof.
  intros Hi Hn Hl Hs Hp Hout.
  pose proof (place_inv _ _ _ _ _ _ _ _ _ _ _ _ _ _ Hp) as H.
  assert (h' = w_hub w ∨ ∃ conn wire body x ref, h_objs (w_hub w) !! ref = Some conn
    ∧ wire = command_wire dump command (s_id row) lease op body
    ∧ enqueue (w_hub w) now wire conn = (h', Err x)) as Hcase by by destruct out as [[g|]|x].
  destruct Hcase as [->|(conn & wire & body & x & ref & Hc & -> & Hq)]; [by destruct w|].
  apply winv_hub; [done|].
  (* a refused push leaves the entries as they were *)
  unfold enqueue in Hq. destruct (require_credential_isolation _ _); [|by injection Hq as <- _].
  destruct (decide _); [|by injection Hq as <- _].
  pose proof (push_all (entry_ok (w_placed w)) (h_queue (w_hub w)) now
    (command_wire dump command (s_id row) lease op body) (Some (c_worker conn))) as Ha.
  pose proof (push_le (h_queue (w_hub w)) now
    (command_wire dump command (s_id row) lease op body) (Some (c_worker conn))) as Hle.
  destruct (push _ _ _ _) as [q [e|[]]]; [done|..]; injection Hq as <- _; by apply keep_queue.
Qed.

Lemma winv_finish w now g row l1 l2 h' out :
  winv w → w_commits w = l1 ++ (g, row) :: l2 →
  finish_grant validate_payload dump (w_hub w) now g row = (h', out) →
  winv (set_tasks (set_hub w h') (w_grants w) (l1 ++ l2))
  ∧ match out with Ok wire => output_ok w (OutFrame (g_ref g) wire) | Err _ => True end.
Proof.
  intros Hi Hg Hf.
  assert (grant_ok (w_placed w) (w_hub w) g ∧ w_granted w !! g_lease g = Some (g_worker g, g_sid g)) as [Hgo Hgr].
  { pose proof (wi_commits _ Hi) as Hall. rewrite list.Forall_forall in Hall. apply (Hall (g, row)).
    rewrite Hg. apply elem_of_app. right. by left. }
  destruct (go_conn _ _ _ Hgo) as (c & Hc & Hw).
  destruct (finish_keeps validate_payload dump (w_placed w) (w_granted w) (w_hub w) now g row c Hgr Hc Hw
    (go_entry _ _ _ Hgo)) as [Hk Hn]. rewrite Hf in Hk, Hn. cbn [fst snd] in *. split.
  - apply winv_tasks; [by apply winv_hub|done|]. cbn. rewrite Hg. intros p. rewrite !elem_of_app.
    intros [?|?]; [by left|right; by right].
  - destruct out as [wire|]; [|done]. exists c, (g_lease g), (g_sid g). rewrite Hw. done.
Qed.

Lemma winv_command w now x op payload command h' out :
  winv w → x ∈ w_reads w →
  send_command validate_payload dump valid_context (w_hub w) now x op payload command = (h', out) →
  winv (set_hub w h')
  ∧ match out with Ok (Some (ref, _, wire)) => output_ok w (OutFrame ref wire) | _ => True end.
Proof.
  intros Hi Hx Hs. destruct x as [[row worker] lease].
  assert (w_granted w !! lease = Some (worker, s_id row)) as Hg.
  { pose proof (wi_reads _ Hi) as Hall. rewrite list.Forall_forall in Hall. apply (Hall _ Hx). }
  destruct (send_command_keeps validate_payload dump valid_context (w_placed w) (w_granted w) (w_hub w) now row worker
    lease op payload command (wi_bounded _ Hi) (wi_sub _ Hi) (wi_hub _ Hi) Hg) as [Hk Ho].
  rewrite Hs in Hk, Ho. cbn [fst snd] in *. split; [by apply winv_hub|].
  destruct out as [[[[ref e] wire]|]|]; try done. destruct Ho as [Hn (c & Hc & Hw)].
  exists c, lease, (s_id row). by rewrite Hw.
Qed.

Lemma winv_snapshot w ref c :
  winv w → h_objs (w_hub w) !! ref = Some c →
  winv (set_reads w (w_reads w) (w_rows w) (all_entries (h_queue (w_hub w)) ++ w_entries w)
          (((λ l, (ref, l)) <$> elements (c_leases c)) ++ w_held w)).
Proof.
  intros Hi Hc. destruct Hi. split; try done; cbn; apply Forall_app; (split; [|done]).
  - apply list.Forall_forall. intros e He. apply elem_of_entries in He as [lease He]; [|apply wi_refs0].
    by apply (hk_queue _ _ _ wi_hub0 lease e).
  - apply list.Forall_forall. intros p (l & -> & Hl)%list_elem_of_fmap.
    apply elem_of_elements in Hl. destruct (hk_objs _ _ _ wi_hub0 _ _ Hc l Hl) as [s Hs]. by exists c, s.
Qed.

Lemma winv_release w now tenant sid lease :
  winv w → let out := release_lease (w_hub w) (w_db w) now tenant sid lease in
  winv (set_db (set_hub w out.1) out.2).
Proof.
  intros Hi. cbn zeta.
  assert (lease_le (w_db w) (release_lease (w_hub w) (w_db w) now tenant sid lease).2) as Hd.
  { unfold release_lease. destruct (get_session (w_db w) tenant sid None); [|done]. case_decide; [done|].
    pose proof (lease_le_clear (w_db w) now tenant sid (wi_keyed _ Hi)) as Hcl.
    by destruct (clear_session_lease _ _ _ _). }
  apply winv_db; [|done]. apply winv_hub; [done|apply keep_release].
Qed.

Lemma winv_open w ref c :
  winv w → h_objs (w_hub w) !! ref = None → c_leases c = ∅ →
  winv (set_hub w (with_objs (w_hub w) (<[ref := c]> (h_objs (w_hub w))))).
Proof.
  intros Hi Hn Hl. apply winv_hub; [done|]. split; [| |done].
  - intros [Hobjs Hconns Hqueue Hdeltas]. split; [| |done|done].
    + intros r x. cbn. intros [[<- <-]|[_ Hx]]%lookup_insert_Some; [|by eapply Hobjs].
      intros l. by rewrite Hl.
    + intros wk r Hw. destruct (Hconns wk r Hw) as (x & Hx & Hxw). exists x. cbn.
      rewrite lookup_insert_ne; [done|]. congruence.
  - intros r x Hx. cbn. exists x. rewrite lookup_insert_ne; [done|]. congruence.
Qed.

Lemma step_winv w w' outs : step w w' outs → winv w → winv w' ∧ Forall (output_ok w) outs.
Proof.
  intros Hs Hi. pose proof Hi as Hi'. destruct Hi'.
  destruct Hs; try (split; [|by constructor]).
  - by apply winv_open.
  - apply winv_hub; [done|by apply keep_attach].
  - apply winv_hub; [done|apply keep_detach].
  - apply winv_hub; [done|]. apply keep_update_conn. intros c _. destruct (H c) as [Hw Hl].
    split; [done|]. intros Hok l. rewrite Hl, Hw. apply Hok.
  - by eapply winv_place.
  - by eapply winv_place_not.
  - by eapply winv_commit.
  - apply winv_tasks; [apply winv_hub; [done|apply keep_drop]| |done]. cbn. rewrite H.
    intros x. rewrite !elem_of_app. intros [?|?]; [by left|right; by right].
  - apply winv_tasks; [done| |done]. rewrite H. intros x. rewrite !elem_of_app.
    intros [?|?]; [by left|right; by right].
  - destruct (winv_finish w now g row l1 l2 h' out Hi H H0) as [H1 H2]. split; [done|].
    destruct out; [by constructor|by constructor].
  - split; try done. constructor; [|done]. unfold leased in H.
    destruct (get_session (w_db w) tenant sid None) as [r|] eqn:Hr; cbn in H; [|done].
    destruct (lease_id (s_lease r)) as [l|] eqn:Hl; cbn in H; [|done].
    destruct (worker_id (s_lease r)) as [wk|] eqn:Hw; cbn in H; [|done]. injection H as <-.
    apply get_session_ids in Hr as [_ Hr]. destruct (wi_db0 _ _ Hr l Hl) as (wk' & Hwk' & Hg).
    unfold read_ok. cbn. congruence.
  - destruct (winv_command w now x op payload command h' out Hi H H0) as [H1 H2]. split; [done|].
    destruct out as [[[[? ?] ?]|]|]; by repeat constructor.
  - apply winv_hub; [done|apply keep_note_sent].
  - apply winv_hub; [done|apply keep_send_failed].
  - apply winv_hub; [done|apply keep_ack].
  - by apply winv_snapshot.
  - split; [done|]. constructor; [|constructor].
    rewrite list.Forall_forall in wi_entries0. rewrite list.Forall_forall in wi_held0.
    destruct (wi_entries0 e H) as (wk & Hw & Hp & Hn). destruct (wi_held0 _ H0) as (c & s & Hc & Hg).
    cbn in Hc, Hg. exists c, (p_lease e), s. split_and!; [done|done|].
    pose proof (lookup_weaken _ _ _ _ Hg wi_sub0) as Hg'. by assert (s = p_session e) as -> by congruence.
  - apply winv_hub; [done|apply keep_releases].
  - apply winv_hub; [done|]. unfold end_release. destruct (h_releases (w_hub w) !! lease); [|done].
    destruct (0 <? _); apply keep_releases.
  - by apply winv_release.
  - apply winv_hub; [done|apply keep_end_local].
  - apply winv_db; [done|]. by eapply lease_le_expire.
  - apply winv_hub; [done|apply keep_expire_memory].
  - apply winv_db; [apply winv_hub; [done|apply expire_command_keeps]|]. cbn [w_db set_hub].
    destruct out.2 as [[[d' ps] rv]|] eqn:E; [|done].
    by eapply expire_command_leases.
  - split; try done. apply Forall_app. split; [|done]. apply list.Forall_forall.
    intros r (p & -> & Hp)%list_elem_of_fmap. destruct p as [sid r]. apply elem_of_map_to_list in Hp.
    by eapply wi_db0.
  - apply winv_hub; [done|]. eapply restore_keeps; [done|done|]. apply list.Forall_forall.
    intros r Hr. destruct (H0 r Hr) as [Hin Hw]. split; [|done].
    rewrite list.Forall_forall in wi_rows0. auto.
  - apply winv_db; [apply winv_hub; [done|apply reconcile_keeps]|]. cbn [w_db set_hub].
    destruct out.2 as [[[[d' ps] rv] ttl]|] eqn:E; [|done].
    by eapply reconcile_leases.
  - destruct (delta_keeps parse_delta (w_placed w) (w_granted w) (w_hub w) now c e row) as [Hk Ho].
    + done.
    + by eapply hk_objs.
    + intros r l -> Hl. destruct H0 as [Hin Hs]. split; [done|]. rewrite list.Forall_forall in wi_rows0. auto.
    + split; [by apply winv_hub|]. destruct out.2 as [[sid body]|] eqn:E; unfold out in E; rewrite E in Ho; [|done].
      destruct Ho as [-> (l & Hl & Hg)]. constructor; [|constructor]. by exists c, l.
  - apply winv_hub; [done|apply keep_stored].
  - by apply winv_db.
Qed.
(** *** Runs *)

#[local] Abbreviation reach := (reach cfg validate_payload dump valid_context parse_delta
  classify_host_message session_model).

(** A replica starts with no connection, against the leases the database has. *)
Definition start (d : db) (leases : leases_of) : world :=
  World empty_hub d leases leases [] [] [] [] [] [].
Record start_ok (d : db) (leases : leases_of) : Prop := {
  so_keyed : keyed d;
  so_rows : ∀ sid r, sessions d !! sid = Some r → row_ok leases r;
  so_leases : ∀ l worker sid, leases !! l = Some (worker, sid) → leased_row d l worker sid;
  so_bounded : bounded leases
}.

Lemma start_winv d leases : start_ok d leases → winv (start d leases).
Proof.
  intros []. split; cbn; try done.
  - split; cbn; intros ? ? H; by inversion H.
  - split; cbn; [apply odict_ok_empty|]. by intros ???%elem_of_nil.
Qed.
Lemma reach_winv w0 w tr : winv w0 → reach w0 w tr → winv w.
Proof. intros H0. induction 1 as [|w w' outs tr _ IH Hs]; [done|]. by apply (step_winv _ _ _ Hs). Qed.

(** Only the database grants. *)
Lemma step_granted w w' outs l x :
  winv w → step w w' outs → w_granted w' !! l = Some x →
  w_granted w !! l = Some x ∨ leased_row (w_db w') l x.1 x.2.
Proof.
  intros Hi. destruct 1 as [| | | | | |w now g l1 l2 d' row Hg Hc| | | | | | | | | | | | | | | | | | | | | | |]; try by left.
  cbn. intros [[<- <-]|[_ H]]%lookup_insert_Some; [|by left]. right.
  destruct (commit_grant_row _ _ _ _ _ (wi_keyed _ Hi) Hc) as (_ & _ & ? & ? & Hs).
  exists row. rewrite Hs. split_and!; [apply lookup_insert_eq|done|done].
Qed.
Lemma reach_granted d leases w tr l x :
  start_ok d leases → reach (start d leases) w tr → w_granted w !! l = Some x →
  ∃ w1, w1 ∈ w :: tr.*1 ∧ leased_row (w_db w1) l x.1 x.2.
Proof.
  intros Hok Hr Hl. destruct x as [worker sid]. cbn [fst snd]. induction Hr as [|w w' outs tr Hr IH Hs].
  - exists (start d leases). split; [by left|]. by apply (so_leases _ _ Hok).
  - pose proof (reach_winv _ _ _ (start_winv _ _ Hok) Hr) as Hi.
    destruct (step_granted _ _ _ _ _ Hi Hs Hl) as [H|H].
    + destruct (IH H) as (w1 & H1 & ?). exists w1. split; [|done]. by right.
    + exists w'. split; [by left|done].
Qed.

(** C8: A command frame only goes to the worker of the session it names: in every
    run of the hub, however its operations interleave, the frame names a lease, and
    in some state of the run so far the session's row was leased to the worker of
    that connection under that lease. *)
Theorem frame_to_leaseholder d leases w tr w' outs ref wire :
  start_ok d leases → reach (start d leases) w tr → step w w' outs → OutFrame ref wire ∈ outs →
  ∃ c lease sid w1, h_objs (w_hub w) !! ref = Some c ∧ names wire lease sid
    ∧ w1 ∈ w :: tr.*1 ∧ leased_row (w_db w1) lease (c_worker c) sid.
Proof.
  intros Hok Hr Hs Ho. pose proof (reach_winv _ _ _ (start_winv _ _ Hok) Hr) as Hi.
  destruct (step_winv _ _ _ Hs Hi) as [_ Hall]. rewrite list.Forall_forall in Hall.
  destruct (Hall _ Ho) as (c & l & s & Hc & Hg & Hn).
  destruct (reach_granted _ _ _ _ _ _ Hok Hr Hg) as (w1 & H1 & H2). by exists c, l, s, w1.
Qed.

(** A live delta is only published for a session that its worker has: the
    connection it came in on holds a lease at that moment that the session's row had
    for that connection's worker in some state of the run so far. *)
Theorem delta_from_leaseholder d leases w tr w' outs ref sid :
  start_ok d leases → reach (start d leases) w tr → step w w' outs → OutDelta ref sid ∈ outs →
  ∃ c lease w1, h_objs (w_hub w) !! ref = Some c ∧ lease ∈ c_leases c
    ∧ w1 ∈ w :: tr.*1 ∧ leased_row (w_db w1) lease (c_worker c) sid.
Proof.
  intros Hok Hr Hs Ho. pose proof (reach_winv _ _ _ (start_winv _ _ Hok) Hr) as Hi.
  destruct (step_winv _ _ _ Hs Hi) as [_ Hall]. rewrite list.Forall_forall in Hall.
  destruct (Hall _ Ho) as (c & l & Hc & Hl & Hg).
  destruct (reach_granted _ _ _ _ _ _ Hok Hr Hg) as (w1 & H1 & H2). by exists c, l, w1.
Qed.
End preserve.
