(* ===== verification/HubCapacity.v ===== *)
(** * The room of a worker

    The hub places a session on a worker with a free slot and enough memory, and
    the lease counts against both once its transaction has committed.  A grant that
    nothing interrupts keeps every worker within its capacity and memory; two
    grants that interleave at that transaction need not. *)

From S2P Require Import Prelude PyStd Protocol CommandQueue Db Fleet Commands Sandbox Usage Accounting IngestSpec TurnState Hub HubProps HubSystem.

Open Scope Z_scope.

(** ** A grant that nothing interrupts *)

(** The leases of a connection are within its capacity, the memory of each is
    known, and their sum is within the worker's budget. *)
Record within (c : connection) : Prop := {
  wt_capacity : Z.of_nat (size (c_leases c)) ≤ c_capacity c;
  wt_known : ∀ l, l ∈ c_leases c → is_Some (c_lease_mem c !! l);
  wt_memory : lease_used_mem c 0 ≤ c_memory_mb c
}.

Lemma sum_over_add (f : uuid → Z) (x : uuid) (X : gset uuid) :
  x ∉ X → set_fold (λ l acc, f l + acc) 0 ({[x]} ∪ X) = f x + set_fold (λ l acc, f l + acc) 0 X.
Proof.
  intros Hx. rewrite (union_comm_L {[x]}).
  rewrite (set_fold_disj_union_strong (=)); [by rewrite set_fold_singleton|apply _| |set_solver].
  intros; lia.
Qed.
Lemma sum_over_ext (f g : uuid → Z) (X : gset uuid) :
  (∀ x, x ∈ X → f x = g x) → set_fold (λ l acc, f l + acc) 0 X = set_fold (λ l acc, g l + acc) 0 X.
Proof.
  induction X as [|x X Hx IH] using set_ind_L; intros Hfg; [by rewrite !set_fold_empty|].
  rewrite !sum_over_add, IH, Hfg by set_solver. done.
Qed.
(** The memory a lease counts for, when every lease is known, needs no default. *)
Lemma used_mem_known c m m' :
  (∀ l, l ∈ c_leases c → is_Some (c_lease_mem c !! l)) → lease_used_mem c m = lease_used_mem c m'.
Proof. intros Hk. apply sum_over_ext. intros x Hx. by destruct (Hk x Hx) as [v ->]. Qed.
Lemma used_mem_add c lease mem m :
  lease ∉ c_leases c → lease_used_mem (add_lease lease mem c) m = mem + lease_used_mem c m.
Proof.
  intros Hn. unfold lease_used_mem, add_lease, set_leases. cbn [c_leases c_lease_mem].
  rewrite (sum_over_add (λ l, default m (<[lease:=mem]> (c_lease_mem c) !! l))) by done.
  rewrite lookup_insert_eq. cbn. f_equal. apply sum_over_ext. intros x Hx.
  rewrite lookup_insert_ne; [done|]. congruence.
Qed.
Lemma within_add c lease mem :
  lease ∉ c_leases c → Z.of_nat (size (c_leases c)) + 1 ≤ c_capacity c →
  lease_used_mem c mem + mem ≤ c_memory_mb c → within c → within (add_lease lease mem c).
Proof.
  intros Hn Hcap Hmem []. split.
  - cbn. rewrite size_union by set_solver. rewrite size_singleton. lia.
  - intros l. cbn. intros [->%elem_of_singleton|Hl]%elem_of_union; [by rewrite lookup_insert_eq|].
    rewrite lookup_insert_is_Some. destruct (decide (lease = l)); auto.
  - rewrite used_mem_add by done. cbn [c_memory_mb add_lease set_leases].
    rewrite (used_mem_known c 0 mem) by done. lia.
Qed.

Section acquire.
Context (cfg : fleet_settings).
Context (validate_payload : string → list (string * json) → option (list (string * json))).
Context (dump : list (string * json) → list (string * json)).
Context (valid_context : json → bool).

Lemma enqueue_objs h now wire c : h_objs (enqueue h now wire c).1 = h_objs h.
Proof.
  unfold enqueue. destruct (require_credential_isolation _ _); [|done]. case_decide; [|done].
  by destruct (push _ _ _ _) as [q [x|[]]].
Qed.
(** A placed command waits for a worker with room for its session. *)
Lemma place_room h now row op payload lease command pin h' out :
  place cfg validate_payload dump valid_context h now row op payload lease command pin = (h', out) →
  h_objs h' = h_objs h
  ∧ match out with
    | Ok (Some g) => g_lease g = lease ∧ ∃ c, h_objs h !! g_ref g = Some c
        ∧ Z.of_nat (size (c_leases c)) + 1 ≤ c_capacity c ∧ lease_used_mem c (g_mem g) + g_mem g ≤ c_memory_mb c
    | _ => True
    end.
Proof.
  unfold place. destruct (plan _ _ _ _ _ _ _ _ _ _ _) as [[[[[[ref conn] wire] body] mem]|]|x] eqn:E.
  2, 3: by intros [= <- <-].
  apply plan_inv in E as (Href & -> & Hf). apply feasible_room in Hf.
  set (w := command_wire _ _ _ _ _ _). pose proof (enqueue_objs h now w conn) as Ho.
  destruct (enqueue h now w conn) as [h1 [e|x]]; intros [= <- <-]; (split; [done|]); [|done].
  split; [done|]. by exists conn.
Qed.
Lemma finish_objs h now g row h' out :
  finish_grant validate_payload dump h now g row = (h', out) →
  h_objs h' = h_objs h ∨ h_objs h' = alter (add_lease (g_lease g) (g_mem g)) (g_ref g) (h_objs h).
Proof.
  unfold finish_grant. case_decide.
  - destruct (command_payload _ _ _ _ _ _); cbn [mbind res_bind]; intros [= <- <-]; auto.
  - intros [= <- <-]. by right.
Qed.

(** A grant that nothing interrupts keeps every worker within its capacity and
    its memory: when each connection is within both before, it is after. *)
Theorem acquire_within h d now row op payload lease command pin :
  map_Forall (λ _ c, within c ∧ lease ∉ c_leases c) (h_objs h) →
  map_Forall (λ _ c, within c)
    (h_objs (acquire cfg validate_payload dump valid_context h d now row op payload lease command pin).1.1).
Proof.
  intros Hall. assert (map_Forall (λ _ c, within c) (h_objs h)) as Hh.
  { eapply map_Forall_impl; [exact Hall|]. by intros ?? [??]. }
  unfold acquire. destruct (place _ _ _ _ _ _ _ _ _ _ _ _) as [h1 out] eqn:Hp.
  apply place_room in Hp as [Ho Hr]. rewrite <- Ho in Hh, Hall, Hr.
  destruct out as [[g|]|x]; try exact Hh. destruct Hr as (Hl & c & Hc & Hcap & Hmem).
  destruct (commit_grant d now g) as [d' [r|]]; [|exact Hh].
  destruct (finish_grant _ _ h1 now g r) as [h2 out2] eqn:Hf.
  apply finish_objs in Hf as [Hf|Hf]; destruct out2; cbn [fst]; rewrite Hf; try exact Hh.
  all: intros ref x; rewrite lookup_alter_Some; intros [(<- & y & Hy & ->)|[_ Hx]]; [|by apply (Hh ref)].
  all: assert (y = c) as -> by congruence; destruct (Hall _ _ Hc) as [Hw Hn]; rewrite Hl.
  all: by apply within_add.
Qed.
End acquire.

(** ** Runs on concrete inputs *)

Definition run_cfg : fleet_settings := FleetSettings 512 1024 2048 (60 * SECOND).
Definition run_payload (op : string) (f : list (string * json)) : option (list (string * json)) := Some f.
Definition run_dump (f : list (string * json)) : list (string * json) := f.
Definition run_context (j : json) : bool := true.
Definition run_delta (f : list (string * json)) : option delta_payload :=
  match jget "delta" f with Some (JStr s) => Some (DeltaPayload s None) | _ => None end.

#[local] Abbreviation step := (step run_cfg run_payload run_dump run_context run_delta no_classify (λ _ _, None)).
#[local] Abbreviation reach := (reach run_cfg run_payload run_dump run_context run_delta no_classify (λ _ _, None)).

(** The first steps of a session's life, in the order a run takes them. *)
Inductive act : Type :=
| ActConnect (ref : N) (c : connection)
| ActPlace (sid lease command : uuid)
| ActCommit
| ActFinish
| ActReadRows.

Definition run_act (w : world) (a : act) : option (list (world * list output)) :=
  match a with
  | ActConnect ref c =>
      let w1 := set_hub w (with_objs (w_hub w) (<[ref := c]> (h_objs (w_hub w)))) in
      if decide (h_objs (w_hub w) !! ref = None ∧ c_leases c = ∅)
      then Some [(w1, []); (set_hub w1 (attach (w_hub w1) ref c), [])] else None
  | ActPlace sid lease command =>
      r ← sessions (w_db w) !! sid;
      match place run_cfg run_payload run_dump run_context (w_hub w) 0 r "turn.start" (Raw None)
              lease command None with
      | (h', Ok (Some g)) =>
          if decide (w_placed w !! lease = None ∧ (lease < 2 ^ 128)%N ∧ (s_id r < 2 ^ 128)%N) then
            Some [(set_tasks (set_placed (set_hub w h') (<[lease := (g_worker g, g_sid g)]> (w_placed w)))
                     (w_grants w ++ [g]) (w_commits w), [])]
          else None
      | _ => None
      end
  | ActCommit =>
      match w_grants w with
      | g :: l => match commit_grant (w_db w) 0 g with
                  | (d', Some row) =>
                      Some [(set_tasks (set_granted (set_db w d') (<[g_lease g := (g_worker g, g_sid g)]> (w_granted w)))
                               l (w_commits w ++ [(g, row)]), [])]
                  | _ => None end
      | [] => None
      end
  | ActFinish =>
      match w_commits w with
      | (g, row) :: l =>
          match finish_grant run_payload run_dump (w_hub w) 0 g row with
          | (h', Ok wire) => Some [(set_tasks (set_hub w h') (w_grants w) l, [OutFrame (g_ref g) wire])]
          | _ => None
          end
      | [] => None
      end
  | ActReadRows =>
      Some [(set_reads w (w_reads w) ((snd <$> map_to_list (sessions (w_db w))) ++ w_rows w) (w_entries w)
              (w_held w), [])]
  end.

(** Each state of a run is one step after the one before. *)
Fixpoint steps_from (w : world) (l : list (world * list output)) : Prop :=
  match l with [] => True | (w', outs) :: l' => step w w' outs ∧ steps_from w' l' end.
Lemma run_act_steps w a l : run_act w a = Some l → steps_from w l.
Proof.
  destruct a as [ref c|sid lease command| | |]; cbn.
  - case_decide as H; [|done]. destruct H. intros [= <-]. split; [by apply StepOpen|]. split; [|done].
    apply StepAttach. cbn. apply lookup_insert_eq.
  - destruct (sessions (w_db w) !! sid) as [r|]; cbn; [|done].
    destruct (place _ _ _ _ _ _ _ _ _ _ _ _) as [h' [[g|]|]] eqn:Hp; try done.
    case_decide as H; [|done]. destruct H as (? & ? & ?). intros [= <-]. split; [|done]. by eapply StepPlace.
  - destruct (w_grants w) as [|g l'] eqn:Hg; [done|].
    destruct (commit_grant (w_db w) 0 g) as [d' [row|]] eqn:Hc; [|done]. intros [= <-]. split; [|done].
    by apply (StepCommit _ _ _ _ _ _ _ w 0 g [] l').
  - destruct (w_commits w) as [|[g row] l'] eqn:Hg; [done|].
    destruct (finish_grant _ _ _ _ _ _) as [h' [wire|]] eqn:Hf; [|done]. intros [= <-]. split; [|done].
    by apply (StepFinish _ _ _ _ _ _ _ w 0 g row [] l' h' (Ok wire)).
  - intros [= <-]. split; [apply StepReadRows|done].
Qed.

(** The states of a run, newest first. *)
Definition latest (w0 : world) (tr : list (world * list output)) : world := from_option fst w0 (head tr).
Definition run_acts (w0 : world) (acts : list act) : option (list (world * list output)) :=
  foldl (λ acc a, tr ← acc; l ← run_act (latest w0 tr) a; Some (rev l ++ tr)) (Some []) acts.
Definition history (w0 : world) (tr : list (world * list output)) : list (world * list output) :=
  zip (tail (tr.*1) ++ [w0]) tr.*2.
Lemma steps_reach w0 l tr :
  reach w0 (latest w0 tr) (history w0 tr) → steps_from (latest w0 tr) l →
  reach w0 (latest w0 (rev l ++ tr)) (history w0 (rev l ++ tr)).
Proof.
  revert tr. induction l as [|[w' outs] l IH]; intros tr Hr; [done|]. intros [Hs Hl].
  cbn [rev]. rewrite <- app_assoc. apply (IH ((w', outs) :: tr)); [|done].
  unfold history, latest in *. cbn. destruct tr as [|[w o] tr]; cbn in *; by eapply ReachStep.
Qed.
Lemma run_acts_reach w0 acts tr : run_acts w0 acts = Some tr → reach w0 (latest w0 tr) (history w0 tr).
Proof.
  revert tr. unfold run_acts. induction acts as [|a acts IH] using rev_ind; intros tr.
  - intros [= <-]. constructor.
  - rewrite foldl_app. cbn. destruct (foldl _ _ acts) as [t|]; cbn; [|done].
    destruct (run_act (latest w0 t) a) as [l|] eqn:Ha; cbn; [|done]. intros [= <-].
    apply steps_reach; [by apply IH|]. by apply (run_act_steps _ a).
Qed.

Definition run_row (sid : uuid) : session_row :=
  SessionRow sid 1 None "k" None None "idle" (JObj [("type", JStr "none")]%string) (JObj []) (JArr [])
    (LeaseCols None None None 3)
    (SandboxCols None None None None None None None None 0 None) None 0 1.
Definition run_db : db :=
  Db {[ 2%N := run_row 2; 3%N := run_row 3 ]} [] [] [] [] [] [] [] ∅ (Acct [] [] []).
(** A worker that takes one session at a time. *)
Definition run_conn : connection :=
  Conn 9 1 1 4096 "none" "" ∅ ∅ false ∅ {["none"%string]} {["turn.start"%string]} 0 None.

Lemma run_start_ok : start_ok run_db ∅.
Proof.
  assert (∀ sid r, sessions run_db !! sid = Some r → r = run_row sid) as Hr.
  { intros sid r. unfold run_db. cbn [sessions].
    intros [[<- <-]|[_ [<- <-]%lookup_singleton_Some]]%lookup_insert_Some; done. }
  split; [by intros sid r ->%Hr|by intros sid r ->%Hr|by intros ???|by intros ???].
Qed.

Definition run_until (acts : list act) : world * list (world * list output) :=
  let w0 := start run_db ∅ in
  let tr := default [] (run_acts w0 acts) in (latest w0 tr, history w0 tr).
Definition acts_granted : list act := [ActConnect 0 run_conn; ActPlace 2 5 21; ActCommit].
Definition acts_sent : list act := acts_granted ++ [ActFinish; ActReadRows].
(** Two sessions placed before either grant has committed. *)
Definition acts_two : list act :=
  [ActConnect 0 run_conn; ActPlace 2 5 21; ActPlace 3 6 22; ActCommit; ActCommit; ActFinish; ActFinish].

Lemma run_until_reach acts :
  bool_decide (is_Some (run_acts (start run_db ∅) acts)) = true →
  reach (start run_db ∅) (run_until acts).1 (run_until acts).2.
Proof.
  unfold run_until. destruct (run_acts _ acts) as [tr|] eqn:H; [|done]. intros _.
  apply (run_acts_reach _ _ _ H).
Qed.

Definition run_wire (lease command sid : uuid) : list (string * json) :=
  command_wire run_dump command sid lease "turn.start"
    [("run_mode", JStr "none"); ("last_seq", JInt 3)]%string.

(** `capacity` is not an upper bound on the sessions of a worker.  It bounds the
    leases that count when a session is placed, and those are the committed ones: two
    grants whose placements both come before either commit give a worker of capacity
    one two leases, both in its rows. *)
Theorem capacity_overrun :
  ∃ w tr c, reach (start run_db ∅) w tr ∧ h_objs (w_hub w) !! 0%N = Some c
    ∧ c_capacity c = 1 ∧ size (c_leases c) = 2%nat
    ∧ leased_row (w_db w) 5 (c_worker c) 2 ∧ leased_row (w_db w) 6 (c_worker c) 3.
Proof.
  exists (run_until acts_two).1, (run_until acts_two).2,
    (default run_conn (h_objs (w_hub (run_until acts_two).1) !! 0%N)).
  split; [apply run_until_reach; vm_compute; reflexivity|].
  split_and!; [vm_compute; reflexivity..| |].
  - exists (default (run_row 2) (sessions (w_db (run_until acts_two).1) !! 2%N)).
    split_and!; vm_compute; reflexivity.
  - exists (default (run_row 3) (sessions (w_db (run_until acts_two).1) !! 3%N)).
    split_and!; vm_compute; reflexivity.
Qed.

(** *** Witnesses *)

Lemma run_hub_within :
  map_Forall (λ _ c, within c ∧ 7%N ∉ c_leases c) (h_objs (w_hub (run_until acts_granted).1)).
Proof.
  assert (h_objs (w_hub (run_until acts_granted).1) = {[ 0%N := run_conn ]}) as ->
    by (vm_compute; reflexivity).
  apply map_Forall_singleton. split; [|by intros ?%elem_of_empty].
  split; [done|by intros l ?%elem_of_empty|done].
Qed.
Lemma acquire_within_witness :
  let out := acquire run_cfg run_payload run_dump run_context (w_hub (run_until acts_granted).1)
       run_db 0 (run_row 3) "turn.start" (Raw None) 7 22 None in
  out.2 = Ok (Some (0%N, run_wire 7 22 3)) ∧ map_Forall (λ _ c, within c) (h_objs out.1.1).
Proof.
  cbv zeta. split; [vm_compute; reflexivity|].
  exact (acquire_within run_cfg run_payload run_dump run_context (w_hub (run_until acts_granted).1)
       run_db 0 (run_row 3) "turn.start" (Raw None) 7 22 None run_hub_within).
Defined.

Lemma run_finish :
  let w := (run_until acts_granted).1 in
  step w (run_until (acts_granted ++ [ActFinish])).1 [OutFrame 0 (run_wire 5 21 2)].
Proof.
  cbv zeta. pose proof (run_act_steps (run_until acts_granted).1 ActFinish) as H.
  destruct (run_act (run_until acts_granted).1 ActFinish) as [l|] eqn:E; [|by vm_compute in E].
  specialize (H l eq_refl). destruct l as [|[w' outs] [|? ?]]; vm_compute in E; try done.
  injection E as <- <-. destruct H as [H _]. vm_compute. vm_compute in H. exact H.
Qed.
Lemma frame_to_leaseholder_witness :
  let w := (run_until acts_granted).1 in let tr := (run_until acts_granted).2 in
  ∃ c lease sid w1, h_objs (w_hub w) !! 0%N = Some c ∧ names (run_wire 5 21 2) lease sid
    ∧ w1 ∈ w :: tr.*1 ∧ leased_row (w_db w1) lease (c_worker c) sid.
Proof.
  cbv zeta. apply (frame_to_leaseholder run_cfg run_payload run_dump run_context run_delta no_classify
    (λ _ _, None) run_db ∅ _ _ (run_until (acts_granted ++ [ActFinish])).1 [OutFrame 0 (run_wire 5 21 2)]).
  - exact run_start_ok.
  - apply run_until_reach. vm_compute. reflexivity.
  - exact run_finish.
  - by left.
Defined.

Definition run_delta_env : envelope := Envelope 2 None 4 "delta.text" [("delta", JStr "hi")]%string.
Lemma run_delta_step :
  let w := (run_until acts_sent).1 in
  ∃ w', step w w' [OutDelta 0 2].
Proof.
  cbv zeta.
  assert (∃ c r, h_objs (w_hub (run_until acts_sent).1) !! 0%N = Some c
    ∧ r ∈ w_rows (run_until acts_sent).1 ∧ s_id r = 2%N
    ∧ ∃ b, (handle_delta run_delta (w_hub (run_until acts_sent).1) (31 * SECOND) c run_delta_env (Some r)).2
      = Some (2%N, b)) as (c & r & Hc & Hr & Hid & b & Hb).
  { set (w := (run_until acts_sent).1).
    assert (∃ r l, w_rows w = r :: l ∧ s_id r = 2%N ∧ ∃ c, h_objs (w_hub w) !! 0%N = Some c
      ∧ ∃ b, (handle_delta run_delta (w_hub w) (31 * SECOND) c run_delta_env (Some r)).2 = Some (2%N, b))
      as (r & l & Hl & Hid & c & Hc & Hb).
    { do 2 eexists. split; [vm_compute; reflexivity|]. split; [reflexivity|]. eexists.
      split; [vm_compute; reflexivity|]. eexists. vm_compute. reflexivity. }
    exists c, r. split_and!; [done| |done|done]. rewrite Hl. by left. }
  pose proof (StepDelta run_cfg run_payload run_dump run_context run_delta no_classify (λ _ _, None)
    (run_until acts_sent).1 (31 * SECOND) 0 c run_delta_env (Some r) Hc (conj Hr Hid)) as H.
  cbv zeta in H. rewrite Hb in H. eexists. exact H.
Qed.
Lemma delta_from_leaseholder_witness :
  let w := (run_until acts_sent).1 in let tr := (run_until acts_sent).2 in
  ∃ c lease w1, h_objs (w_hub w) !! 0%N = Some c ∧ lease ∈ c_leases c
    ∧ w1 ∈ w :: tr.*1 ∧ leased_row (w_db w1) lease (c_worker c) 2.
Proof.
  cbv zeta. destruct run_delta_step as [w' Hs].
  apply (delta_from_leaseholder run_cfg run_payload run_dump run_context run_delta no_classify
    (λ _ _, None) run_db ∅ _ _ w' [OutDelta 0 2]).
  - exact run_start_ok.
  - apply run_until_reach. vm_compute. reflexivity.
  - exact Hs.
  - by left.
Defined.
