(* ===== verification/HubLeases.v ===== *)
(** * What an inventory, an expiry and a reconnect do to the leases

    Each of the three reads a list of session rows and ends or renews the leases of
    some of them.  The lease columns of a session are its [cell]; the theorems say
    for every session which cells change and how. *)

From stdpp Require Import sorting.
From S2P Require Import Prelude PyStd Protocol CommandQueue Db Fleet Commands Sandbox Usage Accounting IngestSpec TurnState Hub HubProps.

Open Scope Z_scope.

(** ** Clearing a cell *)

Definition clear_cell (c : uuid * lease_cols) : uuid * lease_cols :=
  (c.1, LeaseCols None None None (worker_seq c.2)).
Definition cell_tenant (d : db) (r : session_row) : Prop := fst <$> cell d (s_id r) = Some (s_tenant r).

(** The cells of [d'] are those of [d], but for the sessions in [l], which are cleared. *)
Definition cells_cleared (l : list uuid) (d d' : db) : Prop :=
  keyed d → keyed d' ∧ ∀ sid, cell d' sid = (if decide (sid ∈ l) then clear_cell <$> cell d sid else cell d sid).

Lemma clear_cell_twice (o : option (uuid * lease_cols)) : clear_cell <$> (clear_cell <$> o) = clear_cell <$> o.
Proof. by destruct o. Qed.
Lemma cells_cleared_tenant l d d' r : keyed d → cells_cleared l d d' → cell_tenant d r → cell_tenant d' r.
Proof.
  unfold cell_tenant. intros Hk H. destruct (H Hk) as [_ ->]. case_decide; [|done]. by destruct (cell d (s_id r)).
Qed.
Lemma cells_cleared_trans l1 l2 d1 d2 d3 :
  cells_cleared l1 d1 d2 → cells_cleared l2 d2 d3 → cells_cleared (l1 ++ l2) d1 d3.
Proof.
  intros H12 H23 Hk. destruct (H12 Hk) as [Hk2 H1]. destruct (H23 Hk2) as [Hk3 H2]. split; [done|].
  intros sid. rewrite H2, H1. pose proof (elem_of_app l1 l2 sid) as Happ.
  destruct (decide (sid ∈ l1)), (decide (sid ∈ l2)), (decide (sid ∈ l1 ++ l2)); try tauto.
  apply clear_cell_twice.
Qed.
Lemma lease_same_cleared d d' : lease_same d d' → cells_cleared [] d d'.
Proof. intros H Hk. destruct (H Hk) as [? Hc]. split; [done|]. intros sid. rewrite Hc. by rewrite decide_False by apply not_elem_of_nil. Qed.

Lemma clear_cleared d now r :
  cell_tenant d r → cells_cleared [s_id r] d (clear_session_lease d now (s_tenant r) (s_id r)).1.
Proof.
  intros Ht Hk. unfold cell_tenant, cell in Ht.
  destruct (sessions d !! s_id r) as [x|] eqn:Hx; [|done]. injection Ht as Ht. cbn in Ht.
  pose proof (Hk _ _ Hx) as Hid. unfold clear_session_lease, get_session. rewrite Hx. cbn [mbind option_bind].
  rewrite bool_decide_eq_true_2 by done. cbn [andb fst]. split.
  - intros s y. cbn. intros [[<- <-]|[_ Hy]]%lookup_insert_Some; [done|by apply Hk].
  - intros s. unfold cell, put_row. cbn [sessions with_sessions set_lease set_updated set_session s_id]. rewrite Hid.
    case_decide as Hs.
    + apply list_elem_of_singleton in Hs as ->. by rewrite lookup_insert_eq, Hx.
    + rewrite lookup_insert_ne; [done|]. intros <-. apply Hs. by left.
Qed.

Section ends.
Context (classify_host_message : string → failure).
Context (session_model : db → session_row → option string).

(** ** An inventory *)

(** A leased session that the worker should have reported. *)
Definition orphaned (q : command_queue) (reported : odict uuid uuid) (orphan_missing : bool) (r : session_row) : bool :=
  match lease_id (s_lease r) with
  | Some l => bool_decide (reported !! s_id r = None) && orphan_missing && negb (has_lease q l)
  | None => false
  end.
Definition mismatch (reported : odict uuid uuid) (r : session_row) : option revoke_entry :=
  l ← lease_id (s_lease r); l' ← reported !! s_id r;
  if decide (l' = l) then None else Some (RevokeEntry (s_id r) (Some l')).
Definition matches (reported : odict uuid uuid) (r : session_row) : bool :=
  match lease_id (s_lease r) with Some l => bool_decide (reported !! s_id r = Some l) | None => false end.

(** What an orphaned row leaves in memory: its delta lease is gone, and the lease stays
    where else it is, because the row that would name it was cleared before. *)
Lemma orphan_row_spec now e0 e1 e2 e3 ref s r d ps d' ps' :
  let s' := orphan_row classify_host_message session_model now e0 e1 e2 e3 ref s r in
  keyed d → rc_db s = Ok (d, ps) → rc_db s' = Ok (d', ps') → cell_tenant d r →
  cells_cleared [s_id r] d d' ∧ rc_hub s' = forget_delta (rc_hub s) (s_id r)
  ∧ rc_revoke s' = rc_revoke s ∧ rc_ttl s' = rc_ttl s.
Proof.
  cbv zeta. intros Hk Hs. unfold orphan_row. rewrite Hs. cbn [mbind res_bind]. intros Hd Ht.
  destruct (persist_event d _ _ _ _ _ _) as [[d1 p1]|] eqn:H1; cbn [mbind res_bind] in *; [|done].
  destruct (clear_session_lease d1 now (s_tenant r) (s_id r)) as [d2 o] eqn:H2.
  destruct (fail_stale_in_progress _ _ d2 _ _ _ _ _ _ _) as [[d3 p3]|] eqn:H3; cbn [mbind res_bind] in *; [|done].
  cbn [rc_db] in Hd. injection Hd as <- _.
  apply lease_same_persist, lease_same_cleared in H1. apply lease_same_fail_stale, lease_same_cleared in H3.
  pose proof (clear_cleared d1 now r (cells_cleared_tenant _ _ _ _ Hk H1 Ht)) as Hc. rewrite H2 in Hc.
  pose proof (cells_cleared_trans _ _ _ _ _ H1 (cells_cleared_trans _ _ _ _ _ Hc H3)) as H. cbn [app fst] in *.
  split_and!; [done| |done|done]. destruct (H Hk) as [_ Hcell]. specialize (Hcell (s_id r)).
  rewrite decide_True in Hcell by by left. unfold cell_tenant in Ht. unfold cell in Hcell, Ht.
  destruct (sessions d3 !! s_id r) as [x|]; [|by destruct (sessions d !! s_id r)].
  destruct (sessions d !! s_id r); [|done]. injection Hcell as _ Hx. rewrite Hx. by destruct ref.
Qed.
Lemma reconcile_row_err now e0 e1 e2 e3 ref reported om s rows x :
  rc_db s = Err x →
  rc_db (foldl (reconcile_row classify_host_message session_model now e0 e1 e2 e3 ref reported om) s rows) = Err x.
Proof.
  revert s. induction rows as [|r rows IH]; intros s Hs; [done|]. cbn. apply IH.
  unfold reconcile_row. rewrite Hs. by destruct (lease_id _).
Qed.

(** One row of an inventory that is reconciled. *)
Lemma reconcile_row_spec now e0 e1 e2 e3 ref reported om s r d ps d' ps' :
  let s' := reconcile_row classify_host_message session_model now e0 e1 e2 e3 ref reported om s r in
  keyed d → rc_db s = Ok (d, ps) → rc_db s' = Ok (d', ps') → cell_tenant d r →
  cells_cleared (if orphaned (h_queue (rc_hub s)) reported om r then [s_id r] else []) d d'
  ∧ (h_queue (rc_hub s') = h_queue (rc_hub s) ∧ h_objs (rc_hub s') = h_objs (rc_hub s))
  ∧ rc_revoke s' = rc_revoke s ++ option_list (mismatch reported r)
  ∧ rc_ttl s' = (if matches reported r then <[s_id r := r]> (rc_ttl s) else rc_ttl s).
Proof.
  cbv zeta. intros Hk Hs. unfold reconcile_row, orphaned, mismatch, matches. rewrite Hs.
  destruct (lease_id (s_lease r)) as [l|]; cbn [mbind option_bind option_list].
  2: { rewrite ?Hs. intros [= <- _] _. rewrite app_nil_r. split_and!; try done; by apply lease_same_cleared. }
  destruct (reported !! s_id r) as [l'|] eqn:Hrep; cbn [mbind option_bind].
  - rewrite bool_decide_eq_false_2 by done. cbn [andb]. case_decide as Hl.
    + subst l'. rewrite bool_decide_eq_true_2 by done. cbn [rc_db rc_hub rc_revoke rc_ttl option_list].
      rewrite ?Hs. intros [= <- _] _. rewrite app_nil_r. split_and!; try done; by apply lease_same_cleared.
    + rewrite bool_decide_eq_false_2 by congruence. cbn [rc_db rc_hub rc_revoke rc_ttl option_list].
      rewrite ?Hs. intros [= <- _] _. split_and!; try done; by apply lease_same_cleared.
  - rewrite bool_decide_eq_true_2 by done. rewrite bool_decide_eq_false_2 by done. cbn [andb option_list].
    rewrite app_nil_r. destruct om; cbn [negb orb andb].
    + destruct (has_lease _ l) eqn:Hh; cbn [negb].
      * rewrite ?Hs. intros [= <- _] _. split_and!; try done; by apply lease_same_cleared.
      * intros Hd Ht. destruct (orphan_row_spec _ _ _ _ _ _ _ _ _ _ _ _ Hk Hs Hd Ht) as (? & -> & ? & ?).
        by split_and!.
    + rewrite ?Hs. intros [= <- _] _. split_and!; try done; by apply lease_same_cleared.
Qed.

Lemma reconcile_rows_spec now e0 e1 e2 e3 ref reported om rows s d ps d' ps' :
  let s' := foldl (reconcile_row classify_host_message session_model now e0 e1 e2 e3 ref reported om) s rows in
  keyed d → rc_db s = Ok (d, ps) → rc_db s' = Ok (d', ps') → Forall (cell_tenant d) rows →
  cells_cleared (s_id <$> filter (λ r, orphaned (h_queue (rc_hub s)) reported om r = true) rows) d d'
  ∧ (h_queue (rc_hub s') = h_queue (rc_hub s) ∧ h_objs (rc_hub s') = h_objs (rc_hub s))
  ∧ rc_revoke s' = rc_revoke s ++ omap (mismatch reported) rows
  ∧ rc_ttl s' = foldl (λ m r, <[s_id r := r]> m) (rc_ttl s) (filter (λ r, matches reported r = true) rows).
Proof.
  cbv zeta. intros Hk Hs Hd Ht. revert s d ps Hk Hs Hd Ht. induction rows as [|r rows IH]; intros s d ps Hk Hs Hd Ht.
  - cbn in *. rewrite Hs in Hd. injection Hd as <- _. rewrite app_nil_r. split_and!; [|done..].
    by apply lease_same_cleared.
  - cbn [foldl] in *. apply Forall_cons_1 in Ht as [Htr Ht].
    set (s1 := reconcile_row _ _ now e0 e1 e2 e3 ref reported om s r) in *.
    destruct (rc_db s1) as [[d1 ps1]|x] eqn:Hs1; [|by rewrite (reconcile_row_err _ _ _ _ _ _ _ _ _ _ _ Hs1) in Hd].
    destruct (reconcile_row_spec _ _ _ _ _ _ _ _ _ _ _ _ _ _ Hk Hs Hs1 Htr) as (Hc & [Hq Ho] & Hr & Htl).
    fold s1 in Hq, Ho, Hr, Htl.
    destruct (IH s1 d1 ps1) as (Hc2 & [Hq2 Ho2] & Hr2 & Htl2); [by apply (Hc Hk)|done|done| |].
    { eapply list.Forall_impl; [exact Ht|]. intros x. by apply (cells_cleared_tenant _ _ _ _ Hk Hc). }
    split_and!.
    + pose proof (cells_cleared_trans _ _ _ _ _ Hc Hc2) as H.
      rewrite filter_cons. rewrite Hq in H.
      destruct (orphaned (h_queue (rc_hub s)) reported om r); exact H.
    + by rewrite Hq2.
    + by rewrite Ho2.
    + rewrite Hr2, Hr, <- app_assoc. cbn [omap list_omap]. by destruct (mismatch reported r).
    + rewrite Htl2, Htl, filter_cons. by destruct (matches reported r).
Qed.

(** *** The rest of the answer: what the worker keeps beside its leases *)

Lemma add_new_spec l seen : NoDup seen →
  NoDup (foldl add_new seen l) ∧ ∀ x, x ∈ foldl add_new seen l ↔ x ∈ seen ∨ x ∈ l.
Proof.
  revert seen. induction l as [|y l IH]; intros seen Hnd; cbn.
  - split; [done|]. intros x. rewrite elem_of_nil. tauto.
  - assert (NoDup (add_new seen y) ∧ ∀ x, x ∈ add_new seen y ↔ x ∈ seen ∨ x = y) as [Hn Hx].
    { unfold add_new. case_decide as Hy.
      - split; [done|]. intros x. split; [by left|]. by intros [?| ->].
      - split.
        + apply list.NoDup_app. split_and!; [done| |apply NoDup_singleton].
          intros x Hx Hx'. apply list_elem_of_singleton in Hx' as ->. done.
        + intros x. by rewrite elem_of_app, list_elem_of_singleton. }
    destruct (IH _ Hn) as [? H]. split; [done|]. intros x. rewrite H, Hx, elem_of_cons. tauto.
Qed.
Lemma ttl_insert (m : odict uuid session_row) sid r sid' :
  is_Some (<[sid := r]> m !! sid') ↔ sid' = sid ∨ is_Some (m !! sid').
Proof.
  rewrite olookup_insert. case_decide as H; [|naive_solver].
  split; [by left|]. intros _. by eexists.
Qed.
Lemma ttl_rows_spec rows m sid :
  is_Some ((foldl (λ m r, <[s_id r := r]> m) m rows : odict uuid session_row) !! sid)
  ↔ is_Some (m !! sid) ∨ sid ∈ s_id <$> rows.
Proof.
  revert m. induction rows as [|r rows IH]; intros m; cbn [foldl fmap list_fmap].
  - rewrite elem_of_nil. tauto.
  - rewrite IH, elem_of_cons, ttl_insert. tauto.
Qed.
Lemma workspace_spec d leased found reported rv ttl ids :
  let row sid := if decide (sid ∈ s_id <$> leased) then sessions d !! sid else found !! sid in
  let out := foldl (workspace d leased found reported) (rv, ttl) ids in
  NoDup ids →
  (∀ e, e ∈ out.1 ↔ e ∈ rv ∨ ∃ sid, sid ∈ ids ∧ e = RevokeEntry sid None
     ∧ reported !! sid = None ∧ ttl !! sid = None ∧ row sid = None)
  ∧ ∀ sid, is_Some (out.2 !! sid) ↔ is_Some (ttl !! sid)
     ∨ sid ∈ ids ∧ reported !! sid = None ∧ is_Some (row sid).
Proof.
  cbv zeta. set (row sid := if decide (sid ∈ s_id <$> leased) then sessions d !! sid else found !! sid).
  revert rv ttl. induction ids as [|x ids IH]; intros rv ttl Hnd; cbn [foldl].
  - split; intros; cbn [fst snd]; setoid_rewrite elem_of_nil; naive_solver.
  - apply list.NoDup_cons in Hnd as [Hx Hnd]. unfold workspace at 2 4. fold (row x).
    case_decide as Hskip.
    + destruct (IH rv ttl Hnd) as [H1 H2]. split.
      * intros e. rewrite H1. setoid_rewrite elem_of_cons. split; [naive_solver|].
        intros [?|(s & [->|?] & ? & Hr & Ht & ?)]; [naive_solver| |naive_solver].
        rewrite Hr, Ht in Hskip. destruct Hskip as [[? ?]|[? ?]]; done.
      * intros s. rewrite H2, elem_of_cons. split; [naive_solver|].
        intros [?|([->|?] & Hr & ?)]; [by left| |by right]. rewrite Hr in Hskip.
        destruct Hskip as [[? ?]|?]; [done|by left].
    + assert (reported !! x = None ∧ ttl !! x = None) as [Hr Ht].
      { split; apply eq_None_not_Some; tauto. }
      destruct (row x) as [r|] eqn:Hrow.
      * destruct (IH rv (<[x := r]> ttl) Hnd) as [H1 H2]. split.
        -- intros e. rewrite H1. setoid_rewrite elem_of_cons. split.
           ++ intros [?|(s & Hs & -> & ? & Htl & ?)]; [by left|]. right. exists s.
              rewrite olookup_insert_ne in Htl by congruence. naive_solver.
           ++ intros [?|(s & [->|Hs] & -> & ? & ? & ?)]; [by left|congruence|]. right. exists s.
              rewrite olookup_insert_ne by congruence. naive_solver.
        -- intros s. rewrite H2, elem_of_cons, ttl_insert. split.
           ++ intros [[->|?]|?]; [right; split_and!; eauto; by eexists|by left|naive_solver].
           ++ intros [?|([->|?] & ? & ?)]; naive_solver.
      * destruct (IH (rv ++ [RevokeEntry x None]) ttl Hnd) as [H1 H2]. split.
        -- intros e. rewrite H1, elem_of_app, list_elem_of_singleton. setoid_rewrite elem_of_cons.
           split; [intros [[?| ->]|?]; naive_solver|].
           intros [?|(s & [->|Hs] & -> & ? & ? & ?)]; naive_solver.
        -- intros s. rewrite H2, elem_of_cons. split; [naive_solver|].
           intros [?|([->|?] & ? & [? ?])]; [by left|congruence|naive_solver].
Qed.

Definition leased_of (d : db) (worker : uuid) : list session_row :=
  filter (λ r, lease_id (s_lease r) ≠ None) (list_worker_leases d worker).
Lemma elem_of_rows d r : keyed d → r ∈ snd <$> map_to_list (sessions d) ↔ sessions d !! s_id r = Some r.
Proof.
  intros Hk. rewrite list_elem_of_fmap. split.
  - intros ([sid x] & -> & Hx%elem_of_map_to_list). cbn. by rewrite (Hk _ _ Hx).
  - intros Hr. exists (s_id r, r). split; [done|]. by apply elem_of_map_to_list.
Qed.
Lemma elem_of_leased d worker r : keyed d →
  r ∈ leased_of d worker ↔
  sessions d !! s_id r = Some r ∧ worker_id (s_lease r) = Some worker ∧ lease_id (s_lease r) ≠ None.
Proof.
  intros Hk. unfold leased_of, list_worker_leases. rewrite !list_elem_of_filter, elem_of_rows by done. tauto.
Qed.
Lemma leased_sids d worker sid : keyed d →
  sid ∈ s_id <$> leased_of d worker ↔ ∃ l, leased_row d l worker sid.
Proof.
  intros Hk. rewrite list_elem_of_fmap. split.
  - intros (r & -> & (H1 & H2 & H3)%elem_of_leased); [|done].
    destruct (lease_id (s_lease r)) as [l|] eqn:Hl; [|done]. exists l, r. done.
  - intros (l & r & H1 & H2 & H3). pose proof (Hk _ _ H1) as Hid. exists r. split; [done|].
    apply elem_of_leased; [done|]. rewrite Hid, H2. done.
Qed.
Lemma leased_tenants d worker : keyed d → Forall (cell_tenant d) (leased_of d worker).
Proof.
  intros Hk. apply list.Forall_forall. intros r (H & _ & _)%elem_of_leased; [|done].
  unfold cell_tenant, cell. by rewrite H.
Qed.
Lemma mismatch_spec d worker reported e : keyed d →
  e ∈ omap (mismatch reported) (leased_of d worker) ↔
  ∃ sid l l', e = RevokeEntry sid (Some l') ∧ reported !! sid = Some l' ∧ leased_row d l worker sid ∧ l ≠ l'.
Proof.
  intros Hk. rewrite list_elem_of_omap. split.
  - intros (r & (H1 & H2 & H3)%elem_of_leased & Hm); [|done]. unfold mismatch in Hm.
    destruct (lease_id (s_lease r)) as [l|] eqn:Hl; [|done]. cbn in Hm.
    destruct (reported !! s_id r) as [l'|] eqn:Hr; [|done]. cbn in Hm. case_decide; [done|].
    injection Hm as <-. exists (s_id r), l, l'. split_and!; [done|done| |congruence]. by exists r.
  - intros (sid & l & l' & -> & Hr & (r & H1 & H2 & H3) & Hne). pose proof (Hk _ _ H1) as Hid. exists r.
    split; [apply elem_of_leased; [done|]; rewrite Hid, H2; done|].
    unfold mismatch. rewrite H2, Hid, Hr. cbn. by rewrite decide_False by congruence.
Qed.
Lemma unleased_spec leased reported e : odict_ok reported →
  e ∈ unleased_revokes leased reported ↔
  ∃ sid l, e = RevokeEntry sid (Some l) ∧ reported !! sid = Some l ∧ sid ∉ s_id <$> leased.
Proof.
  intros Hok. unfold unleased_revokes. rewrite list_elem_of_omap. split.
  - intros ([sid l] & Hin%elem_of_oitems & He); [|done]. cbn in He. case_decide; [done|].
    injection He as <-. by exists sid, l.
  - intros (sid & l & -> & Hr & Hn). exists (sid, l). split; [by apply elem_of_oitems|].
    cbn. by rewrite decide_False.
Qed.
Lemma matches_spec d worker reported sid : keyed d →
  sid ∈ s_id <$> filter (λ r, matches reported r = true) (leased_of d worker) ↔
  ∃ l, reported !! sid = Some l ∧ leased_row d l worker sid.
Proof.
  intros Hk. rewrite list_elem_of_fmap. split.
  - intros (r & -> & [Hm (H1 & H2 & H3)%elem_of_leased]%list_elem_of_filter); [|done].
    unfold matches in Hm. destruct (lease_id (s_lease r)) as [l|] eqn:Hl; [|done].
    apply bool_decide_eq_true in Hm. exists l. split; [done|]. by exists r.
  - intros (l & Hr & r & H1 & H2 & H3). pose proof (Hk _ _ H1) as Hid. exists r. split; [done|].
    apply list_elem_of_filter. split; [|apply elem_of_leased; [done|]; rewrite Hid, H2; done].
    unfold matches. rewrite H2, Hid. by apply bool_decide_eq_true.
Qed.

Lemma get_by_ids d (ids : gset uuid) sid : sid ∈ ids → get_sessions_by_ids d ids !! sid = sessions d !! sid.
Proof.
  intros Hin. unfold get_sessions_by_ids. destruct (sessions d !! sid) as [r|] eqn:Hs.
  - by apply map_lookup_filter_Some.
  - apply map_lookup_filter_None. by left.
Qed.
Lemma orphaned_sids d worker q reported om sid r : keyed d → sessions d !! sid = Some r →
  sid ∈ s_id <$> filter (λ r, orphaned q reported om r = true) (leased_of d worker)
  ↔ bool_decide (worker_id (s_lease r) = Some worker) && orphaned q reported om r = true.
Proof.
  intros Hk Hr. pose proof (Hk _ _ Hr) as Hid.
  rewrite list_elem_of_fmap, andb_true_iff, bool_decide_eq_true. split.
  - intros (x & Hx & [Ho (H1 & H2 & _)%elem_of_leased]%list_elem_of_filter); [|done].
    assert (x = r) as -> by congruence. done.
  - intros [Hw Ho]. exists r. split; [done|]. apply list_elem_of_filter. split; [done|].
    apply elem_of_leased; [done|]. rewrite Hid. split_and!; [done..|].
    unfold orphaned in Ho. by destruct (lease_id (s_lease r)).
Qed.

(** The answer in terms of the rows: the cells, the revokes and the TTLs. *)
Lemma reconcile_parts h d now e0 e1 e2 e3 worker reported unleased conn om d' ps revokes ttl :
  keyed d →
  (reconcile_inventory classify_host_message session_model h d now e0 e1 e2 e3 worker reported
     unleased conn om).2 = Ok (d', ps, revokes, ttl) →
  cells_cleared (s_id <$> filter (λ r, orphaned (h_queue h) reported om r = true) (leased_of d worker)) d d'
  ∧ (∀ e, e ∈ revokes ↔ e ∈ omap (mismatch reported) (leased_of d worker)
       ∨ e ∈ unleased_revokes (leased_of d worker) reported
       ∨ ∃ sid, sid ∈ unleased ∧ e = RevokeEntry sid None ∧ reported !! sid = None ∧ sessions d' !! sid = None)
  ∧ (∀ sid, is_Some (ttl !! sid) ↔ (∃ l, reported !! sid = Some l ∧ leased_row d l worker sid)
       ∨ sid ∈ unleased ∧ reported !! sid = None ∧ is_Some (sessions d' !! sid))
  ∧ h_queue (reconcile_inventory classify_host_message session_model h d now e0 e1 e2 e3 worker reported
       unleased conn om).1 = h_queue h
  ∧ h_objs (reconcile_inventory classify_host_message session_model h d now e0 e1 e2 e3 worker reported
       unleased conn om).1 = h_objs h.
Proof.
  intros Hk. unfold reconcile_inventory. cbv zeta. fold (leased_of d worker).
  set (ref := match conn with Some r => Some r | None => _ end).
  set (s0 := Reconciling _ _ _ _).
  destruct (rc_db (foldl _ s0 (leased_of d worker))) as [[d1 ps1]|] eqn:Hdb; [|done].
  destruct (reconcile_rows_spec now e0 e1 e2 e3 ref reported om (leased_of d worker) s0 d [] d1 ps1
    Hk eq_refl Hdb (leased_tenants d worker Hk)) as (Hc & [Hq Ho] & Hrv & Htl). clear Hdb.
  set (s1 := foldl _ s0 (leased_of d worker)) in *.
  cbn [rc_hub s0 note_inventory with_inventory h_queue rc_revoke rc_ttl app] in *.
  destruct (add_new_spec unleased [] (NoDup_nil_2)) as [Hnd Hids].
  set (ids := foldl add_new [] unleased) in *. set (found := get_sessions_by_ids _ _).
  destruct (workspace_spec d1 (leased_of d worker) found reported
    (rc_revoke s1 ++ unleased_revokes (leased_of d worker) reported) (rc_ttl s1) ids Hnd) as [Hw1 Hw2].
  assert (∀ sid, is_Some (rc_ttl s1 !! sid) ↔ ∃ l, reported !! sid = Some l ∧ leased_row d l worker sid) as Httl.
  { intros sid. rewrite Htl, ttl_rows_spec, matches_spec by done. split; [by intros [[? ?]|?]|by right]. }
  assert (∀ sid, reported !! sid = None → rc_ttl s1 !! sid = None) as Hnone.
  { intros sid Hr. apply eq_None_not_Some. rewrite Httl. intros (l & ? & _). congruence. }
  assert (∀ sid, sid ∈ ids → reported !! sid = None →
    (if decide (sid ∈ s_id <$> leased_of d worker) then sessions d1 !! sid else found !! sid)
      = sessions d1 !! sid) as Hrow.
  { intros sid Hin Hr. case_decide as Hl; [done|]. apply get_by_ids.
    apply elem_of_list_to_set, list_elem_of_filter. split_and!; auto. }
  assert (∀ sid, sid ∈ ids ↔ sid ∈ unleased) as Hin by (intros; rewrite Hids, elem_of_nil; tauto).
  destruct (foldl (workspace _ _ _ _) _ ids) as [rv tl]. cbn [fst snd] in *. intros [= <- _ <- <-].
  split_and!; [done| | |done|done].
  - intros e. rewrite Hw1, elem_of_app, Hrv. setoid_rewrite Hin in Hrow. setoid_rewrite Hin.
    split; [intros [?|(s & ? & ? & ? & _ & H)]; [tauto|]; rewrite Hrow in H by done; eauto 10|].
    intros [?|[?|(s & ? & ? & ? & H)]]; [tauto..|]. right. exists s. rewrite Hrow by done. auto 10.
  - intros sid. rewrite Hw2, Httl, Hin. setoid_rewrite Hin in Hrow.
    split; intros [?|(? & ? & H)]; auto; right; [rewrite Hrow in H by done|rewrite Hrow by done]; done.
Qed.

(** C11: What an inventory does, to every session.  A leased session of the worker
    loses its lease exactly when the worker did not report it, missing sessions are
    orphaned, and the lease has no unacked command; every other session keeps its
    lease.  The worker is told to drop exactly the sessions it reported under a lease
    that is not its own, and to wipe exactly the workspaces of sessions that are gone;
    it gets the TTL of exactly those it holds and of the workspaces that live. *)
Theorem reconcile_exact h d now e0 e1 e2 e3 worker reported unleased conn om d' ps revokes ttl :
  keyed d → odict_ok reported →
  (reconcile_inventory classify_host_message session_model h d now e0 e1 e2 e3 worker reported
     unleased conn om).2 = Ok (d', ps, revokes, ttl) →
  (∀ sid r, sessions d !! sid = Some r → cell d' sid = Some
     (if bool_decide (worker_id (s_lease r) = Some worker) && orphaned (h_queue h) reported om r
      then clear_cell (lease_cell r) else lease_cell r))
  ∧ (∀ sid x, RevokeEntry sid x ∈ revokes ↔ match x with
       | Some l => reported !! sid = Some l ∧ ¬ leased_row d l worker sid
       | None => sid ∈ unleased ∧ reported !! sid = None ∧ sessions d !! sid = None end)
  ∧ (∀ sid, is_Some (ttl !! sid) ↔ (∃ l, reported !! sid = Some l ∧ leased_row d l worker sid)
       ∨ sid ∈ unleased ∧ reported !! sid = None ∧ is_Some (sessions d !! sid)).
Proof.
  intros Hk Hok Hrun. destruct (reconcile_parts _ _ _ _ _ _ _ _ _ _ _ _ _ _ _ _ Hk Hrun) as (Hc & Hrv & Httl & _).
  destruct (Hc Hk) as [_ Hcell]. assert (∀ sid, sessions d' !! sid = None ↔ sessions d !! sid = None) as Hsome.
  { intros sid. specialize (Hcell sid). unfold cell in Hcell.
    by destruct (sessions d' !! sid), (sessions d !! sid), (decide _). }
  split_and!.
  - intros sid r Hr. rewrite Hcell. unfold cell. rewrite Hr.
    pose proof (orphaned_sids d worker (h_queue h) reported om sid r Hk Hr) as Hiff.
    destruct (decide _) as [Hin|Hin]; [by rewrite (proj1 Hiff Hin)|].
    destruct (bool_decide _ && _); [|done]. by destruct Hin; apply Hiff.
  - intros sid x. rewrite Hrv, unleased_spec, mismatch_spec by done. split.
    + intros [(s & l & l' & [= -> ->] & Hr & Hl & Hne)|[(s & l & [= -> ->] & Hr & Hn)|(s & Hin & [= -> ->] & Hr & Hs)]].
      * split; [done|]. intros (r1 & ? & ? & ?). destruct Hl as (r2 & ? & ? & ?). congruence.
      * split; [done|]. intros Hl. apply Hn, leased_sids; [done|]. by exists l.
      * split_and!; [done|done|by apply Hsome].
    + destruct x as [l|]; [|intros (? & ? & ?%Hsome); eauto 10]. intros [Hr Hn].
      destruct (decide (sid ∈ s_id <$> leased_of d worker)) as [Hl|Hl]; [|eauto 10].
      apply leased_sids in Hl as [l2 Hl]; [|done]. left. exists sid, l2, l. split_and!; [done..|].
      intros ->. done.
  - intros sid. rewrite Httl, <- !not_eq_None_Some, Hsome. done.
Qed.

(** An inventory never takes a lease off a connection and never forgets a turn or a
    command: in memory an orphaned lease stays held by the worker's connection, and
    counts against the worker's capacity, although its row is cleared.  (The row that
    was read is the object that `clear_session_lease` clears, so its lease id is gone
    when the code looks for the lease to drop.) *)
Theorem orphan_stays_held h d now e0 e1 e2 e3 worker reported unleased conn om d' ps revokes ttl :
  keyed d →
  let out := reconcile_inventory classify_host_message session_model h d now e0 e1 e2 e3 worker reported
     unleased conn om in
  out.2 = Ok (d', ps, revokes, ttl) → h_objs out.1 = h_objs h ∧ h_queue out.1 = h_queue h.
Proof.
  cbv zeta. intros Hk Hrun.
  by destruct (reconcile_parts _ _ _ _ _ _ _ _ _ _ _ _ _ _ _ _ Hk Hrun) as (_ & _ & _ & ? & ?).
Qed.

(** ** An expiry *)

Lemma elem_of_expired d now r : keyed d →
  r ∈ list_expired_leases d now ↔ sessions d !! s_id r = Some r ∧ is_expired now r = true.
Proof.
  intros Hk. unfold list_expired_leases. rewrite merge_sort_Permutation, list_elem_of_filter, elem_of_rows by done.
  tauto.
Qed.
Lemma expired_sids d now sid : keyed d →
  sid ∈ s_id <$> list_expired_leases d now ↔ ∃ r, sessions d !! sid = Some r ∧ is_expired now r = true.
Proof.
  intros Hk. rewrite list_elem_of_fmap. split.
  - intros (r & -> & [? ?]%elem_of_expired); [|done]. by exists r.
  - intros (r & Hr & He). pose proof (Hk _ _ Hr) as Hid. exists r. split; [done|].
    apply elem_of_expired; [done|]. by rewrite Hid.
Qed.

Lemma expire_rows_cells now eid rows d ps d' ps' :
  keyed d → Forall (cell_tenant d) rows →
  foldl (expire_row classify_host_message now eid) (Ok (d, ps)) rows = Ok (d', ps') →
  cells_cleared (s_id <$> rows) d d'.
Proof.
  revert d ps. induction rows as [|r rows IH]; intros d ps Hk Ht; cbn [foldl].
  - intros [= <- _]. by apply lease_same_cleared.
  - apply Forall_cons_1 in Ht as [Htr Ht]. unfold expire_row at 2. cbn [mbind res_bind].
    pose proof (clear_cleared d now r Htr) as H1.
    destruct (clear_session_lease d now (s_tenant r) (s_id r)) as [d1 o]. cbn [fst] in H1.
    destruct (persist_event d1 _ _ _ _ _ _) as [[d2 p]|] eqn:H2; cbn [mbind res_bind]; [|by rewrite expire_rows_err].
    apply lease_same_persist, lease_same_cleared in H2. pose proof (cells_cleared_trans _ _ _ _ _ H1 H2) as H.
    intros H3. assert (cells_cleared (s_id <$> rows) d2 d') as H4.
    { apply (IH d2 (ps ++ p)); [by apply (H Hk)| |done]. eapply list.Forall_impl; [exact Ht|]. intros x.
      by apply (cells_cleared_tenant _ _ _ _ Hk H). }
    apply (cells_cleared_trans [s_id r] _ d d2); [|done]. by rewrite app_nil_r in H.
Qed.
Lemma end_turns_same now e1 e2 e3 l d ps :
  lease_same d (foldl (end_expired_turn classify_host_message session_model now e1 e2 e3) (d, ps) l).1.
Proof.
  revert d ps. induction l as [|c l IH]; intros d ps; [done|]. cbn [foldl]. unfold end_expired_turn at 2.
  destruct (fail_stale_in_progress _ _ d _ _ _ _ _ _ _) as [[d' p]|] eqn:H; [|apply IH].
  etrans; [by eapply lease_same_fail_stale|apply IH].
Qed.

(** Nothing of an ended lease is left in the replica's memory. *)
Definition forgotten (h : hub) (c : cleared) : Prop :=
  h_deltas h !! cl_session c = None
  ∧ ∀ lease, cl_lease c = Some lease →
    queue_of (h_queue h) lease = []
    ∧ ∀ wk ref x, cl_worker c = Some wk → current h wk = Some (ref, x) → lease ∉ c_leases x.

Lemma current_objs h h' wk ref x :
  h_conns h' = h_conns h → current h' wk = Some (ref, x) →
  h_objs h' !! ref = Some x ∧ h_conns h !! wk = Some ref.
Proof.
  intros Hc. unfold current. rewrite Hc. destruct (h_conns h !! wk) as [r|]; cbn; [|done].
  destruct (h_objs h' !! r) eqn:E; cbn; [|done]. by intros [= <- <-].
Qed.

(** The memory only loses: what is gone stays gone. *)
Definition hub_less (h h' : hub) : Prop :=
  h_conns h' = h_conns h
  ∧ (∀ sid, h_deltas h !! sid = None → h_deltas h' !! sid = None)
  ∧ (∀ l, queue_of (h_queue h) l = [] → queue_of (h_queue h') l = [])
  ∧ (∀ ref c', h_objs h' !! ref = Some c' → ∃ c, h_objs h !! ref = Some c ∧ c_leases c' ⊆ c_leases c).
#[global] Instance hub_less_preorder : PreOrder hub_less.
Proof.
  split; [intros h; split_and!; [done|auto|auto|eauto]|]. intros h1 h2 h3 (A1 & A2 & A3 & A4) (B1 & B2 & B3 & B4).
  split_and!; [congruence|auto|auto|]. intros ref c3 H3. destruct (B4 _ _ H3) as (c2 & H2 & ?).
  destruct (A4 _ _ H2) as (c1 & H1 & ?). exists c1. split; [done|]. set_solver.
Qed.
Lemma less_end_lease h ref lease : hub_less h (update_conn h ref (end_lease lease)).
Proof.
  split_and!; try done. intros r c'. cbn. rewrite lookup_alter_Some.
  intros [(<- & c & Hc & ->)|[_ Hc]]; [|by exists c']. exists c. split; [done|]. cbn. set_solver.
Qed.
Lemma less_forget h sid : hub_less h (forget_delta h sid) ∧ h_deltas (forget_delta h sid) !! sid = None.
Proof.
  split; [|apply olookup_delete_eq]. split_and!; try done; [|eauto].
  intros s Hs. cbn. rewrite olookup_delete. by case_decide.
Qed.
Lemma less_drop h lease :
  hub_less h (drop_lease_commands h lease) ∧ queue_of (h_queue (drop_lease_commands h lease)) lease = [].
Proof.
  split; [|unfold queue_of; cbn; by rewrite olookup_delete_eq]. split_and!; try done; [|eauto].
  intros l Hl. unfold queue_of in *. cbn. rewrite olookup_delete. by case_decide.
Qed.
Lemma forgotten_less h h' c : hub_less h h' → forgotten h c → forgotten h' c.
Proof.
  intros (Hc & Hd & Hq & Ho) [H1 H2]. split; [auto|]. intros lease Hl. destruct (H2 lease Hl) as [H3 H4].
  split; [auto|]. intros wk ref x Hw Hx. apply (current_objs h) in Hx as [Hx Hconn]; [|done].
  destruct (Ho _ _ Hx) as (y & Hy & Hsub). intros Hin%Hsub. revert Hin. apply (H4 wk ref y Hw).
  unfold current. rewrite Hconn. cbn. by rewrite Hy.
Qed.

(** Whom an ended lease is revoked from: the worker, when it is connected here. *)
Definition revoked (h : hub) (c : cleared) (rv : revoke) : Prop :=
  match rv with Revoke ref sid lease => ∃ wk x,
    sid = cl_session c ∧ cl_lease c = Some lease ∧ cl_worker c = Some wk ∧ current h wk = Some (ref, x) end.
Lemma revoked_less h h' c rv : hub_less h h' → revoked h' c rv → revoked h c rv.
Proof.
  intros (Hc & _ & _ & Ho). destruct rv as [ref sid lease]. intros (wk & x & ? & ? & ? & Hx).
  apply (current_objs h) in Hx as [Hx Hconn]; [|done]. destruct (Ho _ _ Hx) as (y & Hy & _).
  exists wk, y. split_and!; [done..|]. unfold current. rewrite Hconn. cbn. by rewrite Hy.
Qed.
(** Connections do not go away. *)
Definition conns_stay (h h' : hub) : Prop :=
  h_conns h' = h_conns h ∧ ∀ ref, is_Some (h_objs h !! ref) → is_Some (h_objs h' !! ref).
Lemma revoked_stay h h' c rv : conns_stay h h' → revoked h c rv → revoked h' c rv.
Proof.
  intros [Hc Ho]. destruct rv as [ref sid lease]. intros (wk & x & ? & ? & ? & Hx).
  apply (current_objs h) in Hx as [Hx Hconn]; [|done]. destruct (Ho ref) as [y Hy]; [by eexists|].
  exists wk, y. split_and!; [done..|]. unfold current. rewrite Hc, Hconn. cbn. by rewrite Hy.
Qed.

Lemma expire_one_spec h out c :
  hub_less h (expire_one (h, out) c).1 ∧ conns_stay h (expire_one (h, out) c).1
  ∧ forgotten (expire_one (h, out) c).1 c
  ∧ ∀ rv, rv ∈ (expire_one (h, out) c).2 ↔ rv ∈ out ∨ revoked h c rv.
Proof.
  unfold expire_one. destruct (less_forget h (cl_session c)) as [L1 F1].
  set (h1 := forget_delta h (cl_session c)) in *.
  destruct (cl_lease c) as [lease|] eqn:Hl.
  2: { cbn [fst snd]. split_and!; [done|by split| |].
       - split; [done|]. by rewrite Hl.
       - intros [ref sid l]. split; [by left|]. intros [?|(? & ? & ? & ? & _)]; [done|congruence]. }
  destruct (less_drop h1 lease) as [L2 F2]. set (h2 := drop_lease_commands h1 lease) in *.
  assert (hub_less h h2) as L by by etrans.
  assert (h_deltas h2 !! cl_session c = None) as F3 by by apply L2.
  assert (∀ wk, current h2 wk = current h wk) as Hcur by done.
  destruct (w ← cl_worker c; current h2 w) as [[ref x]|] eqn:Hw; cbn [fst snd].
  - destruct (cl_worker c) as [wk|] eqn:Hwk; cbn [mbind option_bind] in Hw; [|done].
    split_and!.
    + etrans; [exact L|apply less_end_lease].
    + split; [done|]. intros r Hr. cbn. by apply lookup_alter_is_Some.
    + split; [done|]. rewrite Hl. intros l [= <-]. split; [done|]. intros wk' ref' y. rewrite Hwk. intros [= <-] Hy.
      apply (current_objs h2) in Hy as [Hy Hconn]; [|done].
      assert (ref' = ref) as -> by (apply (current_objs h2) in Hw as [_ Hw]; [congruence|done]).
      cbn in Hy. apply lookup_alter_Some in Hy as [(_ & z & _ & ->)|[? _]]; [|done]. cbn. set_solver.
    + intros rv. rewrite elem_of_app, list_elem_of_singleton. split; (intros [?|H]; [by left|right]).
      * subst rv. exists wk, x. by rewrite <- Hcur.
      * destruct rv as [ref' sid l]. destruct H as (wk' & y & -> & ? & ? & Hy). rewrite <- Hcur in Hy. congruence.
  - split_and!; [done|by split| |].
    + split; [done|]. rewrite Hl. intros l [= <-]. split; [done|]. intros wk ref x Hwk Hx. rewrite Hwk in Hw. cbn in Hw.
      congruence.
    + intros [ref sid l]. split; [by left|]. intros [?|(wk & x & ? & ? & Hwk & Hx)]; [done|].
      rewrite Hwk in Hw. cbn in Hw. rewrite Hcur in Hw. congruence.
Qed.
Lemma expire_memory_spec h l :
  hub_less h (expire_memory h l).1 ∧ Forall (forgotten (expire_memory h l).1) l
  ∧ ∀ rv, rv ∈ (expire_memory h l).2 ↔ ∃ c, c ∈ l ∧ revoked h c rv.
Proof.
  unfold expire_memory.
  assert (∀ h out, let r := foldl expire_one (h, out) l in hub_less h r.1 ∧ Forall (forgotten r.1) l
    ∧ ∀ rv, rv ∈ r.2 ↔ rv ∈ out ∨ ∃ c, c ∈ l ∧ revoked h c rv) as H.
  { induction l as [|c l IH]; intros h0 out; cbn [foldl].
    - split_and!; [done|constructor|]. intros rv. cbn. setoid_rewrite elem_of_nil. naive_solver.
    - destruct (expire_one_spec h0 out c) as (L & S & F & R).
      destruct (expire_one (h0, out) c) as [h1 out1]. cbn [fst snd] in *.
      destruct (IH h1 out1) as (L2 & F2 & R2). split_and!.
      + by etrans.
      + constructor; [by eapply forgotten_less|done].
      + intros rv. rewrite R2, R. setoid_rewrite elem_of_cons. split.
        * intros [[?|?]|(x & ? & ?)]; [by left|right; by exists c; auto|]. right. exists x.
          split; [by right|]. by eapply revoked_less.
        * intros [?|(x & [->|?] & Hx)]; [by left; left|by left; right|]. right. exists x. split; [done|].
          by eapply revoked_stay. }
  destruct (H h []) as (H1 & H2 & H3). split_and!; [done..|]. intros rv. rewrite H3, elem_of_nil. tauto.
Qed.

(** What an expiry does.  Exactly the sessions whose lease has run out lose it, and
    every other session keeps its own; the worker of each, when it is connected here,
    and no other one, is told to drop it; and nothing of it is left in memory: no
    delta lease, no command to send again, and the connection does not hold it. *)
Theorem expire_exact h d now e0 e1 e2 e3 d' ps out sids :
  keyed d →
  (expire classify_host_message session_model h d now e0 e1 e2 e3).2 = Ok (d', ps, out, sids) →
  let h' := (expire classify_host_message session_model h d now e0 e1 e2 e3).1 in
  (∀ sid r, sessions d !! sid = Some r → cell d' sid = Some
     (if is_expired now r then clear_cell (lease_cell r) else lease_cell r))
  ∧ (∀ sid, sid ∈ sids ↔ ∃ r, sessions d !! sid = Some r ∧ is_expired now r = true)
  ∧ (∀ ref sid lease, Revoke ref sid lease ∈ out ↔ ∃ r wk c, sessions d !! sid = Some r
       ∧ is_expired now r = true ∧ lease_id (s_lease r) = Some lease ∧ worker_id (s_lease r) = Some wk
       ∧ current h wk = Some (ref, c))
  ∧ ∀ sid, sid ∈ sids → ∃ r, sessions d !! sid = Some r ∧ forgotten h' (cleared_of r).
Proof.
  intros Hk. unfold expire, expire_rows. set (rows := list_expired_leases d now).
  destruct (foldl _ _ rows) as [[d1 ps1]|] eqn:Hf; cbn [mbind res_bind]; [|done].
  assert (∀ r, r ∈ rows ↔ sessions d !! s_id r = Some r ∧ is_expired now r = true) as Hrows
    by (intros; by apply elem_of_expired).
  apply expire_rows_cells in Hf; [|done|].
  2: { apply list.Forall_forall. intros r [Hr _]%Hrows. unfold cell_tenant, cell. by rewrite Hr. }
  destruct (expire_memory_spec h (cleared_of <$> rows)) as (_ & Hforg & Hrev).
  destruct (expire_memory h (cleared_of <$> rows)) as [h1 o1]. cbn [fst snd] in Hforg, Hrev.
  pose proof (end_turns_same now e1 e2 e3 (cleared_of <$> rows) d1 []) as He. unfold end_expired_turns.
  destruct (foldl _ (d1, []) _) as [d2 ps2]. cbn [fst snd] in *. intros [= <- _ <- <-].
  destruct (Hf Hk) as [Hk1 Hc1]. destruct (He Hk1) as [_ Hc2].
  assert (cl_session <$> (cleared_of <$> rows) = s_id <$> rows) as Hids by by rewrite <- list_fmap_compose.
  rewrite Hids. split_and!.
  - intros sid r Hr. rewrite Hc2, Hc1. pose proof (expired_sids d now sid Hk) as Hiff. fold rows in Hiff.
    unfold cell. rewrite Hr. destruct (decide _) as [Hin|Hin]; destruct (is_expired now r) eqn:E; try done.
    + apply Hiff in Hin as (x & ? & ?). congruence.
    + destruct Hin. apply Hiff. by exists r.
  - intros sid. by apply expired_sids.
  - intros ref sid lease. rewrite Hrev. setoid_rewrite list_elem_of_fmap. split.
    + intros (c & (r & -> & [Hr ?]%Hrows) & wk & x & -> & ? & ? & ?). exists r, wk, x. by split_and!.
    + intros (r & wk & x & Hr & ? & ? & ? & ?). pose proof (Hk _ _ Hr) as Hid. exists (cleared_of r). split.
      * exists r. split; [done|]. apply Hrows. by rewrite Hid.
      * exists wk, x. by rewrite <- Hid.
  - intros sid (r & -> & Hin)%list_elem_of_fmap. exists r. pose proof (proj1 (Hrows r) Hin) as [Hr _].
    split; [done|]. rewrite list.Forall_forall in Hforg. apply Hforg, list_elem_of_fmap. by exists r.
Qed.
End ends.

(** ** A reconnect *)

Section restore.
Context (cfg : fleet_settings).

Lemma restore_row_queue now ref worker claimed acc r :
  h_queue (restore_row cfg now ref worker claimed acc r).1 = h_queue acc.1.
Proof.
  unfold restore_row. destruct acc as [h [[cursors renewed]|]]; [|done].
  destruct (reattached _ _ _); [|done]. by destruct (sandbox_size_of _).
Qed.
Lemma restore_err now ref worker claimed rows h x :
  (foldl (restore_row cfg now ref worker claimed) (h, Err x) rows).2 = Err x.
Proof. by induction rows. Qed.
Lemma note_delta_objs h now sid worker lease tenant :
  h_objs (note_delta_lease h now sid worker lease tenant) = h_objs h.
Proof. done. Qed.

Lemma restore_rows_spec now ref worker claimed rows q h c cursors renewed h' cursors' renewed' :
  h_queue h = q → h_objs h !! ref = Some c → NoDup (s_id <$> rows) →
  foldl (restore_row cfg now ref worker claimed) (h, Ok (cursors, renewed)) rows = (h', Ok (cursors', renewed')) →
  (∀ sid, cursors' !! sid = match find_row (λ r, bool_decide (s_id r = sid)
       && bool_decide (is_Some (reattached q claimed r))) rows with
     | Some r => Some (worker_seq (s_lease r)) | None => cursors !! sid end)
  ∧ renewed' = renewed ++ omap (reattached q claimed) rows
  ∧ ∃ c', h_objs h' !! ref = Some c'
    ∧ c_leases c' = c_leases c ∪ list_to_set (omap (reattached q claimed) rows).
Proof.
  intros Hq. revert h c cursors renewed Hq.
  induction rows as [|r rows IH]; intros h c cursors renewed Hq Hc Hnd; cbn [foldl].
  - intros [= <- <- <-]. rewrite app_nil_r. split_and!; [done|done|]. exists c. split; [done|]. cbn. set_solver.
  - cbn [fmap list_fmap] in Hnd. apply list.NoDup_cons in Hnd as [Hn Hnd].
    unfold restore_row at 2. rewrite Hq. cbn [omap list_omap].
    assert (∀ sid (x : option session_row), find_row (λ r0, bool_decide (s_id r0 = sid)
      && bool_decide (is_Some (reattached q claimed r0))) (r :: rows)
      = if decide (s_id r = sid ∧ is_Some (reattached q claimed r)) then Some r
        else find_row (λ r0, bool_decide (s_id r0 = sid)
          && bool_decide (is_Some (reattached q claimed r0))) rows) as Hfind.
    { intros sid _. unfold find_row. rewrite filter_cons.
      destruct (bool_decide_reflect (s_id r = sid)), (bool_decide_reflect (is_Some (reattached q claimed r)));
        cbn [andb]; repeat case_decide; naive_solver. }
    destruct (reattached q claimed r) as [lease|] eqn:Hre.
    + destruct (sandbox_size_of _) as [size|x].
      2: { intros H. pose proof (restore_err now ref worker claimed rows
             (update_conn h ref (λ c, set_leases c ({[lease]} ∪ c_leases c) (c_lease_mem c))) x) as He.
           by rewrite H in He. }
      intros H. apply (IH _ (add_lease lease (mem_mib_for_size cfg (Some size)) c)) in H
        as (H1 & H2 & c' & H3 & H4); [|done| |done].
      2: { rewrite note_delta_objs. cbn. by rewrite lookup_alter_eq, Hc. }
      split_and!.
      * intros sid. rewrite H1, (Hfind sid None). case_decide as Hd.
        -- destruct Hd as [<- _]. rewrite olookup_insert_eq. unfold find_row.
           replace (filter _ rows) with (@nil session_row); [done|]. symmetry. apply filter_none.
           apply list.Forall_forall. intros y Hy. rewrite andb_true_iff, bool_decide_eq_true.
           intros [Heq _]. apply Hn. rewrite <- Heq. apply list_elem_of_fmap. by exists y.
        -- rewrite olookup_insert_ne; [done|]. intros <-. apply Hd. split; [done|by eexists].
      * rewrite H2, <- app_assoc. done.
      * exists c'. split; [done|]. rewrite H4. cbn. set_solver.
    + intros H. apply (IH _ c) in H as (H1 & H2 & H3); [|done..]. split_and!; [|done|done].
      intros sid. rewrite H1, (Hfind sid None), decide_False; [done|]. intros [_ [? ?]]. done.
Qed.

(** A lease the worker gets back. *)
Definition regained (d : db) (q : command_queue) (worker : uuid) (claimed : gmap uuid uuid) (sid lease : uuid)
    (r : session_row) : Prop :=
  sessions d !! sid = Some r ∧ worker_id (s_lease r) = Some worker ∧ reattached q claimed r = Some lease.

Lemma elem_of_worker_rows d worker r : keyed d →
  r ∈ list_worker_leases d worker ↔ sessions d !! s_id r = Some r ∧ worker_id (s_lease r) = Some worker.
Proof. intros Hk. unfold list_worker_leases. rewrite list_elem_of_filter, elem_of_rows by done. tauto. Qed.
Lemma worker_rows_NoDup d worker : keyed d → NoDup (s_id <$> list_worker_leases d worker).
Proof.
  intros Hk. unfold list_worker_leases. eapply sublist_NoDup; [|apply fmap_sublist, sublist_filter].
  rewrite <- list_fmap_compose.
  rewrite (list_fmap_ext _ fst (map_to_list (sessions d))); [apply NoDup_fst_map_to_list|].
  intros i [sid r] Hi. apply list_elem_of_lookup_2, elem_of_map_to_list in Hi. cbn. by apply Hk.
Qed.
Lemma regained_leases d q worker claimed l : keyed d →
  l ∈ omap (reattached q claimed) (list_worker_leases d worker) ↔ ∃ sid r, regained d q worker claimed sid l r.
Proof.
  intros Hk. rewrite list_elem_of_omap. split.
  - intros (r & [? ?]%elem_of_worker_rows & ?); [|done]. by exists (s_id r), r.
  - intros (sid & r & Hr & ? & ?). pose proof (Hk _ _ Hr) as Hid. exists r. split; [|done].
    apply elem_of_worker_rows; [done|]. by rewrite Hid.
Qed.

Lemma cursor_regained d q worker claimed sid n : keyed d →
  match find_row (λ r, bool_decide (s_id r = sid) && bool_decide (is_Some (reattached q claimed r)))
      (list_worker_leases d worker) with
  | Some r => Some (worker_seq (s_lease r)) | None => (∅ : odict uuid Z) !! sid end = Some n
  ↔ ∃ lease r, regained d q worker claimed sid lease r ∧ n = worker_seq (s_lease r).
Proof.
  intros Hk. destruct (find_row _ _) as [r|] eqn:Hf.
  - apply find_row_Some in Hf as [[<-%bool_decide_eq_true [l Hl]%bool_decide_eq_true]%andb_true_iff
      [H1 H2]%elem_of_worker_rows]; [|done]. split.
    + intros [= <-]. by exists l, r.
    + intros (l' & r' & (H3 & _) & ->). congruence.
  - split; [done|]. intros (l & r & (H1 & H2 & H3) & _). pose proof (Hk _ _ H1) as Hid.
    apply find_row_None in Hf. rewrite list.Forall_forall in Hf.
    assert (r ∈ list_worker_leases d worker) as Hin by (apply elem_of_worker_rows; [done|]; by rewrite Hid).
    specialize (Hf r Hin). cbv beta in Hf. rewrite Hid, H3, !bool_decide_eq_true_2 in Hf; done || by eexists.
Qed.
Lemma renew_none d now worker until : (renew_session_leases d now worker [] until).1 = d.
Proof.
  unfold renew_session_leases. cbn [fst]. destruct d as [rows ? ? ? ? ? ? ? ? ?]. unfold with_sessions. cbn.
  f_equal. rewrite <- (map_fmap_id rows) at 2. apply map_fmap_ext. intros sid r _.
  destruct (lease_id _); [|by rewrite andb_false_r]. by rewrite andb_false_r.
Qed.

(** What a reconnect restores.  The worker gets a cursor for exactly the sessions
    whose lease it gets back, each the sequence number stored for the session; its
    connection holds those leases on top of what it held; and exactly the rows under
    those leases are renewed, for one lease period from now. *)
Theorem restore_exact h d now ref worker claimed c h' d' cursors :
  keyed d → h_objs h !! ref = Some c →
  restore_leases cfg h d now ref worker claimed = (h', Ok (d', cursors)) →
  (∀ sid n, cursors !! sid = Some n ↔
     ∃ lease r, regained d (h_queue h) worker claimed sid lease r ∧ n = worker_seq (s_lease r))
  ∧ (∃ c', h_objs h' !! ref = Some c' ∧ ∀ l, l ∈ c_leases c' ↔
       l ∈ c_leases c ∨ ∃ sid r, regained d (h_queue h) worker claimed sid l r)
  ∧ ∀ sid r, sessions d !! sid = Some r → ∃ r', sessions d' !! sid = Some r' ∧
      let renewed := worker_id (s_lease r) = Some worker ∧ ∃ l sid1 r1,
        lease_id (s_lease r) = Some l ∧ regained d (h_queue h) worker claimed sid1 l r1 in
      (renewed → r' = extend_lease (now + worker_lease_ttl cfg) now r) ∧ (¬ renewed → r' = r).
Proof.
  intros Hk Hc. unfold restore_leases, restore_memory. set (rows := list_worker_leases d worker).
  destruct (foldl _ _ rows) as [h1 [[cs renewed]|]] eqn:Hf; [|done].
  destruct (restore_rows_spec _ _ _ _ _ (h_queue h) _ c _ _ _ _ _ eq_refl Hc (worker_rows_NoDup d worker Hk) Hf)
    as (Hcur & Hren & c1 & Hc1 & Hleases). cbn [app] in Hren.
  assert (∀ l, l ∈ renewed ↔ ∃ sid r, regained d (h_queue h) worker claimed sid l r) as Hin.
  { intros l. rewrite Hren. by apply regained_leases. }
  intros Hout. assert (cursors = cs ∧ d' = (renew_session_leases d now worker renewed (now + worker_lease_ttl cfg)).1
    ∧ ∃ c', h_objs h' !! ref = Some c' ∧ c_leases c' = c_leases c1) as (-> & -> & c' & Hc' & Hcl).
  { destruct renewed as [|l renewed]; injection Hout as <- <- <-.
    - split_and!; [done| |by exists c1]. cbn. symmetry. apply renew_none.
    - split_and!; [done|done|]. eexists. split; [cbn; by rewrite lookup_alter_eq, Hc1|done]. }
  split_and!.
  - intros sid n. rewrite Hcur. by apply cursor_regained.
  - exists c'. split; [done|]. intros l. rewrite Hcl, Hleases, elem_of_union, elem_of_list_to_set, <- Hren. by rewrite Hin.
  - intros sid r Hr. cbn. rewrite lookup_fmap, Hr. eexists. split; [done|].
    destruct (bool_decide_reflect (worker_id (s_lease r) = Some worker)); cbn [andb]; [|naive_solver].
    destruct (lease_id (s_lease r)) as [l|]; [|naive_solver]. pose proof (Hin l) as Hl.
    destruct (bool_decide_reflect (l ∈ renewed)); naive_solver.
Qed.
End restore.

(** ** Witnesses *)

Definition lw_row (sid lease : uuid) (until : Z) : session_row :=
  SessionRow sid 1 None "k" None None "idle" (JObj []) (JObj []) (JArr [])
    (LeaseCols (Some 9%N) (Some lease) (Some until) 3)
    (SandboxCols None None None None None None None None 0 None) None 0 1.
(** Two sessions of worker 9: the lease of the second runs out at 50. *)
Definition lw_db : db :=
  Db {[ 2%N := lw_row 2 5 100; 3%N := lw_row 3 6 50 ]} [] [] [] [] [] [] [] ∅ (Acct [] [] []).
Definition lw_conn (leases : gset uuid) : connection :=
  Conn 9 1 4 4096 "none" "" leases ∅ false ∅ {["none"%string]} ∅ 0 None.
Definition lw_hub (leases : gset uuid) : hub :=
  let h := with_objs empty_hub {[ 0%N := lw_conn leases ]} in attach h 0 (lw_conn leases).
Definition lw_cfg : fleet_settings := FleetSettings 512 1024 2048 1000.

Lemma lw_keyed : keyed lw_db.
Proof.
  intros sid r. unfold lw_db. cbn [sessions].
  by intros [[<- <-]|[_ [<- <-]%lookup_singleton_Some]]%lookup_insert_Some.
Qed.

(** The worker reports the first session, a session it does not have, and not the
    second one. *)
Definition lw_reported : odict uuid uuid := <[4%N := 8%N]> (<[2%N := 5%N]> ∅).
Definition lw_inventory :=
  reconcile_inventory no_classify (λ _ _, None) (lw_hub {[5%N; 6%N]}) lw_db 60 (λ s, s + 10)%N (λ s, s + 20)%N
    (λ s, s + 30)%N (λ s, s + 40)%N 9 lw_reported [7%N] (Some 0%N) true.
Definition lw_inventory_db : db := match lw_inventory.2 with Ok (d, _, _, _) => d | Err _ => lw_db end.
Definition lw_revokes : list revoke_entry := match lw_inventory.2 with Ok (_, _, l, _) => l | Err _ => [] end.

Lemma reconcile_exact_witness :
  cell lw_inventory_db 2 = Some (lease_cell (lw_row 2 5 100))
  ∧ cell lw_inventory_db 3 = Some (clear_cell (lease_cell (lw_row 3 6 50)))
  ∧ RevokeEntry 4 (Some 8%N) ∈ lw_revokes ∧ RevokeEntry 7 None ∈ lw_revokes.
Proof.
  assert (∃ ps ttl, lw_inventory.2 = Ok (lw_inventory_db, ps, lw_revokes, ttl)) as (ps & ttl & Hrun)
    by (do 2 eexists; vm_compute; reflexivity).
  destruct (reconcile_exact no_classify (λ _ _, None) (lw_hub {[5%N; 6%N]}) lw_db 60 _ _ _ _ 9 lw_reported
    [7%N] (Some 0%N) true _ _ _ _ lw_keyed ltac:(apply odict_ok_insert, odict_ok_insert, odict_ok_empty) Hrun)
    as (H1 & H2 & _).
  split_and!.
  - exact (H1 2%N (lw_row 2 5 100) eq_refl).
  - exact (H1 3%N (lw_row 3 6 50) eq_refl).
  - apply H2. split; [reflexivity|]. intros (r & Hr & _). vm_compute in Hr. discriminate Hr.
  - apply H2. split_and!; [by left|reflexivity|reflexivity].
Defined.

Definition lw_expire :=
  expire no_classify (λ _ _, None) (lw_hub {[5%N; 6%N]}) lw_db 60 (λ s, s + 10)%N (λ s, s + 20)%N
    (λ s, s + 30)%N (λ s, s + 40)%N.
Lemma expire_exact_witness :
  ∃ d' ps out sids, lw_expire.2 = Ok (d', ps, out, sids)
  ∧ cell d' 2 = Some (lease_cell (lw_row 2 5 100))
  ∧ cell d' 3 = Some (clear_cell (lease_cell (lw_row 3 6 50)))
  ∧ Revoke 0 3 6 ∈ out.
Proof.
  assert (∃ d' ps out sids, lw_expire.2 = Ok (d', ps, out, sids)) as (d' & ps & out & sids & Hrun)
    by (do 4 eexists; vm_compute; reflexivity).
  exists d', ps, out, sids. split; [exact Hrun|].
  destruct (expire_exact no_classify (λ _ _, None) (lw_hub {[5%N; 6%N]}) lw_db 60 (λ s, s + 10)%N
    (λ s, s + 20)%N (λ s, s + 30)%N (λ s, s + 40)%N _ _ _ _ lw_keyed Hrun)
    as (H1 & _ & H2 & _).
  split_and!.
  - exact (H1 2%N (lw_row 2 5 100) eq_refl).
  - exact (H1 3%N (lw_row 3 6 50) eq_refl).
  - apply H2. exists (lw_row 3 6 50), 9%N, (lw_conn {[5%N; 6%N]}). split_and!; vm_compute; reflexivity.
Defined.

Definition lw_restore := restore_leases lw_cfg (lw_hub ∅) lw_db 60 0 9 {[ 2%N := 5%N ]}.
Lemma restore_exact_witness :
  ∃ d' cursors, lw_restore.2 = Ok (d', cursors) ∧ cursors !! 2%N = Some 3 ∧ cursors !! 3%N = None
  ∧ ∃ r', sessions d' !! 2%N = Some r' ∧ lease_until (s_lease r') = Some 1060.
Proof.
  assert (∃ h' d' cursors, lw_restore = (h', Ok (d', cursors))) as (h' & d' & cursors & Hrun)
    by (do 3 eexists; vm_compute; reflexivity).
  destruct (restore_exact lw_cfg (lw_hub ∅) lw_db 60 0 9 {[ 2%N := 5%N ]} (lw_conn ∅) h' d' cursors
    lw_keyed eq_refl Hrun) as (H1 & _ & H3).
  assert (regained lw_db (h_queue (lw_hub ∅)) 9 {[ 2%N := 5%N ]} 2 5 (lw_row 2 5 100)) as Hre
    by (split_and!; vm_compute; reflexivity).
  exists d', cursors. split_and!.
  - by rewrite Hrun.
  - apply H1. exists 5%N, (lw_row 2 5 100). split; [exact Hre|reflexivity].
  - apply eq_None_not_Some. intros [n Hn]. apply H1 in Hn as (l & r & (Hr & _ & Hl) & _).
    assert (r = lw_row 3 6 50) as -> by (change (Some (lw_row 3 6 50) = Some r) in Hr; congruence).
    vm_compute in Hl. discriminate Hl.
  - destruct (H3 2%N (lw_row 2 5 100) eq_refl) as (r' & Hr' & Hyes & _). exists r'. split; [exact Hr'|].
    rewrite Hyes; [reflexivity|]. split; [reflexivity|]. exists 5%N, 2%N, (lw_row 2 5 100). split; [reflexivity|exact Hre].
Defined.

(** The second session is orphaned, and its lease is still one of the connection's. *)
Lemma orphan_stays_held_witness :
  cell lw_inventory_db 3 = Some (clear_cell (lease_cell (lw_row 3 6 50)))
  ∧ h_objs lw_inventory.1 = {[ 0%N := lw_conn {[5%N; 6%N]} ]}.
Proof.
  assert (∃ ps ttl, lw_inventory.2 = Ok (lw_inventory_db, ps, lw_revokes, ttl)) as (ps & ttl & Hrun)
    by (do 2 eexists; vm_compute; reflexivity).
  split; [vm_compute; reflexivity|].
  exact (proj1 (orphan_stays_held no_classify (λ _ _, None) (lw_hub {[5%N; 6%N]}) lw_db 60 _ _ _ _ 9 lw_reported
    [7%N] (Some 0%N) true _ _ _ _ lw_keyed Hrun)).
Defined.
