(* ===== verification/SecretMask.v ===== *)
(** * Masking secrets in responses (src/src/apipi/worker/egress/inject.py)

    A response that comes back to the guest has each secret replaced by its
    placeholder.  The body arrives in pieces, and a secret can lie across two of
    them: the filter holds back the end of what it has, when that can be the start
    of a secret.  Bytes are lists of characters; the pattern is an alternation of
    literal needles, so a match is the first needle of the list that the text goes
    on with. *)

From S2P Require Import Prelude PyStd Db.

Abbreviation bytes := (list ascii) (only parsing).
Abbreviation masks := (list (list ascii * list ascii)) (only parsing).

(** ** The table of masks *)

(** `sorted(..., key=lambda pair: len(pair[0]), reverse=True)`: stable. *)
Fixpoint insert_mask (x : bytes * bytes) (l : masks) : masks :=
  match l with
  | [] => [x]
  | y :: l' => if decide (length x.1 < length y.1)%nat then y :: insert_mask x l' else x :: l
  end.
Definition sort_masks (l : masks) : masks := foldr insert_mask [] l.
(** The first replacement of a needle wins; empty needles are left out. *)
Definition unique_masks (pairs : masks) : masks :=
  foldl (λ acc p, if decide (p.1 = [] ∨ p.1 ∈ acc.*1) then acc else acc ++ [p]) [] pairs.
Definition ordered_masks (pairs : masks) : masks := sort_masks (unique_masks pairs).

(** ** Matches (`mask_pattern`) *)

(** The match at the start of [s]: the first alternative. *)
Definition mask_at (m : masks) (s : bytes) : option (bytes * bytes) :=
  find_row (λ p, startswith p.1 s) m.
(** `finditer`: the positions and needles of the matches, left to right, none
    overlapping the one before; [skip] characters belong to the last match. *)
Fixpoint finditer (m : masks) (skip pos : nat) (s : bytes) : list (nat * (bytes * bytes)) :=
  match s with
  | [] => []
  | _ :: s' =>
      match skip with
      | S k => finditer m k (S pos) s'
      | O => match mask_at m s with
             | Some p => (pos, p) :: finditer m (length p.1 - 1) (S pos) s'
             | None => finditer m 0 (S pos) s'
             end
      end
  end.

(** `buf[a:b]` *)
Definition slice (a b : nat) (buf : bytes) : bytes := take (b - a) (drop a buf).
(** The text up to the first match that starts at [cut] or later, with the matches
    replaced, and where it ends. *)
Fixpoint replaced (buf : bytes) (cut pos : nat) (l : list (nat * (bytes * bytes))) : bytes * nat :=
  match l with
  | [] => ([], pos)
  | (start, p) :: l' =>
      if decide (cut ≤ start)%nat then ([], pos)
      else let '(out, last) := replaced buf cut (start + length p.1) l' in
           (slice pos start buf ++ p.2 ++ out, last)
  end.
(** `pattern.sub(self._sub, data)` *)
Definition sub_all (m : masks) (s : bytes) : bytes :=
  let '(out, last) := replaced s (length s) 0 (finditer m 0 0 s) in out ++ drop last s.

(** ** The filter of a body ([SecretMask]) *)

(** `_hold`: how much of the end of [buf] may be the start of a needle. *)
Fixpoint hold_scan (needle : bytes) (best : nat) (s : bytes) : nat :=
  match s with
  | [] => best
  | c :: s' =>
      if decide (Some c = head needle) then
        if decide (best < length s)%nat then
          if startswith s needle then length s else hold_scan needle best s'
        else best
      else hold_scan needle best s'
  end.
Definition hold (m : masks) (buf : bytes) : nat :=
  foldl (λ best p, hold_scan p.1 best (drop (S (length buf) - length p.1) buf)) 0%nat m.

Record secret_mask : Type := SecretMask { sm_masks : masks; sm_carry : bytes }.
Definition new_mask (pairs : masks) : secret_mask := SecretMask (ordered_masks pairs) [].

(** An empty table gives the empty pattern, whose match has no replacement. *)
Definition emit (f : secret_mask) (data : bytes) : res exn (secret_mask * bytes) :=
  if decide (data = []) then Ok (f, [])
  else if decide (sm_masks f = []) then Err ValueExn
  else
    let buf := sm_carry f ++ data in
    let cut := (length buf - hold (sm_masks f) buf)%nat in
    let '(out, pos) := replaced buf cut 0 (finditer (sm_masks f) 0 0 buf) in
    let last := Nat.max pos cut in
    Ok (SecretMask (sm_masks f) (drop last buf), out ++ slice pos last buf).
(** `feed` of a body that is not compressed, and `end`. *)
Definition feed (f : secret_mask) (data : bytes) : res exn (secret_mask * bytes) := emit f data.
Definition finish (f : secret_mask) : res exn (secret_mask * bytes) :=
  if decide (sm_masks f = []) then Err ValueExn
  else Ok (SecretMask (sm_masks f) [], sub_all (sm_masks f) (sm_carry f)).

(** A body in pieces, through the filter. *)
Fixpoint feed_all (f : secret_mask) (pieces : list bytes) : res exn (secret_mask * bytes) :=
  match pieces with
  | [] => finish f
  | p :: l => '(f, out) ← feed f p; '(f, rest) ← feed_all f l; Ok (f, out ++ rest)
  end.

(** ** Lemmas *)

(** What the matches do, one character at a time. *)
Fixpoint masked (m : masks) (skip : nat) (s : bytes) : bytes :=
  match s with
  | [] => []
  | c :: s' =>
      match skip with
      | S k => masked m k s'
      | O => match mask_at m s with
             | Some p => p.2 ++ masked m (length p.1 - 1) s'
             | None => c :: masked m 0 s'
             end
      end
  end.

Definition nonempty_needles (m : masks) : Prop := Forall (λ p : bytes * bytes, p.1 ≠ []) m.

Lemma mask_at_Some m s p : mask_at m s = Some p → p ∈ m ∧ startswith p.1 s = true.
Proof. intros H. apply find_row_Some in H. tauto. Qed.

Lemma masked_skip m k s : (k ≤ length s)%nat → masked m k s = masked m 0 (drop k s).
Proof.
  revert k. induction s as [|c s IH]; intros [|k] Hk; cbn in *; try done; try lia. apply IH. lia.
Qed.

(** *** What the filter holds back *)

Lemma hold_scan_ge needle best s : (best ≤ hold_scan needle best s)%nat.
Proof. revert best. induction s as [|c s IH]; intros best; cbn; [done|].
  repeat case_decide; try destruct (startswith _ _); cbn in *; auto; lia.
Qed.
Lemma hold_scan_le needle best s n : (best ≤ n)%nat → (length s ≤ n)%nat → (hold_scan needle best s ≤ n)%nat.
Proof.
  revert best. induction s as [|c s IH]; intros best Hb Hs; cbn [hold_scan]; [done|].
  cbn [length] in Hs. repeat case_decide; try destruct (startswith _ _); auto; try (apply IH; lia); cbn; lia.
Qed.
Lemma hold_scan_prefix needle best s s1 s2 :
  s = s1 ++ s2 → s2 ≠ [] → startswith s2 needle = true → (length s2 ≤ hold_scan needle best s)%nat.
Proof.
  revert best s1. induction s as [|c s IH]; intros best s1 Hs Hne Hp; cbn [hold_scan].
  - by destruct s1, s2.
  - destruct s1 as [|c1 s1].
    + cbn in Hs. subst s2. assert (Some c = head needle) as Hc.
      { apply startswith_app in Hp as [k ->]. done. }
      rewrite decide_True by done. case_decide; [by rewrite Hp|cbn in *; lia].
    + injection Hs as -> Hs. assert (length s2 ≤ length s)%nat by (rewrite Hs, length_app; lia).
      destruct (decide (Some c1 = head needle)); [|by eapply IH].
      destruct (decide _); [|cbn in *; lia]. destruct (startswith (c1 :: s) needle); [|by eapply IH]. cbn. lia.
Qed.
Lemma hold_fold_ge m buf best : (best ≤ foldl (λ best (p : bytes * bytes), hold_scan p.1 best (drop (S (length buf) - length p.1) buf)) best m)%nat.
Proof. revert best. induction m as [|p m IH]; intros best; cbn; [done|]. etrans; [apply hold_scan_ge|apply IH]. Qed.
Lemma hold_le m buf : (hold m buf ≤ length buf)%nat.
Proof.
  unfold hold. assert (0 ≤ length buf)%nat as H by lia. revert H. generalize 0%nat as best.
  induction m as [|p m IH]; intros best H; cbn; [done|]. apply IH, hold_scan_le; [done|]. rewrite length_drop. lia.
Qed.
(** The end of the buffer that is the start of a needle is held back. *)
Lemma hold_covers m buf p q :
  p ∈ m → (q < length buf)%nat → startswith (drop q buf) p.1 = true → (length buf - q < length p.1)%nat →
  (length buf - q ≤ hold m buf)%nat.
Proof.
  intros Hp Hq Hs Hlen. unfold hold. generalize 0%nat as best. induction m as [|x m IH]; intros best.
  { by apply elem_of_nil in Hp. }
  cbn [foldl]. apply elem_of_cons in Hp as [->|Hp]; [|by apply IH].
  etrans; [|apply hold_fold_ge]. rewrite <- length_drop.
  apply (hold_scan_prefix _ _ _ (take (q - (S (length buf) - length x.1)) (drop (S (length buf) - length x.1) buf))).
  - rewrite <- (take_drop (q - (S (length buf) - length x.1)) (drop (S (length buf) - length x.1) buf)) at 1.
    f_equal. rewrite drop_drop. f_equal. lia.
  - intros H. apply (f_equal length) in H. rewrite length_drop in H. cbn in H. lia.
  - done.
Qed.

(** Before the part held back, the rest of the body changes no match. *)
Lemma startswith_ext (n s rest : bytes) :
  startswith n (s ++ rest) = startswith n s ∨ startswith s n = true ∧ (length s < length n)%nat.
Proof.
  destruct (decide (length n ≤ length s)%nat) as [Hle|Hgt].
  - left. unfold startswith. by rewrite take_app_le.
  - destruct (startswith n (s ++ rest)) eqn:E.
    + right. split; [|lia]. apply startswith_app in E as [k Hk]. apply startswith_app.
      exists (drop (length s) n). rewrite <- (take_drop (length s) n) at 1. f_equal.
      apply (f_equal (take (length s))) in Hk. rewrite take_app_length, take_app_le in Hk by lia. done.
    + left. symmetry. apply bool_decide_eq_false. intros H. apply (f_equal length) in H.
      rewrite length_take in H. lia.
Qed.
Lemma find_row_ext {A} (P Q : A → bool) l : (∀ x, x ∈ l → P x = Q x) → find_row P l = find_row Q l.
Proof.
  intros H. unfold find_row. f_equal. induction l as [|x l IH]; [done|]. rewrite !filter_cons.
  rewrite (H x) by by left. rewrite IH; [done|]. intros y Hy. apply H. by right.
Qed.
Lemma mask_at_stable m buf rest q :
  (q < length buf - hold m buf)%nat → mask_at m (drop q buf ++ rest) = mask_at m (drop q buf).
Proof.
  intros Hq. apply find_row_ext. intros p Hp.
  destruct (startswith_ext p.1 (drop q buf) rest) as [|[Hs Hl]]; [done|]. exfalso.
  rewrite length_drop in Hl. pose proof (hold_covers m buf p q Hp ltac:(lia) Hs Hl). lia.
Qed.

(** *** One emission *)

Lemma finditer_from m k pos s : Forall (λ x, pos + k ≤ x.1)%nat (finditer m k pos s).
Proof.
  revert k pos. induction s as [|c s IH]; intros k pos; cbn; [done|]. destruct k as [|k].
  - assert (∀ k, Forall (λ x, pos + 0 ≤ x.1)%nat (finditer m k (S pos) s)) as H.
    { intros k. eapply list.Forall_impl; [apply IH|]. cbn. intros; lia. }
    destruct (mask_at m (c :: s)); [constructor; [cbn; lia|]|]; apply H.
  - eapply list.Forall_impl; [apply IH|]. cbn. intros; lia.
Qed.
Definition emitted (buf : bytes) (cut : nat) (r : bytes * nat) : bytes * nat :=
  (r.1 ++ slice r.2 (Nat.max r.2 cut) buf, Nat.max r.2 cut).

Lemma slice_app (a b c : nat) (buf : bytes) : (a ≤ b)%nat → (b ≤ c)%nat → slice a c buf = slice a b buf ++ slice b c buf.
Proof.
  intros Hab Hbc. unfold slice. replace (c - a)%nat with ((b - a) + (c - b))%nat by lia.
  rewrite <- (take_take_drop (drop a buf)), drop_drop. f_equal. f_equal. f_equal. f_equal. lia.
Qed.
Lemma slice_same (a : nat) (buf : bytes) : slice a a buf = [].
Proof. unfold slice. by rewrite Nat.sub_diag. Qed.
(** Text before the first match is copied. *)
Lemma emitted_from buf cut p0 pos l :
  (p0 ≤ pos)%nat → (pos ≤ cut)%nat → Forall (λ x, pos ≤ x.1)%nat l →
  emitted buf cut (replaced buf cut p0 l)
  = (slice p0 pos buf ++ (emitted buf cut (replaced buf cut pos l)).1, (emitted buf cut (replaced buf cut pos l)).2).
Proof.
  intros H1 H2 Hl. destruct l as [|[start p] l]; cbn [replaced].
  - unfold emitted. cbn [fst snd app]. rewrite !Nat.max_r by lia. by rewrite (slice_app p0 pos cut) by lia.
  - apply Forall_cons_1 in Hl as [Hs _]. cbn in Hs. case_decide.
    + unfold emitted. cbn [fst snd app]. rewrite !Nat.max_r by lia. by rewrite (slice_app p0 pos cut) by lia.
    + destruct (replaced buf cut _ l) as [out last]. unfold emitted. cbn [fst snd].
      rewrite (slice_app p0 pos start) by lia. by rewrite <- !app_assoc.
Qed.
Lemma replaced_cut buf cut pos l : Forall (λ x, cut ≤ x.1)%nat l → replaced buf cut pos l = ([], pos).
Proof. intros H. destruct l as [|[start p] l]; [done|]. apply Forall_cons_1 in H as [H _]. cbn in *. by rewrite decide_True. Qed.

Lemma emitted_masked m buf cut rest k pos s :
  nonempty_needles m →
  (∀ q, (q < cut)%nat → mask_at m (drop q buf ++ rest) = mask_at m (drop q buf)) → (cut ≤ length buf)%nat →
  s = drop pos buf → (pos + k ≤ length buf)%nat →
  let r := emitted buf cut (replaced buf cut (pos + k) (finditer m k pos s)) in
  masked m k (s ++ rest) = r.1 ++ masked m 0 (drop r.2 buf ++ rest) ∧ (r.2 ≤ length buf)%nat.
Proof.
  intros Hne Hst Hcut. revert k pos. induction s as [|c s IH]; intros k pos Hs Hk; cbn zeta.
  - assert (pos = length buf ∧ k = 0%nat) as [-> ->].
    { apply (f_equal length) in Hs. rewrite length_drop in Hs. cbn in Hs. lia. }
    cbn [finditer replaced masked]. unfold emitted. cbn [fst snd app].
    rewrite Nat.add_0_r, Nat.max_l, slice_same, drop_all by lia. auto.
  - assert (s = drop (S pos) buf) as Hs'.
    { replace (S pos) with (pos + 1)%nat by lia. by rewrite <- drop_drop, <- Hs. }
    assert (length buf = pos + S (length s))%nat as Hlen.
    { apply (f_equal length) in Hs. rewrite length_drop in Hs. cbn in Hs. lia. }
    destruct k as [|k].
    2: { cbn [masked finditer app]. replace (pos + S k)%nat with (S pos + k)%nat by lia. apply IH; [done|lia]. }
    rewrite Nat.add_0_r. destruct (decide (cut ≤ pos)%nat) as [Hge|Hlt].
    { rewrite replaced_cut.
      2: { eapply list.Forall_impl; [apply finditer_from|]. cbn. intros; lia. }
      unfold emitted. cbn [fst snd]. rewrite Nat.max_l, slice_same, <- Hs by lia. split; [done|lia]. }
    cbn [masked finditer app]. change (c :: s ++ rest) with ((c :: s) ++ rest).
    rewrite Hs, Hst by lia. rewrite <- Hs. destruct (mask_at m (c :: s)) as [p|] eqn:Hm.
    + destruct (mask_at_Some _ _ _ Hm) as [Hin Hpre].
      assert (p.1 ≠ []) as Hp by by eapply (proj1 (list.Forall_forall _ _) Hne).
      assert (1 ≤ length p.1 ≤ S (length s))%nat as Hpl.
      { apply startswith_app in Hpre as [x Hx]. apply (f_equal length) in Hx. rewrite length_app in Hx. cbn in Hx.
        destruct p.1; cbn in *; [done|lia]. }
      destruct (IH (length p.1 - 1)%nat (S pos) Hs' ltac:(lia)) as [H1 H2].
      replace (S pos + (length p.1 - 1))%nat with (pos + length p.1)%nat in H1, H2 by lia.
      cbn [replaced]. rewrite decide_False by lia. rewrite H1.
      destruct (replaced buf cut (pos + length p.1) _) as [out last]. unfold emitted in *. cbn [fst snd] in *.
      rewrite slice_same. cbn [app]. split; [by rewrite <- !app_assoc|done].
    + destruct (IH 0%nat (S pos) Hs' ltac:(lia)) as [H1 H2]. rewrite Nat.add_0_r in H1, H2.
      rewrite (emitted_from buf cut pos (S pos)); [|lia|lia|].
      2: { eapply list.Forall_impl; [apply finditer_from|]. cbn. intros; lia. }
      cbn [fst snd]. split; [|done]. rewrite H1. unfold slice. replace (S pos - pos)%nat with 1%nat by lia.
      rewrite <- Hs. cbn. done.
Qed.

Lemma sub_all_masked m s : nonempty_needles m → sub_all m s = masked m 0 s.
Proof.
  intros Hne. destruct (emitted_masked m s (length s) [] 0 0 s Hne) as [H1 H2]; [|done|done|lia|].
  { intros q _. by rewrite app_nil_r. }
  cbn [Nat.add] in H1, H2. unfold sub_all. destruct (replaced s (length s) 0 _) as [out last].
  unfold emitted in H1, H2. cbn [fst snd] in H1, H2. rewrite !app_nil_r in H1. rewrite H1.
  assert (last ≤ length s)%nat as Hl by lia. rewrite Nat.max_r by done. rewrite drop_all. cbn.
  rewrite app_nil_r. f_equal. unfold slice. rewrite take_ge; [done|]. rewrite length_drop. lia.
Qed.
Lemma emit_masked f data rest :
  nonempty_needles (sm_masks f) → sm_masks f ≠ [] →
  ∃ f' out, emit f data = Ok (f', out) ∧ sm_masks f' = sm_masks f
    ∧ masked (sm_masks f) 0 (sm_carry f ++ data ++ rest) = out ++ masked (sm_masks f) 0 (sm_carry f' ++ rest).
Proof.
  intros Hne Hm. unfold emit. case_decide as Hd.
  - subst data. by exists f, [].
  - rewrite decide_False by done. set (m := sm_masks f) in *. set (buf := sm_carry f ++ data).
    set (cut := (length buf - hold m buf)%nat).
    destruct (emitted_masked m buf cut rest 0 0 buf Hne) as [H1 _]; [|lia|done|lia|].
    { intros q Hq. by apply mask_at_stable. }
    cbn [Nat.add] in H1. destruct (replaced buf cut 0 _) as [out last]. unfold emitted in H1. cbn [fst snd] in H1.
    eexists _, _. split_and!; [done|done|]. cbn [sm_carry]. rewrite <- H1. unfold buf. by rewrite <- app_assoc.
Qed.

(** *** The table of masks *)

Lemma insert_mask_perm x l : insert_mask x l ≡ₚ x :: l.
Proof. induction l as [|y l IH]; cbn; [done|]. case_decide; [|done]. rewrite IH. apply Permutation_swap. Qed.
Lemma sort_masks_perm l : sort_masks l ≡ₚ l.
Proof. induction l as [|x l IH]; cbn; [done|]. by rewrite insert_mask_perm, IH. Qed.
Lemma foldl_inv {A B} (P : A → Prop) (f : A → B → A) l a :
  P a → (∀ a b, P a → P (f a b)) → P (foldl f a l).
Proof. intros H Hf. revert a H. induction l as [|b l IH]; intros a H; cbn; auto. Qed.
Lemma unique_nonempty pairs : nonempty_needles (unique_masks pairs).
Proof.
  unfold unique_masks. apply (foldl_inv nonempty_needles); [constructor|]. intros acc p H. case_decide; [done|].
  apply Forall_app. split; [done|]. constructor; [tauto|constructor].
Qed.
Lemma ordered_nonempty pairs : nonempty_needles (ordered_masks pairs).
Proof. unfold nonempty_needles, ordered_masks. rewrite sort_masks_perm. apply unique_nonempty. Qed.

Lemma feed_all_masked f pieces :
  nonempty_needles (sm_masks f) →
  feed_all f pieces =
    if decide (sm_masks f = []) then Err ValueExn
    else Ok (SecretMask (sm_masks f) [], sub_all (sm_masks f) (sm_carry f ++ mjoin pieces)).
Proof.
  revert f. induction pieces as [|p pieces IH]; intros f Hne; cbn [feed_all].
  - unfold finish. case_decide; [done|]. by rewrite app_nil_r.
  - unfold feed. destruct (decide (sm_masks f = [])) as [Hm|Hm].
    + unfold emit. case_decide; [|by rewrite decide_True]. cbn [mbind res_bind]. rewrite IH, decide_True by done. done.
    + destruct (emit_masked f p (mjoin pieces) Hne Hm) as (f' & out & -> & Hf & H). cbn [mbind res_bind].
      rewrite IH by by rewrite Hf. rewrite Hf, decide_False by done. cbn [mbind res_bind].
      rewrite !sub_all_masked by done. change (mjoin (p :: pieces)) with (p ++ mjoin pieces). by rewrite H.
Qed.

(** C12: Masking a body piece by piece gives what masking it whole would: however the
    body is cut into pieces, the pieces that leave the filter put together are the
    body with every match of the pattern replaced, none missed at a cut and none
    replaced twice, and nothing stays behind. *)
Theorem mask_stream (pairs : masks) (pieces : list bytes) :
  feed_all (new_mask pairs) pieces =
    if decide (ordered_masks pairs = []) then Err ValueExn
    else Ok (SecretMask (ordered_masks pairs) [], sub_all (ordered_masks pairs) (mjoin pieces)).
Proof. apply (feed_all_masked (new_mask pairs)), ordered_nonempty. Qed.
