(* ===== verification/Inject.v ===== *)
(** * Credentials put into requests (src/src/apipi/worker/egress/inject.py, policy.py, intercept.py)

    A guest knows its secrets by placeholders.  On the way out, in requests to the
    hosts a credential is allowed for, the gateway puts the secret where the
    placeholder stands; on the way back every form of the secret is masked
    ([SecretMask]).  A `str` of headers comes from latin-1.
    `base64` is an argument of the definitions that use it, and so is the
    decompressor of a body. *)

From S2P Require Import Prelude PyStd Protocol Db SecretMask.

(** ** Text helpers *)

(** `norm_host`: `host.strip().rstrip(".").lower()`.  A host is text of latin-1 at most
    (a header is decoded so, a server name and a DNS question are ASCII), so [lower_cp]
    has the letters of latin-1; the white space is all of `str.isspace`. *)
Definition is_space_cp (n : N) : bool :=
  (((9 <=? n) && (n <=? 13)) || ((28 <=? n) && (n <=? 32)) || (n =? 133) || (n =? 160) || (n =? 5760)
   || ((8192 <=? n) && (n <=? 8202)) || (n =? 8232) || (n =? 8233) || (n =? 8239) || (n =? 8287) || (n =? 12288))%N.
Definition lower_cp (n : N) : N :=
  if ((65 <=? n) && (n <=? 90) || ((192 <=? n) && (n <=? 222) && negb (n =? 215)))%N then (n + 32)%N else n.
Definition rdrop_while {A} (P : A → bool) (l : list A) : list A := rev (drop_while P (rev l)).
Definition utf8 (n : N) : list ascii :=
  if (n <? 128)%N then [char n]
  else if (n <? 2048)%N then [char (192 + n / 64); char (128 + n mod 64)]
  else if (n <? 65536)%N then [char (224 + n / 4096); char (128 + n / 64 mod 64); char (128 + n mod 64)]
  else [char (240 + n / 262144); char (128 + n / 4096 mod 64); char (128 + n / 64 mod 64); char (128 + n mod 64)].
Definition str_points (s : string) : list N := code_points (String.length s) (chars s).
Definition of_points (l : list N) : string := of_chars (mjoin (utf8 <$> l)).
Definition strip_points (l : list N) : list N := rdrop_while is_space_cp (drop_while is_space_cp l).
Definition is_dot (n : N) : bool := (n =? 46)%N.
Definition norm_host (host : string) : string :=
  of_points (lower_cp <$> rdrop_while is_dot (strip_points (str_points host))).

(** `text.replace(old, new)` and `data.replace(old, new)`: an empty [old] matches
    before each character and at the end. *)
Fixpoint replace_from (old new : list ascii) (skip : nat) (s : list ascii) : list ascii :=
  match s with
  | [] => []
  | c :: s' =>
      match skip with
      | S k => replace_from old new k s'
      | O => if startswith old s then new ++ replace_from old new (length old - 1) s'
             else c :: replace_from old new 0 s'
      end
  end.
Definition replace_all (old new s : list ascii) : list ascii :=
  match old with
  | [] => new ++ mjoin ((λ c, c :: new) <$> s)
  | _ => replace_from old new 0 s
  end.
Definition str_replace (old new s : string) : string :=
  of_chars (replace_all (chars old) (chars new) (chars s)).
Definition contains (old s : list ascii) : bool := existsb (λ k, startswith old (drop k s)) (seq 0 (S (length s))).

(** `text.partition(" ")` *)
Fixpoint partition_on (sep : ascii) (l : list ascii) : list ascii * list ascii :=
  match l with
  | [] => ([], [])
  | c :: l' => if decide (c = sep) then ([], l')
               else let '(a, b) := partition_on sep l' in (c :: a, b)
  end.

(** `urllib.parse.quote(value, safe=...)`, on the UTF-8 bytes. *)
Definition hex_upper (n : N) : ascii := if (n <? 10)%N then char (48 + n) else char (55 + n).
Definition unreserved (c : ascii) : bool :=
  is_lower c || is_upper c || is_digit c || bool_decide (c ∈ chars "_.-~").
Definition percent (safe : list ascii) (c : ascii) : list ascii :=
  if unreserved c || bool_decide (c ∈ safe) then [c]
  else ["%"%char; hex_upper (code c / 16); hex_upper (code c mod 16)].
Definition url_quote (safe value : string) : string :=
  of_chars (mjoin (percent (chars safe) <$> chars value)).

(** `text.encode("latin-1", "replace")` and `data.decode("latin-1")` *)
Definition latin1_encode (s : string) : list ascii :=
  (λ n, if (n <? 256)%N then char n else "?"%char) <$> str_points s.
Definition latin1_decode (l : list ascii) : string := of_points (code <$> l).

(** ** Heads of requests and responses (intercept.py) *)

Abbreviation headers := (list (string * string)) (only parsing).
Record request_head : Type := RequestHead {
  rq_method : string; rq_target : string; rq_headers : headers; rq_host : string; rq_port : Z
}.
Record response_head : Type := ResponseHead { rs_status : Z; rs_reason : string; rs_headers : headers }.
Record reject : Type := Reject { rj_status : Z; rj_reason : string }.

Definition header (h : request_head) (name : string) : option string :=
  snd <$> find_row (λ p : string * string, bool_decide (lower p.1 = lower name)) (rq_headers h).
Definition with_headers (h : request_head) (l : headers) : request_head :=
  RequestHead (rq_method h) (rq_target h) l (rq_host h) (rq_port h).

(** ** Injections *)

Definition PLACEHOLDER_PREFIX : string := "apipi-secret-".
Definition GIT_USERNAME_DEFAULTS : gmap string string := {["gitlab.com" := "oauth2"]}%string.
Definition GIT_USERNAME_FALLBACK : string := "x-access-token".
Definition GIT_PORTS : list Z := [443; 8443]%Z.
Definition TLS_PORTS : list Z := [443; 8443]%Z.
Definition MAX_BASIC_TOKENS : nat := 64.
Definition STRIPPED : list string := ["upgrade"; "connection"; "range"; "if-range"]%string.

(** [token]: `secrets.token_hex(16)` *)
Definition new_placeholder (token : string) : string := (PLACEHOLDER_PREFIX ++ token)%string.

Record injection : Type := Injection {
  in_credential : string; in_secret : string; in_placeholder : string; in_value : string;
  in_hosts : list string; in_git : option string
}.
Definition applies (i : injection) (host : string) : bool := bool_decide (norm_host host ∈ in_hosts i).

Definition git_username (i : injection) (host : string) : string :=
  match in_git i with
  | Some u => if decide (u = ""%string) then default GIT_USERNAME_FALLBACK (GIT_USERNAME_DEFAULTS !! norm_host host) else u
  | None => default GIT_USERNAME_FALLBACK (GIT_USERNAME_DEFAULTS !! norm_host host)
  end.

(** `dict.fromkeys(forms)`: each once, in order. *)
Definition uniq {A} `{EqDecision A} (l : list A) : list A :=
  foldl (λ acc x, if decide (x ∈ acc) then acc else acc ++ [x]) [] l.
(** `json.dumps(value)[1:-1]` *)
Definition json_escaped (value : string) : string :=
  let q := PyStd.quote true value in of_chars (take (length q - 2) (drop 1 q)).
Definition secret_forms (value : string) : list string :=
  let escaped := json_escaped value in
  uniq [value; escaped; str_replace "/" "\/" escaped; url_quote "" value; url_quote "/" value;
        url_quote "!'()*~-_." value].

Section injector.
(** `base64.b64encode`, and `base64.b64decode(..., validate=True)` ([None]: it raises). *)
Context (b64encode : list ascii → list ascii) (b64decode : list ascii → option (list ascii)).

Record injector : Type := Injector {
  ij_injections : list injection;
  ij_ports : list Z;
  (* `basic_tokens`: oldest first *)
  ij_basic : list ((string * list ascii) * list ascii)
}.

(** `sorted(injections, key=lambda item: len(item.value), reverse=True)` *)
Fixpoint insert_injection (x : injection) (l : list injection) : list injection :=
  match l with
  | [] => [x]
  | y :: l' => if decide (ulen (in_value x) < ulen (in_value y))%nat then y :: insert_injection x l' else x :: l
  end.
Definition new_injector (l : list injection) (ports : list Z) : injector :=
  Injector (foldr insert_injection [] l) ports [].

Definition hosts (s : injector) : list string := uniq (mjoin (in_hosts <$> ij_injections s)).
(** Later names win. *)
Definition guest_env (s : injector) : odict string string :=
  foldl (λ m i, <[in_secret i := in_placeholder i]> m) ∅ (ij_injections s).

(** `key\tname\tplaceholder\n`, the first injection of each host. *)
Definition TAB : string := of_chars [char 9].
Definition NL : string := of_chars [char 10].
Definition git_line (acc : list string * list string) (p : injection * string) : list string * list string :=
  let '(lines, seen) := acc in let '(i, host) := p in
  if decide (host ∈ seen) then acc
  else (lines ++ [host +:+ TAB +:+ git_username i host +:+ TAB +:+ in_placeholder i +:+ NL]%string, seen ++ [host]).
Definition git_credentials (s : injector) : string :=
  let pairs := mjoin ((λ i, (λ h, (i, h)) <$> in_hosts i) <$> ij_injections s) in
  foldr String.append ""%string (foldl git_line ([], []) pairs).1.

Definition git_entries (helper host : string) : list (string * string) :=
  ((λ port, let origin := if decide (port = 443)%Z then host else (host +:+ ":" +:+ str_of_Z port)%string in
            (("credential.https://" +:+ origin +:+ ".helper")%string, helper)) <$> GIT_PORTS)
  ++ [("url.https://" +:+ host +:+ "/.insteadOf", "git@" +:+ host +:+ ":");
      ("url.https://" +:+ host +:+ "/.insteadOf", "ssh://git@" +:+ host +:+ "/")]%string.
Definition git_config_env (s : injector) (helper : string) (start : Z) : odict string string :=
  let entries := mjoin (git_entries helper <$> hosts s) in
  if decide (entries = []) then ∅
  else
    let env := foldl (λ m (p : Z * (string * string)),
        <[("GIT_CONFIG_VALUE_" +:+ str_of_Z (start + p.1))%string := p.2.2]>
          (<[("GIT_CONFIG_KEY_" +:+ str_of_Z (start + p.1))%string := p.2.1]> m)) ∅
        (imap (λ k e, (Z.of_nat k, e)) entries) in
    <["GIT_CONFIG_COUNT"%string := str_of_Z (start + Z.of_nat (length entries))]> env.

Definition applying (s : injector) (h : request_head) : list injection :=
  if decide (rq_port h ∈ ij_ports s) then filter (λ i, applies i (rq_host h) = true) (ij_injections s) else [].

(** The scheme and token of an `Authorization: Basic` value. *)
Definition basic_parts (value : string) : option (string * list ascii) :=
  let '(scheme, token) := partition_on " " (chars (strip value)) in
  let token := chars (strip (of_chars token)) in
  if decide (lower (of_chars scheme) ≠ "basic"%string ∨ token = []) then None else Some (of_chars scheme, token).

(** *** Requests *)

(** `_basic`: the placeholder inside a basic token; the real token is remembered. *)
Definition remember_token (l : list ((string * list ascii) * list ascii)) (key : string * list ascii) (guest : list ascii)
    : list ((string * list ascii) * list ascii) :=
  let l := filter (λ p, p.1 ≠ key) l ++ [(key, guest)] in
  drop (length l - MAX_BASIC_TOKENS) l.
Definition basic (tokens : list ((string * list ascii) * list ascii)) (value : string) (i : injection) (host : string)
    : list ((string * list ascii) * list ascii) * option string :=
  match basic_parts value with
  | None => (tokens, None)
  | Some (scheme, guest) =>
      match b64decode guest with
      | None => (tokens, None)
      | Some decoded =>
          if negb (contains (chars (in_placeholder i)) decoded) then (tokens, None)
          else
            let real := b64encode (replace_all (chars (in_placeholder i)) (chars (in_value i)) decoded) in
            (remember_token tokens (norm_host host, real) guest, Some (scheme +:+ " " +:+ of_chars real)%string)
      end
  end.

Definition inject_header (i : injection) (host : string)
    (acc : list ((string * list ascii) * list ascii) * headers) (p : string * string)
    : list ((string * list ascii) * list ascii) * headers :=
  let '(tokens, out) := acc in
  let new := str_replace (in_placeholder i) (in_value i) p.2 in
  if decide (lower p.1 = "authorization"%string) then
    let '(tokens, b) := basic tokens new i host in (tokens, out ++ [(p.1, default new b)])
  else (tokens, out ++ [(p.1, new)]).
Definition inject_one (host : string) (acc : list ((string * list ascii) * list ascii) * headers) (i : injection)
    : list ((string * list ascii) * list ascii) * headers :=
  foldl (inject_header i host) (acc.1, []) acc.2.

(** `request`: [None] leaves the head as it is. *)
Definition request (s : injector) (h : request_head) : injector * option request_head :=
  match applying s h with
  | [] => (s, None)
  | l =>
      let start := filter (λ p : string * string, lower p.1 ≠ "accept-encoding"%string ∧ lower p.1 ∉ STRIPPED)
                     (rq_headers h) ++ [("Accept-Encoding", "identity")%string] in
      let '(tokens, out) := foldl (inject_one (rq_host h)) (ij_basic s, start) l in
      (Injector (ij_injections s) (ij_ports s) tokens, Some (with_headers h out))
  end.

(** *** Responses *)

(** `_exchange_tokens`: the basic tokens of the request that went out. *)
Definition exchange_token (l : list injection) (p : string * string) : option (list ascii * list ascii) :=
  if decide (lower p.1 ≠ "authorization"%string) then None
  else
    '(_, token) ← basic_parts p.2;
    decoded ← b64decode token;
    let guest := foldl (λ g i, replace_all (chars (in_value i)) (chars (in_placeholder i)) g) decoded l in
    if decide (guest = decoded) then None else Some (token, b64encode guest).
Definition secret_masks (s : injector) (h : request_head) (l : list injection) : list (list ascii * list ascii) :=
  ordered_masks
    (mjoin ((λ i, (λ f, (chars f, chars (in_placeholder i))) <$> secret_forms (in_value i)) <$> l)
     ++ omap (exchange_token l) (rq_headers h)
     ++ omap (λ p : (string * list ascii) * list ascii,
          if decide (p.1.1 = norm_host (rq_host h)) then Some (p.1.2, p.2) else None) (ij_basic s)).

(** `HeaderMask.text` *)
Definition mask_text (m : list (list ascii * list ascii)) (value : string) : string :=
  latin1_decode (sub_all m (latin1_encode value)).
Definition response (s : injector) (h : request_head) (r : response_head) : res exn (option response_head) :=
  match applying s h with
  | [] => Ok None
  | l =>
      let m := secret_masks s h l in
      if decide (m = []) then
        if decide (rs_headers r = []) then Ok None else Err ValueExn
      else
        let out := (λ p : string * string, (p.1, mask_text m p.2)) <$> rs_headers r in
        if decide (out = rs_headers r) then Ok None
        else Ok (Some (ResponseHead (rs_status r) (rs_reason r) out))
  end.

(** The codings of a body, `identity` left out. *)
Definition header_values (l : headers) (name : string) : list string :=
  snd <$> filter (λ p : string * string, lower p.1 = lower name) l.
Definition codings (r : response_head) : list string :=
  filter (λ c, c ≠ ""%string ∧ c ≠ "identity"%string)
    ((λ part, lower (strip (of_chars part))) <$>
      mjoin ((λ v, split_on "," (chars v)) <$> header_values (rs_headers r) "content-encoding")).
Inductive body_result : Type :=
| BodyAsIs
| BodyFilter (r : response_head) (f : secret_mask) (decoder : option string)
| BodyReject (r : reject).
Definition body (s : injector) (h : request_head) (r : response_head) : body_result :=
  match applying s h with
  | [] => BodyAsIs
  | l =>
      let m := secret_masks s h l in
      match codings r with
      | [] => BodyFilter r (new_mask m) None
      | cs =>
          let decoder := if decide (cs = ["gzip"] ∨ cs = ["x-gzip"])%string then Some "gzip"%string
                         else if decide (cs = ["deflate"])%string then Some "deflate"%string else None in
          match decoder with
          | None => BodyReject (Reject 502 "content_encoding")
          | Some d =>
              BodyFilter (ResponseHead (rs_status r) (rs_reason r)
                (filter (λ p : string * string, lower p.1 ≠ "content-encoding"%string) (rs_headers r)))
                (new_mask m) (Some d)
          end
      end
  end.
End injector.
