(* ===== verification/Netguard.v ===== *)
(** * Network addresses (`ipaddress`, src/src/apipi/common/netguard.py)

    The addresses and networks of Python's `ipaddress` module, as far as the egress
    gateway uses them: parsing, containment, the IPv4 address inside a mapped IPv6
    one.  The registries of special addresses behind `is_private`, `is_reserved` and
    the like change between Python releases: their disjunction is the argument
    [special]. *)

From S2P Require Import Prelude PyStd Db Inject.

Open Scope Z_scope.

(** ** Addresses *)

Inductive address : Type :=
| V4 (ip : Z)
| V6 (ip : Z) (scope : option string).
#[global] Instance address_eq_dec : EqDecision address.
Proof. solve_decision. Defined.

(** `_parse_octet` *)
Definition parse_octet (l : list ascii) : option Z :=
  match l with
  | [] => None
  | c :: rest =>
      if negb (forallb is_digit l) then None
      else if decide (3 < length l)%nat then None
      else if bool_decide (rest ≠ []) && bool_decide (c = "0"%char) then None
      else n ← digits_val digit_val 10 l; if 255 <? Z.of_N n then None else Some (Z.of_N n)
  end.
Definition parse_v4 (l : list ascii) : option Z :=
  match split_on "." l with
  | [a; b; c; d] =>
      a ← parse_octet a; b ← parse_octet b; c ← parse_octet c; d ← parse_octet d;
      Some (((a * 256 + b) * 256 + c) * 256 + d)
  | _ => None
  end.

(** `_parse_hextet`, with `int(text, 16)` *)
Definition parse_hextet (l : list ascii) : option Z :=
  if decide (l = [] ∨ (4 < length l)%nat) then None else Z.of_N <$> digits_val hex_val 16 l.
Definition push_hextet (acc : option Z) (part : list ascii) : option Z :=
  n ← acc; h ← parse_hextet part; Some (n * 65536 + h).
(** The places, endpoints apart, where a part is empty. *)
Definition skips (parts : list (list ascii)) : list nat :=
  filter (λ i, nth i parts [] = []) (seq 1 (length parts - 2)).
(** The parts, an IPv4 suffix as two hextets.  An address needs at least two colons. *)
Definition v6_parts (l : list ascii) : option (list (list ascii)) :=
  let parts := split_on ":" l in
  if decide (length parts < 3)%nat then None
  else
    let suffix := List.last parts [] in
    if decide ("."%char ∈ suffix) then
      n ← parse_v4 suffix;
      Some (removelast parts ++ [hex_digits 4 (Z.to_N (n / 65536)); hex_digits 4 (Z.to_N (n mod 65536))])
    else Some parts.
Definition parse_v6 (l : list ascii) : option Z :=
  parts ← v6_parts l;
  if decide (9 < length parts)%nat then None
  else
    let first := nth 0 parts [] in
    let last := List.last parts [] in
    match skips parts with
    | [] =>
        if decide (length parts = 8%nat ∧ first ≠ [] ∧ last ≠ []) then foldl push_hextet (Some 0) parts
        else None
    | [skip] =>
        let hi := if decide (first = []) then (skip - 1)%nat else skip in
        let lo := (if decide (last = []) then length parts - skip - 2 else length parts - skip - 1)%nat in
        if decide (first = [] ∧ hi ≠ 0%nat) then None
        else if decide (last = [] ∧ lo ≠ 0%nat) then None
        else if decide (8 - (hi + lo) < 1)%nat then None
        else
          let high := foldl push_hextet (Some 0) (take hi parts) in
          foldl push_hextet ((λ n, n * 2 ^ (16 * Z.of_nat (8 - (hi + lo)))) <$> high) (drop (length parts - lo) parts)
    | _ => None
    end.

(** `_split_scope_id`: [None] raises. *)
Definition split_scope (l : list ascii) : option (list ascii * option string) :=
  if decide ("%"%char ∈ l) then
    let '(addr, scope) := partition_on "%" l in
    if decide (scope = [] ∨ "%"%char ∈ scope) then None else Some (addr, Some (of_chars scope))
  else Some (l, None).
Definition ipv4_address (l : list ascii) : option address :=
  if decide ("/"%char ∈ l) then None else V4 <$> parse_v4 l.
Definition ipv6_address (l : list ascii) : option address :=
  if decide ("/"%char ∈ l) then None
  else '(addr, scope) ← split_scope l; n ← parse_v6 addr; Some (V6 n scope).
(** `ipaddress.ip_address`: [None] is the `ValueError`. *)
Definition ip_address (text : string) : option address :=
  match ipv4_address (chars text) with
  | Some a => Some a
  | None => ipv6_address (chars text)
  end.

(** ** Networks *)

Record network : Type := Network { n_v6 : bool; n_address : Z; n_prefix : Z }.
#[global] Instance network_eq_dec : EqDecision network.
Proof. solve_decision. Defined.

Definition width (v6 : bool) : Z := if v6 then 128 else 32.
(** `ip & netmask` *)
Definition masked_to (bits prefix ip : Z) : Z := ip / 2 ^ (bits - prefix) * 2 ^ (bits - prefix).
(** `_prefix_from_prefix_string` *)
Definition prefix_of_digits (bits : Z) (l : list ascii) : option Z :=
  if decide (l = []) then None
  else if negb (forallb is_digit l) then None
  else n ← digits_val digit_val 10 l; if bits <? Z.of_N n then None else Some (Z.of_N n).
(** `_prefix_from_prefix_int`: ones followed by zeros. *)
Definition prefix_of_mask (n : Z) : option Z :=
  find_row (λ p, bool_decide (n = 2 ^ 32 - 2 ^ (32 - p))) ((λ k, Z.of_nat k) <$> seq 0 33).
Definition prefix_of_ip (l : list ascii) : option Z :=
  n ← parse_v4 l;
  match prefix_of_mask n with
  | Some p => Some p
  | None => prefix_of_mask (2 ^ 32 - 1 - n)
  end.
Definition v4_prefix (l : list ascii) : option Z :=
  match prefix_of_digits 32 l with Some p => Some p | None => prefix_of_ip l end.

(** `ipaddress.ip_network(text, strict=False)` *)
Definition ip_network (text : string) : option network :=
  let '(addr, prefix) := match split_on "/" (chars text) with
                         | [a] => (a, None) | [a; p] => (a, Some p) | _ => ([], None) end in
  match (a ← ipv4_address addr; p ← from_option v4_prefix (Some 32) prefix; Some (a, p)) with
  | Some (V4 n, p) => Some (Network false (masked_to 32 p n) p)
  | _ =>
      match (a ← ipv6_address addr; p ← from_option (prefix_of_digits 128) (Some 128) prefix; Some (a, p)) with
      | Some (V6 n _, p) => Some (Network true (masked_to 128 p n) p)
      | _ => None
      end
  end.

(** `ip in network` *)
Definition in_network (a : address) (n : network) : bool :=
  match a with
  | V4 ip => negb (n_v6 n) && (masked_to 32 (n_prefix n) ip =? n_address n)
  | V6 ip _ => n_v6 n && (masked_to 128 (n_prefix n) ip =? n_address n)
  end.
(** `getattr(ip, "ipv4_mapped", None)` *)
Definition ipv4_mapped (a : address) : option address :=
  match a with
  | V4 _ => None
  | V6 ip _ => if ip / 2 ^ 32 =? 65535 then Some (V4 (ip mod 2 ^ 32)) else None
  end.
Definition is_link_local (a : address) : bool :=
  match a with
  | V4 ip => masked_to 32 16 ip =? 169 * 2 ^ 24 + 254 * 2 ^ 16
  | V6 ip _ => masked_to 128 10 ip =? 65152 * 2 ^ 112
  end.

(** ** The guard (common/netguard.py) *)

Definition METADATA_IPS : list address :=
  omap ip_address ["169.254.169.254"; "169.254.169.123"; "100.100.100.200"; "fd00:ec2::254"]%string.
Definition BLOCKED_NETWORKS : list network :=
  omap ip_network
    ["0.0.0.0/8"; "10.0.0.0/8"; "100.64.0.0/10"; "127.0.0.0/8"; "169.254.0.0/16"; "172.16.0.0/12"; "192.0.0.0/24";
     "192.0.2.0/24"; "192.168.0.0/16"; "198.18.0.0/15"; "198.51.100.0/24"; "203.0.113.0/24"; "224.0.0.0/4";
     "240.0.0.0/4"; "::1/128"; "::/128"; "64:ff9b::/96"; "100::/64"; "2001::/23"; "2001:db8::/32"; "fc00::/7";
     "fe80::/10"; "ff00::/8"; "::ffff:0:0/96"]%string.

Definition split_allow_hosts (items : list string) : list string :=
  filter (λ s, s ≠ ""%string) (strip <$> items).
Definition allowed_networks (allow_hosts : list string) : list network := omap ip_network allow_hosts.
Definition allowed_names (allow_hosts : list string) : gset string :=
  list_to_set (omap (λ e, match ip_network e with Some _ => None | None => Some (norm_host e) end) allow_hosts).

(** An address of the metadata services is one by its text: an IPv6 one has no scope. *)
Definition metadata_ip (a : address) : bool := bool_decide (a ∈ METADATA_IPS).

Section guard.
(** `is_private or is_loopback or is_link_local or is_multicast or is_reserved or
    is_unspecified` *)
Context (special : address → bool).

Definition ip_blocked (a : address) : bool :=
  metadata_ip a
  || existsb (in_network a) BLOCKED_NETWORKS
  || existsb special (a :: option_list (ipv4_mapped a)).

(** *** What a connection may go to (worker/egress/resolve.py) *)

Definition address_blocked (text : string) : bool :=
  match ip_address text with Some a => ip_blocked a | None => true end.
Definition metadata_address (a : address) : bool :=
  existsb (λ x, metadata_ip x || is_link_local x) (a :: option_list (ipv4_mapped a)).

(** [EgressBlocked] carries its reason. *)
Definition check_address (blocked : string → bool) (text : string) : res string (list string) :=
  if blocked text then Err "private_address"%string else Ok [text].

(** `host.strip("[]")` *)
Definition strip_brackets (host : string) : string :=
  let P c := bool_decide (c = "["%char ∨ c = "]"%char) in
  of_chars (rstrip_by P (lstrip_by P (chars host))).
Definition is_ip_literal (host : string) : bool := bool_decide (is_Some (ip_address (strip_brackets host))).

Definition check_private (networks : list network) (named : bool) (text : string) : res string () :=
  if negb named then Err "private_address"%string
  else match ip_address text with
  | None => Err "private_address"%string
  | Some ip =>
      if metadata_address ip then Err "private_address"%string
      else if bool_decide (networks ≠ []) && negb (existsb (in_network ip) networks)
      then Err "private_address"%string else Ok ()
  end.
Fixpoint check_all (blocked : string → bool) (networks : list network) (named : bool) (l : list string)
    : res string () :=
  match l with
  | [] => Ok ()
  | a :: l' =>
      _ ← (if blocked a then check_private networks named a else Ok ());
      check_all blocked networks named l'
  end.

(** [answer]: what the resolver returns for the name, [None] when it raises. *)
Definition resolve_upstream (blocked : string → bool) (host : string) (answer : string → option (list string))
    (private_hosts : list string) : res string (list string) :=
  let name := norm_host host in
  if is_ip_literal name then check_address blocked (strip_brackets name)
  else match answer name with
  | None | Some [] => Err "resolve_failed"%string
  | Some addresses =>
      let named := bool_decide (name ∈ allowed_names private_hosts) in
      let networks := allowed_networks private_hosts in
      _ ← check_all blocked networks named addresses;
      Ok addresses
  end.
End guard.

(** ** Lemmas *)

Lemma in_blocked n a : bool_decide (n ∈ BLOCKED_NETWORKS) = true → in_network a n = true →
  existsb (in_network a) BLOCKED_NETWORKS = true.
Proof. intros Hn%bool_decide_eq_true Ha. apply existsb_exists. exists n. split; [by apply list_elem_of_In|done]. Qed.
Lemma link_local_blocked a : is_link_local a = true → existsb (in_network a) BLOCKED_NETWORKS = true.
Proof.
  destruct a as [ip|ip scope]; intros H.
  - by apply (in_blocked (Network false (169 * 2 ^ 24 + 254 * 2 ^ 16) 16)).
  - by apply (in_blocked (Network true (65152 * 2 ^ 112) 10)).
Qed.
Lemma mapped_blocked a : is_Some (ipv4_mapped a) → existsb (in_network a) BLOCKED_NETWORKS = true.
Proof.
  destruct a as [ip|ip scope]; cbn [ipv4_mapped]; intros [x H]; [done|].
  destruct (ip / 2 ^ 32 =? 65535) eqn:E; [|done]. apply Z.eqb_eq in E.
  apply (in_blocked (Network true (65535 * 2 ^ 32) 96)); [by vm_compute|].
  unfold in_network, masked_to. cbn [n_v6 n_prefix n_address andb]. change (128 - 96) with 32. rewrite E. done.
Qed.
(** The guard blocks the metadata services, however their addresses are written. *)
Lemma metadata_blocked special a : metadata_address a = true → ip_blocked special a = true.
Proof.
  unfold metadata_address, ip_blocked. cbn [existsb]. intros H.
  destruct (metadata_ip a) eqn:Hm; [done|]. cbn [orb] in *.
  destruct (is_link_local a) eqn:Hl; [by rewrite link_local_blocked|]. cbn [orb] in H.
  rewrite mapped_blocked; [done|]. destruct (ipv4_mapped a); [by eexists|done].
Qed.

Lemma address_blocked_false special text : address_blocked special text = false →
  ∃ ip, ip_address text = Some ip ∧ ip_blocked special ip = false ∧ metadata_address ip = false.
Proof.
  unfold address_blocked. destruct (ip_address text) as [ip|]; [|done]. intros H. exists ip. split_and!; [done..|].
  destruct (metadata_address ip) eqn:E; [|done]. apply (metadata_blocked special) in E. congruence.
Qed.

(** An address a connection may be opened to: one the guard does not block, or one of
    a private host that is named, in the private networks, and no metadata service. *)
Definition reachable (special : address → bool) (private_hosts : list string) (name : string) (text : string) : Prop :=
  ∃ ip, ip_address text = Some ip ∧ metadata_address ip = false
    ∧ (ip_blocked special ip = false
       ∨ name ∈ allowed_names private_hosts
         ∧ (allowed_networks private_hosts = [] ∨ ∃ n, n ∈ allowed_networks private_hosts ∧ in_network ip n = true)).

Lemma check_all_reachable special private_hosts name l :
  check_all (address_blocked special) (allowed_networks private_hosts)
    (bool_decide (name ∈ allowed_names private_hosts)) l = Ok () →
  Forall (reachable special private_hosts name) l.
Proof.
  induction l as [|a l IH]; cbn [check_all]; [constructor|].
  destruct (address_blocked special a) eqn:Hb; cbn [mbind res_bind].
  - unfold check_private. destruct (bool_decide_reflect (name ∈ allowed_names private_hosts)) as [Hn|]; [|done].
    cbn [negb]. destruct (ip_address a) as [ip|] eqn:Hip; [|done]. destruct (metadata_address ip) eqn:Hm; [done|].
    destruct (bool_decide _ && _) eqn:Hnet; [done|]. cbn [mbind res_bind]. intros H. constructor; [|by apply IH].
    exists ip. split_and!; [done..|]. right. split; [done|].
    apply andb_false_iff in Hnet as [Hnet|Hnet].
    + left. apply bool_decide_eq_false in Hnet. by destruct (decide (allowed_networks private_hosts = [])) as [|Hne]; [|destruct (Hnet Hne)].
    + right. apply negb_false_iff, existsb_exists in Hnet as (n & Hn1 & Hn2). exists n.
      split; [by apply list_elem_of_In|done].
  - intros H. constructor; [|by apply IH]. destruct (address_blocked_false _ _ Hb) as (ip & ? & ? & ?). exists ip. auto.
Qed.
Lemma resolve_reachable special host answer private_hosts l :
  resolve_upstream (address_blocked special) host answer private_hosts = Ok l →
  l ≠ [] ∧ Forall (reachable special private_hosts (norm_host host)) l.
Proof.
  unfold resolve_upstream. destruct (is_ip_literal (norm_host host)).
  - unfold check_address. destruct (address_blocked _ _) eqn:Hb; [done|]. intros [= <-]. split; [done|].
    constructor; [|constructor]. destruct (address_blocked_false _ _ Hb) as (ip & ? & ? & ?). exists ip. auto.
  - destruct (answer (norm_host host)) as [[|a l']|]; [done| |done].
    destruct (check_all _ _ _ _) as [[]|] eqn:H; cbn [mbind res_bind]; [|done]. intros [= <-]. split; [done|].
    by apply check_all_reachable.
Qed.
