(* ===== verification/Sni.v ===== *)
(** * The host a TLS client asks for (src/src/apipi/worker/egress/sni.py)

    A ClientHello is read off the first bytes of a connection: the records of the
    handshake are put together until the hello is complete, then its fields are read
    one after the other.  Bytes are lists of characters; the loops run on fuel, and
    [records_fuel] shows that the length of the data is enough. *)

From S2P Require Import Prelude PyStd.

Open Scope Z_scope.

Definition MAX_HELLO_BYTES : Z := 65536.
Definition RECORD_HANDSHAKE : N := 22.
Definition HANDSHAKE_CLIENT_HELLO : N := 1.
Definition EXT_SERVER_NAME : Z := 0.
Definition EXT_ALPN : Z := 16.
Definition NAME_HOST : Z := 0.

Inductive hello_error : Type := NotTls (message : string) | Incomplete.

Record client_hello : Type := ClientHello { server_name : option string; alpn : list string }.

(** `int.from_bytes(data, "big")` and `n.to_bytes(size, "big")` *)
Definition be_int (l : list ascii) : Z := foldl (λ n c, n * 256 + Z.of_N (code c)) 0 l.
Fixpoint be_bytes (size : nat) (n : Z) : list ascii :=
  match size with
  | O => []
  | S k => be_bytes k (n / 256) ++ [char (Z.to_N (n mod 256))]
  end.

(** ** Reading (`_Reader`): what is read, and what is left *)

Definition reader (A : Type) : Type := list ascii → res hello_error (A * list ascii).
#[global] Instance reader_ret : MRet reader := λ A a s, Ok (a, s).
#[global] Instance reader_bind : MBind reader := λ A B f r s,
  match r s with Ok (a, s') => f a s' | Err e => Err e end.

Definition take_bytes (size : Z) : reader (list ascii) := λ s,
  if Z.of_nat (length s) <? size then Err (NotTls "truncated ClientHello")
  else Ok (take (Z.to_nat size) s, drop (Z.to_nat size) s).
Definition u8 : reader Z := l ← take_bytes 1; mret (be_int l).
Definition u16 : reader Z := l ← take_bytes 2; mret (be_int l).
Definition u24 : reader Z := l ← take_bytes 3; mret (be_int l).
Definition vector (length_bytes : Z) : reader (list ascii) :=
  l ← take_bytes length_bytes; take_bytes (be_int l).

(** ** Records (`_handshake_bytes`) *)

Definition hello_size (body : list ascii) : res hello_error (option Z) :=
  match body with
  | kind :: _ =>
      if decide (length body < 4)%nat then Ok None
      else if decide (code kind ≠ HANDSHAKE_CLIENT_HELLO)
      then Err (NotTls "first handshake message is not a ClientHello")
      else
        let need := 4 + be_int (take 3 (drop 1 body)) in
        if MAX_HELLO_BYTES <? need then Err (NotTls "ClientHello is too large") else Ok (Some need)
  | [] => Ok None
  end.
(** [None]: out of fuel. *)
Fixpoint records (fuel : nat) (data body : list ascii) (need : option Z) : option (res hello_error (list ascii)) :=
  match fuel with
  | O => None
  | S fuel =>
      if match need with Some n => n <=? Z.of_nat (length body) | None => false end
      then Some (Ok (take (Z.to_nat (default 0 need)) body))
      else match data with
      | kind :: major :: _ :: hi :: lo :: rest =>
          if decide (code kind ≠ RECORD_HANDSHAKE ∨ code major ≠ 3%N) then Some (Err (NotTls "not a TLS handshake record"))
          else
            let size := be_int [hi; lo] in
            if size =? 0 then Some (Err (NotTls "empty TLS record"))
            else if Z.of_nat (length rest) <? size then Some (Err Incomplete)
            else
              let body := body ++ take (Z.to_nat size) rest in
              match (match need with Some n => Ok (Some n) | None => hello_size body end) with
              | Err e => Some (Err e)
              | Ok need => records fuel (drop (Z.to_nat size) rest) body need
              end
      | _ => Some (Err Incomplete)
      end
  end.
Definition handshake_bytes (data : list ascii) : res hello_error (list ascii) :=
  match data with
  | [] => Err Incomplete
  | kind :: _ =>
      if decide (code kind ≠ RECORD_HANDSHAKE) then Err (NotTls "not a TLS handshake record")
      else default (Err Incomplete) (records (S (length data)) data [] None)
  end.

(** ** Extensions *)

Definition is_ascii (l : list ascii) : bool := forallb (λ c, (code c <? 128)%N) l.
Definition strip_dots (l : list ascii) : list ascii := rstrip_by (λ c, bool_decide (c = "."%char)) l.
Definition parse_server_name (raw : list ascii) : res hello_error (option string) :=
  '(names, _) ← vector 2 raw;
  match names with
  | [] => Ok None
  | _ =>
      '(kind, rest) ← u8 names;
      '(value, rest) ← vector 2 rest;
      if decide (rest ≠ []) then Err (NotTls "server_name lists more than one name")
      else if decide (kind ≠ NAME_HOST) then Ok None
      else if negb (is_ascii value) then Err (NotTls "server name is not ASCII")
      else let host := lower (of_chars (strip_dots value)) in
           Ok (if decide (host = ""%string) then None else Some host)
  end.
(** `data.decode("ascii", "replace")` *)
Definition decode_replace (l : list ascii) : string :=
  of_chars (mjoin ((λ c, if (code c <? 128)%N then [c] else [char 239; char 191; char 189]) <$> l)).
Fixpoint alpn_list (fuel : nat) (s : list ascii) : res hello_error (list string) :=
  match fuel, s with
  | S fuel, _ :: _ =>
      '(p, s) ← vector 1 s; rest ← alpn_list fuel s; Ok (decode_replace p :: rest)
  | _, _ => Ok []
  end.
Definition parse_alpn (raw : list ascii) : res hello_error (list string) :=
  '(protocols, _) ← vector 2 raw; alpn_list (length protocols) protocols.

Fixpoint extensions (fuel : nat) (named : bool) (found : client_hello) (s : list ascii) : res hello_error client_hello :=
  match fuel, s with
  | S fuel, _ :: _ =>
      '(kind, s) ← u16 s;
      '(value, s) ← vector 2 s;
      if decide (kind = EXT_SERVER_NAME) then
        if named then Err (NotTls "duplicate server_name extension")
        else name ← parse_server_name value; extensions fuel true (ClientHello name (alpn found)) s
      else if decide (kind = EXT_ALPN) then
        protocols ← parse_alpn value; extensions fuel named (ClientHello (server_name found) protocols) s
      else extensions fuel named found s
  | _, _ => Ok found
  end.

Definition hello_fields : reader () :=
  _ ← u8; _ ← u24; _ ← take_bytes 2; _ ← take_bytes 32; _ ← vector 1; _ ← vector 2; _ ← vector 1; mret ().
Definition parse_client_hello (data : list ascii) : res hello_error client_hello :=
  hello ← handshake_bytes data;
  '(_, s) ← hello_fields hello;
  match s with
  | [] => Ok (ClientHello None [])
  | _ => '(ext, _) ← vector 2 s; extensions (length ext) false (ClientHello None []) ext
  end.

(** ** The records: termination, and answers that are final *)

Lemma records_fuel fuel data body need :
  (length data < fuel)%nat → records fuel data body need ≠ None.
Proof.
  revert data body need. induction fuel as [|fuel IH]; intros data body need Hf; [lia|]. cbn [records].
  destruct (match need with Some n => _ | None => false end); [done|].
  destruct data as [|kind [|major [|minor [|hi [|lo rest]]]]]; try done. case_decide; [done|].
  destruct (be_int [hi; lo] =? 0); [done|]. destruct (_ <? _); [done|].
  destruct (match need with Some n => Ok (Some n) | None => _ end); [|done].
  apply IH. cbn [length] in Hf. rewrite length_drop. lia.
Qed.
Lemma records_more fuel data body need r more fuel' :
  records fuel data body need = Some r → r ≠ Err Incomplete → (fuel ≤ fuel')%nat →
  records fuel' (data ++ more) body need = Some r.
Proof.
  revert data body need fuel'. induction fuel as [|fuel IH]; intros data body need fuel' H Hr Hf; [done|].
  destruct fuel' as [|fuel']; [lia|]. cbn [records] in *.
  destruct (match need with Some n => _ | None => false end); [done|].
  destruct data as [|kind [|major [|minor [|hi [|lo rest]]]]]; try congruence.
  cbn [app]. case_decide; [done|]. destruct (be_int [hi; lo] =? 0); [done|].
  destruct (Z.ltb_spec (Z.of_nat (length rest)) (be_int [hi; lo])); [congruence|].
  rewrite (proj2 (Z.ltb_ge _ _)) by (rewrite length_app; lia). rewrite take_app_le by lia.
  destruct (match need with Some n => Ok (Some n) | None => _ end); [|done].
  rewrite drop_app_le by lia. apply IH; [done|done|lia].
Qed.

Lemma take_bytes_not_incomplete size s : take_bytes size s ≠ Err Incomplete.
Proof. unfold take_bytes. by destruct (_ <? _). Qed.
Create HintDb sni.
Definition final {A} (r : res hello_error A) : Prop := r ≠ Err Incomplete.
Definition final_reader {A} (f : reader A) : Prop := ∀ s, final (f s).
Lemma final_bind {A B} (f : reader A) (g : A → reader B) :
  final_reader f → (∀ a, final_reader (g a)) → final_reader (f ≫= g).
Proof.
  intros Hf Hg s. unfold mbind, reader_bind. specialize (Hf s). destruct (f s) as [[a s']|e]; [apply Hg|].
  unfold final in *. congruence.
Qed.
Lemma final_ret {A} (a : A) : final_reader (mret a).
Proof. by intros s. Qed.
Lemma final_take n : final_reader (take_bytes n).
Proof. intros s. apply take_bytes_not_incomplete. Qed.
Lemma final_vector n : final_reader (vector n).
Proof. apply final_bind; [|intros l]; apply final_take. Qed.
Lemma final_int n : final_reader (l ← take_bytes n; mret (be_int l)).
Proof. apply final_bind; [apply final_take|intros l; apply final_ret]. Qed.
#[local] Hint Resolve final_take final_vector final_int final_ret : sni.
Lemma final_fields : final_reader hello_fields.
Proof.
  unfold hello_fields, u8, u24. do 7 (apply final_bind; [auto with sni|intros _]). apply final_ret.
Qed.
Lemma final_then {A B} (r : res hello_error A) (f : A → res hello_error B) :
  final r → (∀ a, final (f a)) → final (r ≫= f).
Proof. unfold final. destruct r as [a|e]; cbn; intros; [auto|congruence]. Qed.
Lemma final_alpn raw : final (parse_alpn raw).
Proof.
  apply final_then; [apply final_vector|]. intros [protocols _]. generalize (length protocols) as fuel.
  intros fuel. revert protocols. induction fuel as [|fuel IH]; intros [|c s]; cbn [alpn_list]; try done.
  apply final_then; [apply final_vector|]. intros [p s']. apply final_then; [apply IH|]. done.
Qed.
Lemma final_name raw : final (parse_server_name raw).
Proof.
  apply final_then; [apply final_vector|]. intros [names _]. destruct names as [|c s]; [done|].
  apply final_then; [apply final_int|].
  intros [kind rest]. apply final_then; [apply final_vector|]. intros [value rest'].
  repeat case_decide; try done. by destruct (negb _).
Qed.
Lemma final_extensions fuel named found s : final (extensions fuel named found s).
Proof.
  revert named found s. induction fuel as [|fuel IH]; intros named found [|c s]; cbn [extensions]; try done.
  apply final_then; [apply final_int|]. intros [kind s1]. apply final_then; [apply final_vector|]. intros [value s2].
  case_decide; [destruct named; [done|]; apply final_then; [apply final_name|auto]|].
  case_decide; [apply final_then; [apply final_alpn|auto]|apply IH].
Qed.
Lemma handshake_more data more :
  final (handshake_bytes data) → handshake_bytes (data ++ more) = handshake_bytes data.
Proof.
  unfold handshake_bytes. destruct data as [|c data]; [done|]. cbn [app]. case_decide; [done|].
  destruct (records (S (length (c :: data))) (c :: data) [] None) as [r|] eqn:Hr.
  - cbn [default]. intros Hf. change (c :: data ++ more) with ((c :: data) ++ more).
    erewrite records_more; [done|exact Hr|exact Hf|]. cbn. rewrite length_app. lia.
  - destruct (records_fuel _ _ _ _ (Nat.lt_succ_diag_r _) Hr).
Qed.

(** Reading a ClientHello ends, and its answer is final: the loop over the records
    stops on every input within as many steps as there are bytes, and once the first
    bytes of a connection are found to be a hello, or found not to be one, no bytes
    that come after them change the answer. *)
Theorem hello_decided :
  (∀ data, records (S (length data)) data [] None ≠ None)
  ∧ ∀ data more, parse_client_hello data ≠ Err Incomplete → parse_client_hello (data ++ more) = parse_client_hello data.
Proof.
  split.
  - intros data. apply records_fuel. lia.
  - intros data more Hf. unfold parse_client_hello in *. rewrite handshake_more; [done|].
    intros H. rewrite H in Hf. done.
Qed.

(** ** A hello that a client writes is read back *)

Lemma be_int_snoc l c : be_int (l ++ [c]) = be_int l * 256 + Z.of_N (code c).
Proof. unfold be_int. by rewrite foldl_app. Qed.
Lemma be_bytes_length size n : length (be_bytes size n) = size.
Proof. revert n. induction size as [|k IH]; intros n; [done|]. cbn. rewrite length_app, IH. cbn. lia. Qed.
Lemma code_char n : (n < 256)%N → code (char n) = n.
Proof. intros H. by apply N_ascii_embedding. Qed.
Lemma be_int_bytes size n : 0 ≤ n < 256 ^ Z.of_nat size → be_int (be_bytes size n) = n.
Proof.
  revert n. induction size as [|k IH]; intros n Hn; [cbn in *; lia|]. cbn [be_bytes].
  rewrite be_int_snoc, code_char, IH.
  - rewrite Z2N.id by (apply Z.mod_pos_bound; lia). pose proof (Z.div_mod n 256). lia.
  - rewrite Nat2Z.inj_succ, Z.pow_succ_r in Hn by lia. split; [apply Z.div_pos; lia|].
    apply Z.div_lt_upper_bound; lia.
  - pose proof (Z.mod_pos_bound n 256). lia.
Qed.

(** A vector as the wire has it, and the reading of one. *)
Definition vec (size : nat) (l : list ascii) : list ascii := be_bytes size (Z.of_nat (length l)) ++ l.
Lemma vec_length size l : length (vec size l) = (size + length l)%nat.
Proof. unfold vec. by rewrite length_app, be_bytes_length. Qed.
Definition fits (size : nat) (l : list ascii) : Prop := Z.of_nat (length l) < 256 ^ Z.of_nat size.
Lemma take_bytes_app n l s : Z.of_nat (length l) = n → take_bytes n (l ++ s) = Ok (l, s).
Proof.
  intros <-. unfold take_bytes. rewrite (proj2 (Z.ltb_ge _ _)) by (rewrite length_app; lia).
  by rewrite Nat2Z.id, take_app_length, drop_app_length.
Qed.
Lemma vector_vec size l s : fits size l → vector (Z.of_nat size) (vec size l ++ s) = Ok (l, s).
Proof.
  intros Hf. unfold vector, vec. rewrite <- app_assoc. unfold mbind, reader_bind at 1.
  rewrite take_bytes_app by by rewrite be_bytes_length. rewrite be_int_bytes by (unfold fits in Hf; lia).
  by apply take_bytes_app.
Qed.
Lemma vector1 l s : fits 1 l → vector 1 (vec 1 l ++ s) = Ok (l, s).
Proof. apply vector_vec. Qed.
Lemma vector2 l s : fits 2 l → vector 2 (vec 2 l ++ s) = Ok (l, s).
Proof. apply vector_vec. Qed.
Lemma vector2_all l : fits 2 l → vector 2 (vec 2 l) = Ok (l, []).
Proof. intros H. rewrite <- (app_nil_r (vec 2 l)). by apply vector2. Qed.
Lemma read_int size n s : 0 ≤ n < 256 ^ Z.of_nat size →
  (l ← take_bytes (Z.of_nat size); mret (be_int l) : reader Z) (be_bytes size n ++ s) = Ok (n, s).
Proof.
  intros Hn. unfold mbind, reader_bind. rewrite take_bytes_app by by rewrite be_bytes_length.
  unfold mret, reader_ret. by rewrite be_int_bytes.
Qed.
Lemma reader_step {A B} (f : reader A) (g : A → reader B) s a s' : f s = Ok (a, s') → (f ≫= g) s = g a s'.
Proof. unfold mbind, reader_bind. by intros ->. Qed.

Inductive extension : Type :=
| ExtName (host : list ascii)
| ExtAlpn (protocols : list (list ascii))
| ExtOther (kind : Z) (value : list ascii).
Definition ext_kind (e : extension) : Z :=
  match e with ExtName _ => EXT_SERVER_NAME | ExtAlpn _ => EXT_ALPN | ExtOther k _ => k end.
Definition ext_value (e : extension) : list ascii :=
  match e with
  | ExtName host => vec 2 (be_bytes 1 NAME_HOST ++ vec 2 host)
  | ExtAlpn ps => vec 2 (mjoin (vec 1 <$> ps))
  | ExtOther _ v => v
  end.
Definition ext_bytes (e : extension) : list ascii := be_bytes 2 (ext_kind e) ++ vec 2 (ext_value e).
Definition ext_ok (e : extension) : Prop :=
  0 ≤ ext_kind e < 65536 ∧ fits 2 (ext_value e) ∧
  match e with
  | ExtName host => is_ascii host = true
  | ExtAlpn ps => Forall (fits 1) ps
  | ExtOther k _ => k ≠ EXT_SERVER_NAME ∧ k ≠ EXT_ALPN
  end.
Definition clean_host (host : list ascii) : option string :=
  let text := lower (of_chars (strip_dots host)) in if decide (text = ""%string) then None else Some text.
Definition note_ext (found : client_hello) (e : extension) : client_hello :=
  match e with
  | ExtName host => ClientHello (clean_host host) (alpn found)
  | ExtAlpn ps => ClientHello (server_name found) (decode_replace <$> ps)
  | ExtOther _ _ => found
  end.
Definition is_name (e : extension) : bool := match e with ExtName _ => true | _ => false end.

Lemma alpn_read ps fuel : Forall (fits 1) ps → (length (mjoin (vec 1 <$> ps)) ≤ fuel)%nat →
  alpn_list fuel (mjoin (vec 1 <$> ps)) = Ok (decode_replace <$> ps).
Proof.
  revert fuel. induction ps as [|p ps IH]; intros fuel Hall Hf; [by destruct fuel|].
  apply Forall_cons_1 in Hall as [Hp Hall].
  change (mjoin (vec 1 <$> p :: ps)) with (vec 1 p ++ mjoin (vec 1 <$> ps)) in *.
  rewrite length_app in Hf. unfold vec at 1 in Hf. rewrite length_app, be_bytes_length in Hf.
  destruct fuel as [|fuel]; [lia|]. pose proof (vector1 p (mjoin (vec 1 <$> ps)) Hp) as Hv.
  destruct (vec 1 p ++ mjoin (vec 1 <$> ps)) as [|c s] eqn:E; [done|]. cbn [alpn_list].
  rewrite Hv. cbn [mbind res_bind]. rewrite IH by (done || lia). done.
Qed.
Lemma alpn_parsed ps : Forall (fits 1) ps → fits 2 (mjoin (vec 1 <$> ps)) →
  parse_alpn (vec 2 (mjoin (vec 1 <$> ps))) = Ok (decode_replace <$> ps).
Proof.
  intros Hall Hf. unfold parse_alpn. rewrite vector2_all by done. cbn [mbind res_bind]. by apply alpn_read.
Qed.
Lemma fits_le size l l' : fits size l → (length l' ≤ length l)%nat → fits size l'.
Proof. unfold fits. lia. Qed.
Lemma name_parsed host : is_ascii host = true → fits 2 (be_bytes 1 NAME_HOST ++ vec 2 host) →
  parse_server_name (vec 2 (be_bytes 1 NAME_HOST ++ vec 2 host)) = Ok (clean_host host).
Proof.
  intros Ha Hf. unfold parse_server_name. rewrite vector2_all by done. cbn [mbind res_bind].
  pose proof (read_int 1 NAME_HOST (vec 2 host) ltac:(cbv; split; [discriminate|reflexivity])) as Hk.
  destruct (be_bytes 1 NAME_HOST ++ vec 2 host) as [|c s] eqn:E; [done|].
  change (u8 (c :: s) = Ok (NAME_HOST, vec 2 host)) in Hk. rewrite Hk. cbn [mbind res_bind].
  assert (fits 2 host) as Hh.
  { eapply fits_le; [exact Hf|]. rewrite <- E. unfold vec. rewrite !length_app. lia. }
  rewrite vector2_all by done. cbn [mbind res_bind].
  rewrite decide_False by tauto. rewrite decide_False by tauto. by rewrite Ha.
Qed.

Lemma ext_bytes_length e : (4 ≤ length (ext_bytes e))%nat.
Proof. unfold ext_bytes, vec. rewrite !length_app, !be_bytes_length. lia. Qed.
(** At most one of the extensions is a server name. *)
Lemma extensions_read (exts : list extension) (named : bool) found fuel :
  Forall ext_ok exts → (length (mjoin (ext_bytes <$> exts)) ≤ fuel)%nat →
  (length (filter (λ e, is_name e = true) exts) ≤ if named then 0 else 1)%nat →
  extensions fuel named found (mjoin (ext_bytes <$> exts)) = Ok (foldl note_ext found exts).
Proof.
  revert fuel named found. induction exts as [|e exts IH]; intros fuel named found Hall Hf Hn; [by destruct fuel|].
  apply Forall_cons_1 in Hall as [(Hk & Hv & He) Hall].
  change (mjoin (ext_bytes <$> e :: exts)) with (ext_bytes e ++ mjoin (ext_bytes <$> exts)) in *.
  rewrite length_app in Hf. pose proof (ext_bytes_length e) as Hlen. destruct fuel as [|fuel]; [lia|].
  pose proof (read_int 2 (ext_kind e) (vec 2 (ext_value e) ++ mjoin (ext_bytes <$> exts)) Hk) as Hread.
  assert (ext_bytes e ++ mjoin (ext_bytes <$> exts)
    = be_bytes 2 (ext_kind e) ++ vec 2 (ext_value e) ++ mjoin (ext_bytes <$> exts)) as Heq
    by (unfold ext_bytes; by rewrite <- app_assoc).
  rewrite <- Heq in Hread. clear Heq. destruct (ext_bytes e ++ mjoin (ext_bytes <$> exts)) as [|c s] eqn:E.
  { apply (f_equal length) in E. rewrite length_app in E. cbn in E. lia. }
  cbn [extensions]. change (u16 (c :: s) = Ok (ext_kind e, vec 2 (ext_value e) ++ mjoin (ext_bytes <$> exts))) in Hread.
  rewrite Hread. cbn [mbind res_bind]. rewrite vector2 by done. cbn [mbind res_bind foldl]. clear E Hread.
  rewrite filter_cons in Hn. destruct e as [host|ps|k v]; cbn [ext_kind ext_value note_ext is_name] in *.
  - rewrite decide_True in Hn by done. cbn [length] in Hn. rewrite decide_True by done.
    destruct named; [lia|]. rewrite name_parsed.
    2: done.
    2: { eapply fits_le; [exact Hv|]. rewrite (vec_length 2). lia. }
    cbn [mbind res_bind]. apply IH; [done|lia|lia].
  - rewrite decide_False in Hn by done. rewrite decide_False, decide_True by done. rewrite alpn_parsed.
    2: done.
    2: { eapply fits_le; [exact Hv|]. rewrite (vec_length 2). lia. }
    cbn [mbind res_bind]. apply IH; [done|lia|done].
  - rewrite decide_False in Hn by done. rewrite !decide_False by tauto. apply IH; [done|lia|done].
Qed.

(** *** The message and its records *)

Record hello_parts : Type := HelloParts {
  hp_version : list ascii; hp_random : list ascii; hp_session : list ascii; hp_ciphers : list ascii;
  hp_compression : list ascii; hp_extensions : list extension
}.
Definition hello_body (p : hello_parts) : list ascii :=
  hp_version p ++ hp_random p ++ vec 1 (hp_session p) ++ vec 2 (hp_ciphers p) ++ vec 1 (hp_compression p)
  ++ vec 2 (mjoin (ext_bytes <$> hp_extensions p)).
Definition hello_message (p : hello_parts) : list ascii :=
  char HANDSHAKE_CLIENT_HELLO :: vec 3 (hello_body p).
Record hello_ok (p : hello_parts) : Prop := {
  ho_version : length (hp_version p) = 2%nat;
  ho_random : length (hp_random p) = 32%nat;
  ho_session : fits 1 (hp_session p);
  ho_ciphers : fits 2 (hp_ciphers p);
  ho_compression : fits 1 (hp_compression p);
  ho_extensions : Forall ext_ok (hp_extensions p);
  ho_names : (length (filter (λ e, is_name e = true) (hp_extensions p)) ≤ 1)%nat;
  ho_size : fits 2 (mjoin (ext_bytes <$> hp_extensions p));
  ho_limit : Z.of_nat (length (hello_message p)) ≤ MAX_HELLO_BYTES
}.
(** One TLS record that carries a piece of the handshake. *)
Definition record_bytes (minor : ascii) (fragment : list ascii) : list ascii :=
  char RECORD_HANDSHAKE :: char 3 :: minor :: vec 2 fragment.
Definition fragment_ok (f : list ascii) : Prop := f ≠ [] ∧ fits 2 f.

Lemma hello_size_prefix p body more : hello_ok p → body ++ more = hello_message p →
  body ≠ [] → hello_size body = Ok (if decide (length body < 4)%nat then None
                                    else Some (Z.of_nat (length (hello_message p)))).
Proof.
  intros [] Heq Hne. unfold hello_message in *. destruct body as [|c body]; [done|]. cbn [app] in Heq.
  injection Heq as -> Heq. unfold hello_size. case_decide as H4; [done|]. rewrite decide_False by by vm_compute.
  cbn [drop length] in *. unfold vec in Heq. pose proof (be_bytes_length 3 (Z.of_nat (length (hello_body p)))) as Hb.
  assert (take 3 body = be_bytes 3 (Z.of_nat (length (hello_body p)))) as Ht.
  { apply (f_equal (take 3)) in Heq. rewrite take_app_le in Heq by lia. rewrite Heq.
    rewrite take_app_le by lia. by apply take_ge; lia. }
  unfold hello_message, vec, MAX_HELLO_BYTES in ho_limit0. cbn [length] in ho_limit0. rewrite length_app, Hb in ho_limit0.
  change (drop 0 body) with body. rewrite Ht, be_int_bytes by (cbn; lia). rewrite (proj2 (Z.ltb_ge _ _)) by (unfold MAX_HELLO_BYTES; lia).
  do 2 f_equal. unfold vec. rewrite length_app, Hb. lia.
Qed.

Lemma records_read p frags minor rest body fuel need :
  hello_ok p → body ++ mjoin frags = hello_message p → Forall fragment_ok frags →
  need = (if decide (length body < 4)%nat then None else Some (Z.of_nat (length (hello_message p)))) →
  (length frags < fuel)%nat →
  records fuel (mjoin (record_bytes minor <$> frags) ++ rest) body need = Some (Ok (hello_message p)).
Proof.
  intros Hok. revert body fuel need. induction frags as [|f frags IH]; intros body fuel need Heq Hall Hneed Hf.
  - change (mjoin []) with (@nil ascii) in Heq. rewrite app_nil_r in Heq. destruct fuel as [|fuel]; [cbn in Hf; lia|].
    assert (4 ≤ length (hello_message p))%nat as H4.
    { unfold hello_message, vec. cbn [length]. rewrite length_app, be_bytes_length. lia. }
    rewrite Heq in Hneed. rewrite decide_False in Hneed by lia. subst need. cbn [records]. rewrite Heq, Z.leb_refl.
    change (default 0 (Some ?n)) with n. by rewrite Nat2Z.id, take_ge.
  - apply Forall_cons_1 in Hall as [[Hfne Hfit] Hall]. destruct fuel as [|fuel]; [lia|].
    change (mjoin (f :: frags)) with (f ++ mjoin frags) in Heq.
    change (mjoin (record_bytes minor <$> f :: frags)) with (record_bytes minor f ++ mjoin (record_bytes minor <$> frags)).
    assert (length body < length (hello_message p))%nat as Hlt.
    { rewrite <- Heq, length_app, length_app. destruct f; [done|cbn; lia]. }
    cbn [records]. replace (match need with Some n => _ | None => false end) with false.
    2: { subst need. case_decide; [done|]. symmetry. apply Z.leb_gt. lia. }
    unfold record_bytes at 1. destruct (vec 2 f) as [|hi [|lo tail]] eqn:Ev.
    1, 2: apply (f_equal length) in Ev; unfold vec in Ev; rewrite length_app, be_bytes_length in Ev; cbn in Ev; lia.
    assert (be_int [hi; lo] = Z.of_nat (length f) ∧ tail = f) as [Hsz ->].
    { unfold vec in Ev. pose proof (be_bytes_length 2 (Z.of_nat (length f))) as Hb.
      pose proof (be_int_bytes 2 (Z.of_nat (length f)) (conj (Nat2Z.is_nonneg _) Hfit)) as Hi.
      destruct (be_bytes 2 (Z.of_nat (length f))) as [|x [|y [|]]]; try done. cbn [app] in Ev.
      injection Ev as -> -> ->. done. }
    cbn [app]. rewrite decide_False by (intros [H|H]; vm_compute in H; done). rewrite Hsz.
    rewrite (proj2 (Z.eqb_neq _ _)) by (destruct f; [done|cbn; lia]).
    rewrite <- (app_assoc f), (proj2 (Z.ltb_ge _ _)) by (rewrite length_app; lia).
    rewrite Nat2Z.id, take_app_length, drop_app_length.
    assert ((body ++ f) ++ mjoin frags = hello_message p) as Heq' by by rewrite <- app_assoc.
    replace (match need with Some n => Ok (Some n) | None => hello_size (body ++ f) end)
      with (@Ok hello_error _ (if decide (length (body ++ f) < 4)%nat then None else Some (Z.of_nat (length (hello_message p))))).
    2: { subst need. destruct (decide (length body < 4)%nat) as [H1|H1].
         - symmetry. apply (hello_size_prefix p _ (mjoin frags) Hok Heq'). by destruct body, f.
         - rewrite decide_False; [done|]. rewrite length_app. lia. }
    apply IH; [done|done|done|cbn in Hf; lia].
Qed.

Lemma frags_length minor frags : (length frags ≤ length (mjoin (record_bytes minor <$> frags)))%nat.
Proof.
  induction frags as [|f frags IH]; [done|].
  change (mjoin (record_bytes minor <$> f :: frags)) with (record_bytes minor f ++ mjoin (record_bytes minor <$> frags)).
  rewrite length_app. cbn. lia.
Qed.
Lemma handshake_read p frags minor rest :
  hello_ok p → Forall fragment_ok frags → mjoin frags = hello_message p →
  handshake_bytes (mjoin (record_bytes minor <$> frags) ++ rest) = Ok (hello_message p).
Proof.
  intros Hok Hall Heq. unfold handshake_bytes. destruct frags as [|f frags]; [done|].
  destruct (mjoin (record_bytes minor <$> f :: frags) ++ rest) as [|c s] eqn:E; [done|].
  rewrite decide_False.
  2: { change (mjoin (record_bytes minor <$> f :: frags)) with (record_bytes minor f ++ mjoin (record_bytes minor <$> frags)) in E.
       unfold record_bytes at 1 in E. cbn [app] in E. injection E as <- _. by vm_compute. }
  rewrite <- E. erewrite records_read; [done|done|exact Heq|done|done|].
  rewrite length_app. pose proof (frags_length minor (f :: frags)). lia.
Qed.
Lemma take_then size l s : Z.of_nat (length l) = size →
  (x ← take_bytes size; mret (be_int x) : reader Z) (l ++ s) = Ok (be_int l, s).
Proof. intros H. unfold mbind, reader_bind. by rewrite take_bytes_app. Qed.
Lemma hello_fields_read p : hello_ok p →
  hello_fields (hello_message p) = Ok ((), vec 2 (mjoin (ext_bytes <$> hp_extensions p))).
Proof.
  intros []. unfold hello_fields, hello_message, hello_body, vec at 1.
  assert (0 ≤ Z.of_nat (length (hello_body p)) < 256 ^ Z.of_nat 3) as H3.
  { unfold hello_message, MAX_HELLO_BYTES in ho_limit0. cbn [length] in ho_limit0. rewrite vec_length in ho_limit0. cbn. lia. }
  unfold hello_body in H3.
  etransitivity; [eapply (reader_step u8), (take_then 1 [_]); done|].
  etransitivity; [eapply (reader_step u24), (read_int 3 _ _ H3)|].
  etransitivity; [eapply (reader_step (take_bytes 2)), take_bytes_app; by rewrite ho_version0|].
  etransitivity; [eapply (reader_step (take_bytes 32)), take_bytes_app; by rewrite ho_random0|].
  etransitivity; [eapply (reader_step (vector 1)), vector1, ho_session0|].
  etransitivity; [eapply (reader_step (vector 2)), vector2, ho_ciphers0|].
  etransitivity; [eapply (reader_step (vector 1)), vector1, ho_compression0|]. done.
Qed.

(** A hello that a client writes is read back: cut in any way into non-empty TLS
    records of any minor version, and with whatever comes after it, a ClientHello gives
    the name of its server-name extension (in lower case, without trailing dots) and the
    protocols of its ALPN extension, the other extensions of any kind being passed over. *)
Theorem hello_parsed (p : hello_parts) (frags : list (list ascii)) (minor : ascii) (rest : list ascii) :
  hello_ok p → Forall fragment_ok frags → mjoin frags = hello_message p →
  parse_client_hello (mjoin (record_bytes minor <$> frags) ++ rest)
  = Ok (foldl note_ext (ClientHello None []) (hp_extensions p)).
Proof.
  intros Hok Hall Heq. unfold parse_client_hello. rewrite (handshake_read p) by done. cbn [mbind res_bind].
  rewrite hello_fields_read by done. cbn [mbind res_bind]. destruct Hok.
  destruct (vec 2 (mjoin (ext_bytes <$> hp_extensions p))) as [|c s] eqn:E.
  { apply (f_equal length) in E. rewrite vec_length in E. cbn in E. lia. }
  rewrite <- E, vector2_all by done. cbn [mbind res_bind]. by apply extensions_read.
Qed.

(** A hello to [API.Example.com.] with two protocols, an extension of another kind, in two records. *)
Definition example_hello : hello_parts :=
  HelloParts [char 3; char 3] (replicate 32 (char 7)) [char 1; char 2] [char 19; char 1] [char 0]
    [ExtOther 43 [char 2; char 3; char 4]; ExtName (chars "API.Example.com.");
     ExtAlpn [chars "h2"; chars "http/1.1"]].
Definition example_frags : list (list ascii) := [take 3 (hello_message example_hello); drop 3 (hello_message example_hello)].
Lemma example_hello_ok : hello_ok example_hello.
Proof.
  split; try (vm_compute; reflexivity).
  - repeat constructor; cbn; try lia; try (vm_compute; reflexivity); by vm_compute.
  - by apply Z.leb_le.
Qed.
Lemma hello_parsed_witness :
  parse_client_hello (mjoin (record_bytes (char 1) <$> example_frags) ++ [char 20; char 3])
  = Ok (ClientHello (Some "api.example.com"%string) ["h2"%string; "http/1.1"%string]).
Proof.
  exact (hello_parsed example_hello example_frags (char 1) [char 20; char 3] example_hello_ok
           ltac:(repeat constructor; vm_compute; (reflexivity || discriminate))
           ltac:(vm_compute; reflexivity)).
Defined.
Lemma hello_decided_witness :
  parse_client_hello (mjoin (record_bytes (char 1) <$> example_frags) ++ chars "and more")
  = Ok (ClientHello (Some "api.example.com"%string) ["h2"%string; "http/1.1"%string]).
Proof.
  assert (parse_client_hello (mjoin (record_bytes (char 1) <$> example_frags))
    = Ok (ClientHello (Some "api.example.com"%string) ["h2"%string; "http/1.1"%string])) as H by (vm_compute; reflexivity).
  rewrite <- H. apply (proj2 hello_decided). rewrite H. discriminate.
Defined.
