(* ===== verification/Dns.v ===== *)
(** * The DNS filter of the egress gateway (src/src/apipi/worker/egress/dns.py)

    A guest's DNS packets are parsed, checked against the policy and, when the name is
    allowed, asked again from the resolvers with a query that is built anew.  Packets are
    lists of characters.  The network is the argument [ask]: what an upstream answers to
    the bytes it is sent, [None] when asking raises or times out; the two random bytes of
    a new query are an argument. *)

From S2P Require Import Prelude PyStd Db Inject Netguard Sni.

Open Scope Z_scope.

Definition RCODE_FORMERR : Z := 1.
Definition RCODE_SERVFAIL : Z := 2.
Definition RCODE_NXDOMAIN : Z := 3.
Definition RCODE_NOTIMP : Z := 4.
Definition CLASS_IN : Z := 1.
Definition TYPE_A : Z := 1.
Definition PLACEHOLDER_TTL : Z := 60.
Definition NODATA_TYPES : list Z := [64; 65].
Definition MAX_UDP_INFLIGHT : Z := 64.
Definition MAX_TCP_CLIENTS : Z := 16.

Record question : Type := Question { q_name : string; q_type : Z; q_class : Z; q_end : nat }.

(** ** Parsing a question *)

(** The labels of the name at [pos], with where they end; [None]: out of fuel.  A label
    is lower-cased as it is read. *)
Fixpoint read_labels (fuel : nat) (packet : list ascii) (pos : nat) (labels : list (list ascii))
    : option (res string (list (list ascii) * nat)) :=
  match fuel with
  | O => None
  | S fuel =>
      match drop pos packet with
      | [] => Some (Err "truncated DNS name"%string)
      | c :: rest =>
          let size := N.to_nat (code c) in
          if decide (size = 0%nat) then Some (Ok (labels, S pos))
          else if negb (N.land (code c) 192 =? 0)%N then Some (Err "compressed DNS question"%string)
          else
            let label := take size rest in
            if decide (length label ≠ size) then Some (Err "truncated DNS name"%string)
            else if negb (is_ascii label) then Some (Err "DNS name is not ASCII"%string)
            else
              let text := lower_char <$> label in
              if decide ("."%char ∈ text) then Some (Err "DNS label contains a dot"%string)
              else read_labels fuel packet (S pos + size) (labels ++ [text])
      end
  end.
Definition slice (from size : nat) (packet : list ascii) : list ascii := take size (drop from packet).
Definition question_at (packet : list ascii) (labels : list (list ascii)) (pos : nat) : res string question :=
  if decide (length packet < pos + 4)%nat then Err "truncated DNS question"%string
  else
    let name := join ["."%char] labels in
    if decide (253 < length name)%nat then Err "DNS name is too long"%string
    else Ok (Question (of_chars name) (be_int (slice pos 2 packet)) (be_int (slice (pos + 2) 2 packet)) (pos + 4)).
Definition parse_question (packet : list ascii) : res string question :=
  if decide (length packet < 12)%nat then Err "short DNS header"%string
  else if decide (be_int (slice 4 2 packet) ≠ 1) then Err "DNS query needs one question"%string
  else match read_labels (S (length packet)) packet 12 [] with
  | None => Err "out of fuel"%string
  | Some r => '(labels, pos) ← r; question_at packet labels pos
  end.

(** ** Building packets *)

(** The labels of a question that was parsed have at most 63 bytes. *)
Definition query_label (label : list ascii) : list ascii := be_bytes 1 (Z.of_nat (length label)) ++ label.
Definition query_head : list ascii := char <$> [1; 0; 0; 1; 0; 0; 0; 0; 0; 0]%N.
Definition build_query (q : question) (ident : list ascii) : list ascii :=
  ident ++ query_head ++ mjoin (query_label <$> split_on "." (chars (q_name q))) ++ [char 0]
  ++ be_bytes 2 (q_type q) ++ be_bytes 2 (q_class q).

Definition byte (i : nat) (packet : list ascii) : Z := Z.of_N (code (nth i packet (char 0))).
Definition error_reply (query : list ascii) (rcode : Z) (question_end : option nat) : list ascii :=
  let flags_in := if decide (4 ≤ length query)%nat then be_int (slice 2 2 query) else 0 in
  let flags := Z.lor (Z.lor (Z.lor (Z.lor 32768 (Z.land flags_in 30720)) (Z.land flags_in 256)) 128) rcode in
  let ident := take 2 query ++ replicate (2 - length query) (char 0) in
  let question := match question_end with Some e => drop 12 (take e query) | None => [] end in
  let count := if decide (question = []) then 0 else 1 in
  ident ++ be_bytes 2 flags ++ be_bytes 2 count ++ be_bytes 6 0 ++ question.
(** `socket.inet_aton`, of a dotted quad as `ipaddress` prints one *)
Definition inet_aton (address : string) : list ascii := be_bytes 4 (default 0 (parse_v4 (chars address))).
Definition placeholder_reply (query : list ascii) (q : question) (address : string) : list ascii :=
  let reply := error_reply query 0 (Some (q_end q)) in
  if decide (q_type q ≠ TYPE_A) then reply
  else
    let record := [char 192; char 12] ++ be_bytes 2 TYPE_A ++ be_bytes 2 CLASS_IN ++ be_bytes 4 PLACEHOLDER_TTL
                  ++ be_bytes 2 4 ++ inet_aton address in
    take 6 reply ++ be_bytes 2 1 ++ drop 8 reply ++ record.

Definition is_response (packet : list ascii) : bool := negb (Z.land (byte 2 packet) 128 =? 0).
Definition reply_matches (reply query : list ascii) : bool :=
  if decide (length reply < 12)%nat then false
  else if decide (take 2 reply ≠ take 2 query) then false
  else if negb (is_response reply) then false
  else match parse_question reply, parse_question query with
  | Ok got, Ok sent =>
      bool_decide ((q_name got, q_type got, q_class got) = (q_name sent, q_type sent, q_class sent))
  | _, _ => false
  end.
(** `_UpstreamProtocol`: of the datagrams that come, the first that matches. *)
Definition upstream_datagram (query : list ascii) (datagrams : list (list ascii)) : option (list ascii) :=
  find_row (λ d, reply_matches d query) datagrams.

(** ** Answering *)

Abbreviation upstream := (string * Z)%type (only parsing).
Record dns_filter : Type := DnsFilter {
  df_allow : string → bool;
  df_placeholder : option (string → option string);
  df_passthrough : bool;
  df_upstreams : list upstream
}.
(** What goes out to the resolvers. *)
Record sent : Type := Sent { s_to : string * Z; s_bytes : list ascii }.

Definition filter_placeholder (f : dns_filter) (q : question) : option string :=
  match df_placeholder f with
  | None => None
  | Some p => if decide (q_class q ≠ CLASS_IN ∨ q_name q = ""%string) then None else p (q_name q)
  end.

Section answering.
Context (ask : upstream → list ascii → option (list ascii)).

Fixpoint forward (upstreams : list upstream) (query outgoing : list ascii) (q : question)
    : list ascii * list sent :=
  match upstreams with
  | [] => (error_reply query RCODE_SERVFAIL (Some (q_end q)), [])
  | u :: rest =>
      let again := let '(r, out) := forward rest query outgoing q in (r, Sent u outgoing :: out) in
      match ask u outgoing with
      | None => again
      | Some reply =>
          if reply_matches reply outgoing then (take 2 query ++ drop 2 reply, [Sent u outgoing]) else again
      end
  end.

(** [ident]: `os.urandom(2)` *)
Definition answer (f : dns_filter) (query ident : list ascii) : option (list ascii) * list sent :=
  let reply r := (Some r, []) in
  let asked outgoing q := let '(r, out) := forward (df_upstreams f) query outgoing q in (Some r, out) in
  if decide (length query < 12)%nat then (None, [])
  else if is_response query then (None, [])
  else if decide (Z.land (Z.shiftr (byte 2 query) 3) 15 ≠ 0) then reply (error_reply query RCODE_NOTIMP None)
  else match parse_question query with
  | Err _ => reply (error_reply query RCODE_FORMERR None)
  | Ok q =>
      if df_passthrough f then
        match filter_placeholder f q with
        | Some address => reply (placeholder_reply query q address)
        | None => asked (ident ++ drop 2 query) q
        end
      else if decide (q_class q ≠ CLASS_IN) then reply (error_reply query RCODE_NOTIMP (Some (q_end q)))
      else if decide (q_name q = ""%string) then reply (error_reply query RCODE_NXDOMAIN (Some (q_end q)))
      else if negb (df_allow f (q_name q)) then reply (error_reply query RCODE_NXDOMAIN (Some (q_end q)))
      else match filter_placeholder f q with
      | Some address => reply (placeholder_reply query q address)
      | None =>
          if decide (q_type q ∈ NODATA_TYPES) then reply (error_reply query 0 (Some (q_end q)))
          else asked (build_query q ident) q
      end
  end.

(** *** Clients (`_UdpProtocol`, `_serve_tcp`) *)

(** A datagram is dropped when as many are in the works as may be: [None]. *)
Definition datagram_received (inflight : Z) : option Z :=
  if MAX_UDP_INFLIGHT <=? inflight then None else Some (inflight + 1).
Definition datagram_done (inflight : Z) : Z := inflight - 1.
Definition tcp_accepted (clients : Z) : option Z :=
  if MAX_TCP_CLIENTS <=? clients then None else Some (clients + 1).
Definition tcp_closed (clients : Z) : Z := clients - 1.

(** The packets of a client on one connection, each after its length, up to where the
    stream ends; the idents are drawn one per packet.  [written] is what goes back. *)
Definition frame (packet : list ascii) : list ascii := be_bytes 2 (Z.of_nat (length packet)) ++ packet.
Fixpoint serve_tcp (fuel : nat) (f : dns_filter) (idents : nat → list ascii) (stream : list ascii)
    : list ascii * list sent :=
  match fuel, stream with
  | S fuel, hi :: lo :: rest =>
      let size := Z.to_nat (be_int [hi; lo]) in
      if decide (length rest < size)%nat then ([], [])
      else
        match answer f (take size rest) (idents fuel) with
        | (None, out) => ([], out)
        | (Some reply, out) =>
            let '(written, out') := serve_tcp fuel f idents (drop size rest) in (frame reply ++ written, out ++ out')
        end
  | _, _ => ([], [])
  end.
End answering.

(** ** Lemmas on names *)

(** A label as it is read. *)
Record label_ok (l : list ascii) : Prop := {
  lo_some : l ≠ [];
  lo_short : (length l < 64)%nat;
  lo_ascii : is_ascii l = true;
  lo_dots : "."%char ∉ l;
  lo_lower : lower_char <$> l = l
}.

Lemma lower_char_idem c : lower_char (lower_char c) = lower_char c.
Proof. destruct c as [[] [] [] [] [] [] [] []]; reflexivity. Qed.
Lemma lower_char_ascii c : (code c <? 128)%N = true → (code (lower_char c) <? 128)%N = true.
Proof. destruct c as [[] [] [] [] [] [] [] []]; done. Qed.
Lemma lower_ascii l : is_ascii l = true → is_ascii (lower_char <$> l) = true.
Proof.
  unfold is_ascii. induction l as [|c l IH]; [done|]. cbn. intros [H1 H2]%andb_prop. rewrite lower_char_ascii by done.
  by apply IH.
Qed.
Lemma land192 n : (n < 256)%N → (N.land n 192 =? 0)%N = (n <? 64)%N.
Proof.
  intros H.
  assert (forallb (λ k, Bool.eqb (N.land (N.of_nat k) 192 =? 0)%N (N.of_nat k <? 64)%N) (seq 0 256) = true) as Hall by by vm_compute.
  rewrite forallb_forall in Hall. specialize (Hall (N.to_nat n)). rewrite N2Nat.id in Hall.
  apply Bool.eqb_prop, Hall, in_seq. lia.
Qed.
Lemma code_lt c : (code c < 256)%N.
Proof. apply N_ascii_bounded. Qed.

Lemma read_labels_fuel fuel packet pos labels :
  (length packet - pos < fuel)%nat → read_labels fuel packet pos labels ≠ None.
Proof.
  revert pos labels. induction fuel as [|fuel IH]; intros pos labels Hf; [lia|]. cbn [read_labels].
  destruct (drop pos packet) as [|c rest] eqn:Hd; [done|].
  assert (pos < length packet)%nat.
  { apply (f_equal length) in Hd. rewrite length_drop in Hd. cbn in Hd. lia. }
  repeat (case_decide || destruct (negb _)); try done. apply IH. lia.
Qed.
Lemma read_labels_ok fuel packet pos labels ls pos' :
  read_labels fuel packet pos labels = Some (Ok (ls, pos')) → Forall label_ok labels → Forall label_ok ls.
Proof.
  revert pos labels. induction fuel as [|fuel IH]; intros pos labels; [done|]. cbn [read_labels].
  destruct (drop pos packet) as [|c rest]; [done|]. case_decide as Hz; [congruence|].
  rewrite land192 by apply code_lt. destruct (N.ltb_spec (code c) 64) as [Hl|]; [|done]. cbn [negb].
  case_decide as Hsize; [done|]. destruct (is_ascii _) eqn:Ha; [|done]. cbn [negb]. case_decide as Hdot; [done|].
  intros H Hall. eapply IH; [exact H|]. apply Forall_app. split; [done|]. constructor; [|constructor].
  assert (length (take (N.to_nat (code c)) rest) = N.to_nat (code c)) as Hlen by done.
  split.
  - intros E. apply fmap_nil_inv in E. rewrite E in Hlen. cbn in Hlen. lia.
  - rewrite length_fmap, Hlen. lia.
  - by apply lower_ascii.
  - done.
  - rewrite <- list_fmap_compose. apply list_fmap_ext. intros i x _. apply lower_char_idem.
Qed.
Lemma query_label_read fuel packet pre l rest labels :
  label_ok l → packet = pre ++ query_label l ++ rest →
  read_labels (S fuel) packet (length pre) labels
  = read_labels fuel packet (length pre + length (query_label l)) (labels ++ [l]).
Proof.
  intros [Hne Hshort Ha Hdot Hlow] ->. cbn [read_labels]. rewrite drop_app_length. unfold query_label.
  cbn [be_bytes app]. rewrite Z.mod_small by lia. cbn [app].
  rewrite code_char by lia. rewrite Z_N_nat, Nat2Z.id, decide_False by (destruct l; [done|cbn; lia]).
  rewrite land192, (proj2 (N.ltb_lt _ _)) by lia. cbn [negb].
  rewrite take_app_length, decide_False by tauto. rewrite Ha, Hlow, decide_False by done. cbn [negb].
  cbn [length]. by rewrite Nat.add_succ_r.
Qed.
Lemma labels_read fuel packet pre ls rest labels :
  Forall label_ok ls → packet = pre ++ mjoin (query_label <$> ls) ++ char 0 :: rest → (length ls < fuel)%nat →
  read_labels fuel packet (length pre) labels
  = Some (Ok (labels ++ ls, S (length pre + length (mjoin (query_label <$> ls))))).
Proof.
  intros Hall. revert fuel pre labels. induction Hall as [|l ls Hl Hall IH]; intros fuel pre labels Hp Hf.
  - subst packet. destruct fuel as [|fuel]; [cbn in Hf; lia|]. cbn [read_labels]. rewrite drop_app_length.
    change (mjoin (query_label <$> [])) with (@nil ascii). cbn [app length]. rewrite decide_True by done.
    by rewrite app_nil_r, Nat.add_0_r.
  - destruct fuel as [|fuel]; [lia|].
    change (mjoin (query_label <$> l :: ls)) with (query_label l ++ mjoin (query_label <$> ls)) in *.
    rewrite <- app_assoc in Hp. rewrite (query_label_read fuel packet pre l _ labels Hl Hp).
    rewrite <- length_app. rewrite IH; [|by rewrite <- app_assoc|cbn in Hf; lia].
    rewrite <- app_assoc. rewrite !length_app. do 4 f_equal. lia.
Qed.

(** A question that was parsed. *)
Definition question_ok (q : question) : Prop :=
  ∃ labels, Forall label_ok labels ∧ q_name q = of_chars (join ["."%char] labels)
    ∧ (length (chars (q_name q)) ≤ 253)%nat ∧ 0 ≤ q_type q < 65536 ∧ 0 ≤ q_class q < 65536.
Lemma be_int_bound l : 0 ≤ be_int l < 256 ^ Z.of_nat (length l).
Proof.
  induction l as [|c l IH] using rev_ind; [by cbn|]. rewrite be_int_snoc, length_app, Nat2Z.inj_add, Z.pow_add_r by lia.
  pose proof (code_lt c). cbn. lia.
Qed.
Lemma slice2_bound i packet : 0 ≤ be_int (slice i 2 packet) < 65536.
Proof.
  pose proof (be_int_bound (slice i 2 packet)) as H. unfold slice in *. split; [lia|].
  eapply Z.lt_le_trans; [apply H|]. apply (Z.pow_le_mono_r 256 _ 2); [lia|]. rewrite length_take. lia.
Qed.
Lemma parse_question_ok packet q : parse_question packet = Ok q → question_ok q.
Proof.
  unfold parse_question. case_decide; [done|]. case_decide; [done|].
  destruct (read_labels _ _ _ _) as [[[labels pos]|]|] eqn:Hr; [|done..]. cbn [mbind res_bind].
  unfold question_at. case_decide; [done|]. case_decide as Hlen; [done|]. intros [= <-].
  exists labels. cbn [q_name q_type q_class]. rewrite chars_of_chars. split_and!; try apply slice2_bound; [|done|lia].
  by eapply read_labels_ok.
Qed.
Lemma parse_question_fuel packet : parse_question packet ≠ Err "out of fuel"%string.
Proof.
  unfold parse_question. repeat (case_decide; [done|]).
  destruct (read_labels (S (length packet)) packet 12 []) as [r|] eqn:Hr.
  - destruct r as [[labels pos]|e]; cbn [mbind res_bind].
    + unfold question_at. by repeat (case_decide; [done|]).
    + intros [= ->]. revert Hr. generalize (S (length packet)) as fuel. intros fuel. generalize 12%nat as pos.
      generalize (@nil (list ascii)) as labels. induction fuel as [|fuel IH]; intros labels pos; [done|].
      cbn [read_labels]. destruct (drop pos packet); [done|].
      repeat (case_decide || destruct (negb _)); try done. apply IH.
  - exfalso. revert Hr. apply read_labels_fuel. lia.
Qed.
Lemma name_labels q labels : Forall label_ok labels → q_name q = of_chars (join ["."%char] labels) →
  q_name q ≠ ""%string → split_on "." (chars (q_name q)) = labels.
Proof.
  intros Hall -> Hne. rewrite chars_of_chars. apply split_on_join.
  - by intros ->.
  - eapply list.Forall_impl; [exact Hall|]. by intros l [].
Qed.

Lemma slice_at pre l rest : slice (length pre) (length l) (pre ++ l ++ rest) = l.
Proof. unfold slice. by rewrite drop_app_length, take_app_length. Qed.
Lemma query_start q a b :
  build_query q [a; b] = (a :: b :: query_head) ++ mjoin (query_label <$> split_on "." (chars (q_name q)))
    ++ char 0 :: be_bytes 2 (q_type q) ++ be_bytes 2 (q_class q).
Proof. reflexivity. Qed.
Lemma query_parsed q ident : question_ok q → q_name q ≠ ""%string → length ident = 2%nat →
  parse_question (build_query q ident)
  = Ok (Question (q_name q) (q_type q) (q_class q) (length (build_query q ident))).
Proof.
  intros (labels & Hall & Hname & Hlen & Ht & Hc) Hne Hid. destruct ident as [|a [|b [|]]]; try done.
  rewrite query_start. rewrite (name_labels q labels) by done. set (L := mjoin (query_label <$> labels)).
  set (packet := _ ++ L ++ _). assert (length packet = 12 + length L + 5)%nat as Hp.
  { unfold packet. rewrite !length_app. cbn [length]. rewrite length_app, !be_bytes_length. cbn. lia. }
  unfold parse_question. rewrite decide_False by lia.
  change (be_int (slice 4 2 packet)) with 1. rewrite decide_False by tauto.
  change 12%nat with (length (a :: b :: query_head)).
  rewrite (labels_read (S (length packet)) packet (a :: b :: query_head) labels
             (be_bytes 2 (q_type q) ++ be_bytes 2 (q_class q)) []).
  2, 3: done.
  2: { rewrite Hp. subst L. clear. induction labels as [|l ls IH]; cbn [length]; [lia|].
       change (mjoin (query_label <$> l :: ls)) with (query_label l ++ mjoin (query_label <$> ls)).
       rewrite length_app. cbn. lia. }
  cbn [mbind res_bind app]. fold L. set (pos := S _).
  assert (packet = ((a :: b :: query_head) ++ L ++ [char 0]) ++ be_bytes 2 (q_type q) ++ be_bytes 2 (q_class q) ++ []) as Hpk.
  { unfold packet. by rewrite app_nil_r, <- !app_assoc. }
  assert (pos = length ((a :: b :: query_head) ++ L ++ [char 0])) as Hpos.
  { unfold pos. rewrite !length_app. cbn. lia. }
  unfold question_at. rewrite decide_False by (rewrite Hp; unfold pos; cbn; lia).
  rewrite Hname, chars_of_chars in Hlen. rewrite decide_False by lia.
  assert (slice pos 2 packet = be_bytes 2 (q_type q)) as ->.
  { rewrite Hpk, Hpos. exact (slice_at _ (be_bytes 2 (q_type q)) _). }
  assert (slice (pos + 2) 2 packet = be_bytes 2 (q_class q)) as ->.
  { rewrite Hpk, app_assoc. replace (pos + 2)%nat with (length (((a :: b :: query_head) ++ L ++ [char 0]) ++ be_bytes 2 (q_type q)))
      by (rewrite length_app, be_bytes_length; lia). exact (slice_at _ (be_bytes 2 (q_class q)) _). }
  rewrite !be_int_bytes by (cbn; lia). rewrite Hname. do 2 f_equal. rewrite Hp. unfold pos. cbn. lia.
Qed.

(** ** What is answered, and what is asked *)

Definition same_id (reply query : list ascii) : Prop := take 2 reply = take 2 query.

Lemma byte_app i l r : (i < length l)%nat → byte i (l ++ r) = byte i l.
Proof. intros H. unfold byte. by rewrite app_nth1. Qed.
Lemma take2_cons {A} (a b : A) r : take 2 (a :: b :: r) = [a; b].
Proof. by destruct r. Qed.
Lemma take2 (l : list ascii) : (2 ≤ length l)%nat → ∃ a b r, l = a :: b :: r.
Proof. destruct l as [|a [|b r]]; cbn; intros; try lia. by eexists _, _, _. Qed.

Lemma top_bit flags : Z.testbit flags 15 = true →
  (Z.land (Z.of_N (code (char (Z.to_N (flags / 256 mod 256))))) 128 =? 0) = false.
Proof.
  intros H. pose proof (Z.mod_pos_bound (flags / 256) 256). rewrite code_char by lia. rewrite Z2N.id by lia.
  apply Z.eqb_neq. intros E. apply (f_equal (λ z, Z.testbit z 7)) in E.
  rewrite Z.land_spec, Z.bits_0 in E. change 256 with (2 ^ 8) in E.
  rewrite Z.mod_pow2_bits_low, Z.div_pow2_bits in E by lia. change (8 + 7)%Z with 15 in E.
  change (7 + 8)%Z with 15 in E. rewrite H in E. done.
Qed.
Lemma error_reply_shape query rcode e : (2 ≤ length query)%nat →
  ∃ rest, error_reply query rcode e
  = take 2 query ++ be_bytes 2 (Z.lor (Z.lor (Z.lor (Z.lor 32768 (Z.land (if decide (4 ≤ length query)%nat then be_int (slice 2 2 query) else 0) 30720))
      (Z.land (if decide (4 ≤ length query)%nat then be_int (slice 2 2 query) else 0) 256)) 128) rcode) ++ rest
  ∧ (8 ≤ length rest)%nat.
Proof.
  intros H. unfold error_reply. replace (2 - length query)%nat with 0%nat by lia. cbn [replicate]. rewrite app_nil_r.
  eexists. split; [reflexivity|]. rewrite !length_app, !be_bytes_length. lia.
Qed.
Lemma error_reply_answers query rcode e : (2 ≤ length query)%nat →
  same_id (error_reply query rcode e) query ∧ is_response (error_reply query rcode e) = true.
Proof.
  intros H. destruct (error_reply_shape query rcode e H) as (rest & -> & _).
  destruct (take2 query H) as (a & b & r & ->). unfold same_id, is_response. rewrite !take2_cons. cbn [app]. rewrite take2_cons. split; [done|].
  unfold byte. cbn [be_bytes app nth]. rewrite top_bit; [done|]. by rewrite !Z.lor_spec.
Qed.
Lemma placeholder_reply_answers query q address : (2 ≤ length query)%nat →
  same_id (placeholder_reply query q address) query ∧ is_response (placeholder_reply query q address) = true.
Proof.
  intros H. unfold placeholder_reply. case_decide; [by apply error_reply_answers|].
  destruct (error_reply_answers query 0 (Some (q_end q)) H) as [H1 H2].
  destruct (error_reply_shape query 0 (Some (q_end q)) H) as (rest & Heq & _). rewrite Heq in *.
  destruct (take2 query H) as (a & b & r & ->). rewrite take2_cons in *.
  cbn [be_bytes app] in *. unfold same_id, is_response, byte in *. rewrite !take2_cons in *. cbn [take app nth drop] in *.
  by rewrite ?take2_cons, ?H2.
Qed.
Lemma matched_reply query outgoing reply : (2 ≤ length query)%nat → reply_matches reply outgoing = true →
  same_id (take 2 query ++ drop 2 reply) query ∧ is_response (take 2 query ++ drop 2 reply) = true.
Proof.
  intros H Hm. unfold reply_matches in Hm. case_decide as Hl; [done|]. case_decide; [done|].
  destruct (is_response reply) eqn:Hr; [|done]. destruct (take2 query H) as (a & b & r & ->).
  destruct (take2 reply ltac:(lia)) as (a' & b' & r' & ->). unfold same_id, is_response, byte in *.
  rewrite !take2_cons. cbn [app drop nth] in *. rewrite drop_0, take2_cons. by rewrite Hr.
Qed.

(** A packet sent by a filter that is no pass-through: a query built anew for a name the
    filter allows, and has no placeholder for. *)
Definition allowed_query (f : dns_filter) (ident : list ascii) (s : sent) : Prop :=
  s_to s ∈ df_upstreams f ∧ ∃ q, question_ok q ∧ s_bytes s = build_query q ident
    ∧ q_name q ≠ ""%string ∧ q_class q = CLASS_IN ∧ q_type q ∉ NODATA_TYPES
    ∧ df_allow f (q_name q) = true ∧ filter_placeholder f q = None.

Lemma forward_answers ask upstreams query outgoing q r out :
  (2 ≤ length query)%nat → forward ask upstreams query outgoing q = (r, out) →
  (same_id r query ∧ is_response r = true) ∧ Forall (λ s, s_to s ∈ upstreams ∧ s_bytes s = outgoing) out.
Proof.
  intros Hl. revert r out. induction upstreams as [|u us IH]; cbn [forward]; intros r out.
  { intros [= <- <-]. split; [by apply error_reply_answers|constructor]. }
  destruct (forward ask us query outgoing q) as [r' out'] eqn:E. destruct (IH _ _ eq_refl) as [IH1 IH2].
  assert ((same_id r' query ∧ is_response r' = true)
    ∧ Forall (λ s, s_to s ∈ u :: us ∧ s_bytes s = outgoing) (Sent u outgoing :: out')) as Hagain.
  { split; [done|]. constructor; [split; [left|done]|]. eapply list.Forall_impl; [exact IH2|].
    intros s [? ?]. split; [by right|done]. }
  destruct (ask u outgoing) as [reply|]; [destruct (reply_matches reply outgoing) eqn:Hm|]; intros [= <- <-]; [|done..].
  split; [by eapply matched_reply|]. constructor; [|constructor]. split; [left|done].
Qed.

Lemma answer_confined ask f query ident r out :
  df_passthrough f = false → answer ask f query ident = (r, out) →
  match r with Some r => same_id r query ∧ is_response r = true | None => True end
  ∧ Forall (allowed_query f ident) out.
Proof.
  intros Hp. unfold answer. rewrite Hp. case_decide as Hl; [by intros [= <- <-]|].
  assert (2 ≤ length query)%nat as H2 by lia.
  assert (∀ rc e, error_reply query rc e = error_reply query rc e →
     match Some (error_reply query rc e) with Some r => same_id r query ∧ is_response r = true | None => True end
     ∧ Forall (allowed_query f ident) []) as Herr by (intros; split; [by apply error_reply_answers|constructor]).
  destruct (is_response query); [by intros [= <- <-]|]. case_decide; [intros [= <- <-]; by apply Herr|].
  destruct (parse_question query) as [q|] eqn:Hq; [|intros [= <- <-]; by apply Herr].
  case_decide as Hc; [intros [= <- <-]; by apply Herr|]. case_decide as Hn; [intros [= <- <-]; by apply Herr|].
  destruct (df_allow f (q_name q)) eqn:Ha; cbn [negb]; [|intros [= <- <-]; by apply Herr].
  destruct (filter_placeholder f q) as [address|] eqn:Hpl.
  { intros [= <- <-]. split; [by apply placeholder_reply_answers|constructor]. }
  case_decide as Ht; [intros [= <- <-]; by apply Herr|].
  destruct (forward _ _ _ _ _) as [r' out'] eqn:Hf. intros [= <- <-].
  destruct (forward_answers _ _ _ _ _ _ _ H2 Hf) as [H1 Hout]. split; [done|].
  eapply list.Forall_impl; [exact Hout|]. intros s [Hto Hb]. split; [done|]. exists q.
  split_and!; try done. by eapply parse_question_ok.
Qed.

(** A question that was read is asked again unchanged: reading a packet always ends,
    and when it gives a question with a name, the query built for it is read back as the
    same name (in lower case), type and class, up to its last byte, whatever stood in
    the packet besides. *)
Theorem question_rebuilt (packet : list ascii) (ident : list ascii) :
  parse_question packet ≠ Err "out of fuel"%string
  ∧ (length ident = 2%nat → ∀ q, parse_question packet = Ok q → q_name q ≠ ""%string →
     parse_question (build_query q ident)
     = Ok (Question (q_name q) (q_type q) (q_class q) (length (build_query q ident)))).
Proof.
  split; [apply parse_question_fuel|]. intros Hid q Hq Hne.
  apply query_parsed; [by eapply parse_question_ok|done|done].
Qed.
