(* ===== verification/Egress.v ===== *)
(** * The egress gateway of a sandbox (src/src/apipi/worker/egress/policy.py, gateway.py, sockets.py)

    Which connections of a guest go out, and to where: the policy, the host a connection
    names, and the decision of the gateway up to the address that is dialled.  The
    sockets are arguments: the original destination, what is peeked, what the resolver
    answers, which dials succeed, and how serving the connection ends.  `h11` is the
    argument [request_headers]. *)

From stdpp Require Import sorting.
From S2P Require Import Prelude PyStd Db Inject Netguard Sni Dns.

Open Scope Z_scope.

(** ** Policy *)

Inductive egress_mode : Type := Enabled | Restricted | Disabled.
#[global] Instance egress_mode_eq_dec : EqDecision egress_mode.
Proof. solve_decision. Defined.
Inductive action : Type := ASplice | AIntercept | AReject.
#[global] Instance action_eq_dec : EqDecision action.
Proof. solve_decision. Defined.

Definition PLACEHOLDER_BASE : Z := 198 * 2 ^ 24 + 18 * 2 ^ 16.
Definition PLACEHOLDER_NET : network := Network false PLACEHOLDER_BASE 15.
(** `PLACEHOLDER_NET.num_addresses` *)
Definition PLACEHOLDER_SIZE : Z := 2 ^ 17.

Definition label_char (c : ascii) : bool := is_lower c || is_digit c || bool_decide (c = "_"%char).
(** `_LABEL`: one to 63 of the characters, with dashes inside. *)
Definition valid_label (l : list ascii) : bool :=
  match l with
  | [] => false
  | c :: _ =>
      bool_decide (length l ≤ 63)%nat && label_char c && label_char (List.last l c)
      && forallb (λ c, label_char c || bool_decide (c = "-"%char)) l
  end.
Definition valid_hostname (host : string) : bool :=
  let name := norm_host host in
  if decide (name = ""%string ∨ (253 < ulen name)%nat) then false
  else forallb valid_label (split_on "." (chars name)).

(** `int(text)`: a text of more than 4300 digits raises. *)
Definition INT_MAX_STR_DIGITS : nat := 4300.
Definition port_number (l : list ascii) : option Z :=
  if decide (l = []) then None
  else if decide (INT_MAX_STR_DIGITS < length l)%nat then None
  else Z.of_N <$> digits_val digit_val 10 l.
(** [None] is the `ValueError`. *)
Definition host_and_port (host rest : list ascii) : option (string * option Z) :=
  match rest with
  | [] => Some (of_chars host, None)
  | c :: digits => if decide (c = ":"%char) then p ← port_number digits; Some (of_chars host, Some p) else None
  end.
Definition split_host_port (value : string) : option (string * option Z) :=
  let text := chars (of_points (strip_points (str_points value))) in
  if startswith ["["%char] text then
    if decide ("]"%char ∈ text) then
      let '(host, rest) := partition_on "]" (drop 1 text) in host_and_port host rest
    else Some (of_chars text, None)
  else match split_on ":" text with
  | [host; rest] => host_and_port host (":"%char :: rest)
  | _ => Some (of_chars text, None)
  end.

Definition is_placeholder (text : string) : bool :=
  match ip_address text with
  | Some (V4 n) => in_network (V4 n) PLACEHOLDER_NET
  | _ => false
  end.
(** `str(IPv4Address(n))` *)
Definition str_of_v4 (n : Z) : string :=
  sjoin "." (str_of_Z <$> [n / 2 ^ 24 mod 256; n / 2 ^ 16 mod 256; n / 2 ^ 8 mod 256; n mod 256]).

Record decision : Type := Decided { d_action : action; d_reason : string }.
Record egress_policy : Type := EgressPolicy {
  ep_mode : egress_mode; ep_allowed : gset string; ep_private : list string; ep_intercept : gset string
}.
Definition norm_hosts (hosts : list string) : gset string := list_to_set (norm_host <$> hosts).
Definition mode_of (text : string) : option egress_mode :=
  if decide (text = "enabled"%string) then Some Enabled
  else if decide (text = "restricted"%string) then Some Restricted
  else if decide (text = "disabled"%string) then Some Disabled else None.
(** [None] is the `ValueError`. *)
Definition build (mode : string) (allowed_hosts private_hosts intercept_hosts : list string) : option egress_policy :=
  m ← mode_of mode; Some (EgressPolicy m (norm_hosts allowed_hosts) private_hosts (norm_hosts intercept_hosts)).
Definition with_intercept (p : egress_policy) (hosts : list string) : egress_policy :=
  EgressPolicy (ep_mode p) (ep_allowed p) (ep_private p) (norm_hosts hosts).

Definition allows_name (p : egress_policy) (host : string) : bool :=
  match ep_mode p with
  | Disabled => false
  | Enabled => true
  | Restricted => bool_decide (norm_host host ∈ ep_allowed p)
  end.
Definition private_allowed (p : egress_policy) (host : option string) : bool :=
  match host with
  | None => false
  | Some host =>
      if decide (host = ""%string) then false
      else
        let name := norm_host host in
        if is_ip_literal name then false
        else if decide (name ∈ ep_intercept p) then true
        else bool_decide (ep_mode p = Restricted) && bool_decide (name ∈ ep_allowed p)
  end.
(** `_private_entries` *)
Definition private_entries (p : egress_policy) : gset string := allowed_names (ep_private p).
Definition private_name (p : egress_policy) (host : string) : bool :=
  if negb (allows_name p host) || negb (private_allowed p (Some host)) then false
  else bool_decide (norm_host host ∈ private_entries p).
Definition str_le (a b : string) : Prop := String.leb a b = true.
#[global] Instance str_le_dec a b : Decision (str_le a b).
Proof. unfold str_le. apply _. Defined.
Definition private_names (p : egress_policy) : list string :=
  merge_sort str_le (filter (λ name, private_name p name = true) (elements (private_entries p))).
(** `_placeholder_index`: numbered from one. *)
Definition placeholder_index (p : egress_policy) (name : string) : option Z :=
  '(i, _) ← list_find (λ n, n = name) (private_names p); Some (Z.of_nat i + 1).
Definition placeholder (p : egress_policy) (host : string) : option string :=
  if negb (private_name p host) then None
  else
    i ← placeholder_index p (norm_host host);
    if PLACEHOLDER_SIZE - 1 <=? i then None else Some (str_of_v4 (PLACEHOLDER_BASE + i)).
Definition placeholder_name (p : egress_policy) (address : string) : option string :=
  if negb (is_placeholder address) then None
  else match ip_address address with
  | Some (V4 n) =>
      let index := n - PLACEHOLDER_BASE in
      let names := private_names p in
      if negb ((1 <=? index) && (index <=? Z.of_nat (length names))) || (PLACEHOLDER_SIZE - 1 <=? index) then None
      else names !! Z.to_nat (index - 1)
  | _ => None
  end.
Definition needs_dns (p : egress_policy) : bool :=
  match ep_mode p with
  | Restricted => true
  | Enabled => bool_decide (private_names p ≠ [])
  | Disabled => false
  end.

Definition policy_decide (p : egress_policy) (host : option string) (port : Z) : decision :=
  let restricted := bool_decide (ep_mode p = Restricted) in
  if decide (ep_mode p = Disabled) then Decided AReject "disabled"
  else if decide (host = None ∨ host = Some ""%string) then
    if restricted then Decided AReject "no_host" else Decided ASplice ""
  else
    let name := norm_host (default ""%string host) in
    if is_ip_literal name then if restricted then Decided AReject "ip_literal" else Decided ASplice ""
    else if negb (valid_hostname name) then Decided AReject "bad_host"
    else if restricted && negb (bool_decide (name ∈ ep_allowed p)) then Decided AReject "not_allowed"
    else if decide (name ∈ ep_intercept p) then Decided AIntercept "" else Decided ASplice "".

(** The DNS filter the gateway starts for its policy (`EgressGateway.start`). *)
Definition gateway_dns (p : egress_policy) (upstreams : list (string * Z)) : option dns_filter :=
  if needs_dns p
  then Some (DnsFilter (allows_name p) (Some (placeholder p)) (bool_decide (ep_mode p = Enabled)) upstreams)
  else None.

(** ** The host a connection names *)

Definition HTTP_PORTS : list Z := [80].
Definition MAX_PEEK : Z := 16384.
Definition tls_enough (data : list ascii) : bool :=
  match parse_client_hello data with Err Incomplete => false | _ => true end.
Definition is_alpha (l : list ascii) : bool :=
  bool_decide (l ≠ []) && forallb (λ c, is_lower c || is_upper c) l.
Definition http_enough (data : list ascii) : bool :=
  let CR := char 13 in let LF := char 10 in
  if contains [CR; LF; CR; LF] data || contains [LF; LF] data then true
  else
    let '(method, _) := partition_on " " data in
    if decide (" "%char ∈ data) then negb (is_alpha method)
    else bool_decide (16 < length method)%nat || negb (is_alpha method).

(** What comes of one read of a connection that is peeked at: nothing yet, and then bytes
    in time or not; bytes, with whether the deadline has passed; the read fails. *)
Inductive peek_event : Type :=
| PeekWait (ready : bool)
| PeekSeen (data : list ascii) (late : bool)
| PeekBroken.
Inductive peeked : Type := Peeked (data : list ascii) | PeekTimeout | PeekFailed.
(** [None]: more events are awaited. *)
Fixpoint peek (enough : list ascii → bool) (events : list peek_event) : option peeked :=
  match events with
  | [] => None
  | PeekWait true :: rest => peek enough rest
  | PeekWait false :: _ => Some PeekTimeout
  | PeekBroken :: _ => Some PeekFailed
  | PeekSeen data late :: rest =>
      if decide (data = []) then Some (Peeked [])
      else if (MAX_PEEK <=? Z.of_nat (length data)) || enough data then Some (Peeked data)
      else if late then Some (Peeked data)
      else peek enough rest
  end.

Record connection : Type := Connection {
  cn_host : option string; cn_port : Z; cn_action : action; cn_reason : string;
  cn_http : bool; cn_recognized : bool
}.
Definition new_connection : connection := Connection None 0 AReject "" false false.

(** Where a connection goes once it is let out. *)
Inductive target : Type :=
| ToSplice (addresses : list string) (port : Z)
| ToIntercept (host : string) (port : Z) (addresses : list string) (tls : bool).
Definition target_addresses (t : target) : list string :=
  match t with ToSplice l _ => l | ToIntercept _ _ l _ => l end.

(** *** Dialling (`open_upstream`) *)

Inductive io_error : Type := UpstreamError (reason : string) | OsError | Crash.
Inductive dial : Type := DialOk | DialCert | DialFailed | DialCrashed.
(** [late i]: the deadline has passed before the attempt [i]. *)
Fixpoint open_upstream (late : nat → bool) (dials : string → dial) (i : nat) (addresses : list string)
    : res io_error string :=
  match addresses with
  | [] => Err (UpstreamError "upstream_unreachable")
  | a :: rest =>
      if late i then Err (UpstreamError "upstream_unreachable")
      else match dials a with
      | DialOk => Ok a
      | DialCert => Err (UpstreamError "upstream_tls")
      | DialFailed => open_upstream late dials (S i) rest
      | DialCrashed => Err Crash
      end
  end.

(** How the input and output of one connection turn out. *)
Record net : Type := Net {
  nt_original : option (string * Z);
  nt_peek : list peek_event;
  nt_answer : string → option (list string);
  nt_late : nat → bool;
  nt_dial : string → dial;
  nt_accept : option io_error;
  nt_splice : option io_error;
  nt_intercept : target → res io_error string
}.

Section gateway.
Context (special : address → bool).
Context (request_headers : list ascii → option (list (list ascii * list ascii))).

(** `_http_host`: [request_headers] gives the headers of a request that is parsed. *)
Definition http_host (data : list ascii) : option string * bool :=
  match request_headers data with
  | None => (None, false)
  | Some headers =>
      match find_row (λ p : list ascii * list ascii, bool_decide (p.1 = chars "host")) headers with
      | None => (None, true)
      | Some (_, value) =>
          match split_host_port (latin1_decode value) with
          | None => (None, true)
          | Some (host, _) => let name := norm_host host in (if decide (name = ""%string) then None else Some name, true)
          end
      end
  end.
Definition read_host (data : list ascii) (tls : bool) : option string * bool :=
  if tls then
    match parse_client_hello data with Ok hello => (server_name hello, true) | Err _ => (None, false) end
  else http_host data.

(** A gateway, its guard the default one. *)
Record gateway : Type := Gateway {
  gw_policy : egress_policy; gw_tls_ports : list Z; gw_http_ports : list Z
}.

(** Either the connection is turned away for a reason, or it has somewhere to go. *)
Definition route (g : gateway) (dest : string) (answer : string → option (list string)) (conn : connection) (tls : bool)
    (timed_out : bool) : res (action * string) target :=
  let p := gw_policy g in
  let host := cn_host conn in
  let restricted := bool_decide (ep_mode p = Restricted) in
  let reject reason := Err (AReject, reason) in
  if negb (cn_recognized conn) && restricted then
    reject (if timed_out then "timeout" else if tls then "not_tls" else "not_http")%string
  else
    let d := policy_decide p host (cn_port conn) in
    if decide (d_action d = AReject) then reject (d_reason d)
    else
      let caught := bool_decide (d_action d = AIntercept) in
      if caught && negb tls then reject "credential_host_plain_http"%string
      else
        let held := is_placeholder dest in
        let mismatch := match host with
                        | None => true
                        | Some h => bool_decide (placeholder_name p dest ≠ Some (norm_host h)) end in
        if held && mismatch then reject "placeholder_mismatch"%string
        else
          let addresses := match host with
            | Some h =>
                if restricted || held || caught then
                  resolve_upstream (address_blocked special) h answer
                    (if private_allowed p host then ep_private p else [])
                else check_address (address_blocked special) dest
            | None => check_address (address_blocked special) dest
            end in
          match addresses, host with
          | Err reason, _ => reject reason
          | Ok l, Some h =>
              if (caught && tls) || (cn_http conn && restricted)
              then Ok (ToIntercept h (cn_port conn) l tls) else Ok (ToSplice l (cn_port conn))
          | Ok l, None => Ok (ToSplice l (cn_port conn))
          end.

Definition ended (conn : connection) (a : action) (reason : string) : connection :=
  Connection (cn_host conn) (cn_port conn) a reason (cn_http conn) (cn_recognized conn).
Definition failed (conn : connection) (a : action) (e : io_error) : connection :=
  match e with
  | UpstreamError reason => ended conn AReject reason
  | OsError => ended conn a "closed"
  | Crash => ended conn a "error"
  end.
(** What serves a target: the connection, whether the socket is still the gateway's own,
    and the address that was dialled. *)
Definition serve (io : net) (conn : connection) (t : target) : connection * bool * option string :=
  match t with
  | ToIntercept _ _ _ _ =>
      match nt_intercept io t with
      | Ok reason => (ended conn AIntercept reason, false, None)
      | Err e => (failed conn AIntercept e, false, None)
      end
  | ToSplice addresses _ =>
      match open_upstream (nt_late io) (nt_dial io) 0 addresses with
      | Err e => (failed conn AReject e, true, None)
      | Ok a =>
          match nt_accept io with
          | Some e => (failed conn ASplice e, true, Some a)
          | None =>
              match nt_splice io with
              | Some e => (failed conn ASplice e, false, Some a)
              | None => (ended conn ASplice "", false, Some a)
              end
          end
      end
  end.

(** `_close`, of a socket that is still owned: what the guest sees. *)
Inductive closing : Type := CloseSilent | CloseReset | CloseForbidden.
Definition close_of (conn : connection) : closing :=
  if decide (cn_action conn ≠ AReject) then CloseSilent
  else if negb (cn_http conn && cn_recognized conn) then CloseReset else CloseForbidden.

Record handled : Type := Handled {
  hd_connection : connection; hd_target : option target; hd_dialled : option string; hd_closing : option closing
}.
Definition turned_away (conn : connection) : handled := Handled conn None None (Some (close_of conn)).

(** `_handle`; [None]: it is still waiting for bytes of the guest. *)
Definition handle (g : gateway) (io : net) : option handled :=
  match nt_original io with
  | None => Some (turned_away (ended new_connection AReject "no_destination"))
  | Some (dest, port) =>
      let tls := bool_decide (port ∈ gw_tls_ports g) in
      let http := bool_decide (port ∈ gw_http_ports g) in
      let conn host recognized reason := Connection host port AReject reason http recognized in
      if negb tls && negb http then Some (turned_away (conn None false "port"%string))
      else
        seen ← peek (if tls then tls_enough else http_enough) (nt_peek io);
        match seen with
        | PeekFailed => Some (turned_away (conn None false "closed"%string))
        | Peeked [] => Some (turned_away (conn None false "no_data"%string))
        | _ =>
            let '(host, recognized) := match seen with Peeked data => read_host data tls | _ => (None, false) end in
            let timed_out := match seen with PeekTimeout => true | _ => false end in
            let c := conn host recognized ""%string in
            match route g dest (nt_answer io) c tls timed_out with
            | Err (a, reason) => Some (turned_away (ended c a reason))
            | Ok t =>
                let '(c, owned, dialled) := serve io c t in
                Some (Handled c (Some t) dialled (if (owned : bool) then Some (close_of c) else None))
            end
        end
  end.
End gateway.

(** *** Accepting connections *)

Definition MAX_CONNECTIONS : Z := 128.
Definition WORKER_MAX_CONNECTIONS : Z := 8192.
Definition FD_RESERVE : Z := 512.
(** [soft]: the limit of open files, [None] when there is none. *)
Definition worker_connection_limit (soft : option Z) : Z :=
  match soft with
  | None => WORKER_MAX_CONNECTIONS
  | Some soft => Z.max 16 (Z.min WORKER_MAX_CONNECTIONS ((soft - FD_RESERVE) / 3))
  end.
(** A connection is taken on, or reset: [tasks] of the gateway, [open] of the worker. *)
Definition accepts (max_connections tasks open : Z) (soft : option Z) : bool :=
  negb ((max_connections <=? tasks) || (worker_connection_limit soft <=? open)).

(** ** What goes out *)

(** The private hosts a connection to [host] may reach. *)
Definition granted (p : egress_policy) (host : option string) : list string :=
  if private_allowed p host then ep_private p else [].

Record contained (special : address → bool) (p : egress_policy) (dest : string) (tls : bool) (conn : connection)
    (t : target) : Prop := {
  ct_on : ep_mode p ≠ Disabled;
  ct_some : target_addresses t ≠ [];
  ct_reachable : Forall (reachable special (granted p (cn_host conn)) (norm_host (default ""%string (cn_host conn))))
                        (target_addresses t);
  ct_restricted : ep_mode p = Restricted →
    ∃ h, cn_host conn = Some h ∧ norm_host h ∈ ep_allowed p ∧ valid_hostname (norm_host h) = true
         ∧ is_ip_literal (norm_host h) = false;
  ct_credential : ∀ h, cn_host conn = Some h → norm_host h ∈ ep_intercept p → is_ip_literal (norm_host h) = false →
    h ≠ ""%string → tls = true ∧ ∃ l, t = ToIntercept h (cn_port conn) l true;
  ct_placeholder : is_placeholder dest = true →
    ∃ h, cn_host conn = Some h ∧ placeholder_name p dest = Some (norm_host h)
}.

Lemma check_reachable special private name dest l :
  check_address (address_blocked special) dest = Ok l → l ≠ [] ∧ Forall (reachable special private name) l.
Proof.
  unfold check_address. destruct (address_blocked _ _) eqn:Hb; [done|]. intros [= <-]. split; [done|].
  constructor; [|constructor]. destruct (address_blocked_false _ _ Hb) as (ip & ? & ? & ?). exists ip. auto.
Qed.

(** What the policy decides, and what that says of the host. *)
Lemma decide_passed p host port :
  d_action (policy_decide p host port) ≠ AReject →
  ep_mode p ≠ Disabled
  ∧ (ep_mode p = Restricted → ∃ h, host = Some h ∧ norm_host h ∈ ep_allowed p ∧ valid_hostname (norm_host h) = true
                                  ∧ is_ip_literal (norm_host h) = false)
  ∧ (∀ h, host = Some h → norm_host h ∈ ep_intercept p → is_ip_literal (norm_host h) = false → h ≠ ""%string →
     d_action (policy_decide p host port) = AIntercept)
  ∧ (d_action (policy_decide p host port) = AIntercept → is_Some host).
Proof.
  unfold policy_decide. case_decide as Hd; [done|]. case_decide as Hh.
  { destruct (bool_decide_reflect (ep_mode p = Restricted)); [by intros []|]. intros _. split_and!; [done|done| |done].
    intros h -> _ _ Hne. destruct Hh as [|[= ->]]; done. }
  destruct host as [h|]; [|tauto]. change (default ""%string (Some h)) with h. destruct (is_ip_literal (norm_host h)) eqn:Hip.
  { destruct (bool_decide_reflect (ep_mode p = Restricted)); [by intros []|]. intros _. split_and!; [done|done| |by intros; eexists].
    intros h' [= <-]. congruence. }
  destruct (valid_hostname (norm_host h)) eqn:Hv; [|done]. cbn [negb].
  destruct (bool_decide_reflect (ep_mode p = Restricted)) as [Hr|Hr]; cbn [andb].
  - destruct (bool_decide_reflect (norm_host h ∈ ep_allowed p)) as [Ha|]; [|done]. cbn [negb]. intros _.
    split_and!; [done|intros _; by exists h| |by intros; eexists].
    intros h' [= <-] Hin _ _. by rewrite decide_True.
  - intros _. split_and!; [done|done| |by intros; eexists]. intros h' [= <-] Hin _ _. by rewrite decide_True.
Qed.

Lemma route_contained special g dest answer conn tls timed_out t :
  route special g dest answer conn tls timed_out = Ok t → contained special (gw_policy g) dest tls conn t.
Proof.
  unfold route. destruct (negb _ && _); [done|]. case_decide as Ha; [done|].
  destruct (decide_passed _ _ _ Ha) as (Hon & Hres & Hcred & Hsome).
  set (caught := bool_decide (d_action _ = AIntercept)).
  destruct (caught && negb tls) eqn:Hplain; [done|]. destruct (is_placeholder dest && _) eqn:Hheld; [done|].
  destruct (cn_host conn) as [h|] eqn:Hh.
  - set (addresses := if (_ || _ || caught)%bool then resolve_upstream _ _ _ _ else _). destruct addresses as [l|] eqn:Hl; [|done].
    assert (l ≠ [] ∧ Forall (reachable special (granted (gw_policy g) (Some h)) (norm_host h)) l) as [Hne Hall].
    { unfold addresses in Hl. destruct (_ || _); [by eapply resolve_reachable|by eapply check_reachable]. }
    intros Ht. assert (target_addresses t = l) as Hta by (destruct ((caught && tls) || _); by injection Ht as <-).
    split; rewrite ?Hta, ?Hh; try done.
    + intros h' [= <-] Hin Hip Hnil. pose proof (Hcred h eq_refl Hin Hip Hnil) as Hc.
      unfold caught in *. rewrite bool_decide_eq_true_2 in * by done. destruct tls; [|done].
      cbn in Ht. injection Ht as <-. split; [done|]. by exists l.
    + intros Hp. rewrite Hp in Hheld. cbn [andb] in Hheld. apply bool_decide_eq_false, dec_stable in Hheld. by exists h.
  - destruct (check_address _ _) as [l|] eqn:Hl; [|done]. intros [= <-].
    destruct (check_reachable _ (granted (gw_policy g) None) (norm_host "") _ _ Hl) as [Hne Hall].
    split; rewrite ?Hh; try done. intros Hp. by rewrite Hp in Hheld.
Qed.

Lemma contained_same special p dest tls conn conn' t :
  cn_host conn' = cn_host conn → cn_port conn' = cn_port conn →
  contained special p dest tls conn t → contained special p dest tls conn' t.
Proof. intros Hh Hp []. by split; rewrite ?Hh, ?Hp. Qed.
Lemma open_upstream_in late dials i l a : open_upstream late dials i l = Ok a → a ∈ l.
Proof.
  revert i. induction l as [|b l IH]; intros i; [done|]. cbn [open_upstream]. destruct (late i); [done|].
  destruct (dials b); [intros [= ->]; left|done| |done]. intros H. right. by eapply IH.
Qed.
Lemma failed_same conn a e : cn_host (failed conn a e) = cn_host conn ∧ cn_port (failed conn a e) = cn_port conn.
Proof. by destruct e. Qed.
Lemma serve_same io conn t conn' owned dialled :
  serve io conn t = (conn', owned, dialled) →
  cn_host conn' = cn_host conn ∧ cn_port conn' = cn_port conn
  ∧ from_option (λ a, a ∈ target_addresses t) True dialled.
Proof.
  unfold serve. destruct t as [l port|h port l tls].
  - destruct (open_upstream _ _ _ _) as [a|e] eqn:Ho.
    + apply open_upstream_in in Ho. destruct (nt_accept io) as [e|]; [|destruct (nt_splice io) as [e|]]; intros [= <- <- <-];
        rewrite ?(proj1 (failed_same _ _ _)), ?(proj2 (failed_same _ _ _)); done.
    + intros [= <- <- <-]. by rewrite ?(proj1 (failed_same _ _ _)), ?(proj2 (failed_same _ _ _)).
  - destruct (nt_intercept io _) as [r|e]; intros [= <- <- <-]; [done|].
    by rewrite ?(proj1 (failed_same _ _ _)), ?(proj2 (failed_same _ _ _)).
Qed.

Lemma route_rejects special g dest answer conn tls timed_out a reason :
  route special g dest answer conn tls timed_out = Err (a, reason) → a = AReject.
Proof.
  unfold route. repeat case_match; congruence.
Qed.

(** C9: What a guest's connection can reach.  A connection that is turned away dials
    nothing.  One that is let out has at least one address and dials one of them; each
    address is no metadata service and either one the guard does not block, or one
    of a private host granted to the name the connection gives; with egress off there is none;
    a restricted session only reaches valid host names its policy allows; a connection
    to a host that a credential is for is always intercepted, under TLS; and one to a
    placeholder address names the host the placeholder stands for. *)
Theorem egress_contained (special : address → bool)
    (request_headers : list ascii → option (list (list ascii * list ascii))) (g : gateway) (io : net) (hd : handled) :
  handle special request_headers g io = Some hd →
  match hd_target hd with
  | None => hd_dialled hd = None ∧ cn_action (hd_connection hd) = AReject
  | Some t =>
      (∃ dest port, nt_original io = Some (dest, port)
        ∧ contained special (gw_policy g) dest (bool_decide (port ∈ gw_tls_ports g)) (hd_connection hd) t)
      ∧ from_option (λ a, a ∈ target_addresses t) True (hd_dialled hd)
  end.
Proof.
  unfold handle. destruct (nt_original io) as [[dest port]|] eqn:Ho; [|by intros [= <-]].
  set (tls := bool_decide _). set (http := bool_decide _). destruct (negb tls && negb http); [by intros [= <-]|].
  destruct (peek _ _) as [seen|]; [|done]. cbn [mbind option_bind].
  assert (∀ host recognized timed_out,
    (let c := Connection host port AReject "" http recognized in
     match route special g dest (nt_answer io) c tls timed_out with
     | Err (a, reason) => Some (turned_away (ended c a reason))
     | Ok t => let '(c, owned, dialled) := serve io c t in
               Some (Handled c (Some t) dialled (if (owned : bool) then Some (close_of c) else None))
     end) = Some hd →
    match hd_target hd with
    | None => hd_dialled hd = None ∧ cn_action (hd_connection hd) = AReject
    | Some t =>
        (∃ dest' port', Some (dest, port) = Some (dest', port')
          ∧ contained special (gw_policy g) dest' (bool_decide (port' ∈ gw_tls_ports g)) (hd_connection hd) t)
        ∧ from_option (λ a, a ∈ target_addresses t) True (hd_dialled hd)
    end) as Hmain.
  { intros host recognized timed_out. cbn zeta. set (c := Connection _ _ _ _ _ _).
    destruct (route _ _ _ _ _ _ _) as [t|[a reason]] eqn:Hr.
    - destruct (serve io c t) as [[c' owned] dialled] eqn:Hs. intros [= <-]. cbn [hd_target hd_connection hd_dialled].
      destruct (serve_same _ _ _ _ _ _ Hs) as (Hh & Hp & Hd). split; [|done]. exists dest, port. split; [done|].
      eapply contained_same; [exact Hh|exact Hp|]. by eapply route_contained.
    - intros [= <-]. cbn. split; [done|]. by eapply route_rejects. }
  destruct seen as [[|b data]| |]; [by intros [= <-]| |apply Hmain|by intros [= <-]].
  destruct (read_host _ _ _) as [host recognized]. apply Hmain.
Qed.

(** ** Placeholder addresses *)

Definition octet_text (o : Z) : list ascii := chars (str_of_Z o).
Lemma octet_check :
  forallb (λ k, let l := octet_text (Z.of_nat k) in
                bool_decide (parse_octet l = Some (Z.of_nat k)) && forallb is_digit l) (seq 0 256) = true.
Proof. vm_compute. reflexivity. Qed.
Lemma octet_read o : 0 ≤ o < 256 → parse_octet (octet_text o) = Some o ∧ forallb is_digit (octet_text o) = true.
Proof.
  intros H. pose proof octet_check as Hc. rewrite forallb_forall in Hc. specialize (Hc (Z.to_nat o)).
  rewrite Z2Nat.id in Hc by lia. cbn zeta in Hc. apply andb_prop in Hc as [Hc Hd]; [|apply in_seq; lia].
  split; [by apply bool_decide_eq_true in Hc|done].
Qed.
Lemma digit_not c l : forallb is_digit l = true → is_digit c = false → c ∉ l.
Proof.
  intros H Hc Hin. rewrite forallb_forall in H. apply list_elem_of_In in Hin. by rewrite (H c Hin) in Hc.
Qed.
Lemma str_of_v4_chars n :
  chars (str_of_v4 n)
  = join ["."%char] (octet_text <$> [n / 2 ^ 24 mod 256; n / 2 ^ 16 mod 256; n / 2 ^ 8 mod 256; n mod 256]).
Proof. unfold str_of_v4, sjoin. by rewrite chars_of_chars, <- list_fmap_compose. Qed.
Lemma v4_read n : 0 ≤ n < 2 ^ 32 → ip_address (str_of_v4 n) = Some (V4 n).
Proof.
  intros Hn. unfold ip_address, ipv4_address. rewrite str_of_v4_chars.
  assert (∀ x, 0 ≤ x mod 256 < 256) as Hb by (intros x; apply Z.mod_pos_bound; lia).
  set (parts := octet_text <$> _). assert (Forall (λ l, forallb is_digit l = true) parts) as Hall.
  { unfold parts. repeat (constructor; [by apply octet_read|]). constructor. }
  rewrite decide_False.
  - unfold parse_v4. rewrite split_on_join; [|done|].
    + unfold parts. cbn [fmap list_fmap]. rewrite !(proj1 (octet_read _ (Hb _))). cbn [mbind option_bind fmap option_fmap option_map].
      do 2 f_equal. change (2 ^ 24) with 16777216. change (2 ^ 16) with 65536. change (2 ^ 8) with 256. change (2 ^ 32) with 4294967296 in Hn.
      Z.to_euclidean_division_equations. lia.
    + eapply list.Forall_impl; [exact Hall|]. intros l Hl. by apply digit_not.
  - intros Hin. assert (∀ ls : list (list ascii), Forall (λ l, forallb is_digit l = true) ls → "/"%char ∉ join ["."%char] ls) as Hno.
    { induction 1 as [|l ls Hl Hls IH]; [by apply not_elem_of_nil|]. destruct ls as [|l' ls]; [by apply digit_not|].
      change (join ["."%char] (l :: l' :: ls)) with (l ++ "."%char :: join ["."%char] (l' :: ls)).
      rewrite elem_of_app, elem_of_cons. intros [H|[H|H]]; [|done|done]. revert H. by apply digit_not. }
    by apply (Hno _ Hall).
Qed.

Lemma placeholder_range i : 0 ≤ i < PLACEHOLDER_SIZE → in_network (V4 (PLACEHOLDER_BASE + i)) PLACEHOLDER_NET = true.
Proof.
  intros H. cbn [in_network PLACEHOLDER_NET n_v6 n_prefix n_address negb andb]. apply Z.eqb_eq. unfold masked_to.
  unfold PLACEHOLDER_BASE, PLACEHOLDER_SIZE in *. change (2 ^ (32 - 15)) with 131072.
  Z.to_euclidean_division_equations. lia.
Qed.
Lemma index_range p name i : placeholder_index p name = Some i →
  1 ≤ i ≤ Z.of_nat (length (private_names p)) ∧ private_names p !! Z.to_nat (i - 1) = Some name.
Proof.
  unfold placeholder_index. destruct (list_find _ _) as [[k x]|] eqn:Hf; cbn; [|done]. intros [= <-].
  apply list_find_Some in Hf as (Hk & -> & _). pose proof (lookup_lt_Some _ _ _ Hk). split; [lia|].
  by replace (Z.to_nat (Z.of_nat k + 1 - 1)) with k by lia.
Qed.

(** The placeholder address a guest is given for a private host stands for that host
    and no other: it is in the placeholder network, which the guard blocks as an address to
    dial, and it is looked up as the host's name in lower case. *)
Theorem placeholder_named (special : address → bool) (p : egress_policy) (host address : string) :
  placeholder p host = Some address →
  is_placeholder address = true ∧ address_blocked special address = true
  ∧ placeholder_name p address = Some (norm_host host).
Proof.
  unfold placeholder. destruct (private_name p host); [|done]. cbn [negb].
  destruct (placeholder_index p (norm_host host)) as [i|] eqn:Hi; cbn [mbind option_bind]; [|done].
  destruct (Z.leb_spec (PLACEHOLDER_SIZE - 1) i) as [|Hlt]; [done|]. intros [= <-].
  destruct (index_range _ _ _ Hi) as [Hr Hname].
  assert (ip_address (str_of_v4 (PLACEHOLDER_BASE + i)) = Some (V4 (PLACEHOLDER_BASE + i))) as Hip.
  { apply v4_read. unfold PLACEHOLDER_BASE, PLACEHOLDER_SIZE in *. lia. }
  pose proof (placeholder_range i ltac:(lia)) as Hnet.
  assert (is_placeholder (str_of_v4 (PLACEHOLDER_BASE + i)) = true) as Hp by (unfold is_placeholder; by rewrite Hip).
  split_and!; [done| |].
  - unfold address_blocked, ip_blocked. rewrite Hip. apply orb_true_intro. left. apply orb_true_intro. right.
    apply existsb_exists. exists PLACEHOLDER_NET. split; [|done]. vm_compute. tauto.
  - unfold placeholder_name. rewrite Hp, Hip. cbn [negb]. replace (PLACEHOLDER_BASE + i - PLACEHOLDER_BASE) with i by lia.
    rewrite (proj2 (Z.leb_le 1 i)), (proj2 (Z.leb_le i _)), (proj2 (Z.leb_gt _ i)) by lia. done.
Qed.

(** C36: In a restricted session the filter tells the resolvers nothing but names the policy
    allows: every packet it sends goes to one of its upstreams and is a query built
    anew from the name, the type and the ident it drew, for an allowed name that has no
    placeholder.  What it answers is always a response with the ident of the query. *)
Theorem dns_confined (ask : string * Z → list ascii → option (list ascii)) (p : egress_policy)
    (upstreams : list (string * Z)) (f : dns_filter) (query ident : list ascii) (r : option (list ascii)) (out : list sent) :
  ep_mode p = Restricted → gateway_dns p upstreams = Some f → answer ask f query ident = (r, out) →
  from_option (λ r, same_id r query ∧ is_response r = true) True r
  ∧ Forall (λ s, s_to s ∈ upstreams ∧ ∃ q, question_ok q ∧ s_bytes s = build_query q ident ∧ q_class q = CLASS_IN
               ∧ norm_host (q_name q) ∈ ep_allowed p ∧ placeholder p (q_name q) = None) out.
Proof.
  intros Hm Hf Ha. unfold gateway_dns, needs_dns in Hf. rewrite Hm in Hf. injection Hf as <-.
  apply answer_confined in Ha as [Hr Hout]; [|done]. split; [by destruct r|].
  eapply list.Forall_impl; [exact Hout|]. intros s (Hto & q & Hq & Hb & Hne & Hc & _ & Hal & Hpl). split; [done|].
  exists q. cbn [df_allow df_placeholder] in *. unfold allows_name in Hal. rewrite Hm in Hal.
  unfold filter_placeholder in Hpl. cbn [df_placeholder] in Hpl. rewrite decide_False in Hpl by tauto.
  apply bool_decide_eq_true in Hal. done.
Qed.

(** ** Runs *)

(** A restricted session: one host allowed, one private host with a credential. *)
Definition example_policy : egress_policy :=
  EgressPolicy Restricted {["api.example.com"; "git.internal"]}%string ["git.internal"; "10.1.0.0/16"]%string
    {["git.internal"]}%string.
Definition example_gateway : gateway := Gateway example_policy TLS_PORTS HTTP_PORTS.
Definition example_answer (name : string) : option (list string) :=
  if decide (name = "git.internal"%string) then Some ["10.1.2.3"%string]
  else if decide (name = "api.example.com"%string) then Some ["93.184.216.34"%string] else None.
Definition example_stream : list ascii := mjoin (record_bytes (char 1) <$> example_frags).
Definition example_net (data : list ascii) (dest : string) : net :=
  Net (Some (dest, 443)) [PeekWait true; PeekSeen (take 40 data) false; PeekSeen data false] example_answer
    (λ _, false) (λ _, DialOk) None None (λ _, Ok ""%string).
Definition no_special (a : address) : bool := false.
Definition no_requests (data : list ascii) : option (list (list ascii * list ascii)) := None.
Definition git_hello : list ascii :=
  record_bytes (char 1) (hello_message (HelloParts [char 3; char 3] (replicate 32 (char 7)) [] [char 19; char 1] [char 0]
    [ExtName (chars "Git.Internal")])).

Lemma example_run :
  handle no_special no_requests example_gateway (example_net example_stream "93.184.216.34")
  = Some (Handled (Connection (Some "api.example.com"%string) 443 ASplice "" false true)
            (Some (ToSplice ["93.184.216.34"%string] 443)) (Some "93.184.216.34"%string) None).
Proof. vm_compute. reflexivity. Qed.
Lemma git_run :
  handle no_special no_requests example_gateway (example_net git_hello "198.18.0.1")
  = Some (Handled (Connection (Some "git.internal"%string) 443 AIntercept "" false true)
            (Some (ToIntercept "git.internal" 443 ["10.1.2.3"%string] true)) None None).
Proof. vm_compute. reflexivity. Qed.
(** The same name to an address that is not its placeholder's, and a name that is not allowed. *)
Lemma metadata_run :
  handle no_special no_requests example_gateway
    (Net (Some ("198.18.0.2"%string, 443)) [PeekSeen git_hello false] example_answer (λ _, false) (λ _, DialOk) None None
       (λ _, Ok ""%string))
  = Some (turned_away (Connection (Some "git.internal"%string) 443 AReject "placeholder_mismatch" false true)).
Proof. vm_compute. reflexivity. Qed.
Lemma egress_contained_witness :
  ∃ t, hd_target (Handled (Connection (Some "git.internal"%string) 443 AIntercept "" false true)
            (Some (ToIntercept "git.internal" 443 ["10.1.2.3"%string] true)) None None) = Some t
  ∧ (∃ dest port, nt_original (example_net git_hello "198.18.0.1") = Some (dest, port)
     ∧ contained no_special example_policy dest (bool_decide (port ∈ TLS_PORTS))
         (Connection (Some "git.internal"%string) 443 AIntercept "" false true) t).
Proof.
  eexists. split; [reflexivity|].
  exact (proj1 (egress_contained no_special no_requests example_gateway (example_net git_hello "198.18.0.1") _ git_run)).
Defined.
Lemma placeholder_named_witness :
  placeholder example_policy "Git.Internal." = Some "198.18.0.1"%string
  ∧ placeholder_name example_policy "198.18.0.1" = Some "git.internal"%string.
Proof.
  assert (placeholder example_policy "Git.Internal." = Some "198.18.0.1"%string) as H by (vm_compute; reflexivity).
  split; [exact H|]. exact (proj2 (proj2 (placeholder_named no_special example_policy "Git.Internal." "198.18.0.1" H))).
Defined.

Definition example_query : list ascii :=
  [char 171; char 205] ++ query_head ++ mjoin (query_label <$> [chars "API"; chars "Example"; chars "com"])
  ++ [char 0; char 0; char 1; char 0; char 1].
Definition example_filter : dns_filter :=
  DnsFilter (allows_name example_policy) (Some (placeholder example_policy)) false [("10.0.0.53"%string, 53)].
Lemma example_answered : ∃ r, answer (λ _ _, None) example_filter example_query [char 1; char 2]
  = (Some r, [Sent ("10.0.0.53"%string, 53) (build_query (Question "api.example.com" 1 1 33) [char 1; char 2])]).
Proof. eexists. vm_compute. reflexivity. Qed.
Lemma dns_confined_witness :
  Forall (λ s, s_to s ∈ [("10.0.0.53"%string, 53)] ∧ ∃ q, question_ok q ∧ s_bytes s = build_query q [char 1; char 2] ∧ q_class q = CLASS_IN
               ∧ norm_host (q_name q) ∈ ep_allowed example_policy ∧ placeholder example_policy (q_name q) = None)
    [Sent ("10.0.0.53"%string, 53) (build_query (Question "api.example.com" 1 1 33) [char 1; char 2])].
Proof.
  destruct example_answered as [r Hr].
  exact (proj2 (dns_confined (λ _ _, None) example_policy [("10.0.0.53"%string, 53)] example_filter example_query [char 1; char 2]
                  _ _ eq_refl eq_refl Hr)).
Defined.
Lemma question_rebuilt_witness :
  parse_question (build_query (Question "api.example.com" 1 1 33) [char 1; char 2]) = Ok (Question "api.example.com" 1 1 33).
Proof.
  exact (proj2 (question_rebuilt example_query [char 1; char 2]) eq_refl (Question "api.example.com" 1 1 33)
           ltac:(vm_compute; reflexivity) ltac:(discriminate)).
Defined.
