(* ===== verification/Deltas.v ===== *)
(** * The worker's relay of live text (src/src/apipi/worker/deltas.py)

    The fragments a model streams are collected for a moment and sent on as ephemeral
    envelopes.  The relay is shared by the turns and by the task that flushes it, so an
    operation that awaits the socket is a step of its own: [relay_step] is a step of one
    of them, in any order.  Cancelling the task at shutdown is left out. *)

From S2P Require Import Prelude PyStd Protocol Outbox.

Open Scope Z_scope.

Definition DELTA_MAX_TEXT : Z := 4000.
Definition DELTA_PUBLIC_TYPE : string := "agent.session.turn.output_text.delta".

(** ** Splitting a text (`_split`) *)

(** The characters of a text, each the bytes that encode it. *)
Definition glyph_step (c : ascii) (gs : list (list ascii)) : list (list ascii) :=
  match gs with
  | (d :: g) :: rest => if is_cont d then (c :: d :: g) :: rest else [c] :: gs
  | _ => [c] :: gs
  end.
Definition glyphs (l : list ascii) : list (list ascii) := foldr glyph_step [] l.
(** `[text[index:index + limit] for index in range(0, len(text), limit)]` *)
Definition pieces {A} (limit : nat) (l : list A) : list (list A) :=
  (λ k, take limit (drop (k * limit) l)) <$> seq 0 ((length l + limit - 1) / limit).
Definition split_text (limit : Z) (text : list ascii) : list (list ascii) :=
  let gs := glyphs text in
  if (limit <=? 0) || (Z.of_nat (length gs) <=? limit) then [text]
  else (λ piece : list (list ascii), mjoin piece) <$> pieces (Z.to_nat limit) gs.

(** ** The relay *)

Inductive delta_kind : Set := DeltaText | DeltaReasoning.
#[global] Instance delta_kind_eq_dec : EqDecision delta_kind.
Proof. solve_decision. Defined.
Definition kind_name (k : delta_kind) : string :=
  match k with DeltaText => "delta.text" | DeltaReasoning => "delta.reasoning" end.
Abbreviation delta_key := (uuid * uuid * delta_kind)%type (only parsing).

(** `_flush_task`: none or done; in its sleep; sending what it took. *)
Inductive flush_task : Type :=
| Idle
| Sleeping
| Flushing (pending : list (delta_key * list ascii)).
Record relay : Type := Relay {
  rl_send : bool;
  rl_buffers : odict delta_key (list (list ascii));
  rl_seq : gmap uuid Z;
  rl_task : flush_task;
  rl_dropped : Z
}.
Definition new_relay : relay := Relay false ∅ ∅ Idle 0.

(** What becomes of a piece of text: it goes out, or it is dropped. *)
Inductive delta_out : Type :=
| DeltaSent (key : delta_key) (text : list ascii) (e : envelope)
| DeltaDropped (key : delta_key) (text : list ascii) (reason : string).

Definition with_task (r : relay) (t : flush_task) : relay :=
  Relay (rl_send r) (rl_buffers r) (rl_seq r) t (rl_dropped r).
Definition attach (r : relay) : relay := Relay true (rl_buffers r) (rl_seq r) (rl_task r) (rl_dropped r).
Definition detach (r : relay) : relay := Relay false (rl_buffers r) (rl_seq r) (rl_task r) (rl_dropped r).
Definition forget (r : relay) (sid : uuid) : relay :=
  Relay (rl_send r) (ODict (filter (λ p, p.1.1.1 ≠ sid) (oitems (rl_buffers r)))) (delete sid (rl_seq r))
    (rl_task r) (rl_dropped r).
Definition submit (r : relay) (key : delta_key) (text : list ascii) : relay :=
  if decide (text = []) then r
  else
    let parts := default [] (rl_buffers r !! key) in
    Relay (rl_send r) (<[key := parts ++ [text]]> (rl_buffers r)) (rl_seq r)
      (match rl_task r with Idle => Sleeping | t => t end) (rl_dropped r).

(** The pieces a flush is going to send, in order. *)
Definition taken (max_text : Z) (buffers : odict delta_key (list (list ascii))) : list (delta_key * list ascii) :=
  mjoin ((λ p : delta_key * list (list ascii),
    if decide (mjoin p.2 = []) then [] else (λ piece, (p.1, piece)) <$> split_text max_text (mjoin p.2))
    <$> oitems buffers).
Definition wake (max_text : Z) (r : relay) : relay :=
  Relay (rl_send r) ∅ (rl_seq r) (Flushing (taken max_text (rl_buffers r))) (rl_dropped r).

Definition delta_envelope (key : delta_key) (seq : Z) (text : list ascii) : envelope :=
  let '(sid, turn, kind) := key in
  Envelope sid (Some turn) seq (kind_name kind)
    [("turn_id", JStr (str_of_uuid turn)); ("text", JStr (of_chars text))]%string.
(** [broken]: sending raises. *)
Definition emit (r : relay) (key : delta_key) (text : list ascii) (broken : bool) : relay * delta_out :=
  let drop r reason := (Relay (rl_send r) (rl_buffers r) (rl_seq r) (rl_task r) (rl_dropped r + 1),
                        DeltaDropped key text reason) in
  if negb (rl_send r) then drop r "disconnected"%string
  else
    let sid := key.1.1 in
    let last := default 0 (rl_seq r !! sid) + 1 in
    let r := Relay (rl_send r) (rl_buffers r) (<[sid := last]> (rl_seq r)) (rl_task r) (rl_dropped r) in
    let e := delta_envelope key last text in
    if MAX_MESSAGE_BYTES <? envelope_size e then drop r "oversize"%string
    else if broken then drop r "disconnected"%string
    else (r, DeltaSent key text e).

(** ** Steps *)

Inductive relay_op : Type :=
| OpSubmit (key : delta_key) (text : list ascii)
| OpAttach
| OpDetach
| OpForget (sid : uuid)
| OpWake
| OpEmit (broken : bool)
| OpDone.
(** [None]: the operation cannot happen now. *)
Definition relay_step (max_text : Z) (r : relay) (o : relay_op) : option (relay * list delta_out) :=
  match o with
  | OpSubmit key text => Some (submit r key text, [])
  | OpAttach => Some (attach r, [])
  | OpDetach => Some (detach r, [])
  | OpForget sid => Some (forget r sid, [])
  | OpWake => match rl_task r with Sleeping => Some (wake max_text r, []) | _ => None end
  | OpEmit broken =>
      match rl_task r with
      | Flushing ((key, text) :: rest) =>
          let '(r, out) := emit (with_task r (Flushing rest)) key text broken in Some (r, [out])
      | _ => None
      end
  | OpDone => match rl_task r with Flushing [] => Some (with_task r Idle, []) | _ => None end
  end.
Fixpoint relay_run (max_text : Z) (r : relay) (ops : list relay_op) : option (relay * list delta_out) :=
  match ops with
  | [] => Some (r, [])
  | o :: ops =>
      '(r, out) ← relay_step max_text r o;
      '(r, outs) ← relay_run max_text r ops; Some (r, out ++ outs)
  end.

(** ** The bus of a worker's turns (`LiveRedirectBus.publish`) *)

Inductive published : Type :=
| ToRelay (key : delta_key) (text : list ascii)
| ToBus
| ToNobody.
Definition publish (sid : uuid) (relayed : bool) (message : json) : published :=
  if relayed && bool_decide (jstr (jfield "type" message) = Some DELTA_PUBLIC_TYPE)
     && match jfield "seq" message with None | Some JNull => true | _ => false end
  then
    match jfield "data" message with
    | Some (JObj data) =>
        match jget "delta" data with
        | Some (JStr delta) =>
            if decide (delta = ""%string) then ToNobody
            else match uuid_of_string (py_str (default JNull (jget "turn_id" data))) with
            | Some turn => ToRelay (sid, turn, DeltaText) (chars delta)
            | None => ToNobody
            end
        | _ => ToNobody
        end
    | _ => ToNobody
    end
  else ToBus.
(** `live_event_data` *)
Definition live_event_data (message : json) : option (uuid * string) :=
  if decide (jstr (jfield "type" message) ∈ [Some "delta.text"; Some "delta.reasoning"]%string) then
    match jfield "payload" message with
    | Some (JObj payload) =>
        match jget "text" payload with
        | Some (JStr text) =>
            turn ← uuid_of_string (py_str (default JNull (jget "turn_id" payload))); Some (turn, text)
        | _ => None
        end
    | _ => None
    end
  else None.

(** ** Lemmas on the pieces *)

Lemma glyphs_join l : mjoin (glyphs l) = l.
Proof.
  induction l as [|c l IH]; [done|]. cbn [glyphs foldr]. fold (glyphs l). rewrite <- IH at 2. unfold glyph_step.
  destruct (glyphs l) as [|[|d g] rest]; try done. by destruct (is_cont d).
Qed.
(** Each has at most one byte that does not continue a character. *)
Definition starts (l : list ascii) : nat := length (filter (λ c, is_cont c = false) l).
Lemma starts_app l1 l2 : starts (l1 ++ l2) = (starts l1 + starts l2)%nat.
Proof. unfold starts. by rewrite list.filter_app, length_app. Qed.
Lemma starts_cons c l : starts (c :: l) = ((if is_cont c then 0 else 1) + starts l)%nat.
Proof. unfold starts. rewrite filter_cons. destruct (is_cont c); by destruct (decide _). Qed.
Lemma glyphs_starts l : Forall (λ g, starts (drop 1 g) = 0%nat) (glyphs l).
Proof.
  induction l as [|c l IH]; [constructor|]. cbn [glyphs foldr]. fold (glyphs l). unfold glyph_step.
  destruct (glyphs l) as [|[|d g] rest] eqn:E; [by apply Forall_singleton|by constructor|].
  destruct (is_cont d) eqn:Ed; [|by constructor]. apply Forall_cons_1 in IH as [H1 H2]. constructor; [|done].
  cbn [drop] in *. rewrite drop_0 in H1. by rewrite starts_cons, Ed.
Qed.
Lemma join_starts gs : Forall (λ g, starts (drop 1 g) = 0%nat) gs → (starts (mjoin gs) ≤ length gs)%nat.
Proof.
  induction 1 as [|g gs Hg Hgs IH]; [done|]. change (mjoin (g :: gs)) with (g ++ mjoin gs).
  rewrite starts_app. cbn [length]. destruct g as [|c g]; [cbn in *; lia|].
  cbn [drop] in Hg. rewrite drop_0 in Hg. rewrite starts_cons. destruct (is_cont c); lia.
Qed.

Lemma pieces_take {A} (limit : nat) (l : list A) n :
  mjoin ((λ k, take limit (drop (k * limit) l)) <$> seq 0 n) = take (n * limit) l.
Proof.
  induction n as [|n IH]; [done|]. rewrite seq_S, fmap_app, join_app, IH. cbn [plus fmap list_fmap].
  change (mjoin [?x]) with (x ++ []). rewrite app_nil_r, Nat.mul_succ_l, take_take_drop. done.
Qed.
Lemma pieces_join {A} (limit : nat) (l : list A) : (0 < limit)%nat → mjoin (pieces limit l) = l.
Proof.
  intros H. unfold pieces. rewrite pieces_take. apply take_ge.
  pose proof (Nat.div_mod (length l + limit - 1) limit ltac:(lia)) as Hd.
  pose proof (Nat.mod_upper_bound (length l + limit - 1) limit ltac:(lia)). lia.
Qed.
Lemma mjoin_fmap_mjoin (ls : list (list (list ascii))) :
  mjoin ((λ piece : list (list ascii), mjoin piece) <$> ls) = mjoin (mjoin ls).
Proof.
  induction ls as [|l ls IH]; [done|]. change (mjoin (l :: ls)) with (l ++ mjoin ls). rewrite join_app, <- IH. done.
Qed.
Lemma split_join limit text : mjoin (split_text limit text) = text.
Proof.
  unfold split_text. destruct (_ || _) eqn:E; [apply app_nil_r|]. apply orb_false_iff in E as [E _]. apply Z.leb_gt in E.
  rewrite mjoin_fmap_mjoin, pieces_join by lia. apply glyphs_join.
Qed.
Lemma split_short limit text : 0 < limit → Forall (λ t, Z.of_nat (starts t) ≤ limit) (split_text limit text).
Proof.
  intros Hl. pose proof (glyphs_starts text) as Hg. unfold split_text. rewrite (proj2 (Z.leb_gt _ _)) by lia. cbn [orb].
  destruct (Z.leb_spec (Z.of_nat (length (glyphs text))) limit).
  - constructor; [|constructor]. pose proof (join_starts _ Hg). rewrite glyphs_join in *. lia.
  - apply Forall_fmap, Forall_fmap, list.Forall_forall. intros k _. cbn [compose].
    assert (Forall (λ g, starts (drop 1 g) = 0%nat) (take (Z.to_nat limit) (drop (k * Z.to_nat limit) (glyphs text)))) as H'
      by (by apply Forall_take, Forall_drop).
    pose proof (join_starts _ H') as Hj. rewrite length_take in Hj. unfold compose. lia.
Qed.

(** ** Where the text of a turn is *)

Definition sel (k : delta_key) (l : list (delta_key * list ascii)) : list ascii :=
  mjoin ((λ x : delta_key * list ascii, if decide (x.1 = k) then x.2 else []) <$> l).
Definition out_pair (o : delta_out) : delta_key * list ascii :=
  match o with DeltaSent k t _ | DeltaDropped k t _ => (k, t) end.
Definition handled_text (k : delta_key) (outs : list delta_out) : list ascii := sel k (out_pair <$> outs).
Definition inflight (k : delta_key) (r : relay) : list ascii :=
  match rl_task r with Flushing p => sel k p | _ => [] end.
Definition buffered (k : delta_key) (r : relay) : list ascii := mjoin (default [] (rl_buffers r !! k)).
Definition submitted (k : delta_key) (o : relay_op) : list ascii :=
  match o with OpSubmit k' t => if decide (k' = k) then t else [] | _ => [] end.
Definition all_submitted (k : delta_key) (ops : list relay_op) : list ascii :=
  mjoin ((λ o, submitted k o) <$> ops).
Definition forgets (sid : uuid) (o : relay_op) : Prop := o = OpForget sid.

Lemma sel_app k l1 l2 : sel k (l1 ++ l2) = sel k l1 ++ sel k l2.
Proof. unfold sel. by rewrite fmap_app, join_app. Qed.
Lemma sel_cons k x l : sel k (x :: l) = (if decide (x.1 = k) then x.2 else []) ++ sel k l.
Proof. done. Qed.
Lemma sel_pieces k k' (ps : list (list ascii)) :
  sel k ((λ piece, (k', piece)) <$> ps) = if decide (k' = k) then mjoin ps else [].
Proof.
  induction ps as [|p ps IH]; cbn [fmap list_fmap]; [by case_decide|]. rewrite sel_cons, IH. cbn [fst snd]. by case_decide.
Qed.
Lemma handled_app k o1 o2 : handled_text k (o1 ++ o2) = handled_text k o1 ++ handled_text k o2.
Proof. unfold handled_text. by rewrite fmap_app, sel_app. Qed.
Lemma submitted_cons k o ops : all_submitted k (o :: ops) = submitted k o ++ all_submitted k ops.
Proof. done. Qed.
Lemma taken_sel max_text b k : odict_ok b → sel k (taken max_text b) = mjoin (default [] (b !! k)).
Proof.
  unfold odict_ok, okeys, taken, lookup, odict_lookup. destruct b as [l]. cbn [oitems].
  induction l as [|[k' ps] l IH]; [done|]. intros Hok. cbn [fmap list_fmap fst] in Hok. apply list.NoDup_cons in Hok as [Hn Hok].
  specialize (IH Hok). cbn [fmap list_fmap].
  change (mjoin (?x :: ?y)) with (x ++ mjoin y). rewrite sel_app, IH. cbn [lget fst snd].
  assert (sel k (if decide (mjoin ps = []) then [] else (λ piece, (k', piece)) <$> split_text max_text (mjoin ps))
    = if decide (k' = k) then mjoin ps else []) as ->.
  { case_decide as He; [rewrite He; by case_decide|]. by rewrite sel_pieces, split_join. }
  destruct (decide (k' = k)) as [->|]; [|done].
  assert (lget l k = None) as ->; [|by rewrite app_nil_r].
  destruct (lget l k) eqn:E; [|done]. destruct Hn. eapply (elem_of_okeys (ODict l)).
  unfold lookup, odict_lookup. cbn. by rewrite E.
Qed.
Lemma lget_filter k sid (l : list (delta_key * list (list ascii))) : k.1.1 ≠ sid →
  lget (filter (λ p : delta_key * list (list ascii), p.1.1.1 ≠ sid) l) k = lget l k.
Proof.
  intros Hk. induction l as [|[k' v] l IH]; [done|]. rewrite filter_cons. cbn [fst]. case_decide as Hf; cbn [lget].
  - by rewrite IH.
  - rewrite decide_False; [done|]. intros ->. done.
Qed.

(** *** The invariant: the keys are distinct, and counts are what they count *)

Lemma step_ok max_text r o r' out :
  relay_step max_text r o = Some (r', out) → odict_ok (rl_buffers r) → odict_ok (rl_buffers r').
Proof.
  intros H Hok. destruct o as [k t| | |sid| |b|]; cbn [relay_step] in H.
  - injection H as <- <-. unfold submit. case_decide; [done|]. by apply odict_ok_insert.
  - by injection H as <- <-.
  - by injection H as <- <-.
  - injection H as <- <-. unfold forget, odict_ok, okeys. cbn. eapply sublist_NoDup; [exact Hok|]. apply fmap_sublist, sublist_filter.
  - destruct (rl_task r); try done. injection H as <- <-. apply odict_ok_empty.
  - destruct (rl_task r) as [| |[|[k t] rest]]; try done. revert H. unfold emit.
    repeat case_match; intros; simplify_eq; done.
  - destruct (rl_task r) as [| |[|]]; try done. by injection H as <- <-.
Qed.
Lemma step_text max_text r o r' out k :
  relay_step max_text r o = Some (r', out) → odict_ok (rl_buffers r) → ¬ forgets k.1.1 o →
  handled_text k out ++ inflight k r' ++ buffered k r' = inflight k r ++ buffered k r ++ submitted k o.
Proof.
  intros H Hok Hf. destruct o as [k' t| | |sid| |b|]; cbn [relay_step submitted] in *.
  - injection H as <- <-. unfold submit. case_decide as Ht.
    + subst t. destruct (decide (k' = k)); by rewrite app_nil_r.
    + change (handled_text k []) with (@nil ascii). cbn [app]. unfold inflight, buffered. cbn [rl_task rl_buffers].
      rewrite olookup_insert. destruct (decide (k' = k)) as [->|].
      * cbn [default from_option]. unfold id. rewrite join_app. change (mjoin [t]) with (t ++ []). rewrite app_nil_r.
        destruct (rl_task r); by rewrite ?app_assoc.
      * rewrite app_nil_r. by destruct (rl_task r).
  - injection H as <- <-. by rewrite app_nil_r.
  - injection H as <- <-. by rewrite app_nil_r.
  - injection H as <- <-. rewrite app_nil_r. unfold forget, inflight, buffered, lookup, odict_lookup. cbn [rl_task rl_buffers oitems].
    rewrite lget_filter; [done|]. intros E. apply Hf. unfold forgets. by rewrite E.
  - unfold inflight, buffered. destruct (rl_task r); try done. injection H as <- <-. cbn [wake rl_task rl_buffers app].
    rewrite taken_sel, olookup_empty by done. cbn. by rewrite !app_nil_r.
  - destruct (rl_task r) as [| |[|[k' t] rest]] eqn:Ht; try done. destruct (emit _ _ _ _) as [r1 o1] eqn:He.
    injection H as <- <-. rewrite app_nil_r.
    assert (rl_task r1 = Flushing rest ∧ rl_buffers r1 = rl_buffers r ∧ out_pair o1 = (k', t)) as (H1 & H2 & H3).
    { revert He. unfold emit. repeat case_match; intros; simplify_eq; done. }
    unfold inflight, buffered, handled_text. rewrite H1, H2, Ht. cbn [fmap list_fmap]. rewrite H3, !sel_cons.
    change (sel k []) with (@nil ascii). by rewrite app_nil_r, app_assoc.
  - destruct (rl_task r) as [| |[|]] eqn:Ht; try done. injection H as <- <-. unfold inflight, buffered. rewrite Ht.
    cbn. by rewrite !app_nil_r.
Qed.

(** *** Envelopes, numbers and drops *)

Definition good_out (max_text : Z) (o : delta_out) : Prop :=
  match o with
  | DeltaSent k t e => e = delta_envelope k (env_seq e) t ∧ envelope_size e ≤ MAX_MESSAGE_BYTES
                       ∧ Z.of_nat (starts t) ≤ max_text
  | DeltaDropped _ t _ => Z.of_nat (starts t) ≤ max_text
  end.
Definition dropped (o : delta_out) : bool := match o with DeltaDropped _ _ _ => true | _ => false end.
Definition drops (outs : list delta_out) : Z := Z.of_nat (length (filter (λ o, dropped o = true) outs)).
Definition sent_seqs (sid : uuid) (outs : list delta_out) : list Z :=
  omap (λ o, match o with DeltaSent k _ e => if decide (k.1.1 = sid) then Some (env_seq e) else None | _ => None end) outs.
Definition seq_of (sid : uuid) (r : relay) : Z := default 0 (rl_seq r !! sid).
Definition short_task (max_text : Z) (r : relay) : Prop :=
  match rl_task r with Flushing p => Forall (λ x, Z.of_nat (starts x.2) ≤ max_text) p | _ => True end.

Lemma taken_short max_text b : 0 < max_text → Forall (λ x, Z.of_nat (starts x.2) ≤ max_text) (taken max_text b).
Proof.
  intros Hm. unfold taken. induction (oitems b) as [|[k ps] l IH]; [constructor|]. cbn [fmap list_fmap].
  change (mjoin (?x :: ?y)) with (x ++ mjoin y). apply Forall_app. split; [|done].
  case_decide; [constructor|]. apply Forall_fmap. by apply split_short.
Qed.
Lemma step_short max_text r o r' out :
  0 < max_text → relay_step max_text r o = Some (r', out) → short_task max_text r → short_task max_text r'.
Proof.
  intros Hm H Hs. unfold short_task in *. destruct o as [k t| | |sid| |b|]; cbn [relay_step] in H.
  - injection H as <- <-. unfold submit. case_decide; [done|]. cbn. by destruct (rl_task r).
  - by injection H as <- <-.
  - by injection H as <- <-.
  - by injection H as <- <-.
  - destruct (rl_task r); try done. injection H as <- <-. by apply taken_short.
  - destruct (rl_task r) as [| |[|[k t] rest]] eqn:Ht; try done. apply Forall_cons_1 in Hs as [_ Hs]. revert H. unfold emit.
    repeat case_match; intros; simplify_eq; cbn in *; simplify_eq; done.
  - destruct (rl_task r) as [| |[|]]; try done. by injection H as <- <-.
Qed.
Lemma step_out max_text r o r' out :
  relay_step max_text r o = Some (r', out) → short_task max_text r →
  Forall (good_out max_text) out ∧ rl_dropped r' = rl_dropped r + drops out.
Proof.
  intros H Hs. unfold short_task in *. destruct o as [k t| | |sid| |b|]; cbn [relay_step] in H.
  all: try (injection H as <- <-; split; [apply Forall_nil_2|]; unfold submit, drops; try case_decide; cbn; lia).
  - destruct (rl_task r); try done. injection H as <- <-. split; [apply Forall_nil_2|]. unfold drops. cbn. lia.
  - destruct (rl_task r) as [| |[|[k t] rest]] eqn:Ht; try done. apply Forall_cons_1 in Hs as [Hs _]. cbn [snd] in Hs.
    revert H. unfold emit. cbn [rl_send with_task rl_seq rl_dropped].
    destruct (rl_send r); cbn [negb]; [|intros; simplify_eq; split; [by repeat constructor|done]].
    set (e := delta_envelope _ _ _). destruct (Z.ltb_spec MAX_MESSAGE_BYTES (envelope_size e)) as [|Hsize];
      [intros; simplify_eq; split; [by repeat constructor|done]|].
    destruct b; intros; simplify_eq; [split; [by repeat constructor|done]|].
    split; [|change (drops _) with 0; cbn [rl_dropped with_task]; lia]. apply Forall_singleton. cbn. split_and!; [|done|done]. unfold e. by destruct k as [[]].
  - destruct (rl_task r) as [| |[|]]; try done. injection H as <- <-. split; [apply Forall_nil_2|]. unfold drops. cbn. lia.
Qed.
Lemma step_seqs max_text r o r' out sid :
  relay_step max_text r o = Some (r', out) → ¬ forgets sid o →
  increasing (seq_of sid r) (sent_seqs sid out)
  ∧ default (seq_of sid r) (list.last (sent_seqs sid out)) ≤ seq_of sid r'.
Proof.
  intros H Hf. destruct o as [k t| | |sid'| |b|]; cbn [relay_step] in H.
  - injection H as <- <-. unfold submit. case_decide; (split; [done|cbn; unfold seq_of; cbn; lia]).
  - injection H as <- <-. split; [done|]. cbn. unfold seq_of. cbn. lia.
  - injection H as <- <-. split; [done|]. cbn. unfold seq_of. cbn. lia.
  - injection H as <- <-. split; [done|]. unfold forget, seq_of. cbn.
    rewrite lookup_delete_ne; [lia|]. intros ->. by apply Hf.
  - destruct (rl_task r); try done. injection H as <- <-. split; [done|]. cbn. unfold seq_of. cbn. lia.
  - destruct (rl_task r) as [| |[|[k t] rest]] eqn:Ht; try done. destruct (emit _ _ _ _) as [r1 o1] eqn:He.
    injection H as <- <-. destruct (decide (k.1.1 = sid)) as [<-|Hne].
    + revert He. unfold emit. cbn [rl_send with_task rl_seq].
      repeat case_match; intros; simplify_eq; unfold sent_seqs, seq_of; cbn;
        rewrite ?lookup_insert_eq, ?decide_True by done; cbn; try (split; [done|lia]).
      destruct k as [[]]; cbn. rewrite ?lookup_insert_eq. cbn. split; [split; [|done]|]; lia.
    + assert (sent_seqs sid [o1] = [] ∧ seq_of sid r1 = seq_of sid r) as [-> ->].
      { revert He. unfold emit. cbn [rl_send with_task rl_seq].
        repeat case_match; intros; simplify_eq; unfold sent_seqs, seq_of; cbn;
          rewrite ?lookup_insert_ne, ?decide_False by done; done. }
      split; [done|]. cbn. lia.
  - destruct (rl_task r) as [| |[|]]; try done. injection H as <- <-. split; [done|]. cbn. unfold seq_of. cbn. lia.
Qed.

Lemma sent_seqs_app sid o1 o2 : sent_seqs sid (o1 ++ o2) = sent_seqs sid o1 ++ sent_seqs sid o2.
Proof. unfold sent_seqs. by rewrite omap_app. Qed.
Lemma drops_app o1 o2 : drops (o1 ++ o2) = drops o1 + drops o2.
Proof. unfold drops. rewrite list.filter_app, length_app. lia. Qed.

(** ** What the relay does with the text it is given *)

Lemma relay_run_inv max_text r ops r' outs :
  0 < max_text → relay_run max_text r ops = Some (r', outs) → odict_ok (rl_buffers r) → short_task max_text r →
  odict_ok (rl_buffers r') ∧ Forall (good_out max_text) outs ∧ rl_dropped r' = rl_dropped r + drops outs.
Proof.
  intros Hm. revert r outs. induction ops as [|o ops IH]; intros r outs; cbn [relay_run].
  { intros [= <- <-] ? ?. split_and!; [done|apply Forall_nil_2|]. change (drops []) with 0. lia. }
  destruct (relay_step max_text r o) as [[r1 out]|] eqn:H1; [|done]. cbn [mbind option_bind].
  destruct (relay_run max_text r1 ops) as [[r2 outs']|] eqn:H2; [|done]. cbn [mbind option_bind].
  intros [= <- <-] Hok Hs. destruct (step_out _ _ _ _ _ H1 Hs) as [Hg Hd].
  destruct (IH _ _ H2 (step_ok _ _ _ _ _ H1 Hok) (step_short _ _ _ _ _ Hm H1 Hs)) as (Hok' & Hg' & Hd').
  split_and!; [done|by apply Forall_app|]. rewrite drops_app. lia.
Qed.
Lemma run_text max_text r ops r' outs k :
  relay_run max_text r ops = Some (r', outs) → odict_ok (rl_buffers r) → Forall (λ o, ¬ forgets k.1.1 o) ops →
  handled_text k outs ++ inflight k r' ++ buffered k r' = inflight k r ++ buffered k r ++ all_submitted k ops
  ∧ increasing (seq_of k.1.1 r) (sent_seqs k.1.1 outs)
  ∧ default (seq_of k.1.1 r) (list.last (sent_seqs k.1.1 outs)) ≤ seq_of k.1.1 r'.
Proof.
  revert r outs. induction ops as [|o ops IH]; intros r outs; cbn [relay_run].
  { intros [= <- <-] ? ?. unfold handled_text, all_submitted. cbn. rewrite app_nil_r. split_and!; [done|done|lia]. }
  destruct (relay_step max_text r o) as [[r1 out]|] eqn:H1; [|done]. cbn [mbind option_bind].
  destruct (relay_run max_text r1 ops) as [[r2 outs']|] eqn:H2; [|done]. cbn [mbind option_bind].
  intros [= <- <-] Hok [Hf Hall]%Forall_cons_1.
  pose proof (step_text _ _ _ _ _ _ H1 Hok Hf) as Ht. destruct (step_seqs _ _ _ _ _ _ H1 Hf) as [Hs Hl].
  destruct (IH _ _ H2 (step_ok _ _ _ _ _ H1 Hok) Hall) as (Ht' & Hs' & Hl').
  split_and!.
  - rewrite handled_app, <- app_assoc, Ht', submitted_cons, !app_assoc. f_equal. by rewrite <- !app_assoc.
  - rewrite sent_seqs_app. apply increasing_app. split; [done|]. by eapply increasing_weaken.
  - rewrite sent_seqs_app. destruct (list.last (sent_seqs k.1.1 outs')) as [x|] eqn:E.
    + rewrite last_app, E. cbn in *. lia.
    + rewrite last_app, E. cbn in *. pose proof (increasing_last_ge _ _ Hs'). rewrite E in *. cbn in *. lia.
Qed.

(** The relay neither loses nor reorders text on its own.  In every order of
    submitting, flushing, connecting and losing the connection, and as long as a session is
    not forgotten, what was submitted for a turn is, in order: the pieces that went out or were
    dropped, what the flush still has to send, and what is buffered.  Every piece is an
    envelope of its session, turn and text within the limits, the numbers of a session's
    envelopes increase from one, and the drops are counted. *)
Theorem relay_text (max_text : Z) (ops : list relay_op) (r : relay) (outs : list delta_out) (k : uuid * uuid * delta_kind) :
  0 < max_text → relay_run max_text new_relay ops = Some (r, outs) → Forall (λ o, ¬ forgets k.1.1 o) ops →
  all_submitted k ops = handled_text k outs ++ inflight k r ++ buffered k r
  ∧ Forall (good_out max_text) outs
  ∧ increasing 0 (sent_seqs k.1.1 outs)
  ∧ rl_dropped r = drops outs.
Proof.
  intros Hm H Hf. destruct (run_text _ _ _ _ _ k H odict_ok_empty Hf) as (Ht & Hs & _).
  destruct (relay_run_inv _ _ _ _ _ Hm H odict_ok_empty I) as (_ & Hg & Hd).
  split_and!; [by rewrite Ht|done|done|]. by rewrite Hd.
Qed.

(** *** A flush ends, and what comes while it runs *)

Lemma drain max_text pending r :
  rl_task r = Flushing pending → rl_buffers r = ∅ →
  ∃ r' outs, relay_run max_text r (replicate (length pending) (OpEmit false) ++ [OpDone]) = Some (r', outs)
    ∧ rl_task r' = Idle ∧ rl_buffers r' = ∅.
Proof.
  revert r. induction pending as [|[k t] pending IH]; intros r Ht Hb.
  - eexists _, _. cbn [length replicate app relay_run relay_step]. rewrite Ht. cbn. done.
  - cbn [length replicate app relay_run relay_step]. rewrite Ht.
    destruct (emit (with_task r (Flushing pending)) k t false) as [r1 o1] eqn:He.
    assert (rl_task r1 = Flushing pending ∧ rl_buffers r1 = ∅) as [H1 H2].
    { revert He. unfold emit. repeat case_match; intros; simplify_eq; done. }
    destruct (IH _ H1 H2) as (r' & outs & Hr & Hi & He'). exists r', ([o1] ++ outs). cbn [mbind option_bind]. by rewrite Hr.
Qed.
(** A step that is no submission and forgets nothing. *)
Definition quiet (o : relay_op) : Prop :=
  match o with OpSubmit _ _ | OpForget _ => False | _ => True end.
Lemma idle_stays max_text r ops r' outs :
  rl_task r = Idle → Forall quiet ops → relay_run max_text r ops = Some (r', outs) →
  outs = [] ∧ rl_task r' = Idle ∧ rl_buffers r' = rl_buffers r.
Proof.
  revert r outs. induction ops as [|o ops IH]; intros r outs Hi Hq; cbn [relay_run]; [by intros [= <- <-]|].
  apply Forall_cons_1 in Hq as [Ho Hq]. destruct o; cbn [relay_step] in *; try done; rewrite ?Hi; cbn [mbind option_bind]; try done.
  - destruct (relay_run max_text (attach r) ops) as [[r2 outs']|] eqn:H2; [|done]. intros [= <- <-].
    destruct (IH (attach r) outs' Hi Hq H2) as (-> & ? & ?). done.
  - destruct (relay_run max_text (detach r) ops) as [[r2 outs']|] eqn:H2; [|done]. intros [= <- <-].
    destruct (IH (detach r) outs' Hi Hq H2) as (-> & ? & ?). done.
Qed.

Definition tail_key : uuid * uuid * delta_kind := (7%N, 8%N, DeltaText).
Definition tail_ops : list relay_op :=
  [OpAttach; OpSubmit tail_key (chars "a"); OpWake; OpSubmit tail_key (chars "b"); OpEmit false; OpDone].
Lemma tail_run : ∃ r outs, relay_run DELTA_MAX_TEXT new_relay tail_ops = Some (r, outs)
  ∧ buffered tail_key r = chars "b" ∧ rl_task r = Idle ∧ rl_dropped r = 0.
Proof. eexists _, _. split; [vm_compute; reflexivity|]. split_and!; vm_compute; reflexivity. Qed.

(** A fragment is sent on by a flush, unless a flush is already sending.  From every
    state where the task sleeps there is a run of the task alone to its end that leaves
    nothing buffered.  But a fragment that comes while the task sends stays behind: the task
    ends without it, and until something else is submitted no step sends it. *)
Theorem flush_ends_tail_stays (max_text : Z) :
  (∀ r, rl_task r = Sleeping → ∃ n r' outs,
     relay_run max_text r (OpWake :: replicate n (OpEmit false) ++ [OpDone]) = Some (r', outs)
     ∧ rl_task r' = Idle ∧ rl_buffers r' = ∅)
  ∧ (∃ (k : uuid * uuid * delta_kind) ops r outs,
     relay_run DELTA_MAX_TEXT new_relay ops = Some (r, outs) ∧ Forall (λ o, ¬ forgets k.1.1 o) ops
     ∧ buffered k r = chars "b" ∧ rl_task r = Idle ∧ rl_dropped r = 0
     ∧ ∀ ops' r' outs', Forall quiet ops' → relay_run DELTA_MAX_TEXT r ops' = Some (r', outs') →
       outs' = [] ∧ buffered k r' = chars "b").
Proof.
  split.
  - intros r Hs. cbn [relay_run relay_step]. rewrite Hs. cbn [mbind option_bind].
    destruct (drain max_text (taken max_text (rl_buffers r)) (wake max_text r) eq_refl eq_refl) as (r' & outs & H & ? & ?).
    exists (length (taken max_text (rl_buffers r))), r', outs. rewrite H. done.
  - exists tail_key, tail_ops. destruct tail_run as (r & outs & Hr & Hb & Hi & Hd). exists r, outs.
    split_and!; [exact Hr|repeat constructor; intros [=]|done|done|done|].
    intros ops' r' outs' Hq Hr'. destruct (idle_stays _ _ _ _ _ Hi Hq Hr') as (-> & _ & He). split; [done|].
    unfold buffered. by rewrite He.
Qed.

Lemma relay_text_witness : ∃ r outs,
  relay_run DELTA_MAX_TEXT new_relay tail_ops = Some (r, outs)
  ∧ chars "ab" = handled_text tail_key outs ++ inflight tail_key r ++ buffered tail_key r.
Proof.
  destruct tail_run as (r & outs & Hr & _). exists r, outs. split; [exact Hr|].
  exact (proj1 (relay_text DELTA_MAX_TEXT tail_ops r outs tail_key eq_refl Hr
                  ltac:(repeat constructor; intros [=]))).
Defined.
