(* ===== verification/Writer.v ===== *)
(** * Writing to a worker's socket (src/src/apipi/workerhub/writer.py)

    Every frame to a worker goes through one bounded queue and the task that empties it.
    A frame that was queued is numbered here, and the future its sender waits for has the
    same number.  The task and the senders interleave, so what happens between two awaits is a
    step; how a write ends is an argument of the step.  A frame is whatever is sent. *)

From S2P Require Import Prelude PyStd.

Section writer.
(** The frames. *)
Context {F : Type}.

Inductive write_error : Set := ConnectionClosed | SendQueueFull | WriteTimedOut | WriteRaised.
(** What a future is settled with. *)
Inductive settled : Set := Delivered | Failed (e : write_error).

Record entry : Type := Entry { en_id : nat; en_frame : F; en_waited : bool }.
(** `_task`: none; at `queue.get()`; in the write of an entry; ended by a failure. *)
Inductive writer_task : Type := NoTask | Waiting | Writing (e : entry) | Ended.
Record writer : Type := Writer {
  wr_limit : nat;
  wr_queue : list entry;
  wr_task : writer_task;
  wr_failure : option write_error;
  (* a `stop` that waits for the task it cancelled, and what that task was writing *)
  wr_stopping : option (option entry);
  wr_next : nat
}.
Definition new_writer (limit : nat) : writer := Writer limit [] NoTask None None 0.

(** What a step does: a frame is queued, goes out to the socket, a future is settled, a
    sender gets an exception, the connection is asked to close. *)
Inductive event : Type :=
| Queued (e : entry)
| Wrote (e : entry)
| Skipped (e : entry)
| WroteInline (f : F)
| Settled (id : nat) (s : settled)
| Raised (e : write_error)
| CloseAsked.

(** `_settle` *)
Definition settle (e : entry) (s : settled) : list event := if en_waited e then [Settled (en_id e) s] else [].
(** `_fail_pending` *)
Definition fail_pending (w : writer) (err : write_error) : writer * list event :=
  (Writer (wr_limit w) [] (wr_task w) (wr_failure w) (wr_stopping w) (wr_next w),
   mjoin ((λ e, settle e (Failed err)) <$> wr_queue w)).

(** `_enqueue`, with the number of the new entry. *)
Definition enqueue (w : writer) (f : F) (waited : bool) : writer * list event :=
  match wr_failure w with
  | Some _ => (w, [Raised ConnectionClosed])
  | None =>
      if decide (wr_limit w ≤ length (wr_queue w))%nat then (w, [CloseAsked; Raised SendQueueFull])
      else
        let e := Entry (wr_next w) f waited in
        (Writer (wr_limit w) (wr_queue w ++ [e]) (wr_task w) (wr_failure w) (wr_stopping w) (S (wr_next w)),
         [Queued e])
  end.

(** How a write ends; [WriteSkipped]: the socket was not connected, which counts as written. *)
Inductive write_end : Set := WriteOk | WriteSkipped | WriteTimeout | WriteError.
(** `_send_inline`: before the task was started. *)
Definition send_inline (f : F) (how : write_end) : list event :=
  match how with
  | WriteOk => [WroteInline f]
  | WriteSkipped => []
  | WriteTimeout => [CloseAsked; Raised WriteTimedOut]
  | WriteError => [Raised WriteRaised]
  end.
Definition with_task (w : writer) (t : writer_task) : writer :=
  Writer (wr_limit w) (wr_queue w) t (wr_failure w) (wr_stopping w) (wr_next w).
Definition write_failed (w : writer) (e : entry) (err : write_error) : writer * list event :=
  let w := Writer (wr_limit w) (wr_queue w) Ended (Some err) (wr_stopping w) (wr_next w) in
  let '(w, out) := fail_pending w err in (w, settle e (Failed err) ++ out).

Inductive writer_op : Type :=
| Start
| Send (f : F) (how : write_end)
| Submit (f : F)
| SendNowait (f : F) (how : write_end)
| Get
| WriteEnds (how : write_end)
| StopBegins
| StopEnds (went_out : bool).  (* whether the cancelled write had reached the socket *)
Definition raised (ev : event) : bool := match ev with Raised _ => true | _ => false end.
Definition quietly (p : writer * list event) : writer * list event := (p.1, filter (λ ev, raised ev = false) p.2).
(** [None]: the step cannot happen now.  A writer that stops is not started again before
    it has. *)
Definition writer_step (w : writer) (o : writer_op) : option (writer * list event) :=
  match o with
  | Start =>
      match wr_task w, wr_stopping w with
      | NoTask, None => Some (with_task w Waiting, [])
      | NoTask, Some _ => None
      | _, _ => Some (w, [])
      end
  | Send f how => Some (match wr_task w with NoTask => (w, send_inline f how) | _ => enqueue w f true end)
  | Submit f => Some (enqueue w f true)
  | SendNowait f how =>
      Some (quietly (match wr_task w with NoTask => (w, send_inline f how) | _ => enqueue w f false end))
  | Get =>
      match wr_task w, wr_queue w with
      | Waiting, e :: rest => Some (Writer (wr_limit w) rest (Writing e) (wr_failure w) (wr_stopping w) (wr_next w), [])
      | _, _ => None
      end
  | WriteEnds how =>
      match wr_task w with
      | Writing e =>
          Some match how with
          | WriteOk => (with_task w Waiting, Wrote e :: settle e Delivered)
          | WriteSkipped => (with_task w Waiting, Skipped e :: settle e Delivered)
          | WriteTimeout => let '(w, out) := write_failed w e WriteTimedOut in (w, CloseAsked :: out)
          | WriteError => write_failed w e WriteRaised
          end
      | _ => None
      end
  | StopBegins =>
      match wr_task w with
      | NoTask => Some (fail_pending w (default ConnectionClosed (wr_failure w)))
      | t => Some (Writer (wr_limit w) (wr_queue w) NoTask (wr_failure w)
                     (Some (match t with Writing e => Some e | _ => None end)) (wr_next w), [])
      end
  | StopEnds went_out =>
      match wr_stopping w with
      | None => None
      | Some taken =>
          let w := Writer (wr_limit w) (wr_queue w) (wr_task w) (wr_failure w) None (wr_next w) in
          let '(w, out) := fail_pending w (default ConnectionClosed (wr_failure w)) in
          Some (w, match taken with
                   | Some e => (if went_out then [Wrote e] else []) ++ settle e (Failed ConnectionClosed)
                   | None => [] end ++ out)
      end
  end.
Fixpoint writer_run (w : writer) (ops : list writer_op) : option (writer * list event) :=
  match ops with
  | [] => Some (w, [])
  | o :: ops => '(w, out) ← writer_step w o; '(w, outs) ← writer_run w ops; Some (w, out ++ outs)
  end.

(** ** What the events say *)

Definition queued (outs : list event) : list entry := omap (λ ev, match ev with Queued e => Some e | _ => None end) outs.
Definition wrote (outs : list event) : list entry := omap (λ ev, match ev with Wrote e => Some e | _ => None end) outs.
Definition settled_ids (outs : list event) : list nat :=
  omap (λ ev, match ev with Settled id _ => Some id | _ => None end) outs.
Definition waited (l : list entry) : list nat := en_id <$> filter (λ e, en_waited e = true) l.
(** What has been taken off the queue and is not done, and what is still in it. *)
Definition in_hand (w : writer) : list entry :=
  match wr_task w, wr_stopping w with
  | Writing e, _ => [e]
  | _, Some (Some e) => [e]
  | _, _ => []
  end.
Definition pending (w : writer) : list entry := in_hand w ++ wr_queue w.

Lemma queued_app o1 o2 : queued (o1 ++ o2) = queued o1 ++ queued o2.
Proof. apply omap_app. Qed.
Lemma wrote_app o1 o2 : wrote (o1 ++ o2) = wrote o1 ++ wrote o2.
Proof. apply omap_app. Qed.
Lemma settled_app o1 o2 : settled_ids (o1 ++ o2) = settled_ids o1 ++ settled_ids o2.
Proof. apply omap_app. Qed.
Lemma waited_app l1 l2 : waited (l1 ++ l2) = waited l1 ++ waited l2.
Proof. unfold waited. by rewrite list.filter_app, fmap_app. Qed.
Lemma settle_ids e s : settled_ids (settle e s) = waited [e] ∧ queued (settle e s) = [] ∧ wrote (settle e s) = [].
Proof. unfold settle, waited. rewrite filter_cons. by destruct (en_waited e). Qed.
Lemma fail_ids l err :
  settled_ids (mjoin ((λ e, settle e (Failed err)) <$> l)) = waited l
  ∧ queued (mjoin ((λ e, settle e (Failed err)) <$> l)) = []
  ∧ wrote (mjoin ((λ e, settle e (Failed err)) <$> l)) = [].
Proof.
  induction l as [|e l (IH1 & IH2 & IH3)]; [done|]. change (waited (e :: l)) with (waited ([e] ++ l)). cbn [fmap list_fmap].
  change (mjoin (?x :: ?y)) with (x ++ mjoin y). destruct (settle_ids e (Failed err)) as (H1 & H2 & H3).
  rewrite settled_app, queued_app. rewrite wrote_app, waited_app, IH1, IH2, IH3, H1, H2, H3. done.
Qed.

(** *** The invariant, relative to what has happened *)

Record writer_inv (w : writer) (outs : list event) : Prop := {
  wi_order : wrote outs ++ pending w `sublist_of` queued outs;
  wi_ids : en_id <$> queued outs = seq 0 (wr_next w);
  wi_settled : waited (queued outs) ≡ₚ settled_ids outs ++ waited (pending w);
  wi_limit : (length (wr_queue w) ≤ wr_limit w)%nat;
  wi_failed : wr_failure w ≠ None → wr_queue w = [] ∧ ∀ e, wr_task w ≠ Writing e;
  wi_stopping : wr_stopping w ≠ None → wr_task w = NoTask
}.

Lemma inv_new limit : writer_inv (new_writer limit) [].
Proof. split; cbn; try done; lia. Qed.

(** Each step, given what it queues, writes and settles. *)
Lemma inv_step w outs w' out :
  writer_inv w outs →
  wrote out ++ pending w' `sublist_of` pending w ++ queued out →
  en_id <$> queued out = seq (wr_next w) (wr_next w' - wr_next w) → (wr_next w ≤ wr_next w')%nat →
  waited (pending w) ++ waited (queued out) ≡ₚ settled_ids out ++ waited (pending w') →
  (length (wr_queue w') ≤ wr_limit w')%nat →
  (wr_failure w' ≠ None → wr_queue w' = [] ∧ ∀ e, wr_task w' ≠ Writing e) →
  (wr_stopping w' ≠ None → wr_task w' = NoTask) →
  writer_inv w' (outs ++ out).
Proof.
  intros [] Ho Hi Hn Hs Hl Hf Hst. split; [| | |done..].
  - rewrite wrote_app, queued_app, <- app_assoc. etransitivity; [apply sublist_app; [reflexivity|exact Ho]|].
    rewrite app_assoc. by apply sublist_app.
  - rewrite queued_app, fmap_app, wi_ids0, Hi. rewrite <- seq_app. f_equal. lia.
  - rewrite queued_app, waited_app, settled_app, wi_settled0, <- !app_assoc. by rewrite Hs.
Qed.
(** Nothing is queued, written or settled. *)
Lemma inv_silent w outs out :
  writer_inv w outs → wrote out = [] → queued out = [] → settled_ids out = [] → writer_inv w (outs ++ out).
Proof.
  intros Hi Hw Hq Hs. apply (inv_step w); rewrite ?Hw, ?Hq, ?Hs, ?Nat.sub_diag, ?app_nil_r; try apply Hi; try done.
Qed.
Lemma inv_enqueue w outs f b w' out :
  writer_inv w outs → enqueue w f b = (w', out) → writer_inv w' (outs ++ out).
Proof.
  intros Hi. unfold enqueue. destruct (wr_failure w) eqn:Hfail; [intros [= <- <-]; by apply inv_silent|].
  case_decide as Hlim; intros [= <- <-]; [by apply inv_silent|].
  set (e := Entry _ _ _). set (w' := Writer _ _ _ _ _ _).
  assert (pending w' = pending w ++ [e]) as Hp by (unfold pending, in_hand, w'; cbn; by rewrite app_assoc).
  apply (inv_step w); rewrite ?Hp; try done.
  - cbn [wr_next w']. by replace (S (wr_next w) - wr_next w)%nat with 1%nat by lia.
  - cbn. lia.
  - by rewrite waited_app.
  - cbn. rewrite length_app. cbn. lia.
  - apply Hi.
Qed.
Lemma inv_ext w outs outs' :
  wrote outs = wrote outs' → queued outs = queued outs' → settled_ids outs = settled_ids outs' →
  writer_inv w outs → writer_inv w outs'.
Proof. intros Hw Hq Hs []. split; by rewrite <- ?Hw, <- ?Hq, <- ?Hs. Qed.
Lemma quiet_events out :
  wrote (filter (λ ev, raised ev = false) out) = wrote out
  ∧ queued (filter (λ ev, raised ev = false) out) = queued out
  ∧ settled_ids (filter (λ ev, raised ev = false) out) = settled_ids out.
Proof.
  induction out as [|ev out (H1 & H2 & H3)]; [done|]. rewrite filter_cons. destruct ev; cbn [raised]; try (by rewrite decide_False);
    rewrite decide_True by done; unfold wrote, queued, settled_ids in *; cbn [omap list_omap]; by rewrite ?H1, ?H2, ?H3.
Qed.
Lemma inv_quietly w outs p : writer_inv p.1 (outs ++ p.2) → p.1 = w → writer_inv (quietly p).1 (outs ++ (quietly p).2).
Proof.
  intros Hi <-. destruct p as [w out]. cbn in *. destruct (quiet_events out) as (H1 & H2 & H3).
  eapply inv_ext; [..|exact Hi]; by rewrite ?wrote_app, ?queued_app, ?settled_app, ?H1, ?H2, ?H3.
Qed.
Lemma inline_silent f how : wrote (send_inline f how) = [] ∧ queued (send_inline f how) = [] ∧ settled_ids (send_inline f how) = [].
Proof. by destruct how. Qed.

(** What is done with the entry in hand, and with the queue. *)
Lemma inv_hand w outs w' out e (drop : bool) :
  writer_inv w outs → in_hand w = [e] → in_hand w' = [] → wr_next w' = wr_next w → wr_limit w' = wr_limit w →
  wr_queue w' = (if drop then [] else wr_queue w) →
  queued out = [] → settled_ids out ≡ₚ waited [e] ++ (if drop then waited (wr_queue w) else []) →
  (wrote out = [] ∨ wrote out = [e]) →
  (wr_failure w' ≠ None → wr_queue w' = [] ∧ ∀ e, wr_task w' ≠ Writing e) →
  (wr_stopping w' ≠ None → wr_task w' = NoTask) →
  writer_inv w' (outs ++ out).
Proof.
  intros Hi Hh Hh' Hn Hl Hq Hqo Hs Hw Hf Hst. apply (inv_step w); try done; unfold pending; rewrite ?Hh, ?Hh', ?Hqo, ?Hn, ?app_nil_r.
  - destruct drop; rewrite Hq; destruct Hw as [->| ->]; cbn; rewrite ?app_nil_r.
    1: apply sublist_nil_l. 1: apply sublist_skip, sublist_nil_l || (constructor; apply sublist_nil_l). 1: by apply sublist_cons. done.
  - by rewrite Nat.sub_diag.
  - lia.
  - rewrite Hs, Hq, waited_app. destruct drop; cbn [app]; by rewrite ?app_nil_r.
  - rewrite Hl, Hq. destruct drop; [cbn; lia|apply Hi].
Qed.
Lemma inv_failed w outs e err w' out :
  writer_inv w outs → wr_task w = Writing e → write_failed w e err = (w', out) → writer_inv w' (outs ++ out).
Proof.
  intros Hi Ht. unfold write_failed, fail_pending. intros [= <- <-]. destruct (fail_ids (wr_queue w) err) as (H1 & H2 & H3).
  destruct (settle_ids e (Failed err)) as (H4 & H5 & H6).
  assert (wr_stopping w = None) as Hs.
  { destruct (wr_stopping w) eqn:E; [|done]. pose proof (wi_stopping _ _ Hi ltac:(by rewrite E)). congruence. }
  apply (inv_hand w outs _ _ e true); try done; cbn.
  - unfold in_hand. by rewrite Ht.
  - unfold in_hand. cbn. by rewrite Hs.
  - by rewrite queued_app, H5, H2.
  - by rewrite settled_app, H4, H1.
  - left. by rewrite wrote_app, H6, H3.
Qed.
Lemma inv_stop w outs err :
  writer_inv w outs → wr_task w = NoTask →
  writer_inv (fail_pending w err).1 (outs ++ (fail_pending w err).2).
Proof.
  intros Hi Ht. unfold fail_pending. cbn [fst snd]. destruct (fail_ids (wr_queue w) err) as (H1 & H2 & H3).
  set (w1 := Writer _ _ _ _ _ _). assert (pending w1 = in_hand w) as Hp by (unfold pending, in_hand; cbn; by rewrite app_nil_r).
  apply (inv_step w); rewrite ?H1, ?H2, ?H3, ?Hp, ?Nat.sub_diag; try done; unfold pending; rewrite ?app_nil_r.
  - by apply sublist_inserts_r.
  - rewrite waited_app. apply Permutation_app_comm.
  - cbn. lia.
  - intros _. split; [done|]. cbn. by rewrite Ht.
Qed.
Lemma step_inv w outs o w' out :
  writer_inv w outs → writer_step w o = Some (w', out) → writer_inv w' (outs ++ out) ∧ wr_limit w' = wr_limit w.
Proof.
  intros Hi Hstep. destruct o as [|f how|f|f how| |how| |b]; cbn [writer_step] in Hstep.
  - assert (∀ w1, w1 = w → writer_inv w1 (outs ++ []) ∧ wr_limit w1 = wr_limit w) as Hsame.
    { intros w1 ->. by rewrite app_nil_r. }
    destruct (wr_task w) eqn:Ht; [|injection Hstep as <- <-; by apply Hsame..].
    destruct (wr_stopping w) eqn:Hs; [done|]. injection Hstep as <- <-. split; [|done].
    assert (pending (with_task w Waiting) = pending w) as Hp by (unfold pending, in_hand; cbn; by rewrite Hs, Ht).
    apply (inv_step w); rewrite ?Hp, ?Nat.sub_diag, ?app_nil_r; try done; try apply Hi.
    + intros Hf. split; [by apply (wi_failed _ _ Hi)|done].
  - destruct (wr_task w).
    1: injection Hstep as <- <-; destruct (inline_silent f how) as (? & ? & ?); split; [by apply inv_silent|done].
    all: injection Hstep as Heq; split; [by eapply inv_enqueue|]; revert Heq; unfold enqueue; repeat case_match; intros [= <- <-]; done.
  - injection Hstep as Heq. split; [by eapply inv_enqueue|]. revert Heq; unfold enqueue; repeat case_match; intros [= <- <-]; done.
  - apply (inj Some) in Hstep as Heq. set (p := match wr_task w with NoTask => (w, send_inline f how) | _ => enqueue w f false end) in Heq.
    assert (writer_inv p.1 (outs ++ p.2) ∧ wr_limit p.1 = wr_limit w) as [H1 H2].
    { unfold p. destruct (wr_task w).
      1: destruct (inline_silent f how) as (? & ? & ?); split; [by apply inv_silent|done].
      all: split; [eapply inv_enqueue; [done|apply surjective_pairing]|unfold enqueue; repeat case_match; done]. }
    assert (w' = (quietly p).1 ∧ out = (quietly p).2) as [-> ->] by by rewrite Heq. split; [|done]. by apply (inv_quietly p.1).
  - destruct (wr_task w) as [| |e|] eqn:Ht; try done. destruct (wr_queue w) as [|e rest] eqn:Hq; [done|].
    injection Hstep as <- <-. split; [|done].
    assert (wr_stopping w = None) as Hs.
    { destruct (wr_stopping w) eqn:E; [|done]. pose proof (wi_stopping _ _ Hi ltac:(by rewrite E)). congruence. }
    set (w1 := Writer _ _ _ _ _ _).
    assert (pending w1 = pending w) as Hp by (unfold pending, in_hand, w1; cbn; by rewrite Hs, Ht, Hq).
    apply (inv_step w); rewrite ?Hp, ?Nat.sub_diag, ?app_nil_r; try done; cbn.
    + pose proof (wi_limit _ _ Hi) as Hl. rewrite Hq in Hl. cbn in Hl. lia.
    + intros Hf. destruct (wi_failed _ _ Hi Hf). congruence.
  - destruct (wr_task w) as [| |e|] eqn:Ht; try done.
    assert (wr_stopping w = None) as Hs.
    { destruct (wr_stopping w) eqn:E; [|done]. pose proof (wi_stopping _ _ Hi ltac:(by rewrite E)). congruence. }
    assert (in_hand w = [e] ∧ in_hand (with_task w Waiting) = []) as [Hh Hh'] by (unfold in_hand; cbn; by rewrite Ht, Hs).
    destruct (settle_ids e Delivered) as (H4 & H5 & H6).
    assert (wr_failure w ≠ None → False) as Hnf.
    { intros Hf. destruct (wi_failed _ _ Hi Hf) as [_ Hw]. by destruct (Hw e). }
    destruct how; apply (inj Some) in Hstep as Heq.
    + injection Heq as <- <-. split; [|done].
      assert (settled_ids (Wrote e :: settle e Delivered) = waited [e]) as Hset by exact H4.
      assert (wrote (Wrote e :: settle e Delivered) = [e]) as Hwr by (unfold wrote in *; cbn; by rewrite H6).
      apply (inv_hand w outs _ _ e false); rewrite ?Hset, ?Hwr, ?app_nil_r; try done; by right.
    + injection Heq as <- <-. split; [|done].
      assert (settled_ids (Skipped e :: settle e Delivered) = waited [e]) as Hset by exact H4.
      apply (inv_hand w outs _ _ e false); rewrite ?Hset, ?app_nil_r; try done; by left.
    + destruct (write_failed w e WriteTimedOut) as [w1 out1] eqn:Hw. injection Heq as <- <-. split.
      * eapply inv_ext; [..|eapply inv_failed; [exact Hi|exact Ht|exact Hw]];
          by rewrite ?wrote_app, ?queued_app, ?settled_app.
      * revert Hw. unfold write_failed, fail_pending. by intros [= <- <-].
    + split; [by eapply inv_failed|]. revert Heq. unfold write_failed, fail_pending. by intros [= <- <-].
  - destruct (wr_task w) as [| |e|] eqn:Ht.
    { apply (inj Some) in Hstep as Heq. pose proof (inv_stop w outs (default ConnectionClosed (wr_failure w)) Hi Ht) as Hst.
      rewrite Heq in Hst. split; [done|]. by injection Heq as <- _. }
    all: injection Hstep as <- <-; split; [|done];
      assert (wr_stopping w = None) as Hs by (destruct (wr_stopping w) eqn:E; [|done];
        pose proof (wi_stopping _ _ Hi ltac:(by rewrite E)); congruence);
      match goal with |- writer_inv ?x _ => assert (pending x = pending w) as Hp
        by (unfold pending, in_hand; cbn; by rewrite Ht, ?Hs) end;
      apply (inv_step w); rewrite ?Hp, ?Nat.sub_diag, ?app_nil_r; try done; try apply Hi;
      intros Hf; split; [by apply (wi_failed _ _ Hi)|done].
  - destruct (wr_stopping w) as [taken|] eqn:Hs; [|done]. pose proof (wi_stopping _ _ Hi ltac:(by rewrite Hs)) as Ht.
    cbn [fail_pending wr_queue] in Hstep. unfold fail_pending in Hstep. cbn in Hstep. injection Hstep as <- <-. split; [|done].
    destruct (fail_ids (wr_queue w) (default ConnectionClosed (wr_failure w))) as (H1 & H2 & H3).
    destruct taken as [e|].
    + destruct (settle_ids e (Failed ConnectionClosed)) as (H4 & H5 & H6). set (out1 := mjoin _) in *.
      assert (wrote (((if b then [Wrote e] else []) ++ settle e (Failed ConnectionClosed)) ++ out1) = (if b then [e] else [])) as Hw
        by (rewrite !wrote_app, H3, H6, !app_nil_r; by destruct b).
      assert (settled_ids (((if b then [Wrote e] else []) ++ settle e (Failed ConnectionClosed)) ++ out1) = waited [e] ++ waited (wr_queue w)) as Hset
        by (rewrite !settled_app, H1, H4; by destruct b).
      apply (inv_hand w outs _ _ e true); rewrite ?Hw, ?Hset; try done.
      * unfold in_hand. by rewrite Ht, Hs.
      * unfold in_hand. cbn. by rewrite Ht.
      * rewrite !queued_app, H2, H5. by destruct b.
      * destruct b; auto.
      * intros _. split; [done|]. cbn. by rewrite Ht.
    + cbn [app]. set (w1 := Writer _ _ _ _ _ _).
      assert (pending w1 = [] ∧ pending w = wr_queue w) as [Hp Hp'] by (unfold pending, in_hand; cbn; by rewrite Ht, Hs).
      apply (inv_step w); rewrite ?H1, ?H2, ?H3, ?Hp, ?Hp', ?Nat.sub_diag, ?app_nil_r; try done.
      * apply sublist_nil_l.
      * cbn. lia.
      * intros _. split; [done|]. cbn. by rewrite Ht.
Qed.
Lemma writer_run_inv w outs ops w' out :
  writer_inv w outs → writer_run w ops = Some (w', out) → writer_inv w' (outs ++ out) ∧ wr_limit w' = wr_limit w.
Proof.
  revert w outs out. induction ops as [|o ops IH]; intros w outs out Hi; cbn [writer_run].
  { intros [= <- <-]. by rewrite app_nil_r. }
  destruct (writer_step w o) as [[w1 out1]|] eqn:H1; [|done]. cbn [mbind option_bind].
  destruct (writer_run w1 ops) as [[w2 out2]|] eqn:H2; [|done]. cbn [mbind option_bind]. intros [= <- <-].
  destruct (step_inv _ _ _ _ _ Hi H1) as [Hi1 Hl1]. destruct (IH _ _ _ Hi1 H2) as [Hi2 Hl2].
  rewrite app_assoc. split; [done|congruence].
Qed.
Lemma stop_ends_empty w b w' out : writer_step w (StopEnds b) = Some (w', out) → wr_task w = NoTask → pending w' = [].
Proof.
  cbn [writer_step]. destruct (wr_stopping w); [|done]. unfold fail_pending. cbn. intros [= <- <-] Ht.
  unfold pending, in_hand. cbn. by rewrite Ht.
Qed.

(** C38: The writer of a connection.  In every order of sends, writes, failures and a stop, the
    queued frames reach the socket in the order they were queued, none twice, and what
    is pending comes after what was written; the queue keeps to its limit; every future is
    settled at most once, and those that are not belong to the frames still pending; a
    failure leaves nothing in the queue, and a stop that ends leaves no future unsettled. *)
Theorem writer_exact (limit : nat) (ops : list writer_op) (w : writer) (outs : list event) :
  writer_run (new_writer limit) ops = Some (w, outs) →
  wrote outs ++ pending w `sublist_of` queued outs ∧ NoDup (en_id <$> queued outs)
  ∧ (length (wr_queue w) ≤ limit)%nat
  ∧ waited (queued outs) ≡ₚ settled_ids outs ++ waited (pending w)
  ∧ (wr_failure w ≠ None → wr_queue w = [])
  ∧ ∀ b w' out, writer_step w (StopEnds b) = Some (w', out) →
      waited (queued (outs ++ out)) ≡ₚ settled_ids (outs ++ out).
Proof.
  intros H. destruct (writer_run_inv _ [] _ _ _ (inv_new limit) H) as [Hi Hl]. cbn [app] in Hi. pose proof Hi as Hi'. destruct Hi.
  split_and!; [done| | |done| |].
  - rewrite wi_ids0. apply NoDup_seq.
  - by rewrite Hl in wi_limit0.
  - intros Hf. by apply wi_failed0.
  - intros b w' out Hs. destruct (step_inv _ _ _ _ _ Hi' Hs) as [Hi2 _].
    pose proof (wi_settled _ _ Hi2) as Hset. rewrite (stop_ends_empty _ _ _ _ Hs) in Hset.
    + change (waited []) with (@nil nat) in Hset. by rewrite app_nil_r in Hset.
    + apply wi_stopping0. cbn [writer_step] in Hs. by destruct (wr_stopping w).
Qed.
End writer.
Arguments writer : clear implicits.
Arguments writer_op : clear implicits.
Arguments event : clear implicits.
Arguments entry : clear implicits.

(** Two frames of which the second waits, a write that times out, and a frame that comes too late. *)
Definition example_ops : list (writer_op nat) :=
  [Start; Send 10%nat WriteOk; SendNowait 11%nat WriteOk; Submit 12%nat; Get; WriteEnds WriteOk; Get; WriteEnds WriteTimeout;
   Submit 13%nat].
Lemma writer_example_run : writer_run (new_writer 2) example_ops
  = Some (Writer 2 [] Ended (Some WriteTimedOut) None 2,
      [Queued (Entry 0 10%nat true); Queued (Entry 1 11%nat false); CloseAsked; Raised SendQueueFull;
       Wrote (Entry 0 10%nat true); Settled 0 Delivered; CloseAsked; Raised ConnectionClosed]).
Proof. vm_compute. reflexivity. Qed.
Lemma writer_exact_witness :
  wrote [Queued (Entry 0 10%nat true); Queued (Entry 1 11%nat false); CloseAsked; Raised SendQueueFull;
       Wrote (Entry 0 10%nat true); Settled 0 Delivered; CloseAsked; Raised ConnectionClosed]
  `sublist_of` [Entry 0 10%nat true; Entry 1 11%nat false].
Proof. exact (proj1 (writer_exact 2 example_ops _ _ writer_example_run)). Defined.
