(* ===== verification/Pool.v ===== *)
(** * The pool of a worker's sandboxes (src/src/apipi/worker/pi/pool.py)

    One agent process per session, started when a turn asks for it and killed when it
    is idle, dead, replaced or told to stop.  Several tasks use the pool at once, so
    what happens between two awaits is one step of [pool_step].  The dicts that
    `_store_proc` fills and `_kill` empties together are one record, [slot].  Whether a
    process lives, a spawn succeeds or a hook raises is told by the step; the clock's
    readings are arguments.  Metrics, spans, transitions and the lifecycle export are left
    out. *)

From S2P Require Import Prelude PyStd.

Open Scope Z_scope.

Record pool_config : Type := PoolConfig {
  pc_max_sessions : Z; pc_max_per_tenant : Z; pc_default_mem : Z; pc_node_memory : Z;
  pc_thinking : string; pc_prompt : option string;
  (* `pi_idle_ttl_for` *)
  pc_idle_ttl : option string → option Z
}.

(** What a process was started with (`_spawn_tools` to `_key_ids`). *)
Record spawn_opts : Type := SpawnOpts {
  so_tools : bool; so_model : option string; so_instructions : option string; so_level : string;
  so_prompt : option string; so_key : option string; so_codemode : string; so_web_search : bool
}.
#[global] Instance spawn_opts_eq_dec : EqDecision spawn_opts.
Proof. solve_decision. Defined.
(** The arguments of `get`, as far as the pool looks at them. *)
Record get_args : Type := GetArgs {
  ga_session : uuid; ga_tools : bool; ga_model : option string; ga_instructions : option string;
  ga_thinking : option string; ga_prompt : option (option string); ga_key : option string;
  ga_codemode : string; ga_web_search : bool; ga_tenant : option uuid; ga_mem : option Z;
  ga_env : option string; ga_ttl : option (option Z)
}.
Record slot : Type := Slot {
  sl_proc : N; sl_alive : bool; sl_opts : spawn_opts; sl_mem : Z; sl_tenant : option uuid;
  sl_env : option string; sl_ttl : option (option Z); sl_born : Z
}.

(** A `kill` under way: [KillEnds] is reached when its hook has returned. *)
Inductive kill_phase : Set := BeforeHook | AfterHook.
Record killing : Type := Killing {
  kl_session : uuid; kl_proc : option N; kl_release : bool; kl_phase : kill_phase; kl_in_get : bool
}.
(** The lock is held by a `get` that waits for a kill, or is about to go on. *)
Inductive lock_state : Type :=
| Free
| InKill (a : get_args)
| Resuming (a : get_args).

Record pool : Type := Pool {
  pl_slots : odict uuid slot;
  pl_last : odict uuid Z;
  pl_held : gmap uuid Z;
  pl_killing : gmap uuid Z;
  pl_release_after : gset uuid;
  pl_booting : gset uuid;
  pl_reserved : odict uuid (option uuid * Z);
  pl_inflight : gset uuid;
  pl_lock : lock_state;
  (* the tasks: `get`s that spawn a process, and kills *)
  pl_spawns : list get_args;
  pl_kills : list killing
}.
Definition new_pool : pool := Pool ∅ ∅ ∅ ∅ ∅ ∅ ∅ ∅ Free [] [].

(** What a step does to the outside. *)
Inductive pool_event : Type :=
| GetReturns (sid : uuid) (proc : N)
| GetWaits (sid : uuid)
| GetRefused (sid : uuid) (code : string)
| SpawnBegins (sid : uuid)
| KillHook (sid : uuid) (proc : option N) (release : bool)
| Terminated (proc : N)
| LeaseReleased (sid : uuid).

(** ** Readers *)

Definition alive_slot (p : pool) (sid : uuid) : option slot :=
  match pl_slots p !! sid with Some s => if sl_alive s then Some s else None | None => None end.
Definition alive (p : pool) (sid : uuid) : bool := bool_decide (is_Some (alive_slot p sid)).
Definition held (p : pool) (sid : uuid) : bool := bool_decide (is_Some (pl_held p !! sid)).
Definition peek (p : pool) (sid : uuid) : option N := sl_proc <$> alive_slot p sid.
Definition live (p : pool) : Z :=
  osum (λ s, if sl_alive s then 1 else 0) (pl_slots p) + Z.of_nat (olen (pl_reserved p)).
Definition live_for (p : pool) (tenant : uuid) : Z :=
  osum (λ s, if sl_alive s && bool_decide (sl_tenant s = Some tenant) then 1 else 0) (pl_slots p)
  + osum (λ r : option uuid * Z, if bool_decide (r.1 = Some tenant) then 1 else 0) (pl_reserved p).
Definition used_mem (p : pool) : Z :=
  osum (λ s, if sl_alive s then sl_mem s else 0) (pl_slots p) + osum snd (pl_reserved p).
Definition capacity_code (c : pool_config) (p : pool) (sid : uuid) (tenant : option uuid) (mem : option Z)
    : option string :=
  if alive p sid then None
  else if match tenant with Some t => pc_max_per_tenant c <=? live_for p t | None => false end
  then Some "capacity_tenant"%string
  else if pc_max_sessions c <=? live p then Some "capacity"%string
  else if pc_node_memory c <? used_mem p + default (pc_default_mem c) mem then Some "capacity"%string
  else None.
Definition sandbox_seen_ids (p : pool) : gset uuid :=
  list_to_set (filter (λ sid, alive p sid = true) (okeys (pl_slots p))) ∪ pl_booting p.
Definition ttl_seconds (c : pool_config) (p : pool) (sid : uuid) : option Z :=
  match pl_slots p !! sid with
  | Some s => match sl_ttl s with Some t => t | None => pc_idle_ttl c (sl_env s) end
  | None => pc_idle_ttl c None
  end.
(** The sessions the reaper, the sweeps and the drain kill, one after the other. *)
Definition is_idle (c : pool_config) (p : pool) (now : Z) (x : uuid * Z) : bool :=
  match ttl_seconds c p x.1 with Some t => t <=? now - x.2 | None => false end.
Definition idle_sessions (c : pool_config) (p : pool) (now : Z) : list uuid :=
  (filter (λ x, is_idle c p now x = true) (oitems (pl_last p))).*1.
Definition dead_sessions (p : pool) : list uuid :=
  (filter (λ x : uuid * slot, sl_alive x.2 = false) (oitems (pl_slots p))).*1.
Definition unheld_sessions (p : pool) : list uuid :=
  filter (λ sid, alive p sid = true ∧ held p sid = false) (okeys (pl_slots p)).
Definition over_memory (limit : option Z) (rss : N → Z) (vm : N → bool) (p : pool) : list uuid :=
  match limit with
  | None => []
  | Some mib =>
      (filter (λ x : uuid * slot, sl_alive x.2 = true ∧ vm (sl_proc x.2) = false
                 ∧ (mib * 1024 * 1024 <? rss (sl_proc x.2)) = true) (oitems (pl_slots p))).*1
  end.

(** ** Small operations *)

Definition set_slots p v := Pool v (pl_last p) (pl_held p) (pl_killing p) (pl_release_after p) (pl_booting p)
  (pl_reserved p) (pl_inflight p) (pl_lock p) (pl_spawns p) (pl_kills p).
Definition set_last p v := Pool (pl_slots p) v (pl_held p) (pl_killing p) (pl_release_after p) (pl_booting p)
  (pl_reserved p) (pl_inflight p) (pl_lock p) (pl_spawns p) (pl_kills p).
Definition set_held p v := Pool (pl_slots p) (pl_last p) v (pl_killing p) (pl_release_after p) (pl_booting p)
  (pl_reserved p) (pl_inflight p) (pl_lock p) (pl_spawns p) (pl_kills p).
Definition set_release p v := Pool (pl_slots p) (pl_last p) (pl_held p) (pl_killing p) v (pl_booting p)
  (pl_reserved p) (pl_inflight p) (pl_lock p) (pl_spawns p) (pl_kills p).
Definition set_lock p v := Pool (pl_slots p) (pl_last p) (pl_held p) (pl_killing p) (pl_release_after p) (pl_booting p)
  (pl_reserved p) (pl_inflight p) v (pl_spawns p) (pl_kills p).
Definition set_kills p k v := Pool (pl_slots p) (pl_last p) (pl_held p) k (pl_release_after p) (pl_booting p)
  (pl_reserved p) (pl_inflight p) (pl_lock p) (pl_spawns p) v.

Definition touch (p : pool) (sid : uuid) (now : Z) : pool := set_last p (<[sid := now]> (pl_last p)).
Definition hold (p : pool) (sid : uuid) : pool :=
  set_held p (<[sid := default 0 (pl_held p !! sid) + 1]> (pl_held p)).
Definition release (p : pool) (sid : uuid) : pool :=
  let count := default 0 (pl_held p !! sid) - 1 in
  set_held p (if 0 <? count then <[sid := count]> (pl_held p) else delete sid (pl_held p)).
Definition release_after_turn (p : pool) (sid : uuid) : pool := set_release p ({[sid]} ∪ pl_release_after p).
(** `after_turn`, up to the hook it calls. *)
Definition after_turn (p : pool) (sid : uuid) : pool * list pool_event :=
  if negb (bool_decide (sid ∈ pl_release_after p)) then (p, [])
  else if held p sid || bool_decide (is_Some (pl_killing p !! sid)) then (p, [])
  else
    let p := set_release p (pl_release_after p ∖ {[sid]}) in
    if alive p sid then (p, []) else (p, [LeaseReleased sid]).

(** *** Killing *)

(** `kill` up to its first await: everything the pool knows of the process is gone. *)
Definition kill_begin (p : pool) (sid : uuid) (release in_get : bool) : pool :=
  Pool (delete sid (pl_slots p)) (delete sid (pl_last p)) (pl_held p)
    (<[sid := default 0 (pl_killing p !! sid) + 1]> (pl_killing p)) (pl_release_after p)
    (pl_booting p ∖ {[sid]}) (pl_reserved p) (pl_inflight p) (pl_lock p) (pl_spawns p)
    (pl_kills p ++ [Killing sid (sl_proc <$> pl_slots p !! sid) release BeforeHook in_get]).
(** `on_kill`: a session that a turn holds keeps its lease until the turn has ended. *)
Definition kill_hook (p : pool) (k : killing) (rest : list killing) : pool * list pool_event :=
  let keep := kl_release k && held p (kl_session k) in
  let p := if keep then release_after_turn p (kl_session k) else p in
  let release := kl_release k && negb keep in
  (set_kills p (pl_killing p) (rest ++ [Killing (kl_session k) (kl_proc k) release AfterHook (kl_in_get k)]),
   [KillHook (kl_session k) (kl_proc k) release]).
Definition end_killing (m : gmap uuid Z) (sid : uuid) : gmap uuid Z :=
  let count := default 1 (m !! sid) - 1 in if 0 <? count then <[sid := count]> m else delete sid m.
Definition lock_after (p : pool) (k : killing) (failed : bool) : lock_state :=
  match pl_lock p with
  | InKill a => if kl_in_get k then if failed then Free else Resuming a else InKill a
  | l => l
  end.
(** The end of `kill`; [failed]: the hook or the end of the process raised. *)
Definition kill_end (p : pool) (k : killing) (rest : list killing) (failed : bool) : pool * list pool_event :=
  let p := set_lock (set_kills p (end_killing (pl_killing p) (kl_session k)) rest) (lock_after p k failed) in
  if failed then (p, [])
  else
    let '(p, out) := after_turn p (kl_session k) in
    (p, match kl_proc k with Some n => [Terminated n] | None => [] end ++ out).

(** *** Getting a process *)

Definition wanted (c : pool_config) (a : get_args) : spawn_opts :=
  SpawnOpts (ga_tools a) (ga_model a)
    (match ga_instructions a with Some "" | None => None | Some i => Some i end%string)
    (default (pc_thinking c) (ga_thinking a)) (default (pc_prompt c) (ga_prompt a)) (ga_key a)
    (ga_codemode a) (ga_web_search a).
Definition session_mem (c : pool_config) (a : get_args) : Z := default (pc_default_mem c) (ga_mem a).
(** `_claim_or_reuse`, and what `get` does with its answer, still under the lock. *)
Definition claim (c : pool_config) (p : pool) (a : get_args) (now : Z) : pool * list pool_event :=
  let sid := ga_session a in
  match alive_slot p sid with
  | Some s =>
      let s := Slot (sl_proc s) (sl_alive s) (sl_opts s) (sl_mem s) (sl_tenant s)
                 (match ga_env a with Some e => Some e | None => sl_env s end)
                 (match ga_ttl a with Some t => Some t | None => sl_ttl s end) (sl_born s) in
      (set_lock (touch (set_slots p (<[sid := s]> (pl_slots p))) sid now) Free, [GetReturns sid (sl_proc s)])
  | None =>
      match capacity_code c p sid (ga_tenant a) (Some (session_mem c a)) with
      | Some code => (set_lock p Free, [GetRefused sid code])
      | None =>
          (Pool (pl_slots p) (pl_last p) (pl_held p) (pl_killing p) (pl_release_after p) ({[sid]} ∪ pl_booting p)
             (<[sid := (ga_tenant a, session_mem c a)]> (pl_reserved p)) ({[sid]} ∪ pl_inflight p) Free
             (pl_spawns p ++ [a]) (pl_kills p), [SpawnBegins sid])
      end
  end.
(** `get` once it has the lock. *)
Definition get_enter (c : pool_config) (p : pool) (a : get_args) (now : Z) : pool * list pool_event :=
  let sid := ga_session a in
  if decide (sid ∈ pl_inflight p) then (p, [GetWaits sid])
  else match pl_slots p !! sid with
  | Some s =>
      if negb (sl_alive s) then (set_lock (kill_begin p sid false true) (InKill a), [])
      else if decide (sl_opts s ≠ wanted c a) then (set_lock (kill_begin p sid false true) (InKill a), [])
      else claim c p a now
  | None => claim c p a now
  end.
(** The end of a spawn: `_store_proc`, or `_finish_spawn` with an error. *)
Definition store_proc (c : pool_config) (p : pool) (a : get_args) (proc : N) (is_alive : bool) (now : Z)
    (rest : list get_args) : pool * list pool_event :=
  let sid := ga_session a in
  let old := pl_slots p !! sid in
  let s := Slot proc is_alive (wanted c a) (session_mem c a)
             (match ga_tenant a with Some t => Some t | None => old ≫= sl_tenant end) (ga_env a)
             (match ga_ttl a with Some t => Some t | None => old ≫= sl_ttl end) now in
  (Pool (<[sid := s]> (pl_slots p)) (<[sid := now]> (pl_last p)) (pl_held p) (pl_killing p) (pl_release_after p)
     (pl_booting p ∖ {[sid]}) (delete sid (pl_reserved p)) (pl_inflight p ∖ {[sid]}) (pl_lock p) rest (pl_kills p),
   [GetReturns sid proc]).
Definition finish_spawn (p : pool) (sid : uuid) (rest : list get_args) : pool :=
  Pool (pl_slots p) (pl_last p) (pl_held p) (pl_killing p) (pl_release_after p)
    (pl_booting p ∖ {[sid]}) (delete sid (pl_reserved p)) (pl_inflight p ∖ {[sid]}) (pl_lock p) rest (pl_kills p).
(** The `get` is cancelled in `await spawn_pi`: `except Exception` does not run. *)
Definition cancel_spawn (p : pool) (rest : list get_args) : pool :=
  Pool (pl_slots p) (pl_last p) (pl_held p) (pl_killing p) (pl_release_after p) (pl_booting p)
    (pl_reserved p) (pl_inflight p) (pl_lock p) rest (pl_kills p).
(** A process ends on its own. *)
Definition die (p : pool) (sid : uuid) : pool :=
  match pl_slots p !! sid with
  | Some s => set_slots p (<[sid := Slot (sl_proc s) false (sl_opts s) (sl_mem s) (sl_tenant s) (sl_env s) (sl_ttl s) (sl_born s)]>
                             (pl_slots p))
  | None => p
  end.

(** ** Steps *)

Inductive pool_step (c : pool_config) : pool → list pool_event → pool → Prop :=
| StepGet p a now p' out :
    pl_lock p = Free → 0 ≤ session_mem c a → get_enter c p a now = (p', out) → pool_step c p out p'
| StepResume p a now p' out : pl_lock p = Resuming a → 0 ≤ session_mem c a → claim c p a now = (p', out) → pool_step c p out p'
| StepStored p l1 a l2 proc is_alive now p' out :
    pl_lock p = Free → pl_spawns p = l1 ++ a :: l2 → store_proc c p a proc is_alive now (l1 ++ l2) = (p', out) → pool_step c p out p'
| StepSpawnFailed p l1 a l2 :
    pl_lock p = Free → pl_spawns p = l1 ++ a :: l2 → pool_step c p [] (finish_spawn p (ga_session a) (l1 ++ l2))
| StepSpawnCancelled p l1 a l2 :
    pl_spawns p = l1 ++ a :: l2 → pool_step c p [] (cancel_spawn p (l1 ++ l2))
| StepKill p sid release : pool_step c p [] (kill_begin p sid release false)
| StepHook p l1 k l2 p' out :
    pl_kills p = l1 ++ k :: l2 → kl_phase k = BeforeHook → kill_hook p k (l1 ++ l2) = (p', out) → pool_step c p out p'
| StepKillEnds p l1 k l2 failed p' out :
    pl_kills p = l1 ++ k :: l2 → kl_phase k = AfterHook → kill_end p k (l1 ++ l2) failed = (p', out) → pool_step c p out p'
| StepDies p sid : pool_step c p [] (die p sid)
| StepTouch p sid now : pool_step c p [] (touch p sid now)
| StepHold p sid : pool_step c p [] (hold p sid)
| StepRelease p sid : pool_step c p [] (release p sid)
| StepReleaseAfter p sid : pool_step c p [] (release_after_turn p sid)
| StepAfterTurn p sid p' out : after_turn p sid = (p', out) → pool_step c p out p'.
Inductive pool_reach (c : pool_config) : pool → list pool_event → Prop :=
| PoolStart : pool_reach c new_pool []
| PoolStep p outs out p' : pool_reach c p outs → pool_step c p out p' → pool_reach c p' (outs ++ out).
