(* ===== verification/PoolProps.v ===== *)
(** * The pool of a worker's sandboxes: what holds in every order of its steps

    [pool_inv] is kept by every step of [Pool.pool_step]; with it, the pool never has more
    sessions or memory than the worker may use, a session never has two processes, and a
    lease that a turn needs is not let go.  A spawn that is cancelled is never forgotten. *)

From S2P Require Import Prelude PyStd Pool.

Open Scope Z_scope.

(** ** Measures of the slots and the reservations *)

Record measure (fs : slot → Z) (fr : option uuid * Z → Z) : Prop := {
  me_slot : ∀ s, 0 ≤ sl_mem s → 0 ≤ fs s;
  me_reserved : ∀ r, 0 ≤ r.2 → 0 ≤ fr r;
  me_dead : ∀ s, sl_alive s = false → fs s = 0;
  me_same : ∀ s s', sl_alive s = sl_alive s' → sl_mem s = sl_mem s' → sl_tenant s = sl_tenant s' → fs s = fs s';
  me_stored : ∀ s, 0 ≤ sl_mem s → fs s ≤ fr (sl_tenant s, sl_mem s)
}.
Definition total (fs : slot → Z) (fr : option uuid * Z → Z) (p : pool) : Z :=
  osum fs (pl_slots p) + osum fr (pl_reserved p).

Lemma osum_one {V} (d : odict uuid V) : osum (λ _, 1) d = Z.of_nat (olen d).
Proof. unfold osum, ovals, olen. induction (oitems d) as [|x l IH]; csimpl; lia. Qed.
Lemma measure_live : measure (λ s, if sl_alive s then 1 else 0) (λ _, 1).
Proof.
  split.
  - intros s _. destruct (sl_alive s); lia.
  - intros r _. lia.
  - by intros s ->.
  - by intros s s' -> _ _.
  - intros s _. destruct (sl_alive s); lia.
Qed.
Lemma measure_tenant t : measure (λ s, if sl_alive s && bool_decide (sl_tenant s = Some t) then 1 else 0)
                                 (λ r, if bool_decide (r.1 = Some t) then 1 else 0).
Proof.
  split.
  - intros s _. destruct (_ && _); lia.
  - intros r _. destruct (bool_decide _); lia.
  - by intros s ->.
  - by intros s s' -> _ ->.
  - intros s _. cbn [fst]. destruct (sl_alive s), (bool_decide (sl_tenant s = Some t)); cbn; lia.
Qed.
Lemma measure_mem : measure (λ s, if sl_alive s then sl_mem s else 0) snd.
Proof.
  split.
  - intros s H. destruct (sl_alive s); lia.
  - intros r H. lia.
  - by intros s ->.
  - by intros s s' -> -> _.
  - intros s H. cbn [snd]. destruct (sl_alive s); lia.
Qed.

(** ** The invariant *)

Record pool_inv (c : pool_config) (p : pool) : Prop := {
  pi_slots : odict_ok (pl_slots p);
  pi_reserved : odict_ok (pl_reserved p);
  pi_mem : ∀ sid s, pl_slots p !! sid = Some s → 0 ≤ sl_mem s;
  pi_rmem : ∀ sid r, pl_reserved p !! sid = Some r → 0 ≤ r.2;
  pi_keys : ∀ sid, is_Some (pl_reserved p !! sid) ↔ sid ∈ pl_inflight p;
  pi_excl : ∀ sid, sid ∈ pl_inflight p → pl_slots p !! sid = None;
  pi_spawns : ∀ a, a ∈ pl_spawns p → pl_reserved p !! ga_session a = Some (ga_tenant a, session_mem c a);
  pi_once : NoDup (ga_session <$> pl_spawns p);
  pi_lock : match pl_lock p with
            | Free => True
            | InKill a | Resuming a => ga_session a ∉ pl_inflight p ∧ pl_slots p !! ga_session a = None
            end
}.

(** A step that leaves the reservations, the spawns and the lock alone, and takes slots
    away or changes them in place. *)
Lemma inv_slots c p p' :
  pool_inv c p → odict_ok (pl_slots p') →
  (∀ sid s, pl_slots p' !! sid = Some s → ∃ s0, pl_slots p !! sid = Some s0 ∧ sl_mem s = sl_mem s0) →
  pl_reserved p' = pl_reserved p → pl_inflight p' = pl_inflight p → pl_spawns p' = pl_spawns p →
  (pl_lock p' = pl_lock p ∨ pl_lock p' = Free
   ∨ ∃ a, (pl_lock p' = InKill a ∨ pl_lock p' = Resuming a) ∧ ga_session a ∉ pl_inflight p ∧ pl_slots p' !! ga_session a = None) →
  pool_inv c p'.
Proof.
  intros [] Hok Hs Hr Hi Hsp Hl. split; rewrite ?Hr, ?Hi, ?Hsp; try done.
  - intros sid s H. destruct (Hs _ _ H) as (s0 & H0 & ->). by eapply pi_mem0.
  - intros sid H. destruct (pl_slots p' !! sid) as [s|] eqn:E; [|done]. destruct (Hs _ _ E) as (s0 & H0 & _).
    by rewrite (pi_excl0 _ H) in H0.
  - destruct Hl as [->|[->|(a & Hl & Hn & Hsl)]]; [|done|].
    + destruct (pl_lock p) as [|a|a]; [done| |]; destruct pi_lock0 as [H1 H2]; (split; [done|]);
        (destruct (pl_slots p' !! ga_session a) as [s|] eqn:E; [|done]); destruct (Hs _ _ E) as (s0 & H0 & _); congruence.
    + by destruct Hl as [-> | ->].
Qed.
Lemma inv_same c p p' :
  pool_inv c p → pl_slots p' = pl_slots p → pl_reserved p' = pl_reserved p → pl_inflight p' = pl_inflight p →
  pl_spawns p' = pl_spawns p → pl_lock p' = pl_lock p → pool_inv c p'.
Proof.
  intros Hi Hs Hr Hf Hsp Hl. eapply inv_slots; [exact Hi|..]; rewrite ?Hs; try done; [apply Hi| |auto].
  intros sid s H. by exists s.
Qed.
(** The end of a spawn, with or without a process. *)
Lemma inv_spawned c p p' l1 a l2 :
  pool_inv c p → pl_lock p = Free → pl_spawns p = l1 ++ a :: l2 → odict_ok (pl_slots p') →
  (∀ sid s, pl_slots p' !! sid = Some s → pl_slots p !! sid = Some s ∨ sid = ga_session a ∧ sl_mem s = session_mem c a) →
  pl_reserved p' = delete (ga_session a) (pl_reserved p) → pl_inflight p' = pl_inflight p ∖ {[ga_session a]} →
  pl_spawns p' = l1 ++ l2 → pl_lock p' = Free → pool_inv c p'.
Proof.
  intros [] Hfree Hspl Hok Hs Hr Hi Hsp Hl.
  assert (a ∈ pl_spawns p) as Ha by (rewrite Hspl; set_solver).
  rewrite Hspl, fmap_app, fmap_cons in pi_once0. apply list.NoDup_app in pi_once0 as (Hn1 & Hn2 & Hn3).
  apply list.NoDup_cons in Hn3 as [Hn3 Hn4].
  split; rewrite ?Hr, ?Hi, ?Hsp, ?Hl; try done.
  - by apply odict_ok_delete.
  - intros sid s H. destruct (Hs _ _ H) as [H0|[-> ->]]; [by eapply pi_mem0|].
    by apply (pi_rmem0 _ _ (pi_spawns0 _ Ha)).
  - intros sid r H. rewrite olookup_delete in H. case_decide; [done|]. by eapply pi_rmem0.
  - intros sid. rewrite olookup_delete. case_decide as E; [subst; split; [by intros []|set_solver]|]. rewrite pi_keys0. set_solver.
  - intros sid [H Hne]%elem_of_difference. destruct (pl_slots p' !! sid) as [s|] eqn:E; [|done].
    destruct (Hs _ _ E) as [H0|[-> _]]; [by rewrite (pi_excl0 _ H) in H0|set_solver].
  - intros b Hb. assert (ga_session a ≠ ga_session b) as Hne.
    { intros E. apply elem_of_app in Hb as [Hb|Hb].
      - apply (Hn2 (ga_session a)); [rewrite E; by apply list_elem_of_fmap_2|left].
      - apply Hn3. rewrite E. by apply list_elem_of_fmap_2. }
    rewrite olookup_delete_ne by done. apply pi_spawns0. rewrite Hspl. set_solver.
  - rewrite fmap_app. apply list.NoDup_app. split_and!; [done| |done]. intros x Hx Hx'. apply (Hn2 x Hx). by right.
Qed.

(** ** Steps *)

(** What [claim] does, by its three ends. *)
Inductive claimed (c : pool_config) (p : pool) (a : get_args) : pool → list pool_event → Prop :=
| Reused s s' now :
    pl_slots p !! ga_session a = Some s → sl_alive s = true → sl_alive s' = true → sl_mem s' = sl_mem s →
    sl_tenant s' = sl_tenant s → sl_proc s' = sl_proc s →
    claimed c p a (set_lock (touch (set_slots p (<[ga_session a := s']> (pl_slots p))) (ga_session a) now) Free)
      [GetReturns (ga_session a) (sl_proc s)]
| Refused code : claimed c p a (set_lock p Free) [GetRefused (ga_session a) code]
| Claimed :
    pl_slots p !! ga_session a = None → capacity_code c p (ga_session a) (ga_tenant a) (Some (session_mem c a)) = None →
    claimed c p a
      (Pool (pl_slots p) (pl_last p) (pl_held p) (pl_killing p) (pl_release_after p) ({[ga_session a]} ∪ pl_booting p)
         (<[ga_session a := (ga_tenant a, session_mem c a)]> (pl_reserved p)) ({[ga_session a]} ∪ pl_inflight p) Free
         (pl_spawns p ++ [a]) (pl_kills p)) [SpawnBegins (ga_session a)].
Lemma claim_claimed c p a now p' out :
  (∀ s, pl_slots p !! ga_session a = Some s → sl_alive s = true) → claim c p a now = (p', out) → claimed c p a p' out.
Proof.
  unfold claim, alive_slot. intros Hs. destruct (pl_slots p !! ga_session a) as [s|] eqn:E.
  - specialize (Hs s eq_refl). rewrite Hs. intros [= <- <-].
    refine (Reused c p a s _ now E Hs _ _ _ _); done.
  - destruct (capacity_code _ _ _ _ _) as [code|] eqn:Ec; intros [= <- <-]; [by apply Refused|by apply Claimed].
Qed.
Lemma claimed_inv c p a p' out :
  pool_inv c p → ga_session a ∉ pl_inflight p → 0 ≤ session_mem c a → claimed c p a p' out → pool_inv c p'.
Proof.
  intros Hi Hn Hm [s s' now Hs _ _ Hsm _ _|code|Hs _].
  - apply (inv_slots c p); try done; [by apply odict_ok_insert, Hi| |by right; left].
    intros sid s0. cbn. rewrite olookup_insert. case_decide; [|by eauto]. intros [= <-]. subst. eauto.
  - apply (inv_slots c p); try done; [apply Hi| |by right; left]. intros sid s H. by exists s.
  - destruct Hi. split; cbn; try done.
    + by apply odict_ok_insert.
    + intros sid r. rewrite olookup_insert. case_decide; [by intros [= <-]|apply pi_rmem0].
    + intros sid. rewrite olookup_insert. case_decide; [subst; split; [set_solver|by eauto]|]. rewrite pi_keys0. set_solver.
    + intros sid [->%elem_of_singleton|H]%elem_of_union; [done|by apply pi_excl0].
    + intros b [Hb| ->%list_elem_of_singleton]%elem_of_app; [|by rewrite olookup_insert_eq].
      rewrite olookup_insert_ne; [by apply pi_spawns0|]. intros E. apply Hn, pi_keys0. rewrite E, pi_spawns0 by done. by eexists.
    + rewrite fmap_app. apply list.NoDup_app. split_and!; [done| |apply NoDup_singleton].
      intros x (b & -> & Hb)%list_elem_of_fmap Hx%list_elem_of_singleton. apply Hn, pi_keys0.
      rewrite <-Hx, pi_spawns0 by done. by eexists.
Qed.
Lemma get_claims c p a now p' out :
  get_enter c p a now = (p', out) →
  p' = p ∧ out = [GetWaits (ga_session a)] ∨ ga_session a ∉ pl_inflight p ∧
    (p' = set_lock (kill_begin p (ga_session a) false true) (InKill a) ∧ out = [] ∨ claimed c p a p' out).
Proof.
  unfold get_enter. case_decide as Hd; [by intros [= <- <-]; left|].
  destruct (pl_slots p !! ga_session a) as [s|] eqn:E.
  - destruct (sl_alive s) eqn:Ea; cbn; [case_decide|]; [by intros [= <- <-]; auto| |by intros [= <- <-]; auto].
    intros Hc. right. split; [done|]. right. eapply claim_claimed; [|done]. intros s'. congruence.
  - intros H. right. split; [done|]. right. eapply claim_claimed; [|done]. intros s'. congruence.
Qed.
Lemma after_turn_same p sid p' out :
  after_turn p sid = (p', out) → ∃ s, p' = set_release p s.
Proof.
  unfold after_turn. intros H. exists (pl_release_after p').
  repeat case_match; injection H as <- _; by destruct p.
Qed.

(** A step that changes neither slots nor reservations nor spawns. *)
Definition quiet (p p' : pool) : Prop :=
  pl_slots p' = pl_slots p ∧ pl_reserved p' = pl_reserved p ∧ pl_inflight p' = pl_inflight p ∧ pl_spawns p' = pl_spawns p.
Lemma quiet_inv c p p' : pool_inv c p → quiet p p' → pl_lock p' = pl_lock p ∨ pl_lock p' = Free ∨
  (∃ a, pl_lock p = InKill a ∧ pl_lock p' = Resuming a) → pool_inv c p'.
Proof.
  intros Hi (Hs & Hr & Hf & Hsp) Hl. eapply inv_slots; [exact Hi|..]; rewrite ?Hs; try done; [apply Hi|by eauto|].
  destruct Hl as [Hl|[Hl|(a & Hl & Hl')]]; [by left|by right; left|].
  right. right. exists a. pose proof (pi_lock _ _ Hi) as Hk. rewrite Hl in Hk. auto.
Qed.
Lemma kill_hook_quiet p k rest p' out : kill_hook p k rest = (p', out) → quiet p p' ∧ pl_lock p' = pl_lock p.
Proof. unfold kill_hook. intros [= <- _]. by destruct (kl_release k && _). Qed.
Lemma kill_end_quiet p k rest failed p' out :
  kill_end p k rest failed = (p', out) → quiet p p' ∧ pl_lock p' = lock_after p k failed.
Proof.
  unfold kill_end. destruct failed; [by intros [= <- _]|]. destruct (after_turn _ _) as [q o] eqn:E.
  intros [= <- _]. by apply after_turn_same in E as [s ->].
Qed.
Lemma lock_after_cases p k failed :
  lock_after p k failed = pl_lock p ∨ lock_after p k failed = Free ∨
  (∃ a, pl_lock p = InKill a ∧ lock_after p k failed = Resuming a).
Proof. unfold lock_after. destruct (pl_lock p); eauto. destruct (kl_in_get k), failed; eauto. Qed.
Lemma kill_begin_inv c p sid release in_get l :
  pool_inv c p → (l = pl_lock p ∨ ∃ a, l = InKill a ∧ sid = ga_session a ∧ ga_session a ∉ pl_inflight p) →
  pool_inv c (set_lock (kill_begin p sid release in_get) l).
Proof.
  intros Hi Hl. apply (inv_slots c p); try done; [by apply odict_ok_delete, Hi| |].
  - intros x s. cbn. rewrite olookup_delete. case_decide; [done|]. eauto.
  - destruct Hl as [->|(a & -> & -> & Hn)]; [by left|]. right. right. exists a. cbn. rewrite olookup_delete_eq. auto.
Qed.
Lemma die_inv c p sid : pool_inv c p → pool_inv c (die p sid).
Proof.
  intros Hi. unfold die. destruct (pl_slots p !! sid) as [s|] eqn:E; [|done].
  apply (inv_slots c p); try done; [by apply odict_ok_insert, Hi| |by left].
  intros x s'. cbn. rewrite olookup_insert. case_decide; [|by eauto]. intros [= <-]. subst. eauto.
Qed.
Lemma step_pool_inv c p out p' : pool_inv c p → pool_step c p out p' → pool_inv c p'.
Proof.
  intros Hi Hst. destruct Hst as [p a now p' out Hl Hm Hg|p a now p' out Hl Hm Hg|p l1 a l2 proc al now p' out Hl Hsp Hg
    |p l1 a l2 Hl Hsp|p l1 a l2 Hsp|p sid rel|p l1 k l2 p' out Hk Hph Hg|p l1 k l2 failed p' out Hk Hph Hg
    |p sid|p sid now|p sid|p sid|p sid|p sid p' out Hg].
  - apply get_claims in Hg as [[-> _]|[Hn [[-> _]|Hc]]]; [done| |by eapply claimed_inv].
    apply kill_begin_inv; eauto.
  - pose proof (pi_lock _ _ Hi) as Hk. rewrite Hl in Hk. destruct Hk as [Hn Hs].
    eapply claimed_inv; [done..|]. eapply claim_claimed; [|done]. intros s. congruence.
  - unfold store_proc in Hg. injection Hg as <- <-. eapply inv_spawned; [done|done|done|..]; try done.
    + by apply odict_ok_insert, Hi.
    + intros x s. cbn. rewrite olookup_insert. case_decide; [|by auto]. intros [= <-]. right. by subst.
  - eapply inv_spawned; [done|done|done|..]; try done; [apply Hi|by auto].
  - destruct Hi. split; cbn; try done.
    + intros b Hb. apply pi_spawns0. rewrite Hsp. set_solver.
    + eapply (sublist_NoDup _ _ pi_once0). rewrite Hsp. apply fmap_sublist, sublist_app; [done|by apply sublist_cons].
  - change (kill_begin p sid rel false) with (set_lock (kill_begin p sid rel false) (pl_lock p)). apply kill_begin_inv; auto.
  - apply kill_hook_quiet in Hg as [Hq Hlk]. eapply quiet_inv; eauto.
  - apply kill_end_quiet in Hg as [Hq Hlk]. eapply quiet_inv; eauto. rewrite Hlk. apply lock_after_cases.
  - by apply die_inv.
  - eapply quiet_inv; [done|by repeat split|by left].
  - eapply quiet_inv; [done|by repeat split|by left].
  - eapply quiet_inv; [done|by repeat split|by left].
  - eapply quiet_inv; [done|by repeat split|by left].
  - apply after_turn_same in Hg as [s ->]. eapply quiet_inv; [done|by repeat split|by left].
Qed.
Lemma new_pool_inv c : pool_inv c new_pool.
Proof. split; try done; cbn; try (by apply odict_ok_empty); try set_solver. intros sid. split; [by intros []|set_solver]. constructor. Qed.
Lemma reach_pool_inv c p outs : pool_reach c p outs → pool_inv c p.
Proof. induction 1; [apply new_pool_inv|by eapply step_pool_inv]. Qed.

(** ** What the pool uses *)

Section totals.
Context (fs : slot → Z) (fr : option uuid * Z → Z) (HM : measure fs fr).

Lemma total_quiet p p' : quiet p p' → total fs fr p' = total fs fr p.
Proof. intros (Hs & Hr & _). unfold total. by rewrite Hs, Hr. Qed.
Lemma slot_weight c p sid : pool_inv c p → 0 ≤ from_option fs 0 (pl_slots p !! sid).
Proof.
  intros Hi. destruct (pl_slots p !! sid) as [s|] eqn:E; [|done]. cbn. eapply me_slot; [done|]. by eapply pi_mem.
Qed.
Lemma reserved_weight c p sid : pool_inv c p → 0 ≤ from_option fr 0 (pl_reserved p !! sid).
Proof.
  intros Hi. destruct (pl_reserved p !! sid) as [r|] eqn:E; [|done]. cbn. eapply me_reserved; [done|]. by eapply pi_rmem.
Qed.
Lemma total_kill c p sid release in_get l :
  pool_inv c p → total fs fr (set_lock (kill_begin p sid release in_get) l) ≤ total fs fr p.
Proof.
  intros Hi. unfold total. cbn. rewrite osum_delete by apply Hi. pose proof (slot_weight c p sid Hi). lia.
Qed.
Lemma total_die c p sid : pool_inv c p → total fs fr (die p sid) ≤ total fs fr p.
Proof.
  intros Hi. pose proof (slot_weight c p sid Hi) as Hw. unfold die. destruct (pl_slots p !! sid) as [s|] eqn:E; [|lia].
  unfold total. cbn. rewrite osum_insert, E. cbn in *. rewrite (me_dead _ _ HM (Slot _ false _ _ _ _ _ _)) by done. lia.
Qed.
Lemma total_claimed c p a p' out :
  claimed c p a p' out →
  total fs fr p' = total fs fr p ∨
  capacity_code c p (ga_session a) (ga_tenant a) (Some (session_mem c a)) = None ∧ alive p (ga_session a) = false
  ∧ total fs fr p' = total fs fr p + fr (ga_tenant a, session_mem c a) - from_option fr 0 (pl_reserved p !! ga_session a).
Proof.
  intros [s s' now Hs Ha Ha' Hm Ht _|code|Hs Hc]; [left|by left|right].
  - unfold total. cbn. rewrite osum_insert, Hs. cbn. rewrite (me_same _ _ HM s' s) by congruence. lia.
  - split_and!; [done| |].
    + unfold alive, alive_slot. by rewrite Hs.
    + unfold total. cbn. rewrite osum_insert. lia.
Qed.
(** The reservation of a spawn, which is told its tenant, covers the slot it turns into. *)
Lemma total_stored c p l1 a l2 proc al now p' out :
  pool_inv c p → pl_spawns p = l1 ++ a :: l2 → store_proc c p a proc al now (l1 ++ l2) = (p', out) →
  total fs fr p' ≤ total fs fr p.
Proof.
  intros Hi Hsp Hg. injection Hg as <- _.
  assert (a ∈ pl_spawns p) as Ha by (rewrite Hsp; set_solver).
  pose proof (pi_spawns _ _ Hi a Ha) as Hr.
  assert (pl_slots p !! ga_session a = None) as Hs.
  { eapply pi_excl; [done|]. eapply pi_keys; [done|]. by rewrite Hr. }
  assert (0 ≤ session_mem c a) as Hm by apply (pi_rmem _ _ Hi _ _ Hr).
  unfold total. cbn. rewrite osum_insert, osum_delete, Hr, Hs by apply Hi. cbn.
  match goal with |- context [fs ?s] => pose proof (me_stored _ _ HM s Hm) as Hle end. cbn in Hle.
  destruct (ga_tenant a); lia.
Qed.
Lemma total_step c p out p' :
  pool_inv c p → pool_step c p out p' →
  total fs fr p' ≤ total fs fr p ∨
  ∃ a, capacity_code c p (ga_session a) (ga_tenant a) (Some (session_mem c a)) = None ∧ alive p (ga_session a) = false
    ∧ total fs fr p' ≤ total fs fr p + fr (ga_tenant a, session_mem c a).
Proof.
  assert (∀ a p' out, pool_inv c p → claimed c p a p' out → total fs fr p' ≤ total fs fr p ∨
    ∃ a, capacity_code c p (ga_session a) (ga_tenant a) (Some (session_mem c a)) = None ∧ alive p (ga_session a) = false
      ∧ total fs fr p' ≤ total fs fr p + fr (ga_tenant a, session_mem c a)) as Hclaim.
  { intros a q o Hi Hc. pose proof (reserved_weight c p (ga_session a) Hi) as Hw.
    apply total_claimed in Hc as [->|(Hcc & Ha & ->)]; [by left|]. right. exists a. split_and!; [done..|lia]. }
  intros Hi Hst. destruct Hst as [p a now p' out Hl Hm Hg|p a now p' out Hl Hm Hg|p l1 a l2 proc al now p' out Hl Hsp Hg
    |p l1 a l2 Hl Hsp|p l1 a l2 Hsp|p sid rel|p l1 k l2 p' out Hk Hph Hg|p l1 k l2 failed p' out Hk Hph Hg
    |p sid|p sid now|p sid|p sid|p sid|p sid p' out Hg]; try by left.
  - apply get_claims in Hg as [[-> _]|[Hn [[-> _]|Hc]]]; [by left| |by eapply Hclaim]. left. by eapply total_kill.
  - pose proof (pi_lock _ _ Hi) as Hk. rewrite Hl in Hk. destruct Hk as [Hn Hs].
    eapply Hclaim; [done|]. eapply claim_claimed; [|done]. intros s. congruence.
  - left. by eapply total_stored.
  - left. unfold total. cbn. rewrite osum_delete by apply Hi. pose proof (reserved_weight c p (ga_session a) Hi). lia.
  - left. change (kill_begin p sid rel false) with (set_lock (kill_begin p sid rel false) (pl_lock p)). by eapply total_kill.
  - left. apply kill_hook_quiet in Hg as [Hq _]. by rewrite (total_quiet p p').
  - left. apply kill_end_quiet in Hg as [Hq _]. by rewrite (total_quiet p p').
  - left. by eapply total_die.
  - left. apply after_turn_same in Hg as [s ->]. done.
Qed.
(** What a claim is refused for bounds the total for good. *)
Lemma total_bounded c p outs bound :
  0 ≤ bound →
  (∀ q a, capacity_code c q (ga_session a) (ga_tenant a) (Some (session_mem c a)) = None → alive q (ga_session a) = false →
    total fs fr q + fr (ga_tenant a, session_mem c a) ≤ bound ∨ fr (ga_tenant a, session_mem c a) ≤ 0) →
  pool_reach c p outs → total fs fr p ≤ bound.
Proof.
  intros Hb Hc. induction 1 as [|p outs out p' Hr IH Hst]; [by change (total fs fr new_pool) with 0|].
  apply (total_step c) in Hst as [Hle|(a & Hcc & Ha & Hle)]; [lia| |by eapply reach_pool_inv].
  destruct (Hc p a Hcc Ha); lia.
Qed.
End totals.

Lemma capacity_none c p sid tenant mem :
  capacity_code c p sid tenant (Some mem) = None → alive p sid = false →
  live p < pc_max_sessions c ∧ used_mem p + mem ≤ pc_node_memory c
  ∧ (∀ t, tenant = Some t → live_for p t < pc_max_per_tenant c).
Proof.
  unfold capacity_code. intros H Ha. rewrite Ha in H. cbn [default from_option id] in H.
  destruct (match tenant with Some t => _ | None => false end) eqn:Et; [done|].
  destruct (pc_max_sessions c <=? live p) eqn:El; [done|].
  destruct (pc_node_memory c <? used_mem p + mem) eqn:Em; [done|].
  split_and!; [lia|lia|]. intros t ->. lia.
Qed.

(** C37: In every order of its steps, with the gets of several tasks, kills, failed and
    cancelled spawns interleaved at their awaits, the pool never runs or reserves more
    sessions than the worker may have, nor more for one tenant than a tenant may, nor more
    memory than the node has; a session that is being started has no other process, and is
    started by one task only. *)
Theorem pool_within (c : pool_config) (p : pool) (outs : list pool_event)
    (Hs : 0 ≤ pc_max_sessions c) (Ht : 0 ≤ pc_max_per_tenant c) (Hm : 0 ≤ pc_node_memory c)
    (Hr : pool_reach c p outs) :
  live p ≤ pc_max_sessions c
  ∧ (∀ t, live_for p t ≤ pc_max_per_tenant c)
  ∧ used_mem p ≤ pc_node_memory c
  ∧ (∀ sid, sid ∈ pl_inflight p → peek p sid = None)
  ∧ NoDup (ga_session <$> pl_spawns p).
Proof.
  assert (∀ q, live q = total (λ s, if sl_alive s then 1 else 0) (λ _, 1) q) as Hlive.
  { intros q. unfold live, total. by rewrite osum_one. }
  split_and!.
  - rewrite Hlive. apply (total_bounded _ _ measure_live c p outs); [done| |done]. intros q a Hc Ha.
    apply capacity_none in Hc as (Hl & _); [|done]. rewrite <-Hlive. lia.
  - intros t. apply (total_bounded _ _ (measure_tenant t) c p outs); [done| |done]. intros q a Hc Ha.
    apply capacity_none in Hc as (_ & _ & Hl); [|done]. cbn [fst]. case_bool_decide as E; [|by right].
    left. specialize (Hl t E). unfold live_for in Hl. unfold total. lia.
  - apply (total_bounded _ _ measure_mem c p outs); [done| |done]. intros q a Hc Ha.
    apply capacity_none in Hc as (_ & Hl & _); [|done]. left. exact Hl.
  - intros sid H. unfold peek, alive_slot. rewrite (pi_excl c p); [done|by eapply reach_pool_inv|done].
  - eapply pi_once, reach_pool_inv, Hr.
Qed.

Definition a1 : get_args := GetArgs 1 true None None None None None "off" false (Some 9%N) (Some 512) None None.
Definition c1 : pool_config := PoolConfig 1 1 512 1024 "medium" None (λ _, None).
Definition p1 : pool := (get_enter c1 new_pool a1 0).1.
Definition p2 : pool := (store_proc c1 p1 a1 7 true 5 []).1.
Lemma p1_spawning : pool_reach c1 p1 ([] ++ [SpawnBegins (ga_session a1)]).
Proof.
  eapply PoolStep; [apply PoolStart|]. eapply (StepGet _ _ a1 0); [reflexivity|by vm_compute|]. by vm_compute.
Qed.
Lemma p2_reached : pool_reach c1 p2 (([] ++ [SpawnBegins (ga_session a1)]) ++ [GetReturns (ga_session a1) 7]).
Proof.
  eapply PoolStep; [apply p1_spawning|]. apply (StepStored _ _ [] a1 [] 7 true 5); [reflexivity|by vm_compute|]. by vm_compute.
Qed.
Lemma pool_within_witness : live p2 = 1 ∧ used_mem p2 = 512 ∧ live p2 ≤ pc_max_sessions c1.
Proof.
  split; [by vm_compute|]. split; [by vm_compute|].
  exact (proj1 (pool_within c1 p2 _ ltac:(done) ltac:(done) ltac:(done) p2_reached)).
Defined.

(** ** A spawn that is cancelled *)

Inductive pool_run (c : pool_config) : pool → list pool_event → pool → Prop :=
| RunNil p : pool_run c p [] p
| RunCons p out q outs p' : pool_step c p out q → pool_run c q outs p' → pool_run c p (out ++ outs) p'.

Record stuck (c : pool_config) (sid : uuid) (p : pool) : Prop := {
  st_inv : pool_inv c p;
  st_inflight : sid ∈ pl_inflight p;
  st_nobody : sid ∉ ga_session <$> pl_spawns p
}.
Definition no_process (sid : uuid) (e : pool_event) : Prop :=
  match e with GetReturns s _ | SpawnBegins s => s ≠ sid | _ => True end.
Lemma stuck_quiet c sid p p' : stuck c sid p → pool_inv c p' → pl_inflight p' = pl_inflight p → pl_spawns p' = pl_spawns p → stuck c sid p'.
Proof. intros [] ? Hi Hs. split; rewrite ?Hi, ?Hs; done. Qed.
Lemma stuck_claimed c sid p a p' out :
  stuck c sid p → ga_session a ∉ pl_inflight p → pool_inv c p' → claimed c p a p' out → stuck c sid p' ∧ Forall (no_process sid) out.
Proof.
  intros Hst Hn Hi Hc. assert (ga_session a ≠ sid) as Hne by (intros E; apply Hn; rewrite E; exact (st_inflight _ _ _ Hst)).
  destruct Hc as [s s' now Hs _ _ _ _ _|code|Hs _]; (split; [|by apply list.Forall_singleton]); try (by eapply stuck_quiet).
  split; [done| |]; cbn; [set_unfold; right; exact (st_inflight _ _ _ Hst)|]. rewrite fmap_app. cbn.
  intros [H|H%list_elem_of_singleton]%elem_of_app; [exact (st_nobody _ _ _ Hst H)|congruence].
Qed.
Lemma spawns_less c sid p l1 a l2 : stuck c sid p → pl_spawns p = l1 ++ a :: l2 →
  ga_session a ≠ sid ∧ sid ∉ ga_session <$> l1 ++ l2 ∧ sid ∈ pl_inflight p ∖ {[ga_session a]}.
Proof.
  intros [_ Hf Hn] Hsp. rewrite Hsp, fmap_app in Hn. cbn in Hn. rewrite fmap_app. set_solver.
Qed.
Lemma after_turn_events sid p sid' p' out : after_turn p sid' = (p', out) → Forall (no_process sid) out.
Proof. unfold after_turn. intros H. repeat case_match; injection H as _ <-; by repeat constructor. Qed.
Lemma kill_end_events sid p k rest failed p' out : kill_end p k rest failed = (p', out) → Forall (no_process sid) out.
Proof.
  unfold kill_end. destruct failed; [intros [= _ <-]; constructor|]. destruct (after_turn _ _) as [q o] eqn:E.
  apply (after_turn_events sid) in E. intros [= _ <-]. apply Forall_app_2; [|done]. destruct (kl_proc k); by repeat constructor.
Qed.
Lemma stuck_step c sid p out p' :
  stuck c sid p → pool_step c p out p' → stuck c sid p' ∧ Forall (no_process sid) out.
Proof.
  intros Hst Hstep. pose proof (step_pool_inv _ _ _ _ (st_inv _ _ _ Hst) Hstep) as Hi.
  destruct Hstep as [p a now p' out Hl Hm Hg|p a now p' out Hl Hm Hg|p l1 a l2 proc al now p' out Hl Hsp Hg
    |p l1 a l2 Hl Hsp|p l1 a l2 Hsp|p sid' rel|p l1 k l2 p' out Hk Hph Hg|p l1 k l2 failed p' out Hk Hph Hg
    |p sid'|p sid' now|p sid'|p sid'|p sid'|p sid' p' out Hg]; try (by split; [eapply stuck_quiet|constructor]).
  - apply get_claims in Hg as [[-> ->]|[Hn [[-> ->]|Hc]]]; [by split; [|apply list.Forall_singleton]| |by eapply stuck_claimed].
    split; [by eapply stuck_quiet|constructor].
  - pose proof (pi_lock _ _ (st_inv _ _ _ Hst)) as Hk. rewrite Hl in Hk. destruct Hk as [Hn Hs].
    eapply stuck_claimed; [done..|]. eapply claim_claimed; [|done]. intros s. congruence.
  - destruct (spawns_less _ _ _ _ _ _ Hst Hsp) as (Hne & Hn & Hf). injection Hg as <- <-. split; [by split|by apply list.Forall_singleton].
  - destruct (spawns_less _ _ _ _ _ _ Hst Hsp) as (Hne & Hn & Hf). split; [by split|constructor].
  - destruct (spawns_less _ _ _ _ _ _ Hst Hsp) as (Hne & Hn & Hf). split; [|constructor]. split; [done|exact (st_inflight _ _ _ Hst)|done].
  - split; [|injection Hg as _ <-; by apply list.Forall_singleton]. apply kill_hook_quiet in Hg as [(_ & _ & Hf & Hs) _]. by eapply stuck_quiet.
  - split; [|by eapply kill_end_events]. apply kill_end_quiet in Hg as [(_ & _ & Hf & Hs) _]. by eapply stuck_quiet.
  - split; [|constructor]. eapply stuck_quiet; [done|done|..]; unfold die; by destruct (pl_slots p !! sid').
  - split; [|by eapply after_turn_events]. apply after_turn_same in Hg as [s ->]. by eapply stuck_quiet.
Qed.

(** A `get` that is cancelled while its process is spawned (the turn's timeout does
    that: `except Exception` does not see it) leaves its session in `_inflight` for good.
    Whatever steps follow, no process is spawned or returned for the session again, every
    later `get` of it only waits, and the place and the memory reserved for it stay taken. *)
Theorem cancelled_spawn_stuck (c : pool_config) (p : pool) (outs : list pool_event)
    (l1 : list get_args) (a : get_args) (l2 : list get_args) (more : list pool_event) (p' : pool)
    (Hr : pool_reach c p outs) (Hs : pl_spawns p = l1 ++ a :: l2)
    (Hrun : pool_run c (cancel_spawn p (l1 ++ l2)) more p') :
  (∀ n, GetReturns (ga_session a) n ∉ more) ∧ SpawnBegins (ga_session a) ∉ more
  ∧ (∀ b now, ga_session b = ga_session a → get_enter c p' b now = (p', [GetWaits (ga_session a)]))
  ∧ is_Some (pl_reserved p' !! ga_session a)
  ∧ peek p' (ga_session a) = None.
Proof.
  assert (stuck c (ga_session a) (cancel_spawn p (l1 ++ l2))) as Hst.
  { pose proof (reach_pool_inv _ _ _ Hr) as Hi. split; cbn.
    - by eapply step_pool_inv, StepSpawnCancelled.
    - eapply pi_keys; [done|]. rewrite (pi_spawns _ _ Hi a); [by eexists|]. rewrite Hs. set_solver.
    - pose proof (pi_once _ _ Hi) as Hn. rewrite Hs, fmap_app in Hn. cbn in Hn. rewrite fmap_app.
      apply list.NoDup_app in Hn as (_ & Hn2 & [Hn3 _]%list.NoDup_cons). intros [H|H]%elem_of_app; [|done].
      apply (Hn2 _ H). left. }
  clear Hr Hs. revert Hst. generalize (cancel_spawn p (l1 ++ l2)) as q, Hrun. clear Hrun. intros q Hrun Hst.
  assert (stuck c (ga_session a) p' ∧ Forall (no_process (ga_session a)) more) as [Hst' Hall].
  { induction Hrun as [q|q out q' more p' Hstep Hrun IH]; [done|]. apply (stuck_step _ _ _ _ _ Hst) in Hstep as [Hst' Hout].
    destruct (IH Hst') as [H1 H2]. split; [done|]. by apply Forall_app_2. }
  split_and!.
  - intros n Hn. rewrite list.Forall_forall in Hall. by apply (Hall _ Hn).
  - intros Hn. rewrite list.Forall_forall in Hall. by apply (Hall _ Hn).
  - intros b now E. unfold get_enter. rewrite E. rewrite decide_True; [done|apply (st_inflight _ _ _ Hst')].
  - eapply pi_keys; [apply (st_inv _ _ _ Hst')|apply (st_inflight _ _ _ Hst')].
  - unfold peek, alive_slot. rewrite (pi_excl c p'); [done|apply (st_inv _ _ _ Hst')|apply (st_inflight _ _ _ Hst')].
Qed.
(** With one session per worker, the timeout of one turn leaves the worker with none: even
    after a kill of the session, a turn of another session is refused. *)
Definition p3 : pool := cancel_spawn p1 [].
Definition p4 : pool := kill_begin p3 1 true false.
Definition a2 : get_args := GetArgs 2 true None None None None None "off" false (Some 9%N) (Some 512) None None.
Lemma cancelled_spawn_stuck_witness :
  get_enter c1 p4 a1 60 = (p4, [GetWaits 1]) ∧ is_Some (pl_reserved p4 !! (1%N : uuid))
  ∧ (get_enter c1 p4 a2 60).2 = [GetRefused 2 "capacity_tenant"].
Proof.
  assert (pool_run c1 p3 ([] ++ []) p4) as Hrun by (eapply RunCons; [apply (StepKill c1 p3 1 true)|apply RunNil]).
  pose proof (cancelled_spawn_stuck c1 p1 _ [] a1 [] _ p4 p1_spawning ltac:(by vm_compute) Hrun) as (_ & _ & Hg & Hr & _).
  split; [by apply Hg|]. split; [exact Hr|by vm_compute].
Defined.
