(* ===== verification/Serve.v ===== *)
(** * Serving the socket of one worker (src/src/apipi/workerhub/serve.py)

    The reader sorts each frame into a lane: control messages, durable envelopes, live
    deltas.  The lanes are tasks of their own, so an operation is cut where it awaits:
    [serve_step] is one step of one of them.  An envelope and a release are numbered as
    they arrive, which the theorems use.  Logs, metrics and the search service's answers
    are left out; what a transaction reads or how it ends is told by the step. *)

From stdpp Require Import sorting.
From S2P Require Import Prelude PyStd Protocol CommandQueue Db Fleet Commands Sandbox Usage Blobs Artifacts Accounting TurnState Ingest Hub.

Open Scope Z_scope.

Definition SEARCH_MAX_INFLIGHT : nat := 32.
Definition CONTROL_QUEUE_LIMIT : nat := 256.
Definition INGEST_QUEUE_LIMIT : nat := 2048.
Definition DELTA_QUEUE_LIMIT : nat := 1024.
Definition RELEASE_ATTEMPTS : nat := 3.
Definition INGEST_ATTEMPTS : nat := 3.
Definition KEEPALIVE_CLOSE_CODE : Z := 1011.
(** Why a socket that the peer closed ended. *)
Definition disconnect_reason (code : Z) : string :=
  if decide (code ∈ [1000; 1001]) then "clean"
  else if decide (code = KEEPALIVE_CLOSE_CODE) then "ping_timeout" else "error".

(** ** Messages *)

(** A control message as far as the server reads it; [COther] is a `register`. *)
Inductive control_msg : Type :=
| CHeartbeat
| CStoreProof
| CLeaseAck (id lease : uuid)
| CLeaseRelease (sid lease : uuid)
| CInventory (entries : list (uuid * option uuid))
| CSandboxSeen (ids : list uuid)
| COther.
Definition is_release (m : control_msg) : bool := match m with CLeaseRelease _ _ => true | _ => false end.
(** `_Control`, with the number of its arrival and whether `control.release` is set. *)
Record control : Type := Control {
  ct_no : nat; ct_msg : control_msg; ct_turns : option Z; ct_begun : bool
}.
(** `_Envelope` *)
Record arrived : Type := Arrived { ar_no : nat; ar_q : queued }.
Definition ar_session (a : arrived) : uuid := env_session (q_env (ar_q a)).
Inductive item : Type :=
| IEnvelope (a : arrived)
| IControl (c : control).

(** ** The connection *)

(** How far the handling of a control message has come. *)
Inductive phase : Type :=
| PhStart
| PhRead
| PhRelease (tenant : uuid)
| PhSettle (tenant : uuid).
Record handling : Type := Handling { hg_control : control; hg_phase : phase; hg_attempt : nat }.
(** A batch under way: what it has taken, what is left of it, and the release that waits for it. *)
Record batch : Type := Batch {
  bt_all : list arrived; bt_pending : list queued; bt_attempt : nat; bt_then : option control
}.
Record server : Type := Server {
  sv_next : nat;
  sv_put : option (bool * item);      (* what the reader waits to put, and whether into the ingest lane *)
  sv_control : list control;
  sv_ingest : list item;
  sv_deltas : list envelope;
  sv_batcher : list arrived;
  sv_batch : option batch;
  sv_handling : option handling;      (* of the control lane *)
  sv_ordered : option handling;       (* of the ingest lane *)
  sv_unflushed : gmap uuid Z;
  sv_acks_in : gset string;
  sv_releasing : gmap uuid uuid;
  sv_searches : nat;
  sv_first : option Z;                (* when the batch under collection began *)
  sv_over : bool                      (* the lanes end: [run] cancels them at their next await *)
}.
Definition new_server : server := Server 0 None [] [] [] [] None None None ∅ ∅ ∅ 0 None false.

Definition with_put (s : server) (v : option (bool * item)) : server :=
  Server (sv_next s) v (sv_control s) (sv_ingest s) (sv_deltas s) (sv_batcher s) (sv_batch s) (sv_handling s)
    (sv_ordered s) (sv_unflushed s) (sv_acks_in s) (sv_releasing s) (sv_searches s) (sv_first s)
    (sv_over s).
Definition with_control (s : server) (v : list control) : server :=
  Server (sv_next s) (sv_put s) v (sv_ingest s) (sv_deltas s) (sv_batcher s) (sv_batch s) (sv_handling s)
    (sv_ordered s) (sv_unflushed s) (sv_acks_in s) (sv_releasing s) (sv_searches s) (sv_first s)
    (sv_over s).
Definition with_ingest (s : server) (v : list item) : server :=
  Server (sv_next s) (sv_put s) (sv_control s) v (sv_deltas s) (sv_batcher s) (sv_batch s) (sv_handling s)
    (sv_ordered s) (sv_unflushed s) (sv_acks_in s) (sv_releasing s) (sv_searches s) (sv_first s)
    (sv_over s).
Definition with_lane_deltas (s : server) (v : list envelope) : server :=
  Server (sv_next s) (sv_put s) (sv_control s) (sv_ingest s) v (sv_batcher s) (sv_batch s) (sv_handling s)
    (sv_ordered s) (sv_unflushed s) (sv_acks_in s) (sv_releasing s) (sv_searches s) (sv_first s)
    (sv_over s).
Definition with_batcher (s : server) (q : list arrived) (first : option Z) : server :=
  Server (sv_next s) (sv_put s) (sv_control s) (sv_ingest s) (sv_deltas s) q (sv_batch s) (sv_handling s)
    (sv_ordered s) (sv_unflushed s) (sv_acks_in s) (sv_releasing s) (sv_searches s) first (sv_over s).
Definition with_batch (s : server) (b : option batch) : server :=
  Server (sv_next s) (sv_put s) (sv_control s) (sv_ingest s) (sv_deltas s) (sv_batcher s) b (sv_handling s)
    (sv_ordered s) (sv_unflushed s) (sv_acks_in s) (sv_releasing s) (sv_searches s) (sv_first s)
    (sv_over s).
Definition with_handling (s : server) (v : option handling) : server :=
  Server (sv_next s) (sv_put s) (sv_control s) (sv_ingest s) (sv_deltas s) (sv_batcher s) (sv_batch s) v
    (sv_ordered s) (sv_unflushed s) (sv_acks_in s) (sv_releasing s) (sv_searches s) (sv_first s)
    (sv_over s).
Definition with_ordered (s : server) (v : option handling) : server :=
  Server (sv_next s) (sv_put s) (sv_control s) (sv_ingest s) (sv_deltas s) (sv_batcher s) (sv_batch s)
    (sv_handling s) v (sv_unflushed s) (sv_acks_in s) (sv_releasing s) (sv_searches s) (sv_first s)
    (sv_over s).
Definition with_unflushed (s : server) (v : gmap uuid Z) : server :=
  Server (sv_next s) (sv_put s) (sv_control s) (sv_ingest s) (sv_deltas s) (sv_batcher s) (sv_batch s)
    (sv_handling s) (sv_ordered s) v (sv_acks_in s) (sv_releasing s) (sv_searches s) (sv_first s)
    (sv_over s).
Definition with_acks_in (s : server) (v : gset string) : server :=
  Server (sv_next s) (sv_put s) (sv_control s) (sv_ingest s) (sv_deltas s) (sv_batcher s) (sv_batch s)
    (sv_handling s) (sv_ordered s) (sv_unflushed s) v (sv_releasing s) (sv_searches s) (sv_first s)
    (sv_over s).
Definition with_releasing (s : server) (v : gmap uuid uuid) : server :=
  Server (sv_next s) (sv_put s) (sv_control s) (sv_ingest s) (sv_deltas s) (sv_batcher s) (sv_batch s)
    (sv_handling s) (sv_ordered s) (sv_unflushed s) (sv_acks_in s) v (sv_searches s) (sv_first s)
    (sv_over s).
Definition with_searches (s : server) (v : nat) : server :=
  Server (sv_next s) (sv_put s) (sv_control s) (sv_ingest s) (sv_deltas s) (sv_batcher s) (sv_batch s)
    (sv_handling s) (sv_ordered s) (sv_unflushed s) (sv_acks_in s) (sv_releasing s) v (sv_first s)
    (sv_over s).
Definition count_up (s : server) : server :=
  Server (S (sv_next s)) (sv_put s) (sv_control s) (sv_ingest s) (sv_deltas s) (sv_batcher s) (sv_batch s)
    (sv_handling s) (sv_ordered s) (sv_unflushed s) (sv_acks_in s) (sv_releasing s) (sv_searches s)
    (sv_first s) (sv_over s).
Definition end_lanes (s : server) : server :=
  Server (sv_next s) (sv_put s) (sv_control s) (sv_ingest s) (sv_deltas s) (sv_batcher s) (sv_batch s)
    (sv_handling s) (sv_ordered s) (sv_unflushed s) (sv_acks_in s) (sv_releasing s) (sv_searches s)
    (sv_first s) true.

(** ** The reader *)

(** `_put`: at once when there is room, else the reader waits. *)
Definition put (s : server) (ingest : bool) (i : item) : server :=
  if ingest then
    if decide (length (sv_ingest s) < INGEST_QUEUE_LIMIT)%nat then with_ingest s (sv_ingest s ++ [i])
    else with_put s (Some (true, i))
  else
    match i with
    | IControl c =>
        if decide (length (sv_control s) < CONTROL_QUEUE_LIMIT)%nat then with_control s (sv_control s ++ [c])
        else with_put s (Some (false, i))
    | IEnvelope _ => s
    end.

Section serve.
Context (validate_envelope : json → option envelope).
Context (validate_payload : string → list (string * json) → bool).
(** The control message of a type, if its fields are valid (pydantic). *)
Context (parse_control_fields : string → json → option control_msg).

(** `msg_type in WORKER_IN`: a value that has no hash raises. *)
Definition in_worker_in (message : json) : option bool :=
  match jfield "type" message with
  | Some (JArr _) | Some (JObj _) => None
  | Some (JStr t) => Some (bool_decide (t ∈ WORKER_IN))
  | _ => Some false
  end.
Definition search_type (message : json) : bool :=
  bool_decide (jstr (jfield "type" message) = Some "search.request"%string).
(** What one frame is: the reader raises, drops it, or hands it on. *)
Inductive sorted : Type :=
| Raises
| Dropped
| ToIngest (q : queued)
| ToDeltas (e : envelope)
| Search
| ToControl (m : control_msg).
(** `_classify`, `_parse_control` and the tests of `_dispatch`, up to what it does. *)
Definition sort_frame (message : json) (size : Z) : sorted :=
  match classify_incoming validate_envelope validate_payload message (Some size) with
  | Ok (InEnvelope e n) => ToIngest (Queued e n)
  | Ok (InEphemeral e _) => ToDeltas e
  | Err _ => Dropped
  | Ok InOther =>
      match in_worker_in message with
      | None => Raises
      | Some false => Dropped
      | Some true =>
          if search_type message then Search
          else match t ← jstr (jfield "type" message); parse_control_fields t message with
               | None => Dropped
               | Some m => ToControl m
               end
      end
  end.

(** `any(entry.op in CURSOR_OPS and entry.command_id not in self._acks_in ...)` *)
Definition crossed (s : server) (h : hub) (lease : uuid) : bool :=
  existsb (λ e, bool_decide (op e ∈ CURSOR_OPS) && negb (bool_decide (command_id e ∈ sv_acks_in s)))
    (for_lease (h_queue h) lease).
Definition unflushed (s : server) (sid : uuid) : Z := default 0 (sv_unflushed s !! sid).
(** `_dispatch`; [None]: it raises, and the connection ends. *)
Definition dispatch (s : server) (h : hub) (message : json) (size : Z) : option server :=
  match sort_frame message size with
  | Raises => None
  | Dropped => Some s
  | ToIngest q =>
      let sid := env_session (q_env q) in
      let s := with_unflushed s (<[sid := unflushed s sid + 1]> (sv_unflushed s)) in
      Some (put (count_up s) true (IEnvelope (Arrived (sv_next s) q)))
  | ToDeltas e =>
      Some (if decide (length (sv_deltas s) < DELTA_QUEUE_LIMIT)%nat then with_lane_deltas s (sv_deltas s ++ [e]) else s)
  | Search =>
      Some (if decide (SEARCH_MAX_INFLIGHT ≤ sv_searches s)%nat then s else with_searches s (S (sv_searches s)))
  | ToControl m =>
      match m with
      | COther => Some s
      | CLeaseAck id _ =>
          Some (put (with_acks_in s ({[str_of_uuid id]} ∪ sv_acks_in s)) false (IControl (Control (sv_next s) m None false)))
      | CLeaseRelease sid lease =>
          if crossed s h lease then Some s
          else Some (put (count_up s) (bool_decide (unflushed s sid ≠ 0))
                       (IControl (Control (sv_next s) m (Some (CommandQueue.turns (h_queue h) lease)) false)))
      | _ => Some (put s false (IControl (Control (sv_next s) m None false)))
      end
  end.
End serve.

(** ** Handling a control message *)

(** A lane is done with a message: `end_release`, if the release was noted. *)
Definition handled_control (h : hub) (c : control) : hub :=
  match ct_msg c with
  | CLeaseRelease _ lease => if ct_begun c then end_release h lease else h
  | _ => h
  end.
(** What the next step of a handling leads to: [inl], handling goes on; [inr], it is over. *)
Abbreviation handled_to := (handling + control)%type (only parsing).
Definition retry_release (hg : handling) : handled_to :=
  if bool_decide (S (hg_attempt hg) < RELEASE_ATTEMPTS)%nat && is_release (ct_msg (hg_control hg))
  then inl (Handling (hg_control hg) PhStart (S (hg_attempt hg))) else inr (hg_control hg).
Definition conn_leases (h : hub) (ref : N) : gset uuid := from_option c_leases ∅ (h_objs h !! ref).
(** The release, up to the row it reads. *)
Definition release_start (s : server) (h : hub) (ref : N) (hg : handling) (lease : uuid) : handled_to :=
  match sv_releasing s !! lease with
  | Some tenant => inl (Handling (hg_control hg) (PhRelease tenant) (hg_attempt hg))
  | None =>
      if decide (lease ∈ conn_leases h ref) then inl (Handling (hg_control hg) PhRead (hg_attempt hg))
      else inr (hg_control hg)
  end.
Definition release_found (s : server) (h : hub) (now : Z) (ref : N) (hg : handling) (lease : uuid) (row : option session_row)
    : server * hub * handled_to :=
  let c := hg_control hg in
  match row with
  | None => (s, h, inr c)
  | Some r =>
      if match ct_turns c with Some t => bool_decide (CommandQueue.turns (h_queue h) lease ≠ t) | None => false end
      then (s, h, inr c)
      else
        let s := with_releasing s (<[lease := s_tenant r]> (sv_releasing s)) in
        let h := update_conn h ref (λ k, set_leases k (c_leases k ∖ {[lease]}) (c_lease_mem k)) in
        (s, begin_release h now (s_id r) lease,
         inl (Handling (Control (ct_no c) (ct_msg c) (ct_turns c) true) (PhRelease (s_tenant r)) (hg_attempt hg)))
  end.
Section control.
Context (classify_host_message : string → failure).
Context (session_model : db → session_row → option string).

(** One step of `_handle` of a release; [fails]: what it awaits raises. *)
Definition release_step (s : server) (h : hub) (d : db) (now : Z) (e1 e2 e3 : uuid) (ref : N) (hg : handling)
    (sid lease : uuid) (fails : bool) : server * hub * db * handled_to * list publication :=
  match hg_phase hg with
  | PhStart => (s, h, d, release_start s h ref hg lease, [])
  | PhRead =>
      if fails then (s, h, d, retry_release hg, [])
      else
        let '(s, h, next) := release_found s h now ref hg lease (get_session_by_lease d lease) in (s, h, d, next, [])
  | PhRelease tenant =>
      if fails then (s, drop_lease_commands h lease, d, retry_release hg, [])
      else
        let '(h, d) := release_lease h d now tenant sid lease in
        (s, h, d, inl (Handling (hg_control hg) (PhSettle tenant) (hg_attempt hg)), [])
  | PhSettle tenant =>
      match fails, fail_stale_in_progress classify_host_message session_model d now e1 e2 e3 tenant sid
                     "Turn interrupted" with
      | false, Ok (d, out) => (with_releasing s (delete lease (sv_releasing s)), h, d, inr (hg_control hg), out)
      | _, _ => (s, h, d, retry_release hg, [])
      end
  end.
End control.

(** The claims and the leaseless directories of an inventory, as `_handle` splits them. *)
Definition inventory_claims (entries : list (uuid * option uuid)) : odict uuid uuid * list uuid :=
  foldl (λ (acc : odict uuid uuid * list uuid) (e : uuid * option uuid), match e.2 with
    | Some lease => (<[e.1 := lease]> acc.1, acc.2)
    | None => (acc.1, add_new acc.2 e.1)
    end) (∅, []) entries.

(** ** Events *)

Inductive serve_event : Type :=
| EvArrived (a : arrived)
| EvRelease (no : nat) (sid lease : uuid)      (* its handling begins *)
| EvAck (sid : uuid) (last_seq : Z)
| EvReply (r : presign_reply)
| EvPublished (w : wake)
| EvBatch (l : list arrived)                   (* a batch has ended, all of it applied *)
| EvClose (reason : string).

(** The event of a control message whose handling begins. *)
Definition began (c : control) : list serve_event :=
  match ct_msg c with CLeaseRelease sid lease => [EvRelease (ct_no c) sid lease] | _ => [] end.

(** ** The ingest lane *)

(** The batch under collection, as [Ingest.batcher] sees it. *)
Definition lane_batcher (max_messages : nat) (s : server) : batcher :=
  Batcher max_messages (8 * 1024 * 1024) (ar_q <$> sv_batcher s)
    (foldr Z.add 0 ((λ a, q_raw (ar_q a)) <$> sv_batcher s)) (sv_first s).
(** `_flush` begins, with the release that waits for it; nothing to flush ends it at once. *)
Definition begin_flush (s : server) (c : option control) : server * list serve_event :=
  match sv_batcher s, c with
  | [], None => (s, [])
  | [], Some c => (with_ordered s (Some (Handling c PhStart 0)), began c)
  | l, _ => (with_batch (with_batcher s [] None) (Some (Batch l (ar_q <$> l) 0 c)), [])
  end.
(** `_unflushed` once a batch has ended. *)
Definition count_down (m : gmap uuid Z) (sid : uuid) : gmap uuid Z :=
  let left := default 0 (m !! sid) - 1 in if 0 <? left then <[sid := left]> m else delete sid m.
Definition end_batch (s : server) (b : batch) : server :=
  with_unflushed (with_batch s None) (foldl count_down (sv_unflushed s) (ar_session <$> bt_all b)).
(** What follows a batch that was applied to its end. *)
Definition batch_done (s : server) (b : batch) : server * list serve_event :=
  let s := end_batch s b in
  match bt_then b with
  | Some c => (with_ordered s (Some (Handling c PhStart 0)), EvBatch (bt_all b) :: began c)
  | None => (s, [EvBatch (bt_all b)])
  end.
(** The text of an id orders as its number. *)
Definition ack_le (a b : uuid * Z) : Prop := (a.1 ≤ b.1)%N.
#[global] Instance ack_le_dec a b : Decision (ack_le a b).
Proof. unfold ack_le. solve_decision. Defined.

Section ingest.
Context {S : Type} `{ObjectStore S} (st : S).
Context (sha256_hex : list ascii → string).
Context (presign_url : list ascii → Z → string → string * list (string * json)).
Context (head_object : S → list ascii → res exn (option Z)).
Context (cfg : settings) (store : usage_store).
Context (session_model : db → session_row → option string).
Context (exn_str : exn → string) (library_code : exn → option string).
Context (fleet : fleet_settings) (ref : N) (worker : uuid) (run_mode : option string).

#[local] Abbreviation flush := (flush_batch sha256_hex presign_url head_object cfg store
  session_model exn_str library_code st).

(** `_after_flush`; [stored] is the generation of the worker's row. *)
Definition after_flush (h : hub) (d : db) (now : Z) (stored : option Z) (out : outcome)
    : hub * db * list serve_event :=
  let '(h, d) := renew_on_activity fleet h d now ref stored in
  let h := foldl (λ h w, note_stored_events h w.1 [w.2]) h (wakes out) in
  (h, d, (EvReply <$> presign_replies out)
         ++ ((λ p : uuid * Z, EvAck p.1 p.2) <$> merge_sort ack_le (oitems (acks out)))
         ++ (EvPublished <$> wakes out)).
(** A batch is given up: the close is asked for, and the lane goes on with the release
    that waits for the batch until it is cancelled where that awaits. *)
Definition abandon_batch (s : server) (b : batch) : server * list serve_event :=
  let s := end_lanes (end_batch s b) in
  match bt_then b with
  | Some c => (with_ordered s (Some (Handling c PhStart 0)), EvClose "ingest_failed" :: began c)
  | None => (s, [EvClose "ingest_failed"])
  end.
(** How a round that leaves [left] ends: the batch is done, tried again, or given up. *)
Definition end_round (s : server) (h : hub) (d : db) (b : batch) (left : list queued) (outs : list serve_event)
    : server * hub * db * list serve_event :=
  if decide (left = []) then let '(s, done) := batch_done s b in (s, h, d, outs ++ done)
  else if decide (Datatypes.S (bt_attempt b) < INGEST_ATTEMPTS)%nat
  then (with_batch s (Some (Batch (bt_all b) left (Datatypes.S (bt_attempt b)) (bt_then b))), h, d, outs)
  else
    let '(s, closing) := abandon_batch s b in
    (s, update_conn h ref (λ c, request_close c "ingest_failed"), d, outs ++ closing).
(** One round of `_apply_batch`: [d0] is what the prechecks read, [ios] what each envelope
    meets, [commit] how the transaction ends. *)
Definition apply_round (s : server) (h : hub) (d0 d : db) (now : Z) (stored : option Z) (b : batch)
    (ios : list io) (commit : option exn) : server * hub * db * list serve_event :=
  match flush d0 d worker run_mode (zip (bt_pending b) ios) commit with
  | Err _ => end_round s h d b (bt_pending b) []
  | Ok (d, out) => let '(h, d, outs) := after_flush h d now stored out in end_round s h d b (retry out) outs
  end.
End ingest.

(** ** Steps *)

Section steps.
Context {S : Type} `{ObjectStore S}.
Context (sha256_hex : list ascii → string).
Context (presign_url : list ascii → Z → string → string * list (string * json)).
Context (head_object : S → list ascii → res exn (option Z)).
Context (cfg : settings) (store : usage_store).
Context (session_model : db → session_row → option string).
Context (exn_str : exn → string) (library_code : exn → option string).
Context (classify_host_message : string → failure).
Context (validate_envelope : json → option envelope).
Context (validate_payload : string → list (string * json) → bool).
Context (parse_control_fields : string → json → option control_msg).
Context (fleet : fleet_settings) (ref : N) (worker : uuid) (run_mode : option string).
(** `worker_ingest_batch_size` and `worker_ingest_batch_window`. *)
Context (batch_size : nat) (window : Z).

(** A server with the hub and the database it works on. *)
Record world : Type := World { wo_sv : server; wo_hub : hub; wo_db : db }.

(** The parts of the two lanes that handle control messages. *)
Definition next_of (s : server) (ordered : bool) (hg : option handling) : server :=
  if ordered then with_ordered s hg else with_handling s hg.
Definition handling_of (s : server) (ordered : bool) : option handling :=
  if ordered then sv_ordered s else sv_handling s.
Definition settle_handling (s : server) (h : hub) (ordered : bool) (next : handling + control) : server * hub :=
  match next with
  | inl hg => (next_of s ordered (Some hg), h)
  | inr c => (next_of s ordered None, handled_control h c)
  end.
(** A lease ack: `hub.ack` and a renewal. *)
Definition handle_lease_ack (s : server) (h : hub) (d : db) (now : Z) (stored : option Z) (id lease : uuid)
    : server * hub * db :=
  let s := with_acks_in s (sv_acks_in s ∖ {[str_of_uuid id]}) in
  if decide (lease ∈ conn_leases h ref) then
    let '(h, d) := renew_on_activity fleet (hub_ack h lease (str_of_uuid id)).1 d now ref stored in (s, h, d)
  else (s, h, d).

(** Once a close is asked for ([sv_over]), the reader takes no further frame and no
    transaction of a batch ends: `run` cancels them where they await.  What a lane does
    without awaiting may still happen, so it may take items and begin to handle a release. *)
Inductive serve_step : world → list serve_event → world → Prop :=
| SvFrame s h d message size s' :
    sv_over s = false → sv_put s = None →
    dispatch validate_envelope validate_payload parse_control_fields s h message size = Some s' →
    serve_step (World s h d)
      (match sort_frame validate_envelope validate_payload parse_control_fields message size with
       | ToIngest q => [EvArrived (Arrived (sv_next s) q)] | _ => [] end) (World s' h d)
| SvPut s h d ingest i :
    sv_over s = false → sv_put s = Some (ingest, i) →
    (length (sv_ingest s) < INGEST_QUEUE_LIMIT)%nat ∨ ingest = false →
    (length (sv_control s) < CONTROL_QUEUE_LIMIT)%nat ∨ ingest = true →
    serve_step (World s h d) [] (World (put (with_put s None) ingest i) h d)
| SvDelta s h d e rest :
    sv_deltas s = e :: rest → serve_step (World s h d) [] (World (with_lane_deltas s rest) h d)
| SvSearched s h d n : sv_searches s = Datatypes.S n → serve_step (World s h d) [] (World (with_searches s n) h d)
| SvControl s h d c rest :
    sv_handling s = None → sv_control s = c :: rest →
    serve_step (World s h d) (began c) (World (with_handling (with_control s rest) (Some (Handling c PhStart 0))) h d)
| SvAck s h d hg id lease now stored s' h' d' :
    sv_handling s = Some hg → ct_msg (hg_control hg) = CLeaseAck id lease →
    handle_lease_ack s h d now stored id lease = (s', h', d') →
    serve_step (World s h d) [] (World (with_handling s' None) h' d')
| SvRelease s h d ordered hg sid lease now e1 e2 e3 fails s' h' d' next out s'' h'' :
    handling_of s ordered = Some hg → ct_msg (hg_control hg) = CLeaseRelease sid lease →
    release_step classify_host_message session_model s h d now e1 e2 e3 ref hg sid lease fails = (s', h', d', next, out) →
    settle_handling s' h' ordered next = (s'', h'') →
    serve_step (World s h d) [] (World s'' h'' d')
(* the other messages change the hub and the database only: see [SvElsewhere] *)
| SvOther s h d hg :
    sv_handling s = Some hg → is_release (ct_msg (hg_control hg)) = false →
    serve_step (World s h d) [] (World (with_handling s None) h d)
| SvTake s h d now i rest s' out :
    sv_batch s = None → sv_ordered s = None → sv_ingest s = i :: rest →
    (match i with
     | IControl c => if is_release (ct_msg c) then begin_flush (with_ingest s rest) (Some c) else (with_ingest s rest, [])
     | IEnvelope a =>
         let s := with_batcher (with_ingest s rest) (sv_batcher s ++ [a]) (Some (default now (sv_first s))) in
         if should_flush now window (lane_batcher batch_size s) then begin_flush s None else (s, [])
     end) = (s', out) →
    serve_step (World s h d) out (World s' h d)
| SvTimeout s h d s' out :
    sv_batch s = None → sv_ordered s = None → sv_batcher s ≠ [] →
    begin_flush s None = (s', out) → serve_step (World s h d) out (World s' h d)
| SvRound s h d b st d0 now stored ios commit s' h' d' out :
    sv_over s = false → sv_batch s = Some b → length ios = length (bt_pending b) →
    apply_round st sha256_hex presign_url head_object cfg store session_model exn_str library_code
      fleet ref worker run_mode s h d0 d now stored b ios commit = (s', h', d', out) →
    serve_step (World s h d) out (World s' h' d')
(* the rest of the program *)
| SvElsewhere s h d h' d' : serve_step (World s h d) [] (World s h' d').
Inductive serve_reach : world → list serve_event → Prop :=
| ServeStart h d : serve_reach (World new_server h d) []
| ServeStep w outs out w' : serve_reach w outs → serve_step w out w' → serve_reach w' (outs ++ out).
End steps.
