(* ===== verification/ServeProps.v ===== *)
(** * Serving a worker's socket: the order of envelopes and releases

    [lanes_ok] is kept by every step of [Serve.serve_step]; with it, a release is handled
    only after everything its session reported before it was applied, or on a connection
    that is closing because a batch was given up. *)

From stdpp Require Import sorting.
From S2P Require Import Prelude PyStd Protocol CommandQueue Db Fleet Commands Sandbox Usage Blobs Artifacts Accounting TurnState Ingest IngestSpec IngestProps Hub Serve.

Open Scope Z_scope.

(** ** What is on its way through the ingest lane *)

Definition number (i : item) : nat := match i with IEnvelope a => ar_no a | IControl c => ct_no c end.
Definition env_of (i : item) : option arrived := match i with IEnvelope a => Some a | IControl _ => None end.
Definition envs (l : list item) : list arrived := omap env_of l.
Definition batch_items (s : server) : list item :=
  match sv_batch s with
  | Some b => (IEnvelope <$> bt_all b) ++ match bt_then b with Some c => [IControl c] | None => [] end
  | None => []
  end.
Definition put_ingest (s : server) : list item := match sv_put s with Some (true, i) => [i] | _ => [] end.
Definition put_control (s : server) : list control := match sv_put s with Some (false, IControl c) => [c] | _ => [] end.
Definition pipe (s : server) : list item :=
  batch_items s ++ (IEnvelope <$> sv_batcher s) ++ sv_ingest s ++ put_ingest s.
Definition controls (s : server) : list control := sv_control s ++ put_control s.
Definition count_of (sid : uuid) (l : list arrived) : Z :=
  Z.of_nat (length (filter (λ a, ar_session a = sid) l)).

Lemma envs_app l1 l2 : envs (l1 ++ l2) = envs l1 ++ envs l2.
Proof. apply omap_app. Qed.
Lemma envs_fmap l : envs (IEnvelope <$> l) = l.
Proof. induction l as [|a l IH]; [done|]. cbn. f_equal. exact IH. Qed.
Lemma elem_of_envs a l : a ∈ envs l ↔ IEnvelope a ∈ l.
Proof.
  unfold envs. rewrite list_elem_of_omap. split; [intros ([b|c] & H & E); by inv E|]. intros H. by exists (IEnvelope a).
Qed.
Lemma count_of_app sid l1 l2 : count_of sid (l1 ++ l2) = count_of sid l1 + count_of sid l2.
Proof. unfold count_of. rewrite list.filter_app, length_app. lia. Qed.
Lemma count_of_cons sid a l : count_of sid (a :: l) = (if decide (ar_session a = sid) then 1 else 0) + count_of sid l.
Proof. unfold count_of. rewrite filter_cons. case_decide; cbn [length]; lia. Qed.
Lemma count_of_zero sid l a : count_of sid l = 0 → a ∈ l → ar_session a ≠ sid.
Proof.
  unfold count_of. intros Hn Ha E. assert (a ∈ filter (λ a, ar_session a = sid) l) as H by by apply list_elem_of_filter.
  destruct (filter _ l); [by apply not_elem_of_nil in H|cbn in Hn; lia].
Qed.
Lemma count_of_nonneg sid l : 0 ≤ count_of sid l.
Proof. unfold count_of. lia. Qed.

Lemma count_down_lookup m sid sid' :
  default 0 (count_down m sid !! sid') =
  if decide (sid = sid') then Z.max 0 (default 0 (m !! sid') - 1) else default 0 (m !! sid').
Proof.
  unfold count_down. case_decide as E.
  - subst. destruct (0 <? default 0 (m !! sid') - 1) eqn:Hl; [rewrite lookup_insert_eq|rewrite lookup_delete_eq]; cbn; lia.
  - destruct (0 <? _); [by rewrite lookup_insert_ne|by rewrite lookup_delete_ne].
Qed.
Lemma count_down_all (l : list arrived) m sid n :
  0 ≤ n → default 0 (m !! sid) = n + count_of sid l →
  default 0 (foldl count_down m (ar_session <$> l) !! sid) = n.
Proof.
  revert m. induction l as [|a l IH]; intros m Hn Hm; [cbn in *; unfold count_of in Hm; cbn in Hm; lia|].
  cbn [fmap list_fmap foldl]. apply IH; [done|]. rewrite count_down_lookup. rewrite count_of_cons in Hm.
  pose proof (count_of_nonneg sid l). case_decide; lia.
Qed.

(** ** The invariant *)

(** The close that a batch given up asks for. *)
Definition gave_up : serve_event := EvClose "ingest_failed".
(** An envelope was in a batch that was applied, or the connection is closing because one
    was given up. *)
Definition served (outs : list serve_event) (a : arrived) : Prop :=
  (∃ l, EvBatch l ∈ outs ∧ a ∈ l) ∨ gave_up ∈ outs.
Definition followed (outs : list serve_event) : Prop :=
  ∀ o1 no sid lease o2, outs = o1 ++ EvRelease no sid lease :: o2 →
    ∀ a, EvArrived a ∈ outs → ar_session a = sid → (ar_no a < no)%nat → served o1 a.
Record lanes_ok (s : server) (outs : list serve_event) : Prop := {
  lo_sorted : StronglySorted lt (number <$> pipe s);
  lo_below : Forall (λ i, (number i < sv_next s)%nat) (pipe s);
  lo_count : ∀ sid, unflushed s sid = count_of sid (envs (pipe s));
  lo_releases : ∀ c, IControl c ∈ pipe s → is_release (ct_msg c) = true;
  lo_control : ∀ c sid lease, c ∈ controls s → ct_msg c = CLeaseRelease sid lease →
    (ct_no c < sv_next s)%nat ∧ ∀ a, a ∈ envs (pipe s) → ar_session a = sid → (ct_no c < ar_no a)%nat;
  lo_arrived : ∀ a, EvArrived a ∈ outs →
    (ar_no a < sv_next s)%nat ∧ (sv_over s = true ∨ a ∈ envs (pipe s) ∨ ∃ l, EvBatch l ∈ outs ∧ a ∈ l);
  lo_released : ∀ no sid lease, EvRelease no sid lease ∈ outs → (no < sv_next s)%nat;
  lo_followed : followed outs;
  lo_over : sv_over s = true → gave_up ∈ outs;
  lo_control_len : (length (sv_control s) ≤ CONTROL_QUEUE_LIMIT)%nat;
  lo_ingest_len : (length (sv_ingest s) ≤ INGEST_QUEUE_LIMIT)%nat;
  lo_deltas_len : (length (sv_deltas s) ≤ DELTA_QUEUE_LIMIT)%nat
}.

Definition plain (e : serve_event) : Prop :=
  match e with EvArrived _ | EvRelease _ _ _ => False | _ => True end.
Lemma followed_plain outs out : followed outs → Forall plain out → followed (outs ++ out).
Proof.
  intros Hf Hp o1 no sid lease o2 E a Ha Hs Hlt.
  assert (EvArrived a ∈ outs) as Ha'.
  { apply elem_of_app in Ha as [Ha|Ha]; [done|]. rewrite list.Forall_forall in Hp. by apply Hp in Ha. }
  apply app_eq_inv in E as [(k & E1 & E2)|(k & E1 & E2)].
  - destruct k as [|x k]; cbn in E2.
    + subst out. apply Forall_cons_1 in Hp as [[] _].
    + injection E2 as <- ->. by apply (Hf o1 no sid lease k E1 a).
  - subst out. apply Forall_app in Hp as [_ Hp]. apply Forall_cons_1 in Hp as [[] _].
Qed.
(** A release that begins now, when its session has nothing before it on the way. *)
Lemma followed_release outs no sid lease :
  followed outs →
  (∀ a, EvArrived a ∈ outs → ar_session a = sid → (ar_no a < no)%nat → served outs a) →
  followed (outs ++ [EvRelease no sid lease]).
Proof.
  intros Hf Hn o1 no' sid' lease' o2 E a Ha Hs Hlt.
  assert (EvArrived a ∈ outs) as Ha' by (apply elem_of_app in Ha as [Ha|Ha]; [done|by apply list_elem_of_singleton in Ha]).
  apply app_eq_inv in E as [(k & E1 & E2)|(k & E1 & E2)].
  - destruct k as [|x k]; cbn in E2.
    + rewrite app_nil_r in E1. injection E2 as -> -> -> ->. subst. by eapply Hn.
    + injection E2 as <- ->. by apply (Hf o1 no' sid' lease' k E1 a).
  - destruct k as [|x k]; cbn in E2; [|by destruct k]. injection E2 as <- <- <- <-. rewrite app_nil_r in E1. subst o1. by eapply Hn.
Qed.
Lemma followed_arrived outs a n :
  followed outs → (∀ no sid lease, EvRelease no sid lease ∈ outs → (no < n)%nat) → ar_no a = n → followed (outs ++ [EvArrived a]).
Proof.
  intros Hf Hr Hn o1 no sid lease o2 E b Hb Hs Hlt.
  assert (EvRelease no sid lease ∈ outs) as Hin.
  { assert (EvRelease no sid lease ∈ outs ++ [EvArrived a]) as H by (rewrite E; set_solver).
    apply elem_of_app in H as [H|H%list_elem_of_singleton]; [done|done]. }
  apply elem_of_app in Hb as [Hb|Hb%list_elem_of_singleton]; [|injection Hb as ->; apply Hr in Hin; lia].
  apply app_eq_inv in E as [(k & E1 & E2)|(k & E1 & E2)].
  - destruct k as [|x k]; [done|]. injection E2 as <- ->. by eapply (Hf o1 no sid lease k).
  - destruct k as [|x k]; cbn in E2; [done|]. by destruct k.
Qed.

(** ** Steps that keep what is on its way *)

Lemma lanes_move s s' outs out :
  lanes_ok s outs → pipe s' = pipe s → (∀ c, c ∈ controls s' → c ∈ controls s ∨ is_release (ct_msg c) = false) →
  sv_next s' = sv_next s → sv_unflushed s' = sv_unflushed s → sv_over s' = sv_over s →
  (length (sv_control s') ≤ CONTROL_QUEUE_LIMIT)%nat → (length (sv_ingest s') ≤ INGEST_QUEUE_LIMIT)%nat →
  (length (sv_deltas s') ≤ DELTA_QUEUE_LIMIT)%nat → Forall plain out → lanes_ok s' (outs ++ out).
Proof.
  intros [] Hp Hc Hn Hu Ho H1 H2 H3 Hout. pose proof (proj1 (list.Forall_forall _ _) Hout) as Hplain. split; rewrite ?Hp, ?Hn, ?Ho; try done.
  - intros sid. unfold unflushed. rewrite Hu. apply lo_count0.
  - intros c sid lease Hin Hm. destruct (Hc c Hin) as [Hin'|Hr]; [by eapply lo_control0|by rewrite Hm in Hr].
  - intros a [Ha|Ha]%elem_of_app; [|by apply Hplain in Ha].
    destruct (lo_arrived0 a Ha) as [Hlt [?|[?|(l & ? & ?)]]]; split; auto. right. right. exists l. set_solver.
  - intros no sid lease [Hr|Hr]%elem_of_app; [by eapply lo_released0|by apply Hplain in Hr].
  - by apply followed_plain.
  - intros Hov. apply elem_of_app. left. by apply lo_over0.
Qed.
Lemma lanes_same s s' outs :
  lanes_ok s outs → pipe s' = pipe s → controls s' = controls s → sv_next s' = sv_next s →
  sv_unflushed s' = sv_unflushed s → sv_over s' = sv_over s → sv_control s' = sv_control s →
  sv_ingest s' = sv_ingest s → (length (sv_deltas s') ≤ DELTA_QUEUE_LIMIT)%nat → lanes_ok s' outs.
Proof.
  intros Hl Hp Hc Hn Hu Ho H1 H2 H3. rewrite <- (app_nil_r outs). eapply lanes_move; try done; rewrite ?H1, ?H2; try apply Hl.
  rewrite Hc. auto.
Qed.
Lemma lanes_event s outs out : lanes_ok s outs → Forall plain out → lanes_ok s (outs ++ out).
Proof.
  intros Hl Hp. apply (lanes_move s s); try done; [by left|exact (lo_control_len _ _ Hl)|exact (lo_ingest_len _ _ Hl)|exact (lo_deltas_len _ _ Hl)].
Qed.
(** The handling of [c] begins. *)
Lemma lanes_began s outs c :
  lanes_ok s outs →
  (∀ sid lease, ct_msg c = CLeaseRelease sid lease →
    (ct_no c < sv_next s)%nat ∧ ∀ a, a ∈ envs (pipe s) → ar_session a = sid → (ct_no c < ar_no a)%nat) →
  lanes_ok s (outs ++ began c).
Proof.
  intros Hl Hc. unfold began. destruct (ct_msg c) as [| | |sid lease| | |] eqn:E; try by rewrite app_nil_r.
  destruct (Hc sid lease eq_refl) as [Hlt Ha]. destruct Hl. split; try done.
  - intros a [H|H%list_elem_of_singleton]%elem_of_app; [|done]. destruct (lo_arrived0 a H) as [Hlt' [?|[?|(l & ? & ?)]]]; split; auto.
    right. right. exists l. set_solver.
  - intros no sid' lease' [H|H%list_elem_of_singleton]%elem_of_app; [by eapply lo_released0|]. by injection H as -> -> ->.
  - apply followed_release; [done|]. intros a H Hs Hno. destruct (lo_arrived0 a H) as [_ [Hov|[Hin|?]]]; [right; by apply lo_over0| |by left].
    specialize (Ha a Hin Hs). lia.
  - intros Hov. apply elem_of_app. left. by apply lo_over0.
Qed.

Lemma put_true s i : sv_put s = None → pipe (put s true i) = pipe s ++ [i].
Proof.
  intros Hp. unfold put. case_decide; unfold pipe, put_ingest, batch_items; cbn; rewrite Hp; by rewrite !app_nil_r, <- !app_assoc.
Qed.
Lemma put_false s c : sv_put s = None →
  pipe (put s false (IControl c)) = pipe s ∧ controls (put s false (IControl c)) = controls s ++ [c].
Proof.
  intros Hp. unfold put. case_decide; unfold pipe, put_ingest, batch_items, controls, put_control; cbn; rewrite Hp; by rewrite !app_nil_r.
Qed.
Lemma put_rest s b i :
  sv_next (put s b i) = sv_next s ∧ sv_unflushed (put s b i) = sv_unflushed s ∧ sv_over (put s b i) = sv_over s
  ∧ sv_deltas (put s b i) = sv_deltas s.
Proof. unfold put. destruct b; [by case_decide|]. destruct i; [done|]. by case_decide. Qed.
Lemma put_lens s b i :
  ((length (sv_control s) ≤ CONTROL_QUEUE_LIMIT) → (length (sv_ingest s) ≤ INGEST_QUEUE_LIMIT) →
  (length (sv_control (put s b i)) ≤ CONTROL_QUEUE_LIMIT) ∧ (length (sv_ingest (put s b i)) ≤ INGEST_QUEUE_LIMIT))%nat.
Proof.
  intros H1 H2. unfold put. destruct b.
  - case_decide; cbn; rewrite ?length_app; cbn; split; lia.
  - destruct i as [|c]; [done|]. case_decide; cbn; rewrite ?length_app; cbn; split; lia.
Qed.
Lemma put_true_controls s i : sv_put s = None → controls (put s true i) = controls s.
Proof. intros Hp. unfold put. case_decide; unfold controls, put_control; cbn; by rewrite Hp. Qed.

Lemma sorted_snoc (l : list nat) n : StronglySorted lt l → Forall (λ x, x < n)%nat l → StronglySorted lt (l ++ [n]).
Proof.
  induction 1 as [|x l Hl IH Hx]; intros Hn; [by repeat constructor|]. apply Forall_cons_1 in Hn as [Hxn Hn].
  cbn. constructor; [by apply IH|]. apply Forall_app_2; [done|by constructor].
Qed.
(** Something numbered now joins the ingest lane. *)
Lemma lanes_append s outs i :
  lanes_ok s outs → sv_put s = None → number i = sv_next s →
  (∃ c, i = IControl c ∧ is_release (ct_msg c) = true) →
  lanes_ok (put (count_up s) true i) outs.
Proof.
  intros Hl Hp Hn Hi. pose proof (put_true (count_up s) i Hp) as Hpipe. change (pipe (count_up s)) with (pipe s) in Hpipe.
  pose proof (put_true_controls (count_up s) i Hp) as Hc. change (controls (count_up s)) with (controls s) in Hc.
  destruct (put_rest (count_up s) true i) as (Hnx & Hu & Ho & Hd).
  change (sv_next (count_up s)) with (S (sv_next s)) in Hnx. change (sv_unflushed (count_up s)) with (sv_unflushed s) in Hu.
  change (sv_over (count_up s)) with (sv_over s) in Ho. change (sv_deltas (count_up s)) with (sv_deltas s) in Hd.
  destruct (put_lens (count_up s) true i ltac:(apply Hl) ltac:(apply Hl)) as [Hl1 Hl2]. destruct Hl.
  assert (envs (pipe s ++ [i]) = envs (pipe s)) as He.
  { rewrite envs_app. destruct Hi as (c & -> & _). by rewrite app_nil_r. }
  split; rewrite ?Hpipe, ?Hnx, ?Hc, ?Ho, ?Hd, ?He; try done.
  - rewrite fmap_app. cbn. rewrite Hn. apply sorted_snoc; [done|]. apply Forall_fmap. exact lo_below0.
  - apply list.Forall_forall. intros x [Hx|Hx%list_elem_of_singleton]%elem_of_app; rewrite ?Hnx; [|subst; lia].
    pose proof (proj1 (list.Forall_forall _ _) lo_below0 x Hx). cbn in *. lia.
  - intros sid. unfold unflushed. rewrite Hu. apply lo_count0.
  - intros c [Hin|Hin%list_elem_of_singleton]%elem_of_app; [by apply lo_releases0|]. destruct Hi as (c' & -> & Hr). by injection Hin as ->.
  - intros c sid lease Hin Hm. destruct (lo_control0 c sid lease Hin Hm) as [H1 H2]. split; [lia|done].
  - intros a Ha. destruct (lo_arrived0 a Ha) as [H1 H2]. split; [lia|done].
  - intros no sid lease Hr. specialize (lo_released0 no sid lease Hr). lia.
Qed.
Lemma lanes_arrive s outs q :
  lanes_ok s outs → sv_put s = None →
  lanes_ok (put (count_up (with_unflushed s (<[env_session (q_env q) := unflushed s (env_session (q_env q)) + 1]> (sv_unflushed s))))
              true (IEnvelope (Arrived (sv_next s) q))) (outs ++ [EvArrived (Arrived (sv_next s) q)]).
Proof.
  intros Hl Hp. set (s1 := count_up _). set (a := Arrived _ q).
  pose proof (put_true s1 (IEnvelope a) Hp) as Hpipe. change (pipe s1) with (pipe s) in Hpipe.
  pose proof (put_true_controls s1 (IEnvelope a) Hp) as Hc. change (controls s1) with (controls s) in Hc.
  destruct (put_rest s1 true (IEnvelope a)) as (Hnx & Hu & Ho & Hd). change (sv_next s1) with (S (sv_next s)) in Hnx.
  change (sv_unflushed s1) with (<[ar_session a := unflushed s (ar_session a) + 1]> (sv_unflushed s)) in Hu.
  change (sv_over s1) with (sv_over s) in Ho. change (sv_deltas s1) with (sv_deltas s) in Hd.
  destruct (put_lens s1 true (IEnvelope a) ltac:(apply Hl) ltac:(apply Hl)) as [Hl1 Hl2]. destruct Hl.
  assert (envs (pipe s ++ [IEnvelope a]) = envs (pipe s) ++ [a]) as He by by rewrite envs_app.
  split; rewrite ?Hpipe, ?Hnx, ?Hc, ?Ho, ?Hd, ?He; try done.
  - rewrite fmap_app. apply sorted_snoc; [done|]. apply Forall_fmap. exact lo_below0.
  - apply list.Forall_forall. intros x [Hx|Hx%list_elem_of_singleton]%elem_of_app; rewrite ?Hnx; [|subst; cbn; lia].
    pose proof (proj1 (list.Forall_forall _ _) lo_below0 x Hx). cbn in *. lia.
  - intros sid. unfold unflushed. rewrite Hu, count_of_app, <- (lo_count0 sid). unfold unflushed.
    change (count_of sid [a]) with (count_of sid ([] ++ [a])). unfold count_of. cbn [app]. rewrite filter_cons, filter_nil.
    destruct (decide (ar_session a = sid)) as [<-|Hne].
    + rewrite lookup_insert_eq. cbn. unfold unflushed. lia.
    + rewrite lookup_insert_ne by done. cbn. lia.
  - intros c [Hin|Hin%list_elem_of_singleton]%elem_of_app; [by apply lo_releases0|done].
  - intros c sid lease Hin Hm. destruct (lo_control0 c sid lease Hin Hm) as [H1 H2]. split; [lia|].
    intros b [Hb|Hb%list_elem_of_singleton]%elem_of_app Hs; [by apply H2|by subst b].
  - intros b [Hb|Hb%list_elem_of_singleton]%elem_of_app.
    + destruct (lo_arrived0 b Hb) as [H1 [?|[?|(l & ? & ?)]]]; (split; [lia|]); [by left| |].
      * right. left. set_solver.
      * right. right. exists l. set_solver.
    + injection Hb as ->. split; [cbn; lia|]. right. left. set_solver.
  - intros no sid lease [Hr|Hr%list_elem_of_singleton]%elem_of_app; [|done]. specialize (lo_released0 no sid lease Hr). lia.
  - by apply (followed_arrived _ _ (sv_next s)).
  - intros Hov. apply elem_of_app. left. by apply lo_over0.
Qed.
Lemma lanes_control s outs c :
  lanes_ok s outs → sv_put s = None →
  (∀ sid lease, ct_msg c = CLeaseRelease sid lease → (ct_no c < sv_next s)%nat ∧
     ∀ a, a ∈ envs (pipe s) → ar_session a = sid → (ct_no c < ar_no a)%nat) →
  lanes_ok (put s false (IControl c)) outs.
Proof.
  intros Hl Hp Hc. destruct (put_false s c Hp) as [Hpipe Hcs]. destruct (put_rest s false (IControl c)) as (Hnx & Hu & Ho & Hd).
  destruct (put_lens s false (IControl c) ltac:(apply Hl) ltac:(apply Hl)) as [Hl1 Hl2]. destruct Hl.
  split; rewrite ?Hpipe, ?Hnx, ?Hcs, ?Ho, ?Hd; try done.
  - intros sid. unfold unflushed. rewrite Hu. apply lo_count0.
  - intros c' sid lease [Hin|Hin%list_elem_of_singleton]%elem_of_app Hm; [by eapply lo_control0|]. subst c'. by eapply Hc.
Qed.
(** A number is used up. *)
Lemma lanes_count_up s outs : lanes_ok s outs → lanes_ok (count_up s) outs.
Proof.
  intros []. split; try done.
  - eapply list.Forall_impl; [exact lo_below0|]. intros x Hx. cbn in *. lia.
  - intros c sid lease Hin Hm. destruct (lo_control0 c sid lease Hin Hm) as [H1 H2]. split; [cbn; lia|done].
  - intros a Ha. destruct (lo_arrived0 a Ha) as [H1 H2]. split; [cbn; lia|done].
  - intros no sid lease Hr. specialize (lo_released0 no sid lease Hr). cbn. lia.
Qed.

Section lanes.
Context (validate_envelope : json → option envelope).
Context (validate_payload : string → list (string * json) → bool).
Context (parse_control_fields : string → json → option control_msg).

Lemma dispatch_ok s h message size s' outs :
  lanes_ok s outs → sv_put s = None →
  dispatch validate_envelope validate_payload parse_control_fields s h message size = Some s' →
  lanes_ok s' (outs ++ match sort_frame validate_envelope validate_payload parse_control_fields message size with
    | ToIngest q => [EvArrived (Arrived (sv_next s) q)] | _ => [] end).
Proof.
  intros Hl Hp. unfold dispatch. destruct (sort_frame _ _ _ message size) as [| |q|e| |m]; intros Heq; try discriminate Heq.
  - injection Heq as <-. by rewrite app_nil_r.
  - injection Heq as <-. by apply lanes_arrive.
  - injection Heq as <-. rewrite app_nil_r. case_decide as Hlen; [|done]. eapply lanes_same; try exact Hl; try done.
    cbn. rewrite length_app. cbn. unfold DELTA_QUEUE_LIMIT in *. lia.
  - injection Heq as <-. rewrite app_nil_r. case_decide; [done|]. eapply lanes_same; try exact Hl; try done. exact (lo_deltas_len _ _ Hl).
  - rewrite app_nil_r. destruct m as [| |id lease|sid lease|l|l|]; try (injection Heq as <-).
    + by apply lanes_control.
    + by apply lanes_control.
    + eapply (lanes_control (with_acks_in s _)); [|done|done]. eapply lanes_same; try exact Hl; try done. exact (lo_deltas_len _ _ Hl).
    + destruct (crossed s h lease); injection Heq as <-; [done|].
      destruct (bool_decide (unflushed s sid ≠ 0)) eqn:Hu; [by apply lanes_append; eauto|]. apply bool_decide_eq_false in Hu.
      apply lanes_control; [by apply lanes_count_up|done|]. intros sid' lease' [= <- <-]. split; [cbn; lia|].
      intros a Ha Hs. exfalso. assert (unflushed s sid = 0) as H0 by (destruct (decide (unflushed s sid = 0)); [done|by destruct Hu]).
      rewrite (lo_count _ _ Hl) in H0. by eapply (count_of_zero sid (envs (pipe s)) a).
    + by apply lanes_control.
    + by apply lanes_control.
    + done.
Qed.
End lanes.

(** ** The ingest lane *)

Lemma pipe_fields s s' :
  sv_batch s' = sv_batch s → sv_batcher s' = sv_batcher s → sv_ingest s' = sv_ingest s → sv_put s' = sv_put s → pipe s' = pipe s.
Proof. intros H1 H2 H3 H4. unfold pipe, batch_items, put_ingest. by rewrite H1, H2, H3, H4. Qed.
(** The first item of the pipe leaves it, with the count of it, if it is an envelope. *)
Lemma lanes_drop s s' outs l :
  lanes_ok s outs → pipe s = l ++ pipe s' → controls s' = controls s → sv_next s' = sv_next s →
  (∀ sid, unflushed s' sid = unflushed s sid - count_of sid (envs l)) →
  sv_control s' = sv_control s → (length (sv_ingest s') ≤ INGEST_QUEUE_LIMIT)%nat → sv_deltas s' = sv_deltas s →
  (∀ a, a ∈ envs l → sv_over s' = true ∨ ∃ l', EvBatch l' ∈ outs ∧ a ∈ l') → (sv_over s = true → sv_over s' = true) →
  (sv_over s' = true → gave_up ∈ outs) →
  lanes_ok s' outs.
Proof.
  intros [] Hp Hc Hn Hu H1 H2 H3 Hb Ho Hov. rewrite Hp, ?fmap_app, ?envs_app in *.
  split; rewrite ?Hn, ?Hc, ?H1, ?H3; try done.
  - by apply StronglySorted_app_1_r in lo_sorted0.
  - by apply Forall_app in lo_below0 as [_ ?].
  - intros sid. rewrite Hu, lo_count0, count_of_app. lia.
  - intros c Hin. apply lo_releases0. set_solver.
  - intros c sid lease Hin Hm. destruct (lo_control0 c sid lease Hin Hm) as [Ha Hd]. split; [done|].
    intros a Hin' Hs. apply Hd; [set_solver|done].
  - intros a Ha. destruct (lo_arrived0 a Ha) as [Hlt [?|[Hin|?]]]; split; auto.
    apply elem_of_app in Hin as [Hin|Hin]; [|auto]. destruct (Hb a Hin); auto.
Qed.

Lemma begin_flush_ok s outs c s' out :
  lanes_ok s outs → sv_batch s = None →
  (∀ k, c = Some k → ∀ sid lease, ct_msg k = CLeaseRelease sid lease → (ct_no k < sv_next s)%nat ∧
     ∀ a, a ∈ envs (pipe s) → ar_session a = sid → a ∈ sv_batcher s ∨ (ct_no k < ar_no a)%nat) →
  sv_batcher s = [] → begin_flush s c = (s', out) → lanes_ok s' (outs ++ out).
Proof.
  intros Hl Hb Hc Hq. unfold begin_flush. rewrite Hq. destruct c as [k|]; intros [= <- <-]; [|by rewrite app_nil_r].
  apply lanes_began.
  - eapply lanes_same; [exact Hl|by apply pipe_fields|done..|exact (lo_deltas_len _ _ Hl)].
  - intros sid lease Hm. destruct (Hc k eq_refl sid lease Hm) as [H1 H2]. split; [done|]. intros a Ha Hs.
    destruct (H2 a Ha Hs) as [Hin|]; [|done]. rewrite Hq in Hin. by apply not_elem_of_nil in Hin.
Qed.
(** A flush of something keeps the pipe: the batch is what was collected. *)
Lemma begin_flush_pipe s s' out :
  sv_batch s = None → begin_flush s None = (s', out) →
  out = [] ∧ pipe s' = pipe s ∧ controls s' = controls s ∧ sv_next s' = sv_next s ∧ sv_unflushed s' = sv_unflushed s
  ∧ sv_over s' = sv_over s ∧ sv_control s' = sv_control s ∧ sv_ingest s' = sv_ingest s ∧ sv_deltas s' = sv_deltas s.
Proof.
  intros Hb. unfold begin_flush. destruct (sv_batcher s) as [|a l] eqn:Hq; intros [= <- <-]; [done|]. split_and!; try done.
  unfold pipe, batch_items. cbn. rewrite Hb, Hq. cbn. by rewrite app_nil_r.
Qed.
(** What a batch takes with it when it ends. *)
Section ended.
Context (s : server) (b : batch) (outs : list serve_event).
Context (Hl : lanes_ok s outs) (Hb : sv_batch s = Some b).
#[local] Abbreviation taken := ((IEnvelope <$> bt_all b) ++ match bt_then b with Some c => [IControl c] | None => [] end).

Lemma ended_pipe : pipe s = taken ++ pipe (end_batch s b).
Proof. unfold pipe, batch_items. cbn. by rewrite Hb. Qed.
Lemma ended_envs : envs taken = bt_all b.
Proof. rewrite envs_app, envs_fmap. destruct (bt_then b); by rewrite app_nil_r. Qed.
Lemma ended_count sid : unflushed (end_batch s b) sid = unflushed s sid - count_of sid (envs taken).
Proof.
  unfold unflushed, end_batch. cbn. apply count_down_all.
  - pose proof (lo_count _ _ Hl sid) as Hc. rewrite ended_pipe, envs_app, count_of_app in Hc. unfold unflushed in Hc.
    pose proof (count_of_nonneg sid (envs (pipe (end_batch s b)))). lia.
  - rewrite ended_envs. lia.
Qed.
(** The release that waited for the batch comes before what is left. *)
Lemma ended_then c :
  bt_then b = Some c → (ct_no c < sv_next s)%nat ∧ ∀ a, a ∈ envs (pipe (end_batch s b)) → (ct_no c < ar_no a)%nat.
Proof.
  intros Ht. pose proof ended_pipe as Hp. rewrite Ht in Hp.
  pose proof (lo_below _ _ Hl) as Hlt. rewrite Hp in Hlt. apply Forall_app in Hlt as [Hlt _].
  apply Forall_app in Hlt as [_ Hlt]. apply Forall_cons_1 in Hlt as [Hlt _]. split; [exact Hlt|].
  intros a Ha. pose proof (lo_sorted _ _ Hl) as Hso. rewrite Hp in Hso. rewrite <- app_assoc, !fmap_app in Hso.
  apply StronglySorted_app_1_r in Hso. apply elem_of_envs in Ha.
  assert (StronglySorted lt (ct_no c :: (number <$> pipe (end_batch s b)))) as Hso' by exact Hso.
  apply StronglySorted_inv in Hso' as [_ Hall]. rewrite list.Forall_forall in Hall.
  apply (Hall (ar_no a)). change (ar_no a) with (number (IEnvelope a)). by apply list_elem_of_fmap_2.
Qed.
End ended.

Lemma batch_done_ok s b outs s' out :
  lanes_ok s outs → sv_batch s = Some b → batch_done s b = (s', out) → lanes_ok s' (outs ++ out).
Proof.
  intros Hl Hb Hd.
  assert (lanes_ok (end_batch s b) (outs ++ [EvBatch (bt_all b)])) as H1.
  { apply (lanes_drop s _ _ ((IEnvelope <$> bt_all b) ++ match bt_then b with Some c => [IControl c] | None => [] end)); try done.
    - apply lanes_event; [done|by repeat constructor].
    - by apply ended_pipe.
    - intros sid. by apply (ended_count _ _ outs).
    - apply Hl.
    - intros a Ha. right. exists (bt_all b). rewrite ended_envs in Ha. set_solver.
    - intros Hov. apply elem_of_app. left. by apply (lo_over _ _ Hl). }
  unfold batch_done in Hd. destruct (bt_then b) as [c|] eqn:Ht; injection Hd as <- <-; [|done].
  change (EvBatch (bt_all b) :: began c) with ([EvBatch (bt_all b)] ++ began c). rewrite app_assoc.
  destruct (ended_then s b outs Hl Hb c Ht) as [Hn Hlt]. apply lanes_began.
  - eapply lanes_same; [exact H1|by apply pipe_fields|done..|exact (lo_deltas_len _ _ H1)].
  - intros sid lease _. split; [exact Hn|]. intros a Ha _. by apply Hlt.
Qed.

(** A batch that is given up. *)
Lemma abandon_ok s b outs s' out :
  lanes_ok s outs → sv_batch s = Some b → abandon_batch s b = (s', out) → lanes_ok s' (outs ++ out).
Proof.
  intros Hl Hb Hd.
  assert (lanes_ok (end_lanes (end_batch s b)) (outs ++ [gave_up])) as H1.
  { apply (lanes_drop s _ _ ((IEnvelope <$> bt_all b) ++ match bt_then b with Some c => [IControl c] | None => [] end)); try done.
    - apply lanes_event; [done|by repeat constructor].
    - by apply ended_pipe.
    - intros sid. by apply (ended_count _ _ outs).
    - apply Hl.
    - by left.
    - intros _. apply elem_of_app. right. by left. }
  unfold abandon_batch in Hd. destruct (bt_then b) as [c|] eqn:Ht; injection Hd as <- <-; [|done].
  change (EvClose "ingest_failed" :: began c) with ([gave_up] ++ began c). rewrite app_assoc.
  destruct (ended_then s b outs Hl Hb c Ht) as [Hn Hlt]. apply lanes_began.
  - eapply lanes_same; [exact H1|by apply pipe_fields|done..|exact (lo_deltas_len _ _ H1)].
  - intros sid lease _. split; [exact Hn|]. intros a Ha _. by apply Hlt.
Qed.

Section step.
Context {S : Type} `{ObjectStore S}.
Context (sha256_hex : list ascii → string).
Context (presign_url : list ascii → Z → string → string * list (string * json)).
Context (head_object : S → list ascii → res exn (option Z)).
Context (cfg : settings) (store : usage_store).
Context (session_model : db → session_row → option string).
Context (exn_str : exn → string) (library_code : exn → option string).
Context (classify_host_message : string → failure).
Context (validate_envelope : json → option envelope).
Context (validate_payload : string → list (string * json) → bool).
Context (parse_control_fields : string → json → option control_msg).
Context (fleet : fleet_settings) (ref : N) (worker : uuid) (run_mode : option string).
Context (batch_size : nat) (window : Z).
#[local] Abbreviation step := (serve_step (S:=S) sha256_hex presign_url head_object cfg store session_model exn_str
  library_code classify_host_message validate_envelope validate_payload parse_control_fields fleet ref worker run_mode
  batch_size window).
#[local] Abbreviation reach := (serve_reach (S:=S) sha256_hex presign_url head_object cfg store session_model exn_str
  library_code classify_host_message validate_envelope validate_payload parse_control_fields fleet ref worker run_mode
  batch_size window).

Lemma after_flush_plain h d now stored out h' d' outs :
  after_flush fleet ref h d now stored out = (h', d', outs) → Forall plain outs.
Proof.
  unfold after_flush. destruct (renew_on_activity _ _ _ _ _ _) as [h1 d1]. intros [= _ _ <-].
  repeat apply Forall_app_2; apply list.Forall_forall; intros e (x & -> & _)%list_elem_of_fmap; done.
Qed.
Lemma round_ok st s h d0 d now stored b ios commit s' h' d' out outs :
  lanes_ok s outs → sv_batch s = Some b →
  apply_round st sha256_hex presign_url head_object cfg store session_model exn_str library_code fleet ref worker run_mode
    s h d0 d now stored b ios commit = (s', h', d', out) → lanes_ok s' (outs ++ out).
Proof.
  intros Hl Hb. unfold apply_round.
  assert (∀ left h d o s' h' d' out, Forall plain o → end_round ref s h d b left o = (s', h', d', out) → lanes_ok s' (outs ++ out)) as Hafter.
  { clear s' h' d' out. intros left h1 d1 o s' h' d' out Hplain. unfold end_round. case_decide as Hleft.
    - destruct (batch_done s b) as [s1 done] eqn:Hd. intros [= <- <- <- <-]. rewrite app_assoc.
      eapply batch_done_ok; [by apply lanes_event|done|done].
    - case_decide.
      + intros [= <- <- <- <-]. apply lanes_event; [|done]. eapply lanes_same; [exact Hl|..]; try done; [|exact (lo_deltas_len _ _ Hl)].
        unfold pipe, batch_items. cbn. by rewrite Hb.
      + destruct (abandon_batch s b) as [s1 closing] eqn:Hg. intros [= <- <- <- <-]. rewrite app_assoc.
        eapply abandon_ok; [by apply lanes_event|done|done]. }
  destruct (flush_batch _ _ _ _ _ _ _ _ _ _ _ _ _ _ _) as [[d1 o]|e]; [|intros Heq; by eapply Hafter in Heq].
  destruct (after_flush fleet ref h d1 now stored o) as [[h2 d2] outs2] eqn:Hf. intros Heq.
  eapply Hafter in Heq; [done|]. by eapply after_flush_plain.
Qed.

Lemma release_step_fields s h d now e1 e2 e3 hg sid lease fails s' h' d' next out :
  release_step classify_host_message session_model s h d now e1 e2 e3 ref hg sid lease fails = (s', h', d', next, out) →
  ∃ r, s' = with_releasing s r.
Proof.
  assert (∃ r, s = with_releasing s r) as Hs by (exists (sv_releasing s); by destruct s).
  unfold release_step. destruct (hg_phase hg).
  - intros [= <- _ _ _ _]. done.
  - destruct fails; [intros [= <- _ _ _ _]; done|]. unfold release_found.
    repeat case_match; intros; simplify_eq; done || by eexists.
  - destruct fails; [intros [= <- _ _ _ _]; done|]. destruct (release_lease _ _ _ _ _ _) as [h1 d1]. intros [= <- _ _ _ _]. done.
  - destruct fails; [intros [= <- _ _ _ _]; done|]. destruct (fail_stale_in_progress _ _ _ _ _ _ _ _ _) as [[d1 o]|]; intros [= <- _ _ _ _]; [by eexists|done].
Qed.
Lemma put_waiting_ok s outs ingest i :
  lanes_ok s outs → sv_put s = Some (ingest, i) → lanes_ok (put (with_put s None) ingest i) outs.
Proof.
  intros Hl Hp. destruct (put_rest (with_put s None) ingest i) as (Hn & Hu & Ho & Hd).
  destruct (put_lens (with_put s None) ingest i ltac:(apply Hl) ltac:(apply Hl)) as [H1 H2].
  rewrite <- (app_nil_r outs).
  assert (pipe (put (with_put s None) ingest i) = pipe s ∧
    ∀ c, c ∈ controls (put (with_put s None) ingest i) → c ∈ controls s) as [Hpipe Hc].
  { assert (pipe (with_put s None) ++ put_ingest s = pipe s) as Hs
      by (unfold pipe, put_ingest, batch_items; cbn; by rewrite app_nil_r, <- !app_assoc).
    assert (controls (with_put s None) ++ put_control s = controls s) as Hs'
      by (unfold controls, put_control; cbn; by rewrite app_nil_r).
    destruct ingest.
    - rewrite put_true, put_true_controls by done. unfold put_ingest in Hs. rewrite Hp in Hs. split; [done|]. intros c Hc.
      rewrite <- Hs'. set_solver.
    - assert (put_ingest s = []) as Hi by (unfold put_ingest; by rewrite Hp). rewrite Hi, app_nil_r in Hs.
      destruct i as [a|c]; [split; [done|intros c Hc; rewrite <- Hs'; cbn in Hc; set_solver]|].
      destruct (put_false (with_put s None) c eq_refl) as [-> ->]. split; [done|]. unfold put_control in Hs'. rewrite Hp in Hs'.
      by rewrite Hs'. }
  apply (lanes_move s); try done; [by intros c Hin; left; apply Hc|]. rewrite Hd. exact (lo_deltas_len _ _ Hl).
Qed.
Lemma take_ok s outs now i rest s' out :
  lanes_ok s outs → sv_batch s = None → sv_ingest s = i :: rest →
  (match i with
   | IControl c => if is_release (ct_msg c) then begin_flush (with_ingest s rest) (Some c) else (with_ingest s rest, [])
   | IEnvelope a =>
       let s := with_batcher (with_ingest s rest) (sv_batcher s ++ [a]) (Some (default now (sv_first s))) in
       if should_flush now window (lane_batcher batch_size s) then begin_flush s None else (s, [])
   end) = (s', out) → lanes_ok s' (outs ++ out).
Proof.
  intros Hl Hb Hi. pose proof (lo_ingest_len _ _ Hl) as Hlen. rewrite Hi in Hlen. cbn [length] in Hlen. destruct i as [a|c].
  - set (s1 := with_batcher _ _ _). intros Heq.
    assert (pipe s1 = pipe s) as Hp by (unfold pipe, batch_items; cbn; rewrite Hi, Hb, fmap_app; cbn; by rewrite <- !app_assoc).
    assert (lanes_ok s1 outs) as H1.
    { rewrite <- (app_nil_r outs). apply (lanes_move s); try done; [by left|exact (lo_control_len _ _ Hl)|cbn; lia|exact (lo_deltas_len _ _ Hl)]. }
    cbv zeta in Heq. destruct (should_flush now window (lane_batcher batch_size s1)); [|injection Heq as <- <-; by rewrite app_nil_r].
    apply begin_flush_pipe in Heq as (-> & Hp' & Hc & Hn & Hu & Hov & H2 & H3 & H4); [|done].
    rewrite app_nil_r. apply (lanes_same s1); try done. rewrite H4. exact (lo_deltas_len _ _ H1).
  - set (s1 := with_ingest s rest). destruct (is_release (ct_msg c)) eqn:Hr.
    2: { assert (IControl c ∈ pipe s) as Hin by (unfold pipe; rewrite Hi; set_solver).
         apply (lo_releases _ _ Hl) in Hin. congruence. }
    intros Heq. destruct (sv_batcher s) as [|b l] eqn:Hq.
    + assert (pipe s = [IControl c] ++ pipe s1) as Hp by (unfold pipe, batch_items; cbn; by rewrite Hi, Hb, Hq).
      assert (lanes_ok s1 outs) as H1.
      { apply (lanes_drop s s1 outs [IControl c]); try done.
        - intros sid. unfold unflushed, count_of. cbn. lia.
        - cbn. lia.
        - intros a Ha. by apply not_elem_of_nil in Ha.
        - apply Hl. }
      eapply (begin_flush_ok s1); [exact H1|done| |done|exact Heq]. intros k [= <-] sid lease Hm.
      pose proof (lo_below _ _ Hl) as Hlt. rewrite Hp in Hlt. apply Forall_cons_1 in Hlt as [Hlt _]. split; [exact Hlt|].
      intros a Ha _. right. pose proof (lo_sorted _ _ Hl) as Hso. rewrite Hp in Hso. apply StronglySorted_inv in Hso as [_ Hall].
      apply elem_of_envs in Ha. rewrite list.Forall_forall in Hall. apply (Hall (ar_no a)).
      change (ar_no a) with (number (IEnvelope a)). by apply list_elem_of_fmap_2.
    + unfold begin_flush in Heq. change (sv_batcher s1) with (sv_batcher s) in Heq. rewrite Hq in Heq. injection Heq as <- <-.
      apply (lanes_move s); try done; [|by left|exact (lo_control_len _ _ Hl)|cbn; lia|exact (lo_deltas_len _ _ Hl)].
      unfold pipe, batch_items. cbn. rewrite Hi, Hb, Hq. cbn. by rewrite <- !app_assoc.
Qed.

Lemma step_lanes w outs out w' : lanes_ok (wo_sv w) outs → step w out w' → lanes_ok (wo_sv w') (outs ++ out).
Proof.
  intros Hl Hst. destruct Hst as [s h d message size s' Ho Hp Hd|s h d ingest i Ho Hp _ _|s h d e rest He|s h d n He
    |s h d c rest Hh Hc|s h d hg id lease now stored s' h' d' Hh Hm Heq
    |s h d ordered hg sid lease now e1 e2 e3 fails s' h' d' next out s'' h'' Hh Hm Hr Hs|s h d hg Hh Hm
    |s h d now i rest s' out Hb Hor Hi Heq|s h d s' out Hb Hor Hq Heq|s h d b st d0 now stored ios commit s' h' d' out Ho Hb Hlen Heq
    |s h d h' d']; cbn [wo_sv] in *; rewrite ?app_nil_r; try done.
  - by eapply dispatch_ok.
  - by apply put_waiting_ok.
  - eapply lanes_same; try exact Hl; try done. pose proof (lo_deltas_len _ _ Hl) as Hd. cbn. rewrite He in Hd. cbn in Hd. lia.
  - eapply lanes_same; try exact Hl; try done. exact (lo_deltas_len _ _ Hl).
  - set (s1 := with_handling (with_control s rest) _).
    assert (lanes_ok s1 outs) as H1.
    { rewrite <- (app_nil_r outs). apply (lanes_move s); try done.
      - intros k Hk. left. unfold controls in *. rewrite Hc. cbn in Hk. set_solver.
      - pose proof (lo_control_len _ _ Hl) as Hlen. rewrite Hc in Hlen. cbn in *. lia.
      - exact (lo_ingest_len _ _ Hl).
      - exact (lo_deltas_len _ _ Hl). }
    apply lanes_began; [done|]. intros sid lease Hm. apply (lo_control _ _ Hl c sid lease); [|done].
    unfold controls. rewrite Hc. set_solver.
  - unfold handle_lease_ack in Heq. case_decide; [destruct (renew_on_activity _ _ _ _ _ _) as [h1 d1]|]; injection Heq as <- <- <-;
      (eapply lanes_same; [exact Hl|done..|exact (lo_deltas_len _ _ Hl)]).
  - apply release_step_fields in Hr as [r ->]. unfold settle_handling, next_of in Hs.
    destruct next; injection Hs as <- <-; destruct ordered; (eapply lanes_same; [exact Hl|done..|exact (lo_deltas_len _ _ Hl)]).
  - eapply lanes_same; [exact Hl|done..|exact (lo_deltas_len _ _ Hl)].
  - by eapply take_ok.
  - apply begin_flush_pipe in Heq as (-> & Hp' & Hc & Hn & Hu & Hov & H2 & H3 & H4); [|done].
    rewrite app_nil_r. apply (lanes_same s); try done. rewrite H4. exact (lo_deltas_len _ _ Hl).
  - by eapply round_ok.
Qed.
Lemma new_lanes_ok : lanes_ok new_server [].
Proof.
  split; try (cbn; unfold CONTROL_QUEUE_LIMIT, INGEST_QUEUE_LIMIT, DELTA_QUEUE_LIMIT; lia);
    try (by constructor); try done.
  - intros c Hin. by apply not_elem_of_nil in Hin.
  - intros c sid lease Hin. by apply not_elem_of_nil in Hin.
  - intros a Hin. by apply not_elem_of_nil in Hin.
  - intros no sid lease Hin. by apply not_elem_of_nil in Hin.
  - intros o1 no sid lease o2 E. by destruct o1.
Qed.
Lemma reach_lanes w outs : reach w outs → lanes_ok (wo_sv w) outs.
Proof. induction 1; [apply new_lanes_ok|by eapply step_lanes]. Qed.

(** C39: In every order of frames, lanes and failures, when the handling of a release
    begins, each envelope of its session that arrived on the connection before the
    release was in a batch that was applied to its end, or the connection is already
    closing because a batch was given up after its last attempt (a release waiting
    behind that batch is still begun); and no lane holds more than its limit. *)
Theorem release_in_order w outs o1 no sid lease o2 :
  reach w outs → outs = o1 ++ EvRelease no sid lease :: o2 →
  (∀ a, EvArrived a ∈ outs → ar_session a = sid → (ar_no a < no)%nat →
     (∃ l, EvBatch l ∈ o1 ∧ a ∈ l) ∨ EvClose "ingest_failed" ∈ o1)
  ∧ (length (sv_control (wo_sv w)) ≤ CONTROL_QUEUE_LIMIT)%nat
  ∧ (length (sv_ingest (wo_sv w)) ≤ INGEST_QUEUE_LIMIT)%nat
  ∧ (length (sv_deltas (wo_sv w)) ≤ DELTA_QUEUE_LIMIT)%nat.
Proof.
  intros Hr E. destruct (reach_lanes _ _ Hr). split_and!; [|done..]. intros a. by apply (lo_followed0 o1 no sid lease o2 E).
Qed.
End step.

(** What a frame can do to the connection.  A frame that is a JSON object is put into a
    lane or dropped and the connection goes on, except for one that is no envelope and
    whose `type` is a list or an object: the test of the type raises, nothing catches it,
    and the connection ends. *)
Theorem frame_ends_connection validate_envelope validate_payload parse_control_fields s h message size :
  dispatch validate_envelope validate_payload parse_control_fields s h message size = None
  ↔ is_v2 message = false ∧ ∃ v, jfield "type" message = Some v ∧ match v with JArr _ | JObj _ => True | _ => False end.
Proof.
  assert (dispatch validate_envelope validate_payload parse_control_fields s h message size = None
    ↔ sort_frame validate_envelope validate_payload parse_control_fields message size = Raises) as ->.
  { unfold dispatch. destruct (sort_frame _ _ _ message size) as [| | | | |[]]; try done. by destruct (crossed _ _ _). }
  unfold sort_frame, classify_incoming. destruct (is_v2 message) eqn:Hv.
  - split; [|by intros [? _]]. cbn [negb]. destruct (parse_envelope _ _ _) as [e|[]]; [|done..]. by case_decide.
  - cbn [negb]. unfold in_worker_in. destruct (jfield "type" message) as [v|] eqn:Ht.
    2: { split; [done|]. intros (_ & v & ? & _). done. }
    split.
    + intros Hr. split; [done|]. exists v. split; [done|]. destruct v; try done. exfalso. revert Hr.
      destruct (bool_decide _); [|done]. destruct (search_type message); [done|]. cbn. by destruct (parse_control_fields _ _).
    + intros (_ & v' & [= <-] & Hm). by destruct v.
Qed.

(** ** A turn's envelope and the release of its session, one after the other *)

Definition sv_read (_ : json) : option envelope := Some (q_env ing_start.1).
Definition sv_release : json := JObj [("type", JStr "lease.release")]%string.
Definition sv_parse (_ : string) (_ : json) : option control_msg := Some (CLeaseRelease 2 4).
Definition sv_fleet : fleet_settings := FleetSettings 512 1024 2048 60000000.
Definition sv_envelope : json := JObj [("v", JInt 2)]%string.
Definition sv_then (s : server) (message : json) : server :=
  default s (dispatch sv_read (λ _ _, true) sv_parse s empty_hub message 100).
Definition sv1 : server := sv_then new_server sv_envelope.
Definition sv2 : server := sv_then sv1 sv_release.
Definition sv3 : server := (begin_flush (with_batcher (with_ingest sv2 (tail (sv_ingest sv2))) [Arrived 0 ing_start.1] (Some 0)) None).1.
Definition sv_batch3 : batch := default (Batch [] [] 0 None) (sv_batch sv3).
Definition sv_round : server * hub * db * list serve_event :=
  apply_round (∅ : gmap (list ascii) (list ascii)) demo_sha demo_url demo_head demo_settings StoreTurns (λ _ _, None) (λ _, ""%string)
    (λ _, None) sv_fleet 1 9 None sv3 empty_hub ing_db ing_db 11 None sv_batch3 [ing_io 11 None] None.
Definition sv5 : server := (begin_flush (with_ingest sv_round.1.1.1 []) (Some (Control 1 (CLeaseRelease 2 4) (Some 0) false))).1.
Definition sv_outs : list serve_event :=
  ((([] ++ [EvArrived (Arrived 0 ing_start.1)]) ++ []) ++ []) ++ sv_round.2 ++ [EvRelease 1 2 4].
#[local] Abbreviation sv_reach := (serve_reach (S:=gmap (list ascii) (list ascii)) demo_sha demo_url demo_head demo_settings StoreTurns
  (λ _ _, None) (λ _, ""%string) (λ _, None) no_classify sv_read (λ _ _, true) sv_parse sv_fleet 1 9 None 1 1000000).
Lemma sv_round_eq : sv_round = (sv_round.1.1.1, sv_round.1.1.2, sv_round.1.2, sv_round.2).
Proof. by destruct sv_round as [[[s h] d] o]. Qed.
Lemma sv_run : sv_reach (World sv5 sv_round.1.1.2 sv_round.1.2) sv_outs.
Proof.
  unfold sv_outs. rewrite (app_assoc _ sv_round.2). eapply ServeStep; [eapply ServeStep; [eapply ServeStep; [eapply ServeStep; [eapply ServeStep; [apply (ServeStart _ _ _ _ _ _ _ _ _ _ _ _ _ _ _ _ _ _ empty_hub ing_db)|]|]|]|]|].
  - refine (SvFrame _ _ _ _ _ _ _ _ _ _ _ _ _ _ _ _ _ _ new_server empty_hub ing_db sv_envelope 100 sv1 _ _ _); reflexivity.
  - refine (SvFrame _ _ _ _ _ _ _ _ _ _ _ _ _ _ _ _ _ _ sv1 empty_hub ing_db sv_release 100 sv2 _ _ _); reflexivity.
  - eapply (SvTake _ _ _ _ _ _ _ _ _ _ _ _ _ _ _ _ _ _ sv2 empty_hub ing_db 0 (IEnvelope (Arrived 0 ing_start.1)) _ sv3 []); reflexivity.
  - eapply (SvRound _ _ _ _ _ _ _ _ _ _ _ _ _ _ _ _ _ _ sv3 empty_hub ing_db sv_batch3 ∅ ing_db 11 None [ing_io 11 None] None
      sv_round.1.1.1 sv_round.1.1.2 sv_round.1.2 sv_round.2); [reflexivity..|exact sv_round_eq].
  - eapply (SvTake _ _ _ _ _ _ _ _ _ _ _ _ _ _ _ _ _ _ _ _ _ 0 (IControl (Control 1 (CLeaseRelease 2 4) (Some 0) false)) [] sv5); vm_compute; reflexivity.
Qed.
Lemma sv_outs_split : ∃ o1, sv_outs = o1 ++ EvRelease 1 2 4 :: [] ∧ EvArrived (Arrived 0 ing_start.1) ∈ o1.
Proof.
  unfold sv_outs. generalize sv_round.2. intros o. exists (EvArrived (Arrived 0 ing_start.1) :: o). split; [done|left].
Qed.
Lemma release_in_order_witness :
  ∃ o1, sv_outs = o1 ++ EvRelease 1 2 4 :: []
    ∧ ((∃ l, EvBatch l ∈ o1 ∧ Arrived 0 ing_start.1 ∈ l) ∨ EvClose "ingest_failed" ∈ o1).
Proof.
  destruct sv_outs_split as (o1 & E & Ha).
  pose proof (release_in_order demo_sha demo_url demo_head demo_settings StoreTurns (λ _ _, None) (λ _, ""%string) (λ _, None)
    no_classify sv_read (λ _ _, true) sv_parse sv_fleet 1 9 None 1 1000000 _ sv_outs o1 1 2 4 [] sv_run E) as [Hr _].
  exists o1. split; [exact E|].
  apply (Hr (Arrived 0 ing_start.1)); [rewrite E; apply elem_of_app; by left|reflexivity|by apply Nat.lt_0_1].
Defined.

(** *** A release that waits behind a batch that is given up *)

Definition gu_control : control := Control 1 (CLeaseRelease 2 4) (Some 0) false.
Definition gu3 : server := with_batcher (with_ingest sv2 (tail (sv_ingest sv2))) [Arrived 0 ing_start.1] (Some 0).
Definition gu4 : server := (begin_flush (with_ingest gu3 []) (Some gu_control)).1.
(** A round whose transaction fails to commit. *)
Definition gu_round (s : server) (h : hub) : server * hub * db * list serve_event :=
  apply_round (∅ : gmap (list ascii) (list ascii)) demo_sha demo_url demo_head demo_settings StoreTurns (λ _ _, None) (λ _, ""%string)
    (λ _, None) sv_fleet 1 9 None s h ing_db ing_db 11 None (default (Batch [] [] 0 None) (sv_batch s)) [ing_io 11 None]
    (Some TimeoutExn).
Definition gu5 : server := (gu_round gu4 empty_hub).1.1.1.
Definition gu6 : server := (gu_round gu5 empty_hub).1.1.1.
Definition gu7 : server * hub * db * list serve_event := gu_round gu6 empty_hub.
#[local] Abbreviation gu_reach := (serve_reach (S:=gmap (list ascii) (list ascii)) demo_sha demo_url demo_head demo_settings StoreTurns
  (λ _ _, None) (λ _, ""%string) (λ _, None) no_classify sv_read (λ _ _, true) sv_parse sv_fleet 1 9 None 2 1000000).
Definition gu_outs : list serve_event :=
  (((((([] ++ [EvArrived (Arrived 0 ing_start.1)]) ++ []) ++ []) ++ []) ++ []) ++ []) ++ [EvClose "ingest_failed"; EvRelease 1 2 4].

(** The third failed round closes the connection and begins to handle the release, whose
    session's envelope was never applied. *)
Lemma release_after_abandon :
  ∃ w, gu_reach w gu_outs ∧ EvRelease 1 2 4 ∈ gu_outs
    ∧ EvArrived (Arrived 0 ing_start.1) ∈ gu_outs ∧ ∀ l, EvBatch l ∉ gu_outs.
Proof.
  exists (World gu7.1.1.1 gu7.1.1.2 gu7.1.2). split; [|split; [|split]].
  - unfold gu_outs. eapply ServeStep; [eapply ServeStep; [eapply ServeStep; [eapply ServeStep; [eapply ServeStep; [eapply ServeStep; [eapply ServeStep;
      [apply (ServeStart _ _ _ _ _ _ _ _ _ _ _ _ _ _ _ _ _ _ empty_hub ing_db)|]|]|]|]|]|]|].
    + refine (SvFrame _ _ _ _ _ _ _ _ _ _ _ _ _ _ _ _ _ _ new_server empty_hub ing_db sv_envelope 100 sv1 _ _ _); reflexivity.
    + refine (SvFrame _ _ _ _ _ _ _ _ _ _ _ _ _ _ _ _ _ _ sv1 empty_hub ing_db sv_release 100 sv2 _ _ _); reflexivity.
    + eapply (SvTake _ _ _ _ _ _ _ _ _ _ _ _ _ _ _ _ _ _ sv2 empty_hub ing_db 0 (IEnvelope (Arrived 0 ing_start.1)) _ gu3 []); reflexivity.
    + eapply (SvTake _ _ _ _ _ _ _ _ _ _ _ _ _ _ _ _ _ _ gu3 empty_hub ing_db 0 (IControl gu_control) [] gu4 []); reflexivity.
    + eapply (SvRound _ _ _ _ _ _ _ _ _ _ _ _ _ _ _ _ _ _ gu4 empty_hub ing_db (default (Batch [] [] 0 None) (sv_batch gu4)) ∅ ing_db 11 None
        [ing_io 11 None] (Some TimeoutExn) gu5 empty_hub ing_db []); vm_compute; reflexivity.
    + eapply (SvRound _ _ _ _ _ _ _ _ _ _ _ _ _ _ _ _ _ _ gu5 empty_hub ing_db (default (Batch [] [] 0 None) (sv_batch gu5)) ∅ ing_db 11 None
        [ing_io 11 None] (Some TimeoutExn) gu6 empty_hub ing_db []); vm_compute; reflexivity.
    + eapply (SvRound _ _ _ _ _ _ _ _ _ _ _ _ _ _ _ _ _ _ gu6 empty_hub ing_db (default (Batch [] [] 0 None) (sv_batch gu6)) ∅ ing_db 11 None
        [ing_io 11 None] (Some TimeoutExn)); vm_compute; reflexivity.
  - unfold gu_outs. set_solver.
  - unfold gu_outs. set_solver.
  - unfold gu_outs. set_solver.
Qed.
