(* ===== verification/Delivery.v ===== *)
(** * From the outbox of a worker to the database

    A worker, its connections to the API one after another, and the database, composed of
    [Outbox], [Serve] and [Ingest].  [link_step] is one step of any of them while a session
    stays leased to the worker: an append, a frame that is sent or read, a step of a lane, a
    batch that is committed, an ack that arrives, the end of a connection and the next one.
    A connection that the worker has given up may still be served for a while, with the
    frames that are in its socket. *)

From S2P Require Import Prelude PyStd Protocol Outbox OutboxSpec CommandQueue Db Fleet Commands Sandbox Usage Blobs Artifacts Accounting TurnState Ingest IngestSpec IngestProps Hub Serve.

Open Scope Z_scope.

(** ** What is on its way *)

(** One connection: the envelopes in the socket, and the server at its other end. *)
Record channel : Type := Channel { ch_wire : list envelope; ch_ref : N; ch_server : server }.

Definition item_queued (i : item) : option queued := match i with IEnvelope a => Some (ar_q a) | IControl _ => None end.
(** The envelopes that a server has read and not applied, in the order in which it will. *)
Definition lane_of (s : server) : list queued :=
  if sv_over s then []
  else from_option bt_pending [] (sv_batch s) ++ (ar_q <$> sv_batcher s) ++ omap item_queued (sv_ingest s)
       ++ match sv_put s with Some (true, i) => omap item_queued [i] | _ => [] end.
Definition of_session (sid : uuid) (l : list envelope) : list envelope := filter (λ e, env_session e = sid) l.
(** What is on its way on a connection, of one session. *)
Definition path (sid : uuid) (c : channel) : list envelope :=
  if sv_over (ch_server c) then [] else of_session sid ((q_env <$> lane_of (ch_server c)) ++ ch_wire c).

(** ** What became of an envelope *)

Inductive verdict : Type :=
| VBefore      (* it had been applied before *)
| VApplied
| VRefused     (* with a reason *)
| VReceipt     (* there is nothing to store *)
| VLost.
#[global] Instance verdict_dec : EqDecision verdict.
Proof. solve_decision. Defined.
Definition verdict_of (d d' : db) (out : outcome) (q : queued) : verdict :=
  if decide (key q ∈ ledger d) then VBefore
  else if decide (key q ∈ ledger d') then VApplied
  else if decide (key q ∈ (rejected out).*1) then VRefused
  else if decide (env_type (q_env q) ∈ LEASE_FREE_TYPES) then VReceipt
  else VLost.
(** The envelopes of a session that a batch has acked: all but those it hands back. *)
Definition acked_of (sid : uuid) (b : list queued) (out : outcome) : list queued :=
  firstn (length (of_sess sid b) - length (of_sess sid (retry out)))%nat (of_sess sid b).
Definition verdicts (sid : uuid) (d d' : db) (b : list queued) (out : outcome) : list (envelope * verdict) :=
  (λ q, (q_env q, verdict_of d d' out q)) <$> acked_of sid b out.
Definition applied (log : list (envelope * verdict)) : list Z :=
  (λ p, env_seq p.1) <$> filter (λ p, p.2 = VApplied) log.

(** ** The composition *)

Record link : Type := Link {
  lk_outbox : outbox;
  lk_up : bool;                           (* the worker has a connection: the first channel *)
  lk_pump : option (uuid * stored);       (* the envelope that `_pump_outbox` waits to have sent *)
  lk_channels : list channel;
  lk_hub : hub;
  lk_db : db;
  lk_acks : list (uuid * Z);              (* acks sent so far; any of them may still arrive *)
  lk_hist : gmap Z envelope;              (* what the session has appended *)
  lk_log : list (envelope * verdict)      (* what became of its envelopes, in order *)
}.
Definition with_outbox (l : link) (o : outbox) : link :=
  Link o (lk_up l) (lk_pump l) (lk_channels l) (lk_hub l) (lk_db l) (lk_acks l) (lk_hist l) (lk_log l).
Definition with_hist (l : link) (h : gmap Z envelope) : link :=
  Link (lk_outbox l) (lk_up l) (lk_pump l) (lk_channels l) (lk_hub l) (lk_db l) (lk_acks l) h (lk_log l).
Definition with_pump (l : link) (p : option (uuid * stored)) : link :=
  Link (lk_outbox l) (lk_up l) p (lk_channels l) (lk_hub l) (lk_db l) (lk_acks l) (lk_hist l) (lk_log l).
Definition with_up (l : link) (up : bool) : link :=
  Link (lk_outbox l) up (lk_pump l) (lk_channels l) (lk_hub l) (lk_db l) (lk_acks l) (lk_hist l) (lk_log l).
Definition with_channels (l : link) (c : list channel) : link :=
  Link (lk_outbox l) (lk_up l) (lk_pump l) c (lk_hub l) (lk_db l) (lk_acks l) (lk_hist l) (lk_log l).
Definition with_api (l : link) (h : hub) (d : db) : link :=
  Link (lk_outbox l) (lk_up l) (lk_pump l) (lk_channels l) h d (lk_acks l) (lk_hist l) (lk_log l).
Definition acks_of (outs : list serve_event) : list (uuid * Z) :=
  omap (λ ev, match ev with EvAck s n => Some (s, n) | _ => None end) outs.
Definition note_acks (l : link) (outs : list serve_event) : link :=
  Link (lk_outbox l) (lk_up l) (lk_pump l) (lk_channels l) (lk_hub l) (lk_db l)
    (lk_acks l ++ acks_of outs) (lk_hist l) (lk_log l).
Definition note_verdicts (l : link) (vs : list (envelope * verdict)) : link :=
  Link (lk_outbox l) (lk_up l) (lk_pump l) (lk_channels l) (lk_hub l) (lk_db l) (lk_acks l) (lk_hist l) (lk_log l ++ vs).

(** What the rest of the program leaves alone while the lease lasts: the session's lease,
    its cursor and its part of the ledger. *)
Record kept (worker sid : uuid) (d d' : db) : Prop := {
  kp_ok : db_ok d → db_ok d';
  kp_cursor : last_seq_for d' worker sid = last_seq_for d worker sid;
  kp_ledger : ∀ n, (sid, n) ∈ ledger d' ↔ (sid, n) ∈ ledger d
}.

Section link.
Context {S : Type} `{ObjectStore S}.
Context (sha256_hex : list ascii → string).
Context (presign_url : list ascii → Z → string → string * list (string * json)).
Context (head_object : S → list ascii → res exn (option Z)).
Context (cfg : settings) (store : usage_store).
Context (session_model : db → session_row → option string).
Context (exn_str : exn → string) (library_code : exn → option string).
Context (classify_host_message : string → failure).
Context (validate_envelope : json → option envelope).
Context (validate_payload : string → list (string * json) → bool).
Context (parse_control_fields : string → json → option control_msg).
Context (fleet : fleet_settings) (worker : uuid) (run_mode : option string).
Context (batch_size : nat) (window : Z).
Context (ocfg : config) (sid : uuid).

#[local] Abbreviation flush := (flush_batch sha256_hex presign_url head_object cfg store
  session_model exn_str library_code).
#[local] Abbreviation sstep ref := (serve_step sha256_hex presign_url head_object cfg store session_model
  exn_str library_code classify_host_message validate_envelope validate_payload parse_control_fields
  fleet ref worker run_mode batch_size window).

(** The batch under way is stored. *)
Inductive flushed (s : server) (d : db) (b : batch) (d1 : db) (out : outcome) : Prop :=
| Flushed st d0 ios :
    sv_over s = false → sv_batch s = Some b → length ios = length (bt_pending b) →
    flush st d0 d worker run_mode (zip (bt_pending b) ios) None = Ok (d1, out) → flushed s d b d1 out.
(** The round of a batch that is stored. *)
Inductive round_at (ref : N) (s : server) (h : hub) (d : db) (b : batch) (d1 : db) (out : outcome)
    (outs : list serve_event) (s' : server) (h' : hub) (d' : db) : Prop :=
| RoundAt st d0 now stored ios :
    sv_over s = false → sv_batch s = Some b → length ios = length (bt_pending b) →
    flush st d0 d worker run_mode (zip (bt_pending b) ios) None = Ok (d1, out) →
    apply_round st sha256_hex presign_url head_object cfg store session_model exn_str library_code
      fleet ref worker run_mode s h d0 d now stored b ios None = (s', h', d', outs) →
    round_at ref s h d b d1 out outs s' h' d'.

(** ** What a server promises of its lane: a queue that loses and reorders nothing

    [None]: the server has ended.  Only storing a part of the front of the queue acks, and
    only what was stored or answered leaves it. *)
Definition lane_view (s : server) : option (list queued) := if sv_over s then None else Some (lane_of s).
Inductive lane_spec (d d' : db) (outs : list serve_event) : option (list queued) → option (list queued) → Prop :=
| LaneArrives lane a :
    outs = [EvArrived a] → d' = d → lane_spec d d' outs (Some lane) (Some (lane ++ [ar_q a]))
| LaneStores b rest st d0 ios d1 out v :
    length ios = length b → flush st d0 d worker run_mode (zip b ios) None = Ok (d1, out) →
    kept worker sid d1 d' → Permutation (acks_of outs) (oitems (acks out)) →
    v = Some (retry out ++ rest) ∨ v = None → lane_spec d d' outs (Some (b ++ rest)) v
| LaneStays v : acks_of outs = [] → lane_spec d d' outs v v
| LaneEnds v : acks_of outs = [] → lane_spec d d' outs v None.

Inductive link_step : link → link → Prop :=
(* the worker *)
| LkAppend l now io s type payload turn em o r :
    Outbox.append ocfg (lk_outbox l) now io s type payload turn em = (o, r) →
    link_step l (with_hist (with_outbox l o)
      (match r with Ok x => if decide (s = sid) then <[seq_of x := body x]> (lk_hist l) else lk_hist l
                  | Err _ => lk_hist l end))
| LkOutbox l o :
    live_step ocfg (lk_outbox l) o → view_of o sid = view_of (lk_outbox l) sid → link_step l (with_outbox l o)
| LkBase l c n io :
    last_seq_for (lk_db l) worker sid = Some c → n ≤ c →
    link_step l (with_outbox l (Outbox.set_base ocfg (lk_outbox l) sid n io))
| LkSend l s x ch rest :
    lk_up l = true → lk_pump l = None → next_unsent (lk_outbox l) s = Some x → lk_channels l = ch :: rest →
    link_step l (with_channels (with_pump l (Some (s, x)))
      (Channel (ch_wire ch ++ [body x]) (ch_ref ch) (ch_server ch) :: rest))
| LkSent l s x :
    lk_pump l = Some (s, x) →
    link_step l (with_pump (with_outbox l (Outbox.mark_sent (lk_outbox l) s x)) None)
| LkAck l n io :
    (sid, n) ∈ lk_acks l → link_step l (with_outbox l (Outbox.acked ocfg (lk_outbox l) sid n io))
| LkBreak l : link_step l (with_up (with_pump l None) false)
| LkConnect l ref :
    lk_up l = false →
    link_step l (with_up (with_channels (with_outbox l (Outbox.begin_connection (lk_outbox l)).1)
      (Channel [] ref new_server :: lk_channels l)) true)
(* the server of a connection *)
| LkRead l i ch e rest message size n s' :
    lk_channels l !! i = Some ch → ch_wire ch = e :: rest →
    sv_over (ch_server ch) = false → sv_put (ch_server ch) = None →
    sort_frame validate_envelope validate_payload parse_control_fields message size = ToIngest (Queued e n) →
    dispatch validate_envelope validate_payload parse_control_fields (ch_server ch) (lk_hub l) message size = Some s' →
    link_step l (with_channels l (<[i := Channel rest (ch_ref ch) s']> (lk_channels l)))
| LkServe l i ch outs s' h' d' :
    lk_channels l !! i = Some ch →
    sstep (ch_ref ch) (World (ch_server ch) (lk_hub l) (lk_db l)) outs (World s' h' d') →
    (∀ a, EvArrived a ∉ outs) → kept worker sid (lk_db l) d' →
    link_step l (note_acks (with_api (with_channels l (<[i := Channel (ch_wire ch) (ch_ref ch) s']> (lk_channels l))) h' d') outs)
| LkRound l i ch b d1 out outs s' h' d' :
    lk_channels l !! i = Some ch →
    round_at (ch_ref ch) (ch_server ch) (lk_hub l) (lk_db l) b d1 out outs s' h' d' →
    link_step l (note_verdicts (note_acks (with_api (with_channels l
      (<[i := Channel (ch_wire ch) (ch_ref ch) s']> (lk_channels l))) h' d') outs)
      (verdicts sid (lk_db l) d1 (bt_pending b) out))
(* a commit that took effect while the server was cancelled or told that it failed *)
| LkCommitted l i ch b d1 out :
    lk_channels l !! i = Some ch → flushed (ch_server ch) (lk_db l) b d1 out →
    link_step l (note_verdicts (with_api l (lk_hub l) d1) (verdicts sid (lk_db l) d1 (bt_pending b) out))
(* the rest of the program *)
| LkElsewhere l h' d' : kept worker sid (lk_db l) d' → link_step l (with_api l h' d').

(** The session as the worker takes it up: nothing pending, and the database at [base]. *)
Record link_start (base : Z) (l : link) : Prop := {
  ls_outbox : outbox_ok (lk_outbox l);
  ls_view : view_of (lk_outbox l) sid = View base base [] [];
  ls_down : lk_up l = false;
  ls_pump : lk_pump l = None;
  ls_channels : lk_channels l = [];
  ls_db : db_ok (lk_db l);
  ls_cursor : last_seq_for (lk_db l) worker sid = Some base;
  ls_ledger : ∀ n, (sid, n) ∈ ledger (lk_db l) → n ≤ base;
  ls_acks : lk_acks l = [];
  ls_hist : lk_hist l = ∅;
  ls_log : lk_log l = []
}.
End link.
