(* ===== verification/DeliveryProps.v ===== *)
(** * Delivery: every envelope takes effect once, in order, or is accounted for

    The invariant of [Delivery.link_step] and the theorems.  A server's steps are first
    reduced to what they do to its lane; a batch to what it does to one session. *)

From stdpp Require Import sorting.
From S2P Require Import Prelude PyStd Protocol Outbox OutboxSpec OutboxSpool OutboxLives OutboxProps CommandQueue Db Fleet Commands Sandbox Usage Blobs Artifacts Accounting TurnState Ingest IngestSpec IngestProps Hub Serve ServeProps Delivery.

Open Scope Z_scope.

(** ** A server's step, as its lane sees it *)

Section lane.
Context {S : Type} `{ObjectStore S}.
Context (sha256_hex : list ascii → string).
Context (presign_url : list ascii → Z → string → string * list (string * json)).
Context (head_object : S → list ascii → res exn (option Z)).
Context (cfg : settings) (store : usage_store).
Context (session_model : db → session_row → option string).
Context (exn_str : exn → string) (library_code : exn → option string).
Context (classify_host_message : string → failure).
Context (validate_envelope : json → option envelope).
Context (validate_payload : string → list (string * json) → bool).
Context (parse_control_fields : string → json → option control_msg).
Context (fleet : fleet_settings) (ref : N) (worker : uuid) (run_mode : option string).
Context (batch_size : nat) (window : Z).
#[local] Abbreviation sstep := (serve_step sha256_hex presign_url head_object cfg store session_model
  exn_str library_code classify_host_message validate_envelope validate_payload parse_control_fields
  fleet ref worker run_mode batch_size window).
#[local] Abbreviation flush := (flush_batch sha256_hex presign_url head_object cfg store
  session_model exn_str library_code).

(** What follows the batch that is under way. *)
Definition lane_rest (s : server) : list queued :=
  (ar_q <$> sv_batcher s) ++ omap item_queued (sv_ingest s)
  ++ match sv_put s with Some (true, i) => omap item_queued [i] | _ => [] end.
Lemma lane_of_batch s b : sv_over s = false → sv_batch s = Some b → lane_of s = bt_pending b ++ lane_rest s.
Proof. intros Ho Hb. unfold lane_of. by rewrite Ho, Hb. Qed.
Lemma lane_of_idle s : sv_over s = false → sv_batch s = None → lane_of s = lane_rest s.
Proof. intros Ho Hb. unfold lane_of. by rewrite Ho, Hb. Qed.
Lemma lane_of_same s s' :
  sv_batch s' = sv_batch s → sv_batcher s' = sv_batcher s → sv_ingest s' = sv_ingest s → sv_put s' = sv_put s →
  sv_over s' = sv_over s → lane_of s' = lane_of s.
Proof. unfold lane_of. by intros -> -> -> -> ->. Qed.

Lemma lane_put_true s i : sv_put s = None → sv_over s = false → lane_of (put s true i) = lane_of s ++ omap item_queued [i].
Proof.
  intros Hp Ho. unfold put. case_decide; unfold lane_of; cbn; rewrite Ho, Hp.
  - rewrite omap_app. cbn. by rewrite !app_nil_r, <- !app_assoc.
  - cbn. by rewrite app_nil_r, <- !app_assoc.
Qed.
Lemma lane_put_false s c : sv_put s = None → lane_of (put s false (IControl c)) = lane_of s.
Proof. intros Hp. unfold put. case_decide; unfold lane_of; cbn; by rewrite ?Hp. Qed.

(** Reading a frame adds at most its envelope. *)
Lemma lane_dispatch s h message size s' :
  sv_over s = false → sv_put s = None →
  dispatch validate_envelope validate_payload parse_control_fields s h message size = Some s' →
  sv_over s' = false
  ∧ lane_of s' = lane_of s ++ match sort_frame validate_envelope validate_payload parse_control_fields message size with
                               | ToIngest q => [q] | _ => [] end.
Proof.
  intros Ho Hp. unfold dispatch. destruct (sort_frame _ _ _ message size) as [| |q|e| |m]; [done|..].
  - intros [= <-]. by rewrite app_nil_r.
  - intros <-%(inj Some).
    match goal with |- context [put ?s1 true ?i] => destruct (put_rest s1 true i) as (_ & _ & Ho' & _) end.
    split; [by rewrite Ho'|]. by rewrite lane_put_true.
  - intros [= <-]. rewrite app_nil_r. by case_decide.
  - intros [= <-]. rewrite app_nil_r. by case_decide.
  - rewrite app_nil_r.
    assert (∀ s1 i, sv_put s1 = None → sv_over s1 = false → lane_of s1 = lane_of s → Some (put s1 false (IControl i)) = Some s' →
      sv_over s' = false ∧ lane_of s' = lane_of s) as Hput.
    { intros s1 i Hp1 Ho1 Hl <-%(inj Some). destruct (put_rest s1 false (IControl i)) as (_ & _ & Ho' & _).
      split; [by rewrite Ho'|]. by rewrite lane_put_false. }
    destruct m as [| |id lease|sid lease|es|ids|]; try (apply Hput; done).
    + destruct (crossed s h lease); [by intros [= <-]|]. destruct (bool_decide _); [|by apply Hput].
      intros <-%(inj Some).
      match goal with |- context [put ?s1 true ?i] => destruct (put_rest s1 true i) as (_ & _ & Ho' & _) end.
      split; [by rewrite Ho'|]. rewrite lane_put_true by done. apply app_nil_r.
    + by intros [= <-].
Qed.

Lemma acks_of_app o1 o2 : acks_of (o1 ++ o2) = acks_of o1 ++ acks_of o2.
Proof. apply omap_app. Qed.
Lemma acks_of_none outs : (∀ s n, EvAck s n ∉ outs) → acks_of outs = [].
Proof.
  intros Hn. unfold acks_of. induction outs as [|e outs IH]; [done|]. cbn.
  destruct e; try (apply IH; intros s n Hin; by eapply Hn, list_elem_of_further).
  by destruct (Hn sid last_seq); left.
Qed.
Lemma acks_of_began c : acks_of (began c) = [].
Proof. unfold began. by destruct (ct_msg c). Qed.

Lemma begin_flush_lane s c s' out :
  sv_batch s = None → begin_flush s c = (s', out) →
  lane_of s' = lane_of s ∧ sv_over s' = sv_over s ∧ acks_of out = [].
Proof.
  intros Hb. unfold begin_flush. destruct (sv_batcher s) as [|a l] eqn:Hq.
  - destruct c as [c|]; intros [= <- <-]; split_and!; try done. apply acks_of_began.
  - intros [= <- <-]. split_and!; try done. unfold lane_of. cbn. rewrite Hb, Hq. done.
Qed.

Lemma settle_lane s h ordered next s' h' :
  settle_handling s h ordered next = (s', h') → lane_of s' = lane_of s ∧ sv_over s' = sv_over s.
Proof. unfold settle_handling, next_of. destruct next; intros [= <- <-]; by destruct ordered. Qed.
Lemma put_waiting_lane s ingest i :
  sv_over s = false → sv_put s = Some (ingest, i) → (length (sv_ingest s) < INGEST_QUEUE_LIMIT)%nat ∨ ingest = false →
  lane_of (put (with_put s None) ingest i) = lane_of s ∧ sv_over (put (with_put s None) ingest i) = sv_over s.
Proof.
  intros Ho Hp Hr. split; [|by destruct (put_rest (with_put s None) ingest i) as (_ & _ & -> & _)]. destruct ingest.
  - rewrite lane_put_true by done. unfold lane_of. cbn. rewrite Ho, Hp. cbn. by rewrite app_nil_r, <- !app_assoc.
  - destruct i as [a|c]; [|rewrite lane_put_false by done]; unfold lane_of; cbn; by rewrite Hp.
Qed.
Lemma take_lane s now i rest s' out :
  sv_batch s = None → sv_ingest s = i :: rest →
  match i with
  | IControl c => if is_release (ct_msg c) then begin_flush (with_ingest s rest) (Some c) else (with_ingest s rest, [])
  | IEnvelope a =>
      let s := with_batcher (with_ingest s rest) (sv_batcher s ++ [a]) (Some (default now (sv_first s))) in
      if should_flush now window (lane_batcher batch_size s) then begin_flush s None else (s, [])
  end = (s', out) →
  lane_of s' = lane_of s ∧ sv_over s' = sv_over s ∧ acks_of out = [].
Proof.
  intros Hb Hi Ht.
  assert (lane_of s = match i with IEnvelope a => lane_of (with_batcher (with_ingest s rest) (sv_batcher s ++ [a]) (Some (default now (sv_first s))))
    | IControl c => lane_of (with_ingest s rest) end) as Hl.
  { unfold lane_of. destruct i as [a|c]; cbn; (destruct (sv_over s); [done|]); rewrite Hb, Hi; cbn; [|done].
    by rewrite fmap_app, <- app_assoc. }
  destruct i as [a|c].
  - rewrite Hl. cbv zeta in Ht. destruct (should_flush _ _ _); [|by injection Ht as <- <-].
    apply begin_flush_lane in Ht; done.
  - rewrite Hl. destruct (is_release _); [|by injection Ht as <- <-]. apply begin_flush_lane in Ht; done.
Qed.

(** How a round ends: what it left over waits before the rest of the lane, or the server ends. *)
Lemma end_round_lane s h d b left outs s' h' d' outs' :
  sv_over s = false → sv_batch s = Some b → end_round ref s h d b left outs = (s', h', d', outs') →
  d' = d ∧ acks_of outs' = acks_of outs
  ∧ (sv_over s' = true ∨ sv_over s' = false ∧ lane_of s' = left ++ lane_rest s).
Proof.
  intros Ho Hb. unfold end_round. case_decide as Hleft.
  - unfold batch_done. destruct (bt_then b) as [c|]; intros [= <- <- <- <-]; rewrite acks_of_app; cbn [acks_of omap list_omap].
    + change (omap _ (began c)) with (acks_of (began c)). rewrite acks_of_began, app_nil_r. split_and!; [done..|right].
      split; [done|]. subst left. unfold lane_of. cbn. by rewrite Ho.
    + rewrite app_nil_r. split_and!; [done..|right]. split; [done|]. subst left. unfold lane_of. cbn. by rewrite Ho.
  - case_decide.
    + intros [= <- <- <- <-]. split_and!; [done..|right]. split; [done|]. unfold lane_of. cbn. by rewrite Ho.
    + unfold abandon_batch. destruct (bt_then b) as [c|]; intros [= <- <- <- <-]; (split_and!; [done| |by left]);
        rewrite acks_of_app; cbn [acks_of omap list_omap];
        [change (omap _ (began c)) with (acks_of (began c)); rewrite acks_of_began|]; apply app_nil_r.
Qed.
Lemma after_flush_acks h d now stored out h' d' outs :
  after_flush fleet ref h d now stored out = (h', d', outs) →
  acks_of outs = merge_sort ack_le (oitems (acks out)) ∧ ∃ h1, renew_on_activity fleet h d now ref stored = (h1, d').
Proof.
  unfold after_flush. destruct (renew_on_activity fleet h d now ref stored) as [h1 d1]. intros [= _ <- <-].
  split; [|by eexists]. rewrite !acks_of_app, (acks_of_none (EvReply <$> _)), (acks_of_none (EvPublished <$> _)).
  - rewrite app_nil_r. cbn [app]. generalize (merge_sort ack_le (oitems (acks out))). intros l.
    induction l as [|[s n] l IH]; [done|]. cbn. f_equal. exact IH.
  - intros s n (? & ? & ?)%list_elem_of_fmap. done.
  - intros s n (? & ? & ?)%list_elem_of_fmap. done.
Qed.

#[local] Abbreviation round_at := (round_at sha256_hex presign_url head_object cfg store session_model exn_str library_code
  fleet worker run_mode ref).
#[local] Abbreviation round st s h d0 d now stored b ios commit := (apply_round st sha256_hex presign_url head_object cfg store
  session_model exn_str library_code fleet ref worker run_mode s h d0 d now stored b ios commit).
Lemma round_lane st s h d0 d now stored b ios d1 out s' h' d' outs :
  sv_over s = false → sv_batch s = Some b →
  flush st d0 d worker run_mode (zip (bt_pending b) ios) None = Ok (d1, out) →
  round st s h d0 d now stored b ios None = (s', h', d', outs) →
  acks_of outs = merge_sort ack_le (oitems (acks out))
  ∧ (∃ h1, renew_on_activity fleet h d1 now ref stored = (h1, d'))
  ∧ (sv_over s' = true ∨ sv_over s' = false ∧ lane_of s' = retry out ++ lane_rest s).
Proof.
  intros Ho Hb Hf. unfold apply_round. rewrite Hf.
  destruct (after_flush fleet ref h d1 now stored out) as [[h2 d2] outs2] eqn:Ha. intros Hr.
  apply end_round_lane in Hr as (-> & -> & Hl); [|done..]. apply after_flush_acks in Ha as [Ha Hd]. done.
Qed.

(** Every step of a server adds what it read to its lane, passes a round, or leaves the lane
    as it is or ends it; only a round acks. *)
Lemma serve_lane s h d outs s' h' d' :
  sstep (World s h d) outs (World s' h' d') →
  (∃ a, outs = [EvArrived a] ∧ d' = d ∧ sv_over s = false ∧ sv_over s' = false ∧ lane_of s' = lane_of s ++ [ar_q a])
  ∨ (acks_of outs = [] ∧ (sv_over s' = true ∨ sv_over s' = sv_over s ∧ lane_of s' = lane_of s))
  ∨ ∃ b d1 out, round_at s h d b d1 out outs s' h' d'.
Proof.
  intros Hs. inversion Hs as
    [s0 h0 d0 message size s1 Ho Hp Hd|s0 h0 d0 ingest i Ho Hp Hr Hc|s0 h0 d0 e rest Hq|s0 h0 d0 n Hq
    |s0 h0 d0 c rest Hh Hc|s0 h0 d0 hg id lease now stored s1 h1 d1 Hh Hm Ha
    |s0 h0 d0 ordered hg sid lease now e1 e2 e3 fails s1 h1 d1 next out s2 h2 Hh Hm Hst Hse
    |s0 h0 d0 hg Hh Hm|s0 h0 d0 now i rest s1 out Hb Hor Hi Ht|s0 h0 d0 s1 out Hb Hor Hq Ht
    |s0 h0 d0 b st d1 now stored ios commit s1 h1 d2 out Ho Hb Hl Hr|s0 h0 d0 h1 d1]; subst.
  - apply lane_dispatch in Hd as [Ho' Hl]; [|done..]. destruct (sort_frame _ _ _ message size); cbn [acks_of omap list_omap];
      rewrite ?app_nil_r in Hl; try (right; left; split; [done|right; by split; [congruence|]]).
    left. by eexists.
  - right; left. split; [done|right]. by destruct (put_waiting_lane s ingest i Ho Hp Hr).
  - right; left. split; [done|by right].
  - right; left. split; [done|by right].
  - right; left. split; [apply acks_of_began|by right].
  - right; left. split; [done|right]. unfold handle_lease_ack in Ha. case_decide; [|by simplify_eq].
    destruct (renew_on_activity _ _ _ _ _ _) as [h3 d3]. by simplify_eq.
  - right; left. split; [done|right]. apply settle_lane in Hse as [-> ->]. by apply release_step_fields in Hst as [r ->].
  - right; left. split; [done|by right].
  - right; left. destruct (take_lane s now i rest s' outs Hb Hi Ht) as (H1 & H2 & H3). split; [done|by right].
  - right; left. destruct (begin_flush_lane s None s' outs Hb Ht) as (H1 & H2 & H3). split; [done|by right].
  - destruct commit as [e|].
    + right; left. revert Hr. unfold apply_round.
      assert (flush st d1 d worker run_mode (zip (bt_pending b) ios) (Some e) = Ok (d, empty_outcome) ∧ bt_pending b = []
        ∨ flush st d1 d worker run_mode (zip (bt_pending b) ios) (Some e) = Err e) as [[-> Hnil]| ->].
      { unfold flush_batch, flush_with. case_decide as Hz; [|by right]. left. split; [done|].
        destruct (bt_pending b), ios; done. }
      * destruct (after_flush fleet ref h d now stored empty_outcome) as [[h2 d2] outs2] eqn:Ha. intros Hr.
        apply end_round_lane in Hr as (_ & -> & Hl'); [|done..]. apply after_flush_acks in Ha as [-> _].
        split; [done|]. destruct Hl' as [?|[H1 H2]]; [by left|right]. split; [congruence|].
        rewrite (lane_of_batch s b) by done. by rewrite H2, Hnil.
      * intros Hr. apply end_round_lane in Hr as (_ & -> & Hl'); [|done..]. split; [done|].
        destruct Hl' as [?|[H1 H2]]; [by left|right]. split; [congruence|]. by rewrite (lane_of_batch s b).
    + right; right. destruct (flush st d1 d worker run_mode (zip (bt_pending b) ios) None) as [[d2 o]|e] eqn:Hf.
      * exists b, d2, o. by eapply RoundAt.
      * exfalso. revert Hf. unfold flush_batch, flush_with. by case_decide.
  - right; left. split; [done|by right].
Qed.
End lane.

(** ** A batch, as one session sees it *)

Lemma bump_upper l q : q ∈ l → env_seq (q_env q) ≤ default 0 (bump None l).
Proof.
  assert (∀ m l, m ≤ foldl Z.max m l ∧ ∀ n, n ∈ l → n ≤ foldl Z.max m l) as Hm.
  { clear. intros m l. revert m. induction l as [|x l IH]; intros m; cbn; [split; [lia|by intros ? ?%not_elem_of_nil]|].
    destruct (IH (Z.max m x)) as [H1 H2]. split; [lia|]. intros n [->|Hn]%elem_of_cons; [lia|by apply H2]. }
  intros Hq. destruct l as [|a l]; [by apply not_elem_of_nil in Hq|]. unfold bump. cbn [default].
  apply Hm. by apply (list_elem_of_fmap_2 (λ q, env_seq (q_env q))).
Qed.
Lemma bump_attained l : default 0 (bump None l) = 0 ∨ ∃ q, q ∈ l ∧ env_seq (q_env q) = default 0 (bump None l).
Proof.
  assert (∀ m l, foldl Z.max m l = m ∨ foldl Z.max m l ∈ l) as Hm.
  { clear. intros m l. revert m. induction l as [|x l IH]; intros m; cbn; [by left|].
    destruct (IH (Z.max m x)) as [E|?]; [|right; by right]. rewrite E.
    destruct (Z.max_spec m x) as [[_ ->]|[_ ->]]; [right; by left|by left]. }
  destruct l as [|a l]; [by left|]. unfold bump. cbn [default].
  destruct (Hm 0 (IngestProps.seqs (a :: l))) as [E|Hin]; [by left|right].
  apply list_elem_of_fmap in Hin as (q & Hq & Hin). by exists q.
Qed.

(** What a batch does to a session whose cursor was [c]: [acked] took effect or was answered,
    the rest is handed back. *)
Record batch_effect (worker sid : uuid) (d d1 : db) (b : list queued) (out : outcome) (c : Z) (c' : Z) : Prop := {
  be_split : of_sess sid b = acked_of sid b out ++ of_sess sid (retry out);
  be_ok : db_ok d1;
  be_cursor : last_seq_for d1 worker sid = Some c';
  be_grows : c ≤ c';
  be_upper : ∀ q, q ∈ acked_of sid b out → env_seq (q_env q) ≤ c';
  be_attained : c' = c ∨ ∃ q, q ∈ acked_of sid b out ∧ env_seq (q_env q) = c';
  be_acks : ∀ n, (sid, n) ∈ oitems (acks out) → n ≤ c';
  be_ledger : ∀ n, (sid, n) ∈ ledger d → (sid, n) ∈ ledger d1;
  be_claims : ∀ n, (sid, n) ∈ ledger d1 → (sid, n) ∈ ledger d ∨ ∃ q, q ∈ acked_of sid b out ∧ env_seq (q_env q) = n;
  be_verdict : ∀ q, q ∈ acked_of sid b out → q ∉ retry out → verdict_of d d1 out q ≠ VLost
}.

Section batch.
Context {S : Type} `{ObjectStore S}.
Context (sha256_hex : list ascii → string).
Context (presign_url : list ascii → Z → string → string * list (string * json)).
Context (head_object : S → list ascii → res exn (option Z)).
Context (cfg : settings) (store : usage_store).
Context (session_model : db → session_row → option string).
Context (exn_str : exn → string) (library_code : exn → option string).
Context (worker : uuid) (run_mode : option string).
#[local] Abbreviation flush := (flush_batch sha256_hex presign_url head_object cfg store
  session_model exn_str library_code).

Lemma flush_effect st d0 d l d1 out sid c :
  flush st d0 d worker run_mode l None = Ok (d1, out) → db_ok d →
  last_seq_for d worker sid = Some c → 0 ≤ c →
  ∃ c', batch_effect worker sid d d1 l.*1 out c c'.
Proof.
  intros Hf Hok Hc Hpos.
  pose proof (flush_db_ok st sha256_hex presign_url head_object cfg store session_model exn_str library_code
    worker run_mode _ _ _ _ _ _ Hok Hf) as Hok1.
  pose proof (flush_shape st sha256_hex presign_url head_object cfg store session_model exn_str library_code
    worker run_mode _ _ _ _ _ _ Hok Hf) as (f & ts & Hall & -> & -> & _ & Ha).
  assert (sid ∉ f_stalled (Flushing d empty_cache ∅ empty_outcome)) as Hst by set_solver.
  destruct (handled_all_prefix _ _ _ _ _ sid Hall Hst) as (A & R & Hs & Hr & Hb & _). cbn in Hr, Hb.
  change (bump (∅ !! sid) A) with (bump None A) in Hb.
  destruct (handled_all_claims _ _ _ _ _ sid Hall Hst) as (A' & R' & Hs' & Hr' & Hcl). cbn in Hr', Hcl.
  assert (A' = A) as ->.
  { rewrite Hr in Hr'. subst R'. rewrite Hs in Hs'. by apply app_inv_tail in Hs'. }
  assert (acked_of sid l.*1 (f_out f) = A) as HA.
  { unfold acked_of. rewrite Hr, Hs, length_app. replace (length A + length R - length R)%nat with (length A) by lia.
    rewrite firstn_app, Nat.sub_diag. cbn. by rewrite app_nil_r, firstn_all. }
  destruct (handled_all_ledger _ _ _ _ _ Hall) as [Hsub _].
  exists (Z.max c (default c (acks (f_out f) !! sid))).
  pose proof (bump_upper A) as Hup. pose proof (bump_attained A) as Hatt.
  assert (ledger (advance_cursors worker (f_db f) (acks (f_out f))) = ledger (f_db f)) as Hled by by rewrite advance_cursors_rest.
  assert (∀ o : option Z, default 0 o ≤ Z.max c (default c o)) as Hdef by (intros [n|]; cbn; lia).
  split; rewrite ?HA, ?Hled.
  - by rewrite Hr, Hs.
  - exact Hok1.
  - by eapply handled_all_cursor.
  - lia.
  - intros q Hq. specialize (Hup q Hq). specialize (Hdef (bump None A)). rewrite Hb. lia.
  - rewrite Hb. destruct Hatt as [E|(q & Hq & E)].
    + left. destruct (bump None A); cbn in *; lia.
    + destruct (Z.max_spec c (default c (bump None A))) as [[Hlt ->]|[_ ->]]; [right|by left].
      exists q. split; [done|]. rewrite E. destruct (bump None A); cbn in *; lia.
  - intros n Hn%elem_of_oitems; [|done]. rewrite Hn. cbn. lia.
  - intros n Hn. apply Hsub. done.
  - intros n Hn. destruct (Hcl n Hn) as [?|(q & -> & Hq)%list_elem_of_fmap]; [by left|right]. by exists q.
  - intros q Hq Hnr.
    assert (q ∈ of_sess sid l.*1) as [_ Hql]%list_elem_of_filter by (rewrite Hs; set_solver).
    pose proof (handled_all_accounted _ _ _ _ _ q Hall Hql) as Hacc. unfold verdict_of. rewrite Hled.
    do 2 (case_decide; [done|]). case_decide as Hre; [done|]. case_decide as Hlf; [done|].
    destruct Hacc as [?|[?|[[reason Hre']|?]]]; try done. destruct Hre.
    exact (list_elem_of_fmap_2 fst _ _ Hre').
Qed.
End batch.

(** ** Sorted numbers *)

Lemma sorted_filter {A} (R : relation A) (P : A → Prop) `{∀ x, Decision (P x)} l :
  StronglySorted R l → StronglySorted R (filter P l).
Proof.
  induction 1 as [|x l Hl IH Hx]; [constructor|]. rewrite filter_cons. case_decide; [|done]. constructor; [done|].
  apply list.Forall_forall. intros y [_ Hy]%list_elem_of_filter. by apply (proj1 (list.Forall_forall _ _) Hx).
Qed.
Lemma Forall_filtered {A} (Q P : A → Prop) `{∀ x, Decision (P x)} l : Forall Q l → Forall Q (filter P l).
Proof.
  rewrite !list.Forall_forall. intros Hl x [_ Hx]%list_elem_of_filter. by apply Hl.
Qed.
Lemma sorted_snoc_lt l n : StronglySorted Z.lt l → Forall (λ x, x < n) l → StronglySorted Z.lt (l ++ [n]).
Proof.
  intros Hl Hn. apply StronglySorted_app_2; [|done|by repeat constructor].
  intros x y Hx ->%list_elem_of_singleton. by apply (proj1 (list.Forall_forall _ _) Hn).
Qed.
Lemma sorted_lt_NoDup l : StronglySorted Z.lt l → NoDup l.
Proof.
  induction 1 as [|x l Hl IH Hx]; constructor; [|done]. intros Hin.
  pose proof (proj1 (list.Forall_forall _ _) Hx x Hin). cbn in *. lia.
Qed.
Lemma increasing_sorted lo l : increasing lo l → StronglySorted Z.lt l.
Proof.
  revert lo. induction l as [|x l IH]; intros lo; [constructor|]. intros [_ Hl]. constructor; [by eapply IH|].
  apply list.Forall_forall. intros y Hy. by eapply increasing_lower.
Qed.
(** Above [c], what is below a member is a member. *)
Definition closed (c : Z) (l : list Z) : Prop := ∀ n m, c < n → n ≤ m → m ∈ l → n ∈ l.
Lemma closed_mono c c' l : closed c l → c ≤ c' → closed c' l.
Proof. intros Hc Hle n m Hn. apply Hc. lia. Qed.
Lemma closed_prefix c l1 l2 : StronglySorted Z.lt (l1 ++ l2) → closed c (l1 ++ l2) → closed c l1.
Proof.
  intros Hs Hc n m Hn Hm Hin. assert (n ∈ l1 ++ l2) as [?|Hn2]%elem_of_app; [|done|].
  - apply (Hc n m); [done..|]. set_solver.
  - pose proof (StronglySorted_app_1_elem_of _ _ _ _ _ Hs Hin Hn2). lia.
Qed.
(** What is left once everything up to [c'] has gone. *)
Lemma closed_suffix c c' l1 l2 :
  closed c (l1 ++ l2) → c ≤ c' → (∀ n, n ∈ l1 → n ≤ c') → closed c' l2.
Proof.
  intros Hc Hle H1 n m Hn Hm Hin. assert (n ∈ l1 ++ l2) as [Hn1|?]%elem_of_app; [|by apply H1 in Hn1; lia|done].
  apply (Hc n m); [lia|done|]. set_solver.
Qed.

(** ** The worker's side *)

(** What is still to be sent, once the envelope in the socket is marked. *)
Definition popped (sid : uuid) (p : option (uuid * stored)) (u : list stored) : list stored :=
  match p, u with
  | Some (s, x), y :: u' => if decide (s = sid ∧ oid y = oid x) then u' else u
  | _, _ => u
  end.
Definition to_send (sid : uuid) (o : outbox) (p : option (uuid * stored)) : list stored :=
  popped sid p (v_unsent (view_of o sid)).
Record sender (sid : uuid) (o : outbox) (p : option (uuid * stored)) (hist : gmap Z envelope) (c : Z) : Prop := {
  sn_ok : outbox_ok o;
  sn_gapless : gapless (view_of o sid);
  sn_acked : v_acked (view_of o sid) ≤ c;
  sn_high : c ≤ v_high (view_of o sid);
  sn_oids : NoDup (oid <$> v_pending (view_of o sid));
  sn_next : Forall (λ x, (oid x < next_id o)%N) (v_pending (view_of o sid));
  sn_pump : ∀ x, p = Some (sid, x) → (oid x < next_id o)%N ∧ Forall (λ y, oid y ≠ oid x) (to_send sid o p);
  sn_hist : ∀ x, x ∈ v_pending (view_of o sid) → hist !! seq_of x = Some (body x);
  sn_upper : ∀ n e, hist !! n = Some e → n ≤ v_high (view_of o sid)
}.

Lemma popped_filter sid p P `{∀ x, Decision (P x)} u :
  (∀ x, p = Some (sid, x) → Forall (λ y, oid y ≠ oid x) (popped sid p u)) →
  popped sid p (filter P u) = filter P (popped sid p u).
Proof.
  intros Hp. destruct p as [[s x]|]; [|done]. destruct u as [|y u]; [done|]. destruct (decide (s = sid)) as [->|Hs].
  - specialize (Hp x eq_refl). cbn [popped] in *.
    assert (∀ l, Forall (λ y, oid y ≠ oid x) l → popped sid (Some (sid, x)) (filter P l) = filter P l) as Hl.
    { intros l Hl. destruct (filter P l) as [|z l'] eqn:E; [done|]. cbn. rewrite decide_False; [done|]. intros [_ Hz].
      assert (z ∈ filter P l) as [_ Hin]%list_elem_of_filter by (rewrite E; by left).
      by apply (proj1 (list.Forall_forall _ _) Hl z). }
    case_decide as Hd; [|by apply Hl]. rewrite (filter_cons P y u). destruct (decide (P y)); [|by apply Hl].
    cbn. by rewrite decide_True.
  - assert (∀ l, popped sid (Some (s, x)) l = l) as Hl by (intros [|z l]; cbn; [done|by rewrite decide_False by naive_solver]).
    by rewrite !Hl.
Qed.
Lemma popped_snoc sid p u z :
  (∀ x, p = Some (sid, x) → oid z ≠ oid x) → popped sid p (u ++ [z]) = popped sid p u ++ [z].
Proof.
  intros Hz. destruct p as [[s x]|]; [|done]. destruct u as [|y u]; cbn.
  - rewrite decide_False; [done|]. intros [-> Hx]. by eapply Hz.
  - by case_decide.
Qed.
Lemma popped_sublist sid p u : popped sid p u `sublist_of` u.
Proof.
  destruct p as [[s x]|]; [|done]. destruct u as [|y u]; [done|]. cbn. case_decide; [by constructor|done].
Qed.
Lemma mark_sent_popped o s x sid :
  view_of (Outbox.mark_sent o s x) sid
  = View (v_high (view_of o sid)) (v_acked (view_of o sid)) (v_pending (view_of o sid)) (to_send sid o (Some (s, x))).
Proof.
  unfold Outbox.mark_sent, to_send, view_of, high_water, acked_seq. destruct (Outbox.sessions o !! s) as [b|] eqn:Hs.
  - cbn. rewrite olookup_insert. destruct (decide (s = sid)) as [->|Hne].
    + rewrite Hs. cbn. destruct (unsent b) as [|y u]; [done|]. cbn. destruct (decide (oid y = oid x)); by case_decide; naive_solver.
    + destruct (from_option unsent _ _); [done|]. by rewrite decide_False by naive_solver.
  - destruct (decide (s = sid)) as [->|Hne]; [by rewrite Hs|]. cbn.
    destruct (from_option unsent _ _); [done|]. by rewrite decide_False by naive_solver.
Qed.

Lemma sender_view sid o p hist c o' :
  sender sid o p hist c → outbox_ok o' → view_of o' sid = view_of o sid → (next_id o ≤ next_id o')%N →
  sender sid o' p hist c ∧ to_send sid o' p = to_send sid o p.
Proof.
  intros [] Hok Hv Hn. assert (to_send sid o' p = to_send sid o p) as Ht by by unfold to_send; rewrite Hv.
  split; [|done]. split; rewrite ?Hv, ?Ht; try done.
  - eapply list.Forall_impl; [exact sn_next0|]. cbn. lia.
  - intros x Hx. destruct (sn_pump0 x Hx). split; [lia|done].
Qed.
Lemma sender_append sid ocfg o p hist c now io s type payload turn em o' r :
  sender sid o p hist c → Outbox.append ocfg o now io s type payload turn em = (o', r) →
  let hist' := match r with Ok x => if decide (s = sid) then <[seq_of x := body x]> hist else hist | Err _ => hist end in
  sender sid o' p hist' c ∧ hist ⊆ hist'
  ∧ ((v_high (view_of o' sid) = v_high (view_of o sid) ∧ to_send sid o' p = to_send sid o p)
     ∨ ∃ x, seq_of x = v_high (view_of o sid) + 1 ∧ v_high (view_of o' sid) = v_high (view_of o sid) + 1
            ∧ to_send sid o' p = to_send sid o p ++ [x]).
Proof.
  intros Hs Ha. pose proof (live_step_next ocfg o o' (step_append _ _ _ _ _ _ _ _ _ _ _ Ha) (sn_ok _ _ _ _ _ Hs)) as Hn.
  pose proof (append_inv _ _ _ _ _ _ _ _ _ _ _ (sn_ok _ _ _ _ _ Hs) Ha) as Hi. cbv zeta in Hi.
  destruct r as [x|err].
  2:{ destruct Hi as (Hok & Hv & _). destruct (sender_view _ _ _ _ _ o' Hs Hok (Hv sid) Hn) as [H1 H2].
      split_and!; [done|done|left]. by rewrite Hv. }
  destruct Hi as (Hok & Hx & _ & _ & _ & _ & Hv). specialize (Hv sid). case_decide as Hsid.
  2:{ destruct (sender_view _ _ _ _ _ o' Hs Hok Hv Hn) as [H1 H2]. split_and!; [done|done|left]. by rewrite Hv. }
  subst s. pose proof (append_id _ _ _ _ _ _ _ _ _ _ _ Ha) as Hid.
  pose proof (view_of_ok o sid (sn_ok _ _ _ _ _ Hs)) as Hvok. destruct Hs.
  assert (seq_of x = v_high (view_of o sid) + 1) as Hseq by (unfold seq_of; by rewrite Hx).
  assert (hist !! seq_of x = None) as Hnew.
  { destruct (hist !! seq_of x) eqn:E; [|done]. apply sn_upper0 in E. lia. }
  assert (to_send sid o' p = to_send sid o p ++ [x]) as Ht.
  { unfold to_send. rewrite Hv. cbn [v_unsent view_push]. apply popped_snoc. intros y Hy.
    destruct (sn_pump0 y Hy). lia. }
  split_and!; [|by apply insert_subseteq|right; exists x; split_and!; [done|by rewrite Hv|done]].
  split; rewrite ?Hv, ?Ht; cbn [view_push v_high v_acked v_pending]; try done; try lia.
  - by eapply gapless_push.
  - rewrite fmap_app. apply list.NoDup_app. split_and!; [done| |by apply NoDup_singleton].
    intros i (y & -> & Hy)%list_elem_of_fmap Hi%list_elem_of_singleton.
    pose proof (proj1 (list.Forall_forall _ _) sn_next0 y Hy). cbn in *. lia.
  - apply Forall_app. split; [|constructor; [lia|done]]. eapply list.Forall_impl; [exact sn_next0|]. cbn. lia.
  - intros y Hy. destruct (sn_pump0 y Hy) as [Hlt Hall]. split; [lia|]. apply Forall_app. split; [done|].
    constructor; [lia|done].
  - intros y [Hy| ->%list_elem_of_singleton]%elem_of_app; [|by rewrite lookup_insert_eq].
    rewrite lookup_insert_ne; [by apply sn_hist0|]. intros E. rewrite E, (sn_hist0 y Hy) in Hnew. done.
  - intros n e [[<- _]|[_ Hne]]%lookup_insert_Some; [lia|]. apply sn_upper0 in Hne. lia.
Qed.
Lemma sender_trim sid o p hist c o' n :
  sender sid o p hist c → outbox_ok o' → (next_id o ≤ next_id o')%N → n ≤ c →
  view_of o' sid = view_trim (view_of o sid) (v_high (view_of o sid)) n →
  sender sid o' p hist c ∧ v_high (view_of o' sid) = v_high (view_of o sid)
  ∧ to_send sid o' p = filter (λ x, n < seq_of x) (to_send sid o p).
Proof.
  intros Hs Hok Hn Hc Hv. pose proof (view_of_ok o sid (sn_ok _ _ _ _ _ Hs)) as Hvok. destruct Hs.
  assert (to_send sid o' p = filter (λ x, n < seq_of x) (to_send sid o p)) as Ht.
  { unfold to_send. rewrite Hv. apply popped_filter. intros x Hx. by apply sn_pump0. }
  split; [|by rewrite Hv]. split; rewrite ?Hv, ?Ht; cbn [view_trim v_high v_acked v_pending]; try done; try lia.
  - by eapply gapless_trim.
  - eapply sublist_NoDup; [exact sn_oids0|]. apply fmap_sublist, sublist_filter.
  - eapply list.Forall_impl; [apply Forall_filtered, sn_next0|]. cbn. lia.
  - intros x Hx. destruct (sn_pump0 x Hx). split; [lia|by apply Forall_filtered].
  - intros x [_ Hx]%list_elem_of_filter. by apply sn_hist0.
Qed.

Lemma sender_send sid o hist c s x :
  sender sid o None hist c → next_unsent o s = Some x →
  sender sid o (Some (s, x)) hist c ∧ env_session (body x) = s
  ∧ if decide (s = sid) then to_send sid o None = x :: to_send sid o (Some (s, x)) ∧ hist !! seq_of x = Some (body x)
    else to_send sid o (Some (s, x)) = to_send sid o None.
Proof.
  intros Hs Hx. rewrite next_unsent_view in Hx.
  destruct (v_unsent (view_of o s)) as [|y u] eqn:Hu; [done|]. injection Hx as ->.
  pose proof (view_of_ok o s (sn_ok _ _ _ _ _ Hs)) as Hvok. pose proof (vo_unsent _ _ Hvok) as [k Hk]. rewrite Hu in Hk.
  assert (env_session (body x) = s) as Hse.
  { apply (proj1 (list.Forall_forall _ _) (vo_session _ _ Hvok)). rewrite Hk. set_solver. }
  destruct (decide (s = sid)) as [->|Hne].
  - assert (to_send sid o (Some (sid, x)) = u) as Ht by (unfold to_send; rewrite Hu; cbn; by rewrite decide_True).
    assert (x ∈ v_pending (view_of o sid)) as Hin by (rewrite Hk; set_solver). destruct Hs. split; [|split; [done|]].
    + split; try done. intros z [= <-]. split; [by apply (proj1 (list.Forall_forall _ _) sn_next0)|].
      rewrite Ht. apply list.Forall_forall. intros y Hy E. rewrite Hk, fmap_app in sn_oids0.
      apply list.NoDup_app in sn_oids0 as (_ & _ & Hnd). cbn in Hnd. apply list.NoDup_cons in Hnd as [Hnd _].
      apply Hnd. rewrite <- E. by apply list_elem_of_fmap_2.
    + rewrite Ht. split; [|by apply sn_hist0]. unfold to_send. by rewrite Hu.
  - split_and!; [|done|].
    + destruct Hs. split; try done. intros z [= ? _]. done.
    + unfold to_send. destruct (v_unsent (view_of o sid)); [done|]. cbn. by rewrite decide_False by naive_solver.
Qed.
(** Every number that is known or still to be sent has been issued. *)
Lemma sender_issued sid o p hist c l :
  sender sid o p hist c → Forall (λ e, hist !! env_seq e = Some e) l →
  Forall (λ n, n ≤ v_high (view_of o sid)) ((env_seq <$> l) ++ OutboxSpec.seqs (to_send sid o p)).
Proof.
  intros Hs Hl. apply Forall_app. split; apply list.Forall_forall; intros n Hn; apply list_elem_of_fmap in Hn as (e & -> & He).
  - apply (sn_upper _ _ _ _ _ Hs _ e). by apply (proj1 (list.Forall_forall _ _) Hl).
  - apply (sn_upper _ _ _ _ _ Hs _ (body e)), (sn_hist _ _ _ _ _ Hs).
    pose proof (view_of_ok _ sid (sn_ok _ _ _ _ _ Hs)) as [_ _ _ _ _ [k Hk]]. rewrite Hk.
    apply elem_of_app. right. eapply elem_of_submseteq; [exact He|]. apply sublist_submseteq, popped_sublist.
Qed.
Lemma sender_sent sid o hist c s x :
  sender sid o (Some (s, x)) hist c →
  sender sid (Outbox.mark_sent o s x) None hist c
  ∧ to_send sid (Outbox.mark_sent o s x) None = to_send sid o (Some (s, x))
  ∧ v_high (view_of (Outbox.mark_sent o s x) sid) = v_high (view_of o sid).
Proof.
  intros []. pose proof (mark_sent_popped o s x sid) as Hv.
  split_and!; [|by unfold to_send at 1; rewrite Hv|by rewrite Hv].
  split; rewrite ?Hv; cbn [v_high v_acked v_pending]; try done; [by apply mark_sent_ok|].
  unfold Outbox.mark_sent. by case_match.
Qed.
Lemma sender_break sid o p hist c : sender sid o p hist c → sender sid o None hist c.
Proof. intros []. by split. Qed.
Lemma sender_connect sid o hist c :
  sender sid o None hist c →
  let o' := (Outbox.begin_connection o).1 in
  sender sid o' None hist c ∧ v_high (view_of o' sid) = v_high (view_of o sid)
  ∧ StronglySorted Z.lt (OutboxSpec.seqs (to_send sid o' None))
  ∧ ∀ n, c < n ≤ v_high (view_of o sid) → n ∈ OutboxSpec.seqs (to_send sid o' None).
Proof.
  intros Hs o'. destruct (begin_connection_view o (sn_ok _ _ _ _ _ Hs)) as [Hok Hv]. specialize (Hv sid). fold o' in Hok, Hv.
  pose proof (view_of_ok o sid (sn_ok _ _ _ _ _ Hs)) as Hvok. destruct Hs.
  assert (to_send sid o' None = v_pending (view_of o sid)) as Ht by (unfold to_send; by rewrite Hv).
  split_and!; [|by rewrite Hv|rewrite Ht; eapply increasing_sorted, vo_incr, Hvok|].
  - split; rewrite ?Hv; cbn [v_high v_acked v_pending]; done.
  - intros n Hn. rewrite Ht. rewrite (contig_seqZ _ _ sn_gapless0), (vo_last _ _ Hvok). apply elem_of_seqZ. lia.
Qed.
Lemma sender_cursor sid o p hist c c' :
  sender sid o p hist c → c ≤ c' ≤ v_high (view_of o sid) → sender sid o p hist c'.
Proof. intros [] Hc. split; try done; lia. Qed.

(** ** What is on its way on one connection *)

Definition nums (l : list envelope) : list Z := env_seq <$> l.
Definition known (hist : gmap Z envelope) (e : envelope) : Prop := hist !! env_seq e = Some e.
Record chan_ok (sid : uuid) (hist : gmap Z envelope) (c : Z) (ch : channel) : Prop := {
  co_sorted : StronglySorted Z.lt (nums (path sid ch));
  co_closed : closed c (nums (path sid ch));
  co_known : Forall (known hist) (path sid ch)
}.

Lemma nums_app l1 l2 : nums (l1 ++ l2) = nums l1 ++ nums l2.
Proof. apply fmap_app. Qed.
Lemma of_session_app sid l1 l2 : of_session sid (l1 ++ l2) = of_session sid l1 ++ of_session sid l2.
Proof. apply list.filter_app. Qed.
Lemma of_session_queued sid l : of_session sid (q_env <$> l) = q_env <$> of_sess sid l.
Proof.
  unfold of_session, of_sess, sess. induction l as [|q l IH]; [done|]. csimpl. rewrite !filter_cons.
  case_decide; csimpl; by rewrite IH.
Qed.
Lemma path_open sid ch : sv_over (ch_server ch) = false →
  path sid ch = (q_env <$> of_sess sid (lane_of (ch_server ch))) ++ of_session sid (ch_wire ch).
Proof. intros Ho. unfold path. by rewrite Ho, of_session_app, of_session_queued. Qed.
Lemma path_over sid ch : sv_over (ch_server ch) = true → path sid ch = [].
Proof. intros Ho. unfold path. by rewrite Ho. Qed.
Lemma path_same sid w r s s' :
  lane_of s' = lane_of s → sv_over s' = sv_over s → path sid (Channel w r s') = path sid (Channel w r s).
Proof. unfold path. cbn. by intros -> ->. Qed.

Lemma chan_over sid hist c ch : sv_over (ch_server ch) = true → chan_ok sid hist c ch.
Proof.
  intros Ho. split; rewrite path_over by done; [constructor| |constructor].
  intros n m _ _ ?%not_elem_of_nil. done.
Qed.
Lemma chan_mono sid hist hist' c c' ch : chan_ok sid hist c ch → hist ⊆ hist' → c ≤ c' → chan_ok sid hist' c' ch.
Proof.
  intros [] Hh Hc. split; [done|by eapply closed_mono|]. eapply list.Forall_impl; [done|].
  intros e He. by eapply lookup_weaken.
Qed.
Lemma chan_path sid hist c ch ch' : chan_ok sid hist c ch → path sid ch' = path sid ch → chan_ok sid hist c ch'.
Proof. intros [] Hp. split; by rewrite Hp. Qed.
(** The envelopes that a batch has acked leave. *)
Lemma chan_drop sid hist c c' ch ch' a :
  chan_ok sid hist c ch → path sid ch = a ++ path sid ch' → c ≤ c' → Forall (λ n, n ≤ c') (nums a) → chan_ok sid hist c' ch'.
Proof.
  intros [] Hp Hc Ha. rewrite Hp, ?nums_app in *. split.
  - by eapply StronglySorted_app_1_r.
  - eapply closed_suffix; [done..|]. by apply list.Forall_forall.
  - by apply Forall_app in co_known0 as [_ ?].
Qed.

(** ** The log *)

Record log_ok (sid : uuid) (base : Z) (hist : gmap Z envelope) (c : Z) (d : db) (log : list (envelope * verdict)) : Prop := {
  lg_base : base ≤ c;
  lg_cover : ∀ n, base < n ≤ c → ∃ e v, (e, v) ∈ log ∧ env_seq e = n;
  lg_entry : ∀ e v, (e, v) ∈ log → known hist e ∧ env_seq e ≤ c ∧ v ≠ VLost;
  lg_order : ∀ l1 e v l2, log = l1 ++ (e, v) :: l2 → ∀ m, base < m < env_seq e → ∃ e' v', (e', v') ∈ l1 ∧ env_seq e' = m;
  lg_once : NoDup (applied log);
  lg_ledger : ∀ n, (sid, n) ∈ ledger d → n ≤ base ∨ n ∈ applied log;
  lg_applied : ∀ n, n ∈ applied log → (sid, n) ∈ ledger d
}.

Lemma log_mono sid base hist hist' c d log : log_ok sid base hist c d log → hist ⊆ hist' → log_ok sid base hist' c d log.
Proof.
  intros [] Hh. split; try done. intros e v Hin. destruct (lg_entry0 e v Hin) as (H1 & H2 & H3).
  split_and!; [|done..]. by eapply lookup_weaken.
Qed.
Lemma log_kept worker sid base hist c d d' log :
  log_ok sid base hist c d log → kept worker sid d d' → log_ok sid base hist c d' log.
Proof.
  intros [] Hk. split; try done.
  - intros n Hn. apply lg_ledger0. by apply (kp_ledger _ _ _ _ Hk).
  - intros n Hn. apply (kp_ledger _ _ _ _ Hk). by apply lg_applied0.
Qed.

Lemma applied_app l1 l2 : applied (l1 ++ l2) = applied l1 ++ applied l2.
Proof. unfold applied. by rewrite list.filter_app, fmap_app. Qed.
Lemma elem_of_applied n log : n ∈ applied log ↔ ∃ e, (e, VApplied) ∈ log ∧ env_seq e = n.
Proof.
  unfold applied. rewrite list_elem_of_fmap. split.
  - intros ([e v] & -> & [Hv Hin]%list_elem_of_filter). cbn in *. subst v. by exists e.
  - intros (e & Hin & <-). exists (e, VApplied). split; [done|]. by apply list_elem_of_filter.
Qed.
Lemma applied_sublist sid d d1 b out :
  applied (verdicts sid d d1 b out) `sublist_of` nums (q_env <$> acked_of sid b out).
Proof.
  unfold applied, verdicts, nums. generalize (acked_of sid b out). intros l.
  induction l as [|q l IH]; [done|]. csimpl. rewrite filter_cons. case_decide; csimpl; by constructor.
Qed.
Lemma elem_of_verdicts e v sid d d1 b out :
  (e, v) ∈ verdicts sid d d1 b out ↔ ∃ q, q ∈ acked_of sid b out ∧ e = q_env q ∧ v = verdict_of d d1 out q.
Proof. unfold verdicts. rewrite list_elem_of_fmap. naive_solver. Qed.

Lemma acked_of_session sid b out q : q ∈ acked_of sid b out → sess q = sid.
Proof.
  unfold acked_of. intros Hq%elem_of_take. destruct Hq as (i & Hq & _). apply list_elem_of_lookup_2 in Hq.
  by apply list_elem_of_filter in Hq as [? _].
Qed.

(** A batch takes the next envelopes of the path into the log. *)
Section log_batch.
Context (worker sid : uuid) (base : Z) (hist : gmap Z envelope) (c c' : Z) (d d1 : db)
  (log : list (envelope * verdict)) (b : list queued) (out : outcome) (rest : list envelope).
Context (Hlog : log_ok sid base hist c d log) (Hb : batch_effect worker sid d d1 b out c c').
#[local] Abbreviation A := (acked_of sid b out).
Context (Hsorted : StronglySorted Z.lt (nums (q_env <$> A) ++ nums rest)).
Context (Hclosed : closed c (nums (q_env <$> A) ++ nums rest)).
Context (Hknown : Forall (known hist) (q_env <$> A)).
Context (Hretry : of_session sid (q_env <$> retry out) `prefix_of` rest).

Lemma acked_num q : q ∈ A → env_seq (q_env q) ∈ nums (q_env <$> A).
Proof. intros Hq. by apply (list_elem_of_fmap_2 env_seq), (list_elem_of_fmap_2 q_env). Qed.
Lemma acked_not_retried q : q ∈ A → q ∉ retry out.
Proof.
  intros Hq Hr. assert (env_seq (q_env q) ∈ nums rest) as Hin.
  { destruct Hretry as [k ->]. rewrite nums_app. apply elem_of_app. left. apply list_elem_of_fmap_2, list_elem_of_filter.
    split; [by eapply acked_of_session|by apply list_elem_of_fmap_2]. }
  pose proof (StronglySorted_app_1_elem_of _ _ _ _ _ Hsorted (acked_num q Hq) Hin). lia.
Qed.
Lemma log_batch_cover n : base < n ≤ c' → ∃ e v, (e, v) ∈ log ++ verdicts sid d d1 b out ∧ env_seq e = n.
Proof.
  intros Hn. destruct (decide (n ≤ c)) as [Hc|Hc].
  { destruct (lg_cover _ _ _ _ _ _ Hlog n) as (e & v & Hin & He); [lia|]. exists e, v. set_solver. }
  destruct (be_attained _ _ _ _ _ _ _ _ Hb) as [->|(q & Hq & Hqc)]; [lia|].
  assert (n ∈ nums (q_env <$> A) ++ nums rest) as [Hn'|Hn']%elem_of_app.
  { apply (Hclosed n (env_seq (q_env q))); [lia|lia|]. apply elem_of_app. left. by apply acked_num. }
  - apply list_elem_of_fmap in Hn' as (e & -> & (q' & -> & Hq')%list_elem_of_fmap).
    eexists (q_env q'), _. split; [|done]. apply elem_of_app. right. apply elem_of_verdicts. by exists q'.
  - pose proof (StronglySorted_app_1_elem_of _ _ _ _ _ Hsorted (acked_num q Hq) Hn'). lia.
Qed.
(** What precedes an entry of the batch, in the log or in the batch. *)
Lemma log_batch_at k e v l2 m :
  verdicts sid d d1 b out = k ++ (e, v) :: l2 → base < m < env_seq e → ∃ e' v', (e', v') ∈ log ++ k ∧ env_seq e' = m.
Proof.
  intros E Hm. destruct (decide (m ≤ c)) as [Hc|Hc].
  { destruct (lg_cover _ _ _ _ _ _ Hlog m) as (e' & v' & Hin & He); [lia|]. exists e', v'. set_solver. }
  unfold verdicts in E. apply fmap_app_inv in E as (A1 & A2 & -> & E2 & EA).
  destruct A2 as [|q A2]; [done|]. injection E2 as -> _ _. cbn [fmap list_fmap] in *.
  rewrite EA, fmap_app, nums_app in Hsorted, Hclosed. rewrite <- app_assoc in Hsorted, Hclosed.
  assert (m ∈ nums (q_env <$> A1) ++ nums (q_env <$> q :: A2) ++ nums rest) as Hin.
  { apply (Hclosed m (env_seq (q_env q))); [lia|lia|]. set_solver. }
  apply elem_of_app in Hin as [Hin|Hin].
  - apply list_elem_of_fmap in Hin as (e' & -> & (q' & -> & Hq')%list_elem_of_fmap).
    exists (q_env q'), (verdict_of d d1 out q'). split; [|done]. apply elem_of_app. right.
    by apply (list_elem_of_fmap_2 (λ q, (q_env q, verdict_of d d1 out q))).
  - exfalso. apply StronglySorted_app_1_r in Hsorted. cbn in Hsorted, Hin.
    apply StronglySorted_inv in Hsorted as [_ Hs]. pose proof (proj1 (list.Forall_forall _ _) Hs m) as Hlt.
    apply elem_of_cons in Hin as [->|Hin]; [lia|]. specialize (Hlt Hin). cbn in Hlt. lia.
Qed.
Lemma log_batch_order l1 e v l2 :
  log ++ verdicts sid d d1 b out = l1 ++ (e, v) :: l2 → ∀ m, base < m < env_seq e → ∃ e' v', (e', v') ∈ l1 ∧ env_seq e' = m.
Proof.
  intros E m Hm. apply app_eq_inv in E as [(k & E1 & E2)|(k & -> & E2)]; [|by eapply log_batch_at].
  destruct k as [|y k]; cbn in E2.
  - rewrite app_nil_r in E1. subst l1. rewrite <- (app_nil_r log). by eapply log_batch_at.
  - injection E2 as <- E2. by eapply lg_order.
Qed.
Lemma log_batch : log_ok sid base hist c' d1 (log ++ verdicts sid d d1 b out).
Proof.
  pose proof (be_grows _ _ _ _ _ _ _ _ Hb) as Hc. pose proof (lg_base _ _ _ _ _ _ Hlog) as Hbase. split.
  - lia.
  - exact log_batch_cover.
  - intros e v [Hin|(q & Hq & -> & ->)%elem_of_verdicts]%elem_of_app.
    + destruct (lg_entry _ _ _ _ _ _ Hlog e v Hin) as (H1 & H2 & H3). split_and!; [done|lia|done].
    + split_and!.
      * by apply (proj1 (list.Forall_forall _ _) Hknown), list_elem_of_fmap_2.
      * by apply (be_upper _ _ _ _ _ _ _ _ Hb).
      * apply (be_verdict _ _ _ _ _ _ _ _ Hb); [done|]. by apply acked_not_retried.
  - exact log_batch_order.
  - rewrite applied_app. apply list.NoDup_app. split_and!; [apply Hlog| |].
    + intros n Hn (e & (q & Hq & -> & Hv)%elem_of_verdicts & <-)%elem_of_applied.
      apply (lg_applied _ _ _ _ _ _ Hlog) in Hn. unfold verdict_of in Hv. rewrite decide_True in Hv; [done|].
      unfold key. by rewrite (acked_of_session _ _ _ _ Hq : env_session (q_env q) = sid).
    + eapply sublist_NoDup; [|apply applied_sublist]. eapply sorted_lt_NoDup, StronglySorted_app_1_l, Hsorted.
  - intros n Hn. rewrite applied_app. destruct (be_claims _ _ _ _ _ _ _ _ Hb n Hn) as [Hd|(q & Hq & <-)].
    + apply (lg_ledger _ _ _ _ _ _ Hlog) in Hd. set_solver.
    + pose proof (acked_of_session _ _ _ _ Hq : env_session (q_env q) = sid) as Hs.
      destruct (decide (key q ∈ ledger d)) as [Hd|Hd].
      * unfold key in Hd. rewrite Hs in Hd. apply (lg_ledger _ _ _ _ _ _ Hlog) in Hd. set_solver.
      * right. apply elem_of_app. right. apply elem_of_applied. exists (q_env q). split; [|done].
        apply elem_of_verdicts. exists q. split_and!; [done..|]. unfold verdict_of. rewrite decide_False by done.
        rewrite decide_True; [done|]. unfold key. by rewrite Hs.
  - intros n. rewrite applied_app. intros [Hn|(e & (q & Hq & -> & Hv)%elem_of_verdicts & <-)%elem_of_applied]%elem_of_app.
    + by apply (be_ledger _ _ _ _ _ _ _ _ Hb), (lg_applied _ _ _ _ _ _ Hlog).
    + unfold verdict_of in Hv. repeat (case_decide; try done). unfold key in *.
      by rewrite (acked_of_session _ _ _ _ Hq : env_session (q_env q) = sid) in *.
Qed.
End log_batch.

(** ** The rest of the program *)

Lemma kept_refl worker sid d : kept worker sid d d.
Proof. by split. Qed.
Lemma renew_kept fleet worker sid h d now ref stored h' d' :
  renew_on_activity fleet h d now ref stored = (h', d') → kept worker sid d d'.
Proof.
  unfold renew_on_activity. destruct (h_objs h !! ref) as [k|]; [|intros [= _ <-]; apply kept_refl].
  destruct (_ <? _); [intros [= _ <-]; apply kept_refl|]. intros [= _ <-]. unfold extend_worker_leases.
  match goal with |- context [?g <$> _] => set (f := g) end.
  assert (∀ r, s_id (f r) = s_id r ∧ is_leased_to worker (f r) = is_leased_to worker r
               ∧ worker_seq (s_lease (f r)) = worker_seq (s_lease r)) as Hf.
  { intros r. unfold f. by case_match. }
  split; [|unfold last_seq_for, get_session_by_id; cbn; rewrite lookup_fmap|done].
  - intros Hok. destruct Hok as [Hkey ?]. split; try done. intros s r. cbn. rewrite lookup_fmap.
    intros (r0 & Hr0 & ->)%fmap_Some. apply Hkey in Hr0. by rewrite (proj1 (Hf r0)).
  - destruct (Db.sessions d !! sid) as [r|]; [|done]. cbn. destruct (Hf r) as (_ & -> & ->). done.
Qed.

(** ** The connection the worker sends on *)

Definition current (sid : uuid) (c high : Z) (p : list envelope) (u : list stored) : Prop :=
  StronglySorted Z.lt (nums p ++ OutboxSpec.seqs u) ∧ ∀ n, c < n ≤ high → n ∈ nums p ++ OutboxSpec.seqs u.
Definition front (sid : uuid) (up : bool) (c high : Z) (u : list stored) (chs : list channel) : Prop :=
  up = true → ∃ ch rest, chs = ch :: rest
    ∧ (sv_over (ch_server ch) = true ∨ current sid c high (path sid ch) u).

Lemma current_drop sid c c' high a p u :
  current sid c high (a ++ p) u → c ≤ c' → Forall (λ n, n ≤ c') (nums a) → current sid c' high p u.
Proof.
  intros [Hs Hr] Hc Ha. rewrite nums_app, <- app_assoc in Hs, Hr. split; [by eapply StronglySorted_app_1_r|].
  intros n Hn. assert (n ∈ nums a ++ nums p ++ OutboxSpec.seqs u) as [Hin|?]%elem_of_app by (apply Hr; lia); [|done].
  pose proof (proj1 (list.Forall_forall _ _) Ha n Hin). cbn in *. lia.
Qed.
Lemma current_filter sid c high p u n :
  current sid c high p u → n ≤ c → current sid c high p (filter (λ x, n < seq_of x) u).
Proof.
  intros [Hs Hr] Hn. apply StronglySorted_app in Hs as (H12 & H1 & H2). unfold current.
  assert (OutboxSpec.seqs (filter (λ x, n < seq_of x) u) = filter (λ m, n < m) (OutboxSpec.seqs u)) as ->.
  { unfold OutboxSpec.seqs. clear. induction u as [|x u IH]; [done|]. csimpl. rewrite !filter_cons. by case_decide; csimpl; rewrite IH. }
  split.
  - apply StronglySorted_app_2; [|done|by apply sorted_filter].
    intros x y Hx [_ Hy]%list_elem_of_filter. by apply H12.
  - intros m Hm. specialize (Hr m Hm). apply elem_of_app in Hr as [?|?]; apply elem_of_app; [by left|right].
    apply list_elem_of_filter. split; [lia|done].
Qed.
Lemma current_snoc sid c high p u x :
  current sid c high p u → Forall (λ n, n ≤ high) (nums p ++ OutboxSpec.seqs u) → seq_of x = high + 1 →
  current sid c (high + 1) p (u ++ [x]).
Proof.
  intros [Hs Hr] Hle Hx. unfold current. rewrite OutboxSpec.seqs_app. csimpl. rewrite Hx, app_assoc. split.
  - apply sorted_snoc_lt; [done|]. eapply list.Forall_impl; [exact Hle|]. cbn. lia.
  - intros n Hn. destruct (decide (n = high + 1)) as [->|Hne]; [set_solver|].
    apply elem_of_app. left. apply Hr. lia.
Qed.
(** The next envelope goes out. *)
Lemma current_send sid c high p u x :
  current sid c high p (x :: u) → current sid c high (p ++ [body x]) u.
Proof. unfold current. rewrite nums_app. csimpl. rewrite <- app_assoc. done. Qed.

Lemma front_update sid up c c' high u chs i ch ch' a :
  front sid up c high u chs → chs !! i = Some ch → c ≤ c' → Forall (λ n, n ≤ c') (nums a) →
  (sv_over (ch_server ch') = true
   ∨ sv_over (ch_server ch') = sv_over (ch_server ch) ∧ path sid ch = a ++ path sid ch') →
  front sid up c' high u (<[i := ch']> chs).
Proof.
  intros Hf Hi Hc Ha Hch Hup. destruct (Hf Hup) as (ch0 & rest & -> & H0). destruct i as [|i]; cbn in *.
  - injection Hi as <-. exists ch', rest. split; [done|]. destruct Hch as [?|[Ho Hp]]; [by left|].
    destruct H0 as [?|H0]; [left; congruence|right]. rewrite Hp in H0. by eapply current_drop.
  - eexists ch0, _. split; [done|]. destruct H0 as [?|H0]; [by left|right].
    by eapply (current_drop _ _ _ _ []).
Qed.
Lemma chans_update sid hist c c' chs i ch ch' a :
  Forall (chan_ok sid hist c) chs → chs !! i = Some ch → c ≤ c' → Forall (λ n, n ≤ c') (nums a) →
  (sv_over (ch_server ch') = true
   ∨ sv_over (ch_server ch') = sv_over (ch_server ch) ∧ path sid ch = a ++ path sid ch') →
  Forall (chan_ok sid hist c') (<[i := ch']> chs).
Proof.
  intros Hall Hi Hc Ha Hch. apply Forall_insert.
  - eapply list.Forall_impl; [exact Hall|]. intros ch0 H0. by eapply chan_mono.
  - destruct Hch as [?|[Ho Hp]]; [by apply chan_over|].
    eapply chan_drop; [|exact Hp|done..]. by eapply Forall_lookup_1.
Qed.

(** ** The invariant *)

(** Only the projections of a link, of which the setters are made. *)
Ltac link_simpl :=
  cbn [with_outbox with_hist with_pump with_up with_channels with_api note_acks note_verdicts
       lk_outbox lk_up lk_pump lk_channels lk_hub lk_db lk_acks lk_hist lk_log ch_wire ch_ref ch_server].

Record link_ok (worker sid : uuid) (base c : Z) (l : link) : Prop := {
  li_sender : sender sid (lk_outbox l) (lk_pump l) (lk_hist l) c;
  li_db : db_ok (lk_db l);
  li_cursor : last_seq_for (lk_db l) worker sid = Some c;
  li_acks : ∀ n, (sid, n) ∈ lk_acks l → n ≤ c;
  li_channels : Forall (chan_ok sid (lk_hist l) c) (lk_channels l);
  li_front : front sid (lk_up l) c (v_high (view_of (lk_outbox l) sid)) (to_send sid (lk_outbox l) (lk_pump l)) (lk_channels l);
  li_down : lk_up l = false → lk_pump l = None;
  li_log : log_ok sid base (lk_hist l) c (lk_db l) (lk_log l)
}.

Section link_ok.
Context (worker sid : uuid) (base c : Z).
#[local] Abbreviation ok := (link_ok worker sid base c).

Lemma link_cursor_pos l : ok l → 0 ≤ c.
Proof.
  intros []. pose proof (view_of_ok _ sid (sn_ok _ _ _ _ _ li_sender0)) as [Ha _ _ _ _ _]. destruct li_sender0. lia.
Qed.
(** Every number on its way or still to be sent has been issued. *)
Lemma link_issued l ch : ok l → ch ∈ lk_channels l →
  Forall (λ n, n ≤ v_high (view_of (lk_outbox l) sid))
    (nums (path sid ch) ++ OutboxSpec.seqs (to_send sid (lk_outbox l) (lk_pump l))).
Proof.
  intros [] Hch. eapply sender_issued; [done|]. by apply (proj1 (list.Forall_forall _ _) li_channels0 ch Hch).
Qed.

(** A step of the worker that leaves the pump and the connections alone. *)
Lemma link_outbox_ok l o hist :
  ok l → sender sid o (lk_pump l) hist c → lk_hist l ⊆ hist →
  front sid (lk_up l) c (v_high (view_of o sid)) (to_send sid o (lk_pump l)) (lk_channels l) →
  ok (with_hist (with_outbox l o) hist).
Proof.
  intros [] Hs Hh Hf. split; try done; cbn.
  - eapply list.Forall_impl; [done|]. intros ch Hch. by eapply chan_mono.
  - by eapply log_mono.
Qed.
Lemma link_same_hist l o : with_outbox l o = with_hist (with_outbox l o) (lk_hist l).
Proof. done. Qed.
Lemma link_append ocfg l now io s type payload turn em o r :
  ok l → Outbox.append ocfg (lk_outbox l) now io s type payload turn em = (o, r) →
  ok (with_hist (with_outbox l o)
    (match r with Ok x => if decide (s = sid) then <[seq_of x := body x]> (lk_hist l) else lk_hist l | Err _ => lk_hist l end)).
Proof.
  intros Hok Ha. pose proof (sender_append sid _ _ _ _ _ _ _ _ _ _ _ _ _ _ (li_sender _ _ _ _ _ Hok) Ha) as (Hs & Hh & Hv).
  apply link_outbox_ok; try done. intros Hup. destruct (li_front _ _ _ _ _ Hok Hup) as (ch & rest & E & Hc).
  exists ch, rest. split; [done|]. destruct Hc as [?|Hc]; [by left|right].
  destruct Hv as [[-> ->]|(x & Hx & -> & ->)]; [done|]. apply current_snoc; [done| |done].
  apply link_issued; [done|]. rewrite E. by left.
Qed.
Lemma link_view ocfg l o :
  ok l → live_step ocfg (lk_outbox l) o → view_of o sid = view_of (lk_outbox l) sid → ok (with_outbox l o).
Proof.
  intros Hok Hst Hv. pose proof (li_sender _ _ _ _ _ Hok) as Hs.
  pose proof (live_step_next _ _ _ Hst (sn_ok _ _ _ _ _ Hs)) as Hn. apply live_step_ok in Hst; [|apply Hs].
  destruct (sender_view _ _ _ _ _ o Hs Hst Hv Hn) as [Hs' Ht]. rewrite link_same_hist.
  apply link_outbox_ok; try done. rewrite Hv, Ht. apply Hok.
Qed.
Lemma link_trim l o n :
  ok l → outbox_ok o → (next_id (lk_outbox l) ≤ next_id o)%N → n ≤ c →
  view_of o sid = view_trim (view_of (lk_outbox l) sid) (v_high (view_of (lk_outbox l) sid)) n → ok (with_outbox l o).
Proof.
  intros Hok Ho Hn Hc Hv. destruct (sender_trim _ _ _ _ _ o n (li_sender _ _ _ _ _ Hok) Ho Hn Hc Hv) as (Hs & Hh & Ht).
  rewrite link_same_hist. apply link_outbox_ok; try done. rewrite Hh, Ht. intros Hup.
  destruct (li_front _ _ _ _ _ Hok Hup) as (ch & rest & E & H0). exists ch, rest. split; [done|].
  destruct H0 as [?|H0]; [by left|right]. by apply current_filter.
Qed.
Lemma link_base ocfg l n io : ok l → n ≤ c → ok (with_outbox l (Outbox.set_base ocfg (lk_outbox l) sid n io)).
Proof.
  intros Hok Hn. pose proof (li_sender _ _ _ _ _ Hok) as Hs.
  destruct (set_base_view ocfg (lk_outbox l) sid n io (sn_ok _ _ _ _ _ Hs)) as [Ho Hv].
  pose proof (live_step_next ocfg _ _ (step_set_base _ (lk_outbox l) sid n io) (sn_ok _ _ _ _ _ Hs)) as Hnx.
  apply (link_trim l _ n); try done. rewrite Hv, decide_True by done. f_equal.
  pose proof (sn_high _ _ _ _ _ Hs) as Hhi. cbn in *. lia.
Qed.
Lemma link_acked ocfg l n io : ok l → n ≤ c → ok (with_outbox l (Outbox.acked ocfg (lk_outbox l) sid n io)).
Proof.
  intros Hok Hn. pose proof (li_sender _ _ _ _ _ Hok) as Hs. pose proof (sn_high _ _ _ _ _ Hs) as Hhi. cbn in Hhi.
  assert (n ≤ high_water (lk_outbox l) sid) as Hle by lia.
  destruct (acked_view ocfg (lk_outbox l) sid n io (sn_ok _ _ _ _ _ Hs) Hle) as [Ho Hv].
  pose proof (live_step_next ocfg _ _ (step_acked _ (lk_outbox l) sid n io Hle) (sn_ok _ _ _ _ _ Hs)) as Hnx.
  specialize (Hv sid). case_decide as Hd; [by apply (link_trim l _ n)|].
  by eapply (link_view ocfg l _ Hok (step_acked _ (lk_outbox l) sid n io Hle)).
Qed.
Lemma link_send l s x ch rest :
  ok l → lk_up l = true → lk_pump l = None → next_unsent (lk_outbox l) s = Some x → lk_channels l = ch :: rest →
  ok (with_channels (with_pump l (Some (s, x))) (Channel (ch_wire ch ++ [body x]) (ch_ref ch) (ch_server ch) :: rest)).
Proof.
  intros Hok Hup Hp Hx Hch. destruct Hok. rewrite Hp, Hch in *.
  destruct (sender_send _ _ _ _ s x li_sender0 Hx) as (Hs & Hse & Hd).
  destruct (li_front0 Hup) as (ch0 & rest0 & E & H0). injection E as <- <-.
  apply Forall_cons_1 in li_channels0 as [Hc0 Hcr].
  set (ch' := Channel _ _ _). destruct (sv_over (ch_server ch)) eqn:Ho.
  { split; try done; cbn; [by constructor; [apply chan_over|]| |by rewrite Hup].
    intros _. exists ch', rest. split; [done|by left]. }
  destruct H0 as [?|H0]; [done|].
  assert (path sid ch' = path sid ch ++ of_session sid [body x]) as Hpath.
  { unfold ch'. rewrite !path_open by done. cbn [ch_wire ch_server]. by rewrite of_session_app, app_assoc. }
  assert (current sid c (v_high (view_of (lk_outbox l) sid)) (path sid ch') (to_send sid (lk_outbox l) (Some (s, x)))
    ∧ Forall (known (lk_hist l)) (path sid ch')) as [Hcur Hk].
  { rewrite Hpath. unfold of_session. rewrite filter_cons. rewrite Hse. destruct (decide (s = sid)) as [->|Hne].
    - destruct Hd as [Ht Hkn]. rewrite Ht in H0. split; [by apply current_send|].
      apply Forall_app. split; [apply Hc0|by repeat constructor].
    - rewrite app_nil_r, Hd. split; [done|apply Hc0]. }
  split; try done; cbn; [| |by rewrite Hup].
  - constructor; [|done]. split; [by eapply StronglySorted_app_1_l, (proj1 Hcur)| |done].
    eapply closed_prefix; [exact (proj1 Hcur)|]. intros n m Hn Hm Hin. apply (proj2 Hcur). split; [done|].
    pose proof (sender_issued _ _ _ _ _ _ Hs Hk) as Hle.
    pose proof (proj1 (list.Forall_forall _ _) Hle m Hin). cbn in *. lia.
  - intros _. exists ch', rest. split; [done|by right].
Qed.
Lemma link_sent l s x :
  ok l → lk_pump l = Some (s, x) → ok (with_pump (with_outbox l (Outbox.mark_sent (lk_outbox l) s x)) None).
Proof.
  intros [] Hp. rewrite Hp in *. destruct (sender_sent _ _ _ _ _ _ li_sender0) as (Hs & Ht & Hh).
  split; try done. link_simpl. by rewrite Hh, Ht.
Qed.
Lemma link_break l : ok l → ok (with_up (with_pump l None) false).
Proof. intros []. split; try done. by eapply sender_break. Qed.
Lemma link_connect l ref :
  ok l → lk_up l = false →
  ok (with_up (with_channels (with_outbox l (Outbox.begin_connection (lk_outbox l)).1)
       (Channel [] ref new_server :: lk_channels l)) true).
Proof.
  intros [] Hup. specialize (li_down0 Hup). rewrite li_down0 in *.
  destruct (sender_connect _ _ _ _ li_sender0) as (Hs & Hh & Hso & Hr). set (o := (Outbox.begin_connection _).1) in *.
  assert (path sid (Channel [] ref new_server) = []) as Hp by done.
  split; try done; link_simpl; rewrite ?li_down0; try done.
  - constructor; [|done]. split; rewrite Hp; [constructor| |constructor]. by intros n m _ _ ?%not_elem_of_nil.
  - intros _. eexists _, _. split; [done|right]. rewrite Hp, Hh. by split.
Qed.

(** A step of a server, and of the database under it. *)
Lemma link_channel l l' c' i ch s' a :
  ok l → lk_channels l !! i = Some ch → c ≤ c' → c' ≤ v_high (view_of (lk_outbox l) sid) →
  Forall (λ n, n ≤ c') (nums a) →
  (sv_over s' = true ∨ sv_over s' = sv_over (ch_server ch)
     ∧ path sid ch = a ++ path sid (Channel (ch_wire ch) (ch_ref ch) s')) →
  lk_outbox l' = lk_outbox l → lk_up l' = lk_up l → lk_pump l' = lk_pump l → lk_hist l' = lk_hist l →
  lk_channels l' = <[i := Channel (ch_wire ch) (ch_ref ch) s']> (lk_channels l) →
  db_ok (lk_db l') → last_seq_for (lk_db l') worker sid = Some c' →
  (∀ n, (sid, n) ∈ lk_acks l' → n ≤ c') → log_ok sid base (lk_hist l) c' (lk_db l') (lk_log l') →
  link_ok worker sid base c' l'.
Proof.
  intros [] Hi Hc Hh Ha Hs E1 E2 E3 E4 E5 Hd Hcur Hack Hlog. split; rewrite ?E1, ?E2, ?E3, ?E4, ?E5; try done.
  - by eapply sender_cursor.
  - by eapply chans_update.
  - by eapply front_update.
Qed.
(** The database moves on under the channels. *)
Lemma link_moved l h d : ok l → kept worker sid (lk_db l) d → ok (with_api l h d).
Proof.
  intros [] Hk. split; try done; cbn.
  - by apply (kp_ok _ _ _ _ Hk).
  - by rewrite (kp_cursor _ _ _ _ Hk).
  - by eapply log_kept.
Qed.
End link_ok.

(** ** Every step keeps it *)

Section step.
Context {S : Type} `{ObjectStore S}.
Context (sha256_hex : list ascii → string).
Context (presign_url : list ascii → Z → string → string * list (string * json)).
Context (head_object : S → list ascii → res exn (option Z)).
Context (cfg : settings) (store : usage_store).
Context (session_model : db → session_row → option string).
Context (exn_str : exn → string) (library_code : exn → option string).
Context (classify_host_message : string → failure).
Context (validate_envelope : json → option envelope).
Context (validate_payload : string → list (string * json) → bool).
Context (parse_control_fields : string → json → option control_msg).
Context (fleet : fleet_settings) (worker : uuid) (run_mode : option string).
Context (batch_size : nat) (window : Z).
Context (ocfg : config) (sid : uuid) (base : Z).
#[local] Abbreviation step := (link_step sha256_hex presign_url head_object cfg store session_model exn_str library_code
  classify_host_message validate_envelope validate_payload parse_control_fields fleet worker run_mode batch_size window
  ocfg sid).
#[local] Abbreviation round_at := (round_at sha256_hex presign_url head_object cfg store session_model exn_str library_code
  fleet worker run_mode).
#[local] Abbreviation flushed := (flushed sha256_hex presign_url head_object cfg store session_model exn_str library_code
  worker run_mode).

Lemma flushed_effect c s d b d1 out :
  flushed s d b d1 out → db_ok d → last_seq_for d worker sid = Some c → 0 ≤ c →
  sv_over s = false ∧ lane_of s = bt_pending b ++ lane_rest s
  ∧ ∃ c', batch_effect worker sid d d1 (bt_pending b) out c c'.
Proof.
  intros [st d0 ios Ho Hb Hl Hf] Hd Hc Hpos. split_and!; [done|by apply lane_of_batch|].
  replace (bt_pending b) with ((zip (bt_pending b) ios).*1); [by eapply flush_effect|].
  by rewrite fst_zip by lia.
Qed.
(** What is on the way before and after a batch. *)
Lemma batch_path ch b out w c c' d d1 :
  sv_over (ch_server ch) = false → lane_of (ch_server ch) = bt_pending b ++ lane_rest (ch_server ch) →
  batch_effect worker sid d d1 (bt_pending b) out c c' →
  w = of_session sid (q_env <$> retry out ++ lane_rest (ch_server ch)) ++ of_session sid (ch_wire ch) →
  path sid ch = (q_env <$> acked_of sid (bt_pending b) out) ++ w
  ∧ of_session sid (q_env <$> retry out) `prefix_of` w.
Proof.
  intros Ho Hl Hb ->. split.
  - rewrite path_open, Hl, of_sess_app, (be_split _ _ _ _ _ _ _ _ Hb) by done.
    rewrite !fmap_app, of_session_app, !of_session_queued. by rewrite !app_assoc.
  - rewrite fmap_app, of_session_app, <- app_assoc. by eexists.
Qed.
Lemma log_flushed c l ch s d1 b out c' :
  link_ok worker sid base c l → ch ∈ lk_channels l → s = ch_server ch →
  sv_over s = false → lane_of s = bt_pending b ++ lane_rest s →
  batch_effect worker sid (lk_db l) d1 (bt_pending b) out c c' →
  log_ok sid base (lk_hist l) c' d1 (lk_log l ++ verdicts sid (lk_db l) d1 (bt_pending b) out)
  ∧ c ≤ c' ≤ v_high (view_of (lk_outbox l) sid).
Proof.
  intros Hok Hch -> Ho Hl Hb. pose proof (proj1 (list.Forall_forall _ _) (li_channels _ _ _ _ _ Hok) ch Hch) as Hc.
  destruct (batch_path ch b out _ _ _ _ _ Ho Hl Hb eq_refl) as [Hp Hre].
  destruct Hc as [Hso Hcl Hk]. rewrite Hp, nums_app in Hso, Hcl. rewrite Hp in Hk. apply Forall_app in Hk as [Hk _].
  split; [eapply log_batch; [apply Hok|exact Hb|exact Hso|exact Hcl|exact Hk|exact Hre]|]. split; [by apply Hb|].
  pose proof (li_sender _ _ _ _ _ Hok) as Hs. destruct (be_attained _ _ _ _ _ _ _ _ Hb) as [->|(q & Hq & <-)]; [apply Hs|].
  apply (sn_upper _ _ _ _ _ Hs _ (q_env q)), (proj1 (list.Forall_forall _ _) Hk). by apply list_elem_of_fmap_2.
Qed.

Lemma round_flushed ref s h d b d1 out outs s' h' d' :
  round_at ref s h d b d1 out outs s' h' d' →
  flushed s d b d1 out ∧ acks_of outs = merge_sort ack_le (oitems (acks out)) ∧ kept worker sid d1 d'
  ∧ (sv_over s' = true ∨ sv_over s' = false ∧ lane_of s' = retry out ++ lane_rest s).
Proof.
  intros [st d0 now stored ios Ho Hb Hl Hf Hr]. split; [by econstructor|].
  eapply round_lane in Hr as (Ha & [h1 Hd] & Hs); [|done..]. split_and!; [done|by eapply renew_kept|done].
Qed.
(** What a round does to the session. *)
Lemma round_session c l i ch b d1 out outs s' h' d' :
  link_ok worker sid base c l → lk_channels l !! i = Some ch →
  round_at (ch_ref ch) (ch_server ch) (lk_hub l) (lk_db l) b d1 out outs s' h' d' →
  ∃ c', c ≤ c' ≤ v_high (view_of (lk_outbox l) sid) ∧ db_ok d' ∧ last_seq_for d' worker sid = Some c'
    ∧ log_ok sid base (lk_hist l) c' d' (lk_log l ++ verdicts sid (lk_db l) d1 (bt_pending b) out)
    ∧ (∀ n, (sid, n) ∈ acks_of outs → n ≤ c')
    ∧ Forall (λ n, n ≤ c') (nums (q_env <$> acked_of sid (bt_pending b) out))
    ∧ (sv_over s' = true ∨ sv_over s' = sv_over (ch_server ch)
         ∧ path sid ch = (q_env <$> acked_of sid (bt_pending b) out) ++ path sid (Channel (ch_wire ch) (ch_ref ch) s')).
Proof.
  intros Hok Hi Hr. destruct (round_flushed _ _ _ _ _ _ _ _ _ _ _ Hr) as (Hf & Ha & Hk & Hs).
  destruct (flushed_effect c _ _ _ _ _ Hf) as (Ho & Hl & c' & Hb); [apply Hok|apply Hok|by eapply link_cursor_pos|].
  assert (ch ∈ lk_channels l) as Hch by by eapply list_elem_of_lookup_2.
  destruct (log_flushed c l ch _ d1 b out c' Hok Hch eq_refl Ho Hl Hb) as [Hlog Hc].
  exists c'. split_and!; try lia.
  - apply (kp_ok _ _ _ _ Hk), Hb.
  - rewrite (kp_cursor _ _ _ _ Hk). apply Hb.
  - by eapply log_kept.
  - intros n. rewrite Ha, merge_sort_Permutation. apply Hb.
  - apply list.Forall_forall. intros n (e & -> & (q & -> & Hq)%list_elem_of_fmap)%list_elem_of_fmap. by apply Hb.
  - destruct Hs as [?|[Ho' Hl']]; [by left|right]. split; [congruence|].
    destruct (batch_path ch b out _ _ _ _ _ Ho Hl Hb eq_refl) as [-> _]. f_equal.
    rewrite path_open by done. cbn [ch_server ch_wire]. by rewrite Hl', of_session_queued.
Qed.

Lemma link_step_ok l l' c : link_ok worker sid base c l → step l l' → ∃ c', c ≤ c' ∧ link_ok worker sid base c' l'.
Proof.
  intros Hok Hst. destruct Hst as [l now io s type payload turn em o r Ha|l o Ho Hv|l k n io Hk Hn|l s x ch rest Hup Hp Hx Hch
    |l s x Hp|l n io Hin|l|l ref Hup|l i ch e rest message size n s' Hi Hw Ho Hp Hso Hd|l i ch outs s' h' d' Hi Hs Hna Hk
    |l i ch b d1 out outs s' h' d' Hi Hr|l i ch b d1 out Hi Hf|l h' d' Hk].
  - exists c. split; [done|]. by eapply link_append.
  - exists c. split; [done|]. by eapply link_view.
  - exists c. split; [done|]. rewrite (li_cursor _ _ _ _ _ Hok) in Hk. injection Hk as <-. by apply link_base.
  - exists c. split; [done|]. by eapply link_send.
  - exists c. split; [done|]. by eapply link_sent.
  - exists c. split; [done|]. apply link_acked; [done|]. by apply (li_acks _ _ _ _ _ Hok).
  - exists c. split; [done|]. by apply link_break.
  - exists c. split; [done|]. by apply link_connect.
  - exists c. split; [done|]. apply lane_dispatch in Hd as [Ho' Hl]; [|done..]. rewrite Hso in Hl. destruct Hok.
    assert (path sid (Channel rest (ch_ref ch) s') = path sid ch) as Hpath.
    { rewrite !path_open by done. cbn [ch_server ch_wire]. rewrite Hl, Hw, of_sess_app, fmap_app, <- app_assoc. f_equal.
      rewrite <- of_session_queued, <- of_session_app. done. }
    split; try done; link_simpl.
    + apply (chans_update _ _ c c _ _ ch _ []); try done. right. split; [cbn; congruence|by rewrite Hpath].
    + apply (front_update _ _ c c _ _ _ _ ch _ []); try done. right. split; [cbn; congruence|by rewrite Hpath].
  - exists c. split; [done|]. pose proof (li_cursor _ _ _ _ _ Hok) as Hcur.
    assert (c ≤ v_high (view_of (lk_outbox l) sid)) as Hh by apply Hok.
    assert (last_seq_for d' worker sid = Some c) as Hcur' by by rewrite (kp_cursor _ _ _ _ Hk).
    assert (∀ o a, (o = [] ∨ ∀ n, (sid, n) ∈ o → n ≤ c) → acks_of outs = o → Forall (λ n, n ≤ c) (nums a) →
      (sv_over s' = true ∨ sv_over s' = sv_over (ch_server ch)
         ∧ path sid ch = a ++ path sid (Channel (ch_wire ch) (ch_ref ch) s')) →
      link_ok worker sid base c (note_acks (with_api (with_channels l (<[i:=Channel (ch_wire ch) (ch_ref ch) s']> (lk_channels l))) h' d') outs))
      as Hch.
    { intros o a Hack Ho Ha Hs'. eapply (link_channel _ _ _ c l _ c i ch s' a Hok); try done; link_simpl.
      - apply (kp_ok _ _ _ _ Hk), Hok.
      - intros n [Hn|Hn]%elem_of_app; [by apply (li_acks _ _ _ _ _ Hok)|]. rewrite Ho in Hn.
        destruct Hack as [->|Hack]; [by apply not_elem_of_nil in Hn|by apply Hack].
      - eapply log_kept; [apply Hok|done]. }
    apply serve_lane in Hs as [(a & -> & _)|[[Ha Hl]|(b & d1 & out & Hr)]].
    + exfalso. apply (Hna a). by left.
    + apply (Hch [] []); [by left|done|done|]. destruct Hl as [?|[H1 H2]]; [by left|right]. split; [done|]. symmetry.
      destruct ch as [w r s]. by apply path_same.
    + destruct (round_session c l i ch b d1 out outs s' h' d' Hok Hi Hr) as (c' & _ & _ & Hc' & _ & Ha & Hle & Hs').
      assert (c' = c) as -> by congruence. by apply (Hch (acks_of outs) (q_env <$> acked_of sid (bt_pending b) out)); [right| | |].
  - destruct (round_session c l i ch b d1 out outs s' h' d' Hok Hi Hr) as (c' & Hc & Hd & Hc' & Hlog & Ha & Hle & Hs').
    exists c'. split; [lia|]. eapply (link_channel _ _ _ c l _ c' i ch s' _ Hok Hi); try done; try lia.
    intros n [Hn|Hn]%elem_of_app; [|by apply Ha]. apply (li_acks _ _ _ _ _ Hok) in Hn. lia.
  - destruct (flushed_effect c _ _ _ _ _ Hf) as (Ho & Hl & c' & Hb); [apply Hok|apply Hok|by eapply link_cursor_pos|].
    assert (ch ∈ lk_channels l) as Hch by by eapply list_elem_of_lookup_2.
    destruct (log_flushed c l ch _ d1 b out c' Hok Hch eq_refl Ho Hl Hb) as [Hlog Hc].
    exists c'. split; [lia|]. eapply (link_channel _ _ _ c l _ c' i ch (ch_server ch) [] Hok Hi); try done; try lia.
    + right. split; [done|]. by destruct ch.
    + link_simpl. symmetry. apply list_insert_id. rewrite Hi. by destruct ch.
    + apply Hb.
    + apply Hb.
    + intros n Hn. apply (li_acks _ _ _ _ _ Hok) in Hn. lia.
  - exists c. split; [done|]. by apply link_moved.
Qed.
Lemma link_steps_ok l l' c : rtc step l l' → link_ok worker sid base c l → ∃ c', c ≤ c' ∧ link_ok worker sid base c' l'.
Proof.
  intros Hr. revert c. induction Hr as [l|l l1 l2 Hs _ IH]; intros c Hok; [by exists c|].
  destruct (link_step_ok _ _ _ Hok Hs) as (c1 & H1 & Hok1). destruct (IH _ Hok1) as (c2 & H2 & Hok2). exists c2. split; [lia|done].
Qed.
Lemma link_start_ok l : link_start worker sid base l → link_ok worker sid base base l.
Proof.
  intros []. split; rewrite ?ls_pump, ?ls_acks, ?ls_channels, ?ls_log, ?ls_down; try done.
  - rewrite ls_hist. split; rewrite ?ls_view; try done; [constructor|by intros x ?%not_elem_of_nil].
  - by intros n ?%not_elem_of_nil.
  - split; try done.
    + intros n Hn. lia.
    + by intros e v ?%not_elem_of_nil.
    + intros l1 e v l2 E. by destruct l1.
    + constructor.
    + intros n Hn. left. by apply ls_ledger.
    + by intros n ?%not_elem_of_nil.
Qed.

(** ** Theorems *)

(** C40: Every step of a connection's server is a step of a plain queue: it adds the envelope
    that was read, stores the front of the queue in one batch of which it hands the rest back
    in its place, or leaves the queue alone; only a stored batch acks, and exactly what it
    says.  When a batch is given up the queue ends. *)
Theorem serve_refines_queue ref s h d outs s' h' d' :
  serve_step sha256_hex presign_url head_object cfg store session_model exn_str library_code classify_host_message
    validate_envelope validate_payload parse_control_fields fleet ref worker run_mode batch_size window
    (World s h d) outs (World s' h' d') →
  lane_spec sha256_hex presign_url head_object cfg store session_model exn_str library_code worker run_mode sid
    d d' outs (lane_view s) (lane_view s').
Proof.
  intros Hs. apply serve_lane in Hs as [(a & -> & -> & Ho & Ho' & Hl)|[[Ha Hl]|(b & d1 & out & Hr)]]; unfold lane_view.
  - rewrite Ho, Ho', Hl. by apply LaneArrives.
  - destruct Hl as [->|[-> ->]]; [by apply LaneEnds|by apply LaneStays].
  - destruct (round_flushed _ _ _ _ _ _ _ _ _ _ _ Hr) as (Hf & Ha & Hk & Hs').
    destruct Hf as [st d0 ios Ho Hb Hlen Hf]. rewrite Ho, (lane_of_batch s b Ho Hb).
    eapply LaneStores; [exact Hlen|exact Hf|done|by rewrite Ha, merge_sort_Permutation|].
    destruct Hs' as [->|[-> ->]]; [by right|by left].
Qed.

(** C1: Delivery from end to end.  While a session stays leased to a worker, in every
    interleaving of appends, frames, batches, failures, lost acks, commits that look failed,
    and reconnects with old connections still being served: each envelope takes effect at
    most once, and nothing else of the session does; every number up to the cursor was
    appended by the worker and applied, refused with a reason, or is a receipt; an envelope
    is handled only after all earlier ones were; everything above the cursor is still pending
    at the worker as it was appended, and the worker has dropped nothing above the cursor. *)
Theorem delivery l0 l :
  link_start worker sid base l0 → rtc step l0 l →
  ∃ c, last_seq_for (lk_db l) worker sid = Some c
  ∧ base ≤ c ∧ acked_seq (lk_outbox l) sid ≤ c ≤ high_water (lk_outbox l) sid
  ∧ NoDup (applied (lk_log l))
  ∧ (∀ n, (sid, n) ∈ ledger (lk_db l) → n ≤ base ∨ n ∈ applied (lk_log l))
  ∧ (∀ n, base < n ≤ c → ∃ e v, (e, v) ∈ lk_log l ∧ env_seq e = n)
  ∧ (∀ e v, (e, v) ∈ lk_log l → lk_hist l !! env_seq e = Some e ∧ env_seq e ≤ c ∧ v ≠ VLost)
  ∧ (∀ l1 e v l2, lk_log l = l1 ++ (e, v) :: l2 →
       ∀ m, base < m < env_seq e → ∃ e' v', (e', v') ∈ l1 ∧ env_seq e' = m)
  ∧ (∀ n, c < n ≤ high_water (lk_outbox l) sid →
       ∃ x, x ∈ pending (lk_outbox l) sid 0 ∧ seq_of x = n ∧ lk_hist l !! n = Some (body x)).
Proof.
  intros Hst Hr. destruct (link_steps_ok _ _ _ Hr (link_start_ok _ Hst)) as (c & _ & []). exists c. destruct li_log0, li_sender0.
  pose proof (view_of_ok _ sid sn_ok0) as Hv. split_and!; try done.
  intros n Hn. rewrite pending_view by done.
  assert (n ∈ OutboxSpec.seqs (v_pending (view_of (lk_outbox l) sid))) as (x & -> & Hx)%list_elem_of_fmap.
  { rewrite (contig_seqZ _ _ sn_gapless0), (vo_last _ _ Hv). apply elem_of_seqZ.
    change (v_high _) with (high_water (lk_outbox l) sid). lia. }
  exists x. split_and!; [done..|]. by apply sn_hist0.
Qed.
End step.

(** ** A turn's envelope whose first commit looks failed, delivered over two connections *)

#[local] Abbreviation dl_step := (link_step (S:=gmap (list ascii) (list ascii)) demo_sha demo_url demo_head demo_settings StoreTurns
  (λ _ _, None) (λ _, ""%string) (λ _, None) no_classify sv_read (λ _ _, true) sv_parse sv_fleet 9 None 1 1000000 demo_cfg 2).
Definition dl0 : link := Link demo0 false None [] empty_hub ing_db [] ∅ [].
Definition dl_appended : outbox * res append_error stored :=
  Outbox.append demo_cfg demo0 0 true 2 "turn.status" (env_payload (q_env ing_start.1)) None false.
Definition dl1 : link := with_hist (with_outbox dl0 dl_appended.1)
  (match dl_appended.2 with Ok x => if decide (2 = 2)%N then <[seq_of x := body x]> ∅ else ∅ | Err _ => ∅ end).
Definition dl_connect (l : link) (ref : N) : link :=
  with_up (with_channels (with_outbox l (Outbox.begin_connection (lk_outbox l)).1) (Channel [] ref new_server :: lk_channels l)) true.
Definition dl_head (l : link) : channel := default (Channel [] 0 new_server) (head (lk_channels l)).
Definition dl_next (l : link) : stored := default (Stored 0 (q_env ing_start.1)) (next_unsent (lk_outbox l) 2).
Definition dl_send (l : link) : link :=
  with_channels (with_pump l (Some (2%N, dl_next l)))
    (Channel (ch_wire (dl_head l) ++ [body (dl_next l)]) (ch_ref (dl_head l)) (ch_server (dl_head l)) :: tail (lk_channels l)).
Definition dl_sent (l : link) : link := with_pump (with_outbox l (Outbox.mark_sent (lk_outbox l) 2 (dl_next l))) None.
Definition dl_read (l : link) : link :=
  with_channels l (<[0%nat := Channel (tail (ch_wire (dl_head l))) (ch_ref (dl_head l)) (sv_then (ch_server (dl_head l)) sv_envelope)]> (lk_channels l)).
Definition dl_taken (s : server) : server :=
  (begin_flush (with_batcher (with_ingest s []) (sv_batcher s ++ [Arrived 0 ing_start.1]) (Some 0)) None).1.
Definition dl_take (l : link) : link :=
  note_acks (with_api (with_channels l (<[0%nat := Channel (ch_wire (dl_head l)) (ch_ref (dl_head l)) (dl_taken (ch_server (dl_head l)))]> (lk_channels l)))
    (lk_hub l) (lk_db l)) [].
Definition dl_batch (l : link) : batch := default (Batch [] [] 0 None) (sv_batch (ch_server (dl_head l))).
Definition dl_flush (l : link) : db * outcome :=
  match ing_flush (lk_db l) [ing_start] with Ok r => r | Err _ => (lk_db l, empty_outcome) end.
Definition dl_committed (l : link) : link :=
  note_verdicts (with_api l (lk_hub l) (dl_flush l).1) (verdicts 2 (lk_db l) (dl_flush l).1 (bt_pending (dl_batch l)) (dl_flush l).2).
Definition dl_rounded (l : link) : server * hub * db * list serve_event :=
  apply_round (∅ : gmap (list ascii) (list ascii)) demo_sha demo_url demo_head demo_settings StoreTurns (λ _ _, None) (λ _, ""%string)
    (λ _, None) sv_fleet (ch_ref (dl_head l)) 9 None (ch_server (dl_head l)) (lk_hub l) (lk_db l) (lk_db l) 11 None (dl_batch l)
    [ing_start.2] None.
Definition dl_round (l : link) : link :=
  note_verdicts (note_acks (with_api (with_channels l
      (<[0%nat := Channel (ch_wire (dl_head l)) (ch_ref (dl_head l)) (dl_rounded l).1.1.1]> (lk_channels l)))
      (dl_rounded l).1.1.2 (dl_rounded l).1.2) (dl_rounded l).2)
    (verdicts 2 (lk_db l) (dl_flush l).1 (bt_pending (dl_batch l)) (dl_flush l).2).
Definition dl2 : link := dl_take (dl_read (dl_send (dl_connect dl1 1))).
Definition dl3 : link := with_up (with_pump (dl_committed dl2) None) false.
Definition dl4 : link := dl_take (dl_read (dl_sent (dl_send (dl_connect dl3 2)))).
Definition dl5 : link := dl_round dl4.
Definition dl6 : link := with_outbox dl5 (Outbox.acked demo_cfg (lk_outbox dl5) 2 1 true).

Lemma dl_start : link_start 9 2 0 dl0.
Proof.
  split; try done; [apply init_outbox_ok|exact ing_db_ok].
Qed.
Lemma dl_connect_step l ref : lk_up l = false → dl_step l (dl_connect l ref).
Proof. intros Hup. by apply LkConnect. Qed.
Lemma dl_send_step l : lk_up l = true → lk_pump l = None → next_unsent (lk_outbox l) 2 = Some (dl_next l) →
  lk_channels l = dl_head l :: tail (lk_channels l) → dl_step l (dl_send l).
Proof. intros H1 H2 H3 H4. by apply (LkSend _ _ _ _ _ _ _ _ _ _ _ _ _ _ _ _ _ _ _ l 2 (dl_next l) (dl_head l)). Qed.
Lemma dl_read_step l :
  lk_channels l !! 0%nat = Some (dl_head l) → ch_wire (dl_head l) = q_env ing_start.1 :: tail (ch_wire (dl_head l)) →
  sv_over (ch_server (dl_head l)) = false → sv_put (ch_server (dl_head l)) = None → lk_hub l = empty_hub →
  dispatch sv_read (λ _ _, true) sv_parse (ch_server (dl_head l)) empty_hub sv_envelope 100
    = Some (sv_then (ch_server (dl_head l)) sv_envelope) → dl_step l (dl_read l).
Proof.
  intros H1 H2 H3 H4 H5 H6. eapply (LkRead _ _ _ _ _ _ _ _ _ _ _ _ _ _ _ _ _ _ _ l 0 (dl_head l) _ _ sv_envelope 100 100);
    [done|exact H2|done|done|reflexivity|by rewrite H5].
Qed.
Lemma dl_take_step l :
  lk_channels l !! 0%nat = Some (dl_head l) →
  sv_over (ch_server (dl_head l)) = false → sv_batch (ch_server (dl_head l)) = None → sv_ordered (ch_server (dl_head l)) = None →
  sv_ingest (ch_server (dl_head l)) = [IEnvelope (Arrived 0 ing_start.1)] → sv_batcher (ch_server (dl_head l)) = [] →
  sv_first (ch_server (dl_head l)) = None →
  dl_step l (dl_take l).
Proof.
  intros H1 H2 H3 H4 H5 H6 H7. eapply (LkServe _ _ _ _ _ _ _ _ _ _ _ _ _ _ _ _ _ _ _ l 0 (dl_head l) []);
    [done| |by intros a ?%not_elem_of_nil|apply kept_refl].
  eapply (SvTake _ _ _ _ _ _ _ _ _ _ _ _ _ _ _ _ _ _ _ _ _ 0 (IEnvelope (Arrived 0 ing_start.1)) []); [done..|].
  unfold dl_taken. cbv zeta. rewrite H6, H7. reflexivity.
Qed.
Lemma dl_append_eq : dl_appended = (dl_appended.1, dl_appended.2).
Proof. by destruct dl_appended. Qed.
Lemma dl_round_eq l : dl_rounded l = ((dl_rounded l).1.1.1, (dl_rounded l).1.1.2, (dl_rounded l).1.2, (dl_rounded l).2).
Proof. by destruct (dl_rounded l) as [[[? ?] ?] ?]. Qed.
(** What is run and computed: the batch under way holds the one envelope, and storing it succeeds. *)
Definition dl_ready (l : link) : Prop :=
  lk_channels l !! 0%nat = Some (dl_head l) ∧ sv_over (ch_server (dl_head l)) = false
  ∧ sv_batch (ch_server (dl_head l)) = Some (dl_batch l) ∧ bt_pending (dl_batch l) = [ing_start.1]
  ∧ ing_flush (lk_db l) [ing_start] = Ok ((dl_flush l).1, (dl_flush l).2).
Lemma dl_committed_step l : dl_ready l → dl_step l (dl_committed l).
Proof.
  intros (H1 & H2 & H3 & H4 & H5). apply (LkCommitted _ _ _ _ _ _ _ _ _ _ _ _ _ _ _ _ _ _ _ l 0 (dl_head l)); [done|].
  apply (Flushed _ _ _ _ _ _ _ _ _ _ _ _ _ _ _ ∅ (lk_db l) [ing_start.2]); [done|done|by rewrite H4|]. rewrite H4. exact H5.
Qed.
Lemma dl_round_step l : dl_ready l → dl_step l (dl_round l).
Proof.
  intros (H1 & H2 & H3 & H4 & H5). apply (LkRound _ _ _ _ _ _ _ _ _ _ _ _ _ _ _ _ _ _ _ l 0 (dl_head l)); [done|].
  apply (RoundAt _ _ _ _ _ _ _ _ _ _ _ _ _ _ _ _ _ _ _ _ _ _ ∅ (lk_db l) 11 None [ing_start.2]); [done|done|by rewrite H4| |exact (dl_round_eq l)].
  rewrite H4. exact H5.
Qed.
Ltac dl_compute := vm_compute; reflexivity.
Lemma dl_run2 : rtc dl_step dl0 dl2.
Proof.
  eapply rtc_l; [exact (LkAppend _ _ _ _ _ _ _ _ _ _ _ _ _ _ _ _ _ _ _ dl0 0 true 2 _ _ None false _ _ dl_append_eq)|].
  eapply rtc_l; [apply (dl_connect_step dl1 1); dl_compute|].
  eapply rtc_l; [apply dl_send_step; dl_compute|].
  eapply rtc_l; [apply dl_read_step; dl_compute|].
  apply rtc_once. apply dl_take_step; dl_compute.
Qed.
Lemma dl_run4 : rtc dl_step dl2 dl4.
Proof.
  eapply rtc_l; [apply (dl_committed_step dl2); repeat split; dl_compute|].
  eapply rtc_l; [apply LkBreak|].
  eapply rtc_l; [apply (dl_connect_step dl3 2); dl_compute|].
  eapply rtc_l; [apply dl_send_step; dl_compute|].
  eapply rtc_l; [apply (LkSent _ _ _ _ _ _ _ _ _ _ _ _ _ _ _ _ _ _ _ _ 2%N (dl_next (dl_send (dl_connect dl3 2)))); dl_compute|].
  eapply rtc_l; [apply dl_read_step; dl_compute|].
  apply rtc_once. apply dl_take_step; dl_compute.
Qed.
Lemma dl_acked : (2%N, 1) ∈ lk_acks dl5.
Proof. apply (bool_decide_unpack _). vm_compute. exact I. Qed.
Lemma dl_run6 : rtc dl_step dl4 dl6.
Proof.
  eapply rtc_l; [apply (dl_round_step dl4); repeat split; dl_compute|].
  apply rtc_once. exact (LkAck _ _ _ _ _ _ _ _ _ _ _ _ _ _ _ _ _ _ _ dl5 1 true dl_acked).
Qed.
Lemma dl_run : rtc dl_step dl0 dl6.
Proof. etrans; [exact dl_run2|]. etrans; [exact dl_run4|exact dl_run6]. Qed.
Lemma dl_result :
  applied (lk_log dl6) = [1] ∧ (snd <$> lk_log dl6) = [VApplied; VBefore] ∧ last_seq_for (lk_db dl6) 9 2 = Some 1
  ∧ pending (lk_outbox dl6) 2 0 = [].
Proof. split_and!; vm_compute; reflexivity. Qed.
Lemma delivery_witness :
  (snd <$> lk_log dl6) = [VApplied; VBefore] ∧ NoDup (applied (lk_log dl6)) ∧ acked_seq (lk_outbox dl6) 2 ≤ 1.
Proof.
  destruct dl_result as (_ & Hl & Hc & _).
  destruct (delivery (S:=gmap (list ascii) (list ascii)) demo_sha demo_url demo_head demo_settings StoreTurns (λ _ _, None)
    (λ _, ""%string) (λ _, None) no_classify sv_read (λ _ _, true) sv_parse sv_fleet 9 None 1 1000000 demo_cfg 2 0 dl0 dl6 dl_start
    dl_run) as (c & Hc' & _ & Ha & Hn & _).
  assert (c = 1) as -> by congruence. by split_and!; [| |apply Ha].
Defined.

Lemma serve_refines_queue_witness :
  (length (lane_of sv3) = 1)%nat ∧ lane_of sv_round.1.1.1 = []
  ∧ lane_spec (S:=gmap (list ascii) (list ascii)) demo_sha demo_url demo_head demo_settings StoreTurns (λ _ _, None)
      (λ _, ""%string) (λ _, None) 9 None 2 ing_db sv_round.1.2 sv_round.2 (lane_view sv3) (lane_view sv_round.1.1.1).
Proof.
  split_and!; [vm_compute; reflexivity..|].
  refine (serve_refines_queue (S:=gmap (list ascii) (list ascii)) demo_sha demo_url demo_head demo_settings StoreTurns (λ _ _, None)
    (λ _, ""%string) (λ _, None) no_classify sv_read (λ _ _, true) sv_parse sv_fleet 9 None 1 1000000 2 1 sv3 empty_hub ing_db
    _ _ sv_round.1.1.2 _ (SvRound _ _ _ _ _ _ _ _ _ _ _ _ _ _ _ _ _ _ sv3 empty_hub ing_db sv_batch3 ∅ ing_db 11 None [ing_io 11 None] None
      sv_round.1.1.1 sv_round.1.1.2 sv_round.1.2 sv_round.2 _ _ _ sv_round_eq)); reflexivity.
Defined.
