(* ===== verification/Client.v ===== *)
(** * A worker's side of its connections (src/src/apipi/worker/client.py)

    What `run_worker` keeps over all its connections, what `_serve_connection` keeps for
    one, and the tasks that it starts, which outlive it.  A task is cut at its awaits:
    [client_step] is one step of the receive loop or of a task.  [Outbox], [Relay] and
    [Pool] are the worker's own; what sending a frame or running a command leads to is
    told by the step.  Timers, heartbeats, the drain, logs and metrics are left out. *)

From S2P Require Import Prelude PyStd Protocol Outbox OutboxSpec Deltas Pool.

Open Scope Z_scope.

(** ** Remembering commands (worker/commands.py) *)

(** `CommandDedupe` *)
Definition DEDUPE_LIMIT : nat := 128.
Abbreviation dedupe := (gmap uuid (list uuid)).
(** `duplicate`: whether the command is known; it is from now on. *)
Definition duplicate (limit : nat) (d : dedupe) (sid id : uuid) : dedupe * bool :=
  let known := default [] (d !! sid) in
  if decide (id ∈ known) then (<[sid := known]> d, true)
  else
    let known := known ++ [id] in
    (<[sid := drop (length known - limit) known]> d, false).
Fixpoint remove_first (id : uuid) (l : list uuid) : list uuid :=
  match l with [] => [] | x :: l => if decide (x = id) then l else x :: remove_first id l end.
Definition discard (d : dedupe) (sid id : uuid) : dedupe :=
  match d !! sid with
  | Some known => if decide (id ∈ known) then <[sid := remove_first id known]> d else d
  | None => d
  end.
Definition dedupe_forget (d : dedupe) (sid : uuid) : dedupe := delete sid d.

(** ** Idle times for the reaper (worker/inventory.py) *)

(** `_context_ttl`: the idle time to live, when the session was last seen, its environment. *)
Definition context_ttl : Type := gmap uuid (option Z * Z * option string).
(** An entry of `ttl` in an inventory reply; [None]: it is not a valid one. *)
Record ttl_entry : Type := TtlEntry { te_idle : option Z; te_since : option Z; te_env : option string }.
Definition seed_one (now : Z) (m : context_ttl) (p : string * option ttl_entry) : context_ttl :=
  match uuid_of_string p.1, p.2 with
  | Some sid, Some e =>
      let seconds := match te_idle e with Some s => if 0 <=? s then Some s else None | None => None end in
      let seen := match te_since e with Some t => if (0 <? t) && (t <=? now) then t else now | None => now end in
      let seen := match m !! sid with Some (_, last, _) => Z.max seen last | None => seen end in
      <[sid := (seconds, seen, te_env e)]> m
  | _, _ => m
  end.
Definition seed_reaper_ttl (now : Z) (m : context_ttl) (ttl : list (string * option ttl_entry)) : context_ttl :=
  foldl (seed_one now) m ttl.

(** ** The directories of sessions on disk (worker/inventory.py)

    [tenants]: the directories below the root of sessions, each with those in it. *)
Definition hidden (name : string) : bool := String.prefix "." name.
Definition unleased_of (leased live : uuid → bool) (found : list uuid) (names : list string) : list uuid :=
  foldl (λ found name,
    match uuid_of_string name with
    | Some sid => if leased sid || bool_decide (sid ∈ found) || live sid then found else found ++ [sid]
    | None => found
    end) found names.
Definition unleased_session_dirs (leased live : uuid → bool) (tenants : list (string * list string)) : list uuid :=
  foldl (λ found t,
    if hidden t.1 then found
    else match uuid_of_string t.1 with Some _ => unleased_of leased live found t.2 | None => found end)
    [] tenants.

(** ** The state *)

Record command : Type := Command {
  cm_op : string; cm_session : uuid; cm_id : uuid; cm_lease : uuid; cm_cursor : option Z
}.
#[global] Instance command_eq_dec : EqDecision command.
Proof. solve_decision. Defined.
(** How far `release_lease` has come: it waits for the acks up to a number, or sends. *)
Inductive release_phase : Set := RlFlush (target : Z) | RlSend.
Record releasing : Type := Releasing { rl_session : uuid; rl_lease : uuid; rl_at : release_phase }.

Inductive command_phase : Type :=
| CmStart                           (* about to read `teardowns` *)
| CmSettling (after : option nat)   (* waits for a teardown, if there is one *)
| CmAck                             (* sends the ack *)
| CmRun                             (* in `dispatch_command` *)
| CmRelease (r : releasing)
| CmEnd (failed : bool).
Inductive stop_phase : Type :=
| StAckFirst
| StStart
| StSettling (after : option nat)
| StRun
| StFlush (target : Z)
| StAckLast.
Inductive teardown_phase : Type :=
| TdWait (previous : option nat)
| TdKill.
Inductive job : Type :=
| JDuplicate (c : command) (ph : command_phase)
| JCommand (c : command) (pooled : bool) (ph : command_phase)
| JStop (c : command) (ph : stop_phase)
| JTeardown (sid : uuid) (known : bool) (ph : teardown_phase)
| JRelease (r : releasing)                                   (* the pool has called `note_stopped` *)
| JPending (rest : list (uuid * uuid)) (at_ : option (releasing)).  (* `release_pending` *)
(** A task, with the connection whose objects it has. *)
Record task : Type := Task { tk_conn : nat; tk_job : job }.

(** The objects of one call of `_serve_connection`. *)
Record wconn : Type := WConn {
  wc_stopped : bool;                  (* the API has the feature `session.stopped` *)
  wc_stopping : gset uuid;
  wc_teardowns : gmap uuid nat
}.
Record client : Type := Client {
  cl_outbox : outbox;
  cl_relay : relay;
  cl_pool : pool;
  cl_leases : odict uuid uuid;
  cl_releases : odict uuid uuid;      (* `pending_releases` *)
  cl_seen : dedupe;
  cl_open : option nat;               (* the connection that is being served *)
  cl_closing : bool;                  (* its socket is being closed: `note_stopped` is None *)
  cl_conns : gmap nat wconn;
  cl_tasks : gmap nat task;
  cl_next : nat
}.
Definition new_client (o : outbox) : client :=
  Client o new_relay new_pool ∅ ∅ ∅ None false ∅ ∅ 0.

Definition with_outbox (s : client) v := Client v (cl_relay s) (cl_pool s) (cl_leases s) (cl_releases s) (cl_seen s) (cl_open s) (cl_closing s) (cl_conns s) (cl_tasks s) (cl_next s).
Definition with_relay (s : client) v := Client (cl_outbox s) v (cl_pool s) (cl_leases s) (cl_releases s) (cl_seen s) (cl_open s) (cl_closing s) (cl_conns s) (cl_tasks s) (cl_next s).
Definition with_pool (s : client) v := Client (cl_outbox s) (cl_relay s) v (cl_leases s) (cl_releases s) (cl_seen s) (cl_open s) (cl_closing s) (cl_conns s) (cl_tasks s) (cl_next s).
Definition with_leases (s : client) v := Client (cl_outbox s) (cl_relay s) (cl_pool s) v (cl_releases s) (cl_seen s) (cl_open s) (cl_closing s) (cl_conns s) (cl_tasks s) (cl_next s).
Definition with_releases (s : client) v := Client (cl_outbox s) (cl_relay s) (cl_pool s) (cl_leases s) v (cl_seen s) (cl_open s) (cl_closing s) (cl_conns s) (cl_tasks s) (cl_next s).
Definition with_seen (s : client) v := Client (cl_outbox s) (cl_relay s) (cl_pool s) (cl_leases s) (cl_releases s) v (cl_open s) (cl_closing s) (cl_conns s) (cl_tasks s) (cl_next s).
Definition with_open (s : client) v c := Client (cl_outbox s) (cl_relay s) (cl_pool s) (cl_leases s) (cl_releases s) (cl_seen s) v c (cl_conns s) (cl_tasks s) (cl_next s).
Definition with_conns (s : client) v := Client (cl_outbox s) (cl_relay s) (cl_pool s) (cl_leases s) (cl_releases s) (cl_seen s) (cl_open s) (cl_closing s) v (cl_tasks s) (cl_next s).
Definition with_tasks (s : client) v := Client (cl_outbox s) (cl_relay s) (cl_pool s) (cl_leases s) (cl_releases s) (cl_seen s) (cl_open s) (cl_closing s) (cl_conns s) v (cl_next s).
Definition set_job (s : client) (n k : nat) (j : job) : client := with_tasks s (<[n := Task k j]> (cl_tasks s)).
Definition end_task (s : client) (n : nat) : client := with_tasks s (delete n (cl_tasks s)).
(** `spawn` *)
Definition spawn (s : client) (k : nat) (j : job) : client :=
  Client (cl_outbox s) (cl_relay s) (cl_pool s) (cl_leases s) (cl_releases s) (cl_seen s) (cl_open s) (cl_closing s) (cl_conns s)
    (<[cl_next s := Task k j]> (cl_tasks s)) (S (cl_next s)).
Definition conn_of (s : client) (k : nat) : wconn := default (WConn false ∅ ∅) (cl_conns s !! k).
Definition set_stopping (s : client) (k : nat) (v : gset uuid) : client :=
  with_conns s (alter (λ c, WConn (wc_stopped c) v (wc_teardowns c)) k (cl_conns s)).
Definition set_teardowns (s : client) (k : nat) (v : gmap uuid nat) : client :=
  with_conns s (<[k := WConn (wc_stopped (conn_of s k)) (wc_stopping (conn_of s k)) v]> (cl_conns s)).
Definition running (s : client) (n : nat) : bool := bool_decide (is_Some (cl_tasks s !! n)).

(** What a step shows to the outside. *)
Inductive client_event : Type :=
| EvAccepted (n : nat) (c : command)       (* a command that was not known: task [n] *)
| EvDuplicate (c : command)
| EvForgot (sid : uuid)                    (* by the dedupe *)
| EvDiscarded (sid id : uuid)
| EvScheduled (n k : nat) (sid : uuid)     (* a teardown, as task [n] of connection [k] *)
| EvTornDown (n : nat) (sid : uuid)
| EvAcked (c : command)
| EvRun (n k : nat) (c : command)          (* `dispatch_command` begins, in a task of connection [k] *)
| EvReleased (sid lease : uuid).
#[global] Instance client_event_eq_dec : EqDecision client_event.
Proof. solve_decision. Defined.

(** ** The operations that do not wait *)

(** `forget_revoked`: whether the lease was known. *)
Definition forget_revoked (s : client) (sid : uuid) : client * bool :=
  let s := with_seen s (dedupe_forget (cl_seen s) sid) in
  let known := bool_decide (is_Some (cl_leases s !! sid)) in
  let s := with_leases s (delete sid (cl_leases s)) in
  (with_relay s (forget (cl_relay s) sid), known).
(** `schedule_teardown` *)
Definition schedule_teardown (s : client) (k : nat) (sid : uuid) (known : bool) : client * list client_event :=
  let previous := wc_teardowns (conn_of s k) !! sid in
  let n := cl_next s in
  let s := spawn s k (JTeardown sid known (TdWait previous)) in
  (set_teardowns s k (<[sid := n]> (wc_teardowns (conn_of s k))), [EvScheduled n k sid]).
Definition revoke (k : nat) (acc : client * list client_event) (sid : uuid) : client * list client_event :=
  let '(s, known) := forget_revoked acc.1 sid in
  let '(s, out) := schedule_teardown s k sid known in
  (s, acc.2 ++ EvForgot sid :: out).
(** `release_offline` *)
Definition release_offline (s : client) (sid : uuid) : client * list client_event :=
  let s := with_relay s (forget (cl_relay s) sid) in
  let s := match cl_leases s !! sid with
           | Some lease => with_releases (with_leases s (delete sid (cl_leases s))) (<[sid := lease]> (cl_releases s))
           | None => s
           end in
  (with_seen s (dedupe_forget (cl_seen s) sid), [EvForgot sid]).

(** `outbox.peer_features = api_features` *)
Definition with_peer_features (o : outbox) (feats : list string) : outbox :=
  Outbox feats (sessions o) (floors o) (unsynced o) (messages o) (total_bytes o) (dirty o)
    (spool_skipped o) (files o) (next_id o).

Section client.
Context (cfg : config).

(** One session of the cursors in the hello; [None]: its key or value is not usable. *)
Definition adopt_hello (s : client) (p : uuid * Z) : client :=
  with_outbox s (set_base cfg (cl_outbox s) p.1 (Z.max p.2 0) true).
(** `_reconcile_hello`: the sessions whose guests are torn down. *)
Definition dropped_by (s : client) (cursors : list (uuid * Z)) : list uuid :=
  filter (λ sid, sid ∉ cursors.*1) (okeys (cl_leases s)).
Definition drop_lease (s : client) (sid : uuid) : client :=
  let s := with_leases s (delete sid (cl_leases s)) in
  let s := with_relay s (forget (cl_relay s) sid) in with_seen s (dedupe_forget (cl_seen s) sid).
Definition reconcile_hello (s : client) (cursors : list (uuid * Z)) : client * list uuid :=
  let s := foldl adopt_hello s cursors in
  let gone := dropped_by s cursors in (foldl drop_lease s gone, gone).
Definition schedule_all (k : nat) (known : bool) (acc : client * list client_event) (sid : uuid) : client * list client_event :=
  let '(s, out) := schedule_teardown acc.1 k sid known in (s, acc.2 ++ out).
(** `_serve_connection` once the hello has been read, up to the start of its loops. *)
Definition welcome (s : client) (k : nat) (feats : list string) (cursors : list (uuid * Z)) (revoked : list uuid)
    : client * list client_event :=
  let s := with_outbox s (with_peer_features (cl_outbox s) feats) in
  let stopped := bool_decide (FEATURE_SESSION_STOPPED ∈ feats) in
  let s := with_conns s (<[k := WConn stopped ∅ ∅]> (cl_conns s)) in
  let '(s, gone) := reconcile_hello s cursors in
  let '(s, out) := foldl (schedule_all k true) (s, EvForgot <$> gone) gone in
  let '(s, out) := foldl (revoke k) (s, out) revoked in
  let s := with_open s (Some k) false in
  let s := with_relay s (attach (cl_relay s)) in
  let s := with_outbox s (begin_connection (cl_outbox s)).1 in
  (if decide (oitems (cl_releases s) = []) then s else spawn s k (JPending (oitems (cl_releases s)) None), out).

(** `_adopt_cursor` *)
Definition adopt_cursor (s : client) (c : command) : client :=
  if decide (cm_op c ∈ CURSOR_OPS) then
    match cm_cursor c with
    | Some n => with_outbox s (set_base cfg (cl_outbox s) (cm_session c) n true)
    | None => s
    end
  else s.
(** A message from the API, as far as it is handled here. *)
Inductive api_msg : Type :=
| AAck (sid : uuid) (last_seq : Z)
| ARevoke (revoked : list uuid)          (* `inventory.reply`, or one `lease.revoke` *)
| ACommand (c : command)
| AOther.                                (* replies that wake a waiter, unknown and invalid messages *)
(** `handle` *)
Definition handle (s : client) (k : nat) (m : api_msg) : client * list client_event :=
  match m with
  | AAck sid last_seq => (with_outbox s (acked cfg (cl_outbox s) sid last_seq true), [])
  | ARevoke revoked => foldl (revoke k) (s, []) revoked
  | AOther => (s, [])
  | ACommand c =>
      let sid := cm_session c in
      if decide (cm_op c ∉ COMMAND_OPS) then (s, [])
      else
        let '(seen, known) := duplicate DEDUPE_LIMIT (cl_seen s) sid (cm_id c) in
        let s := with_seen s seen in
        if known then (spawn s k (JDuplicate c CmStart), [EvDuplicate c])
        else
          let s := if bool_decide (cm_op c ≠ "turn.cancel"%string) || bool_decide (is_Some (cl_leases s !! sid))
                   then with_leases s (<[sid := cm_lease c]> (cl_leases s)) else s in
          let out := [EvAccepted (cl_next s) c] in
          if decide (cm_op c = "session.stop"%string) then
            (spawn s k (JStop c (if wc_stopped (conn_of s k) then StAckFirst else StStart)), out)
          else
            let pooled := bool_decide (cm_op c ∈ CURSOR_OPS) in
            let s := if pooled then with_pool s (hold (cl_pool s) sid) else s in
            (spawn s k (JCommand c pooled CmStart), out)
  end.

(** ** Releasing a lease *)

(** `release_lease` up to its first wait; [None]: it returns. *)
Definition release_begin (s : client) (k : nat) (sid : uuid) : client * option releasing :=
  let s := with_relay s (forget (cl_relay s) sid) in
  (s, if decide (sid ∈ wc_stopping (conn_of s k)) then None
      else (λ lease, Releasing sid lease (RlFlush (high_water (cl_outbox s) sid))) <$> cl_leases s !! sid).
(** Whether `flush_outbox` has returned: everything acked, the lease gone, or too late. *)
Definition flushed (s : client) (sid lease : uuid) (target : Z) (late : bool) : bool :=
  (target <=? acked_seq (cl_outbox s) sid) || bool_decide (cl_leases s !! sid ≠ Some lease) || late.
(** The loop of `release_lease` after a flush. *)
Definition release_flushed (s : client) (r : releasing) (target : Z) : client * option releasing :=
  let sid := rl_session r in
  if decide (cl_leases s !! sid ≠ Some (rl_lease r)) then (s, None)
  else if alive (cl_pool s) sid then (s, None)
  else if held (cl_pool s) sid then (with_pool s (release_after_turn (cl_pool s) sid), None)
  else if decide (high_water (cl_outbox s) sid = target)
  then (with_leases s (delete sid (cl_leases s)), Some (Releasing sid (rl_lease r) RlSend))
  else (s, Some (Releasing sid (rl_lease r) (RlFlush (high_water (cl_outbox s) sid)))).
(** `finish_release` once the send has ended. *)
Definition release_sent (s : client) (sid lease : uuid) (sent : bool) : client * list client_event :=
  if sent then
    let s := if decide (cl_releases s !! sid = Some lease) then with_releases s (delete sid (cl_releases s)) else s in
    if decide (is_Some (cl_leases s !! sid)) then (s, [EvReleased sid lease])
    else (with_outbox (with_seen s (dedupe_forget (cl_seen s) sid)) (Outbox.release cfg (cl_outbox s) sid true),
          [EvReleased sid lease; EvForgot sid])
  else (with_releases s (<[sid := lease]> (cl_releases s)), []).
(** One step of a release; [io]: the wait is too late, or the send succeeds. *)
Definition release_step (s : client) (r : releasing) (io : bool) : option (client * option releasing * list client_event) :=
  match rl_at r with
  | RlFlush target =>
      if flushed s (rl_session r) (rl_lease r) target io
      then let '(s, next) := release_flushed s r target in Some (s, next, []) else None
  | RlSend => let '(s, out) := release_sent s (rl_session r) (rl_lease r) io in Some (s, None, out)
  end.

(** ** The tasks *)

Inductive run_result : Set := RunDone | RunRejected | RunRaised.
(** What the outside does in a step of a task: the wait is over or the call succeeds, the
    end of `dispatch_command`, whether a workspace was wiped, a clock. *)
Record task_io : Type := TaskIo { io_ok : bool; io_run : run_result; io_wiped : bool; io_now : Z }.

(** Whether the task that is waited for has ended. *)
Definition settled (s : client) (after : option nat) : bool :=
  match after with Some m => negb (running s m) | None => true end.
Definition latest_teardown (s : client) (k : nat) (sid : uuid) : option nat :=
  wc_teardowns (conn_of s k) !! sid.
Definition error_payload (op : string) : list (string * json) :=
  [("code", JStr "internal"); ("message", JStr ("Worker command " ++ op ++ " failed"))]%string.
(** `report_command_failed` *)
Definition report_command_failed (s : client) (c : command) (io : task_io) : client :=
  with_outbox s (append cfg (cl_outbox s) (io_now io) (io_ok io) (cm_session c) "error" (error_payload (cm_op c)) None false).1.
(** The pool's hooks call `note_stopped`, as it is now. *)
Definition note_stopped (acc : client * list client_event) (e : pool_event) : client * list client_event :=
  let '(s, out) := acc in
  let note sid :=
    match cl_open s with
    | Some k => match release_begin s k sid with
                | (s, Some r) => (spawn s k (JRelease r), out)
                | (s, None) => (s, out)
                end
    | None => if cl_closing s then (s, out) else let '(s, out') := release_offline s sid in (s, out ++ out')
    end in
  match e with
  | LeaseReleased sid => note sid
  | KillHook sid _ true => note sid
  | _ => (s, out)
  end.
Definition pool_hooks (s : client) (evs : list pool_event) : client * list client_event :=
  foldl note_stopped (s, []) evs.

Definition command_step (s : client) (n k : nat) (c : command) (pooled : bool) (ph : command_phase) (io : task_io)
    : option (client * list client_event) :=
  let at_ s ph := set_job s n k (JCommand c pooled ph) in
  let sid := cm_session c in
  match ph with
  | CmStart => Some (at_ s (CmSettling (latest_teardown s k sid)), [])
  | CmSettling after => if settled s after then Some (at_ (adopt_cursor s c) CmAck, []) else None
  | CmAck => Some (if io_ok io then (at_ s CmRun, [EvAcked c; EvRun n k c]) else (at_ s (CmEnd true), []))
  | CmRun =>
      Some match io_run io with
      | RunDone => (at_ s (CmEnd false), [])
      | RunRejected =>
          let '(s, r) := release_begin s k sid in
          (at_ s (match r with Some r => CmRelease r | None => CmEnd false end), [])
      | RunRaised =>
          let s := with_seen s (discard (cl_seen s) sid (cm_id c)) in
          (at_ (report_command_failed s c io) (CmEnd true), [EvDiscarded sid (cm_id c)])
      end
  | CmRelease r =>
      match release_step s r (io_ok io) with
      | Some (s, r, out) => Some (at_ s (match r with Some r => CmRelease r | None => CmEnd false end), out)
      | None => None
      end
  | CmEnd failed =>
      let s := end_task s n in
      if pooled then
        let p := if failed then release_after_turn (cl_pool s) sid else cl_pool s in
        let '(p, evs) := after_turn (Pool.release p sid) sid in
        Some (pool_hooks (with_pool s p) evs)
      else Some (s, [])
  end.
(** `command_task` of a command that is known. *)
Definition duplicate_step (s : client) (n k : nat) (c : command) (ph : command_phase) (io : task_io)
    : option (client * list client_event) :=
  match ph with
  | CmStart => Some (set_job s n k (JDuplicate c (CmSettling (latest_teardown s k (cm_session c)))), [])
  | CmSettling after => if settled s after then Some (set_job s n k (JDuplicate c CmAck), []) else None
  | _ => Some (end_task s n, if io_ok io then [EvAcked c] else [])
  end.
(** `stop_session_command` *)
Definition stop_step (s : client) (n k : nat) (c : command) (ph : stop_phase) (io : task_io)
    : option (client * list client_event) :=
  let at_ s ph := set_job s n k (JStop c ph) in
  let sid := cm_session c in
  let stopping s := wc_stopping (conn_of s k) in
  match ph with
  | StAckFirst => Some (if io_ok io then (at_ s StStart, [EvAcked c]) else (end_task s n, []))
  | StStart => Some (at_ s (StSettling (latest_teardown s k sid)), [])
  | StSettling after =>
      if settled s after then Some (at_ (set_stopping s k ({[sid]} ∪ stopping s)) StRun, [EvRun n k c]) else None
  | StRun =>
      Some match io_run io with
      | RunRaised =>
          let s := with_seen s (discard (cl_seen s) sid (cm_id c)) in
          let s := report_command_failed s c io in
          (end_task (set_stopping s k (stopping s ∖ {[sid]})) n, [EvDiscarded sid (cm_id c)])
      | _ =>
          let s := with_seen s (dedupe_forget (cl_seen s) sid) in
          (at_ s (StFlush (high_water (cl_outbox s) sid)), [EvForgot sid])
      end
  | StFlush target =>
      if flushed s sid (cm_lease c) target (io_ok io) then
        let s := if decide (cl_leases s !! sid = Some (cm_lease c)) then with_leases s (delete sid (cl_leases s)) else s in
        let s := with_outbox s (Outbox.release cfg (cl_outbox s) sid true) in
        let s := set_stopping s k (stopping s ∖ {[sid]}) in
        Some (if wc_stopped (conn_of s k) then end_task s n else at_ s StAckLast, [])
      else None
  | StAckLast => Some (end_task s n, if io_ok io then [EvAcked c] else [])
  end.
(** `finish_revoke` after the kill, and `done`. *)
Definition finish_revoke (s : client) (sid : uuid) (known : bool) (io : task_io) : client :=
  let s := with_outbox s (drop_session cfg (cl_outbox s) sid true) in
  if known || alive (cl_pool s) sid || held (cl_pool s) sid || negb (io_wiped io) then s
  else with_outbox s (append cfg (cl_outbox s) (io_now io) true sid "workspace.reaped" [("reason", JStr "revoked")]%string None false).1.
Definition teardown_done (s : client) (n k : nat) (sid : uuid) : client :=
  if decide (latest_teardown s k sid = Some n) then set_teardowns s k (delete sid (wc_teardowns (conn_of s k))) else s.
Definition teardown_step (s : client) (n k : nat) (sid : uuid) (known : bool) (ph : teardown_phase) (io : task_io)
    : option (client * list client_event) :=
  match ph with
  | TdWait previous =>
      if settled s previous
      then Some (with_pool (set_job s n k (JTeardown sid known TdKill)) (kill_begin (cl_pool s) sid true false), [])
      else None
  | TdKill =>
      let s := if io_ok io then finish_revoke s sid known io else s in
      Some (teardown_done (end_task s n) n k sid, [EvTornDown n sid])
  end.
(** `release_pending` *)
Definition pending_step (s : client) (n k : nat) (rest : list (uuid * uuid)) (r : option releasing) (io : task_io)
    : option (client * list client_event) :=
  match r, rest with
  | Some r, _ =>
      match rl_at r with
      | RlFlush target =>
          if (target <=? acked_seq (cl_outbox s) (rl_session r)) || io_ok io
          then Some (set_job s n k (JPending rest (Some (Releasing (rl_session r) (rl_lease r) RlSend))), []) else None
      | RlSend => let '(s, out) := release_sent s (rl_session r) (rl_lease r) (io_ok io) in
                  Some (set_job s n k (JPending rest None), out)
      end
  | None, [] => Some (end_task s n, [])
  | None, (sid, lease) :: rest =>
      if decide (is_Some (cl_leases s !! sid))
      then Some (set_job (with_releases s (delete sid (cl_releases s))) n k (JPending rest None), [])
      else Some (set_job s n k (JPending rest (Some (Releasing sid lease (RlFlush (high_water (cl_outbox s) sid))))), [])
  end.
Definition task_step (s : client) (n : nat) (t : task) (io : task_io) : option (client * list client_event) :=
  let k := tk_conn t in
  match tk_job t with
  | JDuplicate c ph => duplicate_step s n k c ph io
  | JCommand c pooled ph => command_step s n k c pooled ph io
  | JStop c ph => stop_step s n k c ph io
  | JTeardown sid known ph => teardown_step s n k sid known ph io
  | JRelease r =>
      match release_step s r (io_ok io) with
      | Some (s, Some r, out) => Some (set_job s n k (JRelease r), out)
      | Some (s, None, out) => Some (end_task s n, out)
      | None => None
      end
  | JPending rest r => pending_step s n k rest r io
  end.

(** ** Steps *)

(** What the turns, the pump and the compaction do to the outbox. *)
Inductive own_step : outbox → outbox → Prop :=
| OwnAppend o now io sid type payload turn em o' r :
    append cfg o now io sid type payload turn em = (o', r) → own_step o o'
| OwnSent o sid x : own_step o (mark_sent o sid x)
| OwnDirty o d : own_step o (set_dirty o d)
| OwnSync o : own_step o (sync_spool o)
| OwnCompact o sid i snap io : own_step o (compact_finish o sid i snap io).
(** The end of `_serve_connection` *)
Definition disconnect (s : client) : client := with_open (with_relay s (detach (cl_relay s))) None true.

(** [pc], [max_text]: the settings of the pool and of the relay. *)
Inductive client_step (pc : pool_config) (max_text : Z) : client → list client_event → client → Prop :=
| CsConnect s k feats cursors revoked s' out :
    cl_open s = None → cl_closing s = false → cl_conns s !! k = None → welcome s k feats cursors revoked = (s', out) →
    client_step pc max_text s out s'
| CsReceive s k m s' out :
    cl_open s = Some k → handle s k m = (s', out) → client_step pc max_text s out s'
| CsTask s n t io s' out :
    cl_tasks s !! n = Some t → task_step s n t io = Some (s', out) → client_step pc max_text s out s'
| CsDisconnect s : is_Some (cl_open s) → client_step pc max_text s [] (disconnect s)
| CsClosed s : cl_closing s = true → client_step pc max_text s [] (with_open s None false)
| CsPool s p evs s' out :
    pool_step pc (cl_pool s) evs p → pool_hooks (with_pool s p) evs = (s', out) → client_step pc max_text s out s'
| CsRelay s op r outs :
    relay_step max_text (cl_relay s) op = Some (r, outs) → client_step pc max_text s [] (with_relay s r)
| CsOutbox s o : own_step (cl_outbox s) o → client_step pc max_text s [] (with_outbox s o).
Inductive client_reach (pc : pool_config) (max_text : Z) : client → list client_event → Prop :=
| ClientStart o : outbox_ok o → client_reach pc max_text (new_client o) []
| ClientStep s tr out s' :
    client_reach pc max_text s tr → client_step pc max_text s out s' → client_reach pc max_text s' (tr ++ out).
End client.
