(* ===== verification/ClientProps.v ===== *)
(** * Properties of a worker's side of its connections

    [sched] is what decides when a task may go on and whether a command is known: the
    tasks, the latest teardown of each session and connection, and the dedupe.  Every
    step of the client is a sequence of [move]s of it ([client_moves]), and the
    invariants are proved for the moves: a command runs after the teardowns of its
    connection, and once.  At the end are two runs of the client that break what the
    documentation says. *)

From S2P Require Import Prelude PyStd Protocol Outbox OutboxSpec Deltas Pool Client.

Open Scope Z_scope.

(** ** The schedule *)

Record sched : Type := Sched {
  sc_tasks : gmap nat task; sc_next : nat; sc_open : option nat;
  sc_latest : gmap nat (gmap uuid nat); sc_seen : dedupe
}.
Definition sched_of (s : client) : sched :=
  Sched (cl_tasks s) (cl_next s) (cl_open s) (wc_teardowns <$> cl_conns s) (cl_seen s).
Definition latest (a : sched) (k : nat) (sid : uuid) : option nat := default ∅ (sc_latest a !! k) !! sid.
Definition known_conn (a : sched) (k : nat) : Prop := sc_open a = Some k ∨ is_Some (sc_latest a !! k).
Definition over (tasks : gmap nat task) (after : option nat) : Prop :=
  ∀ m, after = Some m → tasks !! m = None.

Definition put_task (a : sched) (n : nat) (t : task) : sched :=
  Sched (<[n := t]> (sc_tasks a)) (sc_next a) (sc_open a) (sc_latest a) (sc_seen a).
Definition drop_task (a : sched) (n : nat) : sched :=
  Sched (delete n (sc_tasks a)) (sc_next a) (sc_open a) (sc_latest a) (sc_seen a).
Definition new_task (a : sched) (t : task) : sched :=
  Sched (<[sc_next a := t]> (sc_tasks a)) (S (sc_next a)) (sc_open a) (sc_latest a) (sc_seen a).
Definition put_latest (a : sched) (v : gmap nat (gmap uuid nat)) : sched :=
  Sched (sc_tasks a) (sc_next a) (sc_open a) v (sc_seen a).
Definition put_open (a : sched) (v : option nat) : sched :=
  Sched (sc_tasks a) (sc_next a) v (sc_latest a) (sc_seen a).
Definition put_seen (a : sched) (v : dedupe) : sched :=
  Sched (sc_tasks a) (sc_next a) (sc_open a) (sc_latest a) v.

(** How far a task is: it has to look for a teardown, it waits for one, or it is past. *)
Inductive stage : Type := Before | Waiting (after : option nat) | Past.
Definition command_stage (ph : command_phase) : stage :=
  match ph with CmStart => Before | CmSettling after => Waiting after | _ => Past end.
Definition stop_stage (ph : stop_phase) : stage :=
  match ph with StAckFirst | StStart => Before | StSettling after => Waiting after | _ => Past end.
(** The command of a task, and its stage. *)
Definition job_stage (j : job) : option (command * stage) :=
  match j with
  | JDuplicate c ph => Some (c, command_stage ph)
  | JCommand c _ ph => Some (c, command_stage ph)
  | JStop c ph => Some (c, stop_stage ph)
  | _ => None
  end.
(** The command that a task is to run, and whether it will not begin to any more. *)
Definition job_runs (j : job) : option (command * bool) :=
  match j with
  | JCommand c _ ph => Some (c, match ph with CmStart | CmSettling _ | CmAck => false | _ => true end)
  | JStop c ph => Some (c, match ph with StAckFirst | StStart | StSettling _ => false | _ => true end)
  | _ => None
  end.
Definition is_teardown (j : job) : option uuid := match j with JTeardown sid _ _ => Some sid | _ => None end.
Definition neutral (e : client_event) : Prop :=
  match e with EvAcked _ | EvReleased _ _ | EvDuplicate _ => True | _ => False end.

(** A task goes on, other than by beginning to run its command. *)
Inductive goes_on (a : sched) (k : nat) : job → job → Prop :=
| GoStage j j' c st st' :
    job_stage j = Some (c, st) → job_stage j' = Some (c, st') →
    (job_runs j' = job_runs j ∨ job_runs j = Some (c, false) ∧ job_runs j' = Some (c, true)) →
    match st with
    | Before => st' = Before ∨ st' = Waiting (latest a k (cm_session c))
    | Waiting after => over (sc_tasks a) after ∧ st' = Past
    | Past => st' = Past
    end → goes_on a k j j'
| GoTeardown sid known previous :
    over (sc_tasks a) previous → goes_on a k (JTeardown sid known (TdWait previous)) (JTeardown sid known TdKill)
| GoOther j j' :
    job_stage j = None → job_stage j' = None → is_teardown j = None → is_teardown j' = None → goes_on a k j j'.

Inductive move : sched → list client_event → sched → Prop :=
| MNote a e : neutral e → move a [e] a
| MConn a k : sc_latest a !! k = None → sc_open a = None → move a [] (put_latest a (<[k := ∅]> (sc_latest a)))
| MOpen a k : is_Some (sc_latest a !! k) → move a [] (put_open a (Some k))
| MClose a : move a [] (put_open a None)
| MSpawn a k j :
    known_conn a k → is_teardown j = None → job_runs j = None →
    (∀ c st, job_stage j = Some (c, st) → st = Before) → move a [] (new_task a (Task k j))
| MSchedule a k sid known :
    known_conn a k →
    move a [EvScheduled (sc_next a) k sid]
      (put_latest (new_task a (Task k (JTeardown sid known (TdWait (latest a k sid)))))
         (<[k := <[sid := sc_next a]> (default ∅ (sc_latest a !! k))]> (sc_latest a)))
| MAccept a k c j seen :
    known_conn a k → duplicate DEDUPE_LIMIT (sc_seen a) (cm_session c) (cm_id c) = (seen, false) →
    job_runs j = Some (c, false) → job_stage j = Some (c, Before) →
    move a [EvAccepted (sc_next a) c] (put_seen (new_task a (Task k j)) seen)
| MKnown a c seen :
    duplicate DEDUPE_LIMIT (sc_seen a) (cm_session c) (cm_id c) = (seen, true) → move a [] (put_seen a seen)
| MForget a sid : move a [EvForgot sid] (put_seen a (dedupe_forget (sc_seen a) sid))
| MDiscard a sid id : move a [EvDiscarded sid id] (put_seen a (discard (sc_seen a) sid id))
| MGo a n k j j' :
    sc_tasks a !! n = Some (Task k j) → goes_on a k j j' → move a [] (put_task a n (Task k j'))
| MRun a n k c j j' :
    sc_tasks a !! n = Some (Task k j) → job_runs j = Some (c, false) → job_runs j' = Some (c, true) →
    (job_stage j = Some (c, Past) ∨ ∃ after, job_stage j = Some (c, Waiting after) ∧ over (sc_tasks a) after) →
    job_stage j' = Some (c, Past) → move a [EvRun n k c] (put_task a n (Task k j'))
| MEnd a n k j :
    sc_tasks a !! n = Some (Task k j) → is_teardown j = None → move a [] (drop_task a n)
| MTorn a n k sid known :
    sc_tasks a !! n = Some (Task k (JTeardown sid known TdKill)) →
    move a [EvTornDown n sid]
      (put_latest (drop_task a n)
         (if decide (latest a k sid = Some n) then <[k := delete sid (default ∅ (sc_latest a !! k))]> (sc_latest a)
          else sc_latest a)).
Inductive moves : sched → list client_event → sched → Prop :=
| MovesNil a : moves a [] a
| MovesStep a out1 b out2 c : move a out1 b → moves b out2 c → moves a (out1 ++ out2) c.

Lemma moves_one a out b : move a out b → moves a out b.
Proof. intros H. rewrite <- (app_nil_r out). econstructor; [done|constructor]. Qed.
Lemma moves_app a out1 b out2 c : moves a out1 b → moves b out2 c → moves a (out1 ++ out2) c.
Proof. induction 1; [done|]. intros. rewrite <- app_assoc. econstructor; eauto. Qed.
Lemma moves_snoc a out1 b out2 c : moves a out1 b → move b out2 c → moves a (out1 ++ out2) c.
Proof. intros. eapply moves_app; [done|]. by apply moves_one. Qed.
(** An invariant of the moves, with the trace. *)
Lemma moves_inv (I : sched → list client_event → Prop) a tr out b :
  (∀ a tr out b, I a tr → move a out b → I b (tr ++ out)) → I a tr → moves a out b → I b (tr ++ out).
Proof.
  intros Hm Ha H. revert tr Ha. induction H; intros tr Ha; [by rewrite app_nil_r|].
  rewrite app_assoc. apply IHmoves. by eapply Hm.
Qed.

(** ** What the client does to the schedule *)

Lemma latest_of s k sid : latest (sched_of s) k sid = latest_teardown s k sid.
Proof.
  unfold latest, latest_teardown, conn_of. simpl. rewrite lookup_fmap. by destruct (cl_conns s !! k).
Qed.
Lemma settled_over s after : settled s after = true ↔ over (cl_tasks s) after.
Proof.
  unfold settled, running, over. destruct after as [m|]; [|naive_solver].
  rewrite negb_true_iff, bool_decide_eq_false, <- eq_None_not_Some. naive_solver.
Qed.
Lemma latest_default s k : default ∅ (sc_latest (sched_of s) !! k) = wc_teardowns (conn_of s k).
Proof. unfold conn_of. simpl. rewrite lookup_fmap. by destruct (cl_conns s !! k). Qed.
Lemma sched_teardowns s k v :
  sched_of (set_teardowns s k v) = put_latest (sched_of s) (<[k := v]> (sc_latest (sched_of s))).
Proof. unfold sched_of, set_teardowns. simpl. by rewrite fmap_insert. Qed.
Lemma sched_stopping s k v : sched_of (set_stopping s k v) = sched_of s.
Proof.
  unfold sched_of, set_stopping. simpl. f_equal. apply map_eq. intros i.
  rewrite !lookup_fmap. destruct (decide (i = k)) as [->|]; [|by rewrite lookup_alter_ne].
  rewrite lookup_alter_eq. by destruct (cl_conns s !! k).
Qed.
Lemma sched_spawn s k j : sched_of (spawn s k j) = new_task (sched_of s) (Task k j).
Proof. done. Qed.
Lemma sched_set_job s n k j : sched_of (set_job s n k j) = put_task (sched_of s) n (Task k j).
Proof. done. Qed.
Lemma sched_end_task s n : sched_of (end_task s n) = drop_task (sched_of s) n.
Proof. done. Qed.
Lemma sched_seen s v : sched_of (with_seen s v) = put_seen (sched_of s) v.
Proof. done. Qed.
Lemma put_seen_same a : put_seen a (sc_seen a) = a.
Proof. by destruct a. Qed.

(** A loop whose steps are moves. *)
Definition emits (P : client → Prop) (acc acc' : client * list client_event) : Prop :=
  ∃ out, acc'.2 = acc.2 ++ out ∧ moves (sched_of acc.1) out (sched_of acc'.1) ∧ P acc'.1.
Lemma emits_trans P a b c : emits P a b → emits P b c → emits P a c.
Proof.
  intros (o1 & E1 & M1 & _) (o2 & E2 & M2 & H). exists (o1 ++ o2).
  rewrite E2, E1, <- app_assoc. split_and!; eauto using moves_app.
Qed.
Lemma emits_fold {A} P (f : client * list client_event → A → client * list client_event) (xs : list A) acc :
  (∀ acc x, P acc.1 → emits P acc (f acc x)) → P acc.1 → emits P acc (foldl f acc xs).
Proof.
  intros Hf. revert acc. induction xs as [|x xs IH]; intros acc Ha; simpl.
  - exists []. rewrite app_nil_r. split_and!; [done|constructor|done].
  - eapply emits_trans; [by apply Hf|]. apply IH. by destruct (Hf acc x Ha) as (? & ? & ? & ?).
Qed.

Lemma moves_release_offline s sid s' out :
  release_offline s sid = (s', out) → moves (sched_of s) out (sched_of s') ∧ cl_open s' = cl_open s.
Proof.
  unfold release_offline. intros [= <- <-].
  assert (∀ s0, sched_of s0 = sched_of s → cl_open s0 = cl_open s →
    moves (sched_of s) [EvForgot sid] (sched_of (with_seen s0 (dedupe_forget (cl_seen s0) sid)))
    ∧ cl_open (with_seen s0 (dedupe_forget (cl_seen s0) sid)) = cl_open s) as Hm.
  { intros s0 E Eo. split; [|done]. rewrite sched_seen, E. apply moves_one.
    change (cl_seen s0) with (sc_seen (sched_of s0)). rewrite E. constructor. }
  case_match; by apply Hm.
Qed.
Lemma emits_note_stopped acc e : emits (λ _, True) acc (note_stopped acc e).
Proof.
  destruct acc as [s out].
  assert (emits (λ _, True) (s, out) (s, out)) as Hno.
  { exists []. rewrite app_nil_r. split_and!; [done|constructor|done]. }
  assert (∀ sid, emits (λ _, True) (s, out)
    match cl_open s with
    | Some k => match release_begin s k sid with
                | (s, Some r) => (spawn s k (JRelease r), out)
                | (s, None) => (s, out)
                end
    | None => if cl_closing s then (s, out) else let '(s, out') := release_offline s sid in (s, out ++ out')
    end) as Hn.
  { intros sid. destruct (cl_open s) as [k|] eqn:Ho.
    - destruct (release_begin s k sid) as [s' r] eqn:Hr. unfold release_begin in Hr. injection Hr as <- Hr.
      destruct r as [r|]; [|exact Hno]. exists []. rewrite app_nil_r. split_and!; [done| |done].
      apply moves_one. apply MSpawn; [by left|done|done|done].
    - destruct (cl_closing s); [exact Hno|]. destruct (release_offline s sid) as [s' o] eqn:Hr. apply moves_release_offline in Hr as [Hr _].
      by exists o. }
  destruct e; try exact Hno; [destruct release; [|exact Hno]|]; apply Hn.
Qed.
Lemma moves_pool_hooks s evs s' out : pool_hooks s evs = (s', out) → moves (sched_of s) out (sched_of s').
Proof.
  unfold pool_hooks. intros E.
  destruct (emits_fold (λ _, True) note_stopped evs (s, [])) as (o & Eo & Hm & _);
    [intros; apply emits_note_stopped|done|].
  rewrite E in *. simpl in *. by subst.
Qed.

Lemma emits_impl (P Q : client → Prop) a b : (∀ s, P s → Q s) → emits P a b → emits Q a b.
Proof. intros HP (o & E & M & H). exists o. auto. Qed.
Definition conn_known (k : nat) (s : client) : Prop := known_conn (sched_of s) k.
Definition conn_some (k : nat) (s : client) : Prop := is_Some (sc_latest (sched_of s) !! k).
Lemma conn_some_known k s : conn_some k s → conn_known k s.
Proof. by right. Qed.
Lemma emits_schedule s out k sid known :
  conn_known k s → emits (conn_some k) (s, out) (let '(s, out') := schedule_teardown s k sid known in (s, out ++ out')).
Proof.
  intros Hk. unfold schedule_teardown. eexists. split; [done|]. cbn [fst snd].
  rewrite sched_teardowns, sched_spawn. split.
  - apply moves_one. change (conn_of (spawn s k _) k) with (conn_of s k).
    rewrite <- (latest_default s). by apply (MSchedule (sched_of s)).
  - unfold conn_some. rewrite sched_teardowns. simpl. by rewrite lookup_insert_eq.
Qed.
Lemma emits_revoke acc k sid : conn_known k acc.1 → emits (conn_some k) acc (revoke k acc sid).
Proof.
  destruct acc as [s out]. intros Hk. unfold revoke. cbn [fst snd] in *.
  destruct (forget_revoked s sid) as [s1 known] eqn:Hf.
  assert (move (sched_of s) [EvForgot sid] (sched_of s1) ∧ conn_known k s1) as [M1 Hk1].
  { unfold forget_revoked in Hf. injection Hf as <- _. split; [constructor|exact Hk]. }
  pose proof (emits_schedule s1 (out ++ [EvForgot sid]) k sid known Hk1) as H2.
  destruct (schedule_teardown s1 k sid known) as [s2 out2] eqn:Hs.
  destruct H2 as (o2 & E2 & M2 & Hk2). exists ([EvForgot sid] ++ o2). cbn [fst snd] in *.
  apply app_inv_head in E2 as <-. split_and!; [done|by econstructor|done].
Qed.
Lemma emits_schedule_all acc k sid :
  conn_known k acc.1 → emits (conn_some k) acc (schedule_all k true acc sid).
Proof. destruct acc as [s out]. apply emits_schedule. Qed.

Lemma sched_adopt_hello cfg s cursors : sched_of (foldl (adopt_hello cfg) s cursors) = sched_of s.
Proof. revert s. induction cursors as [|p l IH]; intros s; simpl; [done|]. by rewrite IH. Qed.
Lemma moves_reconcile cfg k s cursors s' gone :
  conn_some k s → reconcile_hello cfg s cursors = (s', gone) →
  moves (sched_of s) (EvForgot <$> gone) (sched_of s') ∧ conn_some k s'.
Proof.
  unfold reconcile_hello, conn_some. intros Hk [= <- ->].
  revert Hk. rewrite <- (sched_adopt_hello cfg s cursors). generalize (foldl (adopt_hello cfg) s cursors). clear.
  induction gone as [|sid l IH]; intros s Hk; simpl; [split; [constructor|done]|].
  destruct (IH (drop_lease s sid)) as [IH1 IH2]; [exact Hk|]. split; [|done].
  apply (MovesStep _ [EvForgot sid] (sched_of (drop_lease s sid))); [apply (MForget (sched_of s))|exact IH1].
Qed.
Lemma moves_welcome cfg s k feats cursors revoked s' out :
  cl_open s = None → cl_conns s !! k = None → welcome cfg s k feats cursors revoked = (s', out) →
  moves (sched_of s) out (sched_of s').
Proof.
  intros Ho Hk. unfold welcome. set (s1 := with_conns _ _).
  assert (sched_of s1 = put_latest (sched_of s) (<[k := ∅]> (sc_latest (sched_of s)))) as E1.
  { unfold s1, sched_of. simpl. by rewrite fmap_insert. }
  assert (conn_some k s1) as Hk1 by (unfold conn_some; rewrite E1; simpl; by rewrite lookup_insert_eq).
  assert (move (sched_of s) [] (sched_of s1)) as Hm1.
  { rewrite E1. constructor; [|done]. simpl. by rewrite lookup_fmap, Hk. }
  destruct (reconcile_hello cfg s1 cursors) as [s2 gone] eqn:E2.
  destruct (moves_reconcile _ _ _ _ _ _ Hk1 E2) as [Hm2 Hk2].
  destruct (emits_fold (conn_some k) (schedule_all k true) gone (s2, EvForgot <$> gone)) as (o3 & Eo3 & Hm3 & Hk3);
    [intros; by apply emits_schedule_all, conn_some_known|done|].
  destruct (foldl (schedule_all k true) (s2, EvForgot <$> gone) gone) as [s3 out3]. simpl in Eo3, Hm3, Hk3.
  destruct (emits_fold (conn_some k) (revoke k) revoked (s3, out3)) as (o4 & Eo4 & Hm4 & Hk4);
    [intros; by apply emits_revoke, conn_some_known|done|].
  destruct (foldl (revoke k) (s3, out3) revoked) as [s4 out4]. simpl in Eo4, Hm4, Hk4.
  set (s5 := with_outbox _ _). intros E.
  assert (moves (sched_of s) out4 (put_open (sched_of s4) (Some k))) as Hm.
  { rewrite Eo4, Eo3. change (((EvForgot <$> gone) ++ o3) ++ o4) with ([] ++ ((EvForgot <$> gone) ++ o3) ++ o4).
    econstructor; [exact Hm1|]. rewrite <- (app_nil_r (_ ++ o4)). eapply moves_snoc; [by eauto using moves_app|].
    by constructor. }
  case_decide; injection E as <- <-; [exact Hm|].
  rewrite sched_spawn. rewrite <- (app_nil_r out4). eapply moves_snoc; [exact Hm|].
  apply MSpawn; [by left|done|done|done].
Qed.

Lemma duplicate_same d sid id seen known :
  duplicate DEDUPE_LIMIT d sid id = (seen, known) → known = true → seen = <[sid := default [] (d !! sid)]> d.
Proof. unfold duplicate. case_decide; intros [= <- <-]; done. Qed.
Lemma moves_handle cfg s k m s' out :
  cl_open s = Some k → handle cfg s k m = (s', out) → moves (sched_of s) out (sched_of s').
Proof.
  intros Ho. assert (conn_known k s) as Hk by by left. unfold handle. destruct m as [sid last|revoked|c|].
  - intros [= <- <-]. constructor.
  - intros E. destruct (emits_fold (conn_known k) (revoke k) revoked (s, [])) as (o & Eo & Hm & _); [|done|].
    { intros. eapply emits_impl; [apply conn_some_known|by apply emits_revoke]. }
    rewrite E in *. simpl in *. by subst.
  - case_decide; [intros [= <- <-]; constructor|].
    destruct (duplicate _ _ _ _) as [seen known] eqn:Hd. destruct known.
    { intros [= <- <-]. change [EvDuplicate c] with ([] ++ [EvDuplicate c] ++ []).
      econstructor; [by eapply (MKnown (sched_of s) c)|]. econstructor; [by apply MNote|].
      apply moves_one. apply (MSpawn (put_seen (sched_of s) seen)); [done|done|done|naive_solver]. }
    set (b := (_ || _) : bool). clearbody b.
    case_decide as Hop.
    + destruct b; intros [= <- <-]; apply moves_one;
        apply (MAccept (sched_of s) k c (JStop c (if wc_stopped (conn_of s k) then StAckFirst else StStart)));
        try done; by destruct (wc_stopped _).
    + set (pooled := bool_decide (cm_op c ∈ CURSOR_OPS)). clearbody pooled.
      destruct b, pooled; intros [= <- <-]; apply moves_one;
        by apply (MAccept (sched_of s) k c (JCommand c _ CmStart)).
  - intros [= <- <-]. constructor.
Qed.

(** *** The tasks *)

Lemma sched_release_begin s k sid s' r : release_begin s k sid = (s', r) → sched_of s' = sched_of s.
Proof. by intros [= <- <-]. Qed.
Lemma moves_release_sent cfg s sid lease sent s' out :
  release_sent cfg s sid lease sent = (s', out) → moves (sched_of s) out (sched_of s') ∧ cl_tasks s' = cl_tasks s.
Proof.
  unfold release_sent. destruct sent; [|intros [= <- <-]; split; [constructor|done]].
  destruct (decide (cl_releases s !! _ = _)); case_decide; intros [= <- <-]; (split; [|done]);
    try (apply moves_one; by apply MNote);
    (apply (MovesStep _ [EvReleased _ _] (sched_of s)); [by apply MNote|apply moves_one; apply (MForget (sched_of s))]).
Qed.
Lemma moves_release_step cfg s r io s' r' out :
  release_step cfg s r io = Some (s', r', out) →
  moves (sched_of s) out (sched_of s') ∧ cl_tasks s' = cl_tasks s.
Proof.
  unfold release_step. destruct (rl_at r) as [target|].
  - destruct (flushed _ _ _ _ _); [|done]. destruct (release_flushed s r target) as [s1 next] eqn:E.
    intros [= <- <- <-]. unfold release_flushed in E.
    repeat case_match; injection E as <- <-; split; constructor.
  - destruct (release_sent _ _ _ _ _) as [s1 o1] eqn:E. intros [= <- <- <-]. by apply moves_release_sent in E.
Qed.
Lemma moves_set_job a out s n k j j' :
  moves a out (sched_of s) → cl_tasks s !! n = Some (Task k j) → goes_on (sched_of s) k j j' →
  moves a out (sched_of (set_job s n k j')).
Proof.
  intros Hm Hn Hg. rewrite <- (app_nil_r out). eapply moves_snoc; [exact Hm|].
  rewrite sched_set_job. by econstructor.
Qed.
Lemma moves_end_task a out s n k j :
  moves a out (sched_of s) → cl_tasks s !! n = Some (Task k j) → is_teardown j = None →
  moves a out (sched_of (end_task s n)).
Proof.
  intros Hm Hn Hg. rewrite <- (app_nil_r out). eapply moves_snoc; [exact Hm|].
  rewrite sched_end_task. by econstructor.
Qed.
Lemma goes_past a k j j' c :
  job_stage j = Some (c, Past) → job_stage j' = Some (c, Past) →
  (job_runs j' = job_runs j ∨ job_runs j = Some (c, false) ∧ job_runs j' = Some (c, true)) → goes_on a k j j'.
Proof. intros. by eapply (GoStage _ _ _ _ c Past Past). Qed.
Lemma goes_wait s k j j' c :
  job_stage j = Some (c, Before) → job_stage j' = Some (c, Waiting (latest_teardown s k (cm_session c))) →
  job_runs j' = job_runs j → goes_on (sched_of s) k j j'.
Proof. intros. eapply (GoStage _ _ _ _ c Before); [done|done|by left|]. right. by rewrite latest_of. Qed.
Lemma goes_settled s k j j' c after :
  settled s after = true → job_stage j = Some (c, Waiting after) → job_stage j' = Some (c, Past) →
  job_runs j' = job_runs j → goes_on (sched_of s) k j j'.
Proof. intros Hs%settled_over **. by eapply (GoStage _ _ _ _ c (Waiting after) Past); [..|left|]. Qed.

Lemma moves_command cfg s n k c pooled ph io s' out :
  cl_tasks s !! n = Some (Task k (JCommand c pooled ph)) →
  command_step cfg s n k c pooled ph io = Some (s', out) → moves (sched_of s) out (sched_of s').
Proof.
  intros Hn. assert (sc_tasks (sched_of s) !! n = Some (Task k (JCommand c pooled ph))) as Hn' by done.
  unfold command_step. destruct ph as [|after| | |r|failed].
  - intros [= <- <-]. eapply moves_set_job; [constructor|exact Hn|]. by eapply goes_wait.
  - destruct (settled s after) eqn:Hs; [|done]. intros [= <- <-].
    assert (sched_of (adopt_cursor cfg s c) = sched_of s ∧ cl_tasks (adopt_cursor cfg s c) = cl_tasks s) as [E Et]
      by (unfold adopt_cursor; by repeat case_match).
    eapply moves_set_job; [rewrite E; constructor|rewrite Et; exact Hn|rewrite E]. by eapply goes_settled.
  - destruct (io_ok io); intros [= <- <-].
    + apply (MovesStep _ [EvAcked c] (sched_of s) [EvRun n k c]); [by apply MNote|]. apply moves_one.
      rewrite sched_set_job. eapply (MRun (sched_of s)); [exact Hn'|done|done|by left|done].
    + eapply moves_set_job; [constructor|exact Hn|]. apply (goes_past _ _ _ _ c); [done|done|by right].
  - destruct (io_run io).
    + intros [= <- <-]. eapply moves_set_job; [constructor|exact Hn|]. by apply (goes_past _ _ _ _ c); [| |left].
    + destruct (release_begin s k (cm_session c)) as [s1 r] eqn:E. apply sched_release_begin in E.
      intros [= <- <-]. assert (cl_tasks s1 = cl_tasks s) as Et by (by injection E).
      eapply moves_set_job; [rewrite E; constructor|by rewrite Et|].
      by apply (goes_past _ _ _ _ c); [|destruct r|left; destruct r].
    + intros [= <- <-]. eapply moves_set_job.
      * apply moves_one. apply (MDiscard (sched_of s)).
      * exact Hn.
      * by apply (goes_past _ _ _ _ c); [| |left].
  - destruct (release_step cfg s r (io_ok io)) as [[[s1 r1] o1]|] eqn:E; [|done].
    intros [= <- <-]. apply moves_release_step in E as [Hm Ht].
    eapply moves_set_job; [exact Hm|rewrite Ht; exact Hn|].
    by apply (goes_past _ _ _ _ c); [|destruct r1|left; destruct r1].
  - assert (moves (sched_of s) [] (sched_of (end_task s n))) as Hend.
    { by eapply moves_end_task; [constructor|exact Hn|]. }
    destruct pooled; [|by intros [= <- <-]].
    destruct (after_turn _ _) as [p evs].
    destruct (pool_hooks (with_pool (end_task s n) p) evs) as [s1 o1] eqn:E. intros [= <- <-].
    apply moves_pool_hooks in E. rewrite <- (app_nil_l o1). eapply moves_app; [exact Hend|exact E].
Qed.
Lemma moves_duplicate s n k c ph io s' out :
  cl_tasks s !! n = Some (Task k (JDuplicate c ph)) →
  duplicate_step s n k c ph io = Some (s', out) → moves (sched_of s) out (sched_of s').
Proof.
  intros Hn. assert (sc_tasks (sched_of s) !! n = Some (Task k (JDuplicate c ph))) as Hn' by done.
  assert (∀ out, out = (if io_ok io then [EvAcked c] else []) → moves (sched_of s) out (sched_of (end_task s n))) as Hend.
  { intros o ->. eapply moves_end_task; [|exact Hn|done].
    destruct (io_ok io); [apply moves_one; by apply MNote|constructor]. }
  unfold duplicate_step. destruct ph as [|after| | |r|failed]; try (intros [= <- <-]; by apply Hend).
  - intros [= <- <-]. eapply moves_set_job; [constructor|exact Hn|]. by eapply goes_wait.
  - destruct (settled s after) eqn:Hs; [|done]. intros [= <- <-].
    eapply moves_set_job; [constructor|exact Hn|]. by eapply goes_settled.
Qed.
Lemma moves_stop cfg s n k c ph io s' out :
  cl_tasks s !! n = Some (Task k (JStop c ph)) →
  stop_step cfg s n k c ph io = Some (s', out) → moves (sched_of s) out (sched_of s').
Proof.
  intros Hn. assert (sc_tasks (sched_of s) !! n = Some (Task k (JStop c ph))) as Hn' by done.
  unfold stop_step. destruct ph as [| |after| |target|].
  - destruct (io_ok io); intros [= <- <-].
    + eapply moves_set_job; [apply moves_one; by apply MNote|exact Hn|].
      by apply (GoStage _ _ _ _ c Before Before); [| |left|left].
    + by eapply moves_end_task; [constructor|exact Hn|].
  - intros [= <- <-]. eapply moves_set_job; [constructor|exact Hn|]. by eapply goes_wait.
  - destruct (settled s after) eqn:Hs; [|done]. intros [= <- <-]. apply moves_one.
    rewrite sched_set_job, sched_stopping. eapply (MRun (sched_of s)); [exact Hn'|done|done| |done].
    right. exists after. split; [done|by apply settled_over].
  - assert (moves (sched_of s) [EvForgot (cm_session c)]
              (sched_of (set_job (with_seen s (dedupe_forget (cl_seen s) (cm_session c))) n k
                 (JStop c (StFlush (high_water (cl_outbox s) (cm_session c))))))) as Hdone.
    { eapply moves_set_job; [apply moves_one, (MForget (sched_of s))|exact Hn|].
      by apply (goes_past _ _ _ _ c); [| |left]. }
    destruct (io_run io); [intros [= <- <-]; exact Hdone..|]. intros [= <- <-].
    eapply moves_end_task; [|by rewrite <- Hn|done].
    rewrite sched_stopping. apply moves_one. apply (MDiscard (sched_of s)).
  - destruct (flushed _ _ _ _ _); [|done].
    set (s1 := with_outbox _ _). assert (sched_of s1 = sched_of s) as E1 by (unfold s1; by case_decide).
    assert (moves (sched_of s) [] (sched_of (set_stopping s1 k (wc_stopping (conn_of s1 k) ∖ {[cm_session c]})))) as Hm.
    { rewrite sched_stopping, E1. constructor. }
    assert (cl_tasks s1 = cl_tasks s) as Et by by injection E1.
    destruct (wc_stopped _); intros [= <- <-].
    + eapply moves_end_task; [exact Hm|by rewrite <- Hn, <- Et|done].
    + eapply moves_set_job; [exact Hm|by rewrite <- Hn, <- Et|]. by apply (goes_past _ _ _ _ c); [| |left].
  - destruct (io_ok io); intros [= <- <-].
    + by eapply moves_end_task; [apply moves_one, MNote|exact Hn|].
    + by eapply moves_end_task; [constructor|exact Hn|].
Qed.
Lemma sched_finish_revoke cfg s sid known io : sched_of (finish_revoke cfg s sid known io) = sched_of s.
Proof. unfold finish_revoke. by destruct (_ || _). Qed.
Lemma moves_teardown cfg s n k sid known ph io s' out :
  cl_tasks s !! n = Some (Task k (JTeardown sid known ph)) →
  teardown_step cfg s n k sid known ph io = Some (s', out) → moves (sched_of s) out (sched_of s').
Proof.
  intros Hn. unfold teardown_step. destruct ph as [previous|].
  - destruct (settled s previous) eqn:Hs; [|done]. intros [= <- <-].
    change (sched_of (with_pool ?x _)) with (sched_of x).
    eapply moves_set_job; [constructor|exact Hn|]. constructor. by apply settled_over.
  - set (s1 := if io_ok io then _ else _). intros [= <- <-].
    assert (sched_of s1 = sched_of s) as E by (unfold s1; destruct (io_ok io); [apply sched_finish_revoke|done]).
    assert (sched_of (end_task s1 n) = drop_task (sched_of s) n) as E1 by by rewrite sched_end_task, E.
    apply moves_one. unfold teardown_done. rewrite <- (latest_of (end_task s1 n)), E1.
    assert (∀ P Q : client, sched_of (if decide (latest (drop_task (sched_of s) n) k sid = Some n) then P else Q)
      = if decide (latest (drop_task (sched_of s) n) k sid = Some n) then sched_of P else sched_of Q) as Hif
      by (intros; by case_decide).
    rewrite Hif, sched_teardowns, <- latest_default, E1.
    pose proof (MTorn (sched_of s) n k sid known Hn) as HT.
    change (latest (drop_task (sched_of s) n) k sid) with (latest (sched_of s) k sid).
    case_decide; exact HT.
Qed.
Lemma moves_pending cfg s n k rest r io s' out :
  cl_tasks s !! n = Some (Task k (JPending rest r)) →
  pending_step cfg s n k rest r io = Some (s', out) → moves (sched_of s) out (sched_of s').
Proof.
  intros Hn. assert (∀ s1 rest1 r1, sched_of s1 = sched_of s →
    moves (sched_of s) [] (sched_of (set_job s1 n k (JPending rest1 r1)))) as Hgo.
  { intros s1 rest1 r1 E. assert (cl_tasks s1 = cl_tasks s) as Et by by injection E.
    eapply moves_set_job; [rewrite E; constructor|by rewrite Et|by constructor]. }
  unfold pending_step. destruct r as [r|].
  - destruct (rl_at r) as [target|].
    + destruct (_ || _); [|done]. intros [= <- <-]. by apply Hgo.
    + destruct (release_sent _ _ _ _ _) as [s1 o1] eqn:E. intros [= <- <-]. apply moves_release_sent in E as [Hm Et].
      eapply moves_set_job; [exact Hm|by rewrite Et|by constructor].
  - destruct rest as [|[sid lease] rest].
    + intros [= <- <-]. by eapply moves_end_task; [constructor|exact Hn|].
    + case_decide; intros [= <- <-]; by apply Hgo.
Qed.
Lemma moves_task cfg s n t io s' out :
  cl_tasks s !! n = Some t → task_step cfg s n t io = Some (s', out) → moves (sched_of s) out (sched_of s').
Proof.
  destruct t as [k j]. intros Hn. unfold task_step. cbn [tk_conn tk_job]. destruct j as [c ph|c pooled ph|c ph|sid known ph|r|rest r].
  - by apply moves_duplicate.
  - by apply moves_command.
  - by apply moves_stop.
  - by apply moves_teardown.
  - destruct (release_step cfg s r (io_ok io)) as [[[s1 r1] o1]|] eqn:E; [|done].
    apply moves_release_step in E as [Hm Et]. destruct r1; intros [= <- <-].
    + eapply moves_set_job; [exact Hm|by rewrite Et|by constructor].
    + eapply moves_end_task; [exact Hm|by rewrite Et|done].
  - by apply moves_pending.
Qed.
(** Every step of the client is a sequence of moves of its schedule. *)
Lemma client_moves cfg pc mt s out s' : client_step cfg pc mt s out s' → moves (sched_of s) out (sched_of s').
Proof.
  destruct 1 as [s k feats cursors revoked s' out Ho _ Hk E|s k m s' out Ho E|s n t io s' out Hn E|s [k Hk]|s Hc|s p evs s' out _ E| |].
  - by eapply moves_welcome.
  - by eapply moves_handle.
  - by eapply moves_task.
  - apply moves_one. apply (MClose (sched_of s)).
  - apply moves_one. apply (MClose (sched_of s)).
  - by apply moves_pool_hooks in E.
  - constructor.
  - constructor.
Qed.
Lemma client_invariant cfg pc mt (I : sched → list client_event → Prop) s tr :
  (∀ a tr out b, I a tr → move a out b → I b (tr ++ out)) → (∀ o, I (sched_of (new_client o)) []) →
  client_reach cfg pc mt s tr → I (sched_of s) tr.
Proof.
  intros Hm H0. induction 1 as [o Ho|s tr out s' _ IH Hstep]; [done|].
  eapply moves_inv; [exact Hm|exact IH|]. by eapply client_moves.
Qed.

(** ** Commands wait for the teardowns of their connection *)

(** A chain of teardowns, each of which waits for the one before. *)
Inductive waits (tasks : gmap nat task) : nat → nat → Prop :=
| WaitsSelf m t : tasks !! m = Some t → waits tasks m m
| WaitsPrevious m k sid known p t :
    tasks !! m = Some (Task k (JTeardown sid known (TdWait (Some p)))) → waits tasks p t → waits tasks m t.
Definition teardown_at (tasks : gmap nat task) (n k : nat) (sid : uuid) : Prop :=
  ∃ j, tasks !! n = Some (Task k j) ∧ is_teardown j = Some sid.
Definition guarded (tasks : gmap nat task) (n k : nat) (sid : uuid) (after : option nat) : Prop :=
  ∀ t, (t < n)%nat → teardown_at tasks t k sid → ∃ m, after = Some m ∧ waits tasks m t.
Definition stage_ok (tasks : gmap nat task) (n k : nat) (j : job) : Prop :=
  match job_stage j with
  | Some (c, Waiting after) => guarded tasks n k (cm_session c) after
  | Some (c, Past) => guarded tasks n k (cm_session c) None
  | _ => True
  end.
Record order_ok (a : sched) (tr : list client_event) : Prop := OrderOk {
  oo_fresh : ∀ n t, sc_tasks a !! n = Some t → (n < sc_next a)%nat;
  oo_conn : ∀ n t, sc_tasks a !! n = Some t → is_Some (sc_latest a !! tk_conn t);
  oo_open : ∀ k, sc_open a = Some k → is_Some (sc_latest a !! k);
  oo_latest : ∀ n k sid, teardown_at (sc_tasks a) n k sid → ∃ m, latest a k sid = Some m ∧ waits (sc_tasks a) m n;
  oo_stage : ∀ n k j, sc_tasks a !! n = Some (Task k j) → stage_ok (sc_tasks a) n k j;
  oo_torn : ∀ n k sid, EvScheduled n k sid ∈ tr → teardown_at (sc_tasks a) n k sid ∨ EvTornDown n sid ∈ tr
}.
Definition unscheduled (out : list client_event) : Prop := ∀ n k sid, EvScheduled n k sid ∉ out.

Lemma waits_running tasks m t : waits tasks m t → is_Some (tasks !! m).
Proof. by destruct 1; eexists. Qed.
(** Replacing a task that does not wait keeps the chains. *)
Lemma waits_put tasks n x y m t :
  tasks !! n = Some x → (∀ k sid known p, x = Task k (JTeardown sid known (TdWait (Some p))) → tasks !! p = None) →
  waits tasks m t → waits (<[n := y]> tasks) m t.
Proof.
  intros Hn Hfree. induction 1 as [m x' Hm|m k sid known p t Hm Hp IH].
  - destruct (decide (m = n)) as [->|]; [econstructor; by rewrite lookup_insert_eq|].
    econstructor. by rewrite lookup_insert_ne.
  - destruct (decide (m = n)) as [->|].
    + rewrite Hn in Hm. injection Hm as ->. apply waits_running in Hp.
      rewrite (Hfree _ _ _ _ eq_refl) in Hp. by destruct Hp.
    + econstructor; [|done]. by rewrite lookup_insert_ne.
Qed.
Lemma waits_new tasks n y m t : tasks !! n = None → waits tasks m t → waits (<[n := y]> tasks) m t.
Proof.
  intros Hn. induction 1; econstructor; eauto; (rewrite lookup_insert_ne; [done|congruence]).
Qed.
Lemma waits_drop tasks n x m t :
  tasks !! n = Some x → (∀ k sid known p, x ≠ Task k (JTeardown sid known (TdWait (Some p)))) → t ≠ n →
  waits tasks m t → m ≠ n ∧ waits (delete n tasks) m t.
Proof.
  intros Hn Hfree Ht. induction 1 as [m x' Hm|m k sid known p t Hm Hp IH].
  - split; [done|]. econstructor. by rewrite lookup_delete_ne.
  - assert (m ≠ n) by (intros ->; rewrite Hn in Hm; injection Hm as ->; by eapply Hfree).
    split; [done|]. econstructor; [by rewrite lookup_delete_ne|]. by apply IH.
Qed.
Lemma stage_ok_mono tasks tasks' n k j :
  (∀ t sid, (t < n)%nat → teardown_at tasks' t k sid → teardown_at tasks t k sid) →
  (∀ m t sid, (t < n)%nat → teardown_at tasks' t k sid → waits tasks m t → waits tasks' m t) →
  stage_ok tasks n k j → stage_ok tasks' n k j.
Proof.
  unfold stage_ok, guarded. intros Ht Hw H. destruct (job_stage j) as [[c [|after|]]|]; [done| | |done];
    intros t Hlt Hat; destruct (H t Hlt) as (m & E & Hm); eauto.
Qed.
Lemma teardown_put tasks n k j j' t k' sid :
  tasks !! n = Some (Task k j) → is_teardown j' = is_teardown j →
  teardown_at (<[n := Task k j']> tasks) t k' sid ↔ teardown_at tasks t k' sid.
Proof.
  intros Hn Ej. unfold teardown_at. destruct (decide (t = n)) as [->|]; [|by rewrite lookup_insert_ne].
  rewrite lookup_insert_eq, Hn. naive_solver congruence.
Qed.
Lemma torn_app tasks tr out :
  (∀ n k sid, EvScheduled n k sid ∈ tr → teardown_at tasks n k sid ∨ EvTornDown n sid ∈ tr) → unscheduled out →
  ∀ n k sid, EvScheduled n k sid ∈ tr ++ out → teardown_at tasks n k sid ∨ EvTornDown n sid ∈ tr ++ out.
Proof. intros H Hu n k sid [Hin|Hin]%elem_of_app; [|by destruct (Hu n k sid)]. rewrite elem_of_app. naive_solver. Qed.

Lemma order_put a tr out n k j j' :
  order_ok a tr → sc_tasks a !! n = Some (Task k j) → is_teardown j' = is_teardown j →
  (∀ sid known p, j = JTeardown sid known (TdWait (Some p)) → sc_tasks a !! p = None) →
  stage_ok (sc_tasks a) n k j' → unscheduled out → order_ok (put_task a n (Task k j')) (tr ++ out).
Proof.
  intros Ha Hn Ej Hfree Hs Hout.
  assert (∀ m t, waits (sc_tasks a) m t → waits (<[n := Task k j']> (sc_tasks a)) m t) as Hw.
  { intros m t. eapply waits_put; [exact Hn|]. intros ???? E. injection E as _ ->. by eapply Hfree. }
  pose proof (λ t k' sid, teardown_put _ n k j j' t k' sid Hn Ej) as Ht.
  split; simpl.
  - intros m t. destruct (decide (m = n)) as [->|]; [intros _; by eapply oo_fresh|].
    rewrite lookup_insert_ne; [|done]. by eapply oo_fresh.
  - intros m t. destruct (decide (m = n)) as [->|].
    + rewrite lookup_insert_eq. intros [= <-]. exact (oo_conn _ _ Ha n _ Hn).
    + rewrite lookup_insert_ne; [|done]. by eapply oo_conn.
  - by eapply oo_open.
  - intros m k' sid Hm%Ht. destruct (oo_latest _ _ Ha _ _ _ Hm) as (q & Hq & Hwq). exists q. auto.
  - intros m k' i Hm.
    assert (stage_ok (sc_tasks a) m k' i) as Hi.
    { destruct (decide (m = n)) as [->|].
      - rewrite lookup_insert_eq in Hm. by injection Hm as <- <-.
      - rewrite lookup_insert_ne in Hm; [|done]. by eapply oo_stage. }
    eapply stage_ok_mono; [| |exact Hi]; [intros t sid _; apply Ht|eauto].
  - apply torn_app; [|done]. intros m k' sid Hin. rewrite Ht. by apply (oo_torn _ _ Ha).
Qed.
Lemma order_new a tr out k j :
  order_ok a tr → known_conn a k → is_teardown j = None → (∀ c st, job_stage j = Some (c, st) → st = Before) →
  unscheduled out → order_ok (new_task a (Task k j)) (tr ++ out).
Proof.
  intros Ha Hk Hj Hst Hout.
  assert (sc_tasks a !! sc_next a = None) as Hnew.
  { destruct (_ !! _) eqn:E; [|done]. apply (oo_fresh _ _ Ha) in E. lia. }
  assert (∀ t k' sid, teardown_at (<[sc_next a := Task k j]> (sc_tasks a)) t k' sid ↔ teardown_at (sc_tasks a) t k' sid) as Ht.
  { intros t k' sid. unfold teardown_at. destruct (decide (t = sc_next a)) as [->|]; [|by rewrite lookup_insert_ne].
    rewrite lookup_insert_eq, Hnew. naive_solver congruence. }
  split; simpl.
  - intros m t. rewrite lookup_insert_Some. intros [[<- _]|[_ H%(oo_fresh _ _ Ha)]]; lia.
  - intros m t. rewrite lookup_insert_Some. intros [[_ <-]|[_ H%(oo_conn _ _ Ha)]]; [|done].
    destruct Hk as [Hk|]; [|done]. by eapply (oo_open _ _ Ha).
  - by eapply oo_open.
  - intros m k' sid Hm%Ht. destruct (oo_latest _ _ Ha _ _ _ Hm) as (q & Hq & Hwq). exists q. split; [done|]. by apply waits_new.
  - intros m k' i. rewrite lookup_insert_Some. intros [[_ [= -> ->]]|[_ Hm]].
    + unfold stage_ok. destruct (job_stage i) as [[c st]|] eqn:E; [|done]. by rewrite (Hst _ _ eq_refl).
    + eapply stage_ok_mono; [| |by eapply (oo_stage _ _ Ha)]; [intros t sid _; apply Ht|eauto using waits_new].
  - apply torn_app; [|done]. intros m k' sid Hin. rewrite Ht. by apply (oo_torn _ _ Ha).
Qed.
(** Changes that leave the tasks alone. *)
Lemma order_frame a b tr out :
  sc_tasks b = sc_tasks a → sc_next b = sc_next a → (∀ n k sid, teardown_at (sc_tasks a) n k sid → latest b k sid = latest a k sid) →
  (∀ k, is_Some (sc_latest a !! k) → is_Some (sc_latest b !! k)) →
  (∀ k, sc_open b = Some k → is_Some (sc_latest b !! k)) → unscheduled out →
  order_ok a tr → order_ok b (tr ++ out).
Proof.
  intros Et En El Hc Ho Hout Ha. split; rewrite ?Et, ?En; try apply Ha; eauto using oo_conn.
  - intros n k sid Hn. rewrite (El _ _ _ Hn). by apply (oo_latest _ _ Ha).
  - apply torn_app; [|done]. apply (oo_torn _ _ Ha).
Qed.
Lemma order_drop a tr out n k j :
  order_ok a tr → sc_tasks a !! n = Some (Task k j) →
  (∀ sid known p, j ≠ JTeardown sid known (TdWait (Some p))) →
  (∀ sid, is_teardown j = Some sid → EvTornDown n sid ∈ out) → unscheduled out → order_ok (drop_task a n) (tr ++ out).
Proof.
  intros Ha Hn Hfree Htorn Hout.
  assert (∀ m t, t ≠ n → waits (sc_tasks a) m t → waits (delete n (sc_tasks a)) m t) as Hw.
  { intros m t Htn Hw. eapply waits_drop; [exact Hn| |done|done]. intros ???? E. injection E as _ ->. by eapply Hfree. }
  assert (∀ t k' sid, teardown_at (delete n (sc_tasks a)) t k' sid ↔ t ≠ n ∧ teardown_at (sc_tasks a) t k' sid) as Ht.
  { intros t k' sid. unfold teardown_at. destruct (decide (t = n)) as [->|]; [rewrite lookup_delete_eq; naive_solver|].
    rewrite lookup_delete_ne; naive_solver. }
  split; simpl.
  - intros m t [_ H]%lookup_delete_Some. by eapply oo_fresh.
  - intros m t [_ H]%lookup_delete_Some. by eapply oo_conn.
  - by eapply oo_open.
  - intros m k' sid [Hmn Hm]%Ht. destruct (oo_latest _ _ Ha _ _ _ Hm) as (q & Hq & Hwq). exists q. auto.
  - intros m k' i [_ H]%lookup_delete_Some.
    eapply stage_ok_mono; [| |by eapply (oo_stage _ _ Ha)]; [intros t sid _; rewrite Ht; naive_solver|].
    intros q t sid _ [Htn _]%Ht. by apply Hw.
  - intros m k' sid Hin. destruct (torn_app (sc_tasks a) tr out (oo_torn _ _ Ha) Hout m k' sid Hin) as [H|H]; [|by right].
    destruct (decide (m = n)) as [->|]; [|left; by apply Ht].
    right. destruct H as (i & Hi & Hs). rewrite Hn in Hi. injection Hi as _ <-. apply elem_of_app. auto.
Qed.
Lemma order_schedule a tr k sid known :
  order_ok a tr → known_conn a k →
  order_ok (put_latest (new_task a (Task k (JTeardown sid known (TdWait (latest a k sid)))))
              (<[k := <[sid := sc_next a]> (default ∅ (sc_latest a !! k))]> (sc_latest a)))
    (tr ++ [EvScheduled (sc_next a) k sid]).
Proof.
  intros Ha Hk. set (x := Task k _).
  assert (sc_tasks a !! sc_next a = None) as Hnew.
  { destruct (_ !! _) eqn:E; [|done]. apply (oo_fresh _ _ Ha) in E. lia. }
  assert (∀ t k' sid', teardown_at (<[sc_next a := x]> (sc_tasks a)) t k' sid' →
    (t = sc_next a ∧ k' = k ∧ sid' = sid) ∨ ((t < sc_next a)%nat ∧ teardown_at (sc_tasks a) t k' sid')) as Ht.
  { intros t k' sid' (j & Hj & Es). apply lookup_insert_Some in Hj as [[<- E]|[_ Hj]].
    - left. unfold x in E. injection E as <- <-. by injection Es as <-.
    - right. split; [by eapply (oo_fresh _ _ Ha)|by exists j]. }
  assert (∀ t k' sid', teardown_at (sc_tasks a) t k' sid' → teardown_at (<[sc_next a := x]> (sc_tasks a)) t k' sid') as Hback.
  { intros t k' sid' (j & Hj & Es). exists j. split; [|done]. rewrite lookup_insert_ne; [done|congruence]. }
  assert (∀ k', is_Some (sc_latest a !! k') → is_Some (<[k := <[sid := sc_next a]> (default ∅ (sc_latest a !! k))]> (sc_latest a) !! k')) as Hc.
  { intros k' H. destruct (decide (k' = k)) as [->|]; [by rewrite lookup_insert_eq|by rewrite lookup_insert_ne]. }
  split; simpl.
  - intros m t. rewrite lookup_insert_Some. intros [[<- _]|[_ H%(oo_fresh _ _ Ha)]]; lia.
  - intros m t. rewrite lookup_insert_Some. intros [[_ <-]|[_ H%(oo_conn _ _ Ha)]]; [|by apply Hc].
    simpl. by rewrite lookup_insert_eq.
  - intros k' H%(oo_open _ _ Ha). by apply Hc.
  - intros m k' sid' Hm. unfold latest. simpl. apply Ht in Hm as [(-> & -> & ->)|[Hlt Hm]].
    + rewrite lookup_insert_eq. simpl. exists (sc_next a). rewrite lookup_insert_eq. split; [done|].
      econstructor. by rewrite lookup_insert_eq.
    + destruct (oo_latest _ _ Ha _ _ _ Hm) as (q & Hq & Hw). unfold latest in Hq.
      destruct (decide (k' = k)) as [->|]; [|rewrite lookup_insert_ne; [|done]; exists q; eauto using waits_new].
      rewrite lookup_insert_eq. simpl.
      destruct (decide (sid' = sid)) as [->|]; [|rewrite lookup_insert_ne; [|done]; exists q; eauto using waits_new].
      exists (sc_next a). rewrite lookup_insert_eq. split; [done|].
      apply (WaitsPrevious _ _ k sid known q); [|by apply waits_new].
      rewrite lookup_insert_eq. unfold x, latest. by rewrite Hq.
  - intros m k' i. rewrite lookup_insert_Some. intros [[_ E]|[_ Hm]]; [unfold x in E; by injection E as <- <-|].
    eapply stage_ok_mono; [| |by eapply (oo_stage _ _ Ha)]; [|eauto using waits_new].
    intros t sid' Hlt [(-> & _ & _)|[_ H]]%Ht; [|done]. apply (oo_fresh _ _ Ha) in Hm. lia.
  - intros m k' sid' [Hin|Hin]%elem_of_app.
    + destruct (oo_torn _ _ Ha _ _ _ Hin); [left; auto|right; apply elem_of_app; auto].
    + apply list_elem_of_singleton in Hin. injection Hin as -> -> ->. left. exists (JTeardown sid known (TdWait (latest a k sid))).
      by rewrite lookup_insert_eq.
Qed.

Lemma guarded_over tasks n k sid after : over tasks after → guarded tasks n k sid after → guarded tasks n k sid None.
Proof.
  intros Ho Hg t Hlt Hat. destruct (Hg t Hlt Hat) as (m & E & Hw). apply waits_running in Hw.
  rewrite (Ho m E) in Hw. by destruct Hw.
Qed.
Lemma goes_on_ok a tr n k j j' :
  order_ok a tr → sc_tasks a !! n = Some (Task k j) → goes_on a k j j' →
  is_teardown j' = is_teardown j ∧ (∀ sid known p, j = JTeardown sid known (TdWait (Some p)) → sc_tasks a !! p = None)
  ∧ stage_ok (sc_tasks a) n k j'.
Proof.
  intros Ha Hn Hg. pose proof (oo_stage _ _ Ha _ _ _ Hn) as Hs. destruct Hg as [j j' c st st' Ej Ej' _ Hst|sid known previous Hov|j j' Ej Ej' Et Et'].
  - unfold stage_ok in *. rewrite Ej in Hs. rewrite Ej'.
    split_and!; [by destruct j, j'|intros ??? ->; simpl in *; congruence|]. destruct st as [|after|].
    + destruct Hst as [->| ->]; [done|]. intros t Hlt Hat. by apply (oo_latest _ _ Ha).
    + destruct Hst as [Hov ->]. by eapply guarded_over.
    + by subst.
  - split_and!; [done| |done]. intros ??? [= _ _ ->]. by apply Hov.
  - split_and!; [congruence|intros ??? ->; simpl in *; congruence|]. unfold stage_ok. by rewrite Ej'.
Qed.
Ltac order_frame a Ha := apply (order_frame a); [reflexivity|reflexivity|reflexivity|intros ?; exact id|apply Ha|..|exact Ha].
Lemma order_move a tr out b : order_ok a tr → move a out b → order_ok b (tr ++ out).
Proof.
  intros Ha Hm.
  destruct Hm as [a e He|a k Hk Ho|a k Hk|a|a k j Hk Hj _ Hst|a k sid known Hk|a k c j seen Hk _ Hr Hst|a c seen _|a sid|a sid id
    |a n k j j' Hn Hg|a n k c j j' Hn Hr Hr' Hst Hst'|a n k j Hn Hj|a n k sid known Hn];
    try (order_frame a Ha; intros ???; set_solver).
  - apply (order_frame a); [done|done| | |simpl; by rewrite Ho|intros ???; set_solver|done].
    + intros n k' sid _. unfold latest. simpl. destruct (decide (k' = k)) as [->|]; [|by rewrite lookup_insert_ne].
      by rewrite lookup_insert_eq, Hk.
    + intros k'. simpl. destruct (decide (k' = k)) as [->|]; [by rewrite lookup_insert_eq|by rewrite lookup_insert_ne].
  - apply (order_frame a); [done|done|done|intros ?; exact id|by intros k' [= <-]|intros ???; set_solver|done].
  - apply (order_frame a); [done|done|done|intros ?; exact id|by intros k' [=]|intros ???; set_solver|done].
  - apply order_new; [done|done|done|done|intros ???; set_solver].
  - by apply order_schedule.
  - apply (order_frame (new_task a (Task k j)) _ tr [EvAccepted _ c]);
      [done|done|done|intros ?; exact id|apply Ha|intros ???; set_solver|].
    rewrite <- (app_nil_r tr). apply order_new; [done|done| | |intros ???; set_solver]; [by destruct j|].
    intros c' st. rewrite Hst. by intros [= _ <-].
  - destruct (goes_on_ok _ _ _ _ _ _ Ha Hn Hg) as (Ht & Hf & Hs).
    eapply order_put; eauto. intros ???; set_solver.
  - eapply order_put; eauto; [by destruct j, j'|intros ??? ->; simpl in *; congruence| |intros ???; set_solver].
    pose proof (oo_stage _ _ Ha _ _ _ Hn) as Hs. unfold stage_ok in *. rewrite Hst'.
    destruct Hst as [Hst|(after & Hst & Hov)]; rewrite Hst in Hs; [done|]. by eapply guarded_over.
  - eapply order_drop; eauto; [intros ??? ->; simpl in *; congruence|by rewrite Hj|intros ???; set_solver].
  - assert (order_ok (drop_task a n) (tr ++ [EvTornDown n sid])) as Hd.
    { apply (order_drop a tr _ n k (JTeardown sid known TdKill)); [done|done|done| |intros ???; set_solver].
      intros sid' [= ->]. by apply list_elem_of_singleton. }
    case_decide as Hl; [|exact Hd]. rewrite <- (app_nil_r (tr ++ _)).
    set (v := <[k := delete sid (default ∅ (sc_latest a !! k))]> (sc_latest a)).
    assert (∀ k', is_Some (sc_latest a !! k') → is_Some (v !! k')) as Hkeep.
    { intros k' Hk'. unfold v. destruct (decide (k' = k)) as [->|]; [by rewrite lookup_insert_eq|by rewrite lookup_insert_ne]. }
    apply (order_frame (drop_task a n)); [done|done| |exact Hkeep| | |exact Hd]; simpl.
    + intros m k' sid' Hm. unfold latest, v. simpl. destruct (decide (k' = k)) as [->|]; [|by rewrite lookup_insert_ne].
      rewrite lookup_insert_eq. simpl. destruct (decide (sid' = sid)) as [->|]; [|by rewrite lookup_delete_ne].
      destruct Hm as (i & [Hmn Hm]%lookup_delete_Some & Hs).
      destruct (oo_latest _ _ Ha m k sid) as (q & Hq & Hw); [by exists i|].
      rewrite Hl in Hq. injection Hq as <-. inversion Hw; congruence.
    + intros k' Hk'%(oo_open _ _ Ha). by apply Hkeep.
    + intros ???. set_solver.
Qed.

(** ** Commands run once *)

Definition accepted_of (e : client_event) : option uuid :=
  match e with EvAccepted _ c => Some (cm_session c) | _ => None end.
Definition accepted_count (sid : uuid) (tr : list client_event) : nat :=
  length (filter (λ e, accepted_of e = Some sid) tr).
Definition accepted_ids (tr : list client_event) : list nat :=
  omap (λ e, match e with EvAccepted n _ => Some n | _ => None end) tr.
Definition run_ids (tr : list client_event) : list nat :=
  omap (λ e, match e with EvRun n _ _ => Some n | _ => None end) tr.
(** Nothing in [tr] makes the dedupe lose the command. *)
Definition kept (tr : list client_event) (sid id : uuid) : Prop :=
  (EvForgot sid ∉ tr) ∧ (EvDiscarded sid id ∉ tr) ∧ (accepted_count sid tr < DEDUPE_LIMIT)%nat.

Lemma snoc_split {A} (l : list A) e x f y :
  l ++ [e] = x ++ f :: y → (x = l ∧ f = e ∧ y = []) ∨ ∃ y', y = y' ++ [e] ∧ l = x ++ f :: y'.
Proof.
  induction y as [|z y' _] using rev_ind.
  - intros [-> ->]%app_inj_tail. by left.
  - rewrite app_comm_cons, app_assoc. intros [-> ->]%app_inj_tail. right. by exists y'.
Qed.
Lemma two_in {A} (l : list A) a b :
  a ∈ l → b ∈ l → a ≠ b → ∃ x y z, l = x ++ a :: y ++ b :: z ∨ l = x ++ b :: y ++ a :: z.
Proof.
  intros (x & y & ->)%list_elem_of_split Hb Hab.
  apply elem_of_app in Hb as [(x1 & x2 & ->)%list_elem_of_split|[->|(y1 & y2 & ->)%list_elem_of_split]%elem_of_cons]; [|done|].
  - exists x1, x2, y. right. by rewrite <- app_assoc.
  - exists x, y1, y2. by left.
Qed.
Lemma remove_first_keeps a id l1 l2 :
  a ≠ id → ∃ l1' l2', remove_first a (l1 ++ id :: l2) = l1' ++ id :: l2' ∧ (length l2' ≤ length l2)%nat.
Proof.
  intros Ha. induction l1 as [|x l1 IH]; simpl.
  - case_decide; [done|]. exists [], (remove_first a l2). split; [done|]. clear.
    induction l2 as [|y l2 IH]; simpl; [done|]. case_decide; simpl; lia.
  - case_decide; [by exists l1, l2|]. destruct IH as (l1' & l2' & -> & Hl). by exists (x :: l1'), l2'.
Qed.
Lemma duplicate_known d sid id seen l1 l2 :
  d !! sid = Some (l1 ++ id :: l2) → duplicate DEDUPE_LIMIT d sid id ≠ (seen, false).
Proof.
  intros E. unfold duplicate. rewrite E. simpl. rewrite decide_True; [done|]. set_solver.
Qed.
Lemma duplicate_keeps d sid id seen s l1 i l2 :
  duplicate DEDUPE_LIMIT d sid id = (seen, false) → d !! s = Some (l1 ++ i :: l2) →
  (s = sid → (length l2 + 1 < DEDUPE_LIMIT)%nat) →
  ∃ l1' l2', seen !! s = Some (l1' ++ i :: l2') ∧ (length l2' ≤ length l2 + if decide (s = sid) then 1 else 0)%nat.
Proof.
  unfold duplicate in *. case_decide as Hin; [done|]. intros [= <-] E Hlim.
  destruct (decide (s = sid)) as [->|]; [|rewrite lookup_insert_ne; [|done]; exists l1, l2; split; [done|lia]].
  rewrite lookup_insert_eq, E. simpl. rewrite <- app_assoc, <- app_comm_cons.
  exists (drop (length (l1 ++ i :: l2 ++ [id]) - DEDUPE_LIMIT) l1), (l2 ++ [id]). split; [|rewrite length_app; simpl; lia].
  f_equal. rewrite drop_app_le; [done|]. specialize (Hlim eq_refl). rewrite !length_app. simpl. rewrite length_app. simpl. lia.
Qed.

Definition seen_ok (seen : dedupe) (tr : list client_event) : Prop :=
  ∀ x n c y, tr = x ++ EvAccepted n c :: y → kept y (cm_session c) (cm_id c) →
    ∃ l1 l2, seen !! cm_session c = Some (l1 ++ cm_id c :: l2) ∧ (length l2 ≤ accepted_count (cm_session c) y)%nat.
Definition pairs_ok (tr : list client_event) : Prop :=
  ∀ x n1 c1 y n2 c2 z, tr = x ++ EvAccepted n1 c1 :: y ++ EvAccepted n2 c2 :: z →
    cm_session c1 = cm_session c2 → cm_id c1 = cm_id c2 → ¬ kept y (cm_session c1) (cm_id c1).

Lemma kept_snoc y e sid id : kept (y ++ [e]) sid id → kept y sid id ∧ e ≠ EvForgot sid ∧ e ≠ EvDiscarded sid id
  ∧ (accepted_of e = Some sid → (accepted_count sid y + 1 < DEDUPE_LIMIT)%nat).
Proof.
  unfold kept, accepted_count. rewrite !not_elem_of_app, !list_elem_of_singleton, list.filter_app, length_app.
  intros ((H1 & H2) & (H3 & H4) & H5). split_and!; [done|done|lia|by intros ->..|].
  intros He. rewrite filter_cons_True in H5 by done. simpl in H5. lia.
Qed.
Lemma accepted_count_snoc sid y e :
  accepted_count sid (y ++ [e]) = (accepted_count sid y + if decide (accepted_of e = Some sid) then 1 else 0)%nat.
Proof.
  unfold accepted_count. rewrite list.filter_app, length_app. f_equal. case_decide.
  - by rewrite filter_cons_True.
  - by rewrite filter_cons_False.
Qed.
(** What the events do to a known command. *)
Definition seen_after (seen : dedupe) (e : client_event) (seen' : dedupe) : Prop :=
  match e with
  | EvForgot sid => seen' = dedupe_forget seen sid
  | EvDiscarded sid id => seen' = discard seen sid id
  | EvAccepted _ c => duplicate DEDUPE_LIMIT seen (cm_session c) (cm_id c) = (seen', false)
  | _ => seen' = seen
  end.
Lemma seen_ok_snoc seen tr e seen' :
  seen_ok seen tr → seen_after seen e seen' → seen_ok seen' (tr ++ [e]).
Proof.
  unfold seen_ok. intros H He x n c y [(-> & <- & ->)|(y' & -> & E)]%snoc_split Hk.
  - simpl in He. unfold duplicate in He. case_decide; [done|]. injection He as <-.
    rewrite lookup_insert_eq. set (known := default [] _).
    exists (drop (length (known ++ [cm_id c]) - DEDUPE_LIMIT) known), []. split; [|simpl; lia]. f_equal.
    rewrite drop_app_le; [done|]. rewrite length_app. unfold DEDUPE_LIMIT. simpl. lia.
  - apply kept_snoc in Hk as (Hk & Hf & Hd & Hc). destruct (H x n c y' E Hk) as (l1 & l2 & Hl & Hlen).
    rewrite accepted_count_snoc. destruct e; simpl in He; subst; try (exists l1, l2; split; [done|lia]).
    + destruct (duplicate_keeps _ _ _ _ _ _ _ _ He Hl) as (l1' & l2' & Hl' & Hlen').
      { intros Es. simpl in Hc. rewrite Es in Hc. specialize (Hc eq_refl). rewrite Es in Hlen. lia. }
      exists l1', l2'. split; [done|]. simpl. repeat case_decide; congruence || lia.
    + exists l1, l2. unfold dedupe_forget. rewrite lookup_delete_ne by congruence. split; [done|lia].
    + unfold discard. destruct (decide (sid = cm_session c)) as [->|].
      * rewrite Hl. case_decide; [|exists l1, l2; split; [done|lia]].
        destruct (remove_first_keeps id (cm_id c) l1 l2) as (l1' & l2' & El & Hlen'); [congruence|].
        exists l1', l2'. rewrite lookup_insert_eq, El. split; [done|lia].
      * exists l1, l2. split; [|lia]. repeat case_match; by rewrite ?lookup_insert_ne by done.
Qed.
Lemma pairs_ok_snoc seen tr e seen' :
  seen_ok seen tr → pairs_ok tr → seen_after seen e seen' → pairs_ok (tr ++ [e]).
Proof.
  intros Hs H He x n1 c1 y n2 c2 z E Es Ei Hk. rewrite app_comm_cons, app_assoc in E.
  apply snoc_split in E as [(Ex & <- & ->)|(z' & -> & E)].
  - destruct (Hs x n1 c1 y (eq_sym Ex) Hk) as (l1 & l2 & Hl & _). simpl in He.
    rewrite Es, Ei in Hl. by eapply duplicate_known.
  - eapply (H x n1 c1 y n2 c2 z'); eauto. by rewrite E, <- app_assoc.
Qed.

(** Each task accepts at most one command, and runs at most that one, once. *)
Record runs_ok (a : sched) (tr : list client_event) : Prop := RunsOk {
  ro_fresh : ∀ n t, sc_tasks a !! n = Some t → (n < sc_next a)%nat;
  ro_new : ∀ n c, EvAccepted n c ∈ tr → (n < sc_next a)%nat;
  ro_once : ∀ n c c', EvAccepted n c ∈ tr → EvAccepted n c' ∈ tr → c = c';
  ro_job : ∀ n k j c b, sc_tasks a !! n = Some (Task k j) → job_runs j = Some (c, b) →
    EvAccepted n c ∈ tr ∧ (b = false → n ∉ run_ids tr);
  ro_run : ∀ n k c, EvRun n k c ∈ tr → EvAccepted n c ∈ tr;
  ro_runs : NoDup (run_ids tr)
}.
Lemma run_ids_in tr n : n ∈ run_ids tr ↔ ∃ k c, EvRun n k c ∈ tr.
Proof.
  unfold run_ids. rewrite list_elem_of_omap. split.
  - intros (e & He & E). destruct e; simplify_eq. eauto.
  - intros (k & c & He). by exists (EvRun n k c).
Qed.
Lemma run_ids_snoc tr e : (∀ n k c, e ≠ EvRun n k c) → run_ids (tr ++ [e]) = run_ids tr.
Proof. intros He. unfold run_ids. rewrite omap_app. destruct e; simpl; rewrite ?app_nil_r; naive_solver. Qed.
(** Changes that neither accept nor run a command. *)
Lemma runs_frame a b tr out :
  runs_ok a tr → (sc_next a ≤ sc_next b)%nat →
  (∀ n t, sc_tasks b !! n = Some t → (n < sc_next b)%nat) →
  (∀ n k j c st, sc_tasks b !! n = Some (Task k j) → job_runs j = Some (c, st) →
    ∃ k' j' st', sc_tasks a !! n = Some (Task k' j') ∧ job_runs j' = Some (c, st') ∧ (st = false → st' = false)) →
  (∀ n k c, (EvAccepted n c ∉ out) ∧ (EvRun n k c ∉ out)) → runs_ok b (tr ++ out).
Proof.
  intros Ha Hn Hf Hj Hout.
  assert (∀ n c, EvAccepted n c ∈ tr ++ out ↔ EvAccepted n c ∈ tr) as Hacc.
  { intros n c. rewrite elem_of_app. specialize (Hout n 0%nat c). naive_solver. }
  assert (∀ n k c, EvRun n k c ∈ tr ++ out ↔ EvRun n k c ∈ tr) as Hrun.
  { intros n k c. rewrite elem_of_app. specialize (Hout n k c). naive_solver. }
  assert (run_ids out = []) as Ho.
  { destruct (run_ids out) as [|n l] eqn:E; [done|]. exfalso.
    assert (n ∈ run_ids out) as (k & c & Hc)%run_ids_in by (rewrite E; left). by apply (Hout n k c). }
  assert (run_ids (tr ++ out) = run_ids tr) as Hids.
  { unfold run_ids in *. by rewrite omap_app, Ho, app_nil_r. }
  split; [done|..].
  - intros n c H%Hacc. apply (ro_new _ _ Ha) in H. lia.
  - intros n c c' H1%Hacc H2%Hacc. by eapply ro_once.
  - intros n k j c st H1 H2. destruct (Hj _ _ _ _ _ H1 H2) as (k' & j' & st' & H3 & H4 & Hst).
    rewrite Hacc, Hids. destruct (ro_job _ _ Ha _ _ _ _ _ H3 H4). auto.
  - intros n k c H%Hrun. apply Hacc. by apply (ro_run _ _ Ha) in H.
  - rewrite Hids. apply Ha.
Qed.
Lemma runs_accept a tr k c j seen :
  runs_ok a tr → sc_tasks a !! sc_next a = None → job_runs j = Some (c, false) →
  runs_ok (put_seen (new_task a (Task k j)) seen) (tr ++ [EvAccepted (sc_next a) c]).
Proof.
  intros Ha Hnew Hr.
  assert (∀ n c', EvAccepted n c' ∈ tr ++ [EvAccepted (sc_next a) c] ↔
    EvAccepted n c' ∈ tr ∨ n = sc_next a ∧ c' = c) as Hacc.
  { intros n c'. rewrite elem_of_app, list_elem_of_singleton. naive_solver. }
  split; simpl.
  - intros n t. rewrite lookup_insert_Some. intros [[<- _]|[_ H%(ro_fresh _ _ Ha)]]; lia.
  - intros n c' [H%(ro_new _ _ Ha)|[-> _]]%Hacc; lia.
  - intros n c1 c2 [H1|[E1 ->]]%Hacc [H2|[E2 ->]]%Hacc; [by eapply ro_once| | |done].
    + subst. apply (ro_new _ _ Ha) in H1. lia.
    + subst. apply (ro_new _ _ Ha) in H2. lia.
  - intros n k' i c' b. rewrite Hacc, run_ids_snoc by done. rewrite lookup_insert_Some.
    intros [[<- [= <- <-]]|[_ H]] Hi.
    + rewrite Hr in Hi. injection Hi as <- <-. split; [by right|]. intros _ (k' & c' & H)%run_ids_in.
      apply (ro_run _ _ Ha), (ro_new _ _ Ha) in H. lia.
    + destruct (ro_job _ _ Ha _ _ _ _ _ H Hi). auto.
  - intros n k' c' [H|H%list_elem_of_singleton]%elem_of_app; [|done]. apply Hacc. left. by apply (ro_run _ _ Ha) in H.
  - rewrite run_ids_snoc by done. apply Ha.
Qed.
Lemma runs_run a tr n k c j j' :
  runs_ok a tr → sc_tasks a !! n = Some (Task k j) → job_runs j = Some (c, false) → job_runs j' = Some (c, true) →
  runs_ok (put_task a n (Task k j')) (tr ++ [EvRun n k c]).
Proof.
  intros Ha Hn Hr Hr'. destruct (ro_job _ _ Ha _ _ _ _ _ Hn Hr) as [Hacc Hno]. specialize (Hno eq_refl).
  assert (run_ids (tr ++ [EvRun n k c]) = run_ids tr ++ [n]) as Hids by (unfold run_ids; by rewrite omap_app).
  assert (∀ m c', EvAccepted m c' ∈ tr ++ [EvRun n k c] ↔ EvAccepted m c' ∈ tr) as Ha'.
  { intros m c'. rewrite elem_of_app, list_elem_of_singleton. naive_solver. }
  split; simpl.
  - intros m t. rewrite lookup_insert_Some. intros [[<- _]|[_ H]]; by eapply (ro_fresh _ _ Ha).
  - intros m c' H%Ha'. by eapply (ro_new _ _ Ha).
  - intros m c1 c2 H1%Ha' H2%Ha'. by eapply (ro_once _ _ Ha).
  - intros m k' i c' b. rewrite Ha', Hids, lookup_insert_Some. intros [[<- [= <- <-]]|[Hne H]] Hi.
    + rewrite Hr' in Hi. injection Hi as <- <-. done.
    + destruct (ro_job _ _ Ha _ _ _ _ _ H Hi) as [H1 H2]. split; [done|]. intros Hb.
      rewrite not_elem_of_app, list_elem_of_singleton. auto.
  - intros m k' c' [H|H%list_elem_of_singleton]%elem_of_app; apply Ha'; [by apply (ro_run _ _ Ha) in H|].
    by injection H as -> _ ->.
  - rewrite Hids. apply list.NoDup_app. split_and!; [apply Ha|intros m Hm ->%list_elem_of_singleton; done|apply NoDup_singleton].
Qed.
Lemma runs_move a tr out b : runs_ok a tr → move a out b → runs_ok b (tr ++ out).
Proof.
  intros Ha Hm. assert (sc_tasks a !! sc_next a = None) as Hnew.
  { destruct (_ !! _) eqn:E; [|done]. apply (ro_fresh _ _ Ha) in E. lia. }
  destruct Hm as [a e He|a k Hk Ho|a k Hk|a|a k j Hk Hj Hr Hst|a k sid known Hk|a k c j seen Hk _ Hr Hst|a c seen _|a sid|a sid id
    |a n k j j' Hn Hg|a n k c j j' Hn Hr Hr' Hst Hst'|a n k j Hn Hj|a n k sid known Hn];
    try (apply (runs_frame a); [done|done|by apply Ha|eauto 10|set_solver]).
  - apply (runs_frame a); [done|simpl; lia| | |set_solver]; simpl.
    + intros n t. rewrite lookup_insert_Some. intros [[<- _]|[_ H%(ro_fresh _ _ Ha)]]; lia.
    + intros n k' i c st. rewrite lookup_insert_Some. intros [[<- [= -> ->]]|[_ H]] Hi; [congruence|eauto 10].
  - apply (runs_frame a); [done|simpl; lia| | |set_solver]; simpl.
    + intros n t. rewrite lookup_insert_Some. intros [[<- _]|[_ H%(ro_fresh _ _ Ha)]]; lia.
    + intros n k' i c st. rewrite lookup_insert_Some. intros [[<- [= -> <-]]|[_ H]] Hi; [done|eauto 10].
  - apply runs_accept; [done|done|]. done.
  - apply (runs_frame a); [done|done| | |set_solver]; simpl.
    + intros m t. rewrite lookup_insert_Some. intros [[<- _]|[_ H]]; by eapply (ro_fresh _ _ Ha).
    + intros m k' i c st. rewrite lookup_insert_Some. intros [[<- [= -> <-]]|[_ H]] Hi; [|eauto 10].
      destruct Hg as [j i c' s1 s2 E1 E2 Hruns _|sid known previous _|j i _ E1 _ _]; [|by simpl in Hi|by destruct i].
      rewrite Hi in Hruns. destruct Hruns as [E|[E1' E2']]; [by exists k', j, st|].
      injection E2' as <- ->. by exists k', j, false.
  - by apply runs_run with (j := j).
  - apply (runs_frame a); [done|done| | |set_solver]; simpl.
    + intros m t [_ H]%lookup_delete_Some. by eapply (ro_fresh _ _ Ha).
    + intros m k' i c st [_ H]%lookup_delete_Some Hi. eauto 10.
  - apply (runs_frame a); [done|done| | |set_solver]; simpl.
    + intros m t [_ H]%lookup_delete_Some. by eapply (ro_fresh _ _ Ha).
    + intros m k' i c st [_ H]%lookup_delete_Some Hi. eauto 10.
Qed.

(** ** The invariants together *)

Definition settled_runs (tr : list client_event) : Prop :=
  ∀ x n k c y t, tr = x ++ EvRun n k c :: y → EvScheduled t k (cm_session c) ∈ x → (t < n)%nat →
    EvTornDown t (cm_session c) ∈ x.
Record client_ok (a : sched) (tr : list client_event) : Prop := ClientOk {
  ck_order : order_ok a tr; ck_runs : runs_ok a tr;
  ck_settled : settled_runs tr; ck_seen : seen_ok (sc_seen a) tr; ck_pairs : pairs_ok tr
}.
Lemma duplicate_true d sid id seen : duplicate DEDUPE_LIMIT d sid id = (seen, true) → seen = d.
Proof.
  unfold duplicate. case_decide as Hin; [|done]. intros [= <-]. destruct (d !! sid) as [l|] eqn:E; simpl in *; [|set_solver].
  by apply insert_id.
Qed.
Lemma move_events a out b :
  move a out b → (out = [] ∧ sc_seen b = sc_seen a) ∨ ∃ e, out = [e] ∧ seen_after (sc_seen a) e (sc_seen b).
Proof.
  destruct 1; try (left; by split); try (right; eexists; split; [done|]; simpl; done).
  - right. exists e. split; [done|]. by destruct e.
  - left. split; [done|]. by eapply duplicate_true.
Qed.
Lemma settled_move a tr out b : order_ok a tr → settled_runs tr → move a out b → settled_runs (tr ++ out).
Proof.
  intros Ha Htr Hm. destruct (move_events _ _ _ Hm) as [[-> _]|(e & -> & _)]; [by rewrite app_nil_r|].
  intros x n k c y t [(-> & <- & ->)|(y' & -> & E)]%snoc_split Hin Hlt; [|by eapply Htr].
  inversion Hm as [? ? He| | | | | | | | | | |a' n' k' c' j j' Hn Hr Hr' Hst Hst'| |]; subst; [by destruct He|].
  destruct (oo_torn _ _ Ha _ _ _ Hin) as [Hat|]; [exfalso|done].
  pose proof (oo_stage _ _ Ha _ _ _ Hn) as Hs. unfold stage_ok in Hs.
  assert (guarded (sc_tasks a) n k (cm_session c) None) as Hg.
  { destruct Hst as [Hst|(after & Hst & Hov)]; rewrite Hst in Hs; [done|]. by eapply guarded_over. }
  destruct (Hg t Hlt Hat) as (m & E & _). done.
Qed.
Lemma client_move a tr out b : client_ok a tr → move a out b → client_ok b (tr ++ out).
Proof.
  intros [Ho Hr Hs Hd Hp] Hm. split; [by eapply order_move|by eapply runs_move|by eapply settled_move|..];
    destruct (move_events _ _ _ Hm) as [[-> E]|(e & -> & E)]; rewrite ?app_nil_r, ?E; try done.
  - by eapply seen_ok_snoc.
  - by eapply pairs_ok_snoc.
Qed.
Lemma client_start o : client_ok (sched_of (new_client o)) [].
Proof.
  split.
  - split; simpl; try done; [intros n k sid (j & Hj & _); done|intros n k sid H; by apply not_elem_of_nil in H].
  - split; simpl; try done; [intros n c H|intros n c c' H|intros n k c H|constructor]; by apply not_elem_of_nil in H.
  - intros x n k c y t E. by destruct x.
  - intros x n c y E. by destruct x.
  - intros x n1 c1 y n2 c2 z E. by destruct x.
Qed.
Lemma client_reach_ok cfg pc mt s tr : client_reach cfg pc mt s tr → client_ok (sched_of s) tr.
Proof. apply client_invariant; [apply client_move|apply client_start]. Qed.

(** C17: A command is given to the harness only after the guest of its session has been
    torn down: every teardown that the same connection had scheduled for the session
    before it took the command in has ended by then. *)
Theorem teardown_before_command cfg pc mt s x n k c y t :
  client_reach cfg pc mt s (x ++ EvRun n k c :: y) →
  EvScheduled t k (cm_session c) ∈ x → (t < n)%nat → EvTornDown t (cm_session c) ∈ x.
Proof. intros H%client_reach_ok. by eapply (ck_settled _ _ H). Qed.

(** C16: The worker gives a command to the harness once, over all its connections.  Each
    run belongs to a task that accepted the command, two runs belong to two tasks, and a
    command is accepted a second time only when in between the session was given up, or
    running the command raised, or 128 other commands of the session came. *)
Theorem commands_run_once cfg pc mt s x n1 k1 c1 y n2 k2 c2 z :
  let tr := x ++ EvRun n1 k1 c1 :: y ++ EvRun n2 k2 c2 :: z in
  let sid := cm_session c1 in
  client_reach cfg pc mt s tr → cm_session c2 = sid → cm_id c2 = cm_id c1 →
  n1 ≠ n2 ∧ ∃ x' m1 d1 y' m2 d2 z',
    tr = x' ++ EvAccepted m1 d1 :: y' ++ EvAccepted m2 d2 :: z'
    ∧ ((m1, d1, m2, d2) = (n1, c1, n2, c2) ∨ (m1, d1, m2, d2) = (n2, c2, n1, c1))
    ∧ (EvForgot sid ∈ y' ∨ EvDiscarded sid (cm_id c1) ∈ y' ∨ (128 ≤ accepted_count sid y')%nat).
Proof.
  intros tr sid H%client_reach_ok Es Ei.
  assert (n1 ≠ n2) as Hne.
  { intros <-. pose proof (ro_runs _ _ (ck_runs _ _ H)) as Hnd. revert Hnd. unfold tr, run_ids.
    rewrite omap_app. simpl. rewrite omap_app. simpl. rewrite list.NoDup_app, list.NoDup_cons. set_solver. }
  split; [done|].
  destruct (two_in tr (EvAccepted n1 c1) (EvAccepted n2 c2)) as (x' & y' & z' & [E|E]).
  - apply (ro_run _ _ (ck_runs _ _ H) n1 k1). unfold tr. set_solver.
  - apply (ro_run _ _ (ck_runs _ _ H) n2 k2). unfold tr. set_solver.
  - by intros [= -> _].
  - exists x', n1, c1, y', n2, c2, z'. split_and!; [done|by left|].
    pose proof (ck_pairs _ _ H _ _ _ _ _ _ _ E (eq_sym Es) (eq_sym Ei)) as Hk. fold sid in Hk.
    unfold kept, DEDUPE_LIMIT in Hk. destruct (decide (EvForgot sid ∈ y')); [by left|].
    destruct (decide (EvDiscarded sid (cm_id c1) ∈ y')); [by right; left|]. right. right.
    apply not_lt. intros Hlt. by apply Hk.
  - exists x', n2, c2, y', n1, c1, z'. split_and!; [done|by right|].
    pose proof (ck_pairs _ _ H _ _ _ _ _ _ _ E Es Ei) as Hk. rewrite Es, Ei in Hk.
    unfold kept, DEDUPE_LIMIT in Hk. destruct (decide (EvForgot sid ∈ y')); [by left|].
    destruct (decide (EvDiscarded sid (cm_id c1) ∈ y')); [by right; left|]. right. right.
    apply not_lt. intros Hlt. by apply Hk.
Qed.

(** ** Runs that are computed *)

Inductive client_op : Type :=
| OConnect (k : nat) (cursors : list (uuid * Z)) (revoked : list uuid)
| OReceive (m : api_msg)
| OTask (n : nat) (io : task_io)
| ODisconnect | OClosed
| OAppend (sid : uuid) (type : string)
| OGet (a : get_args) | OStored (proc : N) | OHook | OKillEnds.
Definition demo_pool : pool_config := PoolConfig 4 4 512 4096 "medium" None (λ _, None).
Definition pool_op (p : pool) (op : client_op) : option (pool * list pool_event) :=
  match op with
  | OGet a => match pl_lock p with
              | Free => if decide (0 ≤ session_mem demo_pool a) then Some (get_enter demo_pool p a 0) else None
              | _ => None end
  | OStored proc => match pl_lock p, pl_spawns p with
                    | Free, a :: rest => Some (store_proc demo_pool p a proc true 0 rest)
                    | _, _ => None end
  | OHook => match pl_kills p with
             | k :: rest => match kl_phase k with BeforeHook => Some (kill_hook p k rest) | _ => None end
             | [] => None end
  | OKillEnds => match pl_kills p with
                 | k :: rest => match kl_phase k with AfterHook => Some (kill_end p k rest false) | _ => None end
                 | [] => None end
  | _ => None
  end.
Lemma pool_op_step p op p' evs : pool_op p op = Some (p', evs) → pool_step demo_pool p evs p'.
Proof.
  destruct op; try done; cbn [pool_op].
  - destruct (pl_lock p) eqn:?; try done. case_decide; [|done]. intros E%(inj Some). by eapply StepGet.
  - destruct (pl_lock p) eqn:?; try done. destruct (pl_spawns p) as [|g l] eqn:?; [done|]. intros E%(inj Some).
    eapply (StepStored _ _ [] _ _ proc true 0); [done|eassumption|exact E].
  - destruct (pl_kills p) as [|k l] eqn:?; [done|]. destruct (kl_phase k) eqn:?; [|done]. intros E%(inj Some).
    eapply (StepHook _ _ []); [eassumption|done|exact E].
  - destruct (pl_kills p) as [|k l] eqn:?; [done|]. destruct (kl_phase k) eqn:?; [done|]. intros E%(inj Some).
    eapply (StepKillEnds _ _ [] _ _ false); [eassumption|done|exact E].
Qed.
Definition client_op_run (cfg : config) (s : client) (op : client_op) : option (client * list client_event) :=
  match op with
  | OConnect k cursors revoked =>
      match cl_open s, cl_closing s, cl_conns s !! k with
      | None, false, None => Some (welcome cfg s k SUPPORTED_FEATURES cursors revoked)
      | _, _, _ => None
      end
  | OReceive m => match cl_open s with Some k => Some (handle cfg s k m) | None => None end
  | OTask n io => match cl_tasks s !! n with Some t => task_step cfg s n t io | None => None end
  | ODisconnect => match cl_open s with Some _ => Some (disconnect s, []) | None => None end
  | OClosed => if cl_closing s then Some (with_open s None false, []) else None
  | OAppend sid type => Some (with_outbox s (append cfg (cl_outbox s) 0 true sid type [] None false).1, [])
  | _ => match pool_op (cl_pool s) op with
         | Some (p, evs) => Some (pool_hooks (with_pool s p) evs)
         | None => None
         end
  end.
Fixpoint client_ops_run (cfg : config) (s : client) (tr : list client_event) (ops : list client_op)
    : option (client * list client_event) :=
  match ops with
  | [] => Some (s, tr)
  | op :: ops => match client_op_run cfg s op with
                 | Some (s, out) => client_ops_run cfg s (tr ++ out) ops
                 | None => None
                 end
  end.
Lemma client_op_step cfg s op s' out :
  client_op_run cfg s op = Some (s', out) → client_step cfg demo_pool 4000 s out s'.
Proof.
  assert (∀ o : client_op, match pool_op (cl_pool s) o with Some (p, evs) => Some (pool_hooks (with_pool s p) evs) | None => None end
    = Some (s', out) → client_step cfg demo_pool 4000 s out s') as Hpool.
  { intros o. destruct (pool_op (cl_pool s) o) as [[p evs]|] eqn:E; [|done]. intros E'. injection E' as E'.
    eapply CsPool; [by eapply pool_op_step|done]. }
  destruct op; try apply Hpool; simpl.
  - destruct (cl_open s) eqn:Ho, (cl_closing s) eqn:Hc, (cl_conns s !! k) eqn:Hk; try done. intros E. injection E as E. by eapply CsConnect.
  - destruct (cl_open s) eqn:Ho; [|done]. intros E. injection E as E. by eapply CsReceive.
  - destruct (cl_tasks s !! n) eqn:Hn; [|done]. by eapply CsTask.
  - destruct (cl_open s) eqn:Ho; [|done]. intros E. injection E as <- <-. apply CsDisconnect. by rewrite Ho.
  - destruct (cl_closing s) eqn:Hc; [|done]. intros E. injection E as <- <-. by apply CsClosed.
  - intros E. injection E as <- <-. apply CsOutbox.
    destruct (append cfg (cl_outbox s) 0 true sid type [] None false) as [o r] eqn:E. by eapply OwnAppend.
Qed.
Lemma client_ops_reach cfg s tr ops s' tr' :
  client_reach cfg demo_pool 4000 s tr → client_ops_run cfg s tr ops = Some (s', tr') →
  client_reach cfg demo_pool 4000 s' tr'.
Proof.
  revert s tr. induction ops as [|op ops IH]; simpl; intros s tr Hr; [by intros [= <- <-]|].
  destruct (client_op_run cfg s op) as [[s1 out]|] eqn:E; [|done]. apply IH.
  eapply ClientStep; [done|by eapply client_op_step].
Qed.

Definition demo_cfg : config := Config 100 65536 100 65536 64 false.
Definition io_yes : task_io := TaskIo true RunDone false 0.
Definition io_no : task_io := TaskIo false RunDone false 0.
Definition demo_command (op : string) (id lease : uuid) (cursor : Z) : command := Command op 7%N id lease (Some cursor).
Definition first_turn : command := demo_command "turn.start" 1%N 21%N 0.
Definition second_turn : command := demo_command "turn.continue" 2%N 21%N 0.
Definition demo_get : get_args := GetArgs 7%N true None None None None None "off" false None None None None.
(** Connection 0: a turn that leaves its agent running. *)
Definition first_turn_ops : list client_op :=
  [OConnect 0 [] []; OReceive (ACommand first_turn);
   OTask 0 io_yes; OTask 0 io_yes; OTask 0 io_yes; OGet demo_get; OStored 5%N; OTask 0 io_yes; OTask 0 io_yes].

(** Then a second turn is taken in, and the connection ends before its ack is sent.  On
    the next connection the API sends the command again. *)
Definition lost_ops : list client_op := first_turn_ops ++
  [OReceive (ACommand second_turn); OTask 1 io_yes; OTask 1 io_yes; ODisconnect; OTask 1 io_no; OTask 1 io_yes; OClosed;
   OConnect 1 [(7%N, 0)] []; OReceive (ACommand second_turn); OTask 2 io_yes; OTask 2 io_yes; OTask 2 io_yes].
Definition lost_run : option (client * list client_event) :=
  client_ops_run demo_cfg (new_client (init_outbox ∅)) [] lost_ops.
Definition never_run (c : command) (tr : list client_event) : bool :=
  forallb (λ e, match e with EvRun _ _ d => bool_decide (d ≠ c) | _ => true end) tr.
Lemma never_run_not_in c tr n k : never_run c tr = true → EvRun n k c ∉ tr.
Proof.
  unfold never_run. rewrite forallb_forall. intros H Hin%list_elem_of_In. apply H in Hin. by case_bool_decide.
Qed.
Lemma client_demo_reach ops s tr :
  client_ops_run demo_cfg (new_client (init_outbox ∅)) [] ops = Some (s, tr) → client_reach demo_cfg demo_pool 4000 s tr.
Proof. apply client_ops_reach. constructor. apply init_outbox_ok. Qed.
Lemma lost_run_ok : ∃ s tr, lost_run = Some (s, tr)
  ∧ bool_decide (EvAccepted 1 second_turn ∈ tr) && bool_decide (EvAcked second_turn ∈ tr) && never_run second_turn tr
    && bool_decide (cl_leases s !! 7%N = Some 21%N) && alive (cl_pool s) 7%N = true
  ∧ cl_tasks s = ∅.
Proof. vm_compute. eexists _, _. split_and!; reflexivity. Qed.
(** A command may be lost although it is acked.  When the ack of a command cannot be
    sent the command is not run, but the dedupe keeps it if the agent of the session is
    alive; the retransmit on the next connection is acked and not run either.  The
    session keeps its lease and its agent, and nothing is left to do. *)
Theorem acked_command_lost :
  ∃ s tr, client_reach demo_cfg demo_pool 4000 s tr
    ∧ EvAccepted 1 second_turn ∈ tr ∧ EvAcked second_turn ∈ tr ∧ (∀ n k, EvRun n k second_turn ∉ tr)
    ∧ cl_tasks s = ∅ ∧ cl_leases s !! cm_session second_turn = Some (cm_lease second_turn)
    ∧ alive (cl_pool s) (cm_session second_turn) = true.
Proof.
  destruct lost_run_ok as (s & tr & Hrun & Hb & Ht). exists s, tr.
  rewrite !andb_true_iff, !bool_decide_eq_true in Hb. destruct Hb as ((((H1 & H2) & H3) & H4) & H5).
  split_and!; [by apply (client_demo_reach lost_ops)|done|done|intros; by apply never_run_not_in|done|done|done].
Qed.

(** A revoke comes; before the guest has ended the connection is lost, and on the next
    one the session comes back with a new lease. *)
Definition third_turn : command := demo_command "turn.start" 3%N 22%N 5.
Definition stale_ops : list client_op := first_turn_ops ++
  [OReceive (ARevoke [7%N]); OTask 1 io_yes; ODisconnect; OClosed; OConnect 1 [] []; OReceive (ACommand third_turn);
   OTask 2 io_yes; OTask 2 io_yes; OTask 2 io_yes; OAppend 7%N "agent.event"; OHook; OKillEnds].
Definition stale_run : option (client * list client_event) :=
  client_ops_run demo_cfg (new_client (init_outbox ∅)) [] stale_ops.
Definition torn_down_on (k : nat) (tr : list client_event) : bool :=
  existsb (λ e, match e with EvScheduled _ k' _ => bool_decide (k' = k) | _ => false end) tr.
Definition in_dispatch (s : client) (n : nat) (c : command) : bool :=
  match cl_tasks s !! n with Some (Task _ (JCommand d _ CmRun)) => bool_decide (d = c) | _ => false end.
Definition stale_checks (s : client) (tr : list client_event) (s' : client) (out : list client_event) : bool :=
  bool_decide (EvRun 2 1 third_turn ∈ tr) && negb (torn_down_on 1 (tr ++ out))
  && in_dispatch s' 2 third_turn && bool_decide (cl_leases s' !! 7%N = Some 22%N)
  && bool_decide (Outbox.seq_of <$> pending (cl_outbox s) 7%N 0 = [6])
  && bool_decide (Outbox.seq_of <$> pending (cl_outbox s') 7%N 0 = [])
  && bool_decide (high_water (cl_outbox s') 7%N = 0).
Lemma stale_run_ok : match stale_run with
  | Some (s, tr) => match client_op_run demo_cfg s (OTask 1 io_yes) with
                    | Some (s', out) => stale_checks s tr s' out
                    | None => false end
  | None => false end = true.
Proof. vm_compute. reflexivity. Qed.
(** The teardown of an earlier connection is not waited for.  A turn of the session
    under a new lease may be running on the next connection, on which no teardown was
    scheduled, when the old teardown ends: it drops what the turn has buffered, and the
    numbering of the session starts over, although the turn goes on and the lease is held. *)
Theorem stale_teardown_drops_turn :
  ∃ s tr s' out, client_reach demo_cfg demo_pool 4000 s tr ∧ client_step demo_cfg demo_pool 4000 s out s'
    ∧ EvRun 2 1 third_turn ∈ tr ∧ (∀ n sid, EvScheduled n 1 sid ∉ tr ++ out)
    ∧ in_dispatch s' 2 third_turn = true ∧ cl_leases s' !! cm_session third_turn = Some (cm_lease third_turn)
    ∧ Outbox.seq_of <$> pending (cl_outbox s) (cm_session third_turn) 0 = [6]
    ∧ pending (cl_outbox s') (cm_session third_turn) 0 = [] ∧ high_water (cl_outbox s') (cm_session third_turn) = 0.
Proof.
  pose proof stale_run_ok as Hb. destruct stale_run as [[s tr]|] eqn:Hrun; [|done].
  destruct (client_op_run demo_cfg s (OTask 1 io_yes)) as [[s' out]|] eqn:Hop; [|done]. exists s, tr, s', out.
  unfold stale_checks in Hb. rewrite !andb_true_iff, !bool_decide_eq_true, negb_true_iff in Hb.
  destruct Hb as ((((((H1 & H2) & H3) & H4) & H5) & H6) & H7).
  split_and!; [by apply (client_demo_reach stale_ops)|by eapply client_op_step|done| |done|done|done|by eapply fmap_nil_inv|done].
  intros n sid Hin. apply not_true_iff_false in H2. apply H2. apply existsb_exists.
  exists (EvScheduled n 1 sid). split; [by apply list_elem_of_In|]. by apply bool_decide_eq_true.
Qed.

(** A revoke, and another command of the session on the same connection. *)
Definition torn_ops (c : command) : list client_op := first_turn_ops ++
  [OReceive (ARevoke [7%N]); OReceive (ACommand c); OTask 2 io_yes; OTask 1 io_yes; OHook; OKillEnds;
   OTask 1 io_yes; OTask 2 io_yes; OTask 2 io_yes].
Definition torn_trace (c : command) : list client_event :=
  [EvAccepted 0 first_turn; EvAcked first_turn; EvRun 0 0 first_turn; EvForgot 7%N; EvScheduled 1 0 7%N;
   EvAccepted 2 c; EvTornDown 1 7%N; EvAcked c; EvRun 2 0 c].
Definition torn_run (c : command) : option (client * list client_event) :=
  client_ops_run demo_cfg (new_client (init_outbox ∅)) [] (torn_ops c).
Lemma torn_run_ok :
  match torn_run third_turn, torn_run first_turn with
  | Some (_, tr), Some (_, tr') => bool_decide (tr = torn_trace third_turn) && bool_decide (tr' = torn_trace first_turn)
  | _, _ => false
  end = true.
Proof. vm_compute. reflexivity. Qed.
Lemma torn_reach c : c = third_turn ∨ c = first_turn → ∃ s, client_reach demo_cfg demo_pool 4000 s (torn_trace c).
Proof.
  pose proof torn_run_ok as Hb. destruct (torn_run third_turn) as [[s tr]|] eqn:E1; [|done].
  destruct (torn_run first_turn) as [[s' tr']|] eqn:E2; [|done].
  rewrite andb_true_iff, !bool_decide_eq_true in Hb. destruct Hb as [-> ->].
  intros [-> | ->]; eexists; by eapply client_demo_reach.
Qed.
Lemma teardown_before_command_witness :
  ∃ s, client_reach demo_cfg demo_pool 4000 s (torn_trace third_turn)
    ∧ EvTornDown 1 7%N ∈ take 8 (torn_trace third_turn).
Proof.
  destruct (torn_reach third_turn (or_introl eq_refl)) as [s Hs]. exists s. split; [exact Hs|].
  refine (teardown_before_command demo_cfg demo_pool 4000 s (take 8 (torn_trace third_turn)) 2 0 third_turn [] 1 Hs _ _).
  - apply (bool_decide_unpack (EvScheduled 1 0 (cm_session third_turn) ∈ take 8 (torn_trace third_turn))). exact I.
  - lia.
Defined.
Lemma commands_run_once_witness :
  (∃ s, client_reach demo_cfg demo_pool 4000 s (torn_trace first_turn)) ∧ 0%nat ≠ 2%nat.
Proof.
  destruct (torn_reach first_turn (or_intror eq_refl)) as [s Hs]. split; [by exists s|].
  exact (proj1 (commands_run_once demo_cfg demo_pool 4000 s (take 2 (torn_trace first_turn)) 0 0 first_turn
    [EvForgot 7%N; EvScheduled 1 0 7%N; EvAccepted 2 first_turn; EvTornDown 1 7%N; EvAcked first_turn]
    2 0 first_turn [] Hs eq_refl eq_refl)).
Defined.
