(* ===== verification/EventStream.v ===== *)
(** * The stream of a session's events (src/src/apipi/common/event_bus.py,
    services/session_events.py, services/sessions.py)

    A replica of the API stores events in transactions; what a transaction stored is
    published once it has committed, one body after the other, by the task that ran it.
    [LocalFanout] puts the bodies into the queues of the replica's streams; from other
    replicas come wakes, which may be lost.  A stream ([iter_session_events]) is a
    generator, cut at its awaits and its yields. *)

From S2P Require Import Prelude PyStd Protocol Db TurnState.
From stdpp Require Import sorting.

Open Scope Z_scope.

(** ** The fan-out within a replica (common/event_bus.py) *)

(** What a queue holds: a wake, the body of a stored event, or a live one. *)
Inductive message : Type :=
| MWake (seq : Z)
| MBody (e : event_row)
| MLive (type : string) (data : list (string * json)).
Definition message_seq (m : message) : option Z :=
  match m with MWake n => Some n | MBody e => Some (e_seq e) | MLive _ _ => None end.
(** `LocalFanout`; the numbers stand for the queue objects. *)
Record fanout : Type := Fanout { fo_subs : gmap uuid (list nat); fo_queues : gmap nat (list message); fo_next : nat }.
Definition new_fanout : fanout := Fanout ∅ ∅ 0.
Definition subscribe (f : fanout) (sid : uuid) : fanout * nat :=
  let q := fo_next f in
  (Fanout (<[sid := default [] (fo_subs f !! sid) ++ [q]]> (fo_subs f)) (<[q := []]> (fo_queues f)) (S q), q).
Fixpoint remove_queue (q : nat) (l : list nat) : list nat :=
  match l with [] => [] | x :: l => if decide (x = q) then l else x :: remove_queue q l end.
Definition unsubscribe (f : fanout) (sid : uuid) (q : nat) : fanout :=
  match fo_subs f !! sid with
  | None => f
  | Some subs =>
      let subs := remove_queue q subs in
      Fanout (if decide (subs = []) then delete sid (fo_subs f) else <[sid := subs]> (fo_subs f)) (fo_queues f) (fo_next f)
  end.
(** `put_nowait` *)
Definition put_message (m : message) (queues : gmap nat (list message)) (q : nat) : gmap nat (list message) :=
  alter (λ l, l ++ [m]) q queues.
(** `_dispatch` *)
Definition dispatch (f : fanout) (sid : uuid) (m : message) : fanout :=
  Fanout (fo_subs f) (foldl (put_message m) (fo_queues f) (default [] (fo_subs f !! sid))) (fo_next f).

(** ** Reading the stored events (store/repo.py) *)

Definition seq_le (a b : event_row) : Prop := e_seq a ≤ e_seq b.
#[global] Instance seq_le_dec a b : Decision (seq_le a b).
Proof. unfold seq_le. apply _. Defined.
Definition list_events (d : db) (tenant sid : uuid) (after_seq : option Z) : list event_row :=
  let found := session_events d tenant sid in
  merge_sort seq_le (match after_seq with Some n => filter (λ e, n < e_seq e) found | None => found end).

(** ** The stream (services/sessions.py) *)

Definition STREAM_END : list string := ["agent.session.failed"]%string.
Definition stream_ended (type : string) : bool := bool_decide (type ∈ STREAM_END).
Inductive yielded : Type :=
| YBody (e : event_row)
| YLive (type : string) (data : list (string * json))
| YPing.
Inductive stream_phase : Type :=
| SmStart                                   (* about to read what is stored *)
| SmReplay (rest : list event_row)
| SmWait                                    (* in `queue.get()` *)
| SmRead (poll : bool)                      (* about to read what is new; [poll]: after a timeout *)
| SmNew (poll : bool) (rest : list event_row)
| SmPing                                    (* a ping is due *)
| SmEnded.
Record stream : Type := Stream {
  sm_tenant : uuid; sm_session : uuid; sm_after : option Z; sm_ping : bool; sm_interval : Z;
  sm_queue : nat; sm_last : Z; sm_ping_at : Z; sm_phase : stream_phase; sm_out : list yielded
}.
Definition set_phase (s : stream) (ph : stream_phase) : stream :=
  Stream (sm_tenant s) (sm_session s) (sm_after s) (sm_ping s) (sm_interval s) (sm_queue s) (sm_last s) (sm_ping_at s) ph (sm_out s).
Definition set_last (s : stream) (last : Z) : stream :=
  Stream (sm_tenant s) (sm_session s) (sm_after s) (sm_ping s) (sm_interval s) (sm_queue s) last (sm_ping_at s) (sm_phase s) (sm_out s).
Definition set_ping_at (s : stream) (t : Z) : stream :=
  Stream (sm_tenant s) (sm_session s) (sm_after s) (sm_ping s) (sm_interval s) (sm_queue s) (sm_last s) t (sm_phase s) (sm_out s).
Definition add_out (s : stream) (y : yielded) : stream :=
  Stream (sm_tenant s) (sm_session s) (sm_after s) (sm_ping s) (sm_interval s) (sm_queue s) (sm_last s) (sm_ping_at s) (sm_phase s) (sm_out s ++ [y]).
Definition PING_AFTER : Z := 15000.
(** Up to the first read; [interval], in milliseconds, is that of the fallback poll. *)
Definition stream_open (f : fanout) (tenant sid : uuid) (after_seq : option Z) (ping : bool) (interval : Z) : fanout * stream :=
  let '(f, q) := subscribe f sid in
  (f, Stream tenant sid after_seq ping (Z.max interval 10) q (default 0 after_seq) 0 SmStart []).
(** `last = event.seq`, the yield, and the check of its end. *)
Definition yield_event (f : fanout) (s : stream) (e : event_row) (next : stream_phase) : fanout * stream :=
  let s := add_out (set_last s (e_seq e)) (YBody e) in
  if stream_ended (e_type e) then (unsubscribe f (sm_session s) (sm_queue s), set_phase s SmEnded)
  else (f, set_phase s next).
(** The end of the loop over what a read returned. *)
Definition after_read (s : stream) (poll : bool) : stream :=
  if poll then
    let at_ := sm_ping_at s + sm_interval s in
    if sm_ping s && (PING_AFTER <=? at_) then set_phase (set_ping_at s 0) SmPing
    else set_phase (set_ping_at s at_) SmWait
  else set_phase (set_ping_at s 0) SmWait.
(** What `queue.get()` returned. *)
Definition take_message (f : fanout) (s : stream) (m : message) : fanout * stream :=
  match m with
  | MWake n => if n <=? sm_last s then (f, s) else (f, set_phase s (SmRead false))
  | MLive type data => (f, add_out (set_ping_at s 0) (YLive type data))
  | MBody e => if e_seq e <=? sm_last s then (f, set_ping_at s 0) else yield_event f (set_ping_at s 0) e SmWait
  end.
Inductive stream_op : Set := SoGo | SoTimeout | SoClose.
#[global] Instance stream_op_eq_dec : EqDecision stream_op.
Proof. solve_decision. Defined.
(** One step of the generator; [None]: it cannot happen now. *)
Definition stream_step (d : db) (f : fanout) (s : stream) (op : stream_op) : option (fanout * stream) :=
  match op, sm_phase s with
  | _, SmEnded => None
  | SoClose, _ => Some (unsubscribe f (sm_session s) (sm_queue s), set_phase s SmEnded)
  | SoTimeout, SmWait =>
      match fo_queues f !! sm_queue s with Some (_ :: _) => None | _ => Some (f, set_phase s (SmRead true)) end
  | SoTimeout, _ => None
  | SoGo, SmStart => Some (f, set_phase s (SmReplay (list_events d (sm_tenant s) (sm_session s) (sm_after s))))
  | SoGo, SmReplay (e :: rest) => Some (yield_event f s e (SmReplay rest))
  | SoGo, SmReplay [] => Some (f, set_phase s SmWait)
  | SoGo, SmWait =>
      match fo_queues f !! sm_queue s with
      | Some (m :: rest) =>
          Some (take_message (Fanout (fo_subs f) (<[sm_queue s := rest]> (fo_queues f)) (fo_next f)) s m)
      | _ => None
      end
  | SoGo, SmRead poll =>
      Some (f, set_phase s (SmNew poll (list_events d (sm_tenant s) (sm_session s) (Some (sm_last s)))))
  | SoGo, SmNew poll (e :: rest) => Some (yield_event f s e (SmNew poll rest))
  | SoGo, SmNew poll [] => Some (f, after_read s poll)
  | SoGo, SmPing => Some (f, add_out (set_phase s SmWait) YPing)
  end.

(** ** A replica with its streams *)

(** [bs_publishers]: the tasks that still have bodies to publish, after their commits. *)
Record replica : Type := Replica {
  bs_db : db; bs_fan : fanout; bs_streams : gmap nat stream; bs_publishers : gmap nat (list event_row)
}.
Definition with_fan (r : replica) (f : fanout) : replica := Replica (bs_db r) f (bs_streams r) (bs_publishers r).
Definition set_stream (r : replica) (f : fanout) (i : nat) (s : stream) : replica :=
  Replica (bs_db r) f (<[i := s]> (bs_streams r)) (bs_publishers r).

(** The events a transaction stores, of one session or several, with what it publishes. *)
Fixpoint persist_all (owner : uuid → uuid) (d : db) (now : Z) (l : list (uuid * uuid * string * list (string * json)))
    : res exn (db * list publication) :=
  match l with
  | [] => Ok (d, [])
  | (sid, eid, type, data) :: l =>
      '(d, p1) ← persist_event d now eid (owner sid) sid type data;
      '(d, p2) ← persist_all owner d now l;
      Ok (d, p1 ++ p2)
  end.
Definition stored_of (l : list publication) : list event_row :=
  omap (λ p, match p with PubStored e => Some e | PubLive _ _ _ => None end) l.

(** [owner]: the tenant of each session. *)
Inductive replica_step (owner : uuid → uuid) : replica → replica → Prop :=
| RsOpen r i sid after ping interval f s :
    bs_streams r !! i = None → stream_open (bs_fan r) (owner sid) sid after ping interval = (f, s) →
    replica_step owner r (set_stream r f i s)
| RsStream r i s op f s' :
    bs_streams r !! i = Some s → stream_step (bs_db r) (bs_fan r) s op = Some (f, s') →
    replica_step owner r (set_stream r f i s')
| RsCommit r now l d pubs j :     (* a transaction of this replica *)
    persist_all owner (bs_db r) now l = Ok (d, pubs) → bs_publishers r !! j = None →
    replica_step owner r (Replica d (bs_fan r) (bs_streams r) (<[j := stored_of pubs]> (bs_publishers r)))
| RsRemote r now l d pubs :       (* a transaction of another replica *)
    persist_all owner (bs_db r) now l = Ok (d, pubs) →
    replica_step owner r (Replica d (bs_fan r) (bs_streams r) (bs_publishers r))
| RsPublish r j e rest :
    bs_publishers r !! j = Some (e :: rest) →
    replica_step owner r (Replica (bs_db r) (dispatch (bs_fan r) (e_session e) (MBody e)) (bs_streams r)
                            (<[j := rest]> (bs_publishers r)))
| RsWake r sid e :                    (* from another replica *)
    e ∈ session_events (bs_db r) (owner sid) sid →
    replica_step owner r (with_fan r (dispatch (bs_fan r) sid (MWake (e_seq e))))
| RsLive r sid type data : replica_step owner r (with_fan r (dispatch (bs_fan r) sid (MLive type data))).
Inductive replica_reach (owner : uuid → uuid) (d : db) : replica → Prop :=
| ReplicaStart : replica_reach owner d (Replica d new_fanout ∅ ∅)
| ReplicaStep r r' : replica_reach owner d r → replica_step owner r r' → replica_reach owner d r'.

(** In order: every transaction is one of this replica, and of the bodies of a session
    that are to be published the oldest is published first. *)
Definition oldest (r : replica) (e : event_row) : Prop :=
  ∀ j l e', bs_publishers r !! j = Some l → e' ∈ l → e_session e' = e_session e → e_seq e ≤ e_seq e'.
Inductive ordered_step (owner : uuid → uuid) : replica → replica → Prop :=
| OsOpen r i sid after ping interval f s :
    bs_streams r !! i = None → stream_open (bs_fan r) (owner sid) sid after ping interval = (f, s) →
    ordered_step owner r (set_stream r f i s)
| OsStream r i s op f s' :
    bs_streams r !! i = Some s → stream_step (bs_db r) (bs_fan r) s op = Some (f, s') →
    ordered_step owner r (set_stream r f i s')
| OsCommit r now l d pubs j :
    persist_all owner (bs_db r) now l = Ok (d, pubs) → bs_publishers r !! j = None →
    ordered_step owner r (Replica d (bs_fan r) (bs_streams r) (<[j := stored_of pubs]> (bs_publishers r)))
| OsPublish r j e rest :
    bs_publishers r !! j = Some (e :: rest) → oldest r e →
    ordered_step owner r (Replica (bs_db r) (dispatch (bs_fan r) (e_session e) (MBody e)) (bs_streams r)
                            (<[j := rest]> (bs_publishers r)))
| OsWake r sid e :
    e ∈ session_events (bs_db r) (owner sid) sid →
    ordered_step owner r (with_fan r (dispatch (bs_fan r) sid (MWake (e_seq e))))
| OsLive r sid type data : ordered_step owner r (with_fan r (dispatch (bs_fan r) sid (MLive type data))).
Inductive ordered_reach (owner : uuid → uuid) (d : db) : replica → Prop :=
| OrderedStart : ordered_reach owner d (Replica d new_fanout ∅ ∅)
| OrderedStep r r' : ordered_reach owner d r → ordered_step owner r r' → ordered_reach owner d r'.
