(* ===== verification/EventStreamProps.v ===== *)
(** * Properties of the stream of a session's events

    What a stream yields of the stored events is in order and without repetition on
    every replica ([stream_in_order]); it is without gaps when the bodies are published
    in the order of their numbers ([stream_gapless]), and not otherwise
    ([stream_skips_event]); a poll brings a stream that waits up to date
    ([stream_catches_up]). *)

From S2P Require Import Prelude PyStd Protocol Db TurnState IngestSpec EventStream.
From stdpp Require Import sorting.

Open Scope Z_scope.

(** ** Numbered events *)

Abbreviation numbered := (StronglySorted (λ a b : event_row, e_seq a < e_seq b)).
(** The events of [l] above [a], up to [b]. *)
Definition slice (a b : Z) (l : list event_row) : list event_row := filter (λ e, a < e_seq e ≤ b) l.
Definition above (a : Z) (l : list event_row) : list event_row := filter (λ e, a < e_seq e) l.

Lemma numbered_seqs l : numbered l ↔ StronglySorted Z.lt (e_seq <$> l).
Proof.
  induction l as [|e l IH]; [split; constructor|]. cbn. split.
  - intros [H1 H2]%StronglySorted_inv. constructor; [by apply IH|]. apply Forall_fmap. exact H2.
  - intros [H1 H2]%StronglySorted_inv. constructor; [by apply IH|]. by apply (Forall_fmap e_seq) in H2.
Qed.
Lemma seqZ_sorted a n : StronglySorted Z.lt (seqZ a (Z.of_nat n)).
Proof.
  revert a. induction n as [|n IH]; intros a; [constructor|].
  rewrite Nat2Z.inj_succ, seqZ_cons by lia. rewrite Z.pred_succ. constructor; [apply IH|].
  apply list.Forall_forall. intros x [H _]%elem_of_seqZ. lia.
Qed.
Lemma session_numbered d tenant sid : db_ok d → numbered (session_events d tenant sid).
Proof. intros H. apply numbered_seqs. rewrite (ok_numbers _ H). apply seqZ_sorted. Qed.

Lemma numbered_filter P `{!∀ x, Decision (P x)} l : numbered l → numbered (filter P l).
Proof.
  induction 1 as [|e l Hs IH Hf]; [constructor|]. rewrite filter_cons. case_decide; [|done].
  constructor; [done|]. rewrite list.Forall_forall in *. intros x [_ Hx]%list_elem_of_filter. auto.
Qed.
#[global] Instance seq_le_trans : Transitive seq_le.
Proof. intros x y z. unfold seq_le. lia. Qed.
#[global] Instance seq_le_total : Total seq_le.
Proof. intros x y. unfold seq_le. lia. Qed.
Lemma numbered_sort l : numbered l → merge_sort seq_le l = l.
Proof.
  intros Hl. apply (StronglySorted_unique_strong seq_le).
  - intros x y Hx Hy Hxy Hyx. rewrite merge_sort_Permutation in Hx. assert (e_seq x = e_seq y) as E by (unfold seq_le in *; lia).
    clear -Hl Hx Hy E. induction Hl as [|e l Hs IH Hf]; [by apply not_elem_of_nil in Hx|].
    rewrite list.Forall_forall in Hf.
    apply elem_of_cons in Hx as [->|Hx], Hy as [->|Hy]; [done|apply Hf in Hy; lia|apply Hf in Hx; lia|].
    by apply IH.
  - apply (StronglySorted_merge_sort seq_le); apply _.
  - eapply StronglySorted_ind; [constructor| |exact Hl]. intros a l' _ IH Hf. constructor; [done|].
    eapply list.Forall_impl; [exact Hf|]. unfold seq_le. cbn. intros. lia.
  - apply merge_sort_Permutation.
Qed.
Lemma list_events_above d tenant sid n :
  db_ok d → list_events d tenant sid (Some n) = above n (session_events d tenant sid).
Proof. intros H. apply numbered_sort, numbered_filter, session_numbered, H. Qed.
Lemma list_events_all d tenant sid :
  db_ok d → list_events d tenant sid None = above 0 (session_events d tenant sid).
Proof.
  intros H. unfold list_events. rewrite numbered_sort by by apply session_numbered.
  unfold above. symmetry. apply filter_all. apply list.Forall_forall. intros e He.
  assert (e_seq e ∈ e_seq <$> session_events d tenant sid) as Hs by by apply list_elem_of_fmap_2.
  rewrite (ok_numbers _ H), elem_of_seqZ in Hs. lia.
Qed.

Lemma slice_above a b l : a ≤ b → (∀ e, e ∈ l → e_seq e ≤ b) → slice a b l = above a l.
Proof.
  intros Hab Hb. unfold slice, above. induction l as [|e l IH]; [done|]. rewrite !filter_cons.
  assert (e_seq e ≤ b) by (apply Hb; left).
  rewrite IH by (intros; apply Hb; by right). repeat case_decide; try done; lia.
Qed.
Lemma slice_append a b c l : numbered l → a ≤ b → b ≤ c → slice a c l = slice a b l ++ slice b c l.
Proof.
  intros Hl Hab Hbc. unfold slice. induction Hl as [|e l Hs IH Hf]; [done|]. rewrite !filter_cons, IH.
  repeat case_decide; try done; try lia.
  rewrite (filter_none (λ e0, a < e_seq e0 ≤ b)); [done|].
  eapply list.Forall_impl; [exact Hf|]. cbn. intros. lia.
Qed.

(** ** Transactions *)

Definition events_at (owner : uuid → uuid) (d : db) (sid : uuid) : list event_row := session_events d (owner sid) sid.
Lemma persist_event_adds d now eid tenant sid type data d' p :
  persist_event d now eid tenant sid type data = Ok (d', p) → db_ok d →
  db_ok d' ∧ Forall (λ e, e_tenant e = tenant ∧ e_session e = sid) (stored_of p)
  ∧ ∀ t s, session_events d' t s = session_events d t s ++ (if decide (tenant = t ∧ sid = s) then stored_of p else []).
Proof.
  unfold persist_event. intros H Hok. case_decide.
  { injection H as <- <-. split_and!; [done|constructor|]. intros. case_decide; by rewrite app_nil_r. }
  case_decide.
  { injection H as <- <-. split_and!; [done|constructor|]. intros. case_decide; by rewrite app_nil_r. }
  destruct (append_event d now eid tenant sid type data) as [[d1 e]|] eqn:Ha; [|done]. injection H as <- <-.
  pose proof (step_append_event _ _ _ _ _ _ _ _ _ Ha) as [Hs _]. split; [by apply (ss_ok _ _ _ _ _ Hs)|].
  unfold append_event in Ha. destruct (get_session d tenant sid None); [|done]. case_decide; [done|].
  injection Ha as <- <-. split; [by repeat constructor|]. intros t sid'. by rewrite session_events_snoc.
Qed.
Lemma persist_all_stored owner d now l d' pubs :
  persist_all owner d now l = Ok (d', pubs) → db_ok d →
  db_ok d' ∧ Forall (λ e, e_tenant e = owner (e_session e)) (stored_of pubs)
  ∧ ∀ sid, events_at owner d' sid = events_at owner d sid ++ filter (λ e, e_session e = sid) (stored_of pubs).
Proof.
  revert d pubs. induction l as [|[[[sid eid] type] data] l IH]; intros d pubs; simpl.
  { intros [= <- <-] Hok. split_and!; [done|constructor|]. intros sid. by rewrite app_nil_r. }
  destruct (persist_event d now eid (owner sid) sid type data) as [[d1 p1]|] eqn:E1; [|done]. simpl.
  destruct (persist_all owner d1 now l) as [[d2 p2]|] eqn:E2; [|done]. simpl. intros [= <- <-] Hok.
  destruct (persist_event_adds _ _ _ _ _ _ _ _ _ E1 Hok) as (Hok1 & Hf1 & He1).
  destruct (IH _ _ E2 Hok1) as (Hok2 & Hf2 & He2). split; [done|].
  assert (stored_of (p1 ++ p2) = stored_of p1 ++ stored_of p2) as -> by apply omap_app. split.
  - apply Forall_app. split; [|done]. eapply list.Forall_impl; [exact Hf1|]. by intros e [-> ->].
  - intros s. rewrite He2. unfold events_at. rewrite He1, list.filter_app, <- app_assoc. f_equal. f_equal.
    destruct (decide (sid = s)) as [->|Hne].
    + rewrite decide_True by done. rewrite filter_all; [done|]. eapply list.Forall_impl; [exact Hf1|]. by intros e [_ ->].
    + rewrite decide_False by naive_solver. rewrite filter_none; [done|].
      eapply list.Forall_impl; [exact Hf1|]. by intros e [_ ->].
Qed.

(** ** The fan-out *)

Definition subs_of (f : fanout) (sid : uuid) : list nat := default [] (fo_subs f !! sid).
Definition queue_of (f : fanout) (q : nat) : list message := default [] (fo_queues f !! q).
Lemma put_all_lookup m l queues q :
  NoDup l → foldl (put_message m) queues l !! q = (if decide (q ∈ l) then (λ x, x ++ [m]) <$> queues !! q else queues !! q).
Proof.
  revert queues. induction l as [|x l IH]; intros queues; [done|]. intros [Hx Hl]%list.NoDup_cons. simpl.
  rewrite IH by done. unfold put_message. destruct (decide (q = x)) as [->|Hne].
  - rewrite decide_False by done. rewrite decide_True by by left. by rewrite lookup_alter_eq.
  - rewrite lookup_alter_ne by done. repeat case_decide; set_solver.
Qed.
Lemma dispatch_queue f sid m q :
  NoDup (subs_of f sid) → is_Some (fo_queues f !! q) →
  queue_of (dispatch f sid m) q = queue_of f q ++ (if decide (q ∈ subs_of f sid) then [m] else []).
Proof.
  intros Hnd [l Hl]. unfold queue_of, dispatch. cbn [fo_queues]. rewrite put_all_lookup by done. rewrite Hl.
  fold (subs_of f sid). by case_decide; simpl; rewrite ?app_nil_r.
Qed.
Lemma dispatch_some f sid m q : NoDup (subs_of f sid) → is_Some (fo_queues f !! q) → is_Some (fo_queues (dispatch f sid m) !! q).
Proof.
  intros Hnd [l Hl]. unfold dispatch. cbn [fo_queues]. rewrite put_all_lookup by done. rewrite Hl. case_decide; by eexists.
Qed.
Lemma remove_queue_in q x l : NoDup l → x ∈ remove_queue q l ↔ x ∈ l ∧ x ≠ q.
Proof.
  induction l as [|y l IH]; [set_solver|]. intros [Hy Hl]%list.NoDup_cons. simpl. case_decide; set_solver.
Qed.
Lemma remove_queue_NoDup q l : NoDup l → NoDup (remove_queue q l).
Proof.
  induction l as [|y l IH]; [done|]. intros [Hy Hl]%list.NoDup_cons. simpl. case_decide; [done|].
  apply list.NoDup_cons. split; [|by apply IH]. rewrite remove_queue_in by done. tauto.
Qed.
Lemma unsubscribe_subs f sid q sid' :
  NoDup (subs_of f sid') → ∀ x, x ∈ subs_of (unsubscribe f sid q) sid' ↔ x ∈ subs_of f sid' ∧ (sid' = sid → x ≠ q).
Proof.
  unfold unsubscribe, subs_of. intros Hnd x. destruct (fo_subs f !! sid) as [subs|] eqn:E.
  - cbn [fo_subs]. destruct (decide (sid' = sid)) as [->|Hne].
    + rewrite E in *. simpl in *. case_decide as Hn.
      * rewrite lookup_delete_eq. simpl. rewrite <- Hn, remove_queue_in by done. tauto.
      * rewrite lookup_insert_eq. simpl. rewrite remove_queue_in by done. tauto.
    + case_decide; [rewrite lookup_delete_ne by done|rewrite lookup_insert_ne by done]; tauto.
  - destruct (decide (sid' = sid)) as [->|Hne]; [|tauto]. rewrite E. simpl. set_solver.
Qed.
Lemma unsubscribe_NoDup f sid q sid' : NoDup (subs_of f sid') → NoDup (subs_of (unsubscribe f sid q) sid').
Proof.
  unfold unsubscribe, subs_of. intros Hnd. destruct (fo_subs f !! sid) as [subs|] eqn:E; [|done]. cbn [fo_subs].
  destruct (decide (sid' = sid)) as [->|Hne].
  - rewrite E in Hnd. simpl in Hnd. case_decide; [rewrite lookup_delete_eq; constructor|].
    rewrite lookup_insert_eq. by apply remove_queue_NoDup.
  - case_decide; [by rewrite lookup_delete_ne by done|by rewrite lookup_insert_ne by done].
Qed.
Lemma unsubscribe_queues f sid q : fo_queues (unsubscribe f sid q) = fo_queues f ∧ fo_next (unsubscribe f sid q) = fo_next f.
Proof. unfold unsubscribe. by destruct (fo_subs f !! sid). Qed.

(** ** A stream on its own *)

Definition bodies (out : list yielded) : list event_row := omap (λ y, match y with YBody e => Some e | _ => None end) out.
(** What the stream has read and not yielded yet. *)
Definition rest_of (s : stream) : list event_row :=
  match sm_phase s with SmReplay rest | SmNew _ rest => rest | _ => [] end.
Definition from_of (s : stream) : Z := default 0 (sm_after s).
Definition same_stream (s s' : stream) : Prop :=
  sm_tenant s' = sm_tenant s ∧ sm_session s' = sm_session s ∧ sm_after s' = sm_after s ∧ sm_queue s' = sm_queue s.
Definition ended (s : stream) : Prop := sm_phase s = SmEnded.

Definition told (E : list event_row) (m : message) : Prop :=
  match m with MBody e => e ∈ E | MWake n => ∃ e, e ∈ E ∧ e_seq e = n | MLive _ _ => True end.
Record stream_ok (E : list event_row) (Q : list message) (s : stream) : Prop := StreamOk {
  so_from : from_of s ≤ sm_last s;
  so_sorted : numbered (bodies (sm_out s));
  so_range : Forall (λ e, from_of s < e_seq e ≤ sm_last s) (bodies (sm_out s));
  so_stored : Forall (λ e, e ∈ E) (bodies (sm_out s));
  so_rest : numbered (rest_of s) ∧ Forall (λ e, sm_last s < e_seq e ∧ e ∈ E) (rest_of s);
  so_queue : Forall (told E) Q;
  so_start : sm_phase s = SmStart → sm_last s = from_of s ∧ bodies (sm_out s) = []
}.
Definition pop (f : fanout) (q : nat) (rest : list message) : fanout :=
  Fanout (fo_subs f) (<[q := rest]> (fo_queues f)) (fo_next f).

Lemma bodies_snoc out y : bodies (out ++ [y]) = bodies out ++ match y with YBody e => [e] | _ => [] end.
Proof. unfold bodies. rewrite omap_app. by destruct y. Qed.
Lemma told_mono E E' m : (∀ e, e ∈ E → e ∈ E') → told E m → told E' m.
Proof. intros H. destruct m; simpl; naive_solver. Qed.
Lemma stream_ok_mono E E' Q s : (∀ e, e ∈ E → e ∈ E') → stream_ok E Q s → stream_ok E' Q s.
Proof.
  intros HE [H1 H2 H3 H4 [H5 H5'] H6 H7]. split; try done.
  - eapply list.Forall_impl; [exact H4|]. auto.
  - split; [done|]. eapply list.Forall_impl; [exact H5'|]. naive_solver.
  - eapply list.Forall_impl; [exact H6|]. intros m. by apply told_mono.
Qed.
Lemma queue_of_pop f q rest : queue_of (pop f q rest) q = rest.
Proof. unfold queue_of, pop. cbn [fo_queues]. by rewrite lookup_insert_eq. Qed.
Lemma queue_of_unsubscribe f sid q q' : queue_of (unsubscribe f sid q) q' = queue_of f q'.
Proof. unfold queue_of. by rewrite (proj1 (unsubscribe_queues f sid q)). Qed.

(** What a step does to the fan-out: it may take the head of its queue, and leaves when it ends. *)
Definition fan_effect (f : fanout) (s : stream) (f' : fanout) (s' : stream) : Prop :=
  ∃ g, (g = f ∨ ∃ m rest, queue_of f (sm_queue s) = m :: rest ∧ g = pop f (sm_queue s) rest)
    ∧ (f' = g ∧ ¬ ended s' ∨ f' = unsubscribe g (sm_session s) (sm_queue s) ∧ ended s').
Lemma yield_event_effect g s e next f' s' :
  yield_event g s e next = (f', s') → next ≠ SmEnded →
  same_stream s s' ∧ (f' = g ∧ ¬ ended s' ∨ f' = unsubscribe g (sm_session s) (sm_queue s) ∧ ended s')
  ∧ sm_last s' = e_seq e ∧ sm_out s' = sm_out s ++ [YBody e] ∧ (sm_phase s' = next ∨ ended s').
Proof.
  unfold yield_event. destruct (stream_ended (e_type e)); intros [= <- <-] Hn; split_and!; auto; try done; by right.
Qed.
Lemma stream_step_effect d f s op f' s' :
  stream_step d f s op = Some (f', s') → same_stream s s' ∧ fan_effect f s f' s'.
Proof.
  intros H. assert (∀ s1, (f, s1) = (f', s') → same_stream s s1 → ¬ ended s1 → same_stream s s' ∧ fan_effect f s f' s') as Hkeep.
  { intros s1 [= <- <-] Hs He. split; [done|]. exists f. split; [by left|by left]. }
  assert (∀ g e next, (g = f ∨ ∃ m rest, queue_of f (sm_queue s) = m :: rest ∧ g = pop f (sm_queue s) rest) →
    ∀ s0, same_stream s s0 → yield_event g s0 e next = (f', s') → next ≠ SmEnded → same_stream s s' ∧ fan_effect f s f' s') as Hyield.
  { intros g e next Hg s0 (Es1 & Es2 & Es3 & Es4) Hy Hn. destruct (yield_event_effect _ _ _ _ _ _ Hy Hn) as ((E1 & E2 & E3 & E4) & Hf & _).
    rewrite Es2, Es4 in Hf. split; [by split_and!; etrans|]. by exists g. }
  unfold stream_step in H. destruct (decide (op = SoClose)) as [->|Hop].
  { destruct (sm_phase s); try done; injection H as <- <-; (split; [done|]); exists f; (split; [by left|by right]). }
  destruct op, (sm_phase s) as [|[|e rest]| |poll|poll [|e rest]| |] eqn:Hp; try done;
    try (apply (inj Some) in H; eapply Hkeep; [exact H|done|by unfold ended]).
  - apply (inj Some) in H. eapply (Hyield f); [by left|by split_and!|exact H|done].
  - destruct (fo_queues f !! sm_queue s) as [[|m rest]|] eqn:Hq; try done. apply (inj Some) in H.
    assert (queue_of f (sm_queue s) = m :: rest) as Hq' by (unfold queue_of; by rewrite Hq).
    change (Fanout _ _ _) with (pop f (sm_queue s) rest) in H.
    assert (∀ s1, (pop f (sm_queue s) rest, s1) = (f', s') → same_stream s s1 → ¬ ended s1 → same_stream s s' ∧ fan_effect f s f' s') as Hkeep'.
    { intros s1 [= <- <-] Hs He. split; [done|]. exists (pop f (sm_queue s) rest). split; [by right; exists m, rest|by left]. }
    unfold take_message in H. destruct m as [n|e|type data].
    + destruct (n <=? sm_last s); (eapply Hkeep'; [exact H|done|unfold ended; simpl; congruence]).
    + destruct (e_seq e <=? sm_last s); [eapply Hkeep'; [exact H|done|unfold ended; simpl; congruence]|].
      eapply (Hyield (pop f (sm_queue s) rest)); [by right; exists (MBody e), rest| |exact H|done]. done.
    + eapply Hkeep'; [exact H|done|unfold ended; simpl; congruence].
  - apply (inj Some) in H. eapply Hkeep; [exact H|unfold after_read; by repeat case_match|unfold after_read, ended; by repeat case_match].
  - apply (inj Some) in H. eapply (Hyield f); [by left|by split_and!|exact H|done].
  - destruct (fo_queues f !! sm_queue s) as [[|m rest]|] eqn:Hq; try done; apply (inj Some) in H; (eapply Hkeep; [exact H|done|by unfold ended]).
Qed.

Lemma numbered_snoc l e : numbered l → Forall (λ x, e_seq x < e_seq e) l → numbered (l ++ [e]).
Proof.
  induction 1 as [|x l Hs IH Hf]; intros Hl; [repeat constructor|]. apply Forall_cons in Hl as [Hx Hl].
  constructor; [by apply IH|]. apply Forall_app. split; [done|by constructor].
Qed.
(** Yielding an event above the last. *)
Lemma yield_ok E Q Q' s s0 g e next f' s' :
  stream_ok E Q s → sm_last s0 = sm_last s → sm_out s0 = sm_out s → same_stream s s0 →
  yield_event g s0 e next = (f', s') → next ≠ SmEnded → next ≠ SmStart → Forall (told E) Q' →
  sm_last s < e_seq e → e ∈ E →
  (let rest := match next with SmReplay r | SmNew _ r => r | _ => [] end in
   numbered rest ∧ Forall (λ x, e_seq e < e_seq x ∧ x ∈ E) rest) →
  stream_ok E Q' s'.
Proof.
  intros [H1 H2 H3 H4 H5 H6 H7] El Eo Es Hy Hn Hn' HQ Hlt He [Hr1 Hr2].
  destruct (yield_event_effect _ _ _ _ _ _ Hy Hn) as (Es' & _ & El' & Eo' & Hph).
  assert (from_of s' = from_of s) as Ef.
  { unfold from_of. destruct Es as (_ & _ & E1 & _), Es' as (_ & _ & E2 & _). by rewrite E2, E1. }
  split.
  - rewrite Ef, El'. lia.
  - rewrite Eo', bodies_snoc, Eo. apply numbered_snoc; [done|]. eapply list.Forall_impl; [exact H3|]. cbn. intros. lia.
  - rewrite Ef, El', Eo', bodies_snoc, Eo. apply Forall_app. split; [|constructor; [lia|done]].
    eapply list.Forall_impl; [exact H3|]. cbn. intros. lia.
  - rewrite Eo', bodies_snoc, Eo. apply Forall_app. split; [done|by constructor].
  - rewrite El'. unfold rest_of. destruct Hph as [-> |He']; [by split|]. unfold ended in He'. rewrite He'. split; constructor.
  - done.
  - destruct Hph as [-> |He']; [done|]. unfold ended in He'. by rewrite He'.
Qed.
(** A change of the phase that yields nothing stored. *)
Lemma phase_ok E Q Q' s s' :
  stream_ok E Q s → same_stream s s' → sm_last s' = sm_last s → bodies (sm_out s') = bodies (sm_out s) →
  Forall (told E) Q' → sm_phase s' ≠ SmStart →
  numbered (rest_of s') ∧ Forall (λ e, sm_last s < e_seq e ∧ e ∈ E) (rest_of s') → stream_ok E Q' s'.
Proof.
  intros [H1 H2 H3 H4 H5 H6 H7] (_ & _ & Ea & _) El Eo HQ Hp Hr.
  assert (from_of s' = from_of s) as Ef by (unfold from_of; by rewrite Ea).
  split; rewrite ?Ef, ?El, ?Eo; try done.
Qed.
Lemma above_ok a l : numbered l → numbered (above a l) ∧ Forall (λ e, a < e_seq e ∧ e ∈ l) (above a l).
Proof.
  intros Hl. split; [by apply numbered_filter|]. apply list.Forall_forall. intros e He. by apply list_elem_of_filter in He.
Qed.
Lemma rest_cons_ok (E : list event_row) s e rest :
  numbered (e :: rest) ∧ Forall (λ x, sm_last s < e_seq x ∧ x ∈ E) (e :: rest) →
  sm_last s < e_seq e ∧ e ∈ E ∧ numbered rest ∧ Forall (λ x, e_seq e < e_seq x ∧ x ∈ E) rest.
Proof.
  intros [[H1 H2]%StronglySorted_inv [[H3 H4] H5]%Forall_cons]. split_and!; try done.
  rewrite list.Forall_forall in *. intros x Hx. split; [by apply H2|by apply H5].
Qed.
Lemma stream_step_ok d f s op f' s' :
  db_ok d → let E := session_events d (sm_tenant s) (sm_session s) in
  stream_step d f s op = Some (f', s') → stream_ok E (queue_of f (sm_queue s)) s →
  stream_ok E (queue_of f' (sm_queue s)) s'.
Proof.
  intros Hd E H Hs. assert (numbered E) as HE by by apply session_numbered.
  pose proof (so_queue _ _ _ Hs) as HQ. pose proof (so_rest _ _ _ Hs) as Hrest.
  unfold stream_step in H. destruct (decide (op = SoClose)) as [->|Hop].
  { assert (stream_ok E (queue_of f (sm_queue s)) (set_phase s SmEnded)) as He.
    { eapply phase_ok; [exact Hs|done|done|done|done|done|]. split; constructor. }
    destruct (sm_phase s); try done; injection H as <- <-; by rewrite queue_of_unsubscribe. }
  assert (∀ e rest mk, (∀ r, match mk r with SmReplay x | SmNew _ x => x = r | _ => False end) →
    rest_of s = e :: rest → yield_event f s e (mk rest) = (f', s') → stream_ok E (queue_of f' (sm_queue s)) s') as Hgo.
  { intros e rest mk Hmk Er Hy. rewrite Er in Hrest. apply rest_cons_ok in Hrest as (Hlt & Hin & Hn & Hf).
    assert (queue_of f' (sm_queue s) = queue_of f (sm_queue s)) as ->.
    { unfold yield_event in Hy. destruct (stream_ended _); injection Hy as <- _; [apply queue_of_unsubscribe|done]. }
    specialize (Hmk rest). eapply yield_ok; [exact Hs|done|done|done|exact Hy|by destruct (mk rest)|by destruct (mk rest)|done|done|done|].
    destruct (mk rest); try done; by subst. }
  destruct op, (sm_phase s) as [|[|e rest]| |poll|poll [|e rest]| |] eqn:Hp; try done.
  - injection H as <- <-. destruct (so_start _ _ _ Hs Hp) as [El _].
    eapply phase_ok; [exact Hs|done|done|done|done|done|]. unfold rest_of. simpl. rewrite El. unfold from_of.
    destruct (sm_after s) as [n|]; simpl; [rewrite list_events_above by done|rewrite list_events_all by done]; by apply above_ok.
  - injection H as <- <-. eapply phase_ok; [exact Hs|done|done|done|done|done|]. split; constructor.
  - apply (inj Some) in H. eapply (Hgo e rest SmReplay); [done|unfold rest_of; by rewrite Hp|done].
  - destruct (fo_queues f !! sm_queue s) as [[|m rest]|] eqn:Hq; try done. apply (inj Some) in H.
    assert (queue_of f (sm_queue s) = m :: rest) as Hq' by (unfold queue_of; by rewrite Hq).
    rewrite Hq' in HQ. apply Forall_cons in HQ as [Hm HQ].
    assert (queue_of (pop f (sm_queue s) rest) (sm_queue s) = rest) as Hpop by apply queue_of_pop.
    change (Fanout _ _ _) with (pop f (sm_queue s) rest) in H. unfold take_message in H. destruct m as [n|e|type data].
    + destruct (n <=? sm_last s); injection H as <- <-; rewrite Hpop.
      * eapply phase_ok; [exact Hs|done|done|done|done|by rewrite Hp|done].
      * eapply phase_ok; [exact Hs|done|done|done|done|done|]. split; constructor.
    + destruct (e_seq e <=? sm_last s) eqn:Hle.
      * injection H as <- <-. rewrite Hpop. eapply phase_ok; [exact Hs|done|done|done|done|simpl; by rewrite Hp|done].
      * assert (queue_of f' (sm_queue s) = rest) as ->.
        { unfold yield_event in H. destruct (stream_ended _); injection H as <- _; [by rewrite queue_of_unsubscribe|done]. }
        apply Z.leb_gt in Hle. eapply yield_ok with (s0 := set_ping_at s 0); [exact Hs|done|done|done|exact H|done|done|done|done|done|]. split; constructor.
    + injection H as <- <-. rewrite Hpop. eapply phase_ok; [exact Hs|done|done| |done|simpl; by rewrite Hp|done].
      simpl. by rewrite bodies_snoc, app_nil_r.
  - injection H as <- <-. eapply phase_ok; [exact Hs|done|done|done|done|done|]. unfold rest_of. simpl.
    rewrite list_events_above by done. by apply above_ok.
  - injection H as <- <-. eapply phase_ok; [exact Hs|..|done| |]; unfold after_read, rest_of; repeat case_match; try done; split; constructor.
  - apply (inj Some) in H. eapply (Hgo e rest (SmNew poll)); [done|unfold rest_of; by rewrite Hp|done].
  - injection H as <- <-. eapply phase_ok; [exact Hs|done|done| |done|done|]; [simpl; by rewrite bodies_snoc, app_nil_r|split; constructor].
  - destruct (fo_queues f !! sm_queue s) as [[|m rest]|] eqn:Hq; try done; injection H as <- <-;
      (eapply phase_ok; [exact Hs|done|done|done|done|done|]; split; constructor).
Qed.

(** ** The replica *)

Record fan_ok (f : fanout) (streams : gmap nat stream) : Prop := FanOk {
  fk_nodup : ∀ sid, NoDup (subs_of f sid);
  fk_fresh : ∀ sid q, q ∈ subs_of f sid → (q < fo_next f)%nat;
  fk_queue : ∀ i s, streams !! i = Some s → (sm_queue s < fo_next f)%nat ∧ is_Some (fo_queues f !! sm_queue s);
  fk_session : ∀ i s sid, streams !! i = Some s → sm_queue s ∈ subs_of f sid → sid = sm_session s;
  fk_live : ∀ i s, streams !! i = Some s → ¬ ended s → sm_queue s ∈ subs_of f (sm_session s);
  fk_distinct : ∀ i j s t, streams !! i = Some s → streams !! j = Some t → sm_queue s = sm_queue t → i = j
}.
Lemma fan_open f streams i tenant sid after ping interval f' s :
  fan_ok f streams → streams !! i = None → stream_open f tenant sid after ping interval = (f', s) →
  fan_ok f' (<[i := s]> streams) ∧ (∀ q, (q < fo_next f)%nat → queue_of f' q = queue_of f q) ∧ queue_of f' (sm_queue s) = [].
Proof.
  intros Hf Hi. unfold stream_open, subscribe. intros [= <- <-].
  set (s := Stream _ _ _ _ _ _ _ _ _ _). set (f' := Fanout _ _ _).
  assert (∀ sid', subs_of f' sid' = if decide (sid' = sid) then subs_of f sid ++ [fo_next f] else subs_of f sid') as Hsubs.
  { intros sid'. unfold subs_of, f'. cbn [fo_subs]. case_decide as E; [subst; by rewrite lookup_insert_eq|by rewrite lookup_insert_ne by done]. }
  assert (∀ sid' q, q ∈ subs_of f' sid' → q ∈ subs_of f sid' ∨ sid' = sid ∧ q = fo_next f) as Hin.
  { intros sid' q. rewrite Hsubs. case_decide; [|by left]. subst. rewrite elem_of_app, list_elem_of_singleton. tauto. }
  assert (∀ q, (q < fo_next f)%nat → fo_queues f' !! q = fo_queues f !! q) as Hq.
  { intros q Hlt. unfold f'. cbn [fo_queues]. rewrite lookup_insert_ne; [done|lia]. }
  split; [split|split].
  - intros sid'. rewrite Hsubs. case_decide; [|apply Hf]. apply list.NoDup_app. split_and!; [apply Hf| |apply NoDup_singleton].
    intros x Hx ->%list_elem_of_singleton. apply (fk_fresh _ _ Hf) in Hx. lia.
  - intros sid' q [H%(fk_fresh _ _ Hf)|[_ ->]]%Hin; simpl; lia.
  - intros j t. rewrite lookup_insert_Some. intros [[_ <-]|[_ Ht]].
    + simpl. split; [lia|]. rewrite lookup_insert_eq. by eexists.
    + destruct (fk_queue _ _ Hf _ _ Ht) as [H1 H2]. split; [simpl; lia|]. by rewrite Hq.
  - intros j t sid'. rewrite lookup_insert_Some. intros [[_ <-]|[_ Ht]] Hq'.
    + apply Hin in Hq' as [H%(fk_fresh _ _ Hf)|[-> _]]; [simpl in H; lia|done].
    + apply Hin in Hq' as [H|[_ E]]; [by eapply fk_session|]. destruct (fk_queue _ _ Hf _ _ Ht) as [H1 _]. lia.
  - intros j t. rewrite lookup_insert_Some. intros [[_ <-]|[_ Ht]] He; rewrite Hsubs.
    + simpl. rewrite decide_True by done. set_solver.
    + pose proof (fk_live _ _ Hf _ _ Ht He). case_decide as E; [|done]. rewrite E in H. set_solver.
  - intros j1 j2 t1 t2. rewrite !lookup_insert_Some. intros [[<- <-]|[_ H1]] [[<- <-]|[_ H2]] E; [done| | |by eapply fk_distinct].
    + simpl in E. destruct (fk_queue _ _ Hf _ _ H2) as [H _]. lia.
    + simpl in E. destruct (fk_queue _ _ Hf _ _ H1) as [H _]. lia.
  - intros q Hlt. unfold queue_of. by rewrite Hq.
  - unfold queue_of. simpl. by rewrite lookup_insert_eq.
Qed.
Lemma fan_step f streams i s f' s' :
  fan_ok f streams → streams !! i = Some s → ¬ ended s → same_stream s s' → fan_effect f s f' s' →
  fan_ok f' (<[i := s']> streams) ∧ ∀ j t, streams !! j = Some t → j ≠ i → queue_of f' (sm_queue t) = queue_of f (sm_queue t).
Proof.
  intros Hf Hi Hlive (Et & Es & Ea & Eq) (g & Hg & Hf').
  destruct (fk_queue _ _ Hf _ _ Hi) as [Hlt Hsome].
  assert (fo_next g = fo_next f ∧ (∀ sid, subs_of g sid = subs_of f sid)
    ∧ (∀ q, q ≠ sm_queue s → fo_queues g !! q = fo_queues f !! q) ∧ is_Some (fo_queues g !! sm_queue s)) as (Gn & Gs & Gq & Gsome).
  { destruct Hg as [->|(m & rest & _ & ->)]; [done|]. split_and!; try done.
    - intros q Hne. simpl. by rewrite lookup_insert_ne.
    - simpl. rewrite lookup_insert_eq. by eexists. }
  assert (fo_next f' = fo_next f ∧ (∀ sid, NoDup (subs_of f' sid))
    ∧ (∀ sid q, q ∈ subs_of f' sid ↔ q ∈ subs_of f sid ∧ (ended s' → sid = sm_session s → q ≠ sm_queue s))
    ∧ fo_queues f' = fo_queues g) as (Fn & Fd & Fs & Fq).
  { destruct Hf' as [[-> He]|[-> He]].
    - split_and!; [done|intros; rewrite Gs; apply Hf| |done]. intros sid q. rewrite Gs. tauto.
    - destruct (unsubscribe_queues g (sm_session s) (sm_queue s)) as [Uq Un]. split_and!; [by rewrite Un| | |done].
      + intros. apply unsubscribe_NoDup. rewrite Gs. apply Hf.
      + intros sid q. rewrite unsubscribe_subs by (rewrite Gs; apply Hf). rewrite Gs. tauto. }
  assert (∀ j t, streams !! j = Some t → j ≠ i → sm_queue t ≠ sm_queue s) as Hne.
  { intros j t Ht Hji E. apply Hji. by eapply fk_distinct. }
  split; [split|].
  - done.
  - intros sid q [H _]%Fs. rewrite Fn. by eapply fk_fresh.
  - intros j t. rewrite lookup_insert_Some, Fn, Fq. intros [[_ <-]|[Hji Ht]]; [by rewrite Eq|].
    rewrite Gq by (by eapply Hne). by eapply fk_queue.
  - intros j t sid. rewrite lookup_insert_Some. intros [[_ <-]|[Hji Ht]] [H _]%Fs; [|by eapply fk_session].
    rewrite Es. rewrite Eq in H. by eapply fk_session.
  - intros j t. rewrite lookup_insert_Some. intros [[_ <-]|[Hji Ht]] He; apply Fs.
    + rewrite Es, Eq. split; [by eapply fk_live|done].
    + split; [by eapply fk_live|]. intros _ _. by eapply Hne.
  - intros j1 j2 t1 t2. rewrite !lookup_insert_Some. intros [[<- <-]|[? H1]] [[<- <-]|[? H2]] E; [done| | |by eapply fk_distinct].
    + rewrite Eq in E. by eapply fk_distinct.
    + rewrite Eq in E. by eapply fk_distinct.
  - intros j t Ht Hji. unfold queue_of. rewrite Fq, Gq; [done|by eapply Hne].
Qed.
Lemma fan_dispatch f streams sid m :
  fan_ok f streams → fan_ok (dispatch f sid m) streams
  ∧ ∀ i s, streams !! i = Some s →
    queue_of (dispatch f sid m) (sm_queue s) = queue_of f (sm_queue s) ++ (if decide (sm_queue s ∈ subs_of f sid) then [m] else []).
Proof.
  intros Hf. split.
  - split; try apply Hf. intros i s Hs. destruct (fk_queue _ _ Hf _ _ Hs) as [H1 H2]. split; [done|].
    apply dispatch_some; [apply Hf|done].
  - intros i s Hs. apply dispatch_queue; [apply Hf|]. by apply (fk_queue _ _ Hf _ _ Hs).
Qed.

Definition events_of (owner : uuid → uuid) (r : replica) (sid : uuid) : list event_row := events_at owner (bs_db r) sid.
Record replica_ok (owner : uuid → uuid) (r : replica) : Prop := ReplicaOk {
  rk_db : db_ok (bs_db r);
  rk_fan : fan_ok (bs_fan r) (bs_streams r);
  rk_tenant : ∀ i s, bs_streams r !! i = Some s → sm_tenant s = owner (sm_session s);
  rk_pub : ∀ j l e, bs_publishers r !! j = Some l → e ∈ l → e ∈ events_of owner r (e_session e);
  rk_stream : ∀ i s, bs_streams r !! i = Some s →
    stream_ok (events_of owner r (sm_session s)) (queue_of (bs_fan r) (sm_queue s)) s
}.
Lemma same_stream_refl s : same_stream s s.
Proof. done. Qed.
(** A step of one stream; the others stay as they are. *)
Lemma replica_stream owner r i s op f s' :
  replica_ok owner r → bs_streams r !! i = Some s → stream_step (bs_db r) (bs_fan r) s op = Some (f, s') →
  replica_ok owner (set_stream r f i s') ∧ same_stream s s'
  ∧ ∀ j t, bs_streams r !! j = Some t → j ≠ i → queue_of f (sm_queue t) = queue_of (bs_fan r) (sm_queue t).
Proof.
  intros Hr Hi Hstep. destruct (stream_step_effect _ _ _ _ _ _ Hstep) as [Hsame Heff].
  assert (¬ ended s) as Hlive by (intros He; unfold ended in He; unfold stream_step in Hstep; rewrite He in Hstep; by destruct op).
  destruct (fan_step _ _ _ _ _ _ (rk_fan _ _ Hr) Hi Hlive Hsame Heff) as [Hfan Hother].
  destruct Hsame as (Et & Es & Ea & Eq). split; [split|by split_and!]; simpl; [apply Hr|done| |apply Hr|].
  - intros j t. rewrite lookup_insert_Some. intros [[_ <-]|[_ Ht]]; [|by eapply rk_tenant].
    rewrite Et, Es. by eapply rk_tenant.
  - intros j t. rewrite lookup_insert_Some. intros [[_ <-]|[Hne Ht]].
    + rewrite Es, Eq. pose proof (rk_stream _ _ Hr _ _ Hi) as Hok. pose proof (rk_tenant _ _ Hr _ _ Hi) as Ht.
      unfold events_of, events_at in *. simpl. rewrite <- Ht in *.
      by eapply (stream_step_ok _ _ _ _ _ _ (rk_db _ _ Hr)).
    + rewrite (Hother j t Ht (not_eq_sym Hne)). by apply (rk_stream _ _ Hr _ _ Ht).
Qed.
Lemma replica_open owner r i sid after ping interval f s :
  replica_ok owner r → bs_streams r !! i = None →
  stream_open (bs_fan r) (owner sid) sid after ping interval = (f, s) → replica_ok owner (set_stream r f i s).
Proof.
  intros Hr Hi Ho. destruct (fan_open _ _ _ _ _ _ _ _ _ _ (rk_fan _ _ Hr) Hi Ho) as (Hfan & Hold & Hnew).
  assert (sm_tenant s = owner sid ∧ sm_session s = sid ∧ sm_last s = from_of s ∧ sm_phase s = SmStart ∧ sm_out s = [])
    as (E1 & E2 & E3 & E4 & E5).
  { unfold stream_open in Ho. simpl in Ho. injection Ho as _ <-. done. }
  split; simpl; [apply Hr|done| |apply Hr|].
  - intros j t. rewrite lookup_insert_Some. intros [[_ <-]|[_ Ht]]; [congruence|by eapply rk_tenant].
  - intros j t. rewrite lookup_insert_Some. intros [[_ <-]|[_ Ht]].
    + rewrite Hnew. split; rewrite ?E3, ?E5; unfold rest_of; rewrite ?E4; try done; try constructor; try lia; try constructor.
    + destruct (fk_queue _ _ (rk_fan _ _ Hr) _ _ Ht) as [Hlt _]. rewrite Hold by done. by apply (rk_stream _ _ Hr _ _ Ht).
Qed.
Lemma replica_dispatch owner r sid m :
  replica_ok owner r → told (events_of owner r sid) m → replica_ok owner (with_fan r (dispatch (bs_fan r) sid m)).
Proof.
  intros Hr Hm. destruct (fan_dispatch _ _ sid m (rk_fan _ _ Hr)) as [Hfan Hq].
  split; simpl; [apply Hr|done|apply Hr|apply Hr|]. intros i s Hs. rewrite (Hq _ _ Hs).
  pose proof (rk_stream _ _ Hr _ _ Hs) as [H1 H2 H3 H4 H5 H6 H7]. split; try done.
  apply Forall_app. split; [done|]. case_decide as Hin; [|constructor]. repeat constructor.
  by rewrite <- (fk_session _ _ (rk_fan _ _ Hr) _ _ _ Hs Hin).
Qed.
Lemma replica_commit owner r now l d pubs P :
  replica_ok owner r → persist_all owner (bs_db r) now l = Ok (d, pubs) →
  (∀ j l e, P !! j = Some l → e ∈ l → (∃ l', bs_publishers r !! j = Some l' ∧ e ∈ l') ∨ e ∈ stored_of pubs) →
  replica_ok owner (Replica d (bs_fan r) (bs_streams r) P).
Proof.
  intros Hr Hp HP. destruct (persist_all_stored _ _ _ _ _ _ Hp (rk_db _ _ Hr)) as (Hok & Hten & Hev).
  assert (∀ sid e, e ∈ events_of owner r sid → e ∈ events_at owner d sid) as Hmono.
  { intros sid e He. rewrite Hev. apply elem_of_app. by left. }
  split; simpl; [done|apply Hr|apply Hr| |].
  - intros j l' e Hj He. destruct (HP _ _ _ Hj He) as [(l0 & Hl0 & He0)|He0].
    + unfold events_of. cbn [bs_db]. apply Hmono. exact (rk_pub _ _ Hr _ _ _ Hl0 He0).
    + unfold events_of. cbn [bs_db]. rewrite Hev. apply elem_of_app. right. by apply list_elem_of_filter.
  - intros i s Hs. eapply stream_ok_mono; [apply Hmono|]. by apply (rk_stream _ _ Hr _ _ Hs).
Qed.
Lemma replica_publish owner r j e rest :
  replica_ok owner r → bs_publishers r !! j = Some (e :: rest) →
  replica_ok owner (Replica (bs_db r) (dispatch (bs_fan r) (e_session e) (MBody e)) (bs_streams r) (<[j := rest]> (bs_publishers r))).
Proof.
  intros Hr Hj. assert (e ∈ events_of owner r (e_session e)) as He by (eapply rk_pub; [done|exact Hj|left]).
  destruct (replica_dispatch owner r (e_session e) (MBody e) Hr He) as [H1 H2 H3 H4 H5]. split; try done.
  simpl. intros j' l e'. rewrite lookup_insert_Some. intros [[<- <-]|[_ Hl]] He'; [|exact (rk_pub _ _ Hr _ _ _ Hl He')].
  exact (rk_pub _ _ Hr j (e :: rest) e' Hj (list_elem_of_further _ _ _ He')).
Qed.
Lemma replica_step_ok owner r r' : replica_ok owner r → replica_step owner r r' → replica_ok owner r'.
Proof.
  intros Hr. destruct 1 as [r i sid after ping interval f s Hi Ho|r i s op f s' Hi Hs|r now l d pubs j Hp Hj|r now l d pubs Hp
    |r j e rest Hj|r sid e He|r sid type data].
  - by eapply replica_open.
  - by eapply replica_stream.
  - eapply replica_commit; [done|done|]. intros j' l' e. rewrite lookup_insert_Some. intros [[<- <-]|[_ H]] He; eauto.
  - eapply replica_commit; [done|done|]. eauto.
  - by eapply replica_publish.
  - apply replica_dispatch; [done|]. by exists e.
  - by apply replica_dispatch.
Qed.
Lemma replica_start owner d : db_ok d → replica_ok owner (Replica d new_fanout ∅ ∅).
Proof.
  intros Hd. split; simpl; try done. split; simpl; try done.
  - intros sid. constructor.
  - intros sid q H. by apply not_elem_of_nil in H.
Qed.
Lemma replica_reach_ok owner d r : db_ok d → replica_reach owner d r → replica_ok owner r.
Proof. intros Hd. induction 1; [by apply replica_start|by eapply replica_step_ok]. Qed.

(** C19: What a stream has yielded of the stored events is a part of what the session has
    stored: each event once, in the order of the numbers, and only those above the
    number the client gave, whatever the transactions of all replicas, their
    publications, wakes and the other streams do in between. *)
Theorem stream_in_order owner d r i s :
  db_ok d → replica_reach owner d r → bs_streams r !! i = Some s →
  numbered (bodies (sm_out s))
  ∧ ∀ e, e ∈ bodies (sm_out s) → e ∈ events_of owner r (sm_session s) ∧ from_of s < e_seq e ≤ sm_last s.
Proof.
  intros Hd Hr Hs. pose proof (rk_stream _ _ (replica_reach_ok _ _ _ Hd Hr) _ _ Hs) as Hok.
  split; [apply Hok|]. intros e He. pose proof (so_range _ _ _ Hok) as H1. pose proof (so_stored _ _ _ Hok) as H2.
  rewrite list.Forall_forall in H1, H2. auto.
Qed.

(** ** Without gaps *)

Lemma slice_in a b l e : e ∈ slice a b l ↔ e ∈ l ∧ a < e_seq e ≤ b.
Proof. unfold slice. rewrite list_elem_of_filter. tauto. Qed.
Lemma slice_empty a b l : b ≤ a → slice a b l = [].
Proof. intros H. apply filter_none. apply list.Forall_forall. intros e _. lia. Qed.
Lemma numbered_same l e e' : numbered l → e ∈ l → e' ∈ l → e_seq e = e_seq e' → e = e'.
Proof.
  induction 1 as [|x l Hs IH Hf]; intros He He' E; [by apply not_elem_of_nil in He|].
  rewrite list.Forall_forall in Hf.
  apply elem_of_cons in He as [->|He], He' as [->|He']; [done|apply Hf in He'; lia|apply Hf in He; lia|by apply IH].
Qed.
Lemma numbered_singleton l e : numbered l → e ∈ l → (∀ x, x ∈ l → x = e) → l = [e].
Proof.
  intros Hl He Hall. destruct l as [|x l]; [by apply not_elem_of_nil in He|].
  assert (x = e) as -> by (apply Hall; left). f_equal. destruct l as [|y l]; [done|].
  assert (y = e) as -> by (apply Hall; right; left).
  apply StronglySorted_inv in Hl as [_ [Hlt _]%Forall_cons]. lia.
Qed.
(** The next event, when nothing lies in between. *)
Lemma slice_next a l e : numbered l → e ∈ l → a < e_seq e →
  (∀ x, x ∈ l → e_seq x < e_seq e → e_seq x ≤ a) → slice a (e_seq e) l = [e].
Proof.
  intros Hl He Hlt Hno. apply numbered_singleton; [by apply numbered_filter|apply slice_in; split; [done|lia]|].
  intros x [Hx Hr]%slice_in. apply (numbered_same l); [done..|].
  destruct (decide (e_seq x < e_seq e)) as [H|]; [apply Hno in H; [lia|done]|lia].
Qed.
Lemma slice_cons a b l e rest : numbered l → slice a b l = e :: rest →
  slice a (e_seq e) l = [e] ∧ slice (e_seq e) b l = rest ∧ a < e_seq e ≤ b.
Proof.
  intros Hl E. assert (e ∈ slice a b l) as [He Hr]%slice_in by (rewrite E; left).
  assert (slice a (e_seq e) l = [e]) as E1.
  { apply slice_next; [done|done|lia|]. intros x Hx Hlt. destruct (decide (e_seq x ≤ a)); [done|exfalso].
    assert (x ∈ e :: rest) as Hin by (rewrite <- E; apply slice_in; split; [done|lia]).
    assert (numbered (e :: rest)) as [_ Hf]%StronglySorted_inv by (rewrite <- E; by apply numbered_filter).
    rewrite list.Forall_forall in Hf. apply elem_of_cons in Hin as [->|Hin]; [lia|]. apply Hf in Hin. lia. }
  split_and!; [done| |lia|lia]. rewrite (slice_append a (e_seq e) b l Hl), E1 in E by lia. by injection E.
Qed.
Lemma slice_grow a b l new : numbered (l ++ new) → (b ≤ a ∨ ∃ e, e ∈ l ∧ e_seq e = b) → slice a b (l ++ new) = slice a b l.
Proof.
  intros Hl [Hle|(e & He & <-)]; [by rewrite !slice_empty|]. unfold slice. rewrite list.filter_app.
  rewrite (filter_none _ new), app_nil_r; [done|]. apply list.Forall_forall. intros x Hx.
  pose proof (StronglySorted_app_1_elem_of _ _ _ e x Hl He Hx) as H. cbn in H. lia.
Qed.

(** The last number of what is read. *)
Definition eff (s : stream) : Z := default (sm_last s) (list.last (e_seq <$> rest_of s)).
Definition bump (base : Z) (m : message) : Z := Z.max base (default base (message_seq m)).
Definition top (base : Z) (Q : list message) : Z := foldl bump base Q.
(** No body in the queue comes before one with a smaller number has been told. *)
Fixpoint chain (E : list event_row) (base : Z) (Q : list message) : Prop :=
  match Q with
  | [] => True
  | m :: Q => match m with MBody e => ∀ x, x ∈ E → e_seq x < e_seq e → e_seq x ≤ base | _ => True end ∧ chain E (bump base m) Q
  end.
Definition caught (s : stream) : Prop := sm_phase s = SmStart ∨ ∃ poll, sm_phase s = SmRead poll.
Record complete_ok (E : list event_row) (Q : list message) (pend : event_row → Prop) (s : stream) : Prop := CompleteOk {
  cp_done : bodies (sm_out s) = slice (from_of s) (sm_last s) E;
  cp_last : sm_last s = from_of s ∨ ∃ e, e ∈ E ∧ e_seq e = sm_last s;
  cp_rest : ¬ ended s → rest_of s = slice (sm_last s) (eff s) E;
  cp_queue : ¬ ended s → caught s ∨ chain E (eff s) Q;
  cp_told : ¬ ended s → caught s ∨ ∀ e, e ∈ E → ¬ pend e → e_seq e ≤ top (eff s) Q
}.
Lemma top_mono a b Q : a ≤ b → top a Q ≤ top b Q.
Proof.
  unfold top. revert a b. induction Q as [|m Q IH]; intros a b H; simpl; [done|]. apply IH. unfold bump.
  destruct (message_seq m); simpl; lia.
Qed.
Lemma top_base base Q : base ≤ top base Q.
Proof.
  unfold top. revert base. induction Q as [|m Q IH]; intros base; simpl; [lia|].
  transitivity (bump base m); [unfold bump; destruct (message_seq m); simpl; lia|apply IH].
Qed.
Lemma chain_all E base Q : (∀ x, x ∈ E → e_seq x ≤ base) → chain E base Q.
Proof.
  revert base. induction Q as [|m Q IH]; intros base H; simpl; [done|]. split.
  - destruct m; try done. intros x Hx _. by apply H.
  - apply IH. intros x Hx. apply H in Hx. unfold bump. destruct (message_seq m); simpl; lia.
Qed.
Lemma chain_snoc E base Q m :
  chain E base Q → (∀ e, m = MBody e → ∀ x, x ∈ E → e_seq x < e_seq e → e_seq x ≤ top base Q) → chain E base (Q ++ [m]).
Proof.
  revert base. induction Q as [|m' Q IH]; intros base; simpl.
  - intros _ H. split; [|done]. destruct m; try done. by apply H.
  - intros [H1 H2] H. split; [done|]. by apply IH.
Qed.
Lemma top_snoc base Q m : top base (Q ++ [m]) = bump (top base Q) m.
Proof. unfold top. by rewrite foldl_app. Qed.
Lemma chain_grow E new base Q : numbered (E ++ new) → Forall (told E) Q → chain E base Q → chain (E ++ new) base Q.
Proof.
  intros HE. revert base. induction Q as [|m Q IH]; intros base; [done|]. intros [Hm HQ]%Forall_cons [H1 H2].
  split; [|by apply IH]. destruct m as [|e|]; try done. intros x [Hx|Hx]%elem_of_app Hlt; [by apply H1|].
  pose proof (StronglySorted_app_1_elem_of _ _ _ e x HE Hm Hx) as H. cbn in H. lia.
Qed.
Lemma bump_le base m : (∀ n, message_seq m = Some n → n ≤ base) → bump base m = base.
Proof. unfold bump. destruct (message_seq m) as [n|]; simpl; intros H; [specialize (H n eq_refl)|]; lia. Qed.

Lemma eff_nil s : rest_of s = [] → eff s = sm_last s.
Proof. unfold eff. by intros ->. Qed.
Lemma above_slice a l : numbered l →
  let b := default a (list.last (e_seq <$> above a l)) in above a l = slice a b l ∧ ∀ e, e ∈ l → e_seq e ≤ b ∨ e_seq e ≤ a.
Proof.
  intros Hl b. assert (a ≤ b ∧ ∀ e, e ∈ above a l → e_seq e ≤ b) as [Hab Hb].
  { unfold b. assert (numbered (above a l)) as Hn by by apply numbered_filter.
    assert (∀ e, e ∈ above a l → a < e_seq e) as Hlow by (intros e [He _]%list_elem_of_filter; done).
    destruct (above a l) as [|y l' _] using rev_ind; [split; [done|]; intros e He; by apply not_elem_of_nil in He|].
    rewrite (fmap_snoc e_seq), last_snoc. simpl. split.
    - assert (a < e_seq y); [|lia]. apply Hlow. set_solver.
    - intros e [He|He%list_elem_of_singleton]%elem_of_app; [|by subst].
      pose proof (StronglySorted_app_1_elem_of _ _ _ e y Hn He (list_elem_of_here _ _)) as H. cbn in H. lia. }
  assert (∀ e, e ∈ l → e_seq e ≤ b) as Hall.
  { intros e He. destruct (decide (a < e_seq e)); [apply Hb; by apply list_elem_of_filter|lia]. }
  split; [symmetry; by apply slice_above|]. intros e He. left. by apply Hall.
Qed.

Definition phase_rest (ph : stream_phase) : list event_row := match ph with SmReplay r | SmNew _ r => r | _ => [] end.
Lemma complete_yield E Q pend s s0 g e next f' s' :
  numbered E → from_of s ≤ sm_last s → bodies (sm_out s) = slice (from_of s) (sm_last s) E →
  sm_out s0 = sm_out s → same_stream s s0 → yield_event g s0 e next = (f', s') → next ≠ SmEnded →
  sm_last s < e_seq e → e ∈ E → slice (sm_last s) (e_seq e) E = [e] →
  (let b := default (e_seq e) (list.last (e_seq <$> phase_rest next)) in
   phase_rest next = slice (e_seq e) b E ∧ chain E b Q ∧ ∀ x, x ∈ E → ¬ pend x → e_seq x ≤ top b Q) →
  complete_ok E Q pend s'.
Proof.
  intros HE Hle Hdone Eo (_ & _ & Ea & _) Hy Hn Hlt He Hsl (Hr & Hc & Ht).
  destruct (yield_event_effect _ _ _ _ _ _ Hy Hn) as ((_ & _ & Ea' & _) & _ & El' & Eo' & Hph).
  assert (from_of s' = from_of s) as Ef by (unfold from_of; by rewrite Ea', Ea).
  assert (¬ ended s' → rest_of s' = phase_rest next) as Hrest.
  { intros Hne. unfold rest_of, phase_rest. by destruct Hph as [-> |]. }
  assert (¬ ended s' → eff s' = default (e_seq e) (list.last (e_seq <$> phase_rest next))) as Heff.
  { intros Hne. unfold eff. by rewrite Hrest, El'. }
  split.
  - rewrite Ef, El', Eo', bodies_snoc, Eo, Hdone. rewrite (slice_append _ (sm_last s) (e_seq e)), Hsl by (done || lia). done.
  - right. exists e. by rewrite El'.
  - intros Hne. by rewrite Hrest, El', Heff.
  - intros Hne. right. by rewrite Heff.
  - intros Hne. right. by rewrite Heff.
Qed.
(** A step that yields nothing stored and reads nothing. *)
Lemma complete_phase E Q Q' pend s s' :
  complete_ok E Q pend s → same_stream s s' → sm_last s' = sm_last s → bodies (sm_out s') = bodies (sm_out s) →
  rest_of s' = rest_of s → ¬ caught s →
  (¬ ended s' → caught s' ∨ (chain E (eff s) Q → chain E (eff s) Q') ∧ top (eff s) Q ≤ top (eff s) Q') →
  (¬ ended s' → ¬ ended s) → complete_ok E Q' pend s'.
Proof.
  intros [H1 H2 H3 H4 H5] (_ & _ & Ea & _) El Eo Er Hc HQ He.
  assert (from_of s' = from_of s) as Ef by (unfold from_of; by rewrite Ea).
  assert (eff s' = eff s) as Eeff by (unfold eff; by rewrite Er, El).
  split; rewrite ?Ef, ?El, ?Eo, ?Er, ?Eeff; try done; intros Hne.
  - apply H3, He, Hne.
  - destruct (HQ Hne) as [|[Hq _]]; [by left|]. right. destruct (H4 (He Hne)); [done|]. by apply Hq.
  - destruct (HQ Hne) as [|[_ Hq]]; [by left|]. right. destruct (H5 (He Hne)) as [|Ht]; [done|].
    intros e Hin Hp. specialize (Ht e Hin Hp). lia.
Qed.
(** Reading the stored events above [last]. *)
Lemma complete_read E Q pend s s' :
  numbered E → complete_ok E Q pend s → same_stream s s' → sm_last s' = sm_last s → sm_out s' = sm_out s →
  rest_of s' = above (sm_last s) E → complete_ok E Q pend s'.
Proof.
  intros HE [H1 H2 _ _ _] (_ & _ & Ea & _) El Eo Er. destruct (above_slice (sm_last s) E HE) as [Hs Hall].
  assert (eff s' = default (sm_last s) (list.last (e_seq <$> above (sm_last s) E))) as Eeff by (unfold eff; by rewrite Er, El).
  assert (from_of s' = from_of s) as Ef by (unfold from_of; by rewrite Ea).
  assert (∀ e, e ∈ E → e_seq e ≤ eff s') as Hle.
  { intros e He. rewrite Eeff. destruct (Hall e He) as [|Hle]; [done|]. etrans; [exact Hle|].
    destruct (above (sm_last s) E) as [|y l] eqn:Ey using rev_ind; simpl; [lia|]. clear IHl.
    rewrite (fmap_snoc e_seq), last_snoc. simpl. assert (y ∈ above (sm_last s) E) as Hy by (rewrite Ey; set_solver).
    apply list_elem_of_filter in Hy. lia. }
  split; rewrite ?Ef, ?El, ?Eo; try done; intros _.
  - by rewrite Er, Eeff.
  - right. by apply chain_all.
  - right. intros e He _. etrans; [by apply Hle|apply top_base].
Qed.
Lemma complete_step d f s op f' s' pend :
  db_ok d → let E := session_events d (sm_tenant s) (sm_session s) in
  stream_step d f s op = Some (f', s') → stream_ok E (queue_of f (sm_queue s)) s →
  complete_ok E (queue_of f (sm_queue s)) pend s → complete_ok E (queue_of f' (sm_queue s)) pend s'.
Proof.
  intros Hd E H Hs Hc. assert (numbered E) as HE by by apply session_numbered.
  unfold stream_step in H. destruct (decide (op = SoClose)) as [->|Hop].
  { destruct Hc as [H1 H2 _ _ _].
    assert (complete_ok E (queue_of f (sm_queue s)) pend (set_phase s SmEnded)) as Hend by (split; done).
    destruct (sm_phase s); try done; injection H as <- <-; by rewrite queue_of_unsubscribe. }
  assert (∀ e rest mk, (∀ r, mk r ≠ SmEnded ∧ phase_rest (mk r) = r) → sm_phase s = mk (e :: rest) →
    yield_event f s e (mk rest) = (f', s') → complete_ok E (queue_of f' (sm_queue s)) pend s') as Hgo.
  { intros e rest mk Hmk Hp Hy. assert (rest_of s = e :: rest) as Er.
    { rewrite <- (proj2 (Hmk (e :: rest))), <- Hp. done. }
    assert (¬ ended s) as Hne by (unfold ended; rewrite Hp; apply Hmk).
    assert (¬ caught s) as Hnc.
    { intros [Hc'|[poll Hc']]; specialize (Hmk (e :: rest)); rewrite <- Hp, Hc' in Hmk; by destruct Hmk. }
    destruct (slice_cons (sm_last s) (eff s) E e rest HE) as (Hs1 & Hs2 & Hr).
    { by rewrite <- (cp_rest _ _ _ _ Hc Hne). }
    assert (default (e_seq e) (list.last (e_seq <$> rest)) = eff s) as Eeff.
    { unfold eff. rewrite Er. destruct rest as [|y l]; [done|].
      change (list.last (e_seq <$> e :: y :: l)) with (list.last (e_seq <$> y :: l)).
      assert (is_Some (list.last (e_seq <$> y :: l))) as [z ->] by by apply last_is_Some. done. }
    assert (queue_of f' (sm_queue s) = queue_of f (sm_queue s)) as ->.
    { unfold yield_event in Hy. destruct (stream_ended _); injection Hy as <- _; [apply queue_of_unsubscribe|done]. }
    eapply complete_yield; [done|apply Hs|apply Hc|done|done|exact Hy|apply Hmk|lia| |done|].
    - assert (e ∈ slice (sm_last s) (e_seq e) E) as [He _]%slice_in by (rewrite Hs1; left). done.
    - rewrite (proj2 (Hmk rest)), Eeff. split_and!; [done| |].
      + by destruct (cp_queue _ _ _ _ Hc Hne).
      + by destruct (cp_told _ _ _ _ Hc Hne). }
  destruct op, (sm_phase s) as [|[|e rest]| |poll|poll [|e rest]| |] eqn:Hp; try done.
  - injection H as <- <-. destruct (so_start _ _ _ Hs Hp) as [El _].
    eapply complete_read; [done|exact Hc|done|done|done|]. unfold rest_of. simpl. rewrite El. unfold from_of.
    destruct (sm_after s) as [n|]; simpl; [by rewrite list_events_above by done|by rewrite list_events_all by done].
  - injection H as <- <-. eapply complete_phase; [exact Hc|done|done|done|unfold rest_of; by rewrite Hp| | |].
    + by intros [Hx|[poll Hx]]; rewrite Hp in Hx.
    + intros _. right. done.
    + intros _. unfold ended. by rewrite Hp.
  - apply (inj Some) in H. by apply (Hgo e rest SmReplay).
  - assert (rest_of s = []) as Er by (unfold rest_of; by rewrite Hp).
    assert (¬ caught s) as Hnc by (by intros [Hx|[poll Hx]]; rewrite Hp in Hx).
    assert (¬ ended s) as Hne by (unfold ended; by rewrite Hp).
    destruct (fo_queues f !! sm_queue s) as [[|m rest]|] eqn:Hq; try done. apply (inj Some) in H.
    assert (queue_of f (sm_queue s) = m :: rest) as Hq' by (unfold queue_of; by rewrite Hq).
    assert (queue_of (pop f (sm_queue s) rest) (sm_queue s) = rest) as Hpop by apply queue_of_pop.
    change (Fanout _ _ _) with (pop f (sm_queue s) rest) in H. rewrite Hq' in Hc.
    destruct (cp_queue _ _ _ _ Hc Hne) as [|[Hm Hchain]]; [done|].
    destruct (cp_told _ _ _ _ Hc Hne) as [|Ht]; [done|].
    pose proof (so_queue _ _ _ Hs) as HQ. rewrite Hq' in HQ. apply Forall_cons in HQ as [Htold _].
    rewrite (eff_nil s Er) in *.
    assert (∀ s1, pop f (sm_queue s) rest = f' → s1 = s' → same_stream s s1 → sm_last s1 = sm_last s →
      bodies (sm_out s1) = bodies (sm_out s) → sm_phase s1 = SmWait → bump (sm_last s) m = sm_last s →
      complete_ok E (queue_of f' (sm_queue s)) pend s') as Hkeep.
    { intros s1 <- <- E1 E2 E3 Ep Eb. rewrite Hpop. eapply complete_phase; [exact Hc|done|done|done| |done| |done].
      - unfold rest_of. by rewrite Ep, Hp.
      - intros _. right. rewrite (eff_nil s Er). unfold top. simpl. rewrite Eb. split; [by intros [_ Hx]|done]. }
    unfold take_message in H. destruct m as [n|e|type data].
    + destruct (n <=? sm_last s) eqn:Hle; injection H as E1 E2.
      * apply Z.leb_le in Hle. eapply Hkeep; [exact E1|exact E2|done|done|done|done|]. apply bump_le. intros n' [= <-]. done.
      * subst. rewrite Hpop. eapply complete_phase; [exact Hc|done|done|done|unfold rest_of; by rewrite Hp|done| |done].
        intros _. left. right. by eexists.
    + destruct (e_seq e <=? sm_last s) eqn:Hle.
      * apply Z.leb_le in Hle. injection H as E1 E2. eapply Hkeep; [exact E1|exact E2|done|done|done|done|].
        apply bump_le. intros n' [= <-]. done.
      * apply Z.leb_gt in Hle.
        assert (queue_of f' (sm_queue s) = rest) as ->.
        { unfold yield_event in H. destruct (stream_ended _); injection H as <- _; [by rewrite queue_of_unsubscribe|done]. }
        assert (bump (sm_last s) (MBody e) = e_seq e) as Eb by (unfold bump; simpl; lia).
        eapply complete_yield with (s0 := set_ping_at s 0); [done|apply Hs|apply Hc|done|done|exact H|done|done|done|by apply slice_next|].
        simpl. split_and!; [by rewrite slice_empty|by rewrite <- Eb|]. intros x Hx Hp'. specialize (Ht x Hx Hp').
        unfold top in *. simpl in Ht. by rewrite Eb in Ht.
    + injection H as E1 E2. eapply Hkeep; [exact E1|exact E2|done|done| |done|].
      * simpl. by rewrite bodies_snoc, app_nil_r.
      * by apply bump_le.
  - injection H as <- <-. eapply complete_read; [done|exact Hc|done|done|done|]. unfold rest_of. simpl. by rewrite list_events_above by done.
  - injection H as <- <-. eapply complete_phase; [exact Hc| | | | | | |].
    1-4: unfold after_read; repeat case_match; try done; unfold rest_of; simpl; by rewrite Hp.
    + by intros [Hx|[p' Hx]]; rewrite Hp in Hx.
    + intros _. right. done.
    + intros _. unfold ended. by rewrite Hp.
  - apply (inj Some) in H. by apply (Hgo e rest (SmNew poll)).
  - injection H as <- <-. eapply complete_phase; [exact Hc|done|done|simpl; by rewrite bodies_snoc, app_nil_r|unfold rest_of; simpl; by rewrite Hp| | |].
    + by intros [Hx|[p' Hx]]; rewrite Hp in Hx.
    + intros _. right. done.
    + intros _. unfold ended. by rewrite Hp.
  - destruct (fo_queues f !! sm_queue s) as [[|m rest]|] eqn:Hq; try done; injection H as <- <-;
      (eapply complete_phase; [exact Hc|done|done|done|unfold rest_of; simpl; by rewrite Hp| | |]);
      [by intros [Hx|[p' Hx]]; rewrite Hp in Hx|intros _; left; right; by eexists|intros _; unfold ended; by rewrite Hp| |
       |]; try (by intros [Hx|[p' Hx]]; rewrite Hp in Hx); try (intros _; left; right; by eexists); try (intros _; unfold ended; by rewrite Hp).
Qed.

(** *** The replica when bodies are published in order *)

Definition pending_in (r : replica) (e : event_row) : Prop := ∃ j l, bs_publishers r !! j = Some l ∧ e ∈ l.
Definition gapless_ok (owner : uuid → uuid) (r : replica) : Prop :=
  replica_ok owner r ∧ ∀ i s, bs_streams r !! i = Some s →
    complete_ok (events_of owner r (sm_session s)) (queue_of (bs_fan r) (sm_queue s)) (pending_in r) s.

Lemma ordered_replica owner r r' : ordered_step owner r r' → replica_step owner r r'.
Proof. destruct 1; [by eapply RsOpen|by eapply RsStream|by eapply RsCommit|by eapply RsPublish|by eapply RsWake|by apply RsLive]. Qed.
Lemma complete_dispatch E Q m (pend pend' : event_row → Prop) s :
  complete_ok E Q pend s →
  (¬ ended s → ¬ caught s → ∀ e, m = MBody e → ∀ x, x ∈ E → e_seq x < e_seq e → ¬ pend x) →
  (∀ x, x ∈ E → ¬ pend' x → ¬ pend x ∨ MBody x = m) →
  complete_ok E (Q ++ [m]) pend' s.
Proof.
  intros [H1 H2 H3 H4 H5] Hord Hpend. split; try done; intros Hne.
  - destruct (H4 Hne) as [|Hc]; [by left|]. destruct (H5 Hne) as [|Ht]; [by left|].
    assert (caught s ∨ ¬ caught s) as [|Hnc].
    { unfold caught. destruct (sm_phase s); (left; by left) || (left; right; by eexists) || (right; naive_solver). }
    { by left. }
    right. apply chain_snoc; [done|]. intros e -> x Hx Hlt. apply Ht; [done|]. by eapply (Hord Hne Hnc e).
  - destruct (H5 Hne) as [|Ht]; [by left|]. right. intros e He Hp. rewrite top_snoc. unfold bump.
    destruct (Hpend e He Hp) as [Hp'|<-]; [|simpl; lia].
    specialize (Ht e He Hp'). destruct (message_seq m); simpl; lia.
Qed.
Lemma complete_pend E Q (pend pend' : event_row → Prop) s :
  complete_ok E Q pend s → (¬ ended s → ∀ x, x ∈ E → pend x → pend' x) → complete_ok E Q pend' s.
Proof.
  intros [H1 H2 H3 H4 H5] Hp. split; try done. intros Hne. destruct (H5 Hne) as [|Ht]; [by left|]. right.
  intros e He Hn. apply Ht; [done|]. intros Hpe. apply Hn. by apply Hp.
Qed.
Lemma complete_grow E new Q (pend pend' : event_row → Prop) s :
  numbered (E ++ new) → Forall (told E) Q → complete_ok E Q pend s → 
  (∀ x, pend x → pend' x) → (∀ x, x ∈ new → pend' x) → complete_ok (E ++ new) Q pend' s.
Proof.
  intros HE HQ [H1 H2 H3 H4 H5] Hp Hnew. split.
  - rewrite slice_grow; [done|done|]. destruct H2 as [H|H]; [left; lia|by right].
  - destruct H2 as [H|(e & He & Hs)]; [by left|]. right. exists e. split; [|done]. apply elem_of_app. by left.
  - intros Hne. rewrite slice_grow; [by apply H3|done|]. unfold eff.
    destruct (list.last (e_seq <$> rest_of s)) as [z|] eqn:El; simpl; [|left; lia]. right.
    apply last_Some_elem_of in El. apply list_elem_of_fmap in El as (e & -> & He). exists e. split; [|done].
    rewrite (H3 Hne) in He. by apply slice_in in He as [He _].
  - intros Hne. destruct (H4 Hne) as [|Hc]; [by left|]. right. by apply chain_grow.
  - intros Hne. destruct (H5 Hne) as [|Ht]; [by left|]. right. intros e [He|He]%elem_of_app Hn.
    + apply Ht; [done|]. naive_solver.
    + exfalso. auto.
Qed.
Lemma events_at_session owner d sid e : e ∈ events_at owner d sid → e_session e = sid.
Proof. unfold events_at, session_events. rewrite list_elem_of_filter. intros [[_ H]%bool_decide_eq_true _]. done. Qed.
Lemma queue_told owner r i s : replica_ok owner r → bs_streams r !! i = Some s →
  Forall (told (events_of owner r (sm_session s))) (queue_of (bs_fan r) (sm_queue s)).
Proof. intros Hr Hs. apply (rk_stream _ _ Hr _ _ Hs). Qed.
Lemma gapless_step owner r r' : gapless_ok owner r → ordered_step owner r r' → gapless_ok owner r'.
Proof.
  intros [Hr Hc] Hstep. split; [by eapply replica_step_ok, ordered_replica|].
  destruct Hstep as [r i sid after ping interval f s Hi Ho|r i s op f s' Hi Hs|r now l d pubs j Hp Hj
    |r j e rest Hj Hold|r sid e He|r sid type data]; simpl.
  - destruct (fan_open _ _ _ _ _ _ _ _ _ _ (rk_fan _ _ Hr) Hi Ho) as (_ & Hq & Hnew).
    intros j t. rewrite lookup_insert_Some. intros [[_ <-]|[_ Ht]].
    + unfold stream_open in Ho. simpl in Ho. injection Ho as _ <-.
      split; simpl; unfold from_of; simpl; [by rewrite slice_empty|by left|by rewrite slice_empty|left; by left|left; by left].
    + destruct (fk_queue _ _ (rk_fan _ _ Hr) _ _ Ht) as [Hlt _]. rewrite Hq by done. exact (Hc _ _ Ht).
  - destruct (replica_stream _ _ _ _ _ _ _ Hr Hi Hs) as (_ & (Et & Es & Ea & Eq) & Hother).
    intros j t. rewrite lookup_insert_Some. intros [[_ <-]|[Hne Ht]].
    + rewrite Es, Eq. pose proof (rk_stream _ _ Hr _ _ Hi) as Hok. pose proof (Hc _ _ Hi) as Hci.
      pose proof (rk_tenant _ _ Hr _ _ Hi) as Ht. unfold events_of, events_at in *. simpl. rewrite <- Ht in *.
      exact (complete_step _ _ _ _ _ _ _ (rk_db _ _ Hr) Hs Hok Hci).
    + rewrite (Hother j t Ht (not_eq_sym Hne)). exact (Hc _ _ Ht).
  - destruct (persist_all_stored _ _ _ _ _ _ Hp (rk_db _ _ Hr)) as (Hok & _ & Hev).
    intros i s Hs. unfold events_of. simpl. rewrite Hev. eapply complete_grow; [|by eapply queue_told|exact (Hc _ _ Hs)| |].
    + unfold events_of. rewrite <- Hev. by apply session_numbered.
    + intros x (j' & l' & Hl & Hx). exists j', l'. simpl. split; [|done]. rewrite lookup_insert_ne; [done|congruence].
    + intros x [_ Hx]%list_elem_of_filter. exists j, (stored_of pubs). simpl. by rewrite lookup_insert_eq.
  - destruct (fan_dispatch _ _ (e_session e) (MBody e) (rk_fan _ _ Hr)) as [_ Hq]. set (r' := Replica _ _ _ _).
    assert (∀ x, pending_in r x → pending_in r' x ∨ x = e) as Hpend.
    { intros x (j' & l' & Hl & Hx). destruct (decide (j' = j)) as [->|Hne].
      - rewrite Hj in Hl. injection Hl as <-. apply elem_of_cons in Hx as [->|Hx]; [by right|]. left.
        exists j, rest. simpl. by rewrite lookup_insert_eq.
      - left. exists j', l'. simpl. by rewrite lookup_insert_ne. }
    intros i s Hs. rewrite (Hq _ _ Hs). case_decide as Hin.
    + apply (fk_session _ _ (rk_fan _ _ Hr) _ _ _ Hs) in Hin as Hsess.
      eapply complete_dispatch; [exact (Hc _ _ Hs)| |].
      * intros _ _ e' [= <-] x Hx Hlt (j' & l' & Hl & Hx'). 
        assert (e_session x = e_session e) as Ex by (rewrite Hsess; by eapply events_at_session).
        pose proof (Hold _ _ _ Hl Hx' Ex). lia.
      * intros x Hx Hn. assert (e ∈ events_of owner r (sm_session s)) as He.
        { rewrite <- Hsess. eapply rk_pub; [done|exact Hj|left]. }
        destruct (decide (e_seq x = e_seq e)) as [E|E].
        -- right. f_equal. eapply numbered_same; [|exact Hx|exact He|done]. by apply session_numbered, Hr.
        -- left. intros Hp. apply Hpend in Hp. naive_solver.
    + rewrite app_nil_r. eapply complete_pend; [exact (Hc _ _ Hs)|]. intros Hne x Hx Hp. destruct (Hpend x Hp) as [| ->]; [done|].
      exfalso. apply Hin. rewrite (events_at_session owner (bs_db r) (sm_session s) e Hx).
      by apply (fk_live _ _ (rk_fan _ _ Hr) _ _ Hs).
  - intros i s Hs. destruct (fan_dispatch _ _ sid (MWake (e_seq e)) (rk_fan _ _ Hr)) as [_ Hq]. rewrite (Hq _ _ Hs).
    case_decide; [|rewrite app_nil_r; exact (Hc _ _ Hs)]. eapply complete_dispatch; [exact (Hc _ _ Hs)|done|by left].
  - intros i s Hs. destruct (fan_dispatch _ _ sid (MLive type data) (rk_fan _ _ Hr)) as [_ Hq]. rewrite (Hq _ _ Hs).
    case_decide; [|rewrite app_nil_r; exact (Hc _ _ Hs)]. eapply complete_dispatch; [exact (Hc _ _ Hs)|done|by left].
Qed.
Lemma ordered_reach_ok owner d r : db_ok d → ordered_reach owner d r → gapless_ok owner r.
Proof.
  intros Hd. induction 1; [|by eapply gapless_step]. split; [by apply replica_start|]. intros i s Hs. done.
Qed.

(** C18: When all events of a session are stored by the replica that has the stream (no other
    replica commits any: [ordered_step] has no such step), and are published in the order of
    their numbers, the stream has yielded exactly the stored events from the number the
    client gave up to the last one it yielded, however many streams and publishing tasks
    there are and whatever wakes arrive.  With another replica's commits in between a stream
    can skip events until it reads the database again. *)
Theorem stream_gapless owner d r i s :
  db_ok d → ordered_reach owner d r → bs_streams r !! i = Some s →
  bodies (sm_out s) = slice (from_of s) (sm_last s) (events_of owner r (sm_session s)).
Proof. intros Hd Hr Hs. destruct (ordered_reach_ok _ _ _ Hd Hr) as [_ Hc]. apply (Hc _ _ Hs). Qed.

(** ** Catching up *)

Fixpoint stream_run (d : db) (f : fanout) (s : stream) (ops : list stream_op) : option (fanout * stream) :=
  match ops with
  | [] => Some (f, s)
  | op :: ops => '(f, s) ← stream_step d f s op; stream_run d f s ops
  end.
Lemma run_rest d f s poll rest :
  sm_phase s = SmNew poll rest → Forall (λ e, stream_ended (e_type e) = false) rest →
  ∃ s', stream_run d f s (replicate (length rest) SoGo) = Some (f, s')
    ∧ bodies (sm_out s') = bodies (sm_out s) ++ rest ∧ sm_last s' = default (sm_last s) (list.last (e_seq <$> rest)).
Proof.
  revert s. induction rest as [|e rest IH]; intros s Hp Hend.
  { exists s. by rewrite app_nil_r. }
  apply Forall_cons in Hend as [He Hend]. set (s1 := set_phase (add_out (set_last s (e_seq e)) (YBody e)) (SmNew poll rest)).
  assert (stream_step d f s SoGo = Some (f, s1)) as Hone by (unfold stream_step, yield_event; by rewrite Hp, He).
  cbn [length replicate stream_run]. rewrite Hone. cbn [mbind option_bind].
  destruct (IH s1 eq_refl Hend) as (s' & Hrun & Hout & Hlast). exists s'. split; [done|]. split.
  - rewrite Hout. unfold s1. simpl. rewrite bodies_snoc, <- app_assoc. done.
  - rewrite Hlast. destruct rest as [|y rest]; [done|].
    change (list.last (e_seq <$> e :: y :: rest)) with (list.last (e_seq <$> y :: rest)).
    assert (is_Some (list.last (e_seq <$> y :: rest))) as [z ->] by by apply last_is_Some. done.
Qed.
(** Whatever was lost before, a poll brings a waiting stream up to date: when its queue
    is empty, the timeout, the read and one step for each event yield every stored event
    above the last one, and no stored event is above the last then. *)
Theorem stream_catches_up owner d r i s :
  db_ok d → replica_reach owner d r → bs_streams r !! i = Some s → sm_phase s = SmWait →
  queue_of (bs_fan r) (sm_queue s) = [] →
  let E := events_of owner r (sm_session s) in let new := above (sm_last s) E in
  Forall (λ e, stream_ended (e_type e) = false) new →
  ∃ s', stream_run (bs_db r) (bs_fan r) s (SoTimeout :: SoGo :: replicate (length new) SoGo) = Some (bs_fan r, s')
    ∧ bodies (sm_out s') = bodies (sm_out s) ++ new ∧ ∀ e, e ∈ E → e_seq e ≤ sm_last s'.
Proof.
  intros Hd Hr Hs Hp Hq E new Hend. pose proof (replica_reach_ok _ _ _ Hd Hr) as Hok.
  assert (numbered E) as HE by by apply session_numbered, Hok.
  set (s1 := set_phase s (SmRead true)). set (s2 := set_phase s1 (SmNew true new)).
  assert (stream_step (bs_db r) (bs_fan r) s SoTimeout = Some (bs_fan r, s1)) as Hpoll.
  { unfold stream_step. rewrite Hp. unfold queue_of in Hq. destruct (fo_queues (bs_fan r) !! sm_queue s) as [[|]|]; done. }
  assert (stream_step (bs_db r) (bs_fan r) s1 SoGo = Some (bs_fan r, s2)) as Hread.
  { unfold stream_step. simpl. do 4 f_equal. unfold s1. simpl. rewrite (rk_tenant _ _ Hok _ _ Hs).
    by rewrite list_events_above by apply Hok. }
  destruct (run_rest (bs_db r) (bs_fan r) s2 true new eq_refl Hend) as (s' & Hrun & Hout & Hlast).
  exists s'. split_and!.
  - cbn [stream_run]. rewrite Hpoll. cbn [mbind option_bind]. rewrite Hread. exact Hrun.
  - by rewrite Hout.
  - intros e He. rewrite Hlast. change (sm_last s2) with (sm_last s). fold E in new.
    destruct (above_slice (sm_last s) E HE) as [_ Hall]. fold new in Hall.
    destruct (Hall e He) as [|Hle]; [done|]. etrans; [exact Hle|].
    destruct new as [|y l] eqn:Ey using rev_ind; simpl; [lia|]. clear IHl.
    rewrite (fmap_snoc e_seq), last_snoc. simpl. assert (y ∈ above (sm_last s) E) as Hy by (fold new; rewrite Ey; set_solver).
    apply list_elem_of_filter in Hy. lia.
Qed.

(** ** What is skipped stays skipped *)

Lemma stream_step_out E Q d f s op f' s' :
  stream_ok E Q s → stream_step d f s op = Some (f', s') →
  (bodies (sm_out s') = bodies (sm_out s) ∧ sm_last s' = sm_last s)
  ∨ ∃ e, sm_last s < e_seq e ∧ bodies (sm_out s') = bodies (sm_out s) ++ [e] ∧ sm_last s' = e_seq e.
Proof.
  intros Hs H. assert (∀ g s0 e next, sm_last s < e_seq e → sm_out s0 = sm_out s → yield_event g s0 e next = (f', s') → next ≠ SmEnded →
    ∃ e, sm_last s < e_seq e ∧ bodies (sm_out s') = bodies (sm_out s) ++ [e] ∧ sm_last s' = e_seq e) as Hy.
  { intros g s0 e next Hlt Eo Hy Hn. destruct (yield_event_effect _ _ _ _ _ _ Hy Hn) as (_ & _ & El & Eo' & _).
    exists e. split_and!; [done| |done]. by rewrite Eo', bodies_snoc, Eo. }
  pose proof (so_rest _ _ _ Hs) as [_ Hrest]. unfold rest_of in Hrest.
  unfold stream_step in H. destruct op, (sm_phase s) as [|[|e rest]| |poll|poll [|e rest]| |] eqn:Hp; try done;
    try (injection H as <- <-; left; split; [|done]; simpl; rewrite ?bodies_snoc, ?app_nil_r; done).
  - apply (inj Some) in H. apply Forall_cons in Hrest as [[Hlt _] _]. right. by eapply Hy.
  - destruct (fo_queues f !! sm_queue s) as [[|m rest]|]; try done. apply (inj Some) in H. unfold take_message in H.
    destruct m as [n|e|type data].
    + destruct (n <=? sm_last s); injection H as <- <-; by left.
    + destruct (e_seq e <=? sm_last s) eqn:Hle; [injection H as <- <-; by left|]. apply Z.leb_gt in Hle. right. eapply (Hy _ (set_ping_at s 0)); [exact Hle|done|exact H|done].
    + injection H as <- <-. left. split; [|done]. simpl. by rewrite bodies_snoc, app_nil_r.
  - injection H as <- <-. left. unfold after_read. by repeat case_match.
  - apply (inj Some) in H. apply Forall_cons in Hrest as [[Hlt _] _]. right. by eapply Hy.
  - destruct (fo_queues f !! sm_queue s) as [[|m rest]|]; try done; injection H as <- <-; by left.
Qed.
(** Later a stream only yields events above its last. *)
Definition later (s s' : stream) : Prop :=
  sm_last s ≤ sm_last s' ∧ ∃ more, bodies (sm_out s') = bodies (sm_out s) ++ more ∧ Forall (λ e, sm_last s < e_seq e) more.
Lemma later_trans s1 s2 s3 : later s1 s2 → later s2 s3 → later s1 s3.
Proof.
  intros (L1 & m1 & E1 & F1) (L2 & m2 & E2 & F2). split; [lia|]. exists (m1 ++ m2).
  rewrite E2, E1, app_assoc. split; [done|]. apply Forall_app. split; [done|]. eapply list.Forall_impl; [exact F2|]. cbn. lia.
Qed.
Lemma later_refl s : later s s.
Proof. split; [lia|]. exists []. by rewrite app_nil_r. Qed.
Lemma replica_later owner r r' i s :
  replica_ok owner r → replica_step owner r r' → bs_streams r !! i = Some s → ∃ s', bs_streams r' !! i = Some s' ∧ later s s'.
Proof.
  intros Hr Hstep Hi. destruct Hstep as [r j sid after ping interval f t Hj Ho|r j t op f t' Hj Hs|r now l d pubs j Hp Hj|r now l d pubs Hp
    |r j e rest Hj|r sid e He|r sid type data]; try (exists s; split; [done|apply later_refl]).
  - exists s. split; [|apply later_refl]. simpl. rewrite lookup_insert_ne; [done|congruence].
  - simpl. destruct (decide (j = i)) as [->|Hne]; [|exists s; rewrite lookup_insert_ne by done; split; [done|apply later_refl]].
    rewrite Hi in Hj. injection Hj as <-. exists t'. rewrite lookup_insert_eq. split; [done|].
    destruct (stream_step_out _ _ _ _ _ _ _ _ (rk_stream _ _ Hr _ _ Hi) Hs) as [[E1 E2]|(e & Hlt & E1 & E2)].
    + split; [lia|]. exists []. by rewrite app_nil_r.
    + split; [lia|]. exists [e]. split; [done|]. by constructor.
Qed.
Lemma replica_later_rtc owner r r' i s :
  replica_ok owner r → rtc (replica_step owner) r r' → bs_streams r !! i = Some s → ∃ s', bs_streams r' !! i = Some s' ∧ later s s'.
Proof.
  intros Hr H. revert s Hr. induction H as [r|r1 r2 r3 Hstep _ IH]; intros s Hr Hi; [exists s; split; [done|apply later_refl]|].
  destruct (replica_later _ _ _ _ _ Hr Hstep Hi) as (s2 & Hi2 & L1).
  destruct (IH s2 (replica_step_ok _ _ _ Hr Hstep) Hi2) as (s3 & Hi3 & L2). exists s3. split; [done|]. by eapply later_trans.
Qed.

(** ** Runs that are computed *)

Inductive replica_op : Type :=
| OpOpen (i : nat) (sid : uuid) (after : option Z)
| OpStream (i : nat) (op : stream_op)
| OpCommit (j : nat) (l : list (uuid * uuid * string * list (string * json)))
| OpPublish (j : nat).
Definition es_owner (sid : uuid) : uuid := 1%N.
Definition is_oldest (r : replica) (e : event_row) : bool :=
  forallb (λ p : nat * list event_row, forallb (λ e', negb (bool_decide (e_session e' = e_session e)) || (e_seq e <=? e_seq e')) p.2)
    (map_to_list (bs_publishers r)).
(** [strict]: a publication has to be the oldest of its session. *)
Definition replica_op_run (strict : bool) (r : replica) (op : replica_op) : option replica :=
  match op with
  | OpOpen i sid after =>
      match bs_streams r !! i with
      | None => let '(f, s) := stream_open (bs_fan r) (es_owner sid) sid after true 3000 in Some (set_stream r f i s)
      | Some _ => None
      end
  | OpStream i op =>
      s ← bs_streams r !! i; '(f, s) ← stream_step (bs_db r) (bs_fan r) s op; Some (set_stream r f i s)
  | OpCommit j l =>
      match persist_all es_owner (bs_db r) 5 l, bs_publishers r !! j with
      | Ok (d, pubs), None => Some (Replica d (bs_fan r) (bs_streams r) (<[j := stored_of pubs]> (bs_publishers r)))
      | _, _ => None
      end
  | OpPublish j =>
      match bs_publishers r !! j with
      | Some (e :: rest) =>
          if strict && negb (is_oldest r e) then None
          else Some (Replica (bs_db r) (dispatch (bs_fan r) (e_session e) (MBody e)) (bs_streams r) (<[j := rest]> (bs_publishers r)))
      | _ => None
      end
  end.
Fixpoint replica_ops_run (strict : bool) (r : replica) (ops : list replica_op) : option replica :=
  match ops with [] => Some r | op :: ops => r ← replica_op_run strict r op; replica_ops_run strict r ops end.
Lemma is_oldest_ok r e : is_oldest r e = true → oldest r e.
Proof.
  unfold is_oldest, oldest. rewrite forallb_forall. intros H j l e' Hj He Es.
  assert ((j, l) ∈ map_to_list (bs_publishers r)) as Hin by by apply elem_of_map_to_list.
  apply list_elem_of_In in Hin. apply H in Hin. cbn [snd] in Hin. rewrite forallb_forall in Hin.
  apply list_elem_of_In in He. apply Hin in He. rewrite bool_decide_eq_true_2 in He by done. simpl in He. lia.
Qed.
Lemma op_ordered r op r' : replica_op_run true r op = Some r' → ordered_step es_owner r r'.
Proof.
  destruct op as [i sid after|i op|j l|j]; unfold replica_op_run.
  - destruct (bs_streams r !! i) eqn:Hi; [done|]. destruct (stream_open _ _ _ _ _ _) as [f s] eqn:Ho.
    intros <-%(inj Some). by eapply OsOpen.
  - destruct (bs_streams r !! i) as [s|] eqn:Hi; [|done]. cbn [mbind option_bind].
    destruct (stream_step _ _ _ _) as [[f s']|] eqn:Hs; [|done]. intros <-%(inj Some). by eapply OsStream.
  - destruct (persist_all _ _ _ _) as [[d pubs]|] eqn:Hp; [|done]. destruct (bs_publishers r !! j) eqn:Hj; [done|].
    intros <-%(inj Some). by eapply OsCommit.
  - destruct (bs_publishers r !! j) as [[|e rest]|] eqn:Hj; try done. destruct (is_oldest r e) eqn:Ho; [|done].
    intros <-%(inj Some). apply OsPublish; [done|by apply is_oldest_ok].
Qed.
Lemma op_replica r op r' : replica_op_run false r op = Some r' → replica_step es_owner r r'.
Proof.
  destruct op as [i sid after|i op|j l|j].
  { intros H. apply ordered_replica. exact (op_ordered r (OpOpen i sid after) r' H). }
  { intros H. apply ordered_replica. exact (op_ordered r (OpStream i op) r' H). }
  { intros H. apply ordered_replica. exact (op_ordered r (OpCommit j l) r' H). }
  unfold replica_op_run. destruct (bs_publishers r !! j) as [[|e rest]|] eqn:Hj; try done.
  intros <-%(inj Some). by apply RsPublish.
Qed.
Lemma ops_ordered d r ops r' : ordered_reach es_owner d r → replica_ops_run true r ops = Some r' → ordered_reach es_owner d r'.
Proof.
  revert r. induction ops as [|op ops IH]; intros r Hr; cbn [replica_ops_run]; [by intros <-%(inj Some)|].
  destruct (replica_op_run true r op) as [r1|] eqn:E; [|done]. apply IH. eapply OrderedStep; [done|by apply (op_ordered _ op)].
Qed.
Lemma ops_reach d r ops r' : replica_reach es_owner d r → replica_ops_run false r ops = Some r' → replica_reach es_owner d r'.
Proof.
  revert r. induction ops as [|op ops IH]; intros r Hr; cbn [replica_ops_run]; [by intros <-%(inj Some)|].
  destruct (replica_op_run false r op) as [r1|] eqn:E; [|done]. apply IH. eapply ReplicaStep; [done|by apply (op_replica _ op)].
Qed.

Definition es_row : session_row :=
  SessionRow 2 1 None "key" None None "idle" (JObj []) (JObj []) (JArr []) (LeaseCols None None None 0)
    (SandboxCols None None None None None None None None 0 None) None 0 0.
Definition es_db : db := Db {[ 2%N := es_row ]} [] [] [] [] [] [] [] ∅ (Acct [] [] []).
Definition es_start : replica := Replica es_db new_fanout ∅ ∅.
Lemma es_db_ok : db_ok es_db.
Proof.
  split; try (by apply NoDup_nil_2); [|done]. intros sid r. unfold es_db. cbn [sessions].
  intros [<- <-]%lookup_singleton_Some. done.
Qed.
Definition es_event (eid : uuid) (type : string) : uuid * uuid * string * list (string * json) := (2%N, eid, type, []).
Definition seqs_of (r : replica) (i : nat) : list Z :=
  match bs_streams r !! i with Some s => e_seq <$> bodies (sm_out s) | None => [] end.
Definition stored_seqs (r : replica) : list Z := e_seq <$> events_of es_owner r 2.
Definition idle (r : replica) (i : nat) : bool :=
  match bs_streams r !! i with
  | Some s => match sm_phase s, queue_of (bs_fan r) (sm_queue s) with SmWait, [] => true | _, _ => false end
  | None => false end.

(** A task of the replica stores two events, another a third before the first has published both. *)
Definition es_commits : list replica_op :=
  [OpOpen 0 2 None; OpStream 0 SoGo; OpStream 0 SoGo;
   OpCommit 0 [es_event 11 "agent.session.idle"; es_event 12 "agent.session.error"]; OpCommit 1 [es_event 13 "agent.session.idle"]].
Definition gap_ops : list replica_op :=
  es_commits ++ [OpPublish 0; OpPublish 1; OpPublish 0; OpStream 0 SoGo; OpStream 0 SoGo; OpStream 0 SoGo].
Definition published (r : replica) : bool :=
  forallb (λ p : nat * list event_row, match p.2 with [] => true | _ => false end) (map_to_list (bs_publishers r)).
Definition last_of (r : replica) (i : nat) : option Z := sm_last <$> bs_streams r !! i.
Lemma gap_run_ok : match replica_ops_run false es_start gap_ops with
  | Some r => bool_decide (seqs_of r 0 = [1; 3]) && bool_decide (stored_seqs r = [1; 2; 3]) && idle r 0 && published r
              && bool_decide (last_of r 0 = Some 3)
  | None => false end = true.
Proof. vm_compute. reflexivity. Qed.
Lemma gap_run : ∃ r s, replica_reach es_owner es_db r ∧ bs_streams r !! 0%nat = Some s
  ∧ e_seq <$> bodies (sm_out s) = [1; 3] ∧ stored_seqs r = [1; 2; 3] ∧ sm_last s = 3
  ∧ idle r 0 = true ∧ published r = true.
Proof.
  pose proof gap_run_ok as Hrun. destruct (replica_ops_run false es_start gap_ops) as [r|] eqn:E; [|discriminate].
  assert (replica_reach es_owner es_db r) as Hr by (eapply ops_reach, E; constructor). clear E.
  apply andb_prop in Hrun as [Hrun Hl]. apply andb_prop in Hrun as [Hrun Hp]. apply andb_prop in Hrun as [Hrun Hi].
  apply andb_prop in Hrun as [Ho Hs]. apply bool_decide_eq_true in Hl, Hs, Ho. unfold last_of, seqs_of in *.
  destruct (bs_streams r !! 0%nat) as [s|] eqn:Es; [|discriminate]. apply (inj Some) in Hl.
  exists r, s. split_and!; auto.
Qed.
(** The stream can skip a stored event for good.  One task of the replica stores the
    events 1 and 2 of a session, another the event 3 before the first task has published
    both; the bodies are published in the order 1, 3, 2.  The stream yields 1 and 3 and
    drops the body of 2, and whatever happens on the replica afterwards (polls included)
    it never yields it. *)
Theorem stream_skips_event :
  ∃ r s, replica_reach es_owner es_db r ∧ bs_streams r !! 0%nat = Some s
    ∧ e_seq <$> bodies (sm_out s) = [1; 3] ∧ e_seq <$> events_of es_owner r 2 = [1; 2; 3]
    ∧ ∀ r' s', rtc (replica_step es_owner) r r' → bs_streams r' !! 0%nat = Some s' → ¬ 2 ∈ e_seq <$> bodies (sm_out s').
Proof.
  destruct gap_run as (r & s & Hr & Hs & Ho & Hst & Hl & _). exists r, s. split_and!; [exact Hr|exact Hs|exact Ho|exact Hst|].
  intros r' s' Hlater Hs' Hin. destruct (replica_later_rtc _ _ _ _ _ (replica_reach_ok _ _ _ es_db_ok Hr) Hlater Hs) as (t & Ht & _ & more & Eo & Hmore).
  rewrite Hs' in Ht. injection Ht as <-. rewrite Eo, fmap_app, Ho in Hin. rewrite Hl in Hmore.
  apply elem_of_app in Hin as [Hin|(e & Ee & He)%list_elem_of_fmap]; [set_solver by lia|].
  rewrite list.Forall_forall in Hmore. apply Hmore in He. lia.
Qed.

(** ** Concrete runs *)

(** The bodies of [es_commits] published in order, the stream taking them all. *)
Definition order_ops : list replica_op :=
  es_commits ++ [OpPublish 0; OpPublish 0; OpPublish 1; OpStream 0 SoGo; OpStream 0 SoGo; OpStream 0 SoGo].
Definition order_end : option (replica * stream) :=
  r ← replica_ops_run true es_start order_ops; s ← bs_streams r !! 0%nat; Some (r, s).
Lemma stream_gapless_witness : ∃ r s, order_end = Some (r, s) ∧ e_seq <$> bodies (sm_out s) = [1; 2; 3]
  ∧ bodies (sm_out s) = slice (from_of s) (sm_last s) (events_of es_owner r (sm_session s)).
Proof.
  destruct order_end as [[r s]|] eqn:E; [|exfalso; revert E; by vm_compute].
  exists r, s. split; [done|].
  assert (bool_decide ((λ p : replica * stream, e_seq <$> bodies (sm_out p.2)) <$> order_end = Some [1; 2; 3]) = true) as Hq by by vm_compute.
  apply bool_decide_eq_true in Hq. rewrite E in Hq. split; [by apply (inj Some)|].
  unfold order_end in E. destruct (replica_ops_run true es_start order_ops) as [r0|] eqn:Er; [|done]. cbn [mbind option_bind] in E.
  destruct (bs_streams r0 !! 0%nat) as [s0|] eqn:Es; [|done]. apply (inj Some) in E. injection E as -> ->.
  exact (stream_gapless es_owner es_db r 0%nat s es_db_ok (ops_ordered es_db _ _ _ (OrderedStart _ _) Er) Es).
Defined.
Lemma stream_in_order_witness : ∃ r s, replica_reach es_owner es_db r ∧ bs_streams r !! 0%nat = Some s
  ∧ e_seq <$> bodies (sm_out s) = [1; 3] ∧ numbered (bodies (sm_out s)).
Proof.
  destruct gap_run as (r & s & Hr & Hs & Ho & _). exists r, s. split_and!; [exact Hr|exact Hs|exact Ho|].
  exact (proj1 (stream_in_order es_owner es_db r 0%nat s es_db_ok Hr Hs)).
Defined.
(** Nothing is published: the stream waits with an empty queue and three events stored. *)
Lemma quiet_run_ok : match replica_ops_run false es_start es_commits with
  | Some r => match bs_streams r !! 0%nat with
    | Some s => idle r 0 && forallb (λ e, negb (stream_ended (e_type e))) (above (sm_last s) (events_of es_owner r (sm_session s)))
        && bool_decide (e_seq <$> above (sm_last s) (events_of es_owner r (sm_session s)) = [1; 2; 3])
    | None => false end
  | None => false end = true.
Proof. vm_compute. reflexivity. Qed.
Lemma stream_catches_up_witness : ∃ r s s', replica_reach es_owner es_db r ∧ bs_streams r !! 0%nat = Some s
  ∧ stream_run (bs_db r) (bs_fan r) s [SoTimeout; SoGo; SoGo; SoGo; SoGo] = Some (bs_fan r, s')
  ∧ ∀ e, e ∈ events_of es_owner r (sm_session s) → e_seq e ≤ sm_last s'.
Proof.
  pose proof quiet_run_ok as Hrun. destruct (replica_ops_run false es_start es_commits) as [r|] eqn:E; [|done].
  assert (replica_reach es_owner es_db r) as Hr by (eapply ops_reach, E; constructor).
  destruct (bs_streams r !! 0%nat) as [s|] eqn:Hs; [|done].
  apply andb_prop in Hrun as [Hrun Hn]. apply andb_prop in Hrun as [Hrun Hend].
  apply bool_decide_eq_true in Hn. unfold idle in Hrun. rewrite Hs in Hrun.
  assert (sm_phase s = SmWait) as Hw by by destruct (sm_phase s).
  assert (queue_of (bs_fan r) (sm_queue s) = []) as Hq by (rewrite Hw in Hrun; by destruct (queue_of (bs_fan r) (sm_queue s))).
  destruct (stream_catches_up es_owner es_db r 0%nat s es_db_ok Hr Hs Hw Hq) as (s' & Hend' & _ & Hall).
  - apply list.Forall_forall. intros e He. rewrite forallb_forall in Hend. apply list_elem_of_In, Hend in He. by destruct (stream_ended (e_type e)).
  - exists r, s, s'. split_and!; try done. apply (f_equal length) in Hn. rewrite length_fmap in Hn. by rewrite Hn in Hend'.
Defined.
