(* ===== verification/Files.v ===== *)
(** * Files and the sessions that use them (src/src/apipi/services/files.py, store/repo.py)

    A file is a row of the tenant and an object in the store.  A binding ties a file to a
    session, with the path a file of a message gets in the session's workspace.  Text
    that is cut by characters (names and paths) is a list of code points here. *)

From S2P Require Import Prelude PyStd Db Fleet Blobs.
From stdpp Require Import sorting.
From Stdlib Require OrdersEx.

Open Scope Z_scope.

(** ** Names and paths *)

Abbreviation text := (list N) (only parsing).
Definition lit (s : string) : list N := code <$> chars s.
(** The code points of a `str`. *)
Definition decoded (s : string) : list N := code_points (String.length s) (chars s).
(** `len(s.encode())` *)
Definition utf8_width (n : N) : Z := if (n <? 128)%N then 1 else if (n <? 2048)%N then 2 else if (n <? 65536)%N then 3 else 4.
Definition encoded_len (l : list N) : Z := foldr Z.add 0 (utf8_width <$> l).
(** `ch.isspace()` *)
Definition is_uspace (n : N) : bool :=
  bool_decide (n ∈ [32; 133; 160; 5760; 8232; 8233; 8239; 8287; 12288]%N)
  || ((9 <=? n) && (n <=? 13))%N || ((28 <=? n) && (n <=? 31))%N || ((8192 <=? n) && (n <=? 8202))%N.
Definition ustrip (l : list N) : list N := rev (drop_while is_uspace (rev (drop_while is_uspace l))).

Definition ATTACHMENTS_DIR : string := "attachments".
Definition MAX_NAME_BYTES : Z := 200.
Definition is_separator (n : N) : bool := bool_decide (n ∈ lit "/\").
(** `name.replace("\\", "/").rsplit("/", 1)[-1]` *)
Definition last_segment (l : list N) : list N := rev (take_while (λ n, negb (is_separator n)) (rev l)).
(** `name.rpartition(".")` *)
Fixpoint rpartition_dot (l : list N) : list N * list N * list N :=
  match l with
  | [] => ([], [], [])
  | c :: l' =>
      let '(stem, dot, ext) := rpartition_dot l' in
      if decide (dot = []) then if decide ([c] = lit ".") then ([], [c], l') else ([], [], c :: ext)
      else (c :: stem, dot, ext)
  end.
(** The loop that cuts the head until the name fits; the head is reversed. *)
Fixpoint cut_head (rhead tail : list N) : list N :=
  match rhead with
  | [] => tail
  | _ :: rhead' => if MAX_NAME_BYTES <? encoded_len (rev rhead ++ tail) then cut_head rhead' tail else rev rhead ++ tail
  end.

Section names.
(** `unicodedata.category(ch) in _DROPPED_CATEGORIES` *)
Context (dropped : N → bool).

Definition attachment_name (filename : list N) : list N :=
  let name := ustrip (filter (λ n, dropped n = false) (last_segment filename)) in
  let name := if decide (name ∈ [[]; lit "."; lit ".."]) then lit "file" else name in
  if encoded_len name <=? MAX_NAME_BYTES then name
  else
    let '(stem, dot, extension) := rpartition_dot name in
    let tail := if bool_decide (stem ≠ []) && (encoded_len extension <=? 16) then dot ++ extension else [] in
    cut_head (rev (take (length name - length tail) name)) tail.

(** The first of the numbered paths that is not taken. *)
Fixpoint free_from (path : Z → list N) (taken : list (list N)) (fuel : nat) (number : Z) : option (list N) :=
  match fuel with
  | O => None
  | S fuel => if decide (path number ∈ taken) then free_from path taken fuel (number + 1) else Some (path number)
  end.
Definition numbered_path (stem dot extension : list N) (number : Z) : list N :=
  lit ATTACHMENTS_DIR ++ lit "/" ++ stem ++ lit " (" ++ lit (str_of_Z number) ++ lit ")" ++ dot ++ extension.
Definition free_attachment_path (filename : list N) (taken : list (list N)) : option (list N) :=
  let name := attachment_name filename in
  let '(stem, dot, extension) := rpartition_dot name in
  let '(stem, dot, extension) := if decide (stem = []) then (name, [], []) else (stem, dot, extension) in
  let path := lit ATTACHMENTS_DIR ++ lit "/" ++ name in
  if decide (path ∈ taken) then free_from (numbered_path stem dot extension) taken (S (length taken)) 2 else Some path.
End names.

(** `new_file_id`, of what `uuid.uuid4()` returned. *)
Definition new_file_id (u : uuid) : string := of_chars (chars "file-" ++ uuid_hex u).

(** ** Rows and the tables *)

Record file_row : Type := FileRow {
  f_id : string; f_tenant : uuid; f_filename : list N; f_purpose : string; f_kind : string;
  f_user : option string; f_size : Z; f_type : option string; f_created : Z
}.
#[global] Instance file_row_eq_dec : EqDecision file_row.
Proof. solve_decision. Defined.
(** The tables of [Db] with the one of files. *)
Record fdb : Type := FDb { fd_db : db; fd_files : list file_row }.
Definition with_file_rows (d : fdb) (l : list file_row) : fdb := FDb (fd_db d) l.
#[global] Instance session_file_row_eq_dec : EqDecision session_file_row.
Proof. solve_decision. Defined.
Definition bindings (d : fdb) : list session_file_row := session_files (fd_db d).
Definition with_bindings (d : fdb) (l : list session_file_row) : fdb := FDb (with_files (fd_db d) l) (fd_files d).

Definition FILE_KINDS : list string := ["file"; "attachment"; "image"]%string.
Definition FILE_PURPOSES : list string := ["user_data"; "assistants"; "vision"]%string.
Definition USER_FILE_KINDS : list string := ["attachment"; "image"]%string.

Definition create_file (d : fdb) (r : file_row) : res exn fdb :=
  if decide (f_id r ∈ f_id <$> fd_files d) then Err IntegrityExn
  else if decide (f_purpose r ∈ FILE_PURPOSES ∧ f_kind r ∈ FILE_KINDS) then Ok (with_file_rows d (fd_files d ++ [r]))
  else Err IntegrityExn.
Definition file_visible (user : option string) (r : file_row) : bool :=
  match user with
  | None => true
  | Some u => negb (bool_decide (f_kind r ∈ USER_FILE_KINDS)) || bool_decide (f_user r = None) || bool_decide (f_user r = Some u)
  end.
Definition is_file (tenant : uuid) (file : string) (r : file_row) : bool := bool_decide (f_tenant r = tenant ∧ f_id r = file).
Definition get_file (d : fdb) (tenant : uuid) (file : string) (user : option string) : option file_row :=
  find_row (λ r, is_file tenant file r && file_visible user r) (fd_files d).
Definition of_file (tenant : uuid) (file : string) (b : session_file_row) : bool :=
  bool_decide (sf_tenant b = tenant ∧ sf_file b = file).
Definition delete_file (d : fdb) (tenant : uuid) (file : string) (user : option string) : fdb * bool :=
  match get_file d tenant file user with
  | None => (d, false)
  | Some r =>
      (with_file_rows (with_bindings d (filter (λ b, of_file tenant file b = false) (bindings d)))
         (filter (λ r', is_file tenant file r' = false) (fd_files d)), true)
  end.
Definition set_kind (r : file_row) (kind : string) : file_row :=
  FileRow (f_id r) (f_tenant r) (f_filename r) (f_purpose r) kind (f_user r) (f_size r) (f_type r) (f_created r).
Definition promote_attachments (d : fdb) (tenant : uuid) (ids : list string) (user : option string) (kinds : list string) : fdb :=
  if decide (ids = []) then d
  else with_file_rows d (update_where
    (λ r, bool_decide (f_tenant r = tenant ∧ f_id r ∈ ids ∧ f_kind r ∈ kinds) && file_visible user r) (λ r, set_kind r "file") (fd_files d)).

(** ** Bindings *)

Definition of_binding (tenant sid : uuid) (file : string) (b : session_file_row) : bool :=
  of_session tenant sid (sf_tenant b) (sf_session b) && bool_decide (sf_file b = file).
Definition find_binding (d : fdb) (tenant sid : uuid) (file : string) : option session_file_row :=
  find_row (of_binding tenant sid file) (bindings d).
(** `uq_session_files_path` *)
Definition path_taken (d : fdb) (tenant sid : uuid) (path : option (list N)) : bool :=
  bool_decide (path ≠ None)
  && existsb (λ b, of_session tenant sid (sf_tenant b) (sf_session b) && bool_decide (sf_path b = path)) (bindings d).
Definition bind_session_file (d : fdb) (now : Z) (tenant sid : uuid) (file : string) (path : option (list N)) (item : option uuid)
    : res exn fdb :=
  match find_binding d tenant sid file with
  | Some _ => Ok d
  | None =>
      match get_session (fd_db d) tenant sid None, get_file d tenant file None with
      | Some _, Some _ =>
          if path_taken d tenant sid path then Err IntegrityExn
          else Ok (with_bindings d (bindings d ++ [SessionFileRow tenant sid file item path now]))
      | _, _ => Err IntegrityExn
      end
  end.
Definition set_path (b : session_file_row) (path : option (list N)) : session_file_row :=
  SessionFileRow (sf_tenant b) (sf_session b) (sf_file b) (sf_item b) path (sf_created b).
(** `binding.path = path` and the flush *)
Definition place_binding (d : fdb) (tenant sid : uuid) (file : string) (path : list N) : res exn fdb :=
  if path_taken d tenant sid (Some path) then Err IntegrityExn
  else Ok (with_bindings d (update_where (of_binding tenant sid file) (λ b, set_path b (Some path)) (bindings d))).
Definition unbind_files (d : fdb) (tenant sid : uuid) (ids : list string) : fdb :=
  if decide (ids = []) then d
  else with_bindings d (filter (λ b, (of_session tenant sid (sf_tenant b) (sf_session b) && bool_decide (sf_file b ∈ ids)) = false) (bindings d)).
Definition clear_paths (d : fdb) (tenant sid : uuid) (ids : list string) : fdb :=
  if decide (ids = []) then d
  else with_bindings d (update_where
    (λ b, of_session tenant sid (sf_tenant b) (sf_session b) && bool_decide (sf_file b ∈ ids)) (λ b, set_path b None) (bindings d)).

(** ** Lists and pages *)

(** Rows are listed by the time they were made and then by their id. *)
Abbreviation stamp := (Z * string)%type (only parsing).
Definition stamp_lt (a b : stamp) : Prop := a.1 < b.1 ∨ (a.1 = b.1 ∧ OrdersEx.String_as_OT.lt a.2 b.2).
Definition stamp_ltb (a b : stamp) : bool :=
  (a.1 <? b.1) || ((a.1 =? b.1) && match String.compare a.2 b.2 with Lt => true | _ => false end).
Definition stamp_leb (asc : bool) (a b : stamp) : bool := negb (if asc then stamp_ltb b a else stamp_ltb a b).
(** `_after` *)
Definition after_cursor (asc : bool) (cursor : option stamp) (a : stamp) : bool :=
  match cursor with None => true | Some c => if asc then stamp_ltb c a else stamp_ltb a c end.
Definition row_order {R} (key : R → stamp) (asc : bool) (x y : R) : Prop := stamp_leb asc (key x) (key y) = true.
#[global] Instance row_order_dec {R} (key : R → stamp) asc x y : Decision (row_order key asc x y).
Proof. unfold row_order. apply _. Defined.
(** The rows after the cursor in order, `limit` of them, and whether more follow. *)
Definition page {R} (key : R → stamp) (asc : bool) (cursor : option stamp) (limit : option nat) (rows : list R) : list R * bool :=
  let rows := merge_sort (row_order key asc) (filter (λ r, after_cursor asc cursor (key r) = true) rows) in
  match limit with
  | Some n => if (n <? length (take (S n) rows))%nat then (take n rows, true) else (take (S n) rows, false)
  | None => (rows, false)
  end.

Record file_filter : Type := FileFilter {
  ff_kinds : option (list string); ff_purpose : option string; ff_owner : option string;
  ff_session : option uuid; ff_prefix : list N; ff_ids : option (list string)
}.
Definition opt_is {A} `{EqDecision A} (o : option A) (x : A) : bool := match o with None => true | Some y => bool_decide (x = y) end.
Definition opt_in (o : option (list string)) (x : string) : bool := match o with None => true | Some l => bool_decide (x ∈ l) end.
Definition file_key (r : file_row) : stamp := (f_created r, f_id r).
Definition list_files_where (d : fdb) (tenant : uuid) (ff : file_filter) (user : option string) : list file_row :=
  filter (λ r, (bool_decide (f_tenant r = tenant) && file_visible user r && opt_in (ff_kinds ff) (f_kind r)
    && opt_is (ff_purpose ff) (f_purpose r)
    && match ff_owner ff with None => true | Some o => bool_decide (f_user r = Some o) end
    && bool_decide (take (length (ff_prefix ff)) (f_filename r) = ff_prefix ff)
    && opt_in (ff_ids ff) (f_id r)
    && match ff_session ff with None => true | Some sid => bool_decide (find_binding d tenant sid (f_id r) ≠ None) end) = true) (fd_files d).
Definition list_files (d : fdb) (tenant : uuid) (ff : file_filter) (after : option stamp) (asc : bool) (limit : option nat)
    (user : option string) : list file_row * bool :=
  page file_key asc after limit (list_files_where d tenant ff user).
Definition file_cursor (d : fdb) (tenant : uuid) (file : string) (user : option string) : option stamp :=
  (λ r, (f_created r, file)) <$> get_file d tenant file user.

Definition binding_key (p : session_file_row * file_row) : stamp := (sf_created p.1, sf_file p.1).
(** The join of the bindings of a session with their files. *)
Definition session_file_pairs (d : fdb) (tenant sid : uuid) (user : option string) : list (session_file_row * file_row) :=
  omap (λ b, if of_session tenant sid (sf_tenant b) (sf_session b) then pair b <$> get_file d tenant (sf_file b) user else None) (bindings d).
Definition list_session_files (d : fdb) (tenant sid : uuid) (ids : option (list string)) (after : option stamp) (asc : bool)
    (limit : option nat) (user : option string) : list (session_file_row * file_row) * bool :=
  page binding_key asc after limit (filter (λ p, opt_in ids (sf_file p.1) = true) (session_file_pairs d tenant sid user)).
Definition session_file_cursor (d : fdb) (tenant sid : uuid) (file : string) (user : option string) : option stamp :=
  b ← find_binding d tenant sid file; _ ← get_file d tenant file user; Some (sf_created b, file).

Definition MAX_LIST_LIMIT : Z := 100.
Definition check_page (limit : Z) : res exn nat :=
  if (limit <? 1) || (MAX_LIST_LIMIT <? limit) then Err (api_error "invalid_request") else Ok (Z.to_nat limit).
(** `page_body`, without the bodies of its rows. *)
Record page_of (R : Type) : Type := Page { pg_data : list R; pg_first : option string; pg_last : option string; pg_more : bool }.
Arguments Page {R} _ _ _ _.
Arguments pg_data {R} _.
Arguments pg_more {R} _.
Arguments pg_first {R} _.
Arguments pg_last {R} _.
Definition page_body {R} (id : R → string) (p : list R * bool) : page_of R :=
  Page p.1 (id <$> head p.1) (id <$> last p.1) p.2.
(** `after is not None`: its cursor, unless the caller may not see the file. *)
Definition page_cursor (after : option string) (ids : option (list string)) (cursor : string → option stamp) : res exn (option stamp) :=
  match after with
  | None => Ok None
  | Some file =>
      match cursor file with
      | Some c => if opt_in ids file then Ok (Some c) else Err (api_error "invalid_request")
      | None => Err (api_error "invalid_request")
      end
  end.
Definition list_objects (d : fdb) (tenant : uuid) (ff : file_filter) (after : option string) (asc : bool) (limit : Z)
    (user : option string) : res exn (page_of file_row) :=
  n ← check_page limit;
  (if forallb (λ k, bool_decide (k ∈ FILE_KINDS)) (default [] (ff_kinds ff)) then Ok () else Err (api_error "invalid_request")) ≫= λ _,
  cursor ← page_cursor after (ff_ids ff) (λ file, file_cursor d tenant file user);
  Ok (page_body f_id (list_files d tenant ff cursor asc (Some n) user)).
Definition list_session_objects (d : fdb) (tenant sid : uuid) (ids : option (list string)) (after : option string) (asc : bool)
    (limit : Z) (user : option string) : res exn (page_of (session_file_row * file_row)) :=
  n ← check_page limit;
  cursor ← page_cursor after ids (λ file, session_file_cursor d tenant sid file user);
  Ok (page_body (λ p, sf_file p.1) (list_session_files d tenant sid ids cursor asc (Some n) user)).

(** ** Attaching the files of a message to a session *)

Inductive model_input : Set := InText | InImage | InWorkspace.
#[global] Instance model_input_eq_dec : EqDecision model_input.
Proof. solve_decision. Defined.
Record input_file : Type := InputFile {
  if_file : string; if_name : list N; if_mime : string; if_size : Z; if_input : model_input; if_path : list N
}.
#[global] Instance input_file_eq_dec : EqDecision input_file.
Proof. solve_decision. Defined.
Definition with_path (f : input_file) (path : list N) : input_file :=
  InputFile (if_file f) (if_name f) (if_mime f) (if_size f) (if_input f) path.
(** `Bindings` *)
Record made : Type := Made { md_created : list string; md_placed : list string }.

Definition _WORKSPACE_PREFIXES : list string := ["/workspace/"; "/tmp/workspace/"; "./"]%string.
Fixpoint drop_prefix (prefixes : list string) (l : list N) : list N :=
  match prefixes with
  | [] => l
  | p :: rest => if bool_decide (take (length (lit p)) l = lit p) then drop (length (lit p)) l else drop_prefix rest l
  end.
Definition workspace_relative (path : list N) : list N := drop_prefix _WORKSPACE_PREFIXES (ustrip path).

Section attach.
Context (dropped : N → bool) (b64decode : string → option (list ascii)).

(** `environment.files`: the inline files with their data, and the files given by id. *)
Definition env_files (environment : json) : res exn (list json) :=
  match jfield "files" environment with
  | None | Some JNull => Ok []
  | Some (JArr l) => if forallb (λ j, match j with JObj _ => true | _ => false end) l then Ok l else Err (api_error "invalid_request")
  | Some _ => Err (api_error "invalid_request")
  end.
Definition stripped_str (j : option json) : res exn (list N) :=
  match jstr j with
  | Some s => let t := ustrip (decoded s) in if decide (t = []) then Err (api_error "invalid_request") else Ok t
  | None => Err (api_error "invalid_request")
  end.
Definition is_file_ref (j : json) : bool := bool_decide (jstr (jfield "type" j) = Some "file_id"%string).
Fixpoint inline_of (l : list json) : res exn (list (list N * list ascii)) :=
  match l with
  | [] => Ok []
  | j :: l =>
      if is_file_ref j then inline_of l
      else if bool_decide (jstr (jfield "type" j) ≠ Some "inline"%string) then Err (api_error "invalid_request")
      else
        path ← stripped_str (jfield "path" j);
        match jstr (jfield "data" j) ≫= b64decode with
        | Some data => rest ← inline_of l; Ok ((path, data) :: rest)
        | None => Err (api_error "invalid_request")
        end
  end.
Definition inline_files_from (environment : json) : res exn (list (list N * list ascii)) := l ← env_files environment; inline_of l.
(** An id is kept as its bytes: nothing is cut from it but its blanks. *)
Fixpoint refs_of (l : list json) : res exn (list (list N * string)) :=
  match l with
  | [] => Ok []
  | j :: l =>
      if negb (is_file_ref j) then refs_of l
      else
        path ← stripped_str (jfield "path" j);
        match jstr (jfield "file_id" j) with
        | Some file => if decide (strip file = "")%string then Err (api_error "invalid_request")
                       else rest ← refs_of l; Ok ((path, strip file) :: rest)
        | None => Err (api_error "invalid_request")
        end
  end.
Definition file_id_refs_from (environment : json) : res exn (list (list N * string)) := l ← env_files environment; refs_of l.

Definition size_of (d : fdb) (tenant : uuid) (file : string) : Z := from_option f_size 0 (get_file d tenant file None).
Definition agent_inputs (d : fdb) (tenant : uuid) (environment : json) : res exn (list (list N) * Z) :=
  inline ← inline_files_from environment;
  refs ← file_id_refs_from environment;
  Ok ((workspace_relative <$> inline.*1) ++ (workspace_relative <$> refs.*1),
      foldr Z.add 0 ((λ p, Z.of_nat (length p.2)) <$> inline) + foldr Z.add 0 ((λ p, size_of d tenant p.2) <$> refs)).

(** The state of the loop over the files. *)
Record attaching : Type := Attaching {
  at_db : fdb; at_taken : list (list N); at_paths : odict string (list N); at_sizes : odict string Z; at_made : made
}.
Definition truthy_path (p : option (list N)) : option (list N) := match p with Some (c :: l) => Some (c :: l) | _ => None end.
Definition attach_one (tenant sid : uuid) (now : Z) (snapshot : list session_file_row) (a : attaching) (f : input_file) : res exn attaching :=
  let file := if_file f in
  if decide (file ∈ okeys (at_paths a)) then Ok a
  else
    let binding := find_row (λ b, bool_decide (sf_file b = file)) snapshot in
    match binding ≫= λ b, truthy_path (sf_path b) with
    | Some path => Ok (Attaching (at_db a) (at_taken a) (<[file := path]> (at_paths a)) (at_sizes a) (at_made a))
    | None =>
        match free_attachment_path dropped (if_name f) (at_taken a) with
        | None => Err (OtherExn None)       (* no such path: does not happen *)
        | Some path =>
            '(d, m) ← match binding with
                      | None => d ← bind_session_file (at_db a) now tenant sid file (Some path) None;
                                Ok (d, Made (md_created (at_made a) ++ [file]) (md_placed (at_made a)))
                      | Some _ => d ← place_binding (at_db a) tenant sid file path;
                                Ok (d, Made (md_created (at_made a)) (md_placed (at_made a) ++ [file]))
                      end;
            Ok (Attaching d (path :: at_taken a) (<[file := path]> (at_paths a)) (<[file := if_size f]> (at_sizes a)) m)
        end
    end.
Fixpoint attach_all (tenant sid : uuid) (now : Z) (snapshot : list session_file_row) (a : attaching) (files : list input_file) : res exn attaching :=
  match files with [] => Ok a | f :: files => a ← attach_one tenant sid now snapshot a f; attach_all tenant sid now snapshot a files end.
Definition bound_sizes (pairs : list (session_file_row * file_row)) : odict string Z :=
  foldl (λ m p, match sf_path p.1 with Some _ => <[sf_file p.1 := f_size p.2]> m | None => m end) ∅ pairs.
(** `attach_session_files`; the caller rolls back when it raises. *)
Definition attach_session_files (d : fdb) (now max_bytes : Z) (tenant sid : uuid) (files : list input_file) (environment : json)
    (user : option string) : res exn (fdb * (list input_file * made)) :=
  if decide (files = []) then Ok (d, ([], Made [] []))
  else if decide (get_session (fd_db d) tenant sid None = None) then Err NotFoundExn
  else if negb (forallb (λ f, bool_decide (get_file d tenant (if_file f) user ≠ None)) files) then Err NotFoundExn
  else
    let pairs := (list_session_files d tenant sid None None true None None).1 in
    '(taken, agent_bytes) ← agent_inputs d tenant environment;
    a ← attach_all tenant sid now pairs.*1
          (Attaching d (taken ++ omap (λ p, truthy_path (sf_path p.1)) pairs) ∅ (bound_sizes pairs) (Made [] [])) files;
    if max_bytes <? agent_bytes + osum id (at_sizes a) then Err (api_error "payload_too_large")
    else Ok (at_db a, ((λ f, with_path f (default [] (at_paths a !! if_file f))) <$> files, at_made a)).
Definition ATTACH_ATTEMPTS : nat := 3.
(** `unbind`, when its transaction commits. *)
Definition unbind (d : fdb) (tenant sid : uuid) (m : made) : fdb :=
  clear_paths (unbind_files d tenant sid (md_created m)) tenant sid (md_placed m).
End attach.

(** ** What a file may be (services/files.py, gateway/content.py) *)

Record file_settings : Type := FileSettings {
  max_file_bytes : Z; max_image_bytes : Z; max_inline_file_bytes : Z; max_workspace_bytes : Z;
  image_mimes : list string; attachment_ttl : Z
}.
(** `(content_type or "").split(";", 1)[0].strip().lower()` *)
Definition mime_of (content_type : option string) : string :=
  lower (strip (of_chars (take_while (λ c, negb (bool_decide (c = ";"%char))) (chars (default "" content_type))))).
Definition check_image (s : file_settings) (content_type : option string) (size : Z) : res exn string :=
  let mime := mime_of content_type in
  if negb (bool_decide (mime ∈ image_mimes s)) then Err (api_error "invalid_request")
  else if max_image_bytes s <? size then Err (api_error "payload_too_large")
  else Ok mime.
Definition TEXT_FILE_MIMES : list string :=
  ["application/json"; "application/xml"; "application/yaml"; "application/x-yaml"; "application/javascript"]%string.
Definition TEXT_FILE_EXTENSIONS : list string :=
  ["txt"; "md"; "markdown"; "csv"; "tsv"; "json"; "jsonl"; "yaml"; "yml"; "xml"; "toml"; "ini"; "log"; "py"; "js"; "ts"; "tsx";
   "jsx"; "sql"; "sh"; "html"; "css"; "java"; "go"; "rs"; "rb"; "php"; "c"; "h"; "cpp"; "cs"; "kt"; "swift"]%string.
(** `ch.lower()`, where it is one ASCII letter: the Kelvin sign has a lower-case `k`. *)
Definition ulower (n : N) : N := if (65 <=? n)%N && (n <=? 90)%N then (n + 32)%N else if decide (n = 8490%N) then 107%N else n.
Definition file_model_input (s : file_settings) (content_type : option string) (filename : list N) : option model_input :=
  let mime := mime_of content_type in
  if bool_decide (mime ∈ image_mimes s) then Some InImage
  else if startswith (chars "text/") (chars mime) || bool_decide (mime ∈ TEXT_FILE_MIMES) then Some InText
  else
    let '(_, dot, extension) := rpartition_dot filename in
    if bool_decide (mime ∈ [""; "application/octet-stream"]%string) && bool_decide (dot ≠ [])
       && bool_decide ((ulower <$> extension) ∈ (lit <$> TEXT_FILE_EXTENSIONS))
    then Some InText else None.
Definition within (lo hi : N) (c : ascii) : bool := ((lo <=? code c) && (code c <=? hi))%N.
(** `data.decode("utf-8")` does not raise. *)
Fixpoint valid_utf8 (l : list ascii) : bool :=
  match l with
  | [] => true
  | c :: l1 =>
      if (code c <? 128)%N then valid_utf8 l1
      else match l1 with
      | [] => false
      | c1 :: l2 =>
          if within 194 223 c then is_cont c1 && valid_utf8 l2
          else match l2 with
          | [] => false
          | c2 :: l3 =>
              if within 224 239 c then
                (if decide (code c = 224%N) then within 160 191 c1 else if decide (code c = 237%N) then within 128 159 c1 else is_cont c1)
                && is_cont c2 && valid_utf8 l3
              else match l3 with
              | [] => false
              | c3 :: l4 =>
                  within 240 244 c
                  && (if decide (code c = 240%N) then within 144 191 c1 else if decide (code c = 244%N) then within 128 143 c1 else is_cont c1)
                  && is_cont c2 && is_cont c3 && valid_utf8 l4
              end
          end
      end
  end.

(** ** The service *)

Section service.
Context {S : Type} `{ObjectStore S}.
Context (settings : file_settings) (dropped : N → bool) (b64decode : string → option (list ascii)).

Definition file_object (tenant : uuid) (file : string) : res exn (list ascii) := file_object_id tenant (chars file).
(** `get_sized`: at most one byte more than the size is read. *)
Definition get_sized (s : S) (n : namespace) (id : list ascii) (size : Z) : res exn (option (list ascii)) :=
  data ← os_get s n id;
  match take (Z.to_nat (size + 1)) <$> data with
  | None => Ok None
  | Some bytes => if decide (Z.of_nat (length bytes) = size) then Ok (Some bytes) else Err (ObjectStoreExn "" "" None)
  end.
Definition read_file (s : S) (tenant : uuid) (r : file_row) : res exn (list ascii) :=
  id ← file_object tenant (f_id r); data ← get_sized s NS_FILES id (f_size r);
  match data with Some bytes => Ok bytes | None => Err NotFoundExn end.
Definition content (d : fdb) (s : S) (tenant : uuid) (file : string) (user : option string) : res exn (list ascii * file_row) :=
  match get_file d tenant file user with
  | None => Err NotFoundExn
  | Some r => bytes ← read_file s tenant r; Ok (bytes, r)
  end.

(** `image_files`: the images given by id, checked, with their types and sizes. *)
Fixpoint image_files (d : fdb) (tenant : uuid) (ids : list string) (user : option string) (known : odict string (string * Z))
    : res exn (odict string (string * Z)) :=
  match ids with
  | [] => Ok known
  | id :: ids =>
      if bool_decide (id = ""%string) || bool_decide (id ∈ okeys known) then image_files d tenant ids user known
      else match get_file d tenant id user with
      | None => Err NotFoundExn
      | Some r =>
          let mime := mime_of (f_type r) in
          if negb (bool_decide (mime ∈ image_mimes settings)) then Err (api_error "invalid_request")
          else if max_image_bytes settings <? f_size r then Err (api_error "payload_too_large")
          else image_files d tenant ids user (<[id := (mime, f_size r)]> known)
      end
  end.
(** `FilePart` *)
Record file_part : Type := FilePart { fp_file : string; fp_name : list N }.
Fixpoint part_rows (d : fdb) (tenant : uuid) (parts : list file_part) (user : option string) : res exn (list (file_part * file_row)) :=
  match parts with
  | [] => Ok []
  | p :: parts =>
      match get_file d tenant (fp_file p) user with
      | None => Err NotFoundExn
      | Some r => rest ← part_rows d tenant parts user; Ok ((p, r) :: rest)
      end
  end.
Definition part_name (p : file_part) (r : file_row) : list N := if decide (fp_name p = []) then f_filename r else fp_name p.
(** `_workspace_file` *)
Definition workspace_file (p : file_part) (r : file_row) : res exn input_file :=
  if max_file_bytes settings <? f_size r then Err (api_error "payload_too_large")
  else Ok (InputFile (f_id r) (part_name p r) (mime_of (f_type r)) (f_size r) InWorkspace []).
Definition model_file (s : S) (tenant : uuid) (checked : list string) (p : file_part) (r : file_row) : res exn input_file :=
  match file_model_input settings (Some (mime_of (f_type r))) (part_name p r) with
  | None => Err (api_error "unsupported_file_type")
  | Some input =>
      let limit := if decide (input = InImage) then max_image_bytes settings else max_inline_file_bytes settings in
      if limit <? f_size r then Err (api_error "payload_too_large")
      else
        (if bool_decide (input = InText) && negb (bool_decide (f_id r ∈ checked)) then
           bytes ← read_file s tenant r; (if valid_utf8 bytes then Ok () else Err (api_error "unsupported_file_type"))
         else Ok ()) ≫= λ _,
        Ok (InputFile (f_id r) (part_name p r) (mime_of (f_type r)) (f_size r) input [])
  end.
Fixpoint model_files (s : S) (tenant : uuid) (checked : list string) (l : list (file_part * file_row)) : res exn (list input_file) :=
  match l with
  | [] => Ok []
  | (p, r) :: l =>
      f ← model_file s tenant checked p r;
      rest ← model_files s tenant (if decide (if_input f = InText) then f_id r :: checked else checked) l;
      Ok (f :: rest)
  end.
Fixpoint workspace_parts (l : list (file_part * file_row)) : res exn (list input_file) :=
  match l with [] => Ok [] | (p, r) :: l => f ← workspace_file p r; rest ← workspace_parts l; Ok (f :: rest) end.
(** `input_files` *)
Definition input_files (d : fdb) (s : S) (tenant : uuid) (parts : list file_part) (user : option string) (workspace : bool)
    : res exn (list input_file) :=
  rows ← part_rows d tenant parts user; if workspace then workspace_parts rows else model_files s tenant [] rows.
(** `workspace_files`: the bytes of the environment's files. *)
Fixpoint ref_bytes (d : fdb) (s : S) (tenant : uuid) (refs : list (list N * string)) (user : option string) : res exn (list (list N * list ascii)) :=
  match refs with
  | [] => Ok []
  | (path, id) :: refs =>
      match get_file d tenant id user with
      | None => Err NotFoundExn
      | Some r => bytes ← read_file s tenant r; rest ← ref_bytes d s tenant refs user; Ok ((path, bytes) :: rest)
      end
  end.
Definition workspace_files (d : fdb) (s : S) (tenant : uuid) (environment : json) (user : option string) : res exn (list (list N * list ascii)) :=
  refs ← file_id_refs_from environment; ref_bytes d s tenant refs user.

(** The request of a new file. *)
Record new_file : Type := NewFile {
  nf_data : list ascii; nf_name : list N; nf_purpose : string; nf_type : option string; nf_kind : string; nf_user : option string
}.
(** `create` up to the first await: its checks and the row it will store. *)
Definition create_checks (f : new_file) (tenant : uuid) (id : string) (now : Z) : res exn file_row :=
  let size := Z.of_nat (length (nf_data f)) in
  if negb (bool_decide (nf_purpose f ∈ FILE_PURPOSES)) then Err (api_error (nf_purpose f))
  else if max_file_bytes settings <? size then Err (api_error "payload_too_large")
  else
    kind ← (if decide (nf_purpose f = "vision"%string) then check_image settings (nf_type f) size ≫= λ _, Ok "image"%string
            else Ok (nf_kind f));
    let name := ustrip (nf_name f) in
    Ok (FileRow id tenant (if decide (name = []) then lit "upload" else name) (nf_purpose f) kind (nf_user f) size (nf_type f) now).
Definition create_put (s : S) (r : file_row) (data : list ascii) : res exn S :=
  id ← file_object (f_tenant r) (f_id r); os_put s NS_FILES id data.
Definition create (d : fdb) (s : S) (f : new_file) (tenant : uuid) (id : string) (now : Z) : res exn (fdb * S * file_row) :=
  r ← create_checks f tenant id now; s ← create_put s r (nf_data f); d ← create_file d r; Ok (d, s, r).

(** `delete` and `delete_bytes`: the rows first, then the bytes. *)
Definition erase (s : S) (tenant : uuid) (file : string) : res exn S := id ← file_object tenant file; os_delete s NS_FILES id.
Definition delete (d : fdb) (s : S) (tenant : uuid) (file : string) (user : option string) : (fdb * S) * res exn unit :=
  let '(d, found) := delete_file d tenant file user in
  if found then match erase s tenant file with Ok s => ((d, s), Ok ()) | Err e => ((d, s), Err e) end
  else ((d, s), Err NotFoundExn).
(** Errors are suppressed. *)
Definition erase_quietly (s : S) (p : uuid * string) : S := match erase s p.1 p.2 with Ok s => s | Err _ => s end.
Definition delete_bytes (s : S) (tenant : uuid) (ids : list string) : S := foldl erase_quietly s (pair tenant <$> ids).

(** ** Sweeping attachments *)

Definition SWEEP_BATCH : nat := 500.
Definition bound (d : fdb) (r : file_row) : bool := existsb (of_file (f_tenant r) (f_id r)) (bindings d).
Definition sweepable (d : fdb) (before : Z) (r : file_row) : bool :=
  bool_decide (f_kind r = "attachment"%string) && (f_created r <? before) && negb (bound d r).
Definition made_before (a b : file_row) : Prop := f_created a ≤ f_created b.
#[global] Instance made_before_dec a b : Decision (made_before a b).
Proof. unfold made_before. apply _. Defined.
Definition by_owner (a b : file_row) : Prop := (f_tenant a < f_tenant b)%N ∨ (f_tenant a = f_tenant b ∧ String.leb (f_id a) (f_id b) = true).
#[global] Instance by_owner_dec a b : Decision (by_owner a b).
Proof. unfold by_owner. apply _. Defined.
(** A row is deleted when it is still there and not bound. *)
Definition sweep_one (p : fdb * list (uuid * string)) (r : file_row) : fdb * list (uuid * string) :=
  let '(d, out) := p in
  if existsb (is_file (f_tenant r) (f_id r)) (fd_files d) && negb (bound d r)
  then (with_file_rows d (filter (λ r', is_file (f_tenant r) (f_id r) r' = false) (fd_files d)), out ++ [(f_tenant r, f_id r)])
  else (d, out).
Definition delete_unbound_attachments (d : fdb) (before : Z) (limit : nat) : fdb * list (uuid * string) :=
  foldl sweep_one (d, []) (merge_sort by_owner (take limit (merge_sort made_before (filter (λ r, sweepable d before r = true) (fd_files d))))).
(** `sweep_attachments`; [fuel] bounds its rounds. *)
Fixpoint sweep (batch fuel : nat) (d : fdb) (s : S) (before : Z) (total : nat) : option (fdb * S * nat) :=
  match fuel with
  | O => None
  | Datatypes.S fuel =>
      let '(d, deleted) := delete_unbound_attachments d before batch in
      let s := foldl erase_quietly s deleted in
      let total := (total + length deleted)%nat in
      if (length deleted <? batch)%nat then Some (d, s, total) else sweep batch fuel d s before total
  end.
Definition sweep_attachments (d : fdb) (s : S) (now : Z) : option (fdb * S * nat) :=
  sweep SWEEP_BATCH (1 + length (fd_files d)) d s (now - attachment_ttl settings) 0.

(** ** The files of a message (services/sessions.py) *)

(** What may fail around the calls: the store, a commit, and the undoing, which is best effort. *)
Record faults : Type := Faults {
  ft_put : string → option exn; ft_commit : string → option exn; ft_attach : option exn; ft_bind : option exn;
  ft_unbind : bool; ft_drop : string → bool
}.
(** `ImagePart`: one by id, or the data of a URL, with the UUID its new file gets. *)
Inductive image_part : Type := ImageRef (file : string) | ImageData (u : uuid) (mime : string) (data : list ascii).
Context (ft : faults).
Abbreviation world := (fdb * S)%type (only parsing).

(** `create`, as far as it gets. *)
Definition store_file (w : fdb * S) (f : new_file) (tenant : uuid) (id : string) (now : Z) : (fdb * S) * res exn file_row :=
  let '(d, s) := w in
  match create_checks f tenant id now with
  | Err e => (w, Err e)
  | Ok r =>
      match ft_put ft id, create_put s r (nf_data f) with
      | Some e, _ | None, Err e => (w, Err e)
      | None, Ok s =>
          match ft_commit ft id, create_file d r with
          | Some e, _ | None, Err e => ((d, s), Err e)
          | None, Ok d => ((d, s), Ok r)
          end
      end
  end.
(** `input_images`: the ids, and which of them are new. *)
Fixpoint input_images (w : fdb * S) (tenant : uuid) (user : option string) (now : Z) (images : list image_part)
    : (fdb * S) * res exn (list string * list string) :=
  match images with
  | [] => (w, Ok ([], []))
  | ImageRef file :: images =>
      match input_images w tenant user now images with
      | (w, Ok (ids, created)) => (w, Ok (file :: ids, created))
      | (w, Err e) => (w, Err e)
      end
  | ImageData u mime data :: images =>
      let id := new_file_id u in
      match store_file w (NewFile data (lit "image") "user_data" (Some mime) "image" user) tenant id now with
      | (w, Err e) => (w, Err e)
      | (w, Ok _) =>
          match input_images w tenant user now images with
          | (w, Ok (ids, created)) => (w, Ok (id :: ids, id :: created))
          | (w, Err e) => (w, Err e)
          end
      end
  end.
Fixpoint attach_attempts (fuel : nat) (d : fdb) (now : Z) (tenant sid : uuid) (files : list input_file) (environment : json)
    (user : option string) : res exn (fdb * (list input_file * made)) :=
  match attach_session_files dropped b64decode d now (max_workspace_bytes settings) tenant sid files environment user, fuel with
  | Err IntegrityExn, Datatypes.S (Datatypes.S _ as fuel) => attach_attempts fuel d now tenant sid files environment user
  | r, _ => r
  end.
Definition attach (d : fdb) (now : Z) (tenant sid : uuid) (files : list input_file) (environment : json) (user : option string)
    : res exn (fdb * (list input_file * made)) :=
  match ft_attach ft with Some e => Err e | None => attach_attempts ATTACH_ATTEMPTS d now tenant sid files environment user end.
(** `bind_session` over `dict.fromkeys(file_ids)` *)
Fixpoint bind_all (d : fdb) (now : Z) (tenant sid : uuid) (ids : list string) : res exn fdb :=
  match ids with [] => Ok d | id :: ids => d ← bind_session_file d now tenant sid id None None; bind_all d now tenant sid ids end.
Definition bind_session (d : fdb) (now : Z) (tenant sid : uuid) (ids : list string) : res exn fdb :=
  match ft_bind ft with Some e => Err e | None => bind_all d now tenant sid ids end.
Definition unbind_quietly (w : fdb * S) (tenant sid : uuid) (m : made) : fdb * S :=
  if ft_unbind ft then (unbind w.1 tenant sid m, w.2) else w.
Definition drop_files (w : fdb * S) (tenant : uuid) (ids : list string) : fdb * S :=
  foldl (λ w id, if ft_drop ft id then (delete w.1 w.2 tenant id None).1 else w) w ids.
(** The items with the placed ones in their places. *)
Fixpoint merge_placed (files placed : list input_file) : list input_file :=
  match files, placed with
  | [], _ => []
  | f :: files, p :: rest => if decide (if_input f = InWorkspace) then p :: merge_placed files rest else f :: merge_placed files placed
  | f :: files, [] => f :: merge_placed files []
  end.
(** `_turn_parts` of a session: the files with their paths, the new ids, and the new bindings. *)
Definition turn_parts (w : fdb * S) (now : Z) (tenant sid : uuid) (images : list image_part) (files : list input_file) (environment : json)
    (user caller : option string) : (fdb * S) * res exn (list input_file * list string * made) :=
  match input_images w tenant user now images with
  | (w, Err e) => (w, Err e)
  | (w, Ok (image_ids, created)) =>
      let workspace := filter (λ f, if_input f = InWorkspace) files in
      let bound := image_ids ++ (if_file <$> filter (λ f, if_input f ≠ InWorkspace) files) in
      match (if decide (workspace = []) then Ok (w.1, ([], Made [] [])) else attach w.1 now tenant sid workspace environment caller) with
      | Err e => (drop_files (unbind_quietly w tenant sid (Made [] [])) tenant created, Err e)
      | Ok (d, (placed, m)) =>
          match (if decide (bound = []) then Ok d else bind_session d now tenant sid bound) with
          | Err e => (drop_files (unbind_quietly (d, w.2) tenant sid m) tenant created, Err e)
          | Ok d => ((d, w.2), Ok (merge_placed files placed, created, m))
          end
      end
  end.
Definition _MAYBE_SENT : list string := ["forward_timeout"; "command_ack_timeout"; "forward_failed"]%string.
Definition turn_not_sent (e : exn) : bool :=
  match e with
  | OtherExn (Some c) => bool_decide (c ∉ _MAYBE_SENT)
  | NotFoundExn | ObjectStoreExn _ _ _ => true
  | _ => false
  end.
(** A message of `post_event` from its files on; [turn]: what the rest of it, which sends the
    turn to a worker, raises. *)
Definition post_message (w : fdb * S) (now : Z) (tenant sid : uuid) (images : list image_part) (files : list input_file)
    (environment : json) (user caller : option string) (turn : option exn) : (fdb * S) * res exn (list input_file) :=
  match turn_parts w now tenant sid images files environment user caller with
  | (w, Err e) => (w, Err e)
  | (w, Ok (files, created, m)) =>
      match turn with
      | None => (w, Ok files)
      | Some e => ((if turn_not_sent e then unbind_quietly (drop_files w tenant created) tenant sid m else w), Err e)
      end
  end.
End service.
