(* ===== verification/FilesProps.v ===== *)
(** * Properties of files and their sessions

    Every name gets a path directly below `attachments/` that is free ([attachment_path]);
    what exactly attaching files to a session changes, and that undoing it takes it back
    exactly. *)

From S2P Require Import Prelude PyStd Db Fleet Blobs Files.
From stdpp Require Import sorting pretty.
From Stdlib Require OrdersEx.

Open Scope Z_scope.

(** ** Names *)

Lemma utf8_width_pos n : 1 ≤ utf8_width n ≤ 4.
Proof. unfold utf8_width. repeat case_match; lia. Qed.
Lemma encoded_len_app l1 l2 : encoded_len (l1 ++ l2) = encoded_len l1 + encoded_len l2.
Proof. unfold encoded_len. induction l1 as [|n l1 IH]; [done|]. cbn in *. lia. Qed.
Lemma encoded_len_bounds l : Z.of_nat (length l) ≤ encoded_len l ≤ 4 * Z.of_nat (length l).
Proof. induction l as [|n l IH]; [done|]. pose proof (utf8_width_pos n). unfold encoded_len in *. cbn in *. lia. Qed.

Lemma rpartition_dot_app l : let '(stem, dot, ext) := rpartition_dot l in stem ++ dot ++ ext = l ∧ (dot = [] → stem = []) ∧ (length dot ≤ 1)%nat.
Proof.
  induction l as [|c l IH]; [split_and!; [done..|simpl; lia]|]. cbn [rpartition_dot]. destruct (rpartition_dot l) as [[stem dot] ext]. destruct IH as (<- & Hd & Hlen).
  destruct (decide (dot = [])) as [->|]; [|split_and!; naive_solver]. rewrite (Hd eq_refl).
  destruct (decide _); split_and!; simpl; done || lia.
Qed.
Lemma cut_head_spec rhead tail :
  encoded_len tail ≤ MAX_NAME_BYTES → MAX_NAME_BYTES < encoded_len (rev rhead ++ tail) →
  encoded_len (cut_head rhead tail) ≤ MAX_NAME_BYTES ∧ MAX_NAME_BYTES - 4 < encoded_len (cut_head rhead tail)
  ∧ ∃ head, cut_head rhead tail = head ++ tail ∧ head `prefix_of` rev rhead.
Proof.
  intros Ht. induction rhead as [|c rhead IH]; intros Hlong; [simpl in Hlong; lia|].
  cbn [cut_head]. destruct (MAX_NAME_BYTES <? encoded_len (rev (c :: rhead) ++ tail)) eqn:E; [|lia].
  destruct (decide (MAX_NAME_BYTES < encoded_len (rev rhead ++ tail))) as [Hl|Hl].
  - destruct (IH Hl) as (H1 & H2 & Hp). split_and!; [lia..|]. destruct Hp as (head & E' & Hp). exists head. split; [done|].
    simpl. by apply prefix_app_r.
  - assert (encoded_len (rev rhead ++ tail) ≤ MAX_NAME_BYTES) as Hfit by lia.
    assert (cut_head rhead tail = rev rhead ++ tail) as ->.
    { destruct rhead as [|c' rhead]; [done|]. cbn [cut_head]. by rewrite (proj2 (Z.ltb_ge _ _)) by lia. }
    split_and!; [lia| |].
    + rewrite !encoded_len_app in *. simpl in Hlong. rewrite encoded_len_app in Hlong. pose proof (utf8_width_pos c). unfold encoded_len at 2 in Hlong. cbn in Hlong. lia.
    + exists (rev rhead). split; [done|]. simpl. by apply prefix_app_r.
Qed.

(** A name of one file: no separator, and none of the names that mean a directory. *)
Definition proper_name (l : list N) : Prop := Forall (λ n, is_separator n = false) l ∧ l ∉ [[]; lit "."; lit ".."].
Lemma last_segment_proper l : Forall (λ n, is_separator n = false) (last_segment l).
Proof.
  unfold last_segment. apply Forall_rev. eapply list.Forall_impl; [apply take_while_all|].
  cbn. intros n. by destruct (is_separator n).
Qed.
Lemma drop_while_forall {A} (P : A → Prop) f l : Forall P l → Forall P (drop_while f l).
Proof. intros HP. destruct (drop_while_suffix f l) as [k E]. rewrite E in HP. by apply Forall_app in HP as [_ ?]. Qed.
Lemma ustrip_forall (P : N → Prop) l : Forall P l → Forall P (ustrip l).
Proof. intros. unfold ustrip. by repeat (apply Forall_rev || apply drop_while_forall). Qed.
Lemma long_proper l : 8 < encoded_len l → l ∉ [[]; lit "."; lit ".."].
Proof. intros Hl [->|[->|[->|[]%elem_of_nil]%elem_of_cons]%elem_of_cons]%elem_of_cons; by vm_compute in Hl. Qed.
Lemma attachment_name_spec dropped filename :
  proper_name (attachment_name dropped filename) ∧ encoded_len (attachment_name dropped filename) ≤ MAX_NAME_BYTES.
Proof.
  unfold attachment_name. set (raw := ustrip _). set (name := if decide (raw ∈ _) then _ else raw).
  assert (proper_name name) as [Hsep Hdir].
  { unfold name. destruct (decide _) as [_|Hn]; [split; [by repeat constructor|by apply (bool_decide_unpack _)]|]. split; [|done].
    apply ustrip_forall. apply list.Forall_forall. intros n [_ Hn']%list_elem_of_filter. revert n Hn'. apply list.Forall_forall, last_segment_proper. }
  destruct (encoded_len name <=? MAX_NAME_BYTES) eqn:E; [split; [done|lia]|]. apply Z.leb_gt in E.
  pose proof (rpartition_dot_app name) as Hparts. destruct (rpartition_dot name) as [[stem dot] ext]. destruct Hparts as (Hname & Hdot & Hlen).
  set (tail := if bool_decide (stem ≠ []) && (encoded_len ext <=? 16) then dot ++ ext else []).
  assert (encoded_len tail ≤ 80 ∧ ∃ front, name = front ++ tail) as [Htail [front Hfront]].
  { unfold tail. destruct (bool_decide (stem ≠ []) && (encoded_len ext <=? 16)) eqn:Ec; [|split; [done|exists name; by rewrite app_nil_r]].
    apply andb_true_iff in Ec as [_ Ec]. split; [|by exists stem]. rewrite encoded_len_app. pose proof (encoded_len_bounds dot). lia. }
  assert (rev (rev (take (length name - length tail) name)) = front) as Hrev.
  { rewrite rev_involutive, Hfront, length_app. by replace (length front + length tail - length tail)%nat with (length front) by lia; rewrite take_app_length. }
  destruct (cut_head_spec (rev (take (length name - length tail) name)) tail) as (Hmax & Hmin & head & Hcut & Hpre).
  { unfold MAX_NAME_BYTES. lia. }
  { by rewrite Hrev, <- Hfront. }
  split; [|done]. rewrite Hcut in *. rewrite Hrev in Hpre. destruct Hpre as [more ->]. split; [|apply long_proper; unfold MAX_NAME_BYTES in Hmin; lia].
  rewrite Hfront in Hsep. rewrite !Forall_app in *. tauto.
Qed.

(** ** Free paths *)

Lemma pretty_N_go_chars x s :
  Forall (λ c, is_digit c = true) (chars s) → Forall (λ c, is_digit c = true) (chars (pretty_N_go x s)).
Proof.
  revert s. induction (N.lt_wf_0 x) as [x _ IH]; intros s Hs. assert (x = 0 ∨ 0 < x)%N as [->|Hx] by lia; [done|].
  rewrite pretty_N_go_step by done. apply IH; [by apply N.div_lt|]. cbn. constructor; [|done].
  unfold pretty_N_char. by repeat case_match.
Qed.
Lemma str_of_Z_digits z : 0 ≤ z → Forall (λ c, is_digit c = true) (chars (str_of_Z z)).
Proof.
  intros Hz. unfold str_of_Z, pretty, pretty_Z. destruct z as [|p|p]; [by repeat constructor| |lia].
  unfold pretty, pretty_positive, pretty, pretty_N. rewrite decide_False by done. by apply pretty_N_go_chars.
Qed.
Lemma lit_inj s1 s2 : lit s1 = lit s2 → s1 = s2.
Proof.
  unfold lit, code. intros E. rewrite <- (of_chars_chars s1), <- (of_chars_chars s2). f_equal.
  revert E. generalize (chars s1), (chars s2). intros l1. induction l1 as [|a l1 IH]; intros [|b l2] E; try done.
  injection E as E1 E2. f_equal; [|by apply IH]. by rewrite <- (ascii_N_embedding a), <- (ascii_N_embedding b), E1.
Qed.
Lemma numbered_path_inj stem dot ext n1 n2 : numbered_path stem dot ext n1 = numbered_path stem dot ext n2 → n1 = n2.
Proof.
  unfold numbered_path. intros E. rewrite !app_assoc in E. apply app_inv_tail in E. apply app_inv_tail in E. apply app_inv_tail in E.
  apply app_inv_head in E. apply lit_inj in E. by apply (inj pretty) in E.
Qed.
Lemma free_from_spec (path : Z → list N) taken fuel n :
  (∀ a b, path a = path b → a = b) → (length taken < fuel)%nat →
  ∃ k, free_from path taken fuel n = Some (path k) ∧ n ≤ k ∧ path k ∉ taken.
Proof.
  intros Hinj. revert taken n. assert (∀ fuel taken n seen, (∀ k, k ∈ seen → k < n) → NoDup (path <$> seen) → (path <$> seen) ⊆ taken →
    (length taken < length seen + fuel)%nat → ∃ k, free_from path taken fuel n = Some (path k) ∧ n ≤ k ∧ path k ∉ taken) as Hgen.
  { clear fuel. induction fuel as [|fuel IH]; intros taken n seen Hn Hnd Hsub Hlen.
    { exfalso. apply (NoDup_submseteq _ _ Hnd) in Hsub. apply submseteq_length in Hsub. rewrite length_fmap in Hsub. lia. }
    cbn [free_from]. destruct (decide (path n ∈ taken)) as [Hin|Hout]; [|by exists n].
    destruct (IH taken (n + 1) (n :: seen)) as (k & E & Hk & Hf).
    - intros k [->|Hk]%elem_of_cons; [lia|]. apply Hn in Hk. lia.
    - cbn. constructor; [|done]. intros (k & E & Hk)%list_elem_of_fmap. apply Hinj in E. apply Hn in Hk. lia.
    - cbn. intros x [->|Hx]%elem_of_cons; [done|by apply Hsub].
    - simpl. lia.
    - exists k. split_and!; [done|lia|done]. }
  intros taken n Hlen. apply (Hgen fuel taken n []); [by intros k ?%elem_of_nil|constructor|by intros x ?%elem_of_nil|simpl; lia].
Qed.

(** Every name gets a path: the search for a free one ends, and what it finds is not
    taken and is one proper name below `attachments/`, with no separator in it, and not
    empty, `.` or `..`.  A name that is free is used as it is, and is at most 200 bytes. *)
Theorem attachment_path dropped filename taken :
  ∃ name, free_attachment_path dropped filename taken = Some (lit ATTACHMENTS_DIR ++ lit "/" ++ name)
    ∧ (lit ATTACHMENTS_DIR ++ lit "/" ++ name ∉ taken)
    ∧ Forall (λ n, is_separator n = false) name ∧ (name ∉ [[]; lit "."; lit ".."])
    ∧ (lit ATTACHMENTS_DIR ++ lit "/" ++ attachment_name dropped filename ∉ taken → name = attachment_name dropped filename ∧ encoded_len name ≤ MAX_NAME_BYTES).
Proof.
  unfold free_attachment_path. destruct (attachment_name_spec dropped filename) as [[Hsep Hdir] Hlen]. set (name := attachment_name _ _) in *.
  pose proof (rpartition_dot_app name) as Hparts. destruct (rpartition_dot name) as [[stem0 dot0] ext0]. destruct Hparts as (Hname & Hdot & _).
  assert (∃ stem dot ext, (if decide (stem0 = []) then (name, [], []) else (stem0, dot0, ext0)) = (stem, dot, ext) ∧ stem ++ dot ++ ext = name)
    as (stem & dot & ext & -> & Eparts) by (destruct (decide _); eexists _, _, _; [split; [done|by rewrite !app_nil_r]|done]).
  destruct (decide _) as [Hin|Hout]; [|by exists name].
  destruct (free_from_spec (numbered_path stem dot ext) taken (S (length taken)) 2) as (k & E & Hk & Hfree); [apply numbered_path_inj|lia|].
  exists (stem ++ lit " (" ++ lit (str_of_Z k) ++ lit ")" ++ dot ++ ext). rewrite E. split_and!; [done|done| | |done].
  - rewrite <- Eparts in Hsep. rewrite !Forall_app in *. destruct Hsep as (? & ? & ?). split_and!; try done; try (by repeat constructor).
    unfold lit. apply Forall_fmap. eapply list.Forall_impl; [apply str_of_Z_digits; lia|]. intros c Hc. cbn.
    unfold is_separator, is_digit in *. apply bool_decide_eq_false. intros [E1|[E1|[]%elem_of_nil]%elem_of_cons]%elem_of_cons; rewrite E1 in Hc; by vm_compute in Hc.
  - intros Hm. assert (40%N ∈ stem ++ lit " (" ++ lit (str_of_Z k) ++ lit ")" ++ dot ++ ext) as H40.
    { rewrite !elem_of_app. right. left. by right; left. }
    revert H40. by repeat (apply elem_of_cons in Hm as [->|Hm]; [by intros H40; apply (bool_decide_pack _) in H40; vm_compute in H40|]); apply elem_of_nil in Hm.
Qed.

(** ** The bindings of a session *)

Abbreviation binding_id := (λ b : session_file_row, (sf_tenant b, sf_session b, sf_file b)).
(** What the schema asks of files and bindings: ids and keys are unique, so are the paths of
    a session, and a binding's session and file exist. *)
Record files_ok (d : fdb) : Prop := FilesOk {
  fk_ids : NoDup (f_id <$> fd_files d);
  fk_keys : NoDup (binding_id <$> bindings d);
  fk_paths b1 b2 p : b1 ∈ bindings d → b2 ∈ bindings d → sf_tenant b1 = sf_tenant b2 → sf_session b1 = sf_session b2 →
    sf_path b1 = Some p → sf_path b2 = Some p → b1 = b2;
  fk_path b : b ∈ bindings d → sf_path b ≠ Some [];
  fk_file b : b ∈ bindings d → get_file d (sf_tenant b) (sf_file b) None ≠ None;
  fk_session b : b ∈ bindings d → get_session (fd_db d) (sf_tenant b) (sf_session b) None ≠ None
}.
Lemma nodup_proj {A B} (f : A → B) l x y : NoDup (f <$> l) → x ∈ l → y ∈ l → f x = f y → x = y.
Proof.
  induction l as [|z l IH]; intros Hnd Hx Hy E; [by apply elem_of_nil in Hx|]. apply list.NoDup_cons in Hnd as [Hz Hnd].
  apply elem_of_cons in Hx as [->|Hx]; apply elem_of_cons in Hy as [->|Hy]; [done| | |by apply IH].
  - exfalso. apply Hz. rewrite E. by apply list_elem_of_fmap_2.
  - exfalso. apply Hz. rewrite <- E. by apply list_elem_of_fmap_2.
Qed.
Lemma of_session_iff tenant sid t s : of_session tenant sid t s = true ↔ t = tenant ∧ s = sid.
Proof. apply bool_decide_eq_true. Qed.
Lemma of_binding_iff tenant sid file b : of_binding tenant sid file b = true ↔ binding_id b = (tenant, sid, file).
Proof. unfold of_binding. rewrite andb_true_iff, of_session_iff, bool_decide_eq_true. naive_solver. Qed.
Lemma keys_unique d b1 b2 : files_ok d → b1 ∈ bindings d → b2 ∈ bindings d → binding_id b1 = binding_id b2 → b1 = b2.
Proof. intros Hd. apply (nodup_proj binding_id), Hd. Qed.
Lemma find_binding_iff d tenant sid file b :
  files_ok d → find_binding d tenant sid file = Some b ↔ b ∈ bindings d ∧ binding_id b = (tenant, sid, file).
Proof.
  intros Hd. unfold find_binding. split.
  - intros [H1 H2]%find_row_Some. split; [done|by apply of_binding_iff].
  - intros [Hb Hid]. destruct (find_row (of_binding tenant sid file) (bindings d)) as [b'|] eqn:E.
    + apply find_row_Some in E as [H1 H2]. apply of_binding_iff in H1. f_equal. apply (keys_unique d); congruence.
    + rewrite find_row_None, list.Forall_forall in E. apply E in Hb. apply of_binding_iff in Hid. congruence.
Qed.
Lemma find_binding_none d tenant sid file : find_binding d tenant sid file = None ↔ ∀ b, b ∈ bindings d → binding_id b ≠ (tenant, sid, file).
Proof.
  unfold find_binding. rewrite find_row_None, list.Forall_forall. split; intros H b Hb.
  - intros E%of_binding_iff. specialize (H b Hb). congruence.
  - specialize (H b Hb). rewrite <- of_binding_iff in H. by destruct (of_binding _ _ _ _).
Qed.

(** ** Attaching *)

Definition is_new (m : made) (file : string) : Prop := file ∈ md_created m ∨ file ∈ md_placed m.
Lemma is_new_placed c pl file g : is_new (Made c (pl ++ [file])) g ↔ is_new (Made c pl) g ∨ g = file.
Proof. unfold is_new. cbn. set_solver. Qed.
Lemma is_new_created c pl file g : is_new (Made (c ++ [file]) pl) g ↔ is_new (Made c pl) g ∨ g = file.
Proof. unfold is_new. cbn. set_solver. Qed.
Section attach.
Context (dropped : N → bool) (tenant sid : uuid) (now : Z) (d : fdb) (taken0 : list (list N)).
Hypothesis (Hd : files_ok d).

Definition mine (b : session_file_row) : bool := of_session tenant sid (sf_tenant b) (sf_session b).
Hypothesis Htaken0 : ∀ b p, b ∈ bindings d → mine b = true → sf_path b = Some p → p ∈ taken0.
Definition updated (paths : odict string (list N)) (placed : list string) (b : session_file_row) : session_file_row :=
  if mine b && bool_decide (sf_file b ∈ placed) then set_path b (paths !! sf_file b) else b.
Definition added (paths : odict string (list N)) (file : string) : session_file_row := SessionFileRow tenant sid file None (paths !! file) now.

Record attach_inv (a : attaching) : Prop := AttachInv {
  ai_db : at_db a = with_bindings d ((updated (at_paths a) (md_placed (at_made a)) <$> bindings d) ++ (added (at_paths a) <$> md_created (at_made a)));
  ai_created file : file ∈ md_created (at_made a) → find_binding d tenant sid file = None ∧ get_file d tenant file None ≠ None;
  ai_placed file : file ∈ md_placed (at_made a) → ∃ b, find_binding d tenant sid file = Some b ∧ sf_path b = None;
  ai_nodup : NoDup (md_created (at_made a));
  ai_new file : is_new (at_made a) file → ∃ p, at_paths a !! file = Some p ∧ p ∈ at_taken a ∧ (p ∉ taken0) ∧ p ≠ [];
  ai_old file p : at_paths a !! file = Some p → is_new (at_made a) file ∨ ∃ b, find_binding d tenant sid file = Some b ∧ sf_path b = Some p;
  ai_distinct f1 f2 p : is_new (at_made a) f1 → is_new (at_made a) f2 → at_paths a !! f1 = Some p → at_paths a !! f2 = Some p → f1 = f2;
  ai_taken p : p ∈ taken0 → p ∈ at_taken a
}.
Lemma mine_iff b : mine b = true ↔ sf_tenant b = tenant ∧ sf_session b = sid.
Proof. apply of_session_iff. Qed.
Lemma updated_id paths placed b : binding_id (updated paths placed b) = binding_id b.
Proof. unfold updated. by destruct (_ && _). Qed.
Lemma updated_mine paths placed b : mine (updated paths placed b) = mine b.
Proof. unfold mine, updated. by destruct (_ && _). Qed.
Lemma updated_path paths placed b :
  sf_path (updated paths placed b) = if mine b && bool_decide (sf_file b ∈ placed) then paths !! sf_file b else sf_path b.
Proof. unfold updated. by destruct (_ && _). Qed.
(** A binding of the session after some files are attached. *)
Lemma attach_binding a b :
  attach_inv a → b ∈ bindings (at_db a) →
  (∃ b0, b0 ∈ bindings d ∧ b = updated (at_paths a) (md_placed (at_made a)) b0) ∨ ∃ file, file ∈ md_created (at_made a) ∧ b = added (at_paths a) file.
Proof.
  intros Ha. rewrite (ai_db _ Ha). cbn. rewrite elem_of_app, !list_elem_of_fmap. intros [(b0 & -> & ?)|(file & -> & ?)]; eauto.
Qed.
(** A path of the session is an old one of it, or one of a new file. *)
Lemma attach_path a b p :
  attach_inv a → b ∈ bindings (at_db a) → mine b = true → sf_path b = Some p →
  (p ∈ taken0 ∧ b ∈ bindings d) ∨ (is_new (at_made a) (sf_file b) ∧ at_paths a !! sf_file b = Some p).
Proof.
  intros Ha Hb Hm Hp. destruct (attach_binding a b Ha Hb) as [(b0 & Hb0 & ->)|(file & Hf & ->)]; [|right; split; [by left|done]].
  rewrite updated_mine in Hm. rewrite updated_path in Hp. rewrite Hm in Hp. cbn in Hp.
  assert (sf_file (updated (at_paths a) (md_placed (at_made a)) b0) = sf_file b0) as -> by (unfold updated; by destruct (_ && _)).
  destruct (bool_decide (sf_file b0 ∈ md_placed (at_made a))) eqn:Ep.
  - right. split; [right; by apply bool_decide_eq_true in Ep|done].
  - left. split; [by eapply Htaken0|]. unfold updated. by rewrite Hm, Ep.
Qed.
Lemma attach_free a p : attach_inv a → p ∉ at_taken a → path_taken (at_db a) tenant sid (Some p) = false.
Proof.
  intros Ha Hp. unfold path_taken. rewrite bool_decide_eq_true_2 by done. cbn [andb]. apply not_true_is_false. intros He%existsb_exists.
  destruct He as (b & Hb%list_elem_of_In & [Hm E%bool_decide_eq_true]%andb_true_iff).
  destruct (attach_path a b p Ha Hb Hm E) as [[Ht _]|[Hn E']]; [by apply Hp, Ha|].
  destruct (ai_new _ Ha _ Hn) as (q & Eq & Ht & _). congruence.
Qed.
Lemma attach_paths_insert a file p :
  at_paths a !! file = None → (∀ f, is_new (at_made a) f → is_Some (at_paths a !! f)) →
  (updated (<[file := p]> (at_paths a)) (md_placed (at_made a)) <$> bindings d) ++ (added (<[file := p]> (at_paths a)) <$> md_created (at_made a))
  = (updated (at_paths a) (md_placed (at_made a)) <$> bindings d) ++ (added (at_paths a) <$> md_created (at_made a)).
Proof.
  intros Hn Hs. f_equal; apply list_fmap_ext; intros i x Hx%list_elem_of_lookup_2.
  - unfold updated. destruct (mine x && bool_decide (sf_file x ∈ md_placed (at_made a))) eqn:E; [|done]. f_equal. apply olookup_insert_ne. intros ->.
    apply andb_true_iff in E as [_ E%bool_decide_eq_true]. destruct (Hs (sf_file x)) as [? Hq]; [by right|]. congruence.
  - unfold added. f_equal. apply olookup_insert_ne. intros <-. destruct (Hs file) as [? Hq]; [by left|]. congruence.
Qed.
Lemma attach_start sizes : attach_inv (Attaching d taken0 ∅ sizes (Made [] [])).
Proof.
  split; cbn.
  - rewrite app_nil_r. destruct d as [d0 rows]. unfold with_bindings, bindings. cbn. f_equal.
    replace (updated ∅ [] <$> session_files d0) with (session_files d0); [by destruct d0|].
    symmetry. etrans; [|apply list_fmap_id]. apply list_fmap_ext. intros i b _. unfold updated. by rewrite bool_decide_eq_false_2, andb_false_r by apply not_elem_of_nil.
  - by intros g ?%elem_of_nil.
  - by intros g ?%elem_of_nil.
  - constructor.
  - intros g [Hg|Hg]; by apply elem_of_nil in Hg.
  - done.
  - intros f1 f2 p [Hg|Hg]; by apply elem_of_nil in Hg.
  - done.
Qed.
Context (snapshot : list session_file_row).
Hypothesis Hsnap : ∀ b, b ∈ snapshot ↔ b ∈ bindings d ∧ mine b = true.
Lemma snapshot_find file : find_row (λ b, bool_decide (sf_file b = file)) snapshot = find_binding d tenant sid file.
Proof.
  destruct (find_row _ snapshot) as [b|] eqn:E.
  - apply find_row_Some in E as [Ef%bool_decide_eq_true [Hb Hm]%Hsnap]. symmetry. apply find_binding_iff; [done|].
    apply mine_iff in Hm as [<- <-]. by rewrite Ef.
  - symmetry. apply find_binding_none. intros b Hb Eb. rewrite find_row_None, list.Forall_forall in E.
    injection Eb as E1 E2 E3. assert (b ∈ snapshot) as Hin by (apply Hsnap; split; [done|by apply mine_iff]).
    apply E in Hin. by rewrite bool_decide_eq_true_2 in Hin.
Qed.
Lemma with_bindings_id (d' : fdb) : with_bindings d' (bindings d') = d'.
Proof. destruct d' as [d0 rows]. unfold with_bindings, bindings. cbn. f_equal. by destruct d0. Qed.
Lemma with_bindings_twice l1 l2 : with_bindings (with_bindings d l1) l2 = with_bindings d l2.
Proof. done. Qed.
Lemma ai_bindings a : attach_inv a →
  bindings (at_db a) = (updated (at_paths a) (md_placed (at_made a)) <$> bindings d) ++ (added (at_paths a) <$> md_created (at_made a)).
Proof. intros Ha. by rewrite (ai_db _ Ha). Qed.
Lemma placed_update a file p :
  attach_inv a → at_paths a !! file = None → (∃ b, find_binding d tenant sid file = Some b) →
  update_where (of_binding tenant sid file) (λ b, set_path b (Some p))
    ((updated (at_paths a) (md_placed (at_made a)) <$> bindings d) ++ (added (at_paths a) <$> md_created (at_made a)))
  = (updated (<[file := p]> (at_paths a)) (md_placed (at_made a) ++ [file]) <$> bindings d) ++ (added (at_paths a) <$> md_created (at_made a)).
Proof.
  intros Ha Hn [b0 Hb0]. unfold update_where. rewrite fmap_app. f_equal; rewrite <- list_fmap_compose; apply list_fmap_ext; intros i b Hb%list_elem_of_lookup_2; cbn.
  - destruct (of_binding tenant sid file (updated (at_paths a) (md_placed (at_made a)) b)) eqn:E.
    + apply of_binding_iff in E. rewrite updated_id in E. injection E as E1 E2 E3.
      assert (mine b = true) as Hm by by apply mine_iff.
      unfold updated. rewrite Hm, !E3. rewrite (bool_decide_eq_true_2 (file ∈ _ ++ _)) by set_solver.
      rewrite olookup_insert_eq. by destruct (true && bool_decide (file ∈ md_placed (at_made a))).
    + assert (binding_id b ≠ (tenant, sid, file)) as Hne.
      { intros E'. rewrite <- (updated_id (at_paths a) (md_placed (at_made a))) in E'. apply of_binding_iff in E'. congruence. }
      unfold updated. destruct (mine b) eqn:Hm; [|done]. apply mine_iff in Hm as [E1 E2]. cbn [andb].
      assert (sf_file b ≠ file) as Hf by congruence.
      rewrite olookup_insert_ne by done.
      replace (bool_decide (sf_file b ∈ md_placed (at_made a) ++ [file])) with (bool_decide (sf_file b ∈ md_placed (at_made a))); [done|].
      apply bool_decide_ext. set_solver.
  - destruct (of_binding tenant sid file (added (at_paths a) b)) eqn:E; [|done]. apply of_binding_iff in E. cbn in E. injection E as ->.
    apply (ai_created _ Ha) in Hb as [Hb _]. congruence.
Qed.
(** A file gets the path [p], as a new binding or by placing an old one. *)
Lemma attach_inv_new a file p d' m sizes :
  attach_inv a → at_paths a !! file = None → p ∉ at_taken a → p ≠ [] →
  (∀ g, is_new m g ↔ is_new (at_made a) g ∨ g = file) →
  d' = with_bindings d ((updated (<[file := p]> (at_paths a)) (md_placed m) <$> bindings d) ++ (added (<[file := p]> (at_paths a)) <$> md_created m)) →
  (∀ g, g ∈ md_created m → find_binding d tenant sid g = None ∧ get_file d tenant g None ≠ None) →
  (∀ g, g ∈ md_placed m → ∃ b, find_binding d tenant sid g = Some b ∧ sf_path b = None) → NoDup (md_created m) →
  attach_inv (Attaching d' (p :: at_taken a) (<[file := p]> (at_paths a)) sizes m).
Proof.
  intros Ha Hn Hp Hne Hm Hd' Hc Hpl Hnd. assert (∀ g, is_new (at_made a) g → g ≠ file) as Hold.
  { intros g Hg ->. destruct (ai_new _ Ha _ Hg) as (q & Hq & _). congruence. }
  split; cbn; [done..| | | |].
  - intros g [Hg| ->]%Hm; [|exists p; rewrite olookup_insert_eq; split_and!; [done|by left| |done]].
    + destruct (ai_new _ Ha _ Hg) as (q & Hq & Ht & Hrest). exists q. rewrite olookup_insert_ne by (by apply not_eq_sym, Hold).
      split_and!; [done|by right|apply Hrest..].
    + intros Hin. by apply Hp, Ha.
  - intros g q. rewrite olookup_insert. destruct (decide (file = g)) as [<-|]; [left; apply Hm; by right|].
    intros Hq. destruct (ai_old _ Ha _ _ Hq) as [Hg|Hg]; [left; apply Hm; by left|by right].
  - intros g1 g2 q Hg1%Hm Hg2%Hm. rewrite !olookup_insert. destruct (decide (file = g1)) as [<-|], (decide (file = g2)) as [<-|]; [done| | |].
    + intros <-%(inj Some) Hq. destruct Hg2 as [Hg2| ->]; [|done]. destruct (ai_new _ Ha _ Hg2) as (? & E & Ht & _). congruence.
    + intros Hq <-%(inj Some). destruct Hg1 as [Hg1| ->]; [|done]. destruct (ai_new _ Ha _ Hg1) as (? & E & Ht & _). congruence.
    + destruct Hg1 as [Hg1| ->]; [|done]. destruct Hg2 as [Hg2| ->]; [|done]. by apply (ai_distinct _ Ha).
  - intros q Hq. right. by apply Ha.
Qed.
Lemma attach_one_spec a f :
  attach_inv a → get_session (fd_db d) tenant sid None ≠ None → get_file d tenant (if_file f) None ≠ None →
  ∃ a', attach_one dropped tenant sid now snapshot a f = Ok a' ∧ attach_inv a' ∧ if_file f ∈ okeys (at_paths a')
    ∧ ∀ file p, at_paths a !! file = Some p → at_paths a' !! file = Some p.
Proof.
  intros Ha Hs Hf. unfold attach_one. set (file := if_file f) in *. destruct (decide (file ∈ okeys (at_paths a))) as [Hin|Hout]; [by exists a|].
  assert (at_paths a !! file = None) as Hn.
  { destruct (at_paths a !! file) eqn:E; [|done]. destruct Hout. apply elem_of_okeys. by eexists. }
  assert (∀ g, is_new (at_made a) g → is_Some (at_paths a !! g)) as Hsome.
  { intros g Hg. destruct (ai_new _ Ha _ Hg) as (p & -> & _). by eexists. }
  assert (¬ is_new (at_made a) file) as Hnew by (intros Hg; destruct (Hsome _ Hg); congruence).
  rewrite snapshot_find. destruct (find_binding d tenant sid file) as [b|] eqn:Eb.
  - destruct (truthy_path (sf_path b)) as [p|] eqn:Ep; cbn [mbind option_bind]; rewrite Ep.
    { assert (sf_path b = Some p) as Epath by (destruct (sf_path b) as [[|]|]; by simplify_eq/=).
      eexists. split; [done|]. split; [|split; [apply elem_of_okeys; eexists; apply olookup_insert_eq|]].
      2: { cbn. intros g q Hg. rewrite olookup_insert_ne; [done|congruence]. }
      destruct Ha as [H1 H2 H3 H4 H5 H6 H7 H8]. split; cbn.
      - rewrite attach_paths_insert by done. exact H1.
      - done.
      - done.
      - done.
      - intros g Hg. rewrite olookup_insert_ne; [by apply H5|congruence].
      - intros g q. rewrite olookup_insert. destruct (decide (file = g)) as [<-|]; [|apply H6]. intros <-%(inj Some). right. by exists b.
      - intros g1 g2 q Hg1 Hg2. rewrite !olookup_insert_ne by congruence. by apply H7.
      - done. }
    assert (sf_path b = None) as Epath.
    { destruct (sf_path b) as [[|]|] eqn:E; [|done|done]. exfalso. eapply fk_path, E; [done|]. by apply find_binding_iff in Eb as [? _]. }
    destruct (attachment_path dropped (if_name f) (at_taken a)) as (name & -> & Hfree & _). set (p := lit ATTACHMENTS_DIR ++ _) in *.
    unfold place_binding. rewrite attach_free by done. cbn [mbind res_bind].
    eexists. split; [done|]. split; [|split; [apply elem_of_okeys; eexists; apply olookup_insert_eq|]].
    2: { cbn. intros g q Hg. rewrite olookup_insert_ne; [done|congruence]. }
    apply attach_inv_new; try done.
    + intros g. rewrite is_new_placed. tauto.
    + rewrite (ai_bindings a Ha), placed_update by eauto. rewrite (ai_db _ Ha), with_bindings_twice. f_equal. cbn [md_created md_placed]. f_equal.
      apply list_fmap_ext. intros i x Hx%list_elem_of_lookup_2. unfold added. f_equal. symmetry. apply olookup_insert_ne. intros <-. apply Hnew. by left.
    + intros g Hg. cbn in Hg. apply (ai_created _ Ha _ Hg).
    + intros g [Hg| ->%list_elem_of_singleton]%elem_of_app; [by apply (ai_placed _ Ha)|eauto].
    + apply Ha.
  - cbn [mbind option_bind].
    destruct (attachment_path dropped (if_name f) (at_taken a)) as (name & -> & Hfree & _). set (p := lit ATTACHMENTS_DIR ++ _) in *.
    assert (find_binding (at_db a) tenant sid file = None) as Hnone.
    { apply find_binding_none. intros b Hb E. destruct (attach_binding a b Ha Hb) as [(b0 & Hb0 & ->)|(g & Hg & ->)].
      - rewrite updated_id in E. rewrite find_binding_none in Eb. by eapply Eb.
      - injection E as ->. apply Hnew. by left. }
    unfold bind_session_file. rewrite Hnone, attach_free by done.
    replace (get_session (fd_db (at_db a)) tenant sid None) with (get_session (fd_db d) tenant sid None) by by rewrite (ai_db _ Ha).
    replace (get_file (at_db a) tenant file None) with (get_file d tenant file None) by by rewrite (ai_db _ Ha).
    destruct (get_session (fd_db d) tenant sid None) eqn:Es; [|done]. destruct (get_file d tenant file None) eqn:Ef; [|done].
    cbn [mbind res_bind].
    eexists. split; [done|]. split; [|split; [apply elem_of_okeys; eexists; apply olookup_insert_eq|]].
    2: { cbn. intros g q Hg. rewrite olookup_insert_ne; [done|congruence]. }
    apply attach_inv_new; try done.
    + intros g. rewrite is_new_created. tauto.
    + rewrite (ai_bindings a Ha), (ai_db _ Ha), with_bindings_twice. f_equal. cbn [md_created md_placed].
      rewrite fmap_app, app_assoc, attach_paths_insert by done. f_equal. cbn. unfold added. by rewrite olookup_insert_eq.
    + cbn. intros g [Hg| ->%list_elem_of_singleton]%elem_of_app; [by apply (ai_created _ Ha)|]. split; [done|congruence].
    + cbn. intros g Hg. apply (ai_placed _ Ha _ Hg).
    + cbn. apply list.NoDup_app. split_and!; [apply Ha| |by apply NoDup_singleton].
      intros g Hg ->%list_elem_of_singleton. apply Hnew. by left.
Qed.
Lemma attach_all_spec a files :
  attach_inv a → get_session (fd_db d) tenant sid None ≠ None → Forall (λ f, get_file d tenant (if_file f) None ≠ None) files →
  ∃ a', attach_all dropped tenant sid now snapshot a files = Ok a' ∧ attach_inv a' ∧ (∀ f, f ∈ files → if_file f ∈ okeys (at_paths a'))
    ∧ ∀ file p, at_paths a !! file = Some p → at_paths a' !! file = Some p.
Proof.
  intros Ha Hs. revert a Ha. induction files as [|f files IH]; intros a Ha Hf; [exists a; split_and!; [done..| |done]; by intros f ?%elem_of_nil|].
  apply Forall_cons in Hf as [Hf1 Hf]. destruct (attach_one_spec a f Ha Hs Hf1) as (a1 & E1 & Ha1 & Hin & Hk1).
  destruct (IH a1 Ha1 Hf) as (a2 & E2 & Ha2 & Hall & Hk2). exists a2. cbn [attach_all]. rewrite E1. cbn [mbind res_bind]. split_and!; [done..| |].
  - intros g [->|Hg]%elem_of_cons; [|by apply Hall]. apply elem_of_okeys in Hin as [p Hp]. apply elem_of_okeys. exists p. by apply Hk2.
  - intros g p Hg. by apply Hk2, Hk1.
Qed.
(** Only the files of the message are bound or placed. *)
Lemma attach_one_new a f a' file :
  attach_one dropped tenant sid now snapshot a f = Ok a' → is_new (at_made a') file → is_new (at_made a) file ∨ file = if_file f.
Proof.
  unfold attach_one. destruct (decide _) as [|_]; [intros [= <-]; by left|]. destruct (_ ≫= _) as [p|]; [intros [= <-]; by left|].
  destruct (free_attachment_path _ _ _) as [p|]; [|done]. destruct (at_made a) as [c pl] eqn:E. cbn [md_created md_placed].
  destruct (find_row _ snapshot) as [b|].
  - destruct (place_binding _ _ _ _ _); [|done]. intros [= <-]. apply is_new_placed.
  - destruct (bind_session_file _ _ _ _ _ _ _); [|done]. intros [= <-]. apply is_new_created.
Qed.
Lemma attach_all_new a files a' file :
  attach_all dropped tenant sid now snapshot a files = Ok a' → is_new (at_made a') file → is_new (at_made a) file ∨ file ∈ if_file <$> files.
Proof.
  revert a. induction files as [|f files IH]; intros a; [intros [= <-]; by left|]. cbn [attach_all].
  destruct (attach_one _ _ _ _ _ a f) as [a1|] eqn:E; [|done]. cbn [mbind res_bind]. intros H Hn.
  destruct (IH a1 H Hn) as [H1|H1]; [|right; by right]. destruct (attach_one_new a f a1 file E H1) as [?| ->]; [by left|right; by left].
Qed.
Lemma attach_file_of a file : attach_inv a → get_file (at_db a) tenant file None = get_file d tenant file None.
Proof. intros Ha. by rewrite (ai_db _ Ha). Qed.
Lemma attach_keys a : attach_inv a → NoDup (binding_id <$> bindings (at_db a)).
Proof.
  intros Ha. rewrite (ai_bindings a Ha), fmap_app. apply list.NoDup_app. rewrite <- !list_fmap_compose. split_and!.
  - erewrite list_fmap_ext; [apply Hd|]. intros i b _. apply updated_id.
  - intros k (b & -> & Hb)%list_elem_of_fmap (file & E & Hf)%list_elem_of_fmap. cbn in E. apply (ai_created _ Ha) in Hf as [Hf _].
    rewrite find_binding_none in Hf. apply (Hf b Hb). rewrite <- E. symmetry. apply updated_id.
  - apply NoDup_fmap_2_strong; [|apply Ha]. cbn. intros x y _ _ E. by injection E.
Qed.
Lemma attach_ok a : attach_inv a → get_session (fd_db d) tenant sid None ≠ None → files_ok (at_db a).
Proof.
  intros Ha Hs. split.
  - rewrite (ai_db _ Ha). apply Hd.
  - by apply attach_keys.
  - intros b1 b2 p H1 H2 Et Es P1 P2. destruct (mine b1) eqn:Hm1.
    + assert (mine b2 = true) as Hm2 by (apply mine_iff in Hm1; apply mine_iff; destruct Hm1; split; congruence).
      destruct (attach_path a b1 p Ha H1 Hm1 P1) as [[T1 O1]|[N1 Q1]], (attach_path a b2 p Ha H2 Hm2 P2) as [[T2 O2]|[N2 Q2]].
      * by eapply fk_paths.
      * destruct (ai_new _ Ha _ N2) as (q & Eq & _ & Hq & _). congruence.
      * destruct (ai_new _ Ha _ N1) as (q & Eq & _ & Hq & _). congruence.
      * pose proof (ai_distinct _ Ha _ _ _ N1 N2 Q1 Q2) as Ef. apply mine_iff in Hm1 as [], Hm2 as [].
        apply (nodup_proj binding_id (bindings (at_db a))); [by apply attach_keys|done..|by f_equal; [f_equal|]; congruence].
    + assert (∀ b, b ∈ bindings (at_db a) → mine b = false → b ∈ bindings d) as Hold.
      { intros b Hb Hm. destruct (attach_binding a b Ha Hb) as [(b0 & Hb0 & ->)|(g & _ & ->)].
        - rewrite updated_mine in Hm. unfold updated. by rewrite Hm.
        - unfold mine, of_session in Hm. cbn in Hm. by rewrite bool_decide_eq_true_2 in Hm. }
      assert (mine b2 = false) as Hm2.
      { apply not_true_is_false. intros Hm2%mine_iff. apply not_true_iff_false in Hm1. apply Hm1, mine_iff. destruct Hm2; split; congruence. }
      eapply fk_paths; eauto.
  - intros b Hb E. destruct (mine b) eqn:Hm.
    + destruct (attach_path a b [] Ha Hb Hm E) as [[_ Hin]|[N Q]]; [by eapply fk_path|].
      destruct (ai_new _ Ha _ N) as (q & Eq & _ & _ & Hq). congruence.
    + destruct (attach_binding a b Ha Hb) as [(b0 & Hb0 & ->)|(g & _ & ->)].
      * rewrite updated_mine in Hm. unfold updated in E. rewrite Hm in E. by eapply fk_path.
      * unfold mine, of_session in Hm. cbn in Hm. by rewrite bool_decide_eq_true_2 in Hm.
  - intros b Hb. replace (get_file (at_db a) (sf_tenant b) (sf_file b) None) with (get_file d (sf_tenant b) (sf_file b) None) by by rewrite (ai_db _ Ha).
    destruct (attach_binding a b Ha Hb) as [(b0 & Hb0 & ->)|(g & Hg & ->)]; [|by apply (ai_created _ Ha)].
    pose proof (updated_id (at_paths a) (md_placed (at_made a)) b0) as E. injection E as -> _ ->. by apply fk_file.
  - intros b Hb. replace (get_session (fd_db (at_db a)) (sf_tenant b) (sf_session b) None) with (get_session (fd_db d) (sf_tenant b) (sf_session b) None) by by rewrite (ai_db _ Ha).
    destruct (attach_binding a b Ha Hb) as [(b0 & Hb0 & ->)|(g & Hg & ->)]; [|done].
    pose proof (updated_id (at_paths a) (md_placed (at_made a)) b0) as E. injection E as -> -> _. by apply fk_session.
Qed.
(** What the loop leaves can be undone exactly. *)
Lemma attach_undo a : attach_inv a → unbind (at_db a) tenant sid (at_made a) = d.
Proof.
  intros Ha. set (c := md_created (at_made a)). set (pl := md_placed (at_made a)).
  assert (unbind_files (at_db a) tenant sid c = with_bindings d (updated (at_paths a) pl <$> bindings d)) as E1.
  { unfold unbind_files. destruct (decide (c = [])) as [Ec|_].
    { rewrite (ai_db _ Ha). fold c pl. rewrite Ec. cbn [fmap list_fmap]. by rewrite app_nil_r. }
    rewrite (ai_bindings a Ha), list.filter_app, (filter_none (λ b, _ = false) (added _ <$> _)), app_nil_r, (ai_db _ Ha), with_bindings_twice.
    - f_equal. apply filter_all. apply list.Forall_forall. intros b (b0 & -> & Hb0)%list_elem_of_fmap.
      fold mine. change (of_session _ _ _ _) with (mine (updated (at_paths a) pl b0)). rewrite updated_mine.
      destruct (mine b0) eqn:Hm; [|done]. cbn. apply bool_decide_eq_false. intros Hc. apply (ai_created _ Ha) in Hc as [Hc _].
      rewrite find_binding_none in Hc. apply (Hc b0 Hb0). apply mine_iff in Hm as [<- <-].
      pose proof (updated_id (at_paths a) pl b0) as E. injection E as _ _ ->. done.
    - apply list.Forall_forall. intros b (file & -> & Hf)%list_elem_of_fmap. cbn. unfold of_session.
      rewrite !bool_decide_eq_true_2 by done. done. }
  unfold unbind. fold c pl. rewrite E1. unfold clear_paths. destruct (decide (pl = [])) as [Ep|_].
  - rewrite Ep. etrans; [|apply (with_bindings_id d)]. f_equal. etrans; [|apply list_fmap_id]. apply list_fmap_ext. intros i b _.
    unfold updated. by rewrite bool_decide_eq_false_2, andb_false_r by apply not_elem_of_nil.
  - cbn [bindings]. rewrite with_bindings_twice. etrans; [|apply (with_bindings_id d)]. f_equal.
    unfold update_where, bindings at 1. cbn [fd_db with_bindings session_files with_files]. rewrite <- list_fmap_compose.
    etrans; [|apply list_fmap_id]. apply list_fmap_ext. intros i b Hb%list_elem_of_lookup_2. cbn.
    change (of_session tenant sid (sf_tenant ?x) (sf_session ?x)) with (mine x). rewrite updated_mine.
    assert (sf_file (updated (at_paths a) pl b) = sf_file b) as -> by (pose proof (updated_id (at_paths a) pl b) as E; by injection E).
    unfold updated. destruct (mine b && bool_decide (sf_file b ∈ pl)) eqn:E; [|done].
    apply andb_true_iff in E as [Hm Hp%bool_decide_eq_true]. apply (ai_placed _ Ha) in Hp as (b' & Hb' & Hn).
    apply find_binding_iff in Hb' as [Hin Hid]; [|done]. apply mine_iff in Hm as [E1' E2'].
    assert (b' = b) as -> by (apply (keys_unique d); [done..|]; congruence). destruct b; cbn in *. unfold set_path. cbn. by rewrite Hn.
Qed.
End attach.

(** ** What attaching does *)

Lemma get_file_tenant d tenant file user : get_file d tenant file user ≠ None → get_file d tenant file None ≠ None.
Proof.
  unfold get_file. intros H. destruct (find_row _ (fd_files d)) as [r|] eqn:E in H; [|done]. apply find_row_Some in E as [[Hr _]%andb_true_iff Hin].
  intros Hn. rewrite find_row_None, list.Forall_forall in Hn. apply Hn in Hin. by rewrite Hr in Hin.
Qed.
Lemma page_all {R} (key : R → stamp) asc rows x : x ∈ (page key asc None None rows).1 ↔ x ∈ rows.
Proof.
  unfold page. cbn [fst]. rewrite merge_sort_Permutation. cbn. rewrite list_elem_of_filter. tauto.
Qed.
Lemma session_pair d tenant sid user b r :
  (b, r) ∈ session_file_pairs d tenant sid user ↔ b ∈ bindings d ∧ mine tenant sid b = true ∧ get_file d tenant (sf_file b) user = Some r.
Proof.
  unfold session_file_pairs. rewrite list_elem_of_omap. split.
  - intros (b' & Hb & E). fold (mine tenant sid b') in E. destruct (mine tenant sid b') eqn:Hm; [|done].
    destruct (get_file d tenant (sf_file b') user) eqn:Ef; [|done]. by injection E as <- <-.
  - intros (Hb & Hm & Ef). exists b. split; [done|]. fold (mine tenant sid b). by rewrite Hm, Ef.
Qed.
Lemma session_pairs_all d tenant sid user p :
  p ∈ (list_session_files d tenant sid None None true None user).1 ↔ p ∈ session_file_pairs d tenant sid user.
Proof. unfold list_session_files. rewrite page_all, list_elem_of_filter. cbn. tauto. Qed.
Lemma session_snapshot d tenant sid b :
  files_ok d → b ∈ (list_session_files d tenant sid None None true None None).1.*1 ↔ b ∈ bindings d ∧ mine tenant sid b = true.
Proof.
  intros Hd. rewrite list_elem_of_fmap. split.
  - intros ([b' r] & -> & Hp%session_pairs_all%session_pair). tauto.
  - intros [Hb Hm]. pose proof (fk_file _ Hd b Hb) as Hf. pose proof (proj1 (mine_iff _ _ _) Hm) as [Et _]. rewrite Et in Hf.
    destruct (get_file d tenant (sf_file b) None) as [r|] eqn:Er; [|done]. exists (b, r). split; [done|]. by apply session_pairs_all, session_pair.
Qed.
(** The paths that are taken when the loop begins. *)
Definition first_taken (d : fdb) (tenant sid : uuid) (inputs : list (list N)) : list (list N) :=
  inputs ++ omap (λ p, truthy_path (sf_path p.1)) (list_session_files d tenant sid None None true None None).1.
Lemma first_taken_bound d tenant sid inputs b p :
  files_ok d → b ∈ bindings d → mine tenant sid b = true → sf_path b = Some p → p ∈ first_taken d tenant sid inputs.
Proof.
  intros Hd Hb Hm Hp. apply elem_of_app. right. apply list_elem_of_omap.
  assert (b ∈ (list_session_files d tenant sid None None true None None).1.*1) as ([b' r] & -> & Hin)%list_elem_of_fmap by by apply session_snapshot.
  exists (b', r). split; [done|]. cbn in *. rewrite Hp. destruct p; [|done]. by destruct (fk_path _ Hd b' Hb).
Qed.
Section run.
Context (dropped : N → bool) (b64decode : string → option (list ascii)).
Context (d : fdb) (now max_bytes : Z) (tenant sid : uuid) (files : list input_file) (environment : json) (user : option string).
Hypothesis (Hd : files_ok d) (Hne : files ≠ []).
(** When its checks pass, the loop runs to its end, and the limit decides. *)
Lemma attach_run inputs bytes :
  get_session (fd_db d) tenant sid None ≠ None → (∀ f, f ∈ files → get_file d tenant (if_file f) user ≠ None) →
  agent_inputs b64decode d tenant environment = Ok (inputs, bytes) →
  ∃ a, attach_inv tenant sid now d (first_taken d tenant sid inputs) a ∧ (∀ f, f ∈ files → if_file f ∈ okeys (at_paths a))
    ∧ attach_all dropped tenant sid now (list_session_files d tenant sid None None true None None).1.*1
        (Attaching d (first_taken d tenant sid inputs) ∅ (bound_sizes (list_session_files d tenant sid None None true None None).1) (Made [] [])) files = Ok a
    ∧ attach_session_files dropped b64decode d now max_bytes tenant sid files environment user
      = if max_bytes <? bytes + osum id (at_sizes a) then Err (api_error "payload_too_large")
        else Ok (at_db a, ((λ f, with_path f (default [] (at_paths a !! if_file f))) <$> files, at_made a)).
Proof.
  intros Hs Hv Hi. edestruct (attach_all_spec dropped tenant sid now d (first_taken d tenant sid inputs) Hd) as (a & Ea & Ha & Hall & _).
  - intros b p. by apply first_taken_bound.
  - intros b. by apply session_snapshot.
  - apply (attach_start _ _ _ _ _ Hd). intros b p. by apply first_taken_bound.
  - done.
  - apply list.Forall_forall. intros f Hf. by eapply get_file_tenant, Hv.
  - exists a. split_and!; [exact Ha|exact Hall|exact Ea|]. unfold attach_session_files. rewrite decide_False by done. rewrite decide_False by done.
    rewrite (proj2 (forallb_forall _ _)); [|intros f Hf%list_elem_of_In; apply bool_decide_eq_true; by apply Hv]. cbn [negb].
    rewrite Hi. cbn [mbind res_bind]. unfold first_taken in Ea. rewrite Ea. done.
Qed.
Lemma attach_checked r :
  attach_session_files dropped b64decode d now max_bytes tenant sid files environment user = Ok r →
  get_session (fd_db d) tenant sid None ≠ None ∧ (∀ f, f ∈ files → get_file d tenant (if_file f) user ≠ None)
  ∧ ∃ inputs bytes, agent_inputs b64decode d tenant environment = Ok (inputs, bytes).
Proof.
  unfold attach_session_files. rewrite decide_False by done. destruct (decide _) as [|Hs]; [done|].
  destruct (forallb _ files) eqn:Hv; [|done]. cbn [negb]. destruct (agent_inputs _ _ _ _) as [[inputs bytes]|] eqn:Hi; [|done].
  intros _. split_and!; [done| |by exists inputs, bytes]. intros f Hf%list_elem_of_In. rewrite forallb_forall in Hv.
  apply Hv in Hf. by apply bool_decide_eq_true in Hf.
Qed.
End run.

(** ** The size of a workspace *)

(** The bytes of the files of a session that have a path. *)
Definition bound_bytes (d : fdb) (tenant sid : uuid) (l : list session_file_row) : Z :=
  foldr Z.add 0 ((λ b, if mine tenant sid b && bool_decide (sf_path b ≠ None) then size_of d tenant (sf_file b) else 0) <$> l).
Lemma sum_app (l1 l2 : list Z) : foldr Z.add 0 (l1 ++ l2) = foldr Z.add 0 l1 + foldr Z.add 0 l2.
Proof. induction l1 as [|x l1 IH]; simpl; lia. Qed.
Lemma sum_permutation (l1 l2 : list Z) : l1 ≡ₚ l2 → foldr Z.add 0 l1 = foldr Z.add 0 l2.
Proof. induction 1; simpl; lia. Qed.
Lemma bound_bytes_app d tenant sid l1 l2 : bound_bytes d tenant sid (l1 ++ l2) = bound_bytes d tenant sid l1 + bound_bytes d tenant sid l2.
Proof. unfold bound_bytes. by rewrite fmap_app, sum_app. Qed.
Lemma bound_bytes_place d tenant sid l b p :
  NoDup (binding_id <$> l) → b ∈ l → mine tenant sid b = true → sf_path b = None →
  bound_bytes d tenant sid (update_where (of_binding tenant sid (sf_file b)) (λ b, set_path b (Some p)) l)
  = bound_bytes d tenant sid l + size_of d tenant (sf_file b).
Proof.
  intros Hnd Hb Hm Hp. induction l as [|x l IH]; [by apply elem_of_nil in Hb|]. change (NoDup (binding_id x :: (binding_id <$> l))) in Hnd. apply list.NoDup_cons in Hnd as [Hx Hnd].
  assert (∀ y, of_binding tenant sid (sf_file b) y = true → binding_id y = binding_id b) as Hof.
  { intros y ->%of_binding_iff. by apply mine_iff in Hm as [-> ->]. }
  unfold bound_bytes, update_where in *. rewrite !fmap_cons. cbn [foldr]. destruct (decide (x = b)) as [->|Hne].
  - rewrite (proj2 (of_binding_iff tenant sid (sf_file b) b)) by (by apply mine_iff in Hm as [-> ->]).
    change (mine tenant sid (set_path b (Some p))) with (mine tenant sid b). rewrite Hm, Hp. cbn [andb sf_path sf_file set_path].
    rewrite bool_decide_eq_true_2, bool_decide_eq_false_2 by (done || naive_solver).
    replace ((λ r, if of_binding tenant sid (sf_file b) r then set_path r (Some p) else r) <$> l) with l; [lia|].
    symmetry. etrans; [|apply list_fmap_id]. apply list_fmap_ext. intros i y Hy%list_elem_of_lookup_2.
    destruct (of_binding tenant sid (sf_file b) y) eqn:E; [|done]. apply Hof in E. destruct Hx. cbn beta. rewrite <- E. by apply (list_elem_of_fmap_2 binding_id).
  - assert (b ∈ l) as Hin by (by apply elem_of_cons in Hb as [->|]).
    destruct (of_binding tenant sid (sf_file b) x) eqn:E.
    { apply Hof in E. destruct Hx. cbn beta. rewrite E. by apply (list_elem_of_fmap_2 binding_id). }
    rewrite (IH Hnd Hin). lia.
Qed.
Lemma bound_sizes_sum (pairs : list (session_file_row * file_row)) (m : odict string Z) :
  NoDup ((λ p, sf_file p.1) <$> pairs) → (∀ p, p ∈ pairs → m !! sf_file p.1 = None) →
  osum id (foldl (λ m p, match sf_path p.1 with Some _ => <[sf_file p.1 := f_size p.2]> m | None => m end) m pairs)
  = osum id m + foldr Z.add 0 ((λ p : session_file_row * file_row, match sf_path p.1 with Some _ => f_size p.2 | None => 0 end) <$> pairs)
  ∧ ∀ file, is_Some (foldl (λ m p, match sf_path p.1 with Some _ => <[sf_file p.1 := f_size p.2]> m | None => m end) m pairs !! file) →
      is_Some (m !! file) ∨ ∃ p, p ∈ pairs ∧ sf_file p.1 = file ∧ sf_path p.1 ≠ None.
Proof.
  revert m. induction pairs as [|p pairs IH]; intros m Hnd Hm; [split; [cbn; lia|auto]|].
  cbn in Hnd. apply list.NoDup_cons in Hnd as [Hp Hnd]. cbn [foldl fmap list_fmap foldr].
  set (m' := match sf_path p.1 with Some _ => _ | None => m end).
  assert (∀ q, q ∈ pairs → m' !! sf_file q.1 = None) as Hm'.
  { intros q Hq. assert (sf_file p.1 ≠ sf_file q.1) as Hne by (intros E; apply Hp; rewrite E; by apply (list_elem_of_fmap_2 (λ p : session_file_row * file_row, sf_file p.1))).
    unfold m'. destruct (sf_path p.1); [rewrite olookup_insert_ne by done|]; by apply Hm, elem_of_cons; right. }
  destruct (IH m' Hnd Hm') as [-> Hk]. split.
  - unfold m'. destruct (sf_path p.1); [|lia]. rewrite osum_insert, (Hm p) by by left. cbn. lia.
  - intros file Hf. destruct (Hk file Hf) as [Hin|(q & ? & ? & ?)]; [|right; exists q; split_and!; [by right|done|done]].
    unfold m' in Hin. destruct (sf_path p.1) eqn:E; [|by left]. rewrite olookup_insert in Hin.
    destruct (decide (sf_file p.1 = file)); [|by left]. right. exists p. split_and!; [by left|done|congruence].
Qed.
Section sizes.
Context (dropped : N → bool) (tenant sid : uuid) (now : Z) (d : fdb) (taken0 : list (list N)).
Hypothesis (Hd : files_ok d).
Hypothesis Htaken0 : ∀ b p, b ∈ bindings d → mine tenant sid b = true → sf_path b = Some p → p ∈ taken0.
Context (snapshot : list session_file_row).
Hypothesis Hsnap : ∀ b, b ∈ snapshot ↔ b ∈ bindings d ∧ mine tenant sid b = true.
(** The sizes the loop keeps are those of the bindings with a path. *)
Definition sizes_ok (a : attaching) : Prop :=
  osum id (at_sizes a) = bound_bytes d tenant sid (bindings (at_db a))
  ∧ ∀ file, is_Some (at_sizes a !! file) → ∃ b, b ∈ bindings (at_db a) ∧ binding_id b = (tenant, sid, file) ∧ sf_path b ≠ None.
Lemma attach_one_sizes a f a' :
  attach_inv tenant sid now d taken0 a → get_session (fd_db d) tenant sid None ≠ None →
  attach_one dropped tenant sid now snapshot a f = Ok a' → size_of d tenant (if_file f) = if_size f → sizes_ok a → sizes_ok a'.
Proof.
  intros Ha Hs. unfold attach_one. set (file := if_file f). destruct (decide (file ∈ okeys (at_paths a))) as [|Hout]; [by intros [= <-]|].
  assert (at_paths a !! file = None) as Hn.
  { destruct (at_paths a !! file) eqn:E; [|done]. destruct Hout. apply elem_of_okeys. by eexists. }
  assert (∀ b, b ∈ bindings (at_db a) → binding_id b = (tenant, sid, file) → b ∈ bindings d) as Hold.
  { intros b Hb E. destruct (attach_binding _ _ _ _ _ a b Ha Hb) as [(b0 & Hb0 & ->)|(g & Hg & ->)].
    - rewrite updated_id in E. injection E as E1 E2 E3. unfold updated. rewrite bool_decide_eq_false_2, andb_false_r; [done|].
      rewrite E3. intros Hp. destruct (ai_new _ _ _ _ _ _ Ha file) as (? & ? & _); [by right|congruence].
    - injection E as ->. destruct (ai_new _ _ _ _ _ _ Ha file) as (? & ? & _); [by left|congruence]. }
  rewrite (snapshot_find tenant sid d Hd snapshot Hsnap). intros H Hsize [Hsum Hkey].
  assert (∀ b p, b ∈ bindings (at_db a) → binding_id b = (tenant, sid, file) → sf_path b = None →
    sizes_ok (Attaching (with_bindings (at_db a) (update_where (of_binding tenant sid file) (λ b, set_path b (Some p)) (bindings (at_db a))))
      (p :: at_taken a) (<[file := p]> (at_paths a)) (<[file := if_size f]> (at_sizes a)) (Made (md_created (at_made a)) (md_placed (at_made a) ++ [file])))) as Hplace.
  { intros b p Hb E Hp. injection E as E1 E2 E3. assert (mine tenant sid b = true) as Hm by by apply mine_iff.
    assert (NoDup (binding_id <$> bindings (at_db a))) as Hnd by (eapply attach_keys; [exact Hd|exact Ha]).
    assert (at_sizes a !! file = None) as Hns.
    { destruct (at_sizes a !! file) eqn:Es; [|done]. destruct (Hkey file) as (b' & Hb' & Ei & Hp'); [by eexists|].
      assert (b' = b) as -> by (apply (nodup_proj binding_id (bindings (at_db a))); [done..|]; rewrite Ei; congruence). done. }
    split.
    - cbn [at_sizes at_db]. rewrite osum_insert, Hns. cbn [bindings with_bindings fd_db with_files session_files].
      rewrite <- E3, bound_bytes_place by done. rewrite E3, Hsize, <- Hsum. cbn. lia.
    - cbn [at_sizes at_db]. intros g. rewrite olookup_insert. cbn [bindings with_bindings fd_db with_files session_files].
      assert (∀ x, x ∈ bindings (at_db a) → (if of_binding tenant sid file x then set_path x (Some p) else x) ∈
        update_where (of_binding tenant sid file) (λ b, set_path b (Some p)) (bindings (at_db a))) as Hin.
      { intros x Hx. unfold update_where. by apply (list_elem_of_fmap_2 (λ r, if of_binding tenant sid file r then set_path r (Some p) else r)). }
      destruct (decide (file = g)) as [<-|Hg].
      + intros _. exists (set_path b (Some p)). split_and!; [|by cbn; rewrite E1, E2, E3|done].
        specialize (Hin b Hb). rewrite (proj2 (of_binding_iff tenant sid file b)) in Hin by (by rewrite E1, E2, E3). done.
      + intros (x & Hx & Ei & Hp')%Hkey. exists x. split_and!; [|done|done]. specialize (Hin x Hx).
        destruct (of_binding tenant sid file x) eqn:E; [|done]. apply of_binding_iff in E. congruence. }
  destruct (find_binding d tenant sid file) as [b|] eqn:Eb; cbn [mbind option_bind] in H.
  - apply find_binding_iff in Eb as [Hb Hid]; [|done].
    destruct (truthy_path (sf_path b)) as [p|] eqn:Ep; [injection H as <-; by split|].
    assert (sf_path b = None) as Epath.
    { destruct (sf_path b) as [[|]|] eqn:E; [|done|done]. exfalso. by eapply fk_path. }
    destruct (free_attachment_path dropped (if_name f) (at_taken a)) as [p|]; [|done].
    unfold place_binding in H. destruct (path_taken _ _ _ _); [done|]. injection H as <-. apply (Hplace b); [|done|done].
    rewrite (ai_bindings _ _ _ _ _ a Ha). apply elem_of_app. left. apply list_elem_of_fmap. exists b. split; [|done].
    injection Hid as E1 E2 E3. unfold updated. rewrite bool_decide_eq_false_2, andb_false_r; [done|].
    rewrite E3. intros Hp. destruct (ai_new _ _ _ _ _ _ Ha file) as (? & ? & _); [by right|congruence].
  - destruct (free_attachment_path dropped (if_name f) (at_taken a)) as [p|]; [|done].
    assert (find_binding (at_db a) tenant sid file = None) as Hnone.
    { apply find_binding_none. intros b Hb E. rewrite find_binding_none in Eb. apply (Eb b); [by apply Hold|done]. }
    unfold bind_session_file in H. rewrite Hnone in H. destruct (get_session (fd_db (at_db a)) tenant sid None); [|done].
    destruct (get_file (at_db a) tenant file None); [|done]. destruct (path_taken _ _ _ _); [done|]. injection H as <-.
    assert (at_sizes a !! file = None) as Hns.
    { destruct (at_sizes a !! file) eqn:Es; [|done]. destruct (Hkey file) as (b' & Hb' & Ei & Hp'); [by eexists|].
      rewrite find_binding_none in Hnone. by destruct (Hnone b' Hb'). }
    split; cbn [at_sizes at_db bindings with_bindings fd_db with_files session_files].
    + rewrite osum_insert, Hns, bound_bytes_app, <- Hsum. unfold bound_bytes. cbn. unfold mine, of_session. cbn.
      rewrite !bool_decide_eq_true_2 by done. cbn. rewrite Hsize. lia.
    + intros g. rewrite olookup_insert. destruct (decide (file = g)) as [<-|Hg].
      * intros _. eexists. split; [by apply elem_of_app; right; left|done].
      * intros (x & Hx & Ei & Hp')%Hkey. exists x. split_and!; [apply elem_of_app; by left|done|done].
Qed.
Lemma attach_all_sizes a files a' :
  attach_inv tenant sid now d taken0 a → get_session (fd_db d) tenant sid None ≠ None →
  Forall (λ f, get_file d tenant (if_file f) None ≠ None) files → Forall (λ f, size_of d tenant (if_file f) = if_size f) files →
  attach_all dropped tenant sid now snapshot a files = Ok a' → sizes_ok a → sizes_ok a'.
Proof.
  intros Ha Hs Hv Hf. revert a Ha. induction files as [|f files IH]; intros a Ha; [by intros [= <-]|].
  apply Forall_cons in Hf as [Hf1 Hf]. apply Forall_cons in Hv as [Hv1 Hv]. cbn [attach_all].
  destruct (attach_one_spec dropped tenant sid now d taken0 Hd Htaken0 snapshot Hsnap a f Ha Hs Hv1) as (a1 & E1 & Ha1 & _).
  rewrite E1. cbn [mbind res_bind]. intros H Hok. apply (IH Hv Hf a1 Ha1 H). exact (attach_one_sizes a f a1 Ha Hs E1 Hf1 Hok).
Qed.
End sizes.

Lemma find_of_in d tenant sid file b : files_ok d → b ∈ bindings d → binding_id b = (tenant, sid, file) → find_binding d tenant sid file = Some b.
Proof. intros. by apply find_binding_iff. Qed.
Lemma session_pairs_perm d tenant sid :
  (list_session_files d tenant sid None None true None None).1 ≡ₚ session_file_pairs d tenant sid None.
Proof.
  unfold list_session_files, page. cbn [fst]. rewrite merge_sort_Permutation. rewrite !filter_all; [done| |].
  - by apply list.Forall_forall.
  - by apply list.Forall_forall.
Qed.
Lemma session_pairs_keys d tenant sid : files_ok d → NoDup ((λ p : session_file_row * file_row, sf_file p.1) <$> session_file_pairs d tenant sid None).
Proof.
  intros Hd. unfold session_file_pairs. pose proof (fk_keys d Hd) as Hnd. induction (bindings d) as [|b l IH]; [constructor|].
  change (NoDup (binding_id b :: (binding_id <$> l))) in Hnd. apply list.NoDup_cons in Hnd as [Hb Hnd]. cbn [omap list_omap].
  destruct (of_session tenant sid (sf_tenant b) (sf_session b)) eqn:Hm; [|by apply IH].
  destruct (get_file d tenant (sf_file b) None) as [r|]; cbn [fmap option_fmap option_map]; [|by apply IH].
  rewrite fmap_cons. constructor; [|by apply IH]. cbn. intros ([b' r'] & E & Hp)%list_elem_of_fmap. cbn in E.
  apply list_elem_of_omap in Hp as (b0 & Hb0 & E0). destruct (of_session tenant sid (sf_tenant b0) (sf_session b0)) eqn:Hm0; [|done].
  destruct (get_file d tenant (sf_file b0) None); [|done]. injection E0 as -> _.
  apply Hb. cbn beta. apply of_session_iff in Hm as [-> ->], Hm0 as [Et Es]. rewrite E, <- Et, <- Es.
  by apply (list_elem_of_fmap_2 binding_id).
Qed.
Lemma first_sizes d tenant sid inputs :
  files_ok d → sizes_ok tenant sid d (Attaching d inputs ∅ (bound_sizes (list_session_files d tenant sid None None true None None).1) (Made [] [])).
Proof.
  intros Hd. set (pairs := (list_session_files d tenant sid None None true None None).1).
  destruct (bound_sizes_sum pairs ∅) as [Hsum Hkey].
  { unfold pairs; rewrite (session_pairs_perm d tenant sid). by apply session_pairs_keys. }
  { intros. apply olookup_empty. }
  split; cbn [at_sizes at_db].
  - unfold bound_sizes. rewrite Hsum. change (osum id ∅) with 0.
    rewrite (sum_permutation _ ((λ p : session_file_row * file_row, match sf_path p.1 with Some _ => f_size p.2 | None => 0 end) <$> session_file_pairs d tenant sid None))
      by (unfold pairs; by rewrite (session_pairs_perm d tenant sid)).
    unfold bound_bytes, session_file_pairs. assert (∀ b, b ∈ bindings d → get_file d (sf_tenant b) (sf_file b) None ≠ None) as Hf by apply Hd.
    induction (bindings d) as [|b l IH]; [done|]. cbn [omap list_omap]. rewrite fmap_cons. cbn [foldr]. unfold mine at 1.
    assert (∀ b, b ∈ l → get_file d (sf_tenant b) (sf_file b) None ≠ None) as Hf' by (intros; apply Hf; by right).
    specialize (IH Hf'). destruct (of_session tenant sid (sf_tenant b) (sf_session b)) eqn:Hm; cbn [andb]; [|lia].
    apply of_session_iff in Hm as [Et Es]. specialize (Hf b ltac:(by left)). rewrite Et in Hf. unfold size_of at 1.
    destruct (get_file d tenant (sf_file b) None) as [r|]; [|done]. cbn [fmap option_fmap option_map from_option]. rewrite fmap_cons. cbn [foldr fst snd].
    destruct (sf_path b); [rewrite bool_decide_eq_true_2 by done|rewrite bool_decide_eq_false_2 by naive_solver]; lia.
  - intros file [[? Hn]|([b r] & Hp & Ef & Hpath)]%Hkey; [by rewrite olookup_empty in Hn|].
    apply session_pairs_all, session_pair in Hp as (Hb & Hm & _). apply mine_iff in Hm as [E1 E2].
    exists b. split_and!; [done| |done]. cbn in Ef. by rewrite E1, E2, Ef.
Qed.

(** The bindings after attaching the files [given]: [path] is the path of every file, and
    [created] are those that had no binding. *)
Definition attached (d : fdb) (tenant sid : uuid) (now : Z) (given : list string) (path : string → list N) (created : list string) : list session_file_row :=
  ((λ b, if mine tenant sid b && bool_decide (sf_path b = None) && bool_decide (sf_file b ∈ given) then set_path b (Some (path (sf_file b))) else b) <$> bindings d)
  ++ ((λ file, SessionFileRow tenant sid file None (Some (path file)) now) <$> created).
Section exact.
Context (tenant sid : uuid) (now : Z) (d : fdb) (taken0 : list (list N)) (a : attaching) (given : list string).
Hypothesis (Hd : files_ok d) (Ha : attach_inv tenant sid now d taken0 a).
Hypothesis Hgiven : ∀ file, file ∈ given → is_Some (at_paths a !! file).
Hypothesis Hnew : ∀ file, is_new (at_made a) file → file ∈ given.
(** What is bound anew and what is placed are the message's files that have no binding, and
    those whose binding has no path. *)
Lemma created_given file : file ∈ md_created (at_made a) ↔ file ∈ given ∧ find_binding d tenant sid file = None.
Proof.
  split; [intros H; split; [apply Hnew; by left|by apply (ai_created _ _ _ _ _ _ Ha)]|]. intros [[p Hp]%Hgiven Hn].
  destruct (ai_old _ _ _ _ _ _ Ha file p Hp) as [[?|Hpl]|(b & Hb & _)]; [done| |congruence].
  destruct (ai_placed _ _ _ _ _ _ Ha file Hpl) as (b & Hb & _). congruence.
Qed.
Lemma placed_given file : file ∈ md_placed (at_made a) ↔ file ∈ given ∧ ∃ b, find_binding d tenant sid file = Some b ∧ sf_path b = None.
Proof.
  split; [intros H; split; [apply Hnew; by right|by apply (ai_placed _ _ _ _ _ _ Ha)]|]. intros [[p Hp]%Hgiven (b & Hb & Hn)].
  destruct (ai_old _ _ _ _ _ _ Ha file p Hp) as [[Hc|?]|(b' & Hb' & Hp')]; [|done|congruence].
  destruct (ai_created _ _ _ _ _ _ Ha file Hc) as [Hc' _]. congruence.
Qed.
Lemma ai_attached :
  at_db a = with_bindings d (attached d tenant sid now given (λ file, default [] (at_paths a !! file)) (md_created (at_made a))).
Proof.
  rewrite (ai_db _ _ _ _ _ _ Ha). f_equal. unfold attached. f_equal; apply list_fmap_ext; intros i x Hx%list_elem_of_lookup_2.
  - unfold updated. destruct (mine tenant sid x) eqn:Hm; [|done]. cbn [andb]. apply mine_iff in Hm as [E1 E2].
    assert (find_binding d tenant sid (sf_file x) = Some x) as Hfind by (apply find_of_in; [done..|]; congruence).
    destruct (bool_decide (sf_file x ∈ md_placed _)) eqn:Hpl.
    + apply bool_decide_eq_true in Hpl. pose proof (proj1 (placed_given _) Hpl) as (Hg & b & Hb & Hn). assert (b = x) as -> by congruence.
      rewrite !bool_decide_eq_true_2 by done. cbn [andb]. f_equal. by destruct (Hgiven _ Hg) as [p ->].
    + apply bool_decide_eq_false in Hpl. destruct (bool_decide (sf_path x = None)) eqn:Hn; [|done]. apply bool_decide_eq_true in Hn.
      rewrite bool_decide_eq_false_2; [done|]. intros Hg. apply Hpl, placed_given. split; [done|by exists x].
  - unfold added. f_equal. apply created_given in Hx as [Hg _]. by destruct (Hgiven _ Hg) as [p ->].
Qed.
(** Every file of the message is bound with its path. *)
Lemma given_bound file :
  files_ok (at_db a) → file ∈ given →
  ∃ b, find_binding (at_db a) tenant sid file = Some b ∧ sf_path b = Some (default [] (at_paths a !! file)).
Proof.
  intros Hok Hg. destruct (Hgiven _ Hg) as [p Hp]. rewrite Hp. cbn [default from_option id].
  destruct (ai_old _ _ _ _ _ _ Ha file p Hp) as [[Hc|Hpl]|(b & Hb & Eb)].
  - exists (added tenant sid now (at_paths a) file). split; [|done]. apply find_of_in; [done| |done].
    rewrite (ai_bindings _ _ _ _ _ _ Ha). apply elem_of_app. right. by apply list_elem_of_fmap_2.
  - destruct (ai_placed _ _ _ _ _ _ Ha file Hpl) as (b & Hb & _). apply find_binding_iff in Hb as [Hb Hid]; [|done].
    exists (updated tenant sid (at_paths a) (md_placed (at_made a)) b). split.
    + apply find_of_in; [done| |by rewrite updated_id]. rewrite (ai_bindings _ _ _ _ _ _ Ha). apply elem_of_app. left. by apply list_elem_of_fmap_2.
    + injection Hid as E1 E2 E3. rewrite updated_path, (proj2 (mine_iff _ _ _)), E3, bool_decide_eq_true_2 by done. done.
  - exists b. split; [|done]. apply find_binding_iff in Hb as [Hb Hid]; [|done]. apply find_of_in; [done| |done].
    rewrite ai_attached. apply elem_of_app. left. apply list_elem_of_fmap. exists b. split; [|done].
    rewrite (bool_decide_eq_false_2 (sf_path b = None)) by congruence. by rewrite andb_false_r.
Qed.
End exact.
(** The files of a message are taken from the stored rows, so their sizes are the rows'. *)
Lemma get_file_row d tenant file user r :
  files_ok d → get_file d tenant file user = Some r → f_id r = file ∧ size_of d tenant file = f_size r.
Proof.
  intros Hd. unfold size_of, get_file. intros H. apply find_row_Some in H as [[Hr _]%andb_true_iff Hin].
  pose proof Hr as [E1 E2]%bool_decide_eq_true. split; [done|]. destruct (find_row _ _) as [r'|] eqn:E.
  - apply find_row_Some in E as [[[_ E3]%bool_decide_eq_true _]%andb_true_iff Hin'].
    cbn. f_equal. apply (nodup_proj f_id (fd_files d)); [apply Hd|done..|congruence].
  - rewrite find_row_None, list.Forall_forall in E. apply E in Hin. by rewrite Hr in Hin.
Qed.
Lemma part_rows_of d tenant parts user rows :
  files_ok d → part_rows d tenant parts user = Ok rows →
  Forall (λ q : file_part * file_row, size_of d tenant (f_id q.2) = f_size q.2) rows.
Proof.
  intros Hd. revert rows. induction parts as [|p parts IH]; cbn [part_rows]; intros rows; [by intros [= <-]|].
  destruct (get_file d tenant (fp_file p) user) as [r|] eqn:E; [|done]. destruct (part_rows d tenant parts user) as [rest|]; [|done].
  intros [= <-]. constructor; [|by apply IH]. cbn. by destruct (get_file_row d tenant _ user r Hd E) as [-> ?].
Qed.
Lemma input_files_sizes {S} `{ObjectStore S} settings (d : fdb) (s : S) tenant parts user files :
  files_ok d → input_files settings d s tenant parts user true = Ok files → Forall (λ f, size_of d tenant (if_file f) = if_size f) files.
Proof.
  intros Hd. unfold input_files. destruct (part_rows _ _ _ _) as [rows|] eqn:E; [|done]. apply part_rows_of in E; [|done]. cbn [mbind res_bind].
  revert files. induction E as [|[p r] rows Hr _ IH]; cbn [workspace_parts]; intros files; [by intros [= <-]|].
  unfold workspace_file. destruct (_ <? _); [done|]. cbn [mbind res_bind]. destruct (workspace_parts settings rows) as [rest|]; [|done].
  intros [= <-]. constructor; [done|by apply IH].
Qed.

(** C22: What attaching the files of a message does when it succeeds.  The tables stay well
    formed, and of them only the session's bindings change, exactly so: a binding of the
    session to a file of the message that had no path gets the path the file is returned
    with; each file of the message without a binding gets one new binding, with that path;
    every other binding is what it was.  So each file of the message is bound with the path
    it is returned with; a new path is none an agent input uses; and when the sizes the
    message's files come with are those of the stored files, the agent's inputs with all
    files of the session that have a path fit the workspace. *)
Theorem attach_exact dropped b64decode d now max_bytes tenant sid files environment user d' out m :
  files_ok d → files ≠ [] →
  attach_session_files dropped b64decode d now max_bytes tenant sid files environment user = Ok (d', (out, m)) →
  files_ok d' ∧ ∃ path inputs bytes,
    out = (λ f, with_path f (path (if_file f))) <$> files
    ∧ d' = with_bindings d (attached d tenant sid now (if_file <$> files) path (md_created m))
    ∧ NoDup (md_created m)
    ∧ (∀ file, file ∈ md_created m ↔ file ∈ if_file <$> files ∧ find_binding d tenant sid file = None)
    ∧ (∀ file, file ∈ md_placed m ↔ file ∈ if_file <$> files ∧ ∃ b, find_binding d tenant sid file = Some b ∧ sf_path b = None)
    ∧ (∀ file, file ∈ if_file <$> files → ∃ b, find_binding d' tenant sid file = Some b ∧ sf_path b = Some (path file))
    ∧ agent_inputs b64decode d tenant environment = Ok (inputs, bytes)
    ∧ (∀ file, is_new m file → path file ∉ inputs)
    ∧ (Forall (λ f, size_of d tenant (if_file f) = if_size f) files → bytes + bound_bytes d tenant sid (bindings d') ≤ max_bytes).
Proof.
  intros Hd Hne H. destruct (attach_checked _ _ _ _ _ _ _ _ _ _ Hne _ H) as (Hs & Hv & inputs & bytes & Hi).
  destruct (attach_run dropped b64decode d now max_bytes tenant sid files environment user Hd Hne inputs bytes Hs Hv Hi) as (a & Ha & Hall & Hrun & E).
  rewrite E in H. destruct (max_bytes <? _) eqn:Hmax; [done|]. injection H as <- <- <-. apply Z.ltb_ge in Hmax.
  assert (∀ b p, b ∈ bindings d → mine tenant sid b = true → sf_path b = Some p → p ∈ first_taken d tenant sid inputs) as Ht
    by (intros b p; by apply first_taken_bound).
  assert (files_ok (at_db a)) as Hok by (by eapply attach_ok).
  assert (∀ file, file ∈ if_file <$> files → is_Some (at_paths a !! file)) as Hgiven
    by (intros file (f & -> & Hf)%list_elem_of_fmap; by apply elem_of_okeys, Hall).
  assert (∀ file, is_new (at_made a) file → file ∈ if_file <$> files) as Hnew.
  { intros file Hn. destruct (attach_all_new _ _ _ _ _ _ _ _ _ Hrun Hn) as [[Hc|Hc]|?]; [by apply elem_of_nil in Hc..|done]. }
  split; [done|]. exists (λ file, default [] (at_paths a !! file)), inputs, bytes.
  split_and!; [done|by eapply ai_attached|apply Ha|intros file; by eapply created_given|intros file; by eapply placed_given|intros file Hf; exact (given_bound _ _ _ _ _ _ _ Hd Ha Hgiven Hnew file Hok Hf)|done| |].
  - intros file Hn Hin. destruct (ai_new _ _ _ _ _ _ Ha file Hn) as (p & Hp & _ & Hout & _). apply Hout, elem_of_app. left.
    by rewrite Hp in Hin.
  - intros Hsizes. assert (sizes_ok tenant sid d a) as [Hsum _]; [|lia].
    refine (attach_all_sizes dropped tenant sid now d (first_taken d tenant sid inputs) Hd Ht _ _ _ files a _ Hs _ Hsizes Hrun (first_sizes d tenant sid _ Hd)).
    + intros b. by apply session_snapshot.
    + by apply (attach_start _ _ _ _ _ Hd).
    + apply list.Forall_forall. intros f Hf. by eapply get_file_tenant, Hv.
Qed.
(** Attaching can be undone: taking back what an attach made, in a database nothing else
    has changed, gives the tables of before, whatever paths they had. *)
Theorem attach_undone dropped b64decode d now max_bytes tenant sid files environment user d' out m :
  files_ok d → attach_session_files dropped b64decode d now max_bytes tenant sid files environment user = Ok (d', (out, m)) →
  unbind d' tenant sid m = d.
Proof.
  intros Hd H. destruct (decide (files = [])) as [->|Hne]; [by injection H as <- <- <-|].
  destruct (attach_checked _ _ _ _ _ _ _ _ _ _ Hne _ H) as (Hs & Hv & inputs & bytes & Hi).
  destruct (attach_run dropped b64decode d now max_bytes tenant sid files environment user Hd Hne inputs bytes Hs Hv Hi) as (a & Ha & _ & _ & E).
  rewrite E in H. destruct (max_bytes <? _); [done|]. injection H as <- <- <-. by eapply attach_undo.
Qed.

(** ** A concrete session *)

Definition fx_session : session_row :=
  SessionRow 2 1 None "key" None None "idle" (JObj []) (JObj []) (JArr []) (LeaseCols None None None 0)
    (SandboxCols None None None None None None None None 0 None) None 0 0.
Definition fx_file (id : string) (name : string) (kind : string) (size : Z) : file_row :=
  FileRow id 1 (lit name) "user_data" kind None size None 0.
(** One file is bound with a path, one without; a third is not bound. *)
Definition fx_db : fdb :=
  FDb (Db {[ 2%N := fx_session ]} [] [] [] [] [] []
         [SessionFileRow 1 2 "file-a" None (Some (lit "attachments/notes.txt")) 0; SessionFileRow 1 2 "file-b" None None 0] ∅ (Acct [] [] []))
    [fx_file "file-a" "notes.txt" "file" 10; fx_file "file-b" "notes.txt" "attachment" 20; fx_file "file-c" "a/b/notes.txt" "attachment" 30].
Lemma fx_db_ok : files_ok fx_db.
Proof.
  split.
  - apply (bool_decide_unpack _). by vm_compute.
  - apply (bool_decide_unpack _). by vm_compute.
  - intros b1 b2 p [->|[->|[]%elem_of_nil]%elem_of_cons]%elem_of_cons [->|[->|[]%elem_of_nil]%elem_of_cons]%elem_of_cons; done.
  - intros b Hb. repeat (apply elem_of_cons in Hb as [->|Hb]; [done|]). by apply elem_of_nil in Hb.
  - intros b Hb. repeat (apply elem_of_cons in Hb as [->|Hb]; [by vm_compute|]). by apply elem_of_nil in Hb.
  - intros b Hb. repeat (apply elem_of_cons in Hb as [->|Hb]; [by vm_compute|]). by apply elem_of_nil in Hb.
Qed.
Definition fx_dropped (n : N) : bool := (n <? 32)%N.
Definition fx_input (id : string) (name : string) (size : Z) : input_file := InputFile id (lit name) "" size InWorkspace [].
Definition fx_env : json := JObj [("files", JArr [JObj [("type", JStr "file_id"); ("path", JStr "./attachments/notes (2).txt"); ("file_id", JStr "file-a")]])]%string.
Definition fx_run : res exn (fdb * (list input_file * made)) :=
  attach_session_files fx_dropped (λ _, None) fx_db 7 1000 1 2 [fx_input "file-c" "a/b/notes.txt" 30; fx_input "file-b" "notes.txt" 20; fx_input "file-a" "x" 10] fx_env None.
(** The paths the run gives: the fourth and the third free name, and the one that was there. *)
Lemma fx_run_ok : match fx_run with
  | Ok (_, (out, m)) => bool_decide (if_path <$> out = [lit "attachments/notes (3).txt"; lit "attachments/notes (4).txt"; lit "attachments/notes.txt"])
      && bool_decide (md_created m = ["file-c"%string]) && bool_decide (md_placed m = ["file-b"%string])
  | Err _ => false end = true.
Proof. vm_compute. reflexivity. Qed.
Lemma attach_exact_witness : ∃ d' out m, fx_run = Ok (d', (out, m)) ∧ files_ok d'
  ∧ if_path <$> out = [lit "attachments/notes (3).txt"; lit "attachments/notes (4).txt"; lit "attachments/notes.txt"].
Proof.
  pose proof fx_run_ok as Hrun. destruct fx_run as [[d' [out m]]|] eqn:E; [|discriminate].
  apply andb_prop in Hrun as [Hrun _]. apply andb_prop in Hrun as [Hrun _]. apply bool_decide_eq_true in Hrun.
  exists d', out, m. split; [reflexivity|]. split; [|exact Hrun].
  refine (proj1 (attach_exact fx_dropped (λ _, None) fx_db 7 1000 1 2 _ fx_env None d' out m fx_db_ok _ E)). discriminate.
Defined.
Lemma attach_undone_witness : ∃ d' out m, fx_run = Ok (d', (out, m)) ∧ md_placed m = ["file-b"%string] ∧ unbind d' 1 2 m = fx_db.
Proof.
  pose proof fx_run_ok as Hrun. destruct fx_run as [[d' [out m]]|] eqn:E; [|discriminate].
  apply andb_prop in Hrun as [_ Hrun]. apply bool_decide_eq_true in Hrun.
  exists d', out, m. split; [reflexivity|]. split; [exact Hrun|].
  exact (attach_undone fx_dropped (λ _, None) fx_db 7 1000 1 2 _ fx_env None d' out m fx_db_ok E).
Defined.
