(* ===== verification/FilesMessages.v ===== *)
(** * The files of messages: what is left of a message whose turn was not sent

    The ids and objects of new files, storing and dropping the images of a message, and
    the composition of both with the bindings of [FilesProps]. *)

From S2P Require Import Prelude PyStd Db Fleet Blobs Files FilesProps.

Open Scope Z_scope.

(** ** Ids of new files *)

Definition file_object_text (tenant u : uuid) : list ascii := uuid_text tenant ++ [slash] ++ chars (new_file_id u).
Lemma new_file_id_chars u : chars (new_file_id u) = chars "file-" ++ uuid_hex u.
Proof. apply chars_of_chars. Qed.
Lemma new_file_id_inj u v : (u < 2 ^ 128)%N → (v < 2 ^ 128)%N → new_file_id u = new_file_id v → u = v.
Proof. intros Hu Hv E. apply (f_equal chars) in E. rewrite !new_file_id_chars in E. apply app_inv_head in E. by apply uuid_hex_inj. Qed.
Lemma new_file_id_last u : ∃ c, list.last (chars (new_file_id u)) = Some c ∧ is_hex_lower c = true.
Proof.
  rewrite new_file_id_chars, last_app. pose proof (hex_digits_all 32 u) as Hall. pose proof (hex_digits_length 32 u) as Hlen. fold (uuid_hex u) in *.
  destruct (list.last (uuid_hex u)) as [c|] eqn:E; [|apply last_None in E; by rewrite E in Hlen].
  exists c. split; [done|]. by eapply (proj1 (list.Forall_forall _ _) Hall), last_Some_elem_of.
Qed.
Lemma hex_edge c : is_hex_lower c = true → edge_ok c = true ∧ c ≠ slash.
Proof.
  intros Hc. destruct (id_char_edge c) as [He _]; [unfold is_id_char; by rewrite Hc|]. split; [done|]. intros ->. by vm_compute in He.
Qed.
Lemma new_file_id_part u : (slash ∉ chars (new_file_id u)) ∧ bad_part (chars (new_file_id u)) = false.
Proof.
  rewrite new_file_id_chars. split.
  - intros [Hin|Hin]%elem_of_app; [by apply (bool_decide_pack _) in Hin; vm_compute in Hin|].
    pose proof (hex_digits_all 32 u) as Hall. rewrite list.Forall_forall in Hall. apply Hall, hex_edge in Hin. by destruct Hin.
  - unfold bad_part. apply bool_decide_eq_false. by intros [E|[E|E]].
Qed.
Lemma new_file_object tenant u :
  file_object tenant (new_file_id u) = Ok (file_object_text tenant u) ∧ check_object_id (file_object_text tenant u) = Ok (file_object_text tenant u).
Proof.
  destruct (new_file_id_last u) as (c & Hlast & Hc%hex_edge). destruct (new_file_id_part u) as [Hslash Hpart]. split.
  - unfold file_object, file_object_id, check_object_id. rewrite strip_slashes_id.
    + rewrite decide_False; [|by rewrite new_file_id_chars]. rewrite split_on_none by done. cbn [existsb]. by rewrite Hpart.
    + by rewrite new_file_id_chars.
    + rewrite Hlast. by destruct Hc.
  - change (file_object_text tenant u) with (join [slash] [uuid_text tenant; chars (new_file_id u)]).
    eapply (check_parts _ tenant (chars (new_file_id u)) c); [done|done|done|by destruct Hc|].
    repeat constructor; try apply uuid_text_part; done.
Qed.
Lemma file_object_inj tenant u v : (u < 2 ^ 128)%N → (v < 2 ^ 128)%N → file_object_text tenant u = file_object_text tenant v → u = v.
Proof.
  intros Hu Hv E. unfold file_object_text in E. apply app_inv_head in E. apply app_inv_head in E.
  apply new_file_id_inj; [done..|]. apply (f_equal of_chars) in E. by rewrite !of_chars_chars in E.
Qed.

(** ** Undoing on rows *)

Section undo.
Context (tenant sid : uuid) (m : made).
Definition undo_one (b : session_file_row) : option session_file_row :=
  if mine tenant sid b && bool_decide (sf_file b ∈ md_created m) then None
  else Some (if mine tenant sid b && bool_decide (sf_file b ∈ md_placed m) then set_path b None else b).
Lemma unbind_rows d : unbind d tenant sid m = with_bindings d (omap undo_one (bindings d)).
Proof.
  assert (unbind_files d tenant sid (md_created m)
    = with_bindings d (filter (λ b, (mine tenant sid b && bool_decide (sf_file b ∈ md_created m)) = false) (bindings d))) as E1.
  { unfold unbind_files. destruct (decide _) as [E|]; [|done]. rewrite filter_all; [by rewrite with_bindings_id|].
    apply list.Forall_forall. intros b _. rewrite E. by rewrite bool_decide_eq_false_2, andb_false_r by apply not_elem_of_nil. }
  assert (∀ d', clear_paths d' tenant sid (md_placed m)
    = with_bindings d' ((λ b, if mine tenant sid b && bool_decide (sf_file b ∈ md_placed m) then set_path b None else b) <$> bindings d')) as E2.
  { intros d'. unfold clear_paths. destruct (decide _) as [E|]; [|done]. symmetry. etrans; [|apply with_bindings_id]. f_equal.
    etrans; [|apply list_fmap_id]. apply list_fmap_ext. intros i b _. rewrite E. by rewrite bool_decide_eq_false_2, andb_false_r by apply not_elem_of_nil. }
  unfold unbind. rewrite E1, E2, with_bindings_twice. f_equal. unfold bindings at 1. cbn [fd_db with_bindings session_files with_files].
  clear E1 E2. induction (bindings d) as [|b l IH]; [done|]. rewrite filter_cons. cbn [omap list_omap]. unfold undo_one at 1.
  destruct (mine tenant sid b && bool_decide (sf_file b ∈ md_created m)).
  - rewrite decide_False by done. exact IH.
  - rewrite decide_True, fmap_cons by done. f_equal. exact IH.
Qed.
Lemma undo_other b : ¬ is_new m (sf_file b) → undo_one b = Some b.
Proof.
  intros Hn. unfold undo_one, is_new in *. rewrite !bool_decide_eq_false_2 by tauto. by rewrite !andb_false_r.
Qed.
End undo.
Lemma omap_same {A} (f : A → option A) (l : list A) : (∀ x, x ∈ l → f x = Some x) → omap f l = l.
Proof.
  induction l as [|x l IH]; intros Hf; [done|]. cbn [omap list_omap]. rewrite (Hf x) by by left. f_equal. apply IH. intros y Hy. apply Hf. by right.
Qed.

(** ** Storing and dropping images *)

Section message.
Context {S : Type} `{ObjectStoreLaws S}.
Context (settings : file_settings) (dropped : N → bool) (b64decode : string → option (list ascii)) (ft : faults).
Hypothesis (Hunbind : ft_unbind ft = true) (Hdrop : ∀ id, ft_drop ft id = true).
Context (tenant : uuid) (now : Z).

Definition image_uuids (images : list image_part) : list uuid := omap (λ i, match i with ImageData u _ _ => Some u | ImageRef _ => None end) images.
Definition image_refs (images : list image_part) : list string := omap (λ i, match i with ImageRef f => Some f | _ => None end) images.
(** The objects of all ids but those of [us] are as they were. *)
Definition same_objects (us : list uuid) (s s' : S) : Prop :=
  ∀ id, check_object_id id = Ok id → (∀ u, u ∈ us → id ≠ file_object_text tenant u) → os_get s' NS_FILES id = os_get s NS_FILES id.
Lemma same_objects_trans us1 us2 s1 s2 s3 : same_objects us1 s1 s2 → same_objects us2 s2 s3 → same_objects (us1 ++ us2) s1 s3.
Proof. intros H1 H2 id Hid Hu. rewrite H2, H1; [done|done| |done|]; intros u Hin; apply Hu, elem_of_app; auto. Qed.
Lemma create_checks_row f id r : create_checks settings f tenant id now = Ok r → f_id r = id ∧ f_tenant r = tenant.
Proof.
  unfold create_checks. intros Ec. repeat (case_match; try done); simplify_eq/=; repeat (destruct (check_image _ _ _); try done); by simplify_eq/=.
Qed.
Lemma create_put_same s r u data s' :
  f_id r = new_file_id u → f_tenant r = tenant → create_put s r data = Ok s' → same_objects [u] s s'.
Proof.
  intros Eid Et Ep id Hid Hu. unfold create_put in Ep. rewrite Et, Eid in Ep.
  destruct (new_file_object tenant u) as [Ef Hw]. rewrite Ef in Ep. cbn in Ep. rewrite (os_get_put _ _ _ _ _ _ _ Ep Hw Hid).
  rewrite decide_False; [done|]. intros [_ E]. destruct (Hu u); [by left|done].
Qed.
Lemma store_file_ok d s f u w r :
  store_file settings ft (d, s) f tenant (new_file_id u) now = (w, Ok r) →
  ∃ s', w = (with_file_rows d (fd_files d ++ [r]), s') ∧ f_id r = new_file_id u ∧ f_tenant r = tenant
    ∧ (f_id r ∉ f_id <$> fd_files d) ∧ same_objects [u] s s'.
Proof.
  unfold store_file. destruct (create_checks settings f tenant (new_file_id u) now) as [r'|] eqn:Ec; [|done].
  destruct (ft_put ft (new_file_id u)); [done|]. apply create_checks_row in Ec as [Eid Et].
  destruct (create_put s r' (nf_data f)) as [s'|] eqn:Ep; [|done]. destruct (ft_commit ft (new_file_id u)); [done|].
  unfold create_file. destruct (decide _); [done|]. destruct (decide _); [|done].
  intros [= <- <-]. exists s'. split_and!; [done..|]. by eapply create_put_same.
Qed.
Lemma store_file_err d s f u w e :
  store_file settings ft (d, s) f tenant (new_file_id u) now = (w, Err e) → ∃ s', w = (d, s') ∧ same_objects [u] s s'.
Proof.
  unfold store_file. destruct (create_checks settings f tenant (new_file_id u) now) as [r'|] eqn:Ec; [|intros [= <- _]; by exists s].
  destruct (ft_put ft (new_file_id u)); [intros [= <- _]; by exists s|]. apply create_checks_row in Ec as [Eid Et].
  destruct (create_put s r' (nf_data f)) as [s'|] eqn:Ep; [|intros [= <- _]; by exists s].
  assert (same_objects [u] s s') by (by eapply create_put_same).
  destruct (ft_commit ft (new_file_id u)); [intros [= <- _]; by exists s'|].
  destruct (create_file d r'); [done|]. intros [= <- _]. by exists s'.
Qed.
Lemma input_images_ok user images d s w ids created :
  input_images settings ft (d, s) tenant user now images = (w, Ok (ids, created)) →
  ∃ rows s', w = (with_file_rows d (fd_files d ++ rows), s') ∧ f_id <$> rows = created ∧ created = new_file_id <$> image_uuids images
    ∧ Forall (λ r, f_tenant r = tenant ∧ f_id r ∉ f_id <$> fd_files d) rows ∧ same_objects (image_uuids images) s s'
    ∧ ∀ id, id ∈ ids → id ∈ created ∨ id ∈ image_refs images.
Proof.
  revert d s w ids created. induction images as [|[file|u mime data] images IH]; intros d s w ids created; cbn [input_images].
  - intros [= <- <- <-]. exists [], s. rewrite app_nil_r. split_and!; [by destruct d|done..|by intros id ?%elem_of_nil].
  - destruct (input_images settings ft (d, s) tenant user now images) as [w' [[ids' created']|]] eqn:E; [|done]. intros [= <- <- <-].
    destruct (IH _ _ _ _ _ E) as (rows & s' & -> & H1 & H2 & H3 & H4 & H5). exists rows, s'. split_and!; [done..|].
    cbn [image_refs omap list_omap]. set_solver.
  - destruct (store_file settings ft (d, s) _ tenant (new_file_id u) now) as [w1 [r|]] eqn:Es; [|done].
    destruct (store_file_ok _ _ _ _ _ _ Es) as (s1 & -> & Er & Et & Hfresh & Hs1).
    destruct (input_images settings ft _ tenant user now images) as [w' [[ids' created']|]] eqn:E; [|done]. intros [= <- <- <-].
    destruct (IH _ _ _ _ _ E) as (rows & s' & -> & H1 & H2 & H3 & H4 & H5). exists (r :: rows), s'. cbn [fd_files with_file_rows]. split_and!.
    + unfold with_file_rows. cbn. by rewrite <- app_assoc.
    + rewrite fmap_cons, H1, Er. done.
    + cbn [image_uuids omap list_omap]. by rewrite fmap_cons, H2.
    + constructor; [done|]. eapply list.Forall_impl; [exact H3|]. cbn. intros x [? Hx]. split; [done|]. rewrite fmap_app in Hx. set_solver.
    + intros id Hid Hu. cbn [image_uuids omap list_omap] in Hu. rewrite H4, Hs1; [done|done| |done|]; intros v Hv; apply Hu; set_solver.
    + cbn [image_refs omap list_omap]. set_solver.
Qed.

(** When an image cannot be stored, those before it are. *)
Lemma input_images_err user images d s w e :
  input_images settings ft (d, s) tenant user now images = (w, Err e) →
  ∃ rows s', w = (with_file_rows d (fd_files d ++ rows), s')
    ∧ Forall (λ r, f_tenant r = tenant ∧ f_id r ∈ new_file_id <$> image_uuids images) rows ∧ same_objects (image_uuids images) s s'.
Proof.
  revert d s w. induction images as [|[file|u mime data] images IH]; intros d s w; cbn [input_images]; [done|..].
  - destruct (input_images settings ft (d, s) tenant user now images) as [w' [[ids' created']|]] eqn:E; [done|]. intros [= <- ->]. by apply IH.
  - destruct (store_file settings ft (d, s) _ tenant (new_file_id u) now) as [w1 [r|]] eqn:Es.
    + destruct (store_file_ok _ _ _ _ _ _ Es) as (s1 & -> & Er & Et & _ & Hs1).
      destruct (input_images settings ft _ tenant user now images) as [w' [[ids' created']|]] eqn:E; [done|]. intros [= <- ->].
      destruct (IH _ _ _ E) as (rows & s' & -> & H1 & H2). exists (r :: rows), s'. cbn [fd_files with_file_rows image_uuids omap list_omap].
      split_and!; [unfold with_file_rows; cbn; by rewrite <- app_assoc| |by apply (same_objects_trans [u] _ s s1)].
      constructor; [split; [done|rewrite Er; by left]|]. eapply list.Forall_impl; [exact H1|]. cbn. intros x [? ?]. split; [done|by right].
    + apply store_file_err in Es as (s1 & -> & Hs1). intros [= <- ->]. exists [], s1. rewrite app_nil_r. split_and!; [by destruct d|constructor|].
      intros id Hid Hu. apply Hs1; [done|]. intros v ->%list_elem_of_singleton. apply Hu. by left.
Qed.

Definition without_rows (ids : list string) (d : fdb) : fdb :=
  FDb (with_files (fd_db d) (filter (λ b, ¬ (sf_tenant b = tenant ∧ sf_file b ∈ ids)) (bindings d)))
    (filter (λ r, ¬ (f_tenant r = tenant ∧ f_id r ∈ ids)) (fd_files d)).
Lemma filter_twice {A} (P Q R : A → Prop) `{∀ x, Decision (P x)} `{∀ x, Decision (Q x)} `{∀ x, Decision (R x)} (l : list A) :
  (∀ x, R x ↔ P x ∧ Q x) → filter P (filter Q l) = filter R l.
Proof. intros HR. rewrite list_filter_filter. apply list_filter_iff. naive_solver. Qed.
Lemma delete_new d s u :
  (∃ r, r ∈ fd_files d ∧ f_tenant r = tenant ∧ f_id r = new_file_id u) →
  ∃ s', delete d s tenant (new_file_id u) None = ((without_rows [new_file_id u] d, s'), Ok ())
    ∧ os_get s' NS_FILES (file_object_text tenant u) = Ok None ∧ same_objects [u] s s'.
Proof.
  intros (r & Hr & Et & Eid). unfold delete, delete_file. destruct (get_file d tenant (new_file_id u) None) as [r'|] eqn:E.
  2: { unfold get_file in E. rewrite find_row_None, list.Forall_forall in E. apply E in Hr. unfold is_file in Hr.
       by rewrite bool_decide_eq_true_2 in Hr. }
  unfold erase. destruct (new_file_object tenant u) as [-> Hw]. cbn [mbind res_bind].
  destruct (os_delete_ok s NS_FILES _ Hw) as [s' Es]. rewrite Es. exists s'. split_and!.
  - f_equal. f_equal. unfold without_rows, with_file_rows, with_bindings. cbn [fd_db fd_files].
    rewrite (list_filter_iff (λ b, of_file tenant (new_file_id u) b = false) (λ b, ¬ (sf_tenant b = tenant ∧ sf_file b ∈ [new_file_id u]))),
      (list_filter_iff (λ r, is_file tenant (new_file_id u) r = false) (λ r, ¬ (f_tenant r = tenant ∧ f_id r ∈ [new_file_id u]))); [done| |].
    + intros x. unfold is_file. rewrite bool_decide_eq_false, list_elem_of_singleton. done.
    + intros b. unfold of_file. rewrite bool_decide_eq_false, list_elem_of_singleton. done.
  - rewrite (os_get_delete _ _ _ _ _ _ Es Hw Hw). by rewrite decide_True.
  - intros id Hid Hu. rewrite (os_get_delete _ _ _ _ _ _ Es Hw Hid). rewrite decide_False; [done|]. intros [_ E']. destruct (Hu u); [by left|done].
Qed.
Lemma without_rows_cons id ids d : without_rows ids (without_rows [id] d) = without_rows (id :: ids) d.
Proof.
  unfold without_rows, bindings. cbn [fd_db fd_files session_files with_files].
  rewrite (filter_twice _ _ (λ b, ¬ (sf_tenant b = tenant ∧ sf_file b ∈ id :: ids)) (session_files (fd_db d))),
    (filter_twice _ _ (λ r, ¬ (f_tenant r = tenant ∧ f_id r ∈ id :: ids)) (fd_files d)); [done| |];
    intros x; rewrite elem_of_cons, list_elem_of_singleton; tauto.
Qed.
Lemma drop_files_ok us d s :
  Forall (λ u, u < 2 ^ 128)%N us → NoDup us → (∀ u, u ∈ us → ∃ r, r ∈ fd_files d ∧ f_tenant r = tenant ∧ f_id r = new_file_id u) →
  ∃ s', drop_files ft (d, s) tenant (new_file_id <$> us) = (without_rows (new_file_id <$> us) d, s')
    ∧ (∀ u, u ∈ us → os_get s' NS_FILES (file_object_text tenant u) = Ok None) ∧ same_objects us s s'.
Proof.
  unfold drop_files. revert d s. induction us as [|u us IH]; intros d s Hok Hnd Hrow.
  - exists s. split_and!; [|by intros u ?%elem_of_nil|by intros id]. cbn. f_equal. unfold without_rows.
    rewrite !filter_all by (apply list.Forall_forall; intros y _ [_ Hy]; by apply elem_of_nil in Hy). by destruct d as [[]].
  - apply Forall_cons_1 in Hok as [Hu Hok]. apply list.NoDup_cons in Hnd as [Hout Hnd].
    destruct (delete_new d s u) as (s1 & Ed & Hgone & Hsame); [apply Hrow; by left|].
    rewrite fmap_cons. cbn [foldl]. rewrite Hdrop. cbn [fst snd]. rewrite Ed. cbn [fst].
    destruct (IH (without_rows [new_file_id u] d) s1 Hok Hnd) as (s2 & E2 & Hgone2 & Hsame2).
    { intros v Hv. destruct (Hrow v) as (r & Hr & Et & Eid); [by right|]. exists r. split_and!; [|done..].
      apply list_elem_of_filter. split; [|done]. intros [_ E%list_elem_of_singleton]. rewrite Eid in E.
      apply new_file_id_inj in E as ->; [done| |done]. by eapply (proj1 (list.Forall_forall _ _) Hok). }
    exists s2. split_and!.
    + rewrite E2, without_rows_cons. done.
    + intros v [->|Hv]%elem_of_cons; [|by apply Hgone2]. rewrite Hsame2; [done|apply new_file_object|].
      intros v Hv E%file_object_inj; [by subst|done|]. by eapply (proj1 (list.Forall_forall _ _) Hok).
    + apply (same_objects_trans [u] us _ s1); done.
Qed.

(** ** The bindings a message makes *)

Lemma bind_all_ok sid d ids d' :
  bind_all d now tenant sid ids = Ok d' →
  ∃ kept, d' = with_bindings d (bindings d ++ kept)
    ∧ Forall (λ b, ∃ file, file ∈ ids ∧ b = SessionFileRow tenant sid file None None now ∧ find_binding d tenant sid file = None) kept.
Proof.
  revert d. induction ids as [|id ids IH]; intros d; cbn [bind_all].
  - intros [= <-]. exists []. split; [by rewrite app_nil_r, with_bindings_id|constructor].
  - unfold bind_session_file. destruct (find_binding d tenant sid id) as [b|] eqn:Eb; cbn [mbind res_bind].
    + intros Hrun. destruct (IH _ Hrun) as (kept & -> & Hk). exists kept. split; [done|]. eapply list.Forall_impl; [exact Hk|].
      intros x (file & Hf & ?). exists file. split; [by right|done].
    + destruct (get_session _ _ _ _); [|done]. destruct (get_file _ _ _ _); [|done]. destruct (path_taken _ _ _ _); [done|]. cbn [mbind res_bind].
      intros Hrun. destruct (IH _ Hrun) as (kept & -> & Hk). exists (SessionFileRow tenant sid id None None now :: kept). split.
      { rewrite with_bindings_twice. unfold bindings at 1. cbn. f_equal. by rewrite <- app_assoc. }
      constructor; [exists id; split_and!; [by left|done..]|]. eapply list.Forall_impl; [exact Hk|].
      intros x (file & Hf & Ex & Hn). exists file. split_and!; [by right|done|].
      apply find_binding_none. intros b Hb. rewrite find_binding_none in Hn. apply Hn. apply elem_of_app. by left.
Qed.
Lemma get_file_more d rows t file : get_file d t file None ≠ None → get_file (with_file_rows d (fd_files d ++ rows)) t file None ≠ None.
Proof.
  unfold get_file, with_file_rows. cbn [fd_files]. intros Hf. destruct (find_row _ (fd_files d)) as [r|] eqn:E in Hf; [|done].
  apply find_row_Some in E as [Hr Hin]. intros Hn. rewrite find_row_None, list.Forall_forall in Hn.
  rewrite (Hn r) in Hr; [done|]. apply elem_of_app. by left.
Qed.
Lemma files_ok_more d rows :
  files_ok d → NoDup (f_id <$> rows) → Forall (λ r, f_id r ∉ f_id <$> fd_files d) rows → files_ok (with_file_rows d (fd_files d ++ rows)).
Proof.
  intros [H1 H2 H3 H4 H5 H6] Hnd Hnew. split; [|done..| |done].
  - cbn. rewrite fmap_app. apply list.NoDup_app. split_and!; [done| |done]. intros id Hid (r & -> & Hr)%list_elem_of_fmap.
    rewrite list.Forall_forall in Hnew. by apply (Hnew r).
  - intros b Hb. by apply get_file_more, H5.
Qed.
Lemma attach_attempts_ok fuel d sid files environment user r :
  attach_attempts settings dropped b64decode fuel d now tenant sid files environment user = Ok r →
  attach_session_files dropped b64decode d now (max_workspace_bytes settings) tenant sid files environment user = Ok r.
Proof.
  destruct fuel as [|fuel]; cbn [attach_attempts].
  - by destruct (attach_session_files _ _ _ _ _ _ _ _ _ _) as [|[]].
  - revert fuel. induction fuel as [|fuel IH]; (destruct (attach_session_files _ _ _ _ _ _ _ _ _ _) as [|[]] eqn:E; try done).
    intros H1. apply IH. clear IH. cbn [attach_attempts] in H1. rewrite E in H1. destruct fuel; done.
Qed.

Section not_sent.
Context (d : fdb) (s : S) (sid : uuid) (images : list image_part) (files : list input_file).
Let us : list uuid := image_uuids images.
Hypothesis (Hd : files_ok d) (Hids : Forall (λ u, u < 2 ^ 128)%N us) (Hnd : NoDup us)
  (Hfresh : ∀ u, u ∈ us → os_get s NS_FILES (file_object_text tenant u) = Ok None)
  (Hfiles : ∀ u, u ∈ us → new_file_id u ∉ if_file <$> files).
Context (rows : list file_row) (s1 : S).
Hypothesis (Hrows : f_id <$> rows = new_file_id <$> us) (Htenant : Forall (λ r, f_tenant r = tenant ∧ f_id r ∉ f_id <$> fd_files d) rows)
  (Hs1 : same_objects us s s1).
Let d1 : fdb := with_file_rows d (fd_files d ++ rows).
Lemma stored_ok : files_ok d1.
Proof.
  apply files_ok_more; [done| |].
  - rewrite Hrows. apply NoDup_fmap_2_strong; [|done]. intros u v Hu Hv. rewrite list.Forall_forall in Hids. apply new_file_id_inj; auto.
  - eapply list.Forall_impl; [exact Htenant|]. by intros r [].
Qed.
(** Dropping the new files from a state that has them, whatever the bindings. *)
Lemma drop_new l :
  ∃ s', drop_files ft (with_bindings d1 l, s1) tenant (new_file_id <$> us)
    = (with_bindings d (filter (λ b, ¬ (sf_tenant b = tenant ∧ sf_file b ∈ new_file_id <$> us)) l), s')
    ∧ ∀ id, check_object_id id = Ok id → os_get s' NS_FILES id = os_get s NS_FILES id.
Proof.
  destruct (drop_files_ok us (with_bindings d1 l) s1 Hids Hnd) as (s' & E & Hgone & Hsame).
  { intros u Hu. assert (new_file_id u ∈ f_id <$> rows) as (r & Er & Hr)%list_elem_of_fmap by (rewrite Hrows; by apply list_elem_of_fmap_2).
    exists r. rewrite list.Forall_forall in Htenant. destruct (Htenant r Hr). split_and!; [|done|done]. apply elem_of_app. by right. }
  exists s'. rewrite E. split.
  - f_equal. unfold without_rows, with_bindings, d1, with_file_rows, bindings. cbn. f_equal.
    rewrite list.filter_app, filter_all, filter_none, app_nil_r; [done| |].
    + apply list.Forall_forall. intros r Hr Hn. apply Hn. rewrite list.Forall_forall in Htenant. destruct (Htenant r Hr). split; [done|].
      rewrite <- Hrows. by apply list_elem_of_fmap_2.
    + apply list.Forall_forall. intros r Hr [_ Hin]. rewrite <- Hrows in Hin. apply list_elem_of_fmap in Hin as (r' & E' & Hr').
      rewrite list.Forall_forall in Htenant. destruct (Htenant r' Hr') as [_ Hn]. apply Hn. rewrite <- E'. by apply list_elem_of_fmap_2.
  - intros id Hid. destruct (decide (id ∈ file_object_text tenant <$> us)) as [(u & -> & Hu)%list_elem_of_fmap|Hout].
    + by rewrite Hgone, Hfresh.
    + rewrite Hsame, Hs1; [done|done| |done|]; intros u Hu ->; apply Hout; by apply list_elem_of_fmap_2.
Qed.
Lemma old_binding_file b : b ∈ bindings d → sf_file b ∉ new_file_id <$> us.
Proof.
  intros Hb. pose proof (fk_file _ Hd b Hb) as Hf. destruct (get_file d (sf_tenant b) (sf_file b) None) as [r|] eqn:E; [|done].
  apply find_row_Some in E as [Hr Hin]. apply andb_true_iff in Hr as [Hr%bool_decide_eq_true _]. destruct Hr as [_ <-].
  rewrite <- Hrows. intros (r' & E' & Hr')%list_elem_of_fmap. rewrite list.Forall_forall in Htenant. destruct (Htenant r' Hr') as [_ Hn].
  apply Hn. rewrite <- E'. by apply list_elem_of_fmap_2.
Qed.
End not_sent.
(** What an attach leaves, for the rest of the message. *)
Lemma attach_facts d sid files environment user d2 out m :
  files_ok d → attach_session_files dropped b64decode d now (max_workspace_bytes settings) tenant sid files environment user = Ok (d2, (out, m)) →
  unbind d2 tenant sid m = d ∧ d2 = with_bindings d (bindings d2)
  ∧ (∀ b, b ∈ bindings d2 → (∃ b0, b0 ∈ bindings d ∧ sf_file b = sf_file b0) ∨ sf_file b ∈ if_file <$> files)
  ∧ ∀ file, is_new m file → ∃ b, find_binding d2 tenant sid file = Some b.
Proof.
  intros Hd Hrun. pose proof (attach_undone _ _ _ _ _ _ _ _ _ _ _ _ _ Hd Hrun) as Hundo.
  destruct (decide (files = [])) as [->|Hne].
  { injection Hrun as <- <- <-. split_and!; [done|by rewrite with_bindings_id|eauto|]. intros file [Hn|Hn]; by apply elem_of_nil in Hn. }
  destruct (attach_checked _ _ _ _ _ _ _ _ _ _ Hne _ Hrun) as (Hs & Hv & inputs & bytes & Hi).
  destruct (attach_run dropped b64decode d now (max_workspace_bytes settings) tenant sid files environment user Hd Hne inputs bytes Hs Hv Hi)
    as (a & Ha & _ & Hall & E).
  rewrite E in Hrun. destruct (_ <? _); [done|]. injection Hrun as <- <- <-.
  assert (∀ file, is_new (at_made a) file → file ∈ if_file <$> files) as Hnew.
  { intros file Hn. destruct (attach_all_new _ _ _ _ _ _ _ _ _ Hall Hn) as [[Hn'|Hn']|]; [by apply elem_of_nil in Hn'..|done]. }
  assert (files_ok (at_db a)) as Hok.
  { eapply attach_ok; [exact Hd| |exact Ha|exact Hs]. intros b p. by apply first_taken_bound. }
  split_and!; [done| | |].
  - rewrite (ai_db _ _ _ _ _ _ Ha). done.
  - intros b Hb. destruct (attach_binding _ _ _ _ _ a b Ha Hb) as [(b0 & Hb0 & ->)|(g & Hg & ->)].
    + left. exists b0. split; [done|]. pose proof (updated_id tenant sid (at_paths a) (md_placed (at_made a)) b0) as E'. by injection E'.
    + right. apply Hnew. by left.
  - intros file [Hc|Hp].
    + exists (added tenant sid now (at_paths a) file). apply find_of_in; [done| |done].
      rewrite (ai_bindings _ _ _ _ _ _ Ha). apply elem_of_app. right. by apply list_elem_of_fmap_2.
    + destruct (ai_placed _ _ _ _ _ _ Ha file Hp) as (b & Hb & _). apply find_binding_iff in Hb as [Hb Hid]; [|done].
      exists (updated tenant sid (at_paths a) (md_placed (at_made a)) b). apply find_of_in; [done| |by rewrite updated_id].
      rewrite (ai_bindings _ _ _ _ _ _ Ha). apply elem_of_app. left. by apply list_elem_of_fmap_2.
Qed.

(** The images are all stored. *)
Lemma not_sent_kept d s sid images files environment user caller turn e d' s' :
  files_ok d → Forall (λ u, u < 2 ^ 128)%N (image_uuids images) → NoDup (image_uuids images) →
  (∀ u, u ∈ image_uuids images → os_get s NS_FILES (file_object_text tenant u) = Ok None ∧ new_file_id u ∉ if_file <$> files) →
  (∃ r, (input_images settings ft (d, s) tenant user now images).2 = Ok r) →
  (∀ e', turn = Some e' → turn_not_sent e' = true) →
  post_message settings dropped b64decode ft (d, s) now tenant sid images files environment user caller turn = ((d', s'), Err e) →
  ∃ kept, d' = with_bindings d (bindings d ++ kept)
    ∧ Forall (λ b, ∃ file, b = SessionFileRow tenant sid file None None now
        ∧ file ∈ image_refs images ++ (if_file <$> filter (λ f, if_input f ≠ InWorkspace) files)) kept
    ∧ ∀ id, check_object_id id = Ok id → os_get s' NS_FILES id = os_get s NS_FILES id.
Proof.
  intros Hd Hids Hnd Hfresh [[ids created] Hin] Hturn. unfold post_message, turn_parts.
  destruct (input_images settings ft (d, s) tenant user now images) as [w r] eqn:Ei. cbn in Hin. subst r.
  destruct (input_images_ok _ _ _ _ _ _ _ Ei) as (rows & s1 & -> & Hrows & -> & Htenant & Hs1 & Hsub). cbn [fst snd].
  set (us := image_uuids images) in *. set (d1 := with_file_rows d (fd_files d ++ rows)).
  assert (files_ok d1) as Hd1 by (by eapply stored_ok).
  assert (∀ b, b ∈ bindings d → sf_file b ∉ new_file_id <$> us) as Hold by (intros b; by eapply old_binding_file).
  assert (∀ f, f ∈ files → if_file f ∉ new_file_id <$> us) as Hfiles.
  { intros f Hf (u & E & Hu)%list_elem_of_fmap. apply (Hfresh u Hu). rewrite <- E. by apply list_elem_of_fmap_2. }
  set (nc := λ b : session_file_row, ¬ (sf_tenant b = tenant ∧ sf_file b ∈ new_file_id <$> us)).
  assert (∀ d0 s0, d0 = d1 → s0 = s1 → ∃ s', drop_files ft (d0, s0) tenant (new_file_id <$> us) = (d, s') ∧ ∀ id, check_object_id id = Ok id → os_get s' NS_FILES id = os_get s NS_FILES id) as Hback.
  { intros d0 s0 -> ->. destruct (drop_new d s images Hids Hnd (λ u Hu, proj1 (Hfresh u Hu)) rows s1 Hrows Htenant Hs1 (bindings d1)) as (s2 & E & Hs2).
    fold d1 in E. fold us in E. rewrite (with_bindings_id d1) in E. exists s2. split; [|done]. rewrite E. f_equal. change (bindings d1) with (bindings d). rewrite filter_all; [apply with_bindings_id|].
    apply list.Forall_forall. intros b Hb [_ Hn]. by apply (Hold b). }
  set (workspace := filter (λ f, if_input f = InWorkspace) files).
  assert (∃ r, (if decide (workspace = []) then Ok (d1, ([], Made [] [])) else
    attach settings dropped b64decode ft d1 now tenant sid workspace environment caller) = r
    ∧ match r with Err _ => True | Ok (d2, (out, m)) => unbind d2 tenant sid m = d1 ∧ d2 = with_bindings d1 (bindings d2)
      ∧ (∀ b, b ∈ bindings d2 → sf_file b ∉ new_file_id <$> us) ∧ ∀ file, is_new m file → ∃ b, find_binding d2 tenant sid file = Some b end) as (r & -> & Hr).
  { eexists. split; [reflexivity|]. destruct (decide (workspace = [])) as [|Hne].
    { split_and!; [done|by rewrite with_bindings_id|done|]. intros file [Hn|Hn]; by apply elem_of_nil in Hn. }
    unfold attach. destruct (ft_attach ft); [done|]. destruct (attach_attempts _ _ _ _ _ _ _ _ _ _ _) as [[d2 [out m]]|] eqn:Ea; [|done].
    apply attach_attempts_ok in Ea. destruct (attach_facts _ _ _ _ _ _ _ _ Hd1 Ea) as (H1 & H2 & H3 & H4). split_and!; [done..| |done].
    intros b Hb. destruct (H3 b Hb) as [(b0 & Hb0 & ->)|(f & -> & [_ Hf]%list_elem_of_filter)%list_elem_of_fmap]; [by apply Hold|by apply Hfiles]. }
  destruct r as [[d2 [out m]]|e1].
  2: { unfold unbind_quietly. rewrite Hunbind. intros [= Hw <-]. cbn [fst snd] in Hw.
       destruct (Hback (unbind d1 tenant sid (Made [] [])) s1 eq_refl eq_refl) as (s2 & E & Hs2). rewrite E in Hw. injection Hw as <- <-.
       exists []. rewrite app_nil_r, with_bindings_id. split_and!; [done|constructor|done]. }
  destruct Hr as (Hundo & Hd2 & Hout & Hnew).
  set (bound := ids ++ (if_file <$> filter (λ f, if_input f ≠ InWorkspace) files)).
  assert (∃ r, (if decide (bound = []) then Ok d2 else bind_session ft d2 now tenant sid bound) = r
    ∧ match r with Err _ => True | Ok d3 => ∃ kept, d3 = with_bindings d2 (bindings d2 ++ kept)
      ∧ Forall (λ b, ∃ file, file ∈ bound ∧ b = SessionFileRow tenant sid file None None now ∧ find_binding d2 tenant sid file = None) kept end) as (r & -> & Hr).
  { eexists. split; [reflexivity|]. destruct (decide (bound = [])).
    { exists []. rewrite app_nil_r, with_bindings_id. split; [done|constructor]. }
    unfold bind_session. destruct (ft_bind ft); [done|]. destruct (bind_all d2 now tenant sid bound) eqn:Eb; [|done]. by apply bind_all_ok. }
  destruct r as [d3|e2].
  2: { unfold unbind_quietly. rewrite Hunbind. intros [= Hw <-]. cbn [fst snd] in Hw.
       destruct (Hback (unbind d2 tenant sid m) s1 Hundo eq_refl) as (s2 & E & Hs2). rewrite E in Hw. injection Hw as <- <-.
       exists []. rewrite app_nil_r, with_bindings_id. split_and!; [done|constructor|done]. }
  destruct Hr as (kept & -> & Hkept). destruct turn as [e3|]; [|done]. rewrite (Hturn e3 eq_refl). cbn [fst snd].
  replace (with_bindings d2 (bindings d2 ++ kept)) with (with_bindings d1 (bindings d2 ++ kept)) by by rewrite Hd2.
  destruct (drop_new d s images Hids Hnd (λ u Hu, proj1 (Hfresh u Hu)) rows s1 Hrows Htenant Hs1 (bindings d2 ++ kept)) as (s2 & E & Hs2).
  fold d1 in E. fold us in E. rewrite E.
  unfold unbind_quietly. rewrite Hunbind. cbn [fst snd]. intros [= <- <- <-].
  exists (filter nc kept). split_and!; [| |done].
  - rewrite unbind_rows, with_bindings_twice. unfold bindings at 1. cbn [fd_db with_bindings session_files with_files].
    fold nc. rewrite list.filter_app. rewrite (filter_all nc (bindings d2)) by (apply list.Forall_forall; intros b Hb [_ Hn]; by apply (Hout b)).
    rewrite omap_app. f_equal. f_equal.
    + rewrite unbind_rows in Hundo. apply (f_equal bindings) in Hundo. exact Hundo.
    + apply omap_same. intros b [_ Hb]%list_elem_of_filter. rewrite list.Forall_forall in Hkept. destruct (Hkept b Hb) as (file & _ & -> & Hn).
      apply undo_other. cbn. intros [b' Hb']%Hnew. congruence.
  - apply list.Forall_forall. intros b [Hnc Hb]%list_elem_of_filter. rewrite list.Forall_forall in Hkept.
    destruct (Hkept b Hb) as (file & Hf & -> & _). exists file. split; [done|]. unfold bound in Hf. apply elem_of_app in Hf as [Hf|Hf]; [|apply elem_of_app; by right].
    apply elem_of_app. left. destruct (Hsub file Hf) as [Hc|]; [|done]. by destruct Hnc.
Qed.

End message.

(** ** A concrete message *)

Definition fx_settings : file_settings := FileSettings 1000 1000 1000 1000 ["image/png"%string] 0.
Definition fx_faults : faults := Faults (λ _, None) (λ _, None) None None true (λ _, true).
(** An image by its id, the data of another one, and a file for the workspace. *)
Definition fx_images : list image_part := [ImageRef "file-c"; ImageData 5 "image/png" (chars "png")].
Definition fx_message : (fdb * memory_store) * res exn (list input_file) :=
  post_message fx_settings fx_dropped (λ _, None) fx_faults (fx_db, (∅ : memory_store)) 7 1 2 fx_images [fx_input "file-b" "notes.txt" 20] (JObj []) None None
    (Some (OtherExn (Some "capacity"%string))).
Lemma fx_message_ok : match fx_message with
  | ((d', s'), Err _) => bool_decide (sf_file <$> bindings d' = ["file-a"; "file-b"; "file-c"]%string) && bool_decide (length (fd_files d') = 3%nat)
  | _ => false end = true.
Proof. vm_compute. reflexivity. Qed.
