(* ===== verification/FilesLists.v ===== *)
(** * Lists of files, page by page, and the sweep of attachments *)

From S2P Require Import Prelude PyStd Db Fleet Blobs Files FilesProps FilesMessages.
From stdpp Require Import sorting.
From Stdlib Require OrdersEx.

Open Scope Z_scope.

(** ** The order of a list *)

Lemma stamp_ltb_lt a b : stamp_ltb a b = true ↔ stamp_lt a b.
Proof.
  unfold stamp_ltb, stamp_lt, OrdersEx.String_as_OT.lt. rewrite orb_true_iff, andb_true_iff, Z.ltb_lt, Z.eqb_eq.
  change (OrdersEx.String_as_OT.compare a.2 b.2) with (String.compare a.2 b.2). by destruct (String.compare a.2 b.2); naive_solver.
Qed.
#[export] Instance stamp_lt_trans : Transitive stamp_lt.
Proof.
  intros [a1 a2] [b1 b2] [c1 c2]. unfold stamp_lt. cbn. intros [?|[? H1]] [?|[? H2]]; [left; lia..|]. right. split; [congruence|]. by etrans.
Qed.
Lemma stamp_lt_irrefl a : ¬ stamp_lt a a.
Proof. intros [?|[_ H]]; [lia|]. revert H. apply (StrictOrder_Irreflexive (R := OrdersEx.String_as_OT.lt)). Qed.
Lemma stamp_lt_total (a b : Z * string) : stamp_lt a b ∨ a = b ∨ stamp_lt b a.
Proof.
  destruct a as [a1 a2], b as [b1 b2]. unfold stamp_lt. cbn. destruct (Z.lt_total a1 b1) as [?|[->|?]]; [by left; left| |by right; right; left].
  destruct (OrdersEx.String_as_OT.compare_spec a2 b2) as [E|?|?]; [right; left; by rewrite E|left; by right|right; right; by right].
Qed.
(** [a] comes before [b] in a list. *)
Definition before (asc : bool) (a b : Z * string) : Prop := if asc then stamp_lt a b else stamp_lt b a.
Lemma before_trans asc a b c : before asc a b → before asc b c → before asc a c.
Proof. destruct asc; cbn; intros; by etrans. Qed.
Lemma before_irrefl asc a : ¬ before asc a a.
Proof. destruct asc; apply stamp_lt_irrefl. Qed.
Lemma before_total asc a b : before asc a b ∨ a = b ∨ before asc b a.
Proof. destruct asc; cbn; destruct (stamp_lt_total a b) as [|[|]]; auto. Qed.
Lemma after_cursor_iff asc c a : after_cursor asc (Some c) a = true ↔ before asc c a.
Proof. destruct asc; cbn; apply stamp_ltb_lt. Qed.
Lemma row_order_iff {R} (key : R → Z * string) asc x y : row_order key asc x y ↔ ¬ before asc (key y) (key x).
Proof. unfold row_order, stamp_leb. destruct asc; cbn; rewrite negb_true_iff, <- not_true_iff_false, stamp_ltb_lt; done. Qed.
Section pages.
Context {R : Type} (key : R → Z * string) (asc : bool).
#[global] Instance row_order_trans : Transitive (row_order key asc).
Proof.
  intros x y z. rewrite !row_order_iff. intros H1 H2 H3. destruct (before_total asc (key x) (key y)) as [Hxy|[E|Hyx]]; [|rewrite E in H3; done|done].
  apply H2. by eapply before_trans.
Qed.
#[global] Instance row_order_total : Total (row_order key asc).
Proof.
  intros x y. rewrite !row_order_iff. destruct (before_total asc (key x) (key y)) as [Hb|[E|Hb]].
  - left. intros Hb'. eapply before_irrefl, before_trans; [exact Hb|exact Hb'].
  - left. rewrite E. apply before_irrefl.
  - right. intros Hb'. eapply before_irrefl, before_trans; [exact Hb|exact Hb'].
Qed.
Lemma sorted_strict l : NoDup (key <$> l) → StronglySorted (row_order key asc) l → StronglySorted (λ x y, before asc (key x) (key y)) l.
Proof.
  induction l as [|x l IH]; intros Hnd Hs; [constructor|]. apply StronglySorted_inv in Hs as [Hs Hall].
  change (NoDup (key x :: (key <$> l))) in Hnd. apply list.NoDup_cons in Hnd as [Hx Hnd]. constructor; [by apply IH|].
  apply list.Forall_forall. intros y Hy. rewrite list.Forall_forall in Hall. specialize (Hall y Hy). rewrite row_order_iff in Hall.
  destruct (before_total asc (key x) (key y)) as [?|[E|?]]; [done| |done]. destruct Hx. rewrite E. by apply list_elem_of_fmap_2.
Qed.
Lemma strongly_sorted_filter (Q : R → R → Prop) (P : R → Prop) `{∀ x, Decision (P x)} l : StronglySorted Q l → StronglySorted Q (filter P l).
Proof.
  induction 1 as [|x l _ IH Hall]; [constructor|]. rewrite filter_cons. destruct (decide (P x)); [|done]. constructor; [done|].
  rewrite list.Forall_forall in *. intros y [_ Hy]%list_elem_of_filter. by apply Hall.
Qed.
Lemma sort_filter (P : R → Prop) `{∀ x, Decision (P x)} l :
  NoDup (key <$> l) → merge_sort (row_order key asc) (filter P l) = filter P (merge_sort (row_order key asc) l).
Proof.
  intros Hnd. apply (StronglySorted_unique_strong (row_order key asc)).
  - intros x y Hx Hy. rewrite !row_order_iff. intros H1 H2. rewrite merge_sort_Permutation in Hx.
    apply list_elem_of_filter in Hx as [_ Hx], Hy as [_ Hy]. rewrite merge_sort_Permutation in Hy.
    apply (nodup_proj key l); [done..|]. by destruct (before_total asc (key x) (key y)) as [|[|]].
  - apply (StronglySorted_merge_sort (row_order key asc)); apply _.
  - apply strongly_sorted_filter, (StronglySorted_merge_sort (row_order key asc)); apply _.
  - by rewrite !merge_sort_Permutation.
Qed.
(** The rows in the order of the list, and those after a cursor. *)
Definition in_order (rows : list R) : list R := merge_sort (row_order key asc) rows.
Definition rest_after (rows : list R) (cursor : option (Z * string)) : list R :=
  in_order (filter (λ r, after_cursor asc cursor (key r) = true) rows).
Lemma page_rest rows cursor n :
  page key asc cursor (Some n) rows = (take n (rest_after rows cursor), (n <? length (rest_after rows cursor))%nat).
Proof.
  unfold page. fold (in_order (filter (λ r, after_cursor asc cursor (key r) = true) rows)). fold (rest_after rows cursor).
  set (l := rest_after rows cursor). rewrite length_take. destruct (n <? length l)%nat eqn:E.
  - apply Nat.ltb_lt in E. by rewrite (proj2 (Nat.ltb_lt _ _)) by lia.
  - apply Nat.ltb_ge in E. rewrite (proj2 (Nat.ltb_ge _ _)) by lia. rewrite !take_ge by lia. done.
Qed.
Lemma rest_start rows : rest_after rows None = in_order rows.
Proof. unfold rest_after. f_equal. by apply filter_all, list.Forall_forall. Qed.
Lemma rest_next rows front x back :
  NoDup (key <$> rows) → in_order rows = front ++ x :: back → rest_after rows (Some (key x)) = back.
Proof.
  intros Hnd E. unfold rest_after, in_order. rewrite sort_filter by done. fold (in_order rows). rewrite E.
  assert (StronglySorted (λ x y, before asc (key x) (key y)) (front ++ x :: back)) as Hs.
  { rewrite <- E. apply sorted_strict; [|apply (StronglySorted_merge_sort (row_order key asc)); apply _]. unfold in_order. by rewrite merge_sort_Permutation. }
  rewrite list.filter_app, filter_cons, filter_none, decide_False, filter_all; [done| | |].
  - apply list.Forall_forall. intros y Hy. apply after_cursor_iff.
    eapply (StronglySorted_app_1_elem_of (λ x y, before asc (key x) (key y)) (front ++ [x]) back); [|set_solver|done]. by rewrite <- app_assoc.
  - rewrite after_cursor_iff. apply before_irrefl.
  - apply list.Forall_forall. intros y Hy. rewrite after_cursor_iff. intros H1. eapply before_irrefl, before_trans; [exact H1|].
    eapply (StronglySorted_app_1_elem_of (λ x y, before asc (key x) (key y)) front (x :: back)); [done|done|by left].
Qed.
End pages.

(** ** Following the pages *)

Section follow.
Context (d : fdb) (tenant : uuid) (ff : file_filter) (asc : bool) (limit : Z) (user : option string).
(** What a client gets that asks for the next page until there is none. *)
Fixpoint follow (fuel : nat) (after : option string) : res exn (list file_row) :=
  match fuel with
  | O => Err (OtherExn None)
  | S fuel =>
      p ← list_objects d tenant ff after asc limit user;
      if pg_more p then rest ← follow fuel (pg_last p); Ok (pg_data p ++ rest) else Ok (pg_data p)
  end.
Hypothesis (Hd : NoDup (f_id <$> fd_files d)) (Hlimit : 1 ≤ limit ≤ MAX_LIST_LIMIT)
  (Hkinds : forallb (λ k, bool_decide (k ∈ FILE_KINDS)) (default [] (ff_kinds ff)) = true).
Let rows : list file_row := list_files_where d tenant ff user.
Lemma listed r : r ∈ rows → r ∈ fd_files d ∧ f_tenant r = tenant ∧ file_visible user r = true ∧ opt_in (ff_ids ff) (f_id r) = true.
Proof. intros [Hr Hin]%list_elem_of_filter. rewrite !andb_true_iff, bool_decide_eq_true in Hr. tauto. Qed.
Lemma listed_keys : NoDup (file_key <$> rows).
Proof.
  apply NoDup_fmap_2_strong; [|apply NoDup_filter; by eapply NoDup_fmap_1]. intros x y [Hx _]%listed [Hy _]%listed E. injection E as _ E.
  by apply (nodup_proj f_id (fd_files d)).
Qed.
Lemma listed_cursor r : r ∈ rows → file_cursor d tenant (f_id r) user = Some (file_key r).
Proof.
  intros (Hin & Et & Hv & _)%listed. unfold file_cursor, get_file.
  destruct (find_row _ (fd_files d)) as [r'|] eqn:E.
  - apply find_row_Some in E as [[Hf _]%andb_true_iff Hin']. apply bool_decide_eq_true in Hf as [_ Hf].
    assert (r' = r) as -> by by apply (nodup_proj f_id (fd_files d)). done.
  - rewrite find_row_None, list.Forall_forall in E. apply E in Hin. unfold is_file in Hin. by rewrite Hv, bool_decide_eq_true_2 in Hin.
Qed.
Lemma list_objects_page after cursor :
  page_cursor after (ff_ids ff) (λ file, file_cursor d tenant file user) = Ok cursor →
  list_objects d tenant ff after asc limit user = Ok (page_body f_id (page file_key asc cursor (Some (Z.to_nat limit)) rows)).
Proof.
  intros Hc. unfold list_objects, check_page. replace ((limit <? 1) || (MAX_LIST_LIMIT <? limit)) with false by lia.
  cbn [mbind res_bind]. rewrite Hkinds. cbn [mbind res_bind]. by rewrite Hc.
Qed.
Lemma follow_rest fuel after cursor front :
  page_cursor after (ff_ids ff) (λ file, file_cursor d tenant file user) = Ok cursor →
  in_order file_key asc rows = front ++ rest_after file_key asc rows cursor → (length (rest_after file_key asc rows cursor) < fuel)%nat →
  follow fuel after = Ok (rest_after file_key asc rows cursor).
Proof.
  revert after cursor front. induction fuel as [|fuel IH]; intros after cursor front Hc Hsplit Hlen; [lia|].
  cbn [follow]. rewrite (list_objects_page after cursor Hc). cbn [mbind res_bind]. rewrite page_rest. set (rest := rest_after file_key asc rows cursor) in *.
  set (n := Z.to_nat limit). unfold page_body. cbn [pg_more pg_data pg_last fst snd]. destruct (n <? length rest)%nat eqn:Hn.
  2: { apply Nat.ltb_ge in Hn. by rewrite take_ge by lia. }
  apply Nat.ltb_lt in Hn. destruct (take n rest) as [|x0 front0] eqn:Et using rev_ind.
  { apply (f_equal length) in Et. rewrite length_take in Et. simpl in Et. subst n. lia. }
  clear IHfront0. rewrite last_snoc. cbn [fmap option_fmap option_map].
  assert (rest = (front0 ++ [x0]) ++ drop n rest) as Erest by by rewrite <- Et, take_drop.
  assert (in_order file_key asc rows = (front ++ front0) ++ x0 :: drop n rest) as Eall.
  { rewrite Hsplit. fold rest. rewrite Erest at 1. by rewrite <- !app_assoc. }
  assert (rest_after file_key asc rows (Some (file_key x0)) = drop n rest) as Enext by (eapply rest_next; [apply listed_keys|exact Eall]).
  assert (x0 ∈ rows) as Hx0.
  { rewrite <- (merge_sort_Permutation (row_order file_key asc) rows). fold (in_order file_key asc rows). rewrite Eall. set_solver. }
  rewrite (IH (Some (f_id x0)) (Some (file_key x0)) ((front ++ front0) ++ [x0])).
  - cbn [mbind res_bind]. rewrite Enext. by rewrite <- Erest.
  - unfold page_cursor. rewrite (listed_cursor x0 Hx0). by rewrite (proj2 (proj2 (proj2 (listed _ Hx0)))).
  - rewrite Enext, Eall. by rewrite <- !app_assoc.
  - rewrite Enext, length_drop. lia.
Qed.
End follow.

(** C24: The pages of a list hold every file once.  A client that asks for the next page after
    the last id it got, until a page says that there is no more, gets after at most one
    request for each file exactly the files the caller can see and the filter admits, in
    the order of their creation (newest first unless it asked for the oldest first), none
    twice, whatever the limit. *)
Theorem pages_exact d tenant ff asc limit user :
  NoDup (f_id <$> fd_files d) → 1 ≤ limit ≤ MAX_LIST_LIMIT →
  forallb (λ k, bool_decide (k ∈ FILE_KINDS)) (default [] (ff_kinds ff)) = true →
  ∃ l, follow d tenant ff asc limit user (S (length (fd_files d))) None = Ok l
    ∧ l ≡ₚ list_files_where d tenant ff user ∧ StronglySorted (λ x y, before asc (file_key x) (file_key y)) l.
Proof.
  intros Hd Hlimit Hkinds. set (rows := list_files_where d tenant ff user).
  exists (in_order file_key asc rows). split_and!.
  - rewrite <- (rest_start file_key asc rows). apply (follow_rest d tenant ff asc limit user Hd Hlimit Hkinds _ None None []); [done| |].
    + by rewrite rest_start.
    + rewrite rest_start. unfold in_order. rewrite (Permutation_length (merge_sort_Permutation _ _)).
      assert (length rows ≤ length (fd_files d))%nat as Hle by apply length_filter. fold rows. lia.
  - apply merge_sort_Permutation.
  - apply sorted_strict; [|apply (StronglySorted_merge_sort (row_order file_key asc)); apply _].
    unfold in_order. rewrite merge_sort_Permutation. by eapply listed_keys.
Qed.
Lemma pages_exact_witness :
  follow fx_db 1 (FileFilter None None None None [] None) false 1 None 4 None
    = Ok [fx_file "file-c" "a/b/notes.txt" "attachment" 30; fx_file "file-b" "notes.txt" "attachment" 20; fx_file "file-a" "notes.txt" "file" 10]
  ∧ ∃ l, follow fx_db 1 (FileFilter None None None None [] None) false 1 None 4 None = Ok l ∧ length l = 3%nat.
Proof.
  split; [vm_compute; reflexivity|].
  destruct (pages_exact fx_db 1 (FileFilter None None None None [] None) false 1 None (fk_ids _ fx_db_ok)) as (l & Hl & Hp & _); [unfold MAX_LIST_LIMIT; lia|reflexivity|].
  exists l. split; [exact Hl|]. rewrite Hp. vm_compute. reflexivity.
Defined.

(** ** The sweep *)

Section sweep.
Context {S : Type} `{ObjectStoreLaws S}.
Context (settings : file_settings) (before : Z).

(** The tables without some rows. *)
Definition minus (gone : list file_row) (d : fdb) : fdb := with_file_rows d (filter (λ r, r ∉ gone) (fd_files d)).
Definition row_id (r : file_row) : uuid * string := (f_tenant r, f_id r).
Lemma filter_ext_in {A} (P Q : A → Prop) `{∀ x, Decision (P x)} `{∀ x, Decision (Q x)} (l : list A) :
  (∀ x, x ∈ l → P x ↔ Q x) → filter P l = filter Q l.
Proof.
  induction l as [|x l IH]; intros HPQ; [done|]. rewrite !filter_cons, IH by (intros y Hy; apply HPQ; by right).
  destruct (decide (P x)) as [Hx|Hx], (decide (Q x)) as [Hy|Hy]; try done; exfalso; [apply Hy|apply Hx]; apply HPQ; [by left|done|by left|done].
Qed.
Lemma filter_NoDup_proj {A B} (f : A → B) (P : A → Prop) `{∀ x, Decision (P x)} (l : list A) : NoDup (f <$> l) → NoDup (f <$> filter P l).
Proof.
  induction l as [|x l IH]; intros Hd; [done|]. apply list.NoDup_cons in Hd as [Hx Hd]. rewrite filter_cons. destruct (decide (P x)); [|by apply IH].
  rewrite fmap_cons. constructor; [|by apply IH]. intros (y & Ey & [_ Hy]%list_elem_of_filter)%list_elem_of_fmap. apply Hx. rewrite Ey. by apply list_elem_of_fmap_2.
Qed.
Lemma minus_minus l1 l2 d : minus l2 (minus l1 d) = minus (l1 ++ l2) d.
Proof.
  unfold minus, with_file_rows. cbn [fd_files fd_db]. f_equal. rewrite list_filter_filter. apply list_filter_iff. intros r. rewrite elem_of_app. tauto.
Qed.
Lemma remove_row d r :
  NoDup (f_id <$> fd_files d) → r ∈ fd_files d →
  filter (λ r', is_file (f_tenant r) (f_id r) r' = false) (fd_files d) = filter (λ r', r' ∉ [r]) (fd_files d).
Proof.
  intros Hd Hr. assert (∀ x, x ∈ fd_files d → is_file (f_tenant r) (f_id r) x = false ↔ x ∉ [r]) as Hiff.
  { intros x Hx. unfold is_file. rewrite bool_decide_eq_false, list_elem_of_singleton. split.
    - intros Hn ->. by apply Hn.
    - intros Hn [_ E]. apply Hn. by apply (nodup_proj f_id (fd_files d)). }
  by apply filter_ext_in.
Qed.
Lemma sweep_fold l d out :
  NoDup (f_id <$> fd_files d) → NoDup l → (∀ r, r ∈ l → r ∈ fd_files d ∧ bound d r = false) →
  foldl sweep_one (d, out) l = (minus l d, out ++ (row_id <$> l)).
Proof.
  revert d out. induction l as [|r l IH]; intros d out Hd Hnd Hl.
  - cbn. rewrite app_nil_r. f_equal. unfold minus. rewrite filter_all; [by destruct d|]. apply list.Forall_forall. intros x _. apply not_elem_of_nil.
  - apply list.NoDup_cons in Hnd as [Hr Hnd]. destruct (Hl r ltac:(by left)) as [Hin Hb]. cbn [foldl sweep_one].
    rewrite Hb. assert (existsb (is_file (f_tenant r) (f_id r)) (fd_files d) = true) as ->.
    { apply existsb_exists. exists r. split; [by apply list_elem_of_In|]. by apply bool_decide_eq_true. }
    cbn [andb negb]. rewrite remove_row by done. fold (minus [r] d). rewrite IH; [| |done|].
    + rewrite minus_minus. f_equal. rewrite <- app_assoc. done.
    + by apply filter_NoDup_proj.
    + intros x Hx. destruct (Hl x ltac:(by right)) as [Hx' Hbx]. split; [|done]. apply list_elem_of_filter. split; [|done].
      intros ->%list_elem_of_singleton. done.
Qed.
Lemma delete_unbound_spec d limit :
  NoDup (f_id <$> fd_files d) →
  ∃ gone, delete_unbound_attachments d before limit = (minus gone d, row_id <$> gone) ∧ NoDup gone
    ∧ (∀ r, r ∈ gone → r ∈ fd_files d ∧ sweepable d before r = true)
    ∧ length gone = (limit `min` length (filter (λ r, sweepable d before r = true) (fd_files d)))%nat.
Proof.
  intros Hd. unfold delete_unbound_attachments. set (able := filter (λ r, sweepable d before r = true) (fd_files d)).
  set (gone := merge_sort by_owner (take limit (merge_sort made_before able))). exists gone.
  assert (NoDup gone) as Hnd.
  { unfold gone. rewrite merge_sort_Permutation. eapply sublist_NoDup; [|apply sublist_take]. rewrite merge_sort_Permutation.
    apply NoDup_filter. by eapply NoDup_fmap_1. }
  assert (∀ r, r ∈ gone → r ∈ fd_files d ∧ sweepable d before r = true) as Hin.
  { intros r Hr. unfold gone in Hr. rewrite merge_sort_Permutation in Hr. apply elem_of_take in Hr as (i & Hi & _).
    apply list_elem_of_lookup_2 in Hi. rewrite merge_sort_Permutation in Hi. apply list_elem_of_filter in Hi. tauto. }
  split_and!; [|done|done|].
  - apply (sweep_fold gone d [] Hd Hnd). intros r Hr. destruct (Hin r Hr) as [Hr' Hs]. split; [done|].
    unfold sweepable in Hs. apply andb_true_iff in Hs as [_ Hs]. by destruct (bound d r).
  - unfold gone. rewrite (Permutation_length (merge_sort_Permutation _ _)), length_take, (Permutation_length (merge_sort_Permutation _ _)). done.
Qed.
Definition able (d : fdb) : list file_row := filter (λ r, sweepable d before r = true) (fd_files d).
Lemma able_NoDup d : NoDup (f_id <$> fd_files d) → NoDup (able d).
Proof. intros Hd. apply NoDup_filter. by eapply NoDup_fmap_1. Qed.
Lemma able_minus d gone :
  NoDup (f_id <$> fd_files d) → NoDup gone → (∀ r, r ∈ gone → r ∈ fd_files d ∧ sweepable d before r = true) →
  able d ≡ₚ gone ++ able (minus gone d).
Proof.
  intros Hd Hnd Hin. apply NoDup_Permutation; [by apply able_NoDup| |].
  - apply list.NoDup_app. split_and!; [done| |].
    + intros r Hr Hr'. unfold able, minus in Hr'. cbn in Hr'. apply list_elem_of_filter in Hr' as [_ Hr']. by apply list_elem_of_filter in Hr' as [? _].
    + unfold able, minus. cbn. apply NoDup_filter, NoDup_filter. by eapply NoDup_fmap_1.
  - intros r. rewrite elem_of_app. unfold able. rewrite !list_elem_of_filter. unfold minus. cbn [fd_files with_file_rows]. rewrite list_elem_of_filter.
    change (sweepable (with_file_rows d _) before r) with (sweepable d before r). split.
    + intros [Hs Hr]. destruct (decide (r ∈ gone)); [by left|by right].
    + intros [Hr|(? & ? & ?)]; [|done]. apply Hin in Hr. tauto.
Qed.
(** The objects of some rows are gone, the others are as they were. *)
Definition objects_gone (gone : list file_row) (s s' : S) : Prop := ∀ id, check_object_id id = Ok id →
  ((∃ r, r ∈ gone ∧ file_object (f_tenant r) (f_id r) = Ok id) → os_get s' NS_FILES id = Ok None)
  ∧ ((∀ r, r ∈ gone → file_object (f_tenant r) (f_id r) ≠ Ok id) → os_get s' NS_FILES id = os_get s NS_FILES id).
Lemma objects_gone_app l1 l2 s1 s2 s3 : objects_gone l1 s1 s2 → objects_gone l2 s2 s3 → objects_gone (l1 ++ l2) s1 s3.
Proof.
  intros H1 H2 id Hid. destruct (H1 id Hid) as [G1 K1], (H2 id Hid) as [G2 K2].
  assert (Decision (∃ r, r ∈ l2 ∧ file_object (f_tenant r) (f_id r) = Ok id)) as [Hl2|Hl2].
  { destruct (decide (Exists (λ r, match file_object (f_tenant r) (f_id r) with Ok x => bool_decide (x = id) | Err _ => false end = true) l2)) as [He|He]; [left|right].
    - apply Exists_exists in He as (r & Hr & E). exists r. split; [done|]. destruct (file_object _ _); [|done]. by apply bool_decide_eq_true in E as ->.
    - intros (r & Hr & E). apply He, Exists_exists. exists r. split; [done|]. rewrite E. by apply bool_decide_eq_true. }
  - split; [by auto|]. intros Hn. destruct Hl2 as (r & Hr & E). destruct (Hn r); [apply elem_of_app; by right|done].
  - assert (os_get s3 NS_FILES id = os_get s2 NS_FILES id) as E3 by (apply K2; intros r Hr E; apply Hl2; by exists r).
    rewrite E3. split.
    + intros (r & [Hr|Hr]%elem_of_app & E); [apply G1; by exists r|]. destruct Hl2. by exists r.
    + intros Hn. apply K1. intros r Hr. apply Hn, elem_of_app. by left.
Qed.
Lemma erase_gone gone s :
  (∀ r, r ∈ gone → ∃ u, f_id r = new_file_id u) → objects_gone gone s (foldl erase_quietly s (row_id <$> gone)).
Proof.
  revert s. induction gone as [|r gone IH]; intros s Hnew.
  - intros id Hid. split; [|done]. intros (r & Hr & _). by apply elem_of_nil in Hr.
  - rewrite fmap_cons. cbn [foldl]. apply (objects_gone_app [r] gone s (erase_quietly s (row_id r))); [|apply IH; intros x Hx; apply Hnew; by right].
    destruct (Hnew r ltac:(by left)) as [u Eu]. unfold erase_quietly, erase, row_id. cbn [fst snd]. rewrite Eu.
    destruct (new_file_object (f_tenant r) u) as [Ef Hw]. rewrite Ef. cbn [mbind res_bind].
    destruct (os_delete_ok s NS_FILES _ Hw) as [s' Es]. rewrite Es. intros id Hid. rewrite (os_get_delete _ _ _ _ _ _ Es Hw Hid). split.
    + intros (x & ->%list_elem_of_singleton & E). rewrite Eu, Ef in E. injection E as <-. by rewrite decide_True.
    + intros Hn. rewrite decide_False; [done|]. intros [_ E]. apply (Hn r); [by left|]. by rewrite Eu, Ef, E.
Qed.
Lemma sweep_ok batch fuel d s total :
  (0 < batch)%nat → NoDup (f_id <$> fd_files d) → (∀ r, r ∈ fd_files d → ∃ u, f_id r = new_file_id u) → (length (able d) < fuel)%nat →
  ∃ s', sweep batch fuel d s before total
      = Some (with_file_rows d (filter (λ r, sweepable d before r = false) (fd_files d)), s', (total + length (able d))%nat)
    ∧ objects_gone (able d) s s'.
Proof.
  intros Hb. revert d s total. induction fuel as [|fuel IH]; intros d s total Hd Hnew Hfuel; [lia|]. cbn [sweep].
  destruct (delete_unbound_spec d batch Hd) as (gone & -> & Hnd & Hin & Hlen). fold (able d) in Hlen. rewrite length_fmap.
  pose proof (able_minus d gone Hd Hnd Hin) as Hperm.
  assert (objects_gone gone s (foldl erase_quietly s (row_id <$> gone))) as Hg by (apply erase_gone; intros r Hr; apply Hnew, (Hin r Hr)).
  assert (∀ l s1 s2, gone ++ able (minus gone d) ≡ₚ l → objects_gone (gone ++ able (minus gone d)) s1 s2 → objects_gone l s1 s2) as Hp.
  { intros l s1 s2 Hl H1 id Hid. destruct (H1 id Hid) as [G K]. split.
    - intros (r & Hr & E). apply G. exists r. by rewrite Hl.
    - intros Hn. apply K. intros r Hr. apply Hn. by rewrite <- Hl. }
  apply Permutation_length in Hperm as Hsize. rewrite length_app in Hsize. destruct (length gone <? batch)%nat eqn:E.
  - apply Nat.ltb_lt in E. assert (able (minus gone d) = []) as Enil by (apply nil_length_inv; lia).
    eexists. split; [|apply (Hp (able d)); [by symmetry|]; rewrite Enil, app_nil_r; exact Hg].
    f_equal. f_equal; [f_equal|lia]. unfold minus. f_equal. apply filter_ext_in. intros r Hr. rewrite Enil, app_nil_r in Hperm.
    rewrite <- Hperm. unfold able. rewrite list_elem_of_filter. destruct (sweepable d before r); naive_solver.
  - apply Nat.ltb_ge in E. destruct (IH (minus gone d) (foldl erase_quietly s (row_id <$> gone)) (total + length gone)%nat) as (s' & Erun & Hs').
    + by apply filter_NoDup_proj.
    + intros r [_ Hr]%list_elem_of_filter. by apply Hnew.
    + lia.
    + exists s'. rewrite Erun. split.
      * f_equal. f_equal; [f_equal|lia]. unfold minus, with_file_rows. cbn [fd_db fd_files]. f_equal. rewrite list_filter_filter.
        apply filter_ext_in. intros r Hr. change (sweepable (FDb (fd_db d) _) before r) with (sweepable d before r).
        split; [tauto|]. intros Hs. split; [done|]. intros Hg'. apply Hin in Hg' as [_ Hg']. congruence.
      * apply (Hp (able d)); [by symmetry|]. by eapply objects_gone_app.
Qed.
End sweep.

(** C31: The hourly sweep ends, and deletes exactly the attachments that are older than the
    limit and bound to no session: their rows and their objects are gone, the other rows
    and objects are as they were, and it counts what it deleted; it does so in batches of
    500, however many there are. *)
Theorem sweep_exact {S : Type} `{ObjectStoreLaws S} settings d (s : S) now :
  NoDup (f_id <$> fd_files d) → (∀ r, r ∈ fd_files d → ∃ u, f_id r = new_file_id u) →
  let old := now - attachment_ttl settings in let gone := filter (λ r, sweepable d old r = true) (fd_files d) in
  ∃ s', sweep_attachments settings d s now
      = Some (with_file_rows d (filter (λ r, sweepable d old r = false) (fd_files d)), s', length gone)
    ∧ ∀ id, check_object_id id = Ok id →
      ((∃ r, r ∈ gone ∧ file_object (f_tenant r) (f_id r) = Ok id) → os_get s' NS_FILES id = Ok None)
      ∧ ((∀ r, r ∈ gone → file_object (f_tenant r) (f_id r) ≠ Ok id) → os_get s' NS_FILES id = os_get s NS_FILES id).
Proof.
  intros Hd Hnew old gone. destruct (sweep_ok old SWEEP_BATCH (1 + length (fd_files d)) d s 0) as (s' & Erun & Hs'); [by vm_compute; lia|done|done| |].
  - assert (length (able old d) ≤ length (fd_files d))%nat by apply length_filter. lia.
  - exists s'. split; [exact Erun|exact Hs'].
Qed.
(** Two old attachments, one of them bound. *)
Definition sweep_db : fdb :=
  FDb (Db {[ 2%N := fx_session ]} [] [] [] [] [] [] [SessionFileRow 1 2 (new_file_id 7) None None 0] ∅ (Acct [] [] []))
    [fx_file (new_file_id 7) "a" "attachment" 1; fx_file (new_file_id 8) "b" "attachment" 1; fx_file (new_file_id 9) "c" "file" 1].
Lemma sweep_exact_witness : ∃ (s' : memory_store),
  sweep_attachments fx_settings sweep_db (<[chars ".store/x" := []]> ∅ : memory_store) 1
    = Some (with_file_rows sweep_db [fx_file (new_file_id 7) "a" "attachment" 1; fx_file (new_file_id 9) "c" "file" 1], s', 1%nat).
Proof.
  destruct (sweep_exact fx_settings sweep_db (<[chars ".store/x" := []]> ∅ : memory_store) 1) as (s' & E & _).
  - apply (bool_decide_unpack _). vm_compute. exact I.
  - intros r Hr. apply elem_of_cons in Hr as [->|Hr]; [by exists 7%N|]. apply elem_of_cons in Hr as [->|Hr]; [by exists 8%N|].
    apply elem_of_cons in Hr as [->|Hr]; [by exists 9%N|]. by apply elem_of_nil in Hr.
  - exists s'. etransitivity; [exact E|]. apply (f_equal Some). apply (f_equal2 pair); [|vm_compute; reflexivity].
    apply (f_equal2 pair); [|reflexivity]. vm_compute. reflexivity.
Defined.
