(* ===== verification/Fs.v ===== *)
(** * Files of a host: directories, regular files and symbolic links

    What the code uses of `pathlib` and `os`: resolving a path through its links,
    looking at it, making directories and writing files.  A path is the list of its
    parts from the root, which is always a directory.  Limits of a host (the length of
    a name, the number of links of one walk, a full disk, permissions) are not
    modelled. *)

From S2P Require Import Prelude PyStd Db Fleet Blobs Files.

Open Scope Z_scope.

Abbreviation path := (list (list N)) (only parsing).
Inductive node : Type := Dir | Regular (data : list ascii) | Link (target : list N).
#[global] Instance node_eq_dec : EqDecision node.
Proof. solve_decision. Defined.
Abbreviation fs := (gmap (list (list N)) node) (only parsing).

(** ** The text of a path *)

Definition dotdot : list N := lit "..".
Fixpoint split_text (sep : N) (l : list N) : list (list N) :=
  match l with
  | [] => [[]]
  | c :: l =>
      if decide (c = sep) then [] :: split_text sep l
      else match split_text sep l with p :: ps => (c :: p) :: ps | [] => [[c]] end
  end.
Definition slash_n : N := 47%N.
(** `Path(text).parts`, without the root of an absolute path. *)
Definition parts (l : list N) : list (list N) := filter (λ c, c ≠ [] ∧ c ≠ lit ".") (split_text slash_n l).
Definition is_abs (l : list N) : bool := bool_decide (head l = Some slash_n).
(** `base / text` *)
Definition joinpath (base : list (list N)) (l : list N) : list (list N) := if is_abs l then parts l else base ++ parts l.
Definition parent (p : list (list N)) : list (list N) := removelast p.

(** ** Following links *)

(** The parts of a path from a directory on; [enter] follows the target of a link. *)
Fixpoint walk_with (enter : list (list N) → list (list N) → option (list (list N))) (m : gmap (list (list N)) node)
    (acc rest : list (list N)) : option (list (list N)) :=
  match rest with
  | [] => Some acc
  | c :: rest =>
      if decide (c = dotdot) then walk_with enter m (parent acc) rest
      else match m !! (acc ++ [c]) with
      | Some (Link t) => p ← enter (if is_abs t then [] else acc) (parts t); walk_with enter m p rest
      | _ => walk_with enter m (acc ++ [c]) rest
      end
  end.
(** [fuel] links within one another, at most. *)
Fixpoint walk (fuel : nat) (m : gmap (list (list N)) node) (acc rest : list (list N)) : option (list (list N)) :=
  walk_with (match fuel with O => λ _ _, None | S fuel => walk fuel m end) m acc rest.
(** The symbolic links of the system. *)
Definition link_of (n : node) : option (list N) := match n with Link t => Some t | _ => None end.
Definition links (m : gmap (list (list N)) node) : gmap (list (list N)) (list N) := omap link_of m.
(** `path.resolve()`: more links within one another than there are is a loop.  The calls
    that follow fail on a path with a loop; here the walk itself has no result. *)
Definition resolve (m : gmap (list (list N)) node) (p : list (list N)) : option (list (list N)) := walk (size (links m)) m [] p.

(** ** Operations *)

Definition os_error : exn := OtherExn None.
Definition is_dir (m : gmap (list (list N)) node) (p : list (list N)) : bool := bool_decide (p = [] ∨ m !! p = Some Dir).
Definition node_at (m : gmap (list (list N)) node) (p : list (list N)) : option node :=
  match resolve m p with Some [] => Some Dir | Some q => m !! q | None => None end.
(** `path.exists()`, `path.is_file()` *)
Definition path_exists (m : gmap (list (list N)) node) (p : list (list N)) : bool := bool_decide (node_at m p ≠ None).
Definition is_file_at (m : gmap (list (list N)) node) (p : list (list N)) : bool :=
  match node_at m p with Some (Regular _) => true | _ => false end.
(** `path.mkdir(parents=True, exist_ok=True)`: from a directory on. *)
Fixpoint mkdir_from (m : gmap (list (list N)) node) (cur rest : list (list N)) : res exn (gmap (list (list N)) node) :=
  match rest with
  | [] => Ok m
  | c :: rest =>
      match m !! (cur ++ [c]) with
      | None => mkdir_from (<[cur ++ [c] := Dir]> m) (cur ++ [c]) rest
      | Some Dir => mkdir_from m (cur ++ [c]) rest
      | Some (Regular _) => Err os_error
      | Some (Link _) =>
          match resolve m (cur ++ [c]) with
          | Some q => if is_dir m q then mkdir_from m q rest else Err os_error
          | None => Err os_error
          end
      end
  end.
Definition mkdirs (m : gmap (list (list N)) node) (p : list (list N)) : res exn (gmap (list (list N)) node) := mkdir_from m [] p.
(** `path.write_bytes(data)` *)
Definition write_bytes (m : gmap (list (list N)) node) (p : list (list N)) (data : list ascii) : res exn (gmap (list (list N)) node) :=
  match resolve m p with
  | None => Err os_error
  | Some q => if bool_decide (q = []) || is_dir m q || negb (is_dir m (parent q)) then Err os_error else Ok (<[q := Regular data]> m)
  end.

(** ** Paths without links *)

(** No part of [p] is a link. *)
Definition real (m : gmap (list (list N)) node) (p : list (list N)) : Prop := ∀ q t, q ≠ [] → q `prefix_of` p → m !! q ≠ Some (Link t).
Definition plain (p : list (list N)) : Prop := dotdot ∉ p.

Lemma parent_prefix (p : list (list N)) : parent p `prefix_of` p.
Proof.
  unfold parent. destruct p as [|c l _] using rev_ind; [done|]. rewrite removelast_last. by apply prefix_app_r.
Qed.
Lemma parent_snoc (p : list (list N)) c : parent (p ++ [c]) = p.
Proof. apply removelast_last. Qed.
Lemma parent_of (p : list (list N)) : p ≠ [] → ∃ c, p = parent p ++ [c].
Proof. destruct p as [|c l _] using rev_ind; [done|]. intros _. exists c. by rewrite parent_snoc. Qed.
Lemma prefix_snoc_inv (q p : list (list N)) c : q `prefix_of` p ++ [c] → q = p ++ [c] ∨ q `prefix_of` p.
Proof.
  intros [k E]. destruct k as [|d k _] using rev_ind; [left; by rewrite app_nil_r in E|]. rewrite app_assoc in E.
  apply app_inj_tail in E as [-> ->]. right. by exists k.
Qed.
Lemma real_nil m : real m [].
Proof. intros q t Hne Hq. by apply prefix_nil_inv in Hq. Qed.
Lemma plain_nil : plain [].
Proof. apply not_elem_of_nil. Qed.
Lemma real_prefix m p q : real m p → q `prefix_of` p → real m q.
Proof. intros Hp Hq r t Hne Hr. apply Hp; [done|]. by etrans. Qed.
Lemma plain_prefix p q : plain p → q `prefix_of` p → plain q.
Proof. intros Hp [k ->] Hin. apply Hp. apply elem_of_app. by left. Qed.
Lemma real_snoc m p c : real m p → (∀ t, m !! (p ++ [c]) ≠ Some (Link t)) → real m (p ++ [c]).
Proof. intros Hp Hc q t Hne [->|Hq]%prefix_snoc_inv; [apply Hc|by apply Hp]. Qed.
Lemma plain_snoc p c : plain p → c ≠ dotdot → plain (p ++ [c]).
Proof. unfold plain. rewrite elem_of_app, list_elem_of_singleton. naive_solver. Qed.
#[export] Hint Resolve real_nil plain_nil parent_prefix : core.

(** Two systems with the same links. *)
Definition same_links (m m' : gmap (list (list N)) node) : Prop := ∀ q t, m !! q = Some (Link t) ↔ m' !! q = Some (Link t).
Lemma same_links_refl m : same_links m m.
Proof. done. Qed.
Lemma same_links_trans m1 m2 m3 : same_links m1 m2 → same_links m2 m3 → same_links m1 m3.
Proof. intros H1 H2 q t. specialize (H1 q t). specialize (H2 q t). tauto. Qed.
Lemma same_links_real m m' p : same_links m m' → real m p → real m' p.
Proof. intros H Hp q t Hne Hq E. by apply (Hp q t Hne Hq), H. Qed.

(** ** Walks *)

Lemma walk_with_app enter m acc p q :
  walk_with enter m acc (p ++ q) = (r ← walk_with enter m acc p; walk_with enter m r q).
Proof.
  revert acc. induction p as [|c p IH]; intros acc; [done|]. cbn [walk_with app]. case_decide; [apply IH|].
  destruct (m !! (acc ++ [c])) as [[| |t]|]; try apply IH. destruct (enter _ _) as [r|]; [apply IH|done].
Qed.
(** Along real parts a walk goes nowhere else. *)
Lemma walk_with_plain enter m acc p : real m (acc ++ p) → plain p → walk_with enter m acc p = Some (acc ++ p).
Proof.
  revert acc. induction p as [|c p IH]; intros acc Hr Hp; [by rewrite app_nil_r|].
  unfold plain in Hp. apply not_elem_of_cons in Hp as [Hc Hp]. cbn [walk_with]. rewrite decide_False by congruence.
  assert (acc ++ c :: p = (acc ++ [c]) ++ p) as E by (by rewrite <- app_assoc). rewrite E in *.
  destruct (m !! (acc ++ [c])) as [[| |t]|] eqn:Em; try by apply IH.
  exfalso. eapply Hr; [| |exact Em]; [by destruct acc|by apply prefix_app_r].
Qed.
Lemma walk_plain n m acc p : real m (acc ++ p) → plain p → walk n m acc p = Some (acc ++ p).
Proof. destruct n; apply walk_with_plain. Qed.
Lemma resolve_plain m p : real m p → plain p → resolve m p = Some p.
Proof. intros Hr Hp. exact (walk_plain _ m [] p Hr Hp). Qed.

(** Where a walk ends there is no link. *)
Lemma walk_with_real enter m acc p q :
  (∀ a r q, real m a → plain a → enter a r = Some q → real m q ∧ plain q) →
  real m acc → plain acc → walk_with enter m acc p = Some q → real m q ∧ plain q.
Proof.
  intros Henter. revert acc. induction p as [|c p IH]; intros acc Hr Hp; [by intros [= <-]|]. cbn [walk_with].
  case_decide as Hc; [apply IH; eauto using real_prefix, plain_prefix|].
  destruct (m !! (acc ++ [c])) as [[| |t]|] eqn:Em; try (apply IH; [apply real_snoc; [done|by rewrite Em]|by apply plain_snoc]).
  destruct (enter _ _) as [r|] eqn:Er; [|done]. apply Henter in Er as [? ?]; [by apply IH|by destruct (is_abs t)..].
Qed.
Lemma walk_real n m acc p q : real m acc → plain acc → walk n m acc p = Some q → real m q ∧ plain q.
Proof.
  revert acc p q. induction n as [|n IH]; intros acc p q Hr Hp; [by apply walk_with_real|].
  cbn [walk]. apply walk_with_real; [|done..]. intros a r q' Ha Ha' Hw. by eapply IH.
Qed.
Lemma resolve_real m p q : resolve m p = Some q → real m q ∧ plain q.
Proof. by apply walk_real. Qed.
Lemma resolve_idem m p q : resolve m p = Some q → resolve m q = Some q.
Proof. intros [? ?]%resolve_real. by apply resolve_plain. Qed.

(** More fuel changes no walk that ends, and a walk only looks at links. *)
Lemma walk_with_mono enter enter' m m' acc p q :
  same_links m m' → (∀ a r q, enter a r = Some q → enter' a r = Some q) →
  walk_with enter m acc p = Some q → walk_with enter' m' acc p = Some q.
Proof.
  intros Hm He. revert acc. induction p as [|c p IH]; intros acc; [done|]. cbn [walk_with]. case_decide; [apply IH|].
  pose proof (λ t, proj1 (Hm (acc ++ [c]) t)) as H1. pose proof (λ t, proj2 (Hm (acc ++ [c]) t)) as H2.
  destruct (m !! (acc ++ [c])) as [[| |t]|]; [| |rewrite (H1 t eq_refl)|];
    try (destruct (m' !! (acc ++ [c])) as [[| |t']|]; try apply IH; by specialize (H2 _ eq_refl)).
  destruct (enter _ _) as [r|] eqn:Er; [|done]. apply He in Er. rewrite Er. apply IH.
Qed.
Lemma walk_mono n k m m' acc p q : same_links m m' → walk n m acc p = Some q → walk (n + k) m' acc p = Some q.
Proof.
  intros Hm. revert acc p q. induction n as [|n IH]; intros acc p q; cbn [walk Nat.add].
  - destruct k; cbn [walk]; by apply walk_with_mono.
  - by apply walk_with_mono.
Qed.
Lemma same_links_eq m m' : same_links m m' → links m = links m'.
Proof.
  intros H. apply map_eq. intros q. unfold links. rewrite !lookup_omap. specialize (H q).
  destruct (m !! q) as [[| |t]|], (m' !! q) as [[| |t']|]; cbn; try done; try (specialize (H t); naive_solver); specialize (H t'); naive_solver.
Qed.
Lemma same_links_sym m m' : same_links m m' → same_links m' m.
Proof. intros H q t. specialize (H q t). tauto. Qed.
Lemma resolve_same m m' p : same_links m m' → resolve m' p = resolve m p.
Proof.
  intros H. unfold resolve. rewrite (same_links_eq _ _ H). set (n := size _).
  destruct (walk n m [] p) as [q|] eqn:E.
  - apply (walk_mono n 0 m m') in E; [|done]. by rewrite Nat.add_0_r in E.
  - destruct (walk n m' [] p) as [q|] eqn:E'; [|done].
    apply (walk_mono n 0 m' m) in E'; [|by apply same_links_sym]. rewrite Nat.add_0_r in E'. congruence.
Qed.

(** ** What the operations change *)

Definition below (p q : list (list N)) : Prop := p `prefix_of` q ∧ p ≠ q.
#[global] Instance below_dec p q : Decision (below p q).
Proof. unfold below. apply _. Defined.
Lemma below_snoc p c : below p (p ++ [c]).
Proof. split; [by apply prefix_app_r|]. intros E. apply (f_equal length) in E. rewrite length_app in E. simpl in E. lia. Qed.
Lemma below_trans p q r : below p q → q `prefix_of` r → below p r.
Proof.
  intros [Hpq Hne] Hqr. split; [by etrans|]. intros ->. apply Hne. apply prefix_length_eq; [done|]. by apply prefix_length in Hqr.
Qed.
Lemma prefix_below p q r : p `prefix_of` q → below q r → below p r.
Proof.
  intros Hpq [Hqr Hne]. split; [by etrans|]. intros ->. apply Hne. apply prefix_length_eq; [done|]. by apply prefix_length in Hpq.
Qed.

(** The directories that making [p] below [cur] adds. *)
Definition added (m : gmap (list (list N)) node) (cur p q : list (list N)) : Prop := below cur q ∧ q `prefix_of` p ∧ m !! q = None.
#[global] Instance added_dec m cur p q : Decision (added m cur p q).
Proof. unfold added. apply _. Defined.
Lemma is_dir_true m p : is_dir m p = true ↔ p = [] ∨ m !! p = Some Dir.
Proof. apply bool_decide_eq_true. Qed.
Lemma prefix_antisym (p q : list (list N)) : p `prefix_of` q → q `prefix_of` p → p = q.
Proof. intros Hp Hq. apply prefix_length_eq; [done|]. by apply prefix_length in Hq. Qed.
Lemma below_next cur c rest q : q ≠ cur ++ [c] → below cur q → q `prefix_of` (cur ++ [c]) ++ rest → below (cur ++ [c]) q.
Proof.
  intros Hn [Hq1 Hne] Hq2. destruct (prefix_weak_total q (cur ++ [c]) _ Hq2 ltac:(by apply prefix_app_r)) as [Hq|Hq]; [|by split].
  apply prefix_snoc_inv in Hq as [->|Hq]; [done|]. by destruct Hne; apply prefix_antisym.
Qed.
Lemma added_next m m' cur c rest q :
  q ≠ cur ++ [c] → m' !! q = m !! q → added m' (cur ++ [c]) ((cur ++ [c]) ++ rest) q ↔ added m cur ((cur ++ [c]) ++ rest) q.
Proof.
  intros Hn E. unfold added. rewrite E. split; intros (Hb & Hq & ?); split_and!; try done.
  - eapply below_trans; [apply below_snoc|]. by destruct Hb.
  - by eapply below_next.
Qed.
Lemma mkdir_from_spec m cur rest m' :
  real m (cur ++ rest) → mkdir_from m cur rest = Ok m' →
  (∀ q, m' !! q = if decide (added m cur (cur ++ rest) q) then Some Dir else m !! q) ∧ (is_dir m cur = true → is_dir m' (cur ++ rest) = true).
Proof.
  revert m cur. induction rest as [|c rest IH]; intros m cur Hr; cbn [mkdir_from].
  - intros [= <-]. rewrite app_nil_r. split; [|done]. intros q. rewrite decide_False; [done|].
    intros ([Hq Hne] & Hq' & _). by apply Hne, prefix_antisym.
  - assert (cur ++ c :: rest = (cur ++ [c]) ++ rest) as E by (by rewrite <- app_assoc). rewrite E in *.
    destruct (m !! (cur ++ [c])) as [[|data|t]|] eqn:Em; [|done| |].
    + intros Hm. apply IH in Hm as [Hm Hd]; [|done]. split; [|intros _; apply Hd, is_dir_true; by right].
      intros q. rewrite Hm. destruct (decide (q = cur ++ [c])) as [->|Hn].
      * rewrite !decide_False; [done| |]; intros (_ & _ & ?); congruence.
      * destruct (decide (added m (cur ++ [c]) _ q)) as [Ha|Ha]; [rewrite decide_True|rewrite decide_False]; try done; by rewrite <- (added_next m m).
    + exfalso. eapply Hr; [| |exact Em]; [by destruct cur|by apply prefix_app_r].
    + intros Hm. assert (real (<[cur ++ [c] := Dir]> m) ((cur ++ [c]) ++ rest)) as Hr'.
      { intros q t Hne Hq. destruct (decide (q = cur ++ [c])) as [->|Hn]; [by rewrite lookup_insert_eq|].
        rewrite lookup_insert_ne by done. by apply Hr. }
      apply IH in Hm as [Hm Hd]; [|done]. split; [|intros _; apply Hd, is_dir_true; right; by rewrite lookup_insert_eq].
      intros q. rewrite Hm. destruct (decide (q = cur ++ [c])) as [->|Hn].
      * rewrite decide_False; [|intros (_ & _ & Hl); by rewrite lookup_insert_eq in Hl]. rewrite lookup_insert_eq, decide_True; [done|].
        split_and!; [apply below_snoc|by apply prefix_app_r|done].
      * pose proof (added_next m (<[cur ++ [c] := Dir]> m) cur c rest q Hn) as Hadd. rewrite lookup_insert_ne in Hadd by done. specialize (Hadd eq_refl).
        rewrite lookup_insert_ne by done.
        destruct (decide (added (<[cur ++ [c] := Dir]> m) _ _ q)) as [Ha|Ha]; [rewrite decide_True|rewrite decide_False]; try done; tauto.
Qed.

(** What one operation does below a directory [root] that is there. *)
Lemma added_links m m' cur p : (∀ q, m' !! q = if decide (added m cur p q) then Some Dir else m !! q) → same_links m m'.
Proof. intros H q t. rewrite H. destruct (decide _) as [(_ & _ & E)|]; [rewrite E|]; naive_solver. Qed.
Lemma mkdirs_spec m p m' :
  real m p → mkdirs m p = Ok m' →
  same_links m m' ∧ is_dir m' p = true ∧ ∀ q, m' !! q = if decide (added m [] p q) then Some Dir else m !! q.
Proof.
  intros Hr Hm. apply mkdir_from_spec in Hm as [Hm Hd]; [|done]. split_and!; [by eapply added_links|by apply Hd|done].
Qed.
Lemma write_bytes_spec m p data m' :
  real m p → plain p → write_bytes m p data = Ok m' →
  p ≠ [] ∧ is_dir m (parent p) = true ∧ m !! p ≠ Some Dir ∧ m' = <[p := Regular data]> m.
Proof.
  intros Hr Hp. unfold write_bytes. rewrite resolve_plain by done.
  destruct (bool_decide (p = [])) eqn:E1; [done|]. destruct (is_dir m p) eqn:E2; [done|]. destruct (is_dir m (parent p)) eqn:E3; [|done].
  intros [= <-]. apply bool_decide_eq_false in E1. split_and!; try done. intros E. by rewrite (proj2 (is_dir_true m p)) in E2; auto.
Qed.
Lemma insert_links m p data : (∀ t, m !! p ≠ Some (Link t)) → same_links m (<[p := Regular data]> m).
Proof.
  intros Hp q t. destruct (decide (q = p)) as [->|Hn]; [rewrite lookup_insert_eq|by rewrite lookup_insert_ne]. split; [|done]. by intros E%Hp.
Qed.
