(* ===== verification/Workspace.v ===== *)
(** * The workspace of a session on its host (src/src/apipi/env/setup.py,
      worker/pi/artifacts.py, worker/turn_context.py)

    Where a path of a request lands, the files written for an environment and for a
    message, the tar a guest hands back, and what the environment asks for: packages,
    commands, variables and the network. *)

From S2P Require Import Prelude PyStd Db Fleet Blobs Files Fs.

Open Scope Z_scope.

Abbreviation disk := (gmap (list (list N)) node) (only parsing).
(** `SetupError`: the API answers it with this error. *)
Definition setup_error : exn := api_error "invalid_request".

(** ** Paths in the workspace (env/setup.py) *)

(** `_is_under` *)
Definition is_under (m : gmap (list (list N)) node) (p root : list (list N)) : bool :=
  match resolve m p, resolve m root with Some p, Some root => bool_decide (root `prefix_of` p) | _, _ => false end.
Definition WORKSPACE_PREFIXES : list string := ["/workspace"; "/tmp/workspace"]%string.
Definition resolved (m : gmap (list (list N)) node) (p : list (list N)) : res exn (list (list N)) :=
  match resolve m p with Some q => Ok q | None => Err os_error end.
(** The loop over the prefixes, after which only a relative text is left. *)
Fixpoint in_workspace (m : gmap (list (list N)) node) (root : list (list N)) (prefixes : list string) (text : list N) : res exn (list (list N)) :=
  match prefixes with
  | [] => if is_abs text then Err setup_error else resolved m (joinpath root text)
  | p :: prefixes =>
      if decide (text = lit p) then Ok root
      else if bool_decide (take (S (length (lit p))) text = lit p ++ [slash_n])
      then resolved m (joinpath root (drop (S (length (lit p))) text))
      else in_workspace m root prefixes text
  end.
Definition resolve_workspace_path (m : gmap (list (list N)) node) (workspace : list (list N)) (raw : list N) : res exn (list (list N)) :=
  root ← resolved m workspace;
  let text := ustrip raw in
  if decide (text = []) then Err setup_error
  else
    p ← in_workspace m root WORKSPACE_PREFIXES text;
    if negb (is_under m p root) && negb (bool_decide (p = root)) then Err setup_error else Ok p.
Definition APIPI_DIR : list N := lit ".apipi".
Definition workspace_file_path (m : gmap (list (list N)) node) (workspace : list (list N)) (raw : list N) : res exn (list (list N)) :=
  root ← resolved m workspace;
  apipi ← resolved m (root ++ [APIPI_DIR]);
  dest ← resolve_workspace_path m workspace raw;
  if decide (dest = root) then Err setup_error
  else if bool_decide (dest = apipi) || is_under m dest apipi then Err setup_error
  else Ok dest.
Definition workspace_file_missing (m : gmap (list (list N)) node) (workspace : list (list N)) (raw : list N) : res exn bool :=
  dest ← workspace_file_path m workspace raw; Ok (negb (path_exists m dest)).
(** `resolve_setup_cwd` *)
Definition resolve_setup_cwd (m : gmap (list (list N)) node) (workspace : list (list N)) (cwd : option (list N)) : res exn (list (list N)) :=
  match cwd with
  | None => resolved m workspace
  | Some t => if decide (ustrip t ∈ [[]; lit "."; lit "./"]) then resolved m workspace else resolve_workspace_path m workspace t
  end.
(** `local_ref_path` (worker/turn_context.py), of a resolved store root. *)
Definition local_ref_path (m : gmap (list (list N)) node) (store : list (list N)) (local_path : list N) : res exn (list (list N)) :=
  root ← resolved m store;
  candidate ← resolved m (joinpath root local_path);
  if bool_decide (root `prefix_of` candidate) then Ok candidate else Err (ObjectStoreExn "" "" None).

(** ** Files of the environment and of messages (env/setup.py) *)

(** `dest.parent.mkdir(parents=True, exist_ok=True)` and `dest.write_bytes(data)`; what was
    done before an error stays. *)
Definition put_file (m : gmap (list (list N)) node) (dest : list (list N)) (data : list ascii) : gmap (list (list N)) node * res exn unit :=
  match mkdirs m (parent dest) with
  | Err e => (m, Err e)
  | Ok m => match write_bytes m dest data with Err e => (m, Err e) | Ok m => (m, Ok ()) end
  end.
Definition over (max_bytes : option Z) (total : Z) : bool := match max_bytes with Some n => n <? total | None => false end.
Fixpoint write_inline (m : gmap (list (list N)) node) (workspace : list (list N)) (max_bytes : option Z) (total : Z)
    (files : list (list N * list ascii)) : gmap (list (list N)) node * res exn unit :=
  match files with
  | [] => (m, Ok ())
  | (raw, data) :: files =>
      match workspace_file_path m workspace raw with
      | Err e => (m, Err e)
      | Ok dest =>
          if path_exists m dest then write_inline m workspace max_bytes total files
          else
            let total := total + Z.of_nat (length data) in
            if over max_bytes total then (m, Err setup_error)
            else match put_file m dest data with
            | (m, Ok _) => write_inline m workspace max_bytes total files
            | (m, Err e) => (m, Err e)
            end
      end
  end.
Definition write_inline_files (m : gmap (list (list N)) node) (workspace : list (list N)) (files : list (list N * list ascii))
    (max_bytes : option Z) : gmap (list (list N)) node * res exn unit := write_inline m workspace max_bytes 0 files.

(** `dest.with_name(f".{dest.name}.apipi-tmp")` *)
Definition temp_of (dest : list (list N)) : list (list N) := parent dest ++ [lit "." ++ default [] (list.last dest) ++ lit ".apipi-tmp"].
(** `os.replace`: the name moves, whatever it is. *)
Definition os_replace (m : gmap (list (list N)) node) (src dest : list (list N)) : res exn (gmap (list (list N)) node) :=
  match m !! src with
  | None => Err os_error
  | Some n => if is_dir m dest || bool_decide (n = Dir) then Err os_error else Ok (<[dest := n]> (base.delete src m))
  end.
(** `temp.unlink(missing_ok=True)` *)
Definition unlink (m : gmap (list (list N)) node) (p : list (list N)) : gmap (list (list N)) node := if is_dir m p then m else base.delete p m.
Fixpoint replace_workspace_files (m : gmap (list (list N)) node) (workspace : list (list N)) (files : list (list N * list ascii))
    : gmap (list (list N)) node * res exn unit :=
  match files with
  | [] => (m, Ok ())
  | (raw, data) :: files =>
      match workspace_file_path m workspace raw with
      | Err e => (m, Err e)
      | Ok dest =>
          match mkdirs m (parent dest) with
          | Err _ => (unlink m (temp_of dest), Err setup_error)
          | Ok m =>
              match write_bytes m (temp_of dest) data with
              | Err _ => (unlink m (temp_of dest), Err setup_error)
              | Ok m =>
                  match os_replace m (temp_of dest) dest with
                  | Err _ => (unlink m (temp_of dest), Err setup_error)
                  | Ok m => replace_workspace_files m workspace files
                  end
              end
          end
      end
  end.

(** ** The tar of a guest (worker/pi/artifacts.py) *)

(** A member as `tarfile` reads it; [tm_file] is `info.isfile()`. *)
Record member : Type := Member { tm_name : list N; tm_file : bool; tm_data : list ascii }.
Definition tm_size (i : member) : Z := Z.of_nat (length (tm_data i)).
(** `name[2:]` of a name that starts with `./` *)
Definition undot (name : list N) : list N := if decide (take 2 name = lit "./") then drop 2 name else name.
(** `Path(name).parts`, with the root of an absolute name. *)
Definition name_parts (name : list N) : list (list N) := (if is_abs name then [[slash_n]] else []) ++ parts name.
Definition PUBLISH_DIRS : list string := ["outputs"]%string.
Definition publish_path (name : list N) : bool :=
  existsb (λ d, bool_decide (name = lit d) || bool_decide (take (S (length (lit d))) name = lit d ++ [slash_n])) PUBLISH_DIRS.
Definition unpack_artifact_tar (tar : list member) : list (list N * list ascii) :=
  omap (λ i, let name := undot (tm_name i) in
    if tm_file i && negb (bool_decide (dotdot ∈ name_parts name)) && publish_path name then Some (name, tm_data i) else None) tar.
(** The bytes of the files below a directory. *)
Definition size_in (m : gmap (list (list N)) node) (q : list (list N)) (n : node) : Z :=
  match n with
  | Regular data => Z.of_nat (length data)
  | Link _ => match node_at m q with Some (Regular data) => Z.of_nat (length data) | _ => 0 end
  | Dir => 0
  end.
Definition dir_bytes (m : gmap (list (list N)) node) (p : list (list N)) : Z :=
  match resolve m p with
  | Some root => map_fold (λ q n acc, (if bool_decide (below root q) then size_in m q n else 0) + acc) 0 m
  | None => 0
  end.
(** The members that are written, with their names. *)
Definition workspace_members (tar : list member) : list (list N * list ascii) :=
  omap (λ i, let name := undot (tm_name i) in
    if tm_file i && bool_decide (name_parts name ≠ []) && negb (bool_decide (dotdot ∈ name_parts name))
       && negb (bool_decide (head (name_parts name) = Some APIPI_DIR))
    then Some (name, tm_data i) else None) tar.
Fixpoint put_members (m : gmap (list (list N)) node) (dest : list (list N)) (l : list (list N * list ascii)) : gmap (list (list N)) node * res exn unit :=
  match l with
  | [] => (m, Ok ())
  | (name, data) :: l =>
      match put_file m (joinpath dest name) data with
      | (m, Ok _) => put_members m dest l
      | (m, Err e) => (m, Err e)
      end
  end.
Definition data_bytes {A} (l : list (A * list ascii)) : Z := foldr Z.add 0 ((λ p, Z.of_nat (length p.2)) <$> l).
Definition too_large : exn := DiskLimitExn "workspace_too_large" "Workspace too large".
(** `unpack_workspace_tar`, of a tar that is not empty. *)
Definition unpack_workspace_tar (m : gmap (list (list N)) node) (dest : list (list N)) (tar : list member) (max_bytes : option Z)
    : gmap (list (list N)) node * res exn unit :=
  if over max_bytes (dir_bytes m dest) then (m, Err too_large)
  else match mkdirs m dest with
  | Err e => (m, Err e)
  | Ok m =>
      let members := workspace_members tar in
      if over max_bytes (data_bytes members) then (m, Err too_large) else put_members m dest members
  end.
