(* ===== verification/WorkspaceProps.v ===== *)
(** * Where the writes into a workspace land

    The paths of a request resolve below the workspace whatever links are in it, the
    files of an environment and of a message are written there and nowhere else, and
    what the tar of a guest can write. *)

From S2P Require Import Prelude PyStd Db Fleet Blobs Files Fs Workspace.

Open Scope Z_scope.

(** ** Systems that grow *)

(** The bytes of all regular files. *)
Definition node_bytes (n : node) : Z := match n with Regular data => Z.of_nat (length data) | _ => 0 end.
Definition tree_bytes (m : gmap (list (list N)) node) : Z := map_fold (λ _ n acc, node_bytes n + acc) 0 m.
Lemma tree_bytes_insert m q n : m !! q = None → tree_bytes (<[q := n]> m) = node_bytes n + tree_bytes m.
Proof. intros Hq. unfold tree_bytes. rewrite map_fold_insert_L; [done| |done]. intros. lia. Qed.
Lemma mkdir_from_bytes m cur rest m' : mkdir_from m cur rest = Ok m' → tree_bytes m' = tree_bytes m.
Proof.
  revert m cur. induction rest as [|c rest IH]; intros m cur; cbn [mkdir_from]; [by intros [= <-]|].
  destruct (m !! (cur ++ [c])) as [[| |t]|] eqn:Em; [apply IH|done| |].
  - destruct (resolve _ _) as [q|]; [|done]. destruct (is_dir m q); [apply IH|done].
  - intros Hm. apply IH in Hm. by rewrite Hm, tree_bytes_insert.
Qed.

Definition dirs_to (m : gmap (list (list N)) node) (root : list (list N)) : Prop := ∀ q, q ≠ [] → q `prefix_of` root → m !! q = Some Dir.
Lemma dirs_to_real m root : dirs_to m root → real m root.
Proof. intros H q t Hne Hq. by rewrite H. Qed.

(** ** Paths *)

Lemma is_under_real m p root : real m p → plain p → real m root → plain root → is_under m p root = bool_decide (root `prefix_of` p).
Proof. intros. unfold is_under. by rewrite !resolve_plain. Qed.
Lemma resolved_Ok m p q : resolved m p = Ok q ↔ resolve m p = Some q.
Proof. unfold resolved. destruct (resolve m p); naive_solver. Qed.
Lemma resolved_same m m' p : same_links m m' → resolved m' p = resolved m p.
Proof. intros H. unfold resolved. by rewrite (resolve_same m m'). Qed.
Lemma is_under_same m m' p root : same_links m m' → is_under m' p root = is_under m p root.
Proof. intros H. unfold is_under. by rewrite !(resolve_same m m'). Qed.
Lemma in_workspace_same m m' root prefixes text : same_links m m' → in_workspace m' root prefixes text = in_workspace m root prefixes text.
Proof. intros H. induction prefixes as [|p l IH]; cbn [in_workspace]; rewrite ?IH, ?(resolved_same m m') by done; done. Qed.
Lemma file_path_same m m' workspace raw : same_links m m' → workspace_file_path m' workspace raw = workspace_file_path m workspace raw.
Proof.
  intros H. unfold workspace_file_path, resolve_workspace_path. rewrite (resolved_same m m') by done.
  destruct (resolved m workspace) as [root|]; [|done]. cbn [mbind res_bind]. rewrite (resolved_same m m') by done.
  destruct (resolved m _) as [apipi|]; [|done]. cbn [mbind res_bind]. rewrite (in_workspace_same m m') by done.
  destruct (decide (ustrip raw = [])); [done|]. destruct (in_workspace m _ _ _) as [p|]; [|done]. cbn [mbind res_bind].
  rewrite !(is_under_same m m') by done. destruct (_ && _); [done|]. cbn [mbind res_bind]. by rewrite (is_under_same m m').
Qed.
Lemma in_workspace_real m root prefixes text p :
  real m root → plain root → in_workspace m root prefixes text = Ok p → real m p ∧ plain p.
Proof.
  intros Hr Hp. induction prefixes as [|x l IH]; cbn [in_workspace].
  - destruct (is_abs text); [done|]. intros H%resolved_Ok. by eapply resolve_real.
  - case_decide; [by intros [= <-]|]. case_bool_decide; [|done]. intros H'%resolved_Ok. by eapply resolve_real.
Qed.

Section workspace.
Context (m : gmap (list (list N)) node) (workspace root apipi : list (list N)).
Context (Hroot : resolve m workspace = Some root) (Hapipi : resolve m (root ++ [APIPI_DIR]) = Some apipi) (Hdirs : dirs_to m root).

(** Below the workspace and not in its own directory. *)
Definition inside (q : list (list N)) : Prop := below root q ∧ ¬ apipi `prefix_of` q.
Lemma workspace_path_inside raw dest : workspace_file_path m workspace raw = Ok dest → inside dest ∧ real m dest ∧ plain dest.
Proof.
  unfold workspace_file_path, resolve_workspace_path. rewrite (proj2 (resolved_Ok m workspace root)) by done. cbn [mbind res_bind].
  rewrite (proj2 (resolved_Ok m (root ++ [APIPI_DIR]) apipi)) by done. cbn [mbind res_bind].
  destruct (resolve_real _ _ _ Hroot) as [Hr Hp]. destruct (resolve_real _ _ _ Hapipi) as [Hra Hpa].
  destruct (decide (ustrip raw = [])); [done|]. destruct (in_workspace m root WORKSPACE_PREFIXES (ustrip raw)) as [p|] eqn:Ep; [|done].
  apply in_workspace_real in Ep as [Hrp Hpp]; [|done..]. cbn [mbind res_bind].
  rewrite is_under_real by done. destruct (bool_decide (root `prefix_of` p)) eqn:E1; cbn [negb andb];
    [apply bool_decide_eq_true in E1|destruct (bool_decide (p = root)) eqn:E3; [|done]; apply bool_decide_eq_true in E3; subst p; cbn; by rewrite decide_True].
  cbn [mbind res_bind]. case_decide as Hne; [done|]. rewrite is_under_real by done.
  destruct (bool_decide (p = apipi)); [done|]. destruct (bool_decide (apipi `prefix_of` p)) eqn:E2; [done|]. apply bool_decide_eq_false in E2.
  intros [= <-]. split; [split; [split; [done|by intros <-]|done]|done].
Qed.

Record grown (m1 : gmap (list (list N)) node) : Prop := Grown {
  gr_links : same_links m m1; gr_sub : m ⊆ m1; gr_in : ∀ q, m !! q = None → m1 !! q ≠ None → inside q
}.
Lemma grown_refl : grown m.
Proof. split; [apply same_links_refl|done|]. by intros q ->. Qed.
Lemma grown_real m1 q : grown m1 → real m q → real m1 q.
Proof. intros Hg. by apply same_links_real, gr_links. Qed.
(** What lies on the way to a path inside and is not there yet is inside. *)
Lemma on_the_way m1 dest q : grown m1 → inside dest → q ≠ [] → q `prefix_of` dest → m1 !! q = None → inside q.
Proof.
  clear Hroot Hapipi. intros Hg [[Hd Hne] Ha] Hq Hpre Hnone. split; [|intros H; apply Ha; by etrans].
  assert (∀ n, m !! q = Some n → False) as Hno.
  { intros n H. apply (lookup_weaken _ m1) in H; [congruence|apply Hg]. }
  destruct (prefix_weak_total q root dest Hpre Hd) as [H|H]; [by destruct (Hno Dir (Hdirs q Hq H))|].
  split; [done|]. intros ->. by destruct (Hno Dir (Hdirs q Hq (reflexivity _))).
Qed.
Lemma put_file_grown m1 dest data m2 r :
  grown m1 → inside dest → real m1 dest → plain dest → m1 !! dest = None → put_file m1 dest data = (m2, r) →
  grown m2 ∧ m1 ⊆ m2 ∧ tree_bytes m2 ≤ tree_bytes m1 + Z.of_nat (length data)
  ∧ (∀ q d, m1 !! q = None → m2 !! q = Some (Regular d) → q = dest ∧ d = data)
  ∧ (r = Ok () → m2 !! dest = Some (Regular data)).
Proof.
  clear Hroot Hapipi. intros Hg Hin Hr Hp Hnone. unfold put_file.
  assert (dest ≠ []) as Hdne by (destruct Hin as [[Hpre Hne] _]; intros ->; apply prefix_nil_inv in Hpre; congruence).
  destruct (mkdirs m1 (parent dest)) as [m3|e] eqn:Ek; [|intros [= <- <-]; split_and!; try done; [lia|congruence]].
  pose proof (mkdir_from_bytes _ _ _ _ Ek) as Hbytes. apply mkdirs_spec in Ek as (Hlinks & Hdir & Hm3); [|by eapply real_prefix].
  assert (m1 ⊆ m3) as Hsub.
  { apply map_subseteq_spec. intros q n Hq. rewrite Hm3, decide_False; [done|]. intros (_ & _ & ?). congruence. }
  assert (grown m3) as Hg3.
  { split; [eapply same_links_trans; [apply Hg|done]|etrans; [apply Hg|done]|]. intros q Hq Hq3. destruct (m1 !! q) eqn:E1; [apply (gr_in _ Hg); congruence|].
    rewrite Hm3 in Hq3. destruct (decide _) as [([_ Hqn] & Hpre & _)|]; [|done].
    eapply on_the_way; [done|done|congruence| |done]. etrans; [done|apply parent_prefix]. }
  assert (m3 !! dest = None) as Hnone3.
  { rewrite Hm3, decide_False; [done|]. intros (_ & Hpre & _). destruct (parent_of dest Hdne) as [c E]. rewrite E in Hpre at 1. by apply prefix_snoc_not in Hpre. }
  destruct (write_bytes m3 dest data) as [m4|e] eqn:Ew; intros [= <- <-].
  - apply write_bytes_spec in Ew as (_ & _ & _ & ->); [|by eapply same_links_real|done]. split_and!.
    + split.
      * eapply same_links_trans; [apply Hg3|]. apply insert_links. congruence.
      * etrans; [apply Hg3|]. by apply insert_subseteq.
      * intros q Hq Hq4. destruct (decide (q = dest)) as [->|Hn]; [done|]. rewrite lookup_insert_ne in Hq4 by done. by apply (gr_in _ Hg3).
    + etrans; [done|]. by apply insert_subseteq.
    + rewrite tree_bytes_insert by done. cbn. lia.
    + intros q d Hq Hq4. destruct (decide (q = dest)) as [->|Hn]; [rewrite lookup_insert_eq in Hq4; naive_solver|].
      rewrite lookup_insert_ne, Hm3 in Hq4 by done. destruct (decide _); congruence.
    + intros _. by rewrite lookup_insert_eq.
  - split_and!; try done; [lia|]. intros q d Hq Hq4. rewrite Hm3 in Hq4. destruct (decide _); congruence.
Qed.

Lemma grown_path m1 raw : grown m1 → workspace_file_path m1 workspace raw = workspace_file_path m workspace raw.
Proof. intros Hg. apply file_path_same, Hg. Qed.
Lemma exists_real m1 q : real m1 q → plain q → q ≠ [] → path_exists m1 q = bool_decide (m1 !! q ≠ None).
Proof. intros. unfold path_exists, node_at. rewrite resolve_plain by done. by destruct q. Qed.
Lemma inside_ne q : inside q → q ≠ [].
Proof. intros [[Hpre Hne] _] ->. apply prefix_nil_inv in Hpre. congruence. Qed.

(** The files written so far: [m2] has more than [m1] only the data of [files]. *)
Definition only_from (files : list (list N * list ascii)) (m1 m2 : gmap (list (list N)) node) : Prop :=
  ∀ q d, m1 !! q = None → m2 !! q = Some (Regular d) → ∃ raw, (raw, d) ∈ files ∧ workspace_file_path m workspace raw = Ok q.
Definition file_there (m2 : gmap (list (list N)) node) (f : list N * list ascii) : Prop :=
  ∃ dest, workspace_file_path m workspace f.1 = Ok dest ∧ inside dest ∧ m2 !! dest ≠ None.
Lemma write_inline_grown files max m1 total m2 r :
  grown m1 → write_inline m1 workspace max total files = (m2, r) →
  grown m2 ∧ m1 ⊆ m2 ∧ only_from files m1 m2 ∧ (r = Ok () → Forall (file_there m2) files)
  ∧ (∀ n, max = Some n → total ≤ n → tree_bytes m2 ≤ tree_bytes m1 + (n - total)).
Proof.
  revert m1 total. induction files as [|[raw data] files IH]; intros m1 total Hg; cbn [write_inline].
  { intros [= <- <-]. split_and!; try done; [intros q d; congruence|intros; lia]. }
  rewrite grown_path by done. destruct (workspace_file_path m workspace raw) as [dest|e] eqn:Ed.
  2: { intros [= <- <-]. split_and!; try done; [intros q d; congruence|intros; lia]. }
  destruct (workspace_path_inside raw dest Ed) as (Hin & Hr & Hp). assert (real m1 dest) as Hr1 by (by apply grown_real).
  rewrite exists_real by (done || by apply inside_ne). case_bool_decide as Hex.
  - intros Hw. apply IH in Hw as (Hg2 & Hsub & Hof & Hok & Hb); [|done]. split_and!; [done|done| | |done].
    + intros q d Hq Hq2. destruct (Hof q d Hq Hq2) as (raw' & ? & ?). exists raw'. split; [by right|done].
    + intros Hok'. constructor; [|by apply Hok]. exists dest. split_and!; [done|done|].
      destruct (m1 !! dest) as [n|] eqn:E; [|done]. by rewrite (lookup_weaken _ m2 _ _ E Hsub).
  - destruct (over max _) eqn:Eo.
    { intros [= <- <-]. split_and!; try done; [intros q d; congruence|intros; lia]. }
    assert (m1 !! dest = None) as Hnone by (by destruct (m1 !! dest) eqn:?; [destruct Hex|]).
    destruct (put_file m1 dest data) as [m3 [[]|e]] eqn:Ep;
      (eapply put_file_grown in Ep as (Hg3 & Hsub3 & Hb3 & Hof3 & Hok3); [|done..]).
    + intros Hw. apply IH in Hw as (Hg2 & Hsub & Hof & Hok & Hb); [|done]. split_and!; [done|by etrans| | |].
      * intros q d Hq Hq2. destruct (m3 !! q) as [n|] eqn:E3.
        -- pose proof (lookup_weaken _ m2 _ _ E3 Hsub). simplify_eq. destruct (Hof3 q d Hq E3) as [-> ->]. exists raw. split; [left|done].
        -- destruct (Hof q d E3 Hq2) as (raw' & ? & ?). exists raw'. split; [by right|done].
      * intros Hok'. constructor; [|by apply Hok]. exists dest. split_and!; [done|done|]. by rewrite (lookup_weaken _ m2 _ _ (Hok3 eq_refl) Hsub).
      * intros n -> Hle. cbn in Eo. apply Z.ltb_ge in Eo. specialize (Hb n eq_refl Eo). lia.
    + intros [= <- <-]. split_and!; [done|done| |done|].
      * intros q d Hq Hq2. destruct (Hof3 q d Hq Hq2) as [-> ->]. exists raw. split; [left|done].
      * intros n -> Hle. cbn in Eo. apply Z.ltb_ge in Eo. lia.
Qed.
End workspace.

(** ** Replacing the files of a message *)

Section replace.
Context (m : gmap (list (list N)) node) (workspace root : list (list N)).
Definition no_links (m : gmap (list (list N)) node) (root : list (list N)) : Prop := ∀ q t, below root q → m !! q ≠ Some (Link t).
Context (Hroot : resolve m workspace = Some root) (Hdirs : dirs_to m root) (Hno : no_links m root).
Local Abbreviation apipi := (root ++ [APIPI_DIR]).

Lemma real_below q : below root q → real m q.
Proof.
  intros [Hq _] p t Hne Hp. destruct (prefix_weak_total p root q Hp Hq) as [H|H]; [by rewrite Hdirs|].
  destruct (decide (p = root)) as [->|Hn]; [by rewrite Hdirs|]. apply Hno. by split.
Qed.
Lemma apipi_plain : plain apipi.
Proof.
  apply plain_snoc; [by apply resolve_real in Hroot as [_ ?]|]. intros E. by vm_compute in E.
Qed.
Lemma apipi_resolved : resolve m apipi = Some apipi.
Proof. apply resolve_plain; [apply real_below, below_snoc|apply apipi_plain]. Qed.

(** Nothing but what is inside has changed, and no link was made. *)
Record confined (m1 : gmap (list (list N)) node) : Prop := Confined {
  cf_links : same_links m m1; cf_in : ∀ q, m1 !! q ≠ m !! q → inside root apipi q
}.
Lemma confined_refl : confined m.
Proof. split; [apply same_links_refl|done]. Qed.
Definition temp_name (c : list N) : list N := lit "." ++ c ++ lit ".apipi-tmp".
Lemma temp_snoc p c : temp_of (p ++ [c]) = p ++ [temp_name c].
Proof. unfold temp_of. by rewrite parent_snoc, last_snoc. Qed.
Lemma temp_length c : length (temp_name c) = (11 + length c)%nat.
Proof. unfold temp_name. rewrite !length_app. change (length (lit ".apipi-tmp")) with 10%nat. change (length (lit ".")) with 1%nat. lia. Qed.
Lemma temp_inside dest : inside root apipi dest → plain dest → inside root apipi (temp_of dest) ∧ plain (temp_of dest) ∧ temp_of dest ≠ dest.
Proof.
  intros [[Hpre Hne] Ha] Hp. destruct dest as [|c p _] using rev_ind; [apply prefix_nil_inv in Hpre; congruence|].
  rewrite temp_snoc. pose proof (temp_length c) as Hlen.
  assert (root `prefix_of` p) as Hrp by (apply prefix_snoc_inv in Hpre as [E|]; [congruence|done]). split_and!.
  - split; [eapply prefix_below; [done|apply below_snoc]|]. intros [E|H]%prefix_snoc_inv.
    + apply app_inj_tail in E as [_ E]. rewrite <- E in Hlen. vm_compute in Hlen. lia.
    + apply Ha. by apply prefix_app_r.
  - apply plain_snoc; [eapply plain_prefix; [done|by apply prefix_app_r]|]. intros E. rewrite E in Hlen. vm_compute in Hlen. lia.
  - intros E. apply app_inj_tail in E as [_ E]. rewrite E in Hlen. lia.
Qed.

Lemma confined_unlink m1 q : confined m1 → inside root apipi q → confined (unlink m1 q).
Proof.
  intros [Hl Hc] Hq. unfold unlink. destruct (is_dir m1 q); [done|]. split.
  - intros p t. rewrite (Hl p t). destruct (decide (p = q)) as [->|Hn]; [|by rewrite lookup_delete_ne].
    rewrite lookup_delete_eq. split; [|done]. intros E%Hl. by apply Hno in E; [|destruct Hq].
  - intros p. destruct (decide (p = q)) as [->|Hn]; [done|]. rewrite lookup_delete_ne by done. apply Hc.
Qed.
Lemma confined_write m1 q data : confined m1 → inside root apipi q → confined (<[q := Regular data]> m1).
Proof.
  intros [Hl Hc] Hq. split.
  - eapply same_links_trans; [done|]. apply insert_links. intros t E%Hl. by apply Hno in E; [|destruct Hq].
  - intros p. destruct (decide (p = q)) as [->|Hn]; [done|]. rewrite lookup_insert_ne by done. apply Hc.
Qed.

(** One file: a temporary file next to it, and a rename. *)
Definition replace_one (dest : list (list N)) (data : list ascii) : gmap (list (list N)) node * bool :=
  match mkdirs m (parent dest) with
  | Err _ => (unlink m (temp_of dest), false)
  | Ok m =>
      match write_bytes m (temp_of dest) data with
      | Err _ => (unlink m (temp_of dest), false)
      | Ok m => match os_replace m (temp_of dest) dest with Err _ => (unlink m (temp_of dest), false) | Ok m => (m, true) end
      end
  end.
Lemma mkdirs_confined dest m1 : inside root apipi dest → real m dest → mkdirs m (parent dest) = Ok m1 → confined m1.
Proof.
  intros Hin Hr Hm. apply mkdirs_spec in Hm as (Hl & _ & Hm); [|by eapply real_prefix]. split; [done|].
  intros q. rewrite Hm. destruct (decide _) as [([_ Hne] & Hpre & Hnone)|]; [intros _|done].
  eapply (on_the_way m root apipi Hdirs m); [apply grown_refl|exact Hin|congruence| |done]. etrans; [exact Hpre|apply parent_prefix].
Qed.
Lemma replace_one_spec dest data m1 ok :
  inside root apipi dest → plain dest → replace_one dest data = (m1, ok) →
  confined m1 ∧ (ok = true → m1 !! dest = Some (Regular data) ∧ ∀ q d, q ≠ temp_of dest → m !! q = Some (Regular d) → q ≠ dest → m1 !! q = Some (Regular d)).
Proof.
  intros Hin Hp. assert (real m dest) as Hr by (apply real_below; by destruct Hin). destruct (temp_inside dest Hin Hp) as (Htin & Htp & Htne).
  unfold replace_one. destruct (mkdirs m (parent dest)) as [m2|] eqn:Ek; [|intros [= <- <-]; split; [by apply confined_unlink, Htin; apply confined_refl|done]].
  pose proof (mkdirs_confined _ _ Hin Hr Ek) as Hc2. apply mkdirs_spec in Ek as (_ & _ & Hm2); [|by eapply real_prefix].
  destruct (write_bytes m2 (temp_of dest) data) as [m3|] eqn:Ew; [|intros [= <- <-]; split; [by apply confined_unlink|done]].
  apply write_bytes_spec in Ew as (_ & _ & _ & ->); [|eapply same_links_real; [apply Hc2|apply real_below; by destruct Htin]|done].
  unfold os_replace. rewrite lookup_insert_eq. rewrite (bool_decide_eq_false_2 (Regular data = Dir)) by done. rewrite orb_false_r.
  destruct (is_dir _ dest); intros [= <- <-]; [split; [|done]; by apply confined_unlink, Htin; apply confined_write|]. split.
  - apply confined_write; [|done]. assert (base.delete (temp_of dest) (<[temp_of dest := Regular data]> m2) = base.delete (temp_of dest) m2) as ->
      by (apply map_eq; intros q; destruct (decide (q = temp_of dest)) as [->|]; [by rewrite !lookup_delete_eq|by rewrite !lookup_delete_ne, lookup_insert_ne]).
    destruct Hc2 as [Hl Hc]. split.
    + intros p t. rewrite (Hl p t). destruct (decide (p = temp_of dest)) as [->|Hn]; [|by rewrite lookup_delete_ne].
      rewrite lookup_delete_eq. split; [|done]. intros E%Hl. by apply Hno in E; [|destruct Htin].
    + intros p. destruct (decide (p = temp_of dest)) as [->|Hn]; [done|]. rewrite lookup_delete_ne by done. apply Hc.
  - intros _. rewrite lookup_insert_eq. split; [done|]. intros q d Hqt Hq Hqd. rewrite lookup_insert_ne, lookup_delete_ne, lookup_insert_ne, Hm2 by done.
    rewrite decide_False; [done|]. intros (_ & _ & ?). congruence.
Qed.
End replace.

Section confined.
Context (workspace root : list (list N)).
Local Abbreviation apipi := (root ++ [APIPI_DIR]).
(** The workspace is there, and no link is in it. *)
Record ready (m : gmap (list (list N)) node) : Prop := Ready {
  rd_root : resolve m workspace = Some root; rd_dirs : dirs_to m root; rd_links : no_links m root
}.
Lemma confined_ready m m1 : ready m → confined m root m1 → ready m1.
Proof.
  intros [Hr Hd Hn] [Hl Hc]. split.
  - by rewrite (resolve_same m).
  - intros q Hne Hq. destruct (decide (m1 !! q = m !! q)) as [->|[[Hp Hx] _]%Hc]; [by apply Hd|]. by destruct Hx; apply prefix_antisym.
  - intros q t Hq E%Hl. by apply (Hn q t).
Qed.
Lemma confined_trans m m1 m2 : confined m root m1 → confined m1 root m2 → confined m root m2.
Proof.
  intros [Hl1 Hc1] [Hl2 Hc2]. split; [by eapply same_links_trans|]. intros q Hq.
  destruct (decide (m1 !! q = m !! q)) as [E|Hn]; [apply Hc2; by rewrite E|by apply Hc1].
Qed.

Definition kept_file (m m1 : gmap (list (list N)) node) (q : list (list N)) : Prop := ∀ d, m !! q = Some (Regular d) → m1 !! q = Some (Regular d).
(** What of [l] no later one of [paths] writes over stays. *)
Definition last_stays {A} (path_of : A → option (list (list N))) (others : list (list N) → list (list N)) (m : gmap (list (list N)) node) (l : list (A * list ascii)) : Prop :=
  ∀ l1 a data l2, l = l1 ++ (a, data) :: l2 →
    ∃ dest, path_of a = Some dest ∧ inside root apipi dest
      ∧ ((∀ f d', f ∈ l2 → path_of f.1 = Some d' → d' ≠ dest ∧ others d' ≠ dest) → m !! dest = Some (Regular data)).
Lemma last_stays_cons {A} (path_of : A → option (list (list N))) others m a data l dest :
  path_of a = Some dest → inside root apipi dest →
  ((∀ f d', f ∈ l → path_of f.1 = Some d' → d' ≠ dest ∧ others d' ≠ dest) → m !! dest = Some (Regular data)) →
  last_stays path_of others m l → last_stays path_of others m ((a, data) :: l).
Proof.
  intros Hp Hin Hh Ht [|f l1] a' data' l2 E; simplify_eq/=; [exists dest; auto|]. by eapply Ht.
Qed.

Definition path_opt (m : gmap (list (list N)) node) (raw : list N) : option (list (list N)) :=
  match workspace_file_path m workspace raw with Ok p => Some p | Err _ => None end.
Lemma ready_inside m raw dest : ready m → workspace_file_path m workspace raw = Ok dest → inside root apipi dest ∧ plain dest.
Proof.
  intros [Hr Hd Hn] Hp. edestruct (workspace_path_inside m workspace root apipi Hr) as (? & ? & ?); [by eapply apipi_resolved|done|done].
Qed.
Lemma path_opt_same m m1 raw : confined m root m1 → path_opt m1 raw = path_opt m raw.
Proof. intros [Hl _]. unfold path_opt. by rewrite (file_path_same m m1). Qed.

Lemma replace_files_spec m files m' r :
  ready m → replace_workspace_files m workspace files = (m', r) →
  confined m root m' ∧ (r = Ok () → last_stays (path_opt m) temp_of m' files)
  ∧ (r = Ok () → ∀ q, (∀ f d, f ∈ files → path_opt m f.1 = Some d → d ≠ q ∧ temp_of d ≠ q) → kept_file m m' q).
Proof.
  revert m. induction files as [|[raw data] files IH]; intros m Hr; cbn [replace_workspace_files].
  { intros [= <- <-]. split_and!; [apply confined_refl| |by intros _ q _ d]. intros _ [|? ?] ? ? ? E; by simplify_eq/=. }
  destruct (workspace_file_path m workspace raw) as [dest|e] eqn:Ed.
  2: { intros [= <- <-]. split_and!; [apply confined_refl|done..]. }
  destruct (ready_inside m raw dest Hr Ed) as [Hin Hp].
  destruct (replace_one m dest data) as [m1 ok] eqn:Eone.
  destruct (replace_one_spec m root (rd_dirs _ Hr) (rd_links _ Hr) dest data m1 ok Hin Hp Eone) as [Hc1 Hok].
  unfold replace_one in Eone.
  assert (∀ e : exn, ok = false → (m1, Err e) = (m', r) →
    confined m root m' ∧ (r = Ok () → last_stays (path_opt m) temp_of m' ((raw, data) :: files))
    ∧ (r = Ok () → ∀ q, (∀ f d, f ∈ (raw, data) :: files → path_opt m f.1 = Some d → d ≠ q ∧ temp_of d ≠ q) → kept_file m m' q)) as Hfail
    by (intros e _ [= <- <-]; by split).
  destruct (mkdirs m (parent dest)) as [m2|]; [|injection Eone as <- <-; by apply Hfail].
  destruct (write_bytes m2 (temp_of dest) data) as [m3|]; [|injection Eone as <- <-; by apply Hfail].
  destruct (os_replace m3 (temp_of dest) dest) as [m4|]; [|injection Eone as <- <-; by apply Hfail].
  injection Eone as <- <-. destruct (Hok eq_refl) as [Hdest Hkeep]. intros Hrest. apply IH in Hrest as (Hc2 & Hlast & Hkept); [|by eapply confined_ready].
  assert (∀ q (l : list (list N * list ascii)), (∀ f d', f ∈ l → path_opt m f.1 = Some d' → d' ≠ q ∧ temp_of d' ≠ q) →
    ∀ f d', f ∈ l → path_opt m4 f.1 = Some d' → d' ≠ q ∧ temp_of d' ≠ q) as Hsame.
  { intros q l H f d' Hf. rewrite (path_opt_same m m4) by done. by apply H. }
  split_and!; [by eapply confined_trans| |].
  - intros E. eapply last_stays_cons; [unfold path_opt; by rewrite Ed|done| |].
    + intros Hl. apply (Hkept E); [by apply Hsame|done].
    + intros l1 a d l2 El. destruct (Hlast E l1 a d l2 El) as (p & Hpa & Hpi & Hpk). exists p. rewrite <- (path_opt_same m m4) by done.
      split_and!; [done..|]. intros Hl. apply Hpk. by apply Hsame.
  - intros E q Hq d Hd. destruct (Hq (raw, data) dest ltac:(left) ltac:(unfold path_opt; cbn; by rewrite Ed)) as [Hn1 Hn2].
    apply (Hkept E); [apply Hsame; intros f d' Hf; apply Hq; by right|]. by apply Hkeep.
Qed.

(** ** Unpacking what a guest hands back *)

Lemma put_over m dest data m1 r :
  ready m → inside root apipi dest → plain dest → put_file m dest data = (m1, r) →
  confined m root m1 ∧ (r = Ok () → m1 !! dest = Some (Regular data) ∧ ∀ q, q ≠ dest → kept_file m m1 q).
Proof.
  intros [Hroot Hd Hn] Hin Hp. assert (real m dest) as Hr by (eapply real_below; [done..|by destruct Hin]). unfold put_file.
  destruct (mkdirs m (parent dest)) as [m2|] eqn:Ek; [|intros [= <- <-]; split; [apply confined_refl|done]].
  pose proof (mkdirs_confined m root Hd _ _ Hin Hr Ek) as Hc2. apply mkdirs_spec in Ek as (Hl2 & _ & Hm2); [|by eapply real_prefix].
  destruct (write_bytes m2 dest data) as [m3|] eqn:Ew; intros [= <- <-]; [|by split].
  apply write_bytes_spec in Ew as (_ & _ & _ & ->); [|by eapply same_links_real|done].
  split; [by apply confined_write|]. intros _. rewrite lookup_insert_eq. split; [done|]. intros q Hq d Hqd.
  rewrite lookup_insert_ne, Hm2 by done. rewrite decide_False; [done|]. intros (_ & _ & ?). congruence.
Qed.

(** The names of the members are relative and of files outside the own directory. *)
Definition good_name (name : list N) : Prop :=
  parts name ≠ [] ∧ (dotdot ∉ parts name) ∧ head (parts name) ≠ Some APIPI_DIR ∧ is_abs name = false.
Lemma good_inside name : plain root → good_name name → inside root apipi (joinpath root name) ∧ plain (joinpath root name).
Proof.
  unfold joinpath. intros Hp (Hne & Hdd & Hh & ->). destruct (parts name) as [|c l]; [done|]. split.
  - split.
    + split; [by apply prefix_app_r|]. intros E. apply (f_equal length) in E. rewrite length_app in E. cbn in E. lia.
    + intros H. apply prefix_app_inv in H. destruct H as [k E]. by simplify_eq/=.
  - by intros [?|?]%elem_of_app.
Qed.
Definition target_opt (name : list N) : option (list (list N)) := Some (joinpath root name).
Lemma put_members_spec m l m' r :
  ready m → plain root → Forall (λ f, good_name f.1) l → put_members m root l = (m', r) →
  confined m root m' ∧ (r = Ok () → last_stays target_opt id m' l)
  ∧ (r = Ok () → ∀ q, (∀ f, f ∈ l → joinpath root f.1 ≠ q) → kept_file m m' q).
Proof.
  intros Hr Hpl Hall. revert m Hr. induction Hall as [|[name data] l Hname Hall IH]; intros m Hr; cbn [put_members].
  { intros [= <- <-]. split_and!; [apply confined_refl| |by intros _ q _ d]. intros _ [|? ?] ? ? ? E; by simplify_eq/=. }
  destruct (good_inside name Hpl Hname) as [Hin Hp]. destruct (put_file m _ data) as [m1 [[]|e]] eqn:Ep;
    (apply put_over in Ep as [Hc1 Hok]; [|done..]); [|intros [= <- <-]; by split].
  destruct (Hok eq_refl) as [Hdest Hkeep]. intros Hw. apply IH in Hw as (Hc2 & Hlast & Hkept); [|by eapply confined_ready].
  split_and!; [by eapply confined_trans| |].
  - intros E. eapply last_stays_cons; [done|done| |by apply Hlast]. intros Hl. apply (Hkept E); [|done].
    intros f Hf. by destruct (Hl f _ Hf eq_refl).
  - intros E q Hq d Hd. apply (Hkept E); [intros f Hf; apply Hq; by right|]. apply Hkeep; [|done].
    intros ->. by apply (Hq (name, data)); [left|].
Qed.
Lemma members_good tar : Forall (λ i, is_abs (undot (tm_name i)) = false) tar → Forall (λ f, good_name f.1) (workspace_members tar).
Proof.
  intros Hall. apply list.Forall_forall. intros [name data] (i & Hi & H)%list_elem_of_omap. apply (proj1 (list.Forall_forall _ _) Hall) in Hi.
  unfold name_parts in H. cbv zeta in H. rewrite Hi in H. cbn [app] in H.
  destruct (tm_file i), (bool_decide (parts _ ≠ [])) eqn:E1, (bool_decide (dotdot ∈ _)) eqn:E2, (bool_decide (head _ = _)) eqn:E3; try done.
  simplify_eq/=. apply bool_decide_eq_true in E1. apply bool_decide_eq_false in E2, E3. done.
Qed.
End confined.

(** ** The theorems *)

Lemma mkdirs_there m root : dirs_to m root → mkdirs m root = Ok m.
Proof.
  unfold mkdirs. change root with ([] ++ root) at 1. generalize (@nil (list N)) as cur. induction root as [|c root IH]; intros cur Hd; [done|]. cbn [mkdir_from].
  assert (cur ++ c :: root = (cur ++ [c]) ++ root) as E by (by rewrite <- app_assoc). rewrite E in Hd.
  rewrite (Hd (cur ++ [c])); [by apply IH|by destruct cur|by apply prefix_app_r].
Qed.

(** C25: The files of an environment are written below the workspace and outside its own
    directory, whatever their paths are and whatever links the workspace has; nothing
    that was there changes, no link is made, every new file is one of the list under its
    path, together they keep to the limit, and without an error every file is there. *)
Theorem environment_files_contained m workspace root apipi files max m' r :
  resolve m workspace = Some root → resolve m (root ++ [APIPI_DIR]) = Some apipi → dirs_to m root →
  write_inline_files m workspace files max = (m', r) →
  m ⊆ m' ∧ same_links m m' ∧ (∀ q, m !! q = None → m' !! q ≠ None → inside root apipi q)
  ∧ only_from m workspace files m m'
  ∧ (∀ n, max = Some n → 0 ≤ n → tree_bytes m' ≤ tree_bytes m + n)
  ∧ (r = Ok () → Forall (file_there m workspace root apipi m') files).
Proof.
  intros Hroot Hapipi Hd Hw. eapply write_inline_grown in Hw as ([Hl Hs Hin] & _ & Hof & Hok & Hb); [|done..|apply grown_refl].
  split_and!; try done. intros n E Hn. specialize (Hb n E Hn). lia.
Qed.

(** The files of a message replace what the workspace has under their paths: nothing
    outside the workspace or in its own directory changes, as long as no link is in the
    workspace, no link is made, and without an error the last file of every path is there
    whole, unless a later one used its name for a temporary file. *)
Theorem message_files_replaced m workspace root files m' r :
  ready workspace root m → replace_workspace_files m workspace files = (m', r) →
  confined m root m' ∧ (r = Ok () → last_stays root (path_opt workspace m) temp_of m' files)
  ∧ (r = Ok () → ∀ q, (∀ f d, f ∈ files → path_opt workspace m f.1 = Some d → d ≠ q ∧ temp_of d ≠ q) → kept_file m m' q).
Proof. apply replace_files_spec. Qed.

(** The tar a guest hands back, when all its names are relative, changes only what is
    below the workspace and outside its own directory and makes no link; one that is over
    the limit changes nothing; without an error the last member of every name is there. *)
Theorem guest_tar_contained m root tar max m' r :
  ready root root m → plain root → Forall (λ i, is_abs (undot (tm_name i)) = false) tar →
  unpack_workspace_tar m root tar max = (m', r) →
  confined m root m' ∧ (r = Ok () → last_stays root (target_opt root) id m' (workspace_members tar))
  ∧ (over max (dir_bytes m root) || over max (data_bytes (workspace_members tar)) = true → m' = m ∧ r = Err too_large).
Proof.
  intros Hr Hp Hall. unfold unpack_workspace_tar. destruct (over max (dir_bytes m root)); [intros [= <- <-]; split; [apply confined_refl|done]|].
  rewrite mkdirs_there by apply Hr. destruct (over max (data_bytes _)); [intros [= <- <-]; split; [apply confined_refl|done]|].
  intros Hw. eapply put_members_spec in Hw as (? & ? & _); [|done|done|by apply members_good]. by split_and!.
Qed.

(** A member with an absolute name is written where its name says, wherever the
    workspace is. *)
Theorem guest_tar_escapes m dest name data max :
  dirs_to m dest → head name = Some slash_n → parts name ≠ [] → plain (parts name) →
  dirs_to m (parent (parts name)) → is_dir m (parts name) = false → real m (parts name) →
  over max (dir_bytes m dest) = false → over max (Z.of_nat (length data)) = false →
  unpack_workspace_tar m dest [Member name true data] max = (<[parts name := Regular data]> m, Ok ()).
Proof.
  intros Hd Habs Hne Hp Hpd Hnd Hr Ho1 Ho2. unfold unpack_workspace_tar. rewrite Ho1, mkdirs_there by done.
  assert (is_abs name = true) as Ha by (by apply bool_decide_eq_true).
  assert (undot name = name) as Hu.
  { unfold undot. destruct name as [|c name]; [done|]. rewrite decide_False; [done|]. intros E. simplify_eq/=. }
  assert (workspace_members [Member name true data] = [(name, data)]) as ->.
  { unfold workspace_members. cbn [omap list_omap tm_name tm_file tm_data]. rewrite Hu. unfold name_parts. rewrite Ha. cbn [app head andb].
    rewrite (bool_decide_eq_true_2 (_ ≠ _)) by done. rewrite (bool_decide_eq_false_2 (dotdot ∈ _)) by (intros [E|?]%elem_of_cons; [by vm_compute in E|done]).
    by rewrite (bool_decide_eq_false_2 (Some _ = _)) by (intros E; by vm_compute in E). }
  unfold data_bytes. cbn [fmap list_fmap foldr snd]. rewrite Z.add_0_r, Ho2. cbn [put_members]. unfold joinpath. rewrite Ha.
  unfold put_file. rewrite mkdirs_there by done. unfold write_bytes. rewrite resolve_plain, Hnd by done.
  rewrite (bool_decide_eq_false_2 (parts name = [])) by done. cbn [orb].
  assert (is_dir m (parent (parts name)) = true) as ->; [|done].
  apply is_dir_true. destruct (decide (parent (parts name) = [])); [by left|right]. by apply Hpd.
Qed.

(** ** Examples *)

Definition demo_root : list (list N) := [lit "w"].
Definition demo_disk : gmap (list (list N)) node := <[demo_root := Dir]> (<[demo_root ++ [lit "old"] := Regular (chars "o")]> ∅).
Definition linked_disk : gmap (list (list N)) node := <[demo_root ++ [lit "up"] := Link (lit "..")]> demo_disk.
Lemma demo_dirs : dirs_to linked_disk demo_root ∧ dirs_to demo_disk demo_root.
Proof.
  assert (∀ q, q ≠ [] → q `prefix_of` demo_root → q = demo_root) as H.
  { intros [|c [|c' q]] ? Hq; [done| |]; apply prefix_cons_inv_1 in Hq as H1; apply prefix_cons_inv_2 in Hq as H2; subst; [done|by apply prefix_nil_not in H2]. }
  split; intros q Hne Hq; rewrite (H q Hne Hq); by vm_compute.
Qed.
Lemma demo_ready : ready demo_root demo_root demo_disk.
Proof.
  split; [by vm_compute|apply demo_dirs|]. intros q t _ E. unfold demo_disk in E.
  destruct (decide (q = demo_root)) as [->|?]; [by rewrite lookup_insert_eq in E|rewrite lookup_insert_ne in E by done].
  destruct (decide (q = demo_root ++ [lit "old"])) as [->|?]; [by rewrite lookup_insert_eq in E|by rewrite lookup_insert_ne in E by done].
Qed.
Definition demo_files : list (list N * list ascii) := [(lit "/workspace/a/b", chars "1"); (lit "up/w/c", chars "22"); (lit "old", chars "n")].
Lemma environment_files_contained_witness :
  ∃ m', write_inline_files linked_disk demo_root demo_files (Some 3) = (m', Ok ())
    ∧ Forall (file_there linked_disk demo_root demo_root (demo_root ++ [APIPI_DIR]) m') demo_files.
Proof.
  destruct (write_inline_files linked_disk demo_root demo_files (Some 3)) as [m' r] eqn:E.
  assert (r = Ok ()) as -> by (apply (f_equal snd) in E; vm_compute in E; by destruct r as [[]|]).
  exists m'. split; [done|].
  refine (proj2 (proj2 (proj2 (proj2 (proj2 (environment_files_contained linked_disk demo_root demo_root _ demo_files (Some 3) m' (Ok ()) _ _ (proj1 demo_dirs) E))))) eq_refl);
    by vm_compute.
Defined.
Lemma message_files_replaced_witness :
  ∃ m', replace_workspace_files demo_disk demo_root [(lit "old", chars "new")] = (m', Ok ()) ∧ confined demo_disk demo_root m'.
Proof.
  destruct (replace_workspace_files demo_disk demo_root [(lit "old", chars "new")]) as [m' r] eqn:E.
  assert (r = Ok ()) as -> by (apply (f_equal snd) in E; vm_compute in E; by destruct r as [[]|]).
  exists m'. split; [done|]. by refine (proj1 (message_files_replaced _ _ _ _ _ _ demo_ready E)).
Defined.
Definition demo_tar : list member :=
  [Member (lit "./out/x") true (chars "12"); Member (lit ".apipi/setup.sh") true (chars "evil"); Member (lit "a/../../b") true (chars "3"); Member (lit "old") true (chars "4")].
Lemma guest_tar_contained_witness :
  ∃ m', unpack_workspace_tar demo_disk demo_root demo_tar (Some 10) = (m', Ok ()) ∧ confined demo_disk demo_root m'.
Proof.
  destruct (unpack_workspace_tar demo_disk demo_root demo_tar (Some 10)) as [m' r] eqn:E.
  assert (r = Ok ()) as -> by (apply (f_equal snd) in E; vm_compute in E; by destruct r as [[]|]).
  exists m'. split; [done|]. refine (proj1 (guest_tar_contained _ _ _ _ _ _ demo_ready _ _ E)); [by apply (bool_decide_unpack _); vm_compute|].
  by repeat constructor.
Defined.
Lemma guest_tar_escapes_witness :
  unpack_workspace_tar demo_disk demo_root [Member (lit "/key") true (chars "evil")] (Some 10) = (<[[lit "key"] := Regular (chars "evil")]> demo_disk, Ok ()).
Proof.
  refine (guest_tar_escapes demo_disk demo_root (lit "/key") (chars "evil") (Some 10) (proj2 demo_dirs) _ _ _ _ _ _ _ _); try by vm_compute.
  - apply (bool_decide_unpack _). by vm_compute.
  - intros q Hne Hq. by apply prefix_nil_inv in Hq.
  - intros q t Hne Hq. destruct (prefix_snoc_inv q [] (lit "key") Hq) as [->|H]; [by vm_compute|by apply prefix_nil_inv in H].
Defined.
