(* ===== verification/Setup.v ===== *)
(** * What an environment asks for (src/src/apipi/env/setup.py)

    The packages, commands, variables and network of an environment, the shell texts
    made of them, and the policy of the tap that the guest's network goes through. *)

From S2P Require Import Prelude PyStd Db Fleet Blobs Files Inject Fs Workspace.

Open Scope Z_scope.

(** ** Text *)

(** `text.strip()` *)
Definition py_strip (s : string) : string := of_points (strip_points (str_points s)).
(** `host.lower()`, as its code points. *)
Definition lower_points (s : string) : list N := lower_cp <$> str_points s.
Definition is_alnum (c : ascii) : bool := is_digit c || is_upper c || is_lower c.
Definition one_of (chs : string) (c : ascii) : bool := bool_decide (c ∈ chars chs).
(** `_PKG` *)
Definition pkg_ok (l : list ascii) : bool :=
  match l with c :: l => is_alnum c && forallb (λ c, is_alnum c || one_of "._/@+=~:-" c) l | [] => false end.
(** `_ENV_NAME` *)
Definition is_name_char (c : ascii) : bool := is_alnum c || one_of "_" c.
Definition env_name_ok (l : list ascii) : bool :=
  match l with c :: _ => negb (is_digit c) && forallb is_name_char l | [] => false end.
(** A label of `_HOSTNAME`: one to 63 letters and digits, with dashes inside. *)
Definition host_label_ok (l : list ascii) : bool :=
  match l with
  | [] => false
  | c :: _ => is_alnum c && is_alnum (List.last l c) && bool_decide (length l ≤ 63)%nat && forallb (λ c, is_alnum c || one_of "-" c) l
  end.
Definition host_ok (l : list ascii) : bool := bool_decide (length l ≤ 253)%nat && forallb host_label_ok (split_on "." l).

(** ** The parts of an environment *)

(** A field that is missing or null. *)
Definition field (key : string) (j : json) : option json := match jfield key j with Some JNull => None | o => o end.
Definition has_keys (known : list string) (l : list (string * json)) : bool := forallb (λ k, bool_decide (k ∈ known)) l.*1.
Fixpoint names_of (l : list json) : res exn (list string) :=
  match l with
  | [] => Ok []
  | JStr s :: l =>
      let name := py_strip s in
      if bool_decide (name = ""%string) || negb (pkg_ok (chars name)) then Err setup_error else rest ← names_of l; Ok (name :: rest)
  | _ :: _ => Err setup_error
  end.
(** `_names` *)
Definition names (o : option json) : res exn (list string) :=
  match o with None => Ok [] | Some (JArr l) => names_of l | Some _ => Err setup_error end.
Record packages : Type := Packages { pk_python : list string; pk_system : list string; pk_npm : list string }.
Definition packages_empty (p : packages) : bool := bool_decide (pk_python p = [] ∧ pk_system p = [] ∧ pk_npm p = []).
Definition packages_from (env : json) : res exn packages :=
  match field "packages" env with
  | None => Ok (Packages [] [] [])
  | Some (JObj l) =>
      if negb (has_keys ["python"; "system"; "npm"]%string l) then Err setup_error
      else python ← names (field "python" (JObj l)); system ← names (field "system" (JObj l)); npm ← names (field "npm" (JObj l));
           Ok (Packages python system npm)
  | Some _ => Err setup_error
  end.
Record setup_command : Type := SetupCommand { sc_command : string; sc_cwd : option string }.
Fixpoint commands_of (l : list json) : res exn (list setup_command) :=
  match l with
  | [] => Ok []
  | JObj item :: l =>
      match jget "command" item with
      | Some (JStr command) =>
          if decide (py_strip command = ""%string) then Err setup_error
          else
            cwd ← match field "cwd" (JObj item) with None => Ok None | Some (JStr s) => Ok (Some s) | Some _ => Err setup_error end;
            if negb (has_keys ["command"; "cwd"]%string item) then Err setup_error
            else rest ← commands_of l; Ok (SetupCommand command cwd :: rest)
      | _ => Err setup_error
      end
  | _ :: _ => Err setup_error
  end.
Definition setup_commands_from (env : json) : res exn (list setup_command) :=
  match field "setup_commands" env with None => Ok [] | Some (JArr l) => commands_of l | Some _ => Err setup_error end.
Definition RESERVED_ENV : list string :=
  ["PATH"; "HOME"; "USER"; "SHELL"; "PWD"; "LD_LIBRARY_PATH"; "LD_PRELOAD"; "OPENAI_API_KEY"; "OPENAI_BASE_URL"; "DATABASE_URL";
   "PI_CODING_AGENT_DIR"]%string.
Definition RESERVED_ENV_PREFIXES : list string := ["APIPI_"; "CODEX_"; "PI_"; "GIT_CONFIG_"]%string.
Definition reserved_env_name (name : string) : bool :=
  bool_decide (name ∈ RESERVED_ENV) || existsb (λ p, startswith (chars p) (chars name)) RESERVED_ENV_PREFIXES.
Fixpoint env_of (l : list (string * json)) : res exn (list (string * string)) :=
  match l with
  | [] => Ok []
  | (key, value) :: l =>
      if negb (env_name_ok (chars key)) then Err setup_error
      else if reserved_env_name key then Err setup_error
      else match value with JStr v => rest ← env_of l; Ok ((key, v) :: rest) | _ => Err setup_error end
  end.
Definition session_env_from (env : json) : res exn (list (string * string)) :=
  match field "env" env with None => Ok [] | Some (JObj l) => env_of l | Some _ => Err setup_error end.

(** ** The network *)

Record network_policy : Type := NetworkPolicy { np_access : string; np_domains : list string }.
Definition MAX_NETWORK_HOSTS : nat := 100.
Fixpoint domains_of (seen : list (list N)) (l : list json) : res exn (list string) :=
  match l with
  | [] => Ok []
  | JStr s :: l =>
      let host := py_strip s in
      if bool_decide (host = ""%string) || negb (host_ok (chars host)) then Err setup_error
      else if decide (lower_points host ∈ seen) then domains_of seen l
      else rest ← domains_of (lower_points host :: seen) l; Ok (host :: rest)
  | _ :: _ => Err setup_error
  end.
(** An access that is a list or an object is not hashable: a `TypeError`. *)
Definition access_of (o : option json) : res exn string :=
  match o with
  | Some (JStr s) => if decide (s ∈ ["enabled"; "disabled"; "restricted"]%string) then Ok s else Err setup_error
  | Some (JArr _) | Some (JObj _) => Err ValueExn
  | _ => Err setup_error
  end.
Definition policy_of (l : list (string * json)) : res exn network_policy :=
  if negb (has_keys ["access"; "allowed_domains"]%string l) then Err setup_error
  else
    access ← access_of (jget "access" l);
    let domains := field "allowed_domains" (JObj l) in
    if decide (access = "restricted"%string) then
      match domains with
      | Some (JArr ((_ :: _) as hosts)) =>
          if decide (MAX_NETWORK_HOSTS < length hosts)%nat then Err setup_error
          else hosts ← domains_of [] hosts; Ok (NetworkPolicy "restricted" hosts)
      | _ => Err setup_error
      end
    else if decide (domains = None) then Ok (NetworkPolicy access []) else Err setup_error.
Definition session_network_from (env : json) : res exn (option network_policy) :=
  match field "network" env with
  | None => Ok None
  | Some (JObj l) => p ← policy_of l; Ok (Some p)
  | Some _ => Err setup_error
  end.
(** The object that `write_network_policy` stores. *)
Definition network_payload (p : network_policy) : list (string * json) :=
  ("access"%string, JStr (np_access p))
  :: (if decide (np_domains p = []) then [] else [("allowed_domains"%string, JArr (JStr <$> np_domains p))]).

Record tap_policy : Type := TapPolicy { tap_mode : string; tap_hosts : list string }.
(** `_unique_hosts` *)
Fixpoint unique_from (seen : list (list N)) (hosts : list string) : list string :=
  match hosts with
  | [] => []
  | h :: hosts => if decide (lower_points h ∈ seen) then unique_from seen hosts else h :: unique_from (lower_points h :: seen) hosts
  end.
Definition unique_hosts (hosts : list string) : list string := unique_from [] hosts.
Definition all_in (floor : list (list N)) (hosts : list string) : bool := forallb (λ h, bool_decide (lower_points h ∈ floor)) hosts.
Definition tap_policy_from (policy : option network_policy) (gateway_allowlist : bool) (gateway_hosts extra_hosts credential_hosts : list string)
    : res exn tap_policy :=
  let floor := lower_points <$> (gateway_hosts ++ extra_hosts) in
  if gateway_allowlist && negb (all_in floor credential_hosts) then Err setup_error
  else
    let open := Ok (if gateway_allowlist then TapPolicy "restricted" (unique_hosts (gateway_hosts ++ extra_hosts)) else TapPolicy "enabled" []) in
    match policy with
    | None => open
    | Some p =>
        if decide (np_access p = "enabled"%string) then open
        else if decide (np_access p = "disabled"%string) then
          if decide (credential_hosts = []) then Ok (TapPolicy "disabled" []) else Err setup_error
        else if gateway_allowlist && negb (all_in floor (np_domains p)) then Err setup_error
        else Ok (TapPolicy "restricted" (unique_hosts (np_domains p ++ extra_hosts ++ credential_hosts)))
    end.

Definition PYPI_HOSTS : list string := ["pypi.org"; "files.pythonhosted.org"; "pypi.python.org"]%string.
Definition NPM_HOSTS : list string := ["registry.npmjs.org"; "registry.npmjs.com"]%string.
Definition DEBIAN_HOSTS : list string := ["deb.debian.org"; "security.debian.org"]%string.
Definition hosts_of_packages (p : packages) : list string :=
  unique_hosts ((if decide (pk_python p = []) then [] else PYPI_HOSTS) ++ (if decide (pk_npm p = []) then [] else NPM_HOSTS)
    ++ (if decide (pk_system p = []) then [] else DEBIAN_HOSTS)).
Definition package_egress_hosts (env : json) : res exn (list string) := p ← packages_from env; Ok (hosts_of_packages p).

(** ** Texts for the shell *)

Definition squote : ascii := char 39.
Definition dquote : ascii := char 34.
Definition newline : ascii := char 10.
Definition sh_safe (c : ascii) : bool := is_alnum c || one_of "_@%+=:,./-" c.
(** `shlex.quote` *)
Definition shlex_quote (l : list ascii) : list ascii :=
  if decide (l = []) then [squote; squote]
  else if forallb sh_safe l then l
  else squote :: mjoin ((λ c, if decide (c = squote) then [squote; dquote; squote; dquote; squote] else [c]) <$> l) ++ [squote].
(** `"\n".join(lines) + "\n"` *)
Definition text_of (lines : list (list ascii)) : list ascii := mjoin ((λ l, l ++ [newline]) <$> lines).
Definition user_env_text (values : list (string * string)) : list ascii :=
  text_of ((λ p, chars p.1 ++ chars "=" ++ shlex_quote (chars p.2)) <$> values).

(** A line of the script, with a backquote for every double quote. *)
Definition sh (s : string) : list ascii := (λ c, if decide (c = "`"%char) then dquote else c) <$> chars s.
Definition quoted_names (l : list string) : list ascii := join (chars " ") ((λ n, shlex_quote (chars n)) <$> l).
Definition python_lines (names : list string) : list (list ascii) :=
  if decide (names = []) then []
  else [sh "VENV=`$ROOT/.venv`"; sh "if command -v uv >/dev/null 2>&1; then"; sh "  uv venv --system-site-packages `$VENV`";
        sh "  uv pip install --python `$VENV/bin/python` " ++ quoted_names names;
        sh "elif python3 -m pip --version >/dev/null 2>&1; then"; sh "  if ! python3 -m venv --system-site-packages `$VENV`; then";
        sh "    rm -rf `$VENV`"; sh "    python3 -m venv --system-site-packages --without-pip `$VENV`"; sh "  fi";
        sh "  `$VENV/bin/python` -m pip install --break-system-packages " ++ quoted_names names; sh "else";
        sh "  echo `python package install needs uv or pip` >&2"; sh "  exit 1"; sh "fi"; sh "export PATH=`$VENV/bin:$PATH`"].
Definition system_lines (names : list string) : list (list ascii) :=
  if decide (names = []) then []
  else [sh "if ! command -v apt-get >/dev/null 2>&1; then"; sh "  echo `system package install needs apt-get` >&2"; sh "  exit 1"; sh "fi";
        sh "export DEBIAN_FRONTEND=noninteractive"; sh "apt-get update";
        sh "apt-get install -y --no-install-recommends " ++ quoted_names names].
Definition npm_lines (names : list string) : list (list ascii) :=
  if decide (names = []) then []
  else [sh "if ! command -v npm >/dev/null 2>&1; then"; sh "  echo `npm package install needs npm` >&2"; sh "  exit 1"; sh "fi";
        sh "NPM_PREFIX=`$ROOT/.npm`"; sh "mkdir -p `$NPM_PREFIX`"; sh "npm install -g --prefix `$NPM_PREFIX` " ++ quoted_names names;
        sh "export PATH=`$NPM_PREFIX/bin:$PATH`"].
(** `dest.relative_to(root).as_posix()`, as bytes. *)
Definition relative_text (root dest : list (list N)) : list ascii := chars (of_points (join [slash_n] (drop (length root) dest))).
Definition target_of (root dest : list (list N)) : list ascii :=
  let rel := relative_text root dest in if decide (rel = []) then chars "$ROOT" else chars "$ROOT/" ++ shlex_quote rel.
Definition command_line (target : list ascii) (command : string) : list ascii :=
  chars "( cd " ++ target ++ chars " && sh -c " ++ shlex_quote (chars command) ++ chars " )".
Fixpoint command_lines (m : gmap (list (list N)) node) (workspace root : list (list N)) (l : list setup_command) : res exn (list (list ascii)) :=
  match l with
  | [] => Ok []
  | item :: l =>
      dest ← resolve_setup_cwd m workspace (str_points <$> sc_cwd item);
      let target := target_of root dest in
      rest ← command_lines m workspace root l;
      Ok ((chars "mkdir -p " ++ target) :: command_line target (sc_command item) :: rest)
  end.
Definition script_head : list (list ascii) :=
  [sh "#!/bin/sh"; sh "set -e"; sh "ROOT=$(pwd)"; sh "if [ -f `$ROOT/.apipi/user.env` ]; then"; sh "  set -a"; sh "  . `$ROOT/.apipi/user.env`";
   sh "  set +a"; sh "fi"].
Definition render_setup_script (m : gmap (list (list N)) node) (workspace : list (list N)) (p : packages) (commands : list setup_command)
    : res exn (list ascii) :=
  match commands with
  | [] => Ok (text_of (script_head ++ python_lines (pk_python p) ++ system_lines (pk_system p) ++ npm_lines (pk_npm p)))
  | _ =>
      root ← resolved m workspace;
      lines ← command_lines m workspace root commands;
      Ok (text_of (script_head ++ python_lines (pk_python p) ++ system_lines (pk_system p) ++ npm_lines (pk_npm p) ++ lines))
  end.

(** ** Preparing a workspace *)

(** The calls that change the disk, one after another; an error ends them. *)
Abbreviation done_on := (gmap (list (list N)) node * res exn unit)%type (only parsing).
Definition run (m : gmap (list (list N)) node) (r : res exn (gmap (list (list N)) node)) : done_on :=
  match r with Ok m => (m, Ok ()) | Err e => (m, Err e) end.
Definition andthen (p : done_on) (k : gmap (list (list N)) node → done_on) : done_on :=
  match p with (m, Ok _) => k m | (m, Err e) => (m, Err e) end.
Definition tryres {A : Type} (m : gmap (list (list N)) node) (r : res exn A) (k : A → done_on) : done_on :=
  match r with Ok a => k a | Err e => (m, Err e) end.

Section prepare.
(** `json.dumps` and `json.loads`, of the standard library, and base64. *)
Context (json_text : json → list ascii) (json_loads : list ascii → option json) (b64decode : string → option (list ascii)).

Definition USER_ENV_FILE : list (list N) := [APIPI_DIR; lit "user.env"].
Definition NETWORK_FILE : list (list N) := [APIPI_DIR; lit "network"].
Definition SETUP_SCRIPT : list (list N) := [APIPI_DIR; lit "setup.sh"].
Definition EGRESS_HOSTS_FILE : list (list N) := [APIPI_DIR; lit "egress-hosts"].
(** `if path.exists(): path.unlink()` *)
Definition unlink_if (m : gmap (list (list N)) node) (p : list (list N)) : done_on :=
  if path_exists m p then if is_dir m p then (m, Err os_error) else (base.delete p m, Ok ()) else (m, Ok ()).
Definition write_user_env (m : gmap (list (list N)) node) (workspace : list (list N)) (values : list (string * string)) : done_on :=
  let path := workspace ++ USER_ENV_FILE in
  match values with
  | [] => unlink_if m path
  | _ => andthen (run m (mkdirs m (parent path))) (λ m, run m (write_bytes m path (user_env_text values)))
  end.
Definition write_network_policy (m : gmap (list (list N)) node) (workspace : list (list N)) (policy : option network_policy) : done_on :=
  let path := workspace ++ NETWORK_FILE in
  match policy with
  | None => unlink_if m path
  | Some p => andthen (run m (mkdirs m (parent path))) (λ m, run m (write_bytes m path (json_text (JObj (network_payload p)) ++ [newline])))
  end.
Definition write_egress_hosts (m : gmap (list (list N)) node) (workspace : list (list N)) (hosts : list string) : done_on :=
  let path := workspace ++ EGRESS_HOSTS_FILE in
  match hosts with [] => unlink_if m path | _ => run m (write_bytes m path (text_of (chars <$> hosts))) end.
Definition hosted (env : json) : bool := bool_decide (jstr (jfield "type" env) = Some "openai_hosted"%string).
Definition prepare_workspace (m : gmap (list (list N)) node) (workspace : list (list N)) (env : json) (max_bytes : option Z)
    (extra_files : list (list N * list ascii)) : done_on :=
  if negb (hosted env) then (m, Ok ())
  else
    andthen (run m (mkdirs m workspace)) (λ m,
    andthen (run m (mkdirs m (workspace ++ [lit "inputs"]))) (λ m,
    tryres m (session_env_from env) (λ values,
    tryres m (inline_files_from b64decode env) (λ inline,
    let files := inline ++ extra_files in
    tryres m (packages_from env) (λ packages,
    tryres m (setup_commands_from env) (λ commands,
    tryres m (session_network_from env) (λ policy,
    if packages_empty packages && bool_decide (length commands = 0%nat) && bool_decide (values = []) && bool_decide (length files = 0%nat)
       && match policy with None => true | Some _ => false end
    then (m, Ok ())
    else
      andthen (run m (mkdirs m (workspace ++ [APIPI_DIR]))) (λ m,
      andthen (write_inline_files m workspace files max_bytes) (λ m,
      andthen (write_user_env m workspace values) (λ m,
      andthen (write_network_policy m workspace policy) (λ m,
      if packages_empty packages && bool_decide (length commands = 0%nat) then (m, Ok ())
      else
        tryres m (render_setup_script m workspace packages commands) (λ script,
        andthen (run m (write_bytes m (workspace ++ SETUP_SCRIPT) script)) (λ m,
        write_egress_hosts m workspace (hosts_of_packages packages)))))))))))))).

(** What a boot reads back. *)
Definition file_data (m : gmap (list (list N)) node) (p : list (list N)) : option (list ascii) :=
  match node_at m p with Some (Regular data) => Some data | _ => None end.
Definition workspace_network_policy (m : gmap (list (list N)) node) (workspace : list (list N)) : res exn (option network_policy) :=
  match file_data m (workspace ++ NETWORK_FILE) with
  | None => Ok None
  | Some data =>
      match json_loads data with
      | Some (JObj raw) => session_network_from (JObj [("network"%string, JObj raw)])
      | _ => Err setup_error
      end
  end.
(** `read_text().splitlines()`, of a text of hosts. *)
Definition workspace_egress_hosts (m : gmap (list (list N)) node) (workspace : list (list N)) : list string :=
  match file_data m (workspace ++ EGRESS_HOSTS_FILE) with
  | None => []
  | Some data => filter (λ h, h ≠ ""%string) ((λ l, py_strip (of_chars l)) <$> split_on newline data)
  end.
(** The policy of the tap a guest is started with (worker/pi/microvm.py). *)
Definition boot_tap (m : gmap (list (list N)) node) (workspace : list (list N)) (gateway_allowlist : bool) (gateway_hosts credential_hosts : list string)
    : res exn tap_policy :=
  let extra := workspace_egress_hosts m workspace in
  policy ← workspace_network_policy m workspace;
  tap_policy_from policy gateway_allowlist gateway_hosts extra credential_hosts.

(** `provision_hosted`, up to the setup it runs on a host without isolation. *)
Definition provision_hosted (m : gmap (list (list N)) node) (workspace : list (list N)) (env : json) (run_mode : string) (max_bytes : option Z)
    (gateway_allowlist : bool) (gateway_hosts : list string) (extra_files : list (list N * list ascii)) : done_on :=
  tryres m (packages_from env) (λ packages,
  if bool_decide (run_mode = "microvm"%string) && hosted env && negb (bool_decide (pk_system packages = [])) then (m, Err setup_error)
  else
    andthen (prepare_workspace m workspace env max_bytes extra_files) (λ m,
    tryres m (session_network_from env) (λ policy,
    match policy with
    | Some p =>
        if bool_decide (np_access p ∈ ["disabled"; "restricted"]%string) then
          if decide (run_mode = "none"%string) then (m, Err setup_error)
          else tryres m (tap_policy_from (Some p) gateway_allowlist gateway_hosts (hosts_of_packages packages) []) (λ _, (m, Ok ()))
        else (m, Ok ())
    | None => (m, Ok ())
    end))).
End prepare.

(** ** What a shell reads

    The words of a text in the part of the shell's grammar that quoting stays in: plain
    characters, single quotes, and double quotes without expansions.  Everything else, and
    a NUL, has no reading here. *)
Inductive quoting : Set := Bare | Single | Double.
Definition is_blank (c : ascii) : bool := bool_decide (c ∈ [char 32; char 9; char 10]).
Fixpoint sh_word (q : quoting) (l : list ascii) : option (list ascii * list ascii) :=
  match l with
  | [] => match q with Bare => Some ([], []) | _ => None end
  | c :: l' =>
      let plain := '(w, r) ← sh_word q l'; Some (c :: w, r) in
      if decide (c = char 0) then None
      else match q with
      | Bare =>
          if decide (c = squote) then sh_word Single l' else if decide (c = dquote) then sh_word Double l'
          else if is_blank c then Some ([], l) else if sh_safe c then plain else None
      | Single => if decide (c = squote) then sh_word Bare l' else plain
      | Double => if decide (c = dquote) then sh_word Bare l' else if one_of "$`\" c then None else plain
      end
  end.
(** A file of assignments, as `.` reads it. *)
Fixpoint sh_assignments (fuel : nat) (l : list ascii) : option (list (string * string)) :=
  match fuel, l with
  | _, [] => Some []
  | O, _ => None
  | S fuel, _ =>
      let name := take_while is_name_char l in
      match drop_while is_name_char l with
      | c :: l =>
          if decide (env_name_ok name = true ∧ c = "="%char) then
            '(w, r) ← sh_word Bare l;
            match r with
            | c :: r => if decide (c = newline) then rest ← sh_assignments fuel r; Some ((of_chars name, of_chars w) :: rest) else None
            | [] => None
            end
          else None
      | [] => None
      end
  end.
