(* ===== verification/SetupProps.v ===== *)
(** * What an environment's network and variables come to

    The hosts a guest can reach are those of its environment, within what the operator
    allows; the shell reads the texts made of an environment as what it asked for; and a
    boot reads back from the workspace the network its environment has. *)

From S2P Require Import Prelude PyStd Db Fleet Blobs Files SecretMask Inject Netguard Dns Sni Egress Fs Workspace WorkspaceProps Setup.
From Stdlib Require Import ZifyBool.

Open Scope Z_scope.

(** ** Hosts *)

Lemma drop_while_fmap {A} (f : A → A) P l : (∀ x, P (f x) = P x) → f <$> drop_while P l = drop_while P (f <$> l).
Proof. intros H. induction l as [|x l IH]; [done|]. cbn [drop_while fmap list_fmap]. rewrite H. by destruct (P x). Qed.
Lemma rdrop_while_fmap {A} (f : A → A) P l : (∀ x, P (f x) = P x) → f <$> rdrop_while P l = rdrop_while P (f <$> l).
Proof.
  intros H. assert (∀ k, f <$> rev k = rev (f <$> k)) as Hr by (intros k; exact (map_rev f k)).
  unfold rdrop_while. by rewrite Hr, drop_while_fmap, Hr.
Qed.
Lemma lower_dot n : is_dot (lower_cp n) = is_dot n.
Proof. unfold is_dot, lower_cp. destruct (_ || _) eqn:E; [|done]. lia. Qed.
Lemma lower_space n : is_space_cp (lower_cp n) = is_space_cp n.
Proof. unfold lower_cp. destruct (_ || _) eqn:E; [|done]. unfold is_space_cp. lia. Qed.
Lemma norm_host_lower a b : lower_points a = lower_points b → norm_host a = norm_host b.
Proof.
  intros H. assert (∀ s, norm_host s = of_points (rdrop_while is_dot (strip_points (lower_points s)))) as Hn; [|by rewrite !Hn, H].
  intros s. unfold norm_host, strip_points, lower_points. rewrite (rdrop_while_fmap _ _ _ lower_dot), (rdrop_while_fmap _ _ _ lower_space).
  by rewrite (drop_while_fmap _ _ _ lower_space).
Qed.
Lemma unique_from_in seen l h : h ∈ unique_from seen l → h ∈ l.
Proof.
  revert seen. induction l as [|x l IH]; intros seen; cbn [unique_from]; [done|]. case_decide; [intros ?%IH; by right|].
  intros [->|Hh]%elem_of_cons; [left|right; by eapply IH].
Qed.
Lemma all_in_spec floor hosts : all_in floor hosts = true → ∀ h, h ∈ hosts → lower_points h ∈ floor.
Proof. unfold all_in. rewrite forallb_forall. intros H h Hh%list_elem_of_In. by apply H, bool_decide_eq_true in Hh. Qed.
(** A host of [floor], up to its case. *)
Lemma floor_norm (floor : list string) h : lower_points h ∈ lower_points <$> floor → norm_host h ∈ norm_host <$> floor.
Proof. intros (x & E & Hx)%list_elem_of_fmap. rewrite (norm_host_lower _ _ E). by apply list_elem_of_fmap_2. Qed.

(** ** The shell *)

Definition quote_body (l : list ascii) : list ascii :=
  mjoin ((λ c, if decide (c = squote) then [squote; dquote; squote; dquote; squote] else [c]) <$> l).
Lemma sh_single_step c l : c ≠ char 0 → c ≠ squote → sh_word Single (c :: l) = '(w, r) ← sh_word Single l; Some (c :: w, r).
Proof. intros H0 H1. cbn [sh_word]. by rewrite decide_False, decide_False. Qed.
Lemma sh_quoted l rest : (char 0 ∉ l) → sh_word Single (quote_body l ++ squote :: rest) = '(w, r) ← sh_word Bare rest; Some (l ++ w, r).
Proof.
  unfold quote_body. induction l as [|x l IH]; intros H0.
  - change (sh_word Bare rest = '(w, r) ← sh_word Bare rest; Some ([] ++ w, r)). destruct (sh_word Bare rest) as [[w r]|]; done.
  - apply not_elem_of_cons in H0 as [Hx H0]. specialize (IH H0). cbn [fmap list_fmap mjoin list_join]. rewrite <- app_assoc.
    set (tail := mjoin _ ++ squote :: rest) in *. destruct (decide (x = squote)) as [->|Hn].
    + change (sh_word Single ([squote; dquote; squote; dquote; squote] ++ tail)) with ('(w, r) ← sh_word Single tail; Some (squote :: w, r)).
      rewrite IH. by destruct (sh_word Bare rest) as [[w r]|].
    + cbn [app]. rewrite sh_single_step, IH by done. by destruct (sh_word Bare rest) as [[w r]|].
Qed.
(** Where a word ends. *)
Definition word_end (rest : list ascii) : Prop := match rest with [] => True | c :: _ => is_blank c = true end.
Lemma sh_end rest : word_end rest → sh_word Bare rest = Some ([], rest).
Proof.
  destruct rest as [|c l]; [done|]. cbn [word_end sh_word]. intros Hc. apply bool_decide_eq_true in Hc as Hin.
  rewrite !decide_False; [by rewrite Hc| | |]; intros ->; by vm_compute in Hc.
Qed.
Lemma sh_plain l rest : forallb sh_safe l = true → word_end rest → sh_word Bare (l ++ rest) = Some (l, rest).
Proof.
  intros Hl Hr. induction l as [|c l IH]; [by apply sh_end|]. cbn [forallb] in Hl. apply andb_true_iff in Hl as [Hc Hl]. cbn [app sh_word].
  assert (c ≠ char 0 ∧ c ≠ squote ∧ c ≠ dquote ∧ is_blank c = false) as (H0 & H1 & H2 & H3).
  { split_and!; [by intros ->; vm_compute in Hc..|]. apply bool_decide_eq_false. rewrite !elem_of_cons. intros [->|[->|[->|H]]]; [by vm_compute in Hc..|].
    by apply elem_of_nil in H. }
  rewrite !decide_False by done. by rewrite H3, Hc, IH.
Qed.
(** A quoted text is read back whole, as one word. *)
Lemma sh_word_quote l rest : (char 0 ∉ l) → word_end rest → sh_word Bare (shlex_quote l ++ rest) = Some (l, rest).
Proof.
  intros H0 Hr. unfold shlex_quote. case_decide as Hl.
  - subst l. change (sh_word Bare ([squote; squote] ++ rest)) with (sh_word Bare rest). by apply sh_end.
  - destruct (forallb sh_safe l) eqn:Hs; [by apply sh_plain|]. fold (quote_body l). rewrite <- app_comm_cons, <- app_assoc.
    change (sh_word Bare (squote :: ?k)) with (sh_word Single k). cbn [app].
    pose proof (sh_quoted l rest H0) as Hq. rewrite sh_end in Hq by done. cbn [mbind option_bind] in Hq. by rewrite app_nil_r in Hq.
Qed.

Lemma name_read name rest : env_name_ok name = true → (match rest with c :: _ => is_name_char c = false | [] => True end) →
  take_while is_name_char (name ++ rest) = name ∧ drop_while is_name_char (name ++ rest) = rest.
Proof.
  intros Hn Hr. assert (forallb is_name_char name = true) as Hall.
  { unfold env_name_ok in Hn. destruct name; [done|]. by apply andb_true_iff in Hn as [_ ?]. }
  clear Hn. induction name as [|c name IH].
  - destruct rest as [|c rest]; [done|]. cbn. by rewrite Hr.
  - cbn [forallb] in Hall. apply andb_true_iff in Hall as [Hc Hall]. cbn [app take_while drop_while]. rewrite Hc. destruct (IH Hall) as [-> ->]. done.
Qed.
Lemma assignments_read values fuel :
  (length values ≤ fuel)%nat → Forall (λ p : string * string, env_name_ok (chars p.1) = true ∧ (char 0 ∉ chars p.2)) values →
  sh_assignments fuel (user_env_text values) = Some values.
Proof.
  intros Hf Hall. revert fuel Hf. induction Hall as [|[k v] values [Hk Hv] Hall IH]; intros fuel Hf; [by destruct fuel|].
  destruct fuel as [|fuel]; [cbn in Hf; lia|].
  assert (user_env_text ((k, v) :: values) = chars k ++ "="%char :: shlex_quote (chars v) ++ newline :: user_env_text values) as ->.
  { unfold user_env_text, text_of. cbn [fmap list_fmap mjoin list_join fst snd]. by rewrite <- !app_assoc. }
  cbn [fst snd] in *. destruct (name_read (chars k) ("="%char :: shlex_quote (chars v) ++ newline :: user_env_text values) Hk eq_refl) as [Ht Hd].
  cbn [sh_assignments]. destruct (chars k ++ _) as [|c0 l0] eqn:E; [by destruct (chars k)|]. rewrite Ht, Hd, decide_True by done.
  rewrite sh_word_quote by done. cbn [mbind option_bind]. rewrite decide_True, IH by (done || cbn in Hf; lia). cbn [mbind option_bind].
  by rewrite !of_chars_chars.
Qed.
Lemma env_of_ok l values : env_of l = Ok values → Forall (λ p : string * string, env_name_ok (chars p.1) = true ∧ reserved_env_name p.1 = false) values.
Proof.
  revert values. induction l as [|[k j] l IH]; intros values; cbn [env_of]; [by intros [= <-]|].
  destruct (env_name_ok (chars k)) eqn:Ek; [|done]. destruct (reserved_env_name k) eqn:Er; [done|]. cbn [negb]. destruct j; try done.
  destruct (env_of l) as [rest|]; [|done]. intros [= <-]. constructor; [done|]. by apply IH.
Qed.

(** ** Policies that are written and read back *)

Definition is_ascii (c : ascii) : Prop := (code c < 128)%N.
Lemma str_points_ascii s : Forall is_ascii (chars s) → str_points s = code <$> chars s.
Proof.
  intros H. unfold str_points. assert (length (chars s) ≤ String.length s)%nat as Hl.
  { clear. induction s as [|c s IH]; cbn; [lia|]. unfold chars in IH. lia. }
  revert Hl. generalize (String.length s) as f. induction H as [|c l Hc H IH]; intros [|f] Hf; try done; [cbn in Hf; lia|].
  cbn [code_points]. unfold is_ascii in Hc. apply N.ltb_lt in Hc. rewrite Hc. cbn [fmap list_fmap]. f_equal. apply IH. cbn in Hf. lia.
Qed.
Lemma of_points_ascii l : Forall is_ascii l → of_points (code <$> l) = of_chars l.
Proof.
  intros H. unfold of_points. f_equal. induction H as [|c l Hc H IH]; [done|]. cbn [fmap list_fmap mjoin list_join]. fold (code <$> l).
  unfold utf8 at 1. unfold is_ascii in Hc. apply N.ltb_lt in Hc. rewrite Hc. unfold char at 1, code at 1. rewrite ascii_N_embedding. cbn [app]. by f_equal.
Qed.
Lemma strip_none l : Forall (λ n, is_space_cp n = false) l → strip_points l = l.
Proof.
  intros H. unfold strip_points, rdrop_while. rewrite (drop_while_none _ l) by done. rewrite drop_while_none; [apply rev_involutive|].
  by apply list.Forall_forall; intros x Hx%list_elem_of_In%in_rev; apply (proj1 (list.Forall_forall _ _) H), list_elem_of_In.
Qed.
Definition host_char (c : ascii) : bool := is_alnum c || one_of "-" c || one_of "." c.
Lemma host_char_ok c : host_char c = true → is_ascii c ∧ is_space_cp (code c) = false.
Proof.
  intros Hc. assert (45 ≤ code c ∧ code c < 128)%N as [H1 H2]; [|split; [done|unfold is_space_cp; lia]].
  unfold host_char, is_alnum, is_digit, is_upper, is_lower, one_of in Hc. rewrite !orb_true_iff, !bool_decide_eq_true in Hc.
  destruct Hc as [[Hc|[->|H]%elem_of_cons]|[->|H]%elem_of_cons]; [lia|by vm_compute|by apply elem_of_nil in H|by vm_compute|by apply elem_of_nil in H].
Qed.
Lemma host_ok_chars l : host_ok l = true → Forall (λ c, host_char c = true) l.
Proof.
  unfold host_ok. intros [_ H]%andb_true_iff. rewrite <- (join_split_on "." l). revert H. generalize (split_on "." l) as ps.
  induction ps as [|p ps IH]; [constructor|]. cbn [forallb]. intros [Hp Hps]%andb_true_iff. specialize (IH Hps).
  assert (Forall (λ c, host_char c = true) p) as Hpp.
  { unfold host_label_ok in Hp. destruct p; [done|]. apply andb_true_iff in Hp as [_ Hp]. apply list.Forall_forall. intros c Hc%list_elem_of_In.
    apply (proj1 (forallb_forall _ _) Hp) in Hc. unfold host_char. by rewrite Hc. }
  destruct ps as [|p' ps]; [done|]. change (Forall (λ c, host_char c = true) (p ++ "."%char :: join ["."%char] (p' :: ps))).
  apply list.Forall_app. split; [done|]. by constructor.
Qed.
Lemma strip_host h : host_ok (chars h) = true → py_strip h = h.
Proof.
  intros H%host_ok_chars. assert (Forall is_ascii (chars h)) as Ha by (eapply list.Forall_impl; [exact H|]; intros c Hc; by apply host_char_ok).
  unfold py_strip. rewrite str_points_ascii by done. rewrite strip_none.
  - by rewrite of_points_ascii, of_chars_chars.
  - apply list.Forall_fmap. eapply list.Forall_impl; [exact H|]. intros c Hc. by apply host_char_ok.
Qed.
Lemma domains_again seen l hosts : domains_of seen l = Ok hosts → domains_of seen (JStr <$> hosts) = Ok hosts ∧ (length hosts ≤ length l)%nat.
Proof.
  revert seen hosts. induction l as [|j l IH]; intros seen hosts; cbn [domains_of]; [by intros [= <-]|]. destruct j as [| | | |s| |]; try done.
  destruct (bool_decide (py_strip s = ""%string)) eqn:E1; [done|]. destruct (host_ok (chars (py_strip s))) eqn:E2; [|done]. cbn [negb orb].
  destruct (decide (lower_points (py_strip s) ∈ seen)) as [Hs|Hs]; [intros H; apply IH in H as [? ?]; split; [done|cbn; lia]|].
  destruct (domains_of (_ :: seen) l) as [rest|] eqn:Er; [|done]. intros [= <-]. apply IH in Er as [Er Hl]. split; [|cbn; lia].
  cbn [fmap list_fmap domains_of]. rewrite strip_host, E1, E2, decide_False by done. cbn [negb orb]. fold (JStr <$> rest). by rewrite Er.
Qed.
Lemma policy_again l p : policy_of l = Ok p → policy_of (network_payload p) = Ok p.
Proof.
  unfold policy_of. destruct (has_keys _ l); [|done]. cbn [negb]. destruct (access_of (jget "access" l)) as [access|] eqn:Ea; [|done]. cbn [mbind res_bind].
  assert (access_of (Some (JStr access)) = Ok access) as Ha.
  { unfold access_of in *. destruct (jget "access" l) as [[| | | |s| |]|]; try done.
    destruct (decide (s ∈ _)) as [Hs|]; [|done]. injection Ea as <-. by rewrite decide_True. }
  case_decide as Hr.
  - subst access. destruct (field "allowed_domains" (JObj l)) as [[| | | | |[|h hs]|]|]; try done.
    destruct (decide (MAX_NETWORK_HOSTS < length (h :: hs))%nat) as [|Hlen]; [done|].
    destruct (domains_of [] (h :: hs)) as [hosts|] eqn:Ed; [|done]. intros [= <-]. apply domains_again in Ed as Hd. destruct Hd as [Hd Hl].
    assert (∃ x xs, hosts = x :: xs) as (x & xs & ->).
    { cbn [domains_of] in Ed. destruct h as [| | | |s| |]; try done. destruct (bool_decide _ || negb _); [done|]. rewrite decide_False in Ed by apply not_elem_of_nil.
      destruct (domains_of [_] hs); [|done]. injection Ed as <-. eauto. }
    unfold network_payload. cbn [np_domains np_access]. rewrite decide_False by done. cbn [has_keys forallb fst fmap list_fmap].
    change (negb _) with false. cbv iota. change (jget "access" _) with (Some (JStr "restricted")).
    rewrite Ha. cbn [mbind res_bind].
    change (field "allowed_domains" _) with (Some (JArr (JStr x :: (JStr <$> xs)))). cbv iota.
    destruct (decide ("restricted"%string = "restricted"%string)); [|done].
    rewrite decide_False; [|cbn [length] in *; rewrite length_fmap; lia]. change (JStr x :: (JStr <$> xs)) with (JStr <$> (x :: xs)). by rewrite Hd.
  - case_decide; [|done]. intros [= <-]. unfold network_payload. cbn [np_domains np_access]. rewrite decide_True by done.
    change (negb _) with false. cbv iota. change (jget "access" [("access"%string, JStr access)]) with (Some (JStr access)). rewrite Ha. cbn [mbind res_bind].
    by rewrite decide_False.
Qed.

(** ** Files of the workspace's own directory *)

Lemma andthen_ok p k m' : andthen p k = (m', Ok ()) → ∃ m1, p = (m1, Ok ()) ∧ k m1 = (m', Ok ()).
Proof. destruct p as [m1 [[]|e]]; [eauto|done]. Qed.
Lemma tryres_ok {A : Type} m (r : res exn A) k m' : tryres m r k = (m', Ok ()) → ∃ a, r = Ok a ∧ k a = (m', Ok ()).
Proof. destruct r as [a|e]; [eauto|done]. Qed.
Lemma run_ok m r m' : run m r = (m', Ok ()) → r = Ok m'.
Proof. destruct r as [m1|e]; [by intros [= ->]|done]. Qed.

Section own.
Context (root : list (list N)).
Definition own (name : list N) : list (list N) := root ++ [APIPI_DIR; name].
Record base (m : gmap (list (list N)) node) : Prop := Base { bs_dirs : dirs_to m root; bs_links : no_links m root; bs_plain : plain root }.
Record own_base (m : gmap (list (list N)) node) : Prop := OwnBase { ob_base : base m; ob_dir : m !! (root ++ [APIPI_DIR]) = Some Dir }.
Lemma own_snoc name : own name = (root ++ [APIPI_DIR]) ++ [name].
Proof. unfold own. by rewrite <- app_assoc. Qed.
Lemma own_below name : below root (own name).
Proof. rewrite own_snoc. eapply below_trans; [apply below_snoc|by apply prefix_app_r]. Qed.
Lemma own_not_inside name : ¬ inside root (root ++ [APIPI_DIR]) (own name).
Proof. intros [_ H]. apply H. rewrite own_snoc. by apply prefix_app_r. Qed.
Lemma apipi_part : plain root → plain (root ++ [APIPI_DIR]).
Proof. intros H. apply plain_snoc; [done|]. intros E. by vm_compute in E. Qed.
Lemma own_real m name : base m → name ≠ dotdot → real m (own name) ∧ plain (own name).
Proof.
  intros [Hd Hn Hp] Hname. split; [eapply real_below; [done|done|apply own_below]|]. rewrite own_snoc. by apply plain_snoc; [apply apipi_part|].
Qed.
Lemma own_dirs m : own_base m → dirs_to m (root ++ [APIPI_DIR]).
Proof. intros [[Hd _ _] Ha] q Hne [->|Hq]%prefix_snoc_inv; [done|by apply Hd]. Qed.
Lemma file_data_own m name : base m → name ≠ dotdot → file_data m (own name) = match m !! own name with Some (Regular d) => Some d | _ => None end.
Proof.
  intros Hb Hname. destruct (own_real m name Hb Hname) as [Hr Hp]. unfold file_data, node_at. rewrite resolve_plain by done.
  destruct (own name) eqn:E; [by unfold own in E; destruct root|]. by rewrite <- E.
Qed.
(** Changes of other entries than the directories on the way. *)
Lemma base_change m m' : base m → same_links m m' → (∀ q, q `prefix_of` root → m' !! q = m !! q) → base m'.
Proof.
  intros [Hd Hn Hp] Hl H. split; [|by intros q t Hq E%Hl; apply Hn in E|done]. intros q Hne Hq. rewrite H by done. by apply Hd.
Qed.
Lemma below_not_prefix q : below root q → ¬ q `prefix_of` root.
Proof. intros [H Hne] Hq. by apply Hne, prefix_antisym. Qed.
Lemma base_own m m' name :
  own_base m → same_links m m' → (∀ q, q ≠ own name → m' !! q = m !! q) → own_base m'.
Proof.
  intros [Hb Ha] Hl H. split; [eapply base_change; [done..|]|].
  - intros q Hq. apply H. intros ->. by apply (below_not_prefix (own name)); [apply own_below|].
  - rewrite H; [done|]. rewrite own_snoc. intros E. apply (f_equal length) in E. rewrite (length_app (_ ++ _)) in E. cbn in E. lia.
Qed.
Lemma write_own m name data m' :
  own_base m → name ≠ dotdot → write_bytes m (own name) data = Ok m' → own_base m' ∧ m' = <[own name := Regular data]> m.
Proof.
  intros Hb Hname Hw. destruct (own_real m name (ob_base _ Hb) Hname) as [Hr Hp]. apply write_bytes_spec in Hw as (_ & _ & _ & ->); [|done..].
  split; [|done]. eapply base_own; [done| |by intros q Hq; rewrite lookup_insert_ne]. apply insert_links. intros t E. by apply (bs_links _ (ob_base _ Hb)) in E; [|apply own_below].
Qed.
Lemma unlink_own m name m' :
  own_base m → name ≠ dotdot → unlink_if m (own name) = (m', Ok ()) → own_base m' ∧ m' !! own name = None ∧ ∀ q, q ≠ own name → m' !! q = m !! q.
Proof.
  intros Hb Hname. destruct (own_real m name (ob_base _ Hb) Hname) as [Hr Hp]. unfold unlink_if.
  rewrite exists_real by (done || (unfold own; by destruct root)). case_bool_decide as He.
  - destruct (is_dir m (own name)); [done|]. intros [= <-]. rewrite lookup_delete_eq.
    assert (∀ q, q ≠ own name → base.delete (own name) m !! q = m !! q) as Hd by (intros q Hq; by rewrite lookup_delete_ne).
    split_and!; [|done|done]. eapply base_own; [done| |done]. intros q t. destruct (decide (q = own name)) as [->|Hq]; [|by rewrite Hd].
    rewrite lookup_delete_eq. split; [|done]. intros E. by apply (bs_links _ (ob_base _ Hb)) in E; [|apply own_below].
  - intros [= <-]. split_and!; [done|by destruct (m !! own name); [destruct He|]|done].
Qed.
Lemma mkdir_part m c m' :
  base m → c ≠ dotdot → mkdirs m (root ++ [c]) = Ok m' → base m' ∧ m' !! (root ++ [c]) = Some Dir ∧ ∀ q, q ≠ root ++ [c] → m' !! q = m !! q.
Proof.
  intros Hb Hc Hm. apply mkdirs_spec in Hm as (Hl & Hdir & Hm); [|apply (real_below m root (bs_dirs _ Hb) (bs_links _ Hb)), below_snoc].
  assert (∀ q, q ≠ root ++ [c] → m' !! q = m !! q) as Hsame.
  { intros q Hq. rewrite Hm, decide_False; [done|]. intros ([_ Hne] & [?|Hpre]%prefix_snoc_inv & Hnone); [done|].
    rewrite (bs_dirs _ Hb) in Hnone; [done|congruence|done]. }
  split_and!; [|apply is_dir_true in Hdir as [E|]; [by destruct root|done]|done].
  eapply base_change; [done..|]. intros q Hq. apply Hsame. intros ->. by apply prefix_snoc_not in Hq.
Qed.
Lemma own_ne_part name c : own name ≠ root ++ [c].
Proof. rewrite own_snoc. intros E. apply (f_equal length) in E. rewrite (length_app (_ ++ _)), !length_app in E. cbn in E. lia. Qed.
Lemma inline_own m files max m' :
  own_base m → write_inline_files m root files max = (m', Ok ()) → own_base m' ∧ ∀ name, m' !! own name = m !! own name.
Proof.
  intros Hb Hw. pose proof (ob_base _ Hb) as [Hd Hn Hp].
  eapply environment_files_contained in Hw as (Hsub & Hl & Hin & _);
    [|apply resolve_plain; [by apply dirs_to_real|done]|apply resolve_plain; [by apply dirs_to_real, own_dirs|by apply apipi_part]|done].
  assert (∀ q n, m !! q = Some n → m' !! q = Some n) as Hw' by (intros q n Hq; by apply (lookup_weaken m)). split.
  - split; [split; [|by intros q t Hq E%Hl; apply Hn in E|done]|apply Hw'; by destruct Hb]. intros q Hne Hq. by apply Hw', Hd.
  - intros name. destruct (m !! own name) as [n|] eqn:E; [by apply Hw'|]. destruct (m' !! own name) as [n|] eqn:E'; [|done].
    exfalso. apply (own_not_inside name), Hin; [done|by rewrite E'].
Qed.
End own.

(** ** The network that a boot reads *)

Section network.
Context (json_text : json → list ascii) (b64decode : string → option (list ascii)) (root : list (list N)).
Local Abbreviation prepare := (prepare_workspace json_text b64decode).

Lemma network_own : root ++ NETWORK_FILE = own root (lit "network").
Proof. done. Qed.
Lemma egress_own : root ++ EGRESS_HOSTS_FILE = own root (lit "egress-hosts").
Proof. done. Qed.
(** What is stored for a policy and for the hosts of packages. *)
Definition stored_policy (policy : option network_policy) : option node :=
  (λ p, Regular (json_text (JObj (network_payload p)) ++ [newline])) <$> policy.
Definition stored_hosts (hosts : list string) : option node := match hosts with [] => None | _ => Some (Regular (text_of (chars <$> hosts))) end.
Lemma own_inj a b : own root a = own root b → a = b.
Proof. unfold own. intros E. apply app_inv_head in E. by simplify_eq. Qed.

Lemma write_policy_own m policy m' :
  own_base root m → write_network_policy json_text m root policy = (m', Ok ()) →
  own_base root m' ∧ m' !! own root (lit "network") = stored_policy policy ∧ ∀ q, q ≠ own root (lit "network") → m' !! q = m !! q.
Proof.
  intros Hb. unfold write_network_policy. rewrite network_own. destruct policy as [p|].
  - intros (m1 & Hm1%run_ok & Hm2%run_ok)%andthen_ok. rewrite own_snoc, parent_snoc, mkdirs_there in Hm1 by (by apply own_dirs). injection Hm1 as <-.
    apply write_own in Hm2 as [? ->]; [|done|done]. split_and!; [done|by rewrite lookup_insert_eq|]. intros q Hq. by rewrite lookup_insert_ne.
  - intros Hu. by apply unlink_own in Hu.
Qed.
Lemma write_env_own m values m' :
  own_base root m → write_user_env m root values = (m', Ok ()) → own_base root m' ∧ ∀ q, q ≠ own root (lit "user.env") → m' !! q = m !! q.
Proof.
  intros Hb. unfold write_user_env. change (root ++ USER_ENV_FILE) with (own root (lit "user.env")). destruct values as [|v values].
  - intros Hu. apply unlink_own in Hu as (? & _ & ?); done.
  - intros (m1 & Hm1%run_ok & Hm2%run_ok)%andthen_ok. rewrite own_snoc, parent_snoc, mkdirs_there in Hm1 by (by apply own_dirs). injection Hm1 as <-.
    apply write_own in Hm2 as [? ->]; [|done|done]. split; [done|]. intros q Hq. by rewrite lookup_insert_ne.
Qed.
Lemma write_hosts_own m hosts m' :
  own_base root m → write_egress_hosts m root hosts = (m', Ok ()) →
  own_base root m' ∧ m' !! own root (lit "egress-hosts") = stored_hosts hosts ∧ ∀ q, q ≠ own root (lit "egress-hosts") → m' !! q = m !! q.
Proof.
  intros Hb. unfold write_egress_hosts. rewrite egress_own. destruct hosts as [|h hosts].
  - intros Hu. by apply unlink_own in Hu.
  - intros Hw%run_ok. apply write_own in Hw as [? ->]; [|done|done]. split_and!; [done|by rewrite lookup_insert_eq|]. intros q Hq. by rewrite lookup_insert_ne.
Qed.
Lemma hosts_empty pk : packages_empty pk = true → hosts_of_packages pk = [].
Proof. unfold packages_empty. rewrite bool_decide_eq_true. intros (H1 & H2 & H3). unfold hosts_of_packages. by rewrite H1, H2, H3. Qed.

Lemma prepared m env max extra m' :
  base root m → hosted env = true → m !! own root (lit "network") = None → m !! own root (lit "egress-hosts") = None →
  prepare m root env max extra = (m', Ok ()) →
  ∃ policy pk, session_network_from env = Ok policy ∧ packages_from env = Ok pk ∧ base root m'
    ∧ m' !! own root (lit "network") = stored_policy policy ∧ m' !! own root (lit "egress-hosts") = stored_hosts (hosts_of_packages pk).
Proof.
  intros Hb Hh Hn He. unfold prepare_workspace. rewrite Hh. cbn [negb].
  intros (m1 & Hm1%run_ok & H)%andthen_ok. rewrite mkdirs_there in Hm1 by apply Hb. injection Hm1 as <-.
  apply andthen_ok in H as (m2 & Hm2%run_ok & H). apply mkdir_part in Hm2 as (Hb2 & _ & Hsame); [|done|done].
  rewrite <- (Hsame (own root _)) in Hn by apply own_ne_part. rewrite <- (Hsame (own root _)) in He by apply own_ne_part. clear Hsame.
  apply tryres_ok in H as (values & _ & H). apply tryres_ok in H as (inline & _ & H). apply tryres_ok in H as (pk & Hpk & H).
  apply tryres_ok in H as (commands & _ & H). apply tryres_ok in H as (policy & Hpol & H). exists policy, pk. split; [done|]. split; [done|].
  destruct (_ && _) eqn:Eempty.
  { injection H as <-. rewrite !andb_true_iff in Eempty. destruct Eempty as [[[[Epk _] _] _] Epol]. destruct policy; [done|].
    split; [done|]. by rewrite Hn, He, (hosts_empty pk). }
  apply andthen_ok in H as (m3 & Hm3%run_ok & H). apply mkdir_part in Hm3 as (Hb3 & Hdir & Hsame); [|done|by intros E; vm_compute in E].
  rewrite <- (Hsame (own root _)) in Hn by apply own_ne_part. rewrite <- (Hsame (own root _)) in He by apply own_ne_part. clear Hsame. assert (own_base root m3) as Ho3 by (by split).
  apply andthen_ok in H as (m4 & Hm4 & H). apply inline_own in Hm4 as (Ho4 & Hsame); [|done]. rewrite <- (Hsame (lit "network")) in Hn. rewrite <- (Hsame (lit "egress-hosts")) in He. clear Hsame.
  apply andthen_ok in H as (m5 & Hm5 & H). apply write_env_own in Hm5 as (Ho5 & Hsame); [|done].
  rewrite <- (Hsame (own root _)) in Hn by (intros E%own_inj; by vm_compute in E). rewrite <- (Hsame (own root _)) in He by (intros E%own_inj; by vm_compute in E). clear Hsame.
  apply andthen_ok in H as (m6 & Hm6 & H). apply write_policy_own in Hm6 as (Ho6 & Hnet & Hsame); [|done].
  rewrite <- (Hsame (own root _)) in He by (intros E%own_inj; by vm_compute in E). clear Hsame.
  destruct (packages_empty pk && _) eqn:Enone.
  { injection H as <-. apply andb_true_iff in Enone as [Epk _]. split; [apply Ho6|]. by rewrite He, (hosts_empty pk). }
  apply tryres_ok in H as (script & _ & H). apply andthen_ok in H as (m7 & Hm7%run_ok & H).
  change (root ++ SETUP_SCRIPT) with (own root (lit "setup.sh")) in Hm7. apply write_own in Hm7 as [Ho7 ->]; [|done|done].
  apply write_hosts_own in H as (Ho8 & Heg & Hsame); [|done]. split; [apply Ho8|]. split; [|done].
  rewrite Hsame, lookup_insert_ne by (intros E%own_inj; by vm_compute in E). done.
Qed.
End network.

(** ** The theorems *)

Lemma base_of_ready m root : ready root root m → plain root → base root m.
Proof. intros [_ Hd Hn] Hp. by split. Qed.
Lemma base_confined m m' root : base root m → confined m root m' → base root m'.
Proof.
  intros Hb [Hl Hc]. eapply base_change; [done..|]. intros q Hq. destruct (decide (m' !! q = m !! q)) as [|[Hin _]%Hc]; [done|].
  by apply below_not_prefix in Hin.
Qed.
Lemma own_confined m m' root name : confined m root m' → m' !! own root name = m !! own root name.
Proof. intros [_ Hc]. destruct (decide (m' !! own root name = m !! own root name)) as [|H%Hc%own_not_inside]; done. Qed.
Lemma hosts_read_back json_hosts pk : json_hosts = hosts_of_packages pk →
  filter (λ h, h ≠ ""%string) ((λ l, py_strip (of_chars l)) <$> split_on newline (text_of (chars <$> json_hosts))) = json_hosts.
Proof.
  intros ->. unfold hosts_of_packages. destruct (decide (pk_python pk = [])), (decide (pk_npm pk = [])), (decide (pk_system pk = [])); by vm_compute.
Qed.

(** C26: A boot reads back from a workspace that was prepared for a hosted environment (a
    workspace without links in which neither file was before) the network policy of that
    environment and the hosts of its packages, when `json.loads` reads back what
    `json.dumps` wrote, and as long as all that changed in between is below the workspace
    and outside its own `.apipi` directory, and no link was made ([confined]).  The files of
    messages and the tars of guests with relative names change nothing else; the tar of a
    guest with an absolute name can ([guest_tar_escapes]). *)
Theorem boot_network json_text json_loads b64decode m root env max extra m' m'' :
  (∀ p, session_network_from env = Ok (Some p) →
    json_loads (json_text (JObj (network_payload p)) ++ [newline]) = Some (JObj (network_payload p))) →
  ready root root m → plain root → hosted env = true → m !! own root (lit "network") = None → m !! own root (lit "egress-hosts") = None →
  prepare_workspace json_text b64decode m root env max extra = (m', Ok ()) → confined m' root m'' →
  ∃ policy pk, session_network_from env = Ok policy ∧ packages_from env = Ok pk
    ∧ workspace_network_policy json_loads m'' root = Ok policy ∧ workspace_egress_hosts m'' root = hosts_of_packages pk
    ∧ ∀ allow gateway credential, boot_tap json_loads m'' root allow gateway credential
        = tap_policy_from policy allow gateway (hosts_of_packages pk) credential.
Proof.
  intros Hjson Hr Hp Hh Hn He Hprep Hc. eapply prepared in Hprep as (policy & pk & Hpol & Hpk & Hb & Hnet & Heg); [|by apply base_of_ready|done..].
  exists policy, pk. apply (base_confined _ m'') in Hb as Hb2; [|done]. rewrite <- (own_confined m' m'' root) in Hnet, Heg by done.
  assert (workspace_network_policy json_loads m'' root = Ok policy) as Hw.
  { unfold workspace_network_policy. rewrite network_own, file_data_own, Hnet by done. destruct policy as [p|]; [|done]. cbn [stored_policy fmap option_fmap option_map].
    rewrite Hjson by done. unfold session_network_from in *. change (field "network" (JObj [("network"%string, JObj (network_payload p))])) with (Some (JObj (network_payload p))).
    cbv iota. destruct (field "network" env) as [[| | | | | |l]|]; try done. destruct (policy_of l) as [p'|] eqn:Ep; [|done]. injection Hpol as ->.
    by rewrite (policy_again l p). }
  assert (workspace_egress_hosts m'' root = hosts_of_packages pk) as Hx.
  { unfold workspace_egress_hosts. rewrite egress_own, file_data_own, Heg by done. unfold stored_hosts.
    destruct (hosts_of_packages pk) as [|h hosts] eqn:E; [done|]. apply (hosts_read_back (h :: hosts) pk). by rewrite E. }
  split_and!; try done. intros allow gateway credential. unfold boot_tap. rewrite Hw, Hx. done.
Qed.

(** C27: The egress policy made of a session's network: when the operator has an allowlist, a
    guest's connection passes only to a host of that list or of the session's packages, and,
    with or without one, in a session with a restricted network only to a host the session
    names, a host of its packages or one it has a credential for; a disabled network passes
    nothing. *)
Theorem tap_confines policy allow gateway extra credential tap private intercept ep host port :
  tap_policy_from policy allow gateway extra credential = Ok tap →
  build (tap_mode tap) (tap_hosts tap) private intercept = Some ep →
  d_action (policy_decide ep host port) ≠ AReject →
  (allow = true → ∃ h, host = Some h ∧ norm_host h ∈ norm_host <$> gateway ++ extra)
  ∧ (∀ p, policy = Some p → np_access p ≠ "enabled"%string →
      np_access p ≠ "disabled"%string ∧ ∃ h, host = Some h ∧ norm_host h ∈ norm_host <$> np_domains p ++ extra ++ credential).
Proof.
  intros Htap Hbuild Hd. apply decide_passed in Hd as (Hdis & Hres & _).
  assert (∀ hosts, tap = TapPolicy "restricted" (unique_hosts hosts) → ∃ h x, host = Some h ∧ x ∈ hosts ∧ norm_host h = norm_host x) as Hin.
  { intros hosts ->. unfold build in Hbuild. cbn in Hbuild. injection Hbuild as <-. destruct (Hres eq_refl) as (h & -> & Hh & _).
    apply elem_of_list_to_set, list_elem_of_fmap in Hh as (x & E & Hx). exists h, x. split_and!; [done| |done]. by eapply unique_from_in. }
  assert (tap ≠ TapPolicy "disabled" []) as Hndis.
  { intros ->. unfold build in Hbuild. cbn in Hbuild. injection Hbuild as <-. done. }
  assert (∀ x hosts, lower_points x ∈ lower_points <$> hosts → norm_host x ∈ norm_host <$> hosts) as Hfloor by (intros; by apply floor_norm).
  unfold tap_policy_from in Htap. destruct (allow && negb (all_in _ credential)) eqn:Ecred; [done|].
  assert (∀ p, policy = Some p → np_access p ≠ "enabled"%string → np_access p ≠ "disabled"%string
    ∧ tap = TapPolicy "restricted" (unique_hosts (np_domains p ++ extra ++ credential))
    ∧ allow && negb (all_in (lower_points <$> (gateway ++ extra)) (np_domains p)) = false) as Hsess.
  { intros p -> Hne. rewrite decide_False in Htap by done. destruct (decide (np_access p = "disabled"%string)).
    - destruct (decide (credential = [])); [|done]. by injection Htap as <-.
    - destruct (allow && negb (all_in _ (np_domains p))); [done|]. injection Htap as <-. done. }
  assert (tap = TapPolicy "restricted" (unique_hosts (gateway ++ extra)) ∨ allow = false ∨ ∃ p, policy = Some p ∧ np_access p ≠ "enabled"%string) as Hcase.
  { destruct allow; [|auto]. destruct policy as [p|]; [|left; by injection Htap as <-].
    destruct (decide (np_access p = "enabled"%string)); [left; by injection Htap as <-|]. right. right. eauto. }
  split.
  - intros ->. destruct Hcase as [->|[?|(p & Hp & Hne)]]; [|done|].
    + destruct (Hin _ eq_refl) as (h & x & -> & Hx & E). exists h. split; [done|]. rewrite E. by apply list_elem_of_fmap_2.
    + destruct (Hsess p Hp Hne) as (_ & -> & Hdom). destruct (Hin _ eq_refl) as (h & x & -> & Hx & E). exists h. split; [done|]. rewrite E.
      cbn [andb] in Hdom, Ecred. apply negb_false_iff in Hdom, Ecred. apply elem_of_app in Hx as [Hx|[Hx|Hx]%elem_of_app].
      * apply Hfloor. by apply (all_in_spec _ _ Hdom).
      * apply list_elem_of_fmap_2. apply elem_of_app. by right.
      * apply Hfloor. by apply (all_in_spec _ _ Ecred).
  - intros p Hp Hne. destruct (Hsess p Hp Hne) as (? & -> & _). split; [done|]. destruct (Hin _ eq_refl) as (h & x & -> & Hx & E).
    exists h. split; [done|]. rewrite E. by apply list_elem_of_fmap_2.
Qed.

(** C29: The file of a session's variables is read by a shell as exactly those variables
    with their values, whatever the values hold but NUL, and no reserved name is among
    them; a quoted command of the setup is read back as one word. *)
Theorem user_env_read env values command rest :
  session_env_from env = Ok values → (∀ p, p ∈ values → char 0 ∉ chars p.2) →
  (char 0 ∉ chars command) → word_end rest →
  sh_assignments (length values) (user_env_text values) = Some values
  ∧ Forall (λ p, reserved_env_name p.1 = false) values
  ∧ sh_word Bare (shlex_quote (chars command) ++ rest) = Some (chars command, rest).
Proof.
  intros Henv H0 Hc Hr.
  assert (Forall (λ p : string * string, env_name_ok (chars p.1) = true ∧ reserved_env_name p.1 = false) values) as Hall.
  { unfold session_env_from in Henv. destruct (field "env" env) as [[| | | | | |l]|]; try done; [by eapply env_of_ok|by injection Henv as <-]. }
  split_and!; [|eapply list.Forall_impl; [exact Hall|by intros ? []]|by apply sh_word_quote].
  apply assignments_read; [done|]. rewrite list.Forall_forall in Hall |- *. intros p Hp. destruct (Hall p Hp). auto.
Qed.

(** ** Examples *)

Definition demo_env : json :=
  JObj [("type", JStr "openai_hosted"); ("packages", JObj [("python", JArr [JStr " numpy "])]);
        ("env", JObj [("K", JStr "it's $HOME")]);
        ("network", JObj [("access", JStr "restricted"); ("allowed_domains", JArr [JStr "Example.com"; JStr "example.COM"])])]%string.
Definition demo_policy : network_policy := NetworkPolicy "restricted" ["Example.com"%string].
Definition demo_loads (l : list ascii) : option json :=
  if decide (l = dump_chars true (JObj (network_payload demo_policy)) ++ [newline]) then Some (JObj (network_payload demo_policy)) else None.
Lemma boot_network_witness :
  ∃ m', prepare_workspace (dump_chars true) (λ _, None) demo_disk demo_root demo_env None [] = (m', Ok ())
    ∧ ∃ policy pk, session_network_from demo_env = Ok policy ∧ packages_from demo_env = Ok pk
      ∧ workspace_network_policy demo_loads m' demo_root = Ok policy ∧ workspace_egress_hosts m' demo_root = hosts_of_packages pk.
Proof.
  destruct (prepare_workspace (dump_chars true) (λ _, None) demo_disk demo_root demo_env None []) as [m' r] eqn:E.
  assert (r = Ok ()) as -> by (apply (f_equal snd) in E; vm_compute in E; by destruct r as [[]|]).
  exists m'. split; [done|].
  destruct (boot_network (dump_chars true) demo_loads (λ _, None) demo_disk demo_root demo_env None [] m' m') as (policy & pk & H1 & H2 & H3 & H4 & _);
    [|apply demo_ready|by apply (bool_decide_unpack _); vm_compute|done|by vm_compute|by vm_compute|done|apply confined_refl|by exists policy, pk].
  intros p Hp. assert (session_network_from demo_env = Ok (Some demo_policy)) as Hd by (by vm_compute). rewrite Hd in Hp. injection Hp as <-.
  unfold demo_loads. by rewrite decide_True.
Defined.
Definition demo_tap : tap_policy := TapPolicy "restricted" ["Example.com"; "pypi.org"]%string.
Lemma tap_confines_witness :
  ∃ ep, build (tap_mode demo_tap) (tap_hosts demo_tap) [] [] = Some ep
    ∧ d_action (policy_decide ep (Some "example.com."%string) 443) ≠ AReject
    ∧ ∃ h, Some "example.com."%string = Some h ∧ norm_host h ∈ norm_host <$> ["EXAMPLE.com"; "pypi.org"]%string.
Proof.
  destruct (build (tap_mode demo_tap) (tap_hosts demo_tap) [] []) as [ep|] eqn:E; [|by vm_compute in E]. exists ep. split; [done|].
  assert (d_action (policy_decide ep (Some "example.com."%string) 443) ≠ AReject) as Ha.
  { unfold build in E. cbn in E. injection E as <-. by vm_compute. }
  split; [done|].
  refine (proj1 (tap_confines (Some demo_policy) true ["EXAMPLE.com"%string] ["pypi.org"%string] [] demo_tap [] [] ep (Some "example.com."%string) 443 _ E Ha) eq_refl).
  by vm_compute.
Defined.
Lemma user_env_read_witness :
  ∃ values, session_env_from demo_env = Ok values ∧ sh_assignments 1 (user_env_text values) = Some values.
Proof.
  exists [("K", "it's $HOME")]%string. split; [by vm_compute|].
  refine (proj1 (user_env_read demo_env [("K", "it's $HOME")]%string "true" [] _ _ _ I)); [by vm_compute| |].
  - intros p [->|H]%elem_of_cons; [by apply (bool_decide_unpack _); vm_compute|by apply elem_of_nil in H].
  - by apply (bool_decide_unpack _); vm_compute.
Defined.
