(* ===== verification/Skills.v ===== *)
(** * Skills (src/src/apipi/common/skills.py, services/skill_store.py)

    A skill is a zip with one `SKILL.md`: what is checked when it is uploaded, how it is
    unpacked into a workspace, and the service that stores it. *)

From S2P Require Import Prelude PyStd Db Fleet Blobs Files Fs Workspace Setup.
From stdpp Require Import sorting.

Open Scope Z_scope.

(** ** Archives *)

(** `ZipInfo`, with what reading this entry gives. *)
Record zip_entry : Type := ZipEntry { ze_name : list N; ze_size : Z; ze_data : res exn (list ascii) }.
Definition ze_dir (e : zip_entry) : bool := bool_decide (list.last (ze_name e) = Some slash_n).
(** `archive.read(name)`: the last entry of the name. *)
Definition zip_read (archive : list zip_entry) (name : list N) : res exn (list ascii) :=
  match list.last (filter (λ e, ze_name e = name) archive) with Some e => ze_data e | None => Err ValueExn end.
(** `name.replace("\\", "/")` *)
Definition unbackslash (name : list N) : list N := (λ n, if decide (n = 92%N) then slash_n else n) <$> name.
Definition safe_zip_parts (name : list N) : option (list (list N)) :=
  let l := parts (unbackslash name) in if decide (dotdot ∈ l) then None else Some l.
(** `parts[-1].lower() == "skill.md"` *)
Definition is_manifest (l : list (list N)) : bool := bool_decide ((λ p, ulower <$> p) <$> list.last l = Some (lit "skill.md")).

(** ** The name of a skill *)

Definition skill_name_char (n : N) : bool :=
  ((48 <=? n) && (n <=? 57) || (65 <=? n) && (n <=? 90) || (97 <=? n) && (n <=? 122))%N.
(** `_SKILL_NAME` *)
Definition skill_name_ok (l : list N) : bool :=
  match l with
  | c :: l => skill_name_char c && bool_decide (length l ≤ 63)%nat && forallb (λ n, skill_name_char n || bool_decide (n ∈ lit "._-")) l
  | [] => false
  end.
(** The line boundaries of `splitlines`; an empty line at a CR LF changes nothing here. *)
Definition is_line_end (n : N) : bool := bool_decide (n ∈ [10; 11; 12; 13; 28; 29; 30; 133; 8232; 8233]%N).
Fixpoint split_lines (l : list N) : list (list N) :=
  match l with
  | [] => [[]]
  | c :: l => if is_line_end c then [] :: split_lines l else match split_lines l with p :: ps => (c :: p) :: ps | [] => [[c]] end
  end.
(** What is before the first [pat]. *)
Fixpoint before (pat l : list N) : option (list N) :=
  if decide (take (length pat) l = pat) then Some []
  else match l with [] => None | c :: l => cons c <$> before pat l end.
Definition strip_quotes (l : list N) : list N :=
  let q n := bool_decide (n ∈ [34; 39]%N) in rev (drop_while q (rev (drop_while q l))).
Definition name_of_line (line : list N) : option (list N) :=
  match before (lit ":") line with
  | Some key =>
      if decide (ulower <$> ustrip key = lit "name") then
        let name := strip_quotes (ustrip (drop (S (length key)) line)) in if decide (name = []) then None else Some name
      else None
  | None => None
  end.
Definition skill_name_from_markdown (text : list N) : option (list N) :=
  let body := drop_while is_uspace text in
  if negb (bool_decide (take 3 body = lit "---")) then None
  else front ← before (10%N :: lit "---") (drop_while (λ n, bool_decide (n = 10%N)) (drop 3 body)); head (omap name_of_line (split_lines front)).

(** ** Checking and unpacking *)

Section zip.
(** `zipfile.ZipFile(...).infolist()`; [None] is `BadZipFile`. *)
Context (open_zip : list ascii → option (list zip_entry)).

Fixpoint manifests_of (archive : list zip_entry) : res exn (list (list N * list (list N))) :=
  match archive with
  | [] => Ok []
  | e :: archive =>
      match safe_zip_parts (ze_name e) with
      | None => Err setup_error
      | Some l =>
          rest ← manifests_of archive;
          Ok (if negb (bool_decide (l = [])) && negb (ze_dir e) && is_manifest l then (ze_name e, l) :: rest else rest)
      end
  end.
Definition inspect_archive (archive : list zip_entry) : res exn (list N) :=
  manifests ← manifests_of archive;
  match manifests with
  | [(manifest, l)] =>
      data ← zip_read archive manifest;
      if negb (valid_utf8 data) then Err setup_error
      else
        let folder := match l with f :: _ :: _ => f | _ => lit "skill" end in
        let raw := default folder (skill_name_from_markdown (decoded (of_chars data))) in
        if skill_name_ok raw then Ok raw else Err setup_error
  | _ => Err setup_error
  end.
Definition inspect_skill_zip (data : list ascii) : res exn (list N) :=
  match open_zip data with None => Err setup_error | Some archive => inspect_archive archive end.

Definition MAX_SKILL_FILES : Z := 500.
(** The directory of the first manifest. *)
Fixpoint zip_prefix (archive : list zip_entry) : list (list N) :=
  match archive with
  | [] => []
  | e :: archive =>
      match safe_zip_parts (ze_name e) with
      | Some l => if negb (bool_decide (l = [])) && negb (ze_dir e) && is_manifest l then removelast l else zip_prefix archive
      | None => zip_prefix archive
      end
  end.
Definition numbered_name (name : list N) (index : Z) : list N := if decide (index = 0) then name else name ++ lit "-" ++ lit (str_of_Z index).
Definition SKILLS_DIR : list (list N) := [lit ".agents"; lit "skills"].
(** The first of the names that is free. *)
Fixpoint free_dest (fuel : nat) (m : gmap (list (list N)) node) (dir : list (list N)) (name : list N) (index : Z) : option (list (list N)) :=
  match fuel with
  | O => None
  | S fuel => let dest := dir ++ [numbered_name name index] in if path_exists m dest then free_dest fuel m dir name (index + 1) else Some dest
  end.
(** Where an entry goes below the destination; [None] when it is skipped. *)
Definition entry_rel (prefix : list (list N)) (e : zip_entry) : res exn (option (list (list N))) :=
  if ze_dir e then Ok None
  else match safe_zip_parts (ze_name e) with
  | None => Err setup_error
  | Some l =>
      if decide (prefix = []) then Ok (if decide (l = []) then None else Some l)
      else if negb (bool_decide (take (length prefix) l = prefix)) then Ok None
      else let rel := drop (length prefix) l in Ok (if decide (rel = []) then None else Some rel)
  end.
Fixpoint unpack_entries (m : gmap (list (list N)) node) (dest prefix : list (list N)) (archive : list zip_entry) (max_bytes : option Z)
    (count total : Z) (l : list zip_entry) : gmap (list (list N)) node * res exn unit :=
  match l with
  | [] => (m, Ok ())
  | e :: l =>
      match entry_rel prefix e with
      | Err err => (m, Err err)
      | Ok None => unpack_entries m dest prefix archive max_bytes count total l
      | Ok (Some rel) =>
          let count := count + 1 in
          let total := total + ze_size e in
          if MAX_SKILL_FILES <? count then (m, Err setup_error)
          else if over max_bytes total then (m, Err setup_error)
          else if negb (is_under m (dest ++ rel) dest) && negb (bool_decide (dest ++ rel = dest)) then (m, Err setup_error)
          else match mkdirs m (parent (dest ++ rel)) with
          | Err err => (m, Err err)
          | Ok m =>
              match zip_read archive (ze_name e) with
              | Err err => (m, Err err)
              | Ok data =>
                  match write_bytes m (dest ++ rel) data with
                  | Err err => (m, Err err)
                  | Ok m => unpack_entries m dest prefix archive max_bytes count total l
                  end
              end
          end
      end
  end.
(** `any(dest.rglob("SKILL.md"))`, and the one at the top. *)
Definition has_manifest (m : gmap (list (list N)) node) (dest : list (list N)) : bool :=
  is_file_at m (dest ++ [lit "SKILL.md"])
  || match resolve m dest with
     | Some root => existsb (λ p, bool_decide (below root p.1 ∧ list.last p.1 = Some (lit "SKILL.md"))) (map_to_list m)
     | None => false
     end.
Definition unpack_skill_zip (m : gmap (list (list N)) node) (workspace : list (list N)) (data : list ascii) (max_bytes : option Z)
    : gmap (list (list N)) node * res exn (list (list N)) :=
  match inspect_skill_zip data, open_zip data with
  | Err e, _ => (m, Err e)
  | Ok name, None => (m, Err setup_error)
  | Ok name, Some archive =>
      match free_dest (S (size m)) m (workspace ++ SKILLS_DIR) name 0 with
      | None => (m, Err os_error)       (* no such name: does not happen *)
      | Some dest =>
          match mkdirs m dest with
          | Err e => (m, Err e)
          | Ok m =>
              match unpack_entries m dest (zip_prefix archive) archive max_bytes 0 0 archive with
              | (m, Err e) => (m, Err e)
              | (m, Ok _) => if has_manifest m dest then (m, Ok dest) else (m, Err setup_error)
              end
          end
      end
  end.

(** ** The service (services/skill_store.py) *)

Record skill_row : Type := SkillRow { k_id : string; k_tenant : uuid; k_name : list N; k_size : Z; k_created : Z }.
#[global] Instance skill_row_eq_dec : EqDecision skill_row.
Proof. solve_decision. Defined.
Definition new_skill_id (u : uuid) : string := of_chars (chars "skill-" ++ uuid_hex u).
Definition is_skill (tenant : uuid) (id : string) (r : skill_row) : bool := bool_decide (k_tenant r = tenant ∧ k_id r = id).
Definition create_skill (rows : list skill_row) (r : skill_row) : res exn (list skill_row) :=
  if decide (k_id r ∈ k_id <$> rows) then Err IntegrityExn else Ok (rows ++ [r]).
Definition get_skill (rows : list skill_row) (tenant : uuid) (id : string) : option skill_row := find_row (is_skill tenant id) rows.
Definition delete_skill (rows : list skill_row) (tenant : uuid) (id : string) : list skill_row * bool :=
  match get_skill rows tenant id with
  | None => (rows, false)
  | Some _ => (filter (λ r, is_skill tenant id r = false) rows, true)
  end.
Definition newest_first (a b : skill_row) : Prop := k_created b ≤ k_created a.
#[global] Instance newest_first_dec a b : Decision (newest_first a b).
Proof. unfold newest_first. apply _. Defined.
Definition list_skills (rows : list skill_row) (tenant : uuid) : list skill_row :=
  merge_sort newest_first (filter (λ r, k_tenant r = tenant) rows).

Section store.
Context {S : Type} `{ObjectStore S}.
Context (settings : file_settings).
Definition skill_object (tenant : uuid) (id : string) : res exn (list ascii) := file_object_id tenant (chars id).
Definition skill_create (rows : list skill_row) (s : S) (tenant u : uuid) (now : Z) (data : list ascii) : res exn (list skill_row * S * skill_row) :=
  if max_file_bytes settings <? Z.of_nat (length data) then Err (api_error "payload_too_large")
  else
    name ← inspect_skill_zip data;
    let id := new_skill_id u in
    key ← skill_object tenant id;
    s ← os_put s NS_SKILLS key data;
    let r := SkillRow id tenant name (Z.of_nat (length data)) now in
    rows ← create_skill rows r; Ok (rows, s, r).
Definition skill_get (rows : list skill_row) (tenant : uuid) (id : string) : res exn skill_row :=
  match get_skill rows tenant id with Some r => Ok r | None => Err NotFoundExn end.
Definition skill_delete (rows : list skill_row) (s : S) (tenant : uuid) (id : string) : (list skill_row * S) * res exn unit :=
  let '(rows, found) := delete_skill rows tenant id in
  if found then
    match (key ← skill_object tenant id; os_delete s NS_SKILLS key) with Ok s => ((rows, s), Ok ()) | Err e => ((rows, s), Err e) end
  else ((rows, s), Err NotFoundExn).
(** `skill_refs_from` (env/setup.py) *)
Fixpoint skill_refs_of (l : list json) : res exn (list string) :=
  match l with
  | [] => Ok []
  | JObj item :: l =>
      if negb (bool_decide (jstr (jget "type" item) = Some "skill_reference"%string)) then Err setup_error
      else match jget "skill_id" item with
      | Some (JStr id) => if decide (py_strip id = ""%string) then Err setup_error else rest ← skill_refs_of l; Ok (py_strip id :: rest)
      | _ => Err setup_error
      end
  | _ :: _ => Err setup_error
  end.
Definition skill_refs_from (environment : json) : res exn (list string) :=
  match jfield "skills" environment with
  | None | Some JNull => Ok []
  | Some (JArr l) => skill_refs_of l
  | Some _ => Err setup_error
  end.
Fixpoint install_all (m : gmap (list (list N)) node) (rows : list skill_row) (s : S) (tenant : uuid) (workspace : list (list N)) (refs : list string)
    : gmap (list (list N)) node * res exn unit :=
  match refs with
  | [] => (m, Ok ())
  | id :: refs =>
      match get_skill rows tenant id with
      | None => (m, Err NotFoundExn)
      | Some r =>
          match (key ← skill_object tenant id; get_sized s NS_SKILLS key (k_size r)) with
          | Err e => (m, Err e)
          | Ok None => (m, Err NotFoundExn)
          | Ok (Some data) =>
              match unpack_skill_zip m workspace data (Some (max_workspace_bytes settings)) with
              | (m, Err e) => (m, Err e)
              | (m, Ok _) => install_all m rows s tenant workspace refs
              end
          end
      end
  end.
(** `install`: the skills of the environment, into the workspace. *)
Definition install (m : gmap (list (list N)) node) (rows : list skill_row) (s : S) (tenant : uuid) (environment : json) (workspace : list (list N))
    : gmap (list (list N)) node * res exn unit :=
  match skill_refs_from environment with Err e => (m, Err e) | Ok refs => install_all m rows s tenant workspace refs end.
End store.
End zip.
