(* ===== verification/SkillsProps.v ===== *)
(** * Skills: what unpacking one does to a workspace *)

From S2P Require Import Prelude PyStd Db Fleet Blobs Files FilesProps Fs Workspace WorkspaceProps Skills.
From stdpp Require Import pretty.

Open Scope Z_scope.

(** ** The destination *)

Lemma skill_char_name name : skill_name_ok name = true → ∃ c l, name = c :: l ∧ c ≠ 46%N ∧ c ≠ 47%N.
Proof.
  destruct name as [|c l]; [done|]. cbn. intros H. exists c, l. split; [done|]. destruct (skill_name_char c) eqn:E; [|done].
  split; intros ->; by vm_compute in E.
Qed.
Lemma numbered_plain name k : skill_name_ok name = true → numbered_name name k ≠ dotdot.
Proof.
  intros (c & l & -> & Hc & _)%skill_char_name. unfold numbered_name. case_decide; intros E; injection E as E1 _; by rewrite E1 in Hc.
Qed.
Lemma numbered_inj name a b : numbered_name name a = numbered_name name b → a = b.
Proof.
  unfold numbered_name. repeat case_decide; intros E; [congruence| | |].
  - apply (f_equal length) in E. rewrite !length_app in E. change (length (lit "-")) with 1%nat in E. lia.
  - apply (f_equal length) in E. rewrite !length_app in E. change (length (lit "-")) with 1%nat in E. lia.
  - do 2 apply app_inv_head in E. apply lit_inj in E. by apply (inj pretty) in E.
Qed.

(** The names below a directory. *)
Definition child (dir q : list (list N)) : option (list N) :=
  match list.last q with Some c => if decide (q = dir ++ [c]) then Some c else None | None => None end.
Definition children (m : gmap (list (list N)) node) (dir : list (list N)) : list (list N) := omap (child dir) (map_to_list m).*1.
Lemma children_in m dir c : c ∈ children m dir ↔ m !! (dir ++ [c]) ≠ None.
Proof.
  unfold children. rewrite list_elem_of_omap. split.
  - intros (q & Hq & E). unfold child in E. destruct (list.last q) as [c'|]; [|done]. case_decide as Hd; [|done]. injection E as ->. subst q.
    apply list_elem_of_fmap in Hq as ([q n] & E & Hq). cbn in E. subst q. apply elem_of_map_to_list in Hq. by rewrite Hq.
  - intros Hn. destruct (m !! (dir ++ [c])) as [n|] eqn:E; [|done]. exists (dir ++ [c]). split.
    + apply list_elem_of_fmap. exists (dir ++ [c], n). split; [done|]. by apply elem_of_map_to_list.
    + unfold child. by rewrite last_snoc, decide_True.
Qed.
Lemma children_size m dir : (length (children m dir) ≤ size m)%nat.
Proof.
  unfold children. assert (∀ l, length (omap (child dir) l) ≤ length l)%nat as H.
  { induction l as [|q l IH]; [done|]. cbn. destruct (child dir q); cbn; lia. }
  etrans; [apply H|]. rewrite length_fmap. by rewrite length_map_to_list.
Qed.
Lemma free_dest_found m dir name :
  plain dir → (∀ c, real m (dir ++ [c])) → skill_name_ok name = true →
  ∃ k, free_dest (S (size m)) m dir name 0 = Some (dir ++ [numbered_name name k]) ∧ 0 ≤ k ∧ m !! (dir ++ [numbered_name name k]) = None.
Proof.
  intros Hp Hr Hname. assert (∀ fuel n, 0 ≤ n → free_dest fuel m dir name n = (λ c, dir ++ [c]) <$> free_from (numbered_name name) (children m dir) fuel n) as Heq.
  { induction fuel as [|fuel IH]; intros n Hn; [done|]. cbn [free_dest free_from].
    rewrite exists_real; [|apply Hr|apply plain_snoc; [done|by apply numbered_plain]|by destruct dir].
    destruct (decide (numbered_name name n ∈ children m dir)) as [Hin|Hout]; rewrite children_in in *; [rewrite bool_decide_eq_true_2 by done; apply IH; lia|].
    by rewrite bool_decide_eq_false_2. }
  destruct (free_from_spec (numbered_name name) (children m dir) (S (size m)) 0) as (k & E & Hk & Hf); [apply numbered_inj|pose proof (children_size m dir); lia|].
  exists k. rewrite Heq, E by lia. split_and!; [done|done|]. rewrite children_in in Hf. by destruct (m !! _); [destruct Hf|].
Qed.

(** ** Reading archives *)

Lemma filter_unique {A B} `{EqDecision B} (f : A → B) l x : NoDup (f <$> l) → x ∈ l → filter (λ y, f y = f x) l = [x].
Proof.
  intros Hnd Hx. induction l as [|y l IH]; [by apply elem_of_nil in Hx|].
  change (NoDup (f y :: (f <$> l))) in Hnd. apply list.NoDup_cons in Hnd as [Hy Hnd]. rewrite filter_cons. apply elem_of_cons in Hx as [->|Hx].
  - rewrite decide_True by done. f_equal. apply filter_none. apply list.Forall_forall. intros z Hz E. apply Hy. rewrite <- E. by apply list_elem_of_fmap_2.
  - rewrite decide_False; [by apply IH|]. intros E. apply Hy. rewrite E. by apply list_elem_of_fmap_2.
Qed.
Lemma zip_read_entry archive e : NoDup (ze_name <$> archive) → e ∈ archive → zip_read archive (ze_name e) = ze_data e.
Proof. intros Hnd He. unfold zip_read. by rewrite (filter_unique ze_name). Qed.
Lemma safe_parts_plain name l : safe_zip_parts name = Some l → plain l.
Proof. unfold safe_zip_parts. by case_decide; intros [= <-]. Qed.
Lemma entry_rel_plain prefix e rel : entry_rel prefix e = Ok (Some rel) → plain rel ∧ rel ≠ [].
Proof.
  unfold entry_rel. destruct (ze_dir e); [done|]. destruct (safe_zip_parts (ze_name e)) as [l|] eqn:E; [|done]. apply safe_parts_plain in E. case_decide as Hp.
  - case_decide as Hl; [done|]. by intros [= <-].
  - destruct (negb _); [done|]. case_decide as Hd; [done|]. intros [= <-]. split; [|done]. intros Hin. apply E. rewrite <- (take_drop (length prefix) l).
    apply elem_of_app. by right.
Qed.

(** What is written, in order: where, below the destination, and what. *)
Definition written (prefix : list (list N)) (l : list zip_entry) : list (list (list N) * list ascii) :=
  omap (λ e, match entry_rel prefix e, ze_data e with Ok (Some rel), Ok data => Some (rel, data) | _, _ => None end) l.
(** An entry's data has the size it gives. *)
Definition sized (e : zip_entry) : Prop := 0 ≤ ze_size e ∧ ∀ data, ze_data e = Ok data → Z.of_nat (length data) = ze_size e.

Lemma tree_bytes_write m q data : tree_bytes (<[q := Regular data]> m) ≤ tree_bytes m + Z.of_nat (length data).
Proof.
  destruct (m !! q) as [n|] eqn:E; [|rewrite tree_bytes_insert by done; cbn; lia].
  rewrite <- (insert_delete_id m q n) at 2 by done. rewrite <- insert_delete_eq, !tree_bytes_insert by apply lookup_delete_eq.
  assert (0 ≤ node_bytes n) by (destruct n; cbn; lia). cbn. lia.
Qed.

Section unpack.
Context (root dest prefix : list (list N)) (archive : list zip_entry) (max : option Z).
Local Abbreviation apipi := (root ++ [APIPI_DIR]).
Context (Hplain : plain dest) (Hbelow : below root dest) (Hnot : ∀ q, dest `prefix_of` q → ¬ apipi `prefix_of` q).
Context (Hnames : NoDup (ze_name <$> archive)) (Hsized : Forall sized archive).

(** Changes on the way to the destination or below it. *)
Definition local_to (m m1 : gmap (list (list N)) node) : Prop := ∀ q, m1 !! q ≠ m !! q → (m !! q = None ∧ q `prefix_of` dest) ∨ below dest q.
Lemma local_trans m m1 m2 : local_to m m1 → local_to m1 m2 → local_to m m2.
Proof.
  intros H1 H2 q Hq. destruct (decide (m1 !! q = m !! q)) as [E|Hn]; [rewrite <- E; apply H2; by rewrite E|by apply H1].
Qed.
Lemma target_facts rel : plain rel → rel ≠ [] → below dest (dest ++ rel) ∧ inside root apipi (dest ++ rel) ∧ plain (dest ++ rel).
Proof.
  intros Hp Hne. assert (below dest (dest ++ rel)) as Hb.
  { split; [by apply prefix_app_r|]. intros E. apply (f_equal length) in E. rewrite length_app in E. destruct rel; [done|cbn in E; lia]. }
  split_and!; [done| |by intros [?|?]%elem_of_app; [apply Hplain|apply Hp]].
  split; [eapply prefix_below; [by destruct Hbelow|done]|apply Hnot; by destruct Hb].
Qed.
Lemma mkdir_entry m rel m2 :
  ready root root m → plain rel → rel ≠ [] → mkdirs m (parent (dest ++ rel)) = Ok m2 →
  confined m root m2 ∧ local_to m m2 ∧ tree_bytes m2 = tree_bytes m.
Proof.
  intros Hr Hp Hne Hm2. destruct (target_facts rel Hp Hne) as (Hb & Hin & Hpt).
  assert (real m (dest ++ rel)) as Hreal by (eapply real_below; [apply Hr..|by destruct Hin]).
  split_and!; [by eapply mkdirs_confined; [apply Hr|..]| |by eapply mkdir_from_bytes].
  apply mkdirs_spec in Hm2 as (_ & _ & Hm2); [|by eapply real_prefix]. intros q Hq. rewrite Hm2 in Hq.
  destruct (decide (added _ _ _ _)) as [(_ & Hpre & Hnone)|]; [|done].
  assert (q `prefix_of` dest ++ rel) as Hpre' by (etrans; [done|apply parent_prefix]).
  destruct (prefix_weak_total q dest _ Hpre' ltac:(by apply prefix_app_r)) as [?|Hd']; [by left|].
  destruct (decide (dest = q)) as [<-|]; [by left|]. right. by split.
Qed.
Lemma put_entry m rel data m2 m3 :
  ready root root m → plain rel → rel ≠ [] → mkdirs m (parent (dest ++ rel)) = Ok m2 → write_bytes m2 (dest ++ rel) data = Ok m3 →
  confined m root m3 ∧ local_to m m3 ∧ m3 !! (dest ++ rel) = Some (Regular data) ∧ (∀ q, q ≠ dest ++ rel → kept_file m m3 q)
  ∧ tree_bytes m3 ≤ tree_bytes m + Z.of_nat (length data).
Proof.
  intros Hr Hp Hne Hm2 Hm3. destruct (target_facts rel Hp Hne) as (Hb & Hin & Hpt).
  assert (put_file m (dest ++ rel) data = (m3, Ok ())) as Hput by (unfold put_file; by rewrite Hm2, Hm3).
  eapply put_over in Hput as (Hc & Hok); [|done..]. destruct (Hok eq_refl) as [Hd Hk].
  destruct (mkdir_entry m rel m2 Hr Hp Hne Hm2) as (Hc2 & Hl2 & Hb2).
  apply write_bytes_spec in Hm3 as (_ & _ & _ & ->); [|eapply same_links_real; [apply Hc2|]; eapply real_below; [apply Hr..|by destruct Hin]|done].
  split_and!; [done| |done|done|rewrite <- Hb2; apply tree_bytes_write].
  intros q Hq. destruct (decide (q = dest ++ rel)) as [->|Hn]; [by right|]. rewrite lookup_insert_ne in Hq by done. by apply Hl2.
Qed.

Definition rel_opt (rel : list (list N)) : option (list (list N)) := Some (dest ++ rel).
(** What unpacking the entries [l] does, after [count] files of [total] bytes. *)
Record unpacked (m : gmap (list (list N)) node) (count total : Z) (l : list zip_entry) (m' : gmap (list (list N)) node) (r : res exn unit) : Prop := Unpacked {
  up_confined : confined m root m'; up_local : local_to m m';
  up_bytes : ∀ n, max = Some n → total ≤ n → tree_bytes m' ≤ tree_bytes m + (n - total);
  up_last : r = Ok () → last_stays root rel_opt id m' (written prefix l);
  up_count : r = Ok () → count ≤ MAX_SKILL_FILES → count + Z.of_nat (length (written prefix l)) ≤ MAX_SKILL_FILES;
  up_kept : r = Ok () → ∀ q, (∀ f, f ∈ written prefix l → dest ++ f.1 ≠ q) → kept_file m m' q
}.
Lemma unpack_stops m m1 count total l e : confined m root m1 → local_to m m1 → tree_bytes m1 = tree_bytes m → unpacked m count total l m1 (Err e).
Proof. intros Hc Hl Hb. split; try done. intros n -> Hn. lia. Qed.
Lemma unpack_next m m1 count total e l m' r rel data :
  entry_rel prefix e = Ok (Some rel) → ze_data e = Ok data → plain rel → rel ≠ [] → count + 1 ≤ MAX_SKILL_FILES → over max (total + ze_size e) = false →
  confined m root m1 → local_to m m1 → m1 !! (dest ++ rel) = Some (Regular data) → (∀ q, q ≠ dest ++ rel → kept_file m m1 q) →
  tree_bytes m1 ≤ tree_bytes m + ze_size e →
  unpacked m1 (count + 1) (total + ze_size e) l m' r → unpacked m count total (e :: l) m' r.
Proof.
  intros Erel Edata Hp Hne Hcount Hover Hc Hl Hd Hk Hb [Hc' Hl' Hb' Hlast' Hcount' Hk'].
  assert (written prefix (e :: l) = (rel, data) :: written prefix l) as Hw by (unfold written; cbn [omap list_omap]; by rewrite Erel, Edata).
  split; rewrite ?Hw.
  - by eapply confined_trans.
  - by eapply local_trans.
  - intros n -> Hn. cbn in Hover. apply Z.ltb_ge in Hover. specialize (Hb' n eq_refl Hover). lia.
  - intros ->. eapply last_stays_cons; [done|by apply target_facts| |by apply Hlast'].
    intros Hl2. apply (Hk' eq_refl); [|done]. intros f Hf. by destruct (Hl2 f _ Hf eq_refl).
  - intros -> _. specialize (Hcount' eq_refl Hcount). cbn [length]. lia.
  - intros -> q Hq d Hqd. apply (Hk' eq_refl); [intros f Hf; apply Hq; by right|]. apply Hk; [|done]. intros ->. by apply (Hq (rel, data)); [left|].
Qed.
Lemma unpack_entries_spec m count total l m' r :
  ready root root m → (∀ e, e ∈ l → e ∈ archive) → unpack_entries m dest prefix archive max count total l = (m', r) → unpacked m count total l m' r.
Proof.
  revert m count total. induction l as [|e l IH]; intros m count total Hr Hsub; cbn [unpack_entries].
  { intros [= <- <-]. split; [apply confined_refl|by intros q|intros; lia| |cbn; intros; lia|by intros _ q _ d].
    intros _ [|? ?] ? ? ? E; by simplify_eq/=. }
  assert (∀ err : exn, (m, Err err) = (m', r) → unpacked m count total (e :: l) m' r) as Hfail.
  { intros err [= <- <-]. apply unpack_stops; [apply confined_refl|by intros q|done]. }
  destruct (entry_rel prefix e) as [[rel|]|err] eqn:Erel; [| |apply Hfail].
  2: { intros Hu. apply IH in Hu as []; [|done|intros x Hx; apply Hsub; by right].
       assert (written prefix (e :: l) = written prefix l) as Hw by (unfold written; cbn [omap list_omap]; by rewrite Erel). split; rewrite ?Hw; done. }
  cbv zeta. destruct (MAX_SKILL_FILES <? count + 1) eqn:Ecount; [apply Hfail|]. destruct (over max (total + ze_size e)) eqn:Eover; [apply Hfail|].
  destruct (negb (is_under m (dest ++ rel) dest) && _); [apply Hfail|].
  destruct (mkdirs m (parent (dest ++ rel))) as [m2|] eqn:Em2; [|apply Hfail].
  assert (e ∈ archive) as He by (apply Hsub; left). rewrite zip_read_entry by done.
  apply entry_rel_plain in Erel as Hrel. destruct Hrel as [Hp Hne].
  destruct (mkdir_entry m rel m2 Hr Hp Hne Em2) as (Hc2 & Hl2 & Hb2).
  destruct (ze_data e) as [data|err] eqn:Edata; [|intros [= <- <-]; by apply unpack_stops].
  destruct (write_bytes m2 (dest ++ rel) data) as [m3|err] eqn:Em3; [|intros [= <- <-]; by apply unpack_stops].
  destruct (put_entry m rel data m2 m3 Hr Hp Hne Em2 Em3) as (Hc3 & Hl3 & Hd3 & Hk3 & Hb3).
  intros Hu. apply IH in Hu; [|by eapply confined_ready|intros x Hx; apply Hsub; by right].
  eapply unpack_next; [done|done|done|done|by apply Z.ltb_ge|done|exact Hc3|exact Hl3|exact Hd3|exact Hk3| |exact Hu].
  apply (proj1 (list.Forall_forall _ _) Hsized) in He as [_ Hs]. by rewrite <- (Hs _ Edata).
Qed.
End unpack.

(** ** The theorem *)

Lemma inspect_name archive name : inspect_archive archive = Ok name → skill_name_ok name = true.
Proof.
  unfold inspect_archive. destruct (manifests_of archive) as [[|[manifest l] [|? ?]]|]; try done. cbn [mbind res_bind].
  destruct (zip_read archive manifest) as [data|]; [|done]. cbn [mbind res_bind]. destruct (negb _); [done|].
  destruct (skill_name_ok _) eqn:E; [|done]. by intros [= <-].
Qed.
Lemma dest_not_own root n q : root ++ SKILLS_DIR ++ [n] `prefix_of` q → ¬ root ++ [APIPI_DIR] `prefix_of` q.
Proof.
  intros H1 H2. destruct (prefix_weak_total _ _ _ H1 H2) as [H|H]; apply prefix_app_inv in H.
  - apply prefix_length in H. cbn in H. lia.
  - apply prefix_cons_inv_1 in H. by vm_compute in H.
Qed.
Lemma mkdir_dest m root dest m1 :
  ready root root m → inside root (root ++ [APIPI_DIR]) dest → mkdirs m dest = Ok m1 →
  confined m root m1 ∧ local_to dest m m1 ∧ tree_bytes m1 = tree_bytes m.
Proof.
  intros Hr Hin Hm. pose proof (mkdir_from_bytes _ _ _ _ Hm) as Hb.
  apply mkdirs_spec in Hm as (Hl & _ & Hm); [|eapply real_below; [apply Hr..|by destruct Hin]].
  assert (∀ q, m1 !! q ≠ m !! q → m !! q = None ∧ q `prefix_of` dest ∧ q ≠ []) as Hq.
  { intros q. rewrite Hm. destruct (decide _) as [([_ Hne] & ? & ?)|]; [auto|done]. }
  split_and!; [|intros q H; left; by destruct (Hq q H) as (? & ? & _)|done]. split; [done|]. intros q H. destruct (Hq q H) as (Hnone & Hpre & Hne).
  eapply (on_the_way m root); [apply Hr|apply grown_refl|exact Hin|done..].
Qed.

(** C28: In a workspace without links, for a package whose entry names are distinct and state
    their true sizes: unpacking a skill whose check fails changes nothing; otherwise it goes
    to a new directory of `.agents/skills` in the workspace, found whatever is there already,
    and only that directory, and those on the way to it, change, by no more bytes than the
    limit, also when it stops half-way.  When it succeeds every entry of the package is
    there, the last of those with one path, at most 500 of them.  A package that names one
    entry twice can pass the limit ([duplicates_pass_limit]). *)
Theorem skill_unpacked open_zip m root data archive max m' r :
  open_zip data = Some archive → NoDup (ze_name <$> archive) → Forall sized archive → ready root root m → plain root →
  unpack_skill_zip open_zip m root data max = (m', r) →
  match inspect_archive archive with
  | Err e => m' = m ∧ r = Err e
  | Ok name => ∃ k, let dest := root ++ SKILLS_DIR ++ [numbered_name name k] in
      m !! dest = None ∧ confined m root m' ∧ local_to dest m m'
      ∧ (∀ n, max = Some n → 0 ≤ n → tree_bytes m' ≤ tree_bytes m + n)
      ∧ (∀ d, r = Ok d → d = dest ∧ has_manifest m' dest = true
          ∧ last_stays root (rel_opt dest) id m' (written (zip_prefix archive) archive)
          ∧ Z.of_nat (length (written (zip_prefix archive) archive)) ≤ MAX_SKILL_FILES)
  end.
Proof.
  intros Hz Hnd Hs Hr Hp. unfold unpack_skill_zip, inspect_skill_zip. rewrite Hz.
  destruct (inspect_archive archive) as [name|e] eqn:Ei; [|by intros [= <- <-]]. apply inspect_name in Ei as Hname.
  assert (plain (root ++ SKILLS_DIR)) as Hpd.
  { intros [?|H]%elem_of_app; [by apply Hp|]. by apply (bool_decide_pack _) in H; vm_compute in H. }
  assert (∀ c, below root (root ++ SKILLS_DIR ++ [c])) as Hbelow.
  { intros c. split; [by apply prefix_app_r|]. intros E. apply (f_equal length) in E. rewrite length_app in E. cbn in E. lia. }
  assert (∀ c, real m ((root ++ SKILLS_DIR) ++ [c])) as Hreal.
  { intros c. rewrite <- app_assoc. eapply real_below; [apply Hr..|apply Hbelow]. }
  destruct (free_dest_found m (root ++ SKILLS_DIR) name Hpd Hreal Hname) as (k & -> & Hk & Hfree). rewrite <- app_assoc in *. intros Hu. exists k.
  set (dest := root ++ SKILLS_DIR ++ [numbered_name name k]) in *.
  assert (plain dest) as Hdp by (unfold dest; rewrite app_assoc; apply plain_snoc; [done|by apply numbered_plain]).
  assert (inside root (root ++ [APIPI_DIR]) dest) as Hin by (split; [apply Hbelow|by apply (dest_not_own root (numbered_name name k))]).
  cbv zeta. split; [done|].
  destruct (mkdirs m dest) as [m1|] eqn:Em1; [|injection Hu as <- <-; split_and!; [apply confined_refl|by intros q|intros; lia|done]].
  destruct (mkdir_dest m root dest m1 Hr Hin Em1) as (Hc1 & Hl1 & Hb1).
  destruct (unpack_entries m1 dest _ archive max 0 0 archive) as [m2 r2] eqn:Eu.
  eapply (unpack_entries_spec root dest) in Eu as [Hc2 Hl2 Hb2 Hlast Hcount _];
    [|done|apply Hbelow|intros q; apply dest_not_own|done|done|by eapply confined_ready|done].
  assert (m' = m2) as -> by (destruct r2 as [[]|]; [destruct (has_manifest m2 dest)|]; by injection Hu).
  split_and!; [by eapply confined_trans|by eapply local_trans|intros n -> Hn; specialize (Hb2 n eq_refl Hn); lia|].
  intros d ->. destruct r2 as [[]|]; [|done]. destruct (has_manifest m2 dest) eqn:Eh; [|done]. injection Hu as <-. specialize (Hcount eq_refl ltac:(by vm_compute)).
  split_and!; [done|done|by apply Hlast|lia].
Qed.

(** ** Examples *)

Definition entry_of (name : string) (text : list ascii) : zip_entry := ZipEntry (lit name) (Z.of_nat (length text)) (Ok text).
Definition demo_manifest : list ascii := chars "---" ++ [char 10] ++ chars "name: 'x.1'" ++ [char 10] ++ chars "---".
Definition demo_archive : list zip_entry := [entry_of "s/" []; entry_of "s/SKILL.md" demo_manifest; entry_of "s\sub/a" (chars "12"); entry_of "t" (chars "3")].
Definition opens (archive : list zip_entry) : list ascii → option (list zip_entry) := λ _, Some archive.
Lemma skill_unpacked_witness :
  ∃ m', unpack_skill_zip (opens demo_archive) demo_disk demo_root [] (Some 30) = (m', Ok (demo_root ++ SKILLS_DIR ++ [lit "x.1"]))
    ∧ confined demo_disk demo_root m'.
Proof.
  destruct (unpack_skill_zip (opens demo_archive) demo_disk demo_root [] (Some 30)) as [m' r] eqn:E.
  assert (r = Ok (demo_root ++ SKILLS_DIR ++ [lit "x.1"])) as -> by (apply (f_equal snd) in E; vm_compute in E; by subst r).
  exists m'. split; [done|].
  destruct (skill_unpacked (opens demo_archive) demo_disk demo_root [] demo_archive (Some 30) m' _ eq_refl
    ltac:(by apply (bool_decide_unpack _); vm_compute) ltac:(repeat constructor; cbn; try lia; intros ? [= <-]; by vm_compute) demo_ready
    ltac:(by apply (bool_decide_unpack _); vm_compute) E) as (k & _ & Hc & _).
  exact Hc.
Defined.
(** The size that is counted is the entry's, what is written is what the name reads: with a
    name given twice the limit is passed before the second one is counted. *)
Lemma duplicates_pass_limit :
  let archive := [entry_of "SKILL.md" demo_manifest; entry_of "a" []; entry_of "a" (chars "666666")] in
  let '(m', r) := unpack_skill_zip (opens archive) demo_disk demo_root [] (Some 20) in
  r = Err setup_error ∧ tree_bytes m' = tree_bytes demo_disk + Z.of_nat (length demo_manifest) + 6
  ∧ 20 < Z.of_nat (length demo_manifest) + 6.
Proof. by vm_compute. Qed.
(** A manifest with another case is accepted, and never unpacked. *)
Lemma lower_manifest_refused :
  inspect_archive [entry_of "skill.md" demo_manifest] = Ok (lit "x.1")
  ∧ (unpack_skill_zip (opens [entry_of "skill.md" demo_manifest]) demo_disk demo_root [] None).2 = Err setup_error.
Proof. by vm_compute. Qed.
