(* ===== verification/Uploads.v ===== *)
(** * Uploads of clients (src/src/apipi/services/uploads.py)

    A client gets a URL for a temporary object and completes the upload: the object is
    copied to its final key and a file or a skill is stored.  A complete is cut at its
    awaits.  The row of the upload is locked within the transaction that reads it, and
    one process completes an upload once at a time; whoever is between those points
    holds the lock.  A call to the object store runs in a thread of its own: when its
    task is cancelled the locks are free at once, and the call happens later or never. *)

From S2P Require Import Prelude PyStd Db Fleet Blobs Files Fs Workspace Setup Skills.

Open Scope Z_scope.

(** ** Rows and requests *)

(** `UploadRow`; [up_done] is the status `complete`. *)
Record client_upload : Type := UploadRow {
  up_id : uuid; up_tenant : uuid; up_purpose : string; up_object : string; up_name : list N; up_type : string;
  up_declared : Z; up_user : option string; up_done : bool; up_expires : Z
}.
Definition is_skill_upload (r : client_upload) : bool := bool_decide (up_purpose r = "skill"%string).
Definition complete_row (r : client_upload) : client_upload :=
  UploadRow (up_id r) (up_tenant r) (up_purpose r) (up_object r) (up_name r) (up_type r) (up_declared r) (up_user r) true (up_expires r).
Definition UPLOAD_PURPOSES : list string := ["file"; "attachment"; "image"; "skill"]%string.
Definition DOCUMENT_PURPOSES : list string := ["user_data"; "assistants"]%string.
(** `_file_purpose` *)
Definition file_purpose_of (kind : string) (file_purpose : option string) : res exn string :=
  if decide (kind = "image"%string) then
    if decide (file_purpose = None ∨ file_purpose = Some "vision"%string) then Ok "vision"%string else Err (api_error "invalid_request")
  else match file_purpose with
  | None => Ok "user_data"%string
  | Some p =>
      if decide (p = "vision"%string) then Err (api_error "invalid_request")
      else if decide (p ∈ DOCUMENT_PURPOSES) then Ok p else Err (api_error p)
  end.
(** What `create` is called with. *)
Record upload_request : Type := UploadRequest {
  ur_purpose : string; ur_name : list N; ur_type : option string; ur_size : Z; ur_file_purpose : option string; ur_user : option string
}.

(** What a complete answers: the body of the file or of the skill. *)
Inductive upload_body : Type :=
| FileBody (id : string) (size created : Z) (name : list N) (purpose : string)
| SkillBody (id : string) (name : list N) (size created : Z).
#[global] Instance upload_body_eq_dec : EqDecision upload_body.
Proof. solve_decision. Defined.
Definition file_body (r : file_row) : upload_body := FileBody (f_id r) (f_size r) (f_created r) (f_filename r) (f_purpose r).
Definition skill_body (r : skill_row) : upload_body := SkillBody (k_id r) (k_name r) (k_size r) (k_created r).
(** The row a complete stores. *)
Inductive final_row : Type := FinalFile (r : file_row) | FinalSkill (r : skill_row).
Definition final_body (f : final_row) : upload_body := match f with FinalFile r => file_body r | FinalSkill r => skill_body r end.

(** ** The state *)

(** Where a complete waits. *)
Inductive upload_phase : Type :=
| Enter                                                        (* for the lock of its process *)
| Begin                                                        (* for the row *)
| Existing (r : client_upload)                                    (* for the file or skill of a completed upload *)
| Heading (r : client_upload) (purpose : string)
| Discarding (e : exn)                                         (* deletes the temporary object, then raises *)
| Copying (r : client_upload) (purpose : string) (size : Z) (etag : option string)
| Inspecting (r : client_upload) (size : Z)
| DiscardingSkill (e : exn)
| Inserting (r : client_upload) (f : final_row)
| Committing (r : client_upload) (f : final_row)
| Cleaning (b : upload_body)
| Failed (e : exn)                                             (* for the row, to drop its copy *)
| Dropping (r : client_upload) (e : exn)
| Finished (a : res exn upload_body).
Record upload_task : Type := UploadTask {
  ut_process : N; ut_tenant : uuid; ut_upload : uuid; ut_purpose : option string; ut_user : option string; ut_phase : upload_phase
}.
Definition at_phase (t : upload_task) (p : upload_phase) : upload_task :=
  UploadTask (ut_process t) (ut_tenant t) (ut_upload t) (ut_purpose t) (ut_user t) p.
(** Within the transaction that locks the row. *)
Definition in_txn (p : upload_phase) : bool :=
  match p with
  | Existing _ | Heading _ _ | Discarding _ | Copying _ _ _ _ | Inspecting _ _ | DiscardingSkill _ | Inserting _ _ | Committing _ _ | Dropping _ _ => true
  | _ => false
  end.
(** Within the lock of the process. *)
Definition in_lock (p : upload_phase) : bool := match p with Enter | Finished _ => false | _ => true end.

(** A call to the store or the database: done, failed before it did anything, or done with
    its answer lost. *)
Inductive outcome : Set := Done | Fails | Lost.
#[global] Instance outcome_eq_dec : EqDecision outcome.
Proof. solve_decision. Defined.

(** A call that a cancelled task leaves running: of the temporary object, or of the copy. *)
Inductive left_call : Type :=
| LeftTemp (tenant upload : uuid)
| LeftCopy (r : client_upload) (etag : option string)
| LeftDrop (r : client_upload).
Definition left_by (t : upload_task) : list left_call :=
  match ut_phase t with
  | Discarding _ | DiscardingSkill _ | Cleaning _ => [LeftTemp (ut_tenant t) (ut_upload t)]
  | Copying r _ _ etag => [LeftCopy r etag]
  | Dropping r _ => [LeftDrop r]
  | _ => []
  end.
(** The file or skill whose object such a call changes. *)
Definition lands_on (c : left_call) : option string :=
  match c with LeftTemp _ _ => None | LeftCopy r _ | LeftDrop r => Some (up_object r) end.

Section uploads.
Context {S : Type} `{ObjectStore S}.
Context (settings : file_settings) (open_zip : list ascii → option (list zip_entry)).
(** `head_object` and `copy_object` with `CopySourceIfMatch`. *)
Context (s3_head : S → namespace → list ascii → option (Z * option string)).
Context (s3_copy : S → namespace → list ascii → namespace → list ascii → option string → res exn S).

Record upload_world : Type := UploadWorld {
  uw_now : Z; uw_uploads : list client_upload; uw_files : fdb; uw_skills : list skill_row; uw_store : S;
  uw_tasks : gmap nat upload_task; uw_erasing : list (namespace * list ascii);
  uw_left : list left_call                                       (* of cancelled tasks *)
}.
Definition set_now (w : upload_world) (now : Z) : upload_world :=
  UploadWorld now (uw_uploads w) (uw_files w) (uw_skills w) (uw_store w) (uw_tasks w) (uw_erasing w) (uw_left w).
Definition set_store (w : upload_world) (s : S) : upload_world :=
  UploadWorld (uw_now w) (uw_uploads w) (uw_files w) (uw_skills w) s (uw_tasks w) (uw_erasing w) (uw_left w).
Definition set_tasks (w : upload_world) (tasks : gmap nat upload_task) : upload_world :=
  UploadWorld (uw_now w) (uw_uploads w) (uw_files w) (uw_skills w) (uw_store w) tasks (uw_erasing w) (uw_left w).
Definition set_uploads (w : upload_world) (l : list client_upload) : upload_world :=
  UploadWorld (uw_now w) l (uw_files w) (uw_skills w) (uw_store w) (uw_tasks w) (uw_erasing w) (uw_left w).
Definition set_rows (w : upload_world) (files : fdb) (skills : list skill_row) (erasing : list (namespace * list ascii)) : upload_world :=
  UploadWorld (uw_now w) (uw_uploads w) files skills (uw_store w) (uw_tasks w) erasing (uw_left w).
Definition set_left (w : upload_world) (l : list left_call) : upload_world :=
  UploadWorld (uw_now w) (uw_uploads w) (uw_files w) (uw_skills w) (uw_store w) (uw_tasks w) (uw_erasing w) l.

(** `get_client_upload` *)
Definition is_upload (tenant upload : uuid) (r : client_upload) : bool := bool_decide (up_tenant r = tenant ∧ up_id r = upload).
Definition upload_visible (user : option string) (r : client_upload) : bool :=
  match user with None => true | Some u => bool_decide (up_user r = None ∨ up_user r = Some u) end.
Definition get_client_upload (rows : list client_upload) (tenant upload : uuid) (user : option string) : option client_upload :=
  find_row (λ r, is_upload tenant upload r && upload_visible user r) rows.
(** The keys: of the upload, and of the file or skill. *)
Definition upload_key (r : client_upload) : list ascii := upload_object_id (up_tenant r) (up_id r).
Definition final_ns (r : client_upload) : namespace := if is_skill_upload r then NS_SKILLS else NS_FILES.
Definition final_key (r : client_upload) : res exn (list ascii) := file_object_id (up_tenant r) (chars (up_object r)).

(** ** Creating *)

(** `create`, up to the URL: the row it stores. *)
Definition upload_create (is_s3 : bool) (u : upload_request) (tenant upload object : uuid) (now ttl : Z) : res exn client_upload :=
  if negb (bool_decide (ur_purpose u ∈ UPLOAD_PURPOSES)) then Err (api_error "invalid_request")
  else if (ur_size u <? 1) || (max_file_bytes settings <? ur_size u) then Err (api_error "payload_too_large")
  else if negb is_s3 then Err (api_error "presign_unsupported")
  else
    let is_file := negb (bool_decide (ur_purpose u = "skill"%string)) in
    _ ← (if is_file then file_purpose_of (ur_purpose u) (ur_file_purpose u) else Ok ""%string);
    _ ← (if decide (ur_purpose u = "image"%string) then check_image settings (ur_type u) (ur_size u) else Ok ""%string);
    let ctype := py_strip (default ""%string (ur_type u)) in
    let name := ustrip (ur_name u) in
    Ok (UploadRow upload tenant (ur_purpose u) (if is_file then new_file_id object else new_skill_id object)
          (if decide (name = []) then lit "upload" else name) (if decide (ctype = ""%string) then "application/octet-stream"%string else ctype)
          (ur_size u) (ur_user u) false (now + ttl)).

(** ** Completing *)

(** The lock a task waits for is free: no other task is where it is held. *)
Definition nobody (w : upload_world) (i : nat) (P : upload_task → bool) : bool :=
  forallb (λ p, bool_decide (p.1 = i) || negb (P p.2)) (map_to_list (uw_tasks w)).
Definition lock_free (w : upload_world) (i : nat) (t : upload_task) : bool :=
  nobody w i (λ x, bool_decide (ut_process x = ut_process t ∧ ut_upload x = ut_upload t) && in_lock (ut_phase x)).
Definition row_free (w : upload_world) (i : nat) (t : upload_task) : bool :=
  nobody w i (λ x, bool_decide (ut_tenant x = ut_tenant t ∧ ut_upload x = ut_upload t) && in_txn (ut_phase x)).

Definition store_failed : exn := ObjectStoreExn "" "" None.
Definition db_failed : exn := OtherExn None.
(** A call that changes the store: what is left of it, and whether it raised. *)
Definition store_call (s : S) (o : outcome) (r : res exn S) : S * option exn :=
  match o, r with
  | Fails, _ => (s, Some store_failed)
  | Lost, Ok s' => (s', Some store_failed)
  | Done, Ok s' => (s', None)
  | _, Err e => (s, Some e)
  end.
Definition delete_upload (w : upload_world) (t : upload_task) : res exn S := os_delete (uw_store w) NS_UPLOADS (upload_object_id (ut_tenant t) (ut_upload t)).
(** After the row is read: `_complete` up to `_finish`. *)
Definition after_begin (w : upload_world) (t : upload_task) : upload_phase :=
  match get_client_upload (uw_uploads w) (ut_tenant t) (ut_upload t) (ut_user t) with
  | None => Finished (Err NotFoundExn)
  | Some r =>
      match (if is_skill_upload r then Ok ""%string else file_purpose_of (up_purpose r) (ut_purpose t)) with
      | Err e => Finished (Err e)
      | Ok purpose =>
          if up_done r then Existing r
          else if up_expires r <? uw_now w then Finished (Err (api_error "upload_expired"))
          else Heading r purpose
      end
  end.
Definition existing_body (w : upload_world) (t : upload_task) (r : client_upload) : res exn upload_body :=
  if is_skill_upload r then
    match get_skill (uw_skills w) (ut_tenant t) (up_object r) with Some k => Ok (skill_body k) | None => Err NotFoundExn end
  else match get_file (uw_files w) (ut_tenant t) (up_object r) (ut_user t) with Some f => Ok (file_body f) | None => Err NotFoundExn end.
Definition after_head (w : upload_world) (r : client_upload) (purpose : string) : upload_phase :=
  match s3_head (uw_store w) NS_UPLOADS (upload_key r) with
  | None => Finished (Err (api_error "upload_incomplete"))
  | Some (size, etag) =>
      if Z.min (max_file_bytes settings) (up_declared r) <? size then Discarding (api_error "payload_too_large")
      else if decide (up_purpose r = "image"%string) then
        match check_image settings (Some (up_type r)) size with Err e => Discarding e | Ok _ => Copying r purpose size etag end
      else Copying r purpose size etag
  end.
Definition new_file_row (r : client_upload) (purpose : string) (size now : Z) : file_row :=
  FileRow (up_object r) (up_tenant r) (up_name r) purpose (up_purpose r) (up_user r) size (Some (up_type r)) now.
Definition copy_object (w : upload_world) (r : client_upload) (etag : option string) : res exn S :=
  key ← final_key r; s3_copy (uw_store w) NS_UPLOADS (upload_key r) (final_ns r) key etag.
Definition drop_object (w : upload_world) (r : client_upload) : res exn S :=
  key ← final_key r; os_delete (uw_store w) (final_ns r) key.
Definition left_result (w : upload_world) (c : left_call) : res exn S :=
  match c with
  | LeftTemp tenant upload => os_delete (uw_store w) NS_UPLOADS (upload_object_id tenant upload)
  | LeftCopy r etag => copy_object w r etag
  | LeftDrop r => drop_object w r
  end.
(** `except SetupError`, which becomes an API error of the same code. *)
Definition is_setup_error (e : exn) : bool := match e with OtherExn (Some code) => bool_decide (code = "invalid_request"%string) | _ => false end.
Definition after_inspect (w : upload_world) (r : client_upload) (size : Z) : upload_phase :=
  match (key ← final_key r; get_sized (uw_store w) NS_SKILLS key size) with
  | Err e => Failed e
  | Ok None => Failed (api_error "upload_incomplete")
  | Ok (Some data) =>
      match inspect_skill_zip open_zip data with
      | Err e => if is_setup_error e then DiscardingSkill e else Failed e
      | Ok name => Inserting r (FinalSkill (SkillRow (up_object r) (up_tenant r) name size (uw_now w)))
      end
  end.
(** The rows with the new one; [None] when a constraint refuses it. *)
Definition insert_final (w : upload_world) (f : final_row) : option (fdb * list skill_row) :=
  match f with
  | FinalFile r => match create_file (uw_files w) r with Ok d => Some (d, uw_skills w) | Err _ => None end
  | FinalSkill r => match create_skill (uw_skills w) r with Ok l => Some (uw_files w, l) | Err _ => None end
  end.
Definition commit (w : upload_world) (r : client_upload) (f : final_row) : option upload_world :=
  '(files, skills) ← insert_final w f;
  Some (set_rows (set_uploads w (update_where (is_upload (up_tenant r) (up_id r)) complete_row (uw_uploads w))) files skills (uw_erasing w)).
(** `_drop_copies`, when it has the row. *)
Definition after_failed (w : upload_world) (t : upload_task) (e : exn) : upload_phase :=
  match get_client_upload (uw_uploads w) (ut_tenant t) (ut_upload t) None with
  | None => Finished (Err e)
  | Some r => if up_done r then Finished (Err e) else Dropping r e
  end.

(** One turn of a task: its world and phase after it; [None] while it waits for a lock. *)
Definition task_turn (w : upload_world) (i : nat) (t : upload_task) (o : outcome) : option (upload_world * upload_phase) :=
  match ut_phase t with
  | Enter => if lock_free w i t then Some (w, Begin) else None
  | Begin =>
      if negb (row_free w i t) then None
      else Some (w, if decide (o = Done) then after_begin w t else Finished (Err db_failed))
  | Existing r => Some (w, if decide (o = Done) then Finished (existing_body w t r) else Finished (Err db_failed))
  | Heading r purpose => Some (w, if decide (o = Done) then after_head w r purpose else Finished (Err store_failed))
  | Discarding e =>
      let '(s, failed) := store_call (uw_store w) o (delete_upload w t) in Some (set_store w s, Finished (Err (default e failed)))
  | Copying r purpose size etag =>
      let '(s, failed) := store_call (uw_store w) o (copy_object w r etag) in
      Some (set_store w s,
        match failed with
        | Some e => Finished (Err e)
        | None => if is_skill_upload r then Inspecting r size else Inserting r (FinalFile (new_file_row r purpose size (uw_now w)))
        end)
  | Inspecting r size => Some (w, if decide (o = Done) then after_inspect w r size else Failed store_failed)
  | DiscardingSkill e =>
      let '(s, failed) := store_call (uw_store w) o (delete_upload w t) in Some (set_store w s, Failed (default e failed))
  | Inserting r f =>
      Some (w, if decide (o = Done) then match insert_final w f with Some _ => Committing r f | None => Failed IntegrityExn end else Failed db_failed)
  | Committing r f =>
      match o, commit w r f with
      | Fails, _ => Some (w, Failed db_failed)
      | _, None => Some (w, Failed IntegrityExn)
      | Done, Some w' => Some (w', Cleaning (final_body f))
      | Lost, Some w' => Some (w', Failed db_failed)
      end
  | Cleaning b => let '(s, _) := store_call (uw_store w) o (delete_upload w t) in Some (set_store w s, Finished (Ok b))
  | Failed e =>
      if negb (row_free w i t) then None else Some (w, if decide (o = Done) then after_failed w t e else Finished (Err e))
  | Dropping r e =>
      let '(s, _) := store_call (uw_store w) o (drop_object w r) in Some (set_store w s, Finished (Err e))
  | Finished _ => None
  end.
Definition run_task (w : upload_world) (i : nat) (o : outcome) : option upload_world :=
  t ← uw_tasks w !! i; '(w', p) ← task_turn w i t o; Some (set_tasks w' (<[i := at_phase t p]> (uw_tasks w'))).

(** ** Everything that happens *)

(** The ids of new rows are random: no row has them, and nothing under them is being erased. *)
Definition unused (w : upload_world) (r : client_upload) : Prop :=
  (up_id r ∉ up_id <$> uw_uploads w) ∧ (up_object r ∉ up_object <$> uw_uploads w)
  ∧ (up_object r ∉ f_id <$> fd_files (uw_files w)) ∧ (up_object r ∉ k_id <$> uw_skills w)
  ∧ (∀ n key, final_key r = Ok key → (n, key) ∉ uw_erasing w).
(** Every file and skill has an id the service made. *)
Definition minted (id : string) : Prop := ∃ u, id = new_file_id u ∨ id = new_skill_id u.
(** A step is labelled with the file or skill whose object a call that was left behind
    changes, if it is one. *)
Inductive upload_step (w : upload_world) : option string → upload_world → Prop :=
| StepTick now : uw_now w ≤ now → upload_step w None (set_now w now)
| StepCreate is_s3 u tenant upload object ttl r :
    upload_create is_s3 u tenant upload object (uw_now w) ttl = Ok r → unused w r → upload_step w None (set_uploads w (uw_uploads w ++ [r]))
| StepPut tenant upload data s :                               (* a client with the URL *)
    os_put (uw_store w) NS_UPLOADS (upload_object_id tenant upload) data = Ok s → upload_step w None (set_store w s)
| StepRequest i process tenant upload purpose user :           (* a complete *)
    uw_tasks w !! i = None →
    upload_step w None (set_tasks w (<[i := UploadTask process tenant upload purpose user Enter]> (uw_tasks w)))
| StepRun i o w' : run_task w i o = Some w' → upload_step w None w'
| StepCancel i t :                                              (* or the end of its process *)
    uw_tasks w !! i = Some t →
    upload_step w None (set_left (set_tasks w (base.delete i (uw_tasks w))) (left_by t ++ uw_left w))
| StepLand c rest s o :
    uw_left w ≡ₚ c :: rest → s = (store_call (uw_store w) o (left_result w c)).1 →
    upload_step w (lands_on c) (set_left (set_store w s) rest)
| StepDeleteFile tenant file user d key :                      (* the row, the bytes later *)
    delete_file (uw_files w) tenant file user = (d, true) → file_object_id tenant (chars file) = Ok key →
    upload_step w None (set_rows w d (uw_skills w) ((NS_FILES, key) :: uw_erasing w))
| StepDeleteSkill tenant id l key :
    delete_skill (uw_skills w) tenant id = (l, true) → file_object_id tenant (chars id) = Ok key →
    upload_step w None (set_rows w (uw_files w) l ((NS_SKILLS, key) :: uw_erasing w))
| StepPutObject n tenant id data key s :                      (* of a file or skill that is stored without an upload *)
    minted id → (id ∉ up_object <$> uw_uploads w) → file_object_id tenant (chars id) = Ok key →
    os_put (uw_store w) n key data = Ok s → upload_step w None (set_store w s)
| StepNewFile r d :
    minted (f_id r) → (f_id r ∉ up_object <$> uw_uploads w) → create_file (uw_files w) r = Ok d →
    upload_step w None (set_rows w d (uw_skills w) (uw_erasing w))
| StepNewSkill r l :
    minted (k_id r) → (k_id r ∉ up_object <$> uw_uploads w) → create_skill (uw_skills w) r = Ok l →
    upload_step w None (set_rows w (uw_files w) l (uw_erasing w))
| StepPromote tenant ids user kinds :                          (* a file of a message becomes one of an environment *)
    upload_step w None (set_rows w (promote_attachments (uw_files w) tenant ids user kinds) (uw_skills w) (uw_erasing w))
| StepErase n key rest s o :
    uw_erasing w ≡ₚ (n, key) :: rest → s = (store_call (uw_store w) o (os_delete (uw_store w) n key)).1 →
    upload_step w None (set_rows (set_store w s) (uw_files w) (uw_skills w) rest).
(** Before any upload. *)
Definition upload_start (w : upload_world) : Prop :=
  uw_uploads w = [] ∧ uw_tasks w = ∅ ∧ uw_erasing w = [] ∧ uw_left w = []
  ∧ Forall minted (f_id <$> fd_files (uw_files w)) ∧ Forall minted (k_id <$> uw_skills w)
  ∧ NoDup (f_id <$> fd_files (uw_files w)) ∧ NoDup (k_id <$> uw_skills w).
(** What can be reached when only the objects in [lands] are changed by calls left behind. *)
Inductive upload_reach (lands : string → Prop) (w0 : upload_world) : upload_world → Prop :=
| ReachStart : upload_reach lands w0 w0
| ReachStep w l w' :
    upload_reach lands w0 w → upload_step w l w' → (∀ id, l = Some id → lands id) → upload_reach lands w0 w'.
End uploads.
Arguments UploadWorld {S}.
Arguments uw_now {S}.
Arguments uw_uploads {S}.
Arguments uw_files {S}.
Arguments uw_skills {S}.
Arguments uw_store {S}.
Arguments uw_tasks {S}.
Arguments uw_erasing {S}.
Arguments uw_left {S}.
