(* ===== verification/UploadsProps.v ===== *)
(** * Uploads: what a completed upload promises

    The invariant of the uploads, their tasks and their objects, kept by every step, and
    its consequences: the bytes of a completed upload do not change unless a call that a
    cancelled complete of it left running lands late, and it is completed once. *)

From S2P Require Import Prelude PyStd Db Fleet Blobs Files FilesProps FilesMessages Fs Workspace Setup Skills Uploads.

Open Scope Z_scope.

(** ** Ids and keys *)

Lemma hex_last u : ∃ c, list.last (uuid_hex u) = Some c ∧ edge_ok c = true.
Proof.
  pose proof (hex_digits_all 32 u) as Hall. pose proof (hex_digits_length 32 u) as Hlen. fold (uuid_hex u) in *.
  destruct (list.last (uuid_hex u)) as [c|] eqn:E; [|apply last_None in E; by rewrite E in Hlen].
  exists c. split; [done|]. rewrite list.Forall_forall in Hall. by apply hex_edge, Hall, last_Some_elem_of.
Qed.
Lemma hex_slash u : slash ∉ uuid_hex u.
Proof.
  intros H. pose proof (hex_digits_all 32 u) as Hall. rewrite list.Forall_forall in Hall. apply Hall, hex_edge in H. by destruct H.
Qed.
Lemma hex_id_object pre tenant u :
  from_option edge_ok true (head (chars pre)) = true → (slash ∉ chars pre) → (2 < length (chars pre))%nat →
  let id := chars pre ++ uuid_hex u in
  file_object_id tenant id = Ok (uuid_text tenant ++ [slash] ++ id) ∧ check_object_id (uuid_text tenant ++ [slash] ++ id) = Ok (uuid_text tenant ++ [slash] ++ id).
Proof.
  intros Hhead Hsl Hlen id. destruct (hex_last u) as (c & Hc & Hedge).
  assert (list.last id = Some c) as Hlast by (unfold id; by rewrite last_app, Hc).
  assert (slash ∉ id) as Hslash by (intros [?|H]%elem_of_app; [done|by apply (hex_slash u)]).
  assert (2 < length id)%nat as Hl by (unfold id; rewrite length_app; lia).
  assert (bad_part id = false) as Hbad.
  { apply bool_decide_eq_false. intros [E|[E|E]]; rewrite E in Hl; vm_compute in Hl; lia. }
  assert (id ≠ []) as Hne by (intros E; rewrite E in Hl; cbn in Hl; lia). split.
  - unfold file_object_id, check_object_id. rewrite strip_slashes_id; [|unfold id; destruct (chars pre); [cbn in Hlen; lia|done]|by rewrite Hlast].
    rewrite decide_False by done. rewrite split_on_none by done. cbn [existsb]. by rewrite Hbad.
  - change (uuid_text tenant ++ [slash] ++ id) with (join [slash] [uuid_text tenant; id]).
    eapply (check_parts _ tenant id c); [done|done|done|done|]. repeat constructor; try apply uuid_text_part; done.
Qed.
Definition object_text (tenant : uuid) (id : string) : list ascii := uuid_text tenant ++ [slash] ++ chars id.
Lemma minted_object tenant id :
  minted id → file_object_id tenant (chars id) = Ok (object_text tenant id) ∧ check_object_id (object_text tenant id) = Ok (object_text tenant id).
Proof.
  unfold object_text. intros (u & [-> | ->]); unfold new_file_id, new_skill_id; rewrite chars_of_chars; apply hex_id_object;
    try by apply (bool_decide_unpack _); vm_compute. all: vm_compute; lia.
Qed.
Lemma object_text_inj t t' id id' : object_text t id = object_text t' id' → id = id'.
Proof.
  intros E. apply app_sep_inj in E as [_ E]; [|apply uuid_text_part..]. apply (f_equal of_chars) in E. by rewrite !of_chars_chars in E.
Qed.
Lemma upload_key_ok tenant u : check_object_id (upload_object_id tenant u) = Ok (upload_object_id tenant u).
Proof.
  unfold upload_object_id. change (uuid_text tenant ++ [slash] ++ uuid_text u) with (join [slash] [uuid_text tenant; uuid_text u]).
  destruct (list.last (uuid_text u)) as [c|] eqn:E.
  - eapply (check_parts _ tenant (uuid_text u) c); [done|done|done| |]; [pose proof (uuid_text_last u) as H; by rewrite E in H|].
    repeat constructor; apply uuid_text_part.
  - apply last_None in E. destruct (uuid_text_ne u) as (c & l & E'). congruence.
Qed.

(** ** Final rows *)

Definition final_id (f : final_row) : string := match f with FinalFile r => f_id r | FinalSkill r => k_id r end.
Definition final_tenant (f : final_row) : uuid := match f with FinalFile r => f_tenant r | FinalSkill r => k_tenant r end.
Definition final_skill (f : final_row) : bool := match f with FinalFile _ => false | FinalSkill _ => true end.
Definition body_size (b : upload_body) : Z := match b with FileBody _ size _ _ _ => size | SkillBody _ _ size _ => size end.
Definition final_size (f : final_row) : Z := body_size (final_body f).
(** The row of an upload's file or skill. *)
Definition fits (r : client_upload) (f : final_row) : Prop :=
  final_id f = up_object r ∧ final_tenant f = up_tenant r ∧ final_skill f = is_skill_upload r.
(** Where the object of an upload is. *)
Definition place (r : client_upload) : namespace * list ascii := (final_ns r, object_text (up_tenant r) (up_object r)).
Lemma place_inj r r' : place r = place r' → up_object r = up_object r'.
Proof. intros E. exact (object_text_inj _ _ _ _ (f_equal snd E)). Qed.
Lemma final_key_ok r : minted (up_object r) → final_key r = Ok (place r).2 ∧ check_object_id (place r).2 = Ok (place r).2.
Proof. apply minted_object. Qed.
Lemma final_ns_uploads r : final_ns r ≠ NS_UPLOADS.
Proof. unfold final_ns. by destruct (is_skill_upload r). Qed.

Definition answer (p : upload_phase) : option upload_body :=
  match p with Cleaning b | Finished (Ok b) => Some b | _ => None end.
Definition same_upload (t t' : upload_task) : Prop := ut_tenant t = ut_tenant t' ∧ ut_upload t = ut_upload t'.

(** ** The invariant *)

Section uploads.
Context {S : Type} `{!ObjectStore S, !ObjectStoreLaws S}.
Context (settings : file_settings) (open_zip : list ascii → option (list zip_entry)).
Context (s3_head : S → namespace → list ascii → option (Z * option string)).
Context (s3_copy : S → namespace → list ascii → namespace → list ascii → option string → res exn S).
Context (tagged : string → list ascii → Prop).
Hypothesis tagged_fun : ∀ e b b', tagged e b → tagged e b' → b = b'.
Hypothesis head_ok : ∀ s n id size etag, check_object_id id = Ok id → s3_head s n id = Some (size, etag) →
  ∃ e data, etag = Some e ∧ os_get s n id = Ok (Some data) ∧ Z.of_nat (length data) = size ∧ tagged e data.
Hypothesis copy_ok : ∀ s n id n' id' e s', check_object_id id = Ok id → check_object_id id' = Ok id' → s3_copy s n id n' id' (Some e) = Ok s' →
  ∃ data, tagged e data ∧ ∀ m k, check_object_id k = Ok k → os_get s' m k = if decide (n' = m ∧ id' = k) then Ok (Some data) else os_get s m k.
(** The files and skills whose objects may be changed by a call that a cancelled complete
    left behind; the others are calm. *)
Context (lands : string → Prop).
Implicit Types (w : upload_world (S:=S)) (r : client_upload) (t : upload_task) (f : final_row).
Definition calm (r : client_upload) : Prop := ¬ lands (up_object r).

Definition object_at (s : S) (r : client_upload) : res exn (option (list ascii)) := os_get s (place r).1 (place r).2.
Definition has_size (s : S) (r : client_upload) (size : Z) : Prop := ∃ data, object_at s r = Ok (Some data) ∧ Z.of_nat (length data) = size.
Definition bounded (r : client_upload) (size : Z) : Prop := size ≤ Z.min (max_file_bytes settings) (up_declared r).
Definition final_in (w : upload_world (S:=S)) (f : final_row) : Prop :=
  match f with FinalFile r => r ∈ fd_files (uw_files w) | FinalSkill r => r ∈ uw_skills w end.
Definition row_at (w : upload_world (S:=S)) (t : upload_task) (r : client_upload) (is_done : bool) : Prop :=
  r ∈ uw_uploads w ∧ up_tenant r = ut_tenant t ∧ up_id r = ut_upload t ∧ up_done r = is_done.
Definition task_ok (w : upload_world (S:=S)) (t : upload_task) : Prop :=
  match ut_phase t with
  | Existing r => row_at w t r true
  | Heading r _ | Dropping r _ => row_at w t r false
  | Copying r _ size etag => row_at w t r false ∧ bounded r size ∧ ∃ e data, etag = Some e ∧ tagged e data ∧ Z.of_nat (length data) = size
  | Inspecting r size => row_at w t r false ∧ is_skill_upload r = true ∧ bounded r size ∧ (calm r → has_size (uw_store w) r size)
  | Inserting r f | Committing r f => row_at w t r false ∧ fits r f ∧ bounded r (final_size f) ∧ (calm r → has_size (uw_store w) r (final_size f))
  | Cleaning b | Finished (Ok b) => ∃ r, row_at w t r true ∧ ∀ f, final_in w f → final_id f = up_object r → final_body f = b
  | _ => True
  end.
(** No task has the row of [t]. *)
Definition alone (w : upload_world (S:=S)) (t : upload_task) : Prop :=
  ∀ j tj, uw_tasks w !! j = Some tj → in_txn (ut_phase tj) = true → ¬ same_upload t tj.
(** A call left behind names the object of an upload, and a copy what it copies. *)
Definition left_ok (c : left_call) : Prop :=
  match c with
  | LeftTemp _ _ => True
  | LeftCopy r etag => minted (up_object r) ∧ is_Some etag
  | LeftDrop r => minted (up_object r)
  end.
Record uploads_ok (w : upload_world (S:=S)) : Prop := {
  uo_ids : NoDup (up_id <$> uw_uploads w);
  uo_objects : NoDup (up_object <$> uw_uploads w);
  uo_minted : ∀ r, r ∈ uw_uploads w → minted (up_object r);
  uo_finals : ∀ f, final_in w f → minted (final_id f);
  uo_pending : ∀ r, r ∈ uw_uploads w → up_done r = false → (place r ∉ uw_erasing w) ∧ ∀ f, final_in w f → final_id f ≠ up_object r;
  uo_done : ∀ r f, r ∈ uw_uploads w → up_done r = true → final_in w f → final_id f = up_object r →
    fits r f ∧ bounded r (final_size f) ∧ (calm r → has_size (uw_store w) r (final_size f)) ∧ place r ∉ uw_erasing w;
  uo_one : ∀ f f', final_in w f → final_in w f' → final_skill f = final_skill f' → final_id f = final_id f' → f = f';
  uo_erasing : ∀ n key, (n, key) ∈ uw_erasing w → check_object_id key = Ok key;
  uo_left : ∀ c, c ∈ uw_left w → left_ok c;
  uo_tasks : ∀ i t, uw_tasks w !! i = Some t → task_ok w t;
  uo_apart : ∀ i j ti tj, uw_tasks w !! i = Some ti → uw_tasks w !! j = Some tj →
    in_txn (ut_phase ti) = true → in_txn (ut_phase tj) = true → same_upload ti tj → i = j;
  uo_answers : ∀ i j ti tj b b', uw_tasks w !! i = Some ti → uw_tasks w !! j = Some tj →
    answer (ut_phase ti) = Some b → answer (ut_phase tj) = Some b' → same_upload ti tj → b = b'
}.

(** What every step keeps of completed uploads: they stay, no final row of theirs appears,
    and the object of one that stays is the same. *)
Definition keeps (w w' : upload_world (S:=S)) : Prop :=
  ∀ r, r ∈ uw_uploads w → up_done r = true → r ∈ uw_uploads w' ∧
    ∀ f', final_in w' f' → final_id f' = up_object r →
      ∃ f, final_in w f ∧ final_id f = up_object r ∧ final_body f = final_body f' ∧ (calm r → object_at (uw_store w') r = object_at (uw_store w) r).
Lemma keeps_refl w : keeps w w.
Proof. intros r ? ?. split; [done|]. intros f ? ?. by exists f. Qed.
Lemma keeps_trans w1 w2 w3 : keeps w1 w2 → keeps w2 w3 → keeps w1 w3.
Proof.
  intros H1 H2 r Hr Hd. destruct (H1 r Hr Hd) as [Hr2 Hf1], (H2 r (proj1 (H1 r Hr Hd)) Hd) as [Hr3 Hf2]. split; [done|].
  intros f'' Hf'' Hid. destruct (Hf2 f'' Hf'' Hid) as (f' & Hf' & Hid' & Hb' & Ho'). destruct (Hf1 f' Hf' Hid') as (f & ? & ? & Hb & Ho).
  exists f. split_and!; [done..|congruence|]. intros Hc. by rewrite Ho', Ho.
Qed.

(** ** Rows and their tasks *)

Lemma same_row w r r' : uploads_ok w → r ∈ uw_uploads w → r' ∈ uw_uploads w → up_id r = up_id r' → r = r'.
Proof. intros Hw. apply nodup_proj, Hw. Qed.
Lemma same_object w r r' : uploads_ok w → r ∈ uw_uploads w → r' ∈ uw_uploads w → up_object r = up_object r' → r = r'.
Proof. intros Hw. apply nodup_proj, Hw. Qed.
Lemma row_at_same w t t' r r' d d' : uploads_ok w → row_at w t r d → row_at w t' r' d' → same_upload t t' → r = r'.
Proof. intros Hw (Hr & _ & Hi & _) (Hr' & _ & Hi' & _) [_ E]. eapply same_row; [done..|congruence]. Qed.
(** The row a task within the transaction has. *)
Definition phase_row (p : upload_phase) : option client_upload :=
  match p with
  | Existing r | Heading r _ | Dropping r _ | Copying r _ _ _ | Inspecting r _ | Inserting r _ | Committing r _ => Some r
  | _ => None
  end.
Lemma get_upload_row w tenant upload user r :
  get_client_upload (uw_uploads w) tenant upload user = Some r → r ∈ uw_uploads w ∧ up_tenant r = tenant ∧ up_id r = upload.
Proof.
  unfold get_client_upload, find_row. intros E%head_Some_elem_of. apply list_elem_of_filter in E as [Hp Hr].
  apply andb_true_iff in Hp as [Hp _]. apply bool_decide_eq_true in Hp as [-> ->]. done.
Qed.

(** ** Changes of the store *)

(** Keys whose object may change while no task acts: of the uploads themselves, of an
    upload that waits and that no task has, of what is being erased, and of others. *)
Definition touchable (w : upload_world (S:=S)) (n : namespace) (key : list ascii) : Prop :=
  n = NS_UPLOADS ∨ (n, key) ∈ uw_erasing w
  ∨ (∃ r, r ∈ uw_uploads w ∧ up_done r = false ∧ (n, key) = place r
      ∧ ∀ j tj, uw_tasks w !! j = Some tj → in_txn (ut_phase tj) = true → ¬ (ut_tenant tj = up_tenant r ∧ ut_upload tj = up_id r))
  ∨ (∃ tenant id, (id ∉ up_object <$> uw_uploads w) ∧ key = object_text tenant id)
  ∨ ∃ r, lands (up_object r) ∧ (n, key) = place r.
Definition only_at (P : namespace → list ascii → Prop) (s s' : S) : Prop :=
  ∀ n key, check_object_id key = Ok key → ¬ P n key → os_get s' n key = os_get s n key.
Lemma put_only_at (P : namespace → list ascii → Prop) s n key data s' :
  P n key → check_object_id key = Ok key → os_put s n key data = Ok s' → only_at P s s'.
Proof. intros HP Hk E m k Hc Hn. rewrite (os_get_put s n m key k data s') by done. rewrite decide_False; [done|]. by intros [<- <-]. Qed.
Lemma delete_only_at (P : namespace → list ascii → Prop) s n key s' :
  P n key → check_object_id key = Ok key → os_delete s n key = Ok s' → only_at P s s'.
Proof. intros HP Hk E m k Hc Hn. rewrite (os_get_delete s n m key k s') by done. rewrite decide_False; [done|]. by intros [<- <-]. Qed.
Lemma call_only_at (P : namespace → list ascii → Prop) s o (c : res exn S) :
  (∀ s', c = Ok s' → only_at P s s') → only_at P s (store_call s o c).1.
Proof. intros H. assert (only_at P s s) by done. destruct o, c; cbn; auto. Qed.
Lemma untouched_done w r f : uploads_ok w → calm r → r ∈ uw_uploads w → up_done r = true → final_in w f → final_id f = up_object r → ¬ touchable w (place r).1 (place r).2.
Proof.
  intros Hw Hc Hr Hd Hf Hid. destruct (uo_done w Hw r f Hr Hd Hf Hid) as (_ & _ & _ & He).
  intros [E|[E|[(r' & Hr' & Hd' & E & _)|[(tenant & id & Hni & E)|(r' & Hla & E)]]]].
  - by apply (final_ns_uploads r).
  - by rewrite <- surjective_pairing in E.
  - rewrite <- surjective_pairing in E. apply place_inj in E. apply (same_object w) in E; [|done..]. subst r'. congruence.
  - cbn in E. apply object_text_inj in E. subst id. apply Hni. by apply list_elem_of_fmap_2.
  - rewrite <- surjective_pairing in E. apply place_inj in E. apply Hc. by rewrite E.
Qed.
Lemma untouched_task w j tj r : uploads_ok w → calm r → uw_tasks w !! j = Some tj → in_txn (ut_phase tj) = true → row_at w tj r false →
  ¬ touchable w (place r).1 (place r).2.
Proof.
  intros Hw Hc Hj Hin (Hr & Ht & Hi & Hd). destruct (uo_pending w Hw r Hr Hd) as [He _].
  intros [E|[E|[(r' & Hr' & Hd' & E & Hno)|[(tenant & id & Hni & E)|(r' & Hla & E)]]]].
  - by apply (final_ns_uploads r).
  - by rewrite <- surjective_pairing in E.
  - rewrite <- surjective_pairing in E. apply place_inj in E. apply (same_object w) in E; [|done..]. subst r'. by apply (Hno j tj).
  - cbn in E. apply object_text_inj in E. subst id. apply Hni. by apply list_elem_of_fmap_2.
  - rewrite <- surjective_pairing in E. apply place_inj in E. apply Hc. by rewrite E.
Qed.
Lemma same_object_at w s r : uploads_ok w → r ∈ uw_uploads w → only_at (touchable w) (uw_store w) s →
  ¬ touchable w (place r).1 (place r).2 → object_at s r = object_at (uw_store w) r.
Proof. intros Hw Hr Ho Hn. apply Ho; [|done]. by apply minted_object, (uo_minted w Hw). Qed.
Lemma same_size w s r size : uploads_ok w → r ∈ uw_uploads w → only_at (touchable w) (uw_store w) s →
  ¬ touchable w (place r).1 (place r).2 → has_size (uw_store w) r size → has_size s r size.
Proof. intros Hw Hr Ho Hn (data & Hd & Hl). exists data. by rewrite (same_object_at w s r). Qed.
Lemma store_ok w s : uploads_ok w → only_at (touchable w) (uw_store w) s → uploads_ok (set_store w s) ∧ keeps w (set_store w s).
Proof.
  intros Hw Ho. split.
  - split; try apply Hw.
    + intros r f Hr Hd Hf Hid. destruct (uo_done w Hw r f Hr Hd Hf Hid) as (? & ? & Hs & ?). split_and!; [done..| |done].
      intros Hc. eapply (same_size w); [done..| |by apply Hs]. by eapply untouched_done.
    + intros i t Hi. pose proof (uo_tasks w Hw i t Hi) as Ht. unfold task_ok in *.
      destruct (ut_phase t) eqn:Ep; try done.
      * destruct Ht as (Hr & ? & ? & Hs). split_and!; [done..|]. intros Hc. eapply (same_size w); [done|apply Hr|done| |by apply Hs].
        eapply untouched_task; [done..| |done]. by rewrite Ep.
      * destruct Ht as (Hr & ? & ? & Hs). split_and!; [done..|]. intros Hc. eapply (same_size w); [done|apply Hr|done| |by apply Hs].
        eapply untouched_task; [done..| |done]. by rewrite Ep.
      * destruct Ht as (Hr & ? & ? & Hs). split_and!; [done..|]. intros Hc. eapply (same_size w); [done|apply Hr|done| |by apply Hs].
        eapply untouched_task; [done..| |done]. by rewrite Ep.
  - intros r Hr Hd. split; [done|]. intros f Hf Hid. exists f. split_and!; [done..|].
    intros Hc. eapply (same_object_at w); [done..|]. by eapply untouched_done.
Qed.

(** ** Tasks that come and go *)

Definition without (w : upload_world (S:=S)) (i : nat) : upload_world (S:=S) := set_tasks w (base.delete i (uw_tasks w)).
Lemma without_lookup w i j tj : uw_tasks (without w i) !! j = Some tj → i ≠ j ∧ uw_tasks w !! j = Some tj.
Proof. cbn. intros H%lookup_delete_Some. done. Qed.
Lemma without_ok w i : uploads_ok w → uploads_ok (without w i).
Proof.
  intros Hw. split; try apply Hw.
  - intros j t [_ Hj]%without_lookup. by apply (uo_tasks w Hw j).
  - intros j k tj tk [_ Hj]%without_lookup [_ Hk]%without_lookup. by apply (uo_apart w Hw).
  - intros j k tj tk b b' [_ Hj]%without_lookup [_ Hk]%without_lookup. by apply (uo_answers w Hw j k).
Qed.
Lemma without_alone w i t : uploads_ok w → uw_tasks w !! i = Some t → in_txn (ut_phase t) = true → alone (without w i) t.
Proof. intros Hw Hi Hin j tj [Hne Hj]%without_lookup Hin' Hs. by apply Hne, (uo_apart w Hw i j t tj). Qed.
Lemma row_free_alone w i t : row_free w i t = true → alone (without w i) t.
Proof.
  unfold row_free, nobody. rewrite forallb_forall. intros H j tj [Hne Hj]%without_lookup Hin [Ht Hu].
  specialize (H (j, tj)). cbn in H. rewrite bool_decide_eq_false_2 in H by done.
  rewrite bool_decide_eq_true_2, Hin in H by done. by discriminate H; apply list_elem_of_In, elem_of_map_to_list.
Qed.
Lemma alone_phase w t p : alone w t → alone w (at_phase t p).
Proof. done. Qed.
Lemma enter_ok w i t : uploads_ok w → uw_tasks w !! i = None → task_ok w t → (in_txn (ut_phase t) = true → alone w t) →
  (∀ b, answer (ut_phase t) = Some b → ∀ j tj b', uw_tasks w !! j = Some tj → answer (ut_phase tj) = Some b' → same_upload t tj → b = b') →
  uploads_ok (set_tasks w (<[i := t]> (uw_tasks w))).
Proof.
  intros Hw Hi Ht Ha Hans. split; try apply Hw.
  - intros j tj. cbn. intros [[<- <-]|[_ Hj]]%lookup_insert_Some; [done|]. by apply (uo_tasks w Hw j).
  - intros j k tj tk. cbn. intros [[<- <-]|[Hj' Hj]]%lookup_insert_Some [[<- <-]|[Hk' Hk]]%lookup_insert_Some Hinj Hink Hs; [done| | |by apply (uo_apart w Hw j k tj tk)].
    + by destruct (Ha Hinj k tk).
    + destruct (Ha Hink j tj); [done..|]. by destruct Hs.
  - intros j k tj tk b b'. cbn. intros [[<- <-]|[Hj' Hj]]%lookup_insert_Some [[<- <-]|[Hk' Hk]]%lookup_insert_Some Hb Hb' Hs;
      [congruence|by eapply Hans| |by apply (uo_answers w Hw j k tj tk)].
    symmetry. eapply Hans; [done..|]. by destruct Hs.
Qed.
Lemma keeps_tasks w l : keeps w (set_tasks w l).
Proof. intros r ? ?. split; [done|]. intros f ? ?. by exists f. Qed.

(** ** Changes of the rows *)

(** Rows of files and skills change: those that are new are of no upload, and what begins
    to be erased has lost its row. *)
Lemma rows_ok w d skills erasing :
  let w' := set_rows w d skills erasing in
  uploads_ok w → (∀ f f', final_in w' f → final_in w' f' → final_skill f = final_skill f' → final_id f = final_id f' → f = f') →
  (∀ n key, (n, key) ∈ erasing → check_object_id key = Ok key) →
  (∀ f', final_in w' f' → (∃ f, final_in w f ∧ final_id f = final_id f' ∧ final_tenant f = final_tenant f' ∧ final_skill f = final_skill f' ∧ final_body f = final_body f')
     ∨ (minted (final_id f') ∧ final_id f' ∉ up_object <$> uw_uploads w)) →
  (∀ r, r ∈ uw_uploads w → place r ∈ erasing → place r ∈ uw_erasing w
     ∨ ((∃ f, final_in w f ∧ final_id f = up_object r) ∧ ∀ f', final_in w' f' → final_id f' ≠ up_object r)) →
  uploads_ok w' ∧ keeps w w'.
Proof.
  intros w' Hw Hone Hcheck Hfin Her.
  assert (∀ r f', r ∈ uw_uploads w → final_in w' f' → final_id f' = up_object r →
    ∃ f, final_in w f ∧ final_id f = up_object r ∧ final_tenant f = final_tenant f' ∧ final_skill f = final_skill f' ∧ final_body f = final_body f') as Hold.
  { intros r f' Hr Hf' Hid. destruct (Hfin f' Hf') as [(f & Hf & E & Et & Es & Eb)|[_ Hni]].
    - exists f. by rewrite E.
    - exfalso. apply Hni. rewrite Hid. by apply list_elem_of_fmap_2. }
  split; [split|]; try apply Hw.
  - intros f' Hf'. destruct (Hfin f' Hf') as [(f & Hf & <- & _)|[? _]]; [|done]. by apply (uo_finals w Hw).
  - intros r Hr Hd. destruct (uo_pending w Hw r Hr Hd) as [He Hn]. split.
    + intros H. destruct (Her r Hr H) as [?|[(f & Hf & Hid) _]]; [done|by apply (Hn f)].
    + intros f' Hf' Hid. destruct (Hold r f' Hr Hf' Hid) as (f & Hf & E & _). by apply (Hn f).
  - intros r f' Hr Hd Hf' Hid. destruct (Hold r f' Hr Hf' Hid) as (f & Hf & E & Et & Es & Eb).
    destruct (uo_done w Hw r f Hr Hd Hf E) as ((? & ? & ?) & Hb & Hs & He). unfold fits, final_size in *. rewrite Eb in *. split_and!; try done; try congruence.
    intros Hpl. destruct (Her r Hr Hpl) as [?|[_ Hn]]; [done|by apply (Hn f')].
  - exact Hone.
  - exact Hcheck.
  - intros i t Hi. pose proof (uo_tasks w Hw i t Hi) as Ht. unfold task_ok in *. destruct (ut_phase t) as [| | | | | | | | | |b| | |[b|]]; try done.
    all: destruct Ht as (r & Hr & Hb); exists r; split; [done|]; intros f' Hf' Hid;
      destruct (Hold r f' (proj1 Hr) Hf' Hid) as (f & Hf & E & _ & _ & <-); by apply Hb.
  - intros r Hr Hd. split; [done|]. intros f' Hf' Hid. destruct (Hold r f' Hr Hf' Hid) as (f & Hf & E & _ & _ & Eb). by exists f.
Qed.

(** ** Completing *)

Lemma insert_final_spec w f d skills erasing : insert_final w f = Some (d, skills) →
  (∀ f', final_in (set_rows w d skills erasing) f' ↔ final_in w f' ∨ f' = f)
  ∧ (∀ f', final_in w f' → final_skill f' = final_skill f → final_id f' ≠ final_id f).
Proof.
  destruct f as [f|k]; cbn [insert_final]; unfold create_file, create_skill; (destruct (decide (_ ∈ _)) as [?|Hni]; [done|]).
  - destruct (decide _); [|done]. intros [= <- <-]. split.
    + intros [f'|k']; cbn; rewrite ?elem_of_app, ?list_elem_of_singleton; naive_solver.
    + intros [f'|k'] Hf' ?; [|done]. cbn in *. intros E. apply Hni. rewrite <- E. by apply list_elem_of_fmap_2.
  - intros [= <- <-]. split.
    + intros [f'|k']; cbn; rewrite ?elem_of_app, ?list_elem_of_singleton; naive_solver.
    + intros [f'|k'] Hf' ?; [done|]. cbn in *. intros E. apply Hni. rewrite <- E. by apply list_elem_of_fmap_2.
Qed.
Lemma completed_rows w r r' : uploads_ok w → r ∈ uw_uploads w →
  r' ∈ update_where (is_upload (up_tenant r) (up_id r)) complete_row (uw_uploads w) ↔ r' = complete_row r ∨ (r' ∈ uw_uploads w ∧ r' ≠ r).
Proof.
  intros Hw Hr. unfold update_where. rewrite list_elem_of_fmap. split.
  - intros (x & -> & Hx). destruct (is_upload _ _ x) eqn:E.
    + apply bool_decide_eq_true in E as [_ Hi]. left. by rewrite (same_row w x r).
    + right. split; [done|]. intros ->. unfold is_upload in E. by rewrite bool_decide_eq_true_2 in E.
  - intros [->|[Hr' Hne]].
    + exists r. split; [|done]. unfold is_upload. by rewrite bool_decide_eq_true_2.
    + exists r'. split; [|done]. destruct (is_upload _ _ r') eqn:E; [|done]. apply bool_decide_eq_true in E as [_ Hi].
      destruct Hne. by apply (same_row w).
Qed.
Lemma completed_proj {A} (g : client_upload → A) P l : (∀ r, g (complete_row r) = g r) → g <$> update_where P complete_row l = g <$> l.
Proof. intros Hg. unfold update_where. rewrite <- list_fmap_compose. apply list_fmap_ext. intros i r _. cbn. by destruct (P r). Qed.
Lemma commit_ok w t r f w' : uploads_ok w → alone w t → row_at w t r false → fits r f → bounded r (final_size f) → (calm r → has_size (uw_store w) r (final_size f)) →
  commit w r f = Some w' →
  uploads_ok w' ∧ keeps w w' ∧ task_ok w' (at_phase t (Cleaning (final_body f)))
  ∧ uw_tasks w' = uw_tasks w ∧ ∀ j tj b, uw_tasks w !! j = Some tj → answer (ut_phase tj) = Some b → ¬ same_upload t tj.
Proof.
  intros Hw Ha Hrow Hfit Hb Hsize. pose proof Hrow as (Hr & Ht & Hi & Hd). unfold commit.
  destruct (insert_final w f) as [[files skills]|] eqn:Ei; [|done]. cbn [mbind option_bind]. intros [= <-].
  destruct (insert_final_spec w f files skills (uw_erasing w) Ei) as [Hin Hnew].
  set (w' := set_rows _ _ _ _). assert (∀ f', final_in w' f' ↔ final_in w f' ∨ f' = f) as Hin' by (intros f'; rewrite <- Hin; by destruct f'). clear Hin.
  assert (∀ r', r' ∈ uw_uploads w' ↔ r' = complete_row r ∨ (r' ∈ uw_uploads w ∧ r' ≠ r)) as Hrows by (intros r'; by apply completed_rows).
  destruct (uo_pending w Hw r Hr Hd) as [Her Hno]. destruct Hfit as (Hid & Hten & Hsk).
  assert (∀ r1, r1 ∈ uw_uploads w → r1 ≠ r → final_id f ≠ up_object r1) as Hother.
  { intros r1 Hr1 Hne E. apply Hne. eapply (same_object w); [done..|congruence]. }
  assert (∀ j tj b, uw_tasks w !! j = Some tj → answer (ut_phase tj) = Some b → ¬ same_upload t tj) as Hans.
  { intros j tj b Hj Hb' Hs. pose proof (uo_tasks w Hw j tj Hj) as Htj. unfold task_ok in Htj.
    assert (∃ r1, row_at w tj r1 true) as (r1 & Hr1) by (destruct (ut_phase tj) as [| | | | | | | | | | | | |[|]]; try done; by destruct Htj as (r1 & ? & _); exists r1).
    assert (r = r1) as <- by (by eapply row_at_same). destruct Hr1 as (_ & _ & _ & ?). congruence. }
  split_and!; [split| | |done|done]; try apply Hw.
  - change (NoDup (up_id <$> update_where (is_upload (up_tenant r) (up_id r)) complete_row (uw_uploads w))). rewrite completed_proj by done. apply Hw.
  - change (NoDup (up_object <$> update_where (is_upload (up_tenant r) (up_id r)) complete_row (uw_uploads w))). rewrite completed_proj by done. apply Hw.
  - intros r1 [->|[Hr1 _]]%Hrows; [apply (uo_minted w Hw r Hr)|by apply (uo_minted w Hw)].
  - intros f' [Hf'| ->]%Hin'; [by apply (uo_finals w Hw)|]. rewrite Hid. by apply (uo_minted w Hw).
  - intros r1 [->|[Hr1 Hne]]%Hrows Hd1; [done|]. destruct (uo_pending w Hw r1 Hr1 Hd1) as [He1 Hn1]. split; [done|].
    intros f' [Hf'| ->]%Hin'; [by apply Hn1|by apply Hother].
  - intros r1 f' [->|[Hr1 Hne]]%Hrows Hd1 [Hf'| ->]%Hin' Hid1.
    + by destruct (Hno f' Hf').
    + done.
    + by apply (uo_done w Hw).
    + by destruct (Hother r1 Hr1 Hne).
  - intros f1 f2 [H1| ->]%Hin' [H2| ->]%Hin' Es E; [by apply (uo_one w Hw)|by destruct (Hnew f1)|by destruct (Hnew f2)|done].
  - intros j tj Hj. change (uw_tasks w !! j = Some tj) in Hj. pose proof (uo_tasks w Hw j tj Hj) as Htj.
    assert (∀ r1 d, row_at w tj r1 d → in_txn (ut_phase tj) = true ∨ d = true → row_at w' tj r1 d) as Hkeep.
    { intros r1 d (Hr1 & Ht1 & Hi1 & Hd1) Hcase. split_and!; try done. apply Hrows. right. split; [done|]. intros ->.
      destruct Hcase as [Hx| ->]; [|congruence]. apply (Ha j tj Hj Hx). split; congruence. }
    unfold task_ok in *. destruct (ut_phase tj) as [| | | | | | | | | |b| | |[b|]] eqn:Ep; try done; try (by auto);
      try (by destruct Htj as (? & ?); split; [apply Hkeep; auto|]).
    all: destruct Htj as (r1 & Hr1 & Hall); exists r1; split; [by auto|]; intros f' [Hf'| ->]%Hin' Hid1; [by apply Hall|];
      destruct Hr1 as (Hr1 & _ & _ & Hd1); destruct (Hother r1); [done|intros ->; congruence|done].
  - intros r1 Hr1 Hd1. assert (r1 ≠ r) as Hne by (intros ->; congruence). split; [apply Hrows; auto|].
    intros f' [Hf'| ->]%Hin' Hid1; [by exists f'|]. by destruct (Hother r1).
  - exists (complete_row r). split; [split_and!; [apply Hrows; auto|done..]|]. intros f' [Hf'| ->]%Hin' Hid1; [|done]. by destruct (Hno f' Hf').
Qed.
Lemma create_ok w r : uploads_ok w → unused w r → up_done r = false → minted (up_object r) →
  uploads_ok (set_uploads w (uw_uploads w ++ [r])) ∧ keeps w (set_uploads w (uw_uploads w ++ [r])).
Proof.
  intros Hw (Hi & Ho & Hf & Hk & He) Hd Hm.
  assert (∀ f, final_in w f → final_id f ≠ up_object r) as Hno.
  { intros [f|k] Hin E; cbn in E; [apply Hf|apply Hk]; rewrite <- E; by apply list_elem_of_fmap_2. }
  assert (∀ A (g : client_upload → A), NoDup (g <$> uw_uploads w) → (g r ∉ g <$> uw_uploads w) → NoDup (g <$> (uw_uploads w ++ [r]))) as Hnd.
  { intros A g H1 H2. rewrite fmap_app. apply list.NoDup_app. split_and!; [done| |cbn; apply list.NoDup_singleton].
    intros x Hx Hx'. apply list_elem_of_singleton in Hx' as ->. done. }
  assert (∀ r', r' ∈ uw_uploads w ++ [r] ↔ r' ∈ uw_uploads w ∨ r' = r) as Hrows by (intros; by rewrite elem_of_app, list_elem_of_singleton).
  split; [split|]; cbn [uw_uploads set_uploads]; try apply Hw.
  - apply Hnd; [apply Hw|done].
  - apply Hnd; [apply Hw|done].
  - intros r' [Hr'| ->]%Hrows; [by apply (uo_minted w Hw)|done].
  - intros r' [Hr'| ->]%Hrows Hd'; [by apply (uo_pending w Hw)|]. split; [|done].
    intros Hin. apply (He (final_ns r) (place r).2); [by apply final_key_ok|done].
  - intros r' f [Hr'| ->]%Hrows Hd'; [by apply (uo_done w Hw)|congruence].
  - intros j tj Hj. pose proof (uo_tasks w Hw j tj Hj) as Htj.
    assert (∀ r1 d, row_at w tj r1 d → row_at (set_uploads w (uw_uploads w ++ [r])) tj r1 d) as Hkeep by (intros r1 d (? & ?); split; [apply Hrows; by left|done]).
    unfold task_ok in *. destruct (ut_phase tj) as [| | | | | | | | | |b| | |[b|]] eqn:Ep; try done; try (by auto);
      try (by destruct Htj as (? & ?); split; [apply Hkeep; auto|]).
    all: destruct Htj as (r1 & Hr1 & Hall); exists r1; by auto.
  - intros r' Hr' Hd'. split; [apply Hrows; by left|]. intros f Hf' Hid. by exists f.
Qed.

(** ** Turns of a task *)

(** Task [t] may go on in phase [p]. *)
Definition may_be (w : upload_world (S:=S)) (t : upload_task) (p : upload_phase) : Prop :=
  task_ok w (at_phase t p) ∧ (in_txn p = true → alone w t)
  ∧ ∀ b, answer p = Some b → ∀ j tj b', uw_tasks w !! j = Some tj → answer (ut_phase tj) = Some b' → same_upload t tj → b = b'.
Lemma may_be_quiet w t p : in_txn p = false → answer p = None → may_be w t p.
Proof. intros Hin Ha. split; [|by rewrite Hin, Ha]. by destruct p as [| | | | | | | | | | | | |[|]]. Qed.
Lemma may_be_alone w t p : alone w t → answer p = None → task_ok w (at_phase t p) → may_be w t p.
Proof. intros ? Ha ?. split_and!; [done|done|by rewrite Ha]. Qed.
Lemma turn_end w i t w' p : uw_tasks w !! i = Some t → uploads_ok (without w' i) → keeps (without w i) (without w' i) → may_be (without w' i) t p →
  uploads_ok (set_tasks w' (<[i := at_phase t p]> (uw_tasks w'))) ∧ keeps w (set_tasks w' (<[i := at_phase t p]> (uw_tasks w'))).
Proof.
  intros Hi Hw Hk (Ht & Ha & Hans). split.
  - rewrite <- (insert_delete_eq (uw_tasks w') i (at_phase t p)).
    change (uploads_ok (set_tasks (without w' i) (<[i := at_phase t p]> (uw_tasks (without w' i))))).
    apply enter_ok; [done|apply lookup_delete_eq|done..].
  - eapply keeps_trans; [apply (keeps_tasks w (base.delete i (uw_tasks w)))|]. eapply keeps_trans; [exact Hk|].
    apply (keeps_tasks (without w' i)).
Qed.
Lemma turn_same w i t p : uploads_ok w → uw_tasks w !! i = Some t → may_be (without w i) t p →
  uploads_ok (set_tasks w (<[i := at_phase t p]> (uw_tasks w))) ∧ keeps w (set_tasks w (<[i := at_phase t p]> (uw_tasks w))).
Proof. intros. apply turn_end; [done|by apply without_ok|apply keeps_refl|done]. Qed.
Lemma turn_store w i t s p : uploads_ok w → uw_tasks w !! i = Some t → only_at (touchable (without w i)) (uw_store w) s → may_be (set_store (without w i) s) t p →
  uploads_ok (set_tasks (set_store w s) (<[i := at_phase t p]> (uw_tasks (set_store w s)))) ∧ keeps w (set_tasks (set_store w s) (<[i := at_phase t p]> (uw_tasks (set_store w s)))).
Proof.
  intros Hw Hi Ho Hm. destruct (store_ok (without w i) s) as [Hok Hk]; [by apply without_ok|done|].
  by apply (turn_end w i t (set_store w s) p).
Qed.
Lemma answered_row w j tj b : uploads_ok w → uw_tasks w !! j = Some tj → answer (ut_phase tj) = Some b →
  ∃ r, row_at w tj r true ∧ ∀ f, final_in w f → final_id f = up_object r → final_body f = b.
Proof.
  intros Hw Hj Hb. pose proof (uo_tasks w Hw j tj Hj) as Ht. unfold task_ok in Ht.
  by destruct (ut_phase tj) as [| | | | | | | | | | | | |[|]]; simplify_eq/=.
Qed.
Lemma existing_final w t r b : existing_body w t r = Ok b → ∃ f, final_in w f ∧ final_id f = up_object r ∧ final_body f = b.
Proof.
  unfold existing_body. destruct (is_skill_upload r).
  - destruct (get_skill _ _ _) as [k|] eqn:E; [|done]. intros [= <-]. exists (FinalSkill k). apply head_Some_elem_of in E.
    apply list_elem_of_filter in E as [Hp Hk]. apply bool_decide_eq_true in Hp as [_ Hp]. done.
  - destruct (get_file _ _ _ _) as [f|] eqn:E; [|done]. intros [= <-]. exists (FinalFile f). apply head_Some_elem_of in E.
    apply list_elem_of_filter in E as [Hp Hf]. apply andb_true_iff in Hp as [Hp _]. apply bool_decide_eq_true in Hp as [_ Hp]. done.
Qed.
Lemma may_answer w t r b : uploads_ok w → row_at w t r true → existing_body w t r = Ok b → may_be w t (Finished (Ok b)).
Proof.
  intros Hw Hr Hb. apply existing_final in Hb as (f & Hf & Hid & <-). split_and!; [|done|].
  - exists r. split; [done|]. intros f' Hf' Hid'. f_equal. destruct Hr as (Hr & _ & _ & Hd).
    destruct (uo_done w Hw r f Hr Hd Hf Hid) as ((_ & _ & Hs) & _), (uo_done w Hw r f' Hr Hd Hf' Hid') as ((_ & _ & Hs') & _).
    apply (uo_one w Hw); [done..|congruence|congruence].
  - intros b [= <-] j tj b' Hj Hb' Hs. destruct (answered_row w j tj b' Hw Hj Hb') as (r' & Hr' & Hall).
    apply Hall; [done|]. rewrite Hid. f_equal. by eapply row_at_same.
Qed.
Lemma begin_ok w t : uploads_ok w → alone w t → may_be w t (after_begin w t).
Proof.
  intros Hw Ha. unfold after_begin. destruct (get_client_upload _ _ _ _) as [r|] eqn:E; [|by apply may_be_quiet].
  apply get_upload_row in E as (Hr & Ht & Hi). destruct (if is_skill_upload r then _ else _); [|by apply may_be_quiet].
  destruct (up_done r) eqn:Ed; [by apply may_be_alone|]. destruct (up_expires r <? uw_now w); [by apply may_be_quiet|by apply may_be_alone].
Qed.
Lemma failed_ok w t e : uploads_ok w → alone w t → may_be w t (after_failed w t e).
Proof.
  intros Hw Ha. unfold after_failed. destruct (get_client_upload _ _ _ _) as [r|] eqn:E; [|by apply may_be_quiet].
  apply get_upload_row in E as (Hr & Ht & Hi). destruct (up_done r) eqn:Ed; [by apply may_be_quiet|by apply may_be_alone].
Qed.
Lemma head_phase_ok w t r purpose : alone w t → row_at w t r false → may_be w t (after_head settings s3_head w r purpose).
Proof.
  intros Ha Hr. unfold after_head. destruct (s3_head _ _ _) as [[size etag]|] eqn:E; [|by apply may_be_quiet].
  destruct (_ <? size) eqn:Eb; [by apply may_be_alone|]. apply Z.ltb_ge in Eb.
  assert (may_be w t (Copying r purpose size etag)) as Hc.
  { apply may_be_alone; [done..|]. split_and!; [done..|]. destruct (head_ok _ _ _ _ _ (upload_key_ok (up_tenant r) (up_id r)) E) as (e & data & -> & _ & Hl & Htag).
    by exists e, data. }
  destruct (decide _); [|done]. destruct (check_image _ _ _); [done|by apply may_be_alone].
Qed.
Lemma inspect_phase_ok w t r size : alone w t → row_at w t r false → is_skill_upload r = true → bounded r size → (calm r → has_size (uw_store w) r size) →
  may_be w t (after_inspect open_zip w r size).
Proof.
  intros Ha Hr Hk Hb Hs. unfold after_inspect. destruct (mbind _ _) as [[data|]|e]; [|by apply may_be_quiet..].
  destruct (inspect_skill_zip open_zip data) as [name|e]; [|destruct (is_setup_error e); [by apply may_be_alone|by apply may_be_quiet]].
  apply may_be_alone; [done..|]. split_and!; [done| |done|done]. split_and!; [done..|]. by rewrite Hk.
Qed.
Lemma mine_touchable w t r : alone w t → row_at w t r false → touchable w (place r).1 (place r).2.
Proof.
  intros Ha (Hr & Ht & Hi & Hd). right. right. left. exists r. split_and!; [done..|]. intros j tj Hj Hin [Et Ei].
  apply (Ha j tj Hj Hin). split; congruence.
Qed.
Lemma copy_call_ok w t r size e data o : uploads_ok w → alone w t → row_at w t r false → tagged e data → Z.of_nat (length data) = size →
  let c := store_call (uw_store w) o (copy_object s3_copy w r (Some e)) in
  only_at (touchable w) (uw_store w) c.1 ∧ (c.2 = None → has_size c.1 r size).
Proof.
  intros Hw Ha Hrow Htag Hl. destruct (final_key_ok r) as [Hk Hc]; [by apply (uo_minted w Hw), Hrow|].
  assert (∀ s', copy_object s3_copy w r (Some e) = Ok s' → only_at (touchable w) (uw_store w) s' ∧ has_size s' r size) as Hcopy.
  { intros s'. unfold copy_object. rewrite Hk. cbn [mbind res_bind]. intros E.
    destruct (copy_ok _ _ _ _ _ _ _ (upload_key_ok (up_tenant r) (up_id r)) Hc E) as (data' & Htag' & Hget).
    rewrite (tagged_fun e data' data) in Hget by done. split.
    - intros n key Hkey Hn. rewrite Hget by done. rewrite decide_False; [done|]. intros [<- <-]. by apply Hn, (mine_touchable w t r).
    - exists data. split; [|done]. unfold object_at. rewrite Hget by done. by rewrite decide_True. }
  split; [apply call_only_at; intros; by apply Hcopy|].
  destruct o, (copy_object s3_copy w r (Some e)) as [s'|]; cbn; try done. intros _. by apply Hcopy.
Qed.
Lemma delete_upload_ok w t o : only_at (touchable w) (uw_store w) (store_call (uw_store w) o (delete_upload w t)).1.
Proof. apply call_only_at. intros s' E. eapply delete_only_at; [|apply (upload_key_ok (ut_tenant t) (ut_upload t))|exact E]. by left. Qed.
Lemma drop_copy_ok w t r o : uploads_ok w → alone w t → row_at w t r false →
  only_at (touchable w) (uw_store w) (store_call (uw_store w) o (drop_object w r)).1.
Proof.
  intros Hw Ha Hr. destruct (final_key_ok r) as [Hk Hc]; [by apply (uo_minted w Hw), Hr|]. unfold drop_object. rewrite Hk. cbn [mbind res_bind].
  apply call_only_at. intros s' E. eapply delete_only_at; [|exact Hc|exact E]. by apply (mine_touchable w t r).
Qed.
(** What a left call does to the store, when it lands. *)
Lemma left_call_ok w c o : (∀ id, lands_on c = Some id → lands id) → left_ok c →
  only_at (touchable w) (uw_store w) (store_call (uw_store w) o (left_result s3_copy w c)).1.
Proof.
  intros Hl Hc. apply call_only_at. intros s' E. destruct c as [tenant upload|r etag|r]; cbn [left_result lands_on left_ok] in *.
  - eapply delete_only_at; [|apply (upload_key_ok tenant upload)|exact E]. by left.
  - destruct Hc as [Hm [e ->]]. destruct (final_key_ok r Hm) as [Hk Hch]. unfold copy_object in E. rewrite Hk in E. cbn [mbind res_bind] in E.
    destruct (copy_ok _ _ _ _ _ _ _ (upload_key_ok (up_tenant r) (up_id r)) Hch E) as (data & _ & Hget).
    intros n key Hkey Hn. rewrite Hget by done. rewrite decide_False; [done|]. intros [<- <-]. apply Hn. right; right; right; right.
    exists r. by split; [apply Hl|].
  - destruct (final_key_ok r Hc) as [Hk Hch]. unfold drop_object in E. rewrite Hk in E. cbn [mbind res_bind] in E.
    eapply delete_only_at; [|exact Hch|exact E]. right; right; right; right. exists r. by split; [apply Hl|].
Qed.
Lemma set_left_ok w l : uploads_ok w → (∀ c, c ∈ l → left_ok c) → uploads_ok (set_left w l) ∧ keeps w (set_left w l).
Proof.
  intros Hw Hl. split; [by split; try apply Hw|]. intros r ? ?. split; [done|]. intros f ? ?. by exists f.
Qed.
(** What a task leaves behind. *)
Lemma left_by_ok w i t c : uploads_ok w → uw_tasks w !! i = Some t → c ∈ left_by t → left_ok c.
Proof.
  intros Hw Hi. pose proof (uo_tasks w Hw i t Hi) as Ht. unfold task_ok in Ht. unfold left_by.
  destruct (ut_phase t); try (by intros ?%elem_of_nil); intros ->%list_elem_of_singleton; try done.
  - destruct Ht as ((Hr & _) & _ & e & data & -> & _). split; [by apply (uo_minted w Hw)|done].
  - destruct Ht as (Hr & _). by apply (uo_minted w Hw).
Qed.
Lemma upload_run_ok w i o w' : uploads_ok w → run_task settings open_zip s3_head s3_copy w i o = Some w' → uploads_ok w' ∧ keeps w w'.
Proof.
  intros Hw. unfold run_task. destruct (uw_tasks w !! i) as [t|] eqn:Hi; [|done]. cbn [mbind option_bind].
  destruct (task_turn settings open_zip s3_head s3_copy w i t o) as [[w1 p]|] eqn:Et; [|done]. intros [= <-].
  pose proof (without_ok w i Hw) as Hw0. pose proof (without_alone w i t Hw Hi) as Ha. pose proof (uo_tasks w Hw i t Hi) as Ht. unfold task_ok in Ht.
  assert (row_free w i t = true → alone (without w i) t) as Hfree by apply row_free_alone.
  unfold task_turn in Et. destruct (ut_phase t) eqn:Ep; cbn [in_txn] in Ha.
  - destruct (lock_free w i t); [|done]. injection Et as <- <-. apply turn_same; [done..|by apply may_be_quiet].
  - destruct (row_free w i t); [|done]. injection Et as <- <-. apply turn_same; [done..|].
    destruct (decide _); [|by apply may_be_quiet]. apply (begin_ok (without w i) t); auto.
  - injection Et as <- <-. apply turn_same; [done..|]. destruct (decide _); [|by apply may_be_quiet].
    destruct (existing_body w t r) as [b|] eqn:Eb; [|by apply may_be_quiet]. by apply (may_answer (without w i) t r b).
  - injection Et as <- <-. apply turn_same; [done..|]. destruct (decide _); [|by apply may_be_quiet]. apply (head_phase_ok (without w i) t r purpose); auto.
  - destruct (store_call _ _ _) as [s failed] eqn:Es. injection Et as <- <-. apply turn_store; [done..| |by apply may_be_quiet].
    change s with (s, failed).1. rewrite <- Es. apply (delete_upload_ok (without w i) t o).
  - destruct Ht as (Hr & Hb & e & data & -> & Htag & Hl). destruct (store_call _ _ _) as [s failed] eqn:Es. injection Et as <- <-.
    destruct (copy_call_ok (without w i) t r size e data o) as [Ho Hs]; [done|auto|done..|].
    change (store_call (uw_store (without w i)) o (copy_object s3_copy (without w i) r (Some e))) with (store_call (uw_store w) o (copy_object s3_copy w r (Some e))) in Ho, Hs.
    rewrite Es in Ho, Hs. apply turn_store; [done..|]. destruct failed as [e'|]; [by apply may_be_quiet|]. specialize (Hs eq_refl).
    destruct (is_skill_upload r) eqn:Ek; (apply may_be_alone; [by apply Ha|done|]); [done|]. split_and!; [done| |done..]. split_and!; [done..|]. by rewrite Ek.
  - destruct Ht as (Hr & Hk & Hb & Hs). injection Et as <- <-. apply turn_same; [done..|]. destruct (decide _); [|by apply may_be_quiet].
    apply (inspect_phase_ok (without w i) t r size); auto.
  - destruct (store_call _ _ _) as [s failed] eqn:Es. injection Et as <- <-. apply turn_store; [done..| |by apply may_be_quiet].
    change s with (s, failed).1. rewrite <- Es. apply (delete_upload_ok (without w i) t o).
  - injection Et as <- <-. apply turn_same; [done..|]. destruct (decide _); [|by apply may_be_quiet]. destruct (insert_final w f); [|by apply may_be_quiet].
    apply may_be_alone; [by apply Ha|done..].
  - destruct Ht as (Hr & Hfit & Hb & Hs). destruct (commit w r f) as [w2|] eqn:Ec.
    2: { destruct o; injection Et as <- <-; apply turn_same; try done; by apply may_be_quiet. }
    assert (commit (without w i) r f = Some (without w2 i)) as Ec'.
    { unfold commit in *. change (insert_final (without w i) f) with (insert_final w f). destruct (insert_final w f) as [[files skills]|]; [|done].
      cbn [mbind option_bind] in *. by injection Ec as <-. }
    destruct (commit_ok (without w i) t r f (without w2 i) Hw0 (Ha eq_refl) Hr Hfit Hb Hs Ec') as (Hok & Hkeeps & Htask & Htasks & Hans).
    destruct o; injection Et as <- <-; [|apply turn_same; try done; by apply may_be_quiet|].
    + apply turn_end; [done..|]. split_and!; [done..|]. intros b _ j tj b' Hj Hb' Hsame. rewrite Htasks in Hj. by destruct (Hans j tj b').
    + apply turn_end; [done..|by apply may_be_quiet].
  - destruct (store_call _ _ _) as [s failed] eqn:Es. injection Et as <- <-. apply turn_store; [done..| |].
    { change s with (s, failed).1. rewrite <- Es. apply (delete_upload_ok (without w i) t o). }
    split_and!; [done|done|]. intros b1 [= <-] j tj b' [_ Hj]%without_lookup Hb' Hsame. apply (uo_answers w Hw i j t tj); [done..|by rewrite Ep|done|done].
  - destruct (row_free w i t); [|done]. injection Et as <- <-. apply turn_same; [done..|].
    destruct (decide _); [|by apply may_be_quiet]. apply (failed_ok (without w i) t e); auto.
  - destruct (store_call _ _ _) as [s failed] eqn:Es. injection Et as <- <-. apply turn_store; [done..| |by apply may_be_quiet].
    change s with (s, failed).1. rewrite <- Es. apply (drop_copy_ok (without w i) t r o); auto.
  - done.
Qed.

(** ** Every step *)

Lemma upload_create_row is_s3 u tenant upload object now ttl r : upload_create settings is_s3 u tenant upload object now ttl = Ok r → up_done r = false ∧ minted (up_object r).
Proof.
  unfold upload_create. destruct (negb _); [done|]. destruct (_ || _); [done|]. destruct (negb is_s3); [done|].
  cbv zeta. destruct (if negb _ then _ else Ok ""%string) as [?|]; [|done]. cbn [mbind res_bind].
  destruct (if decide (ur_purpose u = "image"%string) then _ else Ok ""%string) as [?|]; [|done]. cbn [mbind res_bind]. intros [= <-].
  split; [done|]. cbn. destruct (negb _); exists object; auto.
Qed.
(** A change of the rows that only removes some, and erases the object of those. *)
Lemma removed_ok w d skills n tenant id key :
  uploads_ok w → minted id → file_object_id tenant (chars id) = Ok key →
  let w' := set_rows w d skills ((n, key) :: uw_erasing w) in
  (∀ f, final_in w' f → final_in w f) → (∃ f, final_in w f ∧ final_id f = id ∧ final_tenant f = tenant ∧ n = if final_skill f then NS_SKILLS else NS_FILES) →
  (∀ f, final_in w' f → ¬ (final_id f = id ∧ final_tenant f = tenant ∧ n = if final_skill f then NS_SKILLS else NS_FILES)) →
  uploads_ok w' ∧ keeps w w'.
Proof.
  intros Hw Hm Hkey w' Hsub (f & Hf & Hid & Hten & Hn) Hgone. destruct (minted_object tenant id Hm) as [Hk Hc]. rewrite Hk in Hkey. injection Hkey as <-.
  apply rows_ok; [done| | | |].
  - intros f1 f2 H1%Hsub H2%Hsub. by apply (uo_one w Hw).
  - intros n' key' [[= -> ->]|Hin]%elem_of_cons; [done|by apply (uo_erasing w Hw n')].
  - intros f' Hf'%Hsub. left. by exists f'.
  - intros r Hr [E|?]%elem_of_cons; [|by left]. right. pose proof (f_equal fst E) as En. pose proof (object_text_inj _ _ _ _ (f_equal snd E)) as Eid. cbn [fst place] in En.
    split; [exists f; by rewrite Hid|]. intros f' Hf' Hid'. destruct (up_done r) eqn:Ed.
    + destruct (uo_done w Hw r f Hr Ed Hf) as ((_ & Ht1 & Hs1) & _); [congruence|].
      destruct (uo_done w Hw r f' Hr Ed (Hsub f' Hf') Hid') as ((_ & Ht2 & Hs2) & _).
      apply (Hgone f' Hf'). split_and!; [congruence..|]. by rewrite Hs2, <- Hs1.
    + destruct (uo_pending w Hw r Hr Ed) as [_ Hno]. apply (Hno f Hf). congruence.
Qed.
Lemma delete_file_ok w tenant file user d key : uploads_ok w → delete_file (uw_files w) tenant file user = (d, true) → file_object_id tenant (chars file) = Ok key →
  uploads_ok (set_rows w d (uw_skills w) ((NS_FILES, key) :: uw_erasing w)) ∧ keeps w (set_rows w d (uw_skills w) ((NS_FILES, key) :: uw_erasing w)).
Proof.
  intros Hw. unfold delete_file, get_file, find_row. destruct (head _) as [r|] eqn:E; [|done]. apply head_Some_elem_of, list_elem_of_filter in E as [Hp Hr].
  apply andb_true_iff in Hp as [Hp _]. apply bool_decide_eq_true in Hp as [Ht Hi]. intros [= <-] Hkey.
  apply (removed_ok w _ _ NS_FILES tenant file key); [done| |done| | |].
  - rewrite <- Hi. by apply (uo_finals w Hw (FinalFile r)).
  - intros [f|k]; [|done]. cbn. by intros [_ ?]%list_elem_of_filter.
  - by exists (FinalFile r).
  - intros [f|k]; [|by intros _ (_ & _ & ?)]. cbn. intros [Hno _]%list_elem_of_filter (? & ? & _).
    unfold is_file in Hno. by rewrite bool_decide_eq_true_2 in Hno.
Qed.
Lemma delete_skill_ok w tenant id l key : uploads_ok w → delete_skill (uw_skills w) tenant id = (l, true) → file_object_id tenant (chars id) = Ok key →
  uploads_ok (set_rows w (uw_files w) l ((NS_SKILLS, key) :: uw_erasing w)) ∧ keeps w (set_rows w (uw_files w) l ((NS_SKILLS, key) :: uw_erasing w)).
Proof.
  intros Hw. unfold delete_skill, get_skill, find_row. destruct (head _) as [r|] eqn:E; [|done]. apply head_Some_elem_of, list_elem_of_filter in E as [Hp Hr].
  apply bool_decide_eq_true in Hp as [Ht Hi]. intros [= <-] Hkey.
  apply (removed_ok w _ _ NS_SKILLS tenant id key); [done| |done| | |].
  - rewrite <- Hi. by apply (uo_finals w Hw (FinalSkill r)).
  - intros [f|k]; [done|]. cbn. by intros [_ ?]%list_elem_of_filter.
  - by exists (FinalSkill r).
  - intros [f|k]; [by intros _ (_ & _ & ?)|]. cbn. intros [Hno _]%list_elem_of_filter (? & ? & _).
    unfold is_skill in Hno. by rewrite bool_decide_eq_true_2 in Hno.
Qed.
(** A row that is of no upload appears. *)
Lemma added_ok w f d skills : uploads_ok w → minted (final_id f) → (final_id f ∉ up_object <$> uw_uploads w) → insert_final w f = Some (d, skills) →
  uploads_ok (set_rows w d skills (uw_erasing w)) ∧ keeps w (set_rows w d skills (uw_erasing w)).
Proof.
  intros Hw Hm Hni Hf. destruct (insert_final_spec w f d skills (uw_erasing w) Hf) as [Hin Hnew]. apply rows_ok; [done| | | |].
  - intros f1 f2 [H1| ->]%Hin [H2| ->]%Hin Es E; [by apply (uo_one w Hw)|by destruct (Hnew f1)|by destruct (Hnew f2)|done].
  - apply (uo_erasing w Hw).
  - intros f' [Hf'| ->]%Hin; [left; by exists f'|by right].
  - intros r _ ?. by left.
Qed.
Lemma promote_ok w tenant ids user kinds : uploads_ok w →
  uploads_ok (set_rows w (promote_attachments (uw_files w) tenant ids user kinds) (uw_skills w) (uw_erasing w))
  ∧ keeps w (set_rows w (promote_attachments (uw_files w) tenant ids user kinds) (uw_skills w) (uw_erasing w)).
Proof.
  intros Hw. set (w' := set_rows w _ _ _).
  assert (∃ g : file_row → file_row, (∀ r : file_row, g r = r ∨ g r = set_kind r "file") ∧ fd_files (uw_files w') = g <$> fd_files (uw_files w)) as (g & Hg & E).
  { cbn. unfold promote_attachments. destruct (decide _); [exists id; split; [by left|by rewrite list_fmap_id]|].
    eexists. split; [|done]. intros r. cbn. destruct (_ && _); auto. }
  assert (∀ r : file_row, f_id (g r) = f_id r ∧ f_tenant (g r) = f_tenant r ∧ file_body (g r) = file_body r) as Hsame by (intros r; by destruct (Hg r) as [-> | ->]).
  assert (∀ f', final_in w' f' → ∃ f, final_in w f ∧ f' = match f with FinalFile r => FinalFile (g r) | FinalSkill k => FinalSkill k end) as Hold.
  { intros [r|k]; cbn [final_in]; [|by exists (FinalSkill k)]. rewrite E. intros (r0 & -> & Hr0)%list_elem_of_fmap. by exists (FinalFile r0). }
  apply rows_ok; [done| | | |].
  - intros f1' f2' (f1 & H1 & ->)%Hold (f2 & H2 & ->)%Hold Es Eid.
    assert (f1 = f2) as ->; [|done]. apply (uo_one w Hw); [done..| |]; destruct f1 as [r1|k1], f2 as [r2|k2]; try done. cbn in *.
    by rewrite !(proj1 (Hsame _)) in Eid.
  - apply (uo_erasing w Hw).
  - intros f' (f & Hf & ->)%Hold. left. exists f. split; [done|]. destruct f as [r|k]; [|done]. destruct (Hsame r) as (? & ? & ?). by split_and!.
  - intros r _ ?. by left.
Qed.
Lemma erase_ok w n key rest o : uploads_ok w → uw_erasing w ≡ₚ (n, key) :: rest →
  let w' := set_rows (set_store w (store_call (uw_store w) o (os_delete (uw_store w) n key)).1) (uw_files w) (uw_skills w) rest in
  uploads_ok w' ∧ keeps w w'.
Proof.
  intros Hw Hp w'. set (s := (store_call _ _ _).1) in *.
  assert (∀ n' key', (n', key') ∈ rest → (n', key') ∈ uw_erasing w) as Hsub by (intros; rewrite Hp; by right).
  destruct (store_ok w s) as [Hs Hk]; [done| |].
  - apply call_only_at. intros s' E. assert ((n, key) ∈ uw_erasing w) as Hin by (rewrite Hp; by left).
    eapply delete_only_at; [|by apply (uo_erasing w Hw n)|exact E]. by right; left.
  - destruct (rows_ok (set_store w s) (uw_files w) (uw_skills w) rest Hs) as [? Hk2].
    + apply (uo_one w Hw).
    + intros n' key' ?. by apply (uo_erasing w Hw n'), Hsub.
    + intros f' Hf'. left. by exists f'.
    + intros r _ Hin. left. by apply Hsub.
    + split; [done|]. by eapply keeps_trans.
Qed.
Lemma tick_ok w now : uploads_ok w → uploads_ok (set_now w now) ∧ keeps w (set_now w now).
Proof. intros Hw. split; [by split; apply Hw|]. intros r ? ?. split; [done|]. intros f ? ?. by exists f. Qed.
Lemma upload_step_ok w label w' : uploads_ok w → upload_step settings open_zip s3_head s3_copy w label w' → (∀ id, label = Some id → lands id) →
  uploads_ok w' ∧ keeps w w'.
Proof.
  intros Hw [now Hnow|is_s3 u tenant upload object ttl r Hr Hu|tenant upload data s E|i process tenant upload purpose user Hi|i o w1 E|i t Hi|c rest s o Hp ->
    |tenant file user d key E Hkey|tenant id l key E Hkey|n tenant id data key s Hm Hni Hkey E|r d Hm Hni E|r l Hm Hni E|tenant ids user kinds|n key rest s o Hp ->] Hlands.
  - by apply tick_ok.
  - apply upload_create_row in Hr as [? ?]. by apply create_ok.
  - apply store_ok; [done|]. eapply put_only_at; [|apply upload_key_ok|exact E]. by left.
  - split; [|apply keeps_tasks]. by apply enter_ok.
  - by eapply upload_run_ok.
  - destruct (set_left_ok (without w i) (left_by t ++ uw_left w)) as [Hok Hk]; [by apply without_ok| |].
    + intros c [Hc|Hc]%elem_of_app; [by eapply left_by_ok|by apply (uo_left w Hw)].
    + split; [exact Hok|]. eapply keeps_trans; [apply (keeps_tasks w (base.delete i (uw_tasks w)))|exact Hk].
  - assert (c ∈ uw_left w) as Hc by (rewrite Hp; by left).
    destruct (store_ok w (store_call (uw_store w) o (left_result s3_copy w c)).1) as [Hok Hk]; [done| |].
    + apply left_call_ok; [done|by apply (uo_left w Hw)].
    + destruct (set_left_ok _ rest Hok) as [Hok2 Hk2]; [|by split; [exact Hok2|eapply keeps_trans]].
      intros c' Hc'. apply (uo_left w Hw). rewrite Hp. by right.
  - by eapply delete_file_ok.
  - by eapply delete_skill_ok.
  - destruct (minted_object tenant id Hm) as [Hk Hc]. rewrite Hk in Hkey. injection Hkey as <-.
    apply store_ok; [done|]. eapply put_only_at; [|exact Hc|exact E]. right; right; right; left. by exists tenant, id.
  - apply (added_ok w (FinalFile r)); [done..|]. cbn. by rewrite E.
  - apply (added_ok w (FinalSkill r)); [done..|]. cbn. by rewrite E.
  - by apply promote_ok.
  - by apply erase_ok.
Qed.
Lemma start_ok w : upload_start w → uploads_ok w.
Proof.
  intros (Hu & Ht & He & Hle & Hf & Hk & Hnf & Hnk). rewrite list.Forall_forall in Hf, Hk.
  split; rewrite ?Hu, ?Ht, ?He, ?Hle; try (by intros ? ?%elem_of_nil); try (by intros ? ? ?%elem_of_nil); try done; try constructor.
  - intros [r|k] Hin; cbn in *; [apply Hf|apply Hk]; by apply list_elem_of_fmap_2.
  - intros [r|k] [r'|k'] H1 H2 Es E; try done; f_equal; [by eapply (nodup_proj f_id)|by eapply (nodup_proj k_id)].
Qed.
Lemma reach_ok w w' : uploads_ok w → upload_reach settings open_zip s3_head s3_copy lands w w' → uploads_ok w' ∧ keeps w w'.
Proof.
  intros Hw. induction 1 as [|w1 l w2 _ [IHo IHk] Hs Hl]; [split; [done|apply keeps_refl]|].
  destruct (upload_step_ok w1 l w2 IHo Hs Hl) as [? ?]. split; [done|by eapply keeps_trans].
Qed.

(** C20: The file or skill of a completed upload never changes: as long as its row is there,
    in whatever order requests, retries, cancellations, lost answers, clients that put new
    objects, deletions and erasures come, its object has the same bytes, as many as the row
    says and no more than the limit and the declared size; and a row that is gone does not
    come back.  Of the calls to the store that a cancelled complete leaves running in their
    thread, none that copies to the object of this upload or deletes it may land (one that
    does can change it); those of every other upload may, at any time. *)
Theorem upload_immutable w0 w w' r f' :
  upload_start w0 → ¬ lands (up_object r) →
  upload_reach settings open_zip s3_head s3_copy lands w0 w → upload_reach settings open_zip s3_head s3_copy lands w w' →
  r ∈ uw_uploads w → up_done r = true → final_in w' f' → final_id f' = up_object r →
  ∃ f data, final_in w f ∧ final_id f = up_object r ∧ final_body f = final_body f'
    ∧ object_at (uw_store w) r = Ok (Some data) ∧ object_at (uw_store w') r = Ok (Some data)
    ∧ Z.of_nat (length data) = final_size f' ∧ final_size f' ≤ Z.min (max_file_bytes settings) (up_declared r).
Proof.
  intros H0 Hc H1 H2 Hr Hd Hf' Hid'. destruct (reach_ok w0 w (start_ok w0 H0) H1) as [Hw _]. destruct (reach_ok w w' Hw H2) as [Hw' Hk].
  destruct (Hk r Hr Hd) as [_ Hfin]. destruct (Hfin f' Hf' Hid') as (f & Hf & Hid & Hb & Ho).
  destruct (uo_done w Hw r f Hr Hd Hf Hid) as (_ & Hbound & Hsize & _). destruct (Hsize Hc) as (data & Hdata & Hl).
  exists f, data. unfold bounded, final_size in *. rewrite <- Hb.
  split_and!; [done..| |done|done]. by rewrite Ho.
Qed.

(** C21: An upload is completed once: all the completes of it that return, in whichever
    processes and at whatever times, return the same file or skill, the one in the
    database as long as it is there.  This holds whatever calls left behind by cancelled
    completes land. *)
Theorem upload_completed_once w0 w i j ti tj bi bj :
  upload_start w0 → upload_reach settings open_zip s3_head s3_copy lands w0 w →
  uw_tasks w !! i = Some ti → uw_tasks w !! j = Some tj → same_upload ti tj →
  ut_phase ti = Finished (Ok bi) → ut_phase tj = Finished (Ok bj) →
  bi = bj ∧ ∃ r, row_at w ti r true ∧ ∀ f, final_in w f → final_id f = up_object r → final_body f = bi.
Proof.
  intros H0 H1 Hi Hj Hs Ei Ej. destruct (reach_ok w0 w (start_ok w0 H0) H1) as [Hw _]. split.
  - apply (uo_answers w Hw i j ti tj); [done..|by rewrite Ei|by rewrite Ej|done].
  - apply (answered_row w i); [done..|by rewrite Ei].
Qed.
End uploads.

(** ** Every complete ends *)

(** The turns a task has left, at most. *)
Definition turns_of (p : upload_phase) : nat :=
  match p with
  | Enter => 10 | Begin => 9 | Heading _ _ => 8 | Copying _ _ _ _ => 7 | Inspecting _ _ => 6 | Inserting _ _ => 5 | Committing _ _ => 4
  | DiscardingSkill _ => 4 | Failed _ => 3 | Dropping _ _ => 2 | Discarding _ | Existing _ | Cleaning _ => 1 | Finished _ => 0
  end.
Section ending.
Context {S : Type} `{!ObjectStore S}.
Context (settings : file_settings) (open_zip : list ascii → option (list zip_entry)).
Context (s3_head : S → namespace → list ascii → option (Z * option string)).
Context (s3_copy : S → namespace → list ascii → namespace → list ascii → option string → res exn S).
Definition turns_left (w : upload_world (S:=S)) : nat := map_fold (λ _ t n, (turns_of (ut_phase t) + n)%nat) 0%nat (uw_tasks w).
Lemma turns_left_at w i t : uw_tasks w !! i = Some t →
  turns_left w = (turns_of (ut_phase t) + map_fold (λ _ t n, (turns_of (ut_phase t) + n)%nat) 0%nat (base.delete i (uw_tasks w)))%nat.
Proof. intros Hi. unfold turns_left. by rewrite (map_fold_delete_L _ _ i t (uw_tasks w)) by (try done; intros; lia). Qed.
Lemma commit_tasks (w w' : upload_world (S:=S)) r f : commit w r f = Some w' → uw_tasks w' = uw_tasks w.
Proof. unfold commit. destruct (insert_final w f) as [[files skills]|]; [|done]. cbn [mbind option_bind]. by intros [= <-]. Qed.
Lemma turn_down w i t o w' p : task_turn settings open_zip s3_head s3_copy w i t o = Some (w', p) →
  uw_tasks w' = uw_tasks w ∧ (turns_of p < turns_of (ut_phase t))%nat.
Proof.
  unfold task_turn. destruct (ut_phase t) eqn:Ep; cbn [turns_of].
  - destruct (lock_free w i t); [|done]. intros [= <- <-]. cbn. split; [done|lia].
  - destruct (row_free w i t); [|done]. intros [= <- <-]. split; [done|]. destruct (decide _); [|cbn; lia].
    unfold after_begin. destruct (get_client_upload _ _ _ _) as [r|]; [|cbn; lia]. destruct (if is_skill_upload r then _ else _); [|cbn; lia].
    destruct (up_done r); [cbn; lia|]. destruct (_ <? _); cbn; lia.
  - intros [= <- <-]. split; [done|]. destruct (decide _); cbn; lia.
  - intros [= <- <-]. split; [done|]. destruct (decide _); [|cbn; lia]. unfold after_head. destruct (s3_head _ _ _) as [[size etag]|]; [|cbn; lia].
    destruct (_ <? size); [cbn; lia|]. destruct (decide _); [|cbn; lia]. destruct (check_image _ _ _); cbn; lia.
  - destruct (store_call _ _ _) as [s failed]. intros [= <- <-]. cbn. split; [done|lia].
  - destruct (store_call _ _ _) as [s failed]. intros [= <- <-]. split; [done|]. destruct failed; [cbn; lia|]. destruct (is_skill_upload r); cbn; lia.
  - intros [= <- <-]. split; [done|]. destruct (decide _); [|cbn; lia]. unfold after_inspect. destruct (mbind _ _) as [[data|]|]; [|cbn; lia..].
    destruct (inspect_skill_zip open_zip data); [cbn; lia|]. destruct (is_setup_error _); cbn; lia.
  - destruct (store_call _ _ _) as [s failed]. intros [= <- <-]. cbn. split; [done|lia].
  - intros [= <- <-]. split; [done|]. destruct (decide _); [|cbn; lia]. destruct (insert_final w f); cbn; lia.
  - destruct (commit w r f) as [w1|] eqn:Ec.
    + apply commit_tasks in Ec. destruct o; intros [= <- <-]; (split; [done|cbn; lia]).
    + destruct o; intros [= <- <-]; (split; [done|cbn; lia]).
  - destruct (store_call _ _ _) as [s failed]. intros [= <- <-]. cbn. split; [done|lia].
  - destruct (row_free w i t); [|done]. intros [= <- <-]. split; [done|]. destruct (decide _); [|cbn; lia].
    unfold after_failed. destruct (get_client_upload _ _ _ _) as [r|]; [|cbn; lia]. destruct (up_done r); cbn; lia.
  - destruct (store_call _ _ _) as [s failed]. intros [= <- <-]. cbn. split; [done|lia].
  - done.
Qed.
Lemma nobody_true (w : upload_world (S:=S)) i P : (∀ j t, uw_tasks w !! j = Some t → P t = false) → nobody w i P = true.
Proof.
  intros Hp. unfold nobody. apply forallb_forall. intros [j t] Hj. apply list_elem_of_In, elem_of_map_to_list, Hp in Hj. cbn. rewrite Hj. apply orb_true_r.
Qed.
Definition waits (p : upload_phase) : bool := match p with Enter | Begin | Failed _ | Finished _ => true | _ => false end.
Lemma turn_free w i t o : waits (ut_phase t) = false → ∃ r, task_turn settings open_zip s3_head s3_copy w i t o = Some r.
Proof.
  intros Hw. unfold task_turn. destruct (ut_phase t) as [| |r|r p|e|r p n e|r n|e|r f|r f|b|e|r e|a]; try done; try (by eexists);
    try (by destruct (store_call _ _ _); eexists).
  destruct o, (commit w r f); by eexists.
Qed.
Lemma find_task (w : upload_world (S:=S)) (P : upload_task → bool) :
  (∃ i t, uw_tasks w !! i = Some t ∧ P t = true) ∨ (∀ i t, uw_tasks w !! i = Some t → P t = false).
Proof.
  destruct (decide (map_Forall (λ _ t, P t = false) (uw_tasks w))) as [Ha|Ha]; [by right|left].
  apply map_not_Forall in Ha as (i & t & Hi & Hp); [|apply _]. exists i, t. by destruct (P t).
Qed.

(** C30: Every complete ends: no two locks are ever waited for in a circle, as long as one
    complete is not finished some complete can go on, whatever its calls do; and every turn
    brings the end nearer, ten turns for each complete at most. *)
Theorem completes_end w :
  (∀ i o w', run_task settings open_zip s3_head s3_copy w i o = Some w' → (turns_left w' < turns_left w)%nat)
  ∧ (∀ i t o, uw_tasks w !! i = Some t → turns_of (ut_phase t) ≠ 0%nat → ∃ j w', run_task settings open_zip s3_head s3_copy w j o = Some w')
  ∧ (turns_left w ≤ 10 * size (uw_tasks w))%nat.
Proof.
  split_and!.
  - intros i o w'. unfold run_task. destruct (uw_tasks w !! i) as [t|] eqn:Hi; [|done]. cbn [mbind option_bind].
    destruct (task_turn _ _ _ _ w i t o) as [[w1 p]|] eqn:Et; [|done]. intros [= <-]. apply turn_down in Et as [Et Hlt].
    rewrite (turns_left_at w i t Hi). rewrite (turns_left_at _ i (at_phase t p)) by apply lookup_insert_eq.
    cbn [uw_tasks set_tasks ut_phase at_phase]. rewrite Et, delete_insert_eq. lia.
  - intros i t o Hi Hp.
    assert (∀ j tj, uw_tasks w !! j = Some tj → (∃ r, task_turn settings open_zip s3_head s3_copy w j tj o = Some r) →
      ∃ j w', run_task settings open_zip s3_head s3_copy w j o = Some w') as Hrun.
    { intros j tj Hj [[w' p] E]. exists j. unfold run_task. rewrite Hj. cbn [mbind option_bind]. rewrite E. cbn [mbind option_bind]. by eexists. }
    destruct (find_task w (λ t, negb (waits (ut_phase t)))) as [(j & tj & Hj & Hw)|Hno].
    { eapply Hrun; [exact Hj|]. apply turn_free. by apply negb_true_iff. }
    destruct (find_task w (λ t, match ut_phase t with Begin | Failed _ => true | _ => false end)) as [(j & tj & Hj & Hw)|Hno2].
    { eapply Hrun; [exact Hj|]. assert (row_free w j tj = true) as Hfree.
      { apply nobody_true. intros k tk Hk. specialize (Hno k tk Hk). apply andb_false_intro2. by destruct (ut_phase tk). }
      unfold task_turn. rewrite Hfree. destruct (ut_phase tj); try done; by eexists. }
    assert (ut_phase t = Enter) as Et by (specialize (Hno i t Hi); specialize (Hno2 i t Hi); by destruct (ut_phase t)).
    eapply Hrun; [exact Hi|]. unfold task_turn. rewrite Et.
    assert (lock_free w i t = true) as ->; [|by eexists].
    apply nobody_true. intros k tk Hk. specialize (Hno k tk Hk). specialize (Hno2 k tk Hk). apply andb_false_intro2. by destruct (ut_phase tk).
  - unfold turns_left. induction (uw_tasks w) as [|i t m Hi IH] using map_ind; [by rewrite map_fold_empty|].
    rewrite map_fold_insert_L by (try done; intros; lia). rewrite map_size_insert_None by done.
    assert (turns_of (ut_phase t) ≤ 10)%nat by (destruct (ut_phase t); cbn; lia). lia.
Qed.
End ending.

(** ** A concrete upload

    An object whose tag is its text; one complete, then a client that puts another object
    under the URL, and a complete in another process. *)

Definition up_head (s : memory_store) (n : namespace) (id : list ascii) : option (Z * option string) :=
  match os_get s n id with Ok (Some data) => Some (Z.of_nat (length data), Some (of_chars data)) | _ => None end.
Definition up_copy (s : memory_store) (n : namespace) (id : list ascii) (n' : namespace) (id' : list ascii) (etag : option string) : res exn memory_store :=
  match os_get s n id with
  | Ok (Some data) => if decide (etag = None ∨ etag = Some (of_chars data)) then os_put s n' id' data else Err store_failed
  | _ => Err store_failed
  end.
Definition up_tagged (e : string) (data : list ascii) : Prop := e = of_chars data.
Lemma up_tagged_fun e b b' : up_tagged e b → up_tagged e b' → b = b'.
Proof. unfold up_tagged. intros -> E. apply (f_equal chars) in E. by rewrite !chars_of_chars in E. Qed.
Lemma up_head_ok s n id size etag : check_object_id id = Ok id → up_head s n id = Some (size, etag) →
  ∃ e data, etag = Some e ∧ os_get s n id = Ok (Some data) ∧ Z.of_nat (length data) = size ∧ up_tagged e data.
Proof.
  unfold up_head. intros _ E. destruct (os_get s n id) as [[data|]|] eqn:Eg; [|done..]. injection E as <- <-. by exists (of_chars data), data.
Qed.
Lemma up_copy_ok s n id n' id' e s' : check_object_id id = Ok id → check_object_id id' = Ok id' → up_copy s n id n' id' (Some e) = Ok s' →
  ∃ data, up_tagged e data ∧ ∀ m k, check_object_id k = Ok k → os_get s' m k = if decide (n' = m ∧ id' = k) then Ok (Some data) else os_get s m k.
Proof.
  unfold up_copy. intros _ Hc E. destruct (os_get s n id) as [[data|]|]; [|done..]. destruct (decide _) as [[?|[= ->]]|]; [done| |done].
  exists data. split; [done|]. intros m k Hk. by apply (os_get_put s n' m id' k data s').
Qed.
Abbreviation up_step := (upload_step fx_settings (λ _, None) up_head up_copy) (only parsing).
Abbreviation up_reach_if lands := (upload_reach fx_settings (λ _, None) up_head up_copy lands) (only parsing).
Abbreviation up_reach := (up_reach_if (λ _, False)) (only parsing).
(** No call left behind lands in what follows, so all of it is possible whichever may. *)
Lemma up_reach_any (lands : string → Prop) w1 w2 : up_reach w1 w2 → up_reach_if lands w1 w2.
Proof. induction 1 as [|w l w' _ IH Hs Hl]; [constructor|]. eapply ReachStep; [exact IH|exact Hs|]. intros id E. by destruct (Hl id E). Qed.
Lemma up_reach_quiet w1 w w' : up_reach w1 w → up_step w None w' → up_reach w1 w'.
Proof. intros H1 H2. by eapply ReachStep. Qed.
Lemma up_reach_trans w1 w2 w3 : up_reach w1 w2 → up_reach w2 w3 → up_reach w1 w3.
Proof. intros H1. induction 1; [done|]. by eapply ReachStep. Qed.
Fixpoint turns (n i : nat) (w : upload_world (S:=memory_store)) : option (upload_world (S:=memory_store)) :=
  match n with O => Some w | Datatypes.S n => w ← run_task fx_settings (λ _, None) up_head up_copy w i Done; turns n i w end.
Lemma turns_reach n i w w' : turns n i w = Some w' → up_reach w w'.
Proof.
  revert w. induction n as [|n IH]; intros w; cbn [turns]; [intros [= <-]; constructor|].
  destruct (run_task _ _ _ _ w i Done) as [w1|] eqn:E; [|done]. cbn [mbind option_bind]. intros Hw%IH.
  eapply up_reach_trans; [|done]. eapply up_reach_quiet; [constructor|by eapply StepRun].
Qed.
Definition up_start : upload_world (S:=memory_store) := UploadWorld 0 [] (FDb (fd_db fx_db) []) [] ∅ ∅ [] [].
Definition up_row : client_upload :=
  UploadRow 5 1 "file" (new_file_id 7) (lit "a.txt") "text/plain" 10 None false 100.
Definition up_put (s : memory_store) (data : string) : memory_store :=
  match os_put s NS_UPLOADS (upload_object_id 1 5) (chars data) with Ok s => s | Err _ => s end.
Definition up_asked : upload_world (S:=memory_store) :=
  UploadWorld 0 [up_row] (FDb (fd_db fx_db) []) [] (up_put ∅ "hello") {[ 0%nat := UploadTask 0 1 5 None None Enter ]} [] [].
Definition up_done_world : upload_world (S:=memory_store) := default up_start (turns 7 0 up_asked).
Definition up_late : upload_world (S:=memory_store) :=
  set_tasks (set_store up_done_world (up_put (uw_store up_done_world) "other")) (<[1%nat := UploadTask 1 1 5 None None Enter]> (uw_tasks up_done_world)).
Definition up_end : upload_world (S:=memory_store) := default up_start (turns 3 1 up_late).
Definition up_final : file_row := FileRow (new_file_id 7) 1 (lit "a.txt") "user_data" "file" None 5 (Some "text/plain") 0.
Lemma up_put_step w data : up_step w None (set_store w (up_put (uw_store w) data)).
Proof.
  apply (StepPut _ _ _ _ w 1 5 (chars data)). unfold up_put. destruct (os_put_ok (uw_store w) NS_UPLOADS (upload_object_id 1 5) (chars data)) as [s ->]; [|done].
  apply upload_key_ok.
Qed.
(** The client puts another object, and a second process completes again. *)
Lemma up_again w data : uw_tasks w !! 1%nat = None →
  up_reach w (set_tasks (set_store w (up_put (uw_store w) data)) (<[1%nat := UploadTask 1 1 5 None None Enter]> (uw_tasks w))).
Proof.
  intros Hn. eapply up_reach_quiet; [eapply up_reach_quiet; [constructor|apply (up_put_step w data)]|].
  by apply (StepRequest _ _ _ _ (set_store w (up_put (uw_store w) data)) 1%nat 1 1 5 None None).
Qed.
Lemma up_start_ok : upload_start up_start.
Proof. unfold upload_start. cbn. split_and!; constructor. Qed.
Lemma up_asked_reach : up_reach up_start up_asked.
Proof.
  set (w1 := set_uploads up_start (uw_uploads up_start ++ [up_row])). set (w2 := set_store w1 (up_put ∅ "hello")).
  assert (up_step up_start None w1) as H1.
  { apply (StepCreate _ _ _ _ up_start true (UploadRequest "file" (lit "a.txt") (Some "text/plain"%string) 10 None None) 1 5 7 100 up_row); [by vm_compute|].
    split_and!; try by intros ?%elem_of_nil. by intros n key _ ?%elem_of_nil. }
  assert (up_step w1 None w2) as H2 by exact (up_put_step w1 "hello").
  assert (up_step w2 None up_asked) as H3 by by apply (StepRequest _ _ _ _ w2 0%nat 0 1 5 None None).
  eapply up_reach_quiet; [eapply up_reach_quiet; [eapply up_reach_quiet; [constructor|exact H1]|exact H2]|exact H3].
Qed.
Lemma up_reach_done : up_reach up_start up_done_world.
Proof.
  eapply (up_reach_trans _ up_asked); [exact up_asked_reach|].
  apply (turns_reach 7 0). unfold up_done_world. destruct (turns 7 0 up_asked) eqn:E; [done|]. exfalso.
    assert (bool_decide (is_Some (turns 7 0 up_asked)) = true) as H by by vm_compute. by rewrite E in H.
Qed.
Lemma up_reach_end : up_reach up_done_world up_end.
Proof.
  eapply (up_reach_trans _ up_late).
  - apply (up_again up_done_world "other"). assert (bool_decide (uw_tasks up_done_world !! 1%nat = None) = true) as E by by vm_compute.
    by apply bool_decide_eq_true in E.
  - apply (turns_reach 3 1). unfold up_end. destruct (turns 3 1 up_late) eqn:E; [done|]. exfalso.
    assert (bool_decide (is_Some (turns 3 1 up_late)) = true) as H by by vm_compute. by rewrite E in H.
Qed.
Lemma up_rows_done : uw_uploads up_done_world = [complete_row up_row] ∧ fd_files (uw_files up_end) = [up_final].
Proof. split; by vm_compute. Qed.
Lemma upload_immutable_witness :
  ∃ f data, final_in up_done_world f ∧ final_body f = file_body up_final
    ∧ object_at (uw_store up_end) (complete_row up_row) = Ok (Some data) ∧ Z.of_nat (length data) = 5
    ∧ os_get (uw_store up_end) NS_UPLOADS (upload_object_id 1 5) = Ok (Some (chars "other")).
Proof.
  destruct (upload_immutable fx_settings (λ _, None) up_head up_copy up_tagged up_tagged_fun up_head_ok up_copy_ok
    (λ id, id ≠ up_object up_row) up_start up_done_world up_end (complete_row up_row) (FinalFile up_final)) as (f & data & Hf & _ & Hb & _ & Ho & Hl & _).
  - exact up_start_ok.
  - intros Hne. by apply Hne.
  - exact (up_reach_any _ _ _ up_reach_done).
  - exact (up_reach_any _ _ _ up_reach_end).
  - rewrite (proj1 up_rows_done). by left.
  - done.
  - unfold final_in. rewrite (proj2 up_rows_done). by left.
  - done.
  - exists f, data. split_and!; [exact Hf|exact Hb|exact Ho|exact Hl|]. by vm_compute.
Defined.
Definition up_ends (i : nat) (process : N) : option upload_task := Some (UploadTask process 1 5 None None (Finished (Ok (file_body up_final)))).
Lemma up_tasks_end : uw_tasks up_end !! 0%nat = up_ends 0 0 ∧ uw_tasks up_end !! 1%nat = up_ends 1 1.
Proof. split; by vm_compute. Qed.
Lemma upload_completed_once_witness : file_body up_final = file_body up_final ∧ ∃ r, r ∈ uw_uploads up_end ∧ up_done r = true.
Proof.
  destruct (upload_completed_once fx_settings (λ _, None) up_head up_copy up_tagged up_tagged_fun up_head_ok up_copy_ok (λ _, True) up_start up_end 0 1
    (UploadTask 0 1 5 None None (Finished (Ok (file_body up_final)))) (UploadTask 1 1 5 None None (Finished (Ok (file_body up_final))))
    (file_body up_final) (file_body up_final)) as (E & r & (Hr & _ & _ & Hd) & _).
  - exact up_start_ok.
  - apply up_reach_any. eapply up_reach_trans; [exact up_reach_done|exact up_reach_end].
  - apply up_tasks_end.
  - apply up_tasks_end.
  - done.
  - done.
  - done.
  - split; [exact E|by exists r].
Defined.
Lemma completes_end_witness : ∃ j w', run_task fx_settings (λ _, None) up_head up_copy up_asked j Lost = Some w'.
Proof.
  destruct (completes_end fx_settings (λ _, None) up_head up_copy up_asked) as (_ & Hrun & _).
  apply (Hrun 0%nat (UploadTask 0 1 5 None None Enter)); [done|]. by vm_compute.
Defined.

(** *** A drop that is left behind

    A complete whose commit fails drops its copy and is cancelled while the delete runs in
    its thread.  The next complete succeeds; then the delete happens. *)

Fixpoint up_turns (i : nat) (os : list outcome) (w : upload_world (S:=memory_store)) : option (upload_world (S:=memory_store)) :=
  match os with [] => Some w | o :: os => w ← run_task fx_settings (λ _, None) up_head up_copy w i o; up_turns i os w end.
Lemma up_turns_reach i os w w' : up_turns i os w = Some w' → up_reach w w'.
Proof.
  revert w. induction os as [|o os IH]; intros w; cbn [up_turns]; [intros [= <-]; constructor|].
  destruct (run_task _ _ _ _ w i o) as [w1|] eqn:E; [|done]. cbn [mbind option_bind]. intros Hw%IH.
  eapply up_reach_trans; [|done]. eapply up_reach_quiet; [constructor|by eapply StepRun].
Qed.
(** The commit fails; the next turn would drop the copy. *)
Definition up_failing : upload_world (S:=memory_store) :=
  default up_start (up_turns 0 [Done; Done; Done; Done; Done; Fails; Done] up_asked).
Definition up_cancelled : upload_world (S:=memory_store) :=
  set_left (set_tasks up_failing (base.delete 0%nat (uw_tasks up_failing))) [LeftDrop up_row].
Definition up_second : upload_world (S:=memory_store) :=
  set_tasks up_cancelled (<[1%nat := UploadTask 1 1 5 None None Enter]> (uw_tasks up_cancelled)).
Definition up_stored : upload_world (S:=memory_store) :=
  default up_start (up_turns 1 [Done; Done; Done; Done; Done; Done; Done] up_second).
Definition up_lost : upload_world (S:=memory_store) :=
  set_left (set_store up_stored (store_call (uw_store up_stored) Done (left_result up_copy up_stored (LeftDrop up_row))).1) [].

Lemma up_default_reach i os w w0 : bool_decide (is_Some (up_turns i os w)) = true → up_reach w (default w0 (up_turns i os w)).
Proof. intros [w' E]%bool_decide_eq_true. rewrite E. by eapply up_turns_reach. Qed.
(** The upload is complete and the complete answered, but the object is gone. *)
Lemma late_drop_loses_object :
  up_reach_if (λ id, id = up_object up_row) up_start up_lost
  ∧ uw_uploads up_lost = [complete_row up_row] ∧ fd_files (uw_files up_lost) = [up_final]
  ∧ uw_tasks up_lost !! 1%nat = up_ends 1 1
  ∧ object_at (uw_store up_lost) (complete_row up_row) = Ok None.
Proof.
  split; [|split_and!; by vm_compute].
  assert (up_reach up_start up_stored) as Hr.
  { eapply (up_reach_trans _ up_second); [|apply up_default_reach; by vm_compute].
    eapply up_reach_quiet.
    2: { apply (StepRequest _ _ _ _ up_cancelled 1%nat 1 1 5 None None).
         assert (bool_decide (uw_tasks up_cancelled !! 1%nat = None) = true) as E by by vm_compute. by apply bool_decide_eq_true in E. }
    eapply up_reach_quiet.
    2: { assert (∃ e, uw_tasks up_failing !! 0%nat = Some (UploadTask 0 1 5 None None (Dropping up_row e))
           ∧ uw_left up_failing = []) as (e & Ht & Hl) by (eexists; split; by vm_compute).
         pose proof (StepCancel fx_settings (λ _, None) up_head up_copy up_failing 0%nat _ Ht) as Hs.
         rewrite Hl in Hs. exact Hs. }
    eapply (up_reach_trans _ up_asked); [exact up_asked_reach|]. apply up_default_reach. by vm_compute. }
  assert (uw_left up_stored = [LeftDrop up_row]) as Hl by by vm_compute.
  eapply ReachStep; [exact (up_reach_any _ _ _ Hr)|exact (StepLand fx_settings (λ _, None) up_head up_copy up_stored (LeftDrop up_row) [] _ Done
    ltac:(by rewrite Hl) eq_refl)|]. by intros id [= <-].
Qed.
