(* ===== verification/Sink.v ===== *)
(** * Where a turn on the worker reports (src/src/apipi/worker/sink.py,
      worker/artifact_upload.py)

    `OutboxSink` turns every report of a turn into a durable envelope of the worker's
    outbox ([Outbox.append]).  The code runs in a monad over the state of the turn
    ([turn_world]) that writes down what others can see ([effect]) and can raise
    ([raised]).  Appending never suspends the task, so what happens between two
    suspensions is one step; at a suspension the other tasks of the worker may change
    the outbox ([elsewhere]).  Clock readings, file outcomes, fresh ids, and what others
    do are read from oracles at the number of the step ([w_at]).  The log lines, metrics
    and spans of a turn are left out, except the outbox's own warning that it refuses an
    envelope. *)

From S2P Require Import Prelude PyStd Protocol Db Sandbox Usage Accounting Outbox Ingest TurnState.

Open Scope Z_scope.

(** ** The state of a turn *)

(** `TurnTally` *)
Record turn_tally : Type := TurnTally { ta_tools : list string; ta_mcps : list string }.
Definition reset : turn_tally := TurnTally [] [].
Definition add_tool (t : turn_tally) (name : string) : turn_tally :=
  if decide (name = ""%string) then t else TurnTally (ta_tools t ++ [name]) (ta_mcps t).
Definition add_mcp (t : turn_tally) (name : option string) : turn_tally :=
  match name with
  | Some n => if decide (n = ""%string) then t else TurnTally (ta_tools t) (ta_mcps t ++ [n])
  | None => t
  end.
Definition snapshot (t : turn_tally) : list string * odict string Z * list string * odict string Z :=
  let '(tools, tool_counts) := tally (ta_tools t) in
  let '(mcps, mcp_counts) := tally (ta_mcps t) in
  (tools, tool_counts, mcps, mcp_counts).

(** The fields of `OutboxSink` (its outbox, the session it is bound to, `_tally`,
    `_turn_started`, `_emergency`), the abort event the bus holds for the session, and
    `retry_state` of the running turn: the attempts started, and whether it backs off. *)
Record turn_world : Type := TurnWorld {
  w_outbox : outbox; w_tenant : uuid; w_session : uuid; w_tally : turn_tally;
  w_started : gmap uuid Z; w_emergency : bool;
  w_abort : option bool; w_retry : Z * bool; w_at : nat
}.
Definition with_outbox (w : turn_world) (o : outbox) : turn_world :=
  TurnWorld o (w_tenant w) (w_session w) (w_tally w) (w_started w) (w_emergency w) (w_abort w)
    (w_retry w) (S (w_at w)).
Definition with_tally (w : turn_world) (t : turn_tally) : turn_world :=
  TurnWorld (w_outbox w) (w_tenant w) (w_session w) t (w_started w) (w_emergency w) (w_abort w)
    (w_retry w) (w_at w).
Definition with_started (w : turn_world) (m : gmap uuid Z) : turn_world :=
  TurnWorld (w_outbox w) (w_tenant w) (w_session w) (w_tally w) m (w_emergency w) (w_abort w)
    (w_retry w) (w_at w).
Definition with_emergency (w : turn_world) (b : bool) : turn_world :=
  TurnWorld (w_outbox w) (w_tenant w) (w_session w) (w_tally w) (w_started w) b (w_abort w)
    (w_retry w) (w_at w).
Definition with_abort (w : turn_world) (a : option bool) : turn_world :=
  TurnWorld (w_outbox w) (w_tenant w) (w_session w) (w_tally w) (w_started w) (w_emergency w) a
    (w_retry w) (w_at w).
Definition with_retry (w : turn_world) (r : Z * bool) : turn_world :=
  TurnWorld (w_outbox w) (w_tenant w) (w_session w) (w_tally w) (w_started w) (w_emergency w) (w_abort w)
    r (w_at w).

(** What others can see: an envelope in the outbox, the outbox's refusal of one (its
    warning), a live event on the bus, the abort event set, and the harness told to
    stop. *)
Inductive effect : Type :=
| Posted (x : stored)
| Warned (e : append_error)
| Published (type : string) (data : list (string * json))
| Aborts
| HarnessAbort.

(** What the code of a turn raises. *)
Inductive raised : Type :=
| OtherSession                        (* the sink's `ValueError` *)
| Invalid                             (* pydantic's `ValidationError` *)
| Refused (e : append_error)
| DiskLimit (message code : string)
| TurnFailedError (f : failure)
| TurnTimeout
| CapacityError (message code : string)
| CredentialsUnsupported (message : string)
| OsError (message : string)
| ApiRaised (message : string) (code : option string)
| Raised (e : exn).

(** ** The monad *)

Definition act (A : Type) : Type := turn_world → turn_world * list effect * res raised A.
#[export] Instance act_ret : MRet act := λ A a w, (w, [], Ok a).
#[export] Instance act_bind : MBind act := λ A B f m w,
  match m w with
  | (w', t, Ok a) => let '(w'', t', r) := f a w' in (w'', t ++ t', r)
  | (w', t, Err e) => (w', t, Err e)
  end.
Definition raise {A} (e : raised) : act A := λ w, (w, [], Err e).
Definition lift {A} (r : res exn A) : act A := λ w, (w, [], match r with Ok a => Ok a | Err e => Err (Raised e) end).
Definition gets {A} (f : turn_world → A) : act A := λ w, (w, [], Ok (f w)).
Definition modify (f : turn_world → turn_world) : act () := λ w, (f w, [], Ok ()).
Definition tell (e : effect) : act () := λ w, (w, [e], Ok ()).
(** `try: m except ...: h` ([None]: not caught), and `try: m finally: f`. *)
Definition catching {A} (m : act A) (h : raised → option (act A)) : act A := λ w,
  match m w with
  | (w', t, Err e) =>
      match h e with
      | Some m' => let '(w'', t', r) := m' w' in (w'', t ++ t', r)
      | None => (w', t, Err e)
      end
  | out => out
  end.
Definition finally {A} (m : act A) (f : turn_world → turn_world) : act A := λ w,
  let '(w', t, r) := m w in (f w', t, r).

(** `except OutboxFull`: its subclass `EnvelopeTooLarge` too. *)
Definition is_outbox_full (e : raised) : bool :=
  match e with Refused (OutboxFull _) | Refused (EnvelopeTooLarge _ _) => true | _ => false end.

Section sink.
Context (cfg : config) (clock : nat → Z) (spool_ok : nat → bool) (fresh : nat → uuid).
Context (elsewhere : nat → outbox → outbox).

(** The task is suspended. *)
Definition suspend : act () := λ w, (with_outbox w (elsewhere (w_at w) (w_outbox w)), [], Ok ()).
(** `uuid.uuid4()` *)
Definition uuid4 : act uuid := λ w, (with_outbox w (w_outbox w), [], Ok (fresh (w_at w))).
(** `time.monotonic()`, in microseconds *)
Definition monotonic : act Z := λ w, (with_outbox w (w_outbox w), [], Ok (clock (w_at w))).

(** `self.outbox.append(session_id, ...)` *)
Definition post (sid : uuid) (type : string) (payload : list (string * json)) (turn : option uuid)
    (emergency : bool) : act stored := λ w,
  let '(o, r) := append cfg (w_outbox w) (clock (w_at w)) (spool_ok (w_at w)) sid type payload turn emergency in
  (with_outbox w o,
   [match r with Ok x => Posted x | Err e => Warned e end],
   match r with Ok x => Ok x | Err e => Err (Refused e) end).

(** ** `OutboxSink` *)

Definition emergency_mode {A} (m : act A) : act A :=
  previous ← gets w_emergency;
  _ ← modify (λ w, with_emergency w true);
  finally m (λ w, with_emergency w previous).

Definition check (tenant sid : uuid) : act () := λ w,
  (w, [], if decide (tenant = w_tenant w ∧ sid = w_session w) then Ok () else Err OtherSession).

Definition tally_tool (name : string) : act () := modify (λ w, with_tally w (add_tool (w_tally w) name)).
Definition tally_mcp (name : option string) : act () := modify (λ w, with_tally w (add_mcp (w_tally w) name)).

(** A value of a `str | None` and of a `list | None` field. *)
Definition opt_text (j : json) : bool := match j with JStr _ | JNull => true | _ => false end.
Definition opt_list (j : json) : bool := match j with JArr _ | JNull => true | _ => false end.
Definition update_session (tenant sid : uuid) (changes : list (string * json)) : act () :=
  _ ← check tenant sid;
  let status := default JNull (jget "status" changes) in
  let actions := default (JArr []) (jget "required_actions" changes) in
  if negb (opt_text status && opt_list actions) then raise Invalid
  else
    emergency ← gets w_emergency;
    _ ← post sid "session.status" [("status", status); ("required_actions", actions)]%string None emergency;
    mret ().

(** The `Literal` of `TurnStatusPayload.status`. *)
Definition TURN_STATUSES : list string := ["started"; "completed"; "failed"; "cancelled"]%string.
Definition turn_status_payload (turn : uuid) (status : string) (failure : option failure)
    : res raised (list (string * json)) :=
  if decide (status ∈ TURN_STATUSES) then
    Ok ([("turn_id", JStr (str_of_uuid turn)); ("status", JStr status)]%string
        ++ match failure with
           | Some f => [("code", JStr (f_code f)); ("message", JStr (f_message f))]%string
           | None => [] end)
  else Err Invalid.
Definition of_res {A} (r : res raised A) : act A := λ w, (w, [], r).

Definition create_turn (tenant sid : uuid) (status : string) (turn_id : option uuid) : act uuid :=
  _ ← check tenant sid;
  resolved ← match turn_id with Some t => mret t | None => uuid4 end;
  _ ← modify (λ w, with_tally w reset);
  now ← monotonic;
  _ ← modify (λ w, with_started w (<[resolved := now]> (w_started w)));
  _ ← catching
        (payload ← of_res (turn_status_payload resolved
                             (if decide (status = "in_progress"%string) then "started" else status) None);
         emergency ← gets w_emergency;
         _ ← post sid "turn.status" payload (Some resolved) emergency; mret ())
        (λ e, if is_outbox_full e
              then Some (_ ← modify (λ w, with_started w (delete resolved (w_started w))); raise e)
              else None);
  mret resolved.

Definition create_item (tenant sid : uuid) (type : string) (data : option (list (string * json)))
    (turn : option uuid) (item_id : option uuid) : act uuid :=
  _ ← check tenant sid;
  resolved ← match item_id with Some i => mret i | None => uuid4 end;
  emergency ← gets w_emergency;
  _ ← post sid "item.added"
        [("item_id", JStr (str_of_uuid resolved)); ("item_type", JStr type);
         ("turn_id", uuid_or_null turn); ("data", JObj (default [] data))]%string turn emergency;
  mret resolved.

Definition append_event (tenant sid : uuid) (type : string) (data : option (list (string * json))) : act () :=
  _ ← check tenant sid;
  if decide (type ∉ PUBLIC_EVENT_TYPES) then mret ()
  else
    let body := default [] data in
    let turn := default None (turn_id_in body) in
    emergency ← gets w_emergency;
    _ ← post sid "event" [("type", JStr type); ("data", JObj body); ("turn_id", uuid_or_null turn)]%string
          turn emergency;
    mret ().

Definition finish_turn (tenant sid turn : uuid) (status : string) (failure : option failure) : act () :=
  _ ← check tenant sid;
  payload ← of_res (turn_status_payload turn status failure);
  emergency ← gets w_emergency;
  _ ← post sid "turn.status" payload (Some turn)
        (emergency || bool_decide (status ∈ ["failed"; "cancelled"]%string));
  mret ().

(** `failure_dict`, in the order of `UsageFailure`. *)
Definition failure_dict (f : failure) : list (string * json) :=
  [("message", JStr (f_message f)); ("code", JStr (f_code f)); ("failure_source", JStr (f_source f));
   ("retryable", JBool (f_retryable f)); ("upstream_status", jopt_int (f_upstream_status f));
   ("legacy_code", jopt_str (f_legacy f)); ("upstream_attempts", jopt_int (f_attempts f))]%string.
Definition counts_json (c : odict string Z) : json := JObj ((λ p, (p.1, JInt p.2)) <$> oitems c).
Definition names_json (l : list string) : json := JArr (JStr <$> l).

(** The latency of a turn that started at [started], when it is known and not 0. *)
Definition turn_latency (started : option Z) : act Z :=
  match started with
  | None | Some 0 => mret 0
  | Some s => now ← monotonic; mret (latency_ms now s)
  end.

(** `UsagePayload`: the counts, the log's ids and the tally. *)
Definition usage_payload (turn : uuid) (status : string) (stored : list (string * Z)) (latency : Z)
    (error_code request_id user_id : option string) (artifact_bytes : Z) (t : turn_tally)
    (failure : option failure) : list (string * json) :=
  let '(tools, tool_counts, mcps, mcp_counts) := snapshot t in
  [("turn_id", JStr (str_of_uuid turn)); ("status", JStr status);
   ("prompt_tokens", JInt (uget stored "prompt_tokens"));
   ("completion_tokens", JInt (uget stored "completion_tokens"));
   ("total_tokens", JInt (uget stored "total_tokens"));
   ("cache_read_tokens", JInt (uget stored "cache_read_tokens"));
   ("cache_write_tokens", JInt (uget stored "cache_write_tokens"));
   ("latency_ms", JInt latency); ("request_id", jopt_str request_id); ("user_id", jopt_str user_id);
   ("error_code", jopt_str error_code); ("artifact_bytes", JInt artifact_bytes);
   ("tool_names", names_json tools); ("tool_counts", counts_json tool_counts);
   ("mcp_names", names_json mcps); ("mcp_counts", counts_json mcp_counts);
   ("failure", match failure with Some f => JObj (failure_dict f) | None => JNull end)]%string.

Definition write_turn_log (tenant sid turn : uuid) (status : string) (usage : option json)
    (error_code request_id : option string) (artifact_bytes : Z) (user_id : option string)
    (failure : option failure) : act () :=
  _ ← check tenant sid;
  stored ← lift (usage_from usage);
  tally ← gets w_tally;
  started ← gets (λ w, w_started w !! turn);
  latency ← turn_latency started;
  emergency ← gets w_emergency;
  finally
    (_ ← post sid "usage"
       (usage_payload turn status stored latency error_code request_id user_id artifact_bytes tally failure)
       (Some turn) (emergency || bool_decide (status = "failed"%string)); mret ())
    (λ w, with_started (with_tally w reset) (delete turn (w_started w))).

(** ** `upload_via_presign` *)

Context (sha256_hex : list ascii → string) (guess_type : string → option string).

Record presign_answer : Type := PresignAnswer {
  pa_ok : bool; pa_unchanged : bool; pa_upload : option uuid; pa_url : option string;
  pa_path : option string; pa_code : option string; pa_message : option string
}.
(** What happens to one upload: the reply ([None]: it timed out, or the socket closed
    first), whether the PUT is accepted, and what the write below the store root gives. *)
Record transfer : Type := Transfer {
  tf_answer : option presign_answer; tf_put : res exn (); tf_write : res exn string
}.
Definition config_error : exn := OtherExn None.
Definition or_text (s : option string) (d : string) : string :=
  match s with Some x => if decide (x = ""%string) then d else x | None => d end.

Definition presign_envelope (request : uuid) (kind : string) (filename content_type : option string)
    (data : list ascii) (turn : option uuid) : res raised (list (string * json)) :=
  if Z.of_nat (length data) <? 1 then Err Invalid
  else Ok ([("request_id", JStr (str_of_uuid request)); ("kind", JStr kind);
            ("filename", JStr (or_text filename "artifact"));
            ("content_type", JStr (or_text content_type "application/octet-stream"));
            ("size", JInt (Z.of_nat (length data))); ("sha256", JStr (sha256_hex data))]%string
           ++ match turn with Some t => [("turn_id"%string, JStr (str_of_uuid t))] | None => [] end).
Definition completed_envelope (upload : uuid) (data : list ascii) (path name : option string)
    (turn : option uuid) : list (string * json) :=
  [("upload_id"%string, JStr (str_of_uuid upload))]
  ++ optional "path" (JStr <$> path) ++ optional "name" (JStr <$> name)
  ++ [("size", JInt (Z.of_nat (length data))); ("sha256", JStr (sha256_hex data))]%string
  ++ optional "turn_id" (JStr ∘ str_of_uuid <$> turn).

Definition upload_via_presign (tf : transfer) (sid : uuid) (kind : string)
    (filename content_type : option string) (data : list ascii) (turn : option uuid) : act () :=
  request ← uuid4;
  payload ← of_res (presign_envelope request kind filename content_type data turn);
  _ ← post sid "artifact.presign" payload turn false;
  _ ← suspend;
  match tf_answer tf with
  | None => raise (Raised config_error)
  | Some a =>
      if negb (pa_ok a) then
        raise (DiskLimit (or_text (pa_message a) "Cannot write artifacts") (or_text (pa_code a) "artifact_store"))
      else if pa_unchanged a then mret ()
      else
        match pa_upload a with
        | None => raise (Raised config_error)
        | Some upload =>
            path ← (if decide (or_text (pa_url a) "" ≠ ""%string) then
                      _ ← suspend; _ ← lift (tf_put tf); mret None
                    else if decide (or_text (pa_path a) "" = ""%string) then raise (Raised config_error)
                    else p ← lift (tf_write tf); mret (Some p));
            _ ← post sid "artifact.completed" (completed_envelope upload data path filename turn) turn false;
            mret ()
        end
  end.

(** [transfers]: what happens to the upload of each file, by its place. *)
Fixpoint store_files (transfers : nat → transfer) (i : nat) (sid turn : uuid)
    (files : list (string * list ascii)) : act () :=
  match files with
  | [] => mret ()
  | (rel, data) :: rest =>
      _ ← upload_via_presign (transfers i) sid "artifact" (Some rel)
            (Some (or_text (guess_type rel) "application/octet-stream")) data (Some turn);
      store_files transfers (S i) sid turn rest
  end.
Definition store_artifacts (transfers : nat → transfer) (tenant sid turn : uuid)
    (files : list (string * list ascii)) : act () :=
  if decide (files = []) then mret ()
  else _ ← check tenant sid; store_files transfers 0 sid turn files.
Definition store_pi_session (tf : transfer) (tenant sid : uuid) (data : list ascii) : act () :=
  if decide (data = []) then mret ()
  else
    _ ← check tenant sid;
    upload_via_presign tf sid "pi_session" (Some "pi-session.jsonl"%string)
      (Some "application/octet-stream"%string) data None.
End sink.
