(* ===== verification/TurnEnd.v ===== *)
(** * How a turn on the worker ends (src/src/apipi/worker/turn_end.py)

    A turn completes, is cancelled or fails; each ending reports through the sink of
    [Sink], in the order the API waits for.  The files of the turn, read from the guest
    and the host before ([harvest]), are uploaded between the end of a completed turn
    and its log. *)

From S2P Require Import Prelude PyStd Protocol Db Sandbox Usage Outbox Ingest TurnState Sink.

Open Scope Z_scope.

(** The arguments every ending takes: the session, the turn, the ids for its log and
    `settings.error_codes`. *)
Record turn_args : Type := TurnArgs {
  a_tenant : uuid; a_session : uuid; a_turn : uuid; a_request : option string;
  a_user : option string; a_errors : string
}.

(** What `_hosted_files` and `read_pi_session_bytes` gave: the files to publish, the limit
    the workspace passed, the Pi session, and how each upload goes. *)
Record harvest : Type := Harvest {
  hv_files : list (string * list ascii); hv_limit : option (string * string);
  hv_transfers : nat → transfer; hv_session : list ascii; hv_session_transfer : transfer
}.

Section turn_end.
Context (cfg : config) (clock : nat → Z) (spool_ok : nat → bool) (fresh : nat → uuid).
Context (elsewhere : nat → outbox → outbox).
Context (classify_host_message : string → failure).
Context (sha256_hex : list ascii → string) (guess_type : string → option string).

#[local] Abbreviation update_session := (Sink.update_session cfg clock spool_ok).
#[local] Abbreviation create_item := (Sink.create_item cfg clock spool_ok fresh).
#[local] Abbreviation append_event := (Sink.append_event cfg clock spool_ok).
#[local] Abbreviation finish_turn := (Sink.finish_turn cfg clock spool_ok).
#[local] Abbreviation write_turn_log := (Sink.write_turn_log cfg clock spool_ok).
#[local] Abbreviation store_artifacts := (Sink.store_artifacts cfg clock spool_ok fresh elsewhere sha256_hex guess_type).
#[local] Abbreviation store_pi_session := (Sink.store_pi_session cfg clock spool_ok fresh elsewhere sha256_hex).
#[local] Abbreviation failure_for := (TurnState.failure_for classify_host_message).

Definition idle_changes : list (string * json) :=
  [("status", JStr "idle"); ("required_actions", JArr [])]%string.
Definition session_idle (tenant sid : uuid) : act () :=
  _ ← update_session tenant sid idle_changes;
  append_event tenant sid "agent.session.idle" None.

Definition emit_item (tenant sid turn : uuid) (type : string) (data : list (string * json)) : act () :=
  item ← create_item tenant sid type (Some data) (Some turn) None;
  _ ← append_event tenant sid "agent.session.turn.item.added"
        (Some [("item_id", JStr (str_of_uuid item)); ("item_type", JStr type);
               ("turn_id", JStr (str_of_uuid turn))]%string);
  append_event tenant sid "agent.session.turn.item.done"
    (Some [("item_id", JStr (str_of_uuid item)); ("turn_id", JStr (str_of_uuid turn))]%string).

Definition fail_turn (a : turn_args) (message code : string) (failure : option failure) : act () :=
  let resolved := match failure with Some f => f | None => failure_for code message end in
  _ ← finish_turn (a_tenant a) (a_session a) (a_turn a) "failed" (Some resolved);
  _ ← write_turn_log (a_tenant a) (a_session a) (a_turn a) "failed" None (Some (f_code resolved))
        (a_request a) 0 (a_user a) (Some resolved);
  _ ← append_event (a_tenant a) (a_session a) "agent.session.turn.failed"
        (Some (turn_failed_data (str_of_uuid (a_turn a)) resolved));
  _ ← append_event (a_tenant a) (a_session a) "agent.session.error"
        (Some (session_error_data resolved (error_mode (Some (a_errors a)))));
  session_idle (a_tenant a) (a_session a).

Definition cancel_data (turn : string) : list (string * json) :=
  [("turn_id", JStr turn); ("failure_source", JStr "user"); ("code", JStr "cancelled");
   ("reason", JStr "user"); ("upstream_status", JNull); ("retryable", JBool false)]%string.
Definition cancel_turn (a : turn_args) : act () :=
  let cancelled := failure_for "cancelled" "Cancelled" in
  _ ← finish_turn (a_tenant a) (a_session a) (a_turn a) "cancelled" (Some cancelled);
  _ ← write_turn_log (a_tenant a) (a_session a) (a_turn a) "cancelled" None (Some (f_code cancelled))
        (a_request a) 0 (a_user a) (Some cancelled);
  _ ← append_event (a_tenant a) (a_session a) "agent.session.turn.cancelled"
        (Some (cancel_data (str_of_uuid (a_turn a))));
  session_idle (a_tenant a) (a_session a).

(** `OutboxFull.code`, `OutboxFull.message`, and those of `EnvelopeTooLarge`. *)
Definition full_code (e : append_error) : string :=
  match e with EnvelopeTooLarge _ _ => "worker_message_too_large" | _ => "worker_outbox_full" end.
Definition full_message (e : append_error) : string :=
  match e with
  | EnvelopeTooLarge _ _ => "A result is too large for the worker protocol"
  | _ => "Worker outbox is full" end.

Definition set_abort : act () :=
  abort ← gets w_abort;
  match abort with
  | Some _ => _ ← modify (λ w, with_abort w (Some true)); tell Aborts
  | None => mret () end.
Definition fail_outbox_full (a : turn_args) (reason : append_error) : act () :=
  _ ← set_abort;
  catching (emergency_mode (fail_turn a (full_message reason) (full_code reason) None))
    (λ e, if is_outbox_full e then Some (mret ()) else None).

(** A limit error keeps its code; whatever else an upload raises is an `artifact_store` error. *)
Definition store_limit (e : raised) : string * string :=
  match e with DiskLimit message code => (message, code)
  | _ => ("Cannot write artifacts", "artifact_store")%string end.
(** `try: ... except: limit_error = ...` *)
Definition attempt (m : act ()) : act (option (string * string)) :=
  catching (_ ← m; mret None) (λ e, Some (mret (Some (store_limit e)))).
Definition or_else {A} (x y : option A) : option A := match x with Some a => Some a | None => y end.

(** The bytes published, or [None] when the turn failed here. *)
Definition harvest_split (a : turn_args) (h : harvest) : act (option Z) :=
  _ ← suspend elsewhere;
  stored ← attempt (store_artifacts (hv_transfers h) (a_tenant a) (a_session a) (a_turn a) (hv_files h));
  let limit := or_else stored (hv_limit h) in
  _ ← suspend elsewhere;
  cached ← attempt (store_pi_session (hv_session_transfer h) (a_tenant a) (a_session a) (hv_session h));
  let limit := or_else limit cached in
  let total := foldr Z.add 0 ((λ f, Z.of_nat (length f.2)) <$> hv_files h) in
  match limit with
  | Some (message, code) =>
      if decide (code = "artifact_store"%string) then
        _ ← fail_turn a message "artifact_store" None; mret None
      else
        _ ← append_event (a_tenant a) (a_session a) "agent.session.error"
              (Some [("message", JStr message); ("code", JStr code)]%string);
        mret (Some total)
  | None => mret (Some total)
  end.

Definition usage_json (u : list (string * Z)) : json := JObj ((λ p, (p.1, JInt p.2)) <$> u).
Definition complete_turn (a : turn_args) (reply : string) (usage : list (string * Z)) (h : harvest) : act () :=
  _ ← emit_item (a_tenant a) (a_session a) (a_turn a) "message"
        [("role", JStr "assistant"); ("content", JStr reply)]%string;
  stored ← lift (usage_from (Some (usage_json usage)));
  _ ← finish_turn (a_tenant a) (a_session a) (a_turn a) "completed" None;
  published ← harvest_split a h;
  match published with
  | None => mret ()
  | Some bytes =>
      _ ← write_turn_log (a_tenant a) (a_session a) (a_turn a) "completed" (Some (usage_json stored)) None
            (a_request a) bytes (a_user a) None;
      _ ← append_event (a_tenant a) (a_session a) "agent.session.turn.completed"
            (Some [("turn_id", JStr (str_of_uuid (a_turn a))); ("usage", usage_json stored)]%string);
      session_idle (a_tenant a) (a_session a)
  end.
End turn_end.
