(* ===== verification/Runtime.v ===== *)
(** * A turn on the worker (src/src/apipi/worker/runtime.py, worker/commands.py)

    `run_turn` and `continue_turn` from the moment their context is prepared: the turn is
    announced, the events of the harness are consumed and reported, and the turn ends in
    one of its ways; what escapes them is reported by the command dispatch.  The
    preparation (reading the context, files, skills and the Pi session, provisioning the
    workspace) and the harness are inputs: how the preparation went ([preparation]), the
    events in order and how they end ([stream]), and the files read at the end. *)

From S2P Require Import Prelude PyStd Protocol Db Sandbox Usage Outbox Ingest TurnState Sink TurnEnd.

Open Scope Z_scope.

(** What the harness yields, or another task does while the turn waits for it: set the
    abort event of the turn. *)
Inductive heard : Type :=
| Yields (etype : string) (data : list (string * json))
| Cancels.
(** How the events end. *)
Inductive stream_end : Type :=
| Exhausted
| TimesOut
| AtCapacity (message code : string)
| NoCredentials (message : string)
| OsFailure (message : string)
| Breaks (e : exn).
Record stream : Type := Stream { st_heard : list heard; st_end : stream_end }.

Inductive preparation : Type :=
| EnvironmentFails (message : string) (code : option string)
| Escapes (e : raised)
| CacheUnreadable
| Prepared.

(** ** `_note_retry`, `_attempts_so_far` *)

Definition note_retry (state : Z * bool) (etype : string) (data : list (string * json)) : Z * bool :=
  if decide (etype = "agent.session.turn.retrying"%string) then
    (match jint (jget "attempt" data) with
     | Some n => if state.1 <? n then n else state.1 | None => state.1 end, true)
  else if decide (etype = "agent.session.turn.retry.completed"%string) then (state.1, false)
  else state.
Definition attempts_so_far (state : Z * bool) : Z :=
  let count := if 0 <=? state.1 then state.1 else 0 in
  if state.2 then Z.max count 1 else count + 1.

Section runtime.
Context (cfg : config) (clock : nat → Z) (spool_ok : nat → bool) (fresh : nat → uuid).
Context (elsewhere : nat → outbox → outbox).
Context (classify_host_message : string → failure).
Context (sha256_hex : list ascii → string) (guess_type : string → option string).

#[local] Abbreviation update_session := (Sink.update_session cfg clock spool_ok).
#[local] Abbreviation create_turn := (Sink.create_turn cfg clock spool_ok fresh).
#[local] Abbreviation append_event := (Sink.append_event cfg clock spool_ok).
#[local] Abbreviation suspend := (Sink.suspend elsewhere).
#[local] Abbreviation emit_item := (TurnEnd.emit_item cfg clock spool_ok fresh).
#[local] Abbreviation fail_turn := (TurnEnd.fail_turn cfg clock spool_ok classify_host_message).
#[local] Abbreviation cancel_turn := (TurnEnd.cancel_turn cfg clock spool_ok classify_host_message).
#[local] Abbreviation fail_outbox_full := (TurnEnd.fail_outbox_full cfg clock spool_ok classify_host_message).
#[local] Abbreviation complete_turn := (TurnEnd.complete_turn cfg clock spool_ok fresh elsewhere
  classify_host_message sha256_hex guess_type).
#[local] Abbreviation failure_for := (TurnState.failure_for classify_host_message).

(** `failure_from_payload` *)
Definition failure_from_payload (data : list (string * json)) : failure :=
  let text := match text_of (jget "message" data) with Some m => m | None => "Model host error"%string end in
  match text_of (jget "code" data), text_of (jget "failure_source" data) with
  | Some code, Some source =>
      Failure text code source (match jget "retryable" data with Some v => truthy v | None => false end)
        (jint (jget "upstream_status" data)) (text_of (jget "legacy_code" data))
        (match jint (jget "upstream_attempts" data) with
         | Some n => if 0 <=? n then Some n else None | None => None end)
  | _, _ => classify_host_message text
  end.
Definition with_attempts (f : failure) (n : Z) : failure :=
  Failure (f_message f) (f_code f) (f_source f) (f_retryable f) (f_upstream_status f) (f_legacy f) (Some n).

(** ** `_consume_generate` *)

Definition call_of (data : list (string * json)) : option (string * list (string * json)) :=
  match jstr (jget "call_id" data), jstr (jget "name" data) with
  | Some call_id, Some name =>
      Some (name, [("type", JStr "function_call"); ("call_id", JStr call_id); ("name", JStr name);
                   ("arguments", JObj (default [] (jobj (jget "arguments" data))))]%string)
  | _, _ => None
  end.
Definition is_mcp_call (etype : string) (payload : list (string * json)) : bool :=
  bool_decide (etype ∈ ["agent.session.turn.item.added"; "agent.session.turn.item.nested"]%string)
  && bool_decide (jstr (jget "item_type" payload) = Some "mcp_call"%string).
(** `payload.setdefault("turn_id", str(turn_id))` *)
Definition with_turn (data : list (string * json)) (turn : uuid) : list (string * json) :=
  match jget "turn_id" data with Some _ => data | None => data ++ [("turn_id"%string, JStr (str_of_uuid turn))] end.

(** The reply, the pending calls and the counts so far. *)
Record consumed : Type := Consumed { cs_reply : string; cs_pending : list json; cs_usage : list (string * Z) }.
Definition nothing_yet : consumed := Consumed "" [] empty_usage.

Definition consume_one (a : turn_args) (c : consumed) (etype : string) (data : list (string * json)) : act consumed :=
  if decide (etype = "usage"%string) then
    u ← lift (usage_from (Some (JObj data)));
    mret (Consumed (cs_reply c) (cs_pending c) (add_usage (cs_usage c) u))
  else
    _ ← modify (λ w, with_retry w (note_retry (w_retry w) etype data));
    if decide (etype = "pi_error"%string) then
      state ← gets w_retry;
      raise (TurnFailedError (with_attempts (failure_from_payload data) (state.1 + 1)))
    else
      let payload := with_turn data (a_turn a) in
      if decide (etype ∈ LIVE_EVENT_TYPES) then
        _ ← tell (Published etype payload); _ ← suspend; mret c
      else if decide (etype = "function_call"%string) then
        match call_of payload with
        | None => mret c
        | Some (name, call) =>
            _ ← tally_tool name;
            _ ← emit_item (a_tenant a) (a_session a) (a_turn a) "function_call" call;
            mret (Consumed (cs_reply c) (cs_pending c ++ [JObj call]) (cs_usage c))
        end
      else
        _ ← (if is_mcp_call etype payload then tally_mcp (mcp_name payload) else mret ());
        let reply := if decide (etype = "agent.session.turn.output_text.done"%string)
                     then default (cs_reply c) (jstr (jget "text" payload)) else cs_reply c in
        _ ← append_event (a_tenant a) (a_session a) etype (Some payload);
        mret (Consumed reply (cs_pending c) (cs_usage c)).

Fixpoint consume (a : turn_args) (l : list heard) (c : consumed) : act consumed :=
  match l with
  | [] => mret c
  | Yields etype data :: l =>
      _ ← suspend; c ← consume_one a c etype data; consume a l c
  | Cancels :: l =>
      _ ← suspend;
      _ ← modify (λ w, with_abort w (match w_abort w with Some _ => Some true | None => None end));
      consume a l c
  end.
(** What the harness or the timer raises at the end. *)
Definition stream_error (e : stream_end) : option raised :=
  match e with
  | Exhausted => None
  | TimesOut => Some TurnTimeout
  | AtCapacity message code => Some (CapacityError message code)
  | NoCredentials message => Some (CredentialsUnsupported message)
  | OsFailure message => Some (OsError message)
  | Breaks e => Some (Raised e)
  end.
Definition consume_generate (a : turn_args) (s : stream) : act consumed :=
  c ← consume a (st_heard s) nothing_yet;
  _ ← suspend;
  match stream_error (st_end s) with Some e => raise e | None => mret c end.

(** ** The `except` clauses around it, and the end of the turn *)

(** The clauses both functions have. *)
Definition ended_by (a : turn_args) (e : raised) : option (act ()) :=
  match e with
  | Refused r => if is_outbox_full e then Some (fail_outbox_full a r) else None
  | TurnFailedError f => Some (fail_turn a (f_message f) (f_code f) (Some f))
  | CredentialsUnsupported message => Some (fail_turn a message "credential_not_allowed" None)
  | OsError message => Some (fail_turn a (or_text (Some message) "Cannot start Pi") "spawn_failed" None)
  | _ => None
  end.
Definition time_out (a : turn_args) : act () :=
  _ ← tell HarnessAbort;
  _ ← suspend;
  state ← gets w_retry;
  let timed_out := with_attempts (failure_for "turn_timeout" "Turn timed out") (attempts_so_far state) in
  fail_turn a (f_message timed_out) "turn_timeout" (Some timed_out).
Definition run_error (a : turn_args) (e : raised) : option (act ()) :=
  match e with
  | CapacityError message code =>
      Some (_ ← update_session (a_tenant a) (a_session a) [("status", JStr "idle")]%string;
            raise (ApiRaised message (Some code)))
  | TurnTimeout => Some (_ ← set_abort; time_out a)
  | _ => ended_by a e
  end.
Definition continue_error (a : turn_args) (e : raised) : option (act ()) :=
  match e with
  | CapacityError message code => Some (raise (ApiRaised message (Some code)))
  | TurnTimeout => Some (time_out a)
  | _ => ended_by a e
  end.
(** [None]: the turn is over. *)
Definition guarded (m : act consumed) (h : raised → option (act ())) : act (option consumed) :=
  catching (c ← m; mret (Some c)) (λ e, match h e with Some m' => Some (_ ← m'; mret None) | None => None end).

Definition require_action (a : turn_args) (pending : list json) : act () :=
  _ ← update_session (a_tenant a) (a_session a)
        [("status", JStr "requires_action"); ("required_actions", JArr pending)]%string;
  append_event (a_tenant a) (a_session a) "agent.session.requires_action"
    (Some [("turn_id", JStr (str_of_uuid (a_turn a))); ("required_actions", JArr pending)]%string).
Definition end_turn (a : turn_args) (c : consumed) (h : harvest) : act () :=
  if decide (cs_pending c = []) then complete_turn a (cs_reply c) (cs_usage c) h
  else require_action a (cs_pending c).

(** ** Failures of the session *)

Definition report_session_failed (tenant sid : uuid) (message : string) (code : option string) : act () :=
  _ ← update_session tenant sid [("status", JStr "failed"); ("required_actions", JArr [])]%string;
  _ ← append_event tenant sid "agent.session.error"
        (Some (session_failed_data classify_host_message message code));
  append_event tenant sid "agent.session.failed" None.
Definition report_environment_failed (tenant sid : uuid) (message : string) (code : option string) : act () :=
  _ ← append_event tenant sid "agent.session.environment.failed"
        (Some ([("error"%string, JStr message)] ++ optional "code" (nonempty code)));
  report_session_failed tenant sid message code.

(** ** `run_turn` *)

(** The arguments but the turn, which `create_turn` makes. *)
Definition for_turn (a : turn_args) (turn : uuid) : turn_args :=
  TurnArgs (a_tenant a) (a_session a) turn (a_request a) (a_user a) (a_errors a).

Definition announce (a : turn_args) (content : json) : act uuid :=
  _ ← update_session (a_tenant a) (a_session a) [("status", JStr "in_progress"); ("required_actions", JArr [])]%string;
  _ ← append_event (a_tenant a) (a_session a) "agent.session.in_progress" None;
  turn ← create_turn (a_tenant a) (a_session a) "in_progress" None;
  _ ← append_event (a_tenant a) (a_session a) "agent.session.turn.created"
        (Some [("turn_id", JStr (str_of_uuid turn))]%string);
  _ ← append_event (a_tenant a) (a_session a) "agent.session.turn.in_progress"
        (Some [("turn_id", JStr (str_of_uuid turn))]%string);
  _ ← emit_item (a_tenant a) (a_session a) turn "message" [("role", JStr "user"); ("content", content)]%string;
  mret turn.

Definition run_prepared (a : turn_args) (unreadable : bool) (content : json) (s : stream) (h : harvest) : act () :=
  turn ← announce a content;
  let a := for_turn a turn in
  if unreadable then fail_turn a "Cannot read artifacts" "artifact_store" None
  else
    _ ← modify (λ w, with_retry w (0, false));
    out ← guarded (consume_generate a s) (run_error a);
    match out with
    | None => mret ()
    | Some c =>
        aborted ← gets (λ w, bool_decide (w_abort w = Some true));
        if aborted : bool then cancel_turn a else end_turn a c h
    end.
Definition run_turn (a : turn_args) (p : preparation) (content : json) (s : stream) (h : harvest) : act () :=
  _ ← modify (λ w, with_abort w (Some false));
  finally
    (_ ← suspend;
     match p with
     | EnvironmentFails message code => report_environment_failed (a_tenant a) (a_session a) message code
     | Escapes e => raise e
     | CacheUnreadable => run_prepared a true content s h
     | Prepared => run_prepared a false content s h
     end)
    (λ w, with_abort w None).

(** ** `continue_turn`

    [status] and [actions] are those of the session in the context. *)
Definition is_call (action : json) : bool := bool_decide (jstr (jfield "type" action) = Some "function_call"%string).
Definition answers (call_id : string) (action : json) : bool :=
  is_call action && bool_decide (jstr (jfield "call_id" action) = Some call_id).
Definition is_object (j : json) : bool := match j with JObj _ => true | _ => false end.
Definition continue_turn (a : turn_args) (status : string) (actions : list json) (call_id : string)
    (p : preparation) (s : stream) (h : harvest) : act () :=
  if negb (bool_decide (status = "requires_action"%string)) then
    raise (ApiRaised "Session is not waiting for a tool result" (Some "invalid_request"%string))
  else
    let actions := filter (λ x, is_object x = true) actions in
    if bool_decide (filter (λ x, answers call_id x = true) actions = []) then
      raise (ApiRaised "Unknown call_id" (Some "invalid_request"%string))
    else
      let remaining := filter (λ x, is_call x && negb (answers call_id x) = true) actions in
      if decide (remaining ≠ []) then
        _ ← update_session (a_tenant a) (a_session a) [("required_actions"%string, JArr remaining)];
        append_event (a_tenant a) (a_session a) "agent.session.requires_action"
          (Some [("turn_id", JStr (str_of_uuid (a_turn a))); ("required_actions", JArr remaining)]%string)
      else
        _ ← suspend;
        match p with
        | EnvironmentFails message code => report_environment_failed (a_tenant a) (a_session a) message code
        | Escapes e => raise e
        | CacheUnreadable => fail_turn a "Cannot read artifacts" "artifact_store" None
        | Prepared =>
            _ ← modify (λ w, with_retry w (0, false));
            out ← guarded (consume_generate a s) (continue_error a);
            match out with None => mret () | Some c => end_turn a c h end
        end.

(** ** The dispatch of a turn command (commands.py), and the report of the client when
       even that fails (client.py) *)

Definition escaped (e : raised) : string * string :=
  match e with
  | ApiRaised message code => (message, or_text code "internal")
  | _ => ("Turn failed", "internal")%string
  end.
Definition report_escaped_turn (tenant sid : uuid) (e : raised) : act () :=
  report_session_failed tenant sid (escaped e).1 (Some (escaped e).2).
Definition dispatch (tenant sid : uuid) (m : act ()) : act string :=
  catching (_ ← m; mret "dispatched"%string)
    (λ e, Some (_ ← report_escaped_turn tenant sid e; mret "failed"%string)).
Definition report_command_failed (sid : uuid) (op : string) : act () :=
  catching
    (_ ← post cfg clock spool_ok sid "error"
       [("code", JStr "internal"); ("message", JStr ("Worker command " ++ op ++ " failed"))]%string None false;
     mret ())
    (λ _, Some (mret ())).
Definition run_command (tenant sid : uuid) (op : string) (m : act ()) : act string :=
  catching (dispatch tenant sid m)
    (λ e, Some (_ ← report_command_failed sid op; raise e)).
End runtime.
