(* ===== verification/TurnProtocol.v ===== *)
(** * The order in which a turn reports

    The worker protocol (docs/worker-protocol.md, "Required order within a turn") asks
    that a turn is announced, works, and ends in exactly one way, in a fixed order.  It is
    given here as a language of envelope kinds ([announced], [work], [ending]); what the
    traces of [Runtime] are when the outbox takes every envelope is shown in terms of it: in
    the language, but for a turn that fails to publish its files after it was reported
    completed ([unpublished]) and for one that an error leaves open ([left_open]).

    [says m P]: from a turn of this session, whatever the oracles give, what [m] reports
    and how it ends is in [P], when nothing was refused. *)

From S2P Require Import Prelude PyStd Protocol Db Sandbox Usage Outbox OutboxSpec OutboxProps Ingest TurnState Sink TurnEnd Runtime.

Open Scope Z_scope.

(** ** What an envelope is to the protocol *)

Inductive token : Type :=
| KStatus (status : option string)
| KTurn (turn : option uuid) (status : option string)
| KEvent (type : option string)
| KItem (turn : option uuid)
| KUsage (turn : option uuid)
| KPresign
| KUpload
| KOther.
Definition token_of (e : envelope) : token :=
  let isa t := bool_decide (env_type e = t) in
  if isa "session.status"%string then KStatus (jstr (jget "status" (env_payload e)))
  else if isa "turn.status"%string then KTurn (env_turn e) (jstr (jget "status" (env_payload e)))
  else if isa "event"%string then KEvent (jstr (jget "type" (env_payload e)))
  else if isa "item.added"%string then KItem (env_turn e)
  else if isa "usage"%string then KUsage (env_turn e)
  else if isa "artifact.presign"%string then KPresign
  else if isa "artifact.completed"%string then KUpload
  else KOther.
(** The envelopes of a trace, as [tok] sees them. *)
Definition seen {T} (tok : envelope → T) (t : list effect) : list T :=
  omap (λ f, match f with Posted x => Some (tok (body x)) | _ => None end) t.
Abbreviation tokens := (seen token_of).
(** Nothing was refused. *)
Definition is_warning (f : effect) : bool := match f with Warned _ => true | _ => false end.
Definition accepted (t : list effect) : Prop := Forall (λ f, is_warning f = false) t.

(** ** The language *)

Abbreviation status s := (KStatus (Some s%string)) (only parsing).
Abbreviation event s := (KEvent (Some ("agent.session." ++ s)%string)) (only parsing).

Section language.
Context (turn : uuid).
Definition item : list token := [KItem (Some turn); event "turn.item.added"; event "turn.item.done"].
Definition announced : list token :=
  [status "in_progress"; event "in_progress"; KTurn (Some turn) (Some "started"%string);
   event "turn.created"; event "turn.in_progress"] ++ item.
Inductive work : list token → Prop :=
| work_nil : work []
| work_event type l : type ∈ PUBLIC_EVENT_TYPES → work l → work (KEvent (Some type) :: l)
| work_item l : work l → work (item ++ l).
(** The uploads of a turn: each request, followed by its completion when it was needed
    and went well. *)
Inductive uploads : list token → Prop :=
| uploads_nil : uploads []
| uploads_asked l : uploads l → uploads (KPresign :: l)
| uploads_done l : uploads l → uploads (KPresign :: KUpload :: l).
Definition idle : list token := [status "idle"; event "idle"].
Definition ends (how : string) : list token :=
  [KTurn (Some turn) (Some how); KUsage (Some turn); KEvent (Some ("agent.session.turn." ++ how)%string)].
Definition failed : list token := ends "failed" ++ [event "error"] ++ idle.
Definition completion : list token := item ++ [KTurn (Some turn) (Some "completed"%string)].
Inductive ending : list token → Prop :=
| completed u err : uploads u → err = [] ∨ err = [event "error"] →
    ending (completion ++ u ++ err ++ [KUsage (Some turn); event "turn.completed"] ++ idle)
| needs_action : ending [status "requires_action"; event "requires_action"]
| fails : ending failed
| is_cancelled : ending (ends "cancelled" ++ idle).
(** What the protocol does not have: a turn that failed after it was reported completed. *)
Definition unpublished (l : list token) : Prop := ∃ u, uploads u ∧ l = completion ++ u ++ failed.
End language.
Definition session_failed : list token := [status "failed"; event "error"; event "failed"].

Lemma work_app turn l1 l2 : work turn l1 → work turn l2 → work turn (l1 ++ l2).
Proof.
  induction 1; intros; [done|cbn; by constructor; auto|]. rewrite <- app_assoc. constructor. auto.
Qed.
Lemma uploads_app l1 l2 : uploads l1 → uploads l2 → uploads (l1 ++ l2).
Proof. induction 1; intros; [done|apply uploads_asked; auto|apply uploads_done; auto]. Qed.

(** ** Reasoning about traces *)

Lemma seen_app {T} (tok : envelope → T) t1 t2 : seen tok (t1 ++ t2) = seen tok t1 ++ seen tok t2.
Proof. apply omap_app. Qed.
Lemma accepted_app t1 t2 : accepted (t1 ++ t2) ↔ accepted t1 ∧ accepted t2.
Proof. apply Forall_app. Qed.

Lemma accepted_bool t : forallb (λ f, negb (is_warning f)) t = true → accepted t.
Proof.
  intros H. apply list.Forall_forall. intros f Hf. apply list_elem_of_In in Hf.
  apply (proj1 (forallb_forall _ _) H) in Hf. by apply negb_true_iff.
Qed.

Lemma append_body cfg o now io s type payload turn em o' x :
  append cfg o now io s type payload turn em = (o', Ok x) →
  ∃ seq, body x = Envelope s turn seq type payload.
Proof.
  unfold append. destruct (missing_feature o type); [done|]. destruct (buffer o s) as [o0 b].
  destruct (_ <? _); [done|]. destruct (_ && _); [done|]. destruct (fresh_id o0) as [i o1].
  destruct (spool_append _ _ _ _ _ _) as [o2 b2]. intros [= <- <-]. eexists. reflexivity.
Qed.

Section says.
Context {T : Type} {tok : envelope → T} (tenant sid : uuid).
Definition bound (w : turn_world) : Prop := w_tenant w = tenant ∧ w_session w = sid.
Definition says {A} (m : act A) (P : list T → res raised A → Prop) : Prop := ∀ w w' t r,
  bound w → m w = (w', t, r) → bound w' ∧ (accepted t → P (seen tok t) r).
Definition speaks {A} (m : act A) (l : list T) : Prop := says m (λ l' r, l' = l ∧ ∃ a, r = Ok a).

Lemma says_mono {A} (m : act A) (P Q : list T → res raised A → Prop) :
  says m P → (∀ l r, P l r → Q l r) → says m Q.
Proof. intros Hm HPQ w w' t r Hb Hr. destruct (Hm w w' t r Hb Hr). split; [done|]. auto. Qed.
Lemma speaks_eq {A} (m : act A) l l' : speaks m l → l = l' → speaks m l'.
Proof. by intros ? <-. Qed.
Lemma says_and {A} (m : act A) (P Q : list T → res raised A → Prop) :
  says m P → says m Q → says m (λ l r, P l r ∧ Q l r).
Proof.
  intros HP HQ w w' t r Hb Hr. destruct (HP w w' t r Hb Hr), (HQ w w' t r Hb Hr). split; [done|]. auto.
Qed.

Lemma says_bind {A B} (m : act A) (f : A → act B) P (Q : A → list T → res raised B → Prop) :
  says m P → (∀ a, says (f a) (Q a)) →
  says (m ≫= f) (λ l r, (∃ e, r = Err e ∧ P l (Err e))
                        ∨ ∃ a l1 l2, l = l1 ++ l2 ∧ P l1 (Ok a) ∧ Q a l2 r).
Proof.
  intros Hm Hf w w' t r Hb. unfold mbind, act_bind. destruct (m w) as [[w1 t1] [a|e]] eqn:E.
  - destruct (f a w1) as [[w2 t2] r2] eqn:E2. intros [= <- <- <-].
    apply Hm in E as [Hb1 HP]; [|done]. apply Hf in E2 as [Hb2 HQ]; [|done]. split; [done|].
    rewrite accepted_app, seen_app. intros [H1 H2]. right. exists a, (seen tok t1), (seen tok t2). auto.
  - intros [= <- <- <-]. apply Hm in E as [Hb1 HP]; [|done]. split; [done|]. intros H1. left. eauto.
Qed.
Lemma says_then {A B} (m : act A) (f : A → act B) l1 (Q : list T → res raised B → Prop) :
  speaks m l1 → (∀ a, says (f a) (λ l r, Q (l1 ++ l) r)) → says (m ≫= f) Q.
Proof.
  intros Hm Hf. eapply says_mono; [by apply (says_bind _ _ _ _ Hm Hf)|].
  intros l r [(e & -> & _ & ? & ?)|(a & k1 & k2 & -> & [-> _] & HQ)]; done.
Qed.
Lemma speaks_bind {A B} (m : act A) (f : A → act B) l1 l2 :
  speaks m l1 → (∀ a, speaks (f a) l2) → speaks (m ≫= f) (l1 ++ l2).
Proof.
  intros Hm Hf. eapply says_then; [exact Hm|]. intros a. eapply says_mono; [apply Hf|].
  intros l r [-> ?]. done.
Qed.
Lemma speaks_ret {A} (a : A) : speaks (mret a) [].
Proof. intros w w' t r Hb [= <- <- <-]. split; [done|]. intros _. split; [done|eauto]. Qed.
Lemma says_ret {A} (a : A) : says (mret a) (λ l r, l = [] ∧ r = Ok a).
Proof. by intros w w' t r Hb [= <- <- <-]. Qed.
Lemma says_raise {A} e : says (raise (A:=A) e) (λ l r, l = [] ∧ r = Err e).
Proof. by intros w w' t r Hb [= <- <- <-]. Qed.
Lemma says_lift {A} (x : res exn A) :
  says (lift x) (λ l r, l = [] ∧ match x with Ok a => r = Ok a | Err e => r = Err (Raised e) end).
Proof. intros w w' t r Hb [= <- <- <-]. split; [done|]. by destruct x. Qed.
Lemma says_of_res {A} (x : res raised A) : says (of_res x) (λ l r, l = [] ∧ r = x).
Proof. by intros w w' t r Hb [= <- <- <-]. Qed.
Lemma speaks_gets {A} (f : turn_world → A) : speaks (gets f) [].
Proof. intros w w' t r Hb [= <- <- <-]. split; [done|]. intros _. split; [done|eauto]. Qed.
Lemma speaks_modify f : (∀ w, bound w → bound (f w)) → speaks (modify f) [].
Proof. intros Hf w w' t r Hb [= <- <- <-]. split; [auto|]. intros _. split; [done|eauto]. Qed.
Lemma speaks_tell e : (∀ x, e ≠ Posted x) → speaks (tell e) [].
Proof.
  intros He w w' t r Hb [= <- <- <-]. split; [done|]. intros _. split; [|eauto].
  unfold seen. destruct e; try done. by edestruct He.
Qed.
Lemma says_catching {A} (m : act A) h P Q :
  says m P → (∀ e m', h e = Some m' → says m' (Q e)) →
  says (catching m h) (λ l r, (∃ a, r = Ok a ∧ P l (Ok a)) ∨ (∃ e, h e = None ∧ r = Err e ∧ P l (Err e))
     ∨ ∃ e m' l1 l2, h e = Some m' ∧ l = l1 ++ l2 ∧ P l1 (Err e) ∧ Q e l2 r).
Proof.
  intros Hm Hh w w' t r Hb. unfold catching. destruct (m w) as [[w1 t1] [a|e]] eqn:E.
  - intros [= <- <- <-]. apply Hm in E as [Hb1 HP]; [|done]. split; [done|]. intros. left. eauto.
  - apply Hm in E as [Hb1 HP]; [|done]. destruct (h e) as [m'|] eqn:Eh.
    + destruct (m' w1) as [[w2 t2] r2] eqn:E2. intros [= <- <- <-].
      apply (Hh e m' Eh) in E2 as [Hb2 HQ]; [|done]. split; [done|].
      rewrite accepted_app, seen_app. intros [H1 H2]. right; right.
      exists e, m', (seen tok t1), (seen tok t2). auto.
    + intros [= <- <- <-]. split; [done|]. intros. right; left. eauto.
Qed.
Lemma speaks_catching {A} (m : act A) h l :
  speaks m l → (∀ e m', h e = Some m' → says m' (λ _ _, True)) → speaks (catching m h) l.
Proof.
  intros Hm Hh. eapply says_mono; [by apply (says_catching _ _ _ _ Hm Hh)|].
  intros k r [(a & -> & -> & _)|[(e & _ & _ & _ & ? & ?)|(e & m' & l1 & l2 & _ & _ & (_ & ? & ?) & _)]]; [|done..].
  split; [done|eauto].
Qed.
Lemma says_anything {A} (m : act A) : (∀ w w' t r, bound w → m w = (w', t, r) → bound w') → says m (λ _ _, True).
Proof. intros Hm w w' t r Hb Hr. split; [by eapply Hm|done]. Qed.
Lemma says_finally {A} (m : act A) f P : says m P → (∀ w, bound w → bound (f w)) → says (finally m f) P.
Proof.
  intros Hm Hf w w' t r Hb. unfold finally. destruct (m w) as [[w1 t1] r1] eqn:E.
  intros [= <- <- <-]. apply Hm in E as [Hb1 HP]; [|done]. auto.
Qed.
(** After what reports nothing. *)
Lemma says_silent {A B} (m : act A) (f : A → act B) (Q : list T → res raised B → Prop) :
  speaks m [] → (∀ x, says (f x) Q) → says (m ≫= f) Q.
Proof. intros Hm Hf. by apply (says_then m f [] Q Hm). Qed.
Lemma says_of_ok {A B} (a : A) (f : A → act B) P : says (f a) P → says (of_res (Ok a) ≫= f) P.
Proof.
  intros Hf w w' t r Hb. unfold mbind, act_bind, of_res. destruct (f a w) as [[w1 t1] r1] eqn:E.
  intros [= <- <- <-]. exact (Hf w w1 t1 r1 Hb E).
Qed.
Lemma speaks_of_ok {A B} (a : A) (f : A → act B) l : speaks (f a) l → speaks (of_res (Ok a) ≫= f) l.
Proof. apply says_of_ok. Qed.
Lemma speaks_of_res {A} (a : A) : speaks (of_res (Ok a)) [].
Proof. intros w w' t r Hb [= <- <- <-]. split; [done|]. split; [done|eauto]. Qed.
Lemma speaks_lift {A} (a : A) : speaks (lift (Ok a)) [].
Proof. intros w w' t r Hb [= <- <- <-]. split; [done|]. split; [done|eauto]. Qed.
Lemma speaks_check : speaks (check tenant sid) [].
Proof.
  intros w w' t r [Ht Hs] [= <- <- <-]. split; [by split|]. intros _. rewrite decide_True by auto.
  split; [done|eauto].
Qed.
Lemma speaks_monotonic clock : speaks (monotonic clock) [].
Proof. intros w w' t r [Ht Hs] [= <- <- <-]. split; [by split|]. split; [done|eauto]. Qed.
Lemma speaks_post_as cfg clock spool_ok type payload turn em x :
  (∀ seq, tok (Envelope sid turn seq type payload) = x) →
  speaks (post cfg clock spool_ok sid type payload turn em) [x].
Proof.
  intros Hx w w' t r [Ht Hs] Hp. unfold post in Hp.
  destruct (append _ _ _ _ _ _ _ _ _) as [o [y|e]] eqn:E; injection Hp as <- <- <-.
  - split; [by split|]. intros _. apply append_body in E as [seq Hy]. split; [|eauto].
    unfold seen. cbn [omap list_omap]. by rewrite Hy, Hx.
  - split; [by split|]. intros Ha. apply list.Forall_cons in Ha as [Ha _]. done.
Qed.
End says.
#[global] Arguments says {_} tok tenant sid {_} m P.
#[global] Arguments speaks {_} tok tenant sid {_} m l.

Ltac in_list := apply (bool_decide_unpack _); vm_compute; exact I.
Create HintDb says.
#[export] Hint Resolve speaks_ret speaks_gets : says.

(** ** What the sink says *)

Section sink.
Context (tenant sid : uuid).
Context (cfg : config) (clock : nat → Z) (spool_ok : nat → bool) (fresh : nat → uuid).
Context (elsewhere : nat → outbox → outbox).
Context (classify_host_message : string → failure).
Context (sha256_hex : list ascii → string) (guess_type : string → option string).

#[local] Abbreviation speaks := (speaks token_of tenant sid).
#[local] Abbreviation says := (says token_of tenant sid).

Lemma speaks_suspend : speaks (suspend elsewhere) [].
Proof. intros w w' t r [Ht Hs] [= <- <- <-]. split; [by split|]. split; [done|eauto]. Qed.
Lemma speaks_uuid4 : speaks (uuid4 fresh) [].
Proof. intros w w' t r [Ht Hs] [= <- <- <-]. split; [by split|]. split; [done|eauto]. Qed.
Lemma speaks_post type payload turn em :
  speaks (post cfg clock spool_ok sid type payload turn em)
    [token_of (Envelope sid turn 0 type payload)].
Proof. by apply speaks_post_as. Qed.
Lemma speaks_post_item payload turn em :
  speaks (post cfg clock spool_ok sid "item.added" payload turn em) [KItem turn].
Proof. apply speaks_post. Qed.
Lemma speaks_post_usage payload turn em :
  speaks (post cfg clock spool_ok sid "usage" payload turn em) [KUsage turn].
Proof. apply speaks_post. Qed.
Lemma speaks_post_presign payload turn em :
  speaks (post cfg clock spool_ok sid "artifact.presign" payload turn em) [KPresign].
Proof. apply speaks_post. Qed.
Lemma speaks_post_upload payload turn em :
  speaks (post cfg clock spool_ok sid "artifact.completed" payload turn em) [KUpload].
Proof. apply speaks_post. Qed.
Hint Resolve speaks_check speaks_suspend speaks_uuid4 speaks_monotonic : says.
Hint Resolve speaks_post_item speaks_post_usage speaks_post_presign speaks_post_upload | 1 : says.
Hint Resolve speaks_post | 2 : says.

(** A straight run of reports. *)
Ltac run_says :=
  repeat first
    [ match goal with |- TurnProtocol.speaks _ _ _ (mbind _ (of_res _)) _ => fail 1 | |- TurnProtocol.speaks _ _ _ (mbind _ _) _ => eapply speaks_bind; [|intros ?] end
    | solve [eauto with says]
    | progress cbv zeta
    | match goal with |- TurnProtocol.speaks _ _ _ (match ?p with _ => _ end) _ => is_var p; destruct p end ].
Ltac straight := eapply speaks_eq; [run_says|].

Lemma speaks_emergency {A} (m : act A) l : speaks m l → speaks (emergency_mode m) l.
Proof.
  intros Hm. unfold emergency_mode. eapply speaks_eq; [eapply speaks_bind; [eauto with says|intros b]|reflexivity].
  eapply (speaks_eq _ _ _ ([] ++ l)); [|done].
  eapply speaks_bind; [by apply speaks_modify|intros _]. by apply says_finally.
Qed.
Hint Resolve speaks_of_res speaks_lift : says.
Lemma speaks_modify_done f : (∀ w, w_tenant (f w) = w_tenant w ∧ w_session (f w) = w_session w) → speaks (modify f) [].
Proof. intros Hf. apply speaks_modify. intros w [H1 H2]. destruct (Hf w). split; congruence. Qed.

Lemma speaks_update_session changes :
  opt_text (default JNull (jget "status" changes)) = true →
  opt_list (default (JArr []) (jget "required_actions" changes)) = true →
  speaks (update_session cfg clock spool_ok tenant sid changes)
    [KStatus (jstr (Some (default JNull (jget "status" changes))))].
Proof.
  intros H1 H2. unfold update_session. rewrite H1, H2. cbn [andb negb]. straight. done.
Qed.
Lemma speaks_append_event type data :
  speaks (append_event cfg clock spool_ok tenant sid type data)
    (if decide (type ∈ PUBLIC_EVENT_TYPES) then [KEvent (Some type)] else []).
Proof.
  unfold append_event. case_decide as Hin.
  - rewrite decide_False by exact Hin. by straight.
  - rewrite decide_True by exact Hin. by straight.
Qed.
Lemma speaks_finish_turn turn status f :
  status ∈ TURN_STATUSES →
  speaks (finish_turn cfg clock spool_ok tenant sid turn status f) [KTurn (Some turn) (Some status)].
Proof.
  intros Hs. unfold finish_turn, turn_status_payload. rewrite decide_True by done.
  straight; [eapply speaks_of_ok; run_says|by destruct f].
Qed.
Lemma usage_from_ints u : ∃ stored, usage_from (Some (usage_json u)) = Ok stored.
Proof.
  assert (∀ l (raw : list (string * Z)), ∃ s, usage_fields l ((λ p, (p.1, JInt p.2)) <$> raw) = Ok s) as H.
  { intros l raw. induction l as [|[field keys] l [s IH]]; cbn; [eauto|].
    assert (∃ n, match first_key keys ((λ p, (p.1, JInt p.2)) <$> raw) with
                 | Some v => token_count v | None => Ok 0 end = Ok (E:=exn) n) as [n ->].
    { induction keys as [|k keys IHk]; cbn; [eauto|].
      destruct (jget k _) as [v|] eqn:E; [|exact IHk].
      assert (∃ z, v = JInt z) as [z ->]; [|cbn; eauto].
      clear -E. induction raw as [|[k' z] raw IHr]; cbn in E; [done|].
      destruct (decide _); [injection E as <-; eauto|auto]. }
    cbn. rewrite IH. cbn. eauto. }
  apply H.
Qed.
Lemma speaks_finally {A} (m : act A) f l : speaks m l → (∀ w, bound tenant sid w → bound tenant sid (f w)) → speaks (finally m f) l.
Proof. apply says_finally. Qed.
Lemma speaks_turn_latency started : speaks (turn_latency clock started) [].
Proof.
  destruct started as [[]|]; cbn; [eauto with says| | |eauto with says]; by straight.
Qed.
Hint Resolve speaks_turn_latency : says.
Lemma speaks_write_turn_log turn status usage code request bytes user f :
  (usage = None ∨ ∃ u, usage = Some (usage_json u)) →
  speaks (write_turn_log cfg clock spool_ok tenant sid turn status usage code request bytes user f)
    [KUsage (Some turn)].
Proof.
  intros Hu. unfold write_turn_log.
  assert (∃ stored, usage_from usage = Ok stored) as [stored ->].
  { destruct Hu as [->|[u ->]]; [by eexists|apply usage_from_ints]. }
  straight.
  { apply (speaks_finally _ _ [KUsage (Some turn)]); [|by intros w [? ?]]. by straight. }
  done.
Qed.
Lemma speaks_create_item type data turn item :
  speaks (create_item cfg clock spool_ok fresh tenant sid type data turn item) [KItem turn].
Proof. unfold create_item. destruct item; by straight. Qed.
Lemma speaks_create_turn :
  says (create_turn cfg clock spool_ok fresh tenant sid "in_progress" None)
    (λ l r, ∃ turn, l = [KTurn (Some turn) (Some "started"%string)] ∧ r = Ok turn).
Proof.
  unfold create_turn. eapply says_then; [apply speaks_check|intros []].
  eapply says_then; [apply speaks_uuid4|intros turn].
  eapply says_then; [by apply speaks_modify_done|intros []].
  eapply says_then; [apply speaks_monotonic|intros now].
  eapply says_then; [by apply speaks_modify_done|intros []]. cbn [app].
  eapply says_then.
  { apply (speaks_catching _ _ _ _ [KTurn (Some turn) (Some "started"%string)]).
    { straight; [by eapply speaks_of_ok; run_says|done]. } intros e m'. destruct (is_outbox_full e); [|done].
    intros [= <-]. apply says_anything. by intros w w' t r [? ?] [= <- <- <-]. }
  intros []. intros w w' t r Hb [= <- <- <-]. split; [done|]. intros _. exists turn. done.
Qed.

(** ** What the endings say *)

Hint Resolve speaks_append_event speaks_create_item : says.
Lemma speaks_status s actions :
  speaks (update_session cfg clock spool_ok tenant sid
            [("status", JStr s); ("required_actions", JArr actions)]%string) [KStatus (Some s)].
Proof. by apply speaks_update_session. Qed.
Hint Resolve speaks_status : says.
Lemma speaks_idle : speaks (session_idle cfg clock spool_ok tenant sid) idle.
Proof. unfold session_idle, idle_changes. straight. by vm_compute. Qed.
Hint Resolve speaks_idle : says.
Lemma speaks_emit turn type data :
  speaks (emit_item cfg clock spool_ok fresh tenant sid turn type data) (item turn).
Proof. unfold emit_item. straight. by vm_compute. Qed.
Hint Resolve speaks_emit : says.

Context (a : turn_args) (Htenant : a_tenant a = tenant) (Hsession : a_session a = sid).

Lemma speaks_fail_turn message code f :
  speaks (fail_turn cfg clock spool_ok classify_host_message a message code f) (failed (a_turn a)).
Proof.
  unfold fail_turn. cbv zeta. rewrite Htenant, Hsession.
  eapply speaks_eq; [eapply speaks_bind; [apply speaks_finish_turn; in_list|intros _]|].
  - eapply speaks_bind; [apply speaks_write_turn_log; by left|intros _]. run_says.
  - by vm_compute.
Qed.
Lemma speaks_cancel_turn :
  speaks (cancel_turn cfg clock spool_ok classify_host_message a) (ends (a_turn a) "cancelled" ++ idle).
Proof.
  unfold cancel_turn. cbv zeta. rewrite Htenant, Hsession.
  eapply speaks_eq; [eapply speaks_bind; [apply speaks_finish_turn; in_list|intros _]|].
  - eapply speaks_bind; [apply speaks_write_turn_log; by left|intros _]. run_says.
  - by vm_compute.
Qed.
Lemma speaks_set_abort : speaks set_abort [].
Proof.
  unfold set_abort. eapply speaks_eq; [eapply speaks_bind; [eauto with says|intros [b|]]|].
  - eapply speaks_eq; [eapply speaks_bind; [by apply speaks_modify_done|intros _]|]; [by apply speaks_tell|done].
  - apply speaks_ret.
  - done.
Qed.
Lemma speaks_fail_outbox_full reason :
  speaks (fail_outbox_full cfg clock spool_ok classify_host_message a reason) (failed (a_turn a)).
Proof.
  unfold fail_outbox_full. eapply speaks_eq; [eapply speaks_bind; [apply speaks_set_abort|intros _]|done].
  apply speaks_catching; [apply speaks_emergency, speaks_fail_turn|].
  intros e m'. destruct (is_outbox_full e); [|done]. intros [= <-].
  apply says_anything. by intros w w' t r Hb [= <- <- <-].
Qed.

(** Reports nothing. *)
Definition mute {A} (m : act A) : Prop := says m (λ l _, l = []).
Lemma mute_bind {A B} (m : act A) (f : A → act B) : mute m → (∀ x, mute (f x)) → mute (m ≫= f).
Proof.
  intros Hm Hf. eapply says_mono; [by apply (says_bind _ _ _ _ _ (λ _ l _, l = []) Hm Hf)|].
  by intros l r [(e & -> & ->)|(x & l1 & l2 & -> & -> & ->)].
Qed.
Lemma mute_speaks {A} (m : act A) : speaks m [] → mute m.
Proof. intros Hm. eapply says_mono; [exact Hm|]. by intros l r [-> _]. Qed.
Lemma mute_lift {A} (x : res exn A) : mute (lift x).
Proof. eapply says_mono; [apply says_lift|]. by intros l r [-> _]. Qed.
Lemma mute_raise {A} e : mute (raise (A:=A) e).
Proof. eapply says_mono; [apply says_raise|]. by intros l r [-> _]. Qed.
Hint Resolve mute_lift mute_raise mute_speaks mute_bind : says.

(** Uploads. *)
Lemma says_raise_any {A} e P : (P [] (Err e) : Prop) → says (raise (A:=A) e) P.
Proof. intros HP w w' t r Hb [= <- <- <-]. split; [done|]. by intros _. Qed.
Definition is_Ok {E A} (r : res E A) : Prop := ∃ x, r = Ok x.
(** The upload of [data] goes well, or the API refuses it with a code of its own. *)
Definition publishes (tf : transfer) (data : list ascii) : Prop :=
  1 ≤ Z.of_nat (length data)
  ∧ match tf_answer tf with
    | None => False
    | Some an =>
        if negb (pa_ok an) then or_text (pa_code an) "artifact_store" ≠ "artifact_store"%string
        else if pa_unchanged an then True
        else is_Some (pa_upload an)
          ∧ if decide (or_text (pa_url an) "" ≠ ""%string) then is_Ok (tf_put tf)
            else or_text (pa_path an) "" ≠ ""%string ∧ is_Ok (tf_write tf)
    end.
(** Not an `artifact_store` error. *)
Definition mild (limit : option (string * string)) : Prop :=
  match limit with Some (_, code) => code ≠ "artifact_store"%string | None => True end.
Definition stores_well {A} (r : res raised A) : Prop := match r with Ok _ => True | Err e => mild (Some (store_limit e)) end.
Lemma says_transfer {A} (an : presign_answer) tf (f : string → A) (x : A) :
  says (if decide (or_text (pa_url an) "" ≠ ""%string) then
      _ ← suspend elsewhere; _ ← lift (tf_put tf); mret x
    else if decide (or_text (pa_path an) "" = ""%string) then raise (Raised config_error)
    else p ← lift (tf_write tf); mret (f p))
    (λ l r, l = [] ∧ ((if decide (or_text (pa_url an) "" ≠ ""%string) then is_Ok (tf_put tf)
                       else or_text (pa_path an) "" ≠ ""%string ∧ is_Ok (tf_write tf)) → is_Ok r)).
Proof.
  case_decide.
  - eapply says_silent; [apply speaks_suspend|intros _]. destruct (tf_put tf) as [[]|e]; intros w w' t r Hb [= <- <- <-].
    + split; [done|]. intros _. split; [done|]. intros _. by eexists.
    + split; [done|]. intros _. split; [done|]. by intros [? ?].
  - case_decide; [apply says_raise_any; split; [done|]; by intros [? _]|].
    destruct (tf_write tf) as [p|e]; intros w w' t r Hb [= <- <- <-].
    + split; [done|]. intros _. split; [done|]. intros _. by eexists.
    + split; [done|]. intros _. split; [done|]. by intros [_ [? ?]].
Qed.
Lemma says_upload tf kind filename ctype data turn :
  says (upload_via_presign cfg clock spool_ok fresh elsewhere sha256_hex tf sid kind filename ctype data turn)
    (λ l r, uploads l ∧ (publishes tf data → stores_well r)).
Proof.
  unfold upload_via_presign. eapply says_then; [apply speaks_uuid4|intros request]. cbn [app].
  destruct (presign_envelope _ _ _ _ _ _) as [payload|e] eqn:Ep.
  2: { intros w w' t r Hb [= <- <- <-]. split; [done|]. intros _. split; [constructor|]. intros [Hlen _].
       unfold presign_envelope in Ep. destruct (_ <? 1) eqn:E; [lia|done]. }
  apply says_of_ok. eapply says_then; [apply speaks_post_presign|intros x].
  eapply says_then; [apply speaks_suspend|intros []]. cbn [app]. unfold publishes.
  destruct (tf_answer tf) as [an|]; [|by apply says_raise_any; split; [repeat constructor|intros [_ ?]]].
  destruct (negb _); [by apply says_raise_any; split; [repeat constructor|intros [_ ?]]|].
  destruct (pa_unchanged an).
  { eapply says_mono; [apply speaks_ret|]. intros l r [-> [y ->]]. by repeat constructor. }
  destruct (pa_upload an) as [upload|]; [|by apply says_raise_any; split; [repeat constructor|intros [_ [[? ?] _]]]].
  eapply says_mono; [eapply (says_bind _ _ _ _ _ (λ _ l r, l = [KUpload] ∧ is_Ok r)); [apply says_transfer|]|].
  - intros path. eapply says_mono; [straight; reflexivity|]. intros l r [-> [y ->]]. split; [done|]. by eexists.
  - intros l r [(e & -> & -> & Hok)|(p & l1 & l2 & -> & [-> _] & -> & [y ->])].
    + split; [apply uploads_asked; constructor|]. intros (_ & _ & H). by destruct (Hok H).
    + split; [apply uploads_done; constructor|done].
Qed.
(** What stores something, when [C] makes it go well. *)
Definition storing (C : Prop) (l : list token) (r : res raised ()) : Prop := uploads l ∧ (C → stores_well r).
Lemma storing_nothing C : says (mret ()) (storing C).
Proof. eapply says_mono; [apply says_ret|]. intros l r [-> ->]. split; [constructor|done]. Qed.
Lemma says_store_files transfers i turn files :
  says (store_files cfg clock spool_ok fresh elsewhere sha256_hex guess_type transfers i sid turn files)
    (storing (∀ j f, files !! j = Some f → publishes (transfers (i + j)%nat) f.2)).
Proof.
  revert i. induction files as [|[rel data] files IH]; intros i; cbn [store_files]; [apply storing_nothing|].
  eapply says_mono; [eapply says_bind; [apply says_upload|intros ?; apply IH]|].
  intros l r [(e & -> & [Hu H])|(x & l1 & l2 & -> & [H1 _] & [H2 H])].
  - split; [done|]. intros Hall. apply H. specialize (Hall 0%nat (rel, data) eq_refl). by rewrite Nat.add_0_r in Hall.
  - split; [by apply uploads_app|]. intros Hall. apply H. intros j f Hj. specialize (Hall (S j) f Hj).
    by rewrite <- Nat.add_succ_comm in Hall.
Qed.
Lemma says_store_artifacts transfers turn files :
  says (store_artifacts cfg clock spool_ok fresh elsewhere sha256_hex guess_type transfers tenant sid turn files)
    (storing (∀ j f, files !! j = Some f → publishes (transfers j) f.2)).
Proof.
  unfold store_artifacts. case_decide; [apply storing_nothing|].
  eapply says_then; [apply speaks_check|intros []]. apply (says_store_files transfers 0).
Qed.
Lemma says_store_pi_session tf data :
  says (store_pi_session cfg clock spool_ok fresh elsewhere sha256_hex tf tenant sid data)
    (storing (data ≠ [] → publishes tf data)).
Proof.
  unfold store_pi_session. case_decide; [apply storing_nothing|].
  eapply says_then; [apply speaks_check|intros []]. eapply says_mono; [apply says_upload|].
  intros l r [Hu Hs]. split; [done|]. auto.
Qed.
Lemma says_attempt (m : act ()) C :
  says m (storing C) → says (attempt m) (λ l r, uploads l ∧ ∃ x, r = Ok x ∧ (C → mild x)).
Proof.
  intros Hm. unfold attempt. eapply says_mono.
  { apply (says_catching _ _ _ _ (λ l r, uploads l ∧ match r with Ok x => x = None | Err e => C → mild (Some (store_limit e)) end)
      (λ e l r, l = [] ∧ r = Ok (Some (store_limit e)))).
    - eapply says_mono; [eapply says_bind; [exact Hm|intros ?; apply says_ret]|].
      intros l r [(e & -> & H)|(x & l1 & l2 & -> & [H1 _] & -> & ->)]; [done|]. by rewrite app_nil_r.
    - intros e m' [= <-]. apply says_ret. }
  intros l r [(x & -> & HP & ->)|[(e & He & _)|(e & m' & l1 & l2 & _ & -> & [HP HC] & -> & ->)]]; [by split; [|exists None]|done|].
  rewrite app_nil_r. eauto.
Qed.

(** Publishing what a turn leaves meets no `artifact_store` error. *)
Definition publishable (h : harvest) : Prop :=
  (∀ j f, hv_files h !! j = Some f → publishes (hv_transfers h j) f.2)
  ∧ (hv_session h ≠ [] → publishes (hv_session_transfer h) (hv_session h)) ∧ mild (hv_limit h).
Definition harvested (h : harvest) (l : list token) (r : res raised (option Z)) : Prop :=
  (∃ u err z, uploads u ∧ (err = [] ∨ err = [event "error"]) ∧ l = u ++ err ∧ r = Ok (Some z))
  ∨ (∃ u, uploads u ∧ l = u ++ failed (a_turn a) ∧ r = Ok None ∧ ¬ publishable h).
Lemma says_harvest h :
  says (harvest_split cfg clock spool_ok fresh elsewhere classify_host_message sha256_hex guess_type a h) (harvested h).
Proof.
  unfold harvest_split. rewrite Htenant, Hsession.
  eapply says_then; [apply speaks_suspend|intros []]. cbn [app].
  set (Q (limit : option (string * string)) (l : list token) (r : res raised (option Z)) :=
    ((l = [] ∨ l = [event "error"]) ∧ ∃ z, r = Ok (Some z)) ∨ (l = failed (a_turn a) ∧ r = Ok None ∧ ¬ mild limit)).
  assert (∀ limit : option (string * string), says
    (match limit with
     | Some (message, code) =>
         if decide (code = "artifact_store"%string) then
           _ ← fail_turn cfg clock spool_ok classify_host_message a message "artifact_store" None; mret None
         else
           _ ← append_event cfg clock spool_ok tenant sid "agent.session.error"
                 (Some [("message", JStr message); ("code", JStr code)]%string);
           mret (Some (foldr Z.add 0 ((λ f, Z.of_nat (length f.2)) <$> hv_files h)))
     | None => mret (Some (foldr Z.add 0 ((λ f, Z.of_nat (length f.2)) <$> hv_files h)))
     end) (Q limit)) as Hrest.
  { intros [[message code]|]; [case_decide as Hc|].
    - eapply says_then; [apply speaks_fail_turn|intros ?].
      intros w w' t r Hb [= <- <- <-]. split; [done|]. intros _. right. rewrite app_nil_r. split_and!; [done..|]. intros Hm; by apply Hm.
    - eapply says_then; [apply speaks_append_event|intros ?].
      intros w w' t r Hb [= <- <- <-]. split; [done|]. intros _. left. split; [right; by vm_compute|eauto].
    - intros w w' t r Hb [= <- <- <-]. split; [done|]. intros _. left. split; [by left|eauto]. }
  eapply says_mono.
  { eapply says_bind; [apply says_attempt, says_store_artifacts|intros stored].
    cbv zeta. eapply says_then; [apply speaks_suspend|intros ?]. cbn [app].
    eapply says_bind; [apply says_attempt, says_store_pi_session|intros cached]. apply Hrest. }
  intros l r [(e & -> & _ & ? & ? & _)|(c & u1 & k & -> & (Hu1 & ? & [= <-] & Hc) & [(e & -> & _ & ? & ? & _)|(c' & u2 & k' & -> & (Hu2 & ? & [= <-] & Hc') & Hk)])];
    [done..|]. rewrite app_assoc. pose proof (uploads_app _ _ Hu1 Hu2) as Hu.
  destruct Hk as [[Hk [z ->]]|(-> & -> & Hlim)]; [left|right].
  - exists (u1 ++ u2), k', z. done.
  - exists (u1 ++ u2). split_and!; [done..|]. intros (P1 & P2 & P3). apply Hlim. specialize (Hc P1). specialize (Hc' P2).
    destruct c; [done|]. cbn in *. by destruct (hv_limit h).
Qed.
(** How a turn that got so far ends: as the protocol says, or, when publishing what it leaves
    fails, [unpublished]. *)
Definition finished (turn : uuid) (h : harvest) (l : list token) : Prop :=
  ending turn l ∨ (¬ publishable h ∧ unpublished turn l).
Lemma says_complete_turn reply usage h :
  says (complete_turn cfg clock spool_ok fresh elsewhere classify_host_message sha256_hex guess_type a reply usage h)
    (λ l r, finished (a_turn a) h l ∧ r = Ok tt).
Proof.
  unfold complete_turn. rewrite Htenant, Hsession.
  eapply says_then; [apply speaks_emit|intros ?].
  destruct (usage_from_ints usage) as [stored ->].
  eapply says_then; [apply speaks_lift|intros stored'].
  eapply says_then; [apply speaks_finish_turn; in_list|intros ?].
  eapply says_mono; [eapply (says_bind _ _ _ _ _ (λ p l r, match p with
    | None => l = [] | Some _ => l = [KUsage (Some (a_turn a)); event "turn.completed"] ++ idle end ∧ r = Ok tt));
    [apply says_harvest|intros [bytes|]]|].
  - eapply says_mono; [straight; [apply speaks_write_turn_log; eauto|by vm_compute]|].
    by intros l r [-> [[] ->]].
  - eapply says_mono; [apply speaks_ret|]. by intros l r [-> [[] ->]].
  - intros l r [(e & -> & [(?&?&?&?&?&?&?)|(?&?&?&?&?)])|(p & l1 & l2 & -> & [(u & err & z & Hu & Herr & -> & [= ->])|(u & Hu & -> & [= ->] & Hpub)] & -> & ->)];
      [done..| |].
    + split; [|done]. left. rewrite <- !app_assoc. by apply (completed (a_turn a) u err).
    + split; [|done]. right. split; [done|]. rewrite app_nil_r. by exists u.
Qed.

(** ** The work of the turn *)

(** An exception of its own that the harness raises: at its end, or from a usage report
    that counts wrong. *)
Definition raised_by (s : stream) (x : exn) : Prop :=
  st_end s = Breaks x ∨ ∃ data, Yields "usage" data ∈ st_heard s ∧ usage_from (Some (JObj data)) = Err x.
(** What can end the events of [s], short of a refusal. *)
Definition harness_error (s : stream) (e : raised) : Prop :=
  match e with
  | TurnFailedError _ | TurnTimeout | CredentialsUnsupported _ | OsError _ => True
  | CapacityError message code => st_end s = AtCapacity message code
  | Raised x => raised_by s x
  | _ => False end.
Section working.
Context (s : stream).
Definition working {A} (l : list token) (r : res raised A) : Prop :=
  work (a_turn a) l ∧ match r with Err e => harness_error s e | _ => True end.
Lemma work_one type : work (a_turn a) (if decide (type ∈ PUBLIC_EVENT_TYPES) then [KEvent (Some type)] else []).
Proof. case_decide; [apply work_event; [done|]|]; constructor. Qed.
Lemma working_bind {A B} (m : act A) (f : A → act B) :
  says m working → (∀ x, says (f x) working) → says (m ≫= f) working.
Proof.
  intros Hm Hf. eapply says_mono; [by apply (says_bind _ _ _ _ _ (λ _, working) Hm Hf)|].
  intros l r [(e & -> & H)|(x & l1 & l2 & -> & [H1 _] & [H2 H3])]; [done|].
  split; [by apply work_app|done].
Qed.
Lemma working_speaks {A} (m : act A) l : speaks m l → work (a_turn a) l → says m working.
Proof. intros Hm Hl. eapply says_mono; [exact Hm|]. by intros k r [-> [x ->]]. Qed.
Lemma working_lift {A} (x : res exn A) : (∀ e, x = Err e → raised_by s e) → says (lift x) working.
Proof.
  intros Hx. eapply says_mono; [apply says_lift|]. intros l r [-> H]. split; [constructor|]. destruct x; subst; [done|by apply Hx].
Qed.
Lemma working_raise {A} e : harness_error s e → says (raise (A:=A) e) working.
Proof. intros He. apply says_raise_any. split; [constructor|done]. Qed.
Lemma working_quiet {A} (m : act A) : speaks m [] → says m working.
Proof. intros Hm. apply (working_speaks _ _ Hm). constructor. Qed.
Lemma working_modify f : (∀ w, w_tenant (f w) = w_tenant w ∧ w_session (f w) = w_session w) → says (modify f) working.
Proof. intros Hf. by apply working_quiet, speaks_modify_done. Qed.

Lemma says_consume_one c etype data :
  Yields etype data ∈ st_heard s →
  says (consume_one cfg clock spool_ok fresh elsewhere classify_host_message a c etype data) working.
Proof.
  intros Hin. unfold consume_one. case_decide as Hu.
  { apply working_bind; [|intros u; apply working_quiet, speaks_ret]. apply working_lift. intros e He. right. subst etype. eauto. }
  apply working_bind; [by apply working_modify|intros _]. case_decide.
  { apply working_bind; [apply working_quiet, speaks_gets|intros state; by apply working_raise]. }
  cbv zeta. case_decide.
  { apply working_bind; [by apply working_quiet, speaks_tell|intros _].
    apply working_bind; [apply working_quiet, speaks_suspend|intros _]. apply working_quiet, speaks_ret. }
  rewrite Htenant, Hsession. case_decide.
  - destruct (call_of _) as [[name call]|]; [|apply working_quiet, speaks_ret].
    apply working_bind; [by apply working_modify|intros _].
    apply working_bind; [|intros _; apply working_quiet, speaks_ret].
    eapply working_speaks; [apply speaks_emit|]. rewrite <- (app_nil_r (item _)). constructor. constructor.
  - apply working_bind; [|intros _].
    + destruct (is_mcp_call _ _); [by apply working_modify|apply working_quiet, speaks_ret].
    + apply working_bind; [|intros _; apply working_quiet, speaks_ret].
      eapply working_speaks; [apply speaks_append_event|apply work_one].
Qed.
Lemma says_consume l c :
  (∀ x, x ∈ l → x ∈ st_heard s) →
  says (consume cfg clock spool_ok fresh elsewhere classify_host_message a l c) working.
Proof.
  intros Hl. revert c. induction l as [|[etype data|] l IH]; intros c; cbn [consume]; [by apply working_quiet, speaks_ret|..].
  all: specialize (IH (λ x Hx, Hl x (list_elem_of_further x _ _ Hx))).
  - apply working_bind; [apply working_quiet, speaks_suspend|intros _].
    apply working_bind; [apply says_consume_one, Hl; by left|intros c'; apply IH].
  - apply working_bind; [apply working_quiet, speaks_suspend|intros _].
    apply working_bind; [by apply working_modify|intros _; apply IH].
Qed.
Lemma says_consume_generate :
  says (consume_generate cfg clock spool_ok fresh elsewhere classify_host_message a s) working.
Proof.
  apply working_bind; [by apply says_consume|intros c].
  apply working_bind; [apply working_quiet, speaks_suspend|intros _].
  destruct (st_end s) eqn:E; cbn; first [by apply working_quiet, speaks_ret|by apply working_raise|apply working_raise; by left].
Qed.

(** ** How the work ends *)

Definition ended_well (hv : harvest) (l : list token) : Prop := ∃ w e, work (a_turn a) w ∧ finished (a_turn a) hv e ∧ l = w ++ e.
(** An error escapes and the turn stays open: an exception of the harness's own, or its
    having no capacity, after which [cap] is reported. *)
Definition left_open (cap : list token) (l : list token) (e : raised) : Prop :=
  ∃ w, work (a_turn a) w ∧ ((l = w ∧ ∃ x, raised_by s x ∧ e = Raised x)
    ∨ (l = w ++ cap ∧ ∃ message code, st_end s = AtCapacity message code ∧ e = ApiRaised message (Some code))).

Lemma says_time_out : speaks (time_out cfg clock spool_ok elsewhere classify_host_message a) (failed (a_turn a)).
Proof.
  unfold time_out. eapply speaks_eq; [eapply speaks_bind; [by apply speaks_tell|intros _]|done].
  eapply (speaks_eq _ _ _ ([] ++ _)); [eapply speaks_bind; [apply speaks_suspend|intros _]|done].
  eapply (speaks_eq _ _ _ ([] ++ _)); [eapply speaks_bind; [apply speaks_gets|intros state]|done].
  cbv zeta. apply speaks_fail_turn.
Qed.
Lemma says_ended_by e m :
  ended_by cfg clock spool_ok classify_host_message a e = Some m → speaks m (failed (a_turn a)).
Proof.
  destruct e as [| |r|? ?|f| |? ?|message|message|? ?|]; cbn; try done.
  - destruct r; intros [= <-]; apply speaks_fail_outbox_full.
  - intros [= <-]. apply speaks_fail_turn.
  - intros [= <-]. apply speaks_fail_turn.
  - intros [= <-]. apply speaks_fail_turn.
Qed.
(** What the handler of the error [e] reports. *)
Definition closing (cap : list token) (e : raised) (l : list token) (r : res raised ()) : Prop :=
  (l = failed (a_turn a) ∧ r = Ok ())
  ∨ (l = cap ∧ ∃ message code, e = CapacityError message code ∧ r = Err (ApiRaised message (Some code))).
Lemma closing_speaks cap e m : speaks m (failed (a_turn a)) → says m (closing cap e).
Proof. intros Hm. eapply says_mono; [exact Hm|]. by intros l r [-> [[] ->]]; left. Qed.
Lemma says_run_error e m :
  run_error cfg clock spool_ok elsewhere classify_host_message a e = Some m → says m (closing [status "idle"] e).
Proof.
  destruct e as [| |r|? ?|f| |message code|message|message|? ?|] eqn:E; cbn [run_error];
    try (intros H; by apply closing_speaks, (says_ended_by e m); rewrite E).
  - intros [= <-]. apply closing_speaks.
    eapply (speaks_eq _ _ _ ([] ++ _)); [eapply speaks_bind; [apply speaks_set_abort|intros _]|done]. apply says_time_out.
  - intros [= <-]. rewrite Htenant, Hsession. eapply says_then; [by apply speaks_update_session|intros _].
    apply says_raise_any. right. split; [done|eauto].
Qed.
Lemma says_continue_error e m :
  continue_error cfg clock spool_ok elsewhere classify_host_message a e = Some m → says m (closing [] e).
Proof.
  destruct e as [| |r|? ?|f| |message code|message|message|? ?|] eqn:E; cbn [continue_error];
    try (intros H; by apply closing_speaks, (says_ended_by e m); rewrite E).
  - intros [= <-]. apply closing_speaks, says_time_out.
  - intros [= <-]. apply says_raise_any. right. split; [done|eauto].
Qed.
(** [None]: an ending was reported. *)
Definition guard_post (cap : list token) (l : list token) (r : res raised (option consumed)) : Prop :=
  match r with
  | Ok (Some _) => work (a_turn a) l
  | Ok None => ∃ w, work (a_turn a) w ∧ l = w ++ failed (a_turn a)
  | Err e => left_open cap l e
  end.
Lemma says_guarded cap h :
  (∀ e m, h e = Some m → says m (closing cap e)) → (∀ e, h e = None → harness_error s e → ∃ x, e = Raised x) →
  says (guarded (consume_generate cfg clock spool_ok fresh elsewhere classify_host_message a s) h) (guard_post cap).
Proof.
  intros Hh Hnone. unfold guarded. eapply says_mono.
  { apply (says_catching _ _ _ _ (λ l r, working l r ∧ match r with Ok x => is_Some x | _ => True end) (λ e l r,
      (l = failed (a_turn a) ∧ r = Ok None)
      ∨ (l = cap ∧ ∃ message code, e = CapacityError message code ∧ r = Err (ApiRaised message (Some code))))).
    - eapply says_mono; [eapply says_bind; [apply says_consume_generate|intros ?; apply says_ret]|].
      intros l r [(e & -> & H)|(c & l1 & l2 & -> & [H1 _] & -> & ->)]; [done|]. rewrite app_nil_r. by split; [|eexists].
    - intros e m'. destruct (h e) as [m|] eqn:E; [|done]. intros [= <-].
      eapply says_mono; [eapply says_bind; [by apply (Hh e m)|intros ?; apply says_ret]|].
      intros l r [(e' & -> & [[-> [=]]|(Hl & ? & ? & ? & [=])])|(x & l1 & l2 & -> & [[-> _]|(_ & ? & ? & _ & [=])] & -> & ->)].
      + right. subst. eauto.
      + left. by rewrite app_nil_r. }
  intros l r [(c & -> & [Hw _] & [c' ->])|[(e & Hn & -> & [Hw He] & _)|(e & m & l1 & l2 & _ & -> & [[Hw He] _] & [[-> ->]|(-> & message & code & -> & ->)])]]; cbn.
  - done.
  - destruct (h e) eqn:E; [done|]. destruct (Hnone e E He) as [x ->]. exists l. split; [done|]. left. eauto.
  - exists l1. done.
  - exists l1. split; [done|]. right. split; [done|]. eauto.
Qed.
(** No handler: the harness's own exception. *)
Lemma run_error_none e :
  run_error cfg clock spool_ok elsewhere classify_host_message a e = None → harness_error s e → ∃ x, e = Raised x.
Proof. destruct e; try done. eauto. Qed.
Lemma continue_error_none e :
  continue_error cfg clock spool_ok elsewhere classify_host_message a e = None → harness_error s e → ∃ x, e = Raised x.
Proof. destruct e; try done. eauto. Qed.

(** What a whole turn reports after it is announced. *)
Definition turn_post (cap : list token) (hv : harvest) (l : list token) (r : res raised ()) : Prop :=
  match r with Ok _ => ended_well hv l | Err e => left_open cap l e end.
Lemma ending_speaks hv m l : speaks m l → ending (a_turn a) l → says m (λ l r, finished (a_turn a) hv l ∧ r = Ok tt).
Proof. intros Hm Hl. eapply says_mono; [exact Hm|]. intros k r [-> [[] ->]]. split; [by left|done]. Qed.
Lemma says_end_turn c h :
  says (end_turn cfg clock spool_ok fresh elsewhere classify_host_message sha256_hex guess_type a c h)
    (λ l r, finished (a_turn a) h l ∧ r = Ok tt).
Proof.
  unfold end_turn. case_decide; [apply says_complete_turn|]. unfold require_action. rewrite Htenant, Hsession.
  eapply ending_speaks; [|apply needs_action].
  eapply speaks_eq; [eapply speaks_bind; [apply speaks_status|intros _; apply speaks_append_event]|by vm_compute].
Qed.
Lemma guarded_then cap hv m (f : option consumed → act ()) :
  says m (guard_post cap) → says (f None) (λ l r, l = [] ∧ r = Ok tt) →
  (∀ c, says (f (Some c)) (λ l r, finished (a_turn a) hv l ∧ r = Ok tt)) → says (m ≫= f) (turn_post cap hv).
Proof.
  intros Hm HN HS. eapply says_mono.
  { eapply (says_bind _ _ _ _ _ (λ o l r, match o with None => l = [] | Some _ => finished (a_turn a) hv l end ∧ r = Ok tt));
      [exact Hm|]. intros [c|]; [apply HS|apply HN]. }
  intros l r [(e & -> & H)|([c|] & l1 & l2 & -> & H1 & H2 & ->)]; cbn in *; [done| |].
  - exists l1, l2. done.
  - destruct H1 as (w & Hw & ->). subst l2. rewrite app_nil_r. exists w, (failed (a_turn a)). split_and!; [done| |done]. left. constructor.
Qed.
End working.
End sink.

(** ** The whole turn *)

Section turn.
Context (cfg : config) (clock : nat → Z) (spool_ok : nat → bool) (fresh : nat → uuid).
Context (elsewhere : nat → outbox → outbox).
Context (classify_host_message : string → failure).
Context (sha256_hex : list ascii → string) (guess_type : string → option string).
Context (a : turn_args).

#[local] Abbreviation says := (says token_of (a_tenant a) (a_session a)).
#[local] Abbreviation speaks := (speaks token_of (a_tenant a) (a_session a)).
#[local] Abbreviation run_turn := (run_turn cfg clock spool_ok fresh elsewhere classify_host_message sha256_hex guess_type a).
#[local] Abbreviation continue_turn := (continue_turn cfg clock spool_ok fresh elsewhere classify_host_message sha256_hex guess_type a).
#[local] Abbreviation dispatch := (dispatch cfg clock spool_ok classify_host_message (a_tenant a) (a_session a)).

Lemma says_announce content :
  says (announce cfg clock spool_ok fresh a content) (λ l r, ∃ turn, l = announced turn ∧ r = Ok turn).
Proof.
  unfold announce. eapply says_then; [apply speaks_status|intros _].
  eapply says_then; [apply speaks_append_event|intros _].
  eapply says_mono; [eapply (says_bind _ _ _ _ _ (λ turn l r,
    l = [event "turn.created"; event "turn.in_progress"] ++ item turn ∧ r = Ok turn)); [apply speaks_create_turn|intros turn]|].
  - eapply says_then; [apply speaks_append_event|intros _].
    eapply says_then; [apply speaks_append_event|intros _].
    eapply says_then; [apply speaks_emit|intros _].
    intros w w' t r Hb [= <- <- <-]. split; [done|]. intros _. split; [by vm_compute|done].
  - intros l r [(e & -> & turn & _ & ?)|(turn & l1 & l2 & -> & (turn' & -> & [= <-]) & -> & ->)]; [done|].
    exists turn. split; [by vm_compute|done].
Qed.

(** What follows the announcement of the turn [turn]. *)
Definition after_announced (s : stream) (h : harvest) (l : list token) (r : res raised ()) : Prop :=
  ∃ turn k, l = announced turn ++ k ∧ turn_post (for_turn a turn) s [status "idle"] h k r.
Lemma says_run_prepared unreadable content s h :
  says (run_prepared cfg clock spool_ok fresh elsewhere classify_host_message sha256_hex guess_type a unreadable content s h)
    (after_announced s h).
Proof.
  unfold run_prepared. eapply says_mono.
  { eapply (says_bind _ _ _ _ _ (λ turn, turn_post (for_turn a turn) s [status "idle"] h)); [apply says_announce|intros turn].
    cbv zeta. set (b := for_turn a turn). destruct unreadable.
    - eapply says_mono; [by apply speaks_fail_turn|]. intros l r [-> [[] ->]].
      exists [], (failed (a_turn b)). split_and!; [constructor|left; constructor|done].
    - eapply (says_then _ _ _ _ []); [by apply speaks_modify_done|intros _].
      apply guarded_then.
      + apply says_guarded; [done..| |apply run_error_none]. intros e m. by apply says_run_error.
      + by apply says_ret.
      + intros c. eapply (says_then _ _ _ _ []); [apply speaks_gets|intros [|]].
        * eapply ending_speaks; [by apply speaks_cancel_turn|constructor].
        * by apply says_end_turn. }
  intros l r [(e & -> & turn & _ & ?)|(turn & l1 & l2 & -> & (turn' & -> & [= <-]) & Hpost)]; [done|].
  exists turn, l2. done.
Qed.
Lemma speaks_session_failed message code :
  speaks (report_session_failed cfg clock spool_ok classify_host_message (a_tenant a) (a_session a) message code)
    session_failed.
Proof.
  unfold report_session_failed.
  eapply speaks_eq; [eapply speaks_bind; [apply speaks_status|intros _]|].
  - eapply speaks_bind; [apply speaks_append_event|intros _; apply speaks_append_event].
  - by vm_compute.
Qed.
Lemma speaks_environment_failed message code :
  speaks (report_environment_failed cfg clock spool_ok classify_host_message (a_tenant a) (a_session a) message code)
    (event "environment.failed" :: session_failed).
Proof.
  unfold report_environment_failed.
  eapply speaks_eq; [eapply speaks_bind; [apply speaks_append_event|intros _; apply speaks_session_failed]|by vm_compute].
Qed.

Definition run_post (p : preparation) (s : stream) (h : harvest) (l : list token) (r : res raised ()) : Prop :=
  match p with
  | EnvironmentFails _ _ => l = event "environment.failed" :: session_failed ∧ r = Ok ()
  | Escapes e => l = [] ∧ r = Err e
  | CacheUnreadable | Prepared => after_announced s h l r
  end.
Lemma says_run_turn p content s h : says (run_turn p content s h) (run_post p s h).
Proof.
  unfold Runtime.run_turn. eapply (says_then _ _ _ _ []); [by apply speaks_modify_done|intros _].
  apply says_finally; [|by intros w [? ?]].
  eapply (says_then _ _ _ _ []); [apply speaks_suspend|intros _]. destruct p as [message code|e| |]; cbn.
  - eapply says_mono; [apply speaks_environment_failed|]. by intros l r [-> [[] ->]].
  - apply says_raise.
  - apply says_run_prepared.
  - apply says_run_prepared.
Qed.

Definition continue_post (before : string) (p : preparation) (s : stream) (h : harvest) (l : list token) (r : res raised ()) : Prop :=
  (l = [] ∧ ∃ m c, r = Err (ApiRaised m c))
  ∨ (before = "requires_action"%string ∧ l = [KStatus None; event "requires_action"] ∧ r = Ok ())
  ∨ match p with
    | EnvironmentFails _ _ => l = event "environment.failed" :: session_failed ∧ r = Ok ()
    | Escapes e => l = [] ∧ r = Err e
    | CacheUnreadable | Prepared => turn_post a s [] h l r
    end.
Lemma says_continue_turn status actions call_id p s h :
  says (continue_turn status actions call_id p s h) (continue_post status p s h).
Proof.
  unfold Runtime.continue_turn. destruct (bool_decide (status = _)) eqn:Hstatus; cbn [negb]; [|apply says_raise_any; left; eauto]. cbv zeta.
  apply bool_decide_eq_true in Hstatus.
  destruct (bool_decide _); [apply says_raise_any; left; eauto|]. case_decide.
  { eapply says_then; [by apply speaks_update_session|intros _].
    eapply says_mono; [apply speaks_append_event|]. intros l r [-> [[] ->]]. right; left. split_and!; [done|by vm_compute|done]. }
  eapply (says_then _ _ _ _ []); [apply speaks_suspend|intros _].
  eapply (says_mono _ _ _ (λ l r, match p with
    | EnvironmentFails _ _ => l = event "environment.failed" :: session_failed ∧ r = Ok ()
    | Escapes e => l = [] ∧ r = Err e
    | CacheUnreadable | Prepared => turn_post a s [] h l r
    end)); [|intros l r Hp; right; right; exact Hp].
  destruct p as [message code|e| |].
  - eapply says_mono; [apply speaks_environment_failed|]. by intros l r [-> [[] ->]].
  - apply says_raise.
  - eapply says_mono; [by apply speaks_fail_turn|]. intros l r [-> [[] ->]].
    exists [], (failed (a_turn a)). split_and!; [constructor|left; constructor|done].
  - eapply (says_then _ _ _ _ []); [by apply speaks_modify_done|intros _].
    apply guarded_then.
    + apply says_guarded; [done..| |apply continue_error_none]. intros e m. by apply says_continue_error.
    + by apply says_ret.
    + intros c. by apply says_end_turn.
Qed.

(** ** The last status of the session *)

Definition status_of (k : token) : option string := match k with KStatus s => s | _ => None end.
Definition last_status (l : list token) : option string := list.last (omap status_of l).
Lemma last_status_app l1 l2 :
  last_status (l1 ++ l2) = match last_status l2 with Some s => Some s | None => last_status l1 end.
Proof. unfold last_status. by rewrite omap_app, last_app. Qed.
Lemma work_status turn l : work turn l → omap status_of l = [].
Proof. induction 1; [done|done|]. rewrite omap_app, IHwork. done. Qed.
Lemma uploads_status l : uploads l → omap status_of l = [].
Proof. by induction 1. Qed.
(** A status in which the session waits for nobody on the worker. *)
Definition settled : list string := ["idle"; "requires_action"; "failed"]%string.
Lemma ending_status turn l : ending turn l → ∃ s, last_status l = Some s ∧ s ∈ settled.
Proof.
  assert ("idle" ∈ settled)%string as Hi by in_list. assert ("requires_action" ∈ settled)%string as Hr by in_list.
  destruct 1 as [u err Hu Herr| | |]; rewrite ?last_status_app; eexists; (split; [reflexivity|done]).
Qed.
Lemma finished_status turn h l : finished turn h l → ∃ s, last_status l = Some s ∧ s ∈ settled.
Proof.
  intros [H|(_ & u & _ & ->)]; [by apply ending_status in H|].
  rewrite !last_status_app. exists "idle"%string. split; [reflexivity|in_list].
Qed.
(** Whatever escapes a command is reported as the failure of the session. *)
Lemma dispatch_settles m P (Q : list token → Prop) :
  says m P → (∀ l r, P l r → match r with Ok _ => Q l | Err _ => True end) → (∀ l, Q (l ++ session_failed)) →
  says (dispatch m) (λ l r, (∃ x, r = Ok x) ∧ Q l).
Proof.
  intros Hm HP HQ. unfold Runtime.dispatch. eapply says_mono.
  { apply (says_catching _ _ _ _ (λ l r, match r with Ok _ => Q l | Err _ => True end) (λ e l r, l = session_failed ∧ ∃ x, r = Ok x)).
    - eapply says_mono; [eapply says_bind; [exact Hm|intros ?; apply says_ret]|].
      intros l r [(e & -> & _)|(x & l1 & l2 & -> & Hl & -> & ->)]; [done|]. rewrite app_nil_r. by apply HP in Hl.
    - intros e m' [= <-]. unfold report_escaped_turn.
      eapply says_mono; [eapply says_bind; [apply speaks_session_failed|intros ?; apply says_ret]|].
      intros l r [(e' & -> & _ & ? & ?)|(x & l1 & l2 & -> & [-> _] & -> & ->)]; [done|]. rewrite app_nil_r. eauto. }
  intros l r [(x & -> & Hl)|[(e & ? & _)|(e & m' & l1 & l2 & _ & -> & _ & -> & x & ->)]]; [eauto|done|eauto].
Qed.
End turn.
