(* ===== verification/RuntimeProps.v ===== *)
(** * What a turn promises

    The order of a turn's reports and the last status of its session, for every way the
    harness, the clock and the other tasks behave ([TurnProtocol]); and what an outbox that
    refuses envelopes leaves of them: the emergency budget carries the report of the
    failure, where the code catches the refusal. *)

From S2P Require Import Prelude PyStd Protocol Db Sandbox Usage Outbox OutboxSpec OutboxProps Ingest TurnState Sink TurnEnd Runtime TurnProtocol.

Open Scope Z_scope.

Create HintDb within.

(** ** The emergency budget *)

(** What the session has spent of it, and the envelopes posted. *)
Definition spent (o : outbox) (sid : uuid) : Z := from_option emergency_used 0 (sessions o !! sid).
Definition posted (t : list effect) : list stored :=
  omap (λ f, match f with Posted x => Some x | _ => None end) t.
Definition too_large (sid : uuid) (e : append_error) : Prop := ∃ size, e = EnvelopeTooLarge sid size.

Lemma buffer_spent o sid o' b : buffer o sid = (o', b) → emergency_used b = spent o sid ∧ spent o' sid = spent o sid.
Proof.
  unfold buffer, spent. destruct (sessions o !! sid) as [b0|] eqn:E.
  - intros [= <- <-]. by rewrite E.
  - unfold fresh_id, put_buffer. intros [= <- <-]. cbn. rewrite olookup_insert. by rewrite decide_True.
Qed.
Lemma append_budget cfg o now io sid type payload turn o' r :
  append cfg o now io sid type payload turn true = (o', r) → TYPE_FEATURES !! type = None →
  spent o sid < EMERGENCY_BUDGET →
  spent o' sid ≤ spent o sid + 1 ∧ ∀ e, r = Err e → too_large sid e.
Proof.
  intros Ha Hf Hs. unfold append in Ha. unfold missing_feature in Ha. rewrite Hf in Ha.
  destruct (buffer o sid) as [o0 b] eqn:Hb. apply buffer_spent in Hb as [Hb H0].
  destruct (MAX_MESSAGE_BYTES <? _).
  { injection Ha as <- <-. split; [lia|]. intros e [= <-]. by eexists. }
  rewrite Hb in Ha. rewrite (proj2 (Z.ltb_lt _ _) Hs), andb_false_r in Ha.
  destruct (fresh_id o0) as [i o1]. destruct (spool_append _ _ _ _ _ _) as [o2 b2] eqn:Hsp.
  apply spool_append_spec in Hsp as (_ & _ & _ & _ & sp & d & ->). injection Ha as <- <-.
  split; [|done]. unfold spent. cbn. rewrite olookup_insert, decide_True by done. cbn. case_match; lia.
Qed.

Section budget.
Context (tenant sid : uuid).
Context (cfg : config) (clock : nat → Z) (spool_ok : nat → bool).
Context (classify_host_message : string → failure).

(** From a turn in emergency mode with at least [n] of the budget left, [m] spends at most [n],
    is refused only what is too large, and leaves what it posted behind what was pending. *)
Record kept (n : nat) (w w' : turn_world) (t : list effect) (e : option raised) : Prop := {
  kp_ok : outbox_ok (w_outbox w');
  kp_bound : bound tenant sid w';
  kp_emergency : w_emergency w' = true;
  kp_spent : spent (w_outbox w') sid ≤ spent (w_outbox w) sid + Z.of_nat n;
  kp_warned : ∀ f, Warned f ∈ t → too_large sid f;
  kp_error : ∀ x, e = Some x → ∃ f, x = Refused f ∧ too_large sid f;
  kp_pending : pending (w_outbox w') sid 0 = pending (w_outbox w) sid 0 ++ posted t;
  kp_abort : w_abort w' = w_abort w
}.
Definition err_of {A} (r : res raised A) : option raised := match r with Err e => Some e | Ok _ => None end.
Definition within {A} (n : nat) (m : act A) : Prop := ∀ w w' t r,
  outbox_ok (w_outbox w) → bound tenant sid w → w_emergency w = true →
  spent (w_outbox w) sid + Z.of_nat n ≤ EMERGENCY_BUDGET → m w = (w', t, r) → kept n w w' t (err_of r).

Lemma within_bind {A B} n1 n2 (m : act A) (f : A → act B) :
  within n1 m → (∀ x, within n2 (f x)) → within (n1 + n2) (m ≫= f).
Proof.
  intros Hm Hf w w' t r Hok Hb Hem Hs. unfold mbind, act_bind. destruct (m w) as [[w1 t1] [x|e]] eqn:E.
  - destruct (f x w1) as [[w2 t2] r2] eqn:E2. intros [= <- <- <-].
    apply Hm in E as []; [|done|done|done|lia].
    apply Hf in E2 as []; [|done|done|done|lia]. split; try done; try lia; try congruence.
    + intros g [?|?]%elem_of_app; auto.
    + unfold posted in *. rewrite omap_app. by rewrite kp_pending1, kp_pending0, app_assoc.
  - intros [= <- <- <-]. apply Hm in E as []; [|done|done|done|lia]. split; try done. lia.
Qed.
(** What touches nothing but the turn's own notes. *)
Lemma within_still {A} (m : act A) :
  (∀ w w' t r, m w = (w', t, r) →
     w_outbox w' = w_outbox w ∧ w_tenant w' = w_tenant w ∧ w_session w' = w_session w
     ∧ w_emergency w' = w_emergency w ∧ w_abort w' = w_abort w ∧ t = [] ∧ err_of r = None) → within 0 m.
Proof.
  intros Hm w w' t r Hok [Hb1 Hb2] Hem Hs Hr. apply Hm in Hr as (Ho & Ht & Hse & He & Ha & -> & ->).
  split; rewrite ?Ho; try done; try congruence.
  - split; congruence.
  - lia.
  - by intros f ?%elem_of_nil.
  - by rewrite app_nil_r.
Qed.
Ltac still := apply within_still; by intros w w' t r [= <- <- <-].
Lemma within_emergency {A} n (f : bool → act A) : within n (f true) → within n (gets w_emergency ≫= f).
Proof.
  intros Hf w w' t r Hok Hb Hem Hs. unfold mbind, act_bind, gets. rewrite Hem.
  destruct (f true w) as [[w1 t1] r1] eqn:E. intros [= <- <- <-]. by apply Hf.
Qed.
Lemma within_post type payload turn :
  TYPE_FEATURES !! type = None → within 1 (post cfg clock spool_ok sid type payload turn true).
Proof.
  intros Hf w w' t r Hok Hb Hem Hs. unfold post.
  destruct (append _ _ _ _ _ _ _ _ _) as [o x] eqn:Ha. intros [= <- <- <-].
  pose proof (append_budget _ _ _ _ _ _ _ _ _ _ Ha Hf) as [Hsp He]; [lia|].
  pose proof (append_outcome _ _ _ _ _ _ _ _ _ _ _ Hok Ha) as Hout. cbv zeta in Hout.
  pose proof (append_inv _ _ _ _ _ _ _ _ _ _ _ Hok Ha) as Hi. cbv zeta in Hi.
  destruct x as [x|e]; split; cbn; try done; try (destruct Hb; split; done); try lia.
  - apply Hi.
  - by intros f ?%list_elem_of_singleton.
  - destruct Hout as (_ & _ & _ & _ & Hp). rewrite Hp. by rewrite decide_True.
  - apply Hi.
  - intros f Hin%list_elem_of_singleton. injection Hin as ->. by apply He.
  - intros y [= <-]. exists e. split; [done|]. by apply He.
  - destruct Hout as [Hp _]. destruct (Hp sid) as [-> _]. by rewrite app_nil_r.
Qed.
Lemma within_le {A} n n' (m : act A) : within n m → (n ≤ n')%nat → within n' m.
Proof.
  intros Hm Hn w w' t r Hok Hb Hem Hs Hr. destruct (Hm w w' t r) as []; try done; [lia|]. split; try done. lia.
Qed.
Lemma within_ret {A} (x : A) : within 0 (mret x).
Proof. still. Qed.
Lemma within_gets {A} (f : turn_world → A) : within 0 (gets f).
Proof. still. Qed.
Lemma within_of_res {A} (x : A) : within 0 (of_res (Ok x)).
Proof. still. Qed.
Lemma within_lift {A} (x : A) : within 0 (lift (Ok x)).
Proof. still. Qed.
Lemma within_monotonic : within 0 (monotonic clock).
Proof. still. Qed.
Lemma within_check : within 0 (check tenant sid).
Proof.
  intros w w' t r Hok [Hb1 Hb2] Hem Hs [= <- <- <-]. rewrite decide_True by auto.
  split; try done; [lia|by intros f ?%elem_of_nil|by rewrite app_nil_r].
Qed.
Lemma within_finally {A} n (m : act A) f :
  within n m → (∀ w, w_outbox (f w) = w_outbox w ∧ w_tenant (f w) = w_tenant w ∧ w_session (f w) = w_session w
     ∧ w_emergency (f w) = w_emergency w ∧ w_abort (f w) = w_abort w) → within n (finally m f).
Proof.
  intros Hm Hf w w' t r Hok Hb Hem Hs. unfold finally. destruct (m w) as [[w1 t1] r1] eqn:E.
  intros [= <- <- <-]. apply Hm in E as []; try done. destruct (Hf w1) as (H1 & H2 & H3 & H4 & H5).
  split; rewrite ?H1, ?H4, ?H5; try done. destruct kp_bound0. split; congruence.
Qed.
Lemma within_of_ok {A B} n (x : A) (f : A → act B) : within n (f x) → within n (of_res (Ok x) ≫= f).
Proof.
  intros Hf w w' t r Hok Hb Hem Hs. unfold mbind, act_bind, of_res. destruct (f x w) as [[w1 t1] r1] eqn:E.
  intros [= <- <- <-]. by apply Hf.
Qed.
Hint Resolve within_ret within_gets within_of_res within_lift within_monotonic within_check within_post : within.
Lemma within_then {A B} n (m : act A) (f : A → act B) : within 0 m → (∀ x, within n (f x)) → within n (m ≫= f).
Proof. apply (within_bind 0). Qed.
Lemma within_last {A B} n (m : act A) (f : A → act B) : within n m → (∀ x, within 0 (f x)) → within n (m ≫= f).
Proof. intros Hm Hf. eapply within_le; [by eapply within_bind|lia]. Qed.

Lemma within_append_event type data : within 1 (append_event cfg clock spool_ok tenant sid type data).
Proof.
  unfold append_event. apply within_then; [eauto with within|intros _]. case_decide.
  { eapply within_le; [apply within_ret|lia]. }
  cbv zeta. apply within_emergency. apply within_last; [by apply within_post|eauto with within].
Qed.
Lemma within_update_session changes :
  opt_text (default JNull (jget "status" changes)) = true →
  opt_list (default (JArr []) (jget "required_actions" changes)) = true →
  within 1 (update_session cfg clock spool_ok tenant sid changes).
Proof.
  intros H1 H2. unfold update_session. apply within_then; [eauto with within|intros _]. cbv zeta.
  rewrite H1, H2. cbn [andb negb]. apply within_emergency.
  apply within_last; [by apply within_post|eauto with within].
Qed.
Lemma within_finish_turn turn status f :
  status ∈ TURN_STATUSES → within 1 (finish_turn cfg clock spool_ok tenant sid turn status f).
Proof.
  intros Hs. unfold finish_turn, turn_status_payload. rewrite decide_True by done.
  apply within_then; [eauto with within|intros _]. apply within_of_ok, within_emergency. cbn [orb].
  apply within_last; [by apply within_post|eauto with within].
Qed.
Lemma within_write_turn_log turn status code request bytes user f :
  within 1 (write_turn_log cfg clock spool_ok tenant sid turn status None code request bytes user f).
Proof.
  unfold write_turn_log. change (usage_from None) with (Ok (E:=exn) empty_usage).
  apply within_then; [eauto with within|intros _]. apply within_then; [eauto with within|intros stored].
  apply within_then; [eauto with within|intros tally].
  apply within_then; [eauto with within|intros started].
  apply within_then.
  { destruct started as [[]|]; cbn; eauto with within; apply within_then; eauto with within. }
  intros latency. apply within_emergency, within_finally; [|done]. cbn [orb].
  apply within_last; [by apply within_post|eauto with within].
Qed.
Lemma within_fail_turn a message code f :
  a_tenant a = tenant → a_session a = sid →
  within 6 (fail_turn cfg clock spool_ok classify_host_message a message code f).
Proof.
  intros Ht Hs. unfold fail_turn. cbv zeta. rewrite Ht, Hs.
  apply (within_bind 1 5); [by apply within_finish_turn; in_list|intros _].
  apply (within_bind 1 4); [apply within_write_turn_log|intros _].
  apply (within_bind 1 3); [apply within_append_event|intros _].
  apply (within_bind 1 2); [apply within_append_event|intros _].
  apply (within_bind 1 1); [by apply within_update_session|intros _; apply within_append_event].
Qed.
End budget.

(** ** An outbox that refuses *)

(** The session's share of the messages is used up. *)
Definition full (cfg : config) (o : outbox) (sid : uuid) : Prop :=
  session_messages cfg ≤ Z.of_nat (length (pending o sid 0)).
Lemma full_refuses cfg o now io sid type payload turn o' r :
  outbox_ok o → full cfg o sid → append cfg o now io sid type payload turn false = (o', r) →
  outbox_ok o' ∧ pending o' sid 0 = pending o sid 0 ∧ ∃ e, r = Err e.
Proof.
  intros Hok Hfull Ha. pose proof (append_outcome _ _ _ _ _ _ _ _ _ _ _ Hok Ha) as Hout.
  pose proof (append_inv _ _ _ _ _ _ _ _ _ _ _ Hok Ha) as Hi. cbv zeta in *. destruct r as [x|e].
  - exfalso. destruct Hout as (_ & _ & _ & [Hover|?] & _); [|done].
    apply orb_false_iff in Hover as [_ Hover]. unfold over_session in Hover.
    apply orb_false_iff in Hover as [Hlen _]. apply Z.ltb_ge in Hlen.
    unfold full in Hfull. rewrite pending_view in Hfull by done.
    destruct (buffer o sid) as [o0 b] eqn:Hb. apply buffer_view in Hb as [_ Hb]; [|done].
    rewrite Hb in Hfull. cbn in *. lia.
  - split; [apply Hi|]. destruct Hout as [Hp _]. destruct (Hp sid) as [-> _]. eauto.
Qed.

Section full.
Context (cfg : config) (clock : nat → Z) (spool_ok : nat → bool) (fresh : nat → uuid).
Context (elsewhere : nat → outbox → outbox).
Context (classify_host_message : string → failure).
Context (sha256_hex : list ascii → string) (guess_type : string → option string).
Context (a : turn_args).

Definition stuck (w : turn_world) : Prop :=
  outbox_ok (w_outbox w) ∧ bound (a_tenant a) (a_session a) w ∧ w_emergency w = false
  ∧ full cfg (w_outbox w) (a_session a).
(** Refused at its first report. *)
Definition blocked {A} (m : act A) : Prop := ∀ w w' t r, stuck w → m w = (w', t, r) →
  stuck w' ∧ pending (w_outbox w') (a_session a) 0 = pending (w_outbox w) (a_session a) 0
  ∧ posted t = [] ∧ ∃ e, r = Err (Refused e).
Lemma blocked_post {A} type payload turn (f : stored → act A) :
  blocked (post cfg clock spool_ok (a_session a) type payload turn false ≫= f).
Proof.
  intros w w' t r (Hok & Hb & He & Hfull) Hr. unfold mbind, act_bind, post in Hr.
  destruct (append _ _ _ _ _ _ _ _ _) as [o x] eqn:Ha.
  apply full_refuses in Ha as (Hok' & Hp & e & ->); [|done..]. injection Hr as <- <- <-.
  split_and!; [|done|done|eauto]. split_and!; [done|exact Hb|done|]. unfold full. cbn. by rewrite Hp.
Qed.
Lemma blocked_emergency {A} (f : bool → act A) : blocked (f false) → blocked (gets w_emergency ≫= f).
Proof.
  intros Hf w w' t r Hs. unfold mbind, act_bind, gets. rewrite (proj1 (proj2 (proj2 Hs))).
  destruct (f false w) as [[w1 t1] r1] eqn:E. intros [= <- <- <-]. by apply Hf.
Qed.
Lemma blocked_after {A B} (m : act A) (f : A → act B) : blocked m → blocked (m ≫= f).
Proof.
  intros Hm w w' t r Hs. unfold mbind, act_bind. destruct (m w) as [[w1 t1] r1] eqn:E.
  apply Hm in E as (H1 & H2 & H3 & e & ->); [|done]. intros [= <- <- <-]. eauto.
Qed.
Lemma blocked_still {A B} (m : act A) (f : A → act B) :
  (∀ w w' t r, stuck w → m w = (w', t, r) → w_outbox w' = w_outbox w ∧ stuck w' ∧ t = [] ∧ ∃ x, r = Ok x) →
  (∀ x, blocked (f x)) → blocked (m ≫= f).
Proof.
  intros Hm Hf w w' t r Hs. unfold mbind, act_bind. destruct (m w) as [[w1 t1] r1] eqn:E.
  apply Hm in E as (Ho & Hs1 & -> & x & ->); [|done].
  destruct (f x w1) as [[w2 t2] r2] eqn:E2. intros [= <- <- <-].
  apply Hf in E2 as (H1 & H2 & H3 & He); [|done]. rewrite Ho in H2. done.
Qed.
Lemma blocked_check {A} (f : () → act A) : blocked (f ()) → blocked (check (a_tenant a) (a_session a) ≫= f).
Proof.
  intros Hf. apply blocked_still; [|by intros []].
  intros w w' t r Hs [= <- <- <-]. destruct (proj1 (proj2 Hs)) as [Hb1 Hb2].
  rewrite decide_True by auto. split; [done|]. split; [exact Hs|]. eauto.
Qed.
Lemma blocked_uuid4 {A} (f : uuid → act A) : (∀ x, blocked (f x)) → blocked (uuid4 fresh ≫= f).
Proof.
  intros Hf. apply blocked_still; [|exact Hf]. intros w w' t r Hs [= <- <- <-].
  split; [done|]. split; [exact Hs|]. eauto.
Qed.
Lemma blocked_catching {A} (m : act A) h :
  blocked m → (∀ e, match h (Refused e) with Some m' => blocked m' | None => True end) → blocked (catching m h).
Proof.
  intros Hm Hh w w' t r Hs. unfold catching. destruct (m w) as [[w1 t1] r1] eqn:E.
  apply Hm in E as (Hs1 & Hp & Ht & e & ->); [|done]. specialize (Hh e).
  destruct (h (Refused e)) as [m'|]; [|intros [= <- <- <-]; eauto].
  destruct (m' w1) as [[w2 t2] r2] eqn:E2. intros [= <- <- <-].
  apply Hh in E2 as (H1 & H2 & H3 & He); [|done]. split_and!; [done|congruence| |done].
  unfold posted in *. by rewrite omap_app, Ht, H3.
Qed.
Lemma blocked_update_session changes :
  opt_text (default JNull (jget "status" changes)) = true →
  opt_list (default (JArr []) (jget "required_actions" changes)) = true →
  blocked (update_session cfg clock spool_ok (a_tenant a) (a_session a) changes).
Proof.
  intros H1 H2. unfold update_session. apply blocked_check. cbv zeta. rewrite H1, H2. cbn [andb negb].
  apply blocked_emergency, blocked_post.
Qed.
Lemma blocked_complete_turn reply usage h :
  blocked (complete_turn cfg clock spool_ok fresh elsewhere classify_host_message sha256_hex guess_type a reply usage h).
Proof.
  unfold complete_turn. apply blocked_after. unfold emit_item. apply blocked_after. unfold create_item.
  apply blocked_check, blocked_uuid4. intros item. apply blocked_emergency, blocked_post.
Qed.
Lemma blocked_dispatch m :
  blocked m → blocked (dispatch cfg clock spool_ok classify_host_message (a_tenant a) (a_session a) m).
Proof.
  intros Hm. unfold dispatch. apply blocked_catching; [by apply blocked_after|]. intros e.
  apply blocked_after. unfold report_escaped_turn, report_session_failed. apply blocked_after.
  by apply blocked_update_session.
Qed.
End full.

(** ** A turn that answers, and one on a full outbox *)

Definition rt_cfg : config := Config 100 1000000 50 500000 512 false.
Definition rt_clock (n : nat) : Z := Z.of_nat n * 1000.
Definition rt_fresh (n : nat) : uuid := (100 + N.of_nat n)%N.
Definition rt_world (o : outbox) : turn_world := TurnWorld o 1 7 reset ∅ false None (0, false) 0.
Definition rt_args : turn_args := TurnArgs 1 7 9 None None "legacy".
Definition rt_stream : stream :=
  Stream [Yields "function_call" [("call_id", JStr "c"); ("name", JInt 3)];
          Yields "agent.session.turn.output_text.done" [("text", JStr "hi")]]%string Exhausted.
Definition rt_transfer : transfer :=
  Transfer (Some (PresignAnswer true false (Some 5%N) (Some "u"%string) None None None)) (Ok ()) (Ok ""%string).
Definition rt_harvest (data : list ascii) : harvest :=
  Harvest [("outputs/a"%string, data)] None (λ _, rt_transfer) [] rt_transfer.
Definition rt_run (h : harvest) : act () :=
  run_turn rt_cfg rt_clock (λ _, true) rt_fresh (λ _ o, o) no_classify (λ _, ""%string) (λ _, None)
    rt_args Prepared (JStr "hello") rt_stream h.
Definition rt_out (h : harvest) : turn_world * list effect * res raised () := rt_run h (rt_world (init_outbox ∅)).

Lemma rt_accepted h : h = rt_harvest ["x"%char] ∨ h = rt_harvest [] → accepted (rt_out h).1.2.
Proof. intros [->| ->]; (apply accepted_bool; vm_compute; reflexivity). Qed.
Lemma rt_out_eq h :
  run_turn rt_cfg rt_clock (λ _, true) rt_fresh (λ _ o, o) no_classify (λ _, ""%string) (λ _, None)
    rt_args Prepared (JStr "hello") rt_stream h (rt_world (init_outbox ∅))
  = ((rt_out h).1.1, (rt_out h).1.2, (rt_out h).2).
Proof. unfold rt_out, rt_run. by destruct (run_turn _ _ _ _ _ _ _ _ _ _ _ _ _ _) as [[? ?] ?]. Qed.

Lemma rt_result : (rt_out (rt_harvest ["x"%char])).2 = Ok ().
Proof. vm_compute. reflexivity. Qed.

Lemma turn_post_order a s h t r : after_announced a s h t r →
  ∃ turn l k, t = announced turn ++ l ++ k ∧ work turn l
    ∧ match r with
      | Ok _ => ending turn k ∨ (¬ publishable h ∧ unpublished turn k)
      | Err e => (k = [] ∧ ∃ x, raised_by s x ∧ e = Raised x)
          ∨ (k = [status "idle"] ∧ ∃ message code, st_end s = AtCapacity message code ∧ e = ApiRaised message (Some code))
      end.
Proof.
  intros (turn & k & -> & Hk). destruct r as [[]|e]; cbn in Hk.
  - destruct Hk as (l & e & Hl & He & ->). by exists turn, l, e.
  - destruct Hk as (l & Hl & [[-> He]|[-> He]]).
    + exists turn, l, []. rewrite app_nil_r. eauto.
    + exists turn, l, [status "idle"]. eauto.
Qed.
Lemma rt_publishable : publishable (rt_harvest ["x"%char]).
Proof.
  split_and!; [|done|done]. intros [|j] f Hf; [|by destruct j]. injection Hf as <-.
  split; [done|]. cbn. split; [by eexists|]. rewrite decide_True by done. by eexists.
Qed.

(** C2: when the outbox takes every report, a turn whose context can be prepared is
    announced (with the turn it makes), works, and ends in exactly one of the protocol's
    endings, whatever the harness yields, however that ends, and whenever it is cancelled,
    with three exceptions.  When publishing what the turn leaves meets an `artifact_store`
    error, it fails after it was reported completed ([unpublished]; impossible when
    [publishable]).  When the harness raises an exception of its own, or counts wrong
    ([raised_by]), that escapes and the turn is left open where it was.  When the harness
    has no capacity, the session is reported idle, the turn is left open and the command is
    refused with the harness's message.  A turn whose context cannot be prepared fails its
    environment, or raises what its preparation raised, and reports nothing else. *)
Theorem turn_order cfg clock spool_ok fresh elsewhere classify_host_message sha256_hex guess_type a p content s h w w' t r :
  bound (a_tenant a) (a_session a) w → accepted t →
  run_turn cfg clock spool_ok fresh elsewhere classify_host_message sha256_hex guess_type a p content s h w = (w', t, r) →
  match p with
  | EnvironmentFails _ _ => tokens t = event "environment.failed" :: session_failed ∧ r = Ok ()
  | Escapes e => tokens t = [] ∧ r = Err e
  | CacheUnreadable | Prepared => ∃ turn l k, tokens t = announced turn ++ l ++ k ∧ work turn l
      ∧ match r with
        | Ok _ => ending turn k ∨ (¬ publishable h ∧ unpublished turn k)
        | Err e => (k = [] ∧ ∃ x, raised_by s x ∧ e = Raised x)
            ∨ (k = [status "idle"] ∧ ∃ message code, st_end s = AtCapacity message code ∧ e = ApiRaised message (Some code))
        end
  end.
Proof.
  intros Hb Ht Hr. apply (says_run_turn cfg clock spool_ok fresh elsewhere classify_host_message
    sha256_hex guess_type a p content s h w w' t r Hb) in Hr as [_ Hr]. apply Hr in Ht.
  destruct p; cbn in Ht; [done..| |]; by eapply turn_post_order.
Qed.
Lemma turn_order_witness :
  ∃ turn l k, tokens (rt_out (rt_harvest ["x"%char])).1.2 = announced turn ++ l ++ k
    ∧ work turn l ∧ ending turn k.
Proof.
  pose proof (turn_order rt_cfg rt_clock (λ _, true) rt_fresh (λ _ o, o) no_classify (λ _, ""%string) (λ _, None)
    rt_args Prepared (JStr "hello") rt_stream (rt_harvest ["x"%char]) (rt_world (init_outbox ∅))
    (rt_out (rt_harvest ["x"%char])).1.1 (rt_out (rt_harvest ["x"%char])).1.2 (rt_out (rt_harvest ["x"%char])).2
    (conj eq_refl eq_refl) (rt_accepted (rt_harvest ["x"%char]) (or_introl eq_refl))
    (rt_out_eq (rt_harvest ["x"%char]))) as Hrun.
  cbv beta iota in Hrun. rewrite rt_result in Hrun. destruct Hrun as (turn & l & k & Hl & Hw & [Hk|[Hn _]]).
  - exists turn, l, k. exact (conj Hl (conj Hw Hk)).
  - destruct (Hn rt_publishable).
Defined.

Lemma ended_status b h l : ended_well b h l → ∃ s, last_status l = Some s ∧ s ∈ settled.
Proof.
  intros (k & e & Hk & He & ->). rewrite last_status_app. apply finished_status in He as (y & -> & Hy). eauto.
Qed.
(** The last status is one in which nobody waits for the worker. *)
Definition settles (l : list token) : Prop := ∃ s, last_status l = Some s ∧ s ∈ settled.
Lemma settles_app k l : settles l → settles (k ++ l).
Proof. intros (s & Hs & Hin). exists s. by rewrite last_status_app, Hs. Qed.
Lemma session_failed_settles l : settles (l ++ session_failed).
Proof. apply settles_app. exists "failed"%string. split; [reflexivity|in_list]. Qed.
Lemma environment_settles : settles (event "environment.failed" :: session_failed).
Proof. apply (session_failed_settles [_]). Qed.
Lemma run_post_settles a p s h l r : run_post a p s h l r → match r with Ok _ => settles l | Err _ => True end.
Proof.
  destruct r as [[]|]; [|done]. destruct p as [message code|e| |]; cbn.
  - intros [-> _]. apply environment_settles.
  - by intros [_ ?].
  - intros (turn & k & -> & Hk). apply settles_app. by eapply ended_status.
  - intros (turn & k & -> & Hk). apply settles_app. by eapply ended_status.
Qed.
(** A continuation reports a status unless other calls of the session are still open. *)
Definition settles_or_waits (before : string) (l : list token) : Prop :=
  settles l ∨ (before = "requires_action"%string ∧ l = [KStatus None; event "requires_action"]).
Lemma continue_post_settles a before p s h l r :
  continue_post a before p s h l r → match r with Ok _ => settles_or_waits before l | Err _ => True end.
Proof.
  destruct r as [[]|]; [|done]. intros [[_ (m & c & ?)]|[(-> & -> & _)|Hp]]; [done|by right|left].
  destruct p as [message code|e| |]; cbn in Hp.
  - destruct Hp as [-> _]. apply environment_settles.
  - by destruct Hp.
  - by eapply ended_status.
  - by eapply ended_status.
Qed.

(** The body of a turn command: of `turn.start`, or of `turn.continue` with the status and the
    open calls its session has, and the call it answers. *)
Inductive turn_command : Type :=
| Starts
| Continues (session_status : string) (actions : list json) (call_id : string).
Definition command_body cfg clock spool_ok fresh elsewhere classify_host_message sha256_hex guess_type a p content s h (c : turn_command) : act () :=
  match c with
  | Starts => run_turn cfg clock spool_ok fresh elsewhere classify_host_message sha256_hex guess_type a p content s h
  | Continues session_status actions call_id =>
      continue_turn cfg clock spool_ok fresh elsewhere classify_host_message sha256_hex guess_type a session_status actions call_id p s h
  end.
Definition rt_command : turn_world * list effect * res raised string :=
  dispatch rt_cfg rt_clock (λ _, true) no_classify 1 7 (rt_run (rt_harvest ["x"%char])) (rt_world (init_outbox ∅)).
Lemma rt_command_accepted : accepted rt_command.1.2.
Proof. apply accepted_bool. vm_compute. reflexivity. Qed.
Lemma rt_command_eq :
  dispatch rt_cfg rt_clock (λ _, true) no_classify 1 7 (rt_run (rt_harvest ["x"%char])) (rt_world (init_outbox ∅))
  = (rt_command.1.1, rt_command.1.2, rt_command.2).
Proof. unfold rt_command. by destruct (dispatch _ _ _ _ _ _ _ _) as [[? ?] ?]. Qed.

(** A session with two messages of two. *)
Definition rt_small : config := Config 100 1000000 2 500000 512 false.
Definition rt_append (o : outbox) : outbox := (append rt_small o 0 true 7 "event" [] None false).1.
Definition rt_full : outbox := rt_append (rt_append (init_outbox ∅)).
Lemma rt_append_ok o : outbox_ok o → outbox_ok (rt_append o).
Proof.
  intros Hok. unfold rt_append. destruct (append _ _ _ _ _ _ _ _ _) as [o' r] eqn:Ha.
  apply append_inv in Ha; [|done]. destruct r; apply Ha.
Qed.
Lemma rt_full_ok : outbox_ok rt_full.
Proof. apply rt_append_ok, rt_append_ok, init_outbox_ok. Qed.
Definition rt_overflow (w : turn_world) : turn_world * list effect * res raised () :=
  fail_outbox_full rt_small rt_clock (λ _, true) no_classify rt_args (OutboxFull 7) w.
Lemma rt_overflow_eq w :
  fail_outbox_full rt_small rt_clock (λ _, true) no_classify rt_args (OutboxFull 7) w
  = ((rt_overflow w).1.1, (rt_overflow w).1.2, (rt_overflow w).2).
Proof. unfold rt_overflow. by destruct (fail_outbox_full _ _ _ _ _ _ _) as [[? ?] ?]. Qed.
(** The budget is not given back when the outbox drains or the next turn starts: a second
    overflow of the same buffer reports four of the six, and the session is not idle. *)
Lemma second_overflow_cut :
  tokens (rt_overflow (rt_overflow (rt_world rt_full)).1.1).1.2 = firstn 4%nat (failed 9)
  ∧ (rt_overflow (rt_overflow (rt_world rt_full)).1.1).2 = Ok ().
Proof. split; vm_compute; reflexivity. Qed.

(** An outbox that is full when the turn completes is reported by nobody: `complete_turn`
    is outside the clauses that catch `OutboxFull`, and the reports of the failure are
    refused like the turn's own. *)
Theorem overflow_unreported cfg clock spool_ok fresh elsewhere classify_host_message sha256_hex guess_type a reply usage h op w w' t r :
  stuck cfg a w →
  run_command cfg clock spool_ok classify_host_message (a_tenant a) (a_session a) op
    (complete_turn cfg clock spool_ok fresh elsewhere classify_host_message sha256_hex guess_type a reply usage h) w = (w', t, r) →
  posted t = [] ∧ pending (w_outbox w') (a_session a) 0 = pending (w_outbox w) (a_session a) 0
  ∧ ∃ e, r = Err (Refused e).
Proof.
  intros Hs Hr. unfold run_command, catching in Hr.
  destruct (dispatch _ _ _ _ _ _ _ w) as [[w1 t1] r1] eqn:E1.
  apply blocked_dispatch in E1 as (Hs1 & Hp1 & Ht1 & e & ->); [|by apply blocked_complete_turn|done].
  unfold mbind, act_bind in Hr.
  destruct (report_command_failed _ _ _ _ _ w1) as [[w2 t2] r2] eqn:E2.
  assert (pending (w_outbox w2) (a_session a) 0 = pending (w_outbox w1) (a_session a) 0 ∧ posted t2 = [] ∧ r2 = Ok ()) as (Hp2 & Ht2 & ->).
  { unfold report_command_failed, catching in E2.
    destruct ((_ ← post cfg clock spool_ok (a_session a) _ _ _ _; mret ()) w1) as [[w3 t3] r3] eqn:E3.
    apply (blocked_post cfg clock spool_ok a) in E3 as (_ & Hp3 & Ht3 & e3 & ->); [|done].
    injection E2 as <- <- <-. split_and!; [done| |done]. by rewrite app_nil_r. }
  cbn in Hr. injection Hr as <- <- <-. split_and!; [|congruence|eauto].
  unfold posted in *. by rewrite !omap_app, Ht1, Ht2.
Qed.
Lemma overflow_unreported_witness :
  ∃ w' t e, run_command rt_small rt_clock (λ _, true) no_classify (a_tenant rt_args) (a_session rt_args) "turn.start"
    (complete_turn rt_small rt_clock (λ _, true) rt_fresh (λ _ o, o) no_classify (λ _, ""%string) (λ _, None)
       rt_args "hi" empty_usage (rt_harvest [])) (rt_world rt_full) = (w', t, Err (Refused e)) ∧ posted t = [].
Proof.
  destruct (run_command rt_small rt_clock (λ _, true) no_classify (a_tenant rt_args) (a_session rt_args) "turn.start"
    (complete_turn rt_small rt_clock (λ _, true) rt_fresh (λ _ o, o) no_classify (λ _, ""%string) (λ _, None)
       rt_args "hi" empty_usage (rt_harvest [])) (rt_world rt_full)) as [[w' t] r] eqn:E.
  pose proof (overflow_unreported rt_small rt_clock (λ _, true) rt_fresh (λ _ o, o) no_classify (λ _, ""%string) (λ _, None)
    rt_args "hi" empty_usage (rt_harvest []) "turn.start" (rt_world rt_full) w' t r) as Hrun.
  destruct Hrun as (Ht & _ & e & ->); [|exact E|exists w', t, e; split; [reflexivity|exact Ht]].
  split; [exact rt_full_ok|]. split; [exact (conj eq_refl eq_refl)|]. split; [exact eq_refl|].
  unfold full. vm_compute. congruence.
Defined.

(** An empty file among the published ones makes the upload of the turn's files raise: the
    request must state a size of at least one byte.  The turn, already reported completed,
    then fails with `artifact_store`. *)
Lemma empty_output_fails :
  ∃ turn, tokens (rt_out (rt_harvest [])).1.2
    = announced turn ++ [event "turn.output_text.done"] ++ completion turn ++ failed turn.
Proof. eexists. vm_compute. reflexivity. Qed.
