(* ===== verification/Settle.v ===== *)
(** * A turn that ended on the worker ends at the API

    The envelopes of a failed or cancelled turn ([TurnEnd]) and what the API makes of them
    when it applies them in a batch ([Ingest]): the turn is ended, its log is written, the
    public events are stored in order and sent to the streams, and the session is idle. *)

From S2P Require Import Prelude PyStd Protocol Outbox OutboxSpec Db Sandbox Usage Blobs Artifacts Accounting Ingest IngestSpec IngestProps IngestTurns TurnState Sink TurnEnd Runtime TurnProtocol RuntimeProps.

Open Scope Z_scope.

(** ** What the worker reports *)

(** An envelope but for its number, with its session. *)
Abbreviation content := (string * option uuid * list (string * json))%type (only parsing).
Definition content_of (e : envelope) : uuid * content := (env_session e, (env_type e, env_turn e, env_payload e)).
Definition event_content (type : string) (data : list (string * json)) (turn : option uuid) : content :=
  ("event", turn, [("type", JStr type); ("data", JObj data); ("turn_id", uuid_or_null turn)])%string.
Definition closing_contents (error : option (list (string * json))) : list content :=
  match error with Some e => [event_content "agent.session.error"%string e None] | None => [] end
  ++ [("session.status"%string, None, idle_changes); event_content "agent.session.idle"%string [] None].
Definition ending_contents (turn : uuid) (how : string) (f : failure) (usage data : list (string * json))
    (error : option (list (string * json))) : list content :=
  [("turn.status", Some turn,
      [("turn_id", JStr (str_of_uuid turn)); ("status", JStr how); ("code", JStr (f_code f));
       ("message", JStr (f_message f))]);
   ("usage", Some turn, usage);
   event_content ("agent.session.turn." ++ how) data (Some turn)]%string
  ++ closing_contents error.
(** The usage of a turn without tokens; its latency and tally depend on the turn. *)
Definition no_usage (turn : uuid) (how : string) (f : failure) (usage : list (string * json)) : Prop :=
  ∃ latency request user tally,
    usage = usage_payload turn how empty_usage latency (Some (f_code f)) request user 0 tally (Some f).

Section worker.
Context (cfg : config) (clock : nat → Z) (spool_ok : nat → bool).
Context (classify_host_message : string → failure).
Context (a : turn_args) (Hturn : (a_turn a < 2 ^ 128)%N).

#[local] Abbreviation says := (says content_of (a_tenant a) (a_session a)).
#[local] Abbreviation speaks := (speaks content_of (a_tenant a) (a_session a)).

Lemma content_done type payload turn em :
  speaks (_ ← post cfg clock spool_ok (a_session a) type payload turn em; mret ()) [(a_session a, (type, turn, payload))].
Proof. eapply speaks_eq; [eapply speaks_bind; [by apply (speaks_post_as _ _ _ _ _ _ _ _ _ (a_session a, (type, turn, payload)))|intros ?; apply speaks_ret]|done]. Qed.
Lemma content_append_event type data turn :
  type ∈ PUBLIC_EVENT_TYPES → default None (turn_id_in (default [] data)) = turn →
  speaks (Sink.append_event cfg clock spool_ok (a_tenant a) (a_session a) type data)
    [(a_session a, event_content type (default [] data) turn)].
Proof.
  intros Hp <-. unfold Sink.append_event. rewrite decide_False by (by intros ?).
  eapply says_silent; [apply speaks_check|intros ?]. cbv zeta.
  eapply says_silent; [apply speaks_gets|intros ?]. apply content_done.
Qed.
Lemma content_finish_turn how f :
  how ∈ TURN_STATUSES →
  speaks (Sink.finish_turn cfg clock spool_ok (a_tenant a) (a_session a) (a_turn a) how (Some f))
    [(a_session a, ("turn.status", Some (a_turn a),
      [("turn_id", JStr (str_of_uuid (a_turn a))); ("status", JStr how); ("code", JStr (f_code f));
       ("message", JStr (f_message f))]))]%string.
Proof.
  intros Hs. unfold Sink.finish_turn, turn_status_payload. rewrite decide_True by done.
  eapply says_silent; [apply speaks_check|intros ?]. apply speaks_of_ok.
  eapply says_silent; [apply speaks_gets|intros ?]. apply content_done.
Qed.
Lemma content_turn_latency started : speaks (turn_latency clock started) [].
Proof.
  unfold turn_latency. destruct started as [[]|]; try apply speaks_ret;
    (eapply says_silent; [apply speaks_monotonic|intros ?; apply speaks_ret]).
Qed.
Lemma content_write_turn_log how f :
  says (Sink.write_turn_log cfg clock spool_ok (a_tenant a) (a_session a) (a_turn a) how None (Some (f_code f))
      (a_request a) 0 (a_user a) (Some f))
    (λ l r, (∃ usage, no_usage (a_turn a) how f usage ∧ l = [(a_session a, ("usage"%string, Some (a_turn a), usage))])
            ∧ ∃ x, r = Ok x).
Proof.
  unfold Sink.write_turn_log. change (usage_from None) with (Ok (E:=exn) empty_usage).
  eapply says_silent; [apply speaks_check|intros ?].
  apply says_of_ok.
  eapply says_silent; [apply speaks_gets|intros tally].
  eapply says_silent; [apply speaks_gets|intros started].
  eapply says_silent; [apply content_turn_latency|intros latency].
  eapply says_silent; [apply speaks_gets|intros em].
  apply says_finally; [|done]. eapply says_mono; [apply content_done|]. cbv beta.
  intros l r [-> Hr]. split; [|done]. eexists. split; [|reflexivity]. by exists latency, (a_request a), (a_user a), tally.
Qed.
(** A failed turn reports an error of the session, which names no turn. *)
Definition error_fits (how : string) (error : option (list (string * json))) : Prop :=
  match error with Some e => how = "failed"%string ∧ turn_id_in e = None | None => how ≠ "failed"%string end.
(** A turn that ends as [how] says so, with the log and the events of that ending. *)
Definition ended_as (how : string) (f : failure) (l : list (uuid * content)) : Prop :=
  ∃ usage data error,
    no_usage (a_turn a) how f usage ∧ default None (turn_id_in data) = Some (a_turn a)
    ∧ error_fits how error ∧ l = pair (a_session a) <$> ending_contents (a_turn a) how f usage data error.

Lemma turn_data_id rest : default None (turn_id_in (("turn_id"%string, JStr (str_of_uuid (a_turn a))) :: rest)) = Some (a_turn a).
Proof.
  unfold turn_id_in. cbn [jget]. rewrite decide_True by done. cbn [jstr].
  pose proof (uuid_of_string_str (a_turn a) Hturn) as Hu.
  case_decide as He; [rewrite He in Hu; by vm_compute in Hu|cbn; exact Hu].
Qed.
Lemma session_error_id f mode : turn_id_in (session_error_data f mode) = None.
Proof.
  unfold turn_id_in, session_error_data, optional. destruct (nonempty (f_legacy f)), (JInt <$> f_attempts f); reflexivity.
Qed.
Lemma content_session_idle :
  speaks (TurnEnd.session_idle cfg clock spool_ok (a_tenant a) (a_session a))
    (pair (a_session a) <$> [("session.status", None, idle_changes); event_content "agent.session.idle" [] None])%string.
Proof.
  unfold TurnEnd.session_idle, Sink.update_session. cbn [jget idle_changes].
  eapply (speaks_eq _ _ _ ([_] ++ [_])); [|reflexivity]. eapply speaks_bind.
  - eapply says_silent; [apply speaks_check|intros ?]. cbv zeta. cbn.
    eapply says_silent; [apply speaks_gets|intros ?]. apply content_done.
  - intros ?. apply content_append_event; [in_list|done].
Qed.
Lemma content_then_idle type data :
  type ∈ PUBLIC_EVENT_TYPES → turn_id_in data = None →
  speaks (_ ← Sink.append_event cfg clock spool_ok (a_tenant a) (a_session a) type (Some data);
          TurnEnd.session_idle cfg clock spool_ok (a_tenant a) (a_session a))
    (pair (a_session a) <$> [event_content type data None; ("session.status", None, idle_changes);
                             event_content "agent.session.idle" [] None])%string.
Proof.
  intros Hp Hd. eapply (speaks_eq _ _ _ ([_] ++ _)); [|reflexivity].
  eapply speaks_bind; [apply content_append_event; [done|by cbn; rewrite Hd]|intros ?; apply content_session_idle].
Qed.
(** The status and the log, then the events. *)
Lemma says_ending how (f : failure) (rest : act ()) data error :
  how ∈ TURN_STATUSES → default None (turn_id_in data) = Some (a_turn a) →
  error_fits how error →
  ("agent.session.turn." ++ how)%string ∈ PUBLIC_EVENT_TYPES →
  speaks rest (pair (a_session a) <$> closing_contents error) →
  says (_ ← Sink.finish_turn cfg clock spool_ok (a_tenant a) (a_session a) (a_turn a) how (Some f);
        _ ← Sink.write_turn_log cfg clock spool_ok (a_tenant a) (a_session a) (a_turn a) how None (Some (f_code f))
              (a_request a) 0 (a_user a) (Some f);
        _ ← Sink.append_event cfg clock spool_ok (a_tenant a) (a_session a) ("agent.session.turn." ++ how) (Some data);
        rest)
    (λ l r, ended_as how f l ∧ ∃ x : (), r = Ok x).
Proof.
  intros Hhow Hd He Hp Hrest.
  eapply says_then; [by apply content_finish_turn|intros ?].
  eapply says_mono; [eapply says_bind; [apply content_write_turn_log|intros ?]|].
  { eapply speaks_bind; [by apply content_append_event|intros ?; exact Hrest]. }
  cbv beta. intros l r [(e & -> & _ & ? & ?)|(x & l1 & l2 & -> & [(usage & Hu & ->) _] & -> & Hr)]; [done|].
  split; [|done]. exists usage, data, error. split_and!; [done..|]. reflexivity.
Qed.
Lemma says_fail_turn message code f :
  let resolved := match f with Some f => f | None => failure_for classify_host_message code message end in
  says (TurnEnd.fail_turn cfg clock spool_ok classify_host_message a message code f)
    (λ l r, ended_as "failed" resolved l ∧ ∃ x, r = Ok x).
Proof.
  intros resolved. unfold TurnEnd.fail_turn. fold resolved. cbv zeta.
  apply (says_ending "failed" resolved _ _ (Some (session_error_data resolved (error_mode (Some (a_errors a))))));
    [in_list|apply turn_data_id|split; [done|apply session_error_id]|in_list|].
  apply content_then_idle; [in_list|apply session_error_id].
Qed.
Lemma says_cancel_turn :
  says (TurnEnd.cancel_turn cfg clock spool_ok classify_host_message a)
    (λ l r, ended_as "cancelled" (failure_for classify_host_message "cancelled" "Cancelled") l ∧ ∃ x, r = Ok x).
Proof.
  apply (says_ending "cancelled" _ _ _ None); [in_list|apply turn_data_id|done|in_list|].
  apply content_session_idle.
Qed.
End worker.

(** ** How the API applies them *)

(** The latest turn stays the latest when only its status changes. *)
Lemma newest_turn_fmap f l :
  (∀ t, t_id (f t) = t_id t ∧ t_created (f t) = t_created t) → newest_turn (f <$> l) = f <$> newest_turn l.
Proof.
  intros Hf. induction l as [|t l IH]; [done|]. change (f <$> t :: l) with (f t :: (f <$> l)).
  unfold newest_turn in *. cbn [foldr]. rewrite IH.
  destruct (foldr _ _ l) as [u|]; [|done]. cbn [fmap option_fmap option_map].
  unfold newer. destruct (Hf t) as [-> ->], (Hf u) as [-> ->]. by case_match.
Qed.
Lemma filter_fmap_same {A} (P : A → Prop) `{∀ x, Decision (P x)} (f : A → A) (l : list A) :
  (∀ x, P (f x) ↔ P x) → filter P (f <$> l) = f <$> filter P l.
Proof.
  intros Hf. induction l as [|x l IH]; [done|]. rewrite fmap_cons, !filter_cons, IH.
  pose proof (Hf x). by do 2 case_decide; try tauto.
Qed.
Lemma last_id_set_status d tid how now tenant sid :
  last_id (set_turn_status d tid how now) tenant sid = last_id d tenant sid.
Proof.
  unfold last_id, get_latest_turn, session_turns, set_turn_status, update_where. cbn [turns with_turns].
  set (g := λ t : turn_row, if bool_decide (t_id t = tid) then _ else t).
  assert (∀ t, t_id (g t) = t_id t ∧ t_created (g t) = t_created t ∧ t_tenant (g t) = t_tenant t
    ∧ t_session (g t) = t_session t) as Hg by (intros t; unfold g; by case_bool_decide).
  rewrite filter_fmap_same by (intros t; destruct (Hg t) as (_ & _ & -> & ->); done).
  rewrite newest_turn_fmap by (intros t; destruct (Hg t) as (-> & -> & _ & _); done).
  destruct (newest_turn _) as [t|]; [|done]. cbn. by destruct (Hg t) as (-> & _).
Qed.

(** Conditions on known texts. *)
Ltac known :=
  repeat match goal with
  | |- context [bool_decide (?x = ?y)] =>
      first [rewrite (bool_decide_true (x = y)) by done | rewrite (bool_decide_false (x = y)) by done]
  | |- context [decide (?x = ?y)] =>
      first [rewrite (decide_True (P := x = y)) by done | rewrite (decide_False (P := x = y)) by done]
  end; cbn [andb orb negb].

Section api.
Context {S : Type} `{ObjectStore S} (st : S).
Context (sha256_hex : list ascii → string).
Context (presign_url : list ascii → Z → string → string * list (string * json)).
Context (head_object : S → list ascii → res exn (option Z)).
Context (cfg : settings).
Context (session_model : db → session_row → option string).
Context (exn_str : exn → string) (library_code : exn → option string).
Context (worker : uuid) (run_mode : option string).
Context (tenant sid turn : uuid) (Hturn : (turn < 2 ^ 128)%N).

#[local] Abbreviation apply := (apply sha256_hex presign_url head_object cfg StoreTurns session_model
  exn_str library_code st).
#[local] Abbreviation ingest_one := (ingest_one sha256_hex presign_url head_object cfg StoreTurns
  session_model exn_str library_code st worker run_mode).
#[local] Abbreviation flush_batch := (flush_batch sha256_hex presign_url head_object cfg StoreTurns
  session_model exn_str library_code st).

(** *** The checks *)

(** An envelope of the session's latest turn, or of no turn, that is none of a turn's start. *)
Record speaks_of_turn (e : envelope) : Prop := {
  so_type : env_type e ∈ ["turn.status"; "usage"; "event"; "session.status"]%string;
  so_turn : envelope_turn_id e = None ∨ envelope_turn_id e = Some turn;
  so_usage : env_type e = "usage"%string → envelope_turn_id e = Some turn;
  so_ends : jstr (jget "status" (env_payload e)) ≠ Some "started"%string;
  so_event : env_type e = "event"%string → event_reason (env_payload e) = None;
  so_status : env_type e = "session.status"%string → session_status_reason (env_payload e) = None
}.
Lemma checks_pass c d r e raw :
  sessions d !! sid = Some r → s_id r = sid → s_tenant r = tenant →
  cache_ok c d → is_leased_to worker r = true → last_id d tenant sid = Some turn →
  raw ≤ MAX_MESSAGE_BYTES → speaks_of_turn e →
  (validate c d worker (Some r) e raw).2 = Ok None.
Proof.
  intros Hr Hid Ht Hc Hl Hlast Hraw He.
  assert (sessions d !! s_id r = Some r) as Hr' by (by rewrite Hid).
  rewrite (proj1 (validate_ok d r Hr' c empty_cache worker e raw Hc (cache_ok_empty d))).
  destruct He as [Hty Hte Hu Hst Hev Hss]. unfold validate. cbv zeta.
  rewrite (proj2 (Z.ltb_ge _ _)) by done. rewrite Hl. cbn [negb].
  assert ((turn_reason empty_cache d r e).2 = None) as Htr.
  { unfold turn_reason. cbv zeta. rewrite (bool_decide_false (jstr _ = _)), andb_false_r by done.
    unfold latest_id. cbn [tc_latest empty_cache]. rewrite lookup_empty, Ht, Hid.
    change (t_id <$> get_latest_turn d tenant sid) with (last_id d tenant sid). rewrite Hlast.
    rewrite !elem_of_cons, elem_of_nil in Hty. destruct Hty as [E|[E|[E|[E|[]]]]]; rewrite E;
      destruct Hte as [Hn|Hn]; rewrite ?Hn; try (rewrite (Hu E) in Hn; done); cbn; known; auto. }
  destruct (turn_reason _ _ _ _) as [ct reason]. cbn in Htr. subst reason.
  rewrite !elem_of_cons, elem_of_nil in Hty. destruct Hty as [E|[E|[E|[E|[]]]]]; rewrite E; cbn; auto.
  by rewrite Hev.
Qed.

(** *** One envelope *)

(** The session before the envelopes that are left: leased to the worker, on its turn, and
    nothing of them stored before. *)
Record ready (f : flushing) (r : session_row) (l : list (queued * io)) : Prop := {
  rd_ok : db_ok (f_db f);
  rd_cache : cache_ok (f_cache f) (f_db f);
  rd_stalled : sid ∉ f_stalled f;
  rd_row : get_session (f_db f) tenant sid None = Some r;
  rd_leased : is_leased_to worker r = true;
  rd_last : last_id (f_db f) tenant sid = Some turn;
  rd_fresh : fresh_events (f_db f) (io_event ∘ snd <$> l);
  rd_nodup : NoDup (key ∘ fst <$> l);
  rd_new : Forall (λ p, key p.1 ∉ ledger (f_db f)) l;
  rd_io : Forall (λ p, sess p.1 = sid ∧ q_raw p.1 ≤ MAX_MESSAGE_BYTES
                       ∧ io_early p.2 = None ∧ io_late p.2 = None) l
}.
(** What one envelope that is applied adds: [ev] to the events, and a wake for each. *)
Definition follows (f f' : flushing) (ev : list event_row) : Prop :=
  events (f_db f') = events (f_db f) ++ ev ∧ wakes (f_out f') = wakes (f_out f) ++ (pair sid <$> ev)
  ∧ rejected (f_out f') = rejected (f_out f) ∧ retry (f_out f') = retry (f_out f).

Lemma envelope_applied ps f r q x l d' ev :
  ready f r ((q, x) :: l) → speaks_of_turn (q_env q) →
  let d := claimed (f_db f) sid (env_seq (q_env q)) in
  (∀ c p, (apply c d x r run_mode p (q_env q)).1.2 = Effects (pair sid <$> ev) [] [] [] []
          ∧ (apply c d x r run_mode p (q_env q)).2 = Ok d') →
  session_step_with ev tenant sid d d' → last_id d' tenant sid = Some turn →
  (ev = [] ∨ ∃ e, ev = [e] ∧ e_id e = io_event x) →
  f_db (ingest_one ps f q x) = d' ∧ follows f (ingest_one ps f q x) ev
  ∧ ∃ r', ready (ingest_one ps f q x) r' l.
Proof.
  intros [Hok Hc Hst Hrow Hl Hlast Hfr Hnd Hnew Hio] He d Happ Hstep Hlast' Hev.
  apply list.Forall_cons in Hio as [(Hs & Hraw & Hearly & Hlate) Hio]. apply list.Forall_cons in Hnew as [Hn Hnew].
  cbn [fst snd] in *. unfold sess in Hs. unfold key in Hn. rewrite Hs in Hn.
  apply get_session_ids in Hrow as Hr. destruct Hr as [Ht Hr].
  assert (s_id r = sid) as Hid by by apply (ok_keyed _ Hok).
  destruct (ingest_one_cache st sha256_hex presign_url head_object cfg StoreTurns session_model exn_str
    library_code worker run_mode ps f q x Hok Hc) as [Hun Hc'].
  destruct (ingest_one_refines st sha256_hex presign_url head_object cfg StoreTurns session_model exn_str
    library_code worker run_mode ps f q x Hok) as [fate Hh]. apply handled_ok in Hh; [|done].
  assert (Ingest.validate (f_cache f) d worker (Some r) (q_env q) (q_raw q)
    = ((Ingest.validate (f_cache f) d worker (Some r) (q_env q) (q_raw q)).1, Ok None)) as Hv.
  { rewrite <- (checks_pass (f_cache f) d r (q_env q) (q_raw q)); try done; [by destruct (Ingest.validate _ _ _ _ _ _)|].
    by apply cache_ok_claimed. }
  assert ((env_type (q_env q) ∉ LEASE_FREE_TYPES) ∧ (env_type (q_env q) ∉ DEFERRED_TYPES)
    ∧ env_type (q_env q) ≠ "session.stopped"%string) as (Hfree & Hdef & Hstop).
  { pose proof (so_type _ He) as Hty. rewrite !elem_of_cons, elem_of_nil in Hty.
    destruct Hty as [E|[E|[E|[E|[]]]]]; rewrite E; split_and!; try done; unfold LEASE_FREE_TYPES, DEFERRED_TYPES; set_solver. }
  set (c := (Ingest.validate (f_cache f) d worker (Some r) (q_env q) (q_raw q)).1) in *.
  destruct (Happ c (ps !! (sid, env_seq (q_env q)))) as [Hfx Hres].
  assert (f_db (ingest_one ps f q x) = d'
    ∧ f_out (ingest_one ps f q x) = ack (merge true (f_out f) (Effects (pair sid <$> ev) [] [] [] [])) sid (env_seq (q_env q))
    ∧ f_stalled (ingest_one ps f q x) = f_stalled f) as (Hdb & Hout & Hst').
  { unfold Ingest.ingest_one. cbv zeta. rewrite Hs, decide_False by done. unfold get_session_by_id.
    rewrite Hr, (bool_decide_false (_ ∈ LEASE_FREE_TYPES)), andb_false_r by done.
    unfold ingest_leased. rewrite Hl. cbn [negb]. rewrite (proj2 (Z.ltb_ge _ _)) by done.
    rewrite decide_False by done. unfold savepoint. cbv zeta. rewrite Hs, Hearly.
    change (may_fail None) with (Ok (E:=exn) ()). cbn [mbind res_bind]. unfold claim. rewrite decide_False by done.
    fold (claimed (f_db f) sid (env_seq (q_env q))). fold d. rewrite Hv.
    destruct (apply c d x r run_mode _ (q_env q)) as [[ca fx] res]. cbn [fst snd] in Hfx, Hres. subst fx res.
    rewrite (bool_decide_false (_ = "session.stopped"%string)) by done. rewrite andb_false_r.
    unfold release. rewrite Hlate. cbn. done. }
  unfold follows. rewrite Hdb in *. split; [done|]. split.
  { rewrite Hout. split; [by rewrite (ss_log _ _ _ _ _ Hstep)|done]. }
  destruct (ss_row _ _ _ _ _ Hstep r Hr) as (r' & Hrows & I1 & I2 & I3). exists r'.
  apply list.NoDup_cons in Hnd as [Hq Hnd].
  split; rewrite ?Hdb; try done.
  - by rewrite Hst'.
  - unfold get_session. rewrite Hrows, lookup_insert_eq. cbn. by rewrite I2, Ht, bool_decide_true.
  - unfold is_leased_to in *. by rewrite I3.
  - destruct Hev as [->|(e & -> & Hi)].
    + apply fresh_events_cons in Hfr as [_ [Hf1 Hf2]]. split; [done|]. rewrite (ss_log _ _ _ _ _ Hstep), app_nil_r. done.
    + apply (fresh_events_step (f_db f) d' e); [by rewrite Hi|by rewrite (ss_log _ _ _ _ _ Hstep)].
  - rewrite (ss_ledger _ _ _ _ _ Hstep). apply list.Forall_forall. intros p Hp.
    rewrite list.Forall_forall in Hnew. cbn. rewrite not_elem_of_union, not_elem_of_singleton. split; [|by apply Hnew].
    intros Heq. apply Hq. unfold compose at 1. cbn [fst]. unfold key at 1. rewrite Hs, <- Heq.
    apply list_elem_of_fmap. by exists p.
Qed.

(** *** The envelopes of an ending *)

Lemma required_turn rest : required_uuid (("turn_id"%string, JStr (str_of_uuid turn)) :: rest) "turn_id" = Ok turn.
Proof. unfold required_uuid. cbn [jget]. rewrite decide_True by done. cbn [py_str]. by rewrite uuid_of_string_str. Qed.
Lemma get_turn_id d t : get_session_turn d tenant sid turn = Some t → t_id t = turn ∧ t ∈ session_turns d tenant sid.
Proof.
  unfold get_session_turn, get_turn. destruct (find_row _ _) as [u|] eqn:E; cbn; [|done]. case_decide; [|done].
  intros [= <-]. apply find_row_Some in E as [[Ht Hi]%bool_decide_eq_true Hin]. split; [done|].
  apply list_elem_of_filter. split; [|done]. unfold of_session. by apply bool_decide_eq_true.
Qed.

Lemma ready_ids f r l : ready f r l → s_tenant r = tenant ∧ s_id r = sid.
Proof.
  intros Hrd. destruct (get_session_ids _ _ _ _ _ (rd_row _ _ _ Hrd)) as [Ht Hr]. split; [done|].
  by apply (ok_keyed _ (rd_ok _ _ _ Hrd)).
Qed.
Lemma status_applied ps f r q x l how code message seq t :
  ready f r ((q, x) :: l) → get_session_turn (f_db f) tenant sid turn = Some t →
  q_env q = Envelope sid (Some turn) seq "turn.status"
    [("turn_id", JStr (str_of_uuid turn)); ("status", JStr how); ("code", code); ("message", message)]%string →
  how ≠ "started"%string →
  let f' := ingest_one ps f q x in
  follows f f' [] ∧ (∃ r', ready f' r' l)
  ∧ turns (f_db f') = turns (set_turn_status (f_db f) turn how (io_now x)) ∧ acct (f_db f') = acct (f_db f).
Proof.
  intros Hrd Ht Hq Hhow f'. set (d := claimed (f_db f) sid (env_seq (q_env q))).
  assert (db_ok d) as Hok by apply claimed_ok, Hrd.
  destruct (envelope_applied ps f r q x l (set_turn_status d turn how (io_now x)) [] Hrd) as (Hdb & Hf & Hr).
  - split; rewrite Hq; cbn [env_type env_payload jget]; known; [in_list|by right|done|cbn; congruence|done|done].
  - fold d. intros c p. unfold Ingest.apply. rewrite Hq. cbn [env_type env_payload]. cbv zeta. known.
    unfold apply_turn_status. cbn [jget]. known. rewrite required_turn. cbn [mbind res_bind jstr].
    rewrite decide_False by congruence. destruct (ready_ids _ _ _ Hrd) as [-> ->].
    change (get_session_turn d tenant sid turn) with (get_session_turn (f_db f) tenant sid turn). by rewrite Ht.
  - by apply (step_set_turn tenant sid d turn t).
  - fold d. rewrite last_id_set_status. apply Hrd.
  - by left.
  - fold f' in Hdb, Hf, Hr. rewrite Hdb. done.
Qed.
Lemma apply_no_usage d t how f usage store now mode :
  no_usage turn how f usage → get_session_turn d tenant sid turn = Some t → how ≠ ""%string →
  ∃ stored s, apply_usage session_model store d now tenant sid mode usage
    = Accounting.write_turn_log session_model (set_turn_usage d turn stored now) now store tenant sid turn s
    ∧ ts_status s = how ∧ ts_error_code s = Some (f_code f).
Proof.
  intros (latency & request & user & tally & ->) Ht Hne. unfold usage_payload.
  destruct (Sink.snapshot tally) as [[[tools tc] mcps] mc]. unfold apply_usage.
  rewrite required_turn. cbn [mbind res_bind]. rewrite Ht.
  match goal with |- context [usage_from ?u] => replace (usage_from u) with (Ok (E:=exn) empty_usage) end.
  2:{ cbn [jget]. known. reflexivity. }
  cbn [mbind res_bind]. do 2 eexists. split; [reflexivity|]. cbn [ts_status ts_error_code]. unfold str_or.
  cbn [jget]. known. cbn. by rewrite bool_decide_false.
Qed.
Lemma no_usage_status how f usage : no_usage turn how f usage → jget "status" usage = Some (JStr how).
Proof.
  intros (latency & request & user & tally & ->). unfold usage_payload.
  destruct (Sink.snapshot tally) as [[[tools tc] mcps] mc]. cbn [jget]. by known.
Qed.
Lemma session_turn_eq d d' : turns d = turns d' → get_session_turn d tenant sid turn = get_session_turn d' tenant sid turn.
Proof. unfold get_session_turn, get_turn. by intros ->. Qed.
Lemma session_turn_same d d' :
  Forall2 same_key (turns d) (turns d') →
  option_Forall2 same_key (get_session_turn d tenant sid turn) (get_session_turn d' tenant sid turn).
Proof.
  intros Hk. unfold get_session_turn, get_turn, find_row.
  apply (filter_same (λ t, bool_decide (t_tenant t = tenant ∧ t_id t = turn) = true)) in Hk;
    [|by intros t u (-> & -> & _)%same_key_inv].
  destruct Hk as [|t u l l' Hk _]; [constructor|]. cbn. apply same_key_inv in Hk as Hk'.
  destruct Hk' as (_ & _ & -> & _). case_decide; by constructor.
Qed.
Lemma usage_applied ps f r q x l how f0 usage seq t :
  ready f r ((q, x) :: l) → get_session_turn (f_db f) tenant sid turn = Some t →
  get_turn_log (acct (f_db f)) tenant turn = None →
  q_env q = Envelope sid (Some turn) seq "usage" usage → no_usage turn how f0 usage →
  how ∈ LOG_STATUSES →
  let f' := ingest_one ps f q x in
  follows f f' [] ∧ (∃ r', ready f' r' l) ∧ Forall2 same_key (turns (f_db f)) (turns (f_db f'))
  ∧ ∃ log, get_turn_log (acct (f_db f')) tenant turn = Some log ∧ l_status log = how
           ∧ l_error_code log = Some (f_code f0).
Proof.
  intros Hrd Ht Hlog Hq Hu Hhow f'. set (d := claimed (f_db f) sid (env_seq (q_env q))).
  assert (how ≠ ""%string ∧ how ≠ "started"%string) as [Hne Hns].
  { split; intros ->; pose proof (bool_decide_eq_true_2 _ Hhow) as Hc; vm_compute in Hc; done. }
  assert (db_ok d) as Hok by apply claimed_ok, Hrd.
  destruct (apply_no_usage d t how f0 usage StoreTurns (io_now x) run_mode Hu Ht Hne) as (stored & s & Ha & Hst & Hec).
  set (d1 := set_turn_usage d turn stored (io_now x)) in *.
  assert (session_step tenant sid d d1) as H1 by by apply (step_set_turn tenant sid d turn t).
  assert (Forall2 same_key (turns (f_db f)) (turns d1)) as Hk by by apply same_update.
  assert (∃ u, get_session_turn d1 tenant sid turn = Some u ∧ t_id u = turn) as (u & Hu1 & Hid).
  { pose proof (session_turn_same (f_db f) d1 Hk) as Ho. rewrite Ht in Ho. inversion Ho as [? u Hku E1 E2|].
    exists u. split; [done|]. by apply (get_turn_id d1). }
  pose proof (write_log_outcome session_model tenant sid (io_now x) d1 u s) as Hw. rewrite Hid in Hw.
  change (acct d1) with (acct (f_db f)) in Hw. rewrite Hlog, Hst, Hec in Hw.
  destruct (Hw Hu1 Hhow) as (a & log & Hw' & Hl & Hls & Hle).
  destruct (envelope_applied ps f r q x l (with_acct d1 a) [] Hrd) as (Hdb & Hf & Hr).
  - split; rewrite Hq; cbn [env_type env_payload]; known; try done.
    + in_list.
    + by right.
    + rewrite (no_usage_status _ _ _ Hu). cbn. congruence.
  - fold d. intros c p. unfold Ingest.apply. rewrite Hq. cbn [env_type env_payload]. cbv zeta. known.
    destruct (ready_ids _ _ _ Hrd) as [-> ->]. rewrite Ha, Hw'. done.
  - fold d. eapply (session_step_then _ _ d d1); [done|apply step_acct].
  - rewrite <- (rd_last _ _ _ Hrd). change (last_id (with_acct d1 a) tenant sid) with (last_id d1 tenant sid).
    symmetry. apply ids_same. by apply session_turns_same.
  - by left.
  - fold f' in Hdb, Hf, Hr. rewrite Hdb. split; [done|]. split; [done|]. split; [done|]. eauto.
Qed.
Lemma event_applied ps f r q x l type data turn' :
  ready f r ((q, x) :: l) → type ∈ PUBLIC_EVENT_TYPES → type ∉ LIVE_EVENT_TYPES →
  (turn' = None ∨ turn' = Some turn) → default None (turn_id_in data) = turn' →
  content_of (q_env q) = (sid, event_content type data turn') →
  let f' := ingest_one ps f q x in
  ∃ e, follows f f' [e] ∧ e_type e = type ∧ e_data e = data ∧ (∃ r', ready f' r' l)
       ∧ turns (f_db f') = turns (f_db f) ∧ acct (f_db f') = acct (f_db f) ∧ sessions (f_db f') = sessions (f_db f).
Proof.
  intros Hrd Hp Hl Hturn' Hd Hc f'.
  assert (∃ n, q_env q = Envelope sid turn' n "event" (event_content type data turn').2) as [n Hq].
  { destruct (q_env q) as [s t n ty payload]. injection Hc as -> -> -> ->. by exists n. }
  pose proof (envelope_applied ps f r q x l) as Happ. rewrite Hq in Happ. cbn [env_seq] in Happ.
  set (d := claimed (f_db f) sid n) in Happ.
  destruct (ready_ids _ _ _ Hrd) as [Htn Hid].
  assert (get_session d tenant sid None = Some r) as Hrow by apply (rd_row _ _ _ Hrd).
  assert (∃ e, Db.append_event d (io_now x) (io_event x) tenant sid type data = Ok (with_events d (events d ++ [e]), e)
    ∧ e_id e = io_event x ∧ e_type e = type ∧ e_data e = data) as (e & Ha & Hei & Het & Hed).
  { unfold Db.append_event. rewrite Hrow. rewrite decide_False by (apply (rd_fresh _ _ _ Hrd); by left). eauto. }
  exists e. destruct (Happ (with_events d (events d ++ [e])) [e] Hrd) as (Hdb & Hf & Hr).
  - split; cbn [env_type env_payload event_content snd]; known; try done.
    + in_list.
    + destruct Hturn' as [E|E]; rewrite E in Hd |- *; [left|by right]. unfold envelope_turn_id. cbn. exact Hd.
    + intros _. unfold event_reason. cbn [jget]. known. cbn [jstr].
      by rewrite decide_False, decide_False by (done || by intros Hn; apply Hn).
  - intros c p. unfold Ingest.apply. cbn [env_type env_payload event_content snd]. cbv zeta. known.
    rewrite Htn, Hid. unfold apply_event. cbn [jget]. known. change (default [] (jobj (Some (JObj data)))) with data.
    rewrite Ha. done.
  - by apply step_append_event in Ha as [? _].
  - apply (rd_last _ _ _ Hrd).
  - right. eauto.
  - fold f' in Hdb, Hf, Hr. rewrite Hdb. done.
Qed.
Lemma session_applied ps f r q x l seq :
  ready f r ((q, x) :: l) → q_env q = Envelope sid None seq "session.status" idle_changes →
  let f' := ingest_one ps f q x in
  follows f f' [] ∧ (∃ r', ready f' r' l)
  ∧ turns (f_db f') = turns (f_db f) ∧ acct (f_db f') = acct (f_db f) ∧ settled_row tenant sid (f_db f').
Proof.
  intros Hrd Hq f'. set (d := claimed (f_db f) sid (env_seq (q_env q))).
  destruct (ready_ids _ _ _ Hrd) as [Htn Hid].
  assert (get_session d tenant sid None = Some r) as Hrow by apply (rd_row _ _ _ Hrd).
  set (r1 := set_session r "idle" (s_environment r) (s_metadata r) (JArr []) (io_now x)).
  assert (Db.update_session d (io_now x) tenant sid None (Changes (Some "idle"%string) None None (Some (JArr [])))
    = Ok (put_row d r1, Some r1)) as Hup.
  { unfold Db.update_session. rewrite Hrow. cbv zeta. by rewrite decide_True by in_list. }
  destruct (envelope_applied ps f r q x l (put_row d r1) [] Hrd) as (Hdb & Hf & Hr).
  - split; rewrite Hq; cbn [env_type env_payload]; known; try done; [in_list|by left].
  - fold d. intros c p. unfold Ingest.apply. rewrite Hq. cbn [env_type env_payload]. cbv zeta. known.
    rewrite Htn, Hid. unfold apply_session_status, idle_changes. cbn [jget]. known.
    cbn [present mbind res_bind]. rewrite Hup. done.
  - fold d. apply get_session_ids in Hrow as [_ Hrow]. by apply (step_row _ _ _ r).
  - apply (rd_last _ _ _ Hrd).
  - by left.
  - fold f' in Hdb, Hf, Hr. rewrite Hdb. split_and!; try done. exists r1. split; [|done].
    unfold get_session. cbn. rewrite Hid, lookup_insert_eq. cbn. by rewrite Htn, bool_decide_true.
Qed.

(** *** All of them *)

Definition contents (l : list (queued * io)) : list (uuid * content) := (λ p, content_of (q_env p.1)) <$> l.
Lemma contents_cons l ty t payload cs :
  contents l = pair sid <$> ((ty, t, payload) :: cs) →
  ∃ q x l' n, l = (q, x) :: l' ∧ q_env q = Envelope sid t n ty payload ∧ contents l' = pair sid <$> cs.
Proof.
  destruct l as [|[q x] l]; [done|]. intros [= Hs Hty Ht Hp Hl]. exists q, x, l, (env_seq (q_env q)).
  split_and!; [done| |done]. destruct (q_env q). cbn in *. by subst.
Qed.
Lemma follows_trans f1 f2 f3 e1 e2 : follows f1 f2 e1 → follows f2 f3 e2 → follows f1 f3 (e1 ++ e2).
Proof.
  intros (A1 & B1 & C1 & D1) (A2 & B2 & C2 & D2). unfold follows.
  rewrite A2, A1, B2, B1, C2, C1, D2, D1, fmap_app, !app_assoc. done.
Qed.
Lemma running_same d d' :
  Forall2 same_key (turns d) (turns d') → running_turns d tenant sid = [] → running_turns d' tenant sid = [].
Proof.
  intros Hk Hr. apply (session_turns_same _ _ tenant sid) in Hk.
  apply (filter_same (λ t, is_running t = true)) in Hk.
  - unfold running_turns in *. rewrite Hr in Hk. by inversion Hk.
  - intros t u (_ & _ & _ & Ht & _)%same_key_inv. unfold is_running. by rewrite Ht.
Qed.

#[local] Abbreviation ingest_all := (ingest_all sha256_hex presign_url head_object cfg StoreTurns
  session_model exn_str library_code st worker run_mode).

(** The types of the events of an ending. *)
Definition closing_events (how : string) : list string :=
  (if decide (how = "failed"%string) then ["agent.session.error"%string] else []) ++ ["agent.session.idle"%string].
Lemma idle_applied ps f r l :
  ready f r l → contents l = pair sid <$> closing_contents None →
  let f' := ingest_all ps f l in
  ∃ e, follows f f' [e] ∧ e_type e = "agent.session.idle"%string ∧ settled_row tenant sid (f_db f')
       ∧ turns (f_db f') = turns (f_db f) ∧ acct (f_db f') = acct (f_db f).
Proof.
  intros Hrd Hl. apply contents_cons in Hl as (q1 & x1 & l1 & n1 & -> & Hq1 & Hl).
  apply contents_cons in Hl as (q2 & x2 & l2 & n2 & -> & Hq2 & Hl). destruct l2; [|done].
  destruct (session_applied ps f r q1 x1 _ n1 Hrd Hq1) as (F1 & (r1 & Hrd1) & T1 & A1 & (r' & S1)).
  destruct (event_applied ps _ r1 q2 x2 _ "agent.session.idle" [] None Hrd1) as (e & F2 & E2 & _ & _ & T2 & A2 & S2);
    [in_list|by apply (bool_decide_unpack _); vm_compute|by left|done|by rewrite Hq2|].
  exists e. cbn [Ingest.ingest_all foldl fst snd]. split; [apply (follows_trans _ _ _ [] [e] F1 F2)|].
  split; [done|]. split; [|by rewrite T2, T1, A2, A1].
  exists r'. unfold get_session. rewrite S2. exact S1.
Qed.
Lemma closing_applied ps f r l how error :
  ready f r l → contents l = pair sid <$> closing_contents error → error_fits how error →
  let f' := ingest_all ps f l in
  ∃ es, follows f f' es ∧ e_type <$> es = closing_events how ∧ settled_row tenant sid (f_db f')
        ∧ turns (f_db f') = turns (f_db f) ∧ acct (f_db f') = acct (f_db f).
Proof.
  intros Hrd Hl Herr. unfold closing_events. destruct error as [error|].
  - destruct Herr as [-> Herr]. apply contents_cons in Hl as (q & x & l1 & n & -> & Hq & Hl).
    destruct (event_applied ps f r q x _ "agent.session.error" error None Hrd) as (e & F1 & E1 & _ & (r1 & Hrd1) & T1 & A1 & _);
      [in_list|by apply (bool_decide_unpack _); vm_compute|by left|by rewrite Herr|by rewrite Hq|].
    destruct (idle_applied ps _ r1 l1 Hrd1 Hl) as (e2 & F2 & E2 & S2 & T2 & A2).
    exists [e; e2]. split; [apply (follows_trans _ _ _ [e] [e2] F1 F2)|].
    split; [by csimpl; rewrite E1, E2|]. split; [exact S2|]. split; [exact (eq_trans T2 T1)|exact (eq_trans A2 A1)].
  - destruct (idle_applied ps _ r l Hrd Hl) as (e2 & F2 & E2 & S2 & T2 & A2).
    exists [e2]. split; [done|]. split; [|done]. rewrite decide_False by done. by csimpl; rewrite E2.
Qed.
(** The turn has ended as [how]. *)
Record turn_over (d : db) (how : string) (f : failure) : Prop := {
  ov_turn : ∃ t, get_session_turn d tenant sid turn = Some t ∧ t_status t = how;
  ov_running : running_turns d tenant sid = [];
  ov_log : ∃ log, get_turn_log (acct d) tenant turn = Some log ∧ l_status log = how ∧ l_error_code log = Some (f_code f);
  ov_row : settled_row tenant sid d
}.
Lemma ending_applied ps f r l how f0 usage data error t :
  ready f r l → contents l = pair sid <$> ending_contents turn how f0 usage data error →
  how ∈ ["failed"; "cancelled"]%string → no_usage turn how f0 usage →
  default None (turn_id_in data) = Some turn → error_fits how error →
  running_turns (f_db f) tenant sid = [t] → t_id t = turn → get_turn_log (acct (f_db f)) tenant turn = None →
  let f' := ingest_all ps f l in
  ∃ es, follows f f' es ∧ turn_over (f_db f') how f0
        ∧ e_type <$> es = ("agent.session.turn." ++ how)%string :: closing_events how.
Proof.
  intros Hrd Hl Hhow Hu Hd Herr Hrun Hid Hlog f'.
  assert (get_session_turn (f_db f) tenant sid turn = Some t) as Ht.
  { rewrite <- Hid. apply session_turn_found; [apply Hrd|].
    apply (list_elem_of_filter (λ t, is_running t = true)). unfold running_turns in Hrun. rewrite Hrun. by left. }
  assert (how ∈ LOG_STATUSES ∧ how ≠ "started"%string ∧ how ≠ "in_progress"%string
    ∧ ("agent.session.turn." ++ how)%string ∈ PUBLIC_EVENT_TYPES
    ∧ ("agent.session.turn." ++ how)%string ∉ LIVE_EVENT_TYPES) as (Hlg & Hns & Hnp & Hpub & Hlive).
  { rewrite !elem_of_cons, elem_of_nil in Hhow.
    destruct Hhow as [->|[->|[]]]; (split_and!; [in_list|done|done|in_list|apply (bool_decide_unpack _); vm_compute; exact I]). }
  apply contents_cons in Hl as (q1 & x1 & l1 & n1 & -> & Hq1 & Hl).
  apply contents_cons in Hl as (q2 & x2 & l2 & n2 & -> & Hq2 & Hl).
  apply contents_cons in Hl as (q3 & x3 & l3 & n3 & -> & Hq3 & Hl).
  destruct (status_applied ps f r q1 x1 _ how _ _ n1 t Hrd Ht Hq1 Hns) as (F1 & (r1 & Hrd1) & T1 & A1).
  set (f1 := Ingest.ingest_one _ _ _ _ _ _ _ _ _ _ _ _ f q1 x1) in *.
  assert (∃ t1, get_session_turn (f_db f1) tenant sid turn = Some t1 ∧ t_status t1 = how) as (t1 & Ht1 & Hs1).
  { rewrite (session_turn_eq _ _ T1), <- Hid.
    destruct (turn_found_after tenant sid (io_now x1) (f_db f) t how (rd_ok _ _ _ Hrd) (proj2 (get_turn_id _ _ Ht)))
      as (u & Hu1 & _ & Hu2). eauto. }
  assert (running_turns (f_db f1) tenant sid = []) as Hrun1.
  { rewrite (running_turns_same _ _ _ _ T1), <- Hid. by apply running_after_end; [|apply Hrd|]. }
  destruct (usage_applied ps f1 r1 q2 x2 _ how f0 usage n2 t1 Hrd1 Ht1) as (F2 & (r2 & Hrd2) & K2 & log & L2 & S2 & C2);
    [by rewrite A1|done..|].
  set (f2 := Ingest.ingest_one _ _ _ _ _ _ _ _ _ _ _ _ f1 q2 x2) in *.
  destruct (event_applied ps f2 r2 q3 x3 _ _ data (Some turn) Hrd2 Hpub Hlive) as (e & F3 & E3 & _ & (r3 & Hrd3) & T3 & A3 & _);
    [by right|done|by rewrite Hq3|].
  set (f3 := Ingest.ingest_one _ _ _ _ _ _ _ _ _ _ _ _ f2 q3 x3) in *.
  destruct (closing_applied ps f3 r3 l3 how error Hrd3 Hl Herr) as (es & F4 & E4 & S4 & T4 & A4).
  change (ingest_all ps f3 l3) with f' in F4, S4, T4, A4.
  assert (Forall2 same_key (turns (f_db f1)) (turns (f_db f'))) as K by (by rewrite T4, T3).
  exists (e :: es). split; [|split].
  - apply (follows_trans _ _ _ [] _ F1), (follows_trans _ _ _ [] _ F2), (follows_trans _ _ _ [e] _ F3 F4).
  - split; [| | |exact S4].
    + pose proof (session_turn_same _ _ K) as Ho. rewrite Ht1 in Ho. inversion Ho as [? u Hku E1 E2|].
      exists u. split; [done|]. apply same_key_inv in Hku as (_ & _ & _ & Hst & _). congruence.
    + by apply (running_same _ _ K).
    + exists log. rewrite A4, A3. done.
  - csimpl. by rewrite E3, E4.
Qed.

(** The cursors of the end of a batch change nothing of this. *)
Lemma over_advanced d a how f : odict_ok a → turn_over d how f → turn_over (advance_cursors worker d a) how f.
Proof.
  intros Ha [Ht Hr Hl (r & Hrow & Hs & Hacts)]. pose proof (advance_cursors_rest worker a d) as E.
  split; [by rewrite E..|]. apply get_session_ids in Hrow as [Htn Hrow].
  exists (advanced worker (a !! sid) r). unfold get_session. rewrite advance_cursors_lookup, Hrow by done.
  cbn. assert (s_tenant (advanced worker (a !! sid) r) = tenant ∧ s_status (advanced worker (a !! sid) r) = s_status r
    ∧ s_actions (advanced worker (a !! sid) r) = s_actions r) as (-> & -> & ->).
  { unfold advanced. destruct (a !! sid); [|done]. by case_match. }
  by rewrite bool_decide_true.
Qed.
Lemma flush_ending d0 d r l how f0 usage data error t :
  ready (Flushing d empty_cache ∅ empty_outcome) r l →
  contents l = pair sid <$> ending_contents turn how f0 usage data error →
  how ∈ ["failed"; "cancelled"]%string → no_usage turn how f0 usage →
  default None (turn_id_in data) = Some turn → error_fits how error →
  running_turns d tenant sid = [t] → t_id t = turn → get_turn_log (acct d) tenant turn = None →
  ∃ d' out es, flush_batch d0 d worker run_mode l None = Ok (d', out)
    ∧ rejected out = [] ∧ retry out = [] ∧ events d' = events d ++ es ∧ wakes out = pair sid <$> es
    ∧ e_type <$> es = ("agent.session.turn." ++ how)%string :: closing_events how ∧ turn_over d' how f0.
Proof.
  intros Hrd Hl Hhow Hu Hd Herr Hrun Hid Hlog.
  unfold Ingest.flush_batch, flush_with. rewrite decide_False by (intros ->; done).
  match goal with |- context [Ingest.ingest_all _ _ _ _ _ _ _ _ _ _ _ ?ps ?f ?l] =>
    destruct (ending_applied ps f r l how f0 usage data error t Hrd Hl Hhow Hu Hd Herr Hrun Hid Hlog)
      as (es & (E1 & E2 & E3 & E4) & Hov & Hes);
    destruct (ingest_all_refines st sha256_hex presign_url head_object cfg StoreTurns session_model exn_str
      library_code worker run_mode ps f l (rd_ok _ _ _ Hrd)) as (ts & Hts & _) end.
  set (f' := ingest_all _ _ _) in *. cbn in E1, E2, E3, E4.
  eexists _, _, es. split; [reflexivity|]. split_and!; try done.
  - rewrite advance_cursors_rest. exact E1.
  - apply over_advanced; [|done]. by apply (handled_all_acks_ok _ _ _ _ _ Hts), odict_ok_empty.
Qed.
End api.

(** ** From the worker to the database *)

Lemma seen_posted {T} (tok : envelope → T) t : seen tok t = (λ x, tok (body x)) <$> posted t.
Proof. unfold seen, posted. induction t as [|[] t IH]; csimpl; [done|by f_equal|done..]. Qed.

(** C4: a turn that fails or is cancelled on the worker ends at the API.  When the outbox
    takes its reports and a batch of them arrives, with no fault of the database, at a
    session that is leased to the worker and on this turn, nothing of the batch is rejected
    or handed back; the turn has the status of its ending and no turn of the session runs,
    its log is written with the code of the failure, the events of the ending are stored
    and sent to the streams in their order, and the session is idle with nothing required. *)
Theorem ending_settles {S : Type} `{ObjectStore S} (st : S) sha256_hex presign_url head_object settings
    session_model exn_str library_code worker run_mode
    cfg clock spool_ok classify_host_message a how f m w w' t x d0 d r l t0 :
  (a_turn a < 2 ^ 128)%N →
  (how = "failed"%string ∧ (∃ message code given,
     m = fail_turn cfg clock spool_ok classify_host_message a message code given
     ∧ f = match given with Some f => f | None => failure_for classify_host_message code message end)
   ∨ how = "cancelled"%string ∧ m = cancel_turn cfg clock spool_ok classify_host_message a
     ∧ f = failure_for classify_host_message "cancelled" "Cancelled") →
  bound (a_tenant a) (a_session a) w → m w = (w', t, x) → accepted t →
  q_env ∘ fst <$> l = body <$> posted t →
  ready worker (a_tenant a) (a_session a) (a_turn a) (Flushing d empty_cache ∅ empty_outcome) r l →
  running_turns d (a_tenant a) (a_session a) = [t0] → t_id t0 = a_turn a →
  get_turn_log (acct d) (a_tenant a) (a_turn a) = None →
  ∃ d' out es,
    flush_batch sha256_hex presign_url head_object settings StoreTurns session_model exn_str library_code st
      d0 d worker run_mode l None = Ok (d', out)
    ∧ rejected out = [] ∧ retry out = [] ∧ events d' = events d ++ es ∧ wakes out = pair (a_session a) <$> es
    ∧ e_type <$> es = ("agent.session.turn." ++ how)%string :: closing_events how
    ∧ turn_over (a_tenant a) (a_session a) (a_turn a) d' how f.
Proof.
  intros Hturn Hm Hb Hrun Hacc Hl Hrd Ht0 Hid Hlog.
  assert (ended_as a how f (seen content_of t)) as (usage & data & error & Hu & Hd & Herr & Hseen).
  { destruct Hm as [(-> & message & code & given & -> & ->)|(-> & -> & ->)].
    - by apply (says_fail_turn cfg clock spool_ok classify_host_message a Hturn message code given) in Hrun as [_ Hs];
        [apply Hs in Hacc as [? _]|].
    - by apply (says_cancel_turn cfg clock spool_ok classify_host_message a Hturn) in Hrun as [_ Hs];
        [apply Hs in Hacc as [? _]|]. }
  apply (flush_ending st sha256_hex presign_url head_object settings session_model exn_str library_code worker
    run_mode (a_tenant a) (a_session a) (a_turn a) Hturn d0 d r l how f usage data error t0); try done.
  - rewrite <- Hseen, seen_posted. transitivity (content_of <$> (q_env ∘ fst <$> l)).
    + by rewrite <- list_fmap_compose.
    + by rewrite Hl, <- list_fmap_compose.
  - destruct Hm as [[-> _]|[-> _]]; in_list.
Qed.

(** *** A failed turn of a leased session *)

Definition se_row : session_row :=
  SessionRow 7 1 None "k" None None "in_progress" (JObj []) (JObj []) (JArr [])
    (LeaseCols (Some 9%N) (Some 4%N) (Some 5) 0) ing_sandbox None 0 1.
Definition se_turn : turn_row := TurnRow 9 1 7 "in_progress" None 3 3.
Definition se_db : db := Db {[ 7%N := se_row ]} [se_turn] [] [] [] [] [] [] ∅ (Acct [] [] []).
Definition se_fail : act () :=
  fail_turn rt_cfg rt_clock (λ _, true) no_classify rt_args "Pi ended" "pi_exited" None.
Definition se_out : turn_world * list effect * res raised () := se_fail (rt_world (init_outbox ∅)).
Lemma se_out_eq : se_fail (rt_world (init_outbox ∅)) = (se_out.1.1, se_out.1.2, se_out.2).
Proof. unfold se_out. by destruct (se_fail _) as [[? ?] ?]. Qed.
Lemma se_accepted : accepted se_out.1.2.
Proof. apply accepted_bool. vm_compute. reflexivity. Qed.
Definition se_batch : list (queued * io) :=
  (λ x, (Queued (body x) 200, Io 10 (Z.to_N (env_seq (body x))) 0 0 None None None)) <$> posted se_out.1.2.
Lemma se_delivered : q_env ∘ fst <$> se_batch = body <$> posted se_out.1.2.
Proof. vm_compute. reflexivity. Qed.
Lemma se_ready : ready 9 1 7 9 (Flushing se_db empty_cache ∅ empty_outcome) se_row se_batch.
Proof.
  split; try (by apply cache_ok_empty).
  - split; try (by apply NoDup_nil_2); [|by apply NoDup_singleton|done].
    intros sid r Hr. cbn [f_db se_db sessions] in Hr. apply lookup_singleton_Some in Hr as [<- <-]. done.
  - by apply not_elem_of_empty.
  - vm_compute. reflexivity.
  - vm_compute. reflexivity.
  - vm_compute. reflexivity.
  - split; [apply (bool_decide_unpack _); vm_compute; exact I|by intros e _ ?%elem_of_nil].
  - apply (bool_decide_unpack _). vm_compute. exact I.
  - apply list.Forall_forall. intros p _. apply not_elem_of_empty.
  - apply (bool_decide_unpack _). vm_compute. exact I.
Qed.
Lemma ending_settles_witness : ∃ d' out es,
  flush_batch demo_sha demo_url demo_head demo_settings StoreTurns (λ _ _, None) (λ _, ""%string) (λ _, None)
    (∅ : gmap (list ascii) (list ascii)) se_db se_db 9 None se_batch None = Ok (d', out)
  ∧ e_type <$> es = ["agent.session.turn.failed"; "agent.session.error"; "agent.session.idle"]%string
  ∧ turn_over 1 7 9 d' "failed" (failure_for no_classify "pi_exited" "Pi ended").
Proof.
  destruct (ending_settles (∅ : gmap (list ascii) (list ascii)) demo_sha demo_url demo_head demo_settings
    (λ _ _, None) (λ _, ""%string) (λ _, None) 9 None rt_cfg rt_clock (λ _, true) no_classify rt_args "failed"
    (failure_for no_classify "pi_exited" "Pi ended") se_fail (rt_world (init_outbox ∅)) se_out.1.1 se_out.1.2 se_out.2
    se_db se_db se_row se_batch se_turn) as (d' & out & es & Hf & _ & _ & _ & _ & Hes & Ho).
  - vm_compute. reflexivity.
  - left. split; [reflexivity|]. exists "Pi ended"%string, "pi_exited"%string, None. split; reflexivity.
  - exact (conj eq_refl eq_refl).
  - exact se_out_eq.
  - exact se_accepted.
  - exact se_delivered.
  - exact se_ready.
  - vm_compute. reflexivity.
  - reflexivity.
  - vm_compute. reflexivity.
  - exists d', out, es. split; [exact Hf|]. split; [exact Hes|exact Ho].
Defined.
